(* ===== verification/_CoqProject ===== *)
-Q . S2P
Prelude.v
OrdMap.v
Text.v
Settings.v
Evidence.v
Request.v
Vars.v
LoadModel.v
Units.v
Observe.v
Histogram.v
ProtoAccum.v
Metrics.v
Ledger.v
Executor.v
Plan.v
Dataset.v
Iteration.v
Bytes.v
Decoder.v
Framing.v
DatagramChannel.v
Utf8.v
Sse.v
Secret.v
Transcript.v
Recorder.v
WsDeflate.v
Redaction.v
Redactor.v
RedactedFields.v
Cookies.v
Fence.v
Pool.v
Tickets.v
XmlLimits.v
XPath.v
CookieJars.v
EngineState.v
Json.v
Float64.v
Assertions.v
Patch.v
Infer.v
InferSchema.v
IpText.v
ProxyProtocol.v
RecordRedaction.v
RunModel.v
RunSecrets.v
Runner.v
Refs.v
Route.v
Operations.v
