(* ===== verification/Prelude.v ===== *)
(** * Ferrum Anvil: a verification library

    Ferrum Anvil is a desktop and command-line client for HTTP, WebSocket,
    gRPC, SSE, TCP, UDP/DTLS and tunnelled datagram exchanges, with a load
    generator, an encrypted workspace and tools for API descriptions. This
    library models the parts of it that decide results by themselves, in the
    words of the source, and proves what makes them correct.

    ** The program and how its parts meet

    - crates/anvil-domain holds the records every crate shares: settings,
      requests, evidence of executions, load plans.
    - crates/anvil-engine prepares a request (settings, variables,
      authentication, cookies), has crates/anvil-transport perform it, and
      records what was observed with known secrets withheld.
    - crates/anvil-transport opens connections and tunnels, frames and parses
      what goes through them, and keeps pools and caches between executions.
    - crates/anvil-load drives many executions: a plan is checked, iterations
      are claimed by concurrent tasks, each send is observed and counted in a
      shard, and shards, ledger and timeline become a report.
    - crates/anvil-runner runs a list of saved requests over the engine, once
      per iteration, forwards the values their responses gave, scrubs what it
      records of them and writes a report.
    - crates/anvil-contract reads API descriptions: references are resolved
      once per document, observed requests are routed to its operations,
      observed traffic becomes inferred schemas, and suggested changes are
      patches to the description.

    An execution runs under a [SensitiveEpoch] (EngineState.v) taken before it
    reads anything secret; a lock of the vault or the delete of a workspace
    advances an epoch or a generation, and every cache an execution writes to
    (cookie jars, TLS configurations, connections) compares it under its own
    mutex. That interplay is the subject of EngineState.v, CookieJars.v,
    Fence.v and Pool.v. In the load engine the interplay is between tasks that
    share shards and a ledger (Executor.v over Ledger.v and Metrics.v), and
    the engine is an argument of Iteration.v.

    ** Files

    Foundations
    - Prelude.v: integers at their width, errors, generic lemmas, tactics, the
      hint database [anvil];
    - OrdMap.v: [BTreeMap]; Text.v: [str]; Utf8.v: UTF-8 as the standard
      library checks it; Bytes.v: byte strings and network order; IpText.v:
      [std::net] addresses and their text; Json.v: [serde_json::Value] with
      its insertion-ordered maps; Float64.v: [f64] as it is parsed and ordered.

    Data (field for field)
    - Settings.v: anvil-domain/src/settings.rs and anvil-engine/src/settings.rs
      ([resolve] and its provenance);
    - Evidence.v: anvil-domain/src/execution.rs, outcome.rs and what they hold;
    - Request.v: anvil-domain/src/request.rs and what it holds;
    - LoadModel.v: anvil-domain/src/load.rs.

    Preparation and secrets
    - Vars.v: anvil-engine/src/vars.rs. Lookup, recursive expansion, cycles;
    - Secret.v: anvil-domain/src/secret.rs. Redaction before a cut;
    - Redaction.v, Redactor.v, RedactedFields.v: anvil-engine/src/redact.rs.
      Ranges replaced, the secrets known and their forms, URLs and headers;
    - RecordRedaction.v: redact.rs ([record_metadata], [finding]) and record.rs
      ([redact_attempts]). The same over a whole record;
    - Cookies.v: anvil-engine/src/cookies.rs. One bounded jar;
    - CookieJars.v: anvil-engine/src/lib.rs ([CookieJars]) and http_exec.rs
      (the Cookie header of a request);
    - EngineState.v: anvil-engine/src/lib.rs ([Engine]). Epochs, generations,
      jars, TLS cache, snapshot, under any interleaving.

    Transport
    - Fence.v: anvil-transport/src/fence.rs and the interface of a fenced
      cache, [FencedCache]; Pool.v: http.rs ([Pool]), an instance of it;
      Tickets.v: tickets.rs, another;
    - Transcript.v: session.rs ([Transcript]). The bounded, redacted history of
      a session; Recorder.v: recorder.rs and the end of an attempt in
      session.rs. Phases and the events that tell of them;
    - WsDeflate.v: ws_deflate.rs and the negotiation of ws.rs. The compression
      offer, the answer's validation, the meter of frames;
    - Decoder.v: the interface of an incremental decoder and what any chunking
      of a stream yields; Framing.v: its instances (hbone_udp.rs, masque.rs,
      grpc.rs, grpc_web.rs); DatagramChannel.v: the tunnelled datagram channels
      over them; Sse.v: sse.rs;
    - ProxyProtocol.v: proxy_protocol.rs. Headers, the receiver's check, the
      authenticated datagram envelope, their evidence.

    Evaluation
    - XmlLimits.v: anvil-xml-limits/src/lib.rs. The scan of XML text before it
      is parsed;
    - XPath.v, Assertions.v: anvil-engine/src/assertions.rs. The XPath subset
      and its evaluation, assertions and extractions over a response.

    Load
    - Units.v: anvil-load/src/protocol.rs; Observe.v, Histogram.v,
      ProtoAccum.v, Metrics.v: metrics.rs. One send classified, latency
      distributions, protocol denominators, one shard;
    - Ledger.v, Executor.v: executor.rs. The critical sections of the ledger,
      and the shared state of a run under any interleaving of them;
    - Plan.v: executor.rs and schedule.rs; Dataset.v: dataset.rs;
      Iteration.v: executor.rs ([run_iteration]).

    Collection runs
    - RunModel.v: anvil-domain/src/runner.rs and anvil-runner/src/emit.rs,
      dataset.rs, plan.rs; RunSecrets.v: redact.rs of the runner. What a run
      knows and withholds; Runner.v: run.rs. The loop over iterations and
      steps, whose engine, provider, cancellation and clock are arguments, and
      a trace of what was sent, recorded and finished.

    Descriptions
    - Patch.v: anvil-contract/src/patch.rs; Infer.v, InferSchema.v: infer.rs;
    - Refs.v: spec.rs. References and their cache, the meter of resolutions, the
      pointers of a document; Route.v: route.rs and the paths of model.rs. The
      router of a description and the operation a request is; Operations.v:
      model.rs. An operation's parameters, bodies and responses under a meter.

    State is passed along: a method on [&mut self] is a function that also
    returns the state, an early return is the branch that returns, a [Result]
    is [result] and a panic [None] where a component can panic. Where tasks
    share state, a step is what the code does between two acquisitions of a
    mutex or two atomic accesses, and a run is any list of steps.

    ** What the theorems show

    - Load accounting: a snapshot agrees with the ledger once the shards are
      unlocked, the timeline counts every send in the bucket it belongs to,
      the ledger balances after any run, shards merge as if they had been one,
      every send is in exactly one class, told from its observation, success is
      what the unit promises.
    - Fences: after a lock or a delete, under any interleaving, nothing of an
      earlier execution is in a jar, the TLS cache, the pool or the ticket
      cache; the engine's mutexes never deadlock; pools and jars keep their
      bounds, a checked-out connection is exclusive.
    - Secrets: a known secret is never shown whole or in a known form, texts
      are only withheld, never altered otherwise, excerpts cut after redaction,
      credentials in URLs and headers are withheld, the evidence of a
      datagram session does not depend on its key, an inferred schema holds no
      data, a transcript shows only redacted text and keeps its bounds, and the
      texts that the pass over a record rewrites show no secret. No reading of
      a redacted URL finds one, also behind escapes, and a stored cookie's name
      shows none.
    - Collection runs: the totals balance as their documentation says, steps
      are sent in order, once, and not after a stop; a step sees exactly the
      variables of its scope; the redacted texts, the stream messages and the
      body recorded of a send show no value that the run learned, also from
      that very response; reports are bounded.
    - Wire formats: what is written is read back, whatever the chunking
      (records, capsules, messages, events, PROXY headers), parsers are bounded,
      the authentication tag covers listener, addresses, freshness and payload.
      A compression answer is accepted exactly when it follows the rules of RFC
      7692, except that a window may also be written with a plus sign and zeros
      after it, and the frame meter counts exactly, however the bytes are cut.
    - Resolution and planning: an expansion is the refinement of its
      specification and cycles are refused, a plan that passes its checks is
      within the limits, iterations are claimed exactly once, an iteration
      sees only its own variables.
    - Descriptions: patches apply whole or not at all, differences apply to
      give their target, inferred schemas accept their samples. A cached
      resolution is what following the references anew gives, and what
      resolutions cost stays within their meter; every path that resolves is
      read, listed operations stay within their budget, and a request is routed
      to the most specific declared path that fits it, then of the longest base; the views of operations are what
      resolving everything anew gives, unless their meter was exhausted.
    - Evaluation: the grammar of XPath is exactly the documented subset and a
      path selects exactly the nodes its steps denote, in document order; the
      XML scan accepts exactly the documents within the limits; no assertion
      judges a body it did not get whole, no verdict depends on the redactor,
      results hide known secrets, comparisons of integers are exact below
      2^53, the digest of a tool schema ignores the order of members. At the
      end of an attempt its phases are recorded once each, as their calls tell,
      and those left open are closed as the failure says.

    ** Bounds and fuel

    Recursion that is not structural carries fuel that is an upper bound by
    construction: the length of the text ([split_whitespace], [trim], [scan],
    the fallback search of Redaction.v, digits of a number), of the bytes left
    (drains, slices, UTF-8 steps), the number of entries (eviction loops), the
    levels of a variable chain (MAX_DEPTH of vars.rs). [schema_at] of Infer.v
    carries 40 levels, and [infer_schema_fuel] proves they are never used up;
    [follow] of Refs.v has one step more than the document has references, and
    a chain without repetition is no longer.
    Lengths and counters are [Z]; a counter the source adds to with [+=] wraps
    at its width (release profile), [saturating_add] saturates, and theorems
    that need no overflow say so as a hypothesis on the length of the run.

    ** Parameters

    What is not in the repository is an argument with documented laws: the HDR
    histogram, URL parsing, JSON and CSV decoding, the multi-pattern matcher
    and the encoders of known forms, cookie matching and the public suffix
    list, header validity, XML and JSONPath evaluation, regular expressions,
    HMAC-SHA-256 and SHA-256, hex decoding, [Debug] text, random numbers,
    clocks and UUIDs, what hyper, h2, h3 and quinn answer, the iteration order
    of a [HashMap], YAML and JSON writers. A theorem with such laws has a
    witness with a concrete instance.

    ** Not modelled

    Sockets, TLS and QUIC (I/O over third-party stacks), storage and the vault
    (SQLite and cryptography), importers and the rest of the contract crate
    (drift and lint rules, rendered model views), diagnostics (tables of explanations),
    authentication schemes (assembly of signed text over cryptography), the
    renderings of a run's report, the command line and the desktop shell, floating-point
    rates and ramps, serialisation (serde derives), test laboratories and
    vendored crates. In modelled files what is left out is said in the file's
    own comment and in the manifest. Next to be modelled, in this order: the
    comparison of observed calls with an operation (drift.rs), JSON redaction,
    the gRPC and HTTP/3 pools as further [FencedCache]s.

    ** This file

    Shared vocabulary of the development: machine integers at their Rust
    width (an integer is a [Z], its wrap-around and its saturation written
    out), byte lists in network order, the small error type of fallible code,
    UTF-8 helpers on byte strings, list lemmas the components share, the hint
    database [anvil] and the tactics built on it. *)
From Stdlib Require Import ZArith Lia Bool List.
From stdpp Require Import base option list numbers strings pretty.
From Stdlib Require Import Ascii String.

Open Scope Z_scope.

(** * Machine integers *)

Definition U8_MAX : Z := 2 ^ 8 - 1.
Definition U16_MAX : Z := 2 ^ 16 - 1.
Definition U32_MAX : Z := 2 ^ 32 - 1.
Definition U64_MAX : Z := 2 ^ 64 - 1.

(** [x] is a value of the unsigned type with [w] bits. *)
Definition in_width (w x : Z) : Prop := 0 <= x < 2 ^ w.

Abbreviation is_u8 := (in_width 8).
Abbreviation is_u16 := (in_width 16).
Abbreviation is_u32 := (in_width 32).
Abbreviation is_u64 := (in_width 64).
Abbreviation is_u128 := (in_width 128).

(** [a += b] on [u64] in the release profile (no overflow checks): modulo
    [2^64]. *)
Definition add64 (a b : Z) : Z := (a + b) mod 2 ^ 64.
(** [a -= b] on [u64] in the release profile. *)
Definition sub64 (a b : Z) : Z := (a - b) mod 2 ^ 64.
Definition mul64 (a b : Z) : Z := (a * b) mod 2 ^ 64.
Definition add128 (a b : Z) : Z := (a + b) mod 2 ^ 128.
(** [u64::checked_add]. *)
Definition checked_add64 (a b : Z) : option Z :=
  if decide (a + b <= U64_MAX) then Some (a + b) else None.
(** [u64::saturating_add] and [saturating_sub]. *)
Definition sat_add64 (a b : Z) : Z := Z.min U64_MAX (a + b).
Definition sat_sub64 (a b : Z) : Z := Z.max 0 (a - b).
(** [as u64] of a wider unsigned value. *)
Definition as_u64 (a : Z) : Z := a mod 2 ^ 64.
(** [Ord::clamp], which panics when the bounds are inverted. *)
Definition clampZ (x lo hi : Z) : option Z :=
  if decide (lo <= hi) then Some (Z.max lo (Z.min x hi)) else None.

Declare Scope u64_scope.
Delimit Scope u64_scope with u64.
Infix "⊞" := add64 (at level 50, left associativity) : u64_scope.
Infix "⊟" := sub64 (at level 50, left associativity) : u64_scope.
Open Scope u64_scope.

Create HintDb anvil.
Create Rewrite HintDb wrap.

Lemma pow64_pos : 0 < 2 ^ 64.
Proof. reflexivity. Qed.

Lemma add64_range a b : is_u64 (a ⊞ b).
Proof. apply Z.mod_pos_bound, pow64_pos. Qed.

Lemma sub64_range a b : is_u64 (a ⊟ b).
Proof. apply Z.mod_pos_bound, pow64_pos. Qed.

Lemma add128_range a b : is_u128 (add128 a b).
Proof. apply Z.mod_pos_bound. reflexivity. Qed.

Lemma add64_comm a b : a ⊞ b = b ⊞ a.
Proof. unfold add64. by rewrite Z.add_comm. Qed.

Lemma add64_assoc a b c : a ⊞ (b ⊞ c) = (a ⊞ b) ⊞ c.
Proof.
  unfold add64. rewrite Zplus_mod_idemp_l, Zplus_mod_idemp_r.
  f_equal. lia.
Qed.

Lemma add64_0_r a : is_u64 a -> a ⊞ 0 = a.
Proof. intros H. unfold add64. rewrite Z.add_0_r. by apply Z.mod_small. Qed.

Lemma add64_0_l a : is_u64 a -> 0 ⊞ a = a.
Proof. intros H. rewrite add64_comm. by apply add64_0_r. Qed.

Lemma add64_small a b : 0 <= a -> 0 <= b -> a + b < 2 ^ 64 -> a ⊞ b = a + b.
Proof. intros. apply Z.mod_small. lia. Qed.

Lemma sub64_small a b : 0 <= b <= a -> a < 2 ^ 64 -> a ⊟ b = a - b.
Proof. intros. apply Z.mod_small. lia. Qed.

Lemma u64_0 : is_u64 0.
Proof. split; [lia | reflexivity]. Qed.

Lemma u128_0 : is_u128 0.
Proof. split; [lia | reflexivity]. Qed.

Lemma u64_b2z b : is_u64 (Z.b2z b).
Proof. destruct b; split; reflexivity || (simpl; lia). Qed.

#[export] Hint Resolve add64_range sub64_range add128_range u64_0 u128_0 u64_b2z : anvil.
#[export] Hint Rewrite Zplus_mod_idemp_l Zplus_mod_idemp_r Zminus_mod_idemp_l
  Zminus_mod_idemp_r : wrap.

(** Equations between sums modulo [2^64] (or [2^128]). *)
Ltac wrap_eq :=
  unfold add64, sub64, add128; autorewrite with wrap;
  solve [reflexivity | f_equal; lia].

(** ** Equality modulo [2^64]

    Sums of counters that may wrap are compared in this equivalence; addition
    respects it, so [rewrite] replaces the wrapping addition by the exact one
    inside sums. *)
Definition eqm64 (a b : Z) : Prop := a mod 2 ^ 64 = b mod 2 ^ 64.

#[export] Instance eqm64_equivalence : Equivalence eqm64.
Proof. unfold eqm64. split; [by intros a|by intros a b|intros a b c; congruence]. Qed.

#[export] Instance eqm64_add : Proper (eqm64 ==> eqm64 ==> eqm64) Z.add.
Proof. unfold eqm64. intros a a' Ha b b' Hb. rewrite (Z.add_mod a), (Z.add_mod a') by done. congruence. Qed.

#[export] Instance eqm64_sub : Proper (eqm64 ==> eqm64 ==> eqm64) Z.sub.
Proof. unfold eqm64. intros a a' Ha b b' Hb. rewrite (Zminus_mod a), (Zminus_mod a'). congruence. Qed.

Lemma add64_eqm a b : eqm64 (a ⊞ b) (a + b).
Proof. apply Z.mod_mod. done. Qed.

Lemma eqm64_eq a b : a = b -> eqm64 a b.
Proof. by intros ->. Qed.

Lemma eqm64_u64 a b : is_u64 a -> is_u64 b -> eqm64 a b -> a = b.
Proof. unfold eqm64. intros Ha Hb. by rewrite !Z.mod_small. Qed.

(** A sum over a list after one element is replaced. *)
Lemma foldr_sum_insert {A} (f : A -> Z) (l : list A) i x y : l !! i = Some x ->
  foldr (fun a acc => f a + acc) 0 (<[i:=y]> l) = foldr (fun a acc => f a + acc) 0 l - f x + f y.
Proof.
  revert i. induction l as [|a l IH]; intros [|i]; simpl; try done.
  - intros [= ->]. lia.
  - intros Hi. rewrite (IH i Hi). lia.
Qed.

(** Concrete values in the range of their type, also in a list. *)
Ltac u64s :=
  repeat first [ apply List.Forall_cons | apply List.Forall_nil
               | solve [split; [lia | reflexivity]] ].

(** * Results of fallible code *)

(** Rust's [Result]: [Ok] or a typed error. *)
Inductive result (A E : Type) : Type :=
  | Ok (a : A)
  | Err (e : E).
Arguments Ok {A E} _.
Arguments Err {A E} _.

Definition result_bind {A B E} (r : result A E) (f : A -> result B E) : result B E :=
  match r with Ok a => f a | Err e => Err e end.

Declare Scope result_scope.
Delimit Scope result_scope with result.
Notation "'let?' x ':=' r 'in' k" := (result_bind r (fun x => k))
  (at level 10, x pattern, r at level 100, k at level 200) : result_scope.
Open Scope result_scope.

Definition is_ok {A E} (r : result A E) : bool :=
  match r with Ok _ => true | Err _ => false end.

(** [Option::ok_or]. *)
Definition ok_or {A E} (o : option A) (e : E) : result A E :=
  match o with Some a => Ok a | None => Err e end.

Lemma result_bind_Ok {A B E} (r : result A E) (f : A -> result B E) b :
  result_bind r f = Ok b <-> exists a, r = Ok a /\ f a = Ok b.
Proof.
  destruct r as [a|e]; simpl; split.
  - by exists a.
  - by intros (? & [= <-] & ?).
  - done.
  - by intros (? & ? & ?).
Qed.

(** * Booleans *)

Lemma andb_split a b : a && b = true <-> a = true /\ b = true.
Proof. apply andb_true_iff. Qed.

(** Case analysis on every boolean comparison of the goal. *)
Ltac bool_cases :=
  repeat match goal with
  | |- context [ (?a <=? ?b)%Z ] => destruct (Z.leb_spec a b)
  | |- context [ (?a <? ?b)%Z ] => destruct (Z.ltb_spec a b)
  | |- context [ (?a =? ?b)%Z ] => destruct (Z.eqb_spec a b)
  end.

(** * Record update

    [r <| f := v |>] is the record [r] with its field [f] set to [v], the
    model of [self.f = v]; [r <| f ::= g |>] applies [g] to the field, the
    model of [self.f += x] and of a method call on [self.f]. A record type
    registers its constructor applied to its own fields as its [Eta]
    instance; the setter of each field is derived from it. *)
Class Eta (R : Type) := eta_record : R -> R.
Class Setter {R T : Type} (f : R -> T) := upd_field : (T -> T) -> R -> R.
Arguments upd_field {R T} f {_} _ _ /.

Ltac derive_setter :=
  match goal with
  | |- @Setter ?R ?T ?f =>
      let h := constr:(_ : Eta R) in
      exact (fun (g : T -> T) (r : R) =>
        ltac:(let b := eval hnf in (h r) in
              let p := eval pattern (f r) in b in
              match p with ?k _ => let t := eval cbv beta in (k (g (f r))) in exact t end))
  end.
#[export] Hint Extern 1 (Setter _) => derive_setter : typeclass_instances.

Declare Scope record_scope.
Delimit Scope record_scope with record.
#[warnings="-postfix-notation-not-level-1"]
Notation "r <| f ::= g |>" := (upd_field f g r)
  (at level 12, left associativity, f at level 8, g at level 99) : record_scope.
#[warnings="-postfix-notation-not-level-1"]
Notation "r <| f := v |>" := (upd_field f (fun _ => v) r)
  (at level 12, left associativity, f at level 8, v at level 99) : record_scope.
Open Scope record_scope.
