(* ===== verification/OrdMap.v ===== *)
(** [std::collections::BTreeMap] (and [BTreeSet]) as the load metrics use it:
    an association list in strictly increasing key order, so that iteration
    order is the key order. The operations are the ones the source calls:
    [get], [contains_key], [len], [entry(k).or_default()] followed by an
    update, [insert], in-order iteration, [split_off] and [range]. *)
From S2P Require Import Prelude.
From stdpp Require Import base list numbers strings.
From Stdlib Require Import ZArith Lia Sorted Ascii String.
Open Scope Z_scope.

(** * Ordered keys *)

(** [Ord] of a key type: a three-way comparison that is a strict total order. *)
Class OrdKey (K : Type) := {
  kcmp : K -> K -> comparison;
  kcmp_eq : forall a b, kcmp a b = Eq <-> a = b;
  kcmp_antisym : forall a b, kcmp b a = CompOpp (kcmp a b);
  kcmp_trans : forall a b c, kcmp a b = Lt -> kcmp b c = Lt -> kcmp a c = Lt;
}.

Lemma kcmp_refl `{OrdKey K} a : kcmp a a = Eq.
Proof. by apply kcmp_eq. Qed.

Lemma kcmp_gt_lt `{OrdKey K} a b : kcmp a b = Gt <-> kcmp b a = Lt.
Proof. rewrite (kcmp_antisym a b). destruct (kcmp a b); naive_solver. Qed.

(** Ordered keys have decidable equality. *)
#[export] Instance OrdKey_eq_dec `{OrdKey K} : EqDecision K | 100.
Proof.
  intros a b. destruct (kcmp a b) eqn:E.
  - left. by apply kcmp_eq.
  - right. intros ->. by rewrite kcmp_refl in E.
  - right. intros ->. by rewrite kcmp_refl in E.
Defined.

#[export] Instance OrdKey_Z : OrdKey Z.
Proof.
  refine {| kcmp := Z.compare |}.
  - apply Z.compare_eq_iff.
  - intros a b. apply Z.compare_antisym.
  - intros a b c. rewrite !Z.compare_lt_iff. lia.
Defined.

#[export] Instance OrdKey_string : OrdKey string.
Proof.
  refine {| kcmp := String.compare |}.
  - intros a b. split; [apply String.compare_eq_iff|].
    intros ->. destruct (String.compare b b) eqn:E; [done| |];
      pose proof E as E'; rewrite String.compare_antisym, E in E'; done.
  - intros a b. apply String.compare_antisym.
  - intros a. induction a as [|x a IH]; intros [|y b] [|z c]; simpl; try done.
    unfold Ascii.compare.
    destruct (N.compare_spec (N_of_ascii x) (N_of_ascii y)) as [E1|E1|E1];
      destruct (N.compare_spec (N_of_ascii y) (N_of_ascii z)) as [E2|E2|E2];
      try done; intros H1 H2.
    + replace (N.compare _ _) with Eq by (symmetry; apply N.compare_eq_iff; congruence). eauto.
    + replace (N.compare _ _) with Lt; [done|]. symmetry. apply N.compare_lt_iff. lia.
    + replace (N.compare _ _) with Lt; [done|]. symmetry. apply N.compare_lt_iff. lia.
    + replace (N.compare _ _) with Lt; [done|]. symmetry. apply N.compare_lt_iff. lia.
Defined.

(** [Ord] of [Option<T>]: [None] is least. *)
#[export] Instance OrdKey_option `{OrdKey K} : OrdKey (option K).
Proof.
  refine {| kcmp := fun a b => match a, b with
    | None, None => Eq | None, Some _ => Lt | Some _, None => Gt
    | Some x, Some y => kcmp x y end |}.
  - intros [a|] [b|]; try done; [|naive_solver..].
    rewrite kcmp_eq. naive_solver.
  - intros [a|] [b|]; try done. apply kcmp_antisym.
  - intros [a|] [b|] [c|]; try done. apply kcmp_trans.
Defined.

(** [Ord] of a pair: lexicographic. *)
#[export] Instance OrdKey_prod `{OrdKey K, OrdKey L} : OrdKey (K * L).
Proof.
  refine {| kcmp := fun a b => match kcmp a.1 b.1 with
    | Eq => kcmp a.2 b.2 | c => c end |}.
  - intros [a x] [b y]; simpl. destruct (kcmp a b) eqn:E.
    + apply kcmp_eq in E as ->. rewrite kcmp_eq. naive_solver.
    + split; [done|]. intros [= -> ->]. by rewrite kcmp_refl in E.
    + split; [done|]. intros [= -> ->]. by rewrite kcmp_refl in E.
  - intros [a x] [b y]; simpl. rewrite (kcmp_antisym a b).
    destruct (kcmp a b) eqn:E; simpl; try done. apply kcmp_antisym.
  - intros [a x] [b y] [c z]; simpl.
    destruct (kcmp a b) eqn:E1; destruct (kcmp b c) eqn:E2; try done.
    + apply kcmp_eq in E1 as ->. rewrite E2. apply kcmp_trans.
    + apply kcmp_eq in E1 as ->. by rewrite E2.
    + apply kcmp_eq in E2 as ->. by rewrite E1.
    + by rewrite (kcmp_trans _ _ _ E1 E2).
Defined.

(** * The map *)

Abbreviation omap K V := (list (K * V)).

Section OrdMap.
Context {K V : Type} `{OrdKey K}.
Implicit Types (m : omap K V) (k : K) (v : V).

(** [get]. *)
Fixpoint om_get k m : option V :=
  match m with
  | [] => None
  | (k', v) :: m' =>
      match kcmp k k' with Eq => Some v | Lt => None | Gt => om_get k m' end
  end.

(** [*entry(k)] set to [f] of the present value: [f None] is the value of a
    vacant entry after the update. *)
Fixpoint om_upd (f : option V -> V) k m : omap K V :=
  match m with
  | [] => [(k, f None)]
  | (k', v) :: m' =>
      match kcmp k k' with
      | Eq => (k', f (Some v)) :: m'
      | Lt => (k, f None) :: m
      | Gt => (k', v) :: om_upd f k m'
      end
  end.

Definition om_insert k v m : omap K V := om_upd (fun _ => v) k m.
Definition om_contains k m : bool := if om_get k m is Some _ then true else false.
Definition om_keys m : list K := m.*1.
Definition om_values m : list V := m.*2.

(** [split_off(k)] leaves the keys below [k] in place and returns the rest. *)
Definition om_below k m : omap K V :=
  filter (fun kv => kcmp kv.1 k = Lt) m.
Definition om_from k m : omap K V :=
  filter (fun kv => kcmp kv.1 k <> Lt) m.

Definition om_lt (a b : K * V) : Prop := kcmp a.1 b.1 = Lt.

(** The invariant: keys strictly increase. *)
Definition om_wf m : Prop := StronglySorted om_lt m.

Lemma om_wf_nil : om_wf [].
Proof. constructor. Qed.

Lemma om_get_lt_head k m : Forall (fun kv => kcmp k kv.1 = Lt) m -> om_get k m = None.
Proof. destruct 1 as [|[k' v] m E _]; simpl in *; [done|]. by rewrite E. Qed.

Lemma om_get_Some_In k v m : om_get k m = Some v -> In (k, v) m.
Proof.
  induction m as [|[k' v'] m IH]; simpl; [done|].
  destruct (kcmp k k') eqn:E; [|done|by eauto].
  apply kcmp_eq in E as ->. intros [= ->]. by left.
Qed.

Lemma om_get_In k v m : om_wf m -> In (k, v) m -> om_get k m = Some v.
Proof.
  induction 1 as [|[k' v'] m Hm IH Hall]; simpl; [done|].
  intros [[= -> ->]|Hin]; [by rewrite kcmp_refl|].
  pose proof (proj1 (List.Forall_forall _ _) Hall _ Hin) as Hlt. unfold om_lt in Hlt; simpl in Hlt.
  apply kcmp_gt_lt in Hlt. rewrite Hlt. eauto.
Qed.

Lemma om_upd_Forall (P : K * V -> Prop) f k m :
  Forall P m -> P (k, f (om_get k m)) -> Forall P (om_upd f k m).
Proof.
  induction 1 as [|[k' v] m Hp Hm IH]; simpl; [by constructor|].
  destruct (kcmp k k') eqn:E; intros Hk.
  - apply kcmp_eq in E as ->. by constructor.
  - by repeat constructor.
  - constructor; eauto.
Qed.

Lemma om_upd_wf f k m : om_wf m -> om_wf (om_upd f k m).
Proof.
  induction 1 as [|[k' v] m Hm IH Hall]; simpl; [repeat constructor|].
  destruct (kcmp k k') eqn:E.
  - constructor; [done|]. exact Hall.
  - constructor; [by constructor|]. constructor; [done|].
    eapply Forall_impl; [exact Hall|]. intros [k2 v2] H2. unfold om_lt in *; simpl in *.
    eauto using kcmp_trans.
  - constructor; [done|]. apply om_upd_Forall; [done|]. by apply kcmp_gt_lt.
Qed.

Lemma om_wf_NoDup m : om_wf m -> List.NoDup (List.map fst m).
Proof.
  induction 1 as [|[k v] m Hm IH Hall]; simpl; constructor; [|done].
  intros ([k' v'] & E & Hin)%List.in_map_iff. simpl in E. subst.
  pose proof (proj1 (List.Forall_forall _ _) Hall _ Hin) as Hlt. unfold om_lt in Hlt. simpl in Hlt.
  by rewrite kcmp_refl in Hlt.
Qed.

Lemma om_get_upd_eq f k m : om_get k (om_upd f k m) = Some (f (om_get k m)).
Proof.
  induction m as [|[k' v] m IH]; simpl; [by rewrite kcmp_refl|].
  destruct (kcmp k k') eqn:E; simpl.
  - apply kcmp_eq in E as ->. by rewrite kcmp_refl.
  - by rewrite kcmp_refl.
  - by rewrite E.
Qed.

Lemma om_get_upd_ne f k k' m : om_wf m -> k <> k' -> om_get k' (om_upd f k m) = om_get k' m.
Proof.
  intros Hwf Hne. induction Hwf as [|[k2 v] m Hm IH Hall]; simpl.
  - destruct (kcmp k' k) eqn:E; try done. by apply kcmp_eq in E.
  - destruct (kcmp k k2) eqn:E; simpl.
    + apply kcmp_eq in E as ->. destruct (kcmp k' k2) eqn:E'; try done.
      by apply kcmp_eq in E'.
    + destruct (kcmp k' k) eqn:E'; [by apply kcmp_eq in E'| |done].
      by rewrite (kcmp_trans _ _ _ E' E).
    + by rewrite IH.
Qed.

Lemma om_ext m1 m2 :
  om_wf m1 -> om_wf m2 -> (forall k, om_get k m1 = om_get k m2) -> m1 = m2.
Proof.
  intros H1. revert m2. induction H1 as [|[k1 v1] m1 Hm1 IH Ha1]; intros m2 H2 Heq.
  - destruct m2 as [|[k2 v2] m2]; [done|]. specialize (Heq k2). simpl in Heq.
    by rewrite kcmp_refl in Heq.
  - destruct H2 as [|[k2 v2] m2 Hm2 Ha2].
    { specialize (Heq k1). simpl in Heq. by rewrite kcmp_refl in Heq. }
    assert (kcmp k1 k2 = Eq) as E.
    { destruct (kcmp k1 k2) eqn:E; [done|..].
      - pose proof (Heq k1) as Hk. simpl in Hk. by rewrite kcmp_refl, E in Hk.
      - pose proof (Heq k2) as Hk. apply kcmp_gt_lt in E. simpl in Hk.
        by rewrite kcmp_refl, E in Hk. }
    apply kcmp_eq in E as <-.
    pose proof (Heq k1) as Hk. simpl in Hk. rewrite !kcmp_refl in Hk.
    injection Hk as <-. f_equal. apply IH; [done|]. intros k.
    pose proof (Heq k) as Hk. simpl in Hk.
    destruct (kcmp k k1) eqn:E; [|..]; [| |done].
    + apply kcmp_eq in E as ->. by rewrite !om_get_lt_head.
    + rewrite !om_get_lt_head; try done; (eapply Forall_impl; [eassumption|]);
        intros [kk vv] Hl; unfold om_lt in Hl; simpl in *; eauto using kcmp_trans.
Qed.

Lemma om_upd_length f k m :
  List.length (om_upd f k m) =
  if om_get k m is Some _ then List.length m else S (List.length m).
Proof.
  induction m as [|[k' v] m IH]; simpl; [done|].
  destruct (kcmp k k') eqn:E; simpl; [done..|]. rewrite IH. by destruct (om_get k m).
Qed.

Lemma om_upd_keys f k m k' :
  In k' (om_keys (om_upd f k m)) <-> k' = k \/ In k' (om_keys m).
Proof.
  unfold om_keys. induction m as [|[k2 v] m IH]; simpl; [naive_solver|].
  destruct (kcmp k k2) eqn:E; simpl; [apply kcmp_eq in E as ->|..]; naive_solver.
Qed.

(** [for (k, v) in o { let e = m.entry(k).or_default(); *e = f(v, e) }]. *)
Definition om_merge_with {W} (f : W -> option V -> V) (o : omap K W) m : omap K V :=
  fold_left (fun acc kw => om_upd (f kw.2) kw.1 acc) o m.

Lemma om_merge_with_wf {W} (f : W -> option V -> V) (o : omap K W) m :
  om_wf m -> om_wf (om_merge_with f o m).
Proof.
  unfold om_merge_with. revert m. induction o as [|[k w] o IH]; simpl; [done|].
  intros m Hm. by apply IH, om_upd_wf.
Qed.

(** Sum of a measure of the values. *)
Definition om_total (g : V -> Z) m : Z := foldr (fun kv acc => g kv.2 + acc) 0 m.

Lemma om_total_upd g f k m :
  om_total g (om_upd f k m) =
  om_total g m - from_option g 0 (om_get k m) + g (f (om_get k m)).
Proof.
  unfold om_total. induction m as [|[k' v] m IH]; simpl; [lia|].
  destruct (kcmp k k') eqn:E; simpl; [lia..|]. rewrite IH. lia.
Qed.

Lemma om_total_nonneg g m : (forall v, 0 <= g v) -> 0 <= om_total g m.
Proof. intros Hg. unfold om_total. induction m as [|[k v] m IH]; simpl; [lia|]. specialize (Hg v). lia. Qed.

Lemma om_filter_wf (P : K * V -> Prop) `{forall x, Decision (P x)} m :
  om_wf m -> om_wf (filter P m).
Proof.
  induction 1 as [|kv m Hm IH Hall]; [constructor|]. rewrite filter_cons.
  destruct (decide (P kv)); [|done]. constructor; [done|].
  apply List.Forall_forall. intros x Hx%list_elem_of_In.
  apply list_elem_of_filter in Hx as [_ Hx%list_elem_of_In].
  by apply (proj1 (List.Forall_forall _ _) Hall).
Qed.

Lemma om_get_filter (P : K * V -> Prop) `{forall x, Decision (P x)} k m v :
  om_wf m -> om_get k (filter P m) = Some v <-> om_get k m = Some v /\ P (k, v).
Proof.
  intros Hm. split.
  - intros Hg%om_get_Some_In. apply list_elem_of_In, list_elem_of_filter in Hg as [Hp Hin].
    split; [|done]. apply om_get_In; [done|]. by apply list_elem_of_In.
  - intros [Hg%om_get_Some_In Hp]. apply om_get_In; [by apply om_filter_wf|].
    apply list_elem_of_In, list_elem_of_filter. split; [done|]. by apply list_elem_of_In.
Qed.
End OrdMap.

Lemma om_get_merge_with {K V W} `{OrdKey K} (f : W -> option V -> V) (o : omap K W) (m : omap K V) k :
  om_wf m -> om_wf o ->
  om_get k (om_merge_with f o m) =
    match om_get k o with
    | None => om_get k m
    | Some w => Some (f w (om_get k m))
    end.
Proof.
  unfold om_merge_with. intros Hm Ho. revert m Hm.
  induction Ho as [|[k' w] o Ho IH Hall]; simpl; intros m Hm; [done|].
  rewrite IH by by apply om_upd_wf. destruct (kcmp k k') eqn:E.
  - apply kcmp_eq in E as <-. rewrite (om_get_lt_head k o) by done. apply om_get_upd_eq.
  - rewrite (om_get_lt_head k o).
    + apply om_get_upd_ne; [done|]. intros ->. by rewrite kcmp_refl in E.
    + eapply Forall_impl; [exact Hall|]. intros [k2 w2] H2. unfold om_lt in H2; simpl in *.
      eauto using kcmp_trans.
  - destruct (om_get k o); rewrite om_get_upd_ne; try done; intros ->; by rewrite kcmp_refl in E.
Qed.

(** The two halves of [split_off] on integer keys. *)
Lemma om_get_from {V} k b (m : omap Z V) : om_wf m ->
  om_get b (om_from k m) = if decide (k <= b) then om_get b m else None.
Proof.
  intros Hm. apply option_eq. intros v. unfold om_from. rewrite om_get_filter by done. simpl.
  rewrite Z.compare_lt_iff. case_decide; naive_solver lia.
Qed.

Lemma om_get_below {V} k b (m : omap Z V) : om_wf m ->
  om_get b (om_below k m) = if decide (b < k) then om_get b m else None.
Proof.
  intros Hm. apply option_eq. intros v. unfold om_below. rewrite om_get_filter by done. simpl.
  rewrite Z.compare_lt_iff. case_decide; naive_solver lia.
Qed.

#[export] Hint Resolve om_wf_nil om_upd_wf om_filter_wf om_merge_with_wf : anvil.

(** * Maps of counters *)

Section Counters.
Context {K : Type} `{OrdKey K}.
Implicit Types m o : omap K Z.

(** [*m.entry(k).or_default() += n]. *)
Definition om_count k n m : omap K Z :=
  om_upd (fun c => add64 (default 0 c) n) k m.

(** [for (k, n) in &o { *m.entry(k).or_default() += n }]. *)
Definition om_add_all m o : omap K Z :=
  om_merge_with (fun n c => add64 (default 0 c) n) o m.

(** A counter map as the program builds it: ordered, every count a [u64]. *)
Definition counters_ok m : Prop := om_wf m /\ Forall (fun kv => is_u64 kv.2) m.

Lemma om_count_ok k n m : counters_ok m -> counters_ok (om_count k n m).
Proof.
  intros [Hw Hf]. split; [by apply om_upd_wf|].
  apply om_upd_Forall; [done|]. simpl. auto with anvil.
Qed.

Lemma om_add_all_ok m o : counters_ok m -> counters_ok (om_add_all m o).
Proof.
  unfold om_add_all, om_merge_with. revert m. induction o as [|[k n] o IH]; simpl; [done|].
  intros m Hm. by apply IH, om_count_ok.
Qed.

Lemma om_get_count k n m k' :
  om_wf m ->
  om_get k' (om_count k n m) =
    if decide (k = k') then Some (add64 (default 0 (om_get k m)) n) else om_get k' m.
Proof.
  intros Hm. unfold om_count. case_decide as Hk.
  - subst. by rewrite om_get_upd_eq.
  - by rewrite om_get_upd_ne.
Qed.

Lemma om_add_all_wf m o : om_wf m -> om_wf (om_add_all m o).
Proof. apply om_merge_with_wf. Qed.

Lemma om_get_add_all m o k :
  om_wf m -> om_wf o ->
  om_get k (om_add_all m o) =
    match om_get k o with
    | None => om_get k m
    | Some n => Some (add64 (default 0 (om_get k m)) n)
    end.
Proof. apply (om_get_merge_with (fun n c => add64 (default 0 c) n)). Qed.

(** Counting into a shard and then merging it is counting into the merge. *)
Lemma om_add_all_count m o k n :
  om_wf m -> om_wf o -> om_add_all m (om_count k n o) = om_count k n (om_add_all m o).
Proof.
  intros Hm Ho. apply om_ext.
  - by apply om_add_all_wf.
  - by apply om_upd_wf, om_add_all_wf.
  - intros k'. rewrite om_get_add_all by eauto with anvil.
    rewrite !om_get_count by eauto using om_add_all_wf with anvil.
    rewrite !om_get_add_all by done. case_decide as Hk; [subst|done].
    destruct (om_get k' o) as [x|]; simpl; f_equal; wrap_eq.
Qed.

(** The number of counted events survives a count, modulo [2^64]. *)
Lemma om_total_count m k n :
  om_total id (om_count k n m) mod 2 ^ 64 = (om_total id m + n) mod 2 ^ 64.
Proof.
  unfold om_count. rewrite om_total_upd. unfold add64.
  destruct (om_get k m) as [x|]; unfold default, id; simpl;
    rewrite Zplus_mod_idemp_r; f_equal; lia.
Qed.

Lemma om_total_add_all m o :
  om_total id (om_add_all m o) mod 2 ^ 64 = (om_total id m + om_total id o) mod 2 ^ 64.
Proof.
  unfold om_add_all, om_merge_with. revert m. induction o as [|[k n] o IH]; intros m; simpl.
  - by rewrite Z.add_0_r.
  - fold (om_count k n m). rewrite IH. rewrite <- Zplus_mod_idemp_l, om_total_count, Zplus_mod_idemp_l.
    f_equal. unfold om_total, id; simpl. lia.
Qed.
End Counters.

#[export] Hint Resolve om_count_ok om_add_all_ok om_add_all_wf : anvil.
