(* ===== verification/Text.v ===== *)
(** What the modelled code uses of Rust's [str]: a [str] is its UTF-8 bytes,
    an Rocq [string] of [ascii] bytes, so that [len] is [String.length]. ASCII
    case, [trim] (Unicode White_Space in UTF-8), [find] and [split_once] on a
    pattern, char boundaries, and serde's [rename_all = "snake_case"]. *)
From S2P Require Import Prelude.
From stdpp Require Import base list numbers strings.
From Stdlib Require Import ZArith Lia Ascii String.
Open Scope Z_scope.
Open Scope string_scope.

Abbreviation byte_of := nat_of_ascii.

Definition str_len (s : string) : Z := Z.of_nat (String.length s).

(** [str::is_empty]. *)
Definition str_is_empty (s : string) : bool :=
  match s with EmptyString => true | _ => false end.

(** [u8::to_ascii_lowercase]. *)
Definition ascii_lower (c : ascii) : ascii :=
  let n := byte_of c in
  if (65 <=? n)%nat && (n <=? 90)%nat then ascii_of_nat (n + 32) else c.

(** [str::to_ascii_lowercase]. *)
Fixpoint to_ascii_lowercase (s : string) : string :=
  match s with
  | "" => ""
  | String c s' => String (ascii_lower c) (to_ascii_lowercase s')
  end.

(** [str::eq_ignore_ascii_case]. *)
Definition eq_ignore_ascii_case (a b : string) : bool :=
  String.eqb (to_ascii_lowercase a) (to_ascii_lowercase b).

Lemma ascii_lower_idem c : ascii_lower (ascii_lower c) = ascii_lower c.
Proof. destruct c as [[] [] [] [] [] [] [] []]; reflexivity. Qed.

Lemma to_ascii_lowercase_idem s : to_ascii_lowercase (to_ascii_lowercase s) = to_ascii_lowercase s.
Proof. induction s as [|c s IH]; simpl; [done|]. by rewrite ascii_lower_idem, IH. Qed.

Lemma eq_ignore_ascii_case_spec a b :
  eq_ignore_ascii_case a b = true <-> to_ascii_lowercase a = to_ascii_lowercase b.
Proof. apply String.eqb_eq. Qed.

Lemma eq_ignore_ascii_case_refl a : eq_ignore_ascii_case a a = true.
Proof. by apply eq_ignore_ascii_case_spec. Qed.

Lemma eq_ignore_ascii_case_sym a b : eq_ignore_ascii_case a b = eq_ignore_ascii_case b a.
Proof. apply String.eqb_sym. Qed.

(** * Trimming *)

(** Bytes of the White_Space character [s] starts with (0: none): U+0009 to
    U+000D, U+0020, U+0085, U+00A0, U+1680, U+2000 to U+200A, U+2028, U+2029,
    U+202F, U+205F and U+3000. *)
Definition ws_prefix (s : string) : nat :=
  match s with
  | "" => 0
  | String a s1 =>
      let x := byte_of a in
      if ((9 <=? x) && (x <=? 13) || (x =? 32))%nat then 1 else
      match s1 with
      | "" => 0
      | String b s2 =>
          let y := byte_of b in
          if ((x =? 194) && ((y =? 133) || (y =? 160)))%nat then 2 else
          match s2 with
          | "" => 0
          | String c _ =>
              let z := byte_of c in
              if ((x =? 225) && (y =? 154) && (z =? 128))%nat then 3 else
              if ((x =? 226) && (y =? 128)
                  && ((128 <=? z) && (z <=? 138) || (z =? 168) || (z =? 169) || (z =? 175)))%nat then 3 else
              if ((x =? 226) && (y =? 129) && (z =? 159))%nat then 3 else
              if ((x =? 227) && (y =? 128) && (z =? 128))%nat then 3 else 0
          end
      end
  end%nat.

Fixpoint str_drop (n : nat) (s : string) : string :=
  match n, s with
  | O, _ => s
  | S n', String _ s' => str_drop n' s'
  | S _, "" => ""
  end.

Fixpoint str_take (n : nat) (s : string) : string :=
  match n, s with
  | S n', String c s' => String c (str_take n' s')
  | _, _ => ""
  end.

(** [fuel] is the length of the string: every round drops a byte. *)
Fixpoint trim_start_aux (fuel : nat) (s : string) : string :=
  match fuel with
  | O => s
  | S fuel' =>
      match ws_prefix s with O => s | n => trim_start_aux fuel' (str_drop n s) end
  end.

Definition trim_start (s : string) : string := trim_start_aux (String.length s) s.

(** The string is White_Space only. *)
Definition all_ws (s : string) : bool := str_is_empty (trim_start s).

(** Drops the longest White_Space suffix. *)
Fixpoint trim_end (s : string) : string :=
  if all_ws s then "" else
  match s with "" => "" | String c s' => String c (trim_end s') end.

(** [str::trim]. *)
Definition trim (s : string) : string := trim_end (trim_start s).

Example trim_spaces : trim "  a b	 " = "a b".
Proof. reflexivity. Qed.

(** * Searching *)

(** [s.str_strip_prefix(p)]. *)
Fixpoint str_strip_prefix (p s : string) : option string :=
  match p, s with
  | "", _ => Some s
  | String a p', String b s' => if Ascii.eqb a b then str_strip_prefix p' s' else None
  | _, "" => None
  end.

Definition starts_with (s p : string) : bool :=
  if str_strip_prefix p s is Some _ then true else false.

(** [s.find(p)] with the text before the first match and the text after it. *)
Fixpoint split_once (p s : string) : option (string * string) :=
  match str_strip_prefix p s with
  | Some rest => Some ("", rest)
  | None =>
      match s with
      | "" => None
      | String c s' =>
          match split_once p s' with
          | Some (pre, post) => Some (String c pre, post)
          | None => None
          end
      end
  end.

(** [s.contains(p)]. *)
Definition str_contains (s p : string) : bool :=
  if split_once p s is Some _ then true else false.

Lemma str_app_cons c a b : String c a ++ b = String c (a ++ b).
Proof. done. Qed.

Lemma str_app_nil b : "" ++ b = b.
Proof. done. Qed.

Lemma str_app_nil_r a : a ++ "" = a.
Proof. induction a as [|c a IH]; [done|]. by rewrite str_app_cons, IH. Qed.

Lemma str_app_assoc a b c : (a ++ b) ++ c = a ++ (b ++ c).
Proof. induction a as [|x a IH]; [done|]. by rewrite !str_app_cons, IH. Qed.

Lemma str_strip_prefix_Some p s r : str_strip_prefix p s = Some r <-> s = p ++ r.
Proof.
  revert s. induction p as [|a p IH]; intros s; simpl.
  { split; [by intros [= ->]|by intros ->]. }
  destruct s as [|b s]; [done|].
  destruct (Ascii.eqb_spec a b) as [->|Hne].
  - rewrite IH. split; [by intros ->|by intros [= ->]].
  - split; [done|]. by intros [= -> _].
Qed.

Lemma split_once_Some p s pre post : split_once p s = Some (pre, post) -> s = pre ++ p ++ post.
Proof.
  revert pre. induction s as [|c s IH]; intros pre; simpl;
    destruct (str_strip_prefix p _) as [r|] eqn:E; try done.
  - intros [= <- <-]. by apply str_strip_prefix_Some in E.
  - intros [= <- <-]. by apply str_strip_prefix_Some in E.
  - destruct (split_once p s) as [[q1 q2]|] eqn:E2; [|done].
    intros [= <- <-]. by rewrite (IH q1 eq_refl) at 1.
Qed.

Lemma str_length_app a b : String.length (a ++ b) = (String.length a + String.length b)%nat.
Proof. induction a as [|c a IH]; [done|]. rewrite str_app_cons. simpl. lia. Qed.

Lemma str_len_app a b : str_len (a ++ b) = str_len a + str_len b.
Proof. unfold str_len. rewrite str_length_app. lia. Qed.

Lemma str_len_nonneg s : 0 <= str_len s.
Proof. unfold str_len. lia. Qed.

Lemma split_once_length p s pre post :
  split_once p s = Some (pre, post) ->
  String.length s = (String.length pre + String.length p + String.length post)%nat.
Proof. intros ->%split_once_Some. rewrite !str_length_app. lia. Qed.

(** [s.split(c)] on one byte. *)
Fixpoint split_on (c : ascii) (s : string) : list string :=
  match s with
  | "" => [""]
  | String a s' =>
      if Ascii.eqb a c then "" :: split_on c s'
      else match split_on c s' with
           | x :: xs => String a x :: xs
           | [] => [String a ""]
           end
  end.

(** [str::split_whitespace]; [fuel] is the length of the string. *)
Fixpoint split_whitespace_aux (fuel : nat) (word s : string) : list string :=
  let emit rest := if str_is_empty word then rest else word :: rest in
  match fuel with
  | O => emit []
  | S fuel' =>
      match s with
      | "" => emit []
      | String c s' =>
          match ws_prefix s with
          | O => split_whitespace_aux fuel' (word ++ String c "") s'
          | n => emit (split_whitespace_aux fuel' "" (str_drop n s))
          end
      end
  end.

Definition split_whitespace (s : string) : list string := split_whitespace_aux (S (String.length s)) "" s.

Example split_whitespace_words : split_whitespace " randomInt  1 10 " = ["randomInt"; "1"; "10"].
Proof. reflexivity. Qed.

(** [join] with a separator. *)
Definition join (sep : string) (l : list string) : string := String.concat sep l.

Definition digit_of (c : ascii) : option Z :=
  let n := byte_of c in if ((48 <=? n) && (n <=? 57))%nat then Some (Z.of_nat n - 48) else None.

(** The value of a non-empty sequence of decimal digits. *)
Fixpoint digits_value (acc : Z) (s : string) : option Z :=
  match s with
  | "" => Some acc
  | String c s' => d ← digit_of c; digits_value (acc * 10 + d) s'
  end.

(** [str::parse::<i64>]. *)
Definition parse_i64 (s : string) : option Z :=
  let '(neg, digits) := match s with
    | String "-" s' => (true, s')
    | String "+" s' => (false, s')
    | _ => (false, s)
    end in
  if str_is_empty digits then None else
  n ← digits_value 0 digits;
  let v := if neg then - n else n in
  if decide (- 2 ^ 63 <= v < 2 ^ 63) then Some v else None.

(** * Characters *)

(** A byte that starts a UTF-8 character (not a continuation byte). *)
Definition is_char_start (c : ascii) : bool :=
  let n := byte_of c in negb ((128 <=? n)%nat && (n <? 192)%nat).

(** [s.chars().count()]. *)
Fixpoint char_count (s : string) : nat :=
  match s with
  | "" => 0
  | String c s' => (if is_char_start c then 1 else 0) + char_count s'
  end%nat.

(** [s.char_indices().nth(n)]: the text before the [n]-th character (from 0),
    when there is one. *)
Fixpoint before_char (n : nat) (s : string) : option string :=
  match s with
  | "" => None
  | String c s' =>
      if is_char_start c then
        match n with
        | O => Some ""
        | S n' => option_map (String c) (before_char n' s')
        end
      else option_map (String c) (before_char n s')
  end.

Lemma before_char_count n s t : before_char n s = Some t -> char_count t = n.
Proof.
  revert n t. induction s as [|c s IH]; intros n t; simpl; [done|].
  destruct (is_char_start c) eqn:E.
  - destruct n as [|n]; [by intros [= <-]|].
    destruct (before_char n s) as [u|] eqn:Eu; [|done]. intros [= <-]. simpl.
    rewrite E. by rewrite (IH _ _ Eu).
  - destruct (before_char n s) as [u|] eqn:Eu; [|done]. intros [= <-]. simpl.
    rewrite E. by rewrite (IH _ _ Eu).
Qed.

Lemma before_char_None n s : before_char n s = None <-> (char_count s <= n)%nat.
Proof.
  revert n. induction s as [|c s IH]; intros n; simpl; [split; [lia|done]|].
  destruct (is_char_start c) eqn:E; [destruct n as [|n]|].
  - split; [done|lia].
  - specialize (IH n). destruct (before_char n s) as [t|]; simpl.
    + split; [done|]. intros H. assert (Some t = None) by (apply IH; lia). done.
    + split; [|done]. intros _. apply le_n_S. by apply IH.
  - specialize (IH n). destruct (before_char n s) as [t|]; simpl; [|tauto].
    split; [done|]. intros H. assert (Some t = None) by (apply IH; lia). done.
Qed.

Lemma char_count_app a b : char_count (a ++ b) = (char_count a + char_count b)%nat.
Proof. induction a as [|c a IH]; [done|]. rewrite str_app_cons. simpl. lia. Qed.

(** * Serialized names *)

Definition is_upper (c : ascii) : bool :=
  let n := byte_of c in (65 <=? n)%nat && (n <=? 90)%nat.

(** serde's [rename_all = "snake_case"] of a variant name: an underscore before
    every upper-case letter but the first, all in lower case. *)
Fixpoint snake_tail (s : string) : string :=
  match s with
  | "" => ""
  | String c s' =>
      if is_upper c then String "_" (String (ascii_lower c) (snake_tail s'))
      else String c (snake_tail s')
  end.

Definition snake_case (s : string) : string :=
  match s with "" => "" | String c s' => String (ascii_lower c) (snake_tail s') end.

Example snake_case_h2 : snake_case "H2GoAway" = "h2_go_away".
Proof. reflexivity. Qed.
