(* ===== verification/Settings.v ===== *)
(** Request settings (crates/anvil-domain/src/settings.rs) and their layered
    resolution (crates/anvil-engine/src/settings.rs): the data types with the
    source's fields and defaults, [resolve] over the layers app, workspace,
    folders, request and run, the early-data method policy and the comparison
    of lock policies. The theorems: the last layer that sets a field decides
    it and is its recorded source; DNS overrides keep one entry per host. *)
From S2P Require Import Prelude Text.
From stdpp Require Import base list numbers strings option pretty.
From Stdlib Require Import ZArith Lia Ascii.
Open Scope Z_scope.

(** A UUID (crates/anvil-domain/src/ids.rs), by its 128 bits. *)
Record Id := mkId { id_bits : Z }.

#[export] Instance Id_eq_dec : EqDecision Id.
Proof. solve_decision. Defined.

(** * Data *)

Inductive HttpVersionPolicy :=
  | HttpVersionPolicy_Auto | HttpVersionPolicy_Http1Only | HttpVersionPolicy_Http2Only | HttpVersionPolicy_H2c | HttpVersionPolicy_Http3Only | HttpVersionPolicy_Http3WithFallback.

Inductive IpPreference :=
  | IpPreference_System | IpPreference_PreferIpv4 | IpPreference_PreferIpv6 | IpPreference_Ipv4Only | IpPreference_Ipv6Only.

Record Timeouts := mkTimeouts {
  to_dns_ms : option Z;
  to_connect_ms : option Z;
  to_tls_handshake_ms : option Z;
  to_request_write_ms : option Z;
  to_response_headers_ms : option Z;
  to_body_idle_ms : option Z;
  to_total_ms : option Z;
}.

Definition Timeouts_default : Timeouts := {|
  to_dns_ms := Some 5000;
  to_connect_ms := Some 10000;
  to_tls_handshake_ms := Some 10000;
  to_request_write_ms := Some 30000;
  to_response_headers_ms := Some 30000;
  to_body_idle_ms := Some 30000;
  to_total_ms := Some 120000;
|}.

Record RedirectPolicy := mkRedirectPolicy {
  rd_follow : bool;
  rd_max : Z;
  rd_forward_credentials_cross_origin : bool;
}.

Definition RedirectPolicy_default : RedirectPolicy := mkRedirectPolicy true 10 false.

Record RetryPolicy := mkRetryPolicy {
  rt_max_retries : Z;
  rt_backoff_ms : Z;
  rt_only_safe : bool;
}.

(** [#[derive(Default)]]. *)
Definition RetryPolicy_default : RetryPolicy := mkRetryPolicy 0 0 false.

Record EarlyDataPolicy := mkEarlyDataPolicy {
  ed_enabled : bool;
  ed_extra_methods : list string;
}.

Definition EarlyDataPolicy_default : EarlyDataPolicy := mkEarlyDataPolicy false [].

Record DnsOverride := mkDnsOverride {
  dns_host : string;
  dns_addresses : list string;
}.

Inductive ResolverMode :=
  | ResolverMode_System
  | ResolverMode_Custom (nameservers : list string).

Record Limits := mkLimits {
  lim_max_response_bytes : Z;
  lim_capture_bytes : Z;
  lim_max_decoded_bytes : Z;
  lim_max_response_header_bytes : Z;
  lim_max_request_body_bytes : Z;
}.

Definition Limits_default : Limits := {|
  lim_max_response_bytes := 256 * 1024 * 1024;
  lim_capture_bytes := 8 * 1024 * 1024;
  lim_max_decoded_bytes := 64 * 1024 * 1024;
  lim_max_response_header_bytes := 256 * 1024;
  lim_max_request_body_bytes := 512 * 1024 * 1024;
|}.

(** Explicit proxy choice: a profile, or explicitly none. *)
Inductive ProxySelection :=
  | ProxySelection_None
  | ProxySelection_Profile (id : Id).

(** Each class: [None] inherits, [Some None] removes the deadline. *)
Record TimeoutOverrides := mkTimeoutOverrides {
  tov_dns_ms : option (option Z);
  tov_connect_ms : option (option Z);
  tov_tls_handshake_ms : option (option Z);
  tov_request_write_ms : option (option Z);
  tov_response_headers_ms : option (option Z);
  tov_body_idle_ms : option (option Z);
  tov_total_ms : option (option Z);
}.

Record SettingsOverrides := mkSettingsOverrides {
  so_http_version : option HttpVersionPolicy;
  so_timeouts : option TimeoutOverrides;
  so_redirects : option RedirectPolicy;
  so_retries : option RetryPolicy;
  so_ip_preference : option IpPreference;
  so_resolver : option ResolverMode;
  so_dns_overrides : list DnsOverride;
  so_proxy_profile_id : option ProxySelection;
  so_tls_profile_id : option Id;
  so_limits : option Limits;
  so_decompress : option bool;
  so_cookies : option bool;
  so_keepalive : option bool;
  so_infer_content_type : option bool;
  so_integration_profile_id : option Id;
  so_early_data : option EarlyDataPolicy;
}.

(** [#[derive(Default)]]: every field inherits. *)
Definition SettingsOverrides_default : SettingsOverrides := {|
  so_http_version := None;
  so_timeouts := None;
  so_redirects := None;
  so_retries := None;
  so_ip_preference := None;
  so_resolver := None;
  so_dns_overrides := [];
  so_proxy_profile_id := None;
  so_tls_profile_id := None;
  so_limits := None;
  so_decompress := None;
  so_cookies := None;
  so_keepalive := None;
  so_infer_content_type := None;
  so_integration_profile_id := None;
  so_early_data := None;
|}.

Record SettingSource := mkSettingSource {
  ss_field : string;
  ss_layer : string;
}.

Record EffectiveSettings := mkEffectiveSettings {
  es_http_version : HttpVersionPolicy;
  es_timeouts : Timeouts;
  es_redirects : RedirectPolicy;
  es_retries : RetryPolicy;
  es_ip_preference : IpPreference;
  es_resolver : ResolverMode;
  es_dns_overrides : list DnsOverride;
  es_proxy_profile_id : option Id;
  es_tls_profile_id : option Id;
  es_limits : Limits;
  es_decompress : bool;
  es_cookies : bool;
  es_keepalive : bool;
  es_infer_content_type : bool;
  es_integration_profile_id : option Id;
  es_early_data : EarlyDataPolicy;
  es_sources : list SettingSource;
}.

Definition EffectiveSettings_default : EffectiveSettings := {|
  es_http_version := HttpVersionPolicy_Auto;
  es_timeouts := Timeouts_default;
  es_redirects := RedirectPolicy_default;
  es_retries := RetryPolicy_default;
  es_ip_preference := IpPreference_System;
  es_resolver := ResolverMode_System;
  es_dns_overrides := [];
  es_proxy_profile_id := None;
  es_tls_profile_id := None;
  es_limits := Limits_default;
  es_decompress := true;
  es_cookies := true;
  es_keepalive := true;
  es_infer_content_type := true;
  es_integration_profile_id := None;
  es_early_data := EarlyDataPolicy_default;
  es_sources := [];
|}.

(** Field assignment on the settings under construction. *)
#[export] Instance eta_Timeouts : Eta Timeouts := fun r =>
  mkTimeouts (to_dns_ms r) (to_connect_ms r) (to_tls_handshake_ms r) (to_request_write_ms
    r) (to_response_headers_ms r) (to_body_idle_ms r) (to_total_ms r).

#[export] Instance eta_EffectiveSettings : Eta EffectiveSettings := fun r =>
  mkEffectiveSettings (es_http_version r) (es_timeouts r) (es_redirects r) (es_retries r)
    (es_ip_preference r) (es_resolver r) (es_dns_overrides r) (es_proxy_profile_id r)
    (es_tls_profile_id r) (es_limits r) (es_decompress r) (es_cookies r) (es_keepalive r)
    (es_infer_content_type r) (es_integration_profile_id r) (es_early_data r) (es_sources
    r).

Definition set_http_version (v : HttpVersionPolicy) (e : EffectiveSettings) : EffectiveSettings := e <| es_http_version := v |>.

Definition set_timeouts (v : Timeouts) (e : EffectiveSettings) : EffectiveSettings := e <| es_timeouts := v |>.

Definition set_redirects (v : RedirectPolicy) (e : EffectiveSettings) : EffectiveSettings := e <| es_redirects := v |>.

Definition set_retries (v : RetryPolicy) (e : EffectiveSettings) : EffectiveSettings := e <| es_retries := v |>.

Definition set_ip_preference (v : IpPreference) (e : EffectiveSettings) : EffectiveSettings := e <| es_ip_preference := v |>.

Definition set_resolver (v : ResolverMode) (e : EffectiveSettings) : EffectiveSettings := e <| es_resolver := v |>.

Definition set_dns_overrides (v : list DnsOverride) (e : EffectiveSettings) : EffectiveSettings := e <| es_dns_overrides := v |>.

Definition set_proxy_profile_id (v : option Id) (e : EffectiveSettings) : EffectiveSettings := e <| es_proxy_profile_id := v |>.

Definition set_tls_profile_id (v : option Id) (e : EffectiveSettings) : EffectiveSettings := e <| es_tls_profile_id := v |>.

Definition set_limits (v : Limits) (e : EffectiveSettings) : EffectiveSettings := e <| es_limits := v |>.

Definition set_decompress (v : bool) (e : EffectiveSettings) : EffectiveSettings := e <| es_decompress := v |>.

Definition set_cookies (v : bool) (e : EffectiveSettings) : EffectiveSettings := e <| es_cookies := v |>.

Definition set_keepalive (v : bool) (e : EffectiveSettings) : EffectiveSettings := e <| es_keepalive := v |>.

Definition set_infer_content_type (v : bool) (e : EffectiveSettings) : EffectiveSettings := e <| es_infer_content_type := v |>.

Definition set_integration_profile_id (v : option Id) (e : EffectiveSettings) : EffectiveSettings := e <| es_integration_profile_id := v |>.

Definition set_early_data (v : EarlyDataPolicy) (e : EffectiveSettings) : EffectiveSettings := e <| es_early_data := v |>.

Definition set_sources (v : list SettingSource) (e : EffectiveSettings) : EffectiveSettings := e <| es_sources := v |>.

Definition set_to_dns_ms (v : option Z) (e : EffectiveSettings) : EffectiveSettings :=
  e <| es_timeouts ::= (fun t => t <| to_dns_ms := v |>) |>.

Definition set_to_connect_ms (v : option Z) (e : EffectiveSettings) : EffectiveSettings :=
  e <| es_timeouts ::= (fun t => t <| to_connect_ms := v |>) |>.

Definition set_to_tls_handshake_ms (v : option Z) (e : EffectiveSettings) : EffectiveSettings :=
  e <| es_timeouts ::= (fun t => t <| to_tls_handshake_ms := v |>) |>.

Definition set_to_request_write_ms (v : option Z) (e : EffectiveSettings) : EffectiveSettings :=
  e <| es_timeouts ::= (fun t => t <| to_request_write_ms := v |>) |>.

Definition set_to_response_headers_ms (v : option Z) (e : EffectiveSettings) : EffectiveSettings :=
  e <| es_timeouts ::= (fun t => t <| to_response_headers_ms := v |>) |>.

Definition set_to_body_idle_ms (v : option Z) (e : EffectiveSettings) : EffectiveSettings :=
  e <| es_timeouts ::= (fun t => t <| to_body_idle_ms := v |>) |>.

Definition set_to_total_ms (v : option Z) (e : EffectiveSettings) : EffectiveSettings :=
  e <| es_timeouts ::= (fun t => t <| to_total_ms := v |>) |>.

(** * Resolution *)

(** [src]: the new source of [field] replaces an earlier one. *)
Definition src (sources : list SettingSource) (field layer : string) : list SettingSource :=
  filter (fun s => ss_field s <> field) sources ++ [mkSettingSource field layer].

(** The settings under construction and the local [sources]. *)
Abbreviation rstate := (EffectiveSettings * list SettingSource)%type.

(** [if let Some(v) = v { e.f = v; src(&mut sources, field, label); }]. *)
Definition set_field {A} (v : option A) (setter : A -> EffectiveSettings -> EffectiveSettings)
    (field label : string) (st : rstate) : rstate :=
  match v with
  | Some x => (setter x st.1, src st.2 field label)
  | None => st
  end.

(** One host's earlier override is dropped before the new one is added. *)
Definition add_dns_override (ds : list DnsOverride) (d : DnsOverride) : list DnsOverride :=
  filter (fun x => eq_ignore_ascii_case (dns_host x) (dns_host d) = false) ds ++ [d].

Definition apply_timeouts (o : option TimeoutOverrides) (label : string) (st : rstate) : rstate :=
  match o with
  | None => st
  | Some t =>
      let st := set_field (tov_dns_ms t) set_to_dns_ms "timeouts.dns_ms" label st in
      let st := set_field (tov_connect_ms t) set_to_connect_ms "timeouts.connect_ms" label st in
      let st := set_field (tov_tls_handshake_ms t) set_to_tls_handshake_ms "timeouts.tls_handshake_ms" label st in
      let st := set_field (tov_request_write_ms t) set_to_request_write_ms "timeouts.request_write_ms" label st in
      let st := set_field (tov_response_headers_ms t) set_to_response_headers_ms "timeouts.response_headers_ms" label st in
      let st := set_field (tov_body_idle_ms t) set_to_body_idle_ms "timeouts.body_idle_ms" label st in
      set_field (tov_total_ms t) set_to_total_ms "timeouts.total_ms" label st
  end.

Definition apply_dns (ds : list DnsOverride) (label : string) (st : rstate) : rstate :=
  match ds with
  | [] => st
  | _ => (set_dns_overrides (fold_left add_dns_override ds (es_dns_overrides st.1)) st.1,
          src st.2 "dns_overrides" label)
  end.

Definition proxy_id (p : ProxySelection) : option Id :=
  match p with ProxySelection_None => None | ProxySelection_Profile id => Some id end.

(** One round of the loop over the layers. *)
Definition apply_layer (st : rstate) (layer : string * SettingsOverrides) : rstate :=
  let '(label, o) := layer in
  let st := set_field (so_http_version o) set_http_version "http_version" label st in
  let st := apply_timeouts (so_timeouts o) label st in
  let st := set_field (so_redirects o) set_redirects "redirects" label st in
  let st := set_field (so_retries o) set_retries "retries" label st in
  let st := set_field (so_ip_preference o) set_ip_preference "ip_preference" label st in
  let st := set_field (so_resolver o) set_resolver "resolver" label st in
  let st := apply_dns (so_dns_overrides o) label st in
  let st := set_field (proxy_id <$> so_proxy_profile_id o) set_proxy_profile_id "proxy" label st in
  let st := set_field (Some <$> so_tls_profile_id o) set_tls_profile_id "tls_profile" label st in
  let st := set_field (so_limits o) set_limits "limits" label st in
  let st := set_field (so_decompress o) set_decompress "decompress" label st in
  let st := set_field (so_cookies o) set_cookies "cookies" label st in
  let st := set_field (so_keepalive o) set_keepalive "keepalive" label st in
  let st := set_field (so_infer_content_type o) set_infer_content_type "infer_content_type" label st in
  let st := set_field (Some <$> so_integration_profile_id o) set_integration_profile_id "integration_profile" label st in
  set_field (so_early_data o) set_early_data "early_data" label st.

Definition resolve (layers : list (string * SettingsOverrides)) : EffectiveSettings :=
  let st := fold_left apply_layer layers (EffectiveSettings_default, []) in
  set_sources st.2 st.1.

(** * Early data *)

Definition DEFAULT_METHODS : list string := ["GET"; "HEAD"; "OPTIONS"].
Definition ALLOWED_EXTRA_METHODS : list string := ["PUT"; "DELETE"; "TRACE"].

(** [EarlyDataPolicy::allows]. *)
Definition early_data_allows (p : EarlyDataPolicy) (method : string) : bool :=
  let m := trim method in
  ed_enabled p &&
  (existsb (fun d => eq_ignore_ascii_case d m) DEFAULT_METHODS
   || existsb (fun x => eq_ignore_ascii_case (trim x) m
        && existsb (fun a => eq_ignore_ascii_case a m) ALLOWED_EXTRA_METHODS) (ed_extra_methods p)).

(** [EarlyDataPolicy::invalid_extra_method]. *)
Definition invalid_extra_method (p : EarlyDataPolicy) : option string :=
  List.find (fun m => negb (existsb (fun d => eq_ignore_ascii_case d m) DEFAULT_METHODS)
                      && negb (existsb (fun a => eq_ignore_ascii_case a m) ALLOWED_EXTRA_METHODS))
            (map trim (ed_extra_methods p)).

(** * Lock policy *)

(** What happens to active runs when the vault locks. *)
Inductive LockRunPolicy := LockRunPolicy_StopRuns.

Record LockPolicy := mkLockPolicy {
  lp_idle_minutes : Z;
  lp_lock_on_os_lock : bool;
  lp_run_policy : LockRunPolicy;
  lp_clear_clipboard_on_lock : bool;
}.

Definition LockPolicy_default : LockPolicy := mkLockPolicy 15 true LockRunPolicy_StopRuns true.

(** [LockPolicy::weakening]. *)
Definition weakening (was new : LockPolicy) : list string :=
  (if lp_idle_minutes was =? 0 then []
   else if lp_idle_minutes new =? 0 then ["never lock after inactivity"]
   else if lp_idle_minutes was <? lp_idle_minutes new then
     [("lock after " +:+ pretty (lp_idle_minutes new) +:+ " minutes of inactivity instead of "
       +:+ pretty (lp_idle_minutes was))%string]
   else [])
  ++ (if lp_lock_on_os_lock was && negb (lp_lock_on_os_lock new)
      then ["no longer lock when the computer sleeps"] else [])
  ++ (if lp_clear_clipboard_on_lock was && negb (lp_clear_clipboard_on_lock new)
      then ["no longer clear the clipboard on lock"] else []).

(** * The layering contract *)

(** A setting some layer may override: its name among the sources, its value
    in a layer, its value in the result and its default. *)
Record Setting := mkSetting {
  st_type : Type;
  st_name : string;
  st_layer : SettingsOverrides -> option st_type;
  st_value : EffectiveSettings -> st_type;
}.

Definition timeout_layer (f : TimeoutOverrides -> option (option Z)) (o : SettingsOverrides)
    : option (option Z) := t ← so_timeouts o; f t.

(** Every setting a single layer decides (DNS overrides accumulate instead). *)
Definition settings : list Setting := [
  mkSetting _ "http_version" so_http_version es_http_version;
  mkSetting _ "timeouts.dns_ms" (timeout_layer tov_dns_ms) (fun e => to_dns_ms (es_timeouts e));
  mkSetting _ "timeouts.connect_ms" (timeout_layer tov_connect_ms) (fun e => to_connect_ms (es_timeouts e));
  mkSetting _ "timeouts.tls_handshake_ms" (timeout_layer tov_tls_handshake_ms)
    (fun e => to_tls_handshake_ms (es_timeouts e));
  mkSetting _ "timeouts.request_write_ms" (timeout_layer tov_request_write_ms)
    (fun e => to_request_write_ms (es_timeouts e));
  mkSetting _ "timeouts.response_headers_ms" (timeout_layer tov_response_headers_ms)
    (fun e => to_response_headers_ms (es_timeouts e));
  mkSetting _ "timeouts.body_idle_ms" (timeout_layer tov_body_idle_ms)
    (fun e => to_body_idle_ms (es_timeouts e));
  mkSetting _ "timeouts.total_ms" (timeout_layer tov_total_ms) (fun e => to_total_ms (es_timeouts e));
  mkSetting _ "redirects" so_redirects es_redirects;
  mkSetting _ "retries" so_retries es_retries;
  mkSetting _ "ip_preference" so_ip_preference es_ip_preference;
  mkSetting _ "resolver" so_resolver es_resolver;
  mkSetting _ "proxy" (fun o => proxy_id <$> so_proxy_profile_id o) es_proxy_profile_id;
  mkSetting _ "tls_profile" (fun o => Some <$> so_tls_profile_id o) es_tls_profile_id;
  mkSetting _ "limits" so_limits es_limits;
  mkSetting _ "decompress" so_decompress es_decompress;
  mkSetting _ "cookies" so_cookies es_cookies;
  mkSetting _ "keepalive" so_keepalive es_keepalive;
  mkSetting _ "infer_content_type" so_infer_content_type es_infer_content_type;
  mkSetting _ "integration_profile" (fun o => Some <$> so_integration_profile_id o) es_integration_profile_id;
  mkSetting _ "early_data" so_early_data es_early_data ].

(** The recorded source of a field. *)
Definition source_of (field : string) (sources : list SettingSource) : option string :=
  ss_layer <$> List.find (fun s => String.eqb (ss_field s) field) sources.

(** The last layer that sets a setting, with its value. *)
Definition last_set (s : Setting) (layers : list (string * SettingsOverrides))
    : option (string * st_type s) :=
  last (omap (fun l => (l.1,.) <$> st_layer s l.2) layers).

Section Layering.
Implicit Types (st : rstate) (sources : list SettingSource).

Lemma source_of_app f l1 l2 :
  source_of f (l1 ++ l2) = match source_of f l1 with Some x => Some x | None => source_of f l2 end.
Proof.
  unfold source_of. induction l1 as [|s l1 IH]; [done|]. simpl.
  by destruct (String.eqb (ss_field s) f).
Qed.

Lemma source_of_src f sources n l :
  source_of f (src sources n l) = if decide (f = n) then Some l else source_of f sources.
Proof.
  unfold src. rewrite source_of_app. case_decide as Hf.
  - subst n. replace (source_of f (filter _ _)) with (@None string).
    + unfold source_of; simpl. by rewrite String.eqb_refl.
    + symmetry. unfold source_of. induction sources as [|s ss IH]; [done|].
      rewrite filter_cons. case_decide; [|done]. simpl.
      by destruct (String.eqb_spec (ss_field s) f).
  - replace (source_of f (filter _ _)) with (source_of f sources).
    + destruct (source_of f sources); [done|]. unfold source_of; simpl.
      by destruct (String.eqb_spec n f).
    + unfold source_of. induction sources as [|s ss IH]; [done|].
      rewrite filter_cons. simpl. case_decide as Hs; simpl;
        destruct (String.eqb_spec (ss_field s) f); [done..| |done]. congruence.
Qed.

Lemma set_field_value_ne {A B} (g : EffectiveSettings -> B) (v : option A) setter n l st :
  (forall x e, g (setter x e) = g e) -> g (set_field v setter n l st).1 = g st.1.
Proof. intros Hg. by destruct v; simpl. Qed.

Lemma set_field_value_eq {A} (g : EffectiveSettings -> A) (v : option A) setter n l st :
  (forall x e, g (setter x e) = x) -> g (set_field v setter n l st).1 = default (g st.1) v.
Proof. intros Hg. by destruct v; simpl. Qed.

Lemma set_field_source {A} f (v : option A) setter n l st :
  source_of f (set_field v setter n l st).2 =
    if decide (f = n) then match v with Some _ => Some l | None => source_of f st.2 end
    else source_of f st.2.
Proof.
  destruct v; simpl; [rewrite source_of_src|]; by case_decide.
Qed.

Lemma apply_dns_value {B} (g : EffectiveSettings -> B) ds l st :
  (forall x e, g (set_dns_overrides x e) = g e) -> g (apply_dns ds l st).1 = g st.1.
Proof. intros Hg. by destruct ds; simpl. Qed.

Lemma apply_dns_source f ds l st :
  f <> "dns_overrides" -> source_of f (apply_dns ds l st).2 = source_of f st.2.
Proof. intros Hf. destruct ds; [done|]. simpl. rewrite source_of_src. by rewrite decide_False. Qed.

Lemma apply_timeouts_value {B} (g : EffectiveSettings -> B) o l st :
  (forall x e, g (set_timeouts x e) = g e) -> g (apply_timeouts o l st).1 = g st.1.
Proof.
  intros Hg. destruct o as [t|]; [|done]. simpl.
  by rewrite !set_field_value_ne by (intros; apply Hg).
Qed.
End Layering.

(** Walks back through the assignments of [apply_layer] to the one that
    decides the value read by [g], and to the one that records the source. *)
Ltac layer_value g :=
  repeat match goal with
  | |- context [ (set_field ?v ?setter ?n ?l ?st).1 ] =>
      let H := fresh in
      first [ pose proof (set_field_value_ne g v setter n l st (fun _ _ => eq_refl)) as H
            | pose proof (set_field_value_eq g v setter n l st (fun _ _ => eq_refl)) as H ];
      cbv beta in H; rewrite H; clear H
  | |- context [ (apply_dns ?ds ?l ?st).1 ] =>
      let H := fresh in
      pose proof (apply_dns_value g ds l st (fun _ _ => eq_refl)) as H;
      cbv beta in H; rewrite H; clear H
  | |- context [ (apply_timeouts ?o ?l ?st).1 ] =>
      let H := fresh in
      pose proof (apply_timeouts_value g o l st (fun _ _ => eq_refl)) as H;
      cbv beta in H; rewrite H; clear H
  end.
Ltac layer_source :=
  repeat first
    [ rewrite set_field_source; first [rewrite decide_False by done | rewrite decide_True by done]
    | rewrite apply_dns_source by done ].

Definition layer_step_ok (s : Setting) : Prop := forall (st : rstate) l o,
  st_value s (apply_layer st (l, o)).1 = default (st_value s st.1) (st_layer s o) /\
  source_of (st_name s) (apply_layer st (l, o)).2 =
    match st_layer s o with Some _ => Some l | None => source_of (st_name s) st.2 end.

Lemma apply_timeouts_source f o l (st : rstate) :
  str_strip_prefix "timeouts." f = None ->
  source_of f (apply_timeouts o l st).2 = source_of f st.2.
Proof.
  intros Hf. destruct o as [t|]; [|done]. simpl.
  rewrite !set_field_source. repeat (rewrite decide_False; [|by intros ->]). done.
Qed.

Ltac setting_step :=
  match goal with |- layer_step_ok ?s => let g := eval simpl in (st_value s) in
    intros st l o; unfold apply_layer; simpl; split;
    [ layer_value g; reflexivity
    | layer_source; rewrite ?apply_timeouts_source by done; layer_source; reflexivity ]
  end.

(** The same for a timeout class, through the layer's own overrides. *)
Ltac timeout_step :=
  match goal with |- layer_step_ok ?s => let g := eval simpl in (st_value s) in
    intros st l o; unfold apply_layer, timeout_layer; simpl; split;
    [ layer_value g; destruct (so_timeouts o) as [t|]; simpl; layer_value g; reflexivity
    | layer_source; destruct (so_timeouts o) as [t|]; simpl; layer_source; reflexivity ]
  end.

Lemma settings_step_ok : Forall layer_step_ok settings.
Proof.
  unfold settings. repeat apply List.Forall_cons; try apply List.Forall_nil;
    first [setting_step | timeout_step].
Qed.

Definition setting_default (s : Setting) : st_type s := st_value s EffectiveSettings_default.

Lemma fold_layers_ok s layers :
  layer_step_ok s ->
  let st := fold_left apply_layer layers (EffectiveSettings_default, []) in
  st_value s st.1 = from_option snd (setting_default s) (last_set s layers) /\
  source_of (st_name s) st.2 = fst <$> last_set s layers.
Proof.
  intros Hs. induction layers as [|[l o] layers IH] using rev_ind; [by split|].
  cbv zeta in *. rewrite fold_left_app. cbn [fold_left].
  destruct (Hs (fold_left apply_layer layers (EffectiveSettings_default, [])) l o) as [Hv Hsrc].
  rewrite Hv, Hsrc. destruct IH as [IHv IHs]. rewrite IHv, IHs.
  unfold last_set. rewrite omap_app. simpl. destruct (st_layer s o) as [x|]; simpl.
  - by rewrite last_snoc.
  - by rewrite app_nil_r.
Qed.

Lemma settings_unaffected_by_sources :
  Forall (fun s => forall ss e, st_value s (set_sources ss e) = st_value s e) settings.
Proof. unfold settings. repeat apply List.Forall_cons; try apply List.Forall_nil; done. Qed.

(** Settings resolve by layers (crates/anvil-engine/src/settings.rs,
    [resolve]). For every setting, the effective value is the one of the last
    layer that sets it, the default when no layer does, and its recorded
    source is that layer's label (none when no layer sets it). *)
Theorem resolve_last_layer_wins layers :
  Forall (fun s =>
    st_value s (resolve layers) = from_option snd (setting_default s) (last_set s layers) /\
    source_of (st_name s) (es_sources (resolve layers)) = fst <$> last_set s layers) settings.
Proof.
  pose proof settings_unaffected_by_sources as Hsrc.
  pose proof settings_step_ok as Hstep. unfold resolve. simpl es_sources.
  rewrite Forall_forall in *. intros s Hs. rewrite Hsrc by done.
  by apply fold_layers_ok, Hstep.
Qed.

(** ** DNS overrides and sources have one entry per key *)

Definition hosts (ds : list DnsOverride) : list string := map (fun d => to_ascii_lowercase (dns_host d)) ds.

Lemma NoDup_filter_snoc {A B} `{EqDecision B} (key : A -> B) (P : A -> Prop) `{forall x, Decision (P x)}
    (l : list A) x :
  (forall y, P y -> key y <> key x) ->
  NoDup (key <$> l) -> NoDup (key <$> (filter P l ++ [x])).
Proof.
  intros HP Hl. rewrite fmap_app. apply NoDup_app. split; [|split].
  - induction l as [|y l IH]; [constructor|]. apply NoDup_cons in Hl as [Hy Hl].
    rewrite filter_cons. case_decide; [|by apply IH]. simpl. apply NoDup_cons. split; [|by apply IH].
    intros (z & Hz & Hzl)%list_elem_of_fmap. apply list_elem_of_filter in Hzl as [_ Hzl].
    apply Hy. rewrite Hz. by apply list_elem_of_fmap_2.
  - intros k (y & -> & Hy)%list_elem_of_fmap. apply list_elem_of_filter in Hy as [Hp _].
    simpl. intros Hk%list_elem_of_singleton. by apply (HP y).
  - simpl. apply NoDup_singleton.
Qed.

Lemma add_dns_override_NoDup ds d : NoDup (hosts ds) -> NoDup (hosts (add_dns_override ds d)).
Proof.
  apply NoDup_filter_snoc. intros y Hy Hk. unfold eq_ignore_ascii_case in Hy.
  rewrite Hk in Hy. by rewrite String.eqb_refl in Hy.
Qed.

Lemma src_NoDup sources n l : NoDup (ss_field <$> sources) -> NoDup (ss_field <$> src sources n l).
Proof. apply NoDup_filter_snoc. by intros y Hy. Qed.

#[export] Hint Resolve src_NoDup add_dns_override_NoDup : anvil.

(** Every layer's overrides, in layer order. *)
Definition all_dns_overrides (layers : list (string * SettingsOverrides)) : list DnsOverride :=
  concat (map (fun l => so_dns_overrides l.2) layers).

(** The override in force for [host]. *)
Definition dns_for (host : string) (ds : list DnsOverride) : option DnsOverride :=
  List.find (fun d => eq_ignore_ascii_case (dns_host d) host) ds.

Lemma apply_dns_fold ds l (st : rstate) :
  es_dns_overrides (apply_dns ds l st).1 = fold_left add_dns_override ds (es_dns_overrides st.1).
Proof. by destruct ds. Qed.

Lemma apply_layer_dns (st : rstate) l o :
  es_dns_overrides (apply_layer st (l, o)).1 =
  fold_left add_dns_override (so_dns_overrides o) (es_dns_overrides st.1).
Proof.
  unfold apply_layer.
  rewrite !(set_field_value_ne es_dns_overrides) by done. rewrite apply_dns_fold.
  rewrite !(set_field_value_ne es_dns_overrides) by done.
  rewrite (apply_timeouts_value es_dns_overrides) by done.
  by rewrite !(set_field_value_ne es_dns_overrides) by done.
Qed.

Lemma resolve_dns layers :
  es_dns_overrides (resolve layers) = fold_left add_dns_override (all_dns_overrides layers) [].
Proof.
  unfold resolve, all_dns_overrides. simpl es_dns_overrides.
  change (@nil DnsOverride) with (es_dns_overrides (EffectiveSettings_default, @nil SettingSource).1).
  generalize (EffectiveSettings_default, @nil SettingSource) as st.
  induction layers as [|[l o] layers IH]; intros st; [done|].
  cbn [fold_left map concat]. rewrite IH, apply_layer_dns. by rewrite fold_left_app.
Qed.

Lemma fold_dns_NoDup ds acc :
  NoDup (hosts acc) -> NoDup (hosts (fold_left add_dns_override ds acc)).
Proof. revert acc. induction ds as [|d ds IH]; simpl; auto with anvil. Qed.

Lemma dns_for_app h a b :
  dns_for h (a ++ b) = match dns_for h a with Some d => Some d | None => dns_for h b end.
Proof.
  unfold dns_for. induction a as [|d a IH]; [done|]. simpl.
  by destruct (eq_ignore_ascii_case (dns_host d) h).
Qed.

Lemma dns_for_add h ds d :
  dns_for h (add_dns_override ds d) =
  if eq_ignore_ascii_case (dns_host d) h then Some d else dns_for h ds.
Proof.
  unfold add_dns_override. rewrite dns_for_app.
  destruct (eq_ignore_ascii_case (dns_host d) h) eqn:E.
  - replace (dns_for h (filter _ ds)) with (@None DnsOverride); [unfold dns_for; simpl; by rewrite E|].
    symmetry. unfold dns_for. induction ds as [|x ds IH]; [done|]. rewrite filter_cons.
    case_decide as Hx; [|done]. simpl. destruct (eq_ignore_ascii_case (dns_host x) h) eqn:E'; [|done].
    apply eq_ignore_ascii_case_spec in E, E'. exfalso.
    assert (eq_ignore_ascii_case (dns_host x) (dns_host d) = true) as H
      by (apply eq_ignore_ascii_case_spec; congruence). congruence.
  - replace (dns_for h (filter _ ds)) with (dns_for h ds).
    { destruct (dns_for h ds); [done|]. unfold dns_for; simpl. by rewrite E. }
    unfold dns_for. induction ds as [|x ds IH]; [done|]. rewrite filter_cons.
    case_decide as Hx; simpl; destruct (eq_ignore_ascii_case (dns_host x) h) eqn:E'; try done.
    apply not_false_is_true in Hx. apply eq_ignore_ascii_case_spec in Hx, E'.
    assert (eq_ignore_ascii_case (dns_host d) h = true) as H
      by (apply eq_ignore_ascii_case_spec; congruence). congruence.
Qed.

(** DNS overrides accumulate over the layers with one entry per host,
    compared without ASCII case, and the entry in force for a host is the last
    one any layer gives it. *)
Theorem resolve_dns_last_wins layers :
  NoDup (hosts (es_dns_overrides (resolve layers))) /\
  forall h, dns_for h (es_dns_overrides (resolve layers)) =
    last (filter (fun d => eq_ignore_ascii_case (dns_host d) h = true) (all_dns_overrides layers)).
Proof.
  rewrite resolve_dns. split; [apply fold_dns_NoDup, NoDup_nil_2|]. intros h.
  induction (all_dns_overrides layers) as [|d ds IH] using rev_ind; [done|].
  rewrite fold_left_app, filter_app. cbn [fold_left]. rewrite dns_for_add, IH.
  rewrite filter_cons, filter_nil. destruct (eq_ignore_ascii_case (dns_host d) h).
  - rewrite decide_True by done. by rewrite last_snoc.
  - rewrite decide_False by done. by rewrite app_nil_r.
Qed.

(** ** Early data *)

(** The default and allowed methods are idempotent ones, and no other method
    may ride in early data, whatever the policy lists. *)
Definition early_methods : list string := DEFAULT_METHODS ++ ALLOWED_EXTRA_METHODS.

Lemma early_data_allows_idempotent p method :
  early_data_allows p method = true ->
  exists m, In m early_methods /\ eq_ignore_ascii_case m (trim method) = true.
Proof.
  unfold early_data_allows, early_methods. intros [_ H]%andb_true_iff.
  apply orb_true_iff in H as [H|H]; apply existsb_exists in H as (x & Hin & Hx).
  - exists x. split; [apply in_or_app; by left|done].
  - apply andb_true_iff in Hx as [_ Hx]. apply existsb_exists in Hx as (a & Ha & Hx).
    exists a. split; [apply in_or_app; by right|done].
Qed.

(** Early data never carries a method outside GET, HEAD, OPTIONS, PUT,
    DELETE and TRACE, and none at all while the policy is off; a listed extra
    method outside that set is the one [invalid_extra_method] reports. *)
Theorem early_data_only_idempotent p method :
  (early_data_allows p method = true ->
     ed_enabled p = true /\
     exists m, In m early_methods /\ eq_ignore_ascii_case m (trim method) = true) /\
  (invalid_extra_method p = None <->
     Forall (fun x => exists m, In m early_methods /\ eq_ignore_ascii_case m (trim x) = true)
            (ed_extra_methods p)).
Proof.
  split.
  - intros H. split; [|by eapply early_data_allows_idempotent].
    unfold early_data_allows in H. by apply andb_true_iff in H as [? _].
  - unfold invalid_extra_method. induction (ed_extra_methods p) as [|x xs IH]; [by split|].
    cbn [map List.find]. rewrite Forall_cons.
    destruct (negb _ && negb _) eqn:E.
    + split; [done|]. intros [(m & Hm & He) _]. exfalso.
      apply andb_true_iff in E as [E1 E2]. apply negb_true_iff in E1, E2.
      apply in_app_or in Hm as [Hm|Hm].
      * enough (existsb (fun d => eq_ignore_ascii_case d (trim x)) DEFAULT_METHODS = true) by congruence.
        apply existsb_exists. eauto.
      * enough (existsb (fun d => eq_ignore_ascii_case d (trim x)) ALLOWED_EXTRA_METHODS = true) by congruence.
        apply existsb_exists. eauto.
    + rewrite IH. split; [|tauto]. intros Hxs. split; [|done].
      apply andb_false_iff in E as [E|E]; apply negb_false_iff, existsb_exists in E as (m & Hm & He);
        exists m; (split; [apply in_or_app; tauto|done]).
Qed.
