(* ===== verification/Evidence.v ===== *)
(** The native evidence of one execution: the data types of
    crates/anvil-domain/src/execution.rs and outcome.rs, with the parts of
    diagnostics.rs, assertions.rs, workload.rs, proxy_protocol.rs and
    request.rs they hold, field for field, and the functions these files
    define on them: phase durations, the dispatch summary over the attempts of
    a request, the classes of failure kinds, the exchange duration. *)
From S2P Require Import Prelude Text Settings.
From stdpp Require Import base list numbers strings option.
From Stdlib Require Import ZArith Lia Ascii Permutation.
Open Scope Z_scope.

(** An instant ([chrono::DateTime<Utc>]), by its nanoseconds since the epoch.
    Only carried, never computed with. *)
Record DateTime := mkDateTime { unix_nanos : Z }.

(** * Diagnostics (diagnostics.rs, assertions.rs) *)

Inductive Confidence :=
  | Confidence_ConflictingEvidence
  | Confidence_Unknown
  | Confidence_Likely
  | Confidence_Confirmed.

Inductive SourceScope :=
  | SourceScope_LocalClient
  | SourceScope_ForwardProxy
  | SourceScope_ClientToPeer
  | SourceScope_GatewayAdmission
  | SourceScope_GatewayToUpstream
  | SourceScope_UpstreamApplication
  | SourceScope_ResponseDelivery
  | SourceScope_Unknown.

Inductive Owner :=
  | Owner_Caller
  | Owner_GatewayOperator
  | Owner_ApiOwner
  | Owner_NetworkAdministrator
  | Owner_IdentityProvider
  | Owner_Unknown.

Inductive Severity :=
  | Severity_Info
  | Severity_Warning
  | Severity_Error.

Inductive EvidenceSource :=
  | EvidenceSource_LocalValidation
  | EvidenceSource_NativeTransport
  | EvidenceSource_TlsVerifier
  | EvidenceSource_HttpStatus
  | EvidenceSource_HttpHeader
  | EvidenceSource_HttpTrailer
  | EvidenceSource_GrpcStatus
  | EvidenceSource_WebSocketClose
  | EvidenceSource_BodyCompletion
  | EvidenceSource_BodyContent
  | EvidenceSource_FerrumMarkerTrusted
  | EvidenceSource_FerrumMarkerUnverified
  | EvidenceSource_GatewayDetail
  | EvidenceSource_Configuration
  | EvidenceSource_Assertion.

Record Evidence := mkEvidence {
  ev_source : EvidenceSource;
  ev_key : string;
  ev_value : string;
  ev_attempt : option Z;
}.

Record Remediation := mkRemediation {
  rem_text : string;
  rem_owner : Owner;
}.

Record DiagnosticFinding := mkDiagnosticFinding {
  df_code : string;
  df_rule_id : string;
  df_rule_version : Z;
  df_title : string;
  df_explanation : string;
  df_scope : SourceScope;
  df_confidence : Confidence;
  df_severity : Severity;
  df_evidence : list Evidence;
  df_alternatives : list string;
  df_does_not_prove : list string;
  df_remediation : list Remediation;
  df_owner : Owner;
  df_confirm_with : list string;
}.

Record AssertionResult := mkAssertionResult {
  ar_label : string;
  ar_passed : bool;
  ar_actual : option string;
  ar_message : string;
}.

(** * Native evidence (execution.rs) *)

Inductive Protocol :=
  | Protocol_Http
  | Protocol_WebSocket
  | Protocol_Grpc
  | Protocol_Sse
  | Protocol_Tcp
  | Protocol_Udp
  | Protocol_Mcp.

Inductive Phase :=
  | Phase_Prepare
  | Phase_Queue
  | Phase_Dns
  | Phase_Connect
  | Phase_ProxyTunnel
  | Phase_ProxyProtocolHeader
  | Phase_TlsHandshake
  | Phase_QuicHandshake
  | Phase_DtlsHandshake
  | Phase_ProtocolHandshake
  | Phase_RequestWrite
  | Phase_AwaitResponseHeaders
  | Phase_ResponseBody
  | Phase_Session.

Inductive PhaseStatus :=
  | PhaseStatus_Completed
  | PhaseStatus_Failed
  | PhaseStatus_TimedOut
  | PhaseStatus_Canceled
  | PhaseStatus_Reused
  | PhaseStatus_NotApplicable
  | PhaseStatus_Unknown.

Record PhaseTiming := mkPhaseTiming {
  pt_phase : Phase;
  pt_status : PhaseStatus;
  pt_start_us : option Z;
  pt_end_us : option Z;
  pt_detail : option string;
}.

Inductive DispatchState :=
  | DispatchState_NotDispatched
  | DispatchState_Sent
  | DispatchState_MayHaveBeenSent
  | DispatchState_Unknown.

Inductive FailureKind :=
  | FailureKind_InvalidUrl
  | FailureKind_UnsupportedScheme
  | FailureKind_UnresolvedVariable
  | FailureKind_VariableCycle
  | FailureKind_MissingAttachment
  | FailureKind_ClientIdentityInvalid
  | FailureKind_ClientIdentityKeyMismatch
  | FailureKind_TlsProfileInvalid
  | FailureKind_ProxyConfigInvalid
  | FailureKind_InvalidHeader
  | FailureKind_BodySerialization
  | FailureKind_LintBlocked
  | FailureKind_RequestTooLargeLocal
  | FailureKind_AuthPreparationFailed
  | FailureKind_OAuthInteractionRequired
  | FailureKind_UnsupportedCombination
  | FailureKind_VaultLocked
  | FailureKind_WorkloadApiUnavailable
  | FailureKind_WorkloadApiDenied
  | FailureKind_WorkloadApiFailed
  | FailureKind_JwtSvidRejectedLocally
  | FailureKind_DnsNoSuchHost
  | FailureKind_DnsNoRecords
  | FailureKind_DnsTimeout
  | FailureKind_DnsServerFailure
  | FailureKind_DnsOther
  | FailureKind_ConnectRefused
  | FailureKind_ConnectTimeout
  | FailureKind_ConnectReset
  | FailureKind_NetworkUnreachable
  | FailureKind_HostUnreachable
  | FailureKind_AddressUnavailable
  | FailureKind_ConnectOther
  | FailureKind_ProxyConnectFailed
  | FailureKind_ProxyTunnelRejected
  | FailureKind_ProxyAuthRequired
  | FailureKind_ProxyProtocolError
  | FailureKind_HboneEndpointTlsFailed
  | FailureKind_HboneConnectRefused
  | FailureKind_HboneProtocolError
  | FailureKind_TlsUntrustedIssuer
  | FailureKind_TlsExpired
  | FailureKind_TlsNotYetValid
  | FailureKind_TlsNameMismatch
  | FailureKind_TlsRevoked
  | FailureKind_TlsBadCertificate
  | FailureKind_TlsAlertReceived
  | FailureKind_TlsHandshakeTimeout
  | FailureKind_TlsPeerClosed
  | FailureKind_TlsReset
  | FailureKind_TlsProtocolMismatch
  | FailureKind_TlsAlpnMismatch
  | FailureKind_TlsOther
  | FailureKind_TlsAlertAfterHandshake
  | FailureKind_TlsSpiffeIdMismatch
  | FailureKind_TlsUntrustedTrustDomain
  | FailureKind_TlsInvalidSvid
  | FailureKind_QuicHandshakeTimeout
  | FailureKind_QuicIdleTimeout
  | FailureKind_QuicTransportError
  | FailureKind_QuicApplicationClosed
  | FailureKind_QuicOther
  | FailureKind_DtlsHandshakeTimeout
  | FailureKind_DtlsHandshakeFailed
  | FailureKind_RequestWriteTimeout
  | FailureKind_RequestWriteFailed
  | FailureKind_ResponseHeadersTimeout
  | FailureKind_ClosedBeforeResponse
  | FailureKind_ResetBeforeResponse
  | FailureKind_HttpProtocolError
  | FailureKind_H2StreamReset
  | FailureKind_H2RefusedStream
  | FailureKind_H2GoAway
  | FailureKind_ResponseHeadersTooLarge
  | FailureKind_BodyIdleTimeout
  | FailureKind_BodyIncomplete
  | FailureKind_BodyReset
  | FailureKind_ResponseTooLargeLocal
  | FailureKind_DecompressionFailed
  | FailureKind_WsHandshakeRejected
  | FailureKind_WsProtocolError
  | FailureKind_WsMessageTooLarge
  | FailureKind_MasqueUnsupported
  | FailureKind_MasqueRefused
  | FailureKind_TotalTimeout
  | FailureKind_Canceled
  | FailureKind_Internal.

Record TransportFailure := mkTransportFailure {
  tf_phase : Phase;
  tf_kind : FailureKind;
  tf_message : string;
  tf_io_error_kind : option string;
  tf_os_error_code : option Z;
  tf_tls_alert : option string;
  tf_h2_error_code : option Z;
  tf_quic_error_code : option Z;
  tf_status : option Z;
  tf_field : option string;
  tf_deadline_ms : option Z;
}.

Record CertificateSummary := mkCertificateSummary {
  cs_subject : string;
  cs_issuer : string;
  cs_subject_alt_names : list string;
  cs_not_before : string;
  cs_not_after : string;
  cs_serial_hex : string;
  cs_sha256_fingerprint : string;
  cs_is_ca : bool;
  cs_key_algorithm : string;
}.

Inductive TlsVerification :=
  | TlsVerification_Verified
  | TlsVerification_Failed (problem : FailureKind) (detail : string)
  | TlsVerification_Bypassed (would_have_failed : option FailureKind)
  | TlsVerification_NotReached.

Inductive PeerIdentityCheck :=
  | PeerIdentityCheck_HostName (name : string)
  | PeerIdentityCheck_SpiffeId (expected : string) (trust_domain : string)
  | PeerIdentityCheck_SpiffeTrustDomain (trust_domain : string).

Record TlsObservation := mkTlsObservation {
  tls_server_name : string;
  tls_sni : option string;
  tls_server_name_overridden : bool;
  tls_identity_check : option PeerIdentityCheck;
  tls_peer_spiffe_id : option string;
  tls_version : option string;
  tls_cipher_suite : option string;
  tls_alpn_offered : list string;
  tls_alpn_negotiated : option string;
  tls_verification : TlsVerification;
  tls_peer_certificates : list CertificateSummary;
  tls_client_certificate_requested : option bool;
  tls_client_certificate_presented : option CertificateSummary;
  tls_alert_received : option string;
  tls_resumed : option bool;
}.

Record ConnectAttempt := mkConnectAttempt {
  ca_address : string;
  ca_failure : option FailureKind;
  ca_duration_us : option Z;
}.

Inductive TunnelKind :=
  | TunnelKind_Hbone
  | TunnelKind_ConnectUdp.

Record HeaderEntry := mkHeaderEntry {
  he_name : string;
  he_value : string;
}.

Inductive ClosedBy :=
  | ClosedBy_Peer
  | ClosedBy_Client
  | ClosedBy_Abnormal
  | ClosedBy_Timeout
  | ClosedBy_NotClosed.

Record HboneDatagramChannel := mkHboneDatagramChannel {
  hdc_records_sent : Z;
  hdc_records_received : Z;
  hdc_oversize_refused : Z;
  hdc_truncated_tail_bytes : Z;
  hdc_closed_by : ClosedBy;
  hdc_reset_code : option string;
}.

Record TunnelObservation := mkTunnelObservation {
  tun_kind : TunnelKind;
  tun_endpoint : string;
  tun_authority : string;
  tun_resolved_addresses : list string;
  tun_resolution_source : option string;
  tun_connect_attempts : list ConnectAttempt;
  tun_local_address : option string;
  tun_remote_address : option string;
  tun_phases : list PhaseTiming;
  tun_tls : option TlsObservation;
  tun_connect_headers : list HeaderEntry;
  tun_connect_status : option Z;
  tun_response_headers : list HeaderEntry;
  tun_refusal_body : option string;
  tun_refusal_body_truncated : bool;
  tun_failure : option TransportFailure;
  tun_datagrams : option HboneDatagramChannel;
}.

Inductive ProxyHeaderFormat :=
  | ProxyHeaderFormat_V1
  | ProxyHeaderFormat_V2
  | ProxyHeaderFormat_Raw
  | ProxyHeaderFormat_V2Datagram.

Inductive ProxyCommand :=
  | ProxyCommand_Proxy
  | ProxyCommand_Local.

Inductive AddressOrigin :=
  | AddressOrigin_Socket
  | AddressOrigin_Configured.

Record ProxyHeaderObservation := mkProxyHeaderObservation {
  pho_format : ProxyHeaderFormat;
  pho_command : option ProxyCommand;
  pho_family : string;
  pho_source : option string;
  pho_source_origin : option AddressOrigin;
  pho_destination : option string;
  pho_destination_origin : option AddressOrigin;
  pho_length : Z;
  pho_hex : string;
  pho_text : option string;
  pho_tlvs : list string;
  pho_well_formed : bool;
  pho_problem : option string;
  pho_authenticated : bool;
  pho_listener_binding : option string;
  pho_sender_id : option Z;
  pho_epoch : option Z;
  pho_first_sequence : option Z;
  pho_last_sequence : option Z;
  pho_datagrams : Z;
}.

Record ConnectionObservation := mkConnectionObservation {
  co_id : Z;
  co_reused : bool;
  co_protocol : option string;
  co_local_address : option string;
  co_remote_address : option string;
  co_resolved_addresses : list string;
  co_resolution_source : option string;
  co_connect_attempts : list ConnectAttempt;
  co_via_proxy : option string;
  co_tls : option TlsObservation;
  co_prior_requests : Z;
  co_proxy_header : option ProxyHeaderObservation;
  co_tunnel : option TunnelObservation;
}.

Inductive AttemptReason :=
  | AttemptReason_Initial
  | AttemptReason_Redirect (status : Z)
  | AttemptReason_Retry (after : FailureKind)
  | AttemptReason_ProtocolFallback (from_ : string)
  | AttemptReason_AuthChallenge (scheme : string)
  | AttemptReason_TooEarlyRetry
  | AttemptReason_ReusedConnectionClosed (after : FailureKind).

Inductive EarlyDataTransport :=
  | EarlyDataTransport_Quic
  | EarlyDataTransport_Tls.

Inductive EarlyDataNotUsed :=
  | EarlyDataNotUsed_NoTicket
  | EarlyDataNotUsed_TicketWithoutEarlyData
  | EarlyDataNotUsed_MethodNotEligible
  | EarlyDataNotUsed_ConnectionReused
  | EarlyDataNotUsed_RetryAfterTooEarly
  | EarlyDataNotUsed_AlpnNotFixed
  | EarlyDataNotUsed_ThroughProxy
  | EarlyDataNotUsed_HandshakeCompletedFirst.

Record EarlyDataObservation := mkEarlyDataObservation {
  edo_transport : EarlyDataTransport;
  edo_method_eligible : bool;
  edo_resumption_attempted : bool;
  edo_resumption_accepted : option bool;
  edo_offered : bool;
  edo_accepted : option bool;
  edo_bytes : Z;
  edo_bytes_estimated : bool;
  edo_resent_after_handshake : bool;
  edo_not_used : option EarlyDataNotUsed;
  edo_tickets_received : Z;
  edo_ticket_max_early_data : option Z;
}.

Record ByteCounts := mkByteCounts {
  bc_request_headers_logical : Z;
  bc_request_headers_estimated : bool;
  bc_request_body : Z;
  bc_response_headers_logical : option Z;
  bc_response_body_wire : option Z;
  bc_response_body_decoded : option Z;
  bc_connection_bytes_written : option Z;
  bc_connection_bytes_read : option Z;
}.

Record AttemptObservation := mkAttemptObservation {
  att_index : Z;
  att_reason : AttemptReason;
  att_method : string;
  att_url : string;
  att_started_at : DateTime;
  att_connection : option ConnectionObservation;
  att_phases : list PhaseTiming;
  att_dispatch : DispatchState;
  att_bytes : ByteCounts;
  att_response_status : option Z;
  att_failure : option TransportFailure;
  att_duration_us : Z;
  att_early_data : option EarlyDataObservation;
}.

Inductive BodyCompleteness :=
  | BodyCompleteness_Complete
  | BodyCompleteness_Incomplete
  | BodyCompleteness_Canceled
  | BodyCompleteness_StoppedAtLocalLimit
  | BodyCompleteness_NoBody.

Inductive ContentDecoding :=
  | ContentDecoding_Complete
  | ContentDecoding_TruncatedAtLimit
  | ContentDecoding_Unsupported
  | ContentDecoding_Failed.

Record BodyCapture := mkBodyCapture {
  bd_completeness : BodyCompleteness;
  bd_wire_bytes : Z;
  bd_declared_length : option Z;
  bd_captured_bytes : Z;
  bd_display_truncated : bool;
  bd_content_type : option string;
  bd_content_encoding : option string;
  bd_decoded_bytes : option Z;
  bd_decoding : option ContentDecoding;
  bd_decoding_detail : option string;
  bd_blob_sha256 : option string;
}.

Record ResponseRecord := mkResponseRecord {
  resp_status : Z;
  resp_reason : option string;
  resp_http_version : string;
  resp_headers : list HeaderEntry;
  resp_trailers : list HeaderEntry;
  resp_trailers_received : bool;
  resp_body : BodyCapture;
}.

Inductive Direction :=
  | Direction_Sent
  | Direction_Received.

Record StreamMessage := mkStreamMessage {
  sm_direction : Direction;
  sm_offset_us : Z;
  sm_kind : string;
  sm_size : Z;
  sm_preview : string;
  sm_preview_is_hex : bool;
  sm_preview_truncated : bool;
  sm_event_id : option string;
  sm_event_type : option string;
}.

Record StreamTranscript := mkStreamTranscript {
  str_messages : list StreamMessage;
  str_dropped_messages : Z;
  str_sent_count : Z;
  str_received_count : Z;
  str_sent_bytes : Z;
  str_received_bytes : Z;
}.

(** * SPIFFE Workload API evidence (workload.rs) *)

Inductive WorkloadRpc :=
  | WorkloadRpc_FetchX509Svid
  | WorkloadRpc_FetchJwtSvid
  | WorkloadRpc_FetchJwtBundles.

Inductive WorkloadEndpointSource :=
  | WorkloadEndpointSource_Setting
  | WorkloadEndpointSource_Environment.

Inductive WorkloadCallResult :=
  | WorkloadCallResult_Ok
  | WorkloadCallResult_Unavailable (detail : string) (io_error_kind : option string)
  | WorkloadCallResult_Timeout (deadline_ms : Z)
  | WorkloadCallResult_Status (code : Z) (code_name : string) (message : string)
  | WorkloadCallResult_NoIdentity (detail : string)
  | WorkloadCallResult_Malformed (detail : string).

Record WorkloadApiCall := mkWorkloadApiCall {
  wac_rpc : WorkloadRpc;
  wac_endpoint : string;
  wac_endpoint_source : WorkloadEndpointSource;
  wac_purpose : string;
  wac_cached : bool;
  wac_duration_us : option Z;
  wac_caller_uid : option Z;
  wac_result : WorkloadCallResult;
}.

Record X509SvidSummary := mkX509SvidSummary {
  xs_tls_profile : string;
  xs_spiffe_id : string;
  xs_certificate : CertificateSummary;
  xs_chain_length : Z;
  xs_hint : option string;
  xs_offered_spiffe_ids : list string;
  xs_bundle_trusted : bool;
  xs_bundle_certificates : Z;
  xs_federated_trust_domains : list string;
  xs_refresh_after : option DateTime;
}.

Inductive JwtSvidSourceKind :=
  | JwtSvidSourceKind_WorkloadApi
  | JwtSvidSourceKind_Value
  | JwtSvidSourceKind_File.

Inductive JwtSvidCheckKind :=
  | JwtSvidCheckKind_Format
  | JwtSvidCheckKind_Algorithm
  | JwtSvidCheckKind_Subject
  | JwtSvidCheckKind_Audience
  | JwtSvidCheckKind_Expiry
  | JwtSvidCheckKind_Signature.

Inductive CheckResult :=
  | CheckResult_Passed
  | CheckResult_Failed
  | CheckResult_NotRun.

Record JwtSvidCheck := mkJwtSvidCheck {
  jc_check : JwtSvidCheckKind;
  jc_result : CheckResult;
  jc_detail : string;
}.

Record JwtSvidSummary := mkJwtSvidSummary {
  js_source : JwtSvidSourceKind;
  js_requested_audiences : list string;
  js_subject : option string;
  js_audiences : list string;
  js_algorithm : option string;
  js_key_id : option string;
  js_issued_at : option DateTime;
  js_not_before : option DateTime;
  js_expires_at : option DateTime;
  js_has_issuer : bool;
  js_checks : list JwtSvidCheck;
  js_sent_despite_failed_checks : bool;
}.

Record WorkloadApiEvidence := mkWorkloadApiEvidence {
  wae_calls : list WorkloadApiCall;
  wae_x509_svids : list X509SvidSummary;
  wae_jwt_svid : option JwtSvidSummary;
}.

(** * Outcome (outcome.rs) *)

Inductive TransportState :=
  | TransportState_Completed
  | TransportState_Failed
  | TransportState_Canceled
  | TransportState_Incomplete
  | TransportState_Unknown.

Inductive ApplicationState :=
  | ApplicationState_Success
  | ApplicationState_Failure
  | ApplicationState_NotEvaluated.

Inductive AssertionState :=
  | AssertionState_Pass
  | AssertionState_Fail
  | AssertionState_NotRun.

Inductive WarningCode :=
  | WarningCode_DegradedRouting
  | WarningCode_InsecureTls
  | WarningCode_PartialVisibility
  | WarningCode_DisplayTruncated
  | WarningCode_LintBypassed
  | WarningCode_UnverifiedFerrumMarker
  | WarningCode_CredentialsStrippedOnRedirect
  | WarningCode_ProtocolFallback
  | WarningCode_ReusedConnection
  | WarningCode_ClockSkewSuspected
  | WarningCode_ResponseIsUntrustedContent.

Record OutcomeWarning := mkOutcomeWarning {
  ow_code : WarningCode;
  ow_message : string;
}.

Inductive GrpcStatusSource :=
  | GrpcStatusSource_Trailers
  | GrpcStatusSource_TrailersOnly
  | GrpcStatusSource_TrailerFrame
  | GrpcStatusSource_Missing.

Inductive MasqueEncoding :=
  | MasqueEncoding_QuicDatagram
  | MasqueEncoding_Capsule.

Record MasqueTunnel := mkMasqueTunnel {
  mt_proxy : string;
  mt_target : string;
  mt_extended_connect : option bool;
  mt_h3_datagrams : option bool;
  mt_connect_status : option Z;
  mt_encoding : option MasqueEncoding;
  mt_sent_quic_datagrams : Z;
  mt_sent_capsules : Z;
  mt_received_quic_datagrams : Z;
  mt_received_capsules : Z;
  mt_dropped : Z;
  mt_closed_by : ClosedBy;
}.

Inductive WsNegotiation :=
  | WsNegotiation_NotOffered
  | WsNegotiation_NotNegotiated
  | WsNegotiation_Negotiated
  | WsNegotiation_Rejected.

Record WsDeflateParams := mkWsDeflateParams {
  wdp_server_no_context_takeover : bool;
  wdp_client_no_context_takeover : bool;
  wdp_server_max_window_bits : option Z;
  wdp_client_max_window_bits : option Z;
  wdp_client_compresses : bool;
}.

Record WsDirectionTotals := mkWsDirectionTotals {
  wdt_messages : Z;
  wdt_compressed_messages : Z;
  wdt_payload_bytes : Z;
  wdt_wire_bytes : Z;
}.

Record WsCompressionTraffic := mkWsCompressionTraffic {
  wct_sent : WsDirectionTotals;
  wct_received : WsDirectionTotals;
}.

Inductive WsViolationKind :=
  | WsViolationKind_CompressedWithoutNegotiation
  | WsViolationKind_Undecodable
  | WsViolationKind_TooLargeAfterDecompression.

Record WsCompressionViolation := mkWsCompressionViolation {
  wcv_kind : WsViolationKind;
  wcv_compressed_bytes : option Z;
  wcv_limit_bytes : option Z;
  wcv_detail : option string;
}.

Record WsExtensions := mkWsExtensions {
  wse_offered : option string;
  wse_answered : option string;
  wse_negotiation : WsNegotiation;
  wse_problem : option string;
  wse_deflate : option WsDeflateParams;
  wse_traffic : option WsCompressionTraffic;
  wse_violation : option WsCompressionViolation;
}.

Inductive ProtocolStatus :=
  | ProtocolStatus_None
  | ProtocolStatus_Http (status : Z) (reason : option string)
  | ProtocolStatus_Grpc (http_status : option Z) (grpc_status : option Z) (grpc_message : option string) (source : GrpcStatusSource)
  | ProtocolStatus_WebSocket (handshake_status : option Z) (close_code : option Z) (close_reason : string) (closed_by : ClosedBy) (extensions : option WsExtensions)
  | ProtocolStatus_Sse (http_status : Z) (events : Z) (closed_by : ClosedBy)
  | ProtocolStatus_Tcp (bytes_sent : Z) (bytes_received : Z) (half_closed : bool) (closed_by : ClosedBy)
  | ProtocolStatus_Udp (datagrams_sent : Z) (datagrams_received : Z) (window_ms : Z) (masque : option MasqueTunnel).

Record ExecutionOutcome := mkExecutionOutcome {
  oc_transport : TransportState;
  oc_application : ApplicationState;
  oc_assertions : AssertionState;
  oc_completeness : option BodyCompleteness;
  oc_protocol_status : ProtocolStatus;
  oc_dispatch : DispatchState;
  oc_warnings : list OutcomeWarning;
  oc_summary : string;
}.

(** * The record of one execution (execution.rs) *)

Record PreparedSummary := mkPreparedSummary {
  pr_protocol : Protocol;
  pr_method : string;
  pr_url : string;
  pr_headers : list HeaderEntry;
  pr_body_bytes : Z;
  pr_body_sha256 : option string;
  pr_content_type : option string;
  pr_auth_label : string;
  pr_tls_profile : option string;
  pr_proxy : option string;
  pr_tls_verification_enabled : bool;
  pr_settings : EffectiveSettings;
  pr_inferred : list string;
  pr_omitted_secrets : list string;
  pr_workload_api : option WorkloadApiEvidence;
}.

Record ExecutionRecord := mkExecutionRecord {
  rec_id : Id;
  rec_schema_version : Z;
  rec_adapter_version : string;
  rec_catalog_version : string;
  rec_compatibility_id : option string;
  rec_workspace_id : option Id;
  rec_request_id : option Id;
  rec_revision_id : option Id;
  rec_environment_id : option Id;
  rec_started_at : DateTime;
  rec_finished_at : DateTime;
  rec_prepared : PreparedSummary;
  rec_attempts : list AttemptObservation;
  rec_response : option ResponseRecord;
  rec_stream : option StreamTranscript;
  rec_outcome : ExecutionOutcome;
  rec_assertion_results : list AssertionResult;
  rec_extracted : list string;
  rec_findings : list DiagnosticFinding;
}.

(** * Functions on the evidence *)

#[export] Instance FailureKind_eq_dec : EqDecision FailureKind.
Proof. solve_decision. Defined.
#[export] Instance Phase_eq_dec : EqDecision Phase.
Proof. solve_decision. Defined.
#[export] Instance PhaseStatus_eq_dec : EqDecision PhaseStatus.
Proof. solve_decision. Defined.
#[export] Instance DispatchState_eq_dec : EqDecision DispatchState.
Proof. solve_decision. Defined.
#[export] Instance Direction_eq_dec : EqDecision Direction.
Proof. solve_decision. Defined.
#[export] Instance TransportState_eq_dec : EqDecision TransportState.
Proof. solve_decision. Defined.
#[export] Instance ApplicationState_eq_dec : EqDecision ApplicationState.
Proof. solve_decision. Defined.
#[export] Instance AssertionState_eq_dec : EqDecision AssertionState.
Proof. solve_decision. Defined.
#[export] Instance GrpcStatusSource_eq_dec : EqDecision GrpcStatusSource.
Proof. solve_decision. Defined.
#[export] Instance ClosedBy_eq_dec : EqDecision ClosedBy.
Proof. solve_decision. Defined.
#[export] Instance TunnelKind_eq_dec : EqDecision TunnelKind.
Proof. solve_decision. Defined.
#[export] Instance Severity_eq_dec : EqDecision Severity.
Proof. solve_decision. Defined.
#[export] Instance CheckResult_eq_dec : EqDecision CheckResult.
Proof. solve_decision. Defined.
#[export] Instance JwtSvidCheckKind_eq_dec : EqDecision JwtSvidCheckKind.
Proof. solve_decision. Defined.
#[export] Instance Protocol_eq_dec : EqDecision Protocol.
Proof. solve_decision. Defined.

(** The variant's name in the source. *)
Definition FailureKind_name (k : FailureKind) : string :=
  match k with
  | FailureKind_InvalidUrl => "InvalidUrl"
  | FailureKind_UnsupportedScheme => "UnsupportedScheme"
  | FailureKind_UnresolvedVariable => "UnresolvedVariable"
  | FailureKind_VariableCycle => "VariableCycle"
  | FailureKind_MissingAttachment => "MissingAttachment"
  | FailureKind_ClientIdentityInvalid => "ClientIdentityInvalid"
  | FailureKind_ClientIdentityKeyMismatch => "ClientIdentityKeyMismatch"
  | FailureKind_TlsProfileInvalid => "TlsProfileInvalid"
  | FailureKind_ProxyConfigInvalid => "ProxyConfigInvalid"
  | FailureKind_InvalidHeader => "InvalidHeader"
  | FailureKind_BodySerialization => "BodySerialization"
  | FailureKind_LintBlocked => "LintBlocked"
  | FailureKind_RequestTooLargeLocal => "RequestTooLargeLocal"
  | FailureKind_AuthPreparationFailed => "AuthPreparationFailed"
  | FailureKind_OAuthInteractionRequired => "OAuthInteractionRequired"
  | FailureKind_UnsupportedCombination => "UnsupportedCombination"
  | FailureKind_VaultLocked => "VaultLocked"
  | FailureKind_WorkloadApiUnavailable => "WorkloadApiUnavailable"
  | FailureKind_WorkloadApiDenied => "WorkloadApiDenied"
  | FailureKind_WorkloadApiFailed => "WorkloadApiFailed"
  | FailureKind_JwtSvidRejectedLocally => "JwtSvidRejectedLocally"
  | FailureKind_DnsNoSuchHost => "DnsNoSuchHost"
  | FailureKind_DnsNoRecords => "DnsNoRecords"
  | FailureKind_DnsTimeout => "DnsTimeout"
  | FailureKind_DnsServerFailure => "DnsServerFailure"
  | FailureKind_DnsOther => "DnsOther"
  | FailureKind_ConnectRefused => "ConnectRefused"
  | FailureKind_ConnectTimeout => "ConnectTimeout"
  | FailureKind_ConnectReset => "ConnectReset"
  | FailureKind_NetworkUnreachable => "NetworkUnreachable"
  | FailureKind_HostUnreachable => "HostUnreachable"
  | FailureKind_AddressUnavailable => "AddressUnavailable"
  | FailureKind_ConnectOther => "ConnectOther"
  | FailureKind_ProxyConnectFailed => "ProxyConnectFailed"
  | FailureKind_ProxyTunnelRejected => "ProxyTunnelRejected"
  | FailureKind_ProxyAuthRequired => "ProxyAuthRequired"
  | FailureKind_ProxyProtocolError => "ProxyProtocolError"
  | FailureKind_HboneEndpointTlsFailed => "HboneEndpointTlsFailed"
  | FailureKind_HboneConnectRefused => "HboneConnectRefused"
  | FailureKind_HboneProtocolError => "HboneProtocolError"
  | FailureKind_TlsUntrustedIssuer => "TlsUntrustedIssuer"
  | FailureKind_TlsExpired => "TlsExpired"
  | FailureKind_TlsNotYetValid => "TlsNotYetValid"
  | FailureKind_TlsNameMismatch => "TlsNameMismatch"
  | FailureKind_TlsRevoked => "TlsRevoked"
  | FailureKind_TlsBadCertificate => "TlsBadCertificate"
  | FailureKind_TlsAlertReceived => "TlsAlertReceived"
  | FailureKind_TlsHandshakeTimeout => "TlsHandshakeTimeout"
  | FailureKind_TlsPeerClosed => "TlsPeerClosed"
  | FailureKind_TlsReset => "TlsReset"
  | FailureKind_TlsProtocolMismatch => "TlsProtocolMismatch"
  | FailureKind_TlsAlpnMismatch => "TlsAlpnMismatch"
  | FailureKind_TlsOther => "TlsOther"
  | FailureKind_TlsAlertAfterHandshake => "TlsAlertAfterHandshake"
  | FailureKind_TlsSpiffeIdMismatch => "TlsSpiffeIdMismatch"
  | FailureKind_TlsUntrustedTrustDomain => "TlsUntrustedTrustDomain"
  | FailureKind_TlsInvalidSvid => "TlsInvalidSvid"
  | FailureKind_QuicHandshakeTimeout => "QuicHandshakeTimeout"
  | FailureKind_QuicIdleTimeout => "QuicIdleTimeout"
  | FailureKind_QuicTransportError => "QuicTransportError"
  | FailureKind_QuicApplicationClosed => "QuicApplicationClosed"
  | FailureKind_QuicOther => "QuicOther"
  | FailureKind_DtlsHandshakeTimeout => "DtlsHandshakeTimeout"
  | FailureKind_DtlsHandshakeFailed => "DtlsHandshakeFailed"
  | FailureKind_RequestWriteTimeout => "RequestWriteTimeout"
  | FailureKind_RequestWriteFailed => "RequestWriteFailed"
  | FailureKind_ResponseHeadersTimeout => "ResponseHeadersTimeout"
  | FailureKind_ClosedBeforeResponse => "ClosedBeforeResponse"
  | FailureKind_ResetBeforeResponse => "ResetBeforeResponse"
  | FailureKind_HttpProtocolError => "HttpProtocolError"
  | FailureKind_H2StreamReset => "H2StreamReset"
  | FailureKind_H2RefusedStream => "H2RefusedStream"
  | FailureKind_H2GoAway => "H2GoAway"
  | FailureKind_ResponseHeadersTooLarge => "ResponseHeadersTooLarge"
  | FailureKind_BodyIdleTimeout => "BodyIdleTimeout"
  | FailureKind_BodyIncomplete => "BodyIncomplete"
  | FailureKind_BodyReset => "BodyReset"
  | FailureKind_ResponseTooLargeLocal => "ResponseTooLargeLocal"
  | FailureKind_DecompressionFailed => "DecompressionFailed"
  | FailureKind_WsHandshakeRejected => "WsHandshakeRejected"
  | FailureKind_WsProtocolError => "WsProtocolError"
  | FailureKind_WsMessageTooLarge => "WsMessageTooLarge"
  | FailureKind_MasqueUnsupported => "MasqueUnsupported"
  | FailureKind_MasqueRefused => "MasqueRefused"
  | FailureKind_TotalTimeout => "TotalTimeout"
  | FailureKind_Canceled => "Canceled"
  | FailureKind_Internal => "Internal"
  end.

(** serde's name of the kind ([rename_all = "snake_case"], one explicit
    rename). *)
Definition FailureKind_serde (k : FailureKind) : string :=
  match k with
  | FailureKind_OAuthInteractionRequired => "oauth_interaction_required"
  | _ => snake_case (FailureKind_name k)
  end.

(** [PhaseTiming::duration_us]. *)
Definition duration_us (p : PhaseTiming) : option Z :=
  match pt_start_us p, pt_end_us p with
  | Some s, Some e => if s <=? e then Some (e - s) else None
  | _, _ => None
  end.

(** One round of [DispatchState::summarize]. *)
Definition dispatch_join (a b : DispatchState) : DispatchState :=
  match a, b with
  | DispatchState_Sent, _ | _, DispatchState_Sent => DispatchState_Sent
  | DispatchState_MayHaveBeenSent, _ | _, DispatchState_MayHaveBeenSent => DispatchState_MayHaveBeenSent
  | DispatchState_Unknown, _ | _, DispatchState_Unknown => DispatchState_Unknown
  | _, _ => DispatchState_NotDispatched
  end.

(** [DispatchState::summarize], with its [any] flag. *)
Definition summarize (states : list DispatchState) : DispatchState :=
  let '(any, r) := fold_left (fun acc s => (true, dispatch_join acc.2 s)) states
                             (false, DispatchState_NotDispatched) in
  if any then r else DispatchState_NotDispatched.

Definition is_local_preparation (k : FailureKind) : bool :=
  match k with
  | FailureKind_InvalidUrl
  | FailureKind_UnsupportedScheme
  | FailureKind_UnresolvedVariable
  | FailureKind_VariableCycle
  | FailureKind_MissingAttachment
  | FailureKind_ClientIdentityInvalid
  | FailureKind_ClientIdentityKeyMismatch
  | FailureKind_TlsProfileInvalid
  | FailureKind_ProxyConfigInvalid
  | FailureKind_InvalidHeader
  | FailureKind_BodySerialization
  | FailureKind_LintBlocked
  | FailureKind_RequestTooLargeLocal
  | FailureKind_AuthPreparationFailed
  | FailureKind_OAuthInteractionRequired
  | FailureKind_UnsupportedCombination
  | FailureKind_VaultLocked
  | FailureKind_WorkloadApiUnavailable
  | FailureKind_WorkloadApiDenied
  | FailureKind_WorkloadApiFailed
  | FailureKind_JwtSvidRejectedLocally => true
  | _ => false
  end.

Definition is_tls_verification (k : FailureKind) : bool :=
  match k with
  | FailureKind_TlsUntrustedIssuer
  | FailureKind_TlsExpired
  | FailureKind_TlsNotYetValid
  | FailureKind_TlsNameMismatch
  | FailureKind_TlsRevoked
  | FailureKind_TlsBadCertificate
  | FailureKind_TlsSpiffeIdMismatch
  | FailureKind_TlsUntrustedTrustDomain
  | FailureKind_TlsInvalidSvid => true
  | _ => false
  end.

Definition is_tunnel_leg (k : FailureKind) : bool :=
  match k with
  | FailureKind_HboneEndpointTlsFailed
  | FailureKind_HboneConnectRefused
  | FailureKind_HboneProtocolError => true
  | _ => false
  end.

(** [TransportFailure::new], [with_field] and [with_deadline]. *)
Definition TransportFailure_new (phase : Phase) (kind : FailureKind) (message : string) : TransportFailure := {|
  tf_phase := phase;
  tf_kind := kind;
  tf_message := message;
  tf_io_error_kind := None;
  tf_os_error_code := None;
  tf_tls_alert := None;
  tf_h2_error_code := None;
  tf_quic_error_code := None;
  tf_status := None;
  tf_field := None;
  tf_deadline_ms := None;
|}.

Definition with_field (f : TransportFailure) (field : string) : TransportFailure := {|
  tf_phase := tf_phase f;
  tf_kind := tf_kind f;
  tf_message := tf_message f;
  tf_io_error_kind := tf_io_error_kind f;
  tf_os_error_code := tf_os_error_code f;
  tf_tls_alert := tf_tls_alert f;
  tf_h2_error_code := tf_h2_error_code f;
  tf_quic_error_code := tf_quic_error_code f;
  tf_status := tf_status f;
  tf_field := Some field;
  tf_deadline_ms := tf_deadline_ms f;
|}.

Definition with_deadline (f : TransportFailure) (ms : option Z) : TransportFailure := {|
  tf_phase := tf_phase f;
  tf_kind := tf_kind f;
  tf_message := tf_message f;
  tf_io_error_kind := tf_io_error_kind f;
  tf_os_error_code := tf_os_error_code f;
  tf_tls_alert := tf_tls_alert f;
  tf_h2_error_code := tf_h2_error_code f;
  tf_quic_error_code := tf_quic_error_code f;
  tf_status := tf_status f;
  tf_field := tf_field f;
  tf_deadline_ms := ms;
|}.

(** [HboneDatagramChannel::new]. *)
Definition HboneDatagramChannel_new : HboneDatagramChannel :=
  mkHboneDatagramChannel 0 0 0 0 ClosedBy_NotClosed None.

(** [phases.iter().rev().find(|p| p.phase == phase)]: the last one. *)
Definition find_phase (phases : list PhaseTiming) (phase : Phase) : option PhaseTiming :=
  List.find (fun p => bool_decide (pt_phase p = phase)) (rev phases).

(** [AttemptObservation::phase]. *)
Definition att_phase (a : AttemptObservation) (phase : Phase) : option PhaseTiming :=
  find_phase (att_phases a) phase.

(** [Iterator::sum] on [u64], in the release profile. *)
Definition sum64 (l : list Z) : Z := fold_left add64 l 0.

(** The exchange time of a send. *)
Definition exchange_duration_us (attempts : list AttemptObservation) : option Z :=
  match attempts with
  | [] => None
  | _ => Some (sum64 (map att_duration_us attempts))
  end.

(** [ContentDecoding::is_complete]. *)
Definition decoding_is_complete (d : ContentDecoding) : bool :=
  match d with ContentDecoding_Complete => true | _ => false end.

(** All values of a header or trailer, without ASCII case, in order. *)
Definition values_of (name : string) (hs : list HeaderEntry) : list string :=
  map he_value (List.filter (fun h => eq_ignore_ascii_case (he_name h) name) hs).

Definition header_values (r : ResponseRecord) (name : string) : list string :=
  values_of name (resp_headers r).

Definition trailer_values (r : ResponseRecord) (name : string) : list string :=
  values_of name (resp_trailers r).

Definition StreamTranscript_default : StreamTranscript := mkStreamTranscript [] 0 0 0 0 0.

Definition ByteCounts_default : ByteCounts := mkByteCounts 0 false 0 None None None None None.

(** * Dispatch summaries *)

Lemma dispatch_join_assoc a b c : dispatch_join a (dispatch_join b c) = dispatch_join (dispatch_join a b) c.
Proof. by destruct a, b, c. Qed.

Lemma dispatch_join_comm a b : dispatch_join a b = dispatch_join b a.
Proof. by destruct a, b. Qed.

Lemma dispatch_join_idem a : dispatch_join a a = a.
Proof. by destruct a. Qed.

Lemma dispatch_join_bot a : dispatch_join DispatchState_NotDispatched a = a.
Proof. by destruct a. Qed.

#[export] Instance dispatch_join_Assoc : Assoc (=) dispatch_join := dispatch_join_assoc.
#[export] Instance dispatch_join_Comm : Comm (=) dispatch_join := dispatch_join_comm.

Lemma summarize_fold states :
  summarize states = foldr dispatch_join DispatchState_NotDispatched states.
Proof.
  unfold summarize.
  assert (forall any acc,
    fold_left (fun acc s => (true, dispatch_join acc.2 s)) states (any, acc) =
    (match states with [] => any | _ => true end,
     dispatch_join acc (foldr dispatch_join DispatchState_NotDispatched states))) as H.
  { induction states as [|s states IH]; intros any acc; simpl.
    - by destruct acc.
    - rewrite IH. simpl. rewrite dispatch_join_assoc. by destruct states. }
  rewrite H. destruct states; [done|]. apply dispatch_join_bot.
Qed.

Lemma summarize_app a b : summarize (a ++ b) = dispatch_join (summarize a) (summarize b).
Proof.
  rewrite !summarize_fold. induction a as [|x a IH]; simpl; [by destruct (foldr _ _ b)|].
  by rewrite IH, dispatch_join_assoc.
Qed.

(** Rank in the order of certainty that the request reached the peer. *)
Definition dispatch_rank (d : DispatchState) : nat :=
  match d with
  | DispatchState_NotDispatched => 0
  | DispatchState_Unknown => 1
  | DispatchState_MayHaveBeenSent => 2
  | DispatchState_Sent => 3
  end.

Lemma dispatch_rank_join a b :
  dispatch_rank (dispatch_join a b) = Nat.max (dispatch_rank a) (dispatch_rank b).
Proof. by destruct a, b. Qed.

Lemma summarize_upper states s :
  In s states -> (dispatch_rank s <= dispatch_rank (summarize states))%nat.
Proof.
  rewrite summarize_fold. induction states as [|x states IH]; simpl; [done|].
  rewrite dispatch_rank_join. intros [->|H]; [lia|]. specialize (IH H). lia.
Qed.

Lemma summarize_attained states :
  states <> [] -> In (summarize states) states.
Proof.
  rewrite summarize_fold. induction states as [|x [|y states] IH]; [done|..]; intros _.
  - left. simpl. by destruct x.
  - assert (foldr dispatch_join DispatchState_NotDispatched (y :: states) ∈ y :: states) as H.
    { apply list_elem_of_In. by apply IH. }
    simpl in H |- *. set (r := foldr _ _ states) in *. apply list_elem_of_In in H. simpl in H.
    assert (dispatch_join x (dispatch_join y r) = x \/
            dispatch_join x (dispatch_join y r) = dispatch_join y r) as [->| ->]
      by (destruct x, (dispatch_join y r); naive_solver); tauto.
Qed.

(** The whole-request dispatch summary (execution.rs,
    [DispatchState::summarize]) is the most certain state of its attempts:
    one of them, with none above it. So it does not depend on the order or
    grouping of the attempts, and a request with any attempt that may have
    reached the peer is never summarized as not dispatched. *)
Theorem summarize_is_maximum states :
  (states = [] -> summarize states = DispatchState_NotDispatched) /\
  (states <> [] -> In (summarize states) states) /\
  (forall s, In s states -> (dispatch_rank s <= dispatch_rank (summarize states))%nat) /\
  (forall states', Permutation states states' -> summarize states' = summarize states).
Proof.
  split; [by intros ->|]. split; [apply summarize_attained|].
  split; [apply summarize_upper|]. intros states' Hp.
  rewrite !summarize_fold. symmetry. induction Hp; simpl; [done|congruence| |congruence].
  by rewrite !dispatch_join_assoc, (dispatch_join_comm x y).
Qed.
