(* ===== verification/Request.v ===== *)
(** Requests as they are saved and executed (crates/anvil-domain/src/request.rs
    with the parts of auth.rs, assertions.rs, secret.rs, proxy_protocol.rs,
    workload.rs and tls.rs they hold), field for field, and the small functions
    on them: defaults, the wire of a gRPC call, the JSON-RPC method of an MCP
    operation. *)
From S2P Require Import Prelude Settings Evidence.
From stdpp Require Import base list numbers strings option.
From Stdlib Require Import ZArith Lia.
Open Scope Z_scope.

(** * Secrets (secret.rs) *)

Record SecretRef := mkSecretRef {
  sr_id : Id;
  sr_label : string;
}.

Inductive SensitiveValue :=
  | SensitiveValue_Template (value : string)
  | SensitiveValue_Secret (secret : SecretRef).

(** * Auth (auth.rs, workload.rs) *)

Inductive JwtSvidSource :=
  | JwtSvidSource_WorkloadApi
  | JwtSvidSource_Value (token : SensitiveValue)
  | JwtSvidSource_File (path : string).

Record JwtSvidConfig := mkJwtSvidConfig {
  jsvid_source : JwtSvidSource;
  jsvid_audiences : list string;
  jsvid_endpoint : string;
  jsvid_spiffe_id : option string;
  jsvid_verify_with_bundles : bool;
  jsvid_send_despite_failed_checks : bool;
  jsvid_header_name : string;
  jsvid_prefix : string;
}.

Inductive KeyLocation :=
  | KeyLocation_Header
  | KeyLocation_Query
  | KeyLocation_Cookie.

Inductive JwtAlgorithm :=
  | JwtAlgorithm_HS256
  | JwtAlgorithm_HS384
  | JwtAlgorithm_HS512
  | JwtAlgorithm_RS256
  | JwtAlgorithm_ES256.

Record JwtClaims := mkJwtClaims {
  jc_iss : option string;
  jc_sub : option string;
  jc_aud : option string;
  jc_expires_in_secs : option Z;
  jc_not_before_offset_secs : option Z;
  jc_extra_json : string;
}.

Inductive OAuthGrant :=
  | OAuthGrant_ClientCredentials
  | OAuthGrant_AuthorizationCodePkce
  | OAuthGrant_RefreshToken.

Inductive OAuthClientAuth :=
  | OAuthClientAuth_BasicHeader
  | OAuthClientAuth_RequestBody.

Record OAuth2Config := mkOAuth2Config {
  oa_grant : OAuthGrant;
  oa_token_url : string;
  oa_authorization_url : string;
  oa_client_id : string;
  oa_client_secret : SensitiveValue;
  oa_scope : string;
  oa_audience : string;
  oa_client_auth : OAuthClientAuth;
  oa_token_cache_id : option Id;
  oa_refresh_skew_secs : Z;
}.

Inductive HmacProfile :=
  | HmacProfile_FerrumV2
  | HmacProfile_FerrumV1Legacy.

Inductive HmacAlgorithm :=
  | HmacAlgorithm_HmacSha256
  | HmacAlgorithm_HmacSha384
  | HmacAlgorithm_HmacSha512.

Inductive BodyDigestHeader :=
  | BodyDigestHeader_ContentDigest
  | BodyDigestHeader_LegacyDigest.

Record HmacConfig := mkHmacConfig {
  hc_profile : HmacProfile;
  hc_username : string;
  hc_secret : SensitiveValue;
  hc_algorithm : HmacAlgorithm;
  hc_digest_header : BodyDigestHeader;
  hc_namespace : string;
  hc_allow_unsafe_legacy : bool;
}.

Record DpopConfig := mkDpopConfig {
  dpop_access_token : SensitiveValue;
  dpop_private_key_pem : SensitiveValue;
  dpop_dpop_scheme : bool;
  dpop_handle_nonce_challenge : bool;
}.

Inductive WssePasswordType :=
  | WssePasswordType_PasswordText
  | WssePasswordType_PasswordDigest.

Record WsseConfig := mkWsseConfig {
  wsse_username : string;
  wsse_password : SensitiveValue;
  wsse_password_type : WssePasswordType;
  wsse_timestamp_ttl_secs : option Z;
  wsse_saml_assertion : option SensitiveValue;
}.

Inductive AuthConfig :=
  | AuthConfig_Inherit
  | AuthConfig_None
  | AuthConfig_ApiKey (name : string) (value : SensitiveValue) (location : KeyLocation)
  | AuthConfig_Basic (username : string) (password : SensitiveValue)
  | AuthConfig_Bearer (token : SensitiveValue) (prefix : string)
  | AuthConfig_Jwt (algorithm : JwtAlgorithm) (signing_key : SensitiveValue) (claims : JwtClaims) (kid : option string) (header_name : string) (prefix : string)
  | AuthConfig_OAuth2 (config : OAuth2Config)
  | AuthConfig_Hmac (config : HmacConfig)
  | AuthConfig_Dpop (config : DpopConfig)
  | AuthConfig_Wsse (config : WsseConfig)
  | AuthConfig_JwtSvid (config : JwtSvidConfig)
  | AuthConfig_Multi (profiles : list AuthConfig).

(** * Assertions and extractions (assertions.rs) *)

Inductive Comparison :=
  | Comparison_Equals
  | Comparison_NotEquals
  | Comparison_Contains
  | Comparison_NotContains
  | Comparison_Matches
  | Comparison_Exists
  | Comparison_NotExists
  | Comparison_LessThan
  | Comparison_GreaterThan.

Inductive AssertionKind :=
  | AssertionKind_Status (comparison : Comparison) (value : string)
  | AssertionKind_StatusIn (values : list Z)
  | AssertionKind_Header (name : string) (comparison : Comparison) (value : string)
  | AssertionKind_Trailer (name : string) (comparison : Comparison) (value : string)
  | AssertionKind_JsonPath (path : string) (comparison : Comparison) (value : string)
  | AssertionKind_XPath (path : string) (comparison : Comparison) (value : string)
  | AssertionKind_JsonSchema (schema : string)
  | AssertionKind_Body (comparison : Comparison) (value : string)
  | AssertionKind_LatencyMs (max : Z)
  | AssertionKind_GrpcStatus (code : Z)
  | AssertionKind_MessageCount (comparison : Comparison) (value : Z)
  | AssertionKind_Diagnostic (code : string) (present : bool)
  | AssertionKind_Transport (state : string)
  | AssertionKind_JsonRpcError (code : Z)
  | AssertionKind_JsonRpcResult
  | AssertionKind_McpIsError (is_error : bool)
  | AssertionKind_ToolPresent (name : string)
  | AssertionKind_ToolAbsent (name : string)
  | AssertionKind_ToolInputSchema (name : string) (schema : option string) (sha256 : option string).

Record Assertion := mkAssertion {
  asn_enabled : bool;
  asn_label : string;
  asn_kind : AssertionKind;
}.

Inductive ExtractionSource :=
  | ExtractionSource_JsonPath (path : string)
  | ExtractionSource_XPath (path : string)
  | ExtractionSource_Header (name : string)
  | ExtractionSource_Regex (pattern : string) (group : Z)
  | ExtractionSource_Status.

Record Extraction := mkExtraction {
  ext_variable : string;
  ext_source : ExtractionSource;
  ext_sensitive : bool;
}.

(** * PROXY protocol specifications (proxy_protocol.rs) *)

Inductive ProxyHeaderVersion :=
  | ProxyHeaderVersion_V1
  | ProxyHeaderVersion_V2
  | ProxyHeaderVersion_Raw.

Inductive ProxyAddressFamily :=
  | ProxyAddressFamily_Auto
  | ProxyAddressFamily_Unspec.

Record ProxyTlv := mkProxyTlv {
  ptlv_tlv_type : Z;
  ptlv_value_hex : string;
}.

Record ProxyHeaderSpec := mkProxyHeaderSpec {
  phs_version : ProxyHeaderVersion;
  phs_command : ProxyCommand;
  phs_family : ProxyAddressFamily;
  phs_source : option string;
  phs_destination : option string;
  phs_authority : option string;
  phs_tlvs : list ProxyTlv;
  phs_raw_hex : option string;
}.

Inductive DatagramListenerProtocol :=
  | DatagramListenerProtocol_Udp
  | DatagramListenerProtocol_Dtls.

Record DatagramAuthSpec := mkDatagramAuthSpec {
  das_secret : SensitiveValue;
  das_listener_protocol : option DatagramListenerProtocol;
  das_listener_bind_address : string;
  das_listener_port : option Z;
  das_sender_id : Z;
  das_epoch : option Z;
  das_first_sequence : Z;
  das_timestamp_offset_ms : Z;
}.

Record DatagramEnvelopeSpec := mkDatagramEnvelopeSpec {
  des_command : ProxyCommand;
  des_family : ProxyAddressFamily;
  des_source : option string;
  des_destination : option string;
  des_authentication : option DatagramAuthSpec;
}.

(** * The request (request.rs) *)

Record KeyValue := mkKeyValue {
  kv_name : string;
  kv_value : string;
  kv_enabled : bool;
  kv_description : string;
  kv_sensitive : bool;
}.

Inductive AttachmentRef :=
  | AttachmentRef_Stored (sha256 : string) (size : Z) (file_name : string) (media_type : option string)
  | AttachmentRef_LinkedFile (path : string).

Inductive MultipartContent :=
  | MultipartContent_Text (value : string)
  | MultipartContent_File (attachment : AttachmentRef) (file_name : option string).

Record MultipartPart := mkMultipartPart {
  mp_name : string;
  mp_enabled : bool;
  mp_content : MultipartContent;
  mp_content_type : option string;
}.

Inductive SoapVersion :=
  | SoapVersion_Soap11
  | SoapVersion_Soap12.

Inductive Body :=
  | Body_None
  | Body_Raw (text : string) (content_type : option string)
  | Body_Json (text : string)
  | Body_Xml (text : string)
  | Body_FormUrlEncoded (fields : list KeyValue)
  | Body_Multipart (parts : list MultipartPart)
  | Body_Binary (attachment : AttachmentRef) (content_type : option string)
  | Body_GraphQl (query : string) (variables : string) (operation_name : option string)
  | Body_Soap (version : SoapVersion) (envelope : string) (action : option string).

Inductive LintSendPolicy :=
  | LintSendPolicy_Block
  | LintSendPolicy_Warn
  | LintSendPolicy_Off.

Inductive GrpcMode :=
  | GrpcMode_Unary
  | GrpcMode_ClientStreaming
  | GrpcMode_ServerStreaming
  | GrpcMode_Bidirectional.

Inductive GrpcSchemaSource :=
  | GrpcSchemaSource_ProtoFiles (files : list AttachmentRef)
  | GrpcSchemaSource_DescriptorSet (attachment : AttachmentRef)
  | GrpcSchemaSource_Reflection.

Inductive GrpcWire :=
  | GrpcWire_Grpc
  | GrpcWire_GrpcWeb
  | GrpcWire_GrpcWebText.

Record GrpcSpec := mkGrpcSpec {
  gr_service : string;
  gr_method : string;
  gr_mode : GrpcMode;
  gr_schema : GrpcSchemaSource;
  gr_messages : list string;
  gr_metadata : list KeyValue;
  gr_deadline_ms : option Z;
  gr_plaintext : bool;
  gr_wire : GrpcWire;
}.

Inductive WsBootstrap :=
  | WsBootstrap_Http1Upgrade
  | WsBootstrap_Http2ExtendedConnect
  | WsBootstrap_Http3ExtendedConnect.

Inductive WsMessage :=
  | WsMessage_Text (text : string)
  | WsMessage_Binary (hex : string)
  | WsMessage_Ping (hex : string)
  | WsMessage_Close (code : Z) (reason : string).

Record WsDeflateOffer := mkWsDeflateOffer {
  wd_enabled : bool;
  wd_server_no_context_takeover : bool;
  wd_client_no_context_takeover : bool;
  wd_server_max_window_bits : option Z;
  wd_client_max_window_bits : option Z;
}.

Record WsSpec := mkWsSpec {
  wsp_bootstrap : WsBootstrap;
  wsp_subprotocols : list string;
  wsp_messages : list WsMessage;
  wsp_expect_messages : Z;
  wsp_max_message_bytes : Z;
  wsp_idle_close_ms : Z;
  wsp_permessage_deflate : WsDeflateOffer;
}.

Record SseSpec := mkSseSpec {
  sse_max_events : Z;
  sse_idle_timeout_ms : Z;
  sse_last_event_id : option string;
  sse_reconnect : bool;
}.

Inductive PayloadEncoding :=
  | PayloadEncoding_Text
  | PayloadEncoding_Hex
  | PayloadEncoding_Base64.

Inductive TcpFraming :=
  | TcpFraming_None
  | TcpFraming_NewlineDelimited
  | TcpFraming_LengthPrefixedU16
  | TcpFraming_LengthPrefixedU32.

Record StreamPayload := mkStreamPayload {
  spl_data : string;
  spl_encoding : PayloadEncoding;
}.

Record TcpSpec := mkTcpSpec {
  tcp_tls : bool;
  tcp_framing : TcpFraming;
  tcp_payloads : list StreamPayload;
  tcp_half_close_after_send : bool;
  tcp_read_idle_ms : Z;
  tcp_max_read_bytes : Z;
  tcp_expect_frames : Z;
  tcp_proxy_protocol : option ProxyHeaderSpec;
}.

Inductive MasqueDatagramMode :=
  | MasqueDatagramMode_Auto
  | MasqueDatagramMode_QuicDatagrams
  | MasqueDatagramMode_Capsules.

Record MasqueSpec := mkMasqueSpec {
  msq_proxy_url : string;
  msq_uri_template : string;
  msq_datagrams : MasqueDatagramMode;
}.

Record UdpSpec := mkUdpSpec {
  udp_dtls : bool;
  udp_datagrams : list StreamPayload;
  udp_response_window_ms : Z;
  udp_max_datagrams : Z;
  udp_proxy_protocol : option DatagramEnvelopeSpec;
  udp_masque : option MasqueSpec;
}.

Inductive McpOperation :=
  | McpOperation_ToolsList (cursor : option string)
  | McpOperation_ToolsCall (name : string) (arguments : string)
  | McpOperation_ResourcesList (cursor : option string)
  | McpOperation_ResourceTemplatesList (cursor : option string)
  | McpOperation_ResourcesRead (uri : string)
  | McpOperation_PromptsList (cursor : option string)
  | McpOperation_PromptsGet (name : string) (arguments : string)
  | McpOperation_Raw (method : string) (params : string) (notification : bool).

Record McpSpec := mkMcpSpec {
  mcp_protocol_version : string;
  mcp_client_name : string;
  mcp_client_version : string;
  mcp_capabilities : string;
  mcp_operation : McpOperation;
  mcp_initialize : bool;
  mcp_close_session : bool;
}.

Record ImportSource := mkImportSource {
  isrc_import_id : Id;
  isrc_operation_key : string;
  isrc_generated_hash : string;
}.

Record RequestSpec := mkRequestSpec {
  rq_protocol : Protocol;
  rq_method : string;
  rq_url : string;
  rq_params : list KeyValue;
  rq_headers : list KeyValue;
  rq_body : Body;
  rq_auth : AuthConfig;
  rq_settings : SettingsOverrides;
  rq_assertions : list Assertion;
  rq_extractions : list Extraction;
  rq_lint_policy : LintSendPolicy;
  rq_grpc : option GrpcSpec;
  rq_websocket : option WsSpec;
  rq_sse : option SseSpec;
  rq_tcp : option TcpSpec;
  rq_udp : option UdpSpec;
  rq_mcp : option McpSpec;
  rq_proxy_protocol : option ProxyHeaderSpec;
  rq_source : option ImportSource;
}.

(** * Proxy profiles (tls.rs) *)

Inductive ProxyKind :=
  | ProxyKind_Http
  | ProxyKind_Https
  | ProxyKind_Socks5
  | ProxyKind_Hbone.

Inductive HboneMarker :=
  | HboneMarker_None
  | HboneMarker_FerrumMeshProtocol
  | HboneMarker_IstioProtocol.

Record HboneOptions := mkHboneOptions {
  hbo_marker : HboneMarker;
  hbo_baggage : option string;
  hbo_extra_headers : list KeyValue;
}.

Record ProxyProfile := mkProxyProfile {
  pp_id : Id;
  pp_workspace_id : Id;
  pp_name : string;
  pp_kind : ProxyKind;
  pp_address : string;
  pp_username : option string;
  pp_password : option SensitiveValue;
  pp_no_proxy : string;
  pp_tls_profile_id : option Id;
  pp_hbone : option HboneOptions;
  pp_created_at : DateTime;
  pp_updated_at : DateTime;
}.

(** * Functions *)

#[export] Instance Protocol_eq_dec : EqDecision Protocol.
Proof. solve_decision. Defined.
#[export] Instance TcpFraming_eq_dec : EqDecision TcpFraming.
Proof. solve_decision. Defined.
#[export] Instance GrpcMode_eq_dec : EqDecision GrpcMode.
Proof. solve_decision. Defined.
#[export] Instance ProxyKind_eq_dec : EqDecision ProxyKind.
Proof. solve_decision. Defined.

(** [KeyValue::new]. *)
Definition KeyValue_new (name value : string) : KeyValue := mkKeyValue name value true "" false.

(** [GrpcWire::is_web]. *)
Definition is_web (w : GrpcWire) : bool :=
  match w with GrpcWire_Grpc => false | _ => true end.

(** [GrpcMode::default]. *)
Definition GrpcMode_default : GrpcMode := GrpcMode_Unary.

(** [McpOperation::method], the JSON-RPC method name. *)
Definition mcp_method (op : McpOperation) : string :=
  match op with
  | McpOperation_ToolsList _ => "tools/list"
  | McpOperation_ToolsCall _ _ => "tools/call"
  | McpOperation_ResourcesList _ => "resources/list"
  | McpOperation_ResourceTemplatesList _ => "resources/templates/list"
  | McpOperation_ResourcesRead _ => "resources/read"
  | McpOperation_PromptsList _ => "prompts/list"
  | McpOperation_PromptsGet _ _ => "prompts/get"
  | McpOperation_Raw method _ _ => method
  end.

(** [McpOperation::is_notification]. *)
Definition is_notification (op : McpOperation) : bool :=
  match op with McpOperation_Raw _ _ notification => notification | _ => false end.

Definition MASQUE_DEFAULT_TEMPLATE : string := "/.well-known/masque/udp/{target_host}/{target_port}/".
Definition MCP_DEFAULT_PROTOCOL_VERSION : string := "2025-11-25".

(** [RequestSpec::http]. *)
Definition RequestSpec_http (method url : string) : RequestSpec := {|
  rq_protocol := Protocol_Http;
  rq_method := method;
  rq_url := url;
  rq_params := [];
  rq_headers := [];
  rq_body := Body_None;
  rq_auth := AuthConfig_Inherit;
  rq_settings := SettingsOverrides_default;
  rq_assertions := [];
  rq_extractions := [];
  rq_lint_policy := LintSendPolicy_Block;
  rq_grpc := None;
  rq_websocket := None;
  rq_sse := None;
  rq_tcp := None;
  rq_udp := None;
  rq_mcp := None;
  rq_proxy_protocol := None;
  rq_source := None;
|}.
