(* ===== verification/Vars.v ===== *)
(** Variable resolution (crates/anvil-engine/src/vars.rs): the layers of a
    context, the lookup of a name, and the recursive expansion of [{{name}}]
    references with its bounds, its cycle detection and the record of the
    secrets it substituted.

    A [Resolver] holds its layers and, behind locks, what it counted and
    substituted; here that state is passed along, also out of a failing
    resolution. Time, UUIDs and random numbers come from the environment
    [World]; the context's [SecretResolver] is a trait object in the source and
    a record of its operations here. *)
From Stdlib Require Import ZArith Lia Ascii String.
From stdpp Require Import base numbers strings pretty option list relations.
From S2P Require Import Prelude Text Settings Evidence Request.
Open Scope string_scope.
Open Scope list_scope.
Open Scope Z_scope.

Definition MAX_DEPTH : nat := 16.
Definition MAX_OUTPUT : Z := 8 * 1024 * 1024.
Definition MAX_EXPANSIONS : Z := 16384.

(** The stand-in of a vault variable: NUL, a name, NUL. *)
Definition DEFERRED_SECRET_VALUE : string :=
  String "000" ("anvil-deferred-vault-variable" +:+ String "000" "").
Definition DEFERRED_SECRET_FIELD : string := "variables.deferred".

Record VarEntry := mkVarEntry {
  ve_name : string;
  ve_value : string;
  ve_secret : bool;
  ve_literal : bool;
}.

Record VarLayer := mkVarLayer {
  vl_label : string;
  vl_vars : list VarEntry;
}.

(** [is_deferred_secret]. *)
Definition is_deferred_secret (failure : TransportFailure) : bool :=
  bool_decide (tf_field failure = Some DEFERRED_SECRET_FIELD).

(** * Secrets *)

(** The trait [SecretResolver] (crates/anvil-engine/src/context.rs), as far as
    variables use it. *)
Record SecretResolver := mkSecretResolver {
  secrets_resolve : SecretRef -> result string string;
  secrets_variable_secret : nat -> nat -> option SecretRef;
}.

(** [MemorySecrets]: a map from the secret's id. *)
Definition MemorySecrets (secrets : list (Id * string)) : SecretResolver := {|
  secrets_resolve r :=
    match find (fun kv => bool_decide (kv.1 = sr_id r)) secrets with
    | Some kv => Ok kv.2
    | None => Err ("secret '" +:+ sr_label r +:+ "' is not available in this vault")
    end;
  secrets_variable_secret _ _ := None;
|}.

(** [RetainedVariableSecrets]: the source's answers under the indices the
    entries had before some were removed. *)
Definition RetainedVariableSecrets (source : SecretResolver) (variables : list (list nat)) : SecretResolver := {|
  secrets_resolve := secrets_resolve source;
  secrets_variable_secret layer variable :=
    retained ← variables !! layer;
    original ← (retained : list nat) !! variable;
    secrets_variable_secret source layer original;
|}.

(** The loop of [retain_variables] over one layer: the kept entries and the
    indices they had. *)
Fixpoint retain_entries (keep : VarEntry -> bool) (original : nat) (vars : list VarEntry)
    : list VarEntry * list nat :=
  match vars with
  | [] => ([], [])
  | entry :: vars' =>
      let '(kept, retained) := retain_entries keep (S original) vars' in
      if keep entry then (entry :: kept, original :: retained) else (kept, retained)
  end.

(** [ExecutionContext::retain_variables], on the two fields it changes. *)
Definition retain_variables (keep : VarEntry -> bool) (layers : list VarLayer) (secrets : SecretResolver)
    : list VarLayer * SecretResolver :=
  let kept := map (fun layer => mkVarLayer (vl_label layer) (retain_entries keep 0 (vl_vars layer)).1) layers in
  let variables := map (fun layer => (retain_entries keep 0 (vl_vars layer)).2) layers in
  let changed := existsb (fun layer => existsb (fun entry => negb (keep entry)) (vl_vars layer)) layers in
  (kept, if changed then RetainedVariableSecrets secrets variables else secrets).

(** * The resolver *)

(** What the dynamic helpers read from outside: the [n]-th call of a helper
    sees these values; [random_range] is inclusive. *)
Record World := mkWorld {
  w_uuid : nat -> string;
  w_timestamp : nat -> Z;
  w_timestamp_millis : nat -> Z;
  w_rfc3339_millis : nat -> string;
  w_random_range : nat -> Z -> Z -> Z;
}.

(** The immutable part of a [Resolver]. *)
Record Resolver := mkResolver {
  rv_layers : list VarLayer;
  rv_secrets : option SecretResolver;
  rv_value_transform : option (string -> string);
  rv_world : World;
}.

(** Its locked and atomic fields, and the number of dynamic helpers called. *)
Record ResolverState := mkResolverState {
  rs_variable_values : list (nat * nat * string);
  rs_expansions : Z;
  rs_counter : Z;
  rs_secret_substitutions : Z;
  rs_used_secrets : list string;
  rs_used : list (string * string);
  rs_dynamic_calls : nat;
}.

#[export] Instance eta_ResolverState : Eta ResolverState := fun r =>
  mkResolverState (rs_variable_values r) (rs_expansions r) (rs_counter r)
    (rs_secret_substitutions r) (rs_used_secrets r) (rs_used r) (rs_dynamic_calls r).

(** [Resolver::new]: the state of a new resolver. *)
Definition ResolverState_new : ResolverState := mkResolverState [] 0 0 0 [] [] 0.

(** A fallible operation on the resolver. *)
Definition M (A : Type) : Type := ResolverState -> result A TransportFailure * ResolverState.

Definition ret {A} (a : A) : M A := fun st => (Ok a, st).
Definition fail_with {A} (e : TransportFailure) : M A := fun st => (Err e, st).
Definition bind {A B} (m : M A) (f : A -> M B) : M B := fun st =>
  match m st with
  | (Ok a, st') => f a st'
  | (Err e, st') => (Err e, st')
  end.
(** Reading the state, and updating it. *)
Definition get_state {A} (f : ResolverState -> A) : M A := fun st => (Ok (f st), st).
Definition modify (f : ResolverState -> ResolverState) : M unit := fun st => (Ok tt, f st).
(** [map_err]. *)
Definition map_failure {A} (f : TransportFailure -> TransportFailure) (m : M A) : M A := fun st =>
  match m st with
  | (Ok a, st') => (Ok a, st')
  | (Err e, st') => (Err (f e), st')
  end.

Declare Scope resolver_scope.
Notation "'let*' x ':=' m 'in' k" := (bind m (fun x => k))
  (at level 10, x pattern, m at level 100, k at level 200) : resolver_scope.
Notation "m ';;;' k" := (bind m (fun _ => k)) (at level 100, right associativity) : resolver_scope.
Open Scope resolver_scope.

Definition prepare_failure (kind : FailureKind) (message field : string) : TransportFailure :=
  with_field (TransportFailure_new Phase_Prepare kind message) field.

Section Resolver.
Context (rv : Resolver).

(** The last entry named [name] of a list of entries, with its index. *)
Fixpoint rfind_entry (name : string) (i : nat) (vars : list VarEntry) : option (nat * VarEntry) :=
  match vars with
  | [] => None
  | v :: vars' =>
      match rfind_entry name (S i) vars' with
      | Some r => Some r
      | None => if String.eqb (ve_name v) name then Some (i, v) else None
      end
  end.

Fixpoint rfind_layer (name : string) (i : nat) (layers : list VarLayer)
    : option (VarEntry * string * nat * nat) :=
  match layers with
  | [] => None
  | l :: layers' =>
      match rfind_layer name (S i) layers' with
      | Some r => Some r
      | None => option_map (fun '(j, v) => (v, vl_label l, i, j)) (rfind_entry name 0 (vl_vars l))
      end
  end.

(** [Resolver::lookup]. *)
Definition lookup_var (name : string) : option (VarEntry * string * nat * nat) :=
  rfind_layer name 0 (rv_layers rv).

(** [Resolver::scopes_searched]. *)
Definition scopes_searched : list string := map vl_label (rv_layers rv).

Definition apply_transform (value : string) : string :=
  from_option (fun transform => transform value) value (rv_value_transform rv).

Definition cached_value (key : nat * nat) (st : ResolverState) : option string :=
  option_map snd (find (fun kv => bool_decide (kv.1 = key)) (rs_variable_values st)).

(** [Resolver::variable_value]; an index out of range panics in the source and
    is a failure here (the indices come from [lookup_var]). *)
Definition variable_value (layer variable : nat) : M string :=
  match rv_layers rv !! layer ≫= (fun l => vl_vars l !! variable) with
  | None => fail_with (TransportFailure_new Phase_Prepare FailureKind_UnresolvedVariable "index out of bounds")
  | Some entry =>
      match rv_secrets rv ≫= (fun s => option_map (pair s) (secrets_variable_secret s layer variable)) with
      | Some (s, reference) =>
          let* cached := get_state (cached_value (layer, variable)) in
          match cached with
          | Some value => ret (apply_transform value)
          | None =>
              match secrets_resolve s reference with
              | Err _ => fail_with (prepare_failure FailureKind_AuthPreparationFailed
                  "could not resolve a secret variable; check the vault and active variables" "variables")
              | Ok value =>
                  modify (fun st => st <| rs_variable_values ::= cons (layer, variable, value) |>) ;;;
                  ret (apply_transform value)
              end
          end
      | None =>
          if String.eqb (ve_value entry) DEFERRED_SECRET_VALUE
          then fail_with (prepare_failure FailureKind_UnresolvedVariable
            "a vault variable resolves only when the request is sent, after its OAuth token endpoint is validated"
            DEFERRED_SECRET_FIELD)
          else ret (apply_transform (ve_value entry))
      end
  end.

(** [Resolver::dynamic]. *)
Definition dynamic (expr field : string) : M string :=
  let parts := split_whitespace expr in
  let name := default "" (head parts) in
  let args := tail parts in
  let* n := get_state rs_dynamic_calls in
  modify (fun st => st <| rs_dynamic_calls ::= S |>) ;;;
  let w := rv_world rv in
  if bool_decide (name ∈ ["uuid"; "randomUUID"; "guid"]) then ret (w_uuid w n)
  else if String.eqb name "timestamp" then ret (pretty (w_timestamp w n))
  else if String.eqb name "timestampMs" then ret (pretty (w_timestamp_millis w n))
  else if String.eqb name "isoTimestamp" then ret (w_rfc3339_millis w n)
  else if String.eqb name "counter" then
    let* c := get_state rs_counter in
    modify (fun st => st <| rs_counter := c ⊞ 1 |>) ;;;
    ret (pretty (c ⊞ 1))
  else if String.eqb name "randomInt" then
    let '(lo, hi) := match args with
      | [a; b] => (default 0 (parse_i64 a), default 1000 (parse_i64 b))
      | _ => (0, 1000)
      end in
    if hi <? lo then fail_with (prepare_failure FailureKind_UnresolvedVariable
      ("$randomInt range " +:+ pretty lo +:+ ".." +:+ pretty hi +:+ " is empty in " +:+ field) field)
    else ret (pretty (w_random_range w n lo hi))
  else if String.eqb name "randomFrom" then
    let choices := firstn 1000 (filter (fun s => str_is_empty s = false) (split_on "|" (join " " args))) in
    match choices with
    | [] => fail_with (prepare_failure FailureKind_UnresolvedVariable
        ("$randomFrom needs choices a|b|c in " +:+ field) field)
    | _ => ret (default "" (choices !! Z.to_nat (w_random_range w n 0 (Z.of_nat (List.length choices) - 1))))
    end
  else fail_with (prepare_failure FailureKind_UnresolvedVariable
    ("unknown dynamic variable '$" +:+ name +:+ "' in " +:+ field) field).

(** The loop of [resolve_inner] over the references of [rest]; [reference] is
    the value of an expression. Each round drops four braces, so [fuel] is the
    length of the text plus one. *)
Fixpoint scan (reference : string -> M string) (field : string) (fuel : nat) (rest out : string) : M string :=
  match fuel with
  | O => ret (out +:+ rest)
  | S fuel' =>
      match split_once "{{" rest with
      | None => ret (out +:+ rest)
      | Some (before, after) =>
          match split_once "}}" after with
          | None => ret (out +:+ before +:+ "{{" +:+ after)
          | Some (inner, rest') =>
              let* value := reference (trim inner) in
              let out' := out +:+ before +:+ value in
              if MAX_OUTPUT <? str_len out' then
                fail_with (prepare_failure FailureKind_VariableCycle
                  ("variable expansion in " +:+ field +:+ " exceeded " +:+ pretty MAX_OUTPUT +:+ " bytes") field)
              else scan reference field fuel' rest' out'
          end
      end
  end.

(** The value of one expression; [resolve_nested] resolves the value of a
    variable under the extended stack. *)
Definition reference_value (resolve_nested : string -> list string -> M string) (field : string)
    (stack : list string) (expr : string) : M string :=
  match str_strip_prefix "$" expr with
  | Some helper => dynamic helper field
  | None =>
      if str_is_empty expr then fail_with (prepare_failure FailureKind_UnresolvedVariable
        ("empty variable reference {{}} in " +:+ field +:+ ".") field)
      else if bool_decide (expr ∈ stack) then fail_with (prepare_failure FailureKind_VariableCycle
        ("variables reference each other in a cycle: " +:+ join " → " (stack ++ [expr])) field)
      else match lookup_var expr with
      | None => fail_with (prepare_failure FailureKind_UnresolvedVariable
          ("variable '" +:+ expr +:+ "' used in " +:+ field +:+ " is not defined in any active scope ("
            +:+ join ", " scopes_searched +:+ ").") field)
      | Some (entry, scope, layer_index, variable_index) =>
          let* n := get_state rs_expansions in
          modify (fun st => st <| rs_expansions ::= (fun n => n ⊞ 1) |>) ;;;
          if MAX_EXPANSIONS <=? n then fail_with (prepare_failure FailureKind_VariableCycle
            ("variable expansion in " +:+ field +:+ " exceeded " +:+ pretty MAX_EXPANSIONS +:+ " references") field)
          else
            modify (fun st => st <| rs_used ::= (fun u => u ++ [(expr, scope)]) |>) ;;;
            let* raw := variable_value layer_index variable_index in
            let* value :=
              if ve_literal entry then ret raw
              else map_failure (fun failure =>
                  if ve_secret entry then
                    mkTransportFailure (tf_phase failure) (tf_kind failure)
                      "could not resolve a secret variable; check the vault and active variables"
                      (tf_io_error_kind failure) (tf_os_error_code failure) (tf_tls_alert failure)
                      (tf_h2_error_code failure) (tf_quic_error_code failure) (tf_status failure)
                      (tf_field failure) (tf_deadline_ms failure)
                  else failure)
                (resolve_nested raw (stack ++ [expr])) in
            (if ve_secret entry && negb (str_is_empty value)
             then modify (fun st => st <| rs_secret_substitutions ::= (fun n => n ⊞ 1) |>
                                       <| rs_used_secrets ::= (fun u => u ++ [value]) |>)
             else ret tt) ;;;
            ret value
      end
  end.

(** [Resolver::resolve_inner]; [levels] is [MAX_DEPTH + 1 - depth]. *)
Fixpoint resolve_inner (field : string) (levels : nat) (input : string) (stack : list string) : M string :=
  if negb (str_contains input "{{") then ret input else
  match levels with
  | O => fail_with (prepare_failure FailureKind_VariableCycle
      ("variable expansion in " +:+ field +:+ " exceeded " +:+ pretty (Z.of_nat MAX_DEPTH) +:+ " levels ("
        +:+ join " → " stack +:+ ")") field)
  | S levels' =>
      scan (reference_value (resolve_inner field levels') field stack) field
        (S (String.length input)) input ""
  end.

(** [Resolver::resolve]. *)
Definition resolve_vars (input field : string) : M string :=
  resolve_inner field (S MAX_DEPTH) input [].

(** [Resolver::materialize_variables]. *)
Definition materialize_variables : M unit :=
  match rv_secrets rv with
  | None => ret tt
  | Some secrets =>
      foldr (fun lv (k : M unit) =>
          if secrets_variable_secret secrets lv.1 lv.2 is Some _ then variable_value lv.1 lv.2 ;;; k else k)
        (ret tt)
        (concat (imap (fun i l => map (pair i) (seq 0 (List.length (vl_vars l)))) (rv_layers rv)))
  end.

(** * What a resolution means *)

(** The references of a text, split as the resolver splits it. *)
Inductive token := Lit (s : string) | Ref (expr : string).

Fixpoint tokens (fuel : nat) (rest : string) : list token :=
  match fuel with
  | O => [Lit rest]
  | S fuel' =>
      match split_once "{{" rest with
      | None => [Lit rest]
      | Some (before, after) =>
          match split_once "}}" after with
          | None => [Lit (before +:+ "{{" +:+ after)]
          | Some (inner, rest') => Lit before :: Ref (trim inner) :: tokens fuel' rest'
          end
      end
  end.

Definition tokenize (s : string) : list token := tokens (S (String.length s)) s.

(** The value a variable's entry stands for, before expansion. *)
Definition raw_value (layer variable : nat) : option string :=
  entry ← (rv_layers rv !! layer ≫= (fun l => vl_vars l !! variable));
  option_map apply_transform
    match rv_secrets rv ≫= (fun s => option_map (pair s) (secrets_variable_secret s layer variable)) with
    | Some (s, reference) => match secrets_resolve s reference with Ok v => Some v | Err _ => None end
    | None => if String.eqb (ve_value entry) DEFERRED_SECRET_VALUE then None else Some (ve_value entry)
    end.

(** A secret the redactor must know, when a value of [entry] is substituted. *)
Definition own_secret (entry : VarEntry) (value : string) : list string :=
  if ve_secret entry && negb (str_is_empty value) then [value] else [].

(** [entry] is the definition of [name] a reference means: the last entry of
    that name in its layer, which is layer [i], labelled [scope], and no
    layer further in (of a higher index) defines the name at all. *)
Definition innermost (name : string) (entry : VarEntry) (scope : string) (i j : nat) : Prop :=
  exists layer, rv_layers rv !! i = Some layer /\ vl_label layer = scope /\
    vl_vars layer !! j = Some entry /\ ve_name entry = name /\
    (forall j' w, (j < j')%nat -> vl_vars layer !! j' = Some w -> ve_name w <> name) /\
    (forall i' layer' j' w, (i < i')%nat -> rv_layers rv !! i' = Some layer' ->
      vl_vars layer' !! j' = Some w -> ve_name w <> name).

Lemma innermost_unique name e s i j e' s' i' j' :
  innermost name e s i j -> innermost name e' s' i' j' -> (e, s, i, j) = (e', s', i', j').
Proof.
  intros (l & Hi & Hs & Hj & Hn & Ha & Hl) (l' & Hi' & Hs' & Hj' & Hn' & Ha' & Hl').
  assert (i = i') as <-.
  { destruct (Nat.lt_trichotomy i i') as [Hlt|[E|Hlt]]; [|done|].
    - by destruct (Hl _ _ _ _ Hlt Hi' Hj').
    - by destruct (Hl' _ _ _ _ Hlt Hi Hj). }
  simplify_eq. assert (j = j') as <-; [|by simplify_eq].
  destruct (Nat.lt_trichotomy j j') as [Hlt|[E|Hlt]]; [|done|].
  - by destruct (Ha _ _ Hlt Hj').
  - by destruct (Ha' _ _ Hlt Hj).
Qed.

Lemma rfind_entry_spec name base vars :
  match rfind_entry name base vars with
  | Some (i, v) => (base <= i)%nat /\ vars !! (i - base)%nat = Some v /\ ve_name v = name /\
      (forall j w, (i - base < j)%nat -> vars !! j = Some w -> ve_name w <> name)
  | None => forall j w, vars !! j = Some w -> ve_name w <> name
  end.
Proof.
  revert base. induction vars as [|v vars IH]; intros base; simpl; [by intros [|j]|].
  specialize (IH (S base)). destruct (rfind_entry name (S base) vars) as [[i w]|].
  - destruct IH as (Hle & Hi & Hn & Hafter). replace (i - base)%nat with (S (i - S base)) by lia.
    split; [lia|]. split; [done|]. split; [done|]. intros [|j] x Hj; [lia|]. simpl. apply Hafter. lia.
  - destruct (String.eqb_spec (ve_name v) name) as [E|E].
    + rewrite Nat.sub_diag. split; [done|]. split; [done|]. split; [done|]. intros [|j] x Hj; [lia|]. simpl. apply IH.
    + intros [|j] x; simpl; [by intros [= <-]|]. apply IH.
Qed.

Lemma rfind_layer_spec name base layers :
  match rfind_layer name base layers with
  | Some (entry, scope, i, j) => (base <= i)%nat /\ exists layer, layers !! (i - base)%nat = Some layer /\
      vl_label layer = scope /\ vl_vars layer !! j = Some entry /\ ve_name entry = name /\
      (forall j' w, (j < j')%nat -> vl_vars layer !! j' = Some w -> ve_name w <> name) /\
      (forall i' layer' j' w, (i - base < i')%nat -> layers !! i' = Some layer' ->
        vl_vars layer' !! j' = Some w -> ve_name w <> name)
  | None => forall i layer j w, layers !! i = Some layer -> vl_vars layer !! j = Some w -> ve_name w <> name
  end.
Proof.
  revert base. induction layers as [|l layers IH]; intros base; simpl; [by intros [|i]|].
  specialize (IH (S base)). destruct (rfind_layer name (S base) layers) as [[[[entry scope] i] j]|].
  - destruct IH as (Hle & layer & Hi & Hs & Hj & Hn & Hafter & Hlater).
    replace (i - base)%nat with (S (i - S base)) by lia. split; [lia|]. exists layer.
    do 5 (split; [done|]). intros [|i'] layer' j' w Hi'; [lia|]. simpl. apply Hlater. lia.
  - pose proof (rfind_entry_spec name 0 (vl_vars l)) as He.
    destruct (rfind_entry name 0 (vl_vars l)) as [[j v]|]; simpl.
    + destruct He as (_ & Hj & Hn & Hafter). rewrite Nat.sub_0_r in *. split; [done|]. exists l.
      rewrite Nat.sub_diag. do 5 (split; [done|]). intros [|i'] layer' j' w Hi'; [lia|]. simpl. apply IH.
    + intros [|i] layer j w; simpl; [intros [= <-]; apply He|apply IH].
Qed.

Lemma lookup_var_innermost name e s i j : lookup_var name = Some (e, s, i, j) <-> innermost name e s i j.
Proof.
  assert (forall e s i j, lookup_var name = Some (e, s, i, j) -> innermost name e s i j) as Hin.
  { clear. intros e s i j. unfold lookup_var. intros E. pose proof (rfind_layer_spec name 0 (rv_layers rv)) as Hs.
    rewrite E, Nat.sub_0_r in Hs. by destruct Hs as (_ & Hs). }
  split; [apply Hin|]. intros Hi. destruct (lookup_var name) as [[[[e' s'] i'] j']|] eqn:E.
  - f_equal. symmetry. by eapply innermost_unique; [|apply Hin].
  - exfalso. destruct Hi as (l & Hi & _ & Hj & Hn & _). unfold lookup_var in E.
    pose proof (rfind_layer_spec name 0 (rv_layers rv)) as Hs. rewrite E in Hs. by apply (Hs _ _ _ _ Hi Hj).
Qed.

(** [expansion dyn n s out uses secrets]: expanding [s] through at most [n]
    levels of variables gives [out]; [uses] are the names with their winning
    scopes and [secrets] the secret values, both in the order of substitution.
    Dynamic helpers, which have any value, occur only if [dyn]. *)
Inductive expansion (dyn : bool) : nat -> string -> string -> list (string * string) -> list string -> Prop :=
  | expansion_plain n s : str_contains s "{{" = false -> expansion dyn n s s [] []
  | expansion_refs n s out uses secrets : str_contains s "{{" = true ->
      expansions dyn n (tokenize s) out uses secrets -> expansion dyn (S n) s out uses secrets
with expansions (dyn : bool) : nat -> list token -> string -> list (string * string) -> list string -> Prop :=
  | expansions_nil n : expansions dyn n [] "" [] []
  | expansions_lit n s toks out uses secrets : expansions dyn n toks out uses secrets ->
      expansions dyn n (Lit s :: toks) (s +:+ out) uses secrets
  | expansions_ref n expr toks value out u uses s secrets :
      ref_expansion dyn n expr value u s -> expansions dyn n toks out uses secrets ->
      expansions dyn n (Ref expr :: toks) (value +:+ out) (u ++ uses) (s ++ secrets)
with ref_expansion (dyn : bool) : nat -> string -> string -> list (string * string) -> list string -> Prop :=
  | ref_dynamic n expr helper value : dyn = true -> str_strip_prefix "$" expr = Some helper ->
      ref_expansion dyn n expr value [] []
  | ref_literal n expr entry scope layer variable value :
      str_strip_prefix "$" expr = None -> expr <> "" ->
      innermost expr entry scope layer variable -> ve_literal entry = true ->
      raw_value layer variable = Some value ->
      ref_expansion dyn n expr value [(expr, scope)] (own_secret entry value)
  | ref_template n expr entry scope layer variable raw value uses secrets :
      str_strip_prefix "$" expr = None -> expr <> "" ->
      innermost expr entry scope layer variable -> ve_literal entry = false ->
      raw_value layer variable = Some raw -> expansion dyn n raw value uses secrets ->
      ref_expansion dyn n expr value ((expr, scope) :: uses) (secrets ++ own_secret entry value).

(** The cache of vault values holds what the vault answers. *)
Definition cache_ok (st : ResolverState) : Prop :=
  Forall (fun kv => exists s reference, rv_secrets rv = Some s /\
    secrets_variable_secret s kv.1.1 kv.1.2 = Some reference /\ secrets_resolve s reference = Ok kv.2)
    (rs_variable_values st).

(** What a successful operation did to the resolver's record. *)
Definition recorded (st st' : ResolverState) (uses : list (string * string)) (secrets : list string) : Prop :=
  rs_used st' = rs_used st ++ uses /\ rs_used_secrets st' = rs_used_secrets st ++ secrets /\
  eqm64 (rs_secret_substitutions st') (rs_secret_substitutions st + Z.of_nat (List.length secrets)) /\
  (cache_ok st -> cache_ok st').

Lemma recorded_refl st : recorded st st [] [].
Proof. split; [by rewrite app_nil_r|]. split; [by rewrite app_nil_r|]. split; [apply eqm64_eq; simpl; lia|done]. Qed.

Lemma recorded_trans st st' st'' u u' s s' :
  recorded st st' u s -> recorded st' st'' u' s' -> recorded st st'' (u ++ u') (s ++ s').
Proof.
  intros (U & S & N & C) (U' & S' & N' & C'). unfold recorded. rewrite U', U, S', S, !app_assoc.
  do 2 (split; [done|]). split; [|tauto]. rewrite N', N, length_app. apply eqm64_eq. lia.
Qed.

Lemma bind_Ok {A B} (m : M A) (f : A -> M B) st b st'' : bind m f st = (Ok b, st'') ->
  exists a st', m st = (Ok a, st') /\ f a st' = (Ok b, st'').
Proof. unfold bind. destruct (m st) as [[a|e] st'] eqn:E; [|done]. eauto. Qed.

Lemma map_failure_Ok {A} f (m : M A) st a st' : map_failure f m st = (Ok a, st') -> m st = (Ok a, st').
Proof. unfold map_failure. by destruct (m st) as [[|]]. Qed.

Lemma cached_value_In key st v : cached_value key st = Some v -> In (key, v) (rs_variable_values st).
Proof.
  unfold cached_value. destruct (find _ _) as [[k w]|] eqn:E; [|done]. intros [= <-].
  apply find_some in E as [Hin Hk]. apply bool_decide_eq_true in Hk. simpl in Hk. by subst.
Qed.

(** [variable_value] returns the raw value and records nothing but the cache. *)
Lemma variable_value_spec layer variable st raw st' : cache_ok st ->
  variable_value layer variable st = (Ok raw, st') ->
  raw_value layer variable = Some raw /\ recorded st st' [] [] /\ rs_expansions st' = rs_expansions st.
Proof.
  unfold variable_value, raw_value. intros Hc.
  destruct (rv_layers rv !! layer ≫= _) as [entry|]; [|done]. simpl.
  destruct (rv_secrets rv ≫= _) as [[s reference]|] eqn:Es.
  - unfold bind, get_state. destruct (cached_value (layer, variable) st) as [v|] eqn:Ev.
    + intros [= <- <-]. split; [|split; [apply recorded_refl|done]].
      apply cached_value_In in Ev. apply (proj1 (List.Forall_forall _ _) Hc) in Ev as (s' & r' & E1 & E2 & E3).
      rewrite E1 in Es. simpl in *. rewrite E2 in Es. injection Es as <- <-. by rewrite E3.
    + destruct (secrets_resolve s reference) as [v|e] eqn:Er; [|done]. unfold modify. intros [= <- <-].
      split; [done|]. split; [|done]. destruct (recorded_refl st) as (U & S & N & _).
      split; [done|]. split; [done|]. split; [done|]. intros _. apply List.Forall_cons; [|done].
      destruct (rv_secrets rv) as [s'|] eqn:Es'; [|done]. simpl in Es.
      destruct (secrets_variable_secret s' layer variable) as [r'|] eqn:Ev'; [|done].
      injection Es as -> ->. exists s, reference. simpl. done.
  - destruct (String.eqb _ _); [done|]. intros [= <- <-]. split; [done|]. split; [apply recorded_refl|done].
Qed.

Lemma dynamic_recorded expr field st v st' : dynamic expr field st = (Ok v, st') -> recorded st st' [] [].
Proof.
  unfold dynamic, bind, get_state, modify, ret, fail_with. cbv zeta beta.
  repeat case_match; intros; simplify_eq; destruct (recorded_refl st) as (U & S & N & C); by repeat split.
Qed.

Definition reference_spec (n : nat) (reference : string -> M string) : Prop :=
  forall expr st v st', cache_ok st -> reference expr st = (Ok v, st') ->
    exists uses secrets, recorded st st' uses secrets /\ ref_expansion true n expr v uses secrets.

Lemma scan_spec n field reference fuel rest out st v st' :
  reference_spec n reference -> cache_ok st -> scan reference field fuel rest out st = (Ok v, st') ->
  exists tail uses secrets, v = out +:+ tail /\ recorded st st' uses secrets /\
    expansions true n (tokens fuel rest) tail uses secrets.
Proof.
  intros Href. revert rest out st.
  assert (forall text, expansions true n [Lit text] text [] []) as Hlit.
  { intros text. rewrite <- (str_app_nil_r text) at 2. repeat constructor. }
  induction fuel as [|fuel IH]; intros rest out st Hc; simpl.
  { intros [= <- <-]. exists rest, [], []. split; [done|]. split; [apply recorded_refl|done]. }
  destruct (split_once "{{" rest) as [[before after]|].
  2:{ intros [= <- <-]. exists rest, [], []. split; [done|]. split; [apply recorded_refl|done]. }
  destruct (split_once "}}" after) as [[inner rest']|].
  2:{ intros [= <- <-]. eexists _, [], []. split; [done|]. split; [apply recorded_refl|done]. }
  intros (value & st1 & H1 & H2)%bind_Ok. destruct (Href _ _ _ _ Hc H1) as (u & s & Hr & Hx).
  destruct (_ <? _); [done|].
  destruct (IH _ _ _ (proj2 (proj2 (proj2 Hr)) Hc) H2) as (tail & u' & s' & -> & Hr' & Ht).
  exists (before +:+ value +:+ tail), (u ++ u'), (s ++ s').
  split; [by rewrite !str_app_assoc|]. split; [by eapply recorded_trans|].
  constructor. by constructor.
Qed.

Lemma reference_value_spec n field nested stack :
  (forall input st v st' stack, cache_ok st -> nested input stack st = (Ok v, st') ->
    exists uses secrets, recorded st st' uses secrets /\ expansion true n input v uses secrets) ->
  reference_spec n (reference_value nested field stack).
Proof.
  intros Hn expr st v st' Hc. unfold reference_value.
  destruct (str_strip_prefix "$" expr) as [helper|] eqn:Eh.
  { intros Hd. exists [], []. split; [by eapply dynamic_recorded|by econstructor]. }
  destruct (str_is_empty expr) eqn:Ee; [done|]. assert (expr <> "") as Hne by by intros ->.
  destruct (bool_decide (expr ∈ stack)); [done|].
  destruct (lookup_var expr) as [[[[entry scope] layer] variable]|] eqn:El; [|done].
  intros (k & st0 & E0 & Hrest)%bind_Ok. injection E0 as <- <-.
  apply bind_Ok in Hrest as ([] & st1 & E1 & Hrest). injection E1 as <-.
  destruct (MAX_EXPANSIONS <=? _); [done|].
  apply bind_Ok in Hrest as ([] & st2 & E2 & Hrest). injection E2 as <-.
  apply bind_Ok in Hrest as (raw & st3 & E3 & Hrest).
  apply variable_value_spec in E3 as (Hraw & Hr3 & _); [|done].
  apply bind_Ok in Hrest as (value & st4 & E4 & Hrest).
  apply bind_Ok in Hrest as ([] & st5 & E5 & Hrest). injection Hrest as <- <-.
  assert (recorded st4 st5 [] (own_secret entry value)) as Hown.
  { unfold own_secret. destruct (_ && _); [|injection E5 as <-; apply recorded_refl].
    injection E5 as <-. split; [by rewrite app_nil_r|]. split; [done|]. split; [|done].
    simpl. rewrite add64_eqm. apply eqm64_eq. lia. }
  assert (recorded st st3 [(expr, scope)] []) as H03.
  { destruct Hr3 as (U & S & N & C). unfold recorded. rewrite U, S. simpl in *. rewrite !app_nil_r.
    repeat split; [|exact C]. rewrite N. apply eqm64_eq. lia. }
  destruct (ve_literal entry) eqn:Elit.
  - injection E4 as <- <-. exists [(expr, scope)], (own_secret entry raw). split.
    + by apply (recorded_trans _ _ _ [(expr, scope)] [] [] (own_secret entry raw) H03).
    + apply lookup_var_innermost in El. by eapply ref_literal.
  - apply map_failure_Ok, Hn in E4 as (u & s & Hr4 & Hx4); [|by apply H03].
    exists ((expr, scope) :: u), (s ++ own_secret entry value). split.
    + change ((expr, scope) :: u) with ([(expr, scope)] ++ u).
      rewrite <- (app_nil_l (s ++ _)). eapply recorded_trans; [exact H03|].
      rewrite <- (app_nil_r u). by eapply recorded_trans.
    + apply lookup_var_innermost in El. by eapply ref_template.
Qed.

Lemma resolve_inner_spec field n input stack st v st' : cache_ok st ->
  resolve_inner field n input stack st = (Ok v, st') ->
  exists uses secrets, recorded st st' uses secrets /\ expansion true n input v uses secrets.
Proof.
  revert input stack st v st'. induction n as [|n IH]; intros input stack st v st' Hc; cbn [resolve_inner];
    destruct (str_contains input "{{") eqn:Ec; cbn [negb]; try done.
  - intros [= <- <-]. exists [], []. split; [apply recorded_refl|by constructor].
  - intros Hs. eapply (scan_spec n) in Hs as (tail & u & s & -> & Hr & Hx); [|apply reference_value_spec|done].
    + exists u, s. split; [done|]. by constructor.
    + intros. by eapply IH.
  - intros [= <- <-]. exists [], []. split; [apply recorded_refl|by constructor].
Qed.

(** C37: a successful resolution is the expansion of its text: each reference
    is replaced by the expansion of the value of its variable in the innermost
    scope that defines it - its last entry there, no scope further in having
    one - (or by that value as it is, for run-local data), no
    reference is dropped or left in place, through at most [MAX_DEPTH + 1]
    levels. The resolver recorded every name used with its scope and every
    non-empty secret value it substituted, in order. *)
Theorem resolve_expands input field st out st' :
  cache_ok st -> resolve_vars input field st = (Ok out, st') ->
  exists uses secrets, expansion true (S MAX_DEPTH) input out uses secrets /\
    rs_used st' = rs_used st ++ uses /\ rs_used_secrets st' = rs_used_secrets st ++ secrets /\ cache_ok st'.
Proof.
  intros Hc Hr. destruct (resolve_inner_spec _ _ _ _ _ _ _ Hc Hr) as (u & s & (U & S & _ & C) & Hx).
  exists u, s. auto.
Qed.

(** ** Cycles *)

(** [s] refers to the variable [e]; [x] holds the template [raw]; expanding
    [x] needs [y]. *)
Definition refers (s e : string) : Prop :=
  str_contains s "{{" = true /\ In (Ref e) (tokenize s) /\ str_strip_prefix "$" e = None.

Definition template_of (x raw : string) : Prop :=
  exists entry scope layer variable, lookup_var x = Some (entry, scope, layer, variable) /\
    ve_literal entry = false /\ raw_value layer variable = Some raw.

Definition depends (x y : string) : Prop := exists raw, template_of x raw /\ refers raw y.

Lemma template_of_unique x raw raw' : template_of x raw -> template_of x raw' -> raw = raw'.
Proof. intros (? & ? & ? & ? & E1 & _ & R1) (? & ? & ? & ? & E2 & _ & R2). congruence. Qed.

Lemma expansions_In dyn n toks out uses secrets e : expansions dyn n toks out uses secrets -> In (Ref e) toks ->
  exists v u s, ref_expansion dyn n e v u s.
Proof.
  revert out uses secrets. induction toks as [|t toks IH]; intros out uses secrets Hx; [done|].
  inversion Hx; subst; intros [Hin|Hin]; simplify_eq; eauto.
Qed.

(** A template referred to by an expanded text expands in fewer levels. *)
Lemma expansion_refers dyn n s out uses secrets e raw :
  expansion dyn n s out uses secrets -> refers s e -> template_of e raw ->
  exists m v u ss, (m < n)%nat /\ expansion dyn m raw v u ss.
Proof.
  intros Hx (Hc & Hin & Hs) (entry & scope & layer & variable & El & Hlit & Hraw).
  inversion Hx as [|m ? ? ? ? _ Hxs]; subst; [congruence|].
  destruct (expansions_In _ _ _ _ _ _ _ Hxs Hin) as (v & u & ss & Hr).
  inversion Hr; subst; try match goal with Hi : innermost _ _ _ _ _ |- _ => apply lookup_var_innermost in Hi end;
    simplify_eq; try congruence. eexists m, _, _, _. split; [lia|]. eassumption.
Qed.

Lemma expansion_depends dyn x y n raw out uses secrets raw' :
  tc depends x y -> template_of x raw -> expansion dyn n raw out uses secrets -> template_of y raw' ->
  exists m v u ss, (m < n)%nat /\ expansion dyn m raw' v u ss.
Proof.
  intros Htc. revert n raw out uses secrets. induction Htc as [x y (r & Hr & Hy)|x y z (r & Hr & Hy) Htc IH];
    intros n raw out uses secrets Hx He Hz; rewrite (template_of_unique _ _ _ Hr Hx) in Hy.
  - by eapply expansion_refers.
  - assert (exists ry, template_of y ry) as [ry Hry] by (inversion Htc; subst; destruct H as (? & ? & _); eauto).
    destruct (expansion_refers _ _ _ _ _ _ _ _ He Hy Hry) as (m & v & u & ss & Hm & Hxm).
    destruct (IH _ _ _ _ _ Hry Hxm Hz) as (m' & v' & u' & ss' & Hm' & Hx').
    eexists m', _, _, _. split; [lia|exact Hx'].
Qed.

Lemma cyclic_no_expansion dyn x raw n out uses secrets :
  tc depends x x -> template_of x raw -> expansion dyn n raw out uses secrets -> False.
Proof.
  intros Htc Hx. revert out uses secrets. induction (lt_wf n) as [n _ IH]. intros out uses secrets He.
  destruct (expansion_depends _ _ _ _ _ _ _ _ _ Htc Hx He Hx) as (m & v & u & ss & Hm & Hxm).
  by eapply IH.
Qed.

(** A text whose expansion needs a variable that depends on itself,
    directly or through any chain of variables, is never resolved: the result
    is a failure, whatever else the text refers to. *)
Theorem resolve_rejects_cycles input field st e x :
  cache_ok st -> refers input e -> e = x \/ tc depends e x -> tc depends x x ->
  exists failure st', resolve_vars input field st = (Err failure, st').
Proof.
  intros Hc Hin Hex Hxx. destruct (resolve_vars input field st) as [[out|failure] st'] eqn:E; [exfalso|by eauto].
  destruct (resolve_inner_spec _ _ _ _ _ _ _ Hc E) as (u & s & _ & Hx).
  assert (forall y z, tc depends y z -> exists ry, template_of y ry) as Htmpl.
  { intros y z Hyz. inversion Hyz; subst; destruct H as (? & ? & _); eauto. }
  destruct (Htmpl x x Hxx) as [rx Hrx].
  assert (exists re, template_of e re) as [re Hre] by (destruct Hex as [->|Hex]; eauto).
  destruct (expansion_refers _ _ _ _ _ _ _ _ Hx Hin Hre) as (m & v & u' & s' & _ & Hxe).
  destruct Hex as [->|Hex]; [by eapply cyclic_no_expansion|].
  destruct (expansion_depends _ _ _ _ _ _ _ _ _ Hex Hre Hxe Hrx) as (m' & v' & u2 & s2 & _ & Hxx').
  by eapply cyclic_no_expansion.
Qed.

(** ** Completeness *)

Lemma variable_value_total layer variable raw st : cache_ok st -> raw_value layer variable = Some raw ->
  exists st', variable_value layer variable st = (Ok raw, st').
Proof.
  intros Hc Hraw. destruct (variable_value layer variable st) as [[v|e] st'] eqn:E.
  - apply variable_value_spec in E as [E _]; [|done]. exists st'. congruence.
  - exfalso. revert E Hraw. unfold variable_value, raw_value.
    destruct (rv_layers rv !! layer ≫= _) as [entry|]; [|done]. simpl.
    destruct (rv_secrets rv ≫= _) as [[s reference]|].
    + unfold bind, get_state. destruct (cached_value _ st); [done|].
      by destruct (secrets_resolve s reference).
    + by destruct (String.eqb _ _).
Qed.

(** Every reference of [s] was reached from each name of the stack. *)
Definition reached_from (stack : list string) (s : string) : Prop :=
  forall y e, y ∈ stack -> refers s e -> tc depends y e.

Definition reference_complete (n : nat) (s : string) (reference : string -> M string) : Prop :=
  forall expr st v uses secrets, refers s expr -> cache_ok st -> ref_expansion false n expr v uses secrets ->
    str_len v <= MAX_OUTPUT -> 0 <= rs_expansions st ->
    rs_expansions st + Z.of_nat (List.length uses) <= MAX_EXPANSIONS ->
    exists st', reference expr st = (Ok v, st') /\ cache_ok st' /\
      rs_expansions st' = rs_expansions st + Z.of_nat (List.length uses).

Lemma scan_complete n s field reference fuel rest out st tail uses secrets :
  reference_complete n s reference -> (forall e, In (Ref e) (tokens fuel rest) -> In (Ref e) (tokenize s)) ->
  str_contains s "{{" = true -> cache_ok st -> expansions false n (tokens fuel rest) tail uses secrets ->
  str_len (out +:+ tail) <= MAX_OUTPUT -> 0 <= rs_expansions st ->
  rs_expansions st + Z.of_nat (List.length uses) <= MAX_EXPANSIONS ->
  exists st', scan reference field fuel rest out st = (Ok (out +:+ tail), st') /\ cache_ok st' /\
    rs_expansions st' = rs_expansions st + Z.of_nat (List.length uses).
Proof.
  intros Href Hin Hs. revert rest out st tail uses secrets Hin.
  assert (forall text out tail uses secrets st, expansions false n [Lit text] tail uses secrets -> cache_ok st ->
    exists st', (Ok (out +:+ text) : result string TransportFailure, st) = (Ok (out +:+ tail), st') /\ cache_ok st' /\
      rs_expansions st' = rs_expansions st + Z.of_nat (List.length uses)) as Hlit.
  { intros text out tail uses secrets st Hx Hc. inversion Hx as [|? ? ? ? ? ? Hn|]; subst.
    inversion Hn; subst. exists st. rewrite str_app_nil_r. simpl. split; [done|]. split; [done|]. lia. }
  induction fuel as [|fuel IH]; intros rest out st tail uses secrets Hin Hc Hx Hlen H0 Hexp; simpl in *.
  { by eapply Hlit. }
  destruct (split_once "{{" rest) as [[before after]|]; [|by eapply Hlit].
  destruct (split_once "}}" after) as [[inner rest']|]; [|by eapply Hlit].
  inversion Hx as [|? ? ? out1 ? ? Hx1|]; subst. inversion Hx1 as [| |? ? ? value tail' u uses' s' secrets' Hr Hx2]; subst.
  rewrite length_app, Nat2Z.inj_add in *. rewrite !str_len_app in Hlen.
  pose proof (str_len_nonneg out). pose proof (str_len_nonneg before). pose proof (str_len_nonneg value).
  pose proof (str_len_nonneg tail').
  assert (str_strip_prefix "$" (trim inner) = None) as Hnd by (inversion Hr; done).
  destruct (Href (trim inner) st value u s') as (st1 & E1 & Hc1 & En1); try done; try lia.
  { split; [done|]. split; [|done]. apply Hin. right. by left. }
  unfold bind. rewrite E1. rewrite (proj2 (Z.ltb_ge _ _)) by (rewrite !str_len_app; lia).
  destruct (IH rest' (out +:+ before +:+ value) st1 tail' uses' secrets') as (st2 & E2 & Hc2 & En2); try done.
  - intros e He. apply Hin. right. by right.
  - rewrite !str_len_app. lia.
  - lia.
  - lia.
  - rewrite E2. exists st2. split; [by rewrite !str_app_assoc|]. split; [done|]. lia.
Qed.

Lemma reference_value_complete n s field nested stack :
  (forall raw stack st v uses secrets, cache_ok st -> expansion false n raw v uses secrets ->
    reached_from stack raw -> str_len v <= MAX_OUTPUT -> 0 <= rs_expansions st ->
    rs_expansions st + Z.of_nat (List.length uses) <= MAX_EXPANSIONS ->
    exists st', nested raw stack st = (Ok v, st') /\ cache_ok st' /\
      rs_expansions st' = rs_expansions st + Z.of_nat (List.length uses)) ->
  reached_from stack s -> reference_complete n s (reference_value nested field stack).
Proof.
  intros Hn Hreach expr st v uses secrets Hrefers Hc Hr Hlen H0 Hexp. pose proof Hrefers as (_ & _ & Hnd).
  unfold reference_value. rewrite Hnd.
  assert (exists entry scope layer variable raw, expr <> "" /\ lookup_var expr = Some (entry, scope, layer, variable) /\
    raw_value layer variable = Some raw /\ 1 <= Z.of_nat (List.length uses) /\
    (ve_literal entry = true /\ v = raw /\ List.length uses = 1%nat \/
     ve_literal entry = false /\ exists uses' secrets', expansion false n raw v uses' secrets' /\ List.length uses = S (List.length uses')))
    as (entry & scope & layer & variable & raw & Hne & El & Hraw & Hu & Hcase).
  { inversion Hr; subst; [done| |]; eexists _, _, _, _, _; (split; [done|]);
      (split; [by apply lookup_var_innermost|]); (split; [done|]).
    - split; [done|]. by left.
    - split; [simpl; lia|]. right. split; [done|]. eauto. }
  assert (str_is_empty expr = false) as -> by by destruct expr.
  rewrite bool_decide_eq_false_2.
  2:{ intros Hin. pose proof (Hreach _ _ Hin Hrefers) as Hcyc.
    assert (exists r, template_of expr r) as (r & e2 & sc2 & l2 & v2 & El2 & Hl2 & Hr2)
      by (inversion Hcyc; subst; destruct H as (? & ? & _); eauto).
    rewrite El in El2. simplify_eq. destruct Hcase as [(? & _)|(_ & u' & s' & Hx & _)]; [congruence|].
    eapply (cyclic_no_expansion _ expr raw); [exact Hcyc| |exact Hx]. repeat eexists; eauto. }
  rewrite El. unfold bind at 1, get_state at 1. cbv beta iota. unfold bind at 1, modify at 1. cbv beta iota.
  rewrite (proj2 (Z.leb_gt _ _)) by lia.
  unfold bind at 1, modify at 1. cbv beta iota.
  set (st1 := st <| rs_expansions ::= (fun n => n ⊞ 1) |> <| rs_used ::= (fun u => u ++ [(expr, scope)]) |>).
  assert (cache_ok st1) as Hc1 by done.
  assert (rs_expansions st1 = rs_expansions st + 1) as En1.
  { unfold st1. simpl. apply add64_small; unfold MAX_EXPANSIONS in *; lia. }
  destruct (variable_value_total layer variable raw st1 Hc1 Hraw) as [st2 E2].
  destruct (variable_value_spec _ _ _ _ _ Hc1 E2) as (_ & (_ & _ & _ & Hc2) & En2). specialize (Hc2 Hc1).
  unfold bind at 1. fold st1. rewrite E2. unfold bind at 1.
  assert (exists st3, (if ve_literal entry then ret raw else map_failure (fun failure =>
      if ve_secret entry then
        mkTransportFailure (tf_phase failure) (tf_kind failure)
          "could not resolve a secret variable; check the vault and active variables"
          (tf_io_error_kind failure) (tf_os_error_code failure) (tf_tls_alert failure)
          (tf_h2_error_code failure) (tf_quic_error_code failure) (tf_status failure)
          (tf_field failure) (tf_deadline_ms failure)
      else failure) (nested raw (stack ++ [expr]))) st2 = (Ok v, st3) /\ cache_ok st3 /\
      rs_expansions st3 = rs_expansions st + Z.of_nat (List.length uses)) as (st3 & E3 & Hc3 & En3).
  { destruct Hcase as [(-> & -> & Eu)|(Hlit & u' & s' & Hx & Eu)].
    - exists st2. split; [done|]. split; [done|]. rewrite En2, En1, Eu. lia.
    - assert (template_of expr raw) as Htm by (repeat eexists; eauto). rewrite Hlit.
      destruct (Hn raw (stack ++ [expr]) st2 v u' s') as (st3 & E3 & Hc3 & En3); try done; try lia.
      + intros y e [Hy|Hy%list_elem_of_singleton]%elem_of_app He.
        * eapply tc_r; [by apply (Hreach y expr)|]. by exists raw.
        * subst y. apply tc_once. by exists raw.
      + unfold map_failure. rewrite E3. exists st3. split; [done|]. split; [done|]. rewrite En3, Eu. lia. }
  rewrite E3. unfold bind. destruct (_ && _); simpl; eexists; (split; [done|]); (split; [done|]); simpl; lia.
Qed.

Lemma resolve_inner_complete field n input stack st v uses secrets : cache_ok st ->
  expansion false n input v uses secrets -> reached_from stack input -> str_len v <= MAX_OUTPUT ->
  0 <= rs_expansions st -> rs_expansions st + Z.of_nat (List.length uses) <= MAX_EXPANSIONS ->
  exists st', resolve_inner field n input stack st = (Ok v, st') /\ cache_ok st' /\
    rs_expansions st' = rs_expansions st + Z.of_nat (List.length uses).
Proof.
  revert input stack st v uses secrets. induction n as [|n IH];
    intros input stack st v uses secrets Hc Hx Hreach Hlen H0 Hexp; cbn [resolve_inner];
    inversion Hx as [? ? Hplain|? ? ? ? ? Hrefs Hxs]; subst.
  1, 2: rewrite Hplain; exists st; simpl; split; [done|]; split; [done|]; lia.
  rewrite Hrefs. cbn [negb].
  apply (scan_complete n input field _ _ input "" st v uses secrets); try done.
  apply reference_value_complete; [|done]. intros. by eapply IH.
Qed.

(** A text that has an expansion resolves to it: resolution fails only
    for want of a value (an undefined, deferred or unavailable variable), for a
    chain of variables longer than the limit (a cycle among them) or for size.
    Texts with dynamic helpers are not covered. *)
Theorem resolve_complete input field st out uses secrets :
  cache_ok st -> expansion false (S MAX_DEPTH) input out uses secrets -> str_len out <= MAX_OUTPUT ->
  0 <= rs_expansions st -> rs_expansions st + Z.of_nat (List.length uses) <= MAX_EXPANSIONS ->
  exists st', resolve_vars input field st = (Ok out, st').
Proof.
  intros Hc Hx Hlen H0 Hexp.
  destruct (resolve_inner_complete field _ _ [] _ _ _ _ Hc Hx ltac:(by intros y e Hy%not_elem_of_nil) Hlen H0 Hexp)
    as (st' & E & _). by exists st'.
Qed.


(** ** Precedence *)

(** A name means the last entry of that name in the innermost layer that
    has one, with that layer's label; a name no layer defines means nothing. *)
Theorem lookup_innermost name :
  match lookup_var name with
  | Some (entry, scope, i, j) => exists layer, rv_layers rv !! i = Some layer /\ vl_label layer = scope /\
      vl_vars layer !! j = Some entry /\ ve_name entry = name /\
      (forall j' w, (j < j')%nat -> vl_vars layer !! j' = Some w -> ve_name w <> name) /\
      (forall i' layer' j' w, (i < i')%nat -> rv_layers rv !! i' = Some layer' ->
        vl_vars layer' !! j' = Some w -> ve_name w <> name)
  | None => forall i layer j w, rv_layers rv !! i = Some layer -> vl_vars layer !! j = Some w -> ve_name w <> name
  end.
Proof.
  unfold lookup_var. pose proof (rfind_layer_spec name 0 (rv_layers rv)) as Hs.
  destruct (rfind_layer name 0 (rv_layers rv)) as [[[[entry scope] i] j]|]; [|done].
  rewrite Nat.sub_0_r in Hs. by destruct Hs as (_ & Hs).
Qed.
End Resolver.

(** * Filtering the variables of a context *)

Lemma retain_entries_spec keep original vars j entry :
  (retain_entries keep original vars).1 !! j = Some entry ->
  exists i, (retain_entries keep original vars).2 !! j = Some (original + i)%nat /\
    vars !! i = Some entry /\ keep entry = true.
Proof.
  revert original j. induction vars as [|v vars IH]; intros original j; simpl; [done|].
  specialize (IH (S original)). destruct (retain_entries keep (S original) vars) as [kept retained]. simpl in IH.
  destruct (keep v) eqn:Ek; simpl.
  - destruct j as [|j]; simpl.
    + intros [= ->]. exists 0%nat. rewrite Nat.add_0_r. done.
    + intros Hj. destruct (IH j Hj) as (i & E & Hi & Hk). exists (S i). rewrite E. split; [f_equal; lia|done].
  - intros Hj. destruct (IH j Hj) as (i & E & Hi & Hk). exists (S i). rewrite E. split; [f_equal; lia|done].
Qed.

Lemma retain_entries_all keep original vars : existsb (fun entry => negb (keep entry)) vars = false ->
  retain_entries keep original vars = (vars, seq original (List.length vars)).
Proof.
  revert original. induction vars as [|v vars IH]; intros original; simpl; [done|].
  intros [Hv Hs]%orb_false_iff. rewrite (IH _ Hs). apply negb_false_iff in Hv. by rewrite Hv.
Qed.

(** Removing variables from a context never rebinds a vault variable:
    every entry that is kept answers to the same vault reference as before,
    under its new index, and every kept entry passed the filter. *)
Theorem retain_variables_binding keep layers secrets i j layer entry :
  let '(layers', secrets') := retain_variables keep layers secrets in
  layers' !! i = Some layer -> vl_vars layer !! j = Some entry ->
  exists original_layer j', layers !! i = Some original_layer /\ vl_label original_layer = vl_label layer /\
    vl_vars original_layer !! j' = Some entry /\ keep entry = true /\
    secrets_variable_secret secrets' i j = secrets_variable_secret secrets i j'.
Proof.
  unfold retain_variables. rewrite list_lookup_fmap. destruct (layers !! i) as [l|] eqn:El; [|done].
  simpl. intros [= <-]. simpl. intros Hj. destruct (retain_entries_spec _ _ _ _ _ Hj) as (i' & E & Hi & Hk).
  exists l, i'. do 4 (split; [done|]). destruct (existsb _ layers) eqn:Ec.
  - simpl. rewrite list_lookup_fmap, El. simpl. by rewrite E.
  - assert (existsb (fun entry => negb (keep entry)) (vl_vars l) = false) as Hl.
    { destruct (existsb (fun entry => negb (keep entry)) (vl_vars l)) eqn:E2; [|done].
      rewrite <- Ec. symmetry. apply existsb_exists. exists l. split; [|done].
      apply list_elem_of_In. by eapply list_elem_of_lookup_2. }
    rewrite (retain_entries_all _ _ _ Hl) in E. simpl in E. apply lookup_seq in E as [-> _]. done.
Qed.

(** * A concrete context *)

Definition plain_var (name value : string) : VarEntry := mkVarEntry name value false false.

(** A workspace with a vault key and an environment that overrides the host. *)
Definition demo_layers : list VarLayer := [
  mkVarLayer "workspace" [plain_var "host" "ws.example"; mkVarEntry "key" DEFERRED_SECRET_VALUE true false;
    plain_var "loop" "x{{pool}}"; plain_var "pool" "{{ loop }}"];
  mkVarLayer "environment:dev" [plain_var "host" "dev.example"; plain_var "url" "https://{{host}}/{{key}}"];
  mkVarLayer "iteration (extracted)" [mkVarEntry "data" "{{host}}" false true]].

Definition demo_key : SecretRef := mkSecretRef (mkId 7) "prod API key".

Definition demo_secrets : SecretResolver := {|
  secrets_resolve := secrets_resolve (MemorySecrets [(mkId 7, "s3cr3t")]);
  secrets_variable_secret layer variable :=
    if bool_decide ((layer, variable) = (0%nat, 1%nat)) then Some demo_key else None;
|}.

Definition demo_world : World :=
  mkWorld (fun _ => "00000000-0000-4000-8000-000000000000") (fun _ => 0) (fun _ => 0) (fun _ => "") (fun _ lo _ => lo).

Definition demo_resolver : Resolver := mkResolver demo_layers (Some demo_secrets) None demo_world.

Lemma new_cache_ok rv : cache_ok rv ResolverState_new.
Proof. apply List.Forall_nil. Qed.

Definition demo_input : string := "GET {{url}} {{ data }} {{$counter}}".

Lemma resolve_expands_witness : exists uses secrets,
  expansion demo_resolver true (S MAX_DEPTH) demo_input "GET https://dev.example/s3cr3t {{host}} 1" uses secrets /\
  secrets = ["s3cr3t"].
Proof.
  destruct (resolve_expands demo_resolver demo_input "url" ResolverState_new
    "GET https://dev.example/s3cr3t {{host}} 1" (resolve_vars demo_resolver demo_input "url" ResolverState_new).2
    (new_cache_ok _) ltac:(by vm_compute)) as (uses & secrets & Hx & _ & Hs & _).
  exists uses, secrets. split; [exact Hx|]. rewrite app_nil_l in Hs. rewrite <- Hs. by vm_compute.
Defined.

Lemma resolve_rejects_cycles_witness : exists failure st',
  resolve_vars demo_resolver "a{{loop}}" "url" ResolverState_new = (Err failure, st').
Proof.
  assert (depends demo_resolver "loop" "pool") as Hlp.
  { exists "x{{pool}}". split; [exists (plain_var "loop" "x{{pool}}"), "workspace", 0%nat, 2%nat|]; by vm_compute; auto. }
  assert (depends demo_resolver "pool" "loop") as Hpl.
  { exists "{{ loop }}". split; [exists (plain_var "pool" "{{ loop }}"), "workspace", 0%nat, 3%nat|]; by vm_compute; auto. }
  apply (resolve_rejects_cycles demo_resolver "a{{loop}}" "url" ResolverState_new "loop" "loop").
  - apply new_cache_ok.
  - vm_compute; auto.
  - by left.
  - eapply tc_l; [exact Hlp|]. by apply tc_once.
Defined.

Lemma resolve_complete_witness : exists st',
  resolve_vars demo_resolver "{{data}}" "body" ResolverState_new = (Ok "{{host}}", st').
Proof.
  apply (resolve_complete demo_resolver "{{data}}" "body" ResolverState_new "{{host}}"
    [("data", "iteration (extracted)")] []).
  - apply new_cache_ok.
  - apply expansion_refs; [done|]. change (tokenize "{{data}}") with [Lit ""; Ref "data"; Lit ""].
    apply (expansions_lit _ _ _ ""). apply (expansions_ref _ _ _ "data" [Lit ""] "{{host}}" "" [("data", "iteration (extracted)")] [] [] []).
    + apply (ref_literal _ _ _ "data" (mkVarEntry "data" "{{host}}" false true) "iteration (extracted)" 2 0);
        try done. by apply lookup_var_innermost.
    + apply (expansions_lit _ _ _ "" [] ""). constructor.
  - by vm_compute.
  - done.
  - by vm_compute.
Defined.

Lemma retain_variables_binding_witness :
  let '(layers', secrets') := retain_variables (fun v => negb (String.eqb (ve_name v) "host")) demo_layers demo_secrets in
  secrets_variable_secret secrets' 0 0 = Some demo_key.
Proof.
  pose proof (retain_variables_binding (fun v => negb (String.eqb (ve_name v) "host")) demo_layers demo_secrets 0 0
    (mkVarLayer "workspace" [mkVarEntry "key" DEFERRED_SECRET_VALUE true false;
      plain_var "loop" "x{{pool}}"; plain_var "pool" "{{ loop }}"])
    (mkVarEntry "key" DEFERRED_SECRET_VALUE true false)) as Hb.
  simpl in Hb. destruct (Hb eq_refl eq_refl) as (l & j' & [= <-] & _ & Hj & _). by vm_compute.
Defined.
