(* ===== verification/LoadModel.v ===== *)
(** Load plans and reports (crates/anvil-domain/src/load.rs): the plan with
    its workload and abort rule, the ledgers of iterations and sends, latency
    summaries, the timeline and the protocol denominators, field for field.
    The report envelope and the generator's health (floating-point rates) are
    not modelled. *)
From S2P Require Import Prelude Settings Evidence.
From stdpp Require Import base list numbers strings option.
From Stdlib Require Import ZArith Lia.
Open Scope Z_scope.

(** * The plan *)

Record Stage := mkStage {
  stg_duration_secs : Z;
  stg_target : Z;
}.

Inductive Workload :=
  | Workload_ClosedVirtualUsers (stages : list Stage) (think_time_ms : Z)
  | Workload_OpenArrivalRate (stages : list Stage) (max_in_flight : Z)
  | Workload_Iterations (iterations : Z) (concurrency : Z).

Inductive ConnectionMode :=
  | ConnectionMode_Persistent
  | ConnectionMode_Fresh.

Record WeightedStep := mkWeightedStep {
  ws_request_id : Id;
  ws_weight : Z;
}.

Record AbortRule := mkAbortRule {
  ab_max_failure_permille : Z;
  ab_window_secs : Z;
}.

Record LoadPlan := mkLoadPlan {
  lp_id : Id;
  lp_workspace_id : Id;
  lp_name : string;
  lp_workload : Workload;
  lp_chain : list Id;
  lp_mix : list WeightedStep;
  lp_dataset_id : option Id;
  lp_environment_id : option Id;
  lp_connection_mode : ConnectionMode;
  lp_warmup_secs : Z;
  lp_abort : option AbortRule;
  lp_seed : Z;
  lp_trusted : bool;
  lp_created_at : DateTime;
  lp_updated_at : DateTime;
}.

(** * Counts, latencies and the timeline *)

Record LatencySummary := mkLatencySummary {
  ls_count : Z;
  ls_min_us : Z;
  ls_max_us : Z;
  ls_mean_us : Z;
  ls_p50_us : Z;
  ls_p90_us : Z;
  ls_p95_us : Z;
  ls_p99_us : Z;
}.

Record LoadCounts := mkLoadCounts {
  lc_scheduled : Z;
  lc_started : Z;
  lc_dropped : Z;
  lc_completed : Z;
  lc_transport_failures : Z;
  lc_application_failures : Z;
  lc_assertion_failures : Z;
  lc_timeouts : Z;
  lc_canceled : Z;
  lc_in_flight_at_end : Z;
}.

Record RequestCounts := mkRequestCounts {
  rc_started : Z;
  rc_completed : Z;
  rc_transport_failures : Z;
  rc_timeouts : Z;
  rc_canceled : Z;
  rc_in_flight_at_end : Z;
  rc_application_failures : Z;
  rc_assertion_failures : Z;
  rc_connections_opened : Z;
  rc_connections_reused : Z;
}.

Record CensoredTimeouts := mkCensoredTimeouts {
  ct_count : Z;
  ct_deadline_ms_min : option Z;
  ct_deadline_ms_max : option Z;
  ct_elapsed_at_timeout : LatencySummary;
  ct_label : string;
}.

Record TimeBucket := mkTimeBucket {
  tb_second : Z;
  tb_started : Z;
  tb_completed : Z;
  tb_failures : Z;
  tb_dropped : Z;
  tb_p50_us : Z;
  tb_p99_us : Z;
  tb_in_flight : Z;
  tb_warmup : bool;
  tb_p99_schedule_lag_us : Z;
}.

Record FailureSample := mkFailureSample {
  fs_category : string;
  fs_count : Z;
  fs_examples : list string;
}.

(** * Units and protocol denominators *)

Inductive LoadUnitKind :=
  | LoadUnitKind_HttpRequest
  | LoadUnitKind_GrpcCall
  | LoadUnitKind_GrpcStream
  | LoadUnitKind_GrpcClientStream
  | LoadUnitKind_GrpcBidiStream
  | LoadUnitKind_SseStream
  | LoadUnitKind_WebsocketSession
  | LoadUnitKind_TcpExchange
  | LoadUnitKind_UdpExchange
  | LoadUnitKind_DtlsExchange.

Record UnitSemantics := mkUnitSemantics {
  us_unit_singular : string;
  us_unit_plural : string;
  us_completed_means : string;
  us_success_means : string;
  us_latency_means : string;
  us_connection_mode_means : string;
}.

Record HttpLoadMetrics := mkHttpLoadMetrics {
  hm_protocol_fallback_attempts : Z;
  hm_units_with_fallback : Z;
  hm_units_over_h3 : Z;
}.

Record GrpcLoadMetrics := mkGrpcLoadMetrics {
  gm_status_codes : list (Z * Z);
  gm_ok : Z;
  gm_non_ok : Z;
  gm_missing_status : Z;
  gm_protocol_fallback_attempts : Z;
}.

Record ClosedCount := mkClosedCount {
  cc_closed_by : ClosedBy;
  cc_code : option Z;
  cc_count : Z;
}.

Record StreamLoadMetrics := mkStreamLoadMetrics {
  stm_opened : Z;
  stm_messages_sent : option Z;
  stm_messages_received : Z;
  stm_with_messages : Z;
  stm_time_to_first_message : LatencySummary;
  stm_ended_by : list ClosedCount;
}.

Record WebSocketLoadMetrics := mkWebSocketLoadMetrics {
  wm_opened : Z;
  wm_handshake_rejected : Z;
  wm_not_opened : Z;
  wm_closed_cleanly : Z;
  wm_messages_sent : Z;
  wm_messages_received : Z;
  wm_rtt_defined : bool;
  wm_rtt_pairs : Z;
  wm_rtt : LatencySummary;
  wm_rtt_unpaired_sessions : Z;
  wm_close_codes : list ClosedCount;
}.

Record TcpLoadMetrics := mkTcpLoadMetrics {
  tm_connected : Z;
  tm_frames_sent : Z;
  tm_frames_received : Z;
  tm_payload_bytes_sent : Z;
  tm_payload_bytes_received : Z;
  tm_partial_frames : Z;
  tm_peer_closes : Z;
  tm_expected_frames : option Z;
  tm_expectation_met : Z;
  tm_expectation_short : Z;
}.

Record HandshakeMetrics := mkHandshakeMetrics {
  hsm_attempted : Z;
  hsm_completed : Z;
  hsm_failed : Z;
  hsm_timed_out : Z;
  hsm_duration : LatencySummary;
}.

Record TunnelLoadMetrics := mkTunnelLoadMetrics {
  tlm_kind : TunnelKind;
  tlm_attempted : Z;
  tlm_established : Z;
  tlm_refused : Z;
  tlm_failed : Z;
  tlm_timed_out : Z;
  tlm_canceled : Z;
  tlm_setup : LatencySummary;
}.

Record DatagramLoadMetrics := mkDatagramLoadMetrics {
  dm_datagrams_sent : Z;
  dm_datagrams_received : Z;
  dm_exchanges_with_response : Z;
  dm_exchanges_silent : Z;
  dm_repeated_payloads : Z;
  dm_echoed_payloads : Z;
  dm_icmp_unreachable_exchanges : Z;
  dm_time_to_first_datagram : LatencySummary;
  dm_dtls_handshakes : option HandshakeMetrics;
  dm_tunnels : option TunnelLoadMetrics;
}.

Record ProtocolLoadMetrics := mkProtocolLoadMetrics {
  plm_version : Z;
  plm_unit : LoadUnitKind;
  plm_semantics : UnitSemantics;
  plm_http : option HttpLoadMetrics;
  plm_grpc : option GrpcLoadMetrics;
  plm_stream : option StreamLoadMetrics;
  plm_websocket : option WebSocketLoadMetrics;
  plm_tcp : option TcpLoadMetrics;
  plm_datagram : option DatagramLoadMetrics;
}.

Inductive RunCompletion :=
  | RunCompletion_Completed
  | RunCompletion_CanceledByUser
  | RunCompletion_AbortedByRule
  | RunCompletion_WorkerCrashed
  | RunCompletion_StoppedByLock.

(** * Defaults *)

Definition LatencySummary_default : LatencySummary := mkLatencySummary 0 0 0 0 0 0 0 0.
Definition LoadCounts_default : LoadCounts := mkLoadCounts 0 0 0 0 0 0 0 0 0 0.
Definition RequestCounts_default : RequestCounts := mkRequestCounts 0 0 0 0 0 0 0 0 0 0.

(** Version of [ProtocolLoadMetrics]. *)
Definition PROTOCOL_METRICS_VERSION : Z := 1.

#[export] Instance LoadUnitKind_eq_dec : EqDecision LoadUnitKind.
Proof. solve_decision. Defined.
#[export] Instance ConnectionMode_eq_dec : EqDecision ConnectionMode.
Proof. solve_decision. Defined.
