(* ===== verification/Units.v ===== *)
(** The load units of crates/anvil-load/src/protocol.rs: what one plan step
    produces ([StepUnit]), the refusals, the labels and the published
    definitions of every unit kind. The classification of a request context,
    which resolves its URL and proxy route, is not modelled yet. *)
From S2P Require Import Prelude Text Settings Evidence Request LoadModel.
From stdpp Require Import base list numbers strings option.
From Stdlib Require Import ZArith Lia.
Open Scope Z_scope.

(** Why a plan cannot be load tested. *)
Inductive RefusalCode :=
  | RefusalCode_MixedUnitKinds
  | RefusalCode_MixedTunnels
  | RefusalCode_GrpcReflection
  | RefusalCode_GrpcUnsupportedCombination
  | RefusalCode_MasqueThroughProxy
  | RefusalCode_SseReconnect
  | RefusalCode_HbonePersistent
  | RefusalCode_EarlyData
  | RefusalCode_IncompleteRequest
  | RefusalCode_McpUnsupported.

Record Refusal := mkRefusal {
  ref_code : RefusalCode;
  ref_request_id : option Id;
  ref_message : string;
}.

Record StepUnit := mkStepUnit {
  su_kind : LoadUnitKind;
  su_tcp_expect_frames : option Z;
  su_ws_expect_messages : Z;
  su_application_from_body : bool;
  su_tunnel : option TunnelKind;
}.

(** [StepUnit::of]. *)
Definition StepUnit_of (kind : LoadUnitKind) : StepUnit := mkStepUnit kind None 0 false None.

Definition label (kind : LoadUnitKind) : string :=
  match kind with
  | LoadUnitKind_HttpRequest => "HTTP requests"
  | LoadUnitKind_GrpcCall => "unary gRPC calls"
  | LoadUnitKind_GrpcStream => "server-streaming gRPC streams"
  | LoadUnitKind_GrpcClientStream => "client-streaming gRPC calls"
  | LoadUnitKind_GrpcBidiStream => "bidirectional gRPC streams"
  | LoadUnitKind_SseStream => "SSE streams"
  | LoadUnitKind_WebsocketSession => "WebSocket sessions"
  | LoadUnitKind_TcpExchange => "TCP/TLS exchanges"
  | LoadUnitKind_UdpExchange => "UDP exchanges"
  | LoadUnitKind_DtlsExchange => "DTLS exchanges"
  end.

(** The schemes a request of the protocol is sent with, its default first. *)
Definition send_schemes (protocol : Protocol) : list string :=
  match protocol with
  | Protocol_Http | Protocol_Sse | Protocol_Mcp => ["https"; "http"]
  | Protocol_WebSocket => ["wss"; "ws"]
  | Protocol_Grpc => ["grpcs"; "grpc"; "https"; "http"]
  | Protocol_Tcp => ["tcp"; "tls"]
  | Protocol_Udp => ["udp"; "dtls"]
  end.

Definition grpc_unit (mode : GrpcMode) : LoadUnitKind :=
  match mode with
  | GrpcMode_Unary => LoadUnitKind_GrpcCall
  | GrpcMode_ServerStreaming => LoadUnitKind_GrpcStream
  | GrpcMode_ClientStreaming => LoadUnitKind_GrpcClientStream
  | GrpcMode_Bidirectional => LoadUnitKind_GrpcBidiStream
  end.

Definition path_label (t : option TunnelKind) : string :=
  match t with
  | None => "direct datagrams"
  | Some TunnelKind_ConnectUdp => "a MASQUE (CONNECT-UDP) tunnel"
  | Some TunnelKind_Hbone => "an HBONE datagram tunnel"
  end.

(** Whether the plan's connection mode changes how units connect. *)
Definition connection_mode_applies (kind : LoadUnitKind) : bool :=
  match kind with
  | LoadUnitKind_HttpRequest | LoadUnitKind_GrpcCall | LoadUnitKind_GrpcStream
  | LoadUnitKind_GrpcClientStream | LoadUnitKind_GrpcBidiStream => true
  | _ => false
  end.

(** The closure [own_connection] of [semantics]. *)
Definition own_connection (what : string) : string :=
  "Each " +:+ what +:+ " opens its own connection; the plan's connection mode does not apply to it.".

(** The definitions reported with every run of this unit kind. *)
Definition semantics (kind : LoadUnitKind) (mode : ConnectionMode) : UnitSemantics :=
  let persistent := bool_decide (mode = ConnectionMode_Persistent) in
  let grpc_conn := if persistent
    then "Persistent: each virtual user reuses one pooled channel per destination — a multiplexed HTTP/2 or HTTP/3 connection (HTTP/1.1 for gRPC-Web over HTTP/1.1, one call at a time). A channel the peer closed is replaced by a new connection."
    else "Fresh: every call opens its own connection (and TLS or QUIC handshake)." in
  match kind with
  | LoadUnitKind_HttpRequest => mkUnitSemantics
      "request"
      "requests"
      "A complete HTTP response was received (any status). Redirects, retries and an HTTP/3 → TCP fallback are attempts inside the request, not extra requests."
      "Completed with an application success (status below 400; for SOAP and GraphQL, no fault or error in the complete response body) and every assertion passing."
      "Sum of the request's attempt durations (connect … last body byte), fallback attempts included."
      (if persistent
       then "Persistent: each virtual user keeps pooled connections (HTTP/1.1 keep-alive, one multiplexed HTTP/2 or HTTP/3 connection per origin)."
       else "Fresh: every request opens a new connection (and TLS or QUIC handshake).")
  | LoadUnitKind_GrpcCall => mkUnitSemantics
      "call"
      "calls"
      "A terminal grpc-status arrived with complete framing (any code). A call that got a response but no status is incomplete, never completed."
      "Completed with grpc-status 0 (OK) and every assertion passing. HTTP 200 alone is never a success."
      "Sum of the call's attempt durations (connection or channel checkout … terminal status)."
      grpc_conn
  | LoadUnitKind_GrpcStream => mkUnitSemantics
      "stream"
      "streams"
      "The server ended the stream with a terminal grpc-status and complete framing (any code)."
      "Completed with grpc-status 0 (OK) and every assertion passing."
      "Stream duration: call start … terminal status, connection setup included. Time to first message is reported separately."
      grpc_conn
  | LoadUnitKind_GrpcClientStream => mkUnitSemantics
      "call"
      "calls"
      "The request's scripted messages were sent, the client stream was half-closed, and the server answered with a terminal grpc-status and complete framing (any code)."
      "Completed with grpc-status 0 (OK) and every assertion passing."
      "Call duration: call start … terminal status, connection setup and sending the scripted messages included. Time to the response message is reported separately."
      grpc_conn
  | LoadUnitKind_GrpcBidiStream => mkUnitSemantics
      "stream"
      "streams"
      "The request's scripted messages were sent and the client stream was half-closed, and the server ended the stream with a terminal grpc-status and complete framing (any code)."
      "Completed with grpc-status 0 (OK) and every assertion passing."
      "Stream duration: call start … terminal status, connection setup included. Time to first message is reported separately; no round trip is claimed, because a server message is not paired with a sent one."
      grpc_conn
  | LoadUnitKind_SseStream => mkUnitSemantics
      "stream"
      "streams"
      "The response arrived and the stream ended without a failure: the server ended it, or a stop condition of the request was reached (max_events, idle timeout). An error status completes as an application failure."
      "Completed as a 2xx event stream with every assertion passing."
      "Stream duration: request start … end of the stream, connection setup included. Time to first event is reported separately."
      (own_connection "stream")
  | LoadUnitKind_WebsocketSession => mkUnitSemantics
      "session"
      "sessions"
      "The handshake was answered and the session ended without a failure: a close handshake by either side, the request's expect_messages, or its idle close. A rejected handshake completes as an application failure."
      "Completed with an accepted handshake, a normal close (1000, 1001 or none) and every assertion passing."
      "Session duration: connect … close. Round-trip times are reported separately, and only when the request defines expect_messages."
      (own_connection "session")
  | LoadUnitKind_TcpExchange => mkUnitSemantics
      "exchange"
      "exchanges"
      "The connection was set up, the request's frames were sent and reading stopped on a stop condition (expected frames, max bytes, read-idle or the peer's close) without a failure."
      "Completed, the expected frames arrived (when the request sets expect_frames with a framing preset) and every assertion passed. Fewer frames count as an application failure."
      "Exchange duration: connect … end of reading. It includes the read-idle wait when the exchange ends on idle."
      (own_connection "exchange")
  | LoadUnitKind_UdpExchange | LoadUnitKind_DtlsExchange =>
      let dtls := bool_decide (kind = LoadUnitKind_DtlsExchange) in
      mkUnitSemantics
      "exchange"
      "exchanges"
      (if dtls
       then "The DTLS handshake completed, the request's datagrams were sent and the response window elapsed (or max_datagrams arrived) without a local failure. Completion says nothing about delivery."
       else "The request's datagrams were sent and the response window elapsed (or max_datagrams arrived) without a local failure. Completion says nothing about delivery.")
      "Completed with at least one datagram received and every assertion passing. A completed exchange with nothing received is 'no response observed': neither a success nor a failure."
      "Time to first response: first datagram sent → first datagram received in the same exchange. It is not attributed to a specific datagram; exchanges without a response have none."
      (if dtls
       then "Each exchange uses its own socket and DTLS handshake; the plan's connection mode does not apply to it."
       else "Each exchange uses its own socket; the plan's connection mode does not apply to it.")
  end.

(** [semantics] for a classified plan. *)
Definition plan_semantics (kind : LoadUnitKind) (mode : ConnectionMode) (steps : list StepUnit)
    : UnitSemantics :=
  let s := semantics kind mode in
  match head steps ≫= su_tunnel with
  | None => s
  | Some t =>
      let '(what, how) := match t with
        | TunnelKind_ConnectUdp => ("MASQUE (CONNECT-UDP) tunnel", "a QUIC connection to the proxy and an extended CONNECT")
        | TunnelKind_Hbone => ("HBONE datagram tunnel", "an mTLS connection to the mesh endpoint and an HTTP/2 CONNECT")
        end in
      mkUnitSemantics (us_unit_singular s) (us_unit_plural s)
        (us_completed_means s +:+
          " A tunnel that does not open (refused by the proxy, or failed) leaves the exchange incomplete: a transport failure, never an exchange with no response observed.")
        (us_success_means s) (us_latency_means s)
        ("Each exchange opens its own " +:+ what +:+ " (" +:+ how +:+ ")" +:+
          (if bool_decide (kind = LoadUnitKind_DtlsExchange)
           then " and runs its DTLS handshake inside it" else "") +:+
          ", never pooled; the plan's connection mode does not apply to it. Tunnel setup is counted separately and is not part of the time to first response.")
  end.

(** [unit_of_spec]. *)
Definition unit_of_spec (spec : RequestSpec) : LoadUnitKind :=
  match rq_protocol spec with
  | Protocol_Http | Protocol_Mcp => LoadUnitKind_HttpRequest
  | Protocol_Grpc => grpc_unit (from_option gr_mode GrpcMode_default (rq_grpc spec))
  | Protocol_Sse => LoadUnitKind_SseStream
  | Protocol_WebSocket => LoadUnitKind_WebsocketSession
  | Protocol_Tcp => LoadUnitKind_TcpExchange
  | Protocol_Udp =>
      if from_option udp_dtls false (rq_udp spec) ||
         starts_with (to_ascii_lowercase (trim (rq_url spec))) "dtls://"
      then LoadUnitKind_DtlsExchange
      else LoadUnitKind_UdpExchange
  end.

(** The connection mode changes the published definition of a unit
    exactly for the kinds the mode applies to. *)
Theorem semantics_mode_applies kind :
  us_connection_mode_means (semantics kind ConnectionMode_Persistent) <>
  us_connection_mode_means (semantics kind ConnectionMode_Fresh) <->
  connection_mode_applies kind = true.
Proof. destruct kind; vm_compute; split; intros H; try reflexivity; try discriminate; by destruct H. Qed.
