(* ===== verification/Observe.v ===== *)
(** What the load engine keeps of one send (crates/anvil-load/src/metrics.rs):
    [observe] classifies an execution into its terminal class, its application
    and assertion state, its latency and the protocol facts of its unit, from
    the engine's typed record and the adapter's session facts
    (crates/anvil-engine/src/lib.rs [ExecutionOutput],
    crates/anvil-transport/src/session.rs [SessionFacts]).

    URL parsing is the third-party crate [url]: the parameter [url_parse]
    gives the scheme, the host and the port ([port_or_known_default]). *)
From S2P Require Import Prelude OrdMap Text Settings Evidence Request LoadModel Units.
From stdpp Require Import base list numbers strings option pretty.
From Stdlib Require Import ZArith Lia Ascii.
Open Scope Z_scope.

(** * The engine's output *)

Record ReflectionOutcome := mkReflectionOutcome {
  ro_service : string;
  ro_http_status : option Z;
  ro_grpc_status : option Z;
  ro_grpc_message : option string;
  ro_succeeded : bool;
  ro_problem : option string;
  ro_auth_failed : bool;
}.

Record GrpcWebFacts := mkGrpcWebFacts {
  gw_response_content_type : option string;
  gw_text : bool;
  gw_trailer_frame : bool;
  gw_body_complete : bool;
  gw_status_in_http_trailers : bool;
}.

Record SessionFacts := mkSessionFacts {
  sf_notes : list string;
  sf_subprotocol : option string;
  sf_grpc_reflection : option ReflectionOutcome;
  sf_grpc_status_details : option string;
  sf_grpc_web : option GrpcWebFacts;
  sf_grpc_framing_error : option string;
  sf_repeated_datagrams : Z;
  sf_echoed_datagrams : Z;
  sf_icmp_port_unreachable : bool;
}.

Record ResponseMetadata := mkResponseMetadata {
  rm_content_type : option string;
  rm_has_content_coding : bool;
}.

Record ExecutionOutput := mkExecutionOutput {
  eo_response_metadata : option ResponseMetadata;
  eo_record : ExecutionRecord;
  eo_body : string;
  eo_decoded_body : option string;
  eo_extracted : list (string * string * bool);
  eo_session_facts : option SessionFacts;
}.

(** * Observations *)

Inductive Terminal :=
  | Terminal_Completed
  | Terminal_TransportFailure
  | Terminal_Timeout
  | Terminal_Canceled.

Record WsObs := mkWsObs {
  wo_opened : bool;
  wo_rejected : bool;
  wo_close : option (ClosedBy * option Z);
  wo_sent : Z;
  wo_received : Z;
  wo_rtts : list Z;
  wo_unpaired : bool;
}.

Record TcpObs := mkTcpObs {
  tc_connected : bool;
  tc_frames_sent : Z;
  tc_frames_received : Z;
  tc_bytes_sent : Z;
  tc_bytes_received : Z;
  tc_partial : bool;
  tc_peer_close : bool;
  tc_expectation : option bool;
}.

Inductive TunnelEnd :=
  | TunnelEnd_Established (setup_us : Z)
  | TunnelEnd_Refused
  | TunnelEnd_Failed
  | TunnelEnd_TimedOut
  | TunnelEnd_Canceled.

Record TunnelObs := mkTunnelObs {
  tu_end : TunnelEnd;
}.

Record DgramObs := mkDgramObs {
  dg_sent : Z;
  dg_received : Z;
  dg_repeated : Z;
  dg_echoed : Z;
  dg_icmp : bool;
  dg_ttfr_us : option Z;
  dg_handshake : option (PhaseStatus * (option Z));
  dg_tunnel : option TunnelObs;
}.

Record ProtoObs := mkProtoObs {
  po_fallback_attempts : Z;
  po_final_h3 : bool;
  po_grpc_status : option Z;
  po_grpc_missing_status : bool;
  po_stream_opened : bool;
  po_messages_sent : Z;
  po_messages_received : Z;
  po_first_message_us : option Z;
  po_stream_end : option ClosedBy;
  po_ws : option WsObs;
  po_tcp : option TcpObs;
  po_dgram : option DgramObs;
}.

#[export] Instance eta_ProtoObs : Eta ProtoObs := fun r =>
  mkProtoObs (po_fallback_attempts r) (po_final_h3 r) (po_grpc_status r)
    (po_grpc_missing_status r) (po_stream_opened r) (po_messages_sent r)
    (po_messages_received r) (po_first_message_us r) (po_stream_end r) (po_ws r) (po_tcp r)
    (po_dgram r).

Record SendObservation := mkSendObservation {
  ob_terminal : Terminal;
  ob_application_failure : bool;
  ob_assertion_failure : bool;
  ob_no_response : bool;
  ob_latency_us : Z;
  ob_setup_us : Z;
  ob_deadline_ms : option Z;
  ob_status : option Z;
  ob_bytes_sent : Z;
  ob_bytes_received : Z;
  ob_connections_opened : Z;
  ob_connections_reused : Z;
  ob_protocol : option string;
  ob_category : option string;
  ob_example : option string;
  ob_destination : option string;
  ob_proto : ProtoObs;
}.

#[export] Instance eta_SendObservation : Eta SendObservation := fun r =>
  mkSendObservation (ob_terminal r) (ob_application_failure r) (ob_assertion_failure r)
    (ob_no_response r) (ob_latency_us r) (ob_setup_us r) (ob_deadline_ms r) (ob_status r)
    (ob_bytes_sent r) (ob_bytes_received r) (ob_connections_opened r)
    (ob_connections_reused r) (ob_protocol r) (ob_category r) (ob_example r)
    (ob_destination r) (ob_proto r).

#[export] Instance Terminal_eq_dec : EqDecision Terminal.
Proof. solve_decision. Defined.
#[export] Instance TunnelEnd_eq_dec : EqDecision TunnelEnd.
Proof. solve_decision. Defined.

(** The derived defaults. *)
Definition WsObs_default : WsObs := mkWsObs false false None 0 0 [] false.
Definition ProtoObs_default : ProtoObs :=
  mkProtoObs 0 false None false false 0 0 None None None None None.

(** [SendObservation::default]. *)
Definition SendObservation_default : SendObservation := {|
  ob_terminal := Terminal_Completed;
  ob_application_failure := false;
  ob_assertion_failure := false;
  ob_no_response := false;
  ob_latency_us := 0;
  ob_setup_us := 0;
  ob_deadline_ms := None;
  ob_status := None;
  ob_bytes_sent := 0;
  ob_bytes_received := 0;
  ob_connections_opened := 0;
  ob_connections_reused := 0;
  ob_protocol := None;
  ob_category := None;
  ob_example := None;
  ob_destination := None;
  ob_proto := ProtoObs_default;
|}.

(** [SendObservation::is_success]. *)
Definition is_success (o : SendObservation) : bool :=
  bool_decide (ob_terminal o = Terminal_Completed) &&
  negb (ob_application_failure o) && negb (ob_assertion_failure o) && negb (ob_no_response o).

(** [SendObservation::is_failure]. *)
Definition is_failure (o : SendObservation) : bool :=
  match ob_terminal o with
  | Terminal_Completed => ob_application_failure o || ob_assertion_failure o
  | Terminal_TransportFailure | Terminal_Timeout => true
  | Terminal_Canceled => false
  end.

Definition is_timeout (kind : FailureKind) : bool :=
  match kind with
  | FailureKind_TotalTimeout
  | FailureKind_ResponseHeadersTimeout
  | FailureKind_RequestWriteTimeout
  | FailureKind_BodyIdleTimeout
  | FailureKind_ConnectTimeout
  | FailureKind_TlsHandshakeTimeout
  | FailureKind_DnsTimeout
  | FailureKind_QuicHandshakeTimeout
  | FailureKind_QuicIdleTimeout
  | FailureKind_DtlsHandshakeTimeout => true
  | _ => false
  end.

(** [truncate_chars]: at most [max] characters, with an ellipsis when cut. *)
Definition truncate_chars (s : string) (max : nat) : string :=
  match before_char max s with
  | Some t => t +:+ "…"
  | None => s
  end.

Definition MAX_EXAMPLE_CHARS : nat := 400.

(** What [url::Url::parse] finds in a URL. *)
Record ParsedUrl := mkParsedUrl {
  url_scheme : string;
  url_host : option string;
  url_port : option Z;
}.

(** * Classification *)

(** [not_determined_from_body]. *)
Definition not_determined_from_body (rec : ExecutionRecord) (step : StepUnit) : bool :=
  su_application_from_body step &&
  bool_decide (oc_application (rec_outcome rec) = ApplicationState_NotEvaluated).

Definition last_failure (rec : ExecutionRecord) : option TransportFailure :=
  last (rec_attempts rec) ≫= att_failure.

Definition last_protocol (rec : ExecutionRecord) : option string :=
  a ← last (rec_attempts rec); c ← att_connection a; co_protocol c.

(** The terminal class of [observe_record]. *)
Definition terminal_of (rec : ExecutionRecord) : Terminal :=
  match oc_transport (rec_outcome rec) with
  | TransportState_Completed => Terminal_Completed
  | TransportState_Canceled => Terminal_Canceled
  | _ =>
      match last_failure rec with
      | Some f =>
          if bool_decide (tf_kind f = FailureKind_Canceled) then Terminal_Canceled
          else if is_timeout (tf_kind f) then Terminal_Timeout
          else Terminal_TransportFailure
      | None => Terminal_TransportFailure
      end
  end.

(** One round of the loop of [observe_record] over the attempts. *)
Definition observe_attempt (obs : SendObservation) (a : AttemptObservation) : SendObservation :=
  let b := att_bytes a in
  let obs := obs
    <| ob_bytes_sent ::= (fun n => n ⊞ (bc_request_headers_logical b ⊞ bc_request_body b)) |>
    <| ob_bytes_received ::= (fun n =>
         n ⊞ (default 0 (bc_response_headers_logical b) ⊞ default 0 (bc_response_body_wire b))) |> in
  match att_connection a with
  | None => obs
  | Some c =>
      if co_reused c then obs <| ob_connections_reused ::= (fun n => n ⊞ 1) |>
      else obs <| ob_connections_opened ::= (fun n => n ⊞ 1) |>
  end.

(** [first_offset]: when the first message of the direction and kinds was
    seen. *)
Definition first_offset (rec : ExecutionRecord) (dir : Direction) (kinds : list string) : option Z :=
  t ← rec_stream rec;
  sm_offset_us <$> List.find
    (fun m => bool_decide (sm_direction m = dir) && bool_decide (sm_kind m ∈ kinds))
    (str_messages t).

(** Data message offsets of one direction of a WebSocket session. *)
Definition data_offsets (t : StreamTranscript) (d : Direction) : list Z :=
  map sm_offset_us (List.filter
    (fun m => bool_decide (sm_direction m = d) && bool_decide (sm_kind m ∈ ["text"; "binary"]))
    (str_messages t)).

(** The pairing loop of a WebSocket session: (unpaired, round trips). *)
Fixpoint pair_rtts (n : nat) (sent_at recv_at rtts : list Z) : bool * list Z :=
  match n, sent_at, recv_at with
  | S n', s :: sent_at', r :: recv_at' =>
      if r <? s then (true, [])
      else pair_rtts n' sent_at' recv_at' (rtts ++ [r - s])
  | _, _, _ => (false, rtts)
  end.

(** [tunnel_obs]. *)
Definition tunnel_obs (rec : ExecutionRecord) (terminal : Terminal) : option TunnelObs :=
  a ← last (rec_attempts rec);
  let attempted := existsb (fun ph =>
    negb (bool_decide (pt_phase ph = Phase_Prepare)) &&
    negb (bool_decide (pt_status ph = PhaseStatus_NotApplicable))) (att_phases a) in
  if negb attempted then None else
  let connect_status :=
    match (c ← att_connection a; t ← co_tunnel c; tun_connect_status t) with
    | Some s => Some s
    | None =>
        match oc_protocol_status (rec_outcome rec) with
        | ProtocolStatus_Udp _ _ _ (Some m) => mt_connect_status m
        | _ => None
        end
    end in
  let refused := from_option (fun c => negb ((200 <=? c) && (c <? 300))) false connect_status in
  let not_open (timed_out : bool) :=
    if refused then TunnelEnd_Refused
    else if timed_out || bool_decide (terminal = Terminal_Timeout) then TunnelEnd_TimedOut
    else if bool_decide (terminal = Terminal_Canceled) then TunnelEnd_Canceled
    else TunnelEnd_Failed in
  Some (mkTunnelObs
    match att_phase a Phase_ProxyTunnel, att_phase a Phase_Session with
    | Some t, _ =>
        match pt_status t with
        | PhaseStatus_Completed => TunnelEnd_Established (default 0 (pt_end_us t))
        | PhaseStatus_TimedOut => not_open true
        | _ => not_open false
        end
    | None, Some session => TunnelEnd_Established (default 0 (pt_start_us session))
    | None, None => not_open false
    end).

Definition is_fallback (a : AttemptObservation) : bool :=
  match att_reason a with AttemptReason_ProtocolFallback _ => true | _ => false end.

(** The WebSocket arm of [protocol_obs]. *)
Definition ws_obs (rec : ExecutionRecord) (step : StepUnit) : WsObs :=
  let tr := rec_stream rec in
  let '(handshake, code, by_) :=
    match oc_protocol_status (rec_outcome rec) with
    | ProtocolStatus_WebSocket handshake_status close_code _ closed_by _ =>
        (handshake_status, close_code, closed_by)
    | _ => (None, None, ClosedBy_NotClosed)
    end in
  let opened := if tr is Some _ then true else false in
  let '(unpaired, rtts) :=
    match tr with
    | Some t =>
        if 0 <? su_ws_expect_messages step then
          if 0 <? str_dropped_messages t then (true, [])
          else pair_rtts (Z.to_nat (su_ws_expect_messages step))
                 (data_offsets t Direction_Sent) (data_offsets t Direction_Received) []
        else (false, [])
    | None => (false, [])
    end in
  {| wo_opened := opened;
     wo_rejected := negb opened &&
       from_option (fun s => negb (s =? 101) && negb (s =? 200)) false handshake;
     wo_close := if opened then Some (by_, code) else None;
     wo_sent := from_option str_sent_count 0 tr;
     wo_received := from_option str_received_count 0 tr;
     wo_rtts := rtts;
     wo_unpaired := unpaired |}.

(** The TCP arm of [protocol_obs]. *)
Definition tcp_obs (rec : ExecutionRecord) (step : StepUnit) (terminal : Terminal) : TcpObs :=
  let tr := rec_stream rec in
  let '(bytes_sent, bytes_received, by_) :=
    match oc_protocol_status (rec_outcome rec) with
    | ProtocolStatus_Tcp bytes_sent bytes_received _ closed_by => (bytes_sent, bytes_received, closed_by)
    | _ => (0, 0, ClosedBy_NotClosed)
    end in
  let connected := if tr is Some _ then true else false in
  let frames_received := from_option str_received_count 0 tr in
  {| tc_connected := connected;
     tc_frames_sent := from_option str_sent_count 0 tr;
     tc_frames_received := frames_received;
     tc_bytes_sent := bytes_sent;
     tc_bytes_received := bytes_received;
     tc_partial := from_option (fun t =>
       existsb (fun m => String.eqb (sm_kind m) "partial_frame") (str_messages t)) false tr;
     tc_peer_close := connected && bool_decide (by_ = ClosedBy_Peer);
     tc_expectation :=
       match su_tcp_expect_frames step with
       | Some n =>
           if bool_decide (terminal = Terminal_Completed) then Some (n <=? frames_received) else None
       | None => None
       end |}.

(** The UDP/DTLS arm of [protocol_obs]. *)
Definition dgram_obs (out : ExecutionOutput) (step : StepUnit) (terminal : Terminal) : DgramObs :=
  let rec := eo_record out in
  let '(sent, received) :=
    match oc_protocol_status (rec_outcome rec) with
    | ProtocolStatus_Udp datagrams_sent datagrams_received _ _ => (datagrams_sent, datagrams_received)
    | _ => (0, 0)
    end in
  let facts := eo_session_facts out in
  {| dg_sent := sent;
     dg_received := received;
     dg_repeated := from_option sf_repeated_datagrams 0 facts;
     dg_echoed := from_option sf_echoed_datagrams 0 facts;
     dg_icmp := from_option sf_icmp_port_unreachable false facts;
     dg_ttfr_us :=
       match first_offset rec Direction_Sent ["datagram"],
             first_offset rec Direction_Received ["datagram"] with
       | Some s, Some r => Some (sat_sub64 r s)
       | _, _ => None
       end;
     dg_handshake :=
       if bool_decide (su_kind step = LoadUnitKind_DtlsExchange) then
         a ← last (rec_attempts rec); ph ← att_phase a Phase_DtlsHandshake;
         Some (pt_status ph, duration_us ph)
       else None;
     dg_tunnel := _ ← su_tunnel step; tunnel_obs rec terminal |}.

(** [protocol_obs]: the protocol facts of one unit. *)
Definition protocol_obs (out : ExecutionOutput) (step : StepUnit) (terminal : Terminal) : ProtoObs :=
  let rec := eo_record out in
  let tr := rec_stream rec in
  let status := oc_protocol_status (rec_outcome rec) in
  let p := ProtoObs_default
    <| po_fallback_attempts := Z.of_nat (length (List.filter is_fallback (rec_attempts rec))) |>
    <| po_final_h3 := bool_decide (last_protocol rec = Some "h3") |> in
  match su_kind step with
  | LoadUnitKind_HttpRequest => p
  | LoadUnitKind_GrpcCall | LoadUnitKind_GrpcStream
  | LoadUnitKind_GrpcClientStream | LoadUnitKind_GrpcBidiStream =>
      let p := match status with
        | ProtocolStatus_Grpc http_status grpc_status _ source => p
            <| po_grpc_status := grpc_status |>
            <| po_grpc_missing_status :=
                 bool_decide (source = GrpcStatusSource_Missing) &&
                 (if http_status is Some _ then true else false) &&
                 negb (bool_decide (terminal = Terminal_Canceled)) |>
            <| po_stream_opened := bool_decide (http_status = Some 200) |>
        | _ => p
        end in
      let prior := sum64 (map att_duration_us (tail (rev (rec_attempts rec)))) in
      p <| po_messages_received := from_option str_received_count 0 tr |>
        <| po_messages_sent := from_option str_sent_count 0 tr |>
        <| po_first_message_us :=
             (fun o => o ⊞ prior) <$> first_offset rec Direction_Received ["grpc_message"] |>
  | LoadUnitKind_SseStream =>
      let opened := if tr is Some _ then true else false in
      let p := p <| po_stream_opened := opened |> in
      let p := match status with
        | ProtocolStatus_Sse _ events closed_by =>
            let p := p <| po_messages_received := events |> in
            if opened then p <| po_stream_end := Some closed_by |> else p
        | _ => p
        end in
      p <| po_first_message_us := first_offset rec Direction_Received ["event"] |>
  | LoadUnitKind_WebsocketSession => p <| po_ws := Some (ws_obs rec step) |>
  | LoadUnitKind_TcpExchange => p <| po_tcp := Some (tcp_obs rec step terminal) |>
  | LoadUnitKind_UdpExchange | LoadUnitKind_DtlsExchange =>
      p <| po_dgram := Some (dgram_obs out step terminal) |>
  end.

(** [serde_json] name of a failure kind, as [snake] reads it. *)
Definition snake (k : FailureKind) : string := FailureKind_serde k.

(** [Iterator::max_by_key]: the last of the greatest. *)
Definition max_by_severity (fs : list DiagnosticFinding) : option DiagnosticFinding :=
  let rank f := match df_severity f with
    | Severity_Info => 0 | Severity_Warning => 1 | Severity_Error => 2 end in
  fold_left (fun best f =>
    match best with
    | Some b => if rank b <=? rank f then Some f else best
    | None => Some f
    end) fs None.

Definition at_least_warning (f : DiagnosticFinding) : bool :=
  match df_severity f with Severity_Info => false | _ => true end.

(** [find(|r| !r.passed)]. *)
Definition first_failed_assertion (rec : ExecutionRecord) : option AssertionResult :=
  List.find (fun r => negb (ar_passed r)) (rec_assertion_results rec).

Definition expectation_short (p : ProtoObs) : bool :=
  bool_decide ((po_tcp p ≫= tc_expectation) = Some false).

(** [describe_failure]: the category and one bounded example of a failure. *)
Definition describe_failure (obs : SendObservation) (rec : ExecutionRecord) (step : StepUnit)
    : SendObservation :=
  let terminal := ob_terminal obs in
  let application_failure := ob_application_failure obs in
  let assertion_failure := ob_assertion_failure obs in
  let short := expectation_short (ob_proto obs) in
  let top := df_code <$>
    match max_by_severity (List.filter at_least_warning (rec_findings rec)) with
    | Some f => Some f
    | None => head (rec_findings rec)
    end in
  let kind := snake ∘ tf_kind <$> last_failure rec in
  let class :=
    match terminal with
    | Terminal_Timeout => "timeout"
    | Terminal_TransportFailure => "transport_failure"
    | _ => if application_failure then "application_failure" else "assertion_failure"
    end in
  let completed := bool_decide (terminal = Terminal_Completed) in
  let detail :=
    if bool_decide (terminal = Terminal_Timeout) then default "deadline" kind
    else if completed && short then "tcp.expected_frames_not_received"
    else if completed && not_determined_from_body rec step then
      default "application.not_determined_from_body" top
    else if assertion_failure && negb application_failure then
      match ar_label <$> first_failed_assertion rec with
      | Some l => if str_is_empty l then "assertion" else l
      | None => "assertion"
      end
    else
      match top, kind, ob_status obs with
      | Some t, _, _ => t
      | None, Some k, _ => k
      | None, None, Some s => "http_" +:+ pretty s
      | None, None, None => "unknown"
      end in
  let example :=
    pr_method (rec_prepared rec) +:+ " " +:+ pr_url (rec_prepared rec) +:+ " → " +:+
    oc_summary (rec_outcome rec) in
  let example := match last_failure rec with
    | Some f =>
        if completed then example
        else example +:+ " [" +:+ snake (tf_kind f) +:+ ": " +:+ tf_message f +:+ "]"
    | None => example
    end in
  let example := match po_tcp (ob_proto obs) with
    | Some t =>
        if short then
          example +:+ " [expected " +:+ pretty (default 0 (su_tcp_expect_frames step)) +:+
          " frame(s), received " +:+ pretty (tc_frames_received t) +:+ "]"
        else example
    | None => example
    end in
  let example := match first_failed_assertion rec with
    | Some r =>
        if assertion_failure then example +:+ " [assertion: " +:+ ar_message r +:+ "]"
        else example
    | None => example
    end in
  obs <| ob_category := Some (truncate_chars (class +:+ ": " +:+ detail) 120) |>
      <| ob_example := Some (truncate_chars example MAX_EXAMPLE_CHARS) |>.

Section Observe.
Variable url_parse : string -> option ParsedUrl.

(** [origin]: [scheme://host:port] of a redacted URL. *)
Definition origin (url : string) : option string :=
  u ← url_parse url; host ← url_host u;
  Some match url_port u with
  | Some p => url_scheme u +:+ "://" +:+ host +:+ ":" +:+ pretty p
  | None => url_scheme u +:+ "://" +:+ host
  end.

(** [observe_record]: the unit-independent part of [observe]. *)
Definition observe_record (rec : ExecutionRecord) (wall_us : Z) : SendObservation :=
  let terminal := terminal_of rec in
  let completed := bool_decide (terminal = Terminal_Completed) in
  let latency_us := default 0 (exchange_duration_us (rec_attempts rec)) in
  let obs := {|
    ob_terminal := terminal;
    ob_application_failure :=
      completed && bool_decide (oc_application (rec_outcome rec) = ApplicationState_Failure);
    ob_assertion_failure :=
      completed && bool_decide (oc_assertions (rec_outcome rec) = AssertionState_Fail);
    ob_no_response := false;
    ob_latency_us := latency_us;
    ob_setup_us := sat_sub64 wall_us latency_us;
    ob_deadline_ms :=
      if bool_decide (terminal = Terminal_Timeout) then last_failure rec ≫= tf_deadline_ms else None;
    ob_status := resp_status <$> rec_response rec;
    ob_bytes_sent := 0;
    ob_bytes_received := 0;
    ob_connections_opened := 0;
    ob_connections_reused := 0;
    ob_protocol := last_protocol rec;
    ob_category := None;
    ob_example := None;
    ob_destination := origin (pr_url (rec_prepared rec));
    ob_proto := ProtoObs_default;
  |} in
  fold_left observe_attempt (rec_attempts rec) obs.

(** Whether the exchange set up a tunnel that did not open. *)
Definition tunnel_not_open (p : ProtoObs) : bool :=
  match po_dgram p ≫= dg_tunnel with
  | Some t => match tu_end t with TunnelEnd_Established _ => false | _ => true end
  | None => false
  end.

(** The first correction of [observe]: a datagram exchange whose tunnel never
    opened is not completed. *)
Definition observe_tunnel (obs : SendObservation) : SendObservation :=
  if bool_decide (ob_terminal obs = Terminal_Completed) && tunnel_not_open (ob_proto obs) then
    obs <| ob_terminal := Terminal_TransportFailure |>
        <| ob_application_failure := false |>
        <| ob_assertion_failure := false |>
        <| ob_status := None |>
  else obs.

(** The second: what a completed unit of the step's kind must also show. *)
Definition observe_unit (rec : ExecutionRecord) (step : StepUnit) (obs : SendObservation)
    : SendObservation :=
  if bool_decide (ob_terminal obs = Terminal_Completed) then
    match su_kind step with
    | LoadUnitKind_TcpExchange =>
        if expectation_short (ob_proto obs) then obs <| ob_application_failure := true |> else obs
    | LoadUnitKind_HttpRequest =>
        if not_determined_from_body rec step then obs <| ob_application_failure := true |> else obs
    | LoadUnitKind_UdpExchange | LoadUnitKind_DtlsExchange =>
        match po_dgram (ob_proto obs) with
        | Some d =>
            if dg_received d =? 0 then obs <| ob_no_response := true |>
            else match dg_ttfr_us d with
                 | Some t => obs <| ob_latency_us := t |>
                 | None => obs
                 end
        | None => obs
        end
    | _ => obs
    end
  else obs.

(** [observe]. *)
Definition observe (out : ExecutionOutput) (wall_us : Z) (step : StepUnit) : SendObservation :=
  let rec := eo_record out in
  let obs := observe_record rec wall_us in
  let obs := obs <| ob_proto := protocol_obs out step (ob_terminal obs) |> in
  let obs := observe_unit rec step (observe_tunnel obs) in
  if is_failure obs && (if ob_category obs is Some _ then false else true)
  then describe_failure obs rec step
  else obs.

(** ** The record of one send *)

Lemma observe_attempts_keep {T} (f : SendObservation -> T) l obs :
  (forall o a, f (observe_attempt o a) = f o) ->
  f (fold_left observe_attempt l obs) = f obs.
Proof.
  intros Hf. revert obs. induction l as [|a l IH]; intros obs; simpl; [done|].
  by rewrite IH, Hf.
Qed.

Ltac keep_field :=
  unfold observe_record; rewrite observe_attempts_keep;
  [reflexivity | intros o a; unfold observe_attempt; destruct (att_connection a) as [c|];
                 [destruct (co_reused c)|]; reflexivity].

Lemma observe_record_terminal rec w : ob_terminal (observe_record rec w) = terminal_of rec.
Proof. keep_field. Qed.

Lemma observe_record_application rec w :
  ob_application_failure (observe_record rec w) =
  bool_decide (terminal_of rec = Terminal_Completed) &&
  bool_decide (oc_application (rec_outcome rec) = ApplicationState_Failure).
Proof. keep_field. Qed.

Lemma observe_record_assertion rec w :
  ob_assertion_failure (observe_record rec w) =
  bool_decide (terminal_of rec = Terminal_Completed) &&
  bool_decide (oc_assertions (rec_outcome rec) = AssertionState_Fail).
Proof. keep_field. Qed.

Lemma observe_record_no_response rec w : ob_no_response (observe_record rec w) = false.
Proof. keep_field. Qed.

Lemma observe_record_category rec w : ob_category (observe_record rec w) = None.
Proof. keep_field. Qed.

Lemma observe_record_example rec w : ob_example (observe_record rec w) = None.
Proof. keep_field. Qed.

Lemma terminal_completed rec :
  terminal_of rec = Terminal_Completed <-> oc_transport (rec_outcome rec) = TransportState_Completed.
Proof.
  unfold terminal_of. destruct (oc_transport (rec_outcome rec)); try done.
  all: destruct (last_failure rec) as [f|]; [|done];
    destruct (bool_decide _); [done|]; by destruct (is_timeout _).
Qed.

(** The observation [observe] ends with, before the failure is described. *)
Definition observed (out : ExecutionOutput) (wall_us : Z) (step : StepUnit) : SendObservation :=
  let rec := eo_record out in
  observe_unit rec step (observe_tunnel
    (observe_record rec wall_us <| ob_proto := protocol_obs out step (terminal_of rec) |>)).

Lemma observe_unit_category rec step obs : ob_category (observe_unit rec step obs) = ob_category obs.
Proof.
  unfold observe_unit. destruct (bool_decide _); [|done]. destruct (su_kind step); try done;
    repeat case_match; done.
Qed.

Lemma observed_category out w step : ob_category (observed out w step) = None.
Proof.
  unfold observed. rewrite observe_unit_category. unfold observe_tunnel.
  destruct (_ && _); apply observe_record_category.
Qed.

Lemma observe_eq out w step :
  observe out w step =
  let o := observed out w step in
  if is_failure o then describe_failure o (eo_record out) step else o.
Proof.
  unfold observe. rewrite observe_record_terminal. fold (observed out w step). simpl.
  rewrite observed_category. by rewrite andb_true_r.
Qed.

Lemma describe_failure_keep {T} (f : SendObservation -> T) o rec step :
  (forall c e, f (o <| ob_category := c |> <| ob_example := e |>) = f o) ->
  f (describe_failure o rec step) = f o.
Proof. intros Hf. unfold describe_failure. apply Hf. Qed.

Lemma observe_keep {T} (f : SendObservation -> T) out w step :
  (forall o c e, f (o <| ob_category := c |> <| ob_example := e |>) = f o) ->
  f (observe out w step) = f (observed out w step).
Proof.
  intros Hf. rewrite observe_eq. simpl. destruct (is_failure _); [|done].
  by apply describe_failure_keep.
Qed.

Lemma observe_proto out w step :
  ob_proto (observe out w step) = protocol_obs out step (terminal_of (eo_record out)).
Proof.
  rewrite (observe_keep ob_proto) by done. unfold observed, observe_unit.
  assert (forall o, ob_proto (observe_tunnel o) = ob_proto o) as Ht.
  { intros o. unfold observe_tunnel. by destruct (_ && _). }
  set (o := observe_tunnel _). assert (ob_proto o = protocol_obs out step (terminal_of (eo_record out)))
    as Ho by apply Ht. clearbody o.
  destruct (bool_decide _); [|done]. destruct (su_kind step); repeat case_match; done.
Qed.

(** ** What a success is *)

Definition is_datagram_unit (kind : LoadUnitKind) : bool :=
  match kind with LoadUnitKind_UdpExchange | LoadUnitKind_DtlsExchange => true | _ => false end.

Definition datagrams_received (rec : ExecutionRecord) : Z :=
  match oc_protocol_status (rec_outcome rec) with ProtocolStatus_Udp _ r _ _ => r | _ => 0 end.

Definition frames_received (rec : ExecutionRecord) : Z :=
  from_option str_received_count 0 (rec_stream rec).

(** The unit's own condition of success, read from the request's settings and
    the engine's record. *)
Definition unit_as_specified (out : ExecutionOutput) (step : StepUnit) : Prop :=
  let rec := eo_record out in
  match su_kind step with
  | LoadUnitKind_HttpRequest =>
      su_application_from_body step = true ->
      oc_application (rec_outcome rec) <> ApplicationState_NotEvaluated
  | LoadUnitKind_TcpExchange =>
      forall n, su_tcp_expect_frames step = Some n -> n <= frames_received rec
  | LoadUnitKind_UdpExchange | LoadUnitKind_DtlsExchange =>
      datagrams_received rec <> 0 /\
      forall t k, su_tunnel step = Some k -> tunnel_obs rec Terminal_Completed = Some t ->
        exists us, tu_end t = TunnelEnd_Established us
  | _ => True
  end.

Lemma protocol_obs_dgram out step terminal :
  po_dgram (protocol_obs out step terminal) =
  if is_datagram_unit (su_kind step) then Some (dgram_obs out step terminal) else None.
Proof.
  unfold protocol_obs. destruct (su_kind step); simpl; try done;
    destruct (oc_protocol_status _); simpl; try done; by case_match.
Qed.

Lemma protocol_obs_tcp out step terminal :
  po_tcp (protocol_obs out step terminal) =
  match su_kind step with
  | LoadUnitKind_TcpExchange => Some (tcp_obs (eo_record out) step terminal)
  | _ => None
  end.
Proof.
  unfold protocol_obs. destruct (su_kind step); simpl; try done;
    destruct (oc_protocol_status _); simpl; try done; by case_match.
Qed.

Lemma dgram_obs_received out step terminal :
  dg_received (dgram_obs out step terminal) = datagrams_received (eo_record out).
Proof. unfold dgram_obs, datagrams_received. by destruct (oc_protocol_status _). Qed.

Lemma dgram_obs_tunnel out step terminal :
  dg_tunnel (dgram_obs out step terminal) = su_tunnel step ≫= fun _ => tunnel_obs (eo_record out) terminal.
Proof. unfold dgram_obs. by destruct (oc_protocol_status _). Qed.

Lemma tcp_obs_expectation rec step :
  tc_expectation (tcp_obs rec step Terminal_Completed) =
  (fun n => n <=? frames_received rec) <$> su_tcp_expect_frames step.
Proof.
  unfold tcp_obs, frames_received. destruct (oc_protocol_status _); simpl; by destruct (su_tcp_expect_frames step).
Qed.

Definition all_passed (rec : ExecutionRecord) : Prop :=
  oc_transport (rec_outcome rec) = TransportState_Completed /\
  oc_application (rec_outcome rec) <> ApplicationState_Failure /\
  oc_assertions (rec_outcome rec) <> AssertionState_Fail.

Lemma is_success_unit_false rec step obs :
  is_success obs = false -> is_success (observe_unit rec step obs) = false.
Proof.
  unfold observe_unit. destruct (bool_decide _) eqn:E; [|done].
  destruct (su_kind step); try done; repeat case_match; try done; unfold is_success; simpl;
    rewrite ?andb_false_r, ?andb_false_iff; simpl; tauto.
Qed.

Lemma tunnel_not_open_spec out step terminal :
  tunnel_not_open (protocol_obs out step terminal) = true <->
  is_datagram_unit (su_kind step) = true /\
  exists t k, su_tunnel step = Some k /\ tunnel_obs (eo_record out) terminal = Some t /\
    forall us, tu_end t <> TunnelEnd_Established us.
Proof.
  unfold tunnel_not_open. rewrite protocol_obs_dgram.
  destruct (is_datagram_unit _); simpl; [|naive_solver].
  rewrite dgram_obs_tunnel. destruct (su_tunnel step) as [k|]; simpl; [|naive_solver].
  destruct (tunnel_obs _ _) as [t|] eqn:Et; [|naive_solver].
  split.
  - intros Ht. split; [done|]. exists t, k. split; [done|]. split; [done|].
    intros us E. by rewrite E in Ht.
  - intros (_ & t' & k' & _ & [= <-] & Hn). destruct (tu_end t) eqn:E; try done. by destruct (Hn setup_us).
Qed.

(** A completed send whose tunnel, if any, opened: the unit decides. *)
Lemma observed_completed out w step :
  terminal_of (eo_record out) = Terminal_Completed ->
  tunnel_not_open (protocol_obs out step Terminal_Completed) = false ->
  observed out w step =
  observe_unit (eo_record out) step
    (observe_record (eo_record out) w <| ob_proto := protocol_obs out step Terminal_Completed |>).
Proof.
  intros Ht Hn. unfold observed, observe_tunnel. rewrite Ht.
  simpl. by rewrite Hn, andb_false_r.
Qed.

Lemma observed_refused out w step :
  terminal_of (eo_record out) = Terminal_Completed ->
  tunnel_not_open (protocol_obs out step Terminal_Completed) = true ->
  ob_terminal (observed out w step) = Terminal_TransportFailure /\
  ob_status (observed out w step) = None /\ ob_no_response (observed out w step) = false.
Proof.
  intros Ht Hn. unfold observed, observe_tunnel. rewrite Ht. simpl.
  rewrite observe_record_terminal, Ht. rewrite Hn. simpl.
  unfold observe_unit. simpl. by rewrite observe_record_no_response.
Qed.

Lemma observe_unit_id rec step o :
  ob_terminal o <> Terminal_Completed -> observe_unit rec step o = o.
Proof. intros Ho. unfold observe_unit. by rewrite bool_decide_false. Qed.

Lemma observe_tunnel_id o : ob_terminal o <> Terminal_Completed -> observe_tunnel o = o.
Proof. intros Ho. unfold observe_tunnel. by rewrite bool_decide_false. Qed.

Lemma observed_not_completed out w step :
  terminal_of (eo_record out) <> Terminal_Completed ->
  ob_terminal (observed out w step) = terminal_of (eo_record out) /\
  ob_no_response (observed out w step) = false.
Proof.
  intros Ht. unfold observed. rewrite observe_tunnel_id, observe_unit_id by
    (simpl; by rewrite observe_record_terminal).
  simpl. by rewrite observe_record_terminal, observe_record_no_response.
Qed.

Lemma observed_base_success rec w p :
  terminal_of rec = Terminal_Completed ->
  is_success (observe_record rec w <| ob_proto := p |>) = true <->
  oc_application (rec_outcome rec) <> ApplicationState_Failure /\
  oc_assertions (rec_outcome rec) <> AssertionState_Fail.
Proof.
  intros Ht. unfold is_success. simpl.
  rewrite observe_record_terminal, observe_record_application, observe_record_assertion,
    observe_record_no_response, Ht. simpl.
  rewrite !andb_true_iff, !negb_true_iff, !bool_decide_eq_false. naive_solver.
Qed.

Lemma observe_dgram_success out step o :
  (forall t k, su_tunnel step = Some k -> tunnel_obs (eo_record out) Terminal_Completed = Some t ->
    exists us, tu_end t = TunnelEnd_Established us) ->
  is_success o = true /\ (datagrams_received (eo_record out) <> 0 /\
    forall t k, su_tunnel step = Some k -> tunnel_obs (eo_record out) Terminal_Completed = Some t ->
      exists us, tu_end t = TunnelEnd_Established us) <->
  is_success
    (let d := dgram_obs out step Terminal_Completed in
     if dg_received d =? 0 then o <| ob_no_response := true |>
     else match dg_ttfr_us d with Some t => o <| ob_latency_us := t |> | None => o end) = true.
Proof.
  intros Htun. cbv zeta. rewrite dgram_obs_received.
  destruct (Z.eqb_spec (datagrams_received (eo_record out)) 0) as [E|E].
  - unfold is_success. simpl. rewrite andb_false_r. naive_solver.
  - assert (is_success (match dg_ttfr_us (dgram_obs out step Terminal_Completed) with
      | Some t => o <| ob_latency_us := t |> | None => o end) = is_success o) as ->
      by by destruct (dg_ttfr_us _).
    tauto.
Qed.

(** The unit's condition, applied to a completed observation. *)
Lemma observe_unit_success out step o :
  ob_terminal o = Terminal_Completed ->
  ob_proto o = protocol_obs out step Terminal_Completed ->
  tunnel_not_open (protocol_obs out step Terminal_Completed) = false ->
  is_success o = true /\ unit_as_specified out step <->
  is_success (observe_unit (eo_record out) step o) = true.
Proof.
  intros Ht Hp Hn. unfold observe_unit, unit_as_specified. rewrite Ht, Hp. simpl.
  assert (forall b, is_success (if b : bool then o <| ob_application_failure := true |> else o) = true
    <-> is_success o = true /\ b = false) as Happ.
  { intros []; unfold is_success; simpl; rewrite ?andb_true_iff; naive_solver. }
  assert (is_datagram_unit (su_kind step) = true ->
    forall t k, su_tunnel step = Some k -> tunnel_obs (eo_record out) Terminal_Completed = Some t ->
    exists us, tu_end t = TunnelEnd_Established us) as Htun.
  { intros Hd t k Hk Ho. destruct (tu_end t) as [us| | | |] eqn:E; [by exists us|..]; exfalso;
      (assert (tunnel_not_open (protocol_obs out step Terminal_Completed) = true); [|congruence]);
      apply tunnel_not_open_spec; split; try done; exists t, k; repeat split; try done; congruence. }
  rewrite protocol_obs_dgram.
  destruct (su_kind step) eqn:Hkind; simpl in *; try tauto.
  - rewrite Happ. unfold not_determined_from_body.
    rewrite andb_false_iff, bool_decide_eq_false.
    destruct (su_application_from_body step); naive_solver.
  - rewrite Happ. unfold expectation_short. rewrite protocol_obs_tcp, Hkind. simpl.
    rewrite tcp_obs_expectation, bool_decide_eq_false.
    destruct (su_tcp_expect_frames step) as [n|]; simpl; [|naive_solver].
    destruct (Z.leb_spec n (frames_received (eo_record out))) as [Hle|Hlt];
      split; intros [Hs Hx]; split; try done.
    + by intros ? [= <-].
    + specialize (Hx n eq_refl). lia.
  - apply observe_dgram_success. exact (Htun eq_refl).
  - apply observe_dgram_success. exact (Htun eq_refl).
Qed.

(** A send counts as a success exactly when its exchange completed at the
    transport level, the application and the assertions did not fail, and the
    unit shows what its kind requires: a SOAP or GraphQL outcome determined
    from the body, the expected TCP frames, a datagram received in an exchange
    whose tunnel, if it set one up, opened. *)
Theorem observe_success_iff out wall_us step :
  is_success (observe out wall_us step) = true <->
  all_passed (eo_record out) /\ unit_as_specified out step.
Proof.
  rewrite (observe_keep is_success) by done. unfold all_passed. rewrite <- terminal_completed.
  destruct (decide (terminal_of (eo_record out) = Terminal_Completed)) as [Ht|Ht].
  2:{ destruct (observed_not_completed out wall_us step Ht) as [E _]. unfold is_success.
      rewrite E, bool_decide_false by done. simpl. split; [done|]. by intros [[? _] _]. }
  destruct (tunnel_not_open (protocol_obs out step Terminal_Completed)) eqn:Hn.
  - destruct (observed_refused out wall_us step Ht Hn) as [E _]. unfold is_success. rewrite E. simpl.
    split; [done|]. intros [_ Hu]. apply tunnel_not_open_spec in Hn as (Hd & t & k & Hk & Ho & Hne).
    unfold unit_as_specified in Hu. destruct (su_kind step); try done;
      destruct Hu as [_ Hu]; destruct (Hu t k Hk Ho) as [us Hus]; by destruct (Hne us).
  - rewrite observed_completed by done.
    pose proof (observed_base_success (eo_record out) wall_us
      (protocol_obs out step Terminal_Completed) Ht) as Hbase.
    set (o := observe_record _ _ <| _ := _ |>) in *.
    assert (ob_terminal o = Terminal_Completed) as Hot.
    { unfold o. simpl. by rewrite observe_record_terminal. }
    assert (ob_proto o = protocol_obs out step Terminal_Completed) as Hop by done.
    clearbody o. rewrite <- (observe_unit_success out step o) by done. rewrite Hbase. tauto.
Qed.

(** An exchange whose tunnel never opened is never counted as completed
    and never as an exchange without a response, even when the engine records
    the proxy's refusal as a complete answer; the proxy's status is then not a
    status of the exchange. *)
Theorem observe_unopened_tunnel out wall_us step :
  tunnel_not_open (ob_proto (observe out wall_us step)) = true ->
  let o := observe out wall_us step in
  ob_terminal o <> Terminal_Completed /\ ob_no_response o = false /\ is_success o = false /\
  (oc_transport (rec_outcome (eo_record out)) = TransportState_Completed ->
    ob_terminal o = Terminal_TransportFailure /\ is_failure o = true /\ ob_status o = None).
Proof.
  rewrite observe_proto. intros Hn. cbv zeta. unfold is_success, is_failure.
  rewrite (observe_keep ob_terminal), (observe_keep ob_no_response), (observe_keep ob_status) by done.
  rewrite <- terminal_completed.
  destruct (decide (terminal_of (eo_record out) = Terminal_Completed)) as [Ht|Ht].
  - rewrite Ht in Hn. destruct (observed_refused out wall_us step Ht Hn) as (-> & -> & ->). done.
  - destruct (observed_not_completed out wall_us step Ht) as (-> & ->).
    rewrite bool_decide_false by done. done.
Qed.

Lemma truncate_chars_bound s n : (char_count (truncate_chars s n) <= n + 1)%nat.
Proof.
  unfold truncate_chars. destruct (before_char n s) as [t|] eqn:E.
  - rewrite char_count_app. apply before_char_count in E as ->. simpl. lia.
  - apply before_char_None in E. lia.
Qed.

(** Exactly the failures carry a category and an example, and both are
    bounded whatever the record holds. *)
Theorem observe_failure_described out wall_us step :
  let o := observe out wall_us step in
  (is_failure o = true <->
    exists c e, ob_category o = Some c /\ ob_example o = Some e /\
      (char_count c <= 121)%nat /\ (char_count e <= 401)%nat) /\
  (is_failure o = false <-> ob_category o = None).
Proof.
  cbv zeta. rewrite (observe_keep is_failure) by done. rewrite observe_eq. cbv zeta.
  destruct (is_failure (observed out wall_us step)).
  - split; [|done]. split; [|done]. intros _. unfold describe_failure. cbv zeta.
    do 2 eexists. split; [reflexivity|]. split; [reflexivity|].
    split; apply truncate_chars_bound.
  - rewrite observed_category. split; [|done]. split; [done|]. by intros (? & ? & ? & _).
Qed.
End Observe.

(** * A sample execution: a UDP exchange whose CONNECT the proxy refused *)

Definition sample_prepared : PreparedSummary := {|
  pr_protocol := Protocol_Udp; pr_method := "UDP"; pr_url := "udp://10.0.0.9:53"; pr_headers := [];
  pr_body_bytes := 0; pr_body_sha256 := None; pr_content_type := None; pr_auth_label := "none";
  pr_tls_profile := None; pr_proxy := None; pr_tls_verification_enabled := true;
  pr_settings := EffectiveSettings_default; pr_inferred := []; pr_omitted_secrets := [];
  pr_workload_api := None |}.

Definition sample_attempt (phases : list PhaseTiming) : AttemptObservation := {|
  att_index := 0; att_reason := AttemptReason_Initial; att_method := "UDP";
  att_url := "udp://10.0.0.9:53"; att_started_at := mkDateTime 0; att_connection := None;
  att_phases := phases; att_dispatch := DispatchState_Sent; att_bytes := ByteCounts_default;
  att_response_status := None; att_failure := None; att_duration_us := 1500;
  att_early_data := None |}.

Definition sample_record (transport : TransportState) (status : ProtocolStatus)
    (phases : list PhaseTiming) : ExecutionRecord := {|
  rec_id := mkId 1; rec_schema_version := 1; rec_adapter_version := ""; rec_catalog_version := "";
  rec_compatibility_id := None; rec_workspace_id := None; rec_request_id := None;
  rec_revision_id := None; rec_environment_id := None; rec_started_at := mkDateTime 0;
  rec_finished_at := mkDateTime 1500000; rec_prepared := sample_prepared;
  rec_attempts := [sample_attempt phases]; rec_response := None; rec_stream := None;
  rec_outcome := mkExecutionOutcome transport ApplicationState_Success AssertionState_Pass None
    status DispatchState_Sent [] "done";
  rec_assertion_results := []; rec_extracted := []; rec_findings := [] |}.

Definition refused_tunnel : ExecutionOutput := {|
  eo_response_metadata := None;
  eo_record := sample_record TransportState_Completed
    (ProtocolStatus_Udp 0 0 1000 (Some (mkMasqueTunnel "https://proxy" "10.0.0.9:53" (Some true)
      (Some true) (Some 403) None 0 0 0 0 0 ClosedBy_Peer)))
    [mkPhaseTiming Phase_QuicHandshake PhaseStatus_Completed (Some 10) (Some 900) None];
  eo_body := ""; eo_decoded_body := None; eo_extracted := []; eo_session_facts := None |}.

Definition masque_step : StepUnit :=
  mkStepUnit LoadUnitKind_UdpExchange None 0 false (Some TunnelKind_ConnectUdp).

Lemma observe_unopened_tunnel_witness :
  let o := observe (fun _ => None) refused_tunnel 2000 masque_step in
  ob_terminal o = Terminal_TransportFailure /\
  ob_category o = Some "transport_failure: unknown".
Proof.
  destruct (observe_unopened_tunnel (fun _ => None) refused_tunnel 2000 masque_step)
    as (_ & _ & _ & H); [vm_compute; reflexivity|].
  destruct H as [Ht _]; [reflexivity|]. split; [exact Ht | vm_compute; reflexivity].
Defined.
