(* ===== verification/Histogram.v ===== *)
(** Latency distributions (crates/anvil-load/src/metrics.rs, [LatencyStat]):
    an HDR histogram with the exact minimum, maximum and sum beside it.

    The histogram is the third-party crate [hdrhistogram]. Its operations are
    the class [Histogram]; what the load engine relies on is the class
    [HistogramLaws], the documented behaviour of [saturating_record], [add],
    [len] and [value_at_quantile] up to an equivalence of histograms that
    [Proper] instances carry through [LatencyStat]. [ListHist] is a concrete
    instance (a multiset of samples), used to evaluate the definitions. *)
From S2P Require Import Prelude Settings Evidence LoadModel.
From stdpp Require Import base list numbers strings option sorting.
From Stdlib Require Import ZArith Lia Permutation.
Open Scope Z_scope.

(** * Constants *)

Definition LATENCY_MAX_US : Z := 3600000000.
Definition PRIMARY_SIGFIG : Z := 3.
Definition SECONDARY_SIGFIG : Z := 2.

(** * The histogram interface *)

(** [Histogram<u64>] as used here. Quantiles are given in percent. *)
Class Histogram (H : Type) := {
  (** [new_with_bounds(1, LATENCY_MAX_US, sigfig)] *)
  hist_new : Z -> H;
  hist_sigfig : H -> Z;
  hist_saturating_record : Z -> H -> H;
  hist_add : H -> H -> H;
  hist_len : H -> Z;
  hist_value_at_quantile : H -> Z -> Z;
  hist_min : H -> Z;
  hist_max : H -> Z;
  (** [mean().round() as u64] *)
  hist_mean_rounded : H -> Z;
}.

(** The documented behaviour of the operations: [saturating_record] counts one
    value, [add] adds the counts of a histogram of the same precision, and the
    quantiles are monotone. *)
Class HistogramLaws (H : Type) `{Histogram H, Equiv H} : Prop := {
  hist_equivalence :: Equivalence (≡@{H});
  hist_sigfig_proper :: Proper ((≡) ==> (=)) hist_sigfig;
  hist_record_proper :: Proper ((=) ==> (≡) ==> (≡)) hist_saturating_record;
  hist_add_proper :: Proper ((≡) ==> (≡) ==> (≡)) hist_add;
  hist_len_proper :: Proper ((≡) ==> (=)) hist_len;
  hist_quantile_proper :: Proper ((≡) ==> (=) ==> (=)) hist_value_at_quantile;
  hist_sigfig_new sf : hist_sigfig (hist_new sf) = sf;
  hist_sigfig_record v h : hist_sigfig (hist_saturating_record v h) = hist_sigfig h;
  hist_sigfig_add a b : hist_sigfig (hist_add a b) = hist_sigfig a;
  hist_len_new sf : hist_len (hist_new sf) = 0;
  hist_len_record v h : hist_len (hist_saturating_record v h) = sat_add64 (hist_len h) 1;
  hist_add_new a sf : sf = hist_sigfig a -> hist_add a (hist_new sf) ≡ a;
  hist_add_record a b v : hist_sigfig a = hist_sigfig b ->
    hist_add a (hist_saturating_record v b) ≡ hist_saturating_record v (hist_add a b);
  hist_record_comm v w h :
    hist_saturating_record v (hist_saturating_record w h) ≡
    hist_saturating_record w (hist_saturating_record v h);
  hist_quantile_mono h p q : 0 < hist_len h -> 0 <= p <= q -> q <= 100 ->
    hist_value_at_quantile h p <= hist_value_at_quantile h q;
}.

(** * LatencyStat *)

Record LatencyStat (H : Type) := mkLatencyStat {
  lat_hist : H;
  lat_min : Z;
  lat_max : Z;
  lat_sum : Z;
}.
Arguments mkLatencyStat {H} _ _ _ _.
Arguments lat_hist {H} _.
Arguments lat_min {H} _.
Arguments lat_max {H} _.
Arguments lat_sum {H} _.

Section LatencyStat.
Context {H : Type} `{Histogram H}.
Implicit Types (s o : LatencyStat H).

Definition LatencyStat_new (sigfig : Z) : LatencyStat H :=
  mkLatencyStat (hist_new sigfig) U64_MAX 0 0.

(** [LatencyStat::record]: the histogram takes the value clamped to its
    trackable range, the extremes and the sum take it as it is. *)
Definition LatencyStat_record (us : Z) s : LatencyStat H :=
  mkLatencyStat
    (hist_saturating_record (Z.max 1 (Z.min us LATENCY_MAX_US)) (lat_hist s))
    (Z.min (lat_min s) us)
    (Z.max (lat_max s) us)
    (add128 (lat_sum s) us).

Definition LatencyStat_count s : Z := hist_len (lat_hist s).

Definition LatencyStat_merge s o : LatencyStat H :=
  if LatencyStat_count o =? 0 then s
  else mkLatencyStat
    (hist_add (lat_hist s) (lat_hist o))
    (Z.min (lat_min s) (lat_min o))
    (Z.max (lat_max s) (lat_max o))
    (add128 (lat_sum s) (lat_sum o)).

(** [LatencyStat::summary]; [None] where [clamp] panics (inverted bounds). *)
Definition LatencyStat_summary s : option LatencySummary :=
  let n := LatencyStat_count s in
  if n =? 0 then Some LatencySummary_default else
  let q p := clampZ (hist_value_at_quantile (lat_hist s) p) (lat_min s) (lat_max s) in
  p50 ← q 50; p90 ← q 90; p95 ← q 95; p99 ← q 99;
  Some (mkLatencySummary n (lat_min s) (lat_max s) (as_u64 (lat_sum s / n))
    p50 p90 p95 p99).

(** [summarize_histogram]. *)
Definition summarize_histogram (h : H) : LatencySummary :=
  if hist_len h =? 0 then LatencySummary_default else
  mkLatencySummary (hist_len h) (hist_min h) (hist_max h) (hist_mean_rounded h)
    (hist_value_at_quantile h 50) (hist_value_at_quantile h 90)
    (hist_value_at_quantile h 95) (hist_value_at_quantile h 99).

(** Reference: the statistic that recorded exactly the values [vs]. *)
Definition stat_of (sigfig : Z) (vs : list Z) : LatencyStat H :=
  fold_left (fun s v => LatencyStat_record v s) vs (LatencyStat_new sigfig).

Lemma stat_of_snoc sf vs v : stat_of sf (vs ++ [v]) = LatencyStat_record v (stat_of sf vs).
Proof. unfold stat_of. by rewrite fold_left_app. Qed.

(** ** Equivalence of statistics *)
Context `{Equiv H} `{!HistogramLaws H}.

#[global] Instance stat_equiv : Equiv (LatencyStat H) := fun s o =>
  lat_hist s ≡ lat_hist o /\ lat_min s = lat_min o /\ lat_max s = lat_max o /\
  lat_sum s = lat_sum o.

#[global] Instance stat_equivalence : Equivalence (≡@{LatencyStat H}).
Proof.
  split.
  - by intros [].
  - intros [] [] (? & ? & ? & ?). by repeat split.
  - intros [] [] [] (? & ? & ? & ?) (? & ? & ? & ?); simpl in *.
    repeat split; simpl; [by etrans|congruence..].
Qed.

#[global] Instance stat_record_proper : Proper ((=) ==> (≡) ==> (≡)) LatencyStat_record.
Proof.
  intros v ? <- [] [] (Hh & ? & ? & ?); simpl in *; subst.
  repeat split; simpl. by rewrite Hh.
Qed.

#[global] Instance stat_count_proper : Proper ((≡) ==> (=)) LatencyStat_count.
Proof. intros [] [] (Hh & _). unfold LatencyStat_count. simpl in *. by rewrite Hh. Qed.

#[global] Instance stat_merge_proper : Proper ((≡) ==> (≡) ==> (≡)) LatencyStat_merge.
Proof.
  intros s s' Hs o o' Ho. unfold LatencyStat_merge. rewrite Ho.
  destruct (_ =? 0); [done|].
  destruct Hs as (E1 & E2 & E3 & E4), Ho as (F1 & F2 & F3 & F4).
  repeat split; simpl; [by rewrite E1, F1|congruence..].
Qed.

#[global] Instance stat_summary_proper : Proper ((≡) ==> (=)) LatencyStat_summary.
Proof.
  intros s o Hs. assert (LatencyStat_count s = LatencyStat_count o) as Hc by by rewrite Hs.
  unfold LatencyStat_summary. rewrite Hc. destruct (_ =? 0); [done|].
  destruct Hs as (E1 & -> & -> & ->).
  assert (forall p, hist_value_at_quantile (lat_hist s) p = hist_value_at_quantile (lat_hist o) p)
    as Hq by (intros p; by rewrite E1).
  cbv zeta. by rewrite !Hq.
Qed.

(** ** The fields of a recorded statistic *)

Definition min_of (vs : list Z) : Z := foldr Z.min U64_MAX vs.
Definition max_of (vs : list Z) : Z := foldr Z.max 0 vs.
Definition sum_of (vs : list Z) : Z := foldr Z.add 0 vs.

Lemma stat_of_sigfig sf vs : hist_sigfig (lat_hist (stat_of sf vs)) = sf.
Proof.
  induction vs as [|v vs IH] using rev_ind; [apply hist_sigfig_new|].
  rewrite stat_of_snoc. simpl. by rewrite hist_sigfig_record.
Qed.

Lemma stat_of_count sf vs :
  LatencyStat_count (stat_of sf vs) = Z.min U64_MAX (Z.of_nat (length vs)).
Proof.
  unfold LatencyStat_count. induction vs as [|v vs IH] using rev_ind; simpl.
  - rewrite hist_len_new. reflexivity.
  - rewrite stat_of_snoc, length_app. simpl. rewrite hist_len_record, IH.
    unfold sat_add64, U64_MAX. lia.
Qed.

Lemma stat_of_count_0 sf vs : LatencyStat_count (stat_of sf vs) = 0 <-> vs = [].
Proof.
  rewrite stat_of_count. unfold U64_MAX. destruct vs; simpl; split; intros; try done; lia.
Qed.

Lemma stat_of_min sf vs : lat_min (stat_of sf vs) = min_of vs.
Proof.
  induction vs as [|v vs IH] using rev_ind; [done|]. rewrite stat_of_snoc. simpl.
  rewrite IH. unfold min_of. rewrite foldr_app. simpl.
  clear. generalize U64_MAX. induction vs as [|w vs IH]; simpl; intros; [lia|].
  rewrite <- IH. lia.
Qed.

Lemma stat_of_max sf vs : lat_max (stat_of sf vs) = max_of vs.
Proof.
  induction vs as [|v vs IH] using rev_ind; [done|]. rewrite stat_of_snoc. simpl.
  rewrite IH. unfold max_of. rewrite foldr_app. simpl.
  clear. generalize 0. induction vs as [|w vs IH]; simpl; intros; [lia|].
  rewrite <- IH. lia.
Qed.

Lemma sum_of_app vs ws : sum_of (vs ++ ws) = sum_of vs + sum_of ws.
Proof. unfold sum_of. induction vs; simpl in *; lia. Qed.

Lemma stat_of_sum sf vs : lat_sum (stat_of sf vs) = sum_of vs mod 2 ^ 128.
Proof.
  induction vs as [|v vs IH] using rev_ind; [done|]. rewrite stat_of_snoc. simpl.
  rewrite IH, sum_of_app. unfold add128. rewrite Zplus_mod_idemp_l.
  f_equal. simpl. lia.
Qed.

(** ** Merging *)

(** Recording into a shard and then merging it is recording into the merge. *)
Lemma stat_merge_record sf s vs v :
  hist_sigfig (lat_hist s) = sf -> is_u64 v ->
  LatencyStat_merge s (LatencyStat_record v (stat_of sf vs)) ≡
  LatencyStat_record v (LatencyStat_merge s (stat_of sf vs)).
Proof.
  intros Hsf [Hv0 Hv]. rewrite <- stat_of_snoc. unfold LatencyStat_merge.
  destruct (Z.eqb_spec (LatencyStat_count (stat_of sf (vs ++ [v]))) 0) as [E|_].
  { apply stat_of_count_0 in E. by destruct vs. }
  rewrite stat_of_snoc.
  destruct (Z.eqb_spec (LatencyStat_count (stat_of sf vs)) 0) as [E|_].
  - apply stat_of_count_0 in E as ->. unfold stat_of, LatencyStat_record, LatencyStat_new.
    repeat split; simpl.
    + rewrite hist_add_record by by rewrite hist_sigfig_new.
      by rewrite hist_add_new.
    + unfold U64_MAX. lia.
    + lia.
    + wrap_eq.
  - repeat split; simpl; [|lia..|wrap_eq].
    by rewrite hist_add_record by by rewrite stat_of_sigfig.
Qed.

Lemma stat_merge_app sf vs ws :
  Forall is_u64 ws ->
  LatencyStat_merge (stat_of sf vs) (stat_of sf ws) ≡ stat_of sf (vs ++ ws).
Proof.
  intros Hws. induction ws as [|w ws IH] using rev_ind.
  - rewrite app_nil_r. unfold LatencyStat_merge, LatencyStat_count. simpl.
    by rewrite hist_len_new.
  - apply Forall_app in Hws as [Hws Hw]. apply (proj1 (Forall_singleton _ _)) in Hw.
    rewrite (stat_of_snoc sf ws), stat_merge_record by (done || apply stat_of_sigfig).
    rewrite (IH Hws). by rewrite app_assoc, stat_of_snoc.
Qed.

Lemma stat_of_swap sf vs v w : stat_of sf (vs ++ [v; w]) ≡ stat_of sf (vs ++ [w; v]).
Proof.
  change [v; w] with ([v] ++ [w]). change [w; v] with ([w] ++ [v]).
  rewrite !app_assoc, !stat_of_snoc.
  repeat split; simpl; [apply hist_record_comm|lia..|wrap_eq].
Qed.

Lemma stat_of_app_proper sf vs ws us :
  stat_of sf vs ≡ stat_of sf ws -> stat_of sf (vs ++ us) ≡ stat_of sf (ws ++ us).
Proof.
  intros Heq. induction us as [|u us IH] using rev_ind; [by rewrite !app_nil_r|].
  rewrite !app_assoc, !stat_of_snoc. by rewrite IH.
Qed.

(** The order in which values are recorded does not matter. *)
#[global] Instance stat_of_perm sf : Proper ((≡ₚ) ==> (≡)) (stat_of sf).
Proof.
  assert (forall p, Proper ((≡ₚ) ==> (≡)) (fun vs => stat_of sf (p ++ vs))) as Hp.
  { intros p vs ws Hvw. revert p.
    induction Hvw as [|x vs ws _ IH|x y vs|vs ws us _ IH1 _ IH2]; intros p.
    - done.
    - specialize (IH (p ++ [x])). by rewrite <- !app_assoc in IH.
    - rewrite !(app_assoc p [_; _] vs : p ++ _ :: _ :: vs = _).
      apply stat_of_app_proper, stat_of_swap.
    - etrans; [apply IH1|apply IH2]. }
  exact (Hp []).
Qed.
End LatencyStat.

(** * Summaries *)

Lemma min_of_spec vs : vs <> [] -> Forall is_u64 vs ->
  In (min_of vs) vs /\ Forall (fun v => min_of vs <= v) vs.
Proof.
  unfold min_of. intros Hne Hu. induction Hu as [|v vs Hv Hu IH]; [done|]. simpl.
  unfold in_width, U64_MAX in *. destruct vs as [|w vs].
  - simpl. split; [left; lia|]. constructor; [lia|constructor].
  - destruct IH as [Hin Hall]; [done|]. split.
    + destruct (Z.min_spec v (foldr Z.min (2 ^ 64 - 1) (w :: vs))) as [[? ->]|[? ->]]; auto.
    + constructor; [lia|]. eapply Forall_impl; [exact Hall|]. simpl. lia.
Qed.

Lemma max_of_spec vs : vs <> [] -> Forall is_u64 vs ->
  In (max_of vs) vs /\ Forall (fun v => v <= max_of vs) vs.
Proof.
  unfold max_of. intros Hne Hu. induction Hu as [|v vs Hv Hu IH]; [done|]. simpl.
  unfold in_width in *. destruct vs as [|w vs].
  - simpl. split; [left; lia|]. constructor; [lia|constructor].
  - destruct IH as [Hin Hall]; [done|]. split.
    + destruct (Z.max_spec v (foldr Z.max 0 (w :: vs))) as [[? ->]|[? ->]]; auto.
    + constructor; [lia|]. eapply Forall_impl; [exact Hall|]. simpl. lia.
Qed.

Lemma sum_of_bounds vs lo hi :
  Forall (fun v => lo <= v) vs -> Forall (fun v => v <= hi) vs ->
  lo * Z.of_nat (length vs) <= sum_of vs <= hi * Z.of_nat (length vs).
Proof.
  unfold sum_of. induction vs as [|v vs IH]; simpl length; simpl foldr; intros Hlo Hhi; [lia|].
  apply Forall_cons in Hlo as [? Hlo]. apply Forall_cons in Hhi as [? Hhi].
  specialize (IH Hlo Hhi). lia.
Qed.

Section Summary.
Context {H : Type} `{Histogram H, Equiv H, !HistogramLaws H}.

Lemma clampZ_Some x lo hi : lo <= hi -> clampZ x lo hi = Some (Z.max lo (Z.min x hi)).
Proof. intros. unfold clampZ. by rewrite decide_True. Qed.

(** No summary panics. *)
Lemma summary_total (s : LatencyStat H) sf vs :
  s ≡ stat_of sf vs -> Forall is_u64 vs -> exists ls, LatencyStat_summary s = Some ls.
Proof.
  intros Hs%stat_summary_proper Hu. rewrite Hs. clear Hs. unfold LatencyStat_summary.
  destruct (Z.eqb_spec (LatencyStat_count (stat_of sf vs)) 0) as [_|Hc]; [by eexists|].
  assert (vs <> []) as Hne by by intros E; apply Hc, stat_of_count_0.
  destruct (min_of_spec vs) as [Hmin Hlo]; [done..|].
  destruct (max_of_spec vs) as [Hmax _]; [done..|].
  assert (lat_min (stat_of sf vs) <= lat_max (stat_of sf vs)) as Hmm.
  { rewrite stat_of_min, stat_of_max. by apply (proj1 (List.Forall_forall _ _) Hlo). }
  cbv zeta. rewrite !clampZ_Some by done. simpl. by eexists.
Qed.

(** The summary of a distribution never panics, whatever was recorded
    and in whatever shards: its count, minimum and maximum are those of the
    recorded values, the mean is the integer mean of the exact sum, and the
    percentiles are ordered between the exact minimum and maximum. *)
Theorem summary_exact (s : LatencyStat H) sf vs :
  s ≡ stat_of sf vs -> Forall is_u64 vs -> vs <> [] -> Z.of_nat (length vs) <= U64_MAX ->
  exists ls, LatencyStat_summary s = Some ls /\
    ls_count ls = Z.of_nat (length vs) /\
    In (ls_min_us ls) vs /\ In (ls_max_us ls) vs /\
    Forall (fun v => ls_min_us ls <= v <= ls_max_us ls) vs /\
    ls_mean_us ls = sum_of vs / Z.of_nat (length vs) /\
    ls_min_us ls <= ls_mean_us ls <= ls_max_us ls /\
    ls_min_us ls <= ls_p50_us ls <= ls_p90_us ls /\
    ls_p90_us ls <= ls_p95_us ls <= ls_p99_us ls /\ ls_p99_us ls <= ls_max_us ls.
Proof.
  intros Hs%stat_summary_proper Hu Hne Hlen. rewrite Hs. clear Hs.
  destruct (min_of_spec vs) as [Hmin Hlo]; [done..|].
  destruct (max_of_spec vs) as [Hmax Hhi]; [done..|].
  assert (0 < Z.of_nat (length vs)) as Hpos by (destruct vs; simpl; [done|lia]).
  assert (min_of vs <= max_of vs) as Hmm by by apply (proj1 (List.Forall_forall _ _) Hlo).
  pose proof (sum_of_bounds _ _ _ Hlo Hhi) as Hsum.
  pose proof (proj1 (List.Forall_forall _ _) Hu _ Hmin) as [Hmin0 _].
  pose proof (proj1 (List.Forall_forall _ _) Hu _ Hmax) as [_ Hmaxb].
  assert (min_of vs <= sum_of vs / Z.of_nat (length vs) <= max_of vs) as Hmean.
  { split; [apply Z.div_le_lower_bound|apply Z.div_le_upper_bound]; lia. }
  unfold LatencyStat_summary. rewrite stat_of_count, Z.min_r, stat_of_min, stat_of_max by done.
  destruct (Z.eqb_spec (Z.of_nat (length vs)) 0); [lia|].
  rewrite stat_of_sum, Z.mod_small by (unfold U64_MAX in Hlen; nia).
  unfold as_u64. rewrite Z.mod_small by lia.
  cbv zeta. rewrite !clampZ_Some by done. simpl. eexists. split; [done|]. simpl.
  assert (forall p q, 0 <= p <= q -> q <= 100 ->
    hist_value_at_quantile (lat_hist (stat_of sf vs)) p <=
    hist_value_at_quantile (lat_hist (stat_of sf vs)) q) as Hq.
  { intros p q. apply hist_quantile_mono.
    change (0 < LatencyStat_count (stat_of sf vs)). rewrite stat_of_count. lia. }
  pose proof (Hq 50 90). pose proof (Hq 90 95). pose proof (Hq 95 99).
  repeat split; try done; try lia.
  apply List.Forall_forall. intros v Hv. split.
  - by apply (proj1 (List.Forall_forall _ _) Hlo).
  - by apply (proj1 (List.Forall_forall _ _) Hhi).
Qed.

Lemma stat_merge_all sf vs shards :
  Forall (Forall is_u64) shards ->
  fold_left LatencyStat_merge (map (stat_of sf) shards) (stat_of sf vs) ≡
  stat_of sf (vs ++ concat shards).
Proof.
  intros Hall. revert vs. induction Hall as [|ws shards Hws Hall IH]; intros vs; simpl.
  - by rewrite app_nil_r.
  - rewrite app_assoc, <- IH. clear IH. set (l := map _ shards). clearbody l.
    pose proof (stat_merge_app sf vs ws Hws) as Heq. revert Heq.
    generalize (LatencyStat_merge (stat_of sf vs) (stat_of sf ws)) (stat_of sf (vs ++ ws)).
    induction l as [|o l IH]; simpl; [done|]. intros a b Hab. apply IH. by rewrite Hab.
Qed.

(** Shards are merged before percentiles are computed: merging the
    distributions of any shards, in any order, has the summary of the one
    distribution that recorded every value. *)
Theorem merged_shards_summary sf (shards shards' : list (list Z)) :
  Forall (Forall is_u64) shards -> shards' ≡ₚ shards ->
  LatencyStat_summary
    (fold_left LatencyStat_merge (map (stat_of sf) shards') (LatencyStat_new sf)) =
  LatencyStat_summary (stat_of sf (concat shards)).
Proof.
  intros Hall Hp. apply stat_summary_proper.
  change (LatencyStat_new sf) with (stat_of sf []).
  rewrite stat_merge_all by by rewrite Hp. by rewrite Hp.
Qed.
End Summary.

(** * A concrete histogram

    The multiset of recorded samples, with the rank rule [round(q * n)] (at
    least 1) of an exact quantile. *)

Record ListHist := mkListHist { lh_sigfig : Z; lh_vals : list Z }.

Definition lh_sorted (h : ListHist) : list Z := merge_sort Z.le (lh_vals h).
Definition lh_rank (p n : Z) : Z := Z.max 1 ((p * n + 50) / 100).

#[export] Instance ListHist_ops : Histogram ListHist := {|
  hist_new sf := mkListHist sf [];
  hist_sigfig := lh_sigfig;
  hist_saturating_record v h := mkListHist (lh_sigfig h) (v :: lh_vals h);
  hist_add a b := mkListHist (lh_sigfig a) (lh_vals b ++ lh_vals a);
  hist_len h := Z.min U64_MAX (Z.of_nat (length (lh_vals h)));
  hist_value_at_quantile h p :=
    nth (Z.to_nat (lh_rank p (Z.of_nat (length (lh_vals h)))) - 1) (lh_sorted h) 0;
  hist_min h := hd 0 (lh_sorted h);
  hist_max h := List.last (lh_sorted h) 0;
  hist_mean_rounded h :=
    (sum_of (lh_vals h) + Z.of_nat (length (lh_vals h)) / 2) / Z.of_nat (length (lh_vals h));
|}.

#[export] Instance ListHist_equiv : Equiv ListHist := fun a b =>
  lh_sigfig a = lh_sigfig b /\ lh_vals a ≡ₚ lh_vals b.

Lemma lh_sorted_perm a b : lh_vals a ≡ₚ lh_vals b -> lh_sorted a = lh_sorted b.
Proof.
  intros Hp. unfold lh_sorted. apply (StronglySorted_unique Z.le).
  - apply (StronglySorted_merge_sort Z.le).
  - apply (StronglySorted_merge_sort Z.le).
  - by rewrite !merge_sort_Permutation.
Qed.

Lemma sorted_nth_mono (l : list Z) i j :
  StronglySorted Z.le l -> (i <= j < length l)%nat -> nth i l 0 <= nth j l 0.
Proof.
  intros Hs. revert i j. induction Hs as [|x l Hs IH Hall]; simpl; intros i j Hij; [lia|].
  destruct i, j; try lia.
  - apply (proj1 (List.Forall_forall _ _) Hall). apply nth_In. lia.
  - apply IH. lia.
Qed.

#[export] Instance ListHist_laws : HistogramLaws ListHist.
Proof.
  split; try done; simpl.
  - split; [done| |].
    + intros a b []. by split.
    + intros a b c [] []. split; [congruence|by etrans].
  - by intros a b [? _].
  - intros v ? <- a b [? Hp]. split; simpl; [done|]. by rewrite Hp.
  - intros a b [? Hp] c d [? Hq]. split; simpl; [done|]. by rewrite Hp, Hq.
  - intros a b [_ Hp]. simpl. by rewrite Hp.
  - intros a b [_ Hp] p ? <-. simpl. by rewrite (lh_sorted_perm _ _ Hp), Hp.
  - intros v h. unfold sat_add64, U64_MAX. lia.
  - intros v w h. split; simpl; [done|]. apply Permutation_swap.
  - intros h p q Hlen Hp Hq. apply sorted_nth_mono.
    + apply (StronglySorted_merge_sort Z.le).
    + unfold lh_sorted. rewrite merge_sort_Permutation. unfold lh_rank.
      set (n := Z.of_nat (length (lh_vals h))) in *.
      assert ((p * n + 50) / 100 <= (q * n + 50) / 100) by (apply Z.div_le_mono; nia).
      assert ((q * n + 50) / 100 < n + 1) by (apply Z.div_lt_upper_bound; nia). lia.
Qed.

Lemma summary_exact_witness :
  exists ls, LatencyStat_summary (stat_of (H := ListHist) 3 [20; 10; 90]) = Some ls /\
    ls_min_us ls = 10 /\ ls_mean_us ls = 40.
Proof.
  destruct (summary_exact (H := ListHist) (stat_of 3 [20; 10; 90]) 3 [20; 10; 90])
    as (ls & Hs & _ & _ & _ & _ & Hm & _).
  - reflexivity.
  - u64s.
  - discriminate.
  - vm_compute. discriminate.
  - exists ls. split; [exact Hs|]. vm_compute in Hs. injection Hs as <-. split; [reflexivity|exact Hm].
Defined.

Lemma merged_shards_summary_witness :
  LatencyStat_summary (fold_left LatencyStat_merge
    (map (stat_of (H := ListHist) 3) [[7000000000]; [5; 1]]) (LatencyStat_new 3)) =
  LatencyStat_summary (stat_of (H := ListHist) 3 [5; 1; 7000000000]).
Proof.
  apply (merged_shards_summary (H := ListHist) 3 [[5; 1]; [7000000000]]).
  - u64s.
  - apply Permutation_swap.
Defined.
