(* ===== verification/ProtoAccum.v ===== *)
(** The protocol denominators of a shard (crates/anvil-load/src/metrics.rs,
    [ProtoAccum]): one accumulator per shard records the protocol facts of
    each unit, shards are merged, and the merged accumulator gives the report
    block of the plan's unit kind. *)
From Stdlib Require Import ZArith Lia.
From stdpp Require Import base numbers strings option list.
From S2P Require Import Prelude OrdMap Text Settings Evidence Request LoadModel Units Observe Histogram.
Open Scope list_scope.
Open Scope Z_scope.

Definition GRPC_STATUS_MAX : Z := 16.
Definition GRPC_STATUS_INVALID : Z := -1.

(** Status-count key of a terminal [grpc-status]. *)
Definition grpc_status_bucket (code : Z) : Z :=
  if (0 <=? code) && (code <=? GRPC_STATUS_MAX) then code else GRPC_STATUS_INVALID.

Definition closed_key (c : ClosedBy) : Z :=
  match c with
  | ClosedBy_Peer => 0
  | ClosedBy_Client => 1
  | ClosedBy_Abnormal => 2
  | ClosedBy_Timeout => 3
  | ClosedBy_NotClosed => 4
  end.

Definition closed_from (k : Z) : ClosedBy :=
  match k with
  | 0 => ClosedBy_Peer
  | 1 => ClosedBy_Client
  | 2 => ClosedBy_Abnormal
  | 3 => ClosedBy_Timeout
  | _ => ClosedBy_NotClosed
  end.

Record ProtoAccum (H : Type) := mkProtoAccum {
  pa_fallback_attempts : Z;
  pa_units_with_fallback : Z;
  pa_units_over_h3 : Z;
  pa_grpc_codes : omap Z Z;
  pa_grpc_missing_status : Z;
  pa_streams_opened : Z;
  pa_messages_received : Z;
  pa_with_messages : Z;
  pa_first_message : LatencyStat H;
  pa_ends : omap (Z * option Z) Z;
  pa_ws_opened : Z;
  pa_ws_rejected : Z;
  pa_ws_not_opened : Z;
  pa_ws_clean : Z;
  pa_ws_sent : Z;
  pa_ws_received : Z;
  pa_rtt : LatencyStat H;
  pa_rtt_unpaired : Z;
  pa_tcp_connected : Z;
  pa_frames_sent : Z;
  pa_frames_received : Z;
  pa_tcp_bytes_sent : Z;
  pa_tcp_bytes_received : Z;
  pa_partial_frames : Z;
  pa_peer_closes : Z;
  pa_expectation_met : Z;
  pa_expectation_short : Z;
  pa_dg_sent : Z;
  pa_dg_received : Z;
  pa_with_response : Z;
  pa_silent : Z;
  pa_repeated : Z;
  pa_echoed : Z;
  pa_icmp : Z;
  pa_first_response : LatencyStat H;
  pa_hs_attempted : Z;
  pa_hs_completed : Z;
  pa_hs_failed : Z;
  pa_hs_timed_out : Z;
  pa_hs_duration : LatencyStat H;
  pa_messages_sent : Z;
  pa_tn_attempted : Z;
  pa_tn_established : Z;
  pa_tn_refused : Z;
  pa_tn_failed : Z;
  pa_tn_timed_out : Z;
  pa_tn_canceled : Z;
  pa_tn_setup : LatencyStat H;
}.
Arguments mkProtoAccum {H}.
Arguments pa_fallback_attempts {H} _.
Arguments pa_units_with_fallback {H} _.
Arguments pa_units_over_h3 {H} _.
Arguments pa_grpc_codes {H} _.
Arguments pa_grpc_missing_status {H} _.
Arguments pa_streams_opened {H} _.
Arguments pa_messages_received {H} _.
Arguments pa_with_messages {H} _.
Arguments pa_first_message {H} _.
Arguments pa_ends {H} _.
Arguments pa_ws_opened {H} _.
Arguments pa_ws_rejected {H} _.
Arguments pa_ws_not_opened {H} _.
Arguments pa_ws_clean {H} _.
Arguments pa_ws_sent {H} _.
Arguments pa_ws_received {H} _.
Arguments pa_rtt {H} _.
Arguments pa_rtt_unpaired {H} _.
Arguments pa_tcp_connected {H} _.
Arguments pa_frames_sent {H} _.
Arguments pa_frames_received {H} _.
Arguments pa_tcp_bytes_sent {H} _.
Arguments pa_tcp_bytes_received {H} _.
Arguments pa_partial_frames {H} _.
Arguments pa_peer_closes {H} _.
Arguments pa_expectation_met {H} _.
Arguments pa_expectation_short {H} _.
Arguments pa_dg_sent {H} _.
Arguments pa_dg_received {H} _.
Arguments pa_with_response {H} _.
Arguments pa_silent {H} _.
Arguments pa_repeated {H} _.
Arguments pa_echoed {H} _.
Arguments pa_icmp {H} _.
Arguments pa_first_response {H} _.
Arguments pa_hs_attempted {H} _.
Arguments pa_hs_completed {H} _.
Arguments pa_hs_failed {H} _.
Arguments pa_hs_timed_out {H} _.
Arguments pa_hs_duration {H} _.
Arguments pa_messages_sent {H} _.
Arguments pa_tn_attempted {H} _.
Arguments pa_tn_established {H} _.
Arguments pa_tn_refused {H} _.
Arguments pa_tn_failed {H} _.
Arguments pa_tn_timed_out {H} _.
Arguments pa_tn_canceled {H} _.
Arguments pa_tn_setup {H} _.

#[export] Instance eta_ProtoAccum H : Eta (ProtoAccum H) := fun r =>
  mkProtoAccum (pa_fallback_attempts r) (pa_units_with_fallback r) (pa_units_over_h3 r)
    (pa_grpc_codes r) (pa_grpc_missing_status r) (pa_streams_opened r)
    (pa_messages_received r) (pa_with_messages r) (pa_first_message r) (pa_ends r)
    (pa_ws_opened r) (pa_ws_rejected r) (pa_ws_not_opened r) (pa_ws_clean r) (pa_ws_sent r)
    (pa_ws_received r) (pa_rtt r) (pa_rtt_unpaired r) (pa_tcp_connected r) (pa_frames_sent r)
    (pa_frames_received r) (pa_tcp_bytes_sent r) (pa_tcp_bytes_received r)
    (pa_partial_frames r) (pa_peer_closes r) (pa_expectation_met r) (pa_expectation_short r)
    (pa_dg_sent r) (pa_dg_received r) (pa_with_response r) (pa_silent r) (pa_repeated r)
    (pa_echoed r) (pa_icmp r) (pa_first_response r) (pa_hs_attempted r) (pa_hs_completed r)
    (pa_hs_failed r) (pa_hs_timed_out r) (pa_hs_duration r) (pa_messages_sent r)
    (pa_tn_attempted r) (pa_tn_established r) (pa_tn_refused r) (pa_tn_failed r)
    (pa_tn_timed_out r) (pa_tn_canceled r) (pa_tn_setup r).

Section ProtoAccum.
Context {H : Type} `{Histogram H}.
Implicit Types (s o : ProtoAccum H) (p : ProtoObs).

Definition ProtoAccum_new : ProtoAccum H := {|
  pa_fallback_attempts := 0;
  pa_units_with_fallback := 0;
  pa_units_over_h3 := 0;
  pa_grpc_codes := [];
  pa_grpc_missing_status := 0;
  pa_streams_opened := 0;
  pa_messages_received := 0;
  pa_with_messages := 0;
  pa_first_message := LatencyStat_new SECONDARY_SIGFIG;
  pa_ends := [];
  pa_ws_opened := 0;
  pa_ws_rejected := 0;
  pa_ws_not_opened := 0;
  pa_ws_clean := 0;
  pa_ws_sent := 0;
  pa_ws_received := 0;
  pa_rtt := LatencyStat_new SECONDARY_SIGFIG;
  pa_rtt_unpaired := 0;
  pa_tcp_connected := 0;
  pa_frames_sent := 0;
  pa_frames_received := 0;
  pa_tcp_bytes_sent := 0;
  pa_tcp_bytes_received := 0;
  pa_partial_frames := 0;
  pa_peer_closes := 0;
  pa_expectation_met := 0;
  pa_expectation_short := 0;
  pa_dg_sent := 0;
  pa_dg_received := 0;
  pa_with_response := 0;
  pa_silent := 0;
  pa_repeated := 0;
  pa_echoed := 0;
  pa_icmp := 0;
  pa_first_response := LatencyStat_new SECONDARY_SIGFIG;
  pa_hs_attempted := 0;
  pa_hs_completed := 0;
  pa_hs_failed := 0;
  pa_hs_timed_out := 0;
  pa_hs_duration := LatencyStat_new SECONDARY_SIGFIG;
  pa_messages_sent := 0;
  pa_tn_attempted := 0;
  pa_tn_established := 0;
  pa_tn_refused := 0;
  pa_tn_failed := 0;
  pa_tn_timed_out := 0;
  pa_tn_canceled := 0;
  pa_tn_setup := LatencyStat_new SECONDARY_SIGFIG;
|}.

(** [self.f += n] on a counter. *)
Definition plus (n : Z) (c : Z) : Z := c ⊞ n.
Definition inc : Z -> Z := plus 1.
Definition inc_if (b : bool) : Z -> Z := plus (Z.b2z b).

(** The parts of [ProtoAccum::record], in its order. *)
Definition record_http p s : ProtoAccum H :=
  s <| pa_fallback_attempts ::= plus (po_fallback_attempts p) |>
    <| pa_units_with_fallback ::= inc_if (0 <? po_fallback_attempts p) |>
    <| pa_units_over_h3 ::= inc_if (po_final_h3 p) |>.

Definition record_grpc (completed : bool) p s : ProtoAccum H :=
  let s := match po_grpc_status p with
    | Some c => if completed then s <| pa_grpc_codes ::= om_count (grpc_status_bucket c) 1 |> else s
    | None => s
    end in
  s <| pa_grpc_missing_status ::= inc_if (po_grpc_missing_status p) |>.

Definition record_stream p s : ProtoAccum H :=
  let s := s <| pa_streams_opened ::= inc_if (po_stream_opened p) |>
             <| pa_messages_sent ::= plus (po_messages_sent p) |>
             <| pa_messages_received ::= plus (po_messages_received p) |> in
  let s :=
    if po_stream_opened p && (0 <? po_messages_received p) then
      let s := s <| pa_with_messages ::= inc |> in
      match po_first_message_us p with
      | Some t => s <| pa_first_message ::= LatencyStat_record t |>
      | None => s
      end
    else s in
  match po_stream_end p with
  | Some by_ => s <| pa_ends ::= om_count (closed_key by_, None) 1 |>
  | None => s
  end.

Definition record_ws (completed : bool) (w : WsObs) s : ProtoAccum H :=
  let s :=
    if wo_opened w then
      let s := s <| pa_ws_opened ::= inc |> <| pa_ws_clean ::= inc_if completed |> in
      match wo_close w with
      | Some (by_, code) => s <| pa_ends ::= om_count (closed_key by_, code) 1 |>
      | None => s
      end
    else if wo_rejected w then s <| pa_ws_rejected ::= inc |>
    else s <| pa_ws_not_opened ::= inc |> in
  s <| pa_ws_sent ::= plus (wo_sent w) |>
    <| pa_ws_received ::= plus (wo_received w) |>
    <| pa_rtt ::= (fun st => fold_left (fun st r => LatencyStat_record r st) (wo_rtts w) st) |>
    <| pa_rtt_unpaired ::= inc_if (wo_unpaired w) |>.

Definition record_tcp (t : TcpObs) s : ProtoAccum H :=
  let s := s
    <| pa_tcp_connected ::= inc_if (tc_connected t) |>
    <| pa_frames_sent ::= plus (tc_frames_sent t) |>
    <| pa_frames_received ::= plus (tc_frames_received t) |>
    <| pa_tcp_bytes_sent ::= plus (tc_bytes_sent t) |>
    <| pa_tcp_bytes_received ::= plus (tc_bytes_received t) |>
    <| pa_partial_frames ::= inc_if (tc_partial t) |>
    <| pa_peer_closes ::= inc_if (tc_peer_close t) |> in
  match tc_expectation t with
  | Some true => s <| pa_expectation_met ::= inc |>
  | Some false => s <| pa_expectation_short ::= inc |>
  | None => s
  end.

Definition record_response (completed : bool) (d : DgramObs) s : ProtoAccum H :=
  let s := s <| pa_dg_sent ::= plus (dg_sent d) |> <| pa_dg_received ::= plus (dg_received d) |> in
  let s :=
    if completed then
      if 0 <? dg_received d then
        let s := s <| pa_with_response ::= inc |> in
        match dg_ttfr_us d with
        | Some t => s <| pa_first_response ::= LatencyStat_record t |>
        | None => s
        end
      else s <| pa_silent ::= inc |>
    else s in
  s <| pa_repeated ::= plus (dg_repeated d) |>
    <| pa_echoed ::= plus (dg_echoed d) |>
    <| pa_icmp ::= inc_if (dg_icmp d) |>.

Definition record_handshake (d : DgramObs) s : ProtoAccum H :=
  match dg_handshake d with
  | Some (status, dur) =>
      let s := s <| pa_hs_attempted ::= inc |> in
      match status with
      | PhaseStatus_Completed =>
          let s := s <| pa_hs_completed ::= inc |> in
          match dur with
          | Some us => s <| pa_hs_duration ::= LatencyStat_record us |>
          | None => s
          end
      | PhaseStatus_Failed => s <| pa_hs_failed ::= inc |>
      | PhaseStatus_TimedOut => s <| pa_hs_timed_out ::= inc |>
      | _ => s
      end
  | None => s
  end.

Definition record_tunnel (d : DgramObs) s : ProtoAccum H :=
  match dg_tunnel d with
  | Some t =>
      let s := s <| pa_tn_attempted ::= inc |> in
      match tu_end t with
      | TunnelEnd_Established setup_us =>
          s <| pa_tn_established ::= inc |> <| pa_tn_setup ::= LatencyStat_record setup_us |>
      | TunnelEnd_Refused => s <| pa_tn_refused ::= inc |>
      | TunnelEnd_Failed => s <| pa_tn_failed ::= inc |>
      | TunnelEnd_TimedOut => s <| pa_tn_timed_out ::= inc |>
      | TunnelEnd_Canceled => s <| pa_tn_canceled ::= inc |>
      end
  | None => s
  end.

(** [ProtoAccum::record]. *)
Definition ProtoAccum_record (ob : SendObservation) s : ProtoAccum H :=
  let p := ob_proto ob in
  let completed := bool_decide (ob_terminal ob = Terminal_Completed) in
  let s := record_stream p (record_grpc completed p (record_http p s)) in
  let s := match po_ws p with Some w => record_ws completed w s | None => s end in
  let s := match po_tcp p with Some t => record_tcp t s | None => s end in
  match po_dgram p with
  | Some d => record_tunnel d (record_handshake d (record_response completed d s))
  | None => s
  end.

(** [ProtoAccum::merge]. *)
Definition ProtoAccum_merge (s o : ProtoAccum H) : ProtoAccum H := {|
  pa_fallback_attempts := pa_fallback_attempts s ⊞ pa_fallback_attempts o;
  pa_units_with_fallback := pa_units_with_fallback s ⊞ pa_units_with_fallback o;
  pa_units_over_h3 := pa_units_over_h3 s ⊞ pa_units_over_h3 o;
  pa_grpc_codes := fold_left (fun acc cn => om_count (grpc_status_bucket cn.1) cn.2 acc) (pa_grpc_codes o) (pa_grpc_codes s);
  pa_grpc_missing_status := pa_grpc_missing_status s ⊞ pa_grpc_missing_status o;
  pa_streams_opened := pa_streams_opened s ⊞ pa_streams_opened o;
  pa_messages_received := pa_messages_received s ⊞ pa_messages_received o;
  pa_with_messages := pa_with_messages s ⊞ pa_with_messages o;
  pa_first_message := LatencyStat_merge (pa_first_message s) (pa_first_message o);
  pa_ends := om_add_all (pa_ends s) (pa_ends o);
  pa_ws_opened := pa_ws_opened s ⊞ pa_ws_opened o;
  pa_ws_rejected := pa_ws_rejected s ⊞ pa_ws_rejected o;
  pa_ws_not_opened := pa_ws_not_opened s ⊞ pa_ws_not_opened o;
  pa_ws_clean := pa_ws_clean s ⊞ pa_ws_clean o;
  pa_ws_sent := pa_ws_sent s ⊞ pa_ws_sent o;
  pa_ws_received := pa_ws_received s ⊞ pa_ws_received o;
  pa_rtt := LatencyStat_merge (pa_rtt s) (pa_rtt o);
  pa_rtt_unpaired := pa_rtt_unpaired s ⊞ pa_rtt_unpaired o;
  pa_tcp_connected := pa_tcp_connected s ⊞ pa_tcp_connected o;
  pa_frames_sent := pa_frames_sent s ⊞ pa_frames_sent o;
  pa_frames_received := pa_frames_received s ⊞ pa_frames_received o;
  pa_tcp_bytes_sent := pa_tcp_bytes_sent s ⊞ pa_tcp_bytes_sent o;
  pa_tcp_bytes_received := pa_tcp_bytes_received s ⊞ pa_tcp_bytes_received o;
  pa_partial_frames := pa_partial_frames s ⊞ pa_partial_frames o;
  pa_peer_closes := pa_peer_closes s ⊞ pa_peer_closes o;
  pa_expectation_met := pa_expectation_met s ⊞ pa_expectation_met o;
  pa_expectation_short := pa_expectation_short s ⊞ pa_expectation_short o;
  pa_dg_sent := pa_dg_sent s ⊞ pa_dg_sent o;
  pa_dg_received := pa_dg_received s ⊞ pa_dg_received o;
  pa_with_response := pa_with_response s ⊞ pa_with_response o;
  pa_silent := pa_silent s ⊞ pa_silent o;
  pa_repeated := pa_repeated s ⊞ pa_repeated o;
  pa_echoed := pa_echoed s ⊞ pa_echoed o;
  pa_icmp := pa_icmp s ⊞ pa_icmp o;
  pa_first_response := LatencyStat_merge (pa_first_response s) (pa_first_response o);
  pa_hs_attempted := pa_hs_attempted s ⊞ pa_hs_attempted o;
  pa_hs_completed := pa_hs_completed s ⊞ pa_hs_completed o;
  pa_hs_failed := pa_hs_failed s ⊞ pa_hs_failed o;
  pa_hs_timed_out := pa_hs_timed_out s ⊞ pa_hs_timed_out o;
  pa_hs_duration := LatencyStat_merge (pa_hs_duration s) (pa_hs_duration o);
  pa_messages_sent := pa_messages_sent s ⊞ pa_messages_sent o;
  pa_tn_attempted := pa_tn_attempted s ⊞ pa_tn_attempted o;
  pa_tn_established := pa_tn_established s ⊞ pa_tn_established o;
  pa_tn_refused := pa_tn_refused s ⊞ pa_tn_refused o;
  pa_tn_failed := pa_tn_failed s ⊞ pa_tn_failed o;
  pa_tn_timed_out := pa_tn_timed_out s ⊞ pa_tn_timed_out o;
  pa_tn_canceled := pa_tn_canceled s ⊞ pa_tn_canceled o;
  pa_tn_setup := LatencyStat_merge (pa_tn_setup s) (pa_tn_setup o);
|}.

(** [ProtoAccum::ends]. *)
Definition ends s : list ClosedCount :=
  map (fun '((by_, code), n) => mkClosedCount (closed_from by_) code n) (pa_ends s).

#[global] Instance eta_ProtocolLoadMetrics : Eta ProtocolLoadMetrics := fun r =>
  mkProtocolLoadMetrics (plm_version r) (plm_unit r) (plm_semantics r) (plm_http r) (plm_grpc r)
    (plm_stream r) (plm_websocket r) (plm_tcp r) (plm_datagram r).

(** The closures [grpc] and [stream] of [ProtoAccum::summary]. *)
Definition grpc_metrics s : GrpcLoadMetrics :=
  let ok := default 0 (om_get 0 (pa_grpc_codes s)) in
  {| gm_status_codes := pa_grpc_codes s;
     gm_ok := ok;
     gm_non_ok := sum64 (om_values (pa_grpc_codes s)) ⊟ ok;
     gm_missing_status := pa_grpc_missing_status s;
     gm_protocol_fallback_attempts := pa_fallback_attempts s |}.

Definition stream_metrics (kind : LoadUnitKind) s (ended_by : list ClosedCount)
    : option StreamLoadMetrics :=
  ttfm ← LatencyStat_summary (pa_first_message s);
  Some {| stm_opened := pa_streams_opened s;
          stm_messages_sent :=
            match kind with
            | LoadUnitKind_GrpcClientStream | LoadUnitKind_GrpcBidiStream => Some (pa_messages_sent s)
            | _ => None
            end;
          stm_messages_received := pa_messages_received s;
          stm_with_messages := pa_with_messages s;
          stm_time_to_first_message := ttfm;
          stm_ended_by := ended_by |}.

Definition websocket_metrics (steps : list StepUnit) s : option WebSocketLoadMetrics :=
  rtt ← LatencyStat_summary (pa_rtt s);
  Some {| wm_opened := pa_ws_opened s;
          wm_handshake_rejected := pa_ws_rejected s;
          wm_not_opened := pa_ws_not_opened s;
          wm_closed_cleanly := pa_ws_clean s;
          wm_messages_sent := pa_ws_sent s;
          wm_messages_received := pa_ws_received s;
          wm_rtt_defined := existsb (fun u => 0 <? su_ws_expect_messages u) steps;
          wm_rtt_pairs := LatencyStat_count (pa_rtt s);
          wm_rtt := rtt;
          wm_rtt_unpaired_sessions := pa_rtt_unpaired s;
          wm_close_codes := ends s |}.

(** One value when every step expects the same count. *)
Definition expected_frames (steps : list StepUnit) : option Z :=
  let expected := base.omap su_tcp_expect_frames steps in
  f ← head expected;
  if (length expected =? length steps)%nat && forallb (fun e => e =? f) expected
  then Some f else None.

Definition tcp_metrics (steps : list StepUnit) s : TcpLoadMetrics :=
  {| tm_connected := pa_tcp_connected s;
     tm_frames_sent := pa_frames_sent s;
     tm_frames_received := pa_frames_received s;
     tm_payload_bytes_sent := pa_tcp_bytes_sent s;
     tm_payload_bytes_received := pa_tcp_bytes_received s;
     tm_partial_frames := pa_partial_frames s;
     tm_peer_closes := pa_peer_closes s;
     tm_expected_frames := expected_frames steps;
     tm_expectation_met := pa_expectation_met s;
     tm_expectation_short := pa_expectation_short s |}.

Definition datagram_metrics (kind : LoadUnitKind) (steps : list StepUnit) s
    : option DatagramLoadMetrics :=
  first_response ← LatencyStat_summary (pa_first_response s);
  handshakes ←
    (if bool_decide (kind = LoadUnitKind_DtlsExchange) then
       duration ← LatencyStat_summary (pa_hs_duration s);
       Some (Some (mkHandshakeMetrics (pa_hs_attempted s) (pa_hs_completed s) (pa_hs_failed s)
                     (pa_hs_timed_out s) duration))
     else Some None);
  tunnels ←
    match head steps ≫= su_tunnel with
    | Some tk =>
        setup ← LatencyStat_summary (pa_tn_setup s);
        Some (Some (mkTunnelLoadMetrics tk (pa_tn_attempted s) (pa_tn_established s)
                      (pa_tn_refused s) (pa_tn_failed s) (pa_tn_timed_out s) (pa_tn_canceled s) setup))
    | None => Some None
    end;
  Some {| dm_datagrams_sent := pa_dg_sent s;
          dm_datagrams_received := pa_dg_received s;
          dm_exchanges_with_response := pa_with_response s;
          dm_exchanges_silent := pa_silent s;
          dm_repeated_payloads := pa_repeated s;
          dm_echoed_payloads := pa_echoed s;
          dm_icmp_unreachable_exchanges := pa_icmp s;
          dm_time_to_first_datagram := first_response;
          dm_dtls_handshakes := handshakes;
          dm_tunnels := tunnels |}.

(** [ProtoAccum::summary]; [None] where a latency summary panics. *)
Definition ProtoAccum_summary (kind : LoadUnitKind) (mode : ConnectionMode) (steps : list StepUnit) s
    : option ProtocolLoadMetrics :=
  let m := {| plm_version := PROTOCOL_METRICS_VERSION;
              plm_unit := kind;
              plm_semantics := plan_semantics kind mode steps;
              plm_http := None; plm_grpc := None; plm_stream := None;
              plm_websocket := None; plm_tcp := None; plm_datagram := None |} in
  match kind with
  | LoadUnitKind_HttpRequest =>
      Some (m <| plm_http := Some (mkHttpLoadMetrics (pa_fallback_attempts s)
                                     (pa_units_with_fallback s) (pa_units_over_h3 s)) |>)
  | LoadUnitKind_GrpcCall => Some (m <| plm_grpc := Some (grpc_metrics s) |>)
  | LoadUnitKind_GrpcStream | LoadUnitKind_GrpcClientStream | LoadUnitKind_GrpcBidiStream =>
      st ← stream_metrics kind s [];
      Some (m <| plm_grpc := Some (grpc_metrics s) |> <| plm_stream := Some st |>)
  | LoadUnitKind_SseStream =>
      st ← stream_metrics kind s (ends s); Some (m <| plm_stream := Some st |>)
  | LoadUnitKind_WebsocketSession =>
      ws ← websocket_metrics steps s; Some (m <| plm_websocket := Some ws |>)
  | LoadUnitKind_TcpExchange => Some (m <| plm_tcp := Some (tcp_metrics steps s) |>)
  | LoadUnitKind_UdpExchange | LoadUnitKind_DtlsExchange =>
      dg ← datagram_metrics kind steps s; Some (m <| plm_datagram := Some dg |>)
  end.

(** ** Equivalence, well-formedness and steps *)

Context `{Equiv H} `{!HistogramLaws H}.

(** The counters and the latency statistics of an accumulator. *)
Definition pa_counters s : list Z := [
  pa_fallback_attempts s; pa_units_with_fallback s; pa_units_over_h3 s;
  pa_grpc_missing_status s; pa_streams_opened s; pa_messages_received s; pa_with_messages s;
  pa_ws_opened s; pa_ws_rejected s; pa_ws_not_opened s; pa_ws_clean s; pa_ws_sent s;
  pa_ws_received s; pa_rtt_unpaired s; pa_tcp_connected s; pa_frames_sent s;
  pa_frames_received s; pa_tcp_bytes_sent s; pa_tcp_bytes_received s; pa_partial_frames s;
  pa_peer_closes s; pa_expectation_met s; pa_expectation_short s; pa_dg_sent s;
  pa_dg_received s; pa_with_response s; pa_silent s; pa_repeated s; pa_echoed s; pa_icmp s;
  pa_hs_attempted s; pa_hs_completed s; pa_hs_failed s; pa_hs_timed_out s;
  pa_messages_sent s; pa_tn_attempted s; pa_tn_established s; pa_tn_refused s;
  pa_tn_failed s; pa_tn_timed_out s; pa_tn_canceled s].

Definition pa_stats s : list (LatencyStat H) := [
  pa_first_message s; pa_rtt s; pa_first_response s; pa_hs_duration s; pa_tn_setup s].

#[global] Instance proto_equiv : Equiv (ProtoAccum H) := fun s o =>
  pa_counters s = pa_counters o /\ Forall2 (≡) (pa_stats s) (pa_stats o) /\
  pa_grpc_codes s = pa_grpc_codes o /\ pa_ends s = pa_ends o.

#[global] Instance proto_equivalence : Equivalence (≡@{ProtoAccum H}).
Proof.
  split.
  - by intros s.
  - intros s o (E1 & E2 & E3 & E4). repeat split; by symmetry.
  - intros s o u (E1 & E2 & E3 & E4) (F1 & F2 & F3 & F4). repeat split; by etrans.
Qed.

(** A latency statistic that recorded some [u64] values. *)
Definition stat_ok (st : LatencyStat H) : Prop :=
  exists vs, Forall is_u64 vs /\ st ≡ stat_of SECONDARY_SIGFIG vs.

Definition grpc_codes_ok (m : OrdMap.omap Z Z) : Prop :=
  counters_ok m /\ Forall (fun kn => grpc_status_bucket kn.1 = kn.1) m.

Lemma stat_ok_new : stat_ok (LatencyStat_new SECONDARY_SIGFIG).
Proof. exists []. by split; [constructor|]. Qed.

Lemma stat_ok_record v st : is_u64 v -> stat_ok st -> stat_ok (LatencyStat_record v st).
Proof.
  intros Hv (vs & Hvs & E). exists (vs ++ [v]). split.
  - apply Forall_app. split; [done|]. by apply List.Forall_cons.
  - by rewrite stat_of_snoc, E.
Qed.

Lemma stat_ok_merge st u : stat_ok st -> stat_ok u -> stat_ok (LatencyStat_merge st u).
Proof.
  intros (vs & Hvs & E) (ws & Hws & F). exists (vs ++ ws). split; [by apply Forall_app|].
  by rewrite E, F, stat_merge_app.
Qed.

Lemma stat_ok_merge_record v st u : is_u64 v -> stat_ok st -> stat_ok u ->
  LatencyStat_merge st (LatencyStat_record v u) ≡ LatencyStat_record v (LatencyStat_merge st u).
Proof.
  intros Hv (vs & Hvs & E) (ws & Hws & F). rewrite E, F.
  apply stat_merge_record; [apply stat_of_sigfig|done].
Qed.

Lemma stat_merge_new st : LatencyStat_merge st (LatencyStat_new SECONDARY_SIGFIG) = st.
Proof. unfold LatencyStat_merge, LatencyStat_count. simpl. by rewrite hist_len_new. Qed.

(** The same for a run of recorded values (WebSocket round trips). *)
Definition record_all (vs : list Z) (st : LatencyStat H) : LatencyStat H :=
  fold_left (fun st r => LatencyStat_record r st) vs st.

#[global] Instance record_all_proper vs : Proper ((≡) ==> (≡)) (record_all vs).
Proof.
  unfold record_all. induction vs as [|v vs IH]; intros st u E; simpl; [done|].
  apply IH. by rewrite E.
Qed.

Lemma record_all_ok vs st : Forall is_u64 vs -> stat_ok st -> stat_ok (record_all vs st).
Proof.
  intros Hvs. revert st. induction Hvs as [|v vs Hv Hvs IH]; intros st Hs; simpl; [done|].
  by apply IH, stat_ok_record.
Qed.

Lemma record_all_merge vs st u : Forall is_u64 vs -> stat_ok st -> stat_ok u ->
  LatencyStat_merge st (record_all vs u) ≡ record_all vs (LatencyStat_merge st u).
Proof.
  intros Hvs. revert u. induction Hvs as [|v vs Hv Hvs IH]; intros u Hs Hu; simpl; [done|].
  rewrite IH by (try apply stat_ok_record; done).
  by rewrite (stat_ok_merge_record v st u).
Qed.

Lemma bucket_idem c : grpc_status_bucket (grpc_status_bucket c) = grpc_status_bucket c.
Proof.
  unfold grpc_status_bucket at 2 3. destruct (_ && _) eqn:E; [|done].
  unfold grpc_status_bucket. by rewrite E.
Qed.

Lemma bucket_range c :
  grpc_status_bucket c = GRPC_STATUS_INVALID \/ 0 <= grpc_status_bucket c <= GRPC_STATUS_MAX.
Proof.
  unfold grpc_status_bucket. destruct (_ && _) eqn:E; [|by left]. right.
  apply andb_split in E as [? ?]. lia.
Qed.

Lemma grpc_codes_count_ok c n m : grpc_codes_ok m -> grpc_codes_ok (om_count (grpc_status_bucket c) n m).
Proof.
  intros [Hm Hb]. split; [by apply om_count_ok|].
  apply om_upd_Forall; [done|]. apply bucket_idem.
Qed.

(** On canonical keys the bucketing merge is the plain one. *)
Lemma grpc_codes_merge m u : grpc_codes_ok u ->
  fold_left (fun acc cn => om_count (grpc_status_bucket cn.1) cn.2 acc) u m = om_add_all m u.
Proof.
  intros [_ Hb]. unfold om_add_all. revert m.
  induction Hb as [|[c n] u Hc Hb IH]; intros m; simpl; [done|].
  simpl in Hc. rewrite Hc. apply IH.
Qed.

Lemma grpc_codes_add_ok m u : grpc_codes_ok m -> grpc_codes_ok u -> grpc_codes_ok (om_add_all m u).
Proof.
  intros Hm Hu. rewrite <- grpc_codes_merge by done. destruct Hu as [_ Hb]. clear Hb.
  revert m Hm. induction u as [|[c n] u IH]; intros m Hm; simpl; [done|].
  by apply IH, grpc_codes_count_ok.
Qed.

(** The invariant of an accumulator. *)
Definition proto_ok s : Prop :=
  Forall is_u64 (pa_counters s) /\ Forall stat_ok (pa_stats s) /\
  grpc_codes_ok (pa_grpc_codes s) /\ counters_ok (pa_ends s).

Lemma merge_counters s o :
  pa_counters (ProtoAccum_merge s o) = zip_with add64 (pa_counters s) (pa_counters o).
Proof. reflexivity. Qed.

Lemma merge_stats s o :
  pa_stats (ProtoAccum_merge s o) = zip_with LatencyStat_merge (pa_stats s) (pa_stats o).
Proof. reflexivity. Qed.

Lemma merge_grpc s o : grpc_codes_ok (pa_grpc_codes o) ->
  pa_grpc_codes (ProtoAccum_merge s o) = om_add_all (pa_grpc_codes s) (pa_grpc_codes o).
Proof. apply grpc_codes_merge. Qed.

(** A recording step: it respects equivalence, keeps the invariant and commutes
    with merging into another shard. Recording is a composition of steps, one
    per field it touches. *)
Record step_ok (f : ProtoAccum H -> ProtoAccum H) : Prop := {
  step_proper : forall s o, s ≡ o -> f s ≡ f o;
  step_keeps : forall s, proto_ok s -> proto_ok (f s);
  step_merges : forall s o, proto_ok s -> proto_ok o ->
    ProtoAccum_merge s (f o) ≡ f (ProtoAccum_merge s o);
}.

Lemma step_id : step_ok (fun s => s).
Proof. by split. Qed.

Lemma step_comp f g : step_ok f -> step_ok g -> step_ok (fun s => g (f s)).
Proof.
  intros [f1 f2 f3] [g1 g2 g3]. split; auto.
  intros s o Hs Ho. etrans; [by apply g3; auto|]. apply g1. auto.
Qed.

Lemma zip_alter {A} (op : A -> A -> A) g i (l k : list A) :
  (forall a b, op a (g b) = g (op a b)) ->
  zip_with op l (alter g i k) = alter g i (zip_with op l k).
Proof.
  intros Hg. revert i k. induction l as [|x l IH]; intros i k; [by destruct i|].
  destruct k as [|y k]; [by destruct i|]. destruct i as [|i]; simpl; [by rewrite Hg|].
  change (list_alter g i k) with (alter g i k). by rewrite IH.
Qed.

Lemma counter_step i n f :
  (forall s, pa_counters (f s) = alter (plus n) i (pa_counters s)) ->
  (forall s, pa_stats (f s) = pa_stats s) ->
  (forall s, pa_grpc_codes (f s) = pa_grpc_codes s) -> (forall s, pa_ends (f s) = pa_ends s) ->
  step_ok f.
Proof.
  intros Hc Hs Hg He. split.
  - intros s o (E1 & E2 & E3 & E4). repeat split; by rewrite ?Hc, ?Hs, ?Hg, ?He, ?E1, ?E3, ?E4.
  - intros s (E1 & E2 & E3 & E4). repeat split; rewrite ?Hc, ?Hs, ?Hg, ?He; try apply E3; try apply E4; try done.
    apply Forall_alter; [done|]. intros. apply add64_range.
  - intros s o (E1 & E2 & E3 & E4) (F1 & F2 & F3 & F4). repeat split.
    + rewrite Hc, !merge_counters, Hc. apply zip_alter. intros. apply add64_assoc.
    + by rewrite Hs, !merge_stats, Hs.
    + by rewrite Hg, !merge_grpc, Hg by (rewrite ?Hg; done).
    + rewrite He. simpl. by rewrite He.
Qed.

Lemma stats_alter_merge vs i l k : Forall is_u64 vs -> Forall stat_ok l -> Forall stat_ok k ->
  Forall2 (≡) (zip_with LatencyStat_merge l (alter (record_all vs) i k))
              (alter (record_all vs) i (zip_with LatencyStat_merge l k)).
Proof.
  intros Hvs Hl. revert i k. induction Hl as [|x l Hx Hl IH]; intros i k Hk; [by destruct i|].
  destruct Hk as [|y k Hy Hk]; [by destruct i|]. destruct i as [|i]; simpl.
  - constructor; [by apply record_all_merge|done].
  - constructor; [done|]. apply IH, Hk.
Qed.

Lemma stat_step i vs f : Forall is_u64 vs ->
  (forall s, pa_stats (f s) = alter (record_all vs) i (pa_stats s)) ->
  (forall s, pa_counters (f s) = pa_counters s) ->
  (forall s, pa_grpc_codes (f s) = pa_grpc_codes s) -> (forall s, pa_ends (f s) = pa_ends s) ->
  step_ok f.
Proof.
  intros Hvs Hs Hc Hg He. split.
  - intros s o (E1 & E2 & E3 & E4). repeat split; rewrite ?Hc, ?Hs, ?Hg, ?He; try done.
    apply Forall2_alter; [done|]. intros ?? _ _ E. by rewrite E.
  - intros s (E1 & E2 & E3 & E4). repeat split; rewrite ?Hc, ?Hs, ?Hg, ?He; try apply E3; try apply E4; try done.
    apply Forall_alter; [done|]. intros. by apply record_all_ok.
  - intros s o (E1 & E2 & E3 & E4) (F1 & F2 & F3 & F4). repeat split.
    + by rewrite Hc, !merge_counters, Hc.
    + rewrite Hs, !merge_stats, Hs. by apply stats_alter_merge.
    + by rewrite Hg, !merge_grpc, Hg by (rewrite ?Hg; done).
    + rewrite He. simpl. by rewrite He.
Qed.

Lemma step_grpc_codes c : step_ok (fun s => s <| pa_grpc_codes ::= om_count (grpc_status_bucket c) 1 |>).
Proof.
  split.
  - intros s o (E1 & E2 & E3 & E4). repeat split; try done. simpl. by rewrite E3.
  - intros s (E1 & E2 & E3 & E4). split; [done|]. split; [done|]. split; [|done].
    by apply grpc_codes_count_ok.
  - intros s o (E1 & E2 & E3 & E4) (F1 & F2 & F3 & F4). repeat split; try done.
    rewrite merge_grpc by by apply grpc_codes_count_ok.
    simpl. rewrite grpc_codes_merge by done. apply om_add_all_count; [apply E3|apply F3].
Qed.

Lemma step_ends k : step_ok (fun s => s <| pa_ends ::= om_count k 1 |>).
Proof.
  split.
  - intros s o (E1 & E2 & E3 & E4). repeat split; try done. simpl. by rewrite E4.
  - intros s (E1 & E2 & E3 & E4). split; [done|]. split; [done|]. split; [done|].
    by apply om_count_ok.
  - intros s o (E1 & E2 & E3 & E4) (F1 & F2 & F3 & F4). repeat split; try done.
    simpl. apply om_add_all_count; [apply E4|apply F4].
Qed.

Lemma step_fallback_attempts n : step_ok (fun s => s <| pa_fallback_attempts ::= plus n |>).
Proof. by apply (counter_step 0 n). Qed.
Lemma step_units_with_fallback n : step_ok (fun s => s <| pa_units_with_fallback ::= plus n |>).
Proof. by apply (counter_step 1 n). Qed.
Lemma step_units_over_h3 n : step_ok (fun s => s <| pa_units_over_h3 ::= plus n |>).
Proof. by apply (counter_step 2 n). Qed.
Lemma step_grpc_missing_status n : step_ok (fun s => s <| pa_grpc_missing_status ::= plus n |>).
Proof. by apply (counter_step 3 n). Qed.
Lemma step_streams_opened n : step_ok (fun s => s <| pa_streams_opened ::= plus n |>).
Proof. by apply (counter_step 4 n). Qed.
Lemma step_messages_received n : step_ok (fun s => s <| pa_messages_received ::= plus n |>).
Proof. by apply (counter_step 5 n). Qed.
Lemma step_with_messages n : step_ok (fun s => s <| pa_with_messages ::= plus n |>).
Proof. by apply (counter_step 6 n). Qed.
Lemma step_ws_opened n : step_ok (fun s => s <| pa_ws_opened ::= plus n |>).
Proof. by apply (counter_step 7 n). Qed.
Lemma step_ws_rejected n : step_ok (fun s => s <| pa_ws_rejected ::= plus n |>).
Proof. by apply (counter_step 8 n). Qed.
Lemma step_ws_not_opened n : step_ok (fun s => s <| pa_ws_not_opened ::= plus n |>).
Proof. by apply (counter_step 9 n). Qed.
Lemma step_ws_clean n : step_ok (fun s => s <| pa_ws_clean ::= plus n |>).
Proof. by apply (counter_step 10 n). Qed.
Lemma step_ws_sent n : step_ok (fun s => s <| pa_ws_sent ::= plus n |>).
Proof. by apply (counter_step 11 n). Qed.
Lemma step_ws_received n : step_ok (fun s => s <| pa_ws_received ::= plus n |>).
Proof. by apply (counter_step 12 n). Qed.
Lemma step_rtt_unpaired n : step_ok (fun s => s <| pa_rtt_unpaired ::= plus n |>).
Proof. by apply (counter_step 13 n). Qed.
Lemma step_tcp_connected n : step_ok (fun s => s <| pa_tcp_connected ::= plus n |>).
Proof. by apply (counter_step 14 n). Qed.
Lemma step_frames_sent n : step_ok (fun s => s <| pa_frames_sent ::= plus n |>).
Proof. by apply (counter_step 15 n). Qed.
Lemma step_frames_received n : step_ok (fun s => s <| pa_frames_received ::= plus n |>).
Proof. by apply (counter_step 16 n). Qed.
Lemma step_tcp_bytes_sent n : step_ok (fun s => s <| pa_tcp_bytes_sent ::= plus n |>).
Proof. by apply (counter_step 17 n). Qed.
Lemma step_tcp_bytes_received n : step_ok (fun s => s <| pa_tcp_bytes_received ::= plus n |>).
Proof. by apply (counter_step 18 n). Qed.
Lemma step_partial_frames n : step_ok (fun s => s <| pa_partial_frames ::= plus n |>).
Proof. by apply (counter_step 19 n). Qed.
Lemma step_peer_closes n : step_ok (fun s => s <| pa_peer_closes ::= plus n |>).
Proof. by apply (counter_step 20 n). Qed.
Lemma step_expectation_met n : step_ok (fun s => s <| pa_expectation_met ::= plus n |>).
Proof. by apply (counter_step 21 n). Qed.
Lemma step_expectation_short n : step_ok (fun s => s <| pa_expectation_short ::= plus n |>).
Proof. by apply (counter_step 22 n). Qed.
Lemma step_dg_sent n : step_ok (fun s => s <| pa_dg_sent ::= plus n |>).
Proof. by apply (counter_step 23 n). Qed.
Lemma step_dg_received n : step_ok (fun s => s <| pa_dg_received ::= plus n |>).
Proof. by apply (counter_step 24 n). Qed.
Lemma step_with_response n : step_ok (fun s => s <| pa_with_response ::= plus n |>).
Proof. by apply (counter_step 25 n). Qed.
Lemma step_silent n : step_ok (fun s => s <| pa_silent ::= plus n |>).
Proof. by apply (counter_step 26 n). Qed.
Lemma step_repeated n : step_ok (fun s => s <| pa_repeated ::= plus n |>).
Proof. by apply (counter_step 27 n). Qed.
Lemma step_echoed n : step_ok (fun s => s <| pa_echoed ::= plus n |>).
Proof. by apply (counter_step 28 n). Qed.
Lemma step_icmp n : step_ok (fun s => s <| pa_icmp ::= plus n |>).
Proof. by apply (counter_step 29 n). Qed.
Lemma step_hs_attempted n : step_ok (fun s => s <| pa_hs_attempted ::= plus n |>).
Proof. by apply (counter_step 30 n). Qed.
Lemma step_hs_completed n : step_ok (fun s => s <| pa_hs_completed ::= plus n |>).
Proof. by apply (counter_step 31 n). Qed.
Lemma step_hs_failed n : step_ok (fun s => s <| pa_hs_failed ::= plus n |>).
Proof. by apply (counter_step 32 n). Qed.
Lemma step_hs_timed_out n : step_ok (fun s => s <| pa_hs_timed_out ::= plus n |>).
Proof. by apply (counter_step 33 n). Qed.
Lemma step_messages_sent n : step_ok (fun s => s <| pa_messages_sent ::= plus n |>).
Proof. by apply (counter_step 34 n). Qed.
Lemma step_tn_attempted n : step_ok (fun s => s <| pa_tn_attempted ::= plus n |>).
Proof. by apply (counter_step 35 n). Qed.
Lemma step_tn_established n : step_ok (fun s => s <| pa_tn_established ::= plus n |>).
Proof. by apply (counter_step 36 n). Qed.
Lemma step_tn_refused n : step_ok (fun s => s <| pa_tn_refused ::= plus n |>).
Proof. by apply (counter_step 37 n). Qed.
Lemma step_tn_failed n : step_ok (fun s => s <| pa_tn_failed ::= plus n |>).
Proof. by apply (counter_step 38 n). Qed.
Lemma step_tn_timed_out n : step_ok (fun s => s <| pa_tn_timed_out ::= plus n |>).
Proof. by apply (counter_step 39 n). Qed.
Lemma step_tn_canceled n : step_ok (fun s => s <| pa_tn_canceled ::= plus n |>).
Proof. by apply (counter_step 40 n). Qed.
Lemma step_first_message vs : Forall is_u64 vs -> step_ok (fun s => s <| pa_first_message ::= record_all vs |>).
Proof. intros. by apply (stat_step 0 vs). Qed.
Lemma step_rtt vs : Forall is_u64 vs -> step_ok (fun s => s <| pa_rtt ::= record_all vs |>).
Proof. intros. by apply (stat_step 1 vs). Qed.
Lemma step_first_response vs : Forall is_u64 vs -> step_ok (fun s => s <| pa_first_response ::= record_all vs |>).
Proof. intros. by apply (stat_step 2 vs). Qed.
Lemma step_hs_duration vs : Forall is_u64 vs -> step_ok (fun s => s <| pa_hs_duration ::= record_all vs |>).
Proof. intros. by apply (stat_step 3 vs). Qed.
Lemma step_tn_setup vs : Forall is_u64 vs -> step_ok (fun s => s <| pa_tn_setup ::= record_all vs |>).
Proof. intros. by apply (stat_step 4 vs). Qed.
#[local] Hint Resolve step_fallback_attempts step_units_with_fallback step_units_over_h3
  step_grpc_missing_status step_streams_opened step_messages_received step_with_messages
  step_ws_opened step_ws_rejected step_ws_not_opened step_ws_clean step_ws_sent
  step_ws_received step_rtt_unpaired step_tcp_connected step_frames_sent step_frames_received
  step_tcp_bytes_sent step_tcp_bytes_received step_partial_frames step_peer_closes
  step_expectation_met step_expectation_short step_dg_sent step_dg_received step_with_response
  step_silent step_repeated step_echoed step_icmp step_hs_attempted step_hs_completed
  step_hs_failed step_hs_timed_out step_messages_sent step_tn_attempted step_tn_established
  step_tn_refused step_tn_failed step_tn_timed_out step_tn_canceled step_first_message
  step_rtt step_first_response step_hs_duration step_tn_setup step_grpc_codes step_ends
  step_id : anvil.


(** Decompose a chain of field updates into its steps. *)
Ltac steps :=
  unfold inc, inc_if;
  repeat match goal with
  | |- step_ok (fun s => upd_field ?f (LatencyStat_record ?v) (@?E s)) =>
      change (step_ok (fun s => upd_field f (record_all [v]) (E s))); cbv beta
  | |- step_ok (fun s => upd_field ?f (fun st => fold_left _ ?vs st) (@?E s)) =>
      change (step_ok (fun s => upd_field f (record_all vs) (E s))); cbv beta
  | |- step_ok (fun s => upd_field ?f ?g (upd_field ?f' ?g' (@?E s))) =>
      apply (step_comp (fun s => upd_field f' g' (E s)) (fun s => upd_field f g s)); [|solve [auto with anvil]]
  | |- step_ok (fun s => upd_field ?f ?g s) => solve [auto with anvil]
  | |- step_ok (fun s => upd_field ?f ?g (@?E s)) =>
      apply (step_comp E (fun s => upd_field f g s)); [|solve [auto with anvil]]
  end; auto with anvil.

(** The values of an observation that are recorded as latencies are [u64]. *)
Definition obs_ok (ob : SendObservation) : Prop :=
  let p := ob_proto ob in
  from_option is_u64 True (po_first_message_us p) /\
  from_option (fun w => Forall is_u64 (wo_rtts w)) True (po_ws p) /\
  from_option (fun d => from_option is_u64 True (dg_ttfr_us d) /\
    from_option (fun h => from_option is_u64 True h.2) True (dg_handshake d) /\
    from_option (fun t => match tu_end t with TunnelEnd_Established us => is_u64 us | _ => True end)
      True (dg_tunnel d)) True (po_dgram p).

Lemma u64_singleton v : is_u64 v -> Forall is_u64 [v].
Proof. intros. by apply List.Forall_cons. Qed.
#[local] Hint Resolve u64_singleton : anvil.

Lemma record_http_step p : step_ok (record_http p).
Proof. unfold record_http. steps. Qed.

Lemma record_grpc_step b p : step_ok (record_grpc b p).
Proof.
  unfold record_grpc. destruct (po_grpc_status p), b; steps.
Qed.

Lemma record_stream_step p :
  from_option is_u64 True (po_first_message_us p) -> step_ok (record_stream p).
Proof.
  unfold record_stream. intros Hp.
  destruct (po_stream_opened p && _), (po_first_message_us p), (po_stream_end p); cbv zeta; steps.
Qed.

Lemma record_ws_step b w : Forall is_u64 (wo_rtts w) -> step_ok (record_ws b w).
Proof.
  unfold record_ws. intros Hw.
  destruct (wo_opened w); [destruct (wo_close w) as [[by_ code]|]|destruct (wo_rejected w)];
    cbv zeta; steps.
Qed.

Lemma record_tcp_step t : step_ok (record_tcp t).
Proof. unfold record_tcp. destruct (tc_expectation t) as [[]|]; cbv zeta; steps. Qed.

Lemma record_response_step b d :
  from_option is_u64 True (dg_ttfr_us d) -> step_ok (record_response b d).
Proof.
  unfold record_response. intros Hd.
  destruct b; [destruct (0 <? dg_received d); [destruct (dg_ttfr_us d)|]|]; cbv zeta; steps.
Qed.

Lemma record_handshake_step d :
  from_option (fun h : PhaseStatus * option Z => from_option is_u64 True h.2) True (dg_handshake d) ->
  step_ok (record_handshake d).
Proof.
  unfold record_handshake. intros Hd.
  destruct (dg_handshake d) as [[[] [us|]]|]; cbv zeta; steps.
Qed.

Lemma record_tunnel_step d :
  from_option (fun t => match tu_end t with TunnelEnd_Established us => is_u64 us | _ => True end)
    True (dg_tunnel d) ->
  step_ok (record_tunnel d).
Proof.
  unfold record_tunnel. intros Hd.
  destruct (dg_tunnel d) as [t|]; simpl in Hd; [destruct (tu_end t)|]; cbv zeta; steps.
Qed.

Lemma step_option {A} (g : A -> ProtoAccum H -> ProtoAccum H) f x :
  step_ok f -> (forall a, x = Some a -> step_ok (g a)) ->
  step_ok (fun s => match x with Some a => g a (f s) | None => f s end).
Proof. intros Hf Hg. destruct x as [a|]; [|done]. apply (step_comp f (g a)); auto. Qed.

Lemma record_step ob : obs_ok ob -> step_ok (ProtoAccum_record ob).
Proof.
  intros (P1 & P2 & P3). unfold ProtoAccum_record. set (b := bool_decide _). clearbody b. cbv zeta.
  apply (step_option (fun d s => record_tunnel d (record_handshake d (record_response b d s)))
    (fun s => match po_tcp (ob_proto ob) with Some t => record_tcp t _ | None => _ end)).
  - apply (step_option record_tcp (fun s => match po_ws (ob_proto ob) with Some w => _ | None => _ end));
      [|intros; apply record_tcp_step].
    apply (step_option (record_ws b)).
    + apply (step_comp _ (record_stream _)); [|by apply record_stream_step].
      apply (step_comp _ (record_grpc _ _)); [apply record_http_step|apply record_grpc_step].
    + intros w E. rewrite E in P2. by apply record_ws_step.
  - intros d E. rewrite E in P3. destruct P3 as (? & ? & ?).
    apply (step_comp _ (record_tunnel d)); [|by apply record_tunnel_step].
    apply (step_comp _ (record_handshake d)); [|by apply record_handshake_step].
    by apply record_response_step.
Qed.

Lemma Forall_zip_with_range {A} (P : A -> Prop) op (l k : list A) :
  Forall P l -> Forall P k -> (forall a b, P a -> P b -> P (op a b)) -> Forall P (zip_with op l k).
Proof.
  intros Hl Hk Hop. revert k Hk. induction Hl as [|x l Hx Hl IH]; intros k Hk; simpl; [done|].
  destruct Hk as [|y k Hy Hk]; simpl; auto.
Qed.

(** ** Shards *)

(** Reference: one accumulator that recorded every observation in order. *)
Definition proto_of (obs : list SendObservation) : ProtoAccum H :=
  fold_left (fun s ob => ProtoAccum_record ob s) obs ProtoAccum_new.

(** The accumulators the load engine builds: shards record and are merged in
    any shape. The list holds the observations recorded, in merge order. *)
Inductive proto_reach : ProtoAccum H -> list SendObservation -> Prop :=
  | proto_reach_new : proto_reach ProtoAccum_new []
  | proto_reach_record s obs ob : proto_reach s obs ->
      proto_reach (ProtoAccum_record ob s) (obs ++ [ob])
  | proto_reach_merge s o obs obs' : proto_reach s obs -> proto_reach o obs' ->
      proto_reach (ProtoAccum_merge s o) (obs ++ obs').

Lemma proto_of_snoc obs ob : proto_of (obs ++ [ob]) = ProtoAccum_record ob (proto_of obs).
Proof. unfold proto_of. by rewrite fold_left_app. Qed.

Lemma proto_new_ok : proto_ok ProtoAccum_new.
Proof.
  split; [|split; [|split]].
  - unfold pa_counters. simpl. u64s.
  - unfold pa_stats. simpl. repeat (apply List.Forall_cons; [apply stat_ok_new|]). apply List.Forall_nil.
  - split; [split; [constructor|apply List.Forall_nil]|apply List.Forall_nil].
  - split; [constructor|apply List.Forall_nil].
Qed.

Lemma proto_of_ok obs : Forall obs_ok obs -> proto_ok (proto_of obs).
Proof.
  induction obs as [|ob obs IH] using rev_ind; intros Hall; [apply proto_new_ok|].
  apply Forall_app in Hall as [Hall Hob]. inversion_clear Hob.
  rewrite proto_of_snoc. apply step_keeps; [by apply record_step|auto].
Qed.

Lemma zip_add_zeros l : Forall is_u64 l -> zip_with add64 l (replicate (length l) 0) = l.
Proof. induction 1 as [|x l Hx Hl IH]; simpl; [done|]. by rewrite IH, add64_0_r. Qed.

Lemma zip_merge_news (l : list (LatencyStat H)) :
  zip_with LatencyStat_merge l (replicate (length l) (LatencyStat_new SECONDARY_SIGFIG)) = l.
Proof. induction l as [|x l IH]; simpl; [done|]. by rewrite IH, stat_merge_new. Qed.

Lemma proto_merge_new s : proto_ok s -> ProtoAccum_merge s ProtoAccum_new ≡ s.
Proof.
  intros (E1 & E2 & E3 & E4). repeat split.
  - rewrite merge_counters. apply (zip_add_zeros (pa_counters s)), E1.
  - rewrite merge_stats. change (pa_stats ProtoAccum_new)
      with (replicate (length (pa_stats s)) (LatencyStat_new (H := H) SECONDARY_SIGFIG)).
    by rewrite zip_merge_news.
Qed.

Lemma proto_merge_of obs obs' : Forall obs_ok obs -> Forall obs_ok obs' ->
  ProtoAccum_merge (proto_of obs) (proto_of obs') ≡ proto_of (obs ++ obs').
Proof.
  intros Hobs. induction obs' as [|ob obs' IH] using rev_ind; intros Hall.
  - rewrite app_nil_r. by apply proto_merge_new, proto_of_ok.
  - apply Forall_app in Hall as [Hall Hob]. inversion_clear Hob as [|?? Hob' _].
    rewrite app_assoc, !proto_of_snoc.
    etrans; [apply step_merges; [by apply record_step|by apply proto_of_ok..]|].
    apply step_proper; [by apply record_step|auto].
Qed.

#[global] Instance proto_merge_proper : Proper ((≡) ==> (≡) ==> (≡)) ProtoAccum_merge.
Proof.
  intros s s' (E1 & E2 & E3 & E4) o o' (F1 & F2 & F3 & F4). repeat split.
  - by rewrite !merge_counters, E1, F1.
  - rewrite !merge_stats. revert E2 F2.
    generalize (pa_stats s) (pa_stats s') (pa_stats o) (pa_stats o').
    intros l l' k k' Hl. revert k k'. induction Hl as [|x y l l' Hx Hl IH]; intros k k' Hk; [done|].
    destruct Hk as [|u v k k' Hu Hk]; constructor; [by rewrite Hx, Hu|by apply IH].
  - simpl. by rewrite E3, F3.
  - simpl. by rewrite E4, F4.
Qed.

Lemma proto_reach_of s obs : proto_reach s obs -> Forall obs_ok obs -> s ≡ proto_of obs.
Proof.
  induction 1 as [|s obs ob Hr IH|s o obs obs' _ IH1 _ IH2]; intros Hall; [done|..].
  - apply Forall_app in Hall as [Hall Hob]. inversion_clear Hob as [|?? Hob' _].
    rewrite proto_of_snoc. apply step_proper; [by apply record_step|auto].
  - apply Forall_app in Hall as [Hall Hall'].
    rewrite IH1, IH2 by done. by apply proto_merge_of.
Qed.

(** However the observations of a run are spread over shards and however
    the shards are merged, the accumulator is the one of a single shard that
    recorded them all: every counter, every status and close count, and every
    latency distribution. *)
Theorem proto_sharding s obs :
  proto_reach s obs -> Forall obs_ok obs ->
  pa_counters s = pa_counters (proto_of obs) /\
  pa_grpc_codes s = pa_grpc_codes (proto_of obs) /\ pa_ends s = pa_ends (proto_of obs) /\
  map LatencyStat_summary (pa_stats s) = map LatencyStat_summary (pa_stats (proto_of obs)).
Proof.
  intros Hr Hall. destruct (proto_reach_of s obs Hr Hall) as (E1 & E2 & E3 & E4).
  repeat split; try done. induction E2 as [|x y l k Hxy _ IH]; simpl; [done|]. by rewrite IH, Hxy.
Qed.

Lemma proto_reach_ok s obs : proto_reach s obs -> Forall obs_ok obs -> proto_ok s.
Proof.
  induction 1 as [|s obs ob Hr IH|s o obs obs' _ IH1 _ IH2]; intros Hall; [apply proto_new_ok|..].
  - apply Forall_app in Hall as [Hall Hob]. inversion_clear Hob as [|?? Hob' _].
    apply step_keeps; [by apply record_step|auto].
  - apply Forall_app in Hall as [Hall Hall'].
    destruct (IH1 Hall) as (E1 & E2 & E3 & E4), (IH2 Hall') as (F1 & F2 & F3 & F4).
    split; [|split; [|split]].
    + rewrite merge_counters. apply Forall_zip_with_range; [done..|]. intros. apply add64_range.
    + rewrite merge_stats. apply Forall_zip_with_range; [done..|]. intros. by apply stat_ok_merge.
    + rewrite merge_grpc by done. by apply grpc_codes_add_ok.
    + simpl. by apply om_add_all_ok.
Qed.

(** ** What the counters count *)

(** The sum of a measure of the observations. *)
Definition tally (k : SendObservation -> Z) (obs : list SendObservation) : Z :=
  foldr (fun ob n => k ob + n) 0 obs.

Lemma tally_snoc k obs ob : tally k (obs ++ [ob]) = tally k obs + k ob.
Proof. unfold tally. induction obs as [|x obs IH]; simpl in *; lia. Qed.

Lemma tally_app k obs obs' : tally k (obs ++ obs') = tally k obs + tally k obs'.
Proof. unfold tally. induction obs as [|x obs IH]; simpl in *; lia. Qed.

Lemma tally_add k k' obs : tally (fun ob => k ob + k' ob) obs = tally k obs + tally k' obs.
Proof. unfold tally. induction obs as [|x obs IH]; simpl in *; lia. Qed.

Lemma tally_ext k k' obs : (forall ob, k ob = k' ob) -> tally k obs = tally k' obs.
Proof. intros E. unfold tally. induction obs as [|x obs IH]; simpl; [done|]. by rewrite IH, E. Qed.

Lemma tally_bound k obs : (forall ob, 0 <= k ob <= 1) -> 0 <= tally k obs <= Z.of_nat (length obs).
Proof.
  intros Hk. unfold tally. induction obs as [|x obs IH]; simpl foldr; simpl length; [lia|].
  specialize (Hk x). lia.
Qed.

(** Counters that every recording raises by [incs ob] hold its tallies. *)
Lemma counts_tally (c : ProtoAccum H -> list Z) incs obs i :
  (forall s ob, proto_ok s -> obs_ok ob ->
    c (ProtoAccum_record ob s) = zip_with add64 (c s) (incs ob) /\ length (c s) = length (incs ob)) ->
  nth i (c ProtoAccum_new) 0 = 0 -> Forall obs_ok obs ->
  nth i (c (proto_of obs)) 0 = tally (fun ob => nth i (incs ob) 0) obs mod 2 ^ 64.
Proof.
  intros Hc Hnew. induction obs as [|ob obs IH] using rev_ind; intros Hall; [done|].
  apply Forall_app in Hall as [Hall Hob]. inversion_clear Hob as [|?? Hob' _].
  rewrite proto_of_snoc, tally_snoc.
  destruct (Hc (proto_of obs) ob) as [-> Hlen]; [by apply proto_of_ok|done|].
  assert (forall l k : list Z, length l = length k ->
    nth i (zip_with add64 l k) 0 = nth i l 0 ⊞ nth i k 0) as Hnth.
  { clear. revert i. intros i l. revert i. induction l as [|x l IH]; intros i [|y k] E; try done.
    - by destruct i.
    - destruct i as [|i]; simpl; [done|]. apply IH. by injection E. }
  rewrite Hnth, IH by done. wrap_eq.
Qed.

(** Tunnel setups by how they ended, and the tunnel of an observation. *)
Definition ob_tunnel (ob : SendObservation) : option TunnelEnd :=
  d ← po_dgram (ob_proto ob); t ← dg_tunnel d; Some (tu_end t).

Definition tunnel_counts s : list Z :=
  [pa_tn_attempted s; pa_tn_established s; pa_tn_refused s; pa_tn_failed s; pa_tn_timed_out s;
   pa_tn_canceled s].

Definition tunnel_incs (e : option TunnelEnd) : list Z :=
  match e with
  | None => [0; 0; 0; 0; 0; 0]
  | Some (TunnelEnd_Established _) => [1; 1; 0; 0; 0; 0]
  | Some TunnelEnd_Refused => [1; 0; 1; 0; 0; 0]
  | Some TunnelEnd_Failed => [1; 0; 0; 1; 0; 0]
  | Some TunnelEnd_TimedOut => [1; 0; 0; 0; 1; 0]
  | Some TunnelEnd_Canceled => [1; 0; 0; 0; 0; 1]
  end.

(** The completed exchanges with and without a response. *)
Definition response_counts s : list Z := [pa_with_response s; pa_silent s].

Definition response_incs (ob : SendObservation) : list Z :=
  match po_dgram (ob_proto ob) with
  | Some d =>
      if bool_decide (ob_terminal ob = Terminal_Completed)
      then if 0 <? dg_received d then [1; 0] else [0; 1]
      else [0; 0]
  | None => [0; 0]
  end.

(** WebSocket sessions by how the handshake ended. *)
Definition ws_counts s : list Z := [pa_ws_opened s; pa_ws_rejected s; pa_ws_not_opened s].

Definition ws_incs (ob : SendObservation) : list Z :=
  match po_ws (ob_proto ob) with
  | Some w => if wo_opened w then [1; 0; 0] else if wo_rejected w then [0; 1; 0] else [0; 0; 1]
  | None => [0; 0; 0]
  end.

Ltac part_keeps := intros; unfold record_http, record_grpc, record_stream, record_ws, record_tcp,
  record_response, record_handshake, record_tunnel; cbv zeta; repeat case_match; reflexivity.

Section Keeps.
Variable f : ProtoAccum H -> list Z.

Record outside_datagram : Prop := {
  keep_http : forall p s, f (record_http p s) = f s;
  keep_grpc : forall b p s, f (record_grpc b p s) = f s;
  keep_stream : forall p s, f (record_stream p s) = f s;
  keep_tcp : forall t s, f (record_tcp t s) = f s;
}.
End Keeps.

Lemma outside_tunnel : outside_datagram tunnel_counts.
Proof. split; part_keeps. Qed.
Lemma outside_response : outside_datagram response_counts.
Proof. split; part_keeps. Qed.
Lemma outside_ws : outside_datagram ws_counts.
Proof. split; part_keeps. Qed.

Lemma proto_ok_counts s : proto_ok s ->
  Forall is_u64 (tunnel_counts s) /\ Forall is_u64 (response_counts s) /\ Forall is_u64 (ws_counts s).
Proof.
  intros [Hc _].
  change (tunnel_counts s) with (drop 35 (pa_counters s)).
  change (response_counts s) with (take 2 (drop 25 (pa_counters s))).
  change (ws_counts s) with (take 3 (drop 7 (pa_counters s))).
  auto using Forall_drop, Forall_take.
Qed.

(** Close an equation between counter lists, the unchanged ones by their
    range. *)
Ltac counts_eq Hu :=
  rewrite ?list.Forall_cons in Hu; simpl; unfold inc, inc_if, plus; simpl;
  rewrite ?add64_0_r by tauto; reflexivity.

Lemma tunnel_counts_part d s : Forall is_u64 (tunnel_counts s) ->
  tunnel_counts (record_tunnel d s) =
  zip_with add64 (tunnel_counts s) (tunnel_incs (tu_end <$> dg_tunnel d)).
Proof.
  intros Hu. unfold tunnel_counts in *. unfold record_tunnel. cbv zeta.
  destruct (dg_tunnel d) as [t|]; simpl; [destruct (tu_end t)|]; counts_eq Hu.
Qed.

Lemma response_counts_part ob d s : Forall is_u64 (response_counts s) ->
  po_dgram (ob_proto ob) = Some d ->
  response_counts (record_response (bool_decide (ob_terminal ob = Terminal_Completed)) d s) =
  zip_with add64 (response_counts s) (response_incs ob).
Proof.
  intros Hu E. unfold response_counts, response_incs in *. rewrite E. unfold record_response. cbv zeta.
  destruct (bool_decide _); [destruct (0 <? dg_received d); [destruct (dg_ttfr_us d)|]|]; counts_eq Hu.
Qed.

Lemma ws_counts_part ob w b s : Forall is_u64 (ws_counts s) ->
  po_ws (ob_proto ob) = Some w ->
  ws_counts (record_ws b w s) = zip_with add64 (ws_counts s) (ws_incs ob).
Proof.
  intros Hu E. unfold ws_counts, ws_incs in *. rewrite E. unfold record_ws. cbv zeta.
  destruct (wo_opened w); [destruct (wo_close w) as [[??]|]|destruct (wo_rejected w)]; counts_eq Hu.
Qed.

(** The accumulator before the datagram part of a recording. *)
Definition record_streams ob s : ProtoAccum H :=
  let p := ob_proto ob in
  let completed := bool_decide (ob_terminal ob = Terminal_Completed) in
  let s := record_stream p (record_grpc completed p (record_http p s)) in
  let s := match po_ws p with Some w => record_ws completed w s | None => s end in
  match po_tcp p with Some t => record_tcp t s | None => s end.

Lemma record_eq ob s :
  ProtoAccum_record ob s =
  match po_dgram (ob_proto ob) with
  | Some d => record_tunnel d (record_handshake d (record_response
      (bool_decide (ob_terminal ob = Terminal_Completed)) d (record_streams ob s)))
  | None => record_streams ob s
  end.
Proof. reflexivity. Qed.

(** The streams part leaves counts of the datagram part alone. *)
Lemma record_streams_keeps c ob s : outside_datagram c ->
  (forall b w s, c (record_ws b w s) = c s) -> c (record_streams ob s) = c s.
Proof.
  intros [Kh Kg Ks Kt] Kw. unfold record_streams. cbv zeta.
  destruct (po_tcp _); rewrite ?Kt; destruct (po_ws _); by rewrite ?Kw, Ks, Kg, Kh.
Qed.

Lemma tunnel_counts_record s ob : proto_ok s ->
  tunnel_counts (ProtoAccum_record ob s) = zip_with add64 (tunnel_counts s) (tunnel_incs (ob_tunnel ob)).
Proof.
  intros Hs. pose proof (proto_ok_counts s Hs) as (Hu & _).
  assert (tunnel_counts (record_streams ob s) = tunnel_counts s) as E.
  { apply record_streams_keeps; [apply outside_tunnel|part_keeps]. }
  rewrite record_eq. unfold ob_tunnel. destruct (po_dgram _) as [d|]; simpl.
  - assert (tunnel_counts (record_handshake d (record_response
      (bool_decide (ob_terminal ob = Terminal_Completed)) d (record_streams ob s))) = tunnel_counts s) as E'.
    { rewrite <- E. generalize (record_streams ob s). part_keeps. }
    rewrite tunnel_counts_part by by rewrite E'. rewrite E'. by destruct (dg_tunnel d).
  - rewrite E. unfold tunnel_counts in *. counts_eq Hu.
Qed.

Lemma response_counts_record s ob : proto_ok s ->
  response_counts (ProtoAccum_record ob s) = zip_with add64 (response_counts s) (response_incs ob).
Proof.
  intros Hs. pose proof (proto_ok_counts s Hs) as (_ & Hu & _).
  assert (response_counts (record_streams ob s) = response_counts s) as E.
  { apply record_streams_keeps; [apply outside_response|part_keeps]. }
  rewrite record_eq. destruct (po_dgram _) as [d|] eqn:Ed.
  - etrans; [|by rewrite <- E; apply (response_counts_part ob d); [rewrite E|]].
    generalize (record_response (bool_decide (ob_terminal ob = Terminal_Completed)) d (record_streams ob s)).
    part_keeps.
  - rewrite E. unfold response_incs. rewrite Ed. unfold response_counts in *. counts_eq Hu.
Qed.

Lemma ws_counts_record s ob : proto_ok s ->
  ws_counts (ProtoAccum_record ob s) = zip_with add64 (ws_counts s) (ws_incs ob).
Proof.
  intros Hs. pose proof (proto_ok_counts s Hs) as (_ & _ & Hu).
  destruct outside_ws as [Kh Kg Ks Kt].
  assert (ws_counts (record_streams ob s) = zip_with add64 (ws_counts s) (ws_incs ob)) as E.
  { unfold record_streams. cbv zeta.
    assert (ws_counts (match po_ws (ob_proto ob) with
      | Some w => record_ws (bool_decide (ob_terminal ob = Terminal_Completed)) w
          (record_stream (ob_proto ob) (record_grpc (bool_decide (ob_terminal ob = Terminal_Completed))
            (ob_proto ob) (record_http (ob_proto ob) s)))
      | None => record_stream (ob_proto ob) (record_grpc (bool_decide (ob_terminal ob = Terminal_Completed))
            (ob_proto ob) (record_http (ob_proto ob) s)) end)
      = zip_with add64 (ws_counts s) (ws_incs ob)) as E.
    { destruct (po_ws (ob_proto ob)) as [w|] eqn:Ew.
      - rewrite (ws_counts_part ob w); rewrite ?Ks, ?Kg, ?Kh; done.
      - rewrite Ks, Kg, Kh. unfold ws_incs. rewrite Ew. unfold ws_counts in *. counts_eq Hu. }
    destruct (po_tcp _); [by rewrite Kt|done]. }
  rewrite record_eq. destruct (po_dgram _) as [d|]; [|done]. rewrite <- E.
  generalize (record_streams ob s). part_keeps.
Qed.

Lemma nth_incs_bound i (l : list Z) : Forall (fun x => 0 <= x <= 1) l -> 0 <= nth i l 0 <= 1.
Proof. intros Hl. revert i. induction Hl as [|x l Hx Hl IH]; intros [|i]; simpl; try lia. apply IH. Qed.

Ltac incs_bound := repeat case_match; repeat apply List.Forall_cons; try apply List.Forall_nil; lia.

Lemma tunnel_incs_bound e : Forall (fun x => 0 <= x <= 1) (tunnel_incs e).
Proof. unfold tunnel_incs. incs_bound. Qed.
Lemma response_incs_bound ob : Forall (fun x => 0 <= x <= 1) (response_incs ob).
Proof. unfold response_incs. incs_bound. Qed.
Lemma ws_incs_bound ob : Forall (fun x => 0 <= x <= 1) (ws_incs ob).
Proof. unfold ws_incs. incs_bound. Qed.

(** Below [2^64] observations a merged counter is exactly its tally. *)
Lemma exact_tally (c : ProtoAccum H -> list Z) incs s obs i :
  (forall s o, s ≡ o -> c s = c o) ->
  (forall s ob, proto_ok s -> obs_ok ob ->
    c (ProtoAccum_record ob s) = zip_with add64 (c s) (incs ob) /\ length (c s) = length (incs ob)) ->
  (forall ob, Forall (fun x => 0 <= x <= 1) (incs ob)) ->
  nth i (c ProtoAccum_new) 0 = 0 ->
  s ≡ proto_of obs -> Forall obs_ok obs -> Z.of_nat (length obs) < 2 ^ 64 ->
  nth i (c s) 0 = tally (fun ob => nth i (incs ob) 0) obs.
Proof.
  intros Hp Hc Hb Hnew E Hall Hlen. rewrite (Hp _ _ E), (counts_tally c incs) by done.
  apply Z.mod_small. pose proof (tally_bound (fun ob => nth i (incs ob) 0) obs) as Ht.
  assert (forall ob, 0 <= nth i (incs ob) 0 <= 1) as Hn by (intros; apply nth_incs_bound, Hb).
  specialize (Ht Hn). lia.
Qed.

Definition has_tunnel (ob : SendObservation) : bool := if ob_tunnel ob is Some _ then true else false.
Definition completed_datagram (ob : SendObservation) : bool :=
  bool_decide (ob_terminal ob = Terminal_Completed) &&
  (if po_dgram (ob_proto ob) is Some _ then true else false).
Definition ws_session (ob : SendObservation) : bool :=
  if po_ws (ob_proto ob) is Some _ then true else false.

(** The denominators of the report partition their units. Every tunnel
    setup is counted once, by how it ended; every completed datagram exchange
    is counted once, as answered or silent; every WebSocket session is counted
    once, as opened, rejected or never opened. *)
Theorem proto_denominators s obs :
  proto_reach s obs -> Forall obs_ok obs -> Z.of_nat (length obs) < 2 ^ 64 ->
  pa_tn_attempted s = tally (fun ob => Z.b2z (has_tunnel ob)) obs /\
  pa_tn_attempted s = pa_tn_established s + pa_tn_refused s + pa_tn_failed s +
    pa_tn_timed_out s + pa_tn_canceled s /\
  pa_with_response s + pa_silent s = tally (fun ob => Z.b2z (completed_datagram ob)) obs /\
  pa_ws_opened s + pa_ws_rejected s + pa_ws_not_opened s =
    tally (fun ob => Z.b2z (ws_session ob)) obs.
Proof.
  intros Hr Hall Hlen. pose proof (proto_reach_of s obs Hr Hall) as E.
  assert (forall i, nth i (tunnel_counts s) 0 = tally (fun ob => nth i (tunnel_incs (ob_tunnel ob)) 0) obs) as Ht.
  { intros i. apply (exact_tally tunnel_counts (fun ob => tunnel_incs (ob_tunnel ob))); try done.
    - intros s1 s2 (E1 & _). exact (f_equal (drop 35) E1).
    - intros. split; [by apply tunnel_counts_record|]. by destruct (ob_tunnel ob) as [[]|].
    - intros. apply tunnel_incs_bound.
    - by do 6 (destruct i as [|i]; [done|]); destruct i. }
  assert (forall i, nth i (response_counts s) 0 = tally (fun ob => nth i (response_incs ob) 0) obs) as Hs.
  { intros i. apply (exact_tally response_counts response_incs); try done.
    - intros s1 s2 (E1 & _). exact (f_equal (fun l => take 2 (drop 25 l)) E1).
    - intros. split; [by apply response_counts_record|]. unfold response_incs. by repeat case_match.
    - intros. apply response_incs_bound.
    - by do 2 (destruct i as [|i]; [done|]); destruct i. }
  assert (forall i, nth i (ws_counts s) 0 = tally (fun ob => nth i (ws_incs ob) 0) obs) as Hw.
  { intros i. apply (exact_tally ws_counts ws_incs); try done.
    - intros s1 s2 (E1 & _). exact (f_equal (fun l => take 3 (drop 7 l)) E1).
    - intros. split; [by apply ws_counts_record|]. unfold ws_incs. by repeat case_match.
    - intros. apply ws_incs_bound.
    - by do 3 (destruct i as [|i]; [done|]); destruct i. }
  pose proof (Ht 0%nat) as T0. pose proof (Ht 1%nat) as T1. pose proof (Ht 2%nat) as T2.
  pose proof (Ht 3%nat) as T3. pose proof (Ht 4%nat) as T4. pose proof (Ht 5%nat) as T5.
  pose proof (Hs 0%nat) as S0'. pose proof (Hs 1%nat) as S1.
  pose proof (Hw 0%nat) as W0. pose proof (Hw 1%nat) as W1. pose proof (Hw 2%nat) as W2.
  simpl in *. rewrite T0, T1, T2, T3, T4, T5, S0', S1, W0, W1, W2, <- !tally_add.
  split; [|split; [|split]]; apply tally_ext; intros ob.
  - unfold has_tunnel. destruct (ob_tunnel ob) as [[]|]; reflexivity.
  - by destruct (ob_tunnel ob) as [[]|].
  - unfold completed_datagram, response_incs.
    destruct (po_dgram _) as [d|], (bool_decide _); try done. by destruct (0 <? dg_received d).
  - unfold ws_session, ws_incs.
    destruct (po_ws _) as [w|]; [|done]. by destruct (wo_opened w), (wo_rejected w).
Qed.

(** ** gRPC status counts *)

Definition grpc_status_of (ob : SendObservation) : option Z :=
  if bool_decide (ob_terminal ob = Terminal_Completed) then po_grpc_status (ob_proto ob) else None.

Definition has_grpc_status (ob : SendObservation) : bool :=
  if grpc_status_of ob is Some _ then true else false.

Lemma grpc_codes_tunnel d s : pa_grpc_codes (record_tunnel d s) = pa_grpc_codes s.
Proof. part_keeps. Qed.

Lemma grpc_codes_handshake d s : pa_grpc_codes (record_handshake d s) = pa_grpc_codes s.
Proof. part_keeps. Qed.

Lemma grpc_codes_record s ob :
  pa_grpc_codes (ProtoAccum_record ob s) =
  match grpc_status_of ob with
  | Some c => om_count (grpc_status_bucket c) 1 (pa_grpc_codes s)
  | None => pa_grpc_codes s
  end.
Proof.
  rewrite record_eq.
  assert (forall d s', pa_grpc_codes (record_tunnel d (record_handshake d (record_response
    (bool_decide (ob_terminal ob = Terminal_Completed)) d s'))) = pa_grpc_codes s') as Hd.
  { intros d s'. rewrite grpc_codes_tunnel, grpc_codes_handshake. part_keeps. }
  assert (pa_grpc_codes (record_streams ob s) =
    match grpc_status_of ob with
    | Some c => om_count (grpc_status_bucket c) 1 (pa_grpc_codes s)
    | None => pa_grpc_codes s
    end) as Hs.
  { unfold record_streams, grpc_status_of. cbv zeta. set (b := bool_decide _). clearbody b.
    transitivity (pa_grpc_codes (record_grpc b (ob_proto ob) (record_http (ob_proto ob) s))).
    - set (s1 := record_stream _ _).
      transitivity (pa_grpc_codes s1); [|unfold s1; generalize (record_grpc b (ob_proto ob)
        (record_http (ob_proto ob) s)); part_keeps].
      destruct (po_tcp _), (po_ws _); try done; clearbody s1; part_keeps.
    - unfold record_grpc. cbv zeta. destruct (po_grpc_status _), b; reflexivity. }
  destruct (po_dgram _) as [d|]; [by rewrite Hd|done].
Qed.

(** Whatever status codes peers send, the status counts of a run have at
    most the 17 valid codes and one bucket for all the others, and they count
    every completed unit with a status exactly once. *)
Theorem proto_grpc_codes_bounded s obs :
  proto_reach s obs -> Forall obs_ok obs -> Z.of_nat (length obs) < 2 ^ 64 ->
  Forall (fun kn => kn.1 = GRPC_STATUS_INVALID \/ 0 <= kn.1 <= GRPC_STATUS_MAX) (pa_grpc_codes s) /\
  (length (pa_grpc_codes s) <= 18)%nat /\
  om_total id (pa_grpc_codes s) mod 2 ^ 64 = tally (fun ob => Z.b2z (has_grpc_status ob)) obs.
Proof.
  intros Hr Hall Hlen. destruct (proto_reach_of s obs Hr Hall) as (_ & _ & -> & _).
  destruct (proto_of_ok obs Hall) as (_ & _ & [[Hwf _] Hb] & _).
  assert (Forall (fun kn => kn.1 = GRPC_STATUS_INVALID \/ 0 <= kn.1 <= GRPC_STATUS_MAX)
    (pa_grpc_codes (proto_of obs))) as Hkeys.
  { eapply list.Forall_impl; [exact Hb|]. intros kn <-. apply bucket_range. }
  split; [done|]. split.
  - rewrite <- (length_map fst). etrans; [apply (NoDup_incl_length (om_wf_NoDup _ Hwf) (l' := seqZ (-1) 18))|done].
    intros k (kn & <- & Hk)%in_map_iff.
    apply list_elem_of_In, elem_of_seqZ.
    pose proof (proj1 (List.Forall_forall _ _) Hkeys _ Hk) as Hv.
    unfold GRPC_STATUS_INVALID, GRPC_STATUS_MAX in Hv. lia.
  - transitivity (tally (fun ob => Z.b2z (has_grpc_status ob)) obs mod 2 ^ 64).
    + clear. induction obs as [|ob obs IH] using rev_ind; [done|].
      rewrite proto_of_snoc, grpc_codes_record, tally_snoc. unfold has_grpc_status at 2.
      destruct (grpc_status_of ob); simpl.
      * rewrite om_total_count, <- Zplus_mod_idemp_l, IH. apply Zplus_mod_idemp_l.
      * by rewrite Z.add_0_r, IH.
    + apply Z.mod_small. pose proof (tally_bound (fun ob => Z.b2z (has_grpc_status ob)) obs) as Ht.
      assert (forall ob, 0 <= Z.b2z (has_grpc_status ob) <= 1) as Hn by (intros ob; destruct (has_grpc_status ob); simpl; lia).
      specialize (Ht Hn). lia.
Qed.

(** ** The report block *)

Lemma stat_ok_summary st : stat_ok st -> exists ls, LatencyStat_summary st = Some ls.
Proof. intros (vs & Hvs & E). by apply (summary_total st SECONDARY_SIGFIG vs). Qed.

Definition is_some {A} (x : option A) : bool := if x is Some _ then true else false.

(** The blocks a unit kind reports: HTTP, gRPC, stream, WebSocket, TCP and
    datagram. *)
Definition blocks_of (kind : LoadUnitKind) : list bool :=
  match kind with
  | LoadUnitKind_HttpRequest => [true; false; false; false; false; false]
  | LoadUnitKind_GrpcCall => [false; true; false; false; false; false]
  | LoadUnitKind_GrpcStream | LoadUnitKind_GrpcClientStream | LoadUnitKind_GrpcBidiStream =>
      [false; true; true; false; false; false]
  | LoadUnitKind_SseStream => [false; false; true; false; false; false]
  | LoadUnitKind_WebsocketSession => [false; false; false; true; false; false]
  | LoadUnitKind_TcpExchange => [false; false; false; false; true; false]
  | LoadUnitKind_UdpExchange | LoadUnitKind_DtlsExchange => [false; false; false; false; false; true]
  end.

(** The report block of a run is always produced (no summary panics),
    holds exactly the blocks of the plan's unit kind, and has DTLS handshake
    and tunnel denominators exactly for DTLS plans and tunneled plans. *)
Theorem proto_summary_blocks s obs kind mode steps :
  proto_reach s obs -> Forall obs_ok obs ->
  exists m, ProtoAccum_summary kind mode steps s = Some m /\ plm_unit m = kind /\
    [is_some (plm_http m); is_some (plm_grpc m); is_some (plm_stream m);
     is_some (plm_websocket m); is_some (plm_tcp m); is_some (plm_datagram m)] = blocks_of kind /\
    forall d, plm_datagram m = Some d ->
      is_some (dm_dtls_handshakes d) = bool_decide (kind = LoadUnitKind_DtlsExchange) /\
      tlm_kind <$> dm_tunnels d = head steps ≫= su_tunnel.
Proof.
  intros Hr Hall. destruct (proto_reach_ok s obs Hr Hall) as (_ & Hst & _).
  unfold pa_stats in Hst. rewrite !list.Forall_cons in Hst.
  destruct Hst as ((l1 & E1)%stat_ok_summary & (l2 & E2)%stat_ok_summary &
    (l3 & E3)%stat_ok_summary & (l4 & E4)%stat_ok_summary & (l5 & E5)%stat_ok_summary & _).
  unfold ProtoAccum_summary, stream_metrics, websocket_metrics, datagram_metrics.
  rewrite E1, E2, E3. simpl.
  destruct kind; try (eexists; split; [reflexivity|]; split; [done|]; split; [done|]; done).
  all: simpl; try rewrite E4; simpl; destruct (head steps ≫= su_tunnel) as [t|]; simpl; rewrite ?E5; simpl.
  all: eexists; split; [reflexivity|]; split; [done|]; split; [done|]; by intros d [= <-].
Qed.
End ProtoAccum.

(** * Concrete shards *)

Definition sample_grpc : SendObservation :=
  SendObservation_default <| ob_proto := ProtoObs_default <| po_grpc_status := Some 99 |> |>.

Definition sample_refused : SendObservation :=
  SendObservation_default
    <| ob_terminal := Terminal_TransportFailure |>
    <| ob_proto := ProtoObs_default <| po_dgram := Some {|
         dg_sent := 0; dg_received := 0; dg_repeated := 0; dg_echoed := 0; dg_icmp := false;
         dg_ttfr_us := None; dg_handshake := None;
         dg_tunnel := Some (mkTunnelObs TunnelEnd_Refused) |} |> |>.

Definition sample_session : SendObservation :=
  SendObservation_default <| ob_proto := ProtoObs_default <| po_ws := Some {|
    wo_opened := true; wo_rejected := false; wo_close := Some (ClosedBy_Peer, Some 1000);
    wo_sent := 2; wo_received := 2; wo_rtts := [800; 1200]; wo_unpaired := false |} |> |>.

Definition sample_merged : ProtoAccum ListHist :=
  ProtoAccum_merge
    (ProtoAccum_record sample_session (ProtoAccum_record sample_grpc ProtoAccum_new))
    (ProtoAccum_record sample_refused ProtoAccum_new).

Definition sample_obs : list SendObservation := [sample_grpc; sample_session; sample_refused].

Lemma sample_reach : proto_reach sample_merged sample_obs.
Proof.
  apply (proto_reach_merge _ _ [sample_grpc; sample_session] [sample_refused]).
  - apply (proto_reach_record _ [sample_grpc]), (proto_reach_record _ []), proto_reach_new.
  - apply (proto_reach_record _ []), proto_reach_new.
Qed.

Lemma sample_obs_ok : Forall obs_ok sample_obs.
Proof.
  repeat apply List.Forall_cons; try apply List.Forall_nil; repeat split; try done; simpl; u64s.
Qed.

Lemma proto_sharding_witness :
  pa_counters sample_merged = pa_counters (proto_of sample_obs) /\
  pa_ends sample_merged = [((0, Some 1000), 1)].
Proof.
  destruct (proto_sharding sample_merged sample_obs sample_reach sample_obs_ok) as (Hc & _).
  split; [exact Hc | vm_compute; reflexivity].
Defined.

Lemma proto_denominators_witness :
  pa_tn_attempted sample_merged = 1 /\ pa_tn_refused sample_merged = 1 /\
  pa_ws_opened sample_merged + pa_ws_rejected sample_merged + pa_ws_not_opened sample_merged = 1.
Proof.
  destruct (proto_denominators sample_merged sample_obs sample_reach sample_obs_ok)
    as (Ht & _ & _ & Hw); [reflexivity|].
  split; [exact Ht|]. split; [vm_compute; reflexivity | exact Hw].
Defined.

Lemma proto_grpc_codes_bounded_witness :
  pa_grpc_codes sample_merged = [(-1, 1)] /\ om_total id (pa_grpc_codes sample_merged) mod 2 ^ 64 = 1.
Proof.
  destruct (proto_grpc_codes_bounded sample_merged sample_obs sample_reach sample_obs_ok)
    as (_ & _ & Ht); [reflexivity|].
  split; [vm_compute; reflexivity | exact Ht].
Defined.

Lemma proto_summary_blocks_witness :
  exists m, ProtoAccum_summary LoadUnitKind_WebsocketSession ConnectionMode_Fresh
      [StepUnit_of LoadUnitKind_WebsocketSession] sample_merged = Some m /\
    is_some (plm_websocket m) = true /\ is_some (plm_http m) = false.
Proof.
  destruct (proto_summary_blocks sample_merged sample_obs LoadUnitKind_WebsocketSession
    ConnectionMode_Fresh [StepUnit_of LoadUnitKind_WebsocketSession] sample_reach sample_obs_ok)
    as (m & Hm & _ & Hb & _).
  exists m. split; [exact Hm|]. injection Hb as E1 _ _ E4 _ _. split; [exact E4 | exact E1].
Defined.
