(* ===== verification/Metrics.v ===== *)
(** The metrics of the measured window of one shard
    (crates/anvil-load/src/metrics.rs, [Metrics]): success, failure and
    censored latency kept apart, failure categories, protocols and destinations
    in bounded collections, the protocol denominators, and their merge. *)
From Stdlib Require Import ZArith Lia Permutation.
From stdpp Require Import base numbers strings option list sorting.
From S2P Require Import Prelude OrdMap Text Settings Evidence Request LoadModel Units Observe Histogram ProtoAccum.
Open Scope list_scope.
Open Scope Z_scope.

Definition MAX_CATEGORIES : nat := 32.
Definition MAX_EXAMPLES : nat := 5.
Definition MAX_DESTINATIONS : nat := 16.
Definition MAX_PROTOCOLS : nat := 8.
Definition OTHER_CATEGORY : string := "other (category limit reached)".

Record Category := mkCategory {
  cat_count : Z;
  cat_examples : list string;
}.

Definition Category_default : Category := mkCategory 0 [].

Record Metrics (H : Type) := mkMetrics {
  mx_success : LatencyStat H;
  mx_failure : LatencyStat H;
  mx_setup : LatencyStat H;
  mx_censored : LatencyStat H;
  mx_deadline_ms_min : option Z;
  mx_deadline_ms_max : option Z;
  mx_lag : LatencyStat H;
  mx_status : omap Z Z;
  mx_categories : omap string Category;
  mx_bytes_sent : Z;
  mx_bytes_received : Z;
  mx_protocols : omap string Z;
  mx_destinations : omap string unit;
  mx_proto : ProtoAccum H;
}.
Arguments mkMetrics {H}.
Arguments mx_success {H} _.
Arguments mx_failure {H} _.
Arguments mx_setup {H} _.
Arguments mx_censored {H} _.
Arguments mx_deadline_ms_min {H} _.
Arguments mx_deadline_ms_max {H} _.
Arguments mx_lag {H} _.
Arguments mx_status {H} _.
Arguments mx_categories {H} _.
Arguments mx_bytes_sent {H} _.
Arguments mx_bytes_received {H} _.
Arguments mx_protocols {H} _.
Arguments mx_destinations {H} _.
Arguments mx_proto {H} _.

#[export] Instance eta_Metrics H : Eta (Metrics H) := fun r =>
  mkMetrics (mx_success r) (mx_failure r) (mx_setup r) (mx_censored r)
    (mx_deadline_ms_min r) (mx_deadline_ms_max r) (mx_lag r) (mx_status r) (mx_categories r)
    (mx_bytes_sent r) (mx_bytes_received r) (mx_protocols r) (mx_destinations r)
    (mx_proto r).

(** The loop of [add_category] over the examples. *)
Fixpoint push_examples (examples new : list string) : list string :=
  match new with
  | [] => examples
  | e :: new' =>
      if (MAX_EXAMPLES <=? length examples)%nat then examples
      else push_examples (examples ++ [e]) new'
  end.

(** [Metrics::add_category], on the map of categories. *)
Definition add_category (name : string) (count : Z) (examples : list string)
    (m : omap string Category) : omap string Category :=
  let key :=
    if om_contains name m || (length m <? MAX_CATEGORIES - 1)%nat then name else OTHER_CATEGORY in
  om_upd (fun c =>
    let c := default Category_default c in
    mkCategory (cat_count c ⊞ count) (push_examples (cat_examples c) examples)) key m.

(** The bounded count of a protocol and the bounded set of destinations. *)
Definition add_protocol (p : string) (n : Z) (m : omap string Z) : omap string Z :=
  if om_contains p m || (length m <? MAX_PROTOCOLS)%nat then om_count p n m else m.

Definition add_destination (d : string) (m : omap string unit) : omap string unit :=
  if (length m <? MAX_DESTINATIONS)%nat then om_insert d tt m else m.

(** [map_or(d, |m| m.min(d))]. *)
Definition min_deadline (d : Z) (m : option Z) : option Z := Some (from_option (fun m => Z.min m d) d m).
Definition max_deadline (d : Z) (m : option Z) : option Z := Some (from_option (fun m => Z.max m d) d m).

Section Metrics.
Context {H : Type} `{Histogram H}.
Implicit Types (m o : Metrics H).

Definition Metrics_new : Metrics H := {|
  mx_success := LatencyStat_new PRIMARY_SIGFIG;
  mx_failure := LatencyStat_new PRIMARY_SIGFIG;
  mx_setup := LatencyStat_new SECONDARY_SIGFIG;
  mx_censored := LatencyStat_new SECONDARY_SIGFIG;
  mx_deadline_ms_min := None;
  mx_deadline_ms_max := None;
  mx_lag := LatencyStat_new SECONDARY_SIGFIG;
  mx_status := [];
  mx_categories := [];
  mx_bytes_sent := 0;
  mx_bytes_received := 0;
  mx_protocols := [];
  mx_destinations := [];
  mx_proto := ProtoAccum_new;
|}.

(** The latency part of [Metrics::record]: the terminal class decides the
    distribution. *)
Definition record_latency (ob : SendObservation) m : Metrics H :=
  match ob_terminal ob with
  | Terminal_Canceled => m
  | Terminal_Timeout =>
      let m := m <| mx_censored ::= LatencyStat_record (ob_latency_us ob) |> in
      match ob_deadline_ms ob with
      | Some d => m <| mx_deadline_ms_min ::= min_deadline d |> <| mx_deadline_ms_max ::= max_deadline d |>
      | None => m
      end
  | _ =>
      if is_success ob then m <| mx_success ::= LatencyStat_record (ob_latency_us ob) |>
      else if is_failure ob then m <| mx_failure ::= LatencyStat_record (ob_latency_us ob) |>
      else m
  end.

(** [Metrics::record]. *)
Definition Metrics_record (ob : SendObservation) m : Metrics H :=
  let m := record_latency ob m in
  let m := m <| mx_proto ::= ProtoAccum_record ob |> in
  let m :=
    if bool_decide (ob_terminal ob = Terminal_Canceled) then m
    else m <| mx_setup ::= LatencyStat_record (ob_setup_us ob) |> in
  let m := match ob_status ob with
    | Some s => m <| mx_status ::= om_count s 1 |>
    | None => m
    end in
  let m := match ob_category ob with
    | Some c => m <| mx_categories ::= add_category c 1 (option_list (ob_example ob)) |>
    | None => m
    end in
  let m := m <| mx_bytes_sent ::= (fun n => n ⊞ ob_bytes_sent ob) |>
             <| mx_bytes_received ::= (fun n => n ⊞ ob_bytes_received ob) |> in
  let m := match ob_protocol ob with
    | Some p => m <| mx_protocols ::= add_protocol p 1 |>
    | None => m
    end in
  match ob_destination ob with
  | Some d => m <| mx_destinations ::= add_destination d |>
  | None => m
  end.

(** [Metrics::merge]. *)
Definition Metrics_merge m o : Metrics H := {|
  mx_proto := ProtoAccum_merge (mx_proto m) (mx_proto o);
  mx_success := LatencyStat_merge (mx_success m) (mx_success o);
  mx_failure := LatencyStat_merge (mx_failure m) (mx_failure o);
  mx_setup := LatencyStat_merge (mx_setup m) (mx_setup o);
  mx_censored := LatencyStat_merge (mx_censored m) (mx_censored o);
  mx_lag := LatencyStat_merge (mx_lag m) (mx_lag o);
  mx_deadline_ms_min :=
    from_option (fun b => min_deadline b (mx_deadline_ms_min m)) (mx_deadline_ms_min m) (mx_deadline_ms_min o);
  mx_deadline_ms_max :=
    from_option (fun b => max_deadline b (mx_deadline_ms_max m)) (mx_deadline_ms_max m) (mx_deadline_ms_max o);
  mx_status := om_add_all (mx_status m) (mx_status o);
  mx_categories := fold_left (fun acc '(name, c) => add_category name (cat_count c) (cat_examples c) acc)
    (mx_categories o) (mx_categories m);
  mx_bytes_sent := mx_bytes_sent m ⊞ mx_bytes_sent o;
  mx_bytes_received := mx_bytes_received m ⊞ mx_bytes_received o;
  mx_protocols := fold_left (fun acc '(p, n) => add_protocol p n acc) (mx_protocols o) (mx_protocols m);
  mx_destinations := fold_left (fun acc d => add_destination d acc) (om_keys (mx_destinations o))
    (mx_destinations m);
|}.

(** The executor's record of an arrival's start lag. *)
Definition record_lag (us : Z) m : Metrics H := m <| mx_lag ::= LatencyStat_record us |>.

(** The order of [failure_samples]: most frequent first, then by name. *)
Definition sample_le (a b : FailureSample) : Prop :=
  match Z.compare (fs_count b) (fs_count a) with
  | Lt => True
  | Eq => match String.compare (fs_category a) (fs_category b) with Gt => False | _ => True end
  | Gt => False
  end.

#[global] Instance sample_le_dec a b : Decision (sample_le a b).
Proof. unfold sample_le. repeat case_match; apply _. Defined.

Definition category_samples m : list FailureSample :=
  map (fun '(k, c) => mkFailureSample k (cat_count c) (cat_examples c)) (mx_categories m).

(** [Metrics::failure_samples]. *)
Definition failure_samples m : list FailureSample := merge_sort sample_le (category_samples m).
End Metrics.

(** * Shards of a run *)

(** The metrics the load engine builds, with the observations and the start
    lags they recorded, in merge order. *)
Inductive metrics_reach {H : Type} `{Histogram H}
    : Metrics H -> list SendObservation -> list Z -> Prop :=
  | metrics_reach_new : metrics_reach Metrics_new [] []
  | metrics_reach_record m obs lags ob : metrics_reach m obs lags ->
      metrics_reach (Metrics_record ob m) (obs ++ [ob]) lags
  | metrics_reach_lag m obs lags us : metrics_reach m obs lags ->
      metrics_reach (record_lag us m) obs (lags ++ [us])
  | metrics_reach_merge m o obs obs' lags lags' : metrics_reach m obs lags ->
      metrics_reach o obs' lags' ->
      metrics_reach (Metrics_merge m o) (obs ++ obs') (lags ++ lags').

(** ** Bounded collections *)

Lemma push_examples_length es new :
  (length es <= MAX_EXAMPLES)%nat -> (length (push_examples es new) <= MAX_EXAMPLES)%nat.
Proof.
  revert es. induction new as [|e new IH]; intros es Hes; cbn [push_examples]; [done|].
  destruct (Nat.leb_spec MAX_EXAMPLES (length es)); [done|]. apply IH.
  rewrite length_app. simpl. lia.
Qed.

(** The categories of a shard: ordered, at most 31 named ones and the overflow
    category, at most five examples each. *)
Definition categories_ok (m : omap string Category) : Prop :=
  om_wf m /\
  ((length m <= MAX_CATEGORIES - 1)%nat \/
   (length m = MAX_CATEGORIES)%nat /\ om_contains OTHER_CATEGORY m = true) /\
  Forall (fun kc => (length (cat_examples kc.2) <= MAX_EXAMPLES)%nat) m.

Lemma om_contains_upd {V} (f : option V -> V) k k' m :
  om_wf m -> om_contains k' (om_upd f k m) = bool_decide (k' = k) || om_contains (K := string) k' m.
Proof.
  intros Hm. unfold om_contains. case_bool_decide as E; [subst; by rewrite om_get_upd_eq|].
  by rewrite om_get_upd_ne.
Qed.

Lemma om_upd_length_contains {V} (f : option V -> V) (k : string) m :
  length (om_upd f k m) = if om_contains k m then length m else S (length m).
Proof. unfold om_contains. rewrite om_upd_length. by destruct (om_get k m). Qed.

Lemma add_category_ok name n es m : categories_ok m -> categories_ok (add_category name n es m).
Proof.
  intros (Hwf & Hlen & Hex). unfold add_category. set (key := if om_contains name m || _ then name else _).
  split; [by apply om_upd_wf|]. split.
  - rewrite om_contains_upd, om_upd_length_contains by done.
    destruct (om_contains key m) eqn:Ekey.
    + destruct Hlen as [?|[? Ho]]; [by left|right]. split; [done|]. by rewrite Ho, orb_true_r.
    + assert (key = name /\ (length m < MAX_CATEGORIES - 1)%nat \/
        key = OTHER_CATEGORY /\ (MAX_CATEGORIES - 1 <= length m)%nat) as Hkey.
      { unfold key in *. destruct (om_contains name m) eqn:En; [by rewrite orb_true_l, En in Ekey|].
        rewrite orb_false_l. destruct (Nat.ltb_spec (length m) (MAX_CATEGORIES - 1)); auto. }
      destruct Hkey as [[_ Hlt]|[-> Hge]]; [left; unfold MAX_CATEGORIES in *; lia|right].
      rewrite bool_decide_true by done. split; [|done].
      destruct Hlen as [?|[_ Ho]]; [unfold MAX_CATEGORIES in *; lia|congruence].
  - apply om_upd_Forall; [done|]. simpl. apply push_examples_length.
    destruct (om_get key m) as [c|] eqn:E; simpl; [|unfold MAX_EXAMPLES; lia].
    apply om_get_Some_In in E. by apply (proj1 (List.Forall_forall _ _) Hex _ E).
Qed.

Lemma add_protocol_ok p n m :
  om_wf m /\ (length m <= MAX_PROTOCOLS)%nat ->
  om_wf (add_protocol p n m) /\ (length (add_protocol p n m) <= MAX_PROTOCOLS)%nat.
Proof.
  intros [Hwf Hlen]. unfold add_protocol. destruct (_ || _) eqn:E; [|done].
  split; [by apply om_upd_wf|]. unfold om_count. rewrite om_upd_length.
  unfold om_contains in E. destruct (om_get p m); [done|]. simpl in E.
  apply Nat.ltb_lt in E. lia.
Qed.

Lemma add_destination_ok d m :
  om_wf m /\ (length m <= MAX_DESTINATIONS)%nat ->
  om_wf (add_destination d m) /\ (length (add_destination d m) <= MAX_DESTINATIONS)%nat.
Proof.
  intros [Hwf Hlen]. unfold add_destination. destruct (Nat.ltb_spec (length m) MAX_DESTINATIONS); [|done].
  split; [by apply om_upd_wf|]. unfold om_insert. rewrite om_upd_length.
  destruct (om_get d m); lia.
Qed.

Lemma fold_left_inv {A B} (P : A -> Prop) (f : A -> B -> A) l a :
  P a -> (forall a b, P a -> P (f a b)) -> P (fold_left f l a).
Proof. intros Ha Hf. revert a Ha. induction l as [|b l IH]; simpl; auto. Qed.

Section Reach.
Context {H : Type} `{Histogram H}.
Implicit Types (m o : Metrics H).

(** How each collection changes in a recording. *)
Lemma record_categories ob m :
  mx_categories (Metrics_record ob m) =
  match ob_category ob with
  | Some c => add_category c 1 (option_list (ob_example ob)) (mx_categories m)
  | None => mx_categories m
  end.
Proof. unfold Metrics_record, record_latency. cbv zeta. repeat case_match; reflexivity. Qed.

Lemma record_protocols ob m :
  mx_protocols (Metrics_record ob m) =
  match ob_protocol ob with Some p => add_protocol p 1 (mx_protocols m) | None => mx_protocols m end.
Proof. unfold Metrics_record, record_latency. cbv zeta. repeat case_match; reflexivity. Qed.

Lemma record_destinations ob m :
  mx_destinations (Metrics_record ob m) =
  match ob_destination ob with Some d => add_destination d (mx_destinations m) | None => mx_destinations m end.
Proof. unfold Metrics_record, record_latency. cbv zeta. repeat case_match; reflexivity. Qed.
End Reach.

Lemma add_category_total name n es m :
  om_total cat_count (add_category name n es m) mod 2 ^ 64 = (om_total cat_count m + n) mod 2 ^ 64.
Proof.
  unfold add_category. rewrite om_total_upd. simpl. unfold add64.
  match goal with |- context [om_get ?k m] => destruct (om_get k m) as [c|] end; simpl;
    rewrite Zplus_mod_idemp_r; f_equal; lia.
Qed.

Lemma merge_categories_total (o : omap string Category) m :
  om_total cat_count
    (fold_left (fun acc '(name, c) => add_category name (cat_count c) (cat_examples c) acc) o m)
    mod 2 ^ 64 = (om_total cat_count m + om_total cat_count o) mod 2 ^ 64.
Proof.
  revert m. induction o as [|[k c] o IH]; intros m; simpl; [by rewrite Z.add_0_r|].
  rewrite IH, <- Zplus_mod_idemp_l, add_category_total, Zplus_mod_idemp_l. f_equal.
  unfold om_total. simpl. lia.
Qed.

Lemma metrics_reach_categories {H : Type} `{Histogram H} (m : Metrics H) obs lags :
  metrics_reach m obs lags -> categories_ok (mx_categories m).
Proof.
  induction 1 as [|m obs lags ob _ IH|m obs lags us _ IH|m o obs obs' lags lags' _ IH1 _ IH2].
  - split; [constructor|]. split; [left; simpl; lia|apply List.Forall_nil].
  - rewrite record_categories. destruct (ob_category ob); [by apply add_category_ok|done].
  - done.
  - simpl. apply fold_left_inv; [done|]. intros a [k c]. apply add_category_ok.
Qed.

(** Whatever a run meets, its failure samples, protocols and destinations
    stay bounded: at most 32 categories with five examples each, eight
    protocols and sixteen destinations. *)
Theorem metrics_bounded {H : Type} `{Histogram H} (m : Metrics H) obs lags :
  metrics_reach m obs lags ->
  (length (mx_categories m) <= MAX_CATEGORIES)%nat /\
  Forall (fun kc => (length (cat_examples kc.2) <= MAX_EXAMPLES)%nat) (mx_categories m) /\
  (length (mx_protocols m) <= MAX_PROTOCOLS)%nat /\
  (length (mx_destinations m) <= MAX_DESTINATIONS)%nat.
Proof.
  intros Hr. destruct (metrics_reach_categories m obs lags Hr) as (_ & Hlen & Hex).
  split; [destruct Hlen as [?|[? _]]; unfold MAX_CATEGORIES in *; lia|]. split; [done|].
  clear Hlen Hex.
  assert ((om_wf (mx_protocols m) /\ (length (mx_protocols m) <= MAX_PROTOCOLS)%nat) /\
    (om_wf (mx_destinations m) /\ (length (mx_destinations m) <= MAX_DESTINATIONS)%nat)) as [[_ ?] [_ ?]];
    [|done].
  induction Hr as [|m obs lags ob _ IH|m obs lags us _ IH|m o obs obs' lags lags' _ IH1 _ IH2].
  - repeat split; try constructor; simpl; lia.
  - rewrite record_protocols, record_destinations. destruct IH as [IHp IHd]. split.
    + destruct (ob_protocol ob); [by apply add_protocol_ok|done].
    + destruct (ob_destination ob); [by apply add_destination_ok|done].
  - done.
  - simpl. split; apply fold_left_inv; try tauto.
    + intros a [k n]. apply add_protocol_ok.
    + intros a d. apply add_destination_ok.
Qed.

Definition has_category (ob : SendObservation) : bool := if ob_category ob is Some _ then true else false.

Lemma sum_perm {A} (g : A -> Z) (l k : list A) : l ≡ₚ k ->
  foldr (fun s n => g s + n) 0 l = foldr (fun s n => g s + n) 0 k.
Proof. induction 1; simpl in *; lia. Qed.

(** No failure is lost when the categories overflow or shards are merged:
    the counts of all failure samples add up to the number of described
    failures. *)
Theorem failure_samples_conserve {H : Type} `{Histogram H} (m : Metrics H) obs lags :
  metrics_reach m obs lags -> Z.of_nat (length obs) < 2 ^ 64 ->
  foldr (fun s n => fs_count s + n) 0 (failure_samples m) mod 2 ^ 64 =
  tally (fun ob => Z.b2z (has_category ob)) obs.
Proof.
  intros Hr Hlen.
  assert (foldr (fun s n => fs_count s + n) 0 (failure_samples m) = om_total cat_count (mx_categories m)) as ->.
  { transitivity (foldr (fun s n => fs_count s + n) 0 (category_samples m)).
    - apply sum_perm, merge_sort_Permutation.
    - unfold category_samples, om_total. induction (mx_categories m) as [|[k c] l IH]; simpl; [done|].
      by rewrite IH. }
  transitivity (tally (fun ob => Z.b2z (has_category ob)) obs mod 2 ^ 64).
  - clear Hlen. induction Hr as [|m obs lags ob _ IH|m obs lags us _ IH|m o obs obs' lags lags' _ IH1 _ IH2].
    + done.
    + rewrite record_categories, tally_snoc. unfold has_category at 2.
      destruct (ob_category ob) as [c|]; simpl; [|by rewrite Z.add_0_r].
      rewrite add_category_total, <- Zplus_mod_idemp_l, IH. apply Zplus_mod_idemp_l.
    + done.
    + cbn [mx_categories Metrics_merge]. rewrite merge_categories_total, Z.add_mod, IH1, IH2 by done.
      rewrite <- Z.add_mod by done. f_equal. symmetry. apply tally_app.
  - apply Z.mod_small. pose proof (tally_bound (fun ob => Z.b2z (has_category ob)) obs) as Ht.
    assert (forall ob, 0 <= Z.b2z (has_category ob) <= 1) as Hn by (intros ob; destruct (has_category ob); simpl; lia).
    specialize (Ht Hn). lia.
Qed.

(** ** The order of the samples *)

#[export] Instance sample_le_total : Total sample_le.
Proof.
  intros a b. unfold sample_le. rewrite (Z.compare_antisym (fs_count a) (fs_count b)).
  destruct (fs_count a ?= fs_count b); simpl; [|tauto..].
  rewrite (String.compare_antisym (fs_category a) (fs_category b)).
  destruct (String.compare (fs_category b) (fs_category a)); simpl; tauto.
Qed.

#[export] Instance sample_le_trans : Transitive sample_le.
Proof.
  intros a b c. unfold sample_le.
  destruct (Z.compare_spec (fs_count b) (fs_count a)) as [E1|E1|E1];
    destruct (Z.compare_spec (fs_count c) (fs_count b)) as [E2|E2|E2]; try done.
  all: intros Hab Hbc.
  - rewrite E2, E1, Z.compare_refl. revert Hab Hbc.
    pose proof (kcmp_trans (K := string) (fs_category a) (fs_category b) (fs_category c)) as Ht. simpl in Ht.
    destruct (String.compare (fs_category a) (fs_category b)) eqn:Ea;
      destruct (String.compare (fs_category b) (fs_category c)) eqn:Eb; try done; intros _ _.
    + apply String.compare_eq_iff in Ea as ->. by rewrite Eb.
    + apply String.compare_eq_iff in Ea as ->. by rewrite Eb.
    + apply String.compare_eq_iff in Eb as <-. by rewrite Ea.
    + by rewrite Ht.
  - replace (fs_count c ?= fs_count a) with Lt; [done|]. symmetry. apply Z.compare_lt_iff. lia.
  - replace (fs_count c ?= fs_count a) with Lt; [done|]. symmetry. apply Z.compare_lt_iff. lia.
  - replace (fs_count c ?= fs_count a) with Lt; [done|]. symmetry. apply Z.compare_lt_iff. lia.
Qed.

(** The failure samples of a report are the failure categories, each
    once, in descending order of count and then by name. *)
Theorem failure_samples_sorted {H : Type} `{Histogram H} (m : Metrics H) obs lags :
  metrics_reach m obs lags ->
  StronglySorted sample_le (failure_samples m) /\
  NoDup (fs_category <$> failure_samples m) /\
  forall s, In s (failure_samples m) <->
    om_get (fs_category s) (mx_categories m) = Some (mkCategory (fs_count s) (fs_examples s)).
Proof.
  intros Hr. destruct (metrics_reach_categories m obs lags Hr) as (Hwf & _).
  unfold failure_samples. split; [apply (StronglySorted_merge_sort sample_le)|].
  pose proof (merge_sort_Permutation sample_le (category_samples m)) as Hp. split.
  - rewrite Hp. apply NoDup_ListNoDup. unfold category_samples.
    replace (fs_category <$> _) with (List.map fst (mx_categories m)); [by apply om_wf_NoDup|].
    clear. induction (mx_categories m) as [|[k c] l IH]; simpl; [done|]. by rewrite IH.
  - intros s. rewrite Hp. unfold category_samples. rewrite in_map_iff. split.
    + intros ([k c] & <- & Hin). simpl. rewrite (om_get_In k c) by done. by destruct c.
    + intros Hg%om_get_Some_In. eexists (_, _). split; [|exact Hg]. by destruct s.
Qed.

(** * Latency distributions *)

Definition timed_out (ob : SendObservation) : bool := bool_decide (ob_terminal ob = Terminal_Timeout).
Definition canceled (ob : SendObservation) : bool := bool_decide (ob_terminal ob = Terminal_Canceled).
(** A failure with a latency of its own: not a censored timeout. *)
Definition failed (ob : SendObservation) : bool := is_failure ob && negb (timed_out ob).
Definition measured (f : SendObservation -> Z) (P : SendObservation -> bool) (obs : list SendObservation)
    : list Z := map f (List.filter P obs).

Lemma measured_app f P obs obs' : measured f P (obs ++ obs') = measured f P obs ++ measured f P obs'.
Proof. unfold measured. by rewrite List.filter_app, map_app. Qed.

(** The deadlines of the timed-out sends. *)
Definition deadlines (obs : list SendObservation) : list Z :=
  concat (map (fun ob => if timed_out ob then option_list (ob_deadline_ms ob) else []) obs).

(** [x] is the extreme value of [ds] for the order [le], when there is one. *)
Definition extreme (le : Z -> Z -> Prop) (ds : list Z) (x : option Z) : Prop :=
  match x with
  | None => ds = []
  | Some a => In a ds /\ Forall (le a) ds
  end.

Lemma extreme_choice (le : Z -> Z -> Prop) (op : Z -> Z -> Z) ds x es y :
  (forall a b, op a b = a /\ le a b \/ op a b = b /\ le b a) -> (forall a b c, le a b -> le b c -> le a c) ->
  extreme le ds x -> extreme le es y ->
  extreme le (ds ++ es)
    (from_option (fun b => Some (from_option (fun m => op m b) b x)) x y).
Proof.
  intros Hop Htr Hx Hy. destruct y as [b|], x as [a|]; simpl in *; subst; simpl;
    rewrite ?app_nil_r; try done.
  destruct Hx as [Hxi Hxf], Hy as [Hyi Hyf].
  destruct (Hop a b) as [[-> Hab]|[-> Hba]]; (split; [apply in_app_iff; auto|]); apply Forall_app; split; try done;
    (eapply list.Forall_impl; [eassumption|]; eauto).
Qed.

Lemma extreme_min ds es x y : extreme Z.le ds x -> extreme Z.le es y ->
  extreme Z.le (ds ++ es) (from_option (fun b => min_deadline b x) x y).
Proof. apply extreme_choice; lia. Qed.

Lemma extreme_max ds es x y : extreme Z.ge ds x -> extreme Z.ge es y ->
  extreme Z.ge (ds ++ es) (from_option (fun b => max_deadline b x) x y).
Proof. apply extreme_choice; lia. Qed.

Section Distributions.
Context {H : Type} `{Histogram H, Equiv H, !HistogramLaws H}.
Implicit Types (m o : Metrics H).

(** The rest of a recording leaves the latency part alone. *)
Ltac latency_part :=
  unfold Metrics_record; cbv zeta;
  match goal with |- context [record_latency ?ob ?m] => generalize (record_latency ob m); intros m' end;
  destruct (bool_decide _), (ob_status _), (ob_category _), (ob_protocol _), (ob_destination _); reflexivity.

Lemma success_latency ob m : mx_success (Metrics_record ob m) = mx_success (record_latency ob m).
Proof. latency_part. Qed.
Lemma failure_latency ob m : mx_failure (Metrics_record ob m) = mx_failure (record_latency ob m).
Proof. latency_part. Qed.
Lemma censored_latency ob m : mx_censored (Metrics_record ob m) = mx_censored (record_latency ob m).
Proof. latency_part. Qed.
Lemma deadline_min_latency ob m :
  mx_deadline_ms_min (Metrics_record ob m) = mx_deadline_ms_min (record_latency ob m).
Proof. latency_part. Qed.
Lemma deadline_max_latency ob m :
  mx_deadline_ms_max (Metrics_record ob m) = mx_deadline_ms_max (record_latency ob m).
Proof. latency_part. Qed.

Lemma success_completed ob : is_success ob = true ->
  ob_terminal ob = Terminal_Completed /\ is_failure ob = false.
Proof.
  unfold is_success, is_failure.
  destruct (ob_terminal ob), (ob_application_failure ob), (ob_assertion_failure ob); done.
Qed.

Lemma record_success ob m :
  mx_success (Metrics_record ob m) =
  if is_success ob then LatencyStat_record (ob_latency_us ob) (mx_success m) else mx_success m.
Proof.
  rewrite success_latency. unfold record_latency. destruct (is_success ob) eqn:Es.
  - by destruct (success_completed ob Es) as [-> _].
  - destruct (ob_terminal ob), (is_failure ob), (ob_deadline_ms ob); reflexivity.
Qed.

Lemma record_failure ob m :
  mx_failure (Metrics_record ob m) =
  if failed ob then LatencyStat_record (ob_latency_us ob) (mx_failure m) else mx_failure m.
Proof.
  rewrite failure_latency. unfold record_latency, failed, timed_out. destruct (is_success ob) eqn:Es.
  - by destruct (success_completed ob Es) as [-> ->].
  - destruct (ob_terminal ob) eqn:Et, (is_failure ob) eqn:Ef, (ob_deadline_ms ob); try reflexivity;
      unfold is_failure in Ef; by rewrite Et in Ef.
Qed.

Lemma record_censored ob m :
  mx_censored (Metrics_record ob m) =
  if timed_out ob then LatencyStat_record (ob_latency_us ob) (mx_censored m) else mx_censored m.
Proof.
  rewrite censored_latency. unfold record_latency, timed_out.
  destruct (ob_terminal ob), (is_success ob), (is_failure ob), (ob_deadline_ms ob); reflexivity.
Qed.

Lemma record_setup ob m :
  mx_setup (Metrics_record ob m) =
  if negb (canceled ob) then LatencyStat_record (ob_setup_us ob) (mx_setup m) else mx_setup m.
Proof.
  assert (mx_setup (record_latency ob m) = mx_setup m) as E.
  { unfold record_latency.
    destruct (ob_terminal ob), (is_success ob), (is_failure ob), (ob_deadline_ms ob); reflexivity. }
  rewrite <- E. unfold canceled. unfold Metrics_record. cbv zeta.
  generalize (record_latency ob m). intros m'.
  destruct (bool_decide _), (ob_status _), (ob_category _), (ob_protocol _), (ob_destination _); reflexivity.
Qed.

Lemma record_deadlines ob m :
  mx_deadline_ms_min (Metrics_record ob m) =
    foldr min_deadline (mx_deadline_ms_min m) (deadlines [ob]) /\
  mx_deadline_ms_max (Metrics_record ob m) =
    foldr max_deadline (mx_deadline_ms_max m) (deadlines [ob]).
Proof.
  rewrite deadline_min_latency, deadline_max_latency. unfold record_latency, deadlines, timed_out.
  simpl. rewrite app_nil_r.
  destruct (ob_terminal ob), (is_success ob), (is_failure ob), (ob_deadline_ms ob); done.
Qed.

(** A distribution fed by a class of the observations. *)
Lemma distribution_step sf (st : LatencyStat H) f P obs ob :
  st ≡ stat_of sf (measured f P obs) ->
  (if P ob then LatencyStat_record (f ob) st else st) ≡ stat_of sf (measured f P (obs ++ [ob])).
Proof.
  intros E. rewrite measured_app. unfold measured at 2. simpl. destruct (P ob); simpl.
  - by rewrite stat_of_snoc, E.
  - by rewrite app_nil_r.
Qed.

Lemma distribution_merge sf (st u : LatencyStat H) vs ws :
  st ≡ stat_of sf vs -> u ≡ stat_of sf ws -> Forall is_u64 ws ->
  LatencyStat_merge st u ≡ stat_of sf (vs ++ ws).
Proof. intros E F Hws. by rewrite E, F, stat_merge_app. Qed.

Definition times_ok (ob : SendObservation) : Prop := is_u64 (ob_latency_us ob) /\ is_u64 (ob_setup_us ob).

Lemma measured_u64 f P obs : (forall ob, times_ok ob -> is_u64 (f ob)) -> Forall times_ok obs ->
  Forall is_u64 (measured f P obs).
Proof.
  intros Hf Hall. unfold measured. apply List.Forall_forall. intros v (ob & <- & Hin)%in_map_iff.
  apply List.filter_In in Hin as [Hin _]. apply Hf. by apply (proj1 (List.Forall_forall _ _) Hall).
Qed.

(** What the distributions of a run hold, whatever its shards. *)
Record distributions m obs lags : Prop := {
  dist_success : mx_success m ≡ stat_of PRIMARY_SIGFIG (measured ob_latency_us is_success obs);
  dist_failure : mx_failure m ≡ stat_of PRIMARY_SIGFIG (measured ob_latency_us failed obs);
  dist_censored : mx_censored m ≡ stat_of SECONDARY_SIGFIG (measured ob_latency_us timed_out obs);
  dist_setup : mx_setup m ≡ stat_of SECONDARY_SIGFIG (measured ob_setup_us (fun ob => negb (canceled ob)) obs);
  dist_lag : mx_lag m ≡ stat_of SECONDARY_SIGFIG lags;
}.

Lemma record_lag_field ob m : mx_lag (Metrics_record ob m) = mx_lag m.
Proof.
  transitivity (mx_lag (record_latency ob m)); [latency_part|]. unfold record_latency.
  destruct (ob_terminal ob), (is_success ob), (is_failure ob), (ob_deadline_ms ob); reflexivity.
Qed.

Lemma metrics_reach_distributions m obs lags :
  metrics_reach m obs lags -> Forall times_ok obs -> Forall is_u64 lags ->
  distributions m obs lags.
Proof.
  induction 1 as [|m obs lags ob _ IH|m obs lags us _ IH|m o obs obs' lags lags' _ IH1 _ IH2];
    intros Hobs Hlags.
  - by split.
  - apply Forall_app in Hobs as [Hobs _]. destruct (IH Hobs Hlags) as [D1 D2 D3 D4 D5]. split.
    + rewrite record_success. by apply distribution_step.
    + rewrite record_failure. by apply distribution_step.
    + rewrite record_censored. by apply distribution_step.
    + rewrite record_setup. by apply (distribution_step _ _ ob_setup_us (fun ob => negb (canceled ob))).
    + by rewrite record_lag_field.
  - apply Forall_app in Hlags as [Hlags _]. destruct (IH Hobs Hlags) as [D1 D2 D3 D4 D5].
    split; try done. simpl. by rewrite stat_of_snoc, D5.
  - apply Forall_app in Hobs as [Ho Ho']. apply Forall_app in Hlags as [Hl Hl'].
    destruct (IH1 Ho Hl) as [D1 D2 D3 D4 D5], (IH2 Ho' Hl') as [E1 E2 E3 E4 E5].
    split; rewrite ?measured_app; simpl; apply distribution_merge; try done;
      (apply measured_u64; [|done]; by intros ob []).
Qed.

(** Latency distributions are never mixed. In any merge of any shards the
    success distribution holds exactly the latencies of the successes, the
    failure distribution those of the failures that are not timeouts, the
    censored one the elapsed times of the timeouts; setup times are those of
    the sends that were not canceled. *)
Theorem metrics_distributions m obs lags :
  metrics_reach m obs lags -> Forall times_ok obs -> Forall is_u64 lags ->
  LatencyStat_summary (mx_success m) =
    LatencyStat_summary (stat_of PRIMARY_SIGFIG (measured ob_latency_us is_success obs)) /\
  LatencyStat_summary (mx_failure m) =
    LatencyStat_summary (stat_of PRIMARY_SIGFIG (measured ob_latency_us failed obs)) /\
  LatencyStat_summary (mx_censored m) =
    LatencyStat_summary (stat_of SECONDARY_SIGFIG (measured ob_latency_us timed_out obs)) /\
  LatencyStat_summary (mx_setup m) =
    LatencyStat_summary (stat_of SECONDARY_SIGFIG (measured ob_setup_us (fun ob => negb (canceled ob)) obs)).
Proof.
  intros Hr Hobs Hlags. destruct (metrics_reach_distributions m obs lags Hr Hobs Hlags) as [D1 D2 D3 D4 _].
  repeat split; by apply stat_summary_proper.
Qed.

(** The sizes of the classes. *)
Lemma measured_length f P obs : Z.of_nat (length (measured f P obs)) = tally (fun ob => Z.b2z (P ob)) obs.
Proof.
  unfold measured. rewrite length_map. unfold tally.
  induction obs as [|ob obs IH]; simpl; [done|]. destruct (P ob); simpl Z.b2z; simpl length; lia.
Qed.

Lemma stat_count_measured sf (st : LatencyStat H) f P obs :
  st ≡ stat_of sf (measured f P obs) -> Z.of_nat (length obs) <= U64_MAX ->
  LatencyStat_count st = tally (fun ob => Z.b2z (P ob)) obs.
Proof.
  intros E Hlen. rewrite E, stat_of_count, measured_length. apply Z.min_r.
  pose proof (tally_bound (fun ob => Z.b2z (P ob)) obs) as Ht.
  assert (forall ob, 0 <= Z.b2z (P ob) <= 1) as Hn by (intros ob; destruct (P ob); simpl; lia).
  specialize (Ht Hn). lia.
Qed.

(** What became of a send, from what was observed of it: read off the
    documentation of the outcomes, not off the tests the recorder makes. *)
Inductive SendClass :=
  | SC_Success
  | SC_Failure
  | SC_Censored
  | SC_Canceled
  | SC_NoResponse.

#[export] Instance SendClass_eq_dec : EqDecision SendClass.
Proof. solve_decision. Defined.

Inductive classified (ob : SendObservation) : SendClass -> Prop :=
  | classified_success :
      ob_terminal ob = Terminal_Completed -> ob_application_failure ob = false ->
      ob_assertion_failure ob = false -> ob_no_response ob = false ->
      classified ob SC_Success
  | classified_application :
      ob_terminal ob = Terminal_Completed -> ob_application_failure ob = true ->
      classified ob SC_Failure
  | classified_assertion :
      ob_terminal ob = Terminal_Completed -> ob_assertion_failure ob = true ->
      classified ob SC_Failure
  | classified_transport : ob_terminal ob = Terminal_TransportFailure -> classified ob SC_Failure
  | classified_timeout : ob_terminal ob = Terminal_Timeout -> classified ob SC_Censored
  | classified_canceled : ob_terminal ob = Terminal_Canceled -> classified ob SC_Canceled
  | classified_no_response :
      ob_terminal ob = Terminal_Completed -> ob_application_failure ob = false ->
      ob_assertion_failure ob = false -> ob_no_response ob = true ->
      classified ob SC_NoResponse.

Definition class_of (ob : SendObservation) : SendClass :=
  if is_success ob then SC_Success
  else if failed ob then SC_Failure
  else if timed_out ob then SC_Censored
  else if canceled ob then SC_Canceled
  else SC_NoResponse.

Lemma class_of_classified ob : classified ob (class_of ob).
Proof.
  unfold class_of, failed, timed_out, canceled, is_failure, is_success.
  destruct (ob_terminal ob) eqn:Et, (ob_application_failure ob) eqn:Ea,
    (ob_assertion_failure ob) eqn:Es, (ob_no_response ob) eqn:En; simpl;
    first [ by apply classified_success | by apply classified_application | by apply classified_assertion
          | by apply classified_transport | by apply classified_timeout | by apply classified_canceled
          | by apply classified_no_response ].
Qed.

(** The sends of a class, and their latencies. *)
Definition in_class (c : SendClass) (obs : list SendObservation) (classes : list SendClass)
    : list SendObservation :=
  map fst (List.filter (fun p => bool_decide (p.2 = c)) (combine obs classes)).
Definition class_latencies (c : SendClass) obs classes : list Z := map ob_latency_us (in_class c obs classes).
Definition class_size (c : SendClass) (classes : list SendClass) : Z :=
  Z.of_nat (length (List.filter (fun c' => bool_decide (c' = c)) classes)).

Lemma in_class_filter c P obs :
  (forall ob, bool_decide (class_of ob = c) = P ob) ->
  in_class c obs (map class_of obs) = List.filter P obs.
Proof.
  intros HP. unfold in_class. induction obs as [|ob obs IH]; [done|]. simpl. rewrite HP.
  destruct (P ob); simpl; by rewrite IH.
Qed.

Lemma class_size_tally c P obs :
  (forall ob, bool_decide (class_of ob = c) = P ob) ->
  class_size c (map class_of obs) = tally (fun ob => Z.b2z (P ob)) obs.
Proof.
  intros HP. unfold class_size, tally. induction obs as [|ob obs IH]; [done|]. simpl. rewrite HP.
  destruct (P ob); simpl length; simpl Z.b2z; lia.
Qed.

Lemma class_of_tests ob :
  bool_decide (class_of ob = SC_Success) = is_success ob /\
  bool_decide (class_of ob = SC_Failure) = failed ob /\
  bool_decide (class_of ob = SC_Censored) = timed_out ob.
Proof.
  unfold class_of, failed, timed_out, canceled, is_failure, is_success.
  by destruct (ob_terminal ob), (ob_application_failure ob), (ob_assertion_failure ob), (ob_no_response ob).
Qed.

Lemma class_sizes_add classes :
  class_size SC_Success classes + class_size SC_Failure classes + class_size SC_Censored classes +
  class_size SC_Canceled classes + class_size SC_NoResponse classes = Z.of_nat (length classes).
Proof.
  unfold class_size. induction classes as [|c classes IH]; [done|]. simpl.
  destruct c; simpl length; lia.
Qed.

(** C39: every send of a run is accounted for exactly once. Each send has
    one class, told from its observation: a success is completed with a
    response and neither an application nor an assertion failure; a failure
    is completed with one of the two, or broken off by the transport; a
    timeout is censored; the others are canceled or completed without a
    response. In any merge of any shards the three distributions hold the
    successes, the failures and the censored timeouts: their counts are the
    sizes of these classes, their summaries those of the latencies of these
    sends, and the five sizes add up to the sends. *)
Theorem metrics_account_for_every_send m obs lags :
  metrics_reach m obs lags -> Forall times_ok obs -> Forall is_u64 lags ->
  Z.of_nat (length obs) <= U64_MAX ->
  exists classes,
    Forall2 classified obs classes /\
    LatencyStat_count (mx_success m) = class_size SC_Success classes /\
    LatencyStat_count (mx_failure m) = class_size SC_Failure classes /\
    LatencyStat_count (mx_censored m) = class_size SC_Censored classes /\
    LatencyStat_count (mx_success m) + LatencyStat_count (mx_failure m) +
      LatencyStat_count (mx_censored m) + class_size SC_Canceled classes +
      class_size SC_NoResponse classes = Z.of_nat (length obs) /\
    LatencyStat_summary (mx_success m) =
      LatencyStat_summary (stat_of PRIMARY_SIGFIG (class_latencies SC_Success obs classes)) /\
    LatencyStat_summary (mx_failure m) =
      LatencyStat_summary (stat_of PRIMARY_SIGFIG (class_latencies SC_Failure obs classes)) /\
    LatencyStat_summary (mx_censored m) =
      LatencyStat_summary (stat_of SECONDARY_SIGFIG (class_latencies SC_Censored obs classes)).
Proof.
  intros Hr Hobs Hlags Hlen.
  assert (distributions m obs lags) as [D1 D2 D3 _ _] by by apply metrics_reach_distributions.
  exists (map class_of obs).
  assert (Forall2 classified obs (map class_of obs)) as Hcl.
  { clear. induction obs as [|ob obs IH]; [apply List.Forall2_nil|].
    apply List.Forall2_cons; [apply class_of_classified|apply IH]. }
  assert (LatencyStat_count (mx_success m) = class_size SC_Success (map class_of obs)) as C1.
  { rewrite (stat_count_measured _ _ _ _ _ D1) by done. symmetry. apply class_size_tally, class_of_tests. }
  assert (LatencyStat_count (mx_failure m) = class_size SC_Failure (map class_of obs)) as C2.
  { rewrite (stat_count_measured _ _ _ _ _ D2) by done. symmetry. apply class_size_tally, class_of_tests. }
  assert (LatencyStat_count (mx_censored m) = class_size SC_Censored (map class_of obs)) as C3.
  { rewrite (stat_count_measured _ _ _ _ _ D3) by done. symmetry. apply class_size_tally, class_of_tests. }
  repeat split; try done.
  - rewrite C1, C2, C3, class_sizes_add. by rewrite length_map.
  - unfold class_latencies. rewrite (in_class_filter _ is_success) by apply class_of_tests.
    by apply stat_summary_proper.
  - unfold class_latencies. rewrite (in_class_filter _ failed) by apply class_of_tests.
    by apply stat_summary_proper.
  - unfold class_latencies. rewrite (in_class_filter _ timed_out) by apply class_of_tests.
    by apply stat_summary_proper.
Qed.

(** ** Deadlines of the censored timeouts *)

Lemma deadlines_app obs obs' : deadlines (obs ++ obs') = deadlines obs ++ deadlines obs'.
Proof. unfold deadlines. by rewrite map_app, concat_app. Qed.

Lemma extremes_single m obs ob :
  extreme Z.le (deadlines obs) (mx_deadline_ms_min m) /\
  extreme Z.ge (deadlines obs) (mx_deadline_ms_max m) ->
  extreme Z.le (deadlines (obs ++ [ob])) (mx_deadline_ms_min (Metrics_record ob m)) /\
  extreme Z.ge (deadlines (obs ++ [ob])) (mx_deadline_ms_max (Metrics_record ob m)).
Proof.
  intros [Hmin Hmax]. destruct (record_deadlines ob m) as [-> ->]. rewrite deadlines_app.
  unfold deadlines at 2 3 5 6. simpl. rewrite app_nil_r.
  destruct (timed_out ob); [destruct (ob_deadline_ms ob) as [d|]|]; simpl; rewrite ?app_nil_r; try done.
  split; [apply (extreme_min _ [d] _ (Some d))|apply (extreme_max _ [d] _ (Some d))]; try done;
    (split; [by left|]; apply List.Forall_cons; [lia|apply List.Forall_nil]).
Qed.

(** The reported deadline range is that of the timed-out sends: its ends
    are deadlines of such sends and no deadline lies outside; without one
    there is no range. *)
Theorem metrics_deadline_range m obs lags :
  metrics_reach m obs lags ->
  extreme Z.le (deadlines obs) (mx_deadline_ms_min m) /\
  extreme Z.ge (deadlines obs) (mx_deadline_ms_max m).
Proof.
  induction 1 as [|m obs lags ob _ IH|m obs lags us _ IH|m o obs obs' lags lags' _ IH1 _ IH2].
  - done.
  - by apply extremes_single.
  - done.
  - rewrite deadlines_app. simpl. destruct IH1, IH2. split; [by apply extreme_min|by apply extreme_max].
Qed.
End Distributions.

(** * Two concrete shards *)

Definition sample_ok : SendObservation :=
  SendObservation_default <| ob_latency_us := 1200 |> <| ob_setup_us := 40 |> <| ob_status := Some 200 |>.

Definition sample_timeout : SendObservation :=
  SendObservation_default <| ob_terminal := Terminal_Timeout |> <| ob_latency_us := 30000000 |>
    <| ob_deadline_ms := Some 30000 |> <| ob_category := Some "timeout: total_timeout" |>
    <| ob_example := Some "GET http://a/" |>.

Definition sample_failed : SendObservation :=
  SendObservation_default <| ob_application_failure := true |> <| ob_latency_us := 800 |>
    <| ob_status := Some 500 |> <| ob_category := Some "application_failure: http_500" |>.

Definition sample_metrics : Metrics ListHist :=
  Metrics_merge
    (Metrics_record sample_timeout (Metrics_record sample_ok Metrics_new))
    (record_lag 70 (Metrics_record sample_failed (Metrics_record sample_failed Metrics_new))).

Definition sample_sends : list SendObservation := [sample_ok; sample_timeout; sample_failed; sample_failed].

Lemma sample_metrics_reach : metrics_reach sample_metrics sample_sends [70].
Proof.
  apply (metrics_reach_merge _ _ [sample_ok; sample_timeout] [sample_failed; sample_failed] [] [70]).
  - apply (metrics_reach_record _ [sample_ok]), (metrics_reach_record _ []), metrics_reach_new.
  - apply (metrics_reach_lag _ _ []), (metrics_reach_record _ [sample_failed]),
      (metrics_reach_record _ []), metrics_reach_new.
Qed.

Lemma sample_times_ok : Forall times_ok sample_sends.
Proof.
  repeat apply List.Forall_cons; try apply List.Forall_nil;
    (split; (split; [vm_compute; discriminate | vm_compute; reflexivity])).
Qed.

Lemma metrics_bounded_witness :
  (length (mx_categories sample_metrics) <= MAX_CATEGORIES)%nat /\
  length (mx_categories sample_metrics) = 2%nat.
Proof.
  destruct (metrics_bounded sample_metrics sample_sends [70] sample_metrics_reach) as [Hc _].
  split; [exact Hc | vm_compute; reflexivity].
Defined.

Lemma failure_samples_conserve_witness :
  foldr (fun s n => fs_count s + n) 0 (failure_samples sample_metrics) mod 2 ^ 64 = 3.
Proof.
  rewrite (failure_samples_conserve sample_metrics sample_sends [70] sample_metrics_reach);
    [reflexivity | reflexivity].
Defined.

Lemma failure_samples_sorted_witness :
  map fs_category (failure_samples sample_metrics) =
    ["application_failure: http_500"; "timeout: total_timeout"] /\
  StronglySorted sample_le (failure_samples sample_metrics).
Proof.
  destruct (failure_samples_sorted sample_metrics sample_sends [70] sample_metrics_reach) as [Hs _].
  split; [vm_compute; reflexivity | exact Hs].
Defined.

Lemma metrics_distributions_witness :
  LatencyStat_summary (mx_failure sample_metrics) =
    LatencyStat_summary (stat_of (H := ListHist) PRIMARY_SIGFIG [800; 800]).
Proof.
  destruct (metrics_distributions sample_metrics sample_sends [70] sample_metrics_reach
    sample_times_ok) as (_ & Hf & _); [u64s|]. exact Hf.
Defined.

Lemma metrics_account_for_every_send_witness :
  exists classes, Forall2 classified sample_sends classes /\
    LatencyStat_count (mx_success sample_metrics) = 1 /\
    LatencyStat_count (mx_failure sample_metrics) = 2 /\
    class_size SC_Failure classes = 2.
Proof.
  destruct (metrics_account_for_every_send sample_metrics sample_sends [70] sample_metrics_reach
    sample_times_ok) as (classes & Hc & _ & Hf & _); [u64s | vm_compute; discriminate|].
  exists classes. split; [exact Hc|]. split; [vm_compute; reflexivity|].
  split; [vm_compute; reflexivity|]. rewrite <- Hf. vm_compute. reflexivity.
Defined.

Lemma metrics_deadline_range_witness : mx_deadline_ms_min sample_metrics = Some 30000 /\
  extreme Z.le [30000] (mx_deadline_ms_min sample_metrics).
Proof.
  split; [vm_compute; reflexivity|].
  exact (proj1 (metrics_deadline_range sample_metrics sample_sends [70] sample_metrics_reach)).
Defined.
