(* ===== verification/Ledger.v ===== *)
(** The run ledger (crates/anvil-load/src/executor.rs, [Ledger] and
    [LedgerState]): counts of iterations and sends, kept apart for the warmup
    and the measured window, what is in flight, the peaks of the timeline and
    the window of the abort rule. Every function here is one critical section
    of the ledger's lock, so the state after any interleaving of the tasks is
    the result of a sequence of these functions. *)
From Stdlib Require Import ZArith Lia.
From stdpp Require Import base numbers strings option list.
From S2P Require Import Prelude OrdMap Text Settings Evidence Request LoadModel Units Observe.
Open Scope list_scope.
Open Scope Z_scope.

Definition MAX_TIMELINE_BUCKETS : Z := 3600.
(** Minimum sends in the abort window before the ratio is evaluated. *)
Definition ABORT_MIN_SENDS : Z := 10.

#[export] Instance eta_LoadCounts : Eta LoadCounts := fun r =>
  mkLoadCounts (lc_scheduled r) (lc_started r) (lc_dropped r) (lc_completed r)
    (lc_transport_failures r) (lc_application_failures r) (lc_assertion_failures r)
    (lc_timeouts r) (lc_canceled r) (lc_in_flight_at_end r).

#[export] Instance eta_RequestCounts : Eta RequestCounts := fun r =>
  mkRequestCounts (rc_started r) (rc_completed r) (rc_transport_failures r) (rc_timeouts r)
    (rc_canceled r) (rc_in_flight_at_end r) (rc_application_failures r)
    (rc_assertion_failures r) (rc_connections_opened r) (rc_connections_reused r).

(** * State *)

Record Ledger := mkLedger {
  lg_counts : LoadCounts;
  lg_requests : RequestCounts;
  lg_iter_in_flight : Z;
  lg_send_in_flight : Z;
}.

#[export] Instance eta_Ledger : Eta Ledger := fun r =>
  mkLedger (lg_counts r) (lg_requests r) (lg_iter_in_flight r) (lg_send_in_flight r).

Definition Ledger_default : Ledger := mkLedger LoadCounts_default RequestCounts_default 0 0.

(** [Ledger::balanced]. *)
Definition balanced (g : Ledger) : LoadCounts * RequestCounts :=
  (lg_counts g <| lc_in_flight_at_end := lg_iter_in_flight g |>,
   lg_requests g <| rc_in_flight_at_end := lg_send_in_flight g |>).

(** A [LedgerState]; the ring holds (second, finished sends, failed sends). *)
Record LedgerState := mkLedgerState {
  ls_measured : Ledger;
  ls_warmup : Ledger;
  ls_peaks : omap Z Z;
  ls_last_peak_bucket : option Z;
  ls_ring : list (Z * Z * Z);
}.

#[export] Instance eta_LedgerState : Eta LedgerState := fun r =>
  mkLedgerState (ls_measured r) (ls_warmup r) (ls_peaks r) (ls_last_peak_bucket r) (ls_ring r).

Definition LedgerState_default : LedgerState :=
  mkLedgerState Ledger_default Ledger_default [] None [].

(** [LedgerState::side], and an update through the reference it returns. *)
Definition side (measured : bool) (l : LedgerState) : Ledger :=
  if measured then ls_measured l else ls_warmup l.

Definition on_side (measured : bool) (f : Ledger -> Ledger) (l : LedgerState) : LedgerState :=
  if measured then l <| ls_measured ::= f |> else l <| ls_warmup ::= f |>.

Definition send_in_flight_total (l : LedgerState) : Z :=
  lg_send_in_flight (ls_measured l) ⊞ lg_send_in_flight (ls_warmup l).

(** * Operations *)

(** [let p = peaks.entry(k).or_default(); *p = ( *p ).max(v)]. *)
Definition raise_peak (k v : Z) (peaks : omap Z Z) : omap Z Z :=
  om_upd (fun p => Z.max (default 0 p) v) k peaks.

(** [LedgerState::note_peak]. *)
Definition note_peak (bucket held peak : Z) (l : LedgerState) : LedgerState :=
  if MAX_TIMELINE_BUCKETS <=? bucket then l else
  let peaks := match ls_last_peak_bucket l with
    | Some last_ =>
        fold_left (fun m k => raise_peak k held m) (seqZ (last_ + 1) (bucket - (last_ + 1))) (ls_peaks l)
    | None => ls_peaks l
    end in
  l <| ls_peaks := raise_peak bucket peak peaks |>
    <| ls_last_peak_bucket := Some (from_option (fun last_ => Z.max last_ bucket) bucket
                                      (ls_last_peak_bucket l)) |>.

(** [begin_iteration]. *)
Definition begin_iteration (measured : bool) (l : LedgerState) : LedgerState :=
  on_side measured (fun s => s
    <| lg_counts ::= (fun c => c <| lc_scheduled ::= (fun n => n ⊞ 1) |>
                                 <| lc_started ::= (fun n => n ⊞ 1) |>) |>
    <| lg_iter_in_flight ::= (fun n => n ⊞ 1) |>) l.

(** The ledger part of [arrival_dropped]. *)
Definition arrival_dropped (measured : bool) (l : LedgerState) : LedgerState :=
  on_side measured (fun s => s
    <| lg_counts ::= (fun c => c <| lc_scheduled ::= (fun n => n ⊞ 1) |>
                                 <| lc_dropped ::= (fun n => n ⊞ 1) |>) |>) l.

(** [ledger_begin_send]; [bucket] is sampled while the lock is held. *)
Definition ledger_begin_send (measured : bool) (bucket : Z) (l : LedgerState) : LedgerState :=
  let held := send_in_flight_total l in
  let l := on_side measured (fun s => s
    <| lg_requests ::= (fun r => r <| rc_started ::= (fun n => n ⊞ 1) |>) |>
    <| lg_send_in_flight ::= (fun n => n ⊞ 1) |>) l in
  note_peak bucket held (send_in_flight_total l) l.

(** The request counts a finished send changes. *)
Definition count_send (o : SendObservation) (r : RequestCounts) : RequestCounts :=
  let r := match ob_terminal o with
    | Terminal_Completed => r <| rc_completed ::= (fun n => n ⊞ 1) |>
    | Terminal_TransportFailure => r <| rc_transport_failures ::= (fun n => n ⊞ 1) |>
    | Terminal_Timeout => r <| rc_timeouts ::= (fun n => n ⊞ 1) |>
    | Terminal_Canceled => r <| rc_canceled ::= (fun n => n ⊞ 1) |>
    end in
  r <| rc_application_failures ::= (fun n => n ⊞ Z.b2z (ob_application_failure o)) |>
    <| rc_assertion_failures ::= (fun n => n ⊞ Z.b2z (ob_assertion_failure o)) |>
    <| rc_connections_opened ::= (fun n => n ⊞ ob_connections_opened o) |>
    <| rc_connections_reused ::= (fun n => n ⊞ ob_connections_reused o) |>.

(** The abort window after a finished send in second [sec]. *)
Definition ring_push (sec : Z) (failed : bool) (ring : list (Z * Z * Z)) : list (Z * Z * Z) :=
  match last ring with
  | Some (s, n, x) =>
      if s =? sec then removelast ring ++ [(s, n ⊞ 1, x ⊞ Z.b2z failed)]
      else ring ++ [(sec, 1, Z.b2z failed)]
  | None => [(sec, 1, Z.b2z failed)]
  end.

Fixpoint ring_expire (window sec : Z) (ring : list (Z * Z * Z)) : list (Z * Z * Z) :=
  match ring with
  | (s, n, x) :: ring' => if s ⊞ window <? sec then ring_expire window sec ring' else ring
  | [] => []
  end.

Definition window_of (rule : AbortRule) : Z := Z.max 1 (ab_window_secs rule).

(** The ledger part of [end_send]: [bucket] is sampled under the lock, [sec]
    is the second the send ended in. *)
Definition ledger_end_send (abort : option AbortRule) (measured : bool) (bucket sec : Z)
    (o : SendObservation) (l : LedgerState) : LedgerState :=
  let held := send_in_flight_total l in
  let l := note_peak bucket held held l in
  let l := on_side measured (fun s => s
    <| lg_send_in_flight ::= (fun n => n ⊟ 1) |>
    <| lg_requests ::= count_send o |>) l in
  match abort with
  | Some rule =>
      if bool_decide (ob_terminal o = Terminal_Canceled) then l
      else l <| ls_ring ::= (fun ring => ring_expire (window_of rule) sec (ring_push sec (is_failure o) ring)) |>
  | None => l
  end.

(** [end_iteration]. *)
Definition end_iteration (measured : bool) (terminal : Terminal) (app assertion : bool)
    (l : LedgerState) : LedgerState :=
  on_side measured (fun s => s
    <| lg_iter_in_flight ::= (fun n => n ⊟ 1) |>
    <| lg_counts ::= (fun c =>
         match terminal with
         | Terminal_Completed => c
             <| lc_completed ::= (fun n => n ⊞ 1) |>
             <| lc_application_failures ::= (fun n => n ⊞ Z.b2z app) |>
             <| lc_assertion_failures ::= (fun n => n ⊞ Z.b2z assertion) |>
         | Terminal_TransportFailure => c <| lc_transport_failures ::= (fun n => n ⊞ 1) |>
         | Terminal_Timeout => c <| lc_timeouts ::= (fun n => n ⊞ 1) |>
         | Terminal_Canceled => c <| lc_canceled ::= (fun n => n ⊞ 1) |>
         end) |>) l.

(** The ledger part of [flush]: the peaks below [upto] are taken. *)
Definition take_peaks (upto : Z) (l : LedgerState) : omap Z Z * LedgerState :=
  (om_below upto (ls_peaks l), l <| ls_peaks := om_from upto (ls_peaks l) |>).

(** The window's (finished, failed) sums of [abort_triggered] at [now_sec]. *)
Definition abort_window (rule : AbortRule) (now_sec : Z) (l : LedgerState) : Z * Z :=
  fold_left (fun '(f, x) '(_, n, y) => (f ⊞ n, x ⊞ y))
    (List.filter (fun e => now_sec <? e.1.1 ⊞ window_of rule) (ls_ring l)) (0, 0).

(** Whether [abort_triggered] returns a note. *)
Definition abort_triggered (abort : option AbortRule) (now_sec : Z) (l : LedgerState) : bool :=
  match abort with
  | None => false
  | Some rule =>
      let '(fin, fail_) := abort_window rule now_sec l in
      (ABORT_MIN_SENDS <=? fin) && (mul64 (ab_max_failure_permille rule) fin <? mul64 fail_ 1000)
  end.

(** * Runs of the ledger *)

(** The critical sections, in the order they take the lock. *)
Inductive ledger_event :=
  | Ev_BeginIteration (measured : bool)
  | Ev_ArrivalDropped (measured : bool)
  | Ev_BeginSend (measured : bool) (bucket : Z)
  | Ev_EndSend (measured : bool) (bucket sec : Z) (o : SendObservation)
  | Ev_EndIteration (measured : bool) (terminal : Terminal) (app assertion : bool)
  | Ev_TakePeaks (upto : Z).

Definition ledger_apply (abort : option AbortRule) (e : ledger_event) (l : LedgerState) : LedgerState :=
  match e with
  | Ev_BeginIteration m => begin_iteration m l
  | Ev_ArrivalDropped m => arrival_dropped m l
  | Ev_BeginSend m bucket => ledger_begin_send m bucket l
  | Ev_EndSend m bucket sec o => ledger_end_send abort m bucket sec o l
  | Ev_EndIteration m t app assertion => end_iteration m t app assertion l
  | Ev_TakePeaks upto => (take_peaks upto l).2
  end.

(** A task ends only what it began: an end needs something in flight. *)
Definition ledger_enabled (e : ledger_event) (l : LedgerState) : Prop :=
  match e with
  | Ev_EndSend m _ _ _ => 0 < lg_send_in_flight (side m l)
  | Ev_EndIteration m _ _ _ => 0 < lg_iter_in_flight (side m l)
  | _ => True
  end.

(** The ledger after the events, in any interleaving of the tasks. *)
Inductive ledger_run (abort : option AbortRule) : LedgerState -> list ledger_event -> Prop :=
  | ledger_run_nil : ledger_run abort LedgerState_default []
  | ledger_run_step l es e : ledger_run abort l es -> ledger_enabled e l ->
      ledger_run abort (ledger_apply abort e l) (es ++ [e]).

Lemma side_on_side m m' f l :
  side m' (on_side m f l) = if Bool.eqb m m' then f (side m' l) else side m' l.
Proof. by destruct m, m'. Qed.

Lemma side_note_peak m b held peak l : side m (note_peak b held peak l) = side m l.
Proof. unfold note_peak. destruct (_ <=? _); [done|]. by destruct m. Qed.

(** ** The counts balance *)

(** The books of one side after at most [n] events. *)
Record ledger_ok (n : Z) (g : Ledger) : Prop := {
  ok_scheduled : lc_scheduled (lg_counts g) = lc_started (lg_counts g) + lc_dropped (lg_counts g);
  ok_iterations : lc_started (lg_counts g) =
    lc_completed (lg_counts g) + lc_transport_failures (lg_counts g) +
    lc_timeouts (lg_counts g) + lc_canceled (lg_counts g) + lg_iter_in_flight g;
  ok_sends : rc_started (lg_requests g) =
    rc_completed (lg_requests g) + rc_transport_failures (lg_requests g) +
    rc_timeouts (lg_requests g) + rc_canceled (lg_requests g) + lg_send_in_flight g;
  ok_application : 0 <= lc_application_failures (lg_counts g) <= lc_completed (lg_counts g);
  ok_assertion : 0 <= lc_assertion_failures (lg_counts g) <= lc_completed (lg_counts g);
  ok_iteration_counts : 0 <= lc_dropped (lg_counts g) /\ 0 <= lc_transport_failures (lg_counts g) /\
    0 <= lc_timeouts (lg_counts g) /\ 0 <= lc_canceled (lg_counts g) /\ 0 <= lg_iter_in_flight g;
  ok_send_counts : 0 <= rc_completed (lg_requests g) /\ 0 <= rc_transport_failures (lg_requests g) /\
    0 <= rc_timeouts (lg_requests g) /\ 0 <= rc_canceled (lg_requests g) /\ 0 <= lg_send_in_flight g;
  ok_bound : lc_scheduled (lg_counts g) <= n /\ rc_started (lg_requests g) <= n;
}.

Lemma ledger_ok_le n n' g : ledger_ok n g -> n <= n' -> ledger_ok n' g.
Proof. intros [] ?. split; try done. lia. Qed.

(** Resolve the [u64] operations of a goal by the bounds in scope. *)
Ltac exact_u64 := rewrite ?add64_small, ?sub64_small by lia.

Ltac books := simpl in *; exact_u64; lia.

Lemma begin_iteration_ok n g : ledger_ok n g -> n + 1 < 2 ^ 64 -> ledger_ok (n + 1)
  (g <| lg_counts ::= (fun c => c <| lc_scheduled ::= (fun n => n ⊞ 1) |> <| lc_started ::= (fun n => n ⊞ 1) |>) |>
     <| lg_iter_in_flight ::= (fun n => n ⊞ 1) |>).
Proof. intros [] ?. split; books. Qed.

Lemma arrival_dropped_ok n g : ledger_ok n g -> n + 1 < 2 ^ 64 -> ledger_ok (n + 1)
  (g <| lg_counts ::= (fun c => c <| lc_scheduled ::= (fun n => n ⊞ 1) |> <| lc_dropped ::= (fun n => n ⊞ 1) |>) |>).
Proof. intros [] ?. split; books. Qed.

Lemma begin_send_ok n g : ledger_ok n g -> n + 1 < 2 ^ 64 -> ledger_ok (n + 1)
  (g <| lg_requests ::= (fun r => r <| rc_started ::= (fun n => n ⊞ 1) |>) |>
     <| lg_send_in_flight ::= (fun n => n ⊞ 1) |>).
Proof. intros [] ?. split; books. Qed.

Lemma end_send_ok n g o : ledger_ok n g -> n + 1 < 2 ^ 64 -> 0 < lg_send_in_flight g ->
  ledger_ok (n + 1) (g <| lg_send_in_flight ::= (fun n => n ⊟ 1) |> <| lg_requests ::= count_send o |>).
Proof. intros [] ? ?. unfold count_send. destruct (ob_terminal o); split; books. Qed.

Lemma end_iteration_ok n g t app assertion : ledger_ok n g -> n + 1 < 2 ^ 64 -> 0 < lg_iter_in_flight g ->
  ledger_ok (n + 1) (g
    <| lg_iter_in_flight ::= (fun n => n ⊟ 1) |>
    <| lg_counts ::= (fun c =>
         match t with
         | Terminal_Completed => c
             <| lc_completed ::= (fun n => n ⊞ 1) |>
             <| lc_application_failures ::= (fun n => n ⊞ Z.b2z app) |>
             <| lc_assertion_failures ::= (fun n => n ⊞ Z.b2z assertion) |>
         | Terminal_TransportFailure => c <| lc_transport_failures ::= (fun n => n ⊞ 1) |>
         | Terminal_Timeout => c <| lc_timeouts ::= (fun n => n ⊞ 1) |>
         | Terminal_Canceled => c <| lc_canceled ::= (fun n => n ⊞ 1) |>
         end) |>).
Proof.
  intros [] ? ?. assert (0 <= Z.b2z app <= 1 /\ 0 <= Z.b2z assertion <= 1) by (destruct app, assertion; simpl; lia).
  destruct t; split; books.
Qed.

Lemma ledger_run_ok abort l es m : ledger_run abort l es -> Z.of_nat (length es) < 2 ^ 64 ->
  ledger_ok (Z.of_nat (length es)) (side m l).
Proof.
  induction 1 as [|l es e Hr IH He]; [destruct m; split; simpl; lia|].
  rewrite length_app. simpl. intros Hlen. rewrite Nat2Z.inj_add in *. simpl in *.
  specialize (IH ltac:(lia)).
  assert (ledger_ok (Z.of_nat (length es) + 1) (side m l)) as Hle by (eapply ledger_ok_le; [done|lia]).
  destruct e as [m'|m'|m' b|m' b sec o|m' t app assertion|upto]; simpl;
    unfold begin_iteration, arrival_dropped, ledger_begin_send, ledger_end_send, end_iteration.
  - rewrite side_on_side. destruct (Bool.eqb m' m) eqn:E; [|done]. by apply begin_iteration_ok.
  - rewrite side_on_side. destruct (Bool.eqb m' m) eqn:E; [|done]. by apply arrival_dropped_ok.
  - rewrite side_note_peak, side_on_side. destruct (Bool.eqb m' m) eqn:E; [|done]. by apply begin_send_ok.
  - set (l1 := on_side _ _ _).
    assert (ledger_ok (Z.of_nat (length es) + 1) (side m l1)) as H1.
    { unfold l1. rewrite side_on_side, side_note_peak. destruct (Bool.eqb m' m) eqn:E; [|done].
      apply Bool.eqb_prop in E as ->. by apply end_send_ok. }
    destruct abort as [rule|]; [destruct (bool_decide _)|]; done.
  - rewrite side_on_side. destruct (Bool.eqb m' m) eqn:E; [|done].
    apply Bool.eqb_prop in E as ->. by apply end_iteration_ok.
  - by destruct m.
Qed.

(** C3: in every interleaving of the tasks the reported counts balance, in the
    warmup as in the measured window: each scheduled arrival was started or
    dropped, each started iteration and each started send is completed, failed,
    timed out, canceled or in flight, and no more iterations fail in the
    application than completed. *)
Theorem ledger_balance abort l es measured :
  ledger_run abort l es -> Z.of_nat (length es) < 2 ^ 64 ->
  let '(c, r) := balanced (side measured l) in
  lc_scheduled c = lc_started c + lc_dropped c /\
  lc_started c = lc_completed c + lc_transport_failures c + lc_timeouts c + lc_canceled c +
    lc_in_flight_at_end c /\
  rc_started r = rc_completed r + rc_transport_failures r + rc_timeouts r + rc_canceled r +
    rc_in_flight_at_end r /\
  lc_application_failures c <= lc_completed c /\ lc_assertion_failures c <= lc_completed c.
Proof. intros Hr Hlen. destruct (ledger_run_ok abort l es measured Hr Hlen). simpl. lia. Qed.

(** ** Timeline peaks *)

(** The sends in flight after the events. *)
Definition flight_delta (e : ledger_event) : Z :=
  match e with Ev_BeginSend _ _ => 1 | Ev_EndSend _ _ _ _ => -1 | _ => 0 end.

Definition in_flight (es : list ledger_event) : Z := foldr (fun e n => flight_delta e + n) 0 es.

(** The bucket of a send event. *)
Definition send_bucket (e : ledger_event) : option Z :=
  match e with Ev_BeginSend _ b | Ev_EndSend _ b _ _ => Some b | _ => None end.

(** The highest in-flight count that held at some time in bucket [b]: between
    two send events the count is constant, so it held in every bucket from the
    first event's to the second's. The state is the bucket of the last send
    event, the count since, and the highest count of the intervals closed. *)
Definition peak_step (b : Z) (st : option Z * Z * Z) (e : ledger_event) : option Z * Z * Z :=
  let '(from, cur, acc) := st in
  match send_bucket e with
  | None => st
  | Some b' =>
      let held := if from is Some f then if (f <=? b) && (b <=? b') then cur else 0 else 0 in
      (Some b', cur + flight_delta e, Z.max acc held)
  end.

Definition peak_of (b : Z) (es : list ledger_event) : Z :=
  let '(from, cur, acc) := fold_left (peak_step b) es (None, 0, 0) in
  if from is Some f then if f <=? b then Z.max acc cur else acc else acc.

(** What [flush] reports for a bucket. *)
Definition bucket_in_flight (b : Z) (peaks : omap Z Z) (last_ : option Z) (now : Z) : Z :=
  match om_get b peaks with
  | Some p => p
  | None => if last_ is Some l then if l <? b then now else 0 else 0
  end.

Lemma in_flight_snoc es e : in_flight (es ++ [e]) = in_flight es + flight_delta e.
Proof. unfold in_flight. induction es as [|x es IH]; simpl in *; lia. Qed.

Definition side_flight (m : bool) (es : list ledger_event) : Z :=
  foldr (fun e n => match e with
    | Ev_BeginSend m' _ | Ev_EndSend m' _ _ _ => if Bool.eqb m m' then flight_delta e + n else n
    | _ => n end) 0 es.

Lemma side_flight_snoc m es e : side_flight m (es ++ [e]) = side_flight m es + side_flight m [e].
Proof.
  unfold side_flight. induction es as [|x es IH]; [done|]. simpl in *.
  destruct x; try done; destruct (Bool.eqb _ _); lia.
Qed.

Lemma side_flight_total es : in_flight es = side_flight true es + side_flight false es.
Proof.
  induction es as [|e es IH] using rev_ind; [done|].
  rewrite in_flight_snoc, !side_flight_snoc, IH. destruct e as [| |[]|[]| |]; simpl; lia.
Qed.

Lemma eqb_comm (a b : bool) : Bool.eqb b a = Bool.eqb a b.
Proof. by destruct a, b. Qed.

Lemma side_flight_exact abort l es m : ledger_run abort l es -> Z.of_nat (length es) < 2 ^ 64 ->
  lg_send_in_flight (side m l) = side_flight m es /\
  0 <= side_flight m es <= Z.of_nat (length es).
Proof.
  induction 1 as [|l es e Hr IH He]; [by destruct m|].
  rewrite length_app, Nat2Z.inj_add, side_flight_snoc. simpl length. intros Hlen.
  destruct (IH ltac:(lia)) as [E Hb]. clear IH Hr.
  assert (lg_send_in_flight (side m (ledger_apply abort e l)) =
    lg_send_in_flight (side m l) + side_flight m [e] /\ 0 <= side_flight m es + side_flight m [e]) as [-> ?].
  2:{ rewrite E. split; [done|]. destruct e; simpl in *; try destruct (Bool.eqb _ _); lia. }
  destruct e as [m'|m'|m' b|m' b sec o|m' t app assertion|upto]; simpl;
    unfold begin_iteration, arrival_dropped, ledger_begin_send, ledger_end_send, end_iteration.
  - rewrite side_on_side. destruct (Bool.eqb m' m); simpl; lia.
  - rewrite side_on_side. destruct (Bool.eqb m' m); simpl; lia.
  - rewrite side_note_peak, side_on_side, (eqb_comm m). destruct (Bool.eqb m m'); simpl; [|lia].
    rewrite add64_small; lia.
  - simpl in He. set (l1 := on_side _ _ _).
    assert (lg_send_in_flight (side m l1) = lg_send_in_flight (side m l) + (if Bool.eqb m m' then -1 else 0) /\
      0 <= side_flight m es + (if Bool.eqb m m' then -1 else 0)) as [E1 ?].
    { unfold l1. rewrite side_on_side, side_note_peak, (eqb_comm m). destruct (Bool.eqb m m') eqn:Em; simpl; [|lia].
      apply Bool.eqb_prop in Em as ->. rewrite sub64_small; lia. }
    assert (lg_send_in_flight (side m l1) = lg_send_in_flight (side m l) +
      (if Bool.eqb m m' then -1 + 0 else 0)) as E2 by (rewrite E1; destruct (Bool.eqb m m'); lia).
    split; [|destruct (Bool.eqb m m'); lia].
    by destruct abort as [rule|]; [destruct (bool_decide _)|]; destruct m.
  - rewrite side_on_side. destruct (Bool.eqb m' m); simpl; lia.
  - destruct m; simpl; lia.
Qed.

Lemma total_in_flight abort l es : ledger_run abort l es -> Z.of_nat (length es) < 2 ^ 64 ->
  send_in_flight_total l = in_flight es /\ 0 <= in_flight es.
Proof.
  intros Hr Hlen. rewrite side_flight_total. unfold send_in_flight_total.
  destruct (side_flight_exact abort l es true Hr Hlen) as [E1 B1].
  destruct (side_flight_exact abort l es false Hr Hlen) as [E2 B2].
  simpl in E1, E2. rewrite E1, E2. split; [|lia].
  assert (side_flight true es + side_flight false es <= Z.of_nat (length es)) as Hsum.
  { clear. induction es as [|e es IH]; simpl length; [simpl; lia|].
    destruct e as [| |[]|[]| |]; simpl in *; lia. }
  apply add64_small; lia.
Qed.

Lemma om_get_raise k v m b : om_wf m ->
  om_get b (raise_peak k v m) = if decide (k = b) then Some (Z.max (default 0 (om_get b m)) v) else om_get b m.
Proof.
  intros Hm. unfold raise_peak. case_decide as E; [subst; by rewrite om_get_upd_eq|by apply om_get_upd_ne].
Qed.

Lemma om_get_carry held a n m b : om_wf m ->
  let m' := fold_left (fun m k => raise_peak k held m) (seqZ a n) m in
  om_wf m' /\ om_get b m' =
    if decide (a <= b < a + n) then Some (Z.max (default 0 (om_get b m)) held) else om_get b m.
Proof.
  intros Hm. cbv zeta. destruct (decide (0 <= n)) as [Hn|Hn].
  2:{ rewrite seqZ_nil by lia. simpl. rewrite decide_False by lia. done. }
  revert a m Hm. pattern n. apply natlike_ind; [|clear n Hn; intros n Hn IH|done]; intros a m Hm.
  - simpl. rewrite decide_False by lia. done.
  - rewrite seqZ_cons by lia. simpl.
    destruct (IH (Z.succ a) (raise_peak a held m)) as [Hw E]; [by apply om_upd_wf|].
    rewrite Z.pred_succ. split; [done|]. rewrite E, om_get_raise by done.
    destruct (decide (a = b)) as [->|].
    + rewrite decide_False by lia. by rewrite decide_True by lia.
    + destruct (decide (Z.succ a <= b < Z.succ a + n)).
      * by rewrite decide_True by lia.
      * by rewrite decide_False by lia.
Qed.

(** The send events happen in nondecreasing buckets of the timeline (the
    bucket is sampled while the lock is held, from a monotonic clock), and the
    bucket [b] has not been taken yet. *)
Definition peak_event_ok (b : Z) (from : option Z) (e : ledger_event) : Prop :=
  match e with
  | Ev_BeginSend _ b' | Ev_EndSend _ b' _ _ => default 0 from <= b' < MAX_TIMELINE_BUCKETS
  | Ev_TakePeaks upto => upto <= b
  | _ => True
  end.

Fixpoint peak_events_ok (b : Z) (from : option Z) (es : list ledger_event) : Prop :=
  match es with
  | [] => True
  | e :: es => peak_event_ok b from e /\
      peak_events_ok b (if send_bucket e is Some b' then Some b' else from) es
  end.

Definition peak_state (b : Z) (es : list ledger_event) : option Z * Z * Z :=
  fold_left (peak_step b) es (None, 0, 0).

Lemma peak_state_snoc b es e : peak_state b (es ++ [e]) = peak_step b (peak_state b es) e.
Proof. unfold peak_state. by rewrite fold_left_app. Qed.

Lemma peak_events_snoc b from es e : peak_events_ok b from (es ++ [e]) ->
  peak_events_ok b from es /\
  peak_event_ok b (foldl (fun f e => if send_bucket e is Some b' then Some b' else f) from es) e.
Proof.
  revert from. induction es as [|x es IH]; intros from; simpl; [tauto|].
  intros [Hx [H1 H2]%IH]. tauto.
Qed.

Lemma peak_state_from b es :
  (peak_state b es).1.1 = foldl (fun f e => if send_bucket e is Some b' then Some b' else f) None es.
Proof.
  induction es as [|e es IH] using rev_ind; [done|].
  rewrite peak_state_snoc, foldl_snoc, <- IH. destruct (peak_state b es) as [[from cur] acc].
  unfold peak_step. by destruct (send_bucket e).
Qed.

Lemma peak_state_cur b es : (peak_state b es).1.2 = in_flight es.
Proof.
  induction es as [|e es IH] using rev_ind; [done|].
  rewrite peak_state_snoc, in_flight_snoc, <- IH. destruct (peak_state b es) as [[from cur] acc].
  unfold peak_step. destruct e; simpl; lia.
Qed.

(** The ledger's peaks against the specification's state. *)
Record peak_inv (b : Z) (l : LedgerState) (st : option Z * Z * Z) : Prop := {
  pi_wf : om_wf (ls_peaks l);
  pi_last : ls_last_peak_bucket l = st.1.1;
  pi_cur : send_in_flight_total l = st.1.2;
  pi_pos : 0 <= st.1.2 /\ 0 <= st.2;
  pi_get : match st.1.1 with
    | None => om_get b (ls_peaks l) = None /\ st.1.2 = 0 /\ st.2 = 0
    | Some f => 0 <= f /\
        if decide (b <= f)
        then default 0 (om_get b (ls_peaks l)) = if f =? b then Z.max st.2 st.1.2 else st.2
        else om_get b (ls_peaks l) = None /\ st.2 = 0
    end;
}.

(** [note_peak] with the count before and the higher of the counts around an
    event in bucket [b']. *)
Lemma note_peak_inv b b' l st cur' peak : 0 <= b ->
  peak_inv b l st -> default 0 st.1.1 <= b' < MAX_TIMELINE_BUCKETS ->
  0 <= cur' -> peak = Z.max st.1.2 cur' ->
  let l' := note_peak b' st.1.2 peak l in
  om_wf (ls_peaks l') /\ ls_last_peak_bucket l' = Some b' /\ 0 <= b' /\
  let acc := Z.max st.2 (if st.1.1 is Some f then if (f <=? b) && (b <=? b') then st.1.2 else 0 else 0) in
  if decide (b <= b')
  then default 0 (om_get b (ls_peaks l')) = if b' =? b then Z.max acc cur' else acc
  else om_get b (ls_peaks l') = None /\ acc = 0.
Proof.
  intros Hb [Hwf Hlast Hcur Hpos Hget] Hb' Hcur' ->. destruct st as [[from cur] acc]. simpl in *.
  unfold note_peak. rewrite (proj2 (Z.leb_gt _ _)) by lia. rewrite Hlast.
  destruct from as [f|]; simpl in *.
  - destruct Hget as [Hf Hget].
    destruct (om_get_carry cur (f + 1) (b' - (f + 1)) (ls_peaks l) b Hwf) as [Hwf' E].
    split; [by apply om_upd_wf|]. split; [f_equal; lia|]. split; [lia|].
    rewrite om_get_raise by done. rewrite E. clear E.
    destruct (decide (b <= b')) as [Hbb|Hbb].
    + destruct (decide (b <= f)).
      * revert Hget. rewrite !(decide_False (P := f + 1 <= b < _)) by lia.
        repeat case_decide; simpl; bool_cases; simpl; intros; lia.
      * destruct Hget as [-> ->]. repeat case_decide; simpl; bool_cases; simpl; lia.
    + destruct (decide (b <= f)); [lia|]. destruct Hget as [-> ->].
      rewrite !decide_False by lia. split; [done|]. bool_cases; simpl; lia.
  - destruct Hget as (Hnone & -> & ->).
    split; [by apply om_upd_wf|]. split; [done|]. split; [lia|].
    rewrite om_get_raise, Hnone by done.
    repeat case_decide; simpl; try lia; bool_cases; simpl; try lia. done.
Qed.

(** [note_peak] reads and writes the peaks only. *)
Lemma note_peak_congr b held peak l l1 :
  ls_peaks l1 = ls_peaks l -> ls_last_peak_bucket l1 = ls_last_peak_bucket l ->
  ls_peaks (note_peak b held peak l1) = ls_peaks (note_peak b held peak l) /\
  ls_last_peak_bucket (note_peak b held peak l1) = ls_last_peak_bucket (note_peak b held peak l).
Proof. intros E1 E2. unfold note_peak. destruct (_ <=? _); [done|]. simpl. by rewrite E1, E2. Qed.

Lemma on_side_peaks m f l :
  ls_peaks (on_side m f l) = ls_peaks l /\ ls_last_peak_bucket (on_side m f l) = ls_last_peak_bucket l.
Proof. by destruct m. Qed.

(** What a send event in bucket [b'] does to the peaks. *)
Lemma send_event_peaks abort e l b' : send_bucket e = Some b' ->
  send_in_flight_total (ledger_apply abort e l) = send_in_flight_total l + flight_delta e ->
  let l' := note_peak b' (send_in_flight_total l)
    (Z.max (send_in_flight_total l) (send_in_flight_total l + flight_delta e)) l in
  ls_peaks (ledger_apply abort e l) = ls_peaks l' /\
  ls_last_peak_bucket (ledger_apply abort e l) = ls_last_peak_bucket l'.
Proof.
  destruct e as [| |m b|m b sec o| |]; simpl; intros [= ->] E.
  - unfold ledger_begin_send in *. set (l1 := on_side _ _ _) in *.
    destruct (on_side_peaks m (fun s => s
      <| lg_requests ::= (fun r => r <| rc_started ::= (fun n => n ⊞ 1) |>) |>
      <| lg_send_in_flight ::= (fun n => n ⊞ 1) |>) l) as [E1 E2]. fold l1 in E1, E2.
    assert (send_in_flight_total l1 = send_in_flight_total l + 1) as Et.
    { rewrite <- E. unfold send_in_flight_total, note_peak. by destruct (_ <=? _). }
    rewrite Et, Z.max_r by lia. by apply note_peak_congr.
  - rewrite Z.max_l by lia. unfold ledger_end_send. set (l1 := on_side _ _ _).
    assert (ls_peaks l1 = ls_peaks (note_peak b' (send_in_flight_total l) (send_in_flight_total l) l) /\
      ls_last_peak_bucket l1 = ls_last_peak_bucket (note_peak b' (send_in_flight_total l) (send_in_flight_total l) l))
      by apply on_side_peaks.
    by destruct abort as [rule|]; [destruct (bool_decide _)|].
Qed.

Lemma quiet_event_peaks abort e l b : send_bucket e = None -> peak_event_ok b None e -> om_wf (ls_peaks l) ->
  om_wf (ls_peaks (ledger_apply abort e l)) /\
  om_get b (ls_peaks (ledger_apply abort e l)) = om_get b (ls_peaks l) /\
  ls_last_peak_bucket (ledger_apply abort e l) = ls_last_peak_bucket l.
Proof.
  destruct e as [m|m| | |m|upto]; simpl; intros E Hok Hw; try done.
  - by destruct m.
  - by destruct m.
  - by destruct m.
  - split; [by apply om_filter_wf|]. by rewrite om_get_from, decide_True.
Qed.

Lemma ledger_run_peaks abort l es b : 0 <= b -> ledger_run abort l es ->
  Z.of_nat (length es) < 2 ^ 64 -> peak_events_ok b None es -> peak_inv b l (peak_state b es).
Proof.
  intros Hb. induction 1 as [|l es e Hr IH He]; intros Hlen Hok.
  { split; try done; simpl; try lia. constructor. }
  assert (ledger_run abort (ledger_apply abort e l) (es ++ [e])) as Hr' by by constructor.
  destruct (total_in_flight _ _ _ Hr' Hlen) as [Hcur' Hpos'].
  rewrite length_app in Hlen. simpl in Hlen.
  apply peak_events_snoc in Hok as [Hok Hoke].
  specialize (IH ltac:(lia) Hok). destruct (total_in_flight _ _ _ Hr ltac:(lia)) as [Hcur Hpos].
  rewrite <- (peak_state_from b) in Hoke. rewrite in_flight_snoc in *.
  pose proof (peak_state_cur b es) as Ecur. rewrite peak_state_snoc.
  destruct (send_bucket e) as [b'|] eqn:Eb.
  - destruct (send_event_peaks abort e l b' Eb) as [E1 E2]; [by rewrite Hcur', Hcur|].
    destruct (note_peak_inv b b' l (peak_state b es) (in_flight es + flight_delta e) _ Hb IH
      ltac:(by destruct e; simpl in *; simplify_eq) Hpos' eq_refl) as (Hw & Hl & Hb' & Hg).
    rewrite Hcur, <- Ecur in E1, E2. rewrite <- Ecur in Hw, Hl, Hg, Hcur', Hpos'.
    destruct IH as [_ _ _ Hp _]. destruct (peak_state b es) as [[from cur] acc]. simpl in *.
    split; simpl; rewrite ?E1, ?E2, ?Eb; try done. simpl. lia.
  - destruct (quiet_event_peaks abort e l b Eb) as (E1 & E2 & E3);
      [by destruct e|apply IH|].
    destruct IH as [Hw Hl Hc Hp Hg]. destruct (peak_state b es) as [[from cur] acc].
    unfold peak_step. rewrite Eb. simpl in *.
    assert (flight_delta e = 0) as Ed by by destruct e.
    split; simpl; rewrite ?E2, ?E3; try done. lia.
Qed.

Lemma peak_of_state b es : peak_of b es =
  match (peak_state b es).1.1 with
  | Some f => if f <=? b then Z.max (peak_state b es).2 (peak_state b es).1.2 else (peak_state b es).2
  | None => (peak_state b es).2 end.
Proof. unfold peak_of. fold (peak_state b es). by destruct (peak_state b es) as [[[f|] cur] acc]. Qed.

(** Events in later buckets leave the peak of [b] as it is. *)
Lemma peak_of_later b es es' :
  Forall (fun e => if send_bucket e is Some b' then b < b' else True) es' ->
  0 <= in_flight es -> 0 <= (peak_state b es).2 ->
  peak_of b (es ++ es') = peak_of b es.
Proof.
  intros Hall Hpos Hacc. induction es' as [|e es' IH] using rev_ind; [by rewrite app_nil_r|].
  apply Forall_app in Hall as [Hall He]. apply (proj1 (list.Forall_singleton _ _)) in He.
  rewrite <- IH by done. rewrite app_assoc, !peak_of_state, peak_state_snoc.
  assert (0 <= (peak_state b (es ++ es')).2 /\ True) as [Ha _].
  { split; [|done]. clear -Hacc. induction es' as [|e es' IH] using rev_ind; [by rewrite app_nil_r|].
    rewrite app_assoc, peak_state_snoc. destruct (peak_state b (es ++ es')) as [[f c] a].
    unfold peak_step. destruct (send_bucket e); simpl in *; lia. }
  destruct (peak_state b (es ++ es')) as [[from cur] acc]. unfold peak_step.
  simpl in He. destruct (send_bucket e) as [b'|] eqn:Eb; [|done]. rewrite ?Eb in He. simpl in *.
  rewrite (proj2 (Z.leb_gt b' b)) by lia. rewrite (proj2 (Z.leb_le b b')) by lia.
  destruct from as [f|]; [|lia]. rewrite andb_true_r. bool_cases; lia.
Qed.

(** What [flush] reports as in flight for a timeline bucket is the highest
    number of sends that were in flight at some time in it, in the whole run:
    a send held across buckets without an event counts in each of them, and
    nothing that happens after the bucket is taken changes the value. *)
Theorem timeline_in_flight_exact abort l es es' b :
  0 <= b -> ledger_run abort l es -> Z.of_nat (length es) < 2 ^ 64 ->
  peak_events_ok b None es ->
  Forall (fun e => if send_bucket e is Some b' then b < b' else True) es' ->
  bucket_in_flight b (ls_peaks l) (ls_last_peak_bucket l) (send_in_flight_total l) =
  peak_of b (es ++ es').
Proof.
  intros Hb Hr Hlen Hok Hlater.
  destruct (ledger_run_peaks abort l es b Hb Hr Hlen Hok) as [Hw Hl Hc Hp Hg].
  rewrite peak_of_later; [|done|rewrite <- (peak_state_cur b); tauto|tauto].
  rewrite peak_of_state. unfold bucket_in_flight. rewrite Hl, Hc.
  destruct (peak_state b es) as [[[f|] cur] acc]; simpl in *.
  - destruct Hg as [_ Hg]. case_decide.
    + destruct (om_get b (ls_peaks l)); simpl in *; revert Hg; bool_cases; lia.
    + destruct Hg as [-> ->]. bool_cases; lia.
  - by destruct Hg as (-> & _ & ->).
Qed.

(** ** The abort window *)

(** The sends that finished, each with its second and whether it failed;
    canceled sends are not counted. *)
Definition finished_of (e : ledger_event) : option (Z * bool) :=
  match e with
  | Ev_EndSend _ _ sec o => if bool_decide (ob_terminal o = Terminal_Canceled) then None else Some (sec, is_failure o)
  | _ => None
  end.

Definition finished (es : list ledger_event) : list (Z * bool) := base.omap finished_of es.

(** Those of the last [window] seconds before [now_sec]. *)
Definition recent (window now_sec : Z) (log : list (Z * bool)) : list (Z * bool) :=
  List.filter (fun e => now_sec <? e.1 + window) log.

Definition failures (log : list (Z * bool)) : list (Z * bool) := List.filter snd log.

(** Sums of the ring's two counters over the entries of the window. *)
Definition ring_sum (keep : Z -> bool) (g : Z * Z -> Z) (ring : list (Z * Z * Z)) : Z :=
  foldr (fun e acc => (if keep e.1.1 then g (e.1.2, e.2) else 0) + acc) 0 ring.

Definition log_sum (keep : Z -> bool) (g : bool -> Z) (log : list (Z * bool)) : Z :=
  foldr (fun e acc => (if keep e.1 then g e.2 else 0) + acc) 0 log.

Lemma ring_sum_app keep g r1 r2 : ring_sum keep g (r1 ++ r2) = ring_sum keep g r1 + ring_sum keep g r2.
Proof. unfold ring_sum. induction r1; simpl in *; lia. Qed.

Lemma log_sum_app keep g r1 r2 : log_sum keep g (r1 ++ r2) = log_sum keep g r1 + log_sum keep g r2.
Proof. unfold log_sum. induction r1; simpl in *; lia. Qed.

Definition ring_wf (now bound : Z) (ring : list (Z * Z * Z)) : Prop :=
  Forall (fun e => 0 <= e.1.1 <= now /\ 0 <= e.2 <= e.1.2) ring /\ ring_sum (fun _ => true) fst ring <= bound.

Lemma ring_sum_bounds now keep bound ring : ring_wf now bound ring ->
  0 <= ring_sum keep snd ring <= ring_sum keep fst ring /\ ring_sum keep fst ring <= bound.
Proof.
  intros [Hf Hb]. revert bound Hb. unfold ring_sum. induction Hf as [|[[s n] x] ring Hx Hf IH]; simpl in *; [lia|].
  intros bound Hb. specialize (IH (bound - n) ltac:(lia)). destruct (keep s); lia.
Qed.

Lemma last_snoc_split {A} (l : list A) x : list.last l = Some x -> l = removelast l ++ [x].
Proof.
  destruct l as [|y l _] using rev_ind; [done|]. rewrite last_snoc. intros [= ->].
  by rewrite removelast_last.
Qed.

Lemma ring_push_sum now bound sec failed ring : ring_wf now bound ring -> 0 <= sec <= now -> bound + 1 < 2 ^ 64 ->
  ring_wf now (bound + 1) (ring_push sec failed ring) /\
  (forall keep, ring_sum keep fst (ring_push sec failed ring) = ring_sum keep fst ring + (if keep sec then 1 else 0)) /\
  (forall keep, ring_sum keep snd (ring_push sec failed ring) =
    ring_sum keep snd ring + (if keep sec then Z.b2z failed else 0)).
Proof.
  intros [Hf Hb] Hs Hlt.
  assert (0 <= Z.b2z failed <= 1) by (destruct failed; simpl; lia).
  assert (forall keep, ring_sum keep fst (ring ++ [(sec, 1, Z.b2z failed)]) =
            ring_sum keep fst ring + (if keep sec then 1 else 0)) as Happ1
    by (intros keep; rewrite ring_sum_app; simpl; destruct (keep sec); lia).
  assert (forall keep, ring_sum keep snd (ring ++ [(sec, 1, Z.b2z failed)]) =
            ring_sum keep snd ring + (if keep sec then Z.b2z failed else 0)) as Happ2
    by (intros keep; rewrite ring_sum_app; simpl; destruct (keep sec); lia).
  assert (ring_wf now (bound + 1) (ring ++ [(sec, 1, Z.b2z failed)])) as Happ0.
  { split; [|rewrite Happ1; lia]. apply Forall_app. split; [done|]. constructor; [simpl; lia|constructor]. }
  unfold ring_push. destruct (list.last ring) as [[[s n] x]|] eqn:El; [|apply last_None in El as ->; split; [exact Happ0|split; [exact Happ1|exact Happ2]]].
  destruct (Z.eqb_spec s sec) as [->|]; [|split; [exact Happ0|split; [exact Happ1|exact Happ2]]]. clear Happ0 Happ1 Happ2.
  pose proof (ring_sum_bounds now (fun _ => true) bound ring (conj Hf Hb)) as Hall.
  apply last_snoc_split in El. rewrite El in Hf, Hb, Hall |- *. set (r := removelast ring) in *. clearbody r.
  rewrite ring_sum_app in Hb, Hall. apply Forall_app in Hf as [Hfr Hx].
  apply (proj1 (list.Forall_singleton _ _)) in Hx. simpl in *.
  assert (0 <= ring_sum (fun _ => true) fst r).
  { pose proof (ring_sum_bounds now (fun _ => true) (ring_sum (fun _ => true) fst r) r ltac:(split; [done|lia])). lia. }
  rewrite removelast_last. rewrite !add64_small by lia.
  split; [|split].
  - split; [|rewrite ring_sum_app; simpl; lia]. apply Forall_app. split; [done|]. constructor; [simpl; lia|constructor].
  - intros keep. rewrite !ring_sum_app. simpl. destruct (keep sec); lia.
  - intros keep. rewrite !ring_sum_app. simpl. destruct (keep sec); lia.
Qed.

Lemma ring_expire_sum now bound window sec ring : ring_wf now bound ring ->
  ring_wf now bound (ring_expire window sec ring) /\
  (forall keep g, (forall s, 0 <= s <= now -> s ⊞ window < sec -> keep s = false) ->
    ring_sum keep g (ring_expire window sec ring) = ring_sum keep g ring).
Proof.
  intros [Hf Hb]. revert bound Hb. induction Hf as [|[[s n] x] ring Hx Hf IH]; intros bound Hb; simpl in *; [done|].
  destruct (Z.ltb_spec (s ⊞ window) sec) as [Hlt|].
  - destruct (IH bound ltac:(lia)) as [Hw E]. split; [done|]. intros keep g Hk.
    rewrite E by done. simpl. rewrite Hk; [lia|tauto|done].
  - split; [|done]. split; [by constructor|]. done.
Qed.

Lemma window_fold now ring bound keep :
  ring_wf now bound ring -> bound < 2 ^ 64 ->
  fold_left (fun '(f, x) '(_, n, y) => (f ⊞ n, x ⊞ y)) (List.filter (fun e => keep e.1.1) ring) (0, 0) =
  (ring_sum keep fst ring, ring_sum keep snd ring).
Proof.
  intros Hwf Hb.
  assert (forall f x, 0 <= f -> 0 <= x -> f + ring_sum keep fst ring < 2 ^ 64 -> x + ring_sum keep snd ring < 2 ^ 64 ->
    fold_left (fun '(f, x) '(_, n, y) => (f ⊞ n, x ⊞ y)) (List.filter (fun e => keep e.1.1) ring) (f, x) =
    (f + ring_sum keep fst ring, x + ring_sum keep snd ring)) as Hgen.
  2:{ rewrite Hgen; [by rewrite !Z.add_0_l|..]; pose proof (ring_sum_bounds _ keep _ _ Hwf); lia. }
  destruct Hwf as [Hf _]. clear Hb. induction Hf as [|[[s n] y] ring Hx Hf IH]; intros f x Hf0 Hx0 Hbf Hbx; simpl in *.
  { unfold ring_sum; simpl; by rewrite !Z.add_0_r. }
  assert (0 <= ring_sum keep snd ring <= ring_sum keep fst ring) as Hr.
  { eapply (ring_sum_bounds now keep (ring_sum (fun _ => true) fst ring)). split; [done|lia]. }
  unfold ring_sum in *. simpl in *. destruct (keep s); simpl in *.
  - rewrite IH by (rewrite ?add64_small; lia). rewrite !add64_small by lia. f_equal; lia.
  - rewrite IH by lia. f_equal; lia.
Qed.

Lemma log_sum_length keep log : log_sum keep (fun _ => 1) log = Z.of_nat (length (List.filter (fun e => keep e.1) log)).
Proof. unfold log_sum. induction log as [|[s f] log IH]; simpl; [done|]. destruct (keep s); simpl; lia. Qed.

Lemma log_sum_failures keep log :
  log_sum keep Z.b2z log = Z.of_nat (length (failures (List.filter (fun e => keep e.1) log))).
Proof.
  unfold log_sum, failures. induction log as [|[s f] log IH]; simpl; [done|].
  destruct (keep s); simpl; [|lia]. destruct f; simpl; lia.
Qed.

Lemma ledger_run_ring rule l es now_sec : ledger_run (Some rule) l es ->
  Z.of_nat (length es) < 2 ^ 64 -> 0 <= ab_window_secs rule -> now_sec + window_of rule < 2 ^ 64 ->
  Forall (fun e => 0 <= e.1 <= now_sec) (finished es) ->
  ring_wf now_sec (Z.of_nat (length es)) (ls_ring l) /\
  ring_sum (fun s => now_sec <? s + window_of rule) fst (ls_ring l) =
    log_sum (fun s => now_sec <? s + window_of rule) (fun _ => 1) (finished es) /\
  ring_sum (fun s => now_sec <? s + window_of rule) snd (ls_ring l) =
    log_sum (fun s => now_sec <? s + window_of rule) Z.b2z (finished es).
Proof.
  intros Hr. induction Hr as [|l es e Hr IH He]; intros Hlen Hwin Hnow Hall; [split; [by split|done]|].
  rewrite length_app in Hlen |- *. simpl in Hlen |- *. unfold finished in *. rewrite omap_app in Hall |- *.
  apply Forall_app in Hall as [Hall Hlast]. destruct (IH ltac:(lia) Hwin Hnow Hall) as (Hwf & E1 & E2). clear IH.
  assert (forall l', ls_ring l' = ls_ring l -> base.omap finished_of [e] = [] ->
    ring_wf now_sec (Z.of_nat (length es + 1)) (ls_ring l') /\
    ring_sum (fun s => now_sec <? s + window_of rule) fst (ls_ring l') =
      log_sum (fun s => now_sec <? s + window_of rule) (fun _ => 1)
        (base.omap finished_of es ++ base.omap finished_of [e]) /\
    ring_sum (fun s => now_sec <? s + window_of rule) snd (ls_ring l') =
      log_sum (fun s => now_sec <? s + window_of rule) Z.b2z
        (base.omap finished_of es ++ base.omap finished_of [e])) as Hsame.
  { intros l' -> ->. rewrite app_nil_r. split; [|done]. destruct Hwf. split; [done|lia]. }
  destruct e as [m|m|m b|m b sec o|m t app assertion|upto]; try (apply Hsame; [|done]; simpl).
  - by destruct m.
  - by destruct m.
  - unfold ledger_begin_send, note_peak. destruct (_ <=? _); by destruct m.
  - simpl. unfold ledger_end_send. set (l1 := on_side _ _ _).
    assert (ls_ring l1 = ls_ring l) as Er.
    { unfold l1, note_peak. destruct (_ <=? _); by destruct m. }
    simpl in Hsame, Hlast. destruct (bool_decide _); [by apply Hsame|]. simpl in Hlast |- *.
    apply (proj1 (list.Forall_singleton _ _)) in Hlast. simpl in Hlast. rewrite Er.
    destruct (ring_push_sum _ _ sec (is_failure o) _ Hwf ltac:(lia) ltac:(lia)) as (Hp & P1 & P2).
    destruct (ring_expire_sum _ _ (window_of rule) sec _ Hp) as [Hx X].
    rewrite Nat2Z.inj_add. simpl. split; [done|]. rewrite !log_sum_app. simpl.
    assert (0 <= window_of rule) by (unfold window_of; lia).
    rewrite !X by (intros s Hs Hlt; rewrite add64_small in Hlt by lia; apply Z.ltb_ge; lia).
    rewrite P1, P2, E1, E2. lia.
  - unfold end_iteration. by destruct m.
  - done.
Qed.

(** The abort rule looks at exactly the sends of its window, whatever the
    order in which they were recorded: with [n] the sends that finished less
    than [window] seconds before the second [now_sec] and [f] those of them
    that failed (cancellations apart), it fires iff there are at least
    [ABORT_MIN_SENDS] of them and [f / n] is above the configured permille. *)
Theorem abort_rule_exact rule l es now_sec :
  ledger_run (Some rule) l es -> Z.of_nat (length es) * 1000 < 2 ^ 64 ->
  0 <= ab_window_secs rule -> now_sec + window_of rule < 2 ^ 64 ->
  0 <= ab_max_failure_permille rule <= 1000 ->
  Forall (fun e => 0 <= e.1 <= now_sec) (finished es) ->
  let log := recent (window_of rule) now_sec (finished es) in
  let n := Z.of_nat (length log) in
  let f := Z.of_nat (length (failures log)) in
  abort_triggered (Some rule) now_sec l = true <->
    10 <= n /\ ab_max_failure_permille rule * n < f * 1000.
Proof.
  intros Hr Hlen Hwin Hnow Hp Hall. cbv zeta.
  destruct (ledger_run_ring rule l es now_sec Hr ltac:(lia) Hwin Hnow Hall) as (Hwf & E1 & E2).
  unfold recent. rewrite <- (log_sum_length (fun s => now_sec <? s + window_of rule)),
    <- (log_sum_failures (fun s => now_sec <? s + window_of rule)), <- E1, <- E2.
  assert (0 <= window_of rule) by (unfold window_of; lia).
  destruct (ring_sum_bounds now_sec (fun s => now_sec <? s + window_of rule) _ _ Hwf) as [Hb1 Hb2].
  assert (abort_window rule now_sec l = (ring_sum (fun s => now_sec <? s + window_of rule) fst (ls_ring l),
    ring_sum (fun s => now_sec <? s + window_of rule) snd (ls_ring l))) as Ew.
  { unfold abort_window. rewrite <- (window_fold now_sec _ (Z.of_nat (length es))); [|done|lia].
    f_equal. destruct Hwf as [Hf _]. clear -Hf Hnow H. induction Hf as [|e ring [Hs _] Hf IH]; simpl; [done|].
    rewrite add64_small by lia. by rewrite IH. }
  unfold abort_triggered. rewrite Ew. unfold ABORT_MIN_SENDS, mul64.
  set (n := ring_sum _ fst _) in *. set (f := ring_sum _ snd _) in *. clearbody n f.
  rewrite !Z.mod_small by nia. rewrite andb_true_iff, Z.leb_le, Z.ltb_lt. lia.
Qed.

(** ** Witnesses *)

(** A send that completed and one that failed in transport. *)
Definition ok_send : SendObservation := SendObservation_default.
Definition bad_send : SendObservation := SendObservation_default <| ob_terminal := Terminal_TransportFailure |>.

(** One send over three buckets and, in the last of them, a second one that
    begins and fails before the first one ends. *)
Definition demo_events : list ledger_event :=
  [Ev_BeginIteration true; Ev_BeginSend true 0; Ev_TakePeaks 0; Ev_BeginSend true 2;
   Ev_EndSend true 2 2 bad_send; Ev_EndSend true 2 2 ok_send; Ev_EndIteration true Terminal_Completed false false].

Definition demo_rule : AbortRule := mkAbortRule 100 5.

Definition ledger_after (abort : option AbortRule) (es : list ledger_event) : LedgerState :=
  fold_left (fun l e => ledger_apply abort e l) es LedgerState_default.

Fixpoint all_enabled (abort : option AbortRule) (l : LedgerState) (es : list ledger_event) : Prop :=
  match es with
  | [] => True
  | e :: es => ledger_enabled e l /\ all_enabled abort (ledger_apply abort e l) es
  end.

Lemma ledger_run_of abort es : all_enabled abort LedgerState_default es ->
  ledger_run abort (ledger_after abort es) es.
Proof.
  unfold ledger_after. cut (forall l es0, ledger_run abort l es0 -> all_enabled abort l es ->
    ledger_run abort (fold_left (fun l e => ledger_apply abort e l) es l) (es0 ++ es)).
  { intros H. apply (H _ []). constructor. }
  induction es as [|e es IH]; intros l es0 Hr; simpl; [by rewrite app_nil_r|].
  intros [He H]. replace (es0 ++ e :: es) with ((es0 ++ [e]) ++ es) by by rewrite <- app_assoc.
  apply IH; [by constructor|done].
Qed.

Lemma demo_run : ledger_run (Some demo_rule) (ledger_after (Some demo_rule) demo_events) demo_events.
Proof. apply ledger_run_of. vm_compute. repeat split. Qed.

Lemma ledger_balance_witness :
  (let '(c, r) := balanced (side true (ledger_after (Some demo_rule) demo_events)) in
   lc_scheduled c = lc_started c + lc_dropped c /\
   lc_started c = lc_completed c + lc_transport_failures c + lc_timeouts c + lc_canceled c +
     lc_in_flight_at_end c /\
   rc_started r = rc_completed r + rc_transport_failures r + rc_timeouts r + rc_canceled r +
     rc_in_flight_at_end r /\
   lc_application_failures c <= lc_completed c /\ lc_assertion_failures c <= lc_completed c) /\
  (let '(c, r) := balanced (side true (ledger_after (Some demo_rule) demo_events)) in
   rc_started r = 2 /\ lc_started c = 1).
Proof.
  split; [|by vm_compute].
  apply (ledger_balance (Some demo_rule) _ demo_events true demo_run). reflexivity.
Defined.

Lemma timeline_in_flight_exact_witness :
  let l := ledger_after None (firstn 3 demo_events) in
  bucket_in_flight 1 (ls_peaks l) (ls_last_peak_bucket l) (send_in_flight_total l) =
    peak_of 1 demo_events /\ peak_of 1 demo_events = 1.
Proof.
  split; [|by vm_compute].
  apply (timeline_in_flight_exact None (ledger_after None (firstn 3 demo_events)) (firstn 3 demo_events)
    (skipn 3 demo_events) 1).
  - lia.
  - apply ledger_run_of. vm_compute. repeat split.
  - reflexivity.
  - vm_compute. repeat split; discriminate.
  - vm_compute. repeat constructor.
Defined.

(** Nine failures are too few to abort, ten are enough. *)
Definition burst (n : nat) : list ledger_event :=
  repeat (Ev_BeginSend true 0) n ++ repeat (Ev_EndSend true 0 3 bad_send) n.

Lemma burst_run n : (n <= 20)%nat ->
  ledger_run (Some demo_rule) (ledger_after (Some demo_rule) (burst n)) (burst n).
Proof.
  intros Hn. apply ledger_run_of.
  do 21 (destruct n as [|n]; [by vm_compute; repeat split|]). lia.
Qed.

Lemma abort_rule_exact_witness :
  abort_triggered (Some demo_rule) 4 (ledger_after (Some demo_rule) (burst 9)) = false /\
  abort_triggered (Some demo_rule) 4 (ledger_after (Some demo_rule) (burst 10)) = true.
Proof.
  split; [by vm_compute|].
  apply (abort_rule_exact demo_rule _ (burst 10) 4).
  - apply burst_run. lia.
  - reflexivity.
  - vm_compute. discriminate.
  - reflexivity.
  - by vm_compute.
  - vm_compute. repeat constructor; discriminate.
  - vm_compute. by split.
Defined.

(** A send that begins in bucket 3597 and ends past the last bucket of the
    timeline before the tail of the timeline is taken: [note_peak] returns at
    once for the ending event, so the send it held is not carried through
    buckets 3598 and 3599. *)
Lemma carry_stops_at_the_last_bucket :
  let es := [Ev_BeginSend true 3597; Ev_EndSend true 3601 3601 ok_send] in
  let l := ledger_after None es in
  peak_of 3598 es = 1 /\
  bucket_in_flight 3598 (ls_peaks l) (ls_last_peak_bucket l) (send_in_flight_total l) = 0.
Proof. by vm_compute. Qed.
