(* ===== verification/Executor.v ===== *)
(** The state the tasks of a run share (crates/anvil-load/src/executor.rs,
    [Shared]): the ledger, the metric shards with their pending timeline
    buckets, and the ticker's timeline.

    Concurrency is modelled at the level of the locks: a step of [exec_step] is
    one critical section, and [end_send], which holds its shard while it takes
    the ledger, is two steps with the shard locked in between. A run is any
    interleaving of such steps by any tasks; [exec_run] lists them. *)
From Stdlib Require Import ZArith Lia.
From stdpp Require Import base numbers strings option list.
From S2P Require Import Prelude OrdMap Text Settings Evidence Request LoadModel Units Observe Histogram ProtoAccum Metrics Ledger.
Open Scope list_scope.
Open Scope Z_scope.

Definition NANOS_PER_SEC : Z := 1000000000.

(** What is fixed for the run. Instants are nanoseconds since [t0], negative
    before it. *)
Record RunClock := mkRunClock {
  ck_warmup_secs : Z;
  ck_bucket_width_secs : Z;
  ck_abort : option AbortRule;
}.

(** [at.saturating_duration_since(self.t0).as_secs()]. *)
Definition elapsed_secs (at_ : Z) : Z := Z.max 0 at_ / NANOS_PER_SEC.

(** [Shared::bucket_of], [Shared::measured_at]. *)
Definition bucket_of (ck : RunClock) (at_ : Z) : Z := elapsed_secs at_ / ck_bucket_width_secs ck.
Definition measured_at (ck : RunClock) (at_ : Z) : bool :=
  ck_warmup_secs ck * NANOS_PER_SEC <=? Z.max 0 at_.

Section Executor.
Context {H : Type} `{Histogram H}.

(** * Timeline buckets *)

Record BucketAccum := mkBucketAccum {
  ba_started : Z;
  ba_completed : Z;
  ba_failures : Z;
  ba_dropped : Z;
  ba_success : option H;
  ba_lag : option H;
}.

#[global] Instance eta_BucketAccum : Eta BucketAccum := fun r =>
  mkBucketAccum (ba_started r) (ba_completed r) (ba_failures r) (ba_dropped r)
    (ba_success r) (ba_lag r).

Definition BucketAccum_default : BucketAccum := mkBucketAccum 0 0 0 0 None None.

Definition add_hist (v : Z) (slot : option H) : option H :=
  Some (hist_saturating_record (Z.max 1 (Z.min v LATENCY_MAX_US))
    (default (hist_new SECONDARY_SIGFIG) slot)).

Definition merge_hist (slot o : option H) : option H :=
  match slot, o with
  | Some a, Some b => Some (hist_add a b)
  | None, Some b => Some b
  | _, None => slot
  end.

Definition BucketAccum_merge (b o : BucketAccum) : BucketAccum := {|
  ba_started := ba_started b ⊞ ba_started o;
  ba_completed := ba_completed b ⊞ ba_completed o;
  ba_failures := ba_failures b ⊞ ba_failures o;
  ba_dropped := ba_dropped b ⊞ ba_dropped o;
  ba_success := merge_hist (ba_success b) (ba_success o);
  ba_lag := merge_hist (ba_lag b) (ba_lag o);
|}.

(** * State *)

Record Shard := mkShard {
  sd_metrics : Metrics H;
  sd_pending : omap Z BucketAccum;
}.

#[global] Instance eta_Shard : Eta Shard := fun r => mkShard (sd_metrics r) (sd_pending r).

Definition Shard_new : Shard := mkShard Metrics_new [].

(** A [Mutex<Shard>]: the shard, and the finished send of the task that holds
    the lock (between the two parts of [end_send]). *)
Record ShardCell := mkShardCell {
  sc_shard : Shard;
  sc_holder : option (bool * Z * SendObservation);
}.

(** The ticker's flush in progress: the bound, the next shard to visit and the
    buckets taken so far. *)
Record FlushState := mkFlushState {
  fl_upto : Z;
  fl_next_shard : nat;
  fl_merged : omap Z BucketAccum;
}.

Record Shared := mkShared {
  sh_ledger : LedgerState;
  sh_shards : list ShardCell;
  sh_timeline_truncated : bool;
  sh_flush : option FlushState;
  sh_timeline : list TimeBucket;
}.

#[global] Instance eta_Shared : Eta Shared := fun r =>
  mkShared (sh_ledger r) (sh_shards r) (sh_timeline_truncated r) (sh_flush r) (sh_timeline r).

Definition Shared_new (shard_count : nat) : Shared :=
  mkShared LedgerState_default (replicate shard_count (mkShardCell Shard_new None)) false None [].

(** [Shared::shard]: the shard of a slot. *)
Definition shard_index (sh : Shared) (slot : nat) : nat := (slot mod length (sh_shards sh))%nat.

(** * Operations *)

(** [Shared::with_bucket] on a shard; the flag is [timeline_truncated]. *)
Definition with_bucket (ck : RunClock) (at_ : Z) (f : BucketAccum -> BucketAccum)
    (shard : Shard) : Shard * bool :=
  let b := bucket_of ck at_ in
  if MAX_TIMELINE_BUCKETS <=? b then (shard, true)
  else (shard <| sd_pending ::= om_upd (fun e => f (default BucketAccum_default e)) b |>, false).

(** A critical section of shard [i] that no task holds. *)
Definition on_shard (i : nat) (f : Shard -> Shard * bool) (sh : Shared) : option Shared :=
  match sh_shards sh !! i with
  | Some (mkShardCell s None) =>
      let '(s', truncated) := f s in
      Some (sh <| sh_shards := <[i := mkShardCell s' None]> (sh_shards sh) |>
               <| sh_timeline_truncated ::= (fun t => t || truncated) |>)
  | _ => None
  end.

(** The shard part of [arrival_dropped], of [record_lag] and of [begin_send]. *)
Definition dropped_in_bucket (ck : RunClock) (now : Z) : Shard -> Shard * bool :=
  with_bucket ck now (fun b => b <| ba_dropped ::= (fun n => n ⊞ 1) |>).

Definition record_lag_shard (ck : RunClock) (measured : bool) (us now : Z) (s : Shard) : Shard * bool :=
  with_bucket ck now (fun b => b <| ba_lag ::= add_hist us |>)
    (if measured then s <| sd_metrics ::= record_lag us |> else s).

Definition started_in_bucket (ck : RunClock) (now : Z) : Shard -> Shard * bool :=
  with_bucket ck now (fun b => b <| ba_started ::= (fun n => n ⊞ 1) |>).

(** [end_send] up to the end of its ledger section: the shard stays locked. *)
Definition end_send_ledger (ck : RunClock) (slot : nat) (measured : bool) (now locked_now : Z)
    (o : SendObservation) (sh : Shared) : option Shared :=
  let i := shard_index sh slot in
  match sh_shards sh !! i with
  | Some (mkShardCell s None) =>
      Some (sh <| sh_shards := <[i := mkShardCell s (Some (measured, now, o))]> (sh_shards sh) |>
               <| sh_ledger ::= ledger_end_send (ck_abort ck) measured (bucket_of ck locked_now)
                                  (elapsed_secs now) o |>)
  | _ => None
  end.

(** The rest of [end_send]. *)
Definition end_send_shard (ck : RunClock) (measured : bool) (now : Z) (o : SendObservation)
    (s : Shard) : Shard * bool :=
  with_bucket ck now (fun b =>
    let b := b <| ba_completed ::= (fun n => n ⊞ Z.b2z (bool_decide (ob_terminal o = Terminal_Completed))) |>
               <| ba_failures ::= (fun n => n ⊞ Z.b2z (is_failure o)) |> in
    if is_success o then b <| ba_success ::= add_hist (ob_latency_us o) |> else b)
    (if measured then s <| sd_metrics ::= Metrics_record o |> else s).

Definition end_send_unlock (ck : RunClock) (i : nat) (sh : Shared) : option Shared :=
  match sh_shards sh !! i with
  | Some (mkShardCell s (Some (measured, now, o))) =>
      let '(s', truncated) := end_send_shard ck measured now o s in
      Some (sh <| sh_shards := <[i := mkShardCell s' None]> (sh_shards sh) |>
               <| sh_timeline_truncated ::= (fun t => t || truncated) |>)
  | _ => None
  end.

(** ** [flush] *)

Definition flush_start (upto : Z) (sh : Shared) : option Shared :=
  match sh_flush sh with
  | None => Some (sh <| sh_flush := Some (mkFlushState (Z.min upto MAX_TIMELINE_BUCKETS) 0 []) |>)
  | Some _ => None
  end.

(** [for (k, v) in taken { merged.entry(k).or_default().merge(v) }]. *)
Definition merge_taken (taken merged : omap Z BucketAccum) : omap Z BucketAccum :=
  om_merge_with (fun v e => BucketAccum_merge (default BucketAccum_default e) v) taken merged.

Definition flush_shard (sh : Shared) : option Shared :=
  match sh_flush sh with
  | Some (mkFlushState upto i merged) =>
      match sh_shards sh !! i with
      | Some (mkShardCell s None) =>
          Some (sh <| sh_shards := <[i := mkShardCell (s <| sd_pending ::= om_from upto |>) None]> (sh_shards sh) |>
                   <| sh_flush := Some (mkFlushState upto (S i) (merge_taken (om_below upto (sd_pending s)) merged)) |>)
      | _ => None
      end
  | None => None
  end.

(** [h.value_at_quantile(p)] of a slot, 0 without one; [p] in percent. *)
Definition slot_quantile (h : option H) (p : Z) : Z :=
  from_option (fun h => hist_value_at_quantile h p) 0 h.

(** Counts recorded for a bucket that is finalized already. *)
Definition add_late (merged : omap Z BucketAccum) (k : Z) (b : TimeBucket) : TimeBucket :=
  match om_get k merged with
  | None => b
  | Some acc => mkTimeBucket (tb_second b) (tb_started b ⊞ ba_started acc)
      (tb_completed b ⊞ ba_completed acc) (tb_failures b ⊞ ba_failures acc)
      (tb_dropped b ⊞ ba_dropped acc) (tb_p50_us b) (tb_p99_us b) (tb_in_flight b) (tb_warmup b)
      (tb_p99_schedule_lag_us b)
  end.

Definition time_bucket (ck : RunClock) (merged : omap Z BucketAccum) (peaks : omap Z Z)
    (last_peak_bucket : option Z) (in_flight_now idx : Z) : TimeBucket :=
  let acc := default BucketAccum_default (om_get idx merged) in
  let second := mul64 idx (ck_bucket_width_secs ck) in {|
    tb_second := second;
    tb_started := ba_started acc;
    tb_completed := ba_completed acc;
    tb_failures := ba_failures acc;
    tb_dropped := ba_dropped acc;
    tb_p50_us := slot_quantile (ba_success acc) 50;
    tb_p99_us := slot_quantile (ba_success acc) 99;
    tb_in_flight := bucket_in_flight idx peaks last_peak_bucket in_flight_now;
    tb_warmup := second <? ck_warmup_secs ck;
    tb_p99_schedule_lag_us := slot_quantile (ba_lag acc) 99;
  |}.

(** The timeline after a flush: late counts go to their bucket and the new
    buckets follow. *)
Definition flushed (ck : RunClock) (merged : omap Z BucketAccum) (peaks : omap Z Z)
    (last_peak_bucket : option Z) (in_flight_now upto : Z) (tl : list TimeBucket) : list TimeBucket :=
  imap (fun k b => add_late merged (Z.of_nat k) b) tl ++
  map (time_bucket ck merged peaks last_peak_bucket in_flight_now)
    (seqZ (Z.of_nat (length tl)) (upto - Z.of_nat (length tl))).

(** The last part of [flush], once every shard was visited: the ledger's peaks
    are taken. *)
Definition flush_ledger (ck : RunClock) (sh : Shared) : option Shared :=
  match sh_flush sh with
  | Some (mkFlushState upto i merged) =>
      if decide (i = length (sh_shards sh)) then
        let '(peaks, l) := take_peaks upto (sh_ledger sh) in
        Some (sh <| sh_ledger := l |>
                 <| sh_flush := None |>
                 <| sh_timeline ::= flushed ck merged peaks (ls_last_peak_bucket l)
                                      (send_in_flight_total l) upto |>)
      else None
  | None => None
  end.

(** ** [snapshot]: with every shard locked, then the ledger *)

Definition all_unlocked (sh : Shared) : Prop := Forall (fun c => sc_holder c = None) (sh_shards sh).

Definition merged_metrics (sh : Shared) : Metrics H :=
  fold_left (fun m c => Metrics_merge m (sd_metrics (sc_shard c))) (sh_shards sh) Metrics_new.

(** The cut a snapshot works on: measured and warmup ledgers and the merged
    metrics. *)
Definition snapshot_cut (sh : Shared) : Ledger * Ledger * Metrics H :=
  (ls_measured (sh_ledger sh), ls_warmup (sh_ledger sh), merged_metrics sh).

(** * Interleavings *)

Inductive exec_event :=
  (** A section of the ledger alone: [begin_iteration], [end_iteration] and
      the ledger parts of [begin_send] and [arrival_dropped]. *)
  | X_BeginIteration (measured : bool)
  | X_EndIteration (measured : bool) (terminal : Terminal) (app assertion : bool)
  | X_ArrivalDropped (measured : bool)
  | X_BeginSend (measured : bool) (locked_now : Z)
  (** The shard parts. *)
  | X_DroppedBucket (now : Z)
  | X_RecordLag (slot : nat) (measured : bool) (us now : Z)
  | X_StartedBucket (slot : nat) (now : Z)
  | X_EndSendLedger (slot : nat) (measured : bool) (now locked_now : Z) (o : SendObservation)
  | X_EndSendShard (i : nat)
  (** The ticker. *)
  | X_FlushStart (upto : Z)
  | X_FlushShard
  | X_FlushLedger.

Definition on_ledger (e : ledger_event) (ck : RunClock) (sh : Shared) : Shared :=
  sh <| sh_ledger ::= ledger_apply (ck_abort ck) e |>.

Definition exec_step (ck : RunClock) (e : exec_event) (sh : Shared) : option Shared :=
  match e with
  | X_BeginIteration m => Some (on_ledger (Ev_BeginIteration m) ck sh)
  | X_EndIteration m t app assertion => Some (on_ledger (Ev_EndIteration m t app assertion) ck sh)
  | X_ArrivalDropped m => Some (on_ledger (Ev_ArrivalDropped m) ck sh)
  | X_BeginSend m locked_now => Some (on_ledger (Ev_BeginSend m (bucket_of ck locked_now)) ck sh)
  | X_DroppedBucket now => on_shard 0 (dropped_in_bucket ck now) sh
  | X_RecordLag slot m us now => on_shard (shard_index sh slot) (record_lag_shard ck m us now) sh
  | X_StartedBucket slot now => on_shard (shard_index sh slot) (started_in_bucket ck now) sh
  | X_EndSendLedger slot m now locked_now o => end_send_ledger ck slot m now locked_now o sh
  | X_EndSendShard i => end_send_unlock ck i sh
  | X_FlushStart upto => flush_start upto sh
  | X_FlushShard => flush_shard sh
  | X_FlushLedger => flush_ledger ck sh
  end.

(** The ledger event of a step. *)
Definition ledger_event_of (ck : RunClock) (sh : Shared) (e : exec_event) : option ledger_event :=
  match e with
  | X_BeginIteration m => Some (Ev_BeginIteration m)
  | X_EndIteration m t app assertion => Some (Ev_EndIteration m t app assertion)
  | X_ArrivalDropped m => Some (Ev_ArrivalDropped m)
  | X_BeginSend m locked_now => Some (Ev_BeginSend m (bucket_of ck locked_now))
  | X_EndSendLedger _ m now locked_now o => Some (Ev_EndSend m (bucket_of ck locked_now) (elapsed_secs now) o)
  | X_FlushLedger => option_map (fun f => Ev_TakePeaks (fl_upto f)) (sh_flush sh)
  | _ => None
  end.

(** The runs: a task ends only what it began ([ledger_enabled]). *)
Inductive exec_run (ck : RunClock) (n : nat) : Shared -> list exec_event -> Prop :=
  | exec_run_nil : exec_run ck n (Shared_new n) []
  | exec_run_step sh es e sh' : exec_run ck n sh es ->
      (if ledger_event_of ck sh e is Some le then ledger_enabled le (sh_ledger sh) else True) ->
      exec_step ck e sh = Some sh' ->
      exec_run ck n sh' (es ++ [e]).

Definition exec_from (ck : RunClock) (sh : Shared) (es : list exec_event) : option Shared :=
  fold_left (fun sh e => sh ≫= exec_step ck e) es (Some sh).

(** * Snapshots *)

Context `{Equiv H} `{!HistogramLaws H}.

(** The observation of the send whose task holds the lock, when it is measured. *)
Definition held_obs (c : ShardCell) : list SendObservation :=
  match sc_holder c with Some (true, _, o) => [o] | _ => [] end.

(** A shard with the observations and lags its metrics recorded. *)
Definition logged : Type := ShardCell * (list SendObservation * list Z).

Definition logged_ok (g : logged) : Prop :=
  metrics_reach (sd_metrics (sc_shard g.1)) g.2.1 g.2.2 /\
  Forall times_ok (g.2.1 ++ held_obs g.1) /\ Forall is_u64 g.2.2.

(** The measured sends that ended, in the order of the ledger. *)
Definition ended_of (e : exec_event) : option SendObservation :=
  match e with X_EndSendLedger _ true _ _ o => Some o | _ => None end.

Definition ended (es : list exec_event) : list SendObservation :=
  concat (map (fun e => option_list (ended_of e)) es).

Lemma ended_snoc es e : ended (es ++ [e]) = ended es ++ option_list (ended_of e).
Proof. unfold ended. rewrite map_app, concat_app. simpl. by rewrite app_nil_r. Qed.

Lemma ended_length es : (length (ended es) <= length es)%nat.
Proof.
  unfold ended. induction es as [|e es IH]; simpl; [done|]. rewrite length_app.
  destruct (ended_of e); simpl; lia.
Qed.

(** The finished sends of the shards: recorded ones and held ones. *)
Definition logged_sends (gs : list logged) : list SendObservation :=
  concat (map (fun g : logged => g.2.1 ++ held_obs g.1) gs).

Lemma logged_sends_insert (gs : list logged) i (g g' : logged) new : gs !! i = Some g ->
  g'.2.1 ++ held_obs g'.1 ≡ₚ (g.2.1 ++ held_obs g.1) ++ new ->
  logged_sends (<[i:=g']> gs) ≡ₚ logged_sends gs ++ new.
Proof.
  unfold logged_sends. revert i. induction gs as [|x gs IH]; intros [|i]; simpl; try done.
  - intros [= ->] ->. rewrite <- (app_assoc _ new), <- (app_assoc _ _ new).
    apply Permutation_app; [done|]. apply Permutation_app_comm.
  - intros Hi E. rewrite (IH i Hi E). by rewrite app_assoc.
Qed.

Definition is_terminal (t : Terminal) (ob : SendObservation) : Z := Z.b2z (bool_decide (ob_terminal ob = t)).

(** The request counts are those of the finished sends. *)
Record counted (r : RequestCounts) (sum : (SendObservation -> Z) -> Z) : Prop := {
  cn_completed : rc_completed r = sum (is_terminal Terminal_Completed);
  cn_transport : rc_transport_failures r = sum (is_terminal Terminal_TransportFailure);
  cn_timeouts : rc_timeouts r = sum (is_terminal Terminal_Timeout);
  cn_canceled : rc_canceled r = sum (is_terminal Terminal_Canceled);
  cn_application : rc_application_failures r = sum (fun ob => Z.b2z (ob_application_failure ob));
  cn_assertion : rc_assertion_failures r = sum (fun ob => Z.b2z (ob_assertion_failure ob));
}.

Lemma count_send_counted r sum o n : counted r sum -> n + 1 < 2 ^ 64 ->
  (forall f, (forall ob, 0 <= f ob <= 1) -> 0 <= sum f <= n) ->
  counted (count_send o r) (fun f => sum f + f o).
Proof.
  intros [C1 C2 C3 C4 C5 C6] Hn Hb.
  assert (forall t, 0 <= sum (is_terminal t) <= n) as Ht.
  { intros t. apply Hb. intros ob. unfold is_terminal. destruct (bool_decide _); simpl; lia. }
  pose proof (Ht Terminal_Completed). pose proof (Ht Terminal_TransportFailure).
  pose proof (Ht Terminal_Timeout). pose proof (Ht Terminal_Canceled).
  pose proof (Hb (fun ob => Z.b2z (ob_application_failure ob)) ltac:(intros ob; cbv beta; destruct (ob_application_failure ob); simpl; lia)).
  pose proof (Hb (fun ob => Z.b2z (ob_assertion_failure ob)) ltac:(intros ob; cbv beta; destruct (ob_assertion_failure ob); simpl; lia)).
  unfold count_send. destruct (ob_terminal o) eqn:Eo.
  all: assert (forall t, is_terminal t o = Z.b2z (bool_decide (ob_terminal o = t))) as Et by done.
  all: pose proof (Et Terminal_Completed) as E1; pose proof (Et Terminal_TransportFailure) as E2;
    pose proof (Et Terminal_Timeout) as E3; pose proof (Et Terminal_Canceled) as E4.
  all: rewrite Eo in E1, E2, E3, E4; rewrite ?bool_decide_true in E1, E2, E3, E4 by done; rewrite ?bool_decide_false in E1, E2, E3, E4 by done; simpl Z.b2z in E1, E2, E3, E4.
  all: split; cbn -[is_terminal]; rewrite ?C1, ?C2, ?C3, ?C4, ?C5, ?C6, ?E1, ?E2, ?E3, ?E4.
  all: try (rewrite add64_small; lia).
  all: try lia.
  all: try (destruct (ob_application_failure o); simpl; rewrite add64_small; lia).
  all: destruct (ob_assertion_failure o); simpl; rewrite add64_small; lia.
Qed.

Lemma counted_ext r sum sum' : counted r sum -> (forall f, sum f = sum' f) -> counted r sum'.
Proof. intros [] E. by split; rewrite <- E. Qed.

(** ** The ledger's counts are those of the sends that ended *)

Lemma tally_unit f obs : (forall ob, 0 <= f ob <= 1) -> 0 <= tally f obs <= Z.of_nat (length obs).
Proof. intros Hf. unfold tally. induction obs as [|o l IH]; simpl; [lia|]. specialize (Hf o). lia. Qed.

Lemma ledger_requests_quiet abort e l :
  match e with Ev_EndSend _ _ _ _ | Ev_BeginSend _ _ => False | _ => True end ->
  lg_requests (ls_measured (ledger_apply abort e l)) = lg_requests (ls_measured l).
Proof. destruct e as [[]|[]|m b|m b sec o|[]|upto]; simpl; done. Qed.

Lemma begin_send_requests m b l :
  lg_requests (ls_measured (ledger_begin_send m b l)) =
  if m then lg_requests (ls_measured l) <| rc_started ::= (fun n => n ⊞ 1) |> else lg_requests (ls_measured l).
Proof. unfold ledger_begin_send, note_peak. destruct m; simpl; by destruct (_ <=? _). Qed.

Lemma end_send_requests abort m b sec o l :
  lg_requests (ls_measured (ledger_end_send abort m b sec o l)) =
  if m then count_send o (lg_requests (ls_measured l)) else lg_requests (ls_measured l).
Proof.
  unfold ledger_end_send.
  assert (forall l', lg_requests (ls_measured (match abort with
    | Some rule => if bool_decide (ob_terminal o = Terminal_Canceled) then l'
      else l' <| ls_ring ::= (fun ring => ring_expire (window_of rule) sec (ring_push sec (is_failure o) ring)) |>
    | None => l' end)) = lg_requests (ls_measured l')) as ->.
  { intros l'. destruct abort; [|done]. by destruct (bool_decide _). }
  unfold note_peak. destruct m; simpl; by destruct (_ <=? _).
Qed.

Definition event_times_ok (e : exec_event) : Prop :=
  match e with
  | X_EndSendLedger _ _ _ _ o => times_ok o
  | X_RecordLag _ _ us _ => is_u64 us
  | _ => True
  end.

Lemma on_shard_ledger i f sh sh' : on_shard i f sh = Some sh' -> sh_ledger sh' = sh_ledger sh.
Proof.
  unfold on_shard. destruct (sh_shards sh !! i) as [[s [h|]]|]; try done. destruct (f s). by intros [= <-].
Qed.

Lemma ledger_counted_step ck e sh sh' es :
  counted (lg_requests (ls_measured (sh_ledger sh))) (fun f => tally f (ended es)) ->
  Z.of_nat (length es) + 1 < 2 ^ 64 -> exec_step ck e sh = Some sh' ->
  counted (lg_requests (ls_measured (sh_ledger sh'))) (fun f => tally f (ended (es ++ [e]))).
Proof.
  intros Hc Hlen Hstep.
  assert (ended_of e = None -> lg_requests (ls_measured (sh_ledger sh')) = lg_requests (ls_measured (sh_ledger sh)) ->
    counted (lg_requests (ls_measured (sh_ledger sh'))) (fun f => tally f (ended (es ++ [e])))) as Hsame.
  { intros En ->. eapply counted_ext; [exact Hc|]. intros f. by rewrite ended_snoc, En, app_nil_r. }
  destruct e as [m|m t app assertion|m|m now|now|slot m us now|slot now|slot m now lnow o|i|upto| |]; simpl in Hstep.
  1-3: injection Hstep as <-; apply Hsame; [done|]; by destruct m.
  - injection Hstep as <-. eapply counted_ext with (sum := fun f => tally f (ended es)).
    + simpl sh_ledger. rewrite begin_send_requests. destruct m; [|done]. by destruct Hc.
    + intros f. by rewrite ended_snoc, app_nil_r.
  - apply Hsame; [done|]. by rewrite (on_shard_ledger _ _ _ _ Hstep).
  - apply Hsame; [done|]. by rewrite (on_shard_ledger _ _ _ _ Hstep).
  - apply Hsame; [done|]. by rewrite (on_shard_ledger _ _ _ _ Hstep).
  - unfold end_send_ledger in Hstep. destruct (sh_shards sh !! _) as [[s [h|]]|] eqn:Ei; try done.
    injection Hstep as <-. simpl sh_ledger. rewrite end_send_requests. destruct m.
    + eapply counted_ext; [apply (count_send_counted _ _ o (Z.of_nat (length es)) Hc); [lia|]|].
      * intros f Hf. pose proof (tally_unit f (ended es) Hf). pose proof (ended_length es). lia.
      * intros f. rewrite ended_snoc. simpl option_list. by rewrite tally_snoc.
    + eapply counted_ext; [exact Hc|]. intros f. by rewrite ended_snoc, app_nil_r.
  - unfold end_send_unlock in Hstep. destruct (sh_shards sh !! _) as [[s [[[m now] o]|]]|]; try done.
    destruct (end_send_shard _ _ _ _ _). injection Hstep as <-. by apply Hsame.
  - unfold flush_start in Hstep. destruct (sh_flush sh); [done|]. injection Hstep as <-. by apply Hsame.
  - unfold flush_shard in Hstep. destruct (sh_flush sh) as [[upto i merged]|]; [|done].
    destruct (sh_shards sh !! _) as [[s [h|]]|]; try done. injection Hstep as <-. by apply Hsame.
  - unfold flush_ledger in Hstep. destruct (sh_flush sh) as [[upto i merged]|]; [|done].
    destruct (decide _); [|done]. simpl in Hstep. injection Hstep as <-. by apply Hsame.
Qed.

Lemma exec_run_counted ck n sh es : exec_run ck n sh es -> Z.of_nat (length es) < 2 ^ 64 ->
  counted (lg_requests (ls_measured (sh_ledger sh))) (fun f => tally f (ended es)).
Proof.
  induction 1 as [|sh es e sh' Hr IH Hen Hstep]; intros Hlen; [done|].
  rewrite length_app in Hlen. simpl in Hlen. eapply ledger_counted_step; [apply IH| |exact Hstep]; lia.
Qed.

(** ** The shards recorded the sends that ended, or hold them *)

Record snap_inv (es : list exec_event) (sh : Shared) (gs : list logged) : Prop := {
  si_shards : sh_shards sh = gs.*1;
  si_logged : Forall logged_ok gs;
  si_sends : logged_sends gs ≡ₚ ended es;
}.

Lemma logged_lookup sh (gs : list logged) i c : sh_shards sh = gs.*1 -> sh_shards sh !! i = Some c ->
  exists log : list SendObservation * list Z, gs !! i = Some ((c, log) : logged).
Proof.
  intros E Hi. rewrite E in Hi. apply list_lookup_fmap_Some in Hi as ([c1 log] & -> & Hg).
  by exists log.
Qed.

Lemma logged_lookup_ok (gs : list logged) i g : Forall logged_ok gs -> gs !! i = Some g -> logged_ok g.
Proof. intros Hf Hi. eapply list.Forall_lookup_1; eauto. Qed.

(** A step on shard [i]: its cell and its log are replaced. *)
Lemma snap_inv_insert es e sh sh' gs i (g : logged) c' (log' : list SendObservation * list Z) :
  snap_inv es sh gs -> gs !! i = Some g ->
  sh_shards sh' = <[i := c']> (sh_shards sh) -> logged_ok (c', log') ->
  log'.1 ++ held_obs c' ≡ₚ (g.2.1 ++ held_obs g.1) ++ option_list (ended_of e) ->
  exists gs', snap_inv (es ++ [e]) sh' gs'.
Proof.
  intros [Hs Hl Hp] Hi Hs' Hok Hnew. exists (<[i := (c', log') : logged]> gs). split.
  - rewrite Hs', Hs. by rewrite list_fmap_insert.
  - by apply Forall_insert.
  - rewrite (logged_sends_insert _ _ _ (c', log') _ Hi Hnew), Hp. by rewrite ended_snoc.
Qed.

Lemma snap_inv_same es e sh sh' gs : snap_inv es sh gs -> sh_shards sh' = sh_shards sh ->
  ended_of e = None -> exists gs', snap_inv (es ++ [e]) sh' gs'.
Proof.
  intros [Hs Hl Hp] E En. exists gs. split; [by rewrite E|done|]. by rewrite ended_snoc, En, app_nil_r.
Qed.

(** A section of an unlocked shard that records lags, if anything. *)
Lemma on_shard_inv es e sh sh' gs i f :
  snap_inv es sh gs -> on_shard i f sh = Some sh' -> ended_of e = None ->
  (forall s, exists us, sd_metrics (f s).1 = fold_left (fun m u => record_lag u m) us (sd_metrics s) /\ Forall is_u64 us) ->
  exists gs', snap_inv (es ++ [e]) sh' gs'.
Proof.
  intros Hinv Hon En Hf. unfold on_shard in Hon.
  destruct (sh_shards sh !! i) as [[s [h|]]|] eqn:Ei; try done.
  destruct (logged_lookup sh gs i _ (si_shards _ _ _ Hinv) Ei) as [[obs lags] Eg].
  pose proof (logged_lookup_ok _ _ _ (si_logged _ _ _ Hinv) Eg) as (Hm & Ho & Hlag). simpl in *.
  destruct (f s) as [s' t] eqn:Ef. injection Hon as <-.
  destruct (Hf s) as (us & Hus & Hu). rewrite Ef in Hus. simpl in Hus.
  eapply snap_inv_insert with (log' := (obs, lags ++ us)); [done|exact Eg|done| |].
  2:{ rewrite En. unfold held_obs. simpl. by rewrite !app_nil_r. }
  repeat split; simpl; [|done|by apply Forall_app]. rewrite Hus. clear -Hm.
  revert lags Hm. generalize (sd_metrics s). induction us as [|u us IH]; intros m lags Hm; simpl.
  - by rewrite app_nil_r.
  - change (lags ++ u :: us) with (lags ++ ([u] ++ us)). rewrite (app_assoc lags [u] us). apply IH. by constructor.
Qed.

Lemma with_bucket_metrics ck at_ f s : sd_metrics (with_bucket ck at_ f s).1 = sd_metrics s.
Proof. unfold with_bucket. by destruct (_ <=? _). Qed.

Lemma snap_inv_step ck e es sh sh' gs : snap_inv es sh gs -> event_times_ok e ->
  exec_step ck e sh = Some sh' -> exists gs', snap_inv (es ++ [e]) sh' gs'.
Proof.
  intros Hinv Hok Hstep.
  destruct e as [m|m t app assertion|m|m now|now|slot m us now|slot now|slot m now lnow o|i|upto| |]; simpl in Hstep.
  1-4: injection Hstep as <-; by eapply snap_inv_same.
  - eapply on_shard_inv; [done|exact Hstep|done|]. intros s. exists [].
    unfold dropped_in_bucket. by rewrite with_bucket_metrics.
  - eapply on_shard_inv; [done|exact Hstep|done|]. intros s. unfold record_lag_shard. rewrite with_bucket_metrics.
    destruct m; [exists [us]; repeat constructor; apply Hok|by exists []].
  - eapply on_shard_inv; [done|exact Hstep|done|]. intros s. exists [].
    unfold started_in_bucket. by rewrite with_bucket_metrics.
  - unfold end_send_ledger in Hstep. destruct (sh_shards sh !! _) as [[s [h|]]|] eqn:Ei; try done.
    injection Hstep as <-.
    destruct (logged_lookup sh gs _ _ (si_shards _ _ _ Hinv) Ei) as [[obs lags] Eg].
    pose proof (logged_lookup_ok _ _ _ (si_logged _ _ _ Hinv) Eg) as (Hm & Ho & Hlag).
    unfold held_obs in *. simpl in *. rewrite app_nil_r in Ho.
    eapply snap_inv_insert with (log' := (obs, lags)); [exact Hinv|exact Eg|done| |].
    + repeat split; simpl; [done| |done]. apply Forall_app. split; [done|].
      unfold held_obs. simpl. destruct m; repeat constructor; apply Hok.
    + unfold held_obs. simpl. rewrite app_nil_r. by destruct m.
  - unfold end_send_unlock in Hstep. destruct (sh_shards sh !! _) as [[s [[[m now] o]|]]|] eqn:Ei; try done.
    destruct (logged_lookup sh gs _ _ (si_shards _ _ _ Hinv) Ei) as [[obs lags] Eg].
    pose proof (logged_lookup_ok _ _ _ (si_logged _ _ _ Hinv) Eg) as (Hm & Ho & Hlag).
    unfold held_obs in Ho. simpl in *.
    destruct (end_send_shard ck m now o s) as [s' t] eqn:Es. injection Hstep as <-.
    assert (sd_metrics s' = if m then Metrics_record o (sd_metrics s) else sd_metrics s) as Hs'.
    { change s' with ((s', t).1). rewrite <- Es. unfold end_send_shard. rewrite with_bucket_metrics. by destruct m. }
    eapply snap_inv_insert with (log' := (obs ++ (if m then [o] else []), lags)); [exact Hinv|exact Eg|done| |].
    + unfold logged_ok, held_obs. simpl. rewrite Hs', app_nil_r. destruct m; repeat split; try done.
      * by constructor.
      * by rewrite app_nil_r.
    + unfold held_obs. simpl. rewrite !app_nil_r. by destruct m.
  - unfold flush_start in Hstep. destruct (sh_flush sh); [done|]. injection Hstep as <-. by eapply snap_inv_same.
  - unfold flush_shard in Hstep. destruct (sh_flush sh) as [[upto i merged]|]; [|done].
    destruct (sh_shards sh !! _) as [[s [h|]]|] eqn:Ei; try done. injection Hstep as <-.
    destruct (logged_lookup sh gs _ _ (si_shards _ _ _ Hinv) Ei) as [[obs lags] Eg].
    pose proof (logged_lookup_ok _ _ _ (si_logged _ _ _ Hinv) Eg) as Hg.
    eapply snap_inv_insert with (log' := (obs, lags)); [exact Hinv|exact Eg|done|done|].
    unfold held_obs. simpl. by rewrite !app_nil_r.
  - unfold flush_ledger in Hstep. destruct (sh_flush sh) as [[upto i merged]|]; [|done].
    destruct (decide _); [|done]. simpl in Hstep. injection Hstep as <-. by eapply snap_inv_same.
Qed.

(** The merge over the shards recorded everything the shards recorded. *)
Lemma merged_metrics_reach gs sh : sh_shards sh = gs.*1 -> Forall logged_ok gs ->
  metrics_reach (merged_metrics sh) (concat (map (fun g : logged => g.2.1) gs))
    (concat (map (fun g : logged => g.2.2) gs)).
Proof.
  intros E Hok. unfold merged_metrics. rewrite E.
  cut (forall m obs lags, metrics_reach m obs lags ->
    metrics_reach (fold_left (fun m c => Metrics_merge m (sd_metrics (sc_shard c))) gs.*1 m)
      (obs ++ concat (map (fun g : logged => g.2.1) gs)) (lags ++ concat (map (fun g : logged => g.2.2) gs))).
  { intros Hg. apply (Hg _ [] []). constructor. }
  clear E. induction Hok as [|g gs (Hm & _) _ IH]; intros m obs lags Hr; simpl; [by rewrite !app_nil_r|].
  rewrite !app_assoc. apply IH. by constructor.
Qed.

Lemma exec_run_snap ck n sh es : exec_run ck n sh es -> Forall event_times_ok es ->
  exists gs, snap_inv es sh gs.
Proof.
  induction 1 as [|sh es e sh' Hr IH Hen Hstep]; intros Hok.
  - exists (replicate n (mkShardCell Shard_new None, ([], []))). split.
    + simpl. by rewrite fmap_replicate.
    + apply Forall_replicate. repeat constructor.
    + unfold logged_sends. clear. simpl. induction n as [|n IH]; [done|]. exact IH.
  - apply Forall_app in Hok as [Hok He]. apply (proj1 (list.Forall_singleton _ _)) in He.
    destruct (IH Hok) as [gs Hinv]. by eapply snap_inv_step.
Qed.

Lemma unlocked_sends sh (gs : list logged) : sh_shards sh = gs.*1 -> all_unlocked sh ->
  logged_sends gs = concat (map (fun g : logged => g.2.1) gs).
Proof.
  unfold all_unlocked, logged_sends. intros -> Hu.
  induction gs as [|[c log] gs IH]; simpl in *; [done|]. apply list.Forall_cons in Hu as [Hc Hu].
  rewrite (IH Hu). unfold held_obs. simpl in *. by rewrite Hc, app_nil_r.
Qed.

Lemma tally_perm f obs obs' : obs ≡ₚ obs' -> tally f obs = tally f obs'.
Proof. unfold tally. induction 1; simpl; lia. Qed.

(** C1: a snapshot is a consistent cut, under every interleaving of the tasks:
    whenever every shard is unlocked, the merged metrics recorded exactly the
    measured sends that ended in the ledger, and the ledger counts exactly
    those: each terminal class counts the sends of that class, the censored
    distribution holds one elapsed time per timeout of the ledger and the setup
    distribution one time per send that was not canceled. *)
Theorem snapshot_consistent ck n sh es :
  exec_run ck n sh es -> all_unlocked sh -> Forall event_times_ok es ->
  Z.of_nat (length es) < 2 ^ 64 ->
  let '(measured_ledger, _, m) := snapshot_cut sh in
  let r := (balanced measured_ledger).2 in
  (exists obs lags, obs ≡ₚ ended es /\ metrics_reach m obs lags) /\
  counted r (fun f => tally f (ended es)) /\
  LatencyStat_count (mx_censored m) = rc_timeouts r /\
  LatencyStat_count (mx_setup m) = rc_completed r + rc_transport_failures r + rc_timeouts r.
Proof.
  intros Hr Hu Hok Hlen. simpl. destruct (exec_run_snap _ _ _ _ Hr Hok) as [gs [Hs Hl Hp]].
  pose proof (exec_run_counted _ _ _ _ Hr Hlen) as Hcnt. pose proof (ended_length es) as Hel.
  rewrite (unlocked_sends sh gs Hs Hu) in Hp.
  set (obs := concat (map (fun g : logged => g.2.1) gs)) in *.
  set (lags := concat (map (fun g : logged => g.2.2) gs)).
  assert (metrics_reach (merged_metrics sh) obs lags) as Hm by by apply merged_metrics_reach.
  assert (Forall times_ok obs) as Hobs.
  { apply Forall_concat, Forall_map. eapply list.Forall_impl; [exact Hl|].
    intros g (_ & Hg & _). by apply Forall_app in Hg as [Hg _]. }
  assert (Forall is_u64 lags) as Hlags.
  { apply Forall_concat, Forall_map. eapply list.Forall_impl; [exact Hl|]. by intros g (_ & _ & Hg). }
  assert (Z.of_nat (length obs) <= U64_MAX) as Hlen' by (rewrite Hp; unfold U64_MAX; lia).
  split; [by exists obs, lags|]. split; [by destruct Hcnt|].
  destruct (metrics_reach_distributions _ _ _ Hm Hobs Hlags) as [_ _ D3 D4 _].
  rewrite (stat_count_measured _ _ _ _ _ D3), (stat_count_measured _ _ _ _ _ D4) by done.
  rewrite !(tally_perm _ _ _ Hp). destruct Hcnt as [C1 C2 C3 _ _ _]. simpl. split; [by rewrite C3|].
  rewrite C1, C2, C3, <- !tally_add. apply tally_ext. intros ob. unfold is_terminal, canceled.
  by destruct (ob_terminal ob).
Qed.

(** * The timeline *)

Inductive counter := Started | Completed | Failures | Dropped.

Definition ba_counter (c : counter) (b : BucketAccum) : Z :=
  match c with
  | Started => ba_started b | Completed => ba_completed b
  | Failures => ba_failures b | Dropped => ba_dropped b
  end.

Definition tb_counter (c : counter) (b : TimeBucket) : Z :=
  match c with
  | Started => tb_started b | Completed => tb_completed b
  | Failures => tb_failures b | Dropped => tb_dropped b
  end.

(** What an ended send adds to a counter of its bucket. *)
Definition send_adds (c : counter) (o : SendObservation) : Z :=
  match c with
  | Completed => Z.b2z (bool_decide (ob_terminal o = Terminal_Completed))
  | Failures => Z.b2z (is_failure o)
  | _ => 0
  end.

Definition in_bucket (ck : RunClock) (k now n : Z) : Z := if bucket_of ck now =? k then n else 0.

(** What a step adds to counter [c] of bucket [k]. *)
Definition event_adds (ck : RunClock) (k : Z) (c : counter) (e : exec_event) : Z :=
  match e, c with
  | X_StartedBucket _ now, Started => in_bucket ck k now 1
  | X_DroppedBucket now, Dropped => in_bucket ck k now 1
  | X_EndSendLedger _ _ now _ o, _ => in_bucket ck k now (send_adds c o)
  | _, _ => 0
  end.

Definition events_in (ck : RunClock) (k : Z) (c : counter) (es : list exec_event) : Z :=
  foldr (fun e n => event_adds ck k c e + n) 0 es.

Lemma events_in_snoc ck k c es e : events_in ck k c (es ++ [e]) = events_in ck k c es + event_adds ck k c e.
Proof. unfold events_in. induction es as [|x es IH]; simpl in *; lia. Qed.

Lemma event_adds_bounds ck k c e : 0 <= event_adds ck k c e <= 1.
Proof.
  destruct e, c; simpl; unfold in_bucket, send_adds; repeat (destruct (_ =? _)); simpl; try lia;
    try (destruct (bool_decide _); simpl; lia); destruct (is_failure _); simpl; lia.
Qed.

Lemma events_in_bounds ck k c es : 0 <= events_in ck k c es <= Z.of_nat (length es).
Proof.
  unfold events_in. induction es as [|e es IH]; [done|]. simpl foldr. simpl length.
  pose proof (event_adds_bounds ck k c e). lia.
Qed.

(** ** Where the counts of a bucket are at any time *)

Definition count_at (k : Z) (c : counter) (m : omap Z BucketAccum) : Z :=
  from_option (ba_counter c) 0 (om_get k m).

Definition cell_count (ck : RunClock) (k : Z) (c : counter) (cell : ShardCell) : Z :=
  count_at k c (sd_pending (sc_shard cell)) +
  match sc_holder cell with Some (_, now, o) => in_bucket ck k now (send_adds c o) | None => 0 end.

Definition cells_count ck k c (cells : list ShardCell) : Z :=
  foldr (fun cell n => cell_count ck k c cell + n) 0 cells.

Definition flush_count (k : Z) (c : counter) (fl : option FlushState) : Z :=
  from_option (fun f => count_at k c (fl_merged f)) 0 fl.

Definition timeline_count (k : Z) (c : counter) (tl : list TimeBucket) : Z :=
  from_option (tb_counter c) 0 (tl !! Z.to_nat k).

(** Well-formed shared state: ordered maps, counters in range, the flush's
    buckets below its bound and the timeline below its limit. *)
Definition counts_u64 (m : omap Z BucketAccum) : Prop := forall k c, is_u64 (count_at k c m).

Definition pending_ok (m : omap Z BucketAccum) : Prop := om_wf m /\ counts_u64 m.

Definition flush_ok (f : FlushState) : Prop :=
  pending_ok (fl_merged f) /\ fl_upto f <= MAX_TIMELINE_BUCKETS /\
  (forall k, fl_upto f <= k -> om_get k (fl_merged f) = None).

Definition timeline_ok (ck : RunClock) (tl : list TimeBucket) : Prop :=
  Z.of_nat (length tl) <= MAX_TIMELINE_BUCKETS /\
  forall i b, tl !! i = Some b ->
    tb_second b = mul64 (Z.of_nat i) (ck_bucket_width_secs ck) /\
    tb_warmup b = (mul64 (Z.of_nat i) (ck_bucket_width_secs ck) <? ck_warmup_secs ck) /\
    (forall c, is_u64 (tb_counter c b)).

Record shared_ok (ck : RunClock) (sh : Shared) : Prop := {
  so_cells : Forall (fun cell => pending_ok (sd_pending (sc_shard cell))) (sh_shards sh);
  so_flush : if sh_flush sh is Some f then flush_ok f else True;
  so_timeline : timeline_ok ck (sh_timeline sh);
}.

Lemma pending_ok_nil : pending_ok [].
Proof. split; [constructor|]. intros k c. apply u64_0. Qed.

Lemma ba_counter_range c b f : (forall c, is_u64 (ba_counter c b)) ->
  (ba_started (f b), ba_completed (f b), ba_failures (f b), ba_dropped (f b)) =
  (ba_started b, ba_completed b, ba_failures b, ba_dropped b) -> is_u64 (ba_counter c (f b)).
Proof. intros Hr. pose proof (Hr c). destruct c; simpl in *; congruence. Qed.

Lemma default_counter c m k : ba_counter c (default BucketAccum_default (om_get k m)) = count_at k c m.
Proof. unfold count_at. destruct (om_get k m); simpl; [done|]. by destruct c. Qed.

(** An update of one bucket that adds [d c] to each counter. *)
Lemma pending_upd m k f (d : counter -> Z) : pending_ok m ->
  (forall b c, ba_counter c (f b) = if decide (d c = 0) then ba_counter c b else ba_counter c b ⊞ d c) ->
  let m' := om_upd (fun e => f (default BucketAccum_default e)) k m in
  pending_ok m' /\ forall k' c, eqm64 (count_at k' c m') (count_at k' c m + (if k =? k' then d c else 0)).
Proof.
  intros [Hw Hu] Hf. cbv zeta.
  assert (forall k' c, count_at k' c (om_upd (fun e => f (default BucketAccum_default e)) k m) =
    if k =? k' then (if decide (d c = 0) then count_at k' c m else count_at k' c m ⊞ d c) else count_at k' c m) as E.
  { intros k' c. unfold count_at. destruct (Z.eqb_spec k k') as [<-|Hne].
    - rewrite om_get_upd_eq. simpl. rewrite Hf, default_counter. done.
    - by rewrite om_get_upd_ne. }
  split.
  - split; [by apply om_upd_wf|]. intros k' c. rewrite E.
    destruct (k =? k'); [|done]. destruct (decide _); [done|]. apply add64_range.
  - intros k' c. rewrite E. destruct (k =? k').
    + destruct (decide (d c = 0)) as [->|]; [apply eqm64_eq; lia|]. apply add64_eqm.
    + apply eqm64_eq. lia.
Qed.

Lemma with_bucket_count ck now f (d : counter -> Z) s s' t : pending_ok (sd_pending s) ->
  (forall b c, ba_counter c (f b) = if decide (d c = 0) then ba_counter c b else ba_counter c b ⊞ d c) ->
  with_bucket ck now f s = (s', t) ->
  pending_ok (sd_pending s') /\
  forall k c, k < MAX_TIMELINE_BUCKETS ->
    eqm64 (count_at k c (sd_pending s')) (count_at k c (sd_pending s) + in_bucket ck k now (d c)).
Proof.
  intros Hp Hf. unfold with_bucket, in_bucket. destruct (Z.leb_spec MAX_TIMELINE_BUCKETS (bucket_of ck now)); intros [= <- <-].
  - split; [done|]. intros k c Hk. apply eqm64_eq. destruct (Z.eqb_spec (bucket_of ck now) k); lia.
  - destruct (pending_upd _ (bucket_of ck now) f d Hp Hf) as [Hp' E]. split; [exact Hp'|].
    intros k c _. apply E.
Qed.

(** The counts of all parts together. *)
Definition total_count ck k c (sh : Shared) : Z :=
  timeline_count k c (sh_timeline sh) + flush_count k c (sh_flush sh) + cells_count ck k c (sh_shards sh).

Lemma cells_count_insert ck k c cells i cell cell' : cells !! i = Some cell ->
  cells_count ck k c (<[i:=cell']> cells) = cells_count ck k c cells - cell_count ck k c cell + cell_count ck k c cell'.
Proof. apply (foldr_sum_insert (cell_count ck k c)). Qed.

(** A section of shard [i] that adds [d] to the bucket of [now]. *)
Lemma cell_step ck sh sh' i cell s' h' (d : counter -> Z) now :
  shared_ok ck sh -> sh_shards sh !! i = Some cell ->
  sh' = sh <| sh_shards := <[i := mkShardCell s' h']> (sh_shards sh) |>
           <| sh_timeline_truncated := sh_timeline_truncated sh' |> <| sh_ledger := sh_ledger sh' |> ->
  pending_ok (sd_pending s') ->
  (forall k c, 0 <= k < MAX_TIMELINE_BUCKETS ->
    eqm64 (cell_count ck k c (mkShardCell s' h')) (cell_count ck k c cell + in_bucket ck k now (d c))) ->
  shared_ok ck sh' /\ forall k c, 0 <= k < MAX_TIMELINE_BUCKETS ->
    eqm64 (total_count ck k c sh') (total_count ck k c sh + in_bucket ck k now (d c)).
Proof.
  intros [Hc Hf Ht] Hi -> Hp Hadd. split.
  - split; simpl; [by apply Forall_insert|done|done].
  - intros k c Hk. unfold total_count. simpl. rewrite (cells_count_insert _ _ _ _ _ _ _ Hi).
    rewrite (Hadd k c Hk). apply eqm64_eq. lia.
Qed.

Lemma cell_lookup_ok ck sh i cell : shared_ok ck sh -> sh_shards sh !! i = Some cell ->
  pending_ok (sd_pending (sc_shard cell)).
Proof. intros [Hc _ _] Hi. by apply (list.Forall_lookup_1 _ _ _ _ Hc Hi). Qed.

(** [on_shard] with a section that adds [d] to the bucket of [now]. *)
Lemma on_shard_count ck sh sh' i f (d : counter -> Z) now : shared_ok ck sh -> on_shard i f sh = Some sh' ->
  (forall s, pending_ok (sd_pending s) -> pending_ok (sd_pending (f s).1) /\
    forall k c, k < MAX_TIMELINE_BUCKETS ->
      eqm64 (count_at k c (sd_pending (f s).1)) (count_at k c (sd_pending s) + in_bucket ck k now (d c))) ->
  shared_ok ck sh' /\ forall k c, 0 <= k < MAX_TIMELINE_BUCKETS ->
    eqm64 (total_count ck k c sh') (total_count ck k c sh + in_bucket ck k now (d c)).
Proof.
  intros Hok Hon Hf. unfold on_shard in Hon.
  destruct (sh_shards sh !! i) as [[s [h|]]|] eqn:Ei; try done.
  pose proof (cell_lookup_ok _ _ _ _ Hok Ei) as Hp. destruct (Hf s Hp) as [Hp' E].
  destruct (f s) as [s' t]. injection Hon as <-.
  eapply (cell_step ck sh _ i _ s' None d now Hok Ei); [done|done|].
  intros k c Hk. unfold cell_count. simpl in *. rewrite (E k c ltac:(lia)). apply eqm64_eq. lia.
Qed.

Lemma started_in_bucket_count ck now s : pending_ok (sd_pending s) ->
  pending_ok (sd_pending (started_in_bucket ck now s).1) /\
  forall k c, k < MAX_TIMELINE_BUCKETS ->
    eqm64 (count_at k c (sd_pending (started_in_bucket ck now s).1))
      (count_at k c (sd_pending s) + in_bucket ck k now (if c is Started then 1 else 0)).
Proof.
  intros Hp. unfold started_in_bucket. destruct (with_bucket _ _ _ _) as [s' t] eqn:E.
  apply (with_bucket_count ck now _ (fun c => if c is Started then 1 else 0) _ _ _ Hp) in E; [exact E|].
  by intros b [].
Qed.

Lemma dropped_in_bucket_count ck now s : pending_ok (sd_pending s) ->
  pending_ok (sd_pending (dropped_in_bucket ck now s).1) /\
  forall k c, k < MAX_TIMELINE_BUCKETS ->
    eqm64 (count_at k c (sd_pending (dropped_in_bucket ck now s).1))
      (count_at k c (sd_pending s) + in_bucket ck k now (if c is Dropped then 1 else 0)).
Proof.
  intros Hp. unfold dropped_in_bucket. destruct (with_bucket _ _ _ _) as [s' t] eqn:E.
  apply (with_bucket_count ck now _ (fun c => if c is Dropped then 1 else 0) _ _ _ Hp) in E; [exact E|].
  by intros b [].
Qed.

Lemma record_lag_count ck m us now s : pending_ok (sd_pending s) ->
  pending_ok (sd_pending (record_lag_shard ck m us now s).1) /\
  forall k c, k < MAX_TIMELINE_BUCKETS ->
    eqm64 (count_at k c (sd_pending (record_lag_shard ck m us now s).1))
      (count_at k c (sd_pending s) + in_bucket ck k now 0).
Proof.
  intros Hp. unfold record_lag_shard. destruct (with_bucket _ _ _ _) as [s' t] eqn:E.
  assert (sd_pending (if m then s <| sd_metrics ::= record_lag us |> else s) = sd_pending s) as Es by by destruct m.
  apply (with_bucket_count ck now _ (fun c => 0)) in E; [by rewrite Es in E|by rewrite Es|by intros b []].
Qed.

Lemma add64_b2z_0 n (b : bool) : b = false -> is_u64 n -> n ⊞ Z.b2z b = n.
Proof. intros -> Hn. by apply add64_0_r. Qed.

Lemma end_send_shard_count ck m now o s : pending_ok (sd_pending s) ->
  pending_ok (sd_pending (end_send_shard ck m now o s).1) /\
  forall k c, k < MAX_TIMELINE_BUCKETS ->
    eqm64 (count_at k c (sd_pending (end_send_shard ck m now o s).1))
      (count_at k c (sd_pending s) + in_bucket ck k now (send_adds c o)).
Proof.
  intros Hp. unfold end_send_shard. set (s0 := if m then _ else _).
  assert (sd_pending s0 = sd_pending s) as Es by by destruct m. rewrite <- Es in *. clearbody s0.
  set (f := fun b : BucketAccum => _).
  assert (forall b, ba_started (f b) = ba_started b /\ ba_dropped (f b) = ba_dropped b /\
    ba_completed (f b) = ba_completed b ⊞ send_adds Completed o /\
    ba_failures (f b) = ba_failures b ⊞ send_adds Failures o) as Hf.
  { intros b. unfold f. by destruct (is_success o). }
  clearbody f.
  (* the counters are in range, so adding 0 leaves them as they are *)
  unfold with_bucket. destruct (_ <=? _) eqn:Eb; simpl.
  - split; [done|]. intros k c Hk. apply eqm64_eq. unfold in_bucket.
    destruct (Z.eqb_spec (bucket_of ck now) k); [|lia]. apply Z.leb_le in Eb. lia.
  - destruct Hp as [Hw Hu].
    assert (forall k' c, count_at k' c (om_upd (fun e => f (default BucketAccum_default e)) (bucket_of ck now) (sd_pending s0)) =
      if bucket_of ck now =? k' then
        match c with Started | Dropped => count_at k' c (sd_pending s0)
        | _ => count_at k' c (sd_pending s0) ⊞ send_adds c o end
      else count_at k' c (sd_pending s0)) as E.
    { intros k' c. unfold count_at at 1. destruct (Z.eqb_spec (bucket_of ck now) k') as [<-|Hne].
      - rewrite om_get_upd_eq. simpl. rewrite <- !default_counter.
        destruct (Hf (default BucketAccum_default (om_get (bucket_of ck now) (sd_pending s0)))) as (E1 & E2 & E3 & E4).
        by destruct c; simpl.
      - by rewrite om_get_upd_ne. }
    split; [split; [by apply om_upd_wf|]|].
    + intros k' c. rewrite E. destruct (_ =? _); [|done]. destruct c; try done; apply add64_range.
    + intros k' c _. rewrite E. unfold in_bucket. destruct (_ =? _); [|apply eqm64_eq; lia].
      destruct c; try apply add64_eqm; apply eqm64_eq; simpl; lia.
Qed.

Lemma merge_counter c a b : ba_counter c (BucketAccum_merge a b) = ba_counter c a ⊞ ba_counter c b.
Proof. by destruct c. Qed.

Lemma merge_taken_count taken merged k c : om_wf taken -> om_wf merged ->
  eqm64 (count_at k c (merge_taken taken merged)) (count_at k c merged + count_at k c taken).
Proof.
  intros Ht Hm. unfold count_at at 1 3. unfold merge_taken. rewrite om_get_merge_with by done.
  destruct (om_get k taken) as [v|]; simpl.
  - rewrite merge_counter, default_counter. apply add64_eqm.
  - apply eqm64_eq. unfold count_at. lia.
Qed.

Lemma merge_taken_u64 taken merged : om_wf taken -> pending_ok merged -> pending_ok (merge_taken taken merged).
Proof.
  intros Ht [Hm Hu]. split; [by apply om_merge_with_wf|]. intros k c.
  unfold count_at, merge_taken. rewrite om_get_merge_with by done.
  destruct (om_get k taken) as [v|]; simpl; [|apply Hu]. rewrite merge_counter. apply add64_range.
Qed.

Lemma count_from_below k c upto m : om_wf m ->
  count_at k c (om_from upto m) + count_at k c (om_below upto m) = count_at k c m.
Proof.
  intros Hm. unfold count_at. rewrite om_get_from, om_get_below by done.
  destruct (decide (upto <= k)); destruct (decide (k < upto)); simpl; lia.
Qed.

Lemma flush_shard_count ck sh sh' : shared_ok ck sh -> flush_shard sh = Some sh' ->
  shared_ok ck sh' /\ forall k c, eqm64 (total_count ck k c sh') (total_count ck k c sh).
Proof.
  intros Hok Hfl. unfold flush_shard in Hfl. destruct (sh_flush sh) as [[upto i merged]|] eqn:Ef; [|done].
  destruct (sh_shards sh !! i) as [[s [h|]]|] eqn:Ei; try done. injection Hfl as <-.
  pose proof (cell_lookup_ok _ _ _ _ Hok Ei) as [Hw Hu]. destruct Hok as [Hc Hf Ht]. rewrite Ef in Hf.
  destruct Hf as ([Hmw Hmu] & Hup & Hnone). simpl in *.
  assert (om_wf (om_below upto (sd_pending s))) as Hbw by by apply om_filter_wf.
  split.
  - split; simpl; [|split; [by apply merge_taken_u64|split; [done|]]|done].
    + apply Forall_insert; [done|]. simpl. split; [by apply om_filter_wf|].
      intros k c. unfold count_at. rewrite om_get_from by done. case_decide; [apply Hu|apply u64_0].
    + intros k Hk. simpl in *. unfold merge_taken. rewrite om_get_merge_with, om_get_below by done.
      rewrite decide_False by lia. by apply Hnone.
  - intros k c. unfold total_count. simpl. rewrite (cells_count_insert _ _ _ _ _ _ _ Ei). rewrite Ef. simpl.
    rewrite (merge_taken_count _ _ _ _ Hbw Hmw). apply eqm64_eq. unfold cell_count. simpl.
    pose proof (count_from_below k c upto (sd_pending s) Hw). lia.
Qed.

Lemma seqZ_lookup_map {A} (f : Z -> A) a n i : (i < Z.to_nat n)%nat ->
  map f (seqZ a n) !! i = Some (f (a + Z.of_nat i)).
Proof.
  intros Hi. rewrite list_lookup_fmap, lookup_seqZ_lt by lia. done.
Qed.

Lemma flushed_lookup ck merged peaks last_ now upto tl i :
  flushed ck merged peaks last_ now upto tl !! i =
  match tl !! i with
  | Some b => Some (add_late merged (Z.of_nat i) b)
  | None => if decide (Z.of_nat i < upto) then Some (time_bucket ck merged peaks last_ now (Z.of_nat i)) else None
  end.
Proof.
  unfold flushed. destruct (tl !! i) as [b|] eqn:Ei.
  - rewrite lookup_app_l by (rewrite length_imap; by eapply lookup_lt_Some). by rewrite list_lookup_imap, Ei.
  - apply lookup_ge_None in Ei. rewrite lookup_app_r by (rewrite length_imap; lia). rewrite length_imap.
    case_decide.
    + rewrite seqZ_lookup_map by lia. do 2 f_equal. lia.
    + apply lookup_ge_None. rewrite length_map, length_seqZ. lia.
Qed.

Lemma flushed_count ck merged peaks last_ now upto tl k c : 0 <= k ->
  (forall k, upto <= k -> om_get k merged = None) ->
  eqm64 (timeline_count k c (flushed ck merged peaks last_ now upto tl)) (timeline_count k c tl + count_at k c merged).
Proof.
  intros Hk Hnone. unfold timeline_count. rewrite flushed_lookup, Z2Nat.id by done.
  destruct (tl !! Z.to_nat k) as [b|]; simpl.
  - unfold add_late, count_at. destruct (om_get k merged) as [acc|]; simpl; [|apply eqm64_eq; lia].
    destruct c; apply add64_eqm.
  - case_decide; simpl.
    + apply eqm64_eq. rewrite <- default_counter. by destruct c.
    + apply eqm64_eq. unfold count_at. by rewrite Hnone by lia.
Qed.

Lemma flush_ledger_count ck sh sh' : shared_ok ck sh -> flush_ledger ck sh = Some sh' ->
  shared_ok ck sh' /\ forall k c, 0 <= k -> eqm64 (total_count ck k c sh') (total_count ck k c sh).
Proof.
  intros Hok Hfl. unfold flush_ledger in Hfl. destruct (sh_flush sh) as [[upto i merged]|] eqn:Ef; [|done].
  destruct (decide _) as [->|]; [|done]. simpl in Hfl. injection Hfl as <-.
  destruct Hok as [Hc Hf [Hlen Ht]]. rewrite Ef in Hf. destruct Hf as ([Hmw Hmu] & Hup & Hnone). simpl in *.
  split.
  - split; simpl; [done|done|]. split.
    + unfold flushed. rewrite length_app, length_imap, length_map, length_seqZ. lia.
    + intros j b. rewrite flushed_lookup. destruct (sh_timeline sh !! j) as [b0|] eqn:Ej.
      * intros [= <-]. destruct (Ht j b0 Ej) as (E1 & E2 & E3). unfold add_late.
        destruct (om_get _ merged) as [acc|]; [|done]. split; [done|split; [done|]].
        intros []; apply add64_range.
      * case_decide; [|done]. intros [= <-]. split; [done|split; [done|]]. intros c.
        pose proof (Hmu (Z.of_nat j) c) as Hr. rewrite <- default_counter in Hr. by destruct c.
  - intros k c Hk. unfold total_count. simpl. rewrite (flushed_count _ _ _ _ _ _ _ _ _ Hk Hnone).
    rewrite Ef. simpl. apply eqm64_eq. lia.
Qed.

Lemma exec_step_count ck e sh sh' : shared_ok ck sh -> exec_step ck e sh = Some sh' ->
  shared_ok ck sh' /\ forall k c, 0 <= k < MAX_TIMELINE_BUCKETS ->
    eqm64 (total_count ck k c sh') (total_count ck k c sh + event_adds ck k c e).
Proof.
  intros Hok Hstep.
  assert (forall sh', sh_shards sh' = sh_shards sh -> sh_flush sh' = sh_flush sh ->
    sh_timeline sh' = sh_timeline sh -> shared_ok ck sh' /\ forall k c, 0 <= k < MAX_TIMELINE_BUCKETS ->
    eqm64 (total_count ck k c sh') (total_count ck k c sh + 0)) as Hquiet.
  { intros sh1 E1 E2 E3. destruct Hok as [Hc Hf Ht]. split; [split; by rewrite ?E1, ?E2, ?E3|].
    intros k c _. unfold total_count. rewrite E1, E2, E3. apply eqm64_eq. lia. }
  destruct e as [m|m t app assertion|m|m now|now|slot m us now|slot now|slot m now lnow o|i|upto| |]; simpl in Hstep.
  1-4: injection Hstep as <-; by apply Hquiet.
  - destruct (on_shard_count ck sh sh' _ _ _ now Hok Hstep (dropped_in_bucket_count ck now)) as [H1' H2'].
    split; [done|]. intros k c Hk. rewrite (H2' k c Hk). apply eqm64_eq.
    destruct c; simpl; unfold in_bucket; destruct (_ =? _); lia.
  - destruct (on_shard_count ck sh sh' _ _ (fun _ => 0) now Hok Hstep (record_lag_count ck m us now)) as [H1' H2'].
    split; [done|]. intros k c Hk. rewrite (H2' k c Hk). apply eqm64_eq.
    simpl; unfold in_bucket; destruct (_ =? _); lia.
  - destruct (on_shard_count ck sh sh' _ _ _ now Hok Hstep (started_in_bucket_count ck now)) as [H1' H2'].
    split; [done|]. intros k c Hk. rewrite (H2' k c Hk). apply eqm64_eq.
    destruct c; simpl; unfold in_bucket; destruct (_ =? _); lia.
  - unfold end_send_ledger in Hstep. destruct (sh_shards sh !! _) as [[s [h|]]|] eqn:Ei; try done.
    injection Hstep as <-.
    eapply (cell_step ck sh _ _ _ s (Some (m, now, o)) (fun c => send_adds c o) now Hok Ei); [done| |].
    + by apply (cell_lookup_ok _ _ _ _ Hok Ei).
    + intros k c Hk. apply eqm64_eq. unfold cell_count. simpl. lia.
  - unfold end_send_unlock in Hstep. destruct (sh_shards sh !! i) as [[s [[[m now] o]|]]|] eqn:Ei; try done.
    pose proof (cell_lookup_ok _ _ _ _ Hok Ei) as Hp.
    destruct (end_send_shard_count ck m now o s Hp) as [Hp' E].
    destruct (end_send_shard ck m now o s) as [s' t]. injection Hstep as <-.
    eapply (cell_step ck sh _ _ _ s' None (fun _ => 0) now Hok Ei) in Hp' as [H1' H2']; [split; [exact H1'|]| |].
    + intros k c Hk. rewrite (H2' k c Hk). apply eqm64_eq. simpl. unfold in_bucket. destruct (_ =? _); lia.
    + done.
    + intros k c Hk. unfold cell_count. simpl in *. rewrite (E k c ltac:(lia)). apply eqm64_eq.
      unfold in_bucket. destruct (_ =? _); lia.
  - unfold flush_start in Hstep. destruct (sh_flush sh) eqn:Ef; [done|]. injection Hstep as <-.
    destruct Hok as [Hc Hf Ht]. split.
    + split; simpl; [done| |done]. split; [apply pending_ok_nil|]. simpl. split; [lia|done].
    + intros k c Hk. apply eqm64_eq. unfold total_count. simpl. rewrite Ef. simpl. unfold count_at. simpl. lia.
  - destruct (flush_shard_count _ _ _ Hok Hstep) as [H1' H2']. split; [done|].
    intros k c _. rewrite (H2' k c). apply eqm64_eq. simpl. lia.
  - destruct (flush_ledger_count _ _ _ Hok Hstep) as [H1' H2']. split; [done|].
    intros k c Hk. rewrite (H2' k c ltac:(lia)). apply eqm64_eq. simpl. lia.
Qed.

Lemma exec_run_count ck n sh es : exec_run ck n sh es -> shared_ok ck sh /\
  forall k c, 0 <= k < MAX_TIMELINE_BUCKETS -> eqm64 (total_count ck k c sh) (events_in ck k c es).
Proof.
  induction 1 as [|sh es e sh' Hr [IH1 IH2] Hen Hstep].
  - split.
    + split; simpl; [|done|split; [by vm_compute|done]].
      apply Forall_replicate. apply pending_ok_nil.
    + intros k c _. apply eqm64_eq. unfold total_count, timeline_count. simpl.
      assert (cells_count ck k c (replicate n (mkShardCell Shard_new None)) = 0) as ->.
      { unfold cells_count. induction n as [|n IH]; [done|]. simpl. by rewrite IH. }
      done.
  - destruct (exec_step_count _ _ _ _ IH1 Hstep) as [H1' H2']. split; [done|]. intros k c Hk.
    rewrite (H2' k c Hk), (IH2 k c Hk), events_in_snoc. done.
Qed.

(** Every send and every dropped arrival of the bucket was flushed. *)
Definition bucket_flushed (k : Z) (sh : Shared) : Prop :=
  sh_flush sh = None /\ all_unlocked sh /\
  Forall (fun cell => om_get k (sd_pending (sc_shard cell)) = None) (sh_shards sh).

(** C2: no count of the timeline is lost or doubled, however the sections of
    the tasks and of the ticker interleave and whether they reach the bucket
    before or after it was finalized: once everything recorded for bucket [k]
    was flushed, each of its counters is the number of sends started, sends
    completed, sends failed and arrivals dropped in it. *)
Theorem timeline_counts_exact ck n sh es k c :
  exec_run ck n sh es -> Z.of_nat (length es) < 2 ^ 64 ->
  0 <= k < MAX_TIMELINE_BUCKETS -> bucket_flushed k sh ->
  timeline_count k c (sh_timeline sh) = events_in ck k c es.
Proof.
  intros Hr Hlen Hk (Hf & Hu & Hp). destruct (exec_run_count _ _ _ _ Hr) as [[_ _ [_ Ht]] E].
  pose proof (events_in_bounds ck k c es) as Hb.
  apply eqm64_u64.
  - unfold timeline_count. destruct (sh_timeline sh !! _) as [b|] eqn:Eb; [|apply u64_0].
    destruct (Ht _ _ Eb) as (_ & _ & Hc). simpl. apply Hc.
  - split; lia.
  - rewrite <- (E k c Hk). unfold total_count. rewrite Hf. simpl.
    assert (cells_count ck k c (sh_shards sh) = 0) as ->; [|apply eqm64_eq; lia].
    unfold cells_count, all_unlocked in *. induction (sh_shards sh) as [|cell cells IH]; [done|].
    apply list.Forall_cons in Hu as [Hu1 Hu]. apply list.Forall_cons in Hp as [Hp1 Hp]. simpl. rewrite (IH Hu Hp).
    unfold cell_count, count_at. by rewrite Hu1, Hp1.
Qed.

(** ** Its shape *)

Lemma flush_ledger_length ck sh sh' f : sh_flush sh = Some f -> flush_ledger ck sh = Some sh' ->
  Z.of_nat (length (sh_timeline sh')) = Z.max (Z.of_nat (length (sh_timeline sh))) (fl_upto f).
Proof.
  intros Ef Hfl. unfold flush_ledger in Hfl. rewrite Ef in Hfl. destruct f as [upto i merged].
  destruct (decide _); [|done]. simpl in Hfl. injection Hfl as <-. simpl.
  unfold flushed. rewrite length_app, length_imap, length_map, length_seqZ. lia.
Qed.

(** The timeline is the sequence of the buckets from the start of the run:
    entry [i] starts at second [i * width] and is marked warmup iff that is
    before the warmup's end; there are at most [MAX_TIMELINE_BUCKETS], and a
    completed flush extends it exactly to its bound. *)
Theorem timeline_shape ck n sh es :
  exec_run ck n sh es -> 0 <= ck_bucket_width_secs ck <= 86400 ->
  Z.of_nat (length (sh_timeline sh)) <= MAX_TIMELINE_BUCKETS /\
  (forall i b, sh_timeline sh !! i = Some b ->
    tb_second b = Z.of_nat i * ck_bucket_width_secs ck /\
    tb_warmup b = (tb_second b <? ck_warmup_secs ck)) /\
  (forall f sh', sh_flush sh = Some f -> exec_step ck X_FlushLedger sh = Some sh' ->
    Z.of_nat (length (sh_timeline sh')) = Z.max (Z.of_nat (length (sh_timeline sh))) (fl_upto f)).
Proof.
  intros Hr Hw. destruct (exec_run_count _ _ _ _ Hr) as [[_ _ [Hlen Ht]] _].
  split; [done|]. split; [|intros f sh'; apply flush_ledger_length].
  intros i b Hb. destruct (Ht i b Hb) as (E1 & E2 & _). rewrite E1, E2. split; [|done].
  apply lookup_lt_Some in Hb. apply Z.mod_small. unfold MAX_TIMELINE_BUCKETS in Hlen. nia.
Qed.

(** ** The truncation flag *)

(** The instant at which a step records into a timeline bucket. *)
Definition recorded_at (e : exec_event) : option Z :=
  match e with
  | X_DroppedBucket now | X_RecordLag _ _ _ now | X_StartedBucket _ now
  | X_EndSendLedger _ _ now _ _ => Some now
  | _ => None
  end.

Definition beyond (ck : RunClock) (now : option Z) : bool :=
  from_option (fun now => MAX_TIMELINE_BUCKETS <=? bucket_of ck now) false now.

Definition held_at (cell : ShardCell) : option Z :=
  option_map (fun h => h.1.2) (sc_holder cell).

Lemma existsb_insert {A} (f : A -> bool) l i x y : l !! i = Some x -> f x = false ->
  existsb f (<[i:=y]> l) = existsb f l || f y.
Proof.
  revert i. induction l as [|a l IH]; intros [|i]; simpl; try done.
  - intros [= ->] ->. simpl. apply orb_comm.
  - intros Hi Hx. rewrite (IH i Hi Hx). by rewrite orb_assoc.
Qed.

Lemma existsb_release {A} (f : A -> bool) l i x y : l !! i = Some x -> f y = false ->
  existsb f (<[i:=y]> l) || f x = existsb f l.
Proof.
  revert i. induction l as [|a l IH]; intros [|i]; simpl; try done.
  - intros [= ->] ->. simpl. apply orb_comm.
  - intros Hi Hy. by rewrite <- (IH i Hi Hy), orb_assoc.
Qed.

Definition truncation_inv ck (sh : Shared) (es : list exec_event) : Prop :=
  sh_timeline_truncated sh || existsb (fun cell => beyond ck (held_at cell)) (sh_shards sh) =
  existsb (fun e => beyond ck (recorded_at e)) es.

Lemma with_bucket_truncated ck now f s : (with_bucket ck now f s).2 = beyond ck (Some now).
Proof. unfold with_bucket. simpl. by destruct (_ <=? _). Qed.

Lemma on_shard_truncated ck sh sh' i f now es e : truncation_inv ck sh es -> on_shard i f sh = Some sh' ->
  (forall s, (f s).2 = beyond ck (Some now)) -> recorded_at e = Some now -> truncation_inv ck sh' (es ++ [e]).
Proof.
  unfold truncation_inv. intros Hinv Hon Hf He. unfold on_shard in Hon.
  destruct (sh_shards sh !! i) as [[s [h|]]|] eqn:Ei; try done. pose proof (Hf s) as Ht.
  destruct (f s) as [s' t]. simpl in Ht. injection Hon as <-. cbn [sh_timeline_truncated sh_shards].
  simpl. rewrite (existsb_insert _ _ _ _ _ Ei) by done. rewrite existsb_app, <- Hinv. simpl. rewrite He, Ht.
  unfold beyond at 3. simpl. rewrite !orb_false_r. rewrite <- !orb_assoc. f_equal. apply orb_comm.
Qed.

Lemma truncation_step ck e sh sh' es : truncation_inv ck sh es -> exec_step ck e sh = Some sh' ->
  truncation_inv ck sh' (es ++ [e]).
Proof.
  intros Hinv Hstep.
  assert (forall sh1, sh_timeline_truncated sh1 = sh_timeline_truncated sh -> sh_shards sh1 = sh_shards sh ->
    recorded_at e = None -> truncation_inv ck sh1 (es ++ [e])) as Hquiet.
  { unfold truncation_inv in *. intros sh1 E1 E2 En. by rewrite E1, E2, Hinv, existsb_app; simpl; rewrite En, !orb_false_r. }
  destruct e as [m|m t app assertion|m|m now|now|slot m us now|slot now|slot m now lnow o|i|upto| |]; simpl in Hstep.
  1-4: injection Hstep as <-; by apply Hquiet.
  1-3: eapply (on_shard_truncated ck sh sh' _ _ now); [done|exact Hstep| |done]; intros s; apply with_bucket_truncated.
  - unfold end_send_ledger in Hstep. destruct (sh_shards sh !! _) as [[s [h|]]|] eqn:Ei; try done.
    injection Hstep as <-. unfold truncation_inv in *. simpl.
    rewrite (existsb_insert _ _ _ _ _ Ei) by done. rewrite existsb_app, <- Hinv. simpl.
    by rewrite orb_false_r, orb_assoc.
  - unfold end_send_unlock in Hstep. destruct (sh_shards sh !! i) as [[s [[[m now] o]|]]|] eqn:Ei; try done.
    destruct (end_send_shard ck m now o s) as [s' t] eqn:Es. injection Hstep as <-.
    assert (t = beyond ck (Some now)) as ->.
    { change t with ((s', t).2). rewrite <- Es. apply with_bucket_truncated. }
    unfold truncation_inv in *. simpl. rewrite existsb_app, <- Hinv. simpl. rewrite orb_false_r.
    rewrite <- (existsb_release _ _ _ _ (mkShardCell s' None) Ei) by done. unfold held_at at 3. simpl.
    rewrite <- !orb_assoc. f_equal. apply orb_comm.
  - unfold flush_start in Hstep. destruct (sh_flush sh); [done|]. injection Hstep as <-. by apply Hquiet.
  - unfold flush_shard in Hstep. destruct (sh_flush sh) as [[upto i merged]|]; [|done].
    destruct (sh_shards sh !! i) as [[s [h|]]|] eqn:Ei; try done. injection Hstep as <-.
    unfold truncation_inv in *. simpl. rewrite (existsb_insert _ _ _ _ _ Ei) by done.
    rewrite existsb_app, <- Hinv. simpl. by rewrite !orb_false_r.
  - unfold flush_ledger in Hstep. destruct (sh_flush sh) as [[upto i merged]|]; [|done].
    destruct (decide _); [|done]. simpl in Hstep. injection Hstep as <-. by apply Hquiet.
Qed.

(** The run is reported as truncated exactly when something was recorded
    past the last bucket of the timeline. *)
Theorem timeline_truncated_iff ck n sh es :
  exec_run ck n sh es -> all_unlocked sh ->
  sh_timeline_truncated sh = true <->
  exists e now, In e es /\ recorded_at e = Some now /\ MAX_TIMELINE_BUCKETS <= bucket_of ck now.
Proof.
  intros Hr Hu. assert (truncation_inv ck sh es) as Hinv.
  { clear Hu. induction Hr as [|sh es e sh' Hr IH Hen Hstep]; [|by eapply truncation_step].
    unfold truncation_inv. simpl. clear. induction n as [|n IH]; [done|exact IH]. }
  unfold truncation_inv in Hinv.
  assert (existsb (fun cell => beyond ck (held_at cell)) (sh_shards sh) = false) as E.
  { unfold all_unlocked in Hu. clear Hinv. induction Hu as [|cell cells Hc Hu IH]; [done|]. simpl. rewrite IH.
    unfold held_at. by rewrite Hc. }
  rewrite E, orb_false_r in Hinv. rewrite Hinv, existsb_exists. split.
  - intros (e & Hin & Hb). destruct (recorded_at e) as [now|] eqn:En; [|done].
    exists e, now. split; [done|]. split; [done|]. by apply Z.leb_le.
  - intros (e & now & Hin & En & Hb). exists e. split; [done|]. rewrite En. by apply Z.leb_le.
Qed.
End Executor.

(** * A concrete run *)

(** One virtual user, two shards, a one-second warmup and two-second buckets:
    a warmup send, two measured sends (one of them a timeout) and a flush while
    the second one ends. *)
Definition demo_clock : RunClock := mkRunClock 1 2 None.

Definition demo_timeout : SendObservation :=
  SendObservation_default <| ob_terminal := Terminal_Timeout |> <| ob_latency_us := 900 |>.

Definition sec (n : Z) : Z := n * NANOS_PER_SEC.

Definition demo_run_events : list exec_event := [
  X_BeginIteration false; X_BeginSend false (sec 0); X_StartedBucket 0 (sec 0);
  X_EndSendLedger 0 false (sec 0) (sec 0) sample_ok; X_EndSendShard 0; X_EndIteration false Terminal_Completed false false;
  X_BeginIteration true; X_BeginSend true (sec 2); X_StartedBucket 0 (sec 2);
  X_EndSendLedger 0 true (sec 3) (sec 3) sample_ok; X_FlushStart 1; X_BeginSend true (sec 3); X_EndSendShard 0;
  X_FlushShard; X_StartedBucket 1 (sec 3); X_FlushShard;
  X_FlushLedger; X_EndSendLedger 1 true (sec 5) (sec 5) demo_timeout; X_EndSendShard 1;
  X_EndIteration true Terminal_Timeout false false;
  X_FlushStart 3; X_FlushShard; X_FlushShard; X_FlushLedger].

Definition demo_shared : Shared (H := ListHist) :=
  default (Shared_new 0) (exec_from demo_clock (Shared_new 2) demo_run_events).

Fixpoint all_steps {H} `{Histogram H} (ck : RunClock) (sh : Shared) (es : list exec_event) : Prop :=
  match es with
  | [] => True
  | e :: es => (if ledger_event_of ck sh e is Some le then ledger_enabled le (sh_ledger sh) else True) /\
      (if exec_step ck e sh is Some sh' then all_steps ck sh' es else False)
  end.

Lemma exec_run_of {H} `{Histogram H} ck n es : all_steps ck (Shared_new n) es ->
  exists sh, exec_from ck (Shared_new n) es = Some sh /\ exec_run ck n sh es.
Proof.
  unfold exec_from. cut (forall sh es0, exec_run ck n sh es0 -> all_steps ck sh es ->
    exists sh', fold_left (fun sh e => sh ≫= exec_step ck e) es (Some sh) = Some sh' /\
      exec_run ck n sh' (es0 ++ es)).
  { intros Hc. apply (Hc _ []). constructor. }
  induction es as [|e es IH]; intros sh es0 Hr; simpl; [intros _; exists sh; by rewrite app_nil_r|].
  intros [He Hs]. destruct (exec_step ck e sh) as [sh'|] eqn:E; [|done].
  replace (es0 ++ e :: es) with ((es0 ++ [e]) ++ es) by by rewrite <- app_assoc.
  apply IH; [by eapply exec_run_step|done].
Qed.

Lemma demo_exec_run : exec_run demo_clock 2 demo_shared demo_run_events.
Proof.
  destruct (exec_run_of (H := ListHist) demo_clock 2 demo_run_events) as (sh & E & Hr).
  - vm_compute. repeat split.
  - unfold demo_shared. by rewrite E.
Qed.

Lemma demo_unlocked : all_unlocked demo_shared.
Proof. vm_compute. repeat constructor. Qed.

Lemma demo_times : Forall event_times_ok demo_run_events.
Proof.
  repeat first [apply List.Forall_cons|apply List.Forall_nil]; try exact I;
    repeat split; simpl; first [lia|reflexivity].
Qed.

Lemma snapshot_consistent_witness :
  rc_timeouts (balanced (snapshot_cut demo_shared).1.1).2 = 1 /\
  LatencyStat_count (mx_censored (snapshot_cut demo_shared).2) = 1.
Proof.
  destruct (snapshot_consistent demo_clock 2 demo_shared demo_run_events
    demo_exec_run demo_unlocked demo_times ltac:(reflexivity)) as (_ & _ & Hc & _).
  split; [by vm_compute|]. etransitivity; [exact Hc|by vm_compute].
Defined.

Lemma timeline_counts_exact_witness :
  timeline_count 1 Completed (sh_timeline demo_shared) = 1 /\ timeline_count 1 Started (sh_timeline demo_shared) = 2.
Proof.
  split; rewrite (timeline_counts_exact demo_clock 2 demo_shared demo_run_events 1);
    try apply demo_exec_run; try (by vm_compute); try (split; [lia|done]);
    (split; [by vm_compute|split; [apply demo_unlocked|vm_compute; repeat constructor]]).
Defined.

Lemma timeline_shape_witness :
  map tb_second (sh_timeline demo_shared) = [0; 2; 4] /\
  Z.of_nat (length (sh_timeline demo_shared)) <= MAX_TIMELINE_BUCKETS.
Proof.
  split; [by vm_compute|].
  apply (timeline_shape demo_clock 2 demo_shared demo_run_events demo_exec_run). simpl. lia.
Defined.

Lemma timeline_truncated_iff_witness : sh_timeline_truncated demo_shared = false.
Proof.
  destruct (sh_timeline_truncated demo_shared) eqn:E; [|done]. exfalso.
  apply (timeline_truncated_iff demo_clock 2 demo_shared demo_run_events demo_exec_run demo_unlocked) in E
    as (e & now & Hin & He & Hb).
  revert Hb. simpl in Hin. repeat (destruct Hin as [<-|Hin]; [vm_compute in He; simplify_eq; by vm_compute|]). done.
Defined.
