(* ===== verification/Plan.v ===== *)
(** Planning and driving a run (crates/anvil-load/src/executor.rs and
    schedule.rs): the checks a plan passes before anything is sent, the
    weighted choice of a mix, the reason a run stopped, and the three drivers'
    claims: slots of the open workload, iterations of the fixed one. The
    floating-point ramps of the schedule are not modelled. *)
From Stdlib Require Import ZArith Lia.
From stdpp Require Import base numbers strings pretty option list relations.
From S2P Require Import Prelude OrdMap Text Settings Evidence Request LoadModel Units Observe Ledger.
Open Scope string_scope.
Open Scope list_scope.
Open Scope Z_scope.

Definition MAX_VUS : Z := 5000.
Definition MAX_CONCURRENCY : Z := 5000.
Definition MAX_IN_FLIGHT : Z := 10000.
Definition MAX_RATE_PER_SEC : Z := 100000.
Definition MAX_DURATION_SECS : Z := 24 * 3600.
Definition MAX_ITERATIONS : Z := 100000000.
Definition MAX_CHAIN_STEPS : nat := 64.
Definition SLOT_MIN_IDLE : nat := 4.
Definition SLOT_MAX_IDLE : nat := 64.

Inductive LoadError :=
  | LoadError_Invalid (message : string)
  | LoadError_NotAcknowledged
  | LoadError_Unsupported (message : string)
  | LoadError_Refused (refusal : Refusal)
  | LoadError_Io (message : string)
  | LoadError_Protocol (message : string)
  | LoadError_Report (message : string).

Definition Invalid {A} (message : string) : result A LoadError := Err (LoadError_Invalid message).

(** * Validation *)

(** [schedule::total_secs]: [try_fold] of [checked_add]. *)
Definition total_secs (stages : list Stage) : option Z :=
  fold_left (fun acc s => acc ≫= fun n => checked_add64 n (stg_duration_secs s)) stages (Some 0).

Definition validate_stages (stages : list Stage) (cap : Z) (what : string) : result Z LoadError :=
  match stages with
  | [] => Invalid "the workload has no stages"
  | _ =>
      let? total := ok_or (total_secs stages)
        (LoadError_Invalid "the stage durations overflow; shorten the schedule") in
      if total =? 0 then Invalid "the stages have zero total duration"
      else if MAX_DURATION_SECS <? total then
        Invalid ("the stages last " +:+ pretty total +:+ " s; the limit is " +:+ pretty MAX_DURATION_SECS +:+ " s")
      else match find (fun s => cap <? stg_target s) stages with
      | Some s => Invalid ("stage target " +:+ pretty (stg_target s) +:+ " " +:+ what +:+
          " exceeds the limit of " +:+ pretty cap)
      | None =>
          if forallb (fun s => stg_target s =? 0) stages
          then Invalid "every stage target is zero; nothing would be sent"
          else Ok total
      end
  end.

Record WorkloadLimits := mkWorkloadLimits {
  wl_slots : Z;
  wl_planned_secs : Z;
}.

(** The slots and schedule length of the workload, when it is in bounds. *)
Definition workload_limits (w : Workload) : result WorkloadLimits LoadError :=
  match w with
  | Workload_ClosedVirtualUsers stages think_time_ms =>
      let? total := validate_stages stages MAX_VUS "virtual users" in
      if 3600000 <? think_time_ms then Invalid "think time exceeds one hour"
      else Ok (mkWorkloadLimits (foldr Z.max 0 (map stg_target stages)) total)
  | Workload_OpenArrivalRate stages max_in_flight =>
      let? total := validate_stages stages MAX_RATE_PER_SEC "arrivals/s" in
      if (max_in_flight =? 0) || (MAX_IN_FLIGHT <? max_in_flight) then
        Invalid ("max_in_flight must be 1..=" +:+ pretty MAX_IN_FLIGHT)
      else Ok (mkWorkloadLimits max_in_flight total)
  | Workload_Iterations iterations concurrency =>
      if (iterations =? 0) || (MAX_ITERATIONS <? iterations) then
        Invalid ("iterations must be 1..=" +:+ pretty MAX_ITERATIONS)
      else if (concurrency =? 0) || (MAX_CONCURRENCY <? concurrency) then
        Invalid ("concurrency must be 1..=" +:+ pretty MAX_CONCURRENCY)
      else Ok (mkWorkloadLimits (Z.min concurrency iterations) 0)
  end.

Definition is_timed (w : Workload) : bool :=
  match w with Workload_Iterations _ _ => false | _ => true end.

Definition validate_workload (plan : LoadPlan) : result WorkloadLimits LoadError :=
  let? limits := workload_limits (lp_workload plan) in
  if is_timed (lp_workload plan) && (wl_planned_secs limits <=? lp_warmup_secs plan) then
    Invalid "the warmup covers the whole schedule; nothing would be measured"
  else match lp_abort plan with
  | Some a =>
      if (1000 <? ab_max_failure_permille a) || (ab_window_secs a =? 0) || (3600 <? ab_window_secs a) then
        Invalid "abort rule needs max_failure_permille ≤ 1000 and a 1–3600 s window"
      else Ok limits
  | None => Ok limits
  end.

Definition validate_plan (plan : LoadPlan) : result unit LoadError :=
  match lp_chain plan, lp_mix plan with
  | [], [] => Invalid "the plan has neither a request chain nor a weighted mix"
  | _, mix =>
      if negb (bool_decide (mix = [])) && forallb (fun m => ws_weight m =? 0) mix then
        Invalid "every weighted-mix weight is zero"
      else let? _ := validate_workload plan in Ok tt
  end.

#[export] Instance WeightedStep_eq_dec : EqDecision WeightedStep.
Proof. solve_decision. Defined.

(** * The weighted mix *)

(** The running sums of the mix's weights, as [prepare] collects them. *)
Fixpoint cumulative_from (acc : Z) (mix : list WeightedStep) : list Z :=
  match mix with
  | [] => []
  | m :: mix' => let acc := acc ⊞ ws_weight m in acc :: cumulative_from acc mix'
  end.

(** The requests of a plan and the cumulative weights ([prepare], first part). *)
Definition plan_steps (plan : LoadPlan) : result (list Id * list Z) LoadError :=
  match lp_mix plan with
  | [] =>
      match lp_chain plan with
      | [] => Invalid "the plan has neither a request chain nor a weighted mix"
      | _ =>
          if (MAX_CHAIN_STEPS <? length (lp_chain plan))%nat then
            Invalid ("the chain has " +:+ pretty (Z.of_nat (length (lp_chain plan))) +:+
              " steps; the limit is " +:+ pretty (Z.of_nat MAX_CHAIN_STEPS))
          else Ok (lp_chain plan, [])
      end
  | mix =>
      let cum := cumulative_from 0 mix in
      if default 0 (last cum) =? 0 then Invalid "every weighted-mix weight is zero"
      else Ok (map ws_request_id mix, cum)
  end.

(** [LoadRun::prepare] up to the resolution of its requests: the options, the
    steps, the limits and the dataset; the slots are at least one. *)
Definition prepare_plan (acknowledged has_dataset : bool) (plan : LoadPlan)
    : result (list Id * list Z * WorkloadLimits) LoadError :=
  if negb acknowledged then Err LoadError_NotAcknowledged else
  let? (ids, cum) := plan_steps plan in
  let? limits := validate_workload plan in
  if (if lp_dataset_id plan is Some _ then true else false) && negb has_dataset then
    Invalid "the plan references a dataset but none was provided"
  else Ok (ids, cum, mkWorkloadLimits (Z.max 1 (wl_slots limits)) (wl_planned_secs limits)).

Definition splitmix64 (z : Z) : Z :=
  let z := add64 z 0x9E3779B97F4A7C15 in
  let z := mul64 (Z.lxor z (Z.shiftr z 30)) 0xBF58476D1CE4E5B9 in
  let z := mul64 (Z.lxor z (Z.shiftr z 27)) 0x94D049BB133111EB in
  Z.lxor z (Z.shiftr z 31).

(** [iter().position(|c| r < *c)]. *)
Fixpoint position_above (r : Z) (cumulative : list Z) : option nat :=
  match cumulative with
  | [] => None
  | c :: cs => if r <? c then Some 0%nat else option_map S (position_above r cs)
  end.

(** [pick_weighted]; [None] where it panics (empty mix, zero total). *)
Definition pick_weighted (seed : Z) (cumulative : list Z) (iteration : Z) : option nat :=
  total ← last cumulative;
  if total =? 0 then None else
  position_above (splitmix64 (Z.lxor seed (splitmix64 iteration)) mod total) cumulative.

Definition derive_seed (plan_seed ctx_seed iteration step : Z) : Z :=
  splitmix64 (Z.lxor plan_seed (splitmix64 (Z.lxor ctx_seed
    (splitmix64 (add64 (mul64 iteration 1000003) step))))).

(** [slot_idle_cap]. *)
Definition slot_idle_cap (ids : list Id) : nat :=
  Nat.max SLOT_MIN_IDLE (Nat.min (length (remove_dups ids)) SLOT_MAX_IDLE).

(** The first outputs of the splitmix64 generator seeded with 0 and 1. *)
Example splitmix64_vectors : splitmix64 0 = 0xE220A8397B1DCDAF /\ splitmix64 1 = 0x910A2DEC89025CC1.
Proof. by vm_compute. Qed.

(** ** What an accepted plan satisfies *)

Lemma total_secs_sum stages : Forall (fun s => 0 <= stg_duration_secs s) stages ->
  total_secs stages =
    let total := foldr (fun s n => stg_duration_secs s + n) 0 stages in
    if decide (total <= U64_MAX) then Some total else None.
Proof.
  intros Hall. unfold total_secs.
  cut (forall acc, 0 <= acc <= U64_MAX ->
    fold_left (fun acc s => acc ≫= fun n => checked_add64 n (stg_duration_secs s)) stages (Some acc) =
    if decide (acc + foldr (fun s n => stg_duration_secs s + n) 0 stages <= U64_MAX)
    then Some (acc + foldr (fun s n => stg_duration_secs s + n) 0 stages) else None).
  { intros H. rewrite (H 0) by (unfold U64_MAX; lia). by rewrite Z.add_0_l. }
  assert (forall l, fold_left (fun acc s => acc ≫= fun n => checked_add64 n (stg_duration_secs s)) l None = None)
    as Hnone by by induction l.
  induction Hall as [|s stages Hs Hall IH]; intros acc Hacc; simpl.
  - rewrite Z.add_0_r. by rewrite decide_True by lia.
  - assert (0 <= foldr (fun s n => stg_duration_secs s + n) 0 stages) as Hpos
      by (clear -Hall; induction Hall; simpl; lia).
    unfold checked_add64 at 2. simpl. destruct (decide (acc + stg_duration_secs s <= U64_MAX)).
    + rewrite IH by lia. by rewrite Z.add_assoc.
    + rewrite Hnone. by rewrite decide_False by lia.
Qed.

(** The bounds on the stages of a timed workload. *)
Definition stages_ok (cap : Z) (stages : list Stage) : Prop :=
  1 <= foldr (fun s n => stg_duration_secs s + n) 0 stages <= MAX_DURATION_SECS /\
  Forall (fun s => stg_target s <= cap) stages /\ Exists (fun s => stg_target s <> 0) stages.

Lemma find_None_Forall {A} (f : A -> bool) l : find f l = None <-> Forall (fun x => f x = false) l.
Proof.
  induction l as [|x l IH]; simpl; [by split|]. destruct (f x) eqn:E; rewrite list.Forall_cons;
    [split; [done|intros [? _]; congruence]|].
  rewrite IH. split; [by split|by intros []].
Qed.

Lemma forallb_false_Exists {A} (f : A -> bool) l : forallb f l = false <-> Exists (fun x => f x = false) l.
Proof.
  induction l as [|x l IH]; simpl; [split; [done|by intros ?%Exists_nil]|].
  rewrite Exists_cons, andb_false_iff, IH. tauto.
Qed.

Lemma validate_stages_Ok stages cap what total : Forall (fun s => 0 <= stg_duration_secs s) stages ->
  validate_stages stages cap what = Ok total <->
  stages_ok cap stages /\ total = foldr (fun s n => stg_duration_secs s + n) 0 stages.
Proof.
  intros Hall. unfold validate_stages, stages_ok. rewrite (total_secs_sum stages Hall).
  destruct stages as [|s stages].
  { split; [done|]. intros [(_ & _ & He) _]. by apply Exists_nil in He. }
  remember (s :: stages) as l eqn:El. clear El. cbv zeta. set (t := foldr _ 0 l).
  assert (0 <= t) by (unfold t; clear -Hall; induction Hall; simpl; lia).
  assert (MAX_DURATION_SECS <= U64_MAX) by by vm_compute.
  destruct (decide (t <= U64_MAX)); simpl; [|split; [done|intros [(? & _) _]; lia]].
  destruct (Z.eqb_spec t 0); [split; [done|intros [(? & _) _]; lia]|].
  destruct (Z.ltb_spec MAX_DURATION_SECS t); [split; [done|intros [(? & _) _]; lia]|].
  destruct (find (fun s => cap <? stg_target s) l) as [x|] eqn:Ef.
  { split; [done|]. intros [(_ & Hf & _) _]. exfalso.
    apply find_some in Ef as [Hin Hx]. apply Z.ltb_lt in Hx.
    apply (proj1 (List.Forall_forall _ _) Hf) in Hin. lia. }
  apply find_None_Forall in Ef. destruct (forallb (fun s => stg_target s =? 0) l) eqn:Eb.
  - split; [done|]. intros [(_ & _ & He) _]. apply Exists_exists in He as (x & Hin & Hx).
    apply forallb_forall with (x := x) in Eb; [|by apply list_elem_of_In]. apply Z.eqb_eq in Eb. done.
  - apply forallb_false_Exists in Eb. split; [|by intros [_ ->]]. intros [= <-]. split; [|done].
    split; [lia|]. split.
    + eapply list.Forall_impl; [exact Ef|]. intros x Hx. by apply Z.ltb_ge.
    + eapply Exists_impl; [exact Eb|]. intros x Hx. by apply Z.eqb_neq.
Qed.

(** The values of a plan have their types' ranges. *)
Definition plan_typed (plan : LoadPlan) : Prop :=
  match lp_workload plan with
  | Workload_ClosedVirtualUsers stages think => Forall (fun s => 0 <= stg_duration_secs s /\ 0 <= stg_target s) stages /\ 0 <= think
  | Workload_OpenArrivalRate stages n => Forall (fun s => 0 <= stg_duration_secs s /\ 0 <= stg_target s) stages /\ 0 <= n
  | Workload_Iterations n c => 0 <= n /\ 0 <= c
  end /\ (if lp_abort plan is Some a then 0 <= ab_window_secs a else True).

Definition workload_ok (w : Workload) : Prop :=
  match w with
  | Workload_ClosedVirtualUsers stages think => stages_ok MAX_VUS stages /\ think <= 3600000
  | Workload_OpenArrivalRate stages n => stages_ok MAX_RATE_PER_SEC stages /\ 1 <= n <= MAX_IN_FLIGHT
  | Workload_Iterations n c => 1 <= n <= MAX_ITERATIONS /\ 1 <= c <= MAX_CONCURRENCY
  end.

Definition schedule_secs (w : Workload) : Z :=
  match w with
  | Workload_ClosedVirtualUsers stages _ | Workload_OpenArrivalRate stages _ =>
      foldr (fun s n => stg_duration_secs s + n) 0 stages
  | Workload_Iterations _ _ => 0
  end.

Definition slot_count (w : Workload) : Z :=
  match w with
  | Workload_ClosedVirtualUsers stages _ => foldr Z.max 0 (map stg_target stages)
  | Workload_OpenArrivalRate _ n => n
  | Workload_Iterations n c => Z.min c n
  end.

Lemma workload_limits_Ok w limits :
  match w with
  | Workload_ClosedVirtualUsers stages think => Forall (fun s => 0 <= stg_duration_secs s /\ 0 <= stg_target s) stages /\ 0 <= think
  | Workload_OpenArrivalRate stages n => Forall (fun s => 0 <= stg_duration_secs s /\ 0 <= stg_target s) stages /\ 0 <= n
  | Workload_Iterations n c => 0 <= n /\ 0 <= c
  end ->
  workload_limits w = Ok limits <-> workload_ok w /\ limits = mkWorkloadLimits (slot_count w) (schedule_secs w).
Proof.
  assert (forall stages, Forall (fun s => 0 <= stg_duration_secs s /\ 0 <= stg_target s) stages ->
    Forall (fun s => 0 <= stg_duration_secs s) stages) as Hd.
  { intros stages Hs. eapply list.Forall_impl; [exact Hs|]. by intros s []. }
  destruct w as [stages think|stages n|n c]; simpl; intros Ht.
  - rewrite result_bind_Ok. setoid_rewrite (validate_stages_Ok stages MAX_VUS _ _ (Hd _ (proj1 Ht))).
    destruct (Z.ltb_spec 3600000 think).
    + split; [by intros (? & _ & ?)|]. intros [[_ ?] _]. lia.
    + split; [intros (? & [? ->] & [= <-]); auto|]. intros [[? _] ->]. eauto.
  - rewrite result_bind_Ok. setoid_rewrite (validate_stages_Ok stages MAX_RATE_PER_SEC _ _ (Hd _ (proj1 Ht))).
    destruct (Z.eqb_spec n 0), (Z.ltb_spec MAX_IN_FLIGHT n); simpl;
      try (split; [by intros (? & _ & ?)|intros [[_ ?] _]; lia]).
    split; [intros (? & [? ->] & [= <-]); split; [split; [done|lia]|done]|]. intros [[? _] ->]. eauto.
  - destruct (Z.eqb_spec n 0), (Z.ltb_spec MAX_ITERATIONS n); simpl; try (split; [done|intros [[? _] _]; lia]).
    destruct (Z.eqb_spec c 0), (Z.ltb_spec MAX_CONCURRENCY c); simpl; try (split; [done|intros [[_ ?] _]; lia]).
    split; [intros [= <-]; split; [lia|done]|by intros [_ ->]].
Qed.

(** A plan is accepted exactly when its workload is within its limits,
    something is measured after the warmup, and the abort rule is in range; the
    run then has the number of slots and the schedule length its workload
    describes. *)
Theorem validate_workload_Ok plan limits : plan_typed plan ->
  validate_workload plan = Ok limits <->
  workload_ok (lp_workload plan) /\
  (is_timed (lp_workload plan) = true -> lp_warmup_secs plan < schedule_secs (lp_workload plan)) /\
  (forall a, lp_abort plan = Some a -> ab_max_failure_permille a <= 1000 /\ 1 <= ab_window_secs a <= 3600) /\
  limits = mkWorkloadLimits (slot_count (lp_workload plan)) (schedule_secs (lp_workload plan)).
Proof.
  intros [Hw Ha]. unfold validate_workload. rewrite result_bind_Ok.
  setoid_rewrite (workload_limits_Ok _ _ Hw).
  assert (forall (P Q : Prop) (R : WorkloadLimits -> Prop) l0, (exists a, (P /\ a = l0) /\ R a) <-> P /\ R l0) as Hex
    by (intros P Q R l0; split; [intros (a & [? ->] & ?); auto|intros [? ?]; eauto]).
  rewrite (Hex _ True (fun l => _)). simpl.
  destruct (is_timed (lp_workload plan)); simpl;
    [destruct (Z.leb_spec (schedule_secs (lp_workload plan)) (lp_warmup_secs plan))|];
    (destruct (lp_abort plan) as [a|]; [destruct (Z.ltb_spec 1000 (ab_max_failure_permille a)),
      (Z.eqb_spec (ab_window_secs a) 0), (Z.ltb_spec 3600 (ab_window_secs a)); simpl|]);
    (split; [intros [? He]; simplify_eq|intros (? & Hwarm & Hab & ->)]);
    try (specialize (Hab _ eq_refl)); try lia; try (specialize (Hwarm eq_refl); lia); try done;
    (split; [done|split; [done|split; [|done]]]; intros ? ?; simplify_eq; lia).
Qed.

(** ** The weighted choice *)

Definition weight_sum (mix : list WeightedStep) : Z := foldr (fun m n => ws_weight m + n) 0 mix.

(** The index whose interval of the cumulative weights contains [r]. *)
Fixpoint pick_of (r : Z) (mix : list WeightedStep) : option nat :=
  match mix with
  | [] => None
  | m :: mix' => if r <? ws_weight m then Some 0%nat else option_map S (pick_of (r - ws_weight m) mix')
  end.

Definition mix_ok (mix : list WeightedStep) : Prop :=
  Forall (fun m => 0 <= ws_weight m) mix /\ weight_sum mix < 2 ^ 64.

Lemma weight_sum_nonneg mix : Forall (fun m => 0 <= ws_weight m) mix -> 0 <= weight_sum mix.
Proof. unfold weight_sum. induction 1; simpl; lia. Qed.

Lemma cumulative_last acc mix : Forall (fun m => 0 <= ws_weight m) mix -> 0 <= acc -> acc + weight_sum mix < 2 ^ 64 ->
  mix <> [] -> last (cumulative_from acc mix) = Some (acc + weight_sum mix).
Proof.
  intros Hw. revert acc. unfold weight_sum. induction Hw as [|m mix Hm Hw IH]; intros acc Ha Hb Hne; [done|].
  pose proof (weight_sum_nonneg mix Hw) as Hs. unfold weight_sum in Hs. simpl in *.
  rewrite add64_small by lia. destruct mix as [|m' mix]; [simpl; f_equal; lia|].
  rewrite (last_cons (acc + ws_weight m)). rewrite IH by (try done; lia). f_equal. lia.
Qed.

Lemma position_above_pick acc r mix : Forall (fun m => 0 <= ws_weight m) mix -> 0 <= acc ->
  acc + weight_sum mix < 2 ^ 64 -> position_above (acc + r) (cumulative_from acc mix) = pick_of r mix.
Proof.
  intros Hw. revert acc r. unfold weight_sum. induction Hw as [|m mix Hm Hw IH]; intros acc r Ha Hb; [done|].
  pose proof (weight_sum_nonneg mix Hw) as Hs. unfold weight_sum in Hs. simpl in *.
  rewrite add64_small by lia. replace (acc + r) with ((acc + ws_weight m) + (r - ws_weight m)) at 2 by lia.
  rewrite IH by lia. destruct (Z.ltb_spec (acc + r) (acc + ws_weight m)), (Z.ltb_spec r (ws_weight m)); done || lia.
Qed.

Lemma pick_of_spec r mix i : 0 <= r -> Forall (fun m => 0 <= ws_weight m) mix ->
  pick_of r mix = Some i <->
  exists m, mix !! i = Some m /\ weight_sum (take i mix) <= r < weight_sum (take i mix) + ws_weight m.
Proof.
  intros Hr Hw. revert r i Hr. induction Hw as [|m mix Hm Hw IH]; intros r i Hr; simpl.
  { split; [done|]. by intros (? & ? & _). }
  destruct (Z.ltb_spec r (ws_weight m)).
  - split; [intros [= <-]; exists m; split; [done|]; unfold weight_sum; simpl; lia|].
    destruct i as [|i]; simpl.
    { intros (m' & [= <-] & Hb). done. }
    intros (m' & Hi & Hb). change (weight_sum (m :: take i mix)) with (ws_weight m + weight_sum (take i mix)) in Hb. assert (0 <= weight_sum (take i mix)) by (apply weight_sum_nonneg, Forall_take, Hw). lia.
  - destruct i as [|i]; simpl.
    + split; [destruct (pick_of _ mix); done|]. intros (m' & [= <-] & Hb). unfold weight_sum in Hb. simpl in Hb. lia.
    + transitivity (pick_of (r - ws_weight m) mix = Some i); [destruct (pick_of _ mix); simpl; split; by intros [= ->]|].
      rewrite IH by lia. change (weight_sum (m :: take i mix)) with (ws_weight m + weight_sum (take i mix)).
      split; intros (m' & Hi & Hb); exists m'; (split; [done|lia]).
Qed.

(** The weighted choice is proportional: over the values of the hash
    modulo the total, entry [i] of the mix is chosen for exactly as many as its
    weight, an interval of them; so a mix with a positive total always chooses
    an entry, of positive weight. *)
Theorem pick_weighted_proportional seed mix iteration :
  mix_ok mix -> 0 < weight_sum mix ->
  let r := splitmix64 (Z.lxor seed (splitmix64 iteration)) mod weight_sum mix in
  exists i m, pick_weighted seed (cumulative_from 0 mix) iteration = Some i /\ mix !! i = Some m /\
    0 < ws_weight m /\
    (forall j m', mix !! j = Some m' ->
       j = i <-> weight_sum (take j mix) <= r < weight_sum (take j mix) + ws_weight m').
Proof.
  intros [Hw Hlt] Hpos. cbv zeta. unfold pick_weighted.
  assert (mix <> []) as Hne by by intros ->.
  rewrite (cumulative_last 0 mix Hw ltac:(lia) ltac:(lia) Hne). simpl. rewrite (proj2 (Z.eqb_neq _ _)) by lia.
  rewrite Z.add_0_l. set (r := _ mod _). assert (0 <= r < weight_sum mix) as Hr by by apply Z.mod_pos_bound.
  assert (position_above r (cumulative_from 0 mix) = pick_of r mix) as ->.
  { rewrite <- (position_above_pick 0 r mix) by (try done; lia). by rewrite Z.add_0_l. }
  assert (exists i, pick_of r mix = Some i) as [i Hi].
  { clear -Hr Hw. unfold weight_sum in Hr. revert Hr. generalize r as q. induction Hw as [|m mix Hm Hw IH]; simpl; [lia|].
    intros q Hq. destruct (Z.ltb_spec q (ws_weight m)); [eauto|].
    destruct (IH (q - ws_weight m) ltac:(lia)) as [i ->]. simpl. eauto. }
  pose proof (proj1 (pick_of_spec r mix i ltac:(lia) Hw) Hi) as (m & Hm & Hb).
  exists i, m. split; [done|]. split; [done|]. split; [lia|]. intros j m' Hj. split.
  - intros ->. by simplify_eq.
  - intros Hb'. assert (pick_of r mix = Some j) by (apply pick_of_spec; [lia|done|by exists m']). congruence.
Qed.

(** * Why a run stopped *)

Inductive StopReason :=
  | StopReason_ScheduleEnd
  | StopReason_UserCancel
  | StopReason_Lock
  | StopReason_Abort (note : string).

(** [Shared::set_reason] and [record_external], on the locked reason. *)
Definition set_reason (r : StopReason) (reason : option StopReason) : option StopReason :=
  match reason with None => Some r | Some _ => reason end.

Definition record_external (r : StopReason) (reason : option StopReason) : option StopReason :=
  match reason with
  | None | Some StopReason_ScheduleEnd => Some r
  | _ => reason
  end.

Definition reconcile_external (cancelled locked : bool) (reason : option StopReason) : option StopReason :=
  if locked then record_external StopReason_Lock reason
  else if cancelled then record_external StopReason_UserCancel reason
  else reason.

(** The completion [execute_lockable] reports. *)
Definition completion_of (reason : option StopReason) : RunCompletion :=
  match default StopReason_ScheduleEnd reason with
  | StopReason_ScheduleEnd => RunCompletion_Completed
  | StopReason_UserCancel => RunCompletion_CanceledByUser
  | StopReason_Lock => RunCompletion_StoppedByLock
  | StopReason_Abort _ => RunCompletion_AbortedByRule
  end.

(** What the tasks record, in the order they take the lock: the driver the end
    of its schedule, the ticker an abort, the observer a cancel or a lock. *)
Inductive stop_event :=
  | Stop_ScheduleEnd
  | Stop_Abort (note : string)
  | Stop_Cancel
  | Stop_Lock.

Definition stop_apply (reason : option StopReason) (e : stop_event) : option StopReason :=
  match e with
  | Stop_ScheduleEnd => set_reason StopReason_ScheduleEnd reason
  | Stop_Abort note => set_reason (StopReason_Abort note) reason
  | Stop_Cancel => record_external StopReason_UserCancel reason
  | Stop_Lock => record_external StopReason_Lock reason
  end.

Definition is_schedule_end (e : stop_event) : bool := match e with Stop_ScheduleEnd => true | _ => false end.
Definition is_abort (e : stop_event) : bool := match e with Stop_Abort _ => true | _ => false end.

(** The reason an event gives by itself. *)
Definition reason_of (e : stop_event) : StopReason :=
  match e with
  | Stop_ScheduleEnd => StopReason_ScheduleEnd
  | Stop_Abort note => StopReason_Abort note
  | Stop_Cancel => StopReason_UserCancel
  | Stop_Lock => StopReason_Lock
  end.

(** The event that decides: the first one, unless it is the end of the
    schedule, which yields to the first cancel or lock. *)
Definition deciding (es : list stop_event) : option stop_event :=
  match es with
  | [] => None
  | Stop_ScheduleEnd :: es' =>
      Some (default Stop_ScheduleEnd (find (fun e => negb (is_schedule_end e) && negb (is_abort e)) es'))
  | e :: _ => Some e
  end.

Lemma stop_settled r es : r <> StopReason_ScheduleEnd -> fold_left stop_apply es (Some r) = Some r.
Proof.
  intros Hr. induction es as [|e es IH]; [done|]. simpl.
  assert (stop_apply (Some r) e = Some r) as -> by (destruct e, r; done). done.
Qed.

Lemma stop_deciding es : fold_left stop_apply es None = option_map reason_of (deciding es).
Proof.
  destruct es as [|[|note| |] es]; simpl; [done| |by rewrite stop_settled..].
  induction es as [|[|note| |] es IH]; simpl; [done|done|done|by rewrite stop_settled..].
Qed.

(** The recorded stop is that of the first event, except that a cancel or
    a lock replaces the end of the schedule; and with the tokens reconciled
    after the drain, a run that was canceled or locked is never reported as
    completed, while one without a signal is completed exactly when no abort
    came before the end of the schedule. *)
Theorem stop_reason_decides es cancelled locked :
  let reason := fold_left stop_apply es None in
  reason = option_map reason_of (deciding es) /\
  (cancelled = true \/ locked = true ->
    completion_of (reconcile_external cancelled locked reason) <> RunCompletion_Completed) /\
  (Forall (fun e => is_schedule_end e = true \/ is_abort e = true) es ->
    completion_of (reconcile_external false false reason) = RunCompletion_Completed <->
    ~ exists note es', es = Stop_Abort note :: es').
Proof.
  cbv zeta. split; [apply stop_deciding|]. rewrite stop_deciding. split.
  - intros Hs. destruct (deciding es) as [[]|], cancelled, locked; destruct Hs; simpl; done.
  - simpl. intros Hall. destruct es as [|[|note| |] es]; simpl; try (by inversion Hall as [|? ? [] _]).
    + split; [by intros _ (? & ? & ?)|done].
    + apply list.Forall_cons in Hall as [_ Hall].
      assert (find (fun e => negb (is_schedule_end e) && negb (is_abort e)) es = None) as ->.
      { apply find_None_Forall. eapply list.Forall_impl; [exact Hall|]. intros e [-> | ->]; [done|].
        by rewrite andb_false_r. }
      split; [by intros _ (? & ? & ?)|done].
    + split; [done|]. intros Hn. destruct Hn. by exists note, es.
Qed.

(** * The slots of the open workload *)

(** [drive_open]'s pool: the free slots and the slots of the spawned
    iterations; an arrival pops a slot or is dropped, a finished iteration's
    guard pushes its slot back, in any order. *)
Record SlotPool := mkSlotPool {
  pool_free : list nat;
  pool_running : list nat;
  pool_dropped : nat;
}.

Definition SlotPool_new (max_in_flight : nat) : SlotPool :=
  mkSlotPool (rev (seq 0 max_in_flight)) [] 0.

(** One arrival: [free.lock().pop()] takes the last free slot. *)
Definition pool_arrival (p : SlotPool) : SlotPool :=
  match last (pool_free p) with
  | None => mkSlotPool (pool_free p) (pool_running p) (S (pool_dropped p))
  | Some slot => mkSlotPool (removelast (pool_free p)) (slot :: pool_running p) (pool_dropped p)
  end.

(** The iteration of [slot] ends and drops its [SlotGuard]. *)
Definition pool_release (slot : nat) (p : SlotPool) : SlotPool :=
  mkSlotPool (pool_free p ++ [slot]) (filter (fun s => s <> slot) (pool_running p)) (pool_dropped p).

Inductive pool_step : SlotPool -> SlotPool -> Prop :=
  | pool_step_arrival p : pool_step p (pool_arrival p)
  | pool_step_release p slot : slot ∈ pool_running p -> pool_step p (pool_release slot p).

Lemma pool_release_perm slot p : slot ∈ pool_running p -> NoDup (pool_running p) ->
  pool_running p ≡ₚ slot :: pool_running (pool_release slot p).
Proof.
  simpl. induction (pool_running p) as [|s l IH]; [by intros ?%not_elem_of_nil|].
  intros Hin Hnd. apply NoDup_cons in Hnd as [Hs Hnd]. rewrite filter_cons.
  destruct (decide (s <> slot)) as [Hne|Heq].
  - apply elem_of_cons in Hin as [->|Hin]; [done|]. rewrite (IH Hin Hnd) at 1. apply Permutation_swap.
  - assert (s = slot) as -> by (destruct (decide (s = slot)); [done|tauto]). f_equiv.
    assert (filter (fun s => s <> slot) l = l) as ->; [|done].
    clear -Hs. induction l as [|x l IH]; [done|]. apply not_elem_of_cons in Hs as [Hx Hs].
    rewrite filter_cons, decide_True by congruence. by rewrite IH.
Qed.

Lemma pool_inv n p p' : pool_free p ++ pool_running p ≡ₚ seq 0 n -> pool_step p p' ->
  pool_free p' ++ pool_running p' ≡ₚ seq 0 n.
Proof.
  intros Hp. inversion 1 as [q E1 E2|q slot Hin E1 E2]; subst.
  - unfold pool_arrival. destruct (last (pool_free p)) as [slot|] eqn:El; [|done]. simpl.
    apply last_snoc_split in El. rewrite El in Hp. rewrite <- Hp, <- app_assoc. simpl. done.
  - assert (NoDup (pool_running p)) as Hnd.
    { assert (NoDup (pool_free p ++ pool_running p)) as Hnd by (rewrite Hp; apply NoDup_seq).
      by apply NoDup_app in Hnd as (_ & _ & Hnd). }
    rewrite (pool_release_perm slot p Hin Hnd) in Hp. simpl in *. rewrite <- Hp, <- app_assoc. done.
Qed.

(** The open workload never runs more than [max_in_flight] iterations and
    never runs two on one slot, in any order of arrivals and completions; an
    arrival is dropped exactly when that many iterations are in flight. *)
Theorem pool_bounded n p : rtc pool_step (SlotPool_new n) p ->
  NoDup (pool_running p) /\ Forall (fun slot => (slot < n)%nat) (pool_running p) /\
  (length (pool_running p) <= n)%nat /\
  (pool_dropped (pool_arrival p) = S (pool_dropped p) <-> length (pool_running p) = n).
Proof.
  intros Hr. assert (pool_free p ++ pool_running p ≡ₚ seq 0 n) as Hp.
  { remember (SlotPool_new n) as p0 eqn:E0.
    assert (pool_free p0 ++ pool_running p0 ≡ₚ seq 0 n) as H0.
    { subst. simpl. rewrite app_nil_r. symmetry. apply Permutation_rev. }
    clear E0. induction Hr; [done|]. eauto using pool_inv. }
  assert (length (pool_free p) + length (pool_running p) = n)%nat as Hlen.
  { rewrite <- length_app, Hp. apply length_seq. }
  assert (NoDup (pool_free p ++ pool_running p)) as Hnd by (rewrite Hp; apply NoDup_seq).
  apply NoDup_app in Hnd as (_ & _ & Hnd). split; [done|]. split; [|split; [lia|]].
  - apply Forall_forall. intros slot Hin.
    assert (slot ∈ pool_free p ++ pool_running p) as Hs by (apply elem_of_app; by right).
    rewrite Hp in Hs. apply elem_of_seq in Hs. lia.
  - unfold pool_arrival. destruct (pool_free p) as [|s l] eqn:Ef.
    + simpl in *. split; [intros _; lia|done].
    + destruct (last (s :: l)) as [slot|] eqn:El; [|by apply last_None in El]. simpl in *.
      split; [lia|intros; lia].
Qed.

(** * The claims of the fixed workload *)

(** [drive_iterations]: each lane repeats [claimed.fetch_add(1) < iterations]
    until the claim fails or admission is stopped. *)
Record Claims := mkClaims {
  cl_claimed : Z;
  cl_started : Z;
  cl_active : nat;
}.

Definition Claims_new (lanes : nat) : Claims := mkClaims 0 0 lanes.

(** A lane's turn: [stopped] is [admission_stopped]. *)
Definition lane_turn (iterations : Z) (stopped : bool) (c : Claims) : Claims :=
  if stopped then mkClaims (cl_claimed c) (cl_started c) (pred (cl_active c))
  else if cl_claimed c <? iterations
  then mkClaims (cl_claimed c ⊞ 1) (cl_started c + 1) (cl_active c)
  else mkClaims (cl_claimed c ⊞ 1) (cl_started c) (pred (cl_active c)).

Inductive claims_run (iterations : Z) (lanes : nat) : Claims -> bool -> Prop :=
  | claims_run_nil : claims_run iterations lanes (Claims_new lanes) false
  | claims_run_turn c s stopped : claims_run iterations lanes c s -> (0 < cl_active c)%nat ->
      claims_run iterations lanes (lane_turn iterations stopped c) (s || stopped).

Lemma claims_inv iterations lanes c s : 0 <= iterations <= MAX_ITERATIONS -> Z.of_nat lanes <= MAX_CONCURRENCY ->
  claims_run iterations lanes c s ->
  0 <= cl_started c <= iterations /\ (cl_active c <= lanes)%nat /\
  cl_started c <= cl_claimed c <= cl_started c + Z.of_nat (lanes - cl_active c) /\
  (cl_started c < iterations -> cl_claimed c = cl_started c) /\
  (s = false -> (cl_active c < lanes)%nat -> cl_started c = iterations).
Proof.
  unfold MAX_ITERATIONS, MAX_CONCURRENCY. intros Hi Hl. induction 1 as [|c s stopped Hr IH Ha].
  { simpl. rewrite Nat.sub_diag. repeat split; intros; lia. }
  destruct IH as (H1 & H2 & H3 & H4 & H5). unfold lane_turn.
  assert (cl_started c = iterations \/ cl_claimed c = cl_started c) as Hcase
    by (destruct (Z.eq_dec (cl_started c) iterations); [by left|right; apply H4; lia]).
  destruct stopped; simpl; [rewrite orb_true_r; repeat split; intros; lia || done|].
  rewrite orb_false_r, add64_small by lia.
  destruct (Z.ltb_spec (cl_claimed c) iterations); simpl; repeat split; intros; try lia.
  match goal with Hs : s = false |- _ => specialize (H5 Hs ltac:(lia)) end. lia.
Qed.

(** However the lanes interleave, a fixed workload starts at most
    [iterations] iterations, and exactly that many when the lanes ran out of
    work without being stopped. *)
Theorem iterations_exact iterations lanes c s :
  0 <= iterations <= MAX_ITERATIONS -> (0 < lanes)%nat -> Z.of_nat lanes <= MAX_CONCURRENCY ->
  claims_run iterations lanes c s ->
  cl_started c <= iterations /\ (s = false -> cl_active c = 0%nat -> cl_started c = iterations).
Proof.
  intros Hi Hpos Hl Hr. destruct (claims_inv _ _ _ _ Hi Hl Hr) as (H1 & H2 & _ & _ & H5).
  split; [lia|]. intros Hs Ha. apply H5; lia || done.
Qed.

(** * Witnesses *)

Definition demo_id : Id := mkId 1.

Definition demo_mix : list WeightedStep := [mkWeightedStep demo_id 3; mkWeightedStep (mkId 2) 0; mkWeightedStep (mkId 3) 1].

Definition demo_plan : LoadPlan := {|
  lp_id := demo_id; lp_workspace_id := demo_id; lp_name := "ramp";
  lp_workload := Workload_OpenArrivalRate [mkStage 0 50; mkStage 60 50] 100;
  lp_chain := []; lp_mix := demo_mix; lp_dataset_id := None; lp_environment_id := None;
  lp_connection_mode := ConnectionMode_Persistent; lp_warmup_secs := 10;
  lp_abort := Some (mkAbortRule 100 5); lp_seed := 42; lp_trusted := true;
  lp_created_at := mkDateTime 0; lp_updated_at := mkDateTime 0;
|}.

Lemma validate_workload_Ok_witness :
  validate_workload demo_plan = Ok (mkWorkloadLimits 100 60).
Proof.
  apply validate_workload_Ok.
  - repeat constructor; simpl; lia.
  - split; [|split; [|split; [|done]]].
    + split; [|simpl; unfold MAX_IN_FLIGHT; lia]. split; [simpl; unfold MAX_DURATION_SECS; lia|].
      split; [repeat constructor; simpl; unfold MAX_RATE_PER_SEC; lia|]. constructor. simpl. lia.
    + intros _. simpl. lia.
    + intros a [= <-]. simpl. lia.
Defined.

Lemma pick_weighted_proportional_witness :
  exists i, pick_weighted 42 (cumulative_from 0 demo_mix) 7 = Some i /\ i <> 1%nat.
Proof.
  destruct (pick_weighted_proportional 42 demo_mix 7) as (i & m & E & Hm & Hpos & _).
  - split; [repeat constructor; simpl; lia|reflexivity].
  - reflexivity.
  - exists i. split; [exact E|]. intros ->. simpl in Hm. injection Hm as <-. simpl in Hpos. lia.
Defined.

Lemma stop_reason_decides_witness :
  completion_of (reconcile_external true false (fold_left stop_apply [Stop_ScheduleEnd] None)) <> RunCompletion_Completed.
Proof. apply (stop_reason_decides [Stop_ScheduleEnd] true false). by left. Defined.

Lemma pool_bounded_witness :
  pool_dropped (pool_arrival (pool_arrival (SlotPool_new 1))) = 1%nat.
Proof.
  apply (proj2 (proj2 (proj2 (proj2 (pool_bounded 1 (pool_arrival (SlotPool_new 1))
    (rtc_once _ _ (pool_step_arrival _))))))). reflexivity.
Defined.

Lemma iterations_exact_witness : cl_started (lane_turn 1 false (lane_turn 1 false (Claims_new 1))) = 1.
Proof.
  apply (iterations_exact 1 1 (lane_turn 1 false (lane_turn 1 false (Claims_new 1))) false).
  - by vm_compute.
  - lia.
  - by vm_compute.
  - change false with ((false || false) || false)%bool. repeat constructor.
  - reflexivity.
  - reflexivity.
Defined.
