(* ===== verification/Dataset.v ===== *)
(** Datasets (crates/anvil-load/src/dataset.rs): the matrix built from JSON
    rows under its bounds, and the variable layer an iteration sees.

    JSON and CSV are decoded by crates (serde_json, csv): the rows and records
    they yield, and the decoding of a JSON string, are arguments here. Errors
    are the messages the visitors raise. *)
From Stdlib Require Import ZArith Lia Ascii String.
From stdpp Require Import base numbers strings pretty option list.
From S2P Require Import Prelude Text Vars.
Open Scope string_scope.
Open Scope list_scope.
Open Scope Z_scope.

Definition MAX_ROWS : Z := 1000000.
Definition MAX_COLUMNS : Z := 256.
Definition MAX_CELL_BYTES : Z := 1024 * 1024.
Definition MAX_CELLS : Z := 4 * 1024 * 1024.

Record DatasetLimits := mkDatasetLimits {
  dl_max_rows : Z;
  dl_max_cells : Z;
}.

(** [DatasetLimits::capped]. *)
Definition capped (l : DatasetLimits) : DatasetLimits :=
  mkDatasetLimits (Z.min (dl_max_rows l) MAX_ROWS) (Z.min (dl_max_cells l) MAX_CELLS).

Record Dataset := mkDataset {
  ds_columns : list string;
  ds_rows : list (list (option string));
  ds_sensitive_columns : list string;
}.

Abbreviation zlen l := (Z.of_nat (List.length l)).

(** * Columns and cells *)

Definition check_column_name (column : string) (index : Z) : result unit string :=
  if str_is_empty column then Err ("dataset column " +:+ pretty (index + 1) +:+ " has an empty name")
  else if str_contains column "{{" || str_contains column "}}" then
    Err ("dataset column '" +:+ column +:+ "' contains template braces")
  else Ok tt.

(** The loop of [check_columns]; [seen] are the keys of its index map. *)
Fixpoint check_columns_from (seen : list string) (index : Z) (cols : list string) : result unit string :=
  match cols with
  | [] => Ok tt
  | column :: cols' =>
      let? _ := check_column_name column index in
      if bool_decide (column ∈ seen) then Err ("dataset column '" +:+ column +:+ "' is duplicated")
      else check_columns_from (column :: seen) (index + 1) cols'
  end.

Definition check_columns (cols : list string) : result unit string :=
  if MAX_COLUMNS <? zlen cols then
    Err ("dataset has " +:+ pretty (zlen cols) +:+ " columns; the limit is " +:+ pretty MAX_COLUMNS)
  else check_columns_from [] 0 cols.

(** [check_cells]; [checked_mul] on 64-bit [usize]. *)
Definition check_cells (rows columns : Z) (limits : DatasetLimits) : result unit string :=
  if (rows * columns <=? U64_MAX) && (rows * columns <=? dl_max_cells limits) then Ok tt
  else Err ("dataset has " +:+ pretty rows +:+ " rows of " +:+ pretty columns +:+ " columns; the limit is "
    +:+ pretty (dl_max_cells limits) +:+ " cells (rows × columns)").

(** The records of a CSV file with its (trimmed) headers ([parse_csv]). *)
Fixpoint csv_rows (limits : DatasetLimits) (columns : list string) (records : list (list string))
    (rows : list (list (option string))) : result (list (list (option string))) string :=
  match records with
  | [] => Ok rows
  | rec :: records' =>
      if dl_max_rows limits <=? zlen rows then
        Err ("dataset has more than " +:+ pretty (dl_max_rows limits) +:+ " rows")
      else
        let? _ := check_cells (zlen rows + 1) (zlen columns) limits in
        csv_rows limits columns records' (rows ++ [map Some rec])
  end.

Definition parse_csv (limits : DatasetLimits) (headers : list string) (records : list (list string))
    : result (list string * list (list (option string))) string :=
  let columns := map trim headers in
  let? _ := check_columns columns in
  let? rows := csv_rows limits columns records [] in
  Ok (columns, rows).

(** * JSON cells and rows *)

(** [u8::is_ascii_whitespace]. *)
Definition is_ascii_whitespace (c : ascii) : bool :=
  let n := byte_of c in ((n =? 32) || (n =? 9) || (n =? 10) || (n =? 12) || (n =? 13))%nat.

Definition quote : ascii := "034".
Definition backslash : ascii := "092".

(** [compact_json], byte by byte (every byte it looks for is ASCII). *)
Fixpoint compact_json (in_string escaped : bool) (raw : string) : string :=
  match raw with
  | "" => ""
  | String ch raw' =>
      if in_string then
        String ch
          (if escaped then compact_json true false raw'
           else if Ascii.eqb ch backslash then compact_json true true raw'
           else if Ascii.eqb ch quote then compact_json false false raw'
           else compact_json true false raw')
      else if Ascii.eqb ch quote then String ch (compact_json true false raw')
      else if is_ascii_whitespace ch then compact_json false false raw'
      else String ch (compact_json false false raw')
  end.

Section Json.
(** [serde_json::from_str::<String>]. *)
Context (json_string : string -> option string).

Definition cell_text (raw : string) : result string string :=
  if String.eqb raw "null" then Ok ""
  else match raw with
  | String c _ =>
      if Ascii.eqb c quote then ok_or (json_string raw) "dataset JSON contains an invalid string cell"
      else Ok (compact_json false false raw)
  | "" => Ok ""
  end.

(** [values[*index].1 = text] for the entry of [key]. *)
Fixpoint set_value (key text : string) (values : list (string * string)) : list (string * string) :=
  match values with
  | [] => []
  | (k, t) :: values' => if String.eqb k key then (k, text) :: values' else (k, t) :: set_value key text values'
  end.

(** [JsonRowVisitor::visit_map] over the decoded keys and raw values. *)
Fixpoint visit_map (entries : list (string * string)) (values : list (string * string))
    : result (list (string * string)) string :=
  match entries with
  | [] => Ok values
  | (key, raw) :: entries' =>
      if MAX_CELL_BYTES <? str_len raw then
        Err ("dataset JSON cell exceeds the 1 MiB limit (" +:+ pretty MAX_CELL_BYTES +:+ " bytes)")
      else
        let? text := cell_text raw in
        if bool_decide (key ∈ values.*1) then visit_map entries' (set_value key text values)
        else if MAX_COLUMNS <=? zlen values then
          Err ("dataset has more than " +:+ pretty MAX_COLUMNS +:+ " distinct keys")
        else visit_map entries' (values ++ [(key, text)])
  end.

(** The loop of [visit_seq] over the keys of a row: new keys become columns,
    and every previous row gets an absent cell for each. *)
Fixpoint add_columns (limits : DatasetLimits) (row_index : Z) (row : list (string * string))
    (columns : list string) (rows : list (list (option string)))
    : result (list string * list (list (option string))) string :=
  match row with
  | [] => Ok (columns, rows)
  | (key, _) :: row' =>
      if bool_decide (key ∈ columns) then add_columns limits row_index row' columns rows
      else if MAX_COLUMNS <=? zlen columns then
        Err ("dataset has more than " +:+ pretty MAX_COLUMNS +:+ " distinct keys")
      else
        let? _ := check_column_name key (zlen columns) in
        let? _ := check_cells row_index (zlen columns + 1) limits in
        add_columns limits row_index row' (columns ++ [key]) (map (fun previous => previous ++ [None]) rows)
  end.

(** The position of a column ([column_indexes]). *)
Fixpoint index_of (key : string) (columns : list string) : option nat :=
  match columns with
  | [] => None
  | c :: columns' => if String.eqb c key then Some 0%nat else option_map S (index_of key columns')
  end.

(** The cells of a row: [values[index] = Some(value)] for each of its keys. *)
Definition row_cells (columns : list string) (row : list (string * string)) : list (option string) :=
  fold_left (fun values kv =>
      match index_of kv.1 columns with
      | Some index => <[index := Some kv.2]> values
      | None => values
      end)
    row (replicate (List.length columns) None).

(** [JsonDatasetVisitor::visit_seq] over the decoded objects. *)
Fixpoint visit_seq (limits : DatasetLimits) (objects : list (list (string * string)))
    (columns : list string) (rows : list (list (option string)))
    : result (list string * list (list (option string))) string :=
  match objects with
  | [] => Ok (columns, rows)
  | entries :: objects' =>
      if dl_max_rows limits <=? zlen rows then
        Err ("dataset has more than " +:+ pretty (dl_max_rows limits) +:+ " rows")
      else
        let? row := visit_map entries [] in
        let? (columns, rows) := add_columns limits (zlen rows + 1) row columns rows in
        let? _ := check_cells (zlen rows + 1) (zlen columns) limits in
        visit_seq limits objects' columns (rows ++ [row_cells columns row])
  end.

(** [parse_json] after decoding. *)
Definition parse_json (limits : DatasetLimits) (objects : list (list (string * string)))
    : result (list string * list (list (option string))) string :=
  visit_seq limits objects [] [].
End Json.

(** * Rows as variables *)

(** [Dataset::with_sensitive_columns]. *)
Definition with_sensitive_columns (d : Dataset) (cols : list string) : result Dataset string :=
  match find (fun c => negb (bool_decide (c ∈ ds_columns d))) cols with
  | Some c => Err ("dataset has no column named '" +:+ c +:+ "' (listed as sensitive)")
  | None => Ok (mkDataset (ds_columns d) (ds_rows d) cols)
  end.

(** [Dataset::row_index]; a dataset has at least one row. *)
Definition row_index (d : Dataset) (iteration : Z) : nat := Z.to_nat (iteration mod zlen (ds_rows d)).

(** [Dataset::row_layer]; [None] where indexing panics. *)
Definition row_layer (d : Dataset) (iteration : Z) : option VarLayer :=
  let i := row_index d iteration in
  row ← ds_rows d !! i;
  Some (mkVarLayer ("dataset row " +:+ pretty (Z.of_nat i + 1))
    (base.omap (fun cv => option_map (fun v =>
        mkVarEntry cv.1 v (bool_decide (cv.1 ∈ ds_sensitive_columns d)) true) cv.2)
      (zip (ds_columns d) row))).

(** * The matrix *)

(** The value a row gives a key: the text of its last occurrence. *)
Definition cell_of (json_string : string -> option string) (key : string) (entries : list (string * string))
    : option string :=
  fold_left (fun acc kv => if String.eqb kv.1 key then
      (match cell_text json_string kv.2 with Ok t => Some t | Err _ => acc end) else acc) entries None.

Definition assoc (key : string) (row : list (string * string)) : option string :=
  option_map snd (find (fun kv => String.eqb kv.1 key) row).

Lemma set_value_keys key text values : (set_value key text values).*1 = values.*1.
Proof. induction values as [|[k t] values IH]; simpl; [done|]. destruct (String.eqb k key); simpl; [done|by f_equal]. Qed.

Lemma assoc_set_value key text values k : key ∈ values.*1 ->
  assoc k (set_value key text values) = if String.eqb key k then Some text else assoc k values.
Proof.
  unfold assoc. induction values as [|[k' t] values IH]; simpl; [by intros ?%not_elem_of_nil|].
  intros Hin. destruct (String.eqb_spec k' key) as [->|Hne]; simpl.
  - destruct (String.eqb_spec key k); done.
  - apply elem_of_cons in Hin as [->|Hin]; [done|]. specialize (IH Hin).
    destruct (String.eqb_spec k' k) as [->|]; [|done]. destruct (String.eqb_spec key k); congruence.
Qed.

Lemma assoc_snoc key text values k : key ∉ values.*1 ->
  assoc k (values ++ [(key, text)]) = if String.eqb key k then Some text else assoc k values.
Proof.
  unfold assoc. induction values as [|[k' t] values IH]; simpl.
  - intros _. destruct (String.eqb key k); done.
  - intros Hin. apply not_elem_of_cons in Hin as [Hne Hin]. specialize (IH Hin).
    destruct (String.eqb_spec k' k) as [->|]; [|done]. destruct (String.eqb_spec key k); congruence.
Qed.

Lemma visit_map_spec js entries values row : visit_map js entries values = Ok row -> NoDup values.*1 ->
  zlen values <= MAX_COLUMNS ->
  NoDup row.*1 /\ zlen row <= MAX_COLUMNS /\ (forall k, k ∈ row.*1 <-> k ∈ values.*1 \/ k ∈ entries.*1) /\
  (forall k, assoc k row = fold_left (fun acc kv => if String.eqb kv.1 k then
      (match cell_text js kv.2 with Ok t => Some t | Err _ => acc end) else acc) entries (assoc k values)).
Proof.
  revert values. induction entries as [|[key raw] entries IH]; intros values; simpl.
  { intros [= <-] Hnd Hlen. split; [done|]. split; [done|].
    split; [|done]. intros k. split; [by left|]. intros [?|?%not_elem_of_nil]; done. }
  destruct (_ <? _); [done|]. intros (text & Ht & Hrest)%result_bind_Ok Hnd Hlen. rewrite Ht.
  destruct (bool_decide (key ∈ values.*1)) eqn:Ek.
  - apply bool_decide_eq_true in Ek.
    destruct (IH _ Hrest) as (H1 & H2 & H3 & H4); [by rewrite set_value_keys| |].
    { pose proof (f_equal List.length (set_value_keys key text values)) as El. rewrite !length_fmap in El. by rewrite El. }
    split; [done|]. split; [done|]. split.
    + intros k. rewrite H3, set_value_keys, elem_of_cons. naive_solver.
    + intros k. rewrite H4, assoc_set_value by done. done.
  - apply bool_decide_eq_false in Ek. destruct (Z.leb_spec MAX_COLUMNS (zlen values)); [done|].
    destruct (IH _ Hrest) as (H1 & H2 & H3 & H4).
    { rewrite fmap_app. simpl. apply NoDup_app. split; [done|]. split; [|apply NoDup_singleton].
      intros x Hx Hin. apply list_elem_of_singleton in Hin. by subst. }
    { rewrite length_app. simpl. lia. }
    split; [done|]. split; [done|]. split.
    + intros k. rewrite H3, fmap_app. simpl. rewrite elem_of_app, list_elem_of_singleton, elem_of_cons. naive_solver.
    + intros k. rewrite H4, assoc_snoc by done. done.
Qed.

Lemma add_columns_spec limits ri row columns rows columns' rows' :
  add_columns limits ri row columns rows = Ok (columns', rows') -> NoDup columns -> zlen columns <= MAX_COLUMNS ->
  exists new, columns' = columns ++ new /\ rows' = map (fun p => p ++ replicate (List.length new) None) rows /\
    NoDup columns' /\ zlen columns' <= MAX_COLUMNS /\ (forall k, k ∈ row.*1 -> k ∈ columns') /\
    (forall k, k ∈ new -> k ∈ row.*1).
Proof.
  revert columns rows. induction row as [|[key t] row IH]; intros columns rows; simpl.
  { intros [= <- <-] Hnd Hlen. exists []. rewrite app_nil_r. split; [done|]. split.
    - symmetry. rewrite <- (map_id rows) at 2. apply map_ext. intros p. by rewrite app_nil_r.
    - split; [done|]. split; [done|]. split; by intros k ?%not_elem_of_nil. }
  destruct (bool_decide (key ∈ columns)) eqn:Ek.
  - apply bool_decide_eq_true in Ek. intros Ha Hnd Hlen.
    destruct (IH _ _ Ha Hnd Hlen) as (new & -> & -> & H1 & H2 & H3 & H4). exists new.
    do 4 (split; [done|]). split; [|intros k Hk; right; by apply H4].
    intros k [->|Hk]%elem_of_cons; [|by apply H3]. apply elem_of_app. by left.
  - apply bool_decide_eq_false in Ek. destruct (Z.leb_spec MAX_COLUMNS (zlen columns)); [done|].
    intros (u & _ & Ha)%result_bind_Ok Hnd Hlen. apply result_bind_Ok in Ha as (u' & _ & Ha).
    destruct (IH _ _ Ha) as (new & E1 & E2 & H1 & H2 & H3 & H4).
    { apply NoDup_app. split; [done|]. split; [|apply NoDup_singleton].
      intros x Hx Hin. apply list_elem_of_singleton in Hin. by subst. }
    { rewrite length_app. simpl. lia. }
    exists (key :: new). rewrite E1 in *. rewrite <- app_assoc in *. simpl in *. split; [done|]. split.
    { rewrite E2, map_map. apply map_ext. intros p. by rewrite <- app_assoc. }
    split; [done|]. split; [done|]. split.
    + intros k [->|Hk]%elem_of_cons; [|by apply H3]. apply elem_of_app. right. left.
    + intros k [->|Hk]%elem_of_cons; [left|right; by apply H4].
Qed.

Lemma index_of_spec key columns : NoDup columns ->
  match index_of key columns with
  | Some i => columns !! i = Some key
  | None => key ∉ columns
  end.
Proof.
  induction 1 as [|c columns Hc Hnd IH]; simpl; [by apply not_elem_of_nil|].
  destruct (String.eqb_spec c key) as [->|Hne]; [done|].
  destruct (index_of key columns); simpl; [done|]. apply not_elem_of_cons. split; congruence.
Qed.

Lemma row_cells_spec columns row : NoDup columns -> NoDup row.*1 ->
  List.length (row_cells columns row) = List.length columns /\
  forall c key, columns !! c = Some key -> row_cells columns row !! c = Some (assoc key row).
Proof.
  intros Hnd Hrow. unfold row_cells.
  cut (forall values, List.length values = List.length columns ->
    (forall c key, columns !! c = Some key -> key ∈ row.*1 -> values !! c = Some None) ->
    let out := fold_left (fun values kv => match index_of kv.1 columns with
      | Some index => <[index := Some kv.2]> values | None => values end) row values in
    List.length out = List.length columns /\
    forall c key, columns !! c = Some key -> out !! c = if bool_decide (key ∈ row.*1) then Some (assoc key row) else values !! c).
  { intros Hcut. destruct (Hcut (replicate (List.length columns) None)) as [H1 H2].
    - apply length_replicate.
    - intros c key Hc _. apply lookup_replicate_2. by eapply lookup_lt_Some.
    - split; [done|]. intros c key Hc. rewrite (H2 c key Hc). case_bool_decide as Hin; [done|].
      rewrite lookup_replicate_2 by by eapply lookup_lt_Some. f_equal. unfold assoc.
      destruct (find _ row) as [[k t]|] eqn:E; [|done]. exfalso. apply find_some in E as [Hf Hk].
      apply String.eqb_eq in Hk. simpl in Hk. subst. apply Hin.
      change key with ((key, t).1). apply list_elem_of_fmap_2. by apply list_elem_of_In. }
  induction row as [|[k t] row IH]; intros values Hlen Hnone; cbn [fold_left fmap list_fmap fst snd].
  { split; [done|]. intros c key Hc. rewrite bool_decide_eq_false_2; [done|]. apply not_elem_of_nil. }
  apply NoDup_cons in Hrow as [Hk Hrow]. pose proof (index_of_spec k columns Hnd) as Hi.
  destruct (index_of k columns) as [i|].
  - destruct (IH Hrow (<[i:=Some t]> values)) as [H1 H2].
    { by rewrite length_insert. }
    { intros c key Hc Hin. rewrite list_lookup_insert_ne; [apply (Hnone c key Hc); by right|].
      intros ->. rewrite Hi in Hc. by simplify_eq. }
    split; [done|]. intros c key Hc. rewrite (H2 c key Hc). unfold assoc. simpl.
    destruct (String.eqb_spec k key) as [->|Hne].
    + rewrite (bool_decide_eq_false_2 _ Hk). rewrite bool_decide_eq_true_2 by apply list_elem_of_here.
      assert (c = i) as -> by exact (NoDup_lookup _ _ _ _ Hnd Hc Hi).
      apply list_lookup_insert_eq. rewrite Hlen. by eapply lookup_lt_Some.
    + assert (bool_decide (key ∈ k :: row.*1) = bool_decide (key ∈ row.*1)) as ->.
      { apply bool_decide_ext. rewrite elem_of_cons. split; [intros [->|?]; done|by right]. }
      rewrite list_lookup_insert_ne; [done|]. intros ->. congruence.
  - destruct (IH Hrow values Hlen) as [H1 H2].
    { intros c key Hc Hin. apply (Hnone c key Hc). by right. }
    split; [done|]. intros c key Hc. rewrite (H2 c key Hc). unfold assoc. simpl.
    assert (k <> key) as Hne by (intros ->; apply Hi; by eapply list_elem_of_lookup_2).
    rewrite (proj2 (String.eqb_neq k key) Hne).
    assert (bool_decide (key ∈ k :: row.*1) = bool_decide (key ∈ row.*1)) as ->; [|done].
    apply bool_decide_ext. rewrite elem_of_cons. split; [intros [->|?]; done|by right].
Qed.

(** The matrix of the objects read so far. *)
Record matrix_ok (js : string -> option string) (limits : DatasetLimits) (objects : list (list (string * string)))
    (columns : list string) (rows : list (list (option string))) : Prop := {
  mo_columns : NoDup columns;
  mo_width : zlen columns <= MAX_COLUMNS;
  mo_rows : Forall2 (fun entries row => List.length row = List.length columns /\
      (forall c key, columns !! c = Some key -> row !! c = Some (cell_of js key entries)) /\
      (forall k, k ∈ entries.*1 -> k ∈ columns)) objects rows;
  mo_height : rows <> [] -> zlen rows <= dl_max_rows limits /\ zlen rows * zlen columns <= dl_max_cells limits;
}.

Lemma cell_of_absent js key entries : key ∉ entries.*1 -> cell_of js key entries = None.
Proof.
  unfold cell_of. generalize (@None string) as acc.
  induction entries as [|[k raw] entries IH]; intros acc Hin; simpl; [done|].
  apply not_elem_of_cons in Hin as [Hne Hin]. simpl in Hne.
  rewrite (proj2 (String.eqb_neq k key)) by (intros ->; done). by apply IH.
Qed.

Lemma matrix_step js limits objects columns rows entries row columns' rows' :
  matrix_ok js limits objects columns rows -> visit_map js entries [] = Ok row ->
  zlen rows < dl_max_rows limits ->
  add_columns limits (zlen rows + 1) row columns rows = Ok (columns', rows') ->
  check_cells (zlen rows' + 1) (zlen columns') limits = Ok tt ->
  matrix_ok js limits (objects ++ [entries]) columns' (rows' ++ [row_cells columns' row]).
Proof.
  intros [Hnd Hw Hr Hh] Hv Hlt Ha Hc.
  destruct (visit_map_spec js entries [] row Hv ltac:(constructor) ltac:(by vm_compute)) as (Hndr & _ & Hkeys & Hassoc).
  destruct (add_columns_spec _ _ _ _ _ _ _ Ha Hnd Hw) as (new & -> & -> & Hnd' & Hw' & Hin & Hnew).
  destruct (row_cells_spec (columns ++ new) row Hnd' Hndr) as [Hl Hcells].
  split; [done|done| |].
  - apply Forall2_app.
    + apply Forall2_fmap_r. eapply Forall2_impl; [exact Hr|]. intros es r (H1 & H2 & H3). split; [|split].
      * rewrite !length_app, length_replicate. lia.
      * intros c key Hcol. destruct (decide (c < List.length columns)%nat) as [Hlc|Hlc].
        -- rewrite lookup_app_l in Hcol by done. rewrite lookup_app_l by lia. by apply H2.
        -- rewrite lookup_app_r in Hcol by lia. rewrite lookup_app_r by lia. rewrite H1.
           rewrite lookup_replicate_2 by by eapply lookup_lt_Some. f_equal. symmetry. apply cell_of_absent.
           intros Hk%H3. apply NoDup_app in Hnd' as (_ & Hdisj & _). apply (Hdisj key Hk).
           by eapply list_elem_of_lookup_2.
      * intros k Hk%H3. apply elem_of_app. by left.
    + constructor; [|constructor]. split; [done|]. split.
      * intros c key Hcol. rewrite (Hcells c key Hcol), Hassoc. done.
      * intros k Hk. apply Hin, Hkeys. by right.
  - intros _. unfold check_cells in Hc. destruct (_ && _) eqn:Eb; [|done].
    apply andb_true_iff in Eb as [_ Eb]. apply Z.leb_le in Eb.
    rewrite length_map in Eb. rewrite (length_app (map _ rows)), length_map, Nat2Z.inj_add. simpl (Z.of_nat (List.length [_])).
    split; [lia|exact Eb].
Qed.

Lemma visit_seq_matrix js limits objects objects0 columns rows columns' rows' :
  matrix_ok js limits objects0 columns rows ->
  visit_seq js limits objects columns rows = Ok (columns', rows') ->
  matrix_ok js limits (objects0 ++ objects) columns' rows'.
Proof.
  revert objects0 columns rows. induction objects as [|entries objects IH]; intros objects0 columns rows Hm; simpl.
  { intros [= <- <-]. by rewrite app_nil_r. }
  destruct (Z.leb_spec (dl_max_rows limits) (zlen rows)); [done|].
  intros (row & Hv & Hrest)%result_bind_Ok. apply result_bind_Ok in Hrest as ([columns1 rows1] & Ha & Hrest).
  apply result_bind_Ok in Hrest as ([] & Hc & Hrest).
  change (entries :: objects) with ([entries] ++ objects). rewrite app_assoc.
  eapply IH; [|exact Hrest]. by eapply matrix_step.
Qed.

(** A JSON dataset is read into a rectangular matrix within its bounds:
    one row per object and one column per distinct key, and the cell of a row
    under a column is the text of that key in that object, or absent when the
    object has no such key, whenever the column was first seen. *)
Theorem parse_json_matrix js limits objects columns rows :
  parse_json js limits objects = Ok (columns, rows) ->
  NoDup columns /\ zlen columns <= MAX_COLUMNS /\ List.length rows = List.length objects /\
  (rows <> [] -> zlen rows <= dl_max_rows limits /\ zlen rows * zlen columns <= dl_max_cells limits) /\
  (forall r entries, objects !! r = Some entries -> exists row, rows !! r = Some row /\
    List.length row = List.length columns /\ (forall k, k ∈ entries.*1 -> k ∈ columns) /\
    forall c key, columns !! c = Some key -> row !! c = Some (cell_of js key entries)).
Proof.
  intros Hp. assert (matrix_ok js limits ([] ++ objects) columns rows) as [H1 H2 H3 H4].
  { eapply visit_seq_matrix; [|exact Hp]. split; [constructor|by vm_compute|constructor|done]. }
  split; [done|]. split; [done|]. split; [symmetry; by eapply Forall2_length|]. split; [done|].
  intros r entries He. destruct (Forall2_lookup_l _ _ _ _ _ H3 He) as (row & Hrow & Hl & Hc & Hk). eauto.
Qed.

(** ** Columns *)

Lemma check_columns_from_Ok seen index cols : check_columns_from seen index cols = Ok tt <->
  Forall (fun c => c <> "" /\ str_contains c "{{" = false /\ str_contains c "}}" = false) cols /\
  NoDup cols /\ Forall (fun c => c ∉ seen) cols.
Proof.
  revert seen index. induction cols as [|c cols IH]; intros seen index; simpl.
  { split; [intros _; split; [constructor|split; constructor]|done]. }
  rewrite !list.Forall_cons, NoDup_cons. unfold check_column_name.
  destruct (str_is_empty c) eqn:Ee; simpl.
  { split; [done|]. intros (((Hn & _) & _) & _). by destruct c. }
  assert (c <> "") as Hne by by intros ->.
  destruct (str_contains c "{{"); simpl; [split; [done|intros (((_ & ? & _) & _) & _); done]|].
  destruct (str_contains c "}}"); simpl; [split; [done|intros (((_ & _ & ?) & _) & _); done]|].
  case_bool_decide as Hin; [split; [done|intros (_ & _ & [? _]); done]|]. rewrite IH. split.
  - intros (H1 & H2 & H3). split; [done|]. split.
    + split; [|done]. intros Hc. apply (proj1 (Forall_forall _ _) H3) in Hc. apply Hc. left.
    + split; [done|]. eapply list.Forall_impl; [exact H3|]. intros x Hx Hs. apply Hx. by right.
  - intros ((_ & H1) & (Hc & H2) & (_ & H3)).
    split; [done|]. split; [done|]. apply Forall_forall. intros x Hx [->|Hs]%elem_of_cons; [done|].
    by apply (proj1 (Forall_forall _ _) H3 x Hx).
Qed.

(** The columns of a CSV dataset are accepted exactly when there are at
    most [MAX_COLUMNS], none is empty, none could be read as a template and no
    two are equal. *)
Theorem check_columns_Ok cols : check_columns cols = Ok tt <->
  zlen cols <= MAX_COLUMNS /\ NoDup cols /\
  Forall (fun c => c <> "" /\ str_contains c "{{" = false /\ str_contains c "}}" = false) cols.
Proof.
  unfold check_columns. destruct (Z.ltb_spec MAX_COLUMNS (zlen cols)).
  - split; [done|]. intros [? _]. lia.
  - rewrite check_columns_from_Ok. split; [tauto|]. intros (_ & ? & ?). split; [done|]. split; [done|].
    apply Forall_forall. intros x _. apply not_elem_of_nil.
Qed.

(** ** Row layers *)

Definition rectangular (d : Dataset) : Prop :=
  ds_rows d <> [] /\ Forall (fun row => List.length row = List.length (ds_columns d)) (ds_rows d).

(** Every iteration has a row, the rows cycle in order, and the layer
    defines exactly the columns present in the row, as literal data, secret
    exactly when the column is marked sensitive. *)
Theorem row_layer_exact d iteration : rectangular d -> 0 <= iteration ->
  exists row layer, ds_rows d !! Z.to_nat (iteration mod zlen (ds_rows d)) = Some row /\
    row_layer d iteration = Some layer /\ row_layer d (iteration + zlen (ds_rows d)) = Some layer /\
    forall entry, entry ∈ vl_vars layer <->
      exists c value, ds_columns d !! c = Some (ve_name entry) /\ row !! c = Some (Some value) /\
        entry = mkVarEntry (ve_name entry) value (bool_decide (ve_name entry ∈ ds_sensitive_columns d)) true.
Proof.
  intros [Hne Hrect] Hit.
  assert (0 < zlen (ds_rows d)) as Hpos by (destruct (ds_rows d); [done|simpl; lia]).
  pose proof (Z.mod_pos_bound iteration _ Hpos) as Hb.
  destruct (lookup_lt_is_Some_2 (ds_rows d) (Z.to_nat (iteration mod zlen (ds_rows d))) ltac:(lia)) as [row Hrow].
  assert (row_index d (iteration + zlen (ds_rows d)) = row_index d iteration) as Ecycle.
  { unfold row_index. f_equal. rewrite <- (Z.mul_1_l (zlen (ds_rows d))) at 1. apply Z.mod_add. lia. }
  eexists row, _. split; [done|]. unfold row_layer. rewrite Ecycle. unfold row_index. rewrite Hrow. simpl.
  split; [done|]. split; [done|]. intros entry. simpl. rewrite list_elem_of_omap. split.
  - intros ([col cell] & Hin & He). simpl in He. destruct cell as [v|]; [|done]. injection He as <-. simpl.
    apply list_elem_of_lookup in Hin as [c Hc]. apply lookup_zip_with_Some in Hc as (x & y & [= <- <-] & Hx & Hy).
    by exists c, v.
  - intros (c & v & Hc & Hv & E). exists (ve_name entry, Some v). split; [|simpl; by rewrite <- E].
    apply list_elem_of_lookup. exists c. apply lookup_zip_with_Some. by exists (ve_name entry), (Some v).
Qed.

(** * Witnesses *)

Definition demo_limits : DatasetLimits := capped (mkDatasetLimits 10 100).

Definition demo_objects : list (list (string * string)) :=
  [[("id", "1"); ("ok", "true")]; [("id", "2"); ("tag", "{ }"); ("id", "3")]].

Lemma parse_json_matrix_witness :
  parse_json (fun _ => None) demo_limits demo_objects =
    Ok (["id"; "ok"; "tag"], [[Some "1"; Some "true"; None]; [Some "3"; None; Some "{}"]]) /\
  NoDup ["id"; "ok"; "tag"].
Proof.
  split; [by vm_compute|].
  by apply (parse_json_matrix (fun _ => None) demo_limits demo_objects ["id"; "ok"; "tag"]
    [[Some "1"; Some "true"; None]; [Some "3"; None; Some "{}"]]).
Defined.

Definition demo_dataset : Dataset :=
  mkDataset ["user"; "token"] [[Some "alice"; Some "a1"]; [Some "bob"; None]] ["token"].

Lemma row_layer_exact_witness :
  row_layer demo_dataset 3 = row_layer demo_dataset 1 /\
  row_layer demo_dataset 1 = Some (mkVarLayer "dataset row 2" [mkVarEntry "user" "bob" false true]).
Proof.
  split; [|by vm_compute].
  destruct (row_layer_exact demo_dataset 1) as (row & layer & _ & E1 & E2 & _).
  - split; [done|]. repeat constructor.
  - lia.
  - by rewrite E1, <- E2.
Defined.
