(* ===== verification/Iteration.v ===== *)
(** One iteration of a load run (crates/anvil-load/src/executor.rs,
    [run_iteration]): the steps it runs, the context each is sent with, and how
    it ends. The engine is asynchronous code outside this component: what it
    answers to a context is an argument, as are the instants at which chains
    were found halted. *)
From Stdlib Require Import ZArith Lia.
From stdpp Require Import base numbers strings pretty option list.
From S2P Require Import Prelude OrdMap Text Settings Evidence Request Vars LoadModel Units Observe Plan Dataset.
Open Scope string_scope.
Open Scope list_scope.
Open Scope Z_scope.

Section Iteration.
(** The fields of a frozen [ExecutionContext] an iteration does not touch. *)
Context {Rest : Type}.

Record ExecutionContext := mkExecutionContext {
  cx_var_layers : list VarLayer;
  cx_seed : option Z;
  cx_scope : option Id;
  cx_rest : Rest;
}.

(** What the engine returns for a context: the observation of the send and the
    values it extracted (name, value, secret). *)
Record SendOutcome := mkSendOutcome {
  so_obs : SendObservation;
  so_extracted : list (string * string * bool);
}.

(** What an iteration reads of the run. *)
Record IterationInput := mkIterationInput {
  it_steps : list ExecutionContext;
  it_mix_cumulative : list Z;
  it_plan_seed : Z;
  it_dataset : option Dataset;
  it_iter : Z;
  it_slot : Z;
}.

(** A send of the iteration, as [end_send] sees it. *)
Record Sent := mkSent {
  sn_step : nat;
  sn_context : ExecutionContext;
  sn_outcome : SendOutcome;
}.

(** Extracted values with the scope of the step that extracted them. *)
Abbreviation Extracted := (list (option Id * VarEntry)).

Context (engine : nat -> ExecutionContext -> SendOutcome) (chains_halted : nat -> bool).
Context (inp : IterationInput).

(** The steps of this iteration; [None] where the weighted choice panics. *)
Definition iteration_steps : option (list nat) :=
  match it_mix_cumulative inp with
  | [] => Some (seq 0 (List.length (it_steps inp)))
  | cumulative => option_map (fun i => [i]) (pick_weighted (it_plan_seed inp) cumulative (it_iter inp))
  end.

Definition load_layer : VarLayer := mkVarLayer "load" [
  mkVarEntry "anvil.iteration" (pretty (it_iter inp)) false false;
  mkVarEntry "anvil.vu" (pretty (it_slot inp)) false false].

Definition dataset_layer : option VarLayer := it_dataset inp ≫= fun d => row_layer d (it_iter inp).

(** The values of [scope]. *)
Definition visible (scope : option Id) (extracted : Extracted) : list VarEntry :=
  map snd (filter (fun e => e.1 = scope) extracted).

(** The context of the step at position [pos]. *)
Definition step_context (pos : nat) (base : ExecutionContext) (extracted : Extracted) : ExecutionContext :=
  let scope := cx_scope base in
  let vis := visible scope extracted in {|
    cx_var_layers := cx_var_layers base ++ [load_layer] ++
      (if bool_decide (scope = None) then option_list dataset_layer else []) ++
      (if bool_decide (vis = []) then [] else [mkVarLayer "iteration (extracted)" vis]);
    cx_seed := Some (derive_seed (it_plan_seed inp) (default 0 (cx_seed base)) (it_iter inp) (Z.of_nat pos));
    cx_scope := scope;
    cx_rest := cx_rest base;
  |}.

(** [extracted.retain(..); extracted.push(..)] for one extracted value. *)
Definition extract_one (scope : option Id) (extracted : Extracted) (nvs : string * string * bool) : Extracted :=
  let '(name, value, secret) := nvs in
  filter (fun e => e.1 <> scope \/ ve_name e.2 <> name) extracted ++ [(scope, mkVarEntry name value secret true)].

Record IterationEnd := mkIterationEnd {
  ie_terminal : Terminal;
  ie_app : bool;
  ie_assertion : bool;
  ie_sent : list Sent;
}.

(** The loop over the steps; the accumulators are the source's variables. A step
    index out of range panics in the source ([input_ok] excludes it). *)
Fixpoint run_steps (pos : nat) (steps : list nat) (extracted : Extracted) (app assertion : bool)
    (sent : list Sent) : IterationEnd :=
  match steps with
  | [] => mkIterationEnd Terminal_Completed app assertion sent
  | si :: steps' =>
      if chains_halted pos then mkIterationEnd Terminal_Canceled app assertion sent
      else match it_steps inp !! si with
      | None => mkIterationEnd Terminal_Canceled app assertion sent
      | Some base =>
          let ctx := step_context pos base extracted in
          let out := engine pos ctx in
          let obs := so_obs out in
          let app := app || ob_application_failure obs in
          let assertion := assertion || ob_assertion_failure obs in
          let sent := sent ++ [mkSent si ctx out] in
          if bool_decide (ob_terminal obs = Terminal_Completed) then
            run_steps (S pos) steps' (fold_left (extract_one (cx_scope base)) (so_extracted out) extracted)
              app assertion sent
          else mkIterationEnd (ob_terminal obs) app assertion sent
      end
  end.

(** [run_iteration]. *)
Definition run_iteration : option IterationEnd :=
  option_map (fun steps => run_steps 0 steps [] false false []) iteration_steps.

(** * What an iteration does *)

(** The last value of [name] extracted by a step of [scope] among [sent]. *)
Definition latest (scope : option Id) (name : string) (sent : list Sent) : option VarEntry :=
  fold_left (fun acc s =>
      if bool_decide (cx_scope (sn_context s) = scope) then
        fold_left (fun acc nvs => let '(n, v, sec) := nvs in
            if String.eqb n name then Some (mkVarEntry n v sec true) else acc)
          (so_extracted (sn_outcome s)) acc
      else acc) sent None.

(** The extracted values hold, per scope and name, the last one. *)
Definition extracted_ok (extracted : Extracted) (sent : list Sent) : Prop :=
  NoDup (map (fun e => (e.1, ve_name e.2)) extracted) /\
  forall scope entry, (scope, entry) ∈ extracted <-> latest scope (ve_name entry) sent = Some entry.

Lemma extract_one_ok scope extracted nvs (value : option Id -> string -> option VarEntry) :
  NoDup (map (fun e => (e.1, ve_name e.2)) extracted) ->
  (forall sc entry, (sc, entry) ∈ extracted <-> value sc (ve_name entry) = Some entry) ->
  NoDup (map (fun e => (e.1, ve_name e.2)) (extract_one scope extracted nvs)) /\
  forall sc entry, (sc, entry) ∈ extract_one scope extracted nvs <->
    (if bool_decide (scope = sc) && String.eqb nvs.1.1 (ve_name entry)
     then Some (mkVarEntry nvs.1.1 nvs.1.2 nvs.2 true) else value sc (ve_name entry)) = Some entry.
Proof.
  destruct nvs as [[name v] secret]. simpl. intros Hnd Hval. split.
  - rewrite map_app. simpl. apply NoDup_app. split; [|split; [|apply NoDup_singleton]].
    + clear Hval. induction extracted as [|e l IH]; [constructor|]. simpl in Hnd.
      apply NoDup_cons in Hnd as [He Hnd]. rewrite filter_cons. case_decide; [|by apply IH].
      simpl. constructor; [|by apply IH]. intros Hin. apply He.
      apply list_elem_of_In, in_map_iff in Hin as (x & Ex & Hx). rewrite <- Ex.
      apply list_elem_of_In, (in_map (fun e => (e.1, ve_name e.2))).
      apply list_elem_of_In, list_elem_of_filter in Hx as [_ Hx]. by apply list_elem_of_In.
    + intros [sc n] Hin Hs. apply list_elem_of_singleton in Hs as [= -> ->].
      apply list_elem_of_In, in_map_iff in Hin as ([sc' e'] & [= -> En] & Hx).
      apply list_elem_of_In, list_elem_of_filter in Hx as [[Hne|Hne] _]; simpl in *; congruence.
  - intros sc entry. rewrite elem_of_app, list_elem_of_filter, list_elem_of_singleton. simpl.
    case_bool_decide as Hsc; simpl.
    + destruct (String.eqb_spec name (ve_name entry)) as [Hn|Hn].
      * split; [|intros [= <-]; right; by subst].
        intros [[[?|?] _]|[= -> ->]]; [congruence|congruence|done].
      * rewrite Hval. split; [|intros Hv; left; split; [right; congruence|done]].
        intros [[_ ?]|[= -> ->]]; [done|]. simpl in Hn. congruence.
    + rewrite Hval. split; [|intros Hv; left; split; [left; congruence|done]].
      intros [[_ ?]|[= -> ->]]; [done|congruence].
Qed.

Lemma latest_snoc scope name sent s :
  latest scope name (sent ++ [s]) =
  if bool_decide (cx_scope (sn_context s) = scope) then
    fold_left (fun acc nvs => let '(n, v, sec) := nvs in
        if String.eqb n name then Some (mkVarEntry n v sec true) else acc)
      (so_extracted (sn_outcome s)) (latest scope name sent)
  else latest scope name sent.
Proof. unfold latest. by rewrite fold_left_app. Qed.

Lemma extract_fold_ok scope new extracted (value : option Id -> string -> option VarEntry) :
  NoDup (map (fun e => (e.1, ve_name e.2)) extracted) ->
  (forall sc entry, (sc, entry) ∈ extracted <-> value sc (ve_name entry) = Some entry) ->
  let extracted' := fold_left (extract_one scope) new extracted in
  NoDup (map (fun e => (e.1, ve_name e.2)) extracted') /\
  forall sc entry, (sc, entry) ∈ extracted' <->
    (if bool_decide (scope = sc) then
      fold_left (fun acc nvs => let '(n, v, sec) := nvs in
        if String.eqb n (ve_name entry) then Some (mkVarEntry n v sec true) else acc) new (value sc (ve_name entry))
     else value sc (ve_name entry)) = Some entry.
Proof.
  revert extracted value. induction new as [|[[n v] sec] new IH]; intros extracted value Hnd Hval; simpl.
  { split; [done|]. intros sc entry. rewrite Hval. by destruct (bool_decide _). }
  destruct (extract_one_ok scope extracted (n, v, sec) value Hnd Hval) as [Hnd' Hval'].
  destruct (IH _ (fun sc name => if bool_decide (scope = sc) && String.eqb n name
    then Some (mkVarEntry n v sec true) else value sc name) Hnd' Hval') as [Hnd2 Hval2].
  split; [exact Hnd2|]. intros sc entry. rewrite (Hval2 sc entry). by case_bool_decide.
Qed.

Lemma extract_all_ok si ctx out extracted sent : extracted_ok extracted sent ->
  extracted_ok (fold_left (extract_one (cx_scope ctx)) (so_extracted out) extracted)
    (sent ++ [mkSent si ctx out]).
Proof.
  intros [Hnd Hval].
  destruct (extract_fold_ok (cx_scope ctx) (so_extracted out) extracted (fun sc name => latest sc name sent) Hnd Hval)
    as [Hnd' Hval'].
  split; [exact Hnd'|]. intros scope entry. rewrite Hval', latest_snoc. done.
Qed.

Definition completed (s : Sent) : Prop := ob_terminal (so_obs (sn_outcome s)) = Terminal_Completed.

(** What a step of the iteration was sent with, after [before]. *)
Definition context_ok (s : Sent) (before : list Sent) : Prop :=
  exists base vis, it_steps inp !! sn_step s = Some base /\
    cx_scope (sn_context s) = cx_scope base /\ cx_rest (sn_context s) = cx_rest base /\
    cx_var_layers (sn_context s) = cx_var_layers base ++ [load_layer] ++
      (if bool_decide (cx_scope base = None) then option_list dataset_layer else []) ++
      (if bool_decide (vis = []) then [] else [mkVarLayer "iteration (extracted)" vis]) /\
    NoDup (map ve_name vis) /\
    forall entry, entry ∈ vis <-> latest (cx_scope base) (ve_name entry) before = Some entry.

Lemma visible_spec scope extracted sent : extracted_ok extracted sent ->
  NoDup (map ve_name (visible scope extracted)) /\
  forall entry, entry ∈ visible scope extracted <-> latest scope (ve_name entry) sent = Some entry.
Proof.
  intros [Hnd Hval]. split.
  - clear Hval. unfold visible. induction extracted as [|[sc e] l IH]; [constructor|]. simpl in Hnd.
    apply NoDup_cons in Hnd as [He Hnd]. rewrite filter_cons. case_decide as Hsc; [|by apply IH]. simpl in *. subst sc.
    constructor; [|by apply IH]. intros Hin. apply He.
    apply list_elem_of_In, in_map_iff in Hin as (x & Ex & Hx). apply in_map_iff in Hx as ([sc y] & <- & Hy).
    apply list_elem_of_In, list_elem_of_filter in Hy as [Hsc Hy]. simpl in *. subst sc.
    apply list_elem_of_In, in_map_iff. exists (scope, y). simpl. rewrite Ex. split; [done|]. by apply list_elem_of_In.
  - intros entry. rewrite <- Hval. unfold visible. rewrite list_elem_of_In, in_map_iff. split.
    + intros ([sc e] & <- & Hin). apply list_elem_of_In, list_elem_of_filter in Hin as [Hsc Hin]. simpl in *. by subst sc.
    + intros Hin. exists (scope, entry). split; [done|]. apply list_elem_of_In, list_elem_of_filter. done.
Qed.

Definition ends_as (pos : nat) (steps : list nat) (more : list Sent) (terminal : Terminal) : Prop :=
  (terminal = Terminal_Completed /\ List.length more = List.length steps /\ Forall completed more) \/
  (terminal = Terminal_Canceled /\ (List.length more < List.length steps)%nat /\
     chains_halted (pos + List.length more) = true /\ Forall completed more) \/
  (exists front s, more = front ++ [s] /\ Forall completed front /\
     terminal = ob_terminal (so_obs (sn_outcome s)) /\ terminal <> Terminal_Completed).

Lemma run_steps_spec pos steps extracted app assertion sent :
  List.length sent = pos -> extracted_ok extracted sent -> Forall (fun si => is_Some (it_steps inp !! si)) steps ->
  let r := run_steps pos steps extracted app assertion sent in
  exists more, ie_sent r = sent ++ more /\ map sn_step more = take (List.length more) steps /\
    (forall k s, more !! k = Some s -> context_ok s (sent ++ take k more)) /\
    ie_app r = app || existsb (fun s => ob_application_failure (so_obs (sn_outcome s))) more /\
    ie_assertion r = assertion || existsb (fun s => ob_assertion_failure (so_obs (sn_outcome s))) more /\
    ends_as pos steps more (ie_terminal r).
Proof.
  intros Hpos Hex Hval. revert pos extracted app assertion sent Hpos Hex.
  induction Hval as [|si steps [base Hb] Hval IH]; intros pos extracted app assertion sent Hpos Hex; simpl.
  { exists []. rewrite app_nil_r, !orb_false_r. repeat split; try done. by left. }
  destruct (chains_halted pos) eqn:Eh; simpl.
  { exists []. rewrite app_nil_r, !orb_false_r. repeat split; try done. right. left. simpl.
    rewrite Nat.add_0_r. repeat split; [lia|done|constructor]. }
  rewrite Hb. set (ctx := step_context pos base extracted). set (out := engine pos ctx). set (s := mkSent si ctx out).
  assert (context_ok s sent) as Hctx.
  { destruct (visible_spec (cx_scope base) extracted sent Hex) as [Hnd Hin].
    exists base, (visible (cx_scope base) extracted). done. }
  case_bool_decide as Hc; simpl.
  - assert (extracted_ok (fold_left (extract_one (cx_scope base)) (so_extracted out) extracted) (sent ++ [s])) as Hex'
      by apply (extract_all_ok si ctx out extracted sent Hex).
    destruct (IH (S pos) _ (app || ob_application_failure (so_obs out)) (assertion || ob_assertion_failure (so_obs out))
      (sent ++ [s]) ltac:(rewrite length_app; simpl; lia) Hex') as (more & E1 & E2 & E3 & E4 & E5 & E6).
    exists (s :: more). rewrite E1, E4, E5. rewrite <- app_assoc. simpl. rewrite !orb_assoc. split; [done|].
    split; [by rewrite E2|]. split; [|split; [done|split; [done|]]].
    + intros [|k] s'; simpl; [intros [= <-]; by rewrite app_nil_r|]. intros Hk.
      specialize (E3 k s' Hk). by rewrite <- app_assoc in E3.
    + destruct E6 as [(-> & E & Hall)|[(-> & E & Hh & Hall)|(front & s' & -> & Hall & -> & Hne)]].
      * left. simpl. split; [done|]. split; [lia|by constructor].
      * right. left. simpl. split; [done|]. split; [lia|]. split; [by rewrite Nat.add_succ_r|by constructor].
      * right. right. exists (s :: front), s'. split; [done|]. split; [by constructor|done].
  - exists [s]. simpl. rewrite !orb_false_r. split; [done|]. split; [done|]. split.
    + intros [|k] s'; simpl; [intros [= <-]; by rewrite app_nil_r|done].
    + split; [done|]. split; [done|]. right. right. exists [], s. split; [done|]. by split.
Qed.

(** The iteration's steps exist. *)
Definition input_ok : Prop := match iteration_steps with
  | Some steps => Forall (fun si => is_Some (it_steps inp !! si)) steps
  | None => False
  end.

Lemma extracted_ok_nil : extracted_ok [] [].
Proof. split; [constructor|]. intros scope entry. split; [by intros ?%not_elem_of_nil|done]. Qed.

(** C38: a step sees, besides its own variables and the run's, only values
    extracted by earlier steps of its own scope in the same iteration (for each
    name the last one), and the dataset row only in the workspace's scope: a
    step under a sealed import root learns nothing of the workspace and gives
    nothing to it. *)
Theorem iteration_scope_isolation r k s :
  input_ok -> run_iteration = Some r -> ie_sent r !! k = Some s -> context_ok s (take k (ie_sent r)).
Proof.
  unfold input_ok, run_iteration. destruct iteration_steps as [steps|]; [|done]. intros Hv [= <-] Hs.
  destruct (run_steps_spec 0 steps [] false false [] eq_refl extracted_ok_nil Hv) as (more & E1 & _ & E3 & _).
  rewrite E1 in *. by apply E3.
Qed.

(** An iteration always ends, as the source counts it: it sends its steps
    in order, up to the first one that does not complete or the first found
    halted; it is completed exactly when every step was sent and completed,
    canceled when halted before a step, and otherwise ends as its last send;
    it failed in the application, or an assertion, when any of its sends did. *)
Theorem iteration_end : input_ok -> exists steps r, iteration_steps = Some steps /\ run_iteration = Some r /\
  map sn_step (ie_sent r) = take (List.length (ie_sent r)) steps /\
  ie_app r = existsb (fun s => ob_application_failure (so_obs (sn_outcome s))) (ie_sent r) /\
  ie_assertion r = existsb (fun s => ob_assertion_failure (so_obs (sn_outcome s))) (ie_sent r) /\
  ends_as 0 steps (ie_sent r) (ie_terminal r).
Proof.
  unfold input_ok, run_iteration. destruct iteration_steps as [steps|]; [|done]. intros Hv.
  destruct (run_steps_spec 0 steps [] false false [] eq_refl extracted_ok_nil Hv) as (more & E1 & E2 & _ & E4 & E5 & E6).
  exists steps, (run_steps 0 steps [] false false []). rewrite E1. by repeat split.
Qed.
End Iteration.

(** * A chain across an import root *)

Definition demo_root : Id := mkId 9.

Definition demo_steps : list (ExecutionContext (Rest := unit)) := [
  mkExecutionContext [] (Some 1) None tt;
  mkExecutionContext [] (Some 2) (Some demo_root) tt;
  mkExecutionContext [] (Some 3) None tt].

Definition demo_iteration : IterationInput := mkIterationInput demo_steps [] 42 (Some demo_dataset) 1 0.

(** Every step extracts a token; the workspace's one is secret. *)
Definition demo_engine (pos : nat) (ctx : ExecutionContext (Rest := unit)) : SendOutcome :=
  mkSendOutcome SendObservation_default [("token", pretty (Z.of_nat pos), bool_decide (cx_scope ctx = None))].

Definition labels_seen : option (list (list string)) :=
  option_map (fun r => map (fun s => map vl_label (cx_var_layers (sn_context s))) (ie_sent r))
    (run_iteration demo_engine (fun _ => false) demo_iteration).

Example demo_labels : labels_seen = Some [
  ["load"; "dataset row 2"]; ["load"]; ["load"; "dataset row 2"; "iteration (extracted)"]].
Proof. by vm_compute. Qed.

Lemma demo_input_ok : input_ok demo_iteration.
Proof. vm_compute. repeat constructor; by eexists. Qed.

Lemma iteration_scope_isolation_witness : exists r s,
  run_iteration demo_engine (fun _ => false) demo_iteration = Some r /\ ie_sent r !! 2%nat = Some s /\
  latest None "token" (take 2 (ie_sent r)) = Some (mkVarEntry "token" "0" true true).
Proof.
  destruct (run_iteration demo_engine (fun _ => false) demo_iteration) as [r|] eqn:E; [|by vm_compute in E].
  destruct (ie_sent r !! 2%nat) as [s|] eqn:Es; [|by vm_compute in E; simplify_eq].
  exists r, s. split; [done|]. split; [done|].
  destruct (iteration_scope_isolation demo_engine (fun _ => false) demo_iteration r 2 s demo_input_ok E Es)
    as (base & vis & _). vm_compute in E. simplify_eq. by vm_compute.
Defined.

Lemma iteration_end_witness : exists r,
  run_iteration demo_engine (fun _ => false) demo_iteration = Some r /\ ie_terminal r = Terminal_Completed.
Proof.
  destruct (iteration_end demo_engine (fun _ => false) demo_iteration demo_input_ok) as (steps & r & _ & E & _).
  exists r. split; [exact E|]. vm_compute in E. by simplify_eq.
Defined.
