(* ===== verification/Bytes.v ===== *)
(** Bytes as the wire formats use them: a [u8] is a [Z] in [0, 256), a
    [&[u8]] or a [Vec<u8>] a list of them, [to_be_bytes] and [from_be_bytes]
    the network order of an integer of [n] bytes, and the bytes of a [str]. *)
From Stdlib Require Import ZArith Lia Ascii String.
From stdpp Require Import base numbers list strings.
From S2P Require Import Prelude Text.
Open Scope list_scope.
Open Scope Z_scope.

Definition bytes_ok (bs : list Z) : Prop := Forall is_u8 bs.

(** [len()] of a byte slice. *)
Definition blen (bs : list Z) : Z := Z.of_nat (List.length bs).

(** [to_be_bytes] of an integer of [n] bytes. *)
Fixpoint be_bytes (n : nat) (v : Z) : list Z :=
  match n with
  | O => []
  | S n' => (v / 2 ^ (8 * Z.of_nat n')) mod 2 ^ 8 :: be_bytes n' v
  end.

(** [from_be_bytes]. *)
Definition be_value (bs : list Z) : Z := fold_left (fun acc b => acc * 2 ^ 8 + b) bs 0.

Lemma be_bytes_S n v : be_bytes (S n) v = (v / 2 ^ (8 * Z.of_nat n)) mod 2 ^ 8 :: be_bytes n v.
Proof. done. Qed.

Lemma be_bytes_length n v : List.length (be_bytes n v) = n.
Proof. induction n as [|n IH]; simpl; [done|by rewrite IH]. Qed.

Lemma be_bytes_ok n v : bytes_ok (be_bytes n v).
Proof.
  induction n as [|n IH]; simpl; constructor; [|done]. apply Z.mod_pos_bound. lia.
Qed.

Lemma be_value_app xs ys : be_value (xs ++ ys) = fold_left (fun acc b => acc * 2 ^ 8 + b) ys (be_value xs).
Proof. unfold be_value. by rewrite fold_left_app. Qed.

Lemma be_value_acc bs acc : fold_left (fun acc b => acc * 2 ^ 8 + b) bs acc =
  acc * 2 ^ (8 * blen bs) + be_value bs.
Proof.
  unfold be_value, blen. revert acc. induction bs as [|b bs IH]; intros acc.
  - simpl. lia.
  - cbn [fold_left List.length]. rewrite IH, (IH (0 * 2 ^ 8 + b)).
    replace (8 * Z.of_nat (S (List.length bs))) with (8 + 8 * Z.of_nat (List.length bs)) by lia.
    rewrite Z.pow_add_r by lia. lia.
Qed.

Lemma be_value_cons b bs : be_value (b :: bs) = b * 2 ^ (8 * blen bs) + be_value bs.
Proof. unfold be_value at 1. cbn [fold_left]. rewrite be_value_acc. lia. Qed.

Lemma be_value_bounds bs : bytes_ok bs -> 0 <= be_value bs < 2 ^ (8 * blen bs).
Proof.
  unfold blen. induction 1 as [|b bs Hb _ IH]; [done|]. rewrite be_value_cons. unfold blen, in_width in *.
  cbn [List.length]. replace (8 * Z.of_nat (S (List.length bs))) with (8 + 8 * Z.of_nat (List.length bs)) by lia.
  rewrite Z.pow_add_r by lia. nia.
Qed.

Lemma be_value_bytes_mod n v : be_value (be_bytes n v) = v mod 2 ^ (8 * Z.of_nat n).
Proof.
  induction n as [|n IH].
  - simpl. by rewrite Z.mod_1_r.
  - cbn [be_bytes]. rewrite be_value_cons, IH. unfold blen. rewrite be_bytes_length.
    replace (8 * Z.of_nat (S n)) with (8 * Z.of_nat n + 8) by lia.
    rewrite Z.pow_add_r, Z.rem_mul_r by lia. lia.
Qed.

(** Reading back what was written. *)
Lemma be_value_bytes n v : 0 <= v < 2 ^ (8 * Z.of_nat n) -> be_value (be_bytes n v) = v.
Proof. intros H. rewrite be_value_bytes_mod. by apply Z.mod_small. Qed.

Lemma be_bytes_value bs : bytes_ok bs -> be_bytes (List.length bs) (be_value bs) = bs.
Proof.
  induction 1 as [|b bs Hb Hbs IH]; [done|]. cbn [List.length be_bytes].
  pose proof (be_value_bounds bs Hbs) as Hv. unfold blen in Hv. rewrite be_value_cons. unfold blen.
  f_equal.
  - rewrite Z.div_add_l by lia. rewrite (Z.div_small (be_value bs)) by done. rewrite Z.add_0_r.
    by apply Z.mod_small.
  - etrans; [|exact IH]. clear. generalize (be_value bs) as v, (List.length bs) as n. intros v n.
    assert (forall m, (m <= n)%nat -> be_bytes m (b * 2 ^ (8 * Z.of_nat n) + v) = be_bytes m v) as H; [|by apply H].
    induction m as [|m IHm]; intros Hm; [done|]. cbn [be_bytes]. rewrite IHm by lia. f_equal.
    replace (8 * Z.of_nat n) with (8 * Z.of_nat m + (8 + 8 * (Z.of_nat n - Z.of_nat m - 1))) by lia.
    rewrite Z.pow_add_r by lia. rewrite (Z.mul_comm (2 ^ (8 * Z.of_nat m))), Z.mul_assoc, Z.div_add_l by lia.
    rewrite Z.pow_add_r by lia.
    replace (b * (2 ^ 8 * 2 ^ (8 * (Z.of_nat n - Z.of_nat m - 1)))) with
      (b * 2 ^ (8 * (Z.of_nat n - Z.of_nat m - 1)) * 2 ^ 8) by lia.
    rewrite Z.add_comm. by rewrite Z_mod_plus_full.
Qed.

(** The bytes of a [str], and the string of its bytes. *)
Definition byte_of_ascii (c : ascii) : Z := Z.of_N (N_of_ascii c).
Definition ascii_of_byte (b : Z) : ascii := ascii_of_N (Z.to_N b).

Definition bytes_of_string (s : string) : list Z := map byte_of_ascii (list_ascii_of_string s).
Definition string_of_bytes (bs : list Z) : string := string_of_list_ascii (map ascii_of_byte bs).

Lemma byte_of_ascii_ok c : is_u8 (byte_of_ascii c).
Proof. unfold byte_of_ascii, in_width. pose proof (N_ascii_bounded c). simpl. lia. Qed.

Lemma ascii_of_byte_of c : ascii_of_byte (byte_of_ascii c) = c.
Proof. unfold ascii_of_byte, byte_of_ascii. by rewrite N2Z.id, ascii_N_embedding. Qed.

Lemma byte_of_ascii_of b : is_u8 b -> byte_of_ascii (ascii_of_byte b) = b.
Proof.
  unfold ascii_of_byte, byte_of_ascii, in_width. intros Hb.
  rewrite N_ascii_embedding; [lia|]. change 256%N with (Z.to_N 256). lia.
Qed.

Lemma bytes_of_string_ok s : bytes_ok (bytes_of_string s).
Proof. apply Forall_map. apply Forall_true. apply byte_of_ascii_ok. Qed.

Lemma string_of_bytes_of s : string_of_bytes (bytes_of_string s) = s.
Proof.
  unfold string_of_bytes, bytes_of_string. rewrite map_map, (map_ext _ id), map_id.
  - apply string_of_list_ascii_of_string.
  - intros c. apply ascii_of_byte_of.
Qed.

Lemma bytes_of_string_of bs : bytes_ok bs -> bytes_of_string (string_of_bytes bs) = bs.
Proof.
  unfold string_of_bytes, bytes_of_string. rewrite list_ascii_of_string_of_list_ascii, map_map.
  induction 1 as [|b bs Hb _ IH]; simpl; [done|]. by rewrite IH, byte_of_ascii_of.
Qed.

Lemma bytes_of_string_app a b : bytes_of_string (a ++ b)%string = bytes_of_string a ++ bytes_of_string b.
Proof. unfold bytes_of_string. induction a as [|c a IH]; simpl; [done|]. by rewrite IH. Qed.

Lemma string_of_bytes_app a b : string_of_bytes (a ++ b) = (string_of_bytes a ++ string_of_bytes b)%string.
Proof. unfold string_of_bytes. induction a as [|c a IH]; simpl; [done|]. by rewrite IH. Qed.

Lemma bytes_of_string_length s : blen (bytes_of_string s) = str_len s.
Proof. unfold blen, bytes_of_string, str_len. rewrite length_map. induction s; simpl; lia. Qed.

(** [hex::encode]. *)
Definition hex_digit (d : Z) : ascii := ascii_of_byte (if d <? 10 then 48 + d else 87 + d).

Definition hex_encode (bs : list Z) : string :=
  String.concat "" (map (fun b => String (hex_digit (b / 16)) (String (hex_digit (b mod 16)) "")) bs).

Lemma bytes_ok_app a b : bytes_ok (a ++ b) <-> bytes_ok a /\ bytes_ok b.
Proof. apply Forall_app. Qed.

Lemma blen_app a b : blen (a ++ b) = blen a + blen b.
Proof. unfold blen. rewrite length_app. lia. Qed.

Lemma blen_nonneg a : 0 <= blen a.
Proof. unfold blen. lia. Qed.

#[export] Hint Resolve be_bytes_ok bytes_of_string_ok blen_nonneg : anvil.

(** ** Slices *)

Lemma take_app_exact {A} n (l k : list A) : List.length l = n -> take n (l ++ k) = l.
Proof. intros <-. by apply take_app_length. Qed.

Lemma drop_app_exact {A} n (l k : list A) : List.length l = n -> drop n (l ++ k) = k.
Proof. intros <-. by apply drop_app_length. Qed.

#[global] Arguments be_bytes : simpl never.
