(* ===== verification/Decoder.v ===== *)
(** Incremental decoders: the transport crate reads length-framed streams by
    pushing the bytes that arrived and draining the complete items. The class
    [Decoder] is that interface, [DecoderLaws] what an implementation promises,
    and [feed_concat] what a client gets from the promise: however the stream
    was cut into chunks, the items and the error are those of the whole
    stream, and the loop that drains a decoder ends.

    Two states may differ and yet decode alike (bytes counted down at once or
    at the next call), so states are compared by an equivalence that the
    operations respect. *)
From Stdlib Require Import ZArith Lia.
From stdpp Require Import base numbers list.
From S2P Require Import Prelude Bytes.
Open Scope list_scope.
Open Scope Z_scope.

Class Decoder (S I E : Type) := {
  (** Append bytes to the buffer. *)
  dec_push : list Z -> S -> S;
  (** The next complete item, [None] when more bytes are needed. *)
  dec_next : S -> result (option I) E * S;
  (** Bytes buffered. *)
  dec_size : S -> nat;
}.

Class DecoderLaws (S I E : Type) `{Equiv S} `{Decoder S I E} := {
  dec_equiv :: Equivalence (≡@{S});
  dec_push_proper c :: Proper ((≡) ==> (≡)) (dec_push c);
  dec_next_proper s t : s ≡ t -> (dec_next s).1 = (dec_next t).1 /\ (dec_next s).2 ≡ (dec_next t).2;
  dec_push_nil s : dec_push [] s ≡ s;
  dec_push_push c d s : dec_push d (dec_push c s) ≡ dec_push (c ++ d) s;
  dec_size_next s i s' : dec_next s = (Ok (Some i), s') -> (dec_size s' < dec_size s)%nat;
  dec_next_none s s' : dec_next s = (Ok None, s') -> s' ≡ s;
  dec_next_some c s i s' : dec_next s = (Ok (Some i), s') ->
    (dec_next (dec_push c s)).1 = Ok (Some i) /\ (dec_next (dec_push c s)).2 ≡ dec_push c s';
  dec_next_err c s e s' : dec_next s = (Err e, s') -> (dec_next (dec_push c s)).1 = Err e;
}.

Section Draining.
Context {S I E : Type} `{DecoderLaws S I E}.

(** The items a drain yields, the error it stopped at, the state it left. *)
Definition outcome : Type := list I * option E * S.

Definition same_outcome (r r' : outcome) : Prop :=
  r.1.1 = r'.1.1 /\ r.1.2 = r'.1.2 /\ (r.1.2 = None -> r.2 ≡ r'.2).

(** [loop { match next { Some(i) => .., None => break, Err(e) => return } }],
    with fuel. *)
Fixpoint drain_fuel (n : nat) (s : S) : outcome :=
  match n with
  | O => ([], None, s)
  | Datatypes.S n' =>
      match dec_next s with
      | (Ok None, s') => ([], None, s')
      | (Err e, s') => ([], Some e, s')
      | (Ok (Some i), s') => let '(items, e, s'') := drain_fuel n' s' in (i :: items, e, s'')
      end
  end.

(** Every item consumes a byte, so one round more than bytes is enough. *)
Definition drain (s : S) : outcome := drain_fuel (Datatypes.S (dec_size s)) s.

(** Each chunk is pushed, then the complete items are drained; an error ends
    the stream. *)
Fixpoint feed (chunks : list (list Z)) (s : S) : outcome :=
  match chunks with
  | [] => ([], None, s)
  | c :: chunks' =>
      let '(items, e, s') := drain (dec_push c s) in
      match e with
      | Some e => (items, Some e, s')
      | None => let '(more, e, s'') := feed chunks' s' in (items ++ more, e, s'')
      end
  end.

Lemma same_outcome_refl r : same_outcome r r.
Proof. by repeat split. Qed.

Lemma same_outcome_trans a b c : same_outcome a b -> same_outcome b c -> same_outcome a c.
Proof.
  intros (A1 & A2 & A3) (B1 & B2 & B3). repeat split; [congruence..|].
  intros He. rewrite A3 by done. apply B3. congruence.
Qed.

Lemma drain_fuel_enough n s : (dec_size s < n)%nat -> drain_fuel n s = drain s.
Proof.
  unfold drain. generalize (Datatypes.S (dec_size s)) as m, (Nat.lt_succ_diag_r (dec_size s)).
  revert s. induction n as [|n IH]; intros s m Hm Hn; [lia|]. destruct m as [|m]; [lia|]. simpl.
  destruct (dec_next s) as [[[i|]|e] s'] eqn:En; try done.
  apply dec_size_next in En as Hs. by rewrite (IH s' m) by lia.
Qed.

(** The loop as the source writes it. *)
Lemma drain_eq s : drain s =
  match dec_next s with
  | (Ok None, s') => ([], None, s')
  | (Err e, s') => ([], Some e, s')
  | (Ok (Some i), s') => let '(items, e, s'') := drain s' in (i :: items, e, s'')
  end.
Proof.
  unfold drain at 1. simpl. destruct (dec_next s) as [[[i|]|e] s'] eqn:En; try done.
  apply dec_size_next in En as Hs. by rewrite (drain_fuel_enough _ s') by lia.
Qed.

(** Induction over the items left in the buffer. *)
Lemma drain_ind (P : S -> Prop) :
  (forall s, (forall i s', dec_next s = (Ok (Some i), s') -> P s') -> P s) -> forall s, P s.
Proof.
  intros Hstep s. remember (dec_size s) as n eqn:En. revert s En.
  induction n as [n IH] using lt_wf_ind. intros s ->. apply Hstep. intros i s' Hs.
  apply (IH (dec_size s')); [by eapply dec_size_next|done].
Qed.

Lemma drain_proper s t : s ≡ t -> same_outcome (drain s) (drain t).
Proof.
  revert t. induction s as [s IH] using drain_ind. intros t Hst.
  destruct (dec_next_proper s t Hst) as [Hr Hs]. rewrite (drain_eq s), (drain_eq t).
  destruct (dec_next s) as [r s'] eqn:En, (dec_next t) as [r' t']. simpl in *. subst r'.
  destruct r as [[i|]|e]; [|by repeat split|by repeat split].
  specialize (IH i s' eq_refl t' Hs). destruct (drain s') as [[? ?] ?], (drain t') as [[? ?] ?].
  destruct IH as (? & ? & ?). simpl in *. subst. by repeat split.
Qed.

(** Pushing more bytes after a drain continues it. *)
Lemma drain_push c s : same_outcome (drain (dec_push c s))
  (let '(items, e, s') := drain s in
   match e with
   | Some e => (items, Some e, s')
   | None => let '(more, e, s'') := drain (dec_push c s') in (items ++ more, e, s'')
   end).
Proof.
  induction s as [s IH] using drain_ind. rewrite (drain_eq s).
  destruct (dec_next s) as [[[i|]|e] s'] eqn:En.
  - destruct (dec_next_some c _ _ _ En) as [Hi Hs]. rewrite (drain_eq (dec_push c s)).
    destruct (dec_next (dec_push c s)) as [r t]. simpl in Hi, Hs. subst r.
    pose proof (same_outcome_trans _ _ _ (drain_proper _ _ Hs) (IH _ _ eq_refl)) as (P1 & P2 & P3).
    destruct (drain t) as [[? ?] ?], (drain s') as [[? [?|]] ?]; simpl in *; subst; [by repeat split|].
    destruct (drain (dec_push c _)) as [[? ?] ?]. simpl in *. subst. by repeat split.
  - apply dec_next_none in En. simpl. eapply same_outcome_trans.
    + apply drain_proper, dec_push_proper. symmetry. exact En.
    + destruct (drain (dec_push c s')) as [[? ?] ?]. apply same_outcome_refl.
  - apply (dec_next_err c) in En. rewrite drain_eq.
    destruct (dec_next (dec_push c s)) as [r t]. simpl in En. subst. by repeat split.
Qed.

(** A drained state has no complete item. *)
Definition drained (s : S) : Prop := exists s', dec_next s = (Ok None, s').

Lemma drain_drained s items s' : drain s = (items, None, s') -> drained s'.
Proof.
  revert items. induction s as [s IH] using drain_ind. intros items. rewrite drain_eq.
  destruct (dec_next s) as [[[i|]|e] t] eqn:En; [|intros [= <- <-]|done].
  - destruct (drain t) as [[? ?] ?] eqn:Ed. intros [= <- -> ->]. by eapply IH.
  - apply dec_next_none in En as Ht. destruct (dec_next_proper _ _ Ht) as [Hr _]. rewrite En in Hr.
    unfold drained. destruct (dec_next t) as [r u]. simpl in Hr. subst r. by exists u.
Qed.

(** However a stream is cut into chunks, what is decoded is what the whole
    stream decodes to. *)
Lemma feed_concat chunks s : drained s ->
  same_outcome (feed chunks s) (drain (dec_push (concat chunks) s)).
Proof.
  revert s. induction chunks as [|c chunks IH]; intros s Hs; simpl.
  - apply (same_outcome_trans _ (drain s)).
    + destruct Hs as [s' Hs]. rewrite drain_eq, Hs. apply dec_next_none in Hs. repeat split. simpl. by intros _.
    + apply drain_proper. symmetry. apply dec_push_nil.
  - assert (same_outcome (drain (dec_push (concat chunks) (dec_push c s)))
      (drain (dec_push (c ++ concat chunks) s))) as Hpush by apply drain_proper, dec_push_push.
    eapply same_outcome_trans; [|exact Hpush]. clear Hpush.
    pose proof (drain_push (concat chunks) (dec_push c s)) as Hd.
    destruct (drain (dec_push c s)) as [[items [e|]] s'] eqn:Ed.
    { destruct Hd as (? & ? & ?). repeat split; simpl in *; done. }
    specialize (IH s' (drain_drained _ _ _ Ed)).
    destruct (feed chunks s') as [[? ?] ?], (drain (dec_push (concat chunks) s')) as [[? ?] ?].
    destruct (drain (dec_push (concat chunks) (dec_push c s))) as [[? ?] ?].
    destruct IH as (? & ? & Heq), Hd as (? & ? & Heq'). simpl in *. subst. repeat split; simpl.
    intros Hn. rewrite Heq by done. symmetry. by apply Heq'.
Qed.
End Draining.
