(* ===== verification/Framing.v ===== *)
(** Framed streams of the transport crate: the length-prefixed records of an
    HBONE datagram tunnel (hbone_udp.rs), the variable-length integers and
    capsules of a CONNECT-UDP tunnel (masque.rs), and the message frames of
    gRPC and gRPC-Web (grpc.rs, grpc_web.rs). Each reader is an instance of
    [Decoder] and keeps its laws, so what it yields does not depend on how the
    transport cut the stream; what the writers write is read back. *)
From Stdlib Require Import ZArith Lia.
From stdpp Require Import base numbers strings pretty option list.
From S2P Require Import Prelude Text Bytes Decoder.
Open Scope string_scope.
Open Scope list_scope.
Open Scope Z_scope.

(** * HBONE records *)

Definition MAX_RECORD_PAYLOAD : Z := 65535.
Definition RECORD_PREFIX : nat := 2.

Definition encode_record (payload : list Z) : option (list Z) :=
  if MAX_RECORD_PAYLOAD <? blen payload then None
  else Some (be_bytes 2 (blen payload) ++ payload).

Record RecordDecoder := mkRecordDecoder { rd_buf : list Z }.

Definition RecordDecoder_new : RecordDecoder := mkRecordDecoder [].

Definition RecordDecoder_push (chunk : list Z) (d : RecordDecoder) : RecordDecoder :=
  mkRecordDecoder (rd_buf d ++ chunk).

Definition next_record (d : RecordDecoder) : option (list Z) * RecordDecoder :=
  let buf := rd_buf d in
  if (List.length buf <? RECORD_PREFIX)%nat then (None, d)
  else
    let len := Z.to_nat (be_value (take 2 buf)) in
    if (List.length buf <? RECORD_PREFIX + len)%nat then (None, d)
    else
      let buf := drop RECORD_PREFIX buf in
      (Some (take len buf), mkRecordDecoder (drop len buf)).

Definition RecordDecoder_pending (d : RecordDecoder) : Z := blen (rd_buf d).

(** * QUIC variable-length integers *)

(** An element of a byte buffer is a [u8]. *)
Definition as_u8 (b : Z) : Z := b mod 2 ^ 8.

(** Append [v] ([u64]) to [out]. *)
Definition put_varint (out : list Z) (v : Z) : list Z :=
  out ++
  (if v <? 2 ^ 6 then be_bytes 1 v
   else if v <? 2 ^ 14 then be_bytes 2 (Z.lor 0x4000 (v mod 2 ^ 16))
   else if v <? 2 ^ 30 then be_bytes 4 (Z.lor 0x80000000 (v mod 2 ^ 32))
   else be_bytes 8 (Z.lor 0xc000000000000000 v)).

(** The integer at [pos] and the position after it. *)
Definition read_varint (buf : list Z) (pos : nat) : option (Z * nat) :=
  first ← as_u8 <$> buf !! pos;
  let len := Z.to_nat (Z.shiftl 1 (Z.shiftr first 6)) in
  if (List.length buf - pos <? len)%nat then None
  else Some (fold_left (fun v b => Z.lor (Z.shiftl v 8) b) (take (len - 1) (drop (S pos) buf)) (Z.land first 0x3f),
             (pos + len)%nat).

(** * Capsules *)

Definition CAPSULE_DATAGRAM : Z := 0.
Definition MAX_UDP_PAYLOAD : Z := 65527.
Definition MAX_CAPSULE_HEADER : Z := 16.
Definition CONTEXT_ID_SLACK : Z := 8.

Definition encode_capsule (payload : list Z) : list Z :=
  let out := put_varint [] CAPSULE_DATAGRAM in
  let out := put_varint out (1 + blen payload) in
  let out := put_varint out 0 in
  out ++ payload.

Definition encode_quic_datagram (quarter_stream_id : Z) (payload : list Z) : list Z :=
  let out := put_varint [] quarter_stream_id in
  let out := put_varint out 0 in
  out ++ payload.

Inductive QuicDatagram :=
  | QuicDatagram_Udp (payload : list Z)
  | QuicDatagram_UnregisteredContext (ctx : Z)
  | QuicDatagram_OtherStream (q : Z)
  | QuicDatagram_Malformed.

Definition decode_quic_datagram (d : list Z) (quarter_stream_id : Z) : QuicDatagram :=
  match read_varint d 0 with
  | None => QuicDatagram_Malformed
  | Some (q, pos) =>
      if negb (q =? quarter_stream_id) then QuicDatagram_OtherStream q
      else match read_varint d pos with
      | None => QuicDatagram_Malformed
      | Some (ctx, pos) =>
          if negb (ctx =? 0) then QuicDatagram_UnregisteredContext ctx
          else QuicDatagram_Udp (drop pos d)
      end
  end.

Inductive Capsule :=
  | Capsule_Udp (payload : list Z)
  | Capsule_UnregisteredContext (ctx : Z)
  | Capsule_Unknown (ty : Z).

Inductive CapsuleError :=
  | CapsuleError_TooLarge
  | CapsuleError_Truncated
  | CapsuleError_EndedInsideCapsule.

Definition CapsuleError_describe (e : CapsuleError) : string :=
  match e with
  | CapsuleError_TooLarge => "a DATAGRAM capsule declared a length larger than any UDP payload"
  | CapsuleError_Truncated => "a DATAGRAM capsule was too short to hold a Context ID"
  | CapsuleError_EndedInsideCapsule =>
      "the stream ended inside a capsule, which RFC 9297 §3.3 defines as malformed"
  end.

Record CapsuleDecoder := mkCapsuleDecoder { cd_buf : list Z; cd_skip : Z }.

Definition CapsuleDecoder_new : CapsuleDecoder := mkCapsuleDecoder [] 0.

Definition max_value : Z := MAX_UDP_PAYLOAD + CONTEXT_ID_SLACK.
Definition feed_limit : Z := max_value + MAX_CAPSULE_HEADER.

Definition CapsuleDecoder_push (chunk : list Z) (d : CapsuleDecoder) : CapsuleDecoder :=
  mkCapsuleDecoder (cd_buf d ++ chunk) (cd_skip d).

(** Count down the value being skipped; the source also returns whether it is
    gone, that is whether [cd_skip] is zero after. *)
Definition advance_skip (d : CapsuleDecoder) : CapsuleDecoder :=
  let n := Z.min (cd_skip d) (blen (cd_buf d)) in
  mkCapsuleDecoder (drop (Z.to_nat n) (cd_buf d)) (cd_skip d - n).

(** The part of [decode_next] after the skipped value is gone. *)
Definition decode_capsule (d : CapsuleDecoder) : result (option Capsule) CapsuleError * CapsuleDecoder :=
  let buf := cd_buf d in
  match read_varint buf 0 with
  | None => (Ok None, d)
  | Some (ty, pos) =>
  match read_varint buf pos with
  | None => (Ok None, d)
  | Some (len, pos) =>
      if negb (ty =? CAPSULE_DATAGRAM) then
        (Ok (Some (Capsule_Unknown ty)), advance_skip (mkCapsuleDecoder (drop pos buf) len))
      else if max_value <? len then (Err CapsuleError_TooLarge, d)
      else
        let len := Z.to_nat len in
        if (List.length buf - pos <? len)%nat then (Ok None, d)
        else
          let rest := drop pos buf in
          let value := take len rest in
          let d := mkCapsuleDecoder (drop len rest) (cd_skip d) in
          match read_varint value 0 with
          | None => (Err CapsuleError_Truncated, d)
          | Some (ctx, vp) =>
              if negb (ctx =? 0) then (Ok (Some (Capsule_UnregisteredContext ctx)), d)
              else (Ok (Some (Capsule_Udp (drop vp value))), d)
          end
  end
  end.

Definition decode_next (d : CapsuleDecoder) : result (option Capsule) CapsuleError * CapsuleDecoder :=
  let d := advance_skip d in
  if negb (cd_skip d =? 0) then (Ok None, d) else decode_capsule d.

Definition CapsuleDecoder_finish (d : CapsuleDecoder) : result unit CapsuleError :=
  if bool_decide (cd_buf d = []) && (cd_skip d =? 0) then Ok tt else Err CapsuleError_EndedInsideCapsule.

(** * gRPC frames *)

Definition TRAILER_FLAG : Z := 0x80.
Definition MAX_TRAILER_BLOCK : Z := 1024 * 1024.

Inductive WireFrame :=
  | WireFrame_Message (compressed : bool) (data : list Z)
  | WireFrame_Trailer (data : list Z).

Inductive FrameError :=
  | FrameError_TooLarge (message : string)
  | FrameError_Invalid (message : string).

(** A message as one uncompressed frame; [msg.len() as u32] wraps. *)
Definition frame (msg : list Z) : list Z := [0] ++ be_bytes 4 (blen msg mod 2 ^ 32) ++ msg.

(** What a flag byte announces: a trailer, or a message and whether it is
    compressed. *)
Definition frame_flag (flag : Z) (web : bool) : result bool FrameError :=
  if (flag =? 0x00) || (flag =? 0x01) then Ok false
  else if (flag =? TRAILER_FLAG) && web then Ok true
  else if (flag =? 0x81) && web then
    Err (FrameError_Invalid "a trailer frame with the compressed bit set (0x81) is not defined by gRPC-Web")
  else Err (FrameError_Invalid ("invalid " +:+ (if web then "gRPC-Web" else "gRPC") +:+ " frame flag 0x"
    +:+ hex_encode [flag])).

Definition next_frame (buf : list Z) (max : Z) (web : bool) : result (option WireFrame) FrameError * list Z :=
  if (List.length buf <? 5)%nat then (Ok None, buf) else
  let flag := default 0 (head buf) in
  match frame_flag flag web with
  | Err e => (Err e, buf)
  | Ok trailer =>
      let len := be_value (take 4 (drop 1 buf)) in
      let limit := if trailer then Z.min max MAX_TRAILER_BLOCK else max in
      if limit <? len then
        (Err (FrameError_TooLarge ("a received " +:+ (if trailer then "trailer frame" else "message")
          +:+ " declares " +:+ pretty len +:+ " bytes, above the local limit of " +:+ pretty limit)), buf)
      else if (List.length buf <? 5 + Z.to_nat len)%nat then (Ok None, buf)
      else
        let buf := drop 5 buf in
        let data := take (Z.to_nat len) buf in
        (Ok (Some (if trailer then WireFrame_Trailer data else WireFrame_Message (flag =? 0x01) data)),
         drop (Z.to_nat len) buf)
  end.

(** [next_message] of native gRPC. *)
Definition next_message (buf : list Z) (max : Z) : result (option (bool * list Z)) FrameError * list Z :=
  match next_frame buf max false with
  | (Ok (Some (WireFrame_Message compressed data)), buf) => (Ok (Some (compressed, data)), buf)
  | (Ok (Some (WireFrame_Trailer _)), buf) =>
      (Err (FrameError_Invalid "a trailer frame is not valid in native gRPC"), buf)
  | (Ok None, buf) => (Ok None, buf)
  | (Err e, buf) => (Err e, buf)
  end.

#[export] Instance CapsuleError_eq_dec : EqDecision CapsuleError.
Proof. solve_decision. Defined.
#[export] Instance Capsule_eq_dec : EqDecision Capsule.
Proof. solve_decision. Defined.
#[export] Instance FrameError_eq_dec : EqDecision FrameError.
Proof. solve_decision. Defined.
#[export] Instance WireFrame_eq_dec : EqDecision WireFrame.
Proof. solve_decision. Defined.

(** * The readers are incremental *)

(** ** Records *)

#[export] Instance RecordDecoder_equiv : Equiv RecordDecoder := (=).

#[export] Instance record_decoder : Decoder RecordDecoder (list Z) Empty_set := {
  dec_push := RecordDecoder_push;
  dec_next d := let '(r, d') := next_record d in (Ok r, d');
  dec_size d := List.length (rd_buf d);
}.

(** Appending bytes to a buffer that already holds what is read. *)
Lemma take_app_enough {A} n (l k : list A) : (n <= List.length l)%nat -> take n (l ++ k) = take n l.
Proof. apply take_app_le. Qed.

Lemma drop_app_enough {A} n (l k : list A) : (n <= List.length l)%nat -> drop n (l ++ k) = drop n l ++ k.
Proof. apply drop_app_le. Qed.

Lemma next_record_short d : next_record d = (None, d) \/ exists p d', next_record d = (Some p, d').
Proof. unfold next_record. repeat case_match; eauto. Qed.

Lemma next_record_push c d p d' : next_record d = (Some p, d') ->
  next_record (RecordDecoder_push c d) = (Some p, RecordDecoder_push c d').
Proof.
  unfold next_record, RecordDecoder_push. cbn [rd_buf]. rewrite length_app.
  destruct (Nat.ltb_spec (List.length (rd_buf d)) RECORD_PREFIX) as [|H]; [done|]. unfold RECORD_PREFIX in *.
  rewrite (take_app_enough 2), (drop_app_enough 2) by done.
  set (len := Z.to_nat _). destruct (Nat.ltb_spec (List.length (rd_buf d)) (2 + len)) as [|H']; [done|].
  intros [= <- <-]. rewrite (proj2 (Nat.ltb_ge _ 2)) by lia. rewrite (proj2 (Nat.ltb_ge _ (2 + len))) by lia.
  rewrite take_app_enough, drop_app_enough by (rewrite length_drop; lia). done.
Qed.

Lemma next_record_size d p d' : next_record d = (Some p, d') ->
  (List.length (rd_buf d') < List.length (rd_buf d))%nat.
Proof.
  unfold next_record. destruct (Nat.ltb_spec (List.length (rd_buf d)) RECORD_PREFIX) as [|H]; [done|].
  unfold RECORD_PREFIX in *. case_match; [done|]. intros [= <- <-]. simpl. rewrite !length_drop. lia.
Qed.

#[export] Instance record_decoder_laws : DecoderLaws RecordDecoder (list Z) Empty_set.
Proof.
  split; unfold equiv, RecordDecoder_equiv; simpl.
  - apply _.
  - by intros c s t ->.
  - by intros s t ->.
  - intros [b]. unfold RecordDecoder_push. simpl. by rewrite app_nil_r.
  - intros c d [b]. unfold RecordDecoder_push. simpl. by rewrite app_assoc.
  - intros s i s'. destruct (next_record s) as [[p|] d'] eqn:E; [|done]. intros [= <- <-].
    by eapply next_record_size.
  - intros s s'. destruct (next_record s) as [[p|] d'] eqn:E; [done|]. intros [= <-].
    destruct (next_record_short s) as [E'|(? & ? & E')]; congruence.
  - intros c s i s'. destruct (next_record s) as [[p|] d'] eqn:E; [|done]. intros [= <- <-].
    by rewrite (next_record_push c s p d' E).
  - intros c s [].
Qed.

(** ** Variable-length integers *)

Lemma lor_shiftl_add a b n : 0 <= n -> 0 <= b < 2 ^ n -> Z.lor (Z.shiftl a n) b = a * 2 ^ n + b.
Proof.
  intros Hn Hb. rewrite <- (Z.shiftl_mul_pow2 a n Hn). rewrite <- Z.add_lor_land.
  assert (Z.land (Z.shiftl a n) b = 0) as ->; [|lia].
  apply Z.bits_inj'. intros i Hi. rewrite Z.land_spec, Z.bits_0, Z.shiftl_spec by done.
  destruct (Z.lt_ge_cases i n) as [H|H].
  - by rewrite (Z.testbit_neg_r a) by lia.
  - rewrite <- (Z.mod_small b (2 ^ n)) by done. rewrite Z.mod_pow2_bits_high by lia. apply andb_false_r.
Qed.

(** The accumulation [(v << 8) | b] of [read_varint] on bytes. *)
Lemma varint_fold bs v : bytes_ok bs ->
  fold_left (fun v b => Z.lor (Z.shiftl v 8) b) bs v = v * 2 ^ (8 * blen bs) + be_value bs.
Proof.
  intros H. rewrite <- be_value_acc. revert v. induction H as [|b bs Hb _ IH]; intros v; simpl; [done|].
  rewrite IH. f_equal. by apply lor_shiftl_add.
Qed.

(** An encoding of [n] bytes whose first two bits say so. *)
Lemma read_varint_tagged n (k : Z) v pre rest : n = Z.to_nat (Z.shiftl 1 k) -> 0 <= k <= 3 ->
  0 <= v < 2 ^ (8 * Z.of_nat n - 2) ->
  read_varint (pre ++ be_bytes n (k * 2 ^ (8 * Z.of_nat n - 2) + v) ++ rest) (List.length pre) =
  Some (v, (List.length pre + n)%nat).
Proof.
  intros Hn Hk Hv. set (w := k * 2 ^ (8 * Z.of_nat n - 2) + v).
  destruct n as [|m]; [exfalso; assert (1 <= Z.shiftl 1 k) by (rewrite Z.shiftl_mul_pow2 by lia;
    pose proof (Z.pow_pos_nonneg 2 k); lia); lia|].
  assert (0 <= w < 2 ^ (8 * Z.of_nat (S m))) as Hw.
  { unfold w. replace (8 * Z.of_nat (S m)) with (8 * Z.of_nat (S m) - 2 + 2) at 3 by lia.
    rewrite Z.pow_add_r by lia. change (2 ^ 2) with 4. nia. }
  pose proof (be_value_bytes (S m) w Hw) as Hval. pose proof (be_bytes_ok (S m) w) as Hok.
  rewrite be_bytes_S in *. set (b := (w / 2 ^ (8 * Z.of_nat m)) mod 2 ^ 8) in *.
  apply Forall_cons in Hok as [Hb Hrest]. rewrite be_value_cons in Hval. unfold blen in Hval.
  rewrite be_bytes_length in Hval. set (r := be_value (be_bytes m w)) in *.
  pose proof (be_value_bounds _ Hrest) as Hr. fold r in Hr. unfold blen in Hr. rewrite be_bytes_length in Hr.
  assert (Hp : 2 ^ (8 * Z.of_nat (S m) - 2) = 64 * 2 ^ (8 * Z.of_nat m)).
  { replace (8 * Z.of_nat (S m) - 2) with (6 + 8 * Z.of_nat m) by lia. by rewrite Z.pow_add_r by lia. }
  assert (Hpos : 0 < 2 ^ (8 * Z.of_nat m)) by (apply Z.pow_pos_nonneg; lia).
  set (p := 2 ^ (8 * Z.of_nat m)) in *.
  assert (Hbk : b = k * 64 + (b - k * 64) /\ 0 <= b - k * 64 < 64).
  { unfold w in Hval. rewrite Hp in *. unfold in_width in Hb. split; [lia|].
    assert ((b - k * 64) * p + r = v) by lia. nia. }
  unfold read_varint. rewrite lookup_app_r, Nat.sub_diag by done.
  cbn [lookup list_lookup app fmap option_fmap option_map mbind option_bind].
  replace (as_u8 b) with b by (symmetry; by apply Z.mod_small).
  rewrite Z.shiftr_div_pow2 by lia. change (2 ^ 6) with 64.
  assert (b / 64 = k) as -> by (symmetry; apply (Z.div_unique b 64 k (b - k * 64)); lia).
  rewrite <- Hn. rewrite !length_app. cbn [List.length]. rewrite length_app, be_bytes_length.
  rewrite (proj2 (Nat.ltb_ge _ _)) by lia. f_equal. f_equal.
  replace (S (List.length pre)) with (List.length pre + 1)%nat by lia.
  rewrite drop_app_add. cbn [drop app]. replace (S m - 1)%nat with m by lia.
  rewrite ?drop_0, take_app_exact by apply be_bytes_length. rewrite varint_fold by done. fold r.
  unfold blen. rewrite be_bytes_length. change 0x3f with (Z.ones 6). rewrite Z.land_ones by lia.
  change (2 ^ 6) with 64. fold p.
  assert (b mod 64 = b - k * 64) as -> by (symmetry; apply (Z.mod_unique b 64 k); lia).
  unfold w in Hval. rewrite Hp in Hval. lia.
Qed.

(** The values a variable-length integer can hold. *)
Definition varint_ok (v : Z) : Prop := 0 <= v < 2 ^ 62.

(** What was appended is read back, and the reader stands after it. *)
Lemma read_put_varint pre v rest : varint_ok v ->
  read_varint (put_varint pre v ++ rest) (List.length pre) = Some (v, List.length (put_varint pre v)).
Proof.
  unfold varint_ok, put_varint. intros Hv. rewrite <- app_assoc, length_app.
  destruct (Z.ltb_spec v (2 ^ 6)); [|destruct (Z.ltb_spec v (2 ^ 14)); [|destruct (Z.ltb_spec v (2 ^ 30))]];
    rewrite be_bytes_length.
  - apply (read_varint_tagged 1 0); [done|lia|simpl; lia].
  - rewrite (Z.mod_small v) by lia. change 0x4000 with (Z.shiftl 1 14). rewrite lor_shiftl_add by lia.
    apply (read_varint_tagged 2 1); [done|lia|simpl; lia].
  - rewrite (Z.mod_small v) by lia. change 0x80000000 with (Z.shiftl 2 30). rewrite lor_shiftl_add by lia.
    apply (read_varint_tagged 4 2); [done|lia|simpl; lia].
  - change 0xc000000000000000 with (Z.shiftl 3 62). rewrite lor_shiftl_add by lia.
    apply (read_varint_tagged 8 3); [done|lia|simpl; lia].
Qed.

Lemma put_varint_length out v : (List.length out < List.length (put_varint out v) <= List.length out + 8)%nat.
Proof. unfold put_varint. rewrite length_app. repeat case_match; rewrite be_bytes_length; lia. Qed.

(** A varint that was complete reads the same after more bytes arrived. *)
Lemma read_varint_app buf pos c r : read_varint buf pos = Some r -> read_varint (buf ++ c) pos = Some r.
Proof.
  unfold read_varint. destruct (buf !! pos) as [b|] eqn:E; simpl; [|done].
  rewrite (lookup_app_l_Some _ _ _ _ E). simpl.
  set (len := Z.to_nat _). destruct (Nat.ltb_spec (List.length buf - pos) len) as [|H]; [done|]. intros [= <-].
  apply lookup_lt_Some in E as Hlt. rewrite length_app.
  rewrite (proj2 (Nat.ltb_ge _ _)) by lia. f_equal. f_equal. f_equal.
  rewrite drop_app_enough by lia. apply take_app_enough. rewrite length_drop. lia.
Qed.

(** A varint takes one, two, four or eight bytes. *)
Lemma varint_length b : 1 <= Z.shiftl 1 (Z.shiftr (as_u8 b) 6) <= 8.
Proof.
  assert (0 <= as_u8 b < 2 ^ 8) as Hb by by apply Z.mod_pos_bound.
  assert (0 <= Z.shiftr (as_u8 b) 6 <= 3) as Hs.
  { rewrite Z.shiftr_div_pow2 by lia. change (2 ^ 6) with 64. split; [apply Z.div_pos; lia|].
    apply Z.lt_succ_r, Z.div_lt_upper_bound; lia. }
  rewrite Z.shiftl_mul_pow2, Z.mul_1_l by lia. split.
  - apply (Z.pow_le_mono_r 2 0); lia.
  - apply (Z.pow_le_mono_r 2 _ 3); lia.
Qed.

Lemma read_varint_pos buf pos v pos' : read_varint buf pos = Some (v, pos') ->
  (pos < pos' <= List.length buf)%nat.
Proof.
  unfold read_varint. destruct (buf !! pos) as [b|] eqn:E; simpl; [|done]. pose proof (varint_length b).
  case_match eqn:Hl; [done|]. apply Nat.ltb_ge in Hl. intros [= <- <-]. apply lookup_lt_Some in E. lia.
Qed.

(** ** Capsules *)

(** Two capsule decoders are alike when they are once the skipped bytes that
    already arrived are gone. *)
#[export] Instance CapsuleDecoder_equiv : Equiv CapsuleDecoder := fun d e => advance_skip d = advance_skip e.

#[export] Instance capsule_decoder : Decoder CapsuleDecoder Capsule CapsuleError := {
  dec_push := CapsuleDecoder_push;
  dec_next := decode_next;
  dec_size d := List.length (cd_buf d);
}.

Lemma advance_skip_idem d : advance_skip (advance_skip d) = advance_skip d.
Proof.
  destruct d as [buf skip]. unfold advance_skip, blen. cbn [cd_buf cd_skip]. rewrite length_drop.
  remember (Z.min skip (Z.of_nat (List.length buf))) as n eqn:Hn.
  assert (Z.min (skip - n) (Z.of_nat (List.length buf - Z.to_nat n)) = 0) as -> by lia.
  change (Z.to_nat 0) with 0%nat. rewrite drop_0. f_equal. lia.
Qed.

Lemma advance_skip_push c d :
  advance_skip (CapsuleDecoder_push c d) = advance_skip (CapsuleDecoder_push c (advance_skip d)).
Proof.
  destruct d as [buf skip]. unfold advance_skip, CapsuleDecoder_push, blen. cbn [cd_buf cd_skip].
  rewrite !length_app, length_drop. remember (Z.min skip (Z.of_nat (List.length buf))) as n eqn:Hn.
  destruct (Z.le_gt_cases skip (Z.of_nat (List.length buf))) as [H|H].
  - assert (Z.min skip (Z.of_nat (List.length buf + List.length c)) = n) as -> by lia.
    assert (Z.min (skip - n) (Z.of_nat (List.length buf - Z.to_nat n + List.length c)) = 0) as -> by lia.
    change (Z.to_nat 0) with 0%nat. rewrite drop_0, drop_app_enough by lia. f_equal. lia.
  - assert (n = Z.of_nat (List.length buf)) as -> by lia. rewrite Nat2Z.id, drop_all. cbn [app].
    rewrite Nat.sub_diag, drop_app_ge by lia. f_equal; [f_equal; lia|lia].
Qed.

(** [decode_capsule] on more bytes. *)
Lemma decode_capsule_push c buf r d' : decode_capsule (mkCapsuleDecoder buf 0) = (r, d') ->
  match r with
  | Ok None => True
  | Ok (Some i) => exists d'', decode_capsule (mkCapsuleDecoder (buf ++ c) 0) = (Ok (Some i), d'') /\
      d'' ≡ CapsuleDecoder_push c d'
  | Err e => exists d'', decode_capsule (mkCapsuleDecoder (buf ++ c) 0) = (Err e, d'')
  end.
Proof.
  unfold decode_capsule. cbn [cd_buf cd_skip]. rewrite !length_app.
  destruct (read_varint buf 0) as [[ty p1]|] eqn:E1; [|by intros [= <- <-]].
  destruct (read_varint buf p1) as [[len p2]|] eqn:E2; [|by intros [= <- <-]].
  rewrite (read_varint_app _ _ c _ E1), (read_varint_app _ _ c _ E2). apply read_varint_pos in E1, E2.
  destruct (negb (ty =? CAPSULE_DATAGRAM)).
  { intros [= <- <-]. eexists. split; [done|]. unfold equiv, CapsuleDecoder_equiv.
    rewrite advance_skip_idem, <- advance_skip_push, drop_app_enough by lia. done. }
  destruct (max_value <? len); [intros [= <- <-]; eauto|].
  destruct (Nat.ltb_spec (List.length buf - p2) (Z.to_nat len)) as [|H]; [by intros [= <- <-]|].
  rewrite (proj2 (Nat.ltb_ge _ _)) by lia. rewrite drop_app_enough by lia.
  rewrite take_app_enough, drop_app_enough by (rewrite length_drop; lia).
  destruct (read_varint (take (Z.to_nat len) (drop p2 buf)) 0) as [[ctx vp]|]; [|intros [= <- <-]; eauto].
  destruct (negb (ctx =? 0)); intros [= <- <-]; eexists; by split.
Qed.

Lemma decode_capsule_size buf i d' : decode_capsule (mkCapsuleDecoder buf 0) = (Ok (Some i), d') ->
  (List.length (cd_buf d') < List.length buf)%nat.
Proof.
  unfold decode_capsule. cbn [cd_buf cd_skip].
  destruct (read_varint buf 0) as [[ty p1]|] eqn:E1; [|done].
  destruct (read_varint buf p1) as [[len p2]|] eqn:E2; [|done]. apply read_varint_pos in E1, E2.
  repeat case_match; try done; intros [= <- <-]; unfold advance_skip; cbn [cd_buf cd_skip];
    rewrite !length_drop; lia.
Qed.

Lemma decode_capsule_none buf d' : decode_capsule (mkCapsuleDecoder buf 0) = (Ok None, d') ->
  d' = mkCapsuleDecoder buf 0.
Proof. unfold decode_capsule. cbn [cd_buf cd_skip]. repeat case_match; congruence. Qed.

Lemma advance_skip_done d : cd_skip (advance_skip d) = 0 ->
  advance_skip d = mkCapsuleDecoder (cd_buf (advance_skip d)) 0.
Proof. destruct (advance_skip d) as [b s]. simpl. by intros ->. Qed.

Lemma advance_skip_size d : (List.length (cd_buf (advance_skip d)) <= List.length (cd_buf d))%nat.
Proof. unfold advance_skip. cbn [cd_buf]. rewrite length_drop. lia. Qed.

Lemma push_done c buf : advance_skip (CapsuleDecoder_push c (mkCapsuleDecoder buf 0)) = mkCapsuleDecoder (buf ++ c) 0.
Proof.
  unfold advance_skip, CapsuleDecoder_push, blen. cbn [cd_buf cd_skip]. by rewrite Z.min_l, drop_0 by lia.
Qed.

(** A call that yields an item or an error found the skipped value gone. *)
Lemma decode_next_push c d r d' : decode_next d = (r, d') -> r <> Ok None ->
  let buf := cd_buf (advance_skip d) in
  decode_capsule (mkCapsuleDecoder buf 0) = (r, d') /\
  decode_next (CapsuleDecoder_push c d) = decode_capsule (mkCapsuleDecoder (buf ++ c) 0).
Proof.
  unfold decode_next. rewrite advance_skip_push.
  destruct (Z.eqb_spec (cd_skip (advance_skip d)) 0) as [E|E]; cbn [negb]; [|intros [= <- <-] Hne; by destruct Hne].
  rewrite (advance_skip_done d E). cbn [cd_buf]. intros Hd _. split; [done|]. by rewrite push_done.
Qed.

#[export] Instance capsule_decoder_laws : DecoderLaws CapsuleDecoder Capsule CapsuleError.
Proof.
  split; unfold equiv, CapsuleDecoder_equiv; simpl.
  - split; [by intros d|by intros d e|by intros d e f ->].
  - intros c d e E. by rewrite advance_skip_push, E, <- advance_skip_push.
  - intros d e E. unfold decode_next. by rewrite E.
  - intros [b k]. unfold CapsuleDecoder_push. simpl. by rewrite app_nil_r.
  - intros c d [b k]. unfold CapsuleDecoder_push. simpl. by rewrite app_assoc.
  - intros d i d' E. destruct (decode_next_push [] d _ _ E) as [Hd _]; [done|].
    apply decode_capsule_size in Hd. pose proof (advance_skip_size d). lia.
  - intros d d'. unfold decode_next.
    destruct (Z.eqb_spec (cd_skip (advance_skip d)) 0) as [E|E]; simpl; [|intros [= <-]; apply advance_skip_idem].
    rewrite (advance_skip_done d E). intros Hd. apply decode_capsule_none in Hd as ->.
    rewrite <- (advance_skip_done d E). apply advance_skip_idem.
  - intros c d i d' E. destruct (decode_next_push c d _ _ E) as [Hd ->]; [done|].
    apply (decode_capsule_push c) in Hd as (d'' & -> & Heq). done.
  - intros c d e d' E. destruct (decode_next_push c d _ _ E) as [Hd ->]; [done|].
    apply (decode_capsule_push c) in Hd as (d'' & ->). done.
Qed.

(** ** gRPC frames *)

(** A receive buffer with the limit and the wire it is read with. *)
Record FrameReader := mkFrameReader { fr_buf : list Z; fr_max : Z; fr_web : bool }.

#[export] Instance FrameReader_equiv : Equiv FrameReader := (=).

#[export] Instance frame_decoder : Decoder FrameReader WireFrame FrameError := {
  dec_push c d := mkFrameReader (fr_buf d ++ c) (fr_max d) (fr_web d);
  dec_next d := let '(r, buf) := next_frame (fr_buf d) (fr_max d) (fr_web d) in
    (r, mkFrameReader buf (fr_max d) (fr_web d));
  dec_size d := List.length (fr_buf d);
}.

Lemma next_frame_push c buf max web r buf' : next_frame buf max web = (r, buf') ->
  match r with
  | Ok None => buf' = buf
  | Ok (Some i) => next_frame (buf ++ c) max web = (Ok (Some i), buf' ++ c) /\
      (List.length buf' < List.length buf)%nat
  | Err e => (next_frame (buf ++ c) max web).1 = Err e
  end.
Proof.
  unfold next_frame. rewrite length_app.
  destruct (Nat.ltb_spec (List.length buf) 5) as [|H]; [by intros [= <- <-]|].
  rewrite (proj2 (Nat.ltb_ge _ 5)) by lia. destruct buf as [|flag buf]; [simpl in H; lia|].
  cbn [app head default]. change (drop 1 (flag :: ?l)) with l. simpl List.length in *.
  change (id flag) with flag. destruct (frame_flag flag web) as [trailer|e]; [|by intros [= <- <-]]. rewrite take_app_enough by lia.
  set (len := be_value _). set (limit := if trailer then _ else _).
  destruct (limit <? len); [by intros [= <- <-]|].
  destruct (Nat.ltb_spec (S (List.length buf)) (5 + Z.to_nat len)) as [|H']; [by intros [= <- <-]|].
  intros [= <- <-]. rewrite (proj2 (Nat.ltb_ge _ _)) by lia.
  change (drop 5 (flag :: ?l)) with (drop 4 l). rewrite (drop_app_enough 4) by lia.
  rewrite take_app_enough, drop_app_enough by (rewrite length_drop; lia). split; [done|].
  rewrite !length_drop. lia.
Qed.

#[export] Instance frame_decoder_laws : DecoderLaws FrameReader WireFrame FrameError.
Proof.
  split; unfold equiv, FrameReader_equiv; simpl.
  - apply _.
  - by intros c s t ->.
  - by intros s t ->.
  - intros [b m w]. simpl. by rewrite app_nil_r.
  - intros c d [b m w]. simpl. by rewrite app_assoc.
  - intros [b m w] i s'. simpl. destruct (next_frame b m w) as [r b'] eqn:E. intros [= -> <-].
    by apply (next_frame_push []) in E as [_ ?].
  - intros [b m w] s'. simpl. destruct (next_frame b m w) as [r b'] eqn:E. intros [= -> <-].
    by apply (next_frame_push []) in E as ->.
  - intros c [b m w] i s'. simpl. destruct (next_frame b m w) as [r b'] eqn:E. intros [= -> <-].
    by apply (next_frame_push c) in E as [-> _].
  - intros c [b m w] e s'. simpl. destruct (next_frame b m w) as [r b'] eqn:E. intros [= -> _].
    apply (next_frame_push c) in E. by destruct (next_frame (b ++ c) m w).
Qed.

(** * What was written is read back *)

Lemma next_record_encoded payload record rest : encode_record payload = Some record ->
  next_record (mkRecordDecoder (record ++ rest)) = (Some payload, mkRecordDecoder rest).
Proof.
  unfold encode_record. destruct (Z.ltb_spec MAX_RECORD_PAYLOAD (blen payload)) as [|H]; [done|].
  intros Hr. apply (inj Some) in Hr as <-. unfold MAX_RECORD_PAYLOAD in H. pose proof (blen_nonneg payload).
  unfold next_record, RECORD_PREFIX. cbn [rd_buf]. rewrite <- app_assoc, !length_app, be_bytes_length.
  rewrite (proj2 (Nat.ltb_ge _ 2)) by lia.
  rewrite take_app_exact, drop_app_exact by apply be_bytes_length. rewrite be_value_bytes by (simpl; lia).
  unfold blen. rewrite Nat2Z.id, (proj2 (Nat.ltb_ge _ _)) by lia.
  by rewrite take_app_exact, drop_app_exact.
Qed.

(** A record that is not complete is not read. *)
Lemma next_record_partial payload record k : encode_record payload = Some record -> (k < List.length record)%nat ->
  next_record (mkRecordDecoder (take k record)) = (None, mkRecordDecoder (take k record)).
Proof.
  intros He Hk. destruct (next_record_short (mkRecordDecoder (take k record))) as [|(p & d' & E)]; [done|].
  apply (next_record_push (drop k record)) in E as E'. unfold RecordDecoder_push in E'. cbn [rd_buf] in E'.
  rewrite take_drop in E'. pose proof (next_record_encoded _ _ [] He) as E2. rewrite app_nil_r in E2.
  rewrite E' in E2. injection E2 as _ E2. apply (f_equal (@List.length Z)) in E2.
  rewrite length_app, length_drop in E2. simpl in E2. lia.
Qed.

Lemma drain_records payloads records tail : Forall2 (fun p r => encode_record p = Some r) payloads records ->
  next_record (mkRecordDecoder tail) = (None, mkRecordDecoder tail) ->
  drain (mkRecordDecoder (concat records ++ tail)) = (payloads, None, mkRecordDecoder tail).
Proof.
  intros H Ht. induction H as [|p r payloads records Hp _ IH]; rewrite drain_eq;
    cbn [concat app dec_next record_decoder].
  - by rewrite Ht.
  - by rewrite <- app_assoc, (next_record_encoded _ _ _ Hp), IH.
Qed.

(** What a peer may send on the capsule stream. *)
Inductive wire_capsule :=
  | Wire_Udp (payload : list Z)
  | Wire_Context (ctx : Z) (value : list Z)
  | Wire_Other (ty : Z) (value : list Z).

Definition wire_bytes (w : wire_capsule) : list Z :=
  match w with
  | Wire_Udp payload => encode_capsule payload
  | Wire_Context ctx value =>
      let inner := put_varint [] ctx ++ value in
      put_varint (put_varint [] CAPSULE_DATAGRAM) (blen inner) ++ inner
  | Wire_Other ty value => put_varint (put_varint [] ty) (blen value) ++ value
  end.

Definition wire_ok (w : wire_capsule) : Prop :=
  match w with
  | Wire_Udp payload => blen payload <= MAX_UDP_PAYLOAD
  | Wire_Context ctx value => ctx <> 0 /\ varint_ok ctx /\ blen value <= MAX_UDP_PAYLOAD
  | Wire_Other ty value => ty <> CAPSULE_DATAGRAM /\ varint_ok ty /\ varint_ok (blen value)
  end.

(** What the reader makes of it. *)
Definition capsule_of (w : wire_capsule) : Capsule :=
  match w with
  | Wire_Udp payload => Capsule_Udp payload
  | Wire_Context ctx _ => Capsule_UnregisteredContext ctx
  | Wire_Other ty _ => Capsule_Unknown ty
  end.

(** A capsule of any type [ty] holding [value]. *)
Lemma decode_capsule_header ty value rest : varint_ok ty -> varint_ok (blen value) ->
  let hdr := put_varint (put_varint [] ty) (blen value) in
  let buf := hdr ++ value ++ rest in
  read_varint buf 0 = Some (ty, List.length (put_varint [] ty)) /\
  read_varint buf (List.length (put_varint [] ty)) = Some (blen value, List.length hdr).
Proof.
  intros Ht Hv hdr buf. split; [|by apply read_put_varint].
  unfold buf, hdr. unfold put_varint at 1. rewrite <- app_assoc.
  exact (read_put_varint [] ty _ Ht).
Qed.

Lemma decode_capsule_wire w rest : wire_ok w ->
  decode_capsule (mkCapsuleDecoder (wire_bytes w ++ rest) 0) = (Ok (Some (capsule_of w)), mkCapsuleDecoder rest 0).
Proof.
  assert (forall ctx value, varint_ok ctx -> blen value <= MAX_UDP_PAYLOAD ->
    decode_capsule (mkCapsuleDecoder (put_varint (put_varint [] CAPSULE_DATAGRAM) (blen (put_varint [] ctx ++ value))
      ++ (put_varint [] ctx ++ value) ++ rest) 0) =
    (Ok (Some (if negb (ctx =? 0) then Capsule_UnregisteredContext ctx else Capsule_Udp value)),
     mkCapsuleDecoder rest 0)) as Hdatagram.
  { intros ctx value Hc Hv. set (inner := put_varint [] ctx ++ value).
    pose proof (put_varint_length [] ctx) as Hl. pose proof (blen_nonneg value). simpl in Hl.
    assert (0 <= blen inner <= max_value) as Hi.
    { unfold inner, max_value, CONTEXT_ID_SLACK. rewrite blen_app. unfold blen at 1. unfold blen at 2. lia. }
    destruct (decode_capsule_header CAPSULE_DATAGRAM inner rest) as [E1 E2]; [by vm_compute|
      unfold varint_ok; change max_value with 65535 in Hi; lia|].
    unfold decode_capsule. cbn [cd_buf cd_skip]. rewrite E1, E2. cbn [negb Z.eqb CAPSULE_DATAGRAM].
    rewrite (proj2 (Z.ltb_ge max_value (blen inner))) by lia. rewrite !length_app.
    assert (Z.to_nat (blen inner) = List.length inner) as -> by (unfold blen; lia).
    rewrite (proj2 (Nat.ltb_ge _ _)) by lia.
    rewrite drop_app_exact, take_app_exact, drop_app_exact by done.
    unfold inner. pose proof (read_put_varint [] ctx value Hc) as E3. simpl in E3. rewrite E3.
    rewrite drop_app_exact by done. by destruct (negb (ctx =? 0)). }
  destruct w as [payload|ctx value|ty value]; cbn [wire_bytes capsule_of wire_ok].
  - intros Hp. specialize (Hdatagram 0 payload ltac:(by vm_compute) Hp). cbn [negb Z.eqb] in Hdatagram.
    rewrite <- Hdatagram. f_equal. f_equal. unfold encode_capsule.
    assert (blen (put_varint [] 0 ++ payload) = 1 + blen payload) as -> by (rewrite blen_app; done).
    set (out := put_varint _ (1 + blen payload)).
    change (put_varint out 0) with (out ++ put_varint [] 0). by rewrite <- !app_assoc.
  - intros (Hne & Hc & Hv). rewrite <- (app_assoc (put_varint _ _)), (Hdatagram ctx value Hc Hv).
    by rewrite (proj2 (Z.eqb_neq ctx 0)).
  - intros (Hne & Ht & Hv). rewrite <- app_assoc. destruct (decode_capsule_header ty value rest Ht Hv) as [E1 E2].
    unfold decode_capsule. cbn [cd_buf cd_skip]. rewrite E1, E2. rewrite (proj2 (Z.eqb_neq ty _)) by done. cbn [negb].
    rewrite drop_app_exact by done. unfold advance_skip. cbn [cd_buf cd_skip]. rewrite blen_app.
    pose proof (blen_nonneg rest). rewrite Z.min_l, Z.sub_diag by lia.
    unfold blen. by rewrite Nat2Z.id, drop_app_exact.
Qed.

Lemma advance_skip_clean buf : advance_skip (mkCapsuleDecoder buf 0) = mkCapsuleDecoder buf 0.
Proof.
  pose proof (push_done [] buf) as H. unfold CapsuleDecoder_push in H. cbn [cd_buf cd_skip] in H.
  by rewrite app_nil_r in H.
Qed.

Lemma decode_next_clean buf : decode_next (mkCapsuleDecoder buf 0) = decode_capsule (mkCapsuleDecoder buf 0).
Proof.
  unfold decode_next. by rewrite advance_skip_clean.
Qed.

(** A DATAGRAM capsule that is not complete is not read. *)
Lemma decode_capsule_partial payload k : blen payload <= MAX_UDP_PAYLOAD ->
  (k < List.length (encode_capsule payload))%nat ->
  decode_next (mkCapsuleDecoder (take k (encode_capsule payload)) 0) =
    (Ok None, mkCapsuleDecoder (take k (encode_capsule payload)) 0).
Proof.
  intros Hp Hk. rewrite decode_next_clean. set (buf := take k _).
  destruct (decode_capsule (mkCapsuleDecoder buf 0)) as [r d'] eqn:E.
  pose proof (decode_capsule_push (drop k (encode_capsule payload)) _ _ _ E) as H.
  unfold buf in H. rewrite take_drop in H. pose proof (decode_capsule_wire (Wire_Udp payload) [] Hp) as Hw.
  cbn [wire_bytes capsule_of] in Hw. rewrite app_nil_r in Hw.
  destruct r as [[i|]|e]; [| |by destruct H as (? & ?); congruence].
  - destruct H as (d'' & H & Heq). rewrite Hw in H. injection H as Hi <-.
    (* the item came out of a proper prefix, so bytes would be left over *)
    exfalso. unfold decode_capsule in E. cbn [cd_buf cd_skip] in E.
    destruct (read_varint buf 0) as [[ty p1]|]; [|done]. destruct (read_varint buf p1) as [[len p2]|]; [|done].
    destruct (negb (ty =? CAPSULE_DATAGRAM)); [injection E as E _; subst i; done|].
    destruct (max_value <? len); [done|]. destruct (_ <? _)%nat; [done|].
    assert (d' = mkCapsuleDecoder (drop (Z.to_nat len) (drop p2 buf)) 0) as ->
      by (repeat case_match; congruence).
    unfold equiv, CapsuleDecoder_equiv in Heq. rewrite push_done in Heq.
    change (advance_skip (mkCapsuleDecoder [] 0)) with (mkCapsuleDecoder [] 0) in Heq.
    apply (f_equal cd_buf) in Heq. cbn [cd_buf] in Heq. symmetry in Heq. apply app_nil in Heq as [_ Heq].
    apply (f_equal (@List.length Z)) in Heq. rewrite length_drop in Heq. cbn [List.length] in Heq. lia.
  - by rewrite (decode_capsule_none _ _ E).
Qed.

Lemma drain_capsules ws tail : Forall wire_ok ws ->
  decode_next (mkCapsuleDecoder tail 0) = (Ok None, mkCapsuleDecoder tail 0) ->
  drain (mkCapsuleDecoder (concat (map wire_bytes ws) ++ tail) 0) = (map capsule_of ws, None, mkCapsuleDecoder tail 0).
Proof.
  intros H Ht. induction H as [|w ws Hw _ IH]; rewrite drain_eq; cbn [map concat app dec_next capsule_decoder].
  - by rewrite Ht.
  - by rewrite <- app_assoc, decode_next_clean, (decode_capsule_wire _ _ Hw), IH.
Qed.

(** ** What a drained reader still holds *)

Lemma record_buffer_bound d : drained d -> bytes_ok (rd_buf d) -> RecordDecoder_pending d < 2 + 2 ^ 16.
Proof.
  intros [s H] Hok. simpl in H. destruct (next_record d) as [r d'] eqn:E. injection H as -> _.
  unfold next_record, RECORD_PREFIX, RecordDecoder_pending in *.
  destruct (Nat.ltb_spec (List.length (rd_buf d)) 2) as [|Hl]; [unfold blen; lia|].
  destruct (Nat.ltb_spec (List.length (rd_buf d)) (2 + Z.to_nat (be_value (take 2 (rd_buf d))))) as [Hr|]; [|done].
  pose proof (be_value_bounds (take 2 (rd_buf d))) as Hv. unfold blen in *. rewrite length_take in Hv.
  rewrite Nat.min_l in Hv by lia. specialize (Hv ltac:(by apply Forall_take)). simpl in Hv. lia.
Qed.

Lemma read_varint_None buf pos : read_varint buf pos = None -> (List.length buf < pos + 8)%nat.
Proof.
  unfold read_varint. destruct (buf !! pos) as [b|] eqn:E; simpl.
  - pose proof (varint_length b). case_match eqn:Hl; [|done]. apply Nat.ltb_lt in Hl. lia.
  - apply lookup_ge_None in E. lia.
Qed.

Lemma read_varint_short buf pos v pos' : read_varint buf pos = Some (v, pos') -> (pos' <= pos + 8)%nat.
Proof.
  unfold read_varint. destruct (buf !! pos) as [b|] eqn:E; simpl; [|done].
  pose proof (varint_length b). case_match; [done|]. intros [= <- <-]. lia.
Qed.

Lemma capsule_buffer_bound d : drained d -> cd_skip (advance_skip d) = 0 -> blen (cd_buf (advance_skip d)) < feed_limit.
Proof.
  intros [s H] Hs. simpl in H. unfold decode_next in H. rewrite Hs in H. cbn [Z.eqb negb] in H.
  set (buf := cd_buf (advance_skip d)) in *. unfold decode_capsule in H. fold buf in H.
  change feed_limit with 65551. unfold blen.
  destruct (read_varint buf 0) as [[ty p1]|] eqn:E1; [|apply read_varint_None in E1; lia].
  apply read_varint_short in E1.
  destruct (read_varint buf p1) as [[len p2]|] eqn:E2; [|apply read_varint_None in E2; lia].
  apply read_varint_short in E2.
  destruct (negb (ty =? CAPSULE_DATAGRAM)); [done|].
  destruct (Z.ltb_spec max_value len) as [|Hm]; [done|]. change max_value with 65535 in Hm.
  destruct (Nat.ltb_spec (List.length buf - p2) (Z.to_nat len)) as [Hl|]; [lia|]. repeat case_match; done.
Qed.

(** ** gRPC messages *)

Lemma next_frame_message msg max web rest : blen msg < 2 ^ 32 -> blen msg <= max ->
  next_frame (frame msg ++ rest) max web = (Ok (Some (WireFrame_Message false msg)), rest).
Proof.
  intros Hl Hm. unfold frame. rewrite Z.mod_small by (pose proof (blen_nonneg msg); lia).
  unfold next_frame. rewrite <- !app_assoc. cbn [app]. rewrite (proj2 (Nat.ltb_ge _ _))
    by (cbn [List.length]; rewrite !length_app, be_bytes_length; lia).
  cbn [head default]. change (frame_flag (id 0) web) with (Ok (A:=bool) (E:=FrameError) false).
  change (drop 1 (0 :: ?l)) with l. rewrite take_app_exact by apply be_bytes_length.
  rewrite be_value_bytes by (pose proof (blen_nonneg msg); simpl; lia).
  rewrite (proj2 (Z.ltb_ge _ _)) by done. cbn [List.length]. rewrite !length_app, be_bytes_length.
  assert (Z.to_nat (blen msg) = List.length msg) as -> by (unfold blen; lia).
  rewrite (proj2 (Nat.ltb_ge _ _)) by lia. change (drop 5 (0 :: ?l)) with (drop 4 l).
  rewrite (drop_app_exact 4) by apply be_bytes_length. by rewrite take_app_exact, drop_app_exact.
Qed.
