(* ===== verification/DatagramChannel.v ===== *)
(** Datagram channels (crates/anvil-transport/src/datagram.rs): the two tunnel
    paths a datagram session runs over, [HboneChannel] (hbone_udp.rs) and
    [MasqueChannel] (masque.rs). What the HTTP/2 and HTTP/3 stacks deliver to a
    channel is a list of events, what they answer to a send an argument;
    everything the channel itself does with them (decoding, queueing, counting,
    how it ends) is modelled. *)
From Stdlib Require Import ZArith Lia.
From stdpp Require Import base numbers strings pretty option list.
From S2P Require Import Prelude Text Evidence Request Bytes Decoder Framing.
Open Scope string_scope.
Open Scope list_scope.
Open Scope Z_scope.

(** * The interface *)

(** What arrived on a tunnel channel ([Inbound] without the two constructors of
    connected sockets, which carry an [io::Error]). *)
Inductive Inbound :=
  | Inbound_Datagram (payload : list Z)
  | Inbound_Dropped (what : string)
  | Inbound_Ended (failure : option TransportFailure) (note : string).

Inductive Sent :=
  | Sent_Sent (note : option string)
  | Sent_NotSent (why : string).

(** What [recv] is made of: the front of the queue, and the handler of one
    event of the transport, polled while the queue is empty and the channel is
    live. The laws let a client think of the queue as the items of all the
    events so far: handling an event appends to it. *)
Class Channel (C E : Type) := {
  ch_pop : C -> option (Inbound * C);
  ch_live : C -> bool;
  ch_on : E -> C -> C;
  (** An end is the last thing delivered: a channel that holds one is not
      live. *)
  ch_ok : C -> Prop;
}.

Class ChannelLaws (C E : Type) `{Channel C E} := {
  ch_pop_on e c i c' : ch_live c = true -> ch_pop c = Some (i, c') -> ch_pop (ch_on e c) = Some (i, ch_on e c');
  ch_pop_live c i c' : ch_pop c = Some (i, c') -> ch_live c' = ch_live c;
  ch_ok_on e c : ch_live c = true -> ch_ok c -> ch_ok (ch_on e c);
  ch_ok_pop c i c' : ch_ok c -> ch_pop c = Some (i, c') -> ch_ok c';
  ch_pop_ended c f note c' : ch_ok c -> ch_pop c = Some (Inbound_Ended f note, c') -> ch_live c' = false;
}.

Section Receiving.
Context {C E : Type} `{ChannelLaws C E}.

(** [recv] on the events to come: the next item, [None] while it waits (for
    ever, once the channel is not live). *)
Fixpoint recv (events : list E) (c : C) : option (Inbound * list E * C) :=
  match ch_pop c with
  | Some (i, c') => Some (i, events, c')
  | None =>
      if ch_live c then
        match events with
        | [] => None
        | e :: events' => recv events' (ch_on e c)
        end
      else None
  end.

(** [n] calls of [recv]. *)
Fixpoint receive (n : nat) (events : list E) (c : C) : list Inbound * list E * C :=
  match n with
  | O => ([], events, c)
  | S n' =>
      match recv events c with
      | None => ([], events, c)
      | Some (i, events', c') => let '(items, es, c'') := receive n' events' c' in (i :: items, es, c'')
      end
  end.

(** All events handled at once, nothing taken out. *)
Definition handle_all (events : list E) (c : C) : C :=
  fold_left (fun c e => if ch_live c then ch_on e c else c) events c.

Fixpoint pops (n : nat) (c : C) : list Inbound * C :=
  match n with
  | O => ([], c)
  | S n' =>
      match ch_pop c with
      | None => ([], c)
      | Some (i, c') => let '(items, c'') := pops n' c' in (i :: items, c'')
      end
  end.

Lemma handle_all_dead events c : ch_live c = false -> handle_all events c = c.
Proof. intros Hl. induction events as [|e events IH]; simpl; [done|]. by rewrite Hl. Qed.

Lemma handle_all_cons e events c : ch_live c = true -> handle_all (e :: events) c = handle_all events (ch_on e c).
Proof. unfold handle_all. cbn [fold_left]. by intros ->. Qed.

Lemma pop_handle_all events c i c' : ch_pop c = Some (i, c') ->
  ch_pop (handle_all events c) = Some (i, handle_all events c').
Proof.
  revert c c'. induction events as [|e events IH]; intros c c' Hp; simpl; [done|].
  rewrite (ch_pop_live _ _ _ Hp). destruct (ch_live c) eqn:Hl; [|by apply IH].
  apply IH. by apply ch_pop_on.
Qed.

Lemma recv_handle_all events c :
  match recv events c with
  | Some (i, events', c') => ch_pop (handle_all events c) = Some (i, handle_all events' c')
  | None => ch_pop (handle_all events c) = None
  end.
Proof.
  revert c. induction events as [|e events IH]; intros c; simpl.
  - destruct (ch_pop c) as [[i c']|] eqn:Hp; [done|]. by destruct (ch_live c).
  - destruct (ch_pop c) as [[i c']|] eqn:Hp; [|destruct (ch_live c) eqn:Hl; [apply IH|]].
    + by apply (pop_handle_all (e :: events)) in Hp.
    + by rewrite handle_all_dead.
Qed.

(** Receiving as the events come yields what receiving after all of them
    does. *)
Lemma receive_handle_all n events c :
  let '(items, events', c') := receive n events c in pops n (handle_all events c) = (items, handle_all events' c').
Proof.
  revert events c. induction n as [|n IH]; intros events c; simpl; [done|].
  pose proof (recv_handle_all events c) as Hr. destruct (recv events c) as [[[i events'] c']|]; rewrite Hr; [|done].
  specialize (IH events' c'). destruct (receive n events' c') as [[items es] c'']. by rewrite IH.
Qed.

Lemma recv_ok events c i events' c' : ch_ok c -> recv events c = Some (i, events', c') ->
  ch_ok c' /\ forall f note, i = Inbound_Ended f note -> ch_live c' = false.
Proof.
  revert c. induction events as [|e events IH]; intros c Hc; simpl;
    destruct (ch_pop c) as [[j d]|] eqn:Hp.
  1, 3: intros [= <- <- <-]; split; [by eapply ch_ok_pop|]; intros f note ->; by eapply ch_pop_ended.
  - by destruct (ch_live c).
  - destruct (ch_live c) eqn:Hl; [|done]. apply IH. by apply ch_ok_on.
Qed.

(** When the items of all the events end with an end, receiving yields them,
    and then waits for ever. *)
Lemma receive_to_end n events c items i d f note : ch_ok c ->
  pops n (handle_all events c) = (items ++ [Inbound_Ended f note], d) -> ch_pop d = i ->
  exists events', receive n events c = (items ++ [Inbound_Ended f note], events', d) /\
    (i = None -> recv events' d = None).
Proof.
  intros Hc Hp Hi. pose proof (receive_handle_all n events c) as Hr.
  destruct (receive n events c) as [[items' events'] c'] eqn:Er. rewrite Hp in Hr. injection Hr as <- Hd.
  assert (ch_live c' = false) as Hl.
  { clear Hp Hi Hd i. revert events c items Hc Er. induction n as [|n IH]; intros events c items Hc; simpl.
    - by destruct items.
    - destruct (recv events c) as [[[j es] c1]|] eqn:Ev; [|by destruct items].
      destruct (receive n es c1) as [[js es'] c2] eqn:En. intros [= Hj -> ->].
      destruct (recv_ok _ _ _ _ _ Hc Ev) as [Hc1 Hend]. destruct items as [|k items]; simplify_eq/=.
      + specialize (Hend _ _ eq_refl). destruct n as [|n]; simpl in En; [by simplify_eq|].
        destruct es as [|e es]; simpl in En; rewrite Hend in En;
          destruct (ch_pop c1) as [[? ?]|]; try done; try (by simplify_eq);
          destruct (receive n _ _) as [[? ?] ?]; done.
      + by apply (IH es c1 items). }
  rewrite handle_all_dead in Hd by done. subst c'. exists events'. split; [done|]. intros ->.
  by destruct events'; simpl; rewrite Hi, Hl.
Qed.
End Receiving.

(** * HBONE *)

Record HboneChannel := mkHboneChannel {
  hc_facts : HboneDatagramChannel;
  hc_decoder : RecordDecoder;
  hc_queue : list Inbound;
  hc_stream_open : bool;
  hc_send_closed : option string;
  hc_authority : string;
  hc_marker : string;
  hc_status : Z;
}.

#[export] Instance eta_HboneDatagramChannel : Eta HboneDatagramChannel := fun r =>
  mkHboneDatagramChannel (hdc_records_sent r) (hdc_records_received r) (hdc_oversize_refused r)
    (hdc_truncated_tail_bytes r) (hdc_closed_by r) (hdc_reset_code r).
#[export] Instance eta_HboneChannel : Eta HboneChannel := fun r =>
  mkHboneChannel (hc_facts r) (hc_decoder r) (hc_queue r) (hc_stream_open r) (hc_send_closed r)
    (hc_authority r) (hc_marker r) (hc_status r).

(** [HboneChannel::new] from the tunnel's observation. *)
Definition HboneChannel_new (t : TunnelObservation) : HboneChannel := {|
  hc_facts := HboneDatagramChannel_new;
  hc_decoder := RecordDecoder_new;
  hc_queue := [];
  hc_stream_open := true;
  hc_send_closed := None;
  hc_authority := tun_authority t;
  hc_marker :=
    match find (fun h => String.eqb (he_name h) "x-ferrum-mesh-protocol" || String.eqb (he_name h) "x-istio-protocol")
      (tun_connect_headers t) with
    | Some h => he_name h +:+ ": " +:+ he_value h
    | None => "no protocol marker"
    end;
  hc_status := default 200 (tun_connect_status t);
|}.

Definition hbone_set_closed_by (by_ : ClosedBy) (c : HboneChannel) : HboneChannel :=
  match hdc_closed_by (hc_facts c) with
  | ClosedBy_NotClosed => c <| hc_facts ::= (fun f => f <| hdc_closed_by := by_ |>) |>
  | _ => c
  end.

(** [HboneChannel::end]. *)
Definition hbone_end (closed_by : ClosedBy) (failure : option TransportFailure) (note : string) (c : HboneChannel)
    : HboneChannel :=
  c <| hc_stream_open := false |>
    <| hc_facts ::= (fun f => f <| hdc_closed_by := closed_by |>) |>
    <| hc_queue ::= (fun q => q ++ [Inbound_Ended failure note]) |>.

(** What the HTTP/2 stream delivers: DATA, its end, or an error, classified
    ([classify_h2], [tls_tap]) with whether it is a stream reset. *)
Inductive HboneEvent :=
  | HboneEvent_Data (chunk : list Z)
  | HboneEvent_End
  | HboneEvent_Error (f : TransportFailure) (is_reset : bool).

Section Hbone.
(** The name of an HTTP/2 error code (crate h2). *)
Context (reason_name : Z -> string).

(** [HboneChannel::on_data]. *)
Definition on_data (d : HboneEvent) (c : HboneChannel) : HboneChannel :=
  match d with
  | HboneEvent_Data chunk =>
      let '(records, _, decoder) := drain (RecordDecoder_push chunk (hc_decoder c)) in
      c <| hc_decoder := decoder |> <| hc_queue ::= (fun q => q ++ map Inbound_Datagram records) |>
  | HboneEvent_End =>
      let tail := RecordDecoder_pending (hc_decoder c) in
      if 0 <? tail then
        let c := c <| hc_facts ::= (fun f => f <| hdc_truncated_tail_bytes := tail |>) |> in
        let f := TransportFailure_new Phase_Session FailureKind_BodyIncomplete
          ("the HBONE endpoint ended the datagram tunnel inside a record: " +:+ pretty tail +:+
           " byte(s) of an incomplete [u16 length][payload] record were discarded") in
        hbone_end ClosedBy_Abnormal (Some f)
          ("the HBONE endpoint ended the tunnel inside a datagram record; " +:+ pretty tail +:+
           " byte(s) of the incomplete record were discarded") c
      else
        hbone_end ClosedBy_Peer None "the HBONE endpoint ended the datagram tunnel (END_STREAM on the CONNECT stream)" c
  | HboneEvent_Error f is_reset =>
      let how := match tf_h2_error_code f with
        | Some code =>
            if is_reset then "the HBONE endpoint reset the tunnel stream (RST_STREAM " +:+ reason_name code +:+ ")"
            else "the HTTP/2 connection to the HBONE endpoint ended (GOAWAY " +:+ reason_name code +:+ ")"
        | None => "the connection to the HBONE endpoint was lost: " +:+ tf_message f
        end in
      let c := c <| hc_facts ::= (fun s => s <| hdc_reset_code := option_map reason_name (tf_h2_error_code f) |>) |> in
      let f := mkTransportFailure Phase_Session (tf_kind f) ("the datagram tunnel ended abnormally: " +:+ how)
        (tf_io_error_kind f) (tf_os_error_code f) (tf_tls_alert f) (tf_h2_error_code f) (tf_quic_error_code f)
        (tf_status f) (tf_field f) (tf_deadline_ms f) in
      hbone_end ClosedBy_Abnormal (Some f) how c
  end.

(** The head of the loop of [recv]. *)
Definition hbone_pop (c : HboneChannel) : option (Inbound * HboneChannel) :=
  match hc_queue c with
  | [] => None
  | i :: q =>
      let c := match i with
        | Inbound_Datagram _ => c <| hc_facts ::= (fun f => f <| hdc_records_received ::= (fun n => n ⊞ 1) |>) |>
        | _ => c
        end in
      Some (i, c <| hc_queue := q |>)
  end.

#[export] Instance hbone_channel : Channel HboneChannel HboneEvent := {
  ch_pop := hbone_pop;
  ch_live := hc_stream_open;
  ch_on := on_data;
  ch_ok c := existsb (fun i => if i is Inbound_Ended _ _ then true else false) (hc_queue c) = true ->
    hc_stream_open c = false;
}.
End Hbone.

(** One answer of the stream while a record is written ([poll_capacity], then
    [send_data]). *)
Inductive Capacity :=
  | Capacity_Granted (n : Z) (send : result unit string)
  | Capacity_Error (e : string)
  | Capacity_Closed.

(** [write_record]: the DATA frames handed over and how it ended, [None] while
    it waits for an answer. *)
Fixpoint write_record (answers : list Capacity) (record : list Z) : list (list Z) * option (result unit string) :=
  match record with
  | [] => ([], Some (Ok tt))
  | _ =>
      match answers with
      | [] => ([], None)
      | Capacity_Granted n send :: answers' =>
          if n =? 0 then write_record answers' record
          else
            let k := Z.to_nat (Z.min n (blen record)) in
            match send with
            | Err e => ([], Some (Err ("the tunnel stream no longer accepts data (" +:+ e +:+ ")")))
            | Ok _ => let '(frames, r) := write_record answers' (drop k record) in (take k record :: frames, r)
            end
      | Capacity_Error e :: _ => ([], Some (Err ("the tunnel stream no longer accepts data (" +:+ e +:+ ")")))
      | Capacity_Closed :: _ => ([], Some (Err "the tunnel stream is closed for sending"))
      end
  end.

(** [HboneChannel::send] with the answers of the stream: the DATA frames
    written, what is reported ([None] while it waits) and the channel after. *)
Definition hbone_send (answers : list Capacity) (payload : list Z) (c : HboneChannel)
    : list (list Z) * option Sent * HboneChannel :=
  match encode_record payload with
  | None => ([], Some (Sent_NotSent ("a " +:+ pretty (blen payload) +:+ "-byte datagram exceeds the " +:+
      pretty MAX_RECORD_PAYLOAD +:+
      " bytes one HBONE datagram record can carry; it was refused locally and not sent")),
      c <| hc_facts ::= (fun f => f <| hdc_oversize_refused ::= (fun n => n ⊞ 1) |>) |>)
  | Some record =>
      match hc_send_closed c with
      | Some why => ([], Some (Sent_NotSent ("a " +:+ pretty (blen payload) +:+ "-byte datagram was not sent: " +:+ why)), c)
      | None =>
          match write_record answers record with
          | (frames, None) => (frames, None, c)
          | (frames, Some (Ok _)) => (frames, Some (Sent_Sent None),
              c <| hc_facts ::= (fun f => f <| hdc_records_sent ::= (fun n => n ⊞ 1) |>) |>)
          | (frames, Some (Err why)) =>
              (frames, Some (Sent_NotSent ("a " +:+ pretty (blen payload) +:+ "-byte datagram was not sent: " +:+ why)),
               c <| hc_send_closed := Some why |>)
          end
      end
  end.

(** * MASQUE *)

Inductive Queued :=
  | Queued_Udp (payload : list Z) (encoding : MasqueEncoding)
  | Queued_Dropped (what : string)
  | Queued_Ended (failure : option TransportFailure) (note : string).

Record MasqueChannel := mkMasqueChannel {
  mc_quarter : Z;
  mc_mode : MasqueDatagramMode;
  mc_status : MasqueTunnel;
  mc_decoder : CapsuleDecoder;
  mc_queue : list Queued;
  mc_stream_open : bool;
  mc_ended : bool;
  mc_capsule_fallback_noted : bool;
}.

#[export] Instance eta_MasqueTunnel : Eta MasqueTunnel := fun r =>
  mkMasqueTunnel (mt_proxy r) (mt_target r) (mt_extended_connect r) (mt_h3_datagrams r) (mt_connect_status r)
    (mt_encoding r) (mt_sent_quic_datagrams r) (mt_sent_capsules r) (mt_received_quic_datagrams r)
    (mt_received_capsules r) (mt_dropped r) (mt_closed_by r).
#[export] Instance eta_MasqueChannel : Eta MasqueChannel := fun r =>
  mkMasqueChannel (mc_quarter r) (mc_mode r) (mc_status r) (mc_decoder r) (mc_queue r) (mc_stream_open r)
    (mc_ended r) (mc_capsule_fallback_noted r).

Definition masque_set_closed_by (by_ : ClosedBy) (c : MasqueChannel) : MasqueChannel :=
  match mt_closed_by (mc_status c) with
  | ClosedBy_NotClosed => c <| mc_status ::= (fun s => s <| mt_closed_by := by_ |>) |>
  | _ => c
  end.

(** [MasqueChannel::end]. *)
Definition masque_end (failure : option TransportFailure) (note : string) (c : MasqueChannel) : MasqueChannel :=
  c <| mc_stream_open := false |>
    <| mc_status ::= (fun s => s <| mt_closed_by :=
         match failure with Some _ => ClosedBy_Abnormal | None => ClosedBy_Peer end |>) |>
    <| mc_queue ::= (fun q => q ++ [Queued_Ended failure note]) |>.

Definition enqueue (items : list Queued) (c : MasqueChannel) : MasqueChannel :=
  c <| mc_queue ::= (fun q => q ++ items) |>.

(** [{v:x}] of an unsigned integer. *)
Fixpoint lower_hex_aux (fuel : nat) (v : Z) (acc : string) : string :=
  match fuel with
  | O => acc
  | S fuel' =>
      let acc := String (hex_digit (v mod 16)) acc in
      if v / 16 =? 0 then acc else lower_hex_aux fuel' (v / 16) acc
  end.

(** Sixteen digits hold a [u64]. *)
Definition lower_hex (v : Z) : string := lower_hex_aux 16 v "".

Definition queued_of (i : Capsule) : Queued :=
  match i with
  | Capsule_Udp p => Queued_Udp p MasqueEncoding_Capsule
  | Capsule_UnregisteredContext ctx =>
      Queued_Dropped ("a DATAGRAM capsule with unregistered context ID " +:+ pretty ctx)
  | Capsule_Unknown ty => Queued_Dropped ("a capsule of unknown type 0x" +:+ lower_hex ty)
  end.

(** What a QUIC DATAGRAM frame queues. *)
Definition queued_frame (d : QuicDatagram) : Queued :=
  match d with
  | QuicDatagram_Udp p => Queued_Udp p MasqueEncoding_QuicDatagram
  | QuicDatagram_UnregisteredContext ctx =>
      Queued_Dropped ("an HTTP Datagram with unregistered context ID " +:+ pretty ctx)
  | QuicDatagram_OtherStream q =>
      Queued_Dropped ("a QUIC DATAGRAM frame for another request stream (quarter ID " +:+ pretty q +:+ ")")
  | QuicDatagram_Malformed => Queued_Dropped "a malformed QUIC DATAGRAM frame"
  end.

(** The slices of at most [feed_limit] bytes the decoder is pushed. *)
Fixpoint slices (fuel : nat) (rest : list Z) : list (list Z) :=
  match fuel, rest with
  | S fuel', _ :: _ =>
      let n := Nat.min (List.length rest) (Z.to_nat feed_limit) in
      take n rest :: slices fuel' (drop n rest)
  | _, _ => []
  end.

(** What the CONNECT stream and the QUIC connection deliver; failures are
    classified by their module ([h3::stream_failure], [h3::quic_failure]). *)
Inductive MasqueEvent :=
  | MasqueEvent_Quic (datagram : list Z)
  | MasqueEvent_QuicError (f : TransportFailure)
  | MasqueEvent_Stream (bytes : list Z)
  | MasqueEvent_StreamEnd
  | MasqueEvent_StreamError (f : TransportFailure).

(** [MasqueChannel::on_quic]. *)
Definition on_quic (d : result (list Z) TransportFailure) (c : MasqueChannel) : MasqueChannel :=
  match d with
  | Ok d => enqueue [queued_frame (decode_quic_datagram d (mc_quarter c))] c
  | Err f =>
      masque_end (Some (mkTransportFailure Phase_Session (tf_kind f)
        ("the QUIC connection to the MASQUE proxy ended during the tunnel: " +:+ tf_message f)
        (tf_io_error_kind f) (tf_os_error_code f) (tf_tls_alert f) (tf_h2_error_code f) (tf_quic_error_code f)
        (tf_status f) (tf_field f) (tf_deadline_ms f)))
        "the QUIC connection to the proxy ended" c
  end.

(** [MasqueChannel::on_stream]. *)
Definition on_stream (s : result (option (list Z)) TransportFailure) (c : MasqueChannel) : MasqueChannel :=
  match s with
  | Ok (Some bytes) =>
      let '(items, error, decoder) := feed (slices (List.length bytes) bytes) (mc_decoder c) in
      let c := enqueue (map queued_of items) (c <| mc_decoder := decoder |>) in
      match error with
      | None => c
      | Some e =>
          masque_end (Some (TransportFailure_new Phase_Session FailureKind_HttpProtocolError
              ("the proxy's capsule stream is malformed: " +:+ CapsuleError_describe e)))
            "the proxy's capsule stream is malformed" c
      end
  | Ok None =>
      match CapsuleDecoder_finish (mc_decoder c) with
      | Ok _ => masque_end None "the proxy closed the tunnel (FIN on the CONNECT stream)" c
      | Err e =>
          masque_end (Some (TransportFailure_new Phase_Session FailureKind_BodyIncomplete
              ("the proxy ended the CONNECT-UDP stream abnormally: " +:+ CapsuleError_describe e)))
            "the proxy ended the CONNECT-UDP stream inside a capsule" c
      end
  | Err f => masque_end (Some f) "the proxy reset the CONNECT-UDP stream" c
  end.

(** The stream is polled while it is open. *)
Definition on_masque (e : MasqueEvent) (c : MasqueChannel) : MasqueChannel :=
  let stream s := if mc_stream_open c then on_stream s c else c in
  match e with
  | MasqueEvent_Quic d => on_quic (Ok d) c
  | MasqueEvent_QuicError f => on_quic (Err f) c
  | MasqueEvent_Stream bytes => stream (Ok (Some bytes))
  | MasqueEvent_StreamEnd => stream (Ok None)
  | MasqueEvent_StreamError f => stream (Err f)
  end.

(** The head of the loop of [recv]. *)
Definition masque_pop (c : MasqueChannel) : option (Inbound * MasqueChannel) :=
  match mc_queue c with
  | [] => None
  | q :: queue =>
      let c := c <| mc_queue := queue |> in
      Some match q with
      | Queued_Udp p MasqueEncoding_QuicDatagram =>
          (Inbound_Datagram p, c <| mc_status ::= (fun s => s <| mt_received_quic_datagrams ::= (fun n => n ⊞ 1) |>) |>)
      | Queued_Udp p MasqueEncoding_Capsule =>
          (Inbound_Datagram p, c <| mc_status ::= (fun s => s <| mt_received_capsules ::= (fun n => n ⊞ 1) |>) |>)
      | Queued_Dropped what => (Inbound_Dropped what, c <| mc_status ::= (fun s => s <| mt_dropped ::= (fun n => n ⊞ 1) |>) |>)
      | Queued_Ended failure note => (Inbound_Ended failure note, c <| mc_ended := true |>)
      end
  end.

Definition is_ended (q : Queued) : bool := match q with Queued_Ended _ _ => true | _ => false end.

(** The loop goes on unless the end was delivered; an end that is queued is
    delivered before anything else is polled. *)
#[export] Instance masque_channel : Channel MasqueChannel MasqueEvent := {
  ch_pop := masque_pop;
  ch_live c := negb (mc_ended c || existsb is_ended (mc_queue c));
  ch_on := on_masque;
  ch_ok _ := True;
}.

(** What the QUIC connection answers to a DATAGRAM frame. *)
Inductive QuicSend :=
  | QuicSend_Ok
  | QuicSend_TooLarge
  | QuicSend_Failed (e : string).

(** What a send hands over. *)
Inductive Wire :=
  | Wire_QuicDatagram (d : list Z)
  | Wire_Capsule (data : list Z).

Definition sent_capsule (note : option string) (payload : list Z) (stream : result unit TransportFailure)
    (c : MasqueChannel) : list Wire * result Sent TransportFailure * MasqueChannel :=
  match stream with
  | Ok _ => ([Wire_Capsule (encode_capsule payload)], Ok (Sent_Sent note),
      c <| mc_status ::= (fun s => s <| mt_sent_capsules ::= (fun n => n ⊞ 1) |>) |>)
  | Err f => ([], Err f, c <| mc_status ::= (fun s => s <| mt_closed_by := ClosedBy_Abnormal |>) |>)
  end.

#[export] Instance MasqueEncoding_eq_dec : EqDecision MasqueEncoding.
Proof. solve_decision. Defined.

(** [MasqueChannel::send]; [quic] and [stream] are what the connection and the
    CONNECT stream answer, [max_size] the connection's DATAGRAM limit. *)
Definition masque_send (quic : QuicSend) (stream : result unit TransportFailure) (max_size : option Z)
    (payload : list Z) (c : MasqueChannel) : list Wire * result Sent TransportFailure * MasqueChannel :=
  if MAX_UDP_PAYLOAD <? blen payload then
    ([], Ok (Sent_NotSent ("a " +:+ pretty (blen payload) +:+ "-byte datagram exceeds the RFC 9298 limit of " +:+
      pretty MAX_UDP_PAYLOAD +:+ " bytes")), c)
  else if bool_decide (mt_encoding (mc_status c) = Some MasqueEncoding_QuicDatagram) then
    match quic with
    | QuicSend_Ok => ([Wire_QuicDatagram (encode_quic_datagram (mc_quarter c) payload)], Ok (Sent_Sent None),
        c <| mc_status ::= (fun s => s <| mt_sent_quic_datagrams ::= (fun n => n ⊞ 1) |>) |>)
    | QuicSend_TooLarge =>
        match mc_mode c with
        | MasqueDatagramMode_Auto =>
            let note := if mc_capsule_fallback_noted c then None else
              Some "a datagram larger than the QUIC path's DATAGRAM frame limit was sent as a DATAGRAM capsule instead" in
            sent_capsule note payload stream (c <| mc_capsule_fallback_noted := true |>)
        | _ => ([], Ok (Sent_NotSent ("a " +:+ pretty (blen payload) +:+
            "-byte datagram exceeds the QUIC DATAGRAM frame limit (" +:+ pretty (default 0 max_size) +:+
            " bytes) and QUIC datagrams are required; it was not sent")), c)
        end
    | QuicSend_Failed e => ([], Err (TransportFailure_new Phase_Session FailureKind_RequestWriteFailed
          ("sending a QUIC DATAGRAM frame failed: " +:+ e)),
        c <| mc_status ::= (fun s => s <| mt_closed_by := ClosedBy_Abnormal |>) |>)
    end
  else sent_capsule None payload stream c.

(** [MasqueChannel::max_datagram]. *)
Definition masque_max_datagram (max_size : option Z) (c : MasqueChannel) : option Z :=
  match mt_encoding (mc_status c) with
  | Some MasqueEncoding_QuicDatagram =>
      let ids := put_varint (put_varint [] (mc_quarter c)) 0 in
      option_map (fun m => Z.max 0 (m - blen ids)) max_size
  | _ => None
  end.

(** * What the channels promise *)

#[export] Instance hbone_channel_laws reason_name : @ChannelLaws HboneChannel HboneEvent (hbone_channel reason_name).
Proof.
  split; simpl.
  - intros e c i c' _. unfold hbone_pop. destruct (hc_queue c) as [|j q] eqn:Eq; [done|]. intros [= <- <-].
    destruct c. simpl in Eq. subst.
    destruct j, e; simpl; repeat case_match; simplify_eq/=; done.
  - intros c i c'. unfold hbone_pop. destruct (hc_queue c) as [|j q]; [done|]. intros [= <- <-]. by destruct c, j.
  - intros e c Hl Hc. destruct e; simpl; repeat case_match; try done.
    intros He. simpl in He. rewrite existsb_app in He. apply orb_true_iff in He as [He|He]; [by apply Hc|].
    apply existsb_exists in He as (i & Hi & Hf). apply in_map_iff in Hi as (pl & <- & _). done.
  - intros c i c' Hc. unfold hbone_pop. destruct (hc_queue c) as [|j q] eqn:Eq; [done|]. intros [= <- <-].
    destruct c, j; simpl in *; subst; simpl in *; auto.
  - intros c f note c' Hc. unfold hbone_pop. destruct (hc_queue c) as [|j q] eqn:Eq; [done|]. intros [= -> <-].
    destruct c; simpl in *; subst; simpl in *; auto.
Qed.

#[export] Instance masque_channel_laws : @ChannelLaws MasqueChannel MasqueEvent masque_channel.
Proof.
  split; simpl; try done.
  - intros e c i c' _. unfold masque_pop. destruct (mc_queue c) as [|j q] eqn:Eq; [done|]. intros [= Hj].
    destruct c as [quarter mode status decoder queue stream ended noted]. simpl in Eq. subst queue.
    (* the handlers read neither the queue nor what a pop counts *)
    destruct e as [d|f|bytes| |f]; simpl; destruct j as [p []| |]; simpl in *; simplify_eq/=;
      destruct stream; simpl; repeat case_match; simplify_eq/=; done.
  - intros c i c'. unfold masque_pop. destruct (mc_queue c) as [|j q] eqn:Eq; [done|]. intros [= Hj].
    destruct j as [p []| |]; simplify_eq/=; by destruct (mc_ended c).
  - intros c f note c' _. unfold masque_pop. destruct (mc_queue c) as [|j q]; [done|]. intros [= Hj].
    destruct j as [p []| |]; simplify_eq/=; done.
Qed.

Section HboneStream.
Context (reason_name : Z -> string).
#[local] Existing Instance hbone_channel.
Abbreviation handle := (handle_all (H := hbone_channel reason_name)).

Lemma feed_no_error chunks d : (feed chunks d).1.2 = @None Empty_set.
Proof. by destruct (feed chunks d) as [[? [[]|]] ?]. Qed.

(** DATA in any chunks queues what the decoder yields. *)
Lemma hbone_data chunks c : hc_stream_open c = true ->
  let '(records, _, decoder) := feed chunks (hc_decoder c) in
  handle (map HboneEvent_Data chunks) c =
    c <| hc_decoder := decoder |> <| hc_queue ::= (fun q => q ++ map Inbound_Datagram records) |>.
Proof.
  revert c. induction chunks as [|chunk chunks IH]; intros c Ho.
  - simpl. destruct c. simpl. by rewrite app_nil_r.
  - cbn [map feed]. rewrite handle_all_cons by done. cbn [ch_on hbone_channel on_data dec_push record_decoder].
    destruct (drain (RecordDecoder_push chunk (hc_decoder c))) as [[records [[]|]] decoder].
    set (c1 := c <| hc_decoder := decoder |> <| hc_queue ::= (fun q => q ++ map Inbound_Datagram records) |>).
    specialize (IH c1 Ho). change (hc_decoder c1) with decoder in IH.
    destruct (feed chunks decoder) as [[more e] decoder']. rewrite IH. unfold c1.
    destruct c; simpl. by rewrite map_app, app_assoc.
Qed.

Lemma hbone_pops ps f note c : hc_queue c = map Inbound_Datagram ps ++ [Inbound_Ended f note] ->
  pops (H := hbone_channel reason_name) (S (List.length ps)) c =
    (map Inbound_Datagram ps ++ [Inbound_Ended f note],
     c <| hc_queue := [] |>
       <| hc_facts ::= (fun s => s <| hdc_records_received ::= (fun n => foldr (fun _ m => m ⊞ 1) n ps) |>) |>).
Proof.
  revert c. induction ps as [|p ps IH]; intros c Hq.
  - simpl in *. unfold hbone_pop. rewrite Hq. by destruct c as [[]].
  - change (S (List.length (p :: ps))) with (S (S (List.length ps))). remember (S (List.length ps)) as n.
    simpl. unfold hbone_pop at 1. rewrite Hq. simpl.
    rewrite IH by done. destruct c as [[]]; simpl. f_equal. f_equal. f_equal.
    clear. generalize hdc_records_received as m. induction ps as [|? ps IH]; intros m; simpl; [done|]. by rewrite IH.
Qed.
End HboneStream.

Lemma count_up {A} (l : list A) n : foldr (fun _ m => m ⊞ 1) n l = (n + Z.of_nat (List.length l)) mod 2 ^ 64 \/ l = [].
Proof.
  induction l as [|a l IH]; [by right|left]. cbn [foldr List.length].
  destruct IH as [->| ->]; [|by unfold add64]. unfold add64. rewrite Zplus_mod_idemp_l. f_equal. lia.
Qed.

(** However the HTTP/2 stream cuts what the HBONE endpoint sent, the session
    receives exactly the datagrams of its complete records, in order, then the
    end of the tunnel, and nothing after it. An end between records is the
    endpoint's clean close; an end inside a record discards the partial record,
    is an abnormal end and says how many bytes were lost. *)
Theorem hbone_delivers reason_name t payloads records last_payload last_record k chunks :
  Forall2 (fun p r => encode_record p = Some r) payloads records ->
  encode_record last_payload = Some last_record -> (k < List.length last_record)%nat ->
  concat chunks = concat records ++ take k last_record ->
  exists failure note events c,
    receive (H := hbone_channel reason_name) (S (List.length payloads))
      (map HboneEvent_Data chunks ++ [HboneEvent_End]) (HboneChannel_new t) =
      (map Inbound_Datagram payloads ++ [Inbound_Ended failure note], events, c) /\
    recv (H := hbone_channel reason_name) events c = None /\
    (failure = None <-> k = 0%nat) /\
    hdc_closed_by (hc_facts c) = (if decide (k = 0%nat) then ClosedBy_Peer else ClosedBy_Abnormal) /\
    hdc_truncated_tail_bytes (hc_facts c) = Z.of_nat k /\
    hdc_records_received (hc_facts c) = Z.of_nat (List.length payloads) mod 2 ^ 64.
Proof.
  intros Hrec Hlast Hk Hcut. set (c0 := HboneChannel_new t).
  pose proof (hbone_data reason_name chunks c0 eq_refl) as Hdata.
  pose proof (feed_concat chunks (hc_decoder c0)) as Hfeed.
  destruct (feed chunks (hc_decoder c0)) as [[items e] decoder] eqn:Ef.
  destruct Hfeed as (Hitems & He & Hd); [by eexists|].
  change (dec_push (concat chunks) (hc_decoder c0)) with (mkRecordDecoder (concat chunks)) in *.
  rewrite Hcut, (drain_records payloads records) in Hitems, He, Hd by (done || by apply (next_record_partial last_payload)).
  simpl in Hitems, He, Hd. subst items e. specialize (Hd eq_refl). unfold equiv, RecordDecoder_equiv in Hd. subst decoder.
  assert (Hpend : RecordDecoder_pending (mkRecordDecoder (take k last_record)) = Z.of_nat k).
  { unfold RecordDecoder_pending, blen. simpl. rewrite length_take. lia. }
  set (c1 := c0 <| hc_decoder := mkRecordDecoder (take k last_record) |>
    <| hc_queue ::= (fun q => q ++ map Inbound_Datagram payloads) |>) in Hdata.
  assert (exists f note, handle_all (H := hbone_channel reason_name) (map HboneEvent_Data chunks ++ [HboneEvent_End]) c0
      = hbone_end (if decide (k = 0%nat) then ClosedBy_Peer else ClosedBy_Abnormal) f note
          (c1 <| hc_facts ::= (fun s => s <| hdc_truncated_tail_bytes := Z.of_nat k |>) |>) /\
      (f = None <-> k = 0%nat)) as (f & note & Hall & Hf).
  { unfold handle_all in *. rewrite fold_left_app, Hdata. cbn [fold_left ch_live ch_on hbone_channel].
    change (hc_stream_open c1) with true. cbn [on_data]. change (hc_decoder c1) with (mkRecordDecoder (take k last_record)).
    rewrite Hpend. destruct (decide (k = 0%nat)) as [->|Hne].
    - simpl. eexists None, _. split; [|done]. done.
    - rewrite (proj2 (Z.ltb_lt _ _)) by lia. eexists (Some _), _. split; [done|]. split; [done|lia]. }
  pose proof (hbone_pops reason_name payloads f note (handle_all (H := hbone_channel reason_name)
    (map HboneEvent_Data chunks ++ [HboneEvent_End]) c0) ltac:(by rewrite Hall)) as Hp.
  destruct (receive_to_end (H := hbone_channel reason_name) _ _ c0 _ None _ _ _ ltac:(done) Hp eq_refl) as (es & Hr & Hn).
  eexists f, note, es, _. split; [exact Hr|]. split; [by apply Hn|]. rewrite Hall.
  split; [exact Hf|]. split; [done|]. split; [done|]. simpl.
  destruct (count_up payloads 0) as [->| ->]; done.
Qed.

(** ** The capsule stream *)

(** A channel as [open] leaves it, with the facts of the tunnel it opened. *)
Definition MasqueChannel_opened (quarter : Z) (mode : MasqueDatagramMode) (status : MasqueTunnel) : MasqueChannel := {|
  mc_quarter := quarter;
  mc_mode := mode;
  mc_status := status;
  mc_decoder := CapsuleDecoder_new;
  mc_queue := [];
  mc_stream_open := true;
  mc_ended := false;
  mc_capsule_fallback_noted := false;
|}.

Lemma feed_app {S I E} `{Decoder S I E} xs ys (s : S) : feed (I := I) (E := E) (xs ++ ys) s =
  let '(items, e, s') := feed xs s in
  match e with
  | Some e => (items, Some e, s')
  | None => let '(more, e, s'') := feed ys s' in (items ++ more, e, s'')
  end.
Proof.
  revert s. induction xs as [|x xs IH]; intros s; cbn [app feed].
  - by destruct (feed ys s) as [[? ?] ?].
  - destruct (drain (dec_push x s)) as [[items [e|]] s']; [done|]. rewrite IH.
    destruct (feed xs s') as [[more [e|]] s'']; [done|].
    destruct (feed ys s'') as [[? ?] ?]. by rewrite app_assoc.
Qed.

Lemma slices_concat fuel bytes : (List.length bytes <= fuel)%nat -> concat (slices fuel bytes) = bytes.
Proof.
  revert bytes. induction fuel as [|fuel IH]; intros bytes Hf; [destruct bytes; [done|simpl in Hf; lia]|].
  destruct bytes as [|b bytes]; [done|]. cbn [slices concat].
  rewrite IH; [by rewrite take_drop|]. rewrite length_drop. change (Z.to_nat feed_limit) with (S (Z.to_nat 65550)).
  simpl in *. lia.
Qed.

Lemma slices_bound fuel bytes : Forall (fun s => blen s <= feed_limit) (slices fuel bytes).
Proof.
  revert bytes. induction fuel as [|fuel IH]; intros bytes; [constructor|]. destruct bytes as [|b bytes]; constructor; [|by apply IH].
  unfold blen. rewrite length_take. assert (0 <= feed_limit) by done. lia.
Qed.

(** DATA in any chunks queues what the decoder yields, while it makes sense. *)
Lemma masque_data chunks c items decoder : mc_stream_open c = true -> ch_live (E := MasqueEvent) c = true ->
  feed (concat (map (fun b => slices (List.length b) b) chunks)) (mc_decoder c) = (items, None, decoder) ->
  handle_all (map MasqueEvent_Stream chunks) c =
    c <| mc_decoder := decoder |> <| mc_queue ::= (fun q => q ++ map queued_of items) |>.
Proof.
  revert c items. induction chunks as [|b chunks IH]; intros c items Ho Hl.
  - simpl. intros [= <- <-]. destruct c. simpl. by rewrite app_nil_r.
  - cbn [map concat]. rewrite feed_app, handle_all_cons by done. cbn [ch_on masque_channel on_masque on_stream].
    rewrite Ho. destruct (feed (slices _ b) (mc_decoder c)) as [[is1 [e|]] d1]; [done|].
    set (c1 := enqueue (map queued_of is1) (c <| mc_decoder := d1 |>)).
    destruct (feed _ d1) as [[is2 e] d2] eqn:E2. intros [= <- -> ->].
    rewrite (IH c1 is2); [|done| |done].
    + unfold c1. destruct c; simpl. by rewrite map_app, app_assoc.
    + simpl in *. rewrite existsb_app. apply negb_true_iff, orb_false_iff in Hl as [-> ->]. simpl.
      clear. induction is1 as [|i is1 IH]; [done|]. by destruct i.
Qed.

Definition delivered (i : Capsule) : Inbound :=
  match queued_of i with
  | Queued_Udp p _ => Inbound_Datagram p
  | Queued_Dropped what => Inbound_Dropped what
  | Queued_Ended f note => Inbound_Ended f note
  end.

Definition is_udp (i : Capsule) : bool := match i with Capsule_Udp _ => true | _ => false end.

Lemma masque_pops items f note c : mc_queue c = map queued_of items ++ [Queued_Ended f note] ->
  exists c', pops (E := MasqueEvent) (S (List.length items)) c = (map delivered items ++ [Inbound_Ended f note], c') /\
    mc_queue c' = [] /\
    mt_received_capsules (mc_status c') =
      foldr (fun _ m => m ⊞ 1) (mt_received_capsules (mc_status c)) (List.filter is_udp items) /\
    mt_dropped (mc_status c') =
      foldr (fun _ m => m ⊞ 1) (mt_dropped (mc_status c)) (List.filter (fun i => negb (is_udp i)) items) /\
    mt_closed_by (mc_status c') = mt_closed_by (mc_status c).
Proof.
  assert (forall A (l : list A) n, foldr (fun _ m => m ⊞ 1) (n ⊞ 1) l = foldr (fun _ m => m ⊞ 1) n l ⊞ 1) as Hcomm.
  { intros A l n. induction l as [|a l IH]; simpl; [done|]. by rewrite IH. }
  revert c. induction items as [|i items IH]; intros c Hq.
  - cbn [List.length pops ch_pop masque_channel]. unfold masque_pop. rewrite Hq. simpl. by eexists.
  - change (S (List.length (i :: items))) with (S (S (List.length items))). remember (S (List.length items)) as n.
    cbn [pops ch_pop masque_channel]. unfold masque_pop at 1. rewrite Hq. cbn [map app].
    set (c1 := c <| mc_queue := map queued_of items ++ [Queued_Ended f note] |>).
    destruct i as [p|ctx|ty]; cbn [queued_of];
      match goal with |- context [pops n ?d] => destruct (IH d eq_refl) as (c' & -> & Hc & H1 & H2 & H3) end;
      exists c'; (split; [done|]); (split; [done|]); rewrite H1, H2, H3; simpl; by rewrite ?Hcomm.
Qed.

(** The state a drain leaves has counted down what it could. *)
Lemma drain_settled d items d' : drain (E := CapsuleError) d = (items, None, d') -> advance_skip d' = d'.
Proof.
  revert items. induction d as [d IH] using drain_ind. intros items. rewrite drain_eq. cbn [dec_next capsule_decoder].
  destruct (decode_next d) as [[[i|]|e] s] eqn:En; [|intros [= <- <-]|done].
  - destruct (drain s) as [[is1 e] s'] eqn:Ed. intros [= <- -> ->]. by eapply IH.
  - unfold decode_next in En. destruct (Z.eqb_spec (cd_skip (advance_skip d)) 0) as [E|E]; cbn [negb] in En.
    + rewrite (advance_skip_done d E) in En. apply decode_capsule_none in En as ->. apply advance_skip_clean.
    + injection En as <-. apply advance_skip_idem.
Qed.

Lemma feed_settled chunks d items d' : advance_skip d = d -> feed (E := CapsuleError) chunks d = (items, None, d') ->
  d' = advance_skip d'.
Proof.
  revert d items. induction chunks as [|c chunks IH]; intros d items Hd; cbn [feed]; [by intros [= _ <-]|].
  destruct (drain (dec_push c d)) as [[is1 [e|]] s] eqn:Ed; [done|].
  destruct (feed chunks s) as [[is2 e] s'] eqn:Ef. intros [= _ -> ->].
  apply (IH s is2); [|done]. by eapply drain_settled.
Qed.

(** However the CONNECT stream cuts what the proxy sent, the session
    receives exactly what its complete capsules say, in order (a UDP payload, or
    a note that an unregistered context or an unknown capsule type was dropped,
    its value skipped), then the end of the tunnel, and nothing after it. A FIN
    between capsules is the proxy's clean close; a FIN inside one is an abnormal
    end. Every payload and every dropped item is counted. *)
Theorem masque_delivers quarter mode status ws last_payload k chunks :
  Forall wire_ok ws -> blen last_payload <= MAX_UDP_PAYLOAD ->
  (k < List.length (encode_capsule last_payload))%nat ->
  concat chunks = concat (map wire_bytes ws) ++ take k (encode_capsule last_payload) ->
  mt_received_capsules status = 0 -> mt_dropped status = 0 ->
  exists failure note events c,
    receive (S (List.length ws)) (map MasqueEvent_Stream chunks ++ [MasqueEvent_StreamEnd])
      (MasqueChannel_opened quarter mode status) =
      (map (fun w => delivered (capsule_of w)) ws ++ [Inbound_Ended failure note], events, c) /\
    recv events c = None /\
    (failure = None <-> k = 0%nat) /\
    mt_closed_by (mc_status c) = (if decide (k = 0%nat) then ClosedBy_Peer else ClosedBy_Abnormal) /\
    mt_received_capsules (mc_status c) =
      Z.of_nat (List.length (List.filter is_udp (map capsule_of ws))) mod 2 ^ 64 /\
    mt_dropped (mc_status c) =
      Z.of_nat (List.length (List.filter (fun i => negb (is_udp i)) (map capsule_of ws))) mod 2 ^ 64.
Proof.
  intros Hws Hlast Hk Hcut H0 H1. set (c0 := MasqueChannel_opened quarter mode status).
  set (tail := take k (encode_capsule last_payload)) in *.
  pose proof (decode_capsule_partial last_payload k Hlast Hk) as Hpart. fold tail in Hpart.
  set (pieces := concat (map (fun b => slices (List.length b) b) chunks)).
  assert (Hpieces : concat pieces = concat chunks).
  { unfold pieces. clear. induction chunks as [|b chunks IH]; [done|]. cbn [map concat].
    by rewrite concat_app, IH, slices_concat. }
  pose proof (feed_concat pieces (mc_decoder c0)) as Hfeed.
  destruct (feed pieces (mc_decoder c0)) as [[items e] decoder] eqn:Ef.
  destruct Hfeed as (Hitems & He & Hd); [by eexists|]. rewrite Hpieces in Hitems, He, Hd.
  change (dec_push (concat chunks) (mc_decoder c0)) with (mkCapsuleDecoder (concat chunks) 0) in Hitems, He, Hd.
  rewrite Hcut, (drain_capsules ws tail Hws Hpart) in Hitems, He, Hd. simpl in Hitems, He, Hd. subst items e.
  specialize (Hd eq_refl). unfold equiv, CapsuleDecoder_equiv in Hd.
  pose proof (masque_data chunks c0 _ _ eq_refl eq_refl Ef) as Hdata.
  set (c1 := c0 <| mc_decoder := decoder |> <| mc_queue ::= (fun q => q ++ map queued_of (map capsule_of ws)) |>) in Hdata.
  pose proof (feed_settled _ _ _ _ eq_refl Ef) as Hs. rewrite <- Hs, advance_skip_clean in Hd. clear Hs. subst decoder.
  assert (List.length tail = k) as Htail by (unfold tail; rewrite length_take; lia).
  assert (exists f note, handle_all (map MasqueEvent_Stream chunks ++ [MasqueEvent_StreamEnd]) c0 = masque_end f note c1 /\
      (f = None <-> k = 0%nat)) as (f & note & Hall & Hf).
  { unfold handle_all in *. rewrite fold_left_app, Hdata. cbn [fold_left].
    assert (ch_live (E := MasqueEvent) c1 = true) as ->.
    { simpl. clear. induction (map capsule_of ws) as [|i is' IH]; [done|]. by destruct i. }
    cbn [ch_on masque_channel on_masque on_stream]. change (mc_stream_open c1) with true.
    change (mc_decoder c1) with (mkCapsuleDecoder tail 0). unfold CapsuleDecoder_finish. cbn [cd_buf cd_skip].
    destruct tail as [|b tail]; simpl in Htail |- *.
    - eexists None, _. split; [done|]. split; [|done]. intros _. lia.
    - eexists (Some _), _. split; [done|]. split; [done|lia]. }
  destruct (masque_pops (map capsule_of ws) f note (handle_all (map MasqueEvent_Stream chunks ++ [MasqueEvent_StreamEnd]) c0))
    as (c & Hp & Hq & H2 & H3 & H4); [by rewrite Hall|].
  rewrite length_map, map_map in Hp.
  assert (ch_pop (E := MasqueEvent) c = None) as Hnone by (simpl; unfold masque_pop; by rewrite Hq).
  assert (@ch_ok MasqueChannel MasqueEvent masque_channel c0) as Hok by exact Logic.I.
  destruct (receive_to_end (E := MasqueEvent) _ _ c0 _ None _ _ _ Hok Hp Hnone) as (es & Hr & Hn).
  exists f, note, es, c. split; [exact Hr|]. split; [by apply Hn|]. split; [exact Hf|].
  rewrite H4, H2, H3, Hall. simpl. rewrite H0, H1. split; [|split].
  - destruct f; destruct (decide (k = 0%nat)) as [Hz|Hz]; try done; [by apply Hf in Hz|by destruct Hz; apply Hf].
  - destruct (count_up (List.filter is_udp (map capsule_of ws)) 0) as [->| ->]; done.
  - destruct (count_up (List.filter (fun i => negb (is_udp i)) (map capsule_of ws)) 0) as [->| ->]; done.
Qed.

(** ** What a channel holds *)

Lemma settled_bound d : drained (E := CapsuleError) d -> advance_skip d = d -> blen (cd_buf d) < feed_limit.
Proof.
  intros Hd Hs. destruct (decide (cd_skip d = 0)) as [Hz|Hz].
  - pose proof (capsule_buffer_bound d Hd) as Hb. rewrite Hs in Hb. by apply Hb.
  - apply (f_equal cd_skip) in Hs. unfold advance_skip in Hs. cbn [cd_skip] in Hs.
    pose proof (blen_nonneg (cd_buf d)). change feed_limit with 65551. lia.
Qed.

Lemma feed_bound chunks d items d' : blen (cd_buf d) < feed_limit -> feed (E := CapsuleError) chunks d = (items, None, d') ->
  blen (cd_buf d') < feed_limit.
Proof.
  revert d items. induction chunks as [|c chunks IH]; intros d items Hd; cbn [feed]; [by intros [= _ <-]|].
  destruct (drain (dec_push c d)) as [[is1 [e|]] s] eqn:Ed; [done|].
  destruct (feed chunks s) as [[is2 e] s'] eqn:Ef. intros [= _ -> ->]. apply (IH s is2); [|done].
  apply settled_bound; [by eapply drain_drained|by eapply drain_settled].
Qed.

(** The states of a channel: opened, and after events and deliveries. *)
Inductive masque_reached : MasqueChannel -> Prop :=
  | masque_reached_open quarter mode status : masque_reached (MasqueChannel_opened quarter mode status)
  | masque_reached_event e c : masque_reached c -> ch_live (E := MasqueEvent) c = true -> masque_reached (on_masque e c)
  | masque_reached_pop i c c' : masque_reached c -> masque_pop c = Some (i, c') -> masque_reached c'.

Lemma masque_end_closed f note c : mc_stream_open (masque_end f note c) = false.
Proof. done. Qed.

Lemma masque_reached_bound c : masque_reached c -> mc_stream_open c = true ->
  blen (cd_buf (mc_decoder c)) < feed_limit.
Proof.
  induction 1 as [| e c Hc IH _ | i c c' Hc IH Hp].
  - intros _. by vm_compute.
  - destruct (mc_stream_open c) eqn:Ho.
    + destruct e as [d|f|bytes| |f]; simpl; rewrite ?Ho; simpl; try done; try (by intros _; apply IH).
      * destruct (feed _ (mc_decoder c)) as [[items [e|]] d] eqn:Ef; [done|]. simpl. intros _.
        eapply feed_bound; [|exact Ef]. by apply IH.
      * by destruct (CapsuleDecoder_finish _).
    + intros H. destruct e; simpl in H; rewrite ?Ho in H; simpl in H; congruence.
  - unfold masque_pop in Hp. destruct (mc_queue c) as [|q queue]; [done|]. injection Hp as Hp.
    destruct q as [p []| |]; simplify_eq/=; apply IH.
Qed.

(** Whatever the proxy sends and in whatever pieces, the capsule reader
    never holds two capsules: under one maximal capsule between reads, and
    under twice that right after a slice of what arrived was appended, however
    large the chunk. *)
Theorem capsule_memory_bounded c bytes j slice : masque_reached c -> mc_stream_open c = true ->
  slices (List.length bytes) bytes !! j = Some slice ->
  blen (cd_buf (mc_decoder c)) < feed_limit /\
  let '(_, error, decoder) := feed (E := CapsuleError) (take j (slices (List.length bytes) bytes)) (mc_decoder c) in
  error = None -> blen (cd_buf (CapsuleDecoder_push slice decoder)) < 2 * feed_limit.
Proof.
  intros Hc Ho Hj. pose proof (masque_reached_bound c Hc Ho) as Hb. split; [done|].
  destruct (feed _ (mc_decoder c)) as [[items error] d] eqn:Ef. intros ->.
  apply (feed_bound _ _ _ _ Hb) in Ef. simpl. rewrite blen_app.
  pose proof (slices_bound (List.length bytes) bytes) as Hs. rewrite Forall_lookup in Hs. specialize (Hs j slice Hj). lia.
Qed.

(** ** Sending *)

Lemma write_record_frames answers record : let '(frames, r) := write_record answers record in
  exists rest, concat frames ++ rest = record /\ (r = Some (Ok tt) <-> rest = []).
Proof.
  revert record. induction answers as [|a answers IH]; intros record; destruct record as [|b record]; simpl;
    try (by exists []); try (by exists (b :: record)).
  destruct a as [n send|e|]; [|by exists (b :: record)|by exists (b :: record)].
  destruct (n =? 0); [apply IH|]. destruct send as [u|e]; [|by exists (b :: record)].
  set (k := Z.to_nat (Z.min n (blen (b :: record)))). specialize (IH (drop k (b :: record))).
  destruct (write_record answers (drop k (b :: record))) as [frames r]. destruct IH as (rest & Hr & Hiff).
  exists rest. split; [|done]. simpl. rewrite <- app_assoc, Hr. apply take_drop.
Qed.

(** Whatever capacity the stream grants, sending a datagram writes a prefix
    of its record cut into DATA frames, and reports and counts it exactly when
    all of it was taken; an oversized datagram is refused and counted with
    nothing written, and once the stream refused a record nothing more is
    written. *)
Theorem hbone_send_exact answers payload c :
  let '(frames, sent, c') := hbone_send answers payload c in
  let count c := hdc_records_sent (hc_facts c) in
  match encode_record payload, hc_send_closed c with
  | None, _ => frames = [] /\ MAX_RECORD_PAYLOAD < blen payload /\ count c' = count c /\
      hdc_oversize_refused (hc_facts c') = hdc_oversize_refused (hc_facts c) ⊞ 1
  | Some _, Some _ => frames = [] /\ c' = c /\ sent <> Some (Sent_Sent None)
  | Some record, None => exists rest, concat frames ++ rest = record /\
      (sent = Some (Sent_Sent None) <-> rest = []) /\
      count c' = (if decide (rest = []) then count c ⊞ 1 else count c) /\
      (hc_send_closed c' = None <-> rest = [] \/ sent = None)
  end.
Proof.
  unfold hbone_send. destruct (encode_record payload) as [record|] eqn:Ee.
  - destruct (hc_send_closed c) as [why|] eqn:Ec; [by repeat split|].
    pose proof (write_record_frames answers record) as Hw. destruct (write_record answers record) as [frames r].
    destruct Hw as (rest & Hcat & Hiff).
    destruct r as [[[]|why]|]; exists rest; (split; [done|]); destruct (decide (rest = [])) as [Hr|Hr]; simpl;
      rewrite ?Ec; naive_solver.
  - unfold encode_record in Ee. by destruct (Z.ltb_spec MAX_RECORD_PAYLOAD (blen payload)).
Qed.

(** * Concrete runs *)

Definition demo_tunnel : TunnelObservation :=
  mkTunnelObservation TunnelKind_Hbone "mesh:15008" "10.0.0.9:53" [] None [] None None [] None [] (Some 200) [] None false None None.

(** Two records and three bytes of a third, cut after the first byte. *)
Lemma hbone_delivers_witness :
  exists failure note events c,
    receive (H := hbone_channel pretty) 3
      (map HboneEvent_Data [[0]; [2; 7; 8; 0; 1; 9; 0; 5; 1]] ++ [HboneEvent_End]) (HboneChannel_new demo_tunnel) =
      ([Inbound_Datagram [7; 8]; Inbound_Datagram [9]; Inbound_Ended failure note], events, c) /\
    failure <> None /\ hdc_truncated_tail_bytes (hc_facts c) = 3.
Proof.
  destruct (hbone_delivers pretty demo_tunnel [[7; 8]; [9]] [[0; 2; 7; 8]; [0; 1; 9]] [1; 2; 3; 4; 5]
    [0; 5; 1; 2; 3; 4; 5] 3 [[0]; [2; 7; 8; 0; 1; 9; 0; 5; 1]]) as (failure & note & events & c & Hr & _ & Hf & _ & Ht & _).
  - repeat constructor.
  - reflexivity.
  - simpl. lia.
  - reflexivity.
  - exists failure, note, events, c. split; [exact Hr|]. split; [intros E; by apply Hf in E|exact Ht].
Defined.

Definition demo_masque : MasqueTunnel :=
  mkMasqueTunnel "proxy:443" "10.0.0.9:53" (Some true) (Some false) (Some 200) (Some MasqueEncoding_Capsule) 0 0 0 0 0 ClosedBy_NotClosed.

(** A payload, a capsule of an unknown type, and nothing after. *)
Lemma masque_delivers_witness :
  exists failure note events c,
    receive 3 (map MasqueEvent_Stream [[0; 3; 0]; [7; 8; 5; 2; 1]; [1]] ++ [MasqueEvent_StreamEnd])
      (MasqueChannel_opened 0 MasqueDatagramMode_Auto demo_masque) =
      ([Inbound_Datagram [7; 8]; Inbound_Dropped "a capsule of unknown type 0x5"; Inbound_Ended failure note], events, c) /\
    failure = None /\ mt_received_capsules (mc_status c) = 1.
Proof.
  destruct (masque_delivers 0 MasqueDatagramMode_Auto demo_masque [Wire_Udp [7; 8]; Wire_Other 5 [1; 1]] [] 0
    [[0; 3; 0]; [7; 8; 5; 2; 1]; [1]]) as (failure & note & events & c & Hr & _ & Hf & _ & Hc & _).
  - repeat constructor; by vm_compute.
  - by vm_compute.
  - vm_compute. lia.
  - reflexivity.
  - reflexivity.
  - reflexivity.
  - exists failure, note, events, c. split; [exact Hr|]. split; [by apply Hf|exact Hc].
Defined.

Lemma capsule_memory_bounded_witness :
  let c := MasqueChannel_opened 0 MasqueDatagramMode_Auto demo_masque in
  blen (cd_buf (mc_decoder c)) < feed_limit /\
  let '(_, error, decoder) := feed (E := CapsuleError) (take 0 (slices 2 [0; 3])) (mc_decoder c) in
  error = None -> blen (cd_buf (CapsuleDecoder_push [0; 3] decoder)) < 2 * feed_limit.
Proof.
  apply (capsule_memory_bounded (MasqueChannel_opened 0 MasqueDatagramMode_Auto demo_masque) [0; 3] 0 [0; 3]).
  - constructor.
  - reflexivity.
  - reflexivity.
Defined.
