(* ===== verification/Utf8.v ===== *)
(** UTF-8 as the standard library checks it: [str::from_utf8] and
    [String::from_utf8_lossy] on byte lists. [utf8_next] is one step of both:
    the length of the first character, or of the first malformed sequence (the
    longest prefix of a character that the next byte cannot continue). *)
From Stdlib Require Import ZArith Lia Ascii String.
From stdpp Require Import base numbers strings list.
From S2P Require Import Prelude Text Bytes.
Open Scope list_scope.
Open Scope Z_scope.

Definition between (lo hi b : Z) : bool := (lo <=? b) && (b <=? hi).
Definition is_cont (b : Z) : bool := between 0x80 0xBF b.

(** The bytes that may follow the first byte of a character of three or four
    bytes. *)
Definition second_of_three (b c : Z) : bool :=
  if b =? 0xE0 then between 0xA0 0xBF c
  else if b =? 0xED then between 0x80 0x9F c
  else is_cont c.

Definition second_of_four (b c : Z) : bool :=
  if b =? 0xF0 then between 0x90 0xBF c
  else if b =? 0xF4 then between 0x80 0x8F c
  else is_cont c.

Inductive utf8_item :=
  | Utf8_Char (len : nat)
  | Utf8_Malformed (len : nat).

(** A byte past the end reads as zero. *)
Definition byte_at (bs : list Z) (i : nat) : Z := default 0 (bs !! i).

Definition utf8_next (bs : list Z) : utf8_item :=
  let b := byte_at bs 0 in let c1 := byte_at bs 1 in let c2 := byte_at bs 2 in let c3 := byte_at bs 3 in
  if b <? 0x80 then Utf8_Char 1
  else if between 0xC2 0xDF b then
    if is_cont c1 then Utf8_Char 2 else Utf8_Malformed 1
  else if between 0xE0 0xEF b then
    if negb (second_of_three b c1) then Utf8_Malformed 1
    else if negb (is_cont c2) then Utf8_Malformed 2
    else Utf8_Char 3
  else if between 0xF0 0xF4 b then
    if negb (second_of_four b c1) then Utf8_Malformed 1
    else if negb (is_cont c2) then Utf8_Malformed 2
    else if negb (is_cont c3) then Utf8_Malformed 3
    else Utf8_Char 4
  else Utf8_Malformed 1.

Fixpoint utf8_valid_aux (fuel : nat) (bs : list Z) : bool :=
  match fuel, bs with
  | _, [] => true
  | O, _ => false
  | S fuel', _ =>
      match utf8_next bs with
      | Utf8_Char n => utf8_valid_aux fuel' (drop n bs)
      | Utf8_Malformed _ => false
      end
  end.

(** Every step takes at least one byte. *)
Definition utf8_valid (bs : list Z) : bool := utf8_valid_aux (List.length bs) bs.

(** [str::from_utf8]. *)
Definition from_utf8 (bs : list Z) : option string :=
  if utf8_valid bs then Some (string_of_bytes bs) else None.

(** U+FFFD. *)
Definition REPLACEMENT : list Z := [0xEF; 0xBF; 0xBD].

Fixpoint utf8_lossy_aux (fuel : nat) (bs : list Z) : list Z :=
  match fuel, bs with
  | _, [] => []
  | O, _ => []
  | S fuel', _ =>
      match utf8_next bs with
      | Utf8_Char n => take n bs ++ utf8_lossy_aux fuel' (drop n bs)
      | Utf8_Malformed n => REPLACEMENT ++ utf8_lossy_aux fuel' (drop n bs)
      end
  end.

Definition utf8_lossy (bs : list Z) : list Z := utf8_lossy_aux (List.length bs) bs.

(** [String::from_utf8_lossy]. *)
Definition from_utf8_lossy (bs : list Z) : string := string_of_bytes (utf8_lossy bs).

Lemma utf8_next_len bs : exists n, (1 <= n)%nat /\ (utf8_next bs = Utf8_Char n \/ utf8_next bs = Utf8_Malformed n).
Proof.
  unfold utf8_next.
  repeat case_match; first [eexists; split; [|by left]; lia | eexists; split; [|by right]; lia].
Qed.

Lemma utf8_valid_fuel n m bs : (List.length bs <= n)%nat -> (List.length bs <= m)%nat ->
  utf8_valid_aux n bs = utf8_valid_aux m bs.
Proof.
  revert m bs. induction n as [|n IH]; intros m bs Hn Hm.
  - destruct bs; [by destruct m|simpl in Hn; lia].
  - destruct bs as [|b bs]; [by destruct m|]. destruct m as [|m]; [simpl in Hm; lia|]. cbn [utf8_valid_aux].
    destruct (utf8_next_len (b :: bs)) as (k & Hk & [->| ->]); [|done].
    apply IH; rewrite length_drop; simpl in *; lia.
Qed.

Lemma utf8_lossy_fuel n m bs : (List.length bs <= n)%nat -> (List.length bs <= m)%nat ->
  utf8_lossy_aux n bs = utf8_lossy_aux m bs.
Proof.
  revert m bs. induction n as [|n IH]; intros m bs Hn Hm.
  - destruct bs; [by destruct m|simpl in Hn; lia].
  - destruct bs as [|b bs]; [by destruct m|]. destruct m as [|m]; [simpl in Hm; lia|]. cbn [utf8_lossy_aux].
    destruct (utf8_next_len (b :: bs)) as (k & Hk & [->| ->]); f_equal; apply IH; rewrite length_drop; simpl in *; lia.
Qed.

Lemma utf8_valid_eq b bs : utf8_valid (b :: bs) =
  match utf8_next (b :: bs) with
  | Utf8_Char n => utf8_valid (drop n (b :: bs))
  | Utf8_Malformed _ => false
  end.
Proof.
  unfold utf8_valid at 1. cbn [List.length utf8_valid_aux].
  destruct (utf8_next_len (b :: bs)) as (k & Hk & [->| ->]); [|done].
  apply utf8_valid_fuel; rewrite ?length_drop; simpl; lia.
Qed.

Lemma utf8_lossy_eq b bs : utf8_lossy (b :: bs) =
  match utf8_next (b :: bs) with
  | Utf8_Char n => take n (b :: bs) ++ utf8_lossy (drop n (b :: bs))
  | Utf8_Malformed n => REPLACEMENT ++ utf8_lossy (drop n (b :: bs))
  end.
Proof.
  unfold utf8_lossy at 1. cbn [List.length utf8_lossy_aux].
  destruct (utf8_next_len (b :: bs)) as (k & Hk & [->| ->]); f_equal;
    apply utf8_lossy_fuel; rewrite ?length_drop; simpl; lia.
Qed.

(** Induction over the characters and malformed sequences of the bytes. *)
Lemma utf8_ind (P : list Z -> Prop) : P [] ->
  (forall b bs, (forall n, (1 <= n)%nat -> P (drop n (b :: bs))) -> P (b :: bs)) -> forall bs, P bs.
Proof.
  intros H0 Hs bs. remember (List.length bs) as n eqn:Hn. revert bs Hn.
  induction n as [n IH] using lt_wf_ind. intros [|b bs] ->; [done|]. apply Hs. intros k Hk.
  eapply IH; [|done]. rewrite length_drop. simpl. lia.
Qed.

(** Valid text is decoded as it is. *)
Lemma utf8_lossy_valid bs : utf8_valid bs = true -> utf8_lossy bs = bs.
Proof.
  induction bs as [|b bs IH] using utf8_ind; [done|]. rewrite utf8_valid_eq, utf8_lossy_eq.
  destruct (utf8_next_len (b :: bs)) as (k & Hk & [->| ->]); [|done]. intros H. rewrite IH by done. apply take_drop.
Qed.

Lemma from_utf8_lossy_string s : utf8_valid (bytes_of_string s) = true -> from_utf8_lossy (bytes_of_string s) = s.
Proof. intros H. unfold from_utf8_lossy. by rewrite utf8_lossy_valid, string_of_bytes_of. Qed.

Lemma utf8_next_ascii b bs : b < 0x80 -> utf8_next (b :: bs) = Utf8_Char 1.
Proof. intros H. unfold utf8_next, byte_at. cbn. by rewrite (proj2 (Z.ltb_lt _ _)). Qed.

Lemma utf8_valid_ascii_cons b bs : b < 0x80 -> utf8_valid (b :: bs) = utf8_valid bs.
Proof. intros H. by rewrite utf8_valid_eq, utf8_next_ascii. Qed.

Lemma utf8_valid_ascii_app a bs : Forall (fun b => b < 0x80) a -> utf8_valid (a ++ bs) = utf8_valid bs.
Proof. induction 1 as [|b a Hb _ IH]; [done|]. cbn [app]. by rewrite utf8_valid_ascii_cons. Qed.

Lemma utf8_lossy_ascii_cons b bs : b < 0x80 -> utf8_lossy (b :: bs) = b :: utf8_lossy bs.
Proof. intros H. by rewrite utf8_lossy_eq, utf8_next_ascii. Qed.

#[global] Arguments utf8_valid : simpl never.
#[global] Arguments utf8_lossy : simpl never.

(** The bytes of a replaced sequence, from the standard library's examples. *)
Example lossy_truncated : utf8_lossy [0x48; 0xF0; 0x90; 0x80; 0x57] = [0x48] ++ REPLACEMENT ++ [0x57].
Proof. reflexivity. Qed.

Example lossy_surrogate : utf8_lossy [0xED; 0xA0; 0x80] = REPLACEMENT ++ REPLACEMENT ++ REPLACEMENT.
Proof. reflexivity. Qed.
