(* ===== verification/Sse.v ===== *)
(** Server-sent events (crates/anvil-transport/src/sse.rs, [SseParser]): the
    incremental [text/event-stream] parser, byte by byte, with its bounds on a
    line, on the data of an event and on ids and types, and the byte order mark
    that may be split across chunks. A parser call changes the parser and the
    events already out, and may fail; it is a function from the two to the two
    and an error. *)
From Stdlib Require Import ZArith Lia Ascii String.
From stdpp Require Import base numbers strings pretty option list.
From S2P Require Import Prelude Text Bytes Utf8.
Open Scope string_scope.
Open Scope list_scope.
Open Scope Z_scope.

Definition MAX_EVENT_METADATA_BYTES : Z := 4 * 1024.

Record SseEvent := mkSseEvent {
  se_id : option string;
  se_event_type : string;
  se_data : string;
}.

Record SseParser := mkSseParser {
  sp_line : list Z;
  sp_data : string;
  sp_has_data : bool;
  sp_event_type : string;
  sp_last_event_id : option string;
  sp_retry_ms : option Z;
  sp_bom_checked : bool;
  sp_bom_matched : nat;
  sp_pending_cr : bool;
  sp_max_line : Z;
}.

#[export] Instance eta_SseParser : Eta SseParser := fun r =>
  mkSseParser (sp_line r) (sp_data r) (sp_has_data r) (sp_event_type r) (sp_last_event_id r) (sp_retry_ms r)
    (sp_bom_checked r) (sp_bom_matched r) (sp_pending_cr r) (sp_max_line r).

Definition BOM : list Z := [0xEF; 0xBB; 0xBF].

Definition metadata_error (field : string) : string :=
  "an event-stream " +:+ field +:+ " field exceeded " +:+ pretty MAX_EVENT_METADATA_BYTES +:+ " bytes".

(** [slice::strip_prefix]. *)
Fixpoint strip_bytes (prefix bs : list Z) : option (list Z) :=
  match prefix, bs with
  | [], _ => Some bs
  | p :: prefix', b :: bs' => if p =? b then strip_bytes prefix' bs' else None
  | _ :: _, [] => None
  end.

(** [oversized_metadata]. *)
Definition oversized_metadata (line : list Z) : option string :=
  find (fun field =>
    match strip_bytes (bytes_of_string field) line ≫= strip_bytes [58] with
    | Some rest => MAX_EVENT_METADATA_BYTES <? blen (default rest (strip_bytes [32] rest))
    | None => false
    end) ["id"; "event"].

(** [SseParser::new]. *)
Definition SseParser_new (max_line : Z) : SseParser :=
  mkSseParser [] "" false "" None None false 0 false (Z.max max_line 1024).

Definition max_event_data (p : SseParser) : Z := Z.min U64_MAX (sp_max_line p * 4).

(** [SseParser::reset_stream]. *)
Definition reset_stream (p : SseParser) : SseParser :=
  p <| sp_line := [] |> <| sp_data := "" |> <| sp_has_data := false |> <| sp_event_type := "" |>
    <| sp_bom_checked := false |> <| sp_bom_matched := 0%nat |> <| sp_pending_cr := false |>.

(** A parser with the events it dispatched, and how a call ended. *)
Definition Fed : Type := SseParser * list SseEvent * result unit string.

(** The event being built is dropped. *)
Definition drop_event (p : SseParser) : SseParser :=
  p <| sp_data := "" |> <| sp_has_data := false |> <| sp_event_type := "" |>.

(** [data.pop()] of a string that ends with a newline. *)
Fixpoint pop_newline (s : string) : string :=
  match s with
  | "" => ""
  | String c "" => if Ascii.eqb c "010" then "" else s
  | String c s' => String c (pop_newline s')
  end.

(** [str::parse::<u64>] of a value that holds only digits. *)
Definition parse_u64_digits (value : string) : option Z :=
  v ← digits_value 0 value;
  if v <=? U64_MAX then Some v else None.

Definition is_digits (value : string) : bool :=
  negb (str_is_empty value) && forallb (fun b => (48 <=? b) && (b <=? 57)) (bytes_of_string value).

(** The name and value of a field line. *)
Definition field_of (line : string) : string * string :=
  match split_once ":" line with
  | Some (f, v) => (f, default v (str_strip_prefix " " v))
  | None => (line, "")
  end.

(** [end_line] on a field. *)
Definition field_line (field value : string) (p : SseParser) (out : list SseEvent) : Fed :=
  if (String.eqb field "event" || String.eqb field "id") && (MAX_EVENT_METADATA_BYTES <? str_len value) then
    (drop_event p, out, Err (metadata_error field))
  else if String.eqb field "event" then (p <| sp_event_type := value |>, out, Ok tt)
  else if String.eqb field "data" then
    if max_event_data p <? str_len (sp_data p) + str_len value then
      (drop_event p, out, Err ("an event-stream event's data exceeded " +:+ pretty (max_event_data p) +:+ " bytes"))
    else (p <| sp_data := sp_data p +:+ value +:+ String "010" "" |> <| sp_has_data := true |>, out, Ok tt)
  else if String.eqb field "id" && negb (str_contains value (String "000" "")) then
    (p <| sp_last_event_id := Some value |>, out, Ok tt)
  else if String.eqb field "retry" && is_digits value then
    (p <| sp_retry_ms := parse_u64_digits value |>, out, Ok tt)
  else (p, out, Ok tt).

(** [SseParser::end_line]. *)
Definition end_line (p : SseParser) (out : list SseEvent) : Fed :=
  let line := from_utf8_lossy (sp_line p) in
  let p := p <| sp_line := [] |> in
  if str_is_empty line then
    let out :=
      if sp_has_data p then
        out ++ [mkSseEvent (sp_last_event_id p)
          (if str_is_empty (sp_event_type p) then "message" else sp_event_type p) (pop_newline (sp_data p))]
      else out in
    (drop_event p, out, Ok tt)
  else if starts_with line ":" then (p, out, Ok tt)
  else let '(field, value) := field_of line in field_line field value p out.

(** One byte of [feed_bytes]. *)
Definition feed_byte (b : Z) (p : SseParser) (out : list SseEvent) : Fed :=
  if sp_pending_cr p && (b =? 10) then (p <| sp_pending_cr := false |>, out, Ok tt)
  else
    let p := p <| sp_pending_cr := false |> in
    if b =? 10 then end_line p out
    else if b =? 13 then end_line (p <| sp_pending_cr := true |>) out
    else if sp_max_line p <=? blen (sp_line p) then
      (p, out, Err ("an event-stream line exceeded " +:+ pretty (sp_max_line p) +:+ " bytes"))
    else
      let p := p <| sp_line := sp_line p ++ [b] |> in
      match (if MAX_EVENT_METADATA_BYTES <? blen (sp_line p) then oversized_metadata (sp_line p) else None) with
      | Some field => (drop_event (p <| sp_line := [] |>), out, Err (metadata_error field))
      | None => (p, out, Ok tt)
      end.

(** [SseParser::feed_bytes]. *)
Fixpoint feed_bytes (chunk : list Z) (limit : Z) (p : SseParser) (out : list SseEvent) : Fed :=
  match chunk with
  | [] => (p, out, Ok tt)
  | b :: chunk' =>
      if limit <=? Z.of_nat (List.length out) then (p, out, Ok tt)
      else match feed_byte b p out with
      | (p, out, Ok _) => feed_bytes chunk' limit p out
      | (p, out, Err e) => (p, out, Err e)
      end
  end.

(** The bytes of [chunk] that continue a byte order mark of which [matched]
    bytes were seen: how many are seen after, and the rest of the chunk. *)
Fixpoint match_bom (matched : nat) (chunk : list Z) : nat * list Z :=
  match chunk with
  | b :: chunk' =>
      if (matched <? List.length BOM)%nat && (b =? nth matched BOM 0) then match_bom (S matched) chunk'
      else (matched, chunk)
  | [] => (matched, chunk)
  end.

(** [SseParser::feed_limited]. *)
Definition feed_limited (chunk : list Z) (limit : Z) (p : SseParser) (out : list SseEvent) : Fed :=
  if limit <=? Z.of_nat (List.length out) then (p, out, Ok tt)
  else if sp_bom_checked p then feed_bytes chunk limit p out
  else
    let '(matched, rest) := match_bom (sp_bom_matched p) chunk in
    if (matched =? List.length BOM)%nat then
      feed_bytes rest limit (p <| sp_bom_checked := true |> <| sp_bom_matched := 0%nat |>) out
    else if bool_decide (rest = []) then (p <| sp_bom_matched := matched |>, out, Ok tt)
    else
      (* not a byte order mark: the bytes held back are ordinary *)
      let p := p <| sp_bom_checked := true |> <| sp_bom_matched := 0%nat |> in
      match feed_bytes (take matched BOM) limit p out with
      | (p, out, Ok _) => feed_bytes rest limit p out
      | (p, out, Err e) => (p, out, Err e)
      end.

(** [SseParser::feed]. *)
Definition feed (chunk : list Z) (p : SseParser) (out : list SseEvent) : Fed :=
  feed_limited chunk U64_MAX p out.

(** * The chunks do not matter *)

(** [feed_limited] on each chunk, up to the first error. *)
Fixpoint feed_chunks (chunks : list (list Z)) (limit : Z) (p : SseParser) (out : list SseEvent) : Fed :=
  match chunks with
  | [] => (p, out, Ok tt)
  | c :: chunks' =>
      match feed_limited c limit p out with
      | (p, out, Ok _) => feed_chunks chunks' limit p out
      | (p, out, Err e) => (p, out, Err e)
      end
  end.

(** Continue after a call that did not fail. *)
Definition and_then (r : Fed) (k : SseParser -> list SseEvent -> Fed) : Fed :=
  match r with
  | (p, out, Ok _) => k p out
  | (p, out, Err e) => (p, out, Err e)
  end.

Lemma and_then_assoc r f g : and_then (and_then r f) g = and_then r (fun p out => and_then (f p out) g).
Proof. by destruct r as [[p out] [u|e]]. Qed.

Lemma and_then_ext r f g : (forall p out, f p out = g p out) -> and_then r f = and_then r g.
Proof. intros H. destruct r as [[p out] [u|e]]; simpl; [apply H|done]. Qed.

Lemma feed_bytes_app a b limit p out :
  feed_bytes (a ++ b) limit p out = and_then (feed_bytes a limit p out) (feed_bytes b limit).
Proof.
  revert p out. induction a as [|x a IH]; intros p out; simpl; [done|].
  destruct (limit <=? Z.of_nat (List.length out)) eqn:El; simpl.
  - (* the limit is reached: nothing more is parsed *) destruct b; simpl; [done|]. by rewrite El.
  - destruct (feed_byte x p out) as [[p' out'] [u|e]]; [apply IH|done].
Qed.

(** A parser whose byte order mark is undecided has seen less than all of it. *)
Definition bom_ok (p : SseParser) : Prop := sp_bom_checked p = false -> (sp_bom_matched p < 3)%nat.

Lemma match_bom_app m a b : match_bom m (a ++ b) =
  let '(m', rest) := match_bom m a in
  match rest with [] => match_bom m' b | _ => (m', rest ++ b) end.
Proof.
  revert m. induction a as [|x a IH]; intros m; cbn [app match_bom]; [done|].
  destruct ((m <? List.length BOM)%nat && (x =? nth m BOM 0)); [apply IH|done].
Qed.

Lemma match_bom_le m chunk : (m <= 3)%nat -> (m <= (match_bom m chunk).1 <= 3)%nat.
Proof.
  revert m. induction chunk as [|x chunk IH]; intros m Hm; cbn [match_bom]; [simpl; lia|].
  destruct ((m <? List.length BOM)%nat && (x =? nth m BOM 0)) eqn:E; [|simpl; lia].
  apply andb_prop in E as [E _]. simpl in E. apply Nat.ltb_lt in E. specialize (IH (S m) ltac:(lia)). lia.
Qed.

Lemma match_bom_done chunk : match_bom 3 chunk = (3%nat, chunk).
Proof. by destruct chunk. Qed.

Lemma feed_bytes_bom chunk limit p out : sp_bom_checked p = true ->
  sp_bom_checked (feed_bytes chunk limit p out).1.1 = true.
Proof.
  assert (forall b p out, sp_bom_checked (feed_byte b p out).1.1 = sp_bom_checked p) as Hb.
  { intros b q o. unfold feed_byte, end_line, field_line, drop_event. repeat case_match; simplify_eq/=; done. }
  revert p out. induction chunk as [|b chunk IH]; intros p out Hp; simpl; [done|].
  case_match; [done|]. specialize (Hb b p out). destruct (feed_byte b p out) as [[q o] [u|e]]; simpl in *; [|congruence].
  apply IH. congruence.
Qed.

(** What [feed_limited] is before the mark is decided: hold back, skip it, or
    give the bytes held back to the parser. *)
Lemma feed_limited_app a b limit p out : bom_ok p ->
  feed_limited (a ++ b) limit p out = and_then (feed_limited a limit p out) (feed_limited b limit) /\
  bom_ok (feed_limited a limit p out).1.1.
Proof.
  intros Hp. unfold feed_limited at 1 2 4.
  destruct (limit <=? Z.of_nat (List.length out)) eqn:El.
  { simpl. unfold feed_limited. by rewrite El. }
  assert (Hdone : forall c q, sp_bom_checked q = true ->
    and_then (feed_bytes c limit q out) (feed_bytes b limit) = and_then (feed_bytes c limit q out) (feed_limited b limit)).
  { intros c q Hq. pose proof (feed_bytes_bom c limit q out Hq) as Hc.
    destruct (feed_bytes c limit q out) as [[q' o'] [u|e]]; simpl in *; [|done]. unfold feed_limited. rewrite Hc.
    destruct (limit <=? Z.of_nat (List.length o')) eqn:El'; [|done]. destruct b; simpl; [done|]. by rewrite El'. }
  assert (Hok : forall c q o, sp_bom_checked q = true -> bom_ok (feed_bytes c limit q o).1.1).
  { intros c q o Hq Hf. rewrite feed_bytes_bom in Hf; done. }
  destruct (sp_bom_checked p) eqn:Ec.
  { split; [|by apply Hok]. rewrite feed_bytes_app. by apply Hdone. }
  specialize (Hp Ec). rewrite match_bom_app. pose proof (match_bom_le (sp_bom_matched p) a ltac:(lia)) as Hle.
  destruct (match_bom (sp_bom_matched p) a) as [m rest]. simpl in Hle. change (List.length BOM) with 3%nat.
  set (p1 := p <| sp_bom_checked := true |> <| sp_bom_matched := 0%nat |>).
  destruct rest as [|x rest].
  - (* undecided by the first chunk, unless it completed the mark *)
    destruct (Nat.eqb_spec m 3) as [->|Hm].
    + rewrite match_bom_done. cbn [Nat.eqb feed_bytes]. split; [by apply (Hdone [] p1)|done].
    + rewrite bool_decide_true by done. cbn [and_then]. split; [|intros _; simpl; lia].
      unfold feed_limited. rewrite El. cbn [sp_bom_checked sp_bom_matched upd_field]. rewrite Ec.
      destruct (match_bom m b) as [m' rest']. destruct p; reflexivity.
  - destruct (Nat.eqb_spec m 3) as [->|Hm].
    + split; [|by apply Hok]. rewrite feed_bytes_app. by apply Hdone.
    + rewrite !bool_decide_false by done. fold p1.
      pose proof (feed_bytes_bom (take m BOM) limit p1 out eq_refl) as Hc.
      destruct (feed_bytes (take m BOM) limit p1 out) as [[q o] [u|e]] eqn:Ef; simpl in Hc; [|split; [done|]; intros H; simpl in H; congruence].
      split; [|by apply Hok]. rewrite (feed_bytes_app (x :: rest) b).
      pose proof (feed_bytes_bom (x :: rest) limit q o Hc) as Hc2.
      destruct (feed_bytes (x :: rest) limit q o) as [[q' o'] [u'|e']]; cbn [and_then] in *; [|done].
      unfold feed_limited. simpl in Hc2. rewrite Hc2. destruct (limit <=? Z.of_nat (List.length o')) eqn:El'; [|done].
      destruct b; simpl; [done|]. by rewrite El'.
Qed.

Lemma feed_chunks_concat chunks limit p out : bom_ok p ->
  feed_chunks chunks limit p out = and_then (feed_limited (concat chunks) limit p out) (fun p out => (p, out, Ok tt)).
Proof.
  revert p out. induction chunks as [|c chunks IH]; intros p out Hp; simpl.
  - unfold feed_limited. destruct (limit <=? _); [done|]. destruct (sp_bom_checked p) eqn:Ec; [done|].
    cbn [match_bom]. change (List.length BOM) with 3%nat. destruct (Nat.eqb_spec (sp_bom_matched p) 3) as [E|E]; [specialize (Hp Ec); lia|].
    simpl. by destruct p.
  - destruct (feed_limited_app c (concat chunks) limit p out Hp) as [-> Hok]. rewrite and_then_assoc.
    destruct (feed_limited c limit p out) as [[q o] [u|e]]; simpl in *; [by apply IH|done].
Qed.

Lemma and_then_Ok (r : Fed) : and_then r (fun p out => (p, out, Ok tt)) = r.
Proof. by destruct r as [[p out] [[]|e]]. Qed.

(** The events, the error and the parser's state do not depend on how the
    transport cut the stream: not inside a line, a character, a CRLF pair or
    the byte order mark, and whatever the limit on the events wanted. *)
Theorem sse_chunking chunks limit p out : bom_ok p ->
  feed_chunks chunks limit p out = feed_limited (concat chunks) limit p out.
Proof. intros Hp. by rewrite feed_chunks_concat, and_then_Ok. Qed.

(** A mark and a line that a transport cut inside both. *)
Lemma sse_chunking_witness :
  feed_chunks [[0xEF]; [0xBB; 0xBF; 100]; bytes_of_string "ata:1"] 5 (SseParser_new 64) [] =
  feed_limited ([0xEF; 0xBB; 0xBF] ++ bytes_of_string "data:1") 5 (SseParser_new 64) [].
Proof. apply (sse_chunking [[0xEF]; [0xBB; 0xBF; 100]; bytes_of_string "ata:1"]). intros _. simpl. lia. Defined.

(** * What a parser holds *)

(** A string that is empty or ends with a newline, as the data of an event. *)
Definition newline : string := String "010" "".
Definition closed_lines (s : string) : Prop := s = "" \/ exists d, s = d +:+ newline.

Record parser_bounded (p : SseParser) : Prop := {
  pb_max_line : 1024 <= sp_max_line p;
  pb_line : blen (sp_line p) <= sp_max_line p;
  pb_data : str_len (sp_data p) <= max_event_data p + 1;
  pb_lines : closed_lines (sp_data p);
  pb_type : str_len (sp_event_type p) <= MAX_EVENT_METADATA_BYTES;
  pb_id : from_option str_len 0 (sp_last_event_id p) <= MAX_EVENT_METADATA_BYTES;
}.

Definition event_bounded (max_data : Z) (e : SseEvent) : Prop :=
  from_option str_len 0 (se_id e) <= MAX_EVENT_METADATA_BYTES /\
  str_len (se_event_type e) <= MAX_EVENT_METADATA_BYTES /\
  str_len (se_data e) <= max_data.

Lemma pop_newline_app d : pop_newline (d +:+ newline) = d.
Proof.
  induction d as [|c d IH]; [done|]. change (String c d +:+ newline) with (String c (d +:+ newline)).
  cbn [pop_newline]. rewrite IH. by destruct d.
Qed.

Lemma max_event_data_pos p : 1024 <= sp_max_line p -> 1024 <= max_event_data p.
Proof. unfold max_event_data. assert (1024 <= U64_MAX) by done. lia. Qed.

(** The bound on the data of an event, of a parser with line bound [max_line]. *)
Definition max_data (max_line : Z) : Z := Z.min U64_MAX (max_line * 4).

Definition fed_bounded (max_line : Z) (out : list SseEvent) (r : Fed) : Prop :=
  parser_bounded r.1.1 /\ sp_max_line r.1.1 = max_line /\
  exists new, r.1.2 = out ++ new /\ (List.length new <= 1)%nat /\ Forall (event_bounded (max_data max_line)) new.

Lemma fed_quiet L q out e : parser_bounded q -> sp_max_line q = L -> fed_bounded L out (q, out, e).
Proof.
  intros Hq HL. split; [done|]. split; [done|]. exists []. rewrite app_nil_r.
  split; [done|]. split; [simpl; lia|constructor].
Qed.

Lemma drop_event_bounded p : parser_bounded p -> parser_bounded (drop_event p).
Proof.
  intros [? ? ? ? ? ?]. split; try done; simpl; [|by left].
  pose proof (max_event_data_pos p ltac:(done)). unfold max_event_data in *. simpl. unfold str_len. simpl. lia.
Qed.

Lemma field_line_bounded field value p out : parser_bounded p ->
  fed_bounded (sp_max_line p) out (field_line field value p out).
Proof.
  intros Hp. unfold field_line.
  destruct ((String.eqb field "event" || String.eqb field "id") && (MAX_EVENT_METADATA_BYTES <? str_len value)) eqn:Em.
  { apply fed_quiet; [by apply drop_event_bounded|done]. }
  pose proof Hp as [? ? ? ? ? ?].
  destruct (String.eqb field "event") eqn:Ev.
  { apply fed_quiet; [|done]. split; try done. simpl. by apply Z.ltb_ge in Em. }
  destruct (String.eqb field "data").
  { destruct (Z.ltb_spec (max_event_data p) (str_len (sp_data p) + str_len value)) as [|H].
    - apply fed_quiet; [by apply drop_event_bounded|done].
    - apply fed_quiet; [|done]. split; try done; simpl.
      + rewrite !str_len_app. change (max_event_data _) with (max_event_data p). change (str_len (String "010" "")) with 1. lia.
      + right. exists (sp_data p +:+ value). by rewrite str_app_assoc. }
  destruct (String.eqb field "id" && negb (str_contains value (String "000" ""))) eqn:Ei.
  { apply fed_quiet; [|done]. split; try done. simpl.
    apply andb_prop in Ei as [Ei _]. rewrite Ei in Em. by apply Z.ltb_ge in Em. }
  destruct (String.eqb field "retry" && is_digits value).
  - by apply fed_quiet.
  - by apply fed_quiet.
Qed.

Lemma end_line_bounded p L out : parser_bounded p -> sp_max_line p = L -> fed_bounded L out (end_line p out).
Proof.
  intros Hp <-. unfold end_line. set (q := p <| sp_line := [] |>).
  assert (parser_bounded q) as Hq. { destruct Hp. split; try done. simpl. unfold blen. simpl. lia. }
  change (sp_max_line p) with (sp_max_line q).
  destruct (str_is_empty _).
  - split; [by apply drop_event_bounded|]. split; [done|]. simpl. destruct (sp_has_data p).
    + eexists. split; [done|]. split; [simpl; lia|]. constructor; [|constructor].
      destruct Hq as [Hm ? Hd Hl ? ?]. split; [done|]. split; simpl.
      * destruct (str_is_empty _); [by vm_compute|done].
      * pose proof (max_event_data_pos q Hm). change (max_data (sp_max_line p)) with (max_event_data q). simpl in *. destruct Hl as [->|[d Hd']]; simpl in *.
        { unfold str_len. simpl. lia. }
        rewrite Hd' in *. rewrite pop_newline_app. rewrite str_len_app in Hd. change (str_len newline) with 1 in Hd. lia.
    + exists []. rewrite app_nil_r. split; [done|]. split; [simpl; lia|constructor].
  - destruct (starts_with _ ":"); [by apply fed_quiet|].
    destruct (field_of _) as [field value]. by apply field_line_bounded.
Qed.

Lemma feed_byte_bounded b p out : parser_bounded p -> fed_bounded (sp_max_line p) out (feed_byte b p out).
Proof.
  intros Hp. unfold feed_byte. set (q := p <| sp_pending_cr := false |>).
  assert (parser_bounded q) as Hq by by destruct Hp. change (sp_max_line p) with (sp_max_line q).
  destruct (sp_pending_cr p && (b =? 10)); [by apply fed_quiet|].
  destruct (b =? 10); [by apply end_line_bounded|].
  destruct (b =? 13).
  { apply end_line_bounded; [by destruct Hq|done]. }
  destruct (Z.leb_spec (sp_max_line q) (blen (sp_line q))) as [|Hl]; [by apply fed_quiet|].
  set (r := q <| sp_line := sp_line q ++ [b] |>).
  assert (parser_bounded r) as Hr.
  { destruct Hq. split; try done. simpl. rewrite blen_app. unfold blen at 2. simpl. simpl in Hl. lia. }
  case_match.
  - apply fed_quiet; [|done]. apply drop_event_bounded.
    destruct Hr. split; try done. simpl. unfold blen. simpl in *. lia.
  - by apply fed_quiet.
Qed.

(** Many bytes: the events dispatched are bounded, and no more than wanted. *)
Definition session_bounded (max_line limit : Z) (r : Fed) : Prop :=
  parser_bounded r.1.1 /\ sp_max_line r.1.1 = max_line /\ Forall (event_bounded (max_data max_line)) r.1.2 /\
  Z.of_nat (List.length r.1.2) <= Z.max 0 limit.

Lemma feed_bytes_bounded chunk limit p out :
  session_bounded (sp_max_line p) limit (p, out, Ok tt) ->
  session_bounded (sp_max_line p) limit (feed_bytes chunk limit p out).
Proof.
  remember (sp_max_line p) as d eqn:Hd. revert p out Hd. induction chunk as [|b chunk IH]; intros p out Hd Hs; simpl; [done|].
  destruct (Z.leb_spec limit (Z.of_nat (List.length out))) as [|Hl]; [done|].
  destruct Hs as (Hp & _ & Hout & Hlen). simpl in *. destruct (feed_byte_bounded b p out Hp) as (Hp' & Hd' & new & Hn & Hn1 & Hnb).
  destruct (feed_byte b p out) as [[q o] r]. simpl in *. subst o.
  assert (session_bounded d limit (q, out ++ new, r)) as Hs.
  { split; [done|]. split; [simpl; congruence|]. simpl. rewrite length_app. split; [|lia]. apply Forall_app. split; [done|congruence]. }
  destruct r as [u|e]; [|done]. apply IH; [congruence|]. exact Hs.
Qed.

Lemma feed_limited_bounded chunk limit p out :
  session_bounded (sp_max_line p) limit (p, out, Ok tt) ->
  session_bounded (sp_max_line p) limit (feed_limited chunk limit p out).
Proof.
  intros Hs. unfold feed_limited. destruct (limit <=? _); [done|].
  destruct (sp_bom_checked p); [by apply feed_bytes_bounded|].
  destruct (match_bom _ chunk) as [m rest]. set (q := p <| sp_bom_checked := true |> <| sp_bom_matched := 0%nat |>).
  change (sp_max_line p) with (sp_max_line q).
  assert (session_bounded (sp_max_line q) limit (q, out, Ok tt)) as Hq.
  { destruct Hs as ([] & ? & ? & ?). by split. }
  destruct (m =? List.length BOM)%nat; [by apply feed_bytes_bounded|].
  destruct (bool_decide (rest = [])); [by destruct Hs as ([] & ? & ? & ?)|].
  pose proof (feed_bytes_bounded (take m BOM) limit q out Hq) as H1.
  destruct (feed_bytes (take m BOM) limit q out) as [[r o] [u|e]]; [|done].
  assert (sp_max_line r = sp_max_line q) as Hr by apply H1. rewrite <- Hr in *. by apply feed_bytes_bounded.
Qed.

(** The connections of a session: each parsed as far as it goes, the parser
    reset before the next. *)
Fixpoint connections (streams : list (list (list Z))) (limit : Z) (p : SseParser) (out : list SseEvent) : Fed :=
  match streams with
  | [] => (p, out, Ok tt)
  | chunks :: streams' =>
      let '(p, out, r) := feed_chunks chunks limit p out in
      match streams' with
      | [] => (p, out, r)
      | _ => connections streams' limit (reset_stream p) out
      end
  end.

Lemma feed_chunks_bounded chunks limit p out :
  session_bounded (sp_max_line p) limit (p, out, Ok tt) ->
  session_bounded (sp_max_line p) limit (feed_chunks chunks limit p out).
Proof.
  remember (sp_max_line p) as d eqn:Hd. revert p out Hd. induction chunks as [|c chunks IH]; intros p out -> Hs; simpl; [done|].
  pose proof (feed_limited_bounded c limit p out Hs) as H1.
  destruct (feed_limited c limit p out) as [[q o] [u|e]]; [|done]. apply IH; [by symmetry; apply H1|exact H1].
Qed.

Lemma new_bounded max_line limit :
  session_bounded (Z.max max_line 1024) limit (SseParser_new max_line, [], Ok tt).
Proof.
  split; [|split; [done|split; [constructor|simpl; lia]]].
  assert (1024 <= sp_max_line (SseParser_new max_line)) as H by (simpl; lia).
  pose proof (max_event_data_pos _ H). split; try done; simpl; unfold blen, str_len; simpl; try lia. by left.
Qed.

Lemma reset_bounded p : parser_bounded p -> parser_bounded (reset_stream p).
Proof.
  intros [Hm ? ? ? ? ?]. pose proof (max_event_data_pos p Hm) as Hd. unfold max_event_data in Hd.
  split; simpl; unfold max_event_data, blen, str_len; simpl; try lia; by left || done.
Qed.

(** Whatever the server sends, in whatever pieces, over any number of
    reconnections, the parser never holds more than its line bound, one byte
    over its bound on the data of an event, and 4 KiB of id and of type; every
    event it dispatches is within these bounds, and it dispatches no more
    events than wanted. *)
Theorem sse_bounded streams limit max_line :
  let bound := Z.max max_line 1024 in
  let '(p, out, _) := connections streams limit (SseParser_new max_line) [] in
  blen (sp_line p) <= bound /\
  str_len (sp_data p) <= Z.min U64_MAX (bound * 4) + 1 /\
  str_len (sp_event_type p) <= MAX_EVENT_METADATA_BYTES /\
  from_option str_len 0 (sp_last_event_id p) <= MAX_EVENT_METADATA_BYTES /\
  Forall (event_bounded (Z.min U64_MAX (bound * 4))) out /\
  Z.of_nat (List.length out) <= Z.max 0 limit.
Proof.
  intros bound. assert (forall p out, session_bounded bound limit (p, out, Ok tt) ->
    session_bounded bound limit (connections streams limit p out)) as H.
  { induction streams as [|chunks streams IH]; intros p out Hs; simpl; [done|].
    assert (sp_max_line p = bound) as Hp by apply Hs. rewrite <- Hp in Hs.
    pose proof (feed_chunks_bounded chunks limit p out Hs) as H1. rewrite Hp in H1.
    destruct (feed_chunks chunks limit p out) as [[q o] r]. destruct streams as [|s streams]; [done|].
    apply IH. destruct H1 as (Hq & Hd' & Ho & Hl). split; [by apply reset_bounded|]. by split. }
  specialize (H _ _ (new_bounded max_line limit)).
  destruct (connections streams limit (SseParser_new max_line) []) as [[p out] r].
  destruct H as ([Hm H1 H2 _ H3 H4] & H5 & H6 & H7). simpl in *. unfold max_event_data in H2. by rewrite H5 in *.
Qed.

(** * What a server writes is read back *)

(** The three line endings of an event stream. *)
Inductive Eol := Eol_LF | Eol_CR | Eol_CRLF.
Definition eol_bytes (e : Eol) : list Z :=
  match e with Eol_LF => [10] | Eol_CR => [13] | Eol_CRLF => [13; 10] end.

(** An event as a server writes it: the id and the type when they are set, and
    its lines of data. *)
Record ServerEvent := mkServerEvent {
  sv_id : option string;
  sv_type : option string;
  sv_data : list string;
}.

Definition field_bytes (eol : Eol) (name value : string) : list Z :=
  bytes_of_string (name +:+ ": " +:+ value) ++ eol_bytes eol.

Definition event_bytes (eol : Eol) (e : ServerEvent) : list Z :=
  from_option (field_bytes eol "id") [] (sv_id e) ++
  from_option (field_bytes eol "event") [] (sv_type e) ++
  concat (map (field_bytes eol "data") (sv_data e)) ++ eol_bytes eol.

(** A value that fits on one line of valid text. *)
Definition value_ok (max_line : Z) (value : string) : Prop :=
  utf8_valid (bytes_of_string value) = true /\
  Forall (fun b => b <> 10 /\ b <> 13) (bytes_of_string value) /\
  str_len value + 7 <= max_line.

Definition server_event_ok (max_line : Z) (e : ServerEvent) : Prop :=
  from_option (fun i => value_ok max_line i /\ str_len i <= MAX_EVENT_METADATA_BYTES /\
    str_contains i (String "000" "") = false) True (sv_id e) /\
  from_option (fun t => value_ok max_line t /\ 0 < str_len t <= MAX_EVENT_METADATA_BYTES) True (sv_type e) /\
  sv_data e <> [] /\ Forall (value_ok max_line) (sv_data e) /\
  str_len (join newline (sv_data e)) <= max_data max_line.

(** The events a client sees: the last id set so far, the type or "message",
    the lines joined. *)
Fixpoint seen (last_id : option string) (es : list ServerEvent) : list SseEvent :=
  match es with
  | [] => []
  | e :: es' =>
      let id := if sv_id e is Some i then Some i else last_id in
      mkSseEvent id (default "message" (sv_type e)) (join newline (sv_data e)) :: seen id es'
  end.

(** ** One line *)

Definition text_bytes (l : list Z) : Prop := Forall (fun b => b <> 10 /\ b <> 13) l.

(** No prefix of the line is an oversized id or type. *)
Definition metadata_fits (l : list Z) : Prop := forall k, (k <= List.length l)%nat ->
  blen (take k l) <= MAX_EVENT_METADATA_BYTES \/ oversized_metadata (take k l) = None.

Lemma feed_text l limit p out : text_bytes l -> metadata_fits (sp_line p ++ l) ->
  blen (sp_line p ++ l) <= sp_max_line p -> Z.of_nat (List.length out) < limit -> sp_pending_cr p = false ->
  feed_bytes l limit p out = (p <| sp_line := sp_line p ++ l |>, out, Ok tt).
Proof.
  intros Hl Hm Hlen Hlim Hcr. revert p Hm Hlen Hcr. induction Hl as [|b l [Hb1 Hb2] Hl IH]; intros p Hm Hlen Hcr.
  - simpl. rewrite app_nil_r. by destruct p.
  - cbn [feed_bytes]. rewrite (proj2 (Z.leb_gt _ _)) by done. unfold feed_byte. rewrite Hcr. cbn [andb].
    rewrite (proj2 (Z.eqb_neq b 10)), (proj2 (Z.eqb_neq b 13)) by done.
    assert (p <| sp_pending_cr := false |> = p) as -> by (destruct p; simpl in *; congruence).
    rewrite blen_app in Hlen. change (blen (b :: l)) with (blen ([b] ++ l)) in Hlen. rewrite blen_app in Hlen.
    change (blen [b]) with 1 in Hlen. pose proof (blen_nonneg l).
    rewrite (proj2 (Z.leb_gt _ _)) by lia. set (q := p <| sp_line := sp_line p ++ [b] |>).
    assert ((if MAX_EVENT_METADATA_BYTES <? blen (sp_line q) then oversized_metadata (sp_line q) else None) = None) as ->.
    { destruct (Hm (List.length (sp_line p) + 1)%nat) as [H'|H'].
      - rewrite length_app. simpl. lia.
      - rewrite take_app_add in H'. rewrite (proj2 (Z.ltb_ge _ _)); [done|exact H'].
      - rewrite take_app_add in H'. simpl in H' |- *. rewrite take_0 in H'. rewrite H'. by destruct (_ <? _). }
    rewrite IH; [|simpl; by rewrite <- app_assoc| |done].
    + simpl. by rewrite <- app_assoc.
    + simpl. rewrite !blen_app. change (blen [b]) with 1. lia.
Qed.

(** Parsers that differ only in whether the last byte was a CR. *)
Definition uncr (p : SseParser) : SseParser := p <| sp_pending_cr := false |>.

(** The pending CR that the line ending leaves. *)
Definition cr_ok (eol : Eol) (p : SseParser) : Prop := eol <> Eol_CR -> sp_pending_cr p = false.

Lemma field_line_cr c field value p out : field_line field value (p <| sp_pending_cr := c |>) out =
  (let '(q, o, r) := field_line field value p out in (q <| sp_pending_cr := c |>, o, r)).
Proof.
  unfold field_line. destruct (_ && _); [done|]. destruct (String.eqb field "event"); [done|].
  destruct (String.eqb field "data").
  - change (max_event_data (p <| sp_pending_cr := c |>)) with (max_event_data p). simpl.
    by destruct (max_event_data p <? _).
  - destruct (String.eqb field "id" && _); [done|]. by destruct (_ && _).
Qed.

Lemma end_line_cr c p out : end_line (p <| sp_pending_cr := c |>) out =
  (let '(q, o, r) := end_line p out in (q <| sp_pending_cr := c |>, o, r)).
Proof.
  unfold end_line. cbn [sp_line upd_field]. set (line := from_utf8_lossy (sp_line p)).
  destruct (str_is_empty line); [done|]. destruct (starts_with line ":"); [done|].
  destruct (field_of line) as [field value].
  exact (field_line_cr c field value (p <| sp_line := [] |>) out).
Qed.

Lemma end_line_pending p out : sp_pending_cr (end_line p out).1.1 = sp_pending_cr p.
Proof.
  pose proof (end_line_cr (sp_pending_cr p) p out) as H.
  replace (p <| sp_pending_cr := sp_pending_cr p |>) with p in H by by destruct p.
  destruct (end_line p out) as [[q o] r]. injection H as H. rewrite H at 1. done.
Qed.

(** A line of text and its ending. *)
Lemma feed_line eol l limit p out q o : text_bytes l -> metadata_fits l -> blen l <= sp_max_line p ->
  Z.of_nat (List.length out) < limit -> Z.of_nat (List.length o) < limit ->
  cr_ok eol p -> sp_line p = [] ->
  end_line (uncr p <| sp_line := l |>) out = (q, o, Ok tt) ->
  exists q', feed_bytes (l ++ eol_bytes eol) limit p out = (q', o, Ok tt) /\ uncr q' = q /\ cr_ok eol q'.
Proof.
  intros Hl Hm Hlen Hlim Ho Hcr Hline He.
  assert (Hq : sp_pending_cr q = false). { pose proof (end_line_pending (uncr p <| sp_line := l |>) out) as H. by rewrite He in H. }
  (* the parser at the end of the text *)
  assert (exists p1, feed_bytes l limit p out = (p1, out, Ok tt) /\ uncr p1 = uncr p <| sp_line := l |> /\
    (sp_pending_cr p1 = false \/ eol = Eol_CR)) as (p1 & Hf & Hp1 & Hcr1).
  { destruct l as [|b l].
    - exists p. split; [done|]. split; [destruct p; simpl in *; by subst|].
      destruct eol; [left; by apply Hcr|by right|left; by apply Hcr].
    - apply Forall_cons in Hl as [[Hb1 Hb2] Hl].
      assert (feed_bytes (b :: l) limit p out = feed_bytes (b :: l) limit (uncr p) out) as ->.
      { cbn [feed_bytes]. destruct (limit <=? _) eqn:E; [apply Z.leb_le in E; lia|].
        unfold feed_byte. rewrite (proj2 (Z.eqb_neq b 10)) by done. rewrite !andb_false_r. done. }
      exists (uncr p <| sp_line := b :: l |>). split; [|by split; [|left]].
      pose proof (feed_text (b :: l) limit (uncr p) out) as Ht. simpl in Ht. rewrite Hline in Ht. apply Ht; try done; try lia.
      by constructor. }
  rewrite feed_bytes_app, Hf. cbn [and_then].
  assert (Hstep : forall c, end_line (p1 <| sp_pending_cr := c |>) out = (q <| sp_pending_cr := c |>, o, Ok tt)).
  { intros c. pose proof (end_line_cr c (uncr p1) out) as H. rewrite Hp1, He in H. rewrite <- H. rewrite <- Hp1. done. }
  assert (Hlim' : (limit <=? Z.of_nat (List.length out)) = false) by (apply Z.leb_gt; lia).
  assert (Hlim2 : (limit <=? Z.of_nat (List.length o)) = false) by (apply Z.leb_gt; lia).
  destruct eol; cbn [eol_bytes feed_bytes]; rewrite Hlim'; unfold feed_byte at 1.
  - destruct Hcr1 as [Hc|]; [|done]. rewrite Hc. cbn [andb Z.eqb]. change (10 =? 10) with true. cbn [andb].
    rewrite Hstep. exists q. split; [|split]; [by destruct q; simpl in *; subst|by destruct q; simpl in *; subst|by intros _].
  - change (13 =? 10) with false. change (13 =? 13) with true. rewrite andb_false_r.
    change (p1 <| sp_pending_cr := false |> <| sp_pending_cr := true |>) with (p1 <| sp_pending_cr := true |>).
    rewrite Hstep. eexists. split; [done|]. split; [by destruct q; simpl in *; subst|by intros H].
  - change (13 =? 10) with false. change (13 =? 13) with true. rewrite andb_false_r.
    change (p1 <| sp_pending_cr := false |> <| sp_pending_cr := true |>) with (p1 <| sp_pending_cr := true |>).
    rewrite Hstep, Hlim2. unfold feed_byte. change (10 =? 10) with true. simpl.
    exists q. split; [|split]; [by destruct q; simpl in *; subst|by destruct q; simpl in *; subst|by intros _].
Qed.

(** ** Lines *)

Definition line_bytes (eol : Eol) (l : string) : list Z := bytes_of_string l ++ eol_bytes eol.

(** [end_line] on each line of text. *)
Fixpoint run_lines (lines : list string) (p : SseParser) (out : list SseEvent) : Fed :=
  match lines with
  | [] => (p, out, Ok tt)
  | l :: lines' => and_then (end_line (p <| sp_line := bytes_of_string l |>) out) (run_lines lines')
  end.

Definition line_ok (max_line : Z) (l : string) : Prop :=
  text_bytes (bytes_of_string l) /\ metadata_fits (bytes_of_string l) /\ str_len l <= max_line.

Lemma field_line_keeps field value p out : sp_line p = [] ->
  let r := field_line field value p out in
  sp_line r.1.1 = [] /\ sp_max_line r.1.1 = sp_max_line p /\ r.1.2 = out /\
  sp_pending_cr r.1.1 = sp_pending_cr p.
Proof.
  intros Hl. unfold field_line, drop_event. repeat case_match; simpl; done.
Qed.

Lemma end_line_keeps p out : let r := end_line p out in
  sp_line r.1.1 = [] /\ sp_max_line r.1.1 = sp_max_line p /\ (List.length out <= List.length r.1.2)%nat.
Proof.
  unfold end_line. set (line := from_utf8_lossy (sp_line p)).
  destruct (str_is_empty line); [|destruct (starts_with line ":")].
  - simpl. split; [done|]. split; [done|]. destruct (sp_has_data p); rewrite ?length_app; simpl; lia.
  - simpl. repeat split; lia.
  - destruct (field_of line) as [field value].
    pose proof (field_line_keeps field value (p <| sp_line := [] |>) out) as H. specialize (H ltac:(done)).
    destruct H as (H1 & H2 & H3 & _). split; [done|]. split; [done|]. rewrite H3. lia.
Qed.

Lemma run_lines_grows lines p out : (List.length out <= List.length (run_lines lines p out).1.2)%nat.
Proof.
  revert p out. induction lines as [|l lines IH]; intros p out; simpl; [done|].
  pose proof (end_line_keeps (p <| sp_line := bytes_of_string l |>) out) as (_ & _ & H).
  destruct (end_line _ out) as [[q o] [u|e]]; simpl in *; [|done]. specialize (IH q o). lia.
Qed.

Lemma feed_lines eol lines limit p out q o : Forall (line_ok (sp_max_line p)) lines ->
  Z.of_nat (List.length o) < limit -> cr_ok eol p -> sp_line p = [] ->
  run_lines lines (uncr p) out = (q, o, Ok tt) ->
  exists q', feed_bytes (concat (map (line_bytes eol) lines)) limit p out = (q', o, Ok tt) /\ uncr q' = q /\
    cr_ok eol q' /\ sp_line q' = [] /\ sp_max_line q' = sp_max_line p.
Proof.
  intros Hok. revert out. remember (sp_max_line p) as L eqn:HL. revert p HL.
  induction Hok as [|l lines (Ht & Hm & Hlen) Hok IH]; intros p HL out Hlim Hcr Hline.
  - simpl. intros [= <- <-]. by exists p.
  - cbn [run_lines map concat]. pose proof (end_line_keeps (uncr p <| sp_line := bytes_of_string l |>) out) as Hk.
    destruct (end_line (uncr p <| sp_line := bytes_of_string l |>) out) as [[q1 o1] [[]|e]] eqn:He; [|done].
    destruct Hk as (Hk1 & Hk2 & Hk3). cbn [fst snd] in Hk1, Hk2, Hk3. cbn [and_then List.length] in *. intros Hr.
    pose proof (run_lines_grows lines q1 o1) as Hg. rewrite Hr in Hg. cbn [fst snd] in Hg.
    destruct (feed_line eol (bytes_of_string l) limit p out q1 o1) as (q' & Hf & Hu & Hc); try done; try lia.
    { rewrite bytes_of_string_length. lia. }
    rewrite feed_bytes_app. unfold line_bytes at 1. rewrite Hf. cbn [and_then].
    assert (sp_line q' = [] /\ sp_max_line q' = L) as [Hq1 Hq2].
    { rewrite <- Hu in Hk1, Hk2. simpl in Hk1, Hk2. split; [done|congruence]. }
    rewrite <- Hu in Hr. destruct (IH q' (eq_sym Hq2) o1) as (q2 & Hf2 & Hu2 & Hc2 & Hl2 & Hm2); try done; try lia.
    by exists q2.
Qed.

(** ** Fields *)

Definition field_text (name value : string) : string := name +:+ ": " +:+ value.

Definition sse_field (name : string) : Prop := name = "id" \/ name = "event" \/ name = "data".

Lemma utf8_valid_field name value : sse_field name -> utf8_valid (bytes_of_string value) = true ->
  utf8_valid (bytes_of_string (field_text name value)) = true.
Proof.
  intros Hn Hv. unfold field_text. rewrite !bytes_of_string_app.
  destruct Hn as [->|[->| ->]]; rewrite !utf8_valid_ascii_app by (repeat constructor; by vm_compute); done.
Qed.

Lemma end_field name value p out : sse_field name -> utf8_valid (bytes_of_string value) = true ->
  end_line (p <| sp_line := bytes_of_string (field_text name value) |>) out = field_line name value (p <| sp_line := [] |>) out.
Proof.
  intros Hn Hv. unfold end_line. cbn [sp_line upd_field].
  rewrite from_utf8_lossy_string by by apply utf8_valid_field. by destruct Hn as [->|[->| ->]].
Qed.

Lemma oversized_id v : oversized_metadata ([105; 100; 58; 32] ++ v) =
  if MAX_EVENT_METADATA_BYTES <? blen v then Some "id" else None.
Proof. done. Qed.

Lemma oversized_event v : oversized_metadata ([101; 118; 101; 110; 116; 58; 32] ++ v) =
  if MAX_EVENT_METADATA_BYTES <? blen v then Some "event" else None.
Proof. done. Qed.

Lemma oversized_data v : oversized_metadata ([100; 97; 116; 97; 58; 32] ++ v) = None.
Proof. done. Qed.

Lemma metadata_fits_field name value : sse_field name ->
  name = "data" \/ str_len value <= MAX_EVENT_METADATA_BYTES -> metadata_fits (bytes_of_string (field_text name value)).
Proof.
  intros Hn Hv k Hk. unfold field_text. rewrite !bytes_of_string_app.
  destruct (le_lt_dec k 7) as [H|H].
  { left. unfold blen. rewrite length_take. change MAX_EVENT_METADATA_BYTES with 4096. lia. }
  right. rewrite <- bytes_of_string_length in Hv. set (v := bytes_of_string value) in *.
  assert (forall n, blen v <= MAX_EVENT_METADATA_BYTES -> (MAX_EVENT_METADATA_BYTES <? blen (take n v)) = false) as fits_ltb.
  { intros n H1. apply Z.ltb_ge. unfold blen in *. rewrite length_take. lia. }
  destruct Hn as [->|[->| ->]].
  - destruct Hv as [|Hv]; [done|]. do 4 (destruct k as [|k]; [lia|]).
    change (oversized_metadata ([105; 100; 58; 32] ++ take k v) = None). by rewrite oversized_id, fits_ltb.
  - destruct Hv as [|Hv]; [done|]. do 7 (destruct k as [|k]; [lia|]).
    change (oversized_metadata ([101; 118; 101; 110; 116; 58; 32] ++ take k v) = None). by rewrite oversized_event, fits_ltb.
  - do 6 (destruct k as [|k]; [lia|]). change (oversized_metadata ([100; 97; 116; 97; 58; 32] ++ take k v) = None).
    by rewrite oversized_data.
Qed.

Lemma field_line_ok L name value : sse_field name -> value_ok L value ->
  name = "data" \/ str_len value <= MAX_EVENT_METADATA_BYTES -> line_ok L (field_text name value).
Proof.
  intros Hn (Hu & Ht & Hl) Hm. split; [|split; [by apply metadata_fits_field|]].
  - unfold text_bytes, field_text. rewrite !bytes_of_string_app. rewrite !Forall_app. split; [|split; [|done]].
    + destruct Hn as [->|[->| ->]]; repeat constructor; by vm_compute.
    + repeat constructor; by vm_compute.
  - unfold field_text. rewrite !str_len_app. change (str_len ": ") with 2.
    assert (str_len name <= 5) by by destruct Hn as [->|[->| ->]]. lia.
Qed.

(** ** Events *)

Definition event_lines (e : ServerEvent) : list string :=
  option_list (option_map (field_text "id") (sv_id e)) ++
  option_list (option_map (field_text "event") (sv_type e)) ++
  map (field_text "data") (sv_data e) ++ [""].

Lemma event_bytes_lines eol e : event_bytes eol e = concat (map (line_bytes eol) (event_lines e)).
Proof.
  unfold event_bytes, event_lines. rewrite !map_app, !concat_app. f_equal; [|f_equal; [|f_equal]].
  - destruct (sv_id e); simpl; [by rewrite app_nil_r|done].
  - destruct (sv_type e); simpl; [by rewrite app_nil_r|done].
  - rewrite map_map. done.
  - simpl. by rewrite app_nil_r.
Qed.

Lemma event_lines_ok L e : 1024 <= L -> server_event_ok L e -> Forall (line_ok L) (event_lines e).
Proof.
  intros HL (Hi & Ht & _ & Hd & _). unfold event_lines. rewrite !Forall_app. split; [|split; [|split]].
  - destruct (sv_id e) as [i|]; constructor; [|constructor]. destruct Hi as (Hi & Hl & _).
    apply field_line_ok; [by left|done|by right].
  - destruct (sv_type e) as [t|]; constructor; [|constructor]. destruct Ht as (Ht & Hl).
    apply field_line_ok; [by right; left|done|right; lia].
  - apply Forall_map. eapply list.Forall_impl; [exact Hd|]. intros v Hv. apply field_line_ok; [by right; right|done|by left].
  - constructor; [|constructor]. split; [constructor|]. split; [|unfold str_len; simpl; lia].
    intros k _. left. by destruct k.
Qed.

Lemma run_lines_app a b p out : run_lines (a ++ b) p out = and_then (run_lines a p out) (run_lines b).
Proof.
  revert p out. induction a as [|l a IH]; intros p out; simpl; [done|].
  rewrite and_then_assoc. by apply and_then_ext.
Qed.

(** The lines of data of an event that already holds [d]. *)
Lemma run_data lines p out : Forall (value_ok (sp_max_line p)) lines -> sp_line p = [] ->
  lines <> [] -> str_len (sp_data p) + str_len (join newline lines) <= max_event_data p ->
  run_lines (map (field_text "data") lines) p out =
    (p <| sp_data := sp_data p +:+ join newline lines +:+ newline |> <| sp_has_data := true |>, out, Ok tt).
Proof.
  intros Hok. remember (sp_max_line p) as L eqn:HL. revert p HL.
  induction Hok as [|v lines (Hu & _ & _) Hok IH]; intros p HL Hline Hne Hd; [done|].
  cbn [map run_lines]. rewrite end_field by (done || by right; right).
  unfold field_line. cbn [String.eqb Ascii.eqb Bool.eqb orb andb].
  change (sp_data (p <| sp_line := [] |>)) with (sp_data p).
  change (max_event_data (p <| sp_line := [] |>)) with (max_event_data p).
  assert (Hfirst : str_len v <= str_len (join newline (v :: lines))).
  { destruct lines as [|w lines]; [done|]. change (join newline (v :: w :: lines)) with (v +:+ newline +:+ join newline (w :: lines)).
    rewrite !str_len_app. pose proof (str_len_nonneg newline). pose proof (str_len_nonneg (join newline (w :: lines))). lia. }
  rewrite (proj2 (Z.ltb_ge _ _)) by lia. cbn [and_then]. destruct lines as [|w lines].
  - simpl. destruct p; simpl in *; by subst.
  - set (q := p <| sp_line := [] |> <| sp_data := sp_data p +:+ v +:+ String "010" "" |> <| sp_has_data := true |>).
    change (join newline (v :: w :: lines)) with (v +:+ newline +:+ join newline (w :: lines)) in Hd |- *.
    rewrite (IH q); [|done|done|done|].
    + unfold q. destruct p; simpl in *. subst. by rewrite !str_app_assoc.
    + change (max_event_data q) with (max_event_data p). change (sp_data q) with (sp_data p +:+ v +:+ newline).
      rewrite !str_len_app in *. lia.
Qed.

(** One event, read by a parser between events. *)
Lemma run_event e p out : 1024 <= sp_max_line p -> server_event_ok (sp_max_line p) e ->
  sp_line p = [] -> sp_data p = "" -> sp_has_data p = false -> sp_event_type p = "" ->
  let id := if sv_id e is Some i then Some i else sp_last_event_id p in
  run_lines (event_lines e) p out =
    (p <| sp_last_event_id := id |>,
     out ++ [mkSseEvent id (default "message" (sv_type e)) (join newline (sv_data e))], Ok tt).
Proof.
  intros HL (Hi & Ht & Hne & Hd & Hsize) Hline Hdata Hhas Htype id. unfold event_lines. rewrite !run_lines_app.
  assert (run_lines (option_list (option_map (field_text "id") (sv_id e))) p out = (p <| sp_last_event_id := id |>, out, Ok tt)) as ->.
  { unfold id. destruct (sv_id e) as [i|]; cbn [option_map option_list option_rect run_lines]; [|by destruct p]. destruct Hi as ((Hu & _) & Hl & Hz).
    rewrite (end_field "id") by (done || by left). unfold field_line. cbn [String.eqb Ascii.eqb Bool.eqb orb andb].
    rewrite (proj2 (Z.ltb_ge _ _)) by done. rewrite Hz. cbn. destruct p; simpl in *; by subst. }
  cbn [and_then]. set (p1 := p <| sp_last_event_id := id |>). rewrite run_lines_app.
  assert (run_lines (option_list (option_map (field_text "event") (sv_type e))) p1 out =
    (p1 <| sp_event_type := default "" (sv_type e) |>, out, Ok tt)) as ->.
  { destruct (sv_type e) as [t|]; cbn [option_map option_list option_rect run_lines]; [|unfold p1; destruct p; simpl in *; by subst]. destruct Ht as ((Hu & _) & Hl).
    rewrite (end_field "event") by (done || by right; left). unfold field_line. cbn [String.eqb Ascii.eqb Bool.eqb orb andb].
    rewrite (proj2 (Z.ltb_ge _ _)) by lia. cbn. destruct p; simpl in *; by subst. }
  cbn [and_then]. set (p2 := p1 <| sp_event_type := default "" (sv_type e) |>). rewrite run_lines_app.
  rewrite (run_data (sv_data e) p2); [|done|done|done|].
  2:{ change (sp_data p2) with (sp_data p). rewrite Hdata. exact Hsize. }
  cbn [and_then run_lines]. unfold end_line. cbn [sp_line upd_field].
  change (from_utf8_lossy (bytes_of_string "")) with "". cbn [str_is_empty].
  change (sp_data p2) with (sp_data p). rewrite Hdata. cbn [and_then].
  f_equal. f_equal.
  - unfold p2, p1, drop_event. destruct p; simpl in *; by subst.
  - cbn [sp_has_data upd_field]. f_equal. f_equal. f_equal.
    + simpl. destruct (sv_type e) as [t|]; [|done]. simpl. destruct Ht as (_ & Hl & _). by destruct t.
    + cbn [sp_data upd_field]. apply pop_newline_app.
Qed.


Fixpoint last_id (id : option string) (es : list ServerEvent) : option string :=
  match es with
  | [] => id
  | e :: es' => last_id (if sv_id e is Some i then Some i else id) es'
  end.

Lemma run_events es p out : 1024 <= sp_max_line p -> Forall (server_event_ok (sp_max_line p)) es ->
  sp_line p = [] -> sp_data p = "" -> sp_has_data p = false -> sp_event_type p = "" ->
  run_lines (concat (map event_lines es)) p out =
    (p <| sp_last_event_id := last_id (sp_last_event_id p) es |>, out ++ seen (sp_last_event_id p) es, Ok tt).
Proof.
  intros HL Hes. revert p out HL Hes. induction es as [|e es IH]; intros p out HL Hes Hline Hdata Hhas Htype.
  - simpl. rewrite app_nil_r. by destruct p.
  - apply Forall_cons in Hes as [He Hes]. cbn [map concat]. rewrite run_lines_app, run_event by done.
    cbn [and_then]. rewrite IH by done. cbn [sp_last_event_id upd_field seen last_id]. by rewrite <- app_assoc.
Qed.

Lemma seen_length id es : List.length (seen id es) = List.length es.
Proof. revert id. induction es as [|e es IH]; intros id; simpl; [done|]. by rewrite IH. Qed.

Lemma events_bytes eol es :
  concat (map (event_bytes eol) es) = concat (map (line_bytes eol) (concat (map event_lines es))).
Proof.
  induction es as [|e es IH]; simpl; [done|]. by rewrite map_app, concat_app, <- event_bytes_lines, <- IH.
Qed.

(** A mark, if any, and the bytes of the events after it. *)
Definition stream_bytes (bom : bool) (eol : Eol) (es : list ServerEvent) : list Z :=
  (if bom then BOM else []) ++ concat (map (event_bytes eol) es).

Lemma event_starts eol e : sv_data e <> [] -> exists b l, event_bytes eol e = b :: l /\ b <> 0xEF.
Proof.
  intros Hd. unfold event_bytes. destruct (sv_id e) as [i|]; [by eexists _, _|].
  destruct (sv_type e) as [t|]; [by eexists _, _|]. destruct (sv_data e) as [|d ds]; [done|by eexists _, _].
Qed.

(** The byte order mark is taken off, and the rest goes to the parser. *)
Lemma feed_stream bom eol es max_line limit out : Forall (fun e => sv_data e <> []) es ->
  Z.of_nat (List.length out) < limit ->
  let p := SseParser_new max_line in
  let body := concat (map (event_bytes eol) es) in
  (feed_limited (stream_bytes bom eol es) limit p out).1.2 =
    (feed_bytes body limit (p <| sp_bom_checked := true |>) out).1.2 /\
  (feed_limited (stream_bytes bom eol es) limit p out).2 =
    (feed_bytes body limit (p <| sp_bom_checked := true |>) out).2.
Proof.
  intros Hes Hlim p body. unfold feed_limited, stream_bytes. fold body.
  rewrite (proj2 (Z.leb_gt _ _)) by done. change (sp_bom_checked p) with false. unfold p.
  destruct bom; [change (match_bom _ (BOM ++ body)) with (match_bom 3 body); by rewrite match_bom_done|]. cbn [app].
  destruct Hes as [|e es He Hes]; [done|].
  destruct (event_starts eol e He) as (b & l & Hb & Hne).
  assert (exists l', body = b :: l') as [l' ->].
  { unfold body. cbn [map concat]. rewrite Hb. by eexists. }
  assert (match_bom 0 (b :: l') = (0%nat, b :: l')) as Hm.
  { unfold match_bom. change (nth 0 BOM 0) with 239. rewrite (proj2 (Z.eqb_neq b 239)) by done. done. }
  change (sp_bom_matched (SseParser_new max_line)) with 0%nat. rewrite Hm. done.
Qed.

(** C40: the events a server writes, with any of the three line endings, after a
    byte order mark or without one, and cut into any chunks, are the events
    the parser dispatches, in their order: the data lines joined, the type or
    "message", and the last id set so far. *)
Theorem sse_roundtrip eol bom es chunks max_line limit :
  Forall (server_event_ok (Z.max max_line 1024)) es ->
  concat chunks = stream_bytes bom eol es -> Z.of_nat (List.length es) < limit ->
  let '(_, out, r) := feed_chunks chunks limit (SseParser_new max_line) [] in
  out = seen None es /\ r = Ok tt.
Proof.
  intros Hes Hc Hlim. rewrite feed_chunks_concat, and_then_Ok, Hc by (intros _; simpl; lia).
  destruct (feed_stream bom eol es max_line limit []) as [Ho Hr].
  { eapply list.Forall_impl; [exact Hes|]. by intros e (_ & _ & H & _). }
  { simpl. lia. }
  set (p := SseParser_new max_line <| sp_bom_checked := true |>) in *.
  pose proof (run_events es p []) as Hrun. rewrite app_nil_l in Hrun.
  specialize (Hrun ltac:(simpl; lia) Hes eq_refl eq_refl eq_refl eq_refl).
  edestruct (feed_lines eol (concat (map event_lines es)) limit p []) as (q & Hf & _); [| | | |exact Hrun|]; try done.
  { apply Forall_concat, Forall_map. eapply list.Forall_impl; [exact Hes|]. intros e He. apply event_lines_ok; [simpl; lia|exact He]. }
  { rewrite seen_length. exact Hlim. }
  rewrite <- events_bytes in Hf. rewrite Hf in Ho, Hr.
  destruct (feed_limited (stream_bytes bom eol es) limit (SseParser_new max_line) []) as [[q' o'] r']. by subst.
Qed.

(** Two events, with the byte order mark and a CRLF cut in two by the transport. *)
Definition demo_events : list ServerEvent :=
  [mkServerEvent (Some "7") None ["hello"; "world"]; mkServerEvent None (Some "tick") [""]].

Definition demo_chunks : list (list Z) :=
  let bs := stream_bytes true Eol_CRLF demo_events in [take 2 bs; take 7 (drop 2 bs); drop 9 bs].

Lemma demo_events_ok : Forall (server_event_ok (Z.max 0 1024)) demo_events.
Proof.
  assert (forall v, str_len v <= 10 -> utf8_valid (bytes_of_string v) = true ->
    forallb (fun b => negb (b =? 10) && negb (b =? 13)) (bytes_of_string v) = true -> value_ok (Z.max 0 1024) v) as Hv.
  { intros v Hl Hu Ht. split; [done|]. split; [|lia]. 
    apply List.Forall_forall. intros b Hb. rewrite forallb_forall in Ht. specialize (Ht b Hb). lia. }
  repeat apply Forall_cons_2; try apply Forall_nil_2; unfold server_event_ok; simpl;
    repeat match goal with |- _ /\ _ => split | |- Forall _ _ => constructor | |- value_ok _ _ => by apply Hv end; done.
Qed.

Lemma sse_roundtrip_witness :
  (let '(_, out, r) := feed_chunks demo_chunks U64_MAX (SseParser_new 0) [] in
   out = seen None demo_events /\ r = Ok tt) /\
  seen None demo_events =
    [mkSseEvent (Some "7") "message" ("hello" +:+ newline +:+ "world"); mkSseEvent (Some "7") "tick" ""].
Proof.
  split; [|reflexivity].
  apply (sse_roundtrip Eol_CRLF true demo_events demo_chunks 0 U64_MAX demo_events_ok); by vm_compute.
Defined.
