(* ===== verification/Secret.v ===== *)
(** Excerpts of text that may hold secrets (crates/anvil-domain/src/secret.rs):
    redaction before the cut, so that a secret that crosses the cut leaves no
    prefix. The redactor is an argument. *)
From Stdlib Require Import ZArith Lia Ascii String.
From stdpp Require Import base numbers strings option list.
From S2P Require Import Prelude Text.
Open Scope list_scope.
Open Scope string_scope.
Open Scope nat_scope.

(** The marker: U+2039 redacted U+203A. *)
Definition REDACTED : string :=
  String "226" (String "128" (String "185" "redacted")) +:+ String "226" (String "128" (String "186" "")).

Definition REDACT_LOOKAHEAD_BYTES : Z := 64 * 1024.

(** [str::is_char_boundary]. *)
Definition is_char_boundary (s : string) (i : nat) : bool :=
  match str_drop i s with
  | String c _ => (i =? 0) || is_char_start c
  | "" => i =? String.length s
  end.

(** The loop of [floor_char_boundary]; byte 0 is a boundary. *)
Fixpoint floor_from (s : string) (end_ : nat) : nat :=
  match end_ with
  | O => O
  | S e => if is_char_boundary s end_ then end_ else floor_from s e
  end.

Definition floor_char_boundary (s : string) (i : nat) : nat := floor_from s (Nat.min i (String.length s)).

(** The bytes at the start of two texts that are the same. *)
Fixpoint same_prefix (a b : string) : nat :=
  match a, b with
  | String x a', String y b' => if Ascii.eqb x y then S (same_prefix a' b') else O
  | _, _ => O
  end.

(** [str::ends_with]. *)
Definition ends_with (s p : string) : bool :=
  String.eqb (str_drop (String.length s - String.length p) s) p.

Definition redact_then_cut (redact : string -> string) (window : string) (cut : nat) : string :=
  if String.length window <=? cut then redact window
  else
    let whole := redact window in
    if String.eqb whole window then str_take cut window
    else
      let head := redact (str_take cut window) in
      let tail := redact (str_drop cut window) in
      if (String.length whole =? String.length head + String.length tail) && starts_with whole head && ends_with whole tail
      then head
      else
        let same := same_prefix whole head in
        str_take (floor_char_boundary head same) head +:+ REDACTED.

(** The byte at which character [n] of [s] starts. *)
Definition nth_char (n : nat) (s : string) : option nat := String.length <$> before_char n s.

Definition redacted_excerpt (redact : option (string -> string)) (s : string) (max_chars : nat) : string :=
  let cut := default (String.length s) (nth_char max_chars s) in
  match redact with
  | Some r => redact_then_cut r (str_take (floor_char_boundary s (cut + Z.to_nat REDACT_LOOKAHEAD_BYTES)) s) cut
  | None => str_take cut s
  end.

(** * What an excerpt shows *)

(** [p] is how [s] begins. *)
Definition str_prefix (p s : string) : Prop := exists rest, s = p +:+ rest.

Lemma str_take_drop n s : str_take n s +:+ str_drop n s = s.
Proof.
  revert s. induction n as [|n IH]; intros [|c s]; try done. cbn [str_take str_drop].
  rewrite str_app_cons. by rewrite IH.
Qed.

Lemma str_take_prefix n s : str_prefix (str_take n s) s.
Proof. exists (str_drop n s). by rewrite str_take_drop. Qed.

Lemma starts_with_prefix s p : starts_with s p = true -> str_prefix p s.
Proof.
  unfold starts_with. destruct (str_strip_prefix p s) as [r|] eqn:E; [|done]. intros _. exists r. by apply str_strip_prefix_Some.
Qed.

Lemma floor_from_le s e : floor_from s e <= e.
Proof. induction e as [|e IH]; simpl; [done|]. case_match; lia. Qed.

Lemma floor_char_boundary_le s i : floor_char_boundary s i <= i.
Proof. unfold floor_char_boundary. pose proof (floor_from_le s (Nat.min i (String.length s))). lia. Qed.

Lemma same_prefix_take n a b : n <= same_prefix a b -> str_take n a = str_take n b.
Proof.
  revert a b. induction n as [|n IH]; intros a b Hn; [by destruct a, b|]. destruct a as [|x a], b as [|y b]; simpl in *; try lia.
  destruct (Ascii.eqb_spec x y) as [->|]; [|lia]. f_equal. apply IH. lia.
Qed.

(** A character of [s] starts or the text ends at byte [n]. *)
Definition char_boundary (s : string) (n : nat) : Prop :=
  n = 0 \/ n = String.length s \/ exists c rest, str_drop n s = String c rest /\ is_char_start c = true.

(** [n] is the last boundary of [s] within its first [i] bytes. *)
Definition cut_at (s : string) (i n : nat) : Prop :=
  n <= i /\ n <= String.length s /\ char_boundary s n /\ forall m, m <= i -> m <= String.length s -> char_boundary s m -> m <= n.

Lemma str_drop_length n s : String.length (str_drop n s) = String.length s - n.
Proof. revert s. induction n as [|n IH]; intros [|c s]; try done. cbn [str_drop String.length]. rewrite IH. done. Qed.

Lemma is_char_boundary_spec s n : n <= String.length s -> is_char_boundary s n = true <-> char_boundary s n.
Proof.
  intros Hn. unfold is_char_boundary, char_boundary. pose proof (str_drop_length n s) as Hl. destruct (str_drop n s) as [|c rest].
  - cbn in Hl. rewrite Nat.eqb_eq. split; [by right; left|]. intros _. lia.
  - cbn in Hl. rewrite orb_true_iff, Nat.eqb_eq. split.
    + intros [->|Hc]; [by left|]. right. right. by exists c, rest.
    + intros [->|[->|(c' & r & [= <- <-] & Hc)]]; [by left|lia|by right].
Qed.

Lemma floor_cut_at s i : cut_at s i (floor_char_boundary s i).
Proof.
  unfold floor_char_boundary. assert (H : forall e, e <= String.length s -> cut_at s e (floor_from s e)).
  { induction e as [|e IH]; intros He; cbn [floor_from].
    - split; [done|]. split; [lia|]. split; [by left|]. lia.
    - destruct (is_char_boundary s (S e)) eqn:E.
      + split; [done|]. split; [done|]. split; [by apply is_char_boundary_spec|]. lia.
      + destruct (IH ltac:(lia)) as (H1 & H2 & H3 & H4). split; [lia|]. split; [done|]. split; [done|]. intros m Hm Hl Hb.
        destruct (decide (m = S e)) as [->|]; [|apply H4; [lia|done|done]]. apply is_char_boundary_spec in Hb; [congruence|done]. }
  destruct (H (Nat.min i (String.length s)) ltac:(lia)) as (H1 & H2 & H3 & H4). split; [lia|]. split; [done|]. split; [done|].
  intros m Hm Hl. apply H4; lia.
Qed.

Lemma cut_at_unique s i n m : cut_at s i n -> cut_at s i m -> n = m.
Proof. intros (A1 & A2 & A3 & A4) (B1 & B2 & B3 & B4). pose proof (A4 m B1 B2 B3). pose proof (B4 n A1 A2 A3). lia. Qed.

(** [t] is the first [n] characters of [s], or all of it when it has no more. *)
Definition first_chars (n : nat) (s t : string) : Prop := exists rest, s = t +:+ rest /\
  (rest = "" /\ char_count s <= n \/ char_count t = n /\ exists c r, rest = String c r /\ is_char_start c = true).

Lemma before_char_first n s : first_chars n s (default s (before_char n s)).
Proof.
  destruct (before_char n s) as [t|] eqn:E; cbn [default].
  - assert (H : exists rest, s = t +:+ rest /\ exists c r, rest = String c r /\ is_char_start c = true).
    { revert n t E. induction s as [|c s IH]; intros n t; cbn [before_char]; [done|]. destruct (is_char_start c) eqn:Ec; [destruct n as [|n]|].
      - intros [= <-]. exists (String c s). split; [done|]. by exists c, s.
      - destruct (before_char n s) as [u|] eqn:Eu; [|done]. intros [= <-]. destruct (IH n u Eu) as (rest & -> & Hr). by exists rest.
      - destruct (before_char n s) as [u|] eqn:Eu; [|done]. intros [= <-]. destruct (IH n u Eu) as (rest & -> & Hr). by exists rest. }
    destruct H as (rest & Hs & Hr). exists rest. split; [done|]. right. split; [by eapply before_char_count|done].
  - exists "". rewrite str_app_nil_r. split; [done|]. left. split; [done|]. by apply before_char_None.
Qed.

(** The first characters of the first characters. *)
Lemma first_chars_first n m s w h : n <= m -> first_chars m s w -> first_chars n w h -> first_chars n s h.
Proof.
  intros Hnm (rest & -> & Hw) (rest' & -> & Hh). exists (rest' +:+ rest). split; [by rewrite str_app_assoc|].
  destruct Hh as [[-> Hc]|[Hc (c & r & -> & Hs)]].
  - rewrite str_app_nil_r in Hw, Hc. rewrite str_app_nil. destruct Hw as [[-> Hw]|[Hw (c & r & -> & Hs)]].
    + left. split; [done|]. rewrite !str_app_nil_r. done.
    + right. split; [lia|]. by exists c, r.
  - right. split; [done|]. exists c, (r +:+ rest). by rewrite str_app_cons.
Qed.

(** What an excerpt shows before the mark that ends it, if one does. *)
Inductive excerpt_of (redact : string -> string) (window : string) (cut : nat) : string -> Prop :=
  | Excerpt_whole : String.length window <= cut -> excerpt_of redact window cut (redact window)
  | Excerpt_cut body : cut < String.length window -> str_prefix body (redact window) ->
      str_prefix body (redact (str_take cut window)) \/ (body = str_take cut window /\ redact window = window) ->
      excerpt_of redact window cut body
  | Excerpt_crossed body : cut < String.length window -> str_prefix body (redact window) ->
      str_prefix body (redact (str_take cut window)) -> excerpt_of redact window cut (body +:+ REDACTED).

(** Whatever the redactor does, what is shown is how the redacted window
    begins, and what the text before the cut holds, redacted: never a part of a
    secret that redacting the whole window hides. *)
Lemma redact_then_cut_shows redact window cut : excerpt_of redact window cut (redact_then_cut redact window cut).
Proof.
  unfold redact_then_cut. destruct (Nat.leb_spec (String.length window) cut) as [|Hc]; [by apply Excerpt_whole|].
  destruct (String.eqb_spec (redact window) window) as [E|_].
  { apply Excerpt_cut; [done| |by right; split]. rewrite E. apply str_take_prefix. }
  destruct ((_ =? _) && _ && _) eqn:E.
  - apply andb_prop in E as [E _]. apply andb_prop in E as [_ E]. apply Excerpt_cut; [done|by apply starts_with_prefix|].
    left. exists "". by rewrite str_app_nil_r.
  - apply Excerpt_crossed; [done| |apply str_take_prefix].
    rewrite <- (same_prefix_take _ (redact window)) by apply floor_char_boundary_le. apply str_take_prefix.
Qed.

Lemma nth_char_count n s i : nth_char n s = Some i -> char_count (str_take i s) = n /\ i <= String.length s.
Proof.
  unfold nth_char. destruct (before_char n s) as [t|] eqn:E; [|done]. intros [= <-].
  assert (str_take (String.length t) s = t /\ String.length t <= String.length s) as [-> Hl].
  { revert n t E. induction s as [|c s IH]; intros n t; simpl; [done|].
    destruct (is_char_start c); [destruct n as [|n]|].
    - intros [= <-]. simpl. split; [done|lia].
    - destruct (before_char n s) as [u|] eqn:Eu; [|done]. intros [= <-]. simpl. destruct (IH _ _ Eu) as [-> ?]. split; [done|lia].
    - destruct (before_char n s) as [u|] eqn:Eu; [|done]. intros [= <-]. simpl. destruct (IH _ _ Eu) as [-> ?]. split; [done|lia]. }
  split; [by eapply before_char_count|done].
Qed.

Lemma nth_char_None n s : nth_char n s = None -> char_count s <= n.
Proof. unfold nth_char. destruct (before_char n s) as [t|] eqn:E; [done|]. intros _. by apply before_char_None. Qed.

(** An excerpt of at most [n] characters never shows a part of a secret that
    the cut, or the excerpt's window, crosses: with any redactor it is a
    beginning of what the redactor makes of the whole window (up to 64 KiB past
    the cut), with at most one marker after it, and it shows nothing from past
    the cut; without a redactor it is the first [n] characters. *)
Theorem excerpt_shows_only_redacted redact s n :
  let cut := default (String.length s) (nth_char n s) in
  let window := str_take (floor_char_boundary s (cut + Z.to_nat REDACT_LOOKAHEAD_BYTES)) s in
  char_count (str_take cut s) <= n /\
  match redact with
  | None => redacted_excerpt redact s n = str_take cut s
  | Some f => excerpt_of f window cut (redacted_excerpt redact s n)
  end.
Proof.
  intros cut window. split.
  - unfold cut. destruct (nth_char n s) as [i|] eqn:E; simpl.
    + by destruct (nth_char_count n s i E) as [-> _].
    + assert (str_take (String.length s) s = s) as ->.
      { clear. induction s as [|c s IH]; simpl; [done|]. by rewrite IH. }
      by apply nth_char_None.
  - destruct redact as [f|]; [|done]. apply redact_then_cut_shows.
Qed.
