(* ===== verification/Transcript.v ===== *)
(** The transcript of a session (crates/anvil-transport/src/session.rs,
    [Transcript]): the bounded history of its messages (the first half of the
    bound and the most recent half), each redacted before it is cut, the
    counters of the whole session, and the event ids that events share.

    The redactor of the engine learns secrets while a session runs: every call
    is made with the redactor as it is then. A shared id ([Arc<str>]) is its
    text with the identity of its buffer. Live events are the list of messages
    handed to the sink. *)
From Stdlib Require Import ZArith Lia Ascii String.
From stdpp Require Import base numbers strings option list.
From S2P Require Import Prelude Text Bytes Utf8 Secret Evidence.
Open Scope string_scope.
Open Scope list_scope.
Open Scope nat_scope.

Record TranscriptLimits := mkTranscriptLimits { max_messages : nat; preview_bytes : nat }.

Definition TranscriptLimits_default : TranscriptLimits := mkTranscriptLimits 2000 2048.

Definition METADATA_PREVIEW_BYTES : nat := 256.

(** The lookahead past a cut; the source's sum saturates past any text. *)
Definition lookahead : nat := Z.to_nat REDACT_LOOKAHEAD_BYTES.

Record SharedId := mkSharedId { si_buffer : Z; si_text : string }.

Record Transcript := mkTranscript {
  tr_limits : TranscriptLimits;
  tr_head : list StreamMessage;
  tr_tail : list StreamMessage;
  tr_dropped : Z;
  tr_sent_count : Z;
  tr_received_count : Z;
  tr_sent_bytes : Z;
  tr_received_bytes : Z;
  tr_events : list StreamMessage;
  tr_shared_id : option (SharedId * string)
}.

#[export] Instance eta_Transcript : Eta Transcript := fun t =>
  mkTranscript (tr_limits t) (tr_head t) (tr_tail t) (tr_dropped t) (tr_sent_count t) (tr_received_count t)
    (tr_sent_bytes t) (tr_received_bytes t) (tr_events t) (tr_shared_id t).

Definition Transcript_new (limits : TranscriptLimits) : Transcript :=
  mkTranscript (mkTranscriptLimits (Nat.max (max_messages limits) 2) (Nat.max (preview_bytes limits) 16))
    [] [] 0 0 0 0 0 [] None.

(** [printable]: no control character (Cc: U+0000 to U+001F and U+007F to
    U+009F, the latter two bytes from 0xC2) but line feed, return and tab. *)
Fixpoint printable (s : string) : bool :=
  match s with
  | "" => true
  | String c s' =>
      let b := byte_of_ascii c in
      let allowed := existsb (Z.eqb b) [10; 13; 9]%Z in
      let c1 := match s' with String d _ => (b =? 0xC2)%Z && between 0x80 0x9F (byte_of_ascii d) | "" => false end in
      (allowed || negb (between 0 0x1F b || (b =? 0x7F)%Z || c1)) && printable s'
  end.

Abbreviation Redact := (option (string -> string)).

Definition redacted_prefix (redact : Redact) (s : string) (limit : nat) : string :=
  let cut := floor_char_boundary s limit in
  match redact with
  | Some r => redact_then_cut r (str_take (floor_char_boundary s (limit + lookahead)) s) cut
  | None => str_take cut s
  end.

(** The text, whether it is hex, and whether the payload was cut. *)
Definition preview (redact : Redact) (limits : TranscriptLimits) (payload : list Z) (force_hex : bool) : string * bool * bool :=
  let limit := preview_bytes limits in
  let hex :=
    let n := Nat.min (List.length payload) (limit / 2) in
    let shown := match redact with
                 | Some _ => redacted_prefix redact (hex_encode (take (Nat.min (List.length payload) (n + lookahead / 2)) payload)) (2 * n)
                 | None => hex_encode (take n payload)
                 end in
    (shown, true, n <? List.length payload) in
  if force_hex then hex
  else match from_utf8 payload with
       | Some s =>
           if printable s then (redacted_prefix redact s limit, false, floor_char_boundary s limit <? String.length s) else hex
       | None => hex
       end.

(** U+2026. *)
Definition ellipsis : string := string_of_bytes [0xE2; 0x80; 0xA6]%Z.

Definition metadata (redact : Redact) (value : string) : string :=
  let shown := redacted_prefix redact value METADATA_PREVIEW_BYTES in
  if floor_char_boundary value METADATA_PREVIEW_BYTES <? String.length value then shown +:+ ellipsis else shown.

Definition shared_metadata (redact : Redact) (id : SharedId) (t : Transcript) : string * Transcript :=
  let fresh := let shown := metadata redact (si_text id) in (shown, t <| tr_shared_id := Some (id, shown) |>) in
  match tr_shared_id t with
  | Some (cached, shown) => if (si_buffer cached =? si_buffer id)%Z then (shown, t) else fresh
  | None => fresh
  end.

Definition reset_shared_metadata (t : Transcript) : Transcript := t <| tr_shared_id := None |>.

Definition push (m : StreamMessage) (t : Transcript) : Transcript :=
  let t := t <| tr_events ::= (fun es => es ++ [m]) |> in
  let head_cap := max_messages (tr_limits t) / 2 in
  let tail_cap := max_messages (tr_limits t) - head_cap in
  if List.length (tr_head t) <? head_cap then t <| tr_head ::= (fun h => h ++ [m]) |>
  else
    let t := if tail_cap <=? List.length (tr_tail t)
             then t <| tr_tail ::= drop 1 |> <| tr_dropped ::= (fun d => add64 d 1) |> else t in
    t <| tr_tail ::= (fun q => q ++ [m]) |>.

Section Entry.
Variable redact : Redact.
(** [t0.elapsed()] in microseconds. *)
Variable offset_us : Z.

Definition entry (t : Transcript) (direction : Direction) (kind : string) (payload : list Z) (force_hex : bool)
    (event_id event_type : option string) : StreamMessage :=
  let '(shown, preview_is_hex, preview_truncated) := preview redact (tr_limits t) payload force_hex in
  mkStreamMessage direction offset_us kind (blen payload) shown preview_is_hex preview_truncated
    (metadata redact <$> event_id) (metadata redact <$> event_type).

Definition count (direction : Direction) (size : Z) (t : Transcript) : Transcript :=
  match direction with
  | Direction_Sent => t <| tr_sent_count ::= (fun n => add64 n 1) |> <| tr_sent_bytes ::= (fun n => add64 n size) |>
  | Direction_Received => t <| tr_received_count ::= (fun n => add64 n 1) |> <| tr_received_bytes ::= (fun n => add64 n size) |>
  end.

Definition data (direction : Direction) (kind : string) (payload : list Z) (t : Transcript) : Transcript :=
  let t := count direction (blen payload) t in
  push (entry t direction kind payload (String.eqb kind "binary") None None) t.

Definition data_text (direction : Direction) (kind : string) (wire_size : Z) (text : string) (t : Transcript) : Transcript :=
  let t := count direction wire_size t in
  let m := entry t direction kind (bytes_of_string text) false None None in
  push (mkStreamMessage (sm_direction m) (sm_offset_us m) (sm_kind m) wire_size (sm_preview m) (sm_preview_is_hex m)
          (sm_preview_truncated m) (sm_event_id m) (sm_event_type m)) t.

Definition event (direction : Direction) (kind : string) (payload : list Z) (event_id event_type : option string) (t : Transcript) : Transcript :=
  let t := count direction (blen payload) t in
  push (entry t direction kind payload false event_id event_type) t.

Definition event_shared_id (direction : Direction) (kind : string) (payload : list Z) (event_id : option SharedId) (event_type : string)
    (t : Transcript) : Transcript :=
  let t := count direction (blen payload) t in
  let '(shown, t) := match event_id with
                     | Some id => let '(s, t) := shared_metadata redact id t in (Some s, t)
                     | None => (None, t)
                     end in
  let m := entry t direction kind payload false None (Some event_type) in
  push (mkStreamMessage (sm_direction m) (sm_offset_us m) (sm_kind m) (sm_size m) (sm_preview m) (sm_preview_is_hex m)
          (sm_preview_truncated m) shown (sm_event_type m)) t.

Definition control (direction : Direction) (kind : string) (payload : list Z) (t : Transcript) : Transcript :=
  let force_hex := String.eqb kind "ping" || String.eqb kind "pong" in
  push (entry t direction kind payload force_hex None None) t.

Definition note (kind text : string) (t : Transcript) : Transcript := control Direction_Sent kind (bytes_of_string text) t.
End Entry.

Definition finish (t : Transcript) : StreamTranscript :=
  mkStreamTranscript (tr_head t ++ tr_tail t) (tr_dropped t) (tr_sent_count t) (tr_received_count t) (tr_sent_bytes t) (tr_received_bytes t).

(** * Sessions *)

Inductive TranscriptOp :=
  | T_Data (direction : Direction) (kind : string) (payload : list Z)
  | T_DataText (direction : Direction) (kind : string) (wire_size : Z) (text : string)
  | T_Event (direction : Direction) (kind : string) (payload : list Z) (event_id event_type : option string)
  | T_EventSharedId (direction : Direction) (kind : string) (payload : list Z) (event_id : option SharedId) (event_type : string)
  | T_Control (direction : Direction) (kind : string) (payload : list Z)
  | T_Note (kind text : string)
  | T_Reset.

(** A call, with the redactor as it is then and the time since [t0]. *)
Record TranscriptCall := mkTranscriptCall { tc_redact : Redact; tc_offset_us : Z; tc_op : TranscriptOp }.

Definition transcript_step (t : Transcript) (c : TranscriptCall) : Transcript :=
  let r := tc_redact c in let at_ := tc_offset_us c in
  match tc_op c with
  | T_Data d k p => data r at_ d k p t
  | T_DataText d k w s => data_text r at_ d k w s t
  | T_Event d k p i ty => event r at_ d k p i ty t
  | T_EventSharedId d k p i ty => event_shared_id r at_ d k p i ty t
  | T_Control d k p => control r at_ d k p t
  | T_Note k s => note r at_ k s t
  | T_Reset => reset_shared_metadata t
  end.

Definition transcript_run (limits : TranscriptLimits) (calls : list TranscriptCall) : Transcript :=
  foldl transcript_step (Transcript_new limits) calls.

(** * What the calls are *)

Definition payload_of (op : TranscriptOp) : list Z :=
  match op with
  | T_Data _ _ p | T_Event _ _ p _ _ | T_EventSharedId _ _ p _ _ | T_Control _ _ p => p
  | T_DataText _ _ _ s | T_Note _ s => bytes_of_string s
  | T_Reset => []
  end.

(** The direction, kind and size of the message a call records. *)
Definition message_of (op : TranscriptOp) : option (Direction * string * Z) :=
  match op with
  | T_Data d k p | T_Event d k p _ _ | T_EventSharedId d k p _ _ | T_Control d k p => Some (d, k, blen p)
  | T_DataText d k w _ => Some (d, k, w)
  | T_Note k s => Some (Direction_Sent, k, blen (bytes_of_string s))
  | T_Reset => None
  end.

(** The direction and size a call counts as an application message. *)
Definition counted (op : TranscriptOp) : option (Direction * Z) :=
  match op with
  | T_Data d _ p | T_Event d _ p _ _ | T_EventSharedId d _ p _ _ => Some (d, blen p)
  | T_DataText d _ w _ => Some (d, w)
  | T_Control _ _ _ | T_Note _ _ | T_Reset => None
  end.

Definition counted_in (d : Direction) (calls : list TranscriptCall) : list Z :=
  omap (fun c => match counted (tc_op c) with Some (d', n) => if decide (d' = d) then Some n else None | None => None end) calls.

Definition sizes (ns : list Z) : Z := foldr Z.add 0%Z ns.

(** What is kept of the messages [all] under a bound of [n]. *)
Definition kept {A} (n : nat) (all : list A) : list A :=
  if List.length all <=? n then all
  else take (n / 2) all ++ drop (List.length all - (n - n / 2)) all.

(** A transcript's history is the first half and the most recent half of what
    it handed to the sink. *)
Record history_ok (t : Transcript) : Prop := mkHistoryOk {
  history_bound : 2 <= max_messages (tr_limits t);
  history_head : tr_head t = take (max_messages (tr_limits t) / 2) (tr_events t);
  history_tail : let rest := drop (max_messages (tr_limits t) / 2) (tr_events t) in
    tr_tail t = drop (List.length rest - (max_messages (tr_limits t) - max_messages (tr_limits t) / 2)) rest;
  history_dropped : (Z.of_nat (List.length (tr_events t)) < 2 ^ 64)%Z ->
    tr_dropped t = Z.of_nat (List.length (tr_events t) - max_messages (tr_limits t))
}.

#[local] Arguments Nat.div : simpl never.
#[local] Arguments Nat.ltb : simpl never.
#[local] Arguments Nat.leb : simpl never.
#[local] Arguments Nat.sub : simpl never.
#[local] Arguments drop : simpl never.
#[local] Arguments take : simpl never.

Lemma half_lt n : 2 <= n -> 1 <= n / 2 /\ n / 2 < n.
Proof. intros H. pose proof (Nat.div_mod_eq n 2). pose proof (Nat.mod_upper_bound n 2). lia. Qed.

Lemma push_ok m t : history_ok t -> history_ok (push m t).
Proof.
  intros [Hb Hh Ht Hd]. destruct t as [lim head tail dropped sc rc sb rb ev sid]. cbn [tr_limits tr_head tr_tail tr_dropped tr_events] in *.
  unfold push. cbn. set (h := max_messages lim / 2) in *. set (c := max_messages lim - h) in *.
  destruct (half_lt _ Hb) as [H1 H2]. fold h in H1, H2. assert (Hlen : List.length (ev ++ [m]) = S (List.length ev)) by (rewrite length_app; cbn; lia).
  assert (Hhead : List.length head = Nat.min h (List.length ev)) by (rewrite Hh; apply length_take).
  destruct (Nat.ltb_spec (List.length head) h) as [Hlt|Hge].
  - rewrite Hhead in Hlt. constructor; cbn; fold h; fold c; [exact Hb| | |].
    + rewrite Hh. rewrite firstn_all2 by lia. rewrite firstn_all2 by (rewrite Hlen; lia). done.
    + rewrite Ht. rewrite (skipn_all2 ev), (skipn_all2 (ev ++ [m])) by (rewrite ?Hlen; lia). done.
    + intros Hz. rewrite Hd by lia. rewrite Hlen. lia.
  - rewrite Hhead in Hge. assert (Hrest : drop h (ev ++ [m]) = drop h ev ++ [m]) by (rewrite drop_app_le by lia; done).
    assert (Htake : take h (ev ++ [m]) = take h ev) by (rewrite take_app_le by lia; done).
    assert (Hdl : List.length (drop h ev) = List.length ev - h) by apply length_drop.
    assert (Htl : List.length tail = Nat.min c (List.length ev - h)) by (rewrite Ht, length_drop, Hdl; lia).
    destruct (Nat.leb_spec c (List.length tail)) as [Hfull|Hroom]; constructor; cbn; fold h; fold c; try done; rewrite ?Htake, ?Hrest; try done.
    + rewrite length_app, Hdl. cbn [List.length]. rewrite Ht, Hdl. rewrite skipn_skipn, drop_app_le by lia. f_equal. f_equal. lia.
    + intros Hz. rewrite Hlen in *. rewrite Hd by lia. rewrite add64_small by lia. lia.
    + rewrite length_app, Hdl. cbn [List.length]. rewrite Ht, Hdl. rewrite drop_app_le by lia. f_equal. f_equal. lia.
    + intros Hz. rewrite Hlen in *. rewrite Hd by lia. lia.
Qed.

Lemma finish_kept t : history_ok t -> str_messages (finish t) = kept (max_messages (tr_limits t)) (tr_events t).
Proof.
  intros [Hb Hh Ht _]. destruct (half_lt _ Hb) as [H1 H2]. unfold finish, kept. cbn. rewrite Hh, Ht. rewrite skipn_skipn, length_drop.
  set (n := max_messages (tr_limits t)) in *. set (all := tr_events t).
  destruct (Nat.leb_spec (List.length all) n).
  - rewrite <- (take_drop (n / 2) all) at 4. f_equal. f_equal. lia.
  - f_equal. f_equal. lia.
Qed.

(** What a call does: at most one message, pushed after it was counted. *)
Definition same_history (t t0 : Transcript) : Prop :=
  tr_limits t0 = tr_limits t /\ tr_head t0 = tr_head t /\ tr_tail t0 = tr_tail t /\ tr_dropped t0 = tr_dropped t /\ tr_events t0 = tr_events t.

Definition count_call (op : TranscriptOp) (t : Transcript) : Transcript :=
  match counted op with Some (d, n) => count d n t | None => t end.

Lemma count_history d n t : same_history t (count d n t).
Proof. by destruct d. Qed.

Lemma count_call_history op t : same_history t (count_call op t).
Proof. unfold count_call. destruct (counted op) as [[d n]|]; [apply count_history|done]. Qed.

Lemma shared_metadata_spec r id t : exists shown sid, shared_metadata r id t = (shown, t <| tr_shared_id := sid |>).
Proof.
  unfold shared_metadata. destruct (tr_shared_id t) as [[cached shown]|] eqn:E; [destruct (_ =? _)%Z|];
    eexists _, _; try reflexivity. f_equal. destruct t; cbn in *; by subst.
Qed.

Lemma step_pushes t c : tc_op c <> T_Reset ->
  exists m sid, transcript_step t c = push m (count_call (tc_op c) t <| tr_shared_id := sid |>) /\
    message_of (tc_op c) = Some (sm_direction m, sm_kind m, sm_size m).
Proof.
  intros Hr. unfold transcript_step.
  destruct (tc_op c) as [d k p|d k w s|d k p i ty|d k p i ty|d k p|k s|] eqn:Eop; [..|done]; cbn [message_of];
    unfold data, data_text, event, event_shared_id, note, control, entry, count_call; cbn [counted].
  4: { set (t1 := count d (blen p) t).
    assert (exists shown sid, match i with Some id => let '(s, t) := shared_metadata (tc_redact c) id t1 in (Some s, t) | None => (None, t1) end =
      (shown, t1 <| tr_shared_id := sid |>)) as (shown & sid & ->).
    { destruct i as [id|]; [|eexists _, (tr_shared_id t1); f_equal; by destruct t1].
      destruct (shared_metadata_spec (tc_redact c) id t1) as (sh & sid & ->). by eexists _, sid. }
    destruct (preview _ _ _ _) as [[sh hx] tr]. by eexists _, sid. }
  all: destruct (preview _ _ _ _) as [[sh hx] tr];
    match goal with |- exists m sid, push ?m' ?t' = _ /\ _ => exists m', (tr_shared_id t') end; (split; [|done]); f_equal; by destruct t as [? ? ? ? ? ? ? ? ? ?]; try destruct d.
Qed.

Record counters_ok (calls : list TranscriptCall) (t : Transcript) : Prop := mkCountersOk {
  ok_sent_count : tr_sent_count t = (Z.of_nat (List.length (counted_in Direction_Sent calls)) mod 2 ^ 64)%Z;
  ok_sent_bytes : tr_sent_bytes t = (sizes (counted_in Direction_Sent calls) mod 2 ^ 64)%Z;
  ok_received_count : tr_received_count t = (Z.of_nat (List.length (counted_in Direction_Received calls)) mod 2 ^ 64)%Z;
  ok_received_bytes : tr_received_bytes t = (sizes (counted_in Direction_Received calls) mod 2 ^ 64)%Z
}.

Lemma counted_in_snoc d calls c :
  counted_in d (calls ++ [c]) = counted_in d calls ++ match counted (tc_op c) with Some (d', n) => if decide (d' = d) then [n] else [] | None => [] end.
Proof. unfold counted_in. rewrite omap_app. f_equal. cbn. destruct (counted (tc_op c)) as [[d' n]|]; [|done]. by destruct (decide (d' = d)). Qed.

Lemma sizes_app a b : sizes (a ++ b) = (sizes a + sizes b)%Z.
Proof. unfold sizes. induction a as [|x a IH]; cbn; [done|]. rewrite IH. lia. Qed.

Lemma add64_mod a b : add64 (a mod 2 ^ 64) b = ((a + b) mod 2 ^ 64)%Z.
Proof. unfold add64. by rewrite Zplus_mod_idemp_l. Qed.

Lemma push_counters m t : tr_sent_count (push m t) = tr_sent_count t /\ tr_sent_bytes (push m t) = tr_sent_bytes t /\
  tr_received_count (push m t) = tr_received_count t /\ tr_received_bytes (push m t) = tr_received_bytes t /\
  tr_events (push m t) = tr_events t ++ [m] /\ tr_limits (push m t) = tr_limits t /\ tr_shared_id (push m t) = tr_shared_id t.
Proof. unfold push. cbn. destruct (_ <? _); [|destruct (_ <=? _)]; repeat (split; [done|]); done. Qed.

Lemma count_call_counters calls t c : counters_ok calls t -> counters_ok (calls ++ [c]) (count_call (tc_op c) t).
Proof.
  intros [H1 H2 H3 H4]. unfold count_call. constructor; rewrite counted_in_snoc; destruct (counted (tc_op c)) as [[[] n]|];
    rewrite ?length_app, ?sizes_app; cbn [count tr_sent_count tr_sent_bytes tr_received_count tr_received_bytes decide];
    repeat (rewrite decide_True by done || rewrite decide_False by done); cbn [List.length sizes foldr];
    rewrite ?H1, ?H2, ?H3, ?H4, ?Nat.add_0_r, ?Z.add_0_r; try done; cbn; rewrite ?H1, ?H2, ?H3, ?H4, add64_mod; f_equal; lia.
Qed.

Lemma history_same t t0 : same_history t t0 -> history_ok t -> history_ok t0.
Proof. intros (E1 & E2 & E3 & E4 & E5) []. by constructor; rewrite ?E1, ?E2, ?E3, ?E4, ?E5. Qed.

Lemma run_snoc limits calls c : transcript_run limits (calls ++ [c]) = transcript_step (transcript_run limits calls) c.
Proof. unfold transcript_run. by rewrite foldl_app. Qed.

Lemma transcript_inv limits calls : let t := transcript_run limits calls in
  history_ok t /\ counters_ok calls t /\ tr_limits t = tr_limits (Transcript_new limits) /\
  map (fun m => (sm_direction m, sm_kind m, sm_size m)) (tr_events t) = omap (fun c => message_of (tc_op c)) calls.
Proof.
  induction calls as [|c calls IH] using rev_ind; cbv zeta.
  { cbn. split; [constructor; cbn; [lia|by rewrite firstn_nil|by rewrite !skipn_nil|done]|]. split; [by constructor|done]. }
  cbv zeta in IH. destruct IH as (Hh & Hc & Hl & He). rewrite run_snoc. set (t := transcript_run limits calls) in *. rewrite omap_app. cbn [omap list_omap].
  assert (tc_op c = T_Reset \/ tc_op c <> T_Reset) as [Er|Er] by (destruct (tc_op c); by (right + left)).
  - unfold transcript_step. rewrite Er. cbn [message_of]. rewrite app_nil_r. destruct (count_call_counters _ _ c Hc) as [C1 C2 C3 C4].
    rewrite Er in *. split; [by apply (history_same t)|]. split; [by constructor|]. by split.
  - destruct (step_pushes t c Er) as (m & sid & -> & Hm). rewrite Hm. set (t0 := count_call (tc_op c) t <| tr_shared_id := sid |>).
    destruct (count_call_history (tc_op c) t) as (E1 & E2 & E3 & E4 & E5).
    destruct (push_counters m t0) as (P1 & P2 & P3 & P4 & P5 & P6 & _).
    split; [apply push_ok, (history_same t); [by repeat split|done]|].
    split. { destruct (count_call_counters _ _ c Hc) as [C1 C2 C3 C4]. by constructor; rewrite ?P1, ?P2, ?P3, ?P4. }
    rewrite P5, P6, map_app. change (tr_events t0) with (tr_events (count_call (tc_op c) t)).
    change (tr_limits t0) with (tr_limits (count_call (tc_op c) t)). rewrite E1, E5. by rewrite <- He.
Qed.

(** * What an entry shows *)

(** What a text may show of [s] within [limit] bytes: without a redactor its
    first bytes, as far as characters are whole, with one an excerpt, cut
    there, of the redacted text up to 64 KiB past the cut. *)
Definition text_shown (r : Redact) (s : string) (limit : nat) (shown : string) : Prop :=
  exists cut, cut_at s limit cut /\
    match r with
    | Some f => exists past, cut_at s (limit + Z.to_nat 65536) past /\ excerpt_of f (str_take past s) cut shown
    | None => shown = str_take cut s
    end.

(** A preview of text, or one of the hexadecimal form of the payload, cut after
    whole bytes. *)
Definition preview_shown (r : Redact) (payload : list Z) (limit : nat) (is_hex : bool) (shown : string) : Prop :=
  if is_hex then text_shown r (hex_encode payload) (2 * Nat.min (List.length payload) (limit / 2)) shown
  else exists text, from_utf8 payload = Some text /\ text_shown r text limit shown.

(** A value of an event: at most 256 bytes, and a mark after them when it was
    cut. *)
Definition metadata_shown (r : Redact) (v shown : string) : Prop :=
  exists body cut, text_shown r v 256 body /\ cut_at v 256 cut /\ shown = if cut <? String.length v then body +:+ ellipsis else body.

Lemma str_take_length n s : String.length (str_take n s) = Nat.min n (String.length s).
Proof. revert s. induction n as [|n IH]; intros [|c s]; cbn; try done. by rewrite IH. Qed.

Lemma str_take_all n s : String.length s <= n -> str_take n s = s.
Proof. revert s. induction n as [|n IH]; intros [|c s]; cbn; try done; [lia|]. intros Hn. rewrite IH by lia. done. Qed.

Lemma str_take_take n m s : n <= m -> str_take n (str_take m s) = str_take n s.
Proof. revert m s. induction n as [|n IH]; intros [|m] [|c s] Hn; cbn; try done; [lia|]. rewrite IH by lia. done. Qed.

(** ** Hexadecimal text *)

Lemma hex_encode_cons b bs : hex_encode (b :: bs) = hex_encode [b] +:+ hex_encode bs.
Proof. unfold hex_encode. cbn [map String.concat]. destruct (map _ bs); [by rewrite str_app_nil_r|done]. Qed.

Lemma hex_encode_one b : exists x y, hex_encode [b] = String x (String y "").
Proof. unfold hex_encode. cbn [map String.concat]. by eexists _, _. Qed.

Lemma hex_encode_length bs : String.length (hex_encode bs) = 2 * List.length bs.
Proof.
  induction bs as [|b bs IH]; [done|]. rewrite hex_encode_cons. destruct (hex_encode_one b) as (x & y & ->).
  rewrite str_length_app, IH. cbn. lia.
Qed.

Lemma hex_encode_take n bs : str_take (2 * n) (hex_encode bs) = hex_encode (take n bs).
Proof.
  revert bs. induction n as [|n IH]; intros bs; [done|]. destruct bs as [|b bs]; [done|]. rewrite firstn_cons, hex_encode_cons, (hex_encode_cons b (take n bs)).
  destruct (hex_encode_one b) as (x & y & ->). replace (2 * S n) with (S (S (2 * n))) by lia. rewrite !str_app_cons, !str_app_nil. cbn [str_take]. by rewrite IH.
Qed.

(** Every byte of hexadecimal text is a character. *)
Lemma hex_digit_start n : (0 <= n < 16)%Z -> is_char_start (hex_digit n) = true.
Proof.
  intros Hn. assert (H : forallb (fun n => is_char_start (hex_digit n)) (seqZ 0 16) = true) by by vm_compute.
  rewrite forallb_forall in H. apply H, list_elem_of_In, elem_of_seqZ. lia.
Qed.

Definition all_starts (s : string) : Prop := Forall (fun c => is_char_start c = true) (list_ascii_of_string s).

Lemma hex_starts bs : bytes_ok bs -> all_starts (hex_encode bs).
Proof.
  unfold all_starts. induction 1 as [|b bs Hb _ IH]; [constructor|]. rewrite hex_encode_cons. unfold hex_encode at 1. unfold in_width in Hb.
  cbn [map String.concat]. rewrite !str_app_cons, str_app_nil. cbn [list_ascii_of_string].
  constructor; [|constructor; [|done]]; apply hex_digit_start; [split; [apply Z.div_pos; lia|apply Z.div_lt_upper_bound; lia]|apply Z.mod_pos_bound; lia].
Qed.

Lemma starts_boundary s n : all_starts s -> n <= String.length s -> char_boundary s n.
Proof.
  intros Hs Hn. right. destruct (decide (n = String.length s)) as [|Hne]; [by left|right]. revert s Hs Hn Hne. induction n as [|n IH]; intros [|c s] Hs Hn Hne; cbn in *; try lia.
  - inversion Hs; subst. by exists c, s.
  - inversion Hs; subst. apply IH; [done|lia|lia].
Qed.

Lemma starts_cut s i : all_starts s -> cut_at s i (Nat.min i (String.length s)).
Proof. intros Hs. split; [lia|]. split; [lia|]. split; [apply starts_boundary; [done|lia]|]. lia. Qed.

Lemma lookahead_bytes : Z.to_nat 65536 = lookahead.
Proof. unfold lookahead. f_equal. Qed.

Lemma lookahead_even : lookahead = 2 * (lookahead / 2).
Proof.
  rewrite <-lookahead_bytes. change 65536%Z with (2 * 32768)%Z. rewrite Z2Nat.inj_mul by lia. change (Z.to_nat 2) with 2.
  rewrite (Nat.mul_comm 2 (Z.to_nat 32768)), Nat.div_mul by lia. apply Nat.mul_comm.
Qed.

Lemma redacted_prefix_shown r s limit : text_shown r s limit (redacted_prefix r s limit).
Proof.
  unfold redacted_prefix. exists (floor_char_boundary s limit). split; [apply floor_cut_at|]. destruct r as [f|]; [|done].
  rewrite lookahead_bytes. exists (floor_char_boundary s (limit + lookahead)). split; [apply floor_cut_at|]. apply redact_then_cut_shows.
Qed.

(** What [preview] hands to [redacted_prefix] is as good as the whole payload. *)
Lemma hex_window_shown f payload n : bytes_ok payload -> n <= List.length payload ->
  text_shown (Some f) (hex_encode payload) (2 * n)
    (redacted_prefix (Some f) (hex_encode (take (Nat.min (List.length payload) (n + lookahead / 2)) payload)) (2 * n)).
Proof.
  intros Hb Hn. pose proof lookahead_even as Heven. set (m := Nat.min (List.length payload) (n + lookahead / 2)).
  assert (Hm : n <= m /\ m <= List.length payload /\ 2 * m <= 2 * n + lookahead) by (unfold m; lia).
  pose proof (hex_starts payload Hb) as Hs. assert (Hbm : bytes_ok (take m payload)) by by apply Forall_take. pose proof (hex_starts _ Hbm) as Hsm.
  assert (Hlm : String.length (hex_encode (take m payload)) = 2 * m) by (rewrite hex_encode_length, length_take; lia).
  exists (2 * n). split.
  { pose proof (starts_cut (hex_encode payload) (2 * n) Hs) as Hc. rewrite hex_encode_length in Hc. by rewrite Nat.min_l in Hc by lia. }
  rewrite lookahead_bytes. exists (2 * m). split.
  { pose proof (starts_cut (hex_encode payload) (2 * n + lookahead) Hs) as Hc. rewrite hex_encode_length in Hc.
    replace (Nat.min (2 * n + lookahead) (2 * List.length payload)) with (2 * m) in Hc; [exact Hc|].
    unfold m. lia. }
  rewrite hex_encode_take. unfold redacted_prefix.
  assert (Hcut : floor_char_boundary (hex_encode (take m payload)) (2 * n) = 2 * n).
  { eapply cut_at_unique; [apply floor_cut_at|]. pose proof (starts_cut (hex_encode (take m payload)) (2 * n) Hsm) as Hc. rewrite Hlm in Hc. by rewrite Nat.min_l in Hc by lia. }
  rewrite Hcut. rewrite str_take_all; [apply redact_then_cut_shows|].
  assert (Hpast : floor_char_boundary (hex_encode (take m payload)) (2 * n + lookahead) = 2 * m).
  { eapply cut_at_unique; [apply floor_cut_at|]. pose proof (starts_cut (hex_encode (take m payload)) (2 * n + lookahead) Hsm) as Hc. rewrite Hlm in Hc. by rewrite Nat.min_r in Hc by lia. }
  rewrite Hpast. lia.
Qed.

Lemma metadata_is_shown r v : metadata_shown r v (metadata r v).
Proof.
  exists (redacted_prefix r v METADATA_PREVIEW_BYTES), (floor_char_boundary v METADATA_PREVIEW_BYTES). split; [apply redacted_prefix_shown|]. split; [apply floor_cut_at|].
  done.
Qed.

Lemma preview_is_shown r limits payload force_hex : bytes_ok payload ->
  preview_shown r payload (preview_bytes limits) (preview r limits payload force_hex).1.2 (preview r limits payload force_hex).1.1.
Proof.
  intros Hb. set (n := Nat.min (List.length payload) (preview_bytes limits / 2)).
  assert (Hhex : text_shown r (hex_encode payload) (2 * n) (match r with
    | Some _ => redacted_prefix r (hex_encode (take (Nat.min (List.length payload) (n + lookahead / 2)) payload)) (2 * n)
    | None => hex_encode (take n payload) end)).
  { destruct r as [f|]; [apply hex_window_shown; [done|lia]|]. exists (2 * n). split; [|by rewrite hex_encode_take].
    pose proof (starts_cut (hex_encode payload) (2 * n) (hex_starts payload Hb)) as Hc. rewrite hex_encode_length in Hc. rewrite Nat.min_l in Hc; [done|lia]. }
  unfold preview. fold n. destruct force_hex; [done|]. destruct (from_utf8 payload) as [s|] eqn:E; [|done]. destruct (printable s); [|done].
  exists s. split; [done|]. apply redacted_prefix_shown.
Qed.

(** The buffers of shared ids: one text each. *)
Definition shared_id_of (op : TranscriptOp) : option SharedId := match op with T_EventSharedId _ _ _ i _ => i | _ => None end.

Definition buffers_ok (calls : list TranscriptCall) : Prop :=
  forall i j ci cj a b, calls !! i = Some ci -> calls !! j = Some cj ->
    shared_id_of (tc_op ci) = Some a -> shared_id_of (tc_op cj) = Some b -> si_buffer a = si_buffer b -> si_text a = si_text b.

(** The redactor of call [j] is one this attempt had at call [i]. *)
Definition same_attempt (calls : list TranscriptCall) (j i : nat) : Prop :=
  j <= i /\ forall k c, j < k -> k <= i -> calls !! k = Some c -> tc_op c <> T_Reset.

(** What message [m], of call [c] at [i], shows. *)
Definition entry_shows (limits : TranscriptLimits) (calls : list TranscriptCall) (i : nat) (c : TranscriptCall) (m : StreamMessage) : Prop :=
  message_of (tc_op c) = Some (sm_direction m, sm_kind m, sm_size m) /\
  preview_shown (tc_redact c) (payload_of (tc_op c)) (Nat.max (preview_bytes limits) 16) (sm_preview_is_hex m) (sm_preview m) /\
  (forall shown, sm_event_type m = Some shown -> exists v, metadata_shown (tc_redact c) v shown /\
     match tc_op c with T_Event _ _ _ _ (Some ty) | T_EventSharedId _ _ _ _ ty => v = ty | _ => False end) /\
  (forall shown, sm_event_id m = Some shown ->
     match tc_op c with
     | T_Event _ _ _ (Some id) _ => metadata_shown (tc_redact c) id shown
     | T_EventSharedId _ _ _ (Some id) _ => exists j c', calls !! j = Some c' /\ same_attempt calls j i /\ metadata_shown (tc_redact c') (si_text id) shown
     | _ => False
     end).

(** The cached form of a shared id, of a call since the last reset. *)
Definition cache_from (calls : list TranscriptCall) (id : SharedId) (shown : string) : Prop :=
  exists j c, calls !! j = Some c /\ shared_id_of (tc_op c) = Some id /\ shown = metadata (tc_redact c) (si_text id) /\
    forall k c', j < k -> calls !! k = Some c' -> tc_op c' <> T_Reset.

Definition cache_ok (calls : list TranscriptCall) (t : Transcript) : Prop :=
  forall id shown, tr_shared_id t = Some (id, shown) -> cache_from calls id shown.

Lemma cache_from_snoc calls c id shown : tc_op c <> T_Reset -> cache_from calls id shown -> cache_from (calls ++ [c]) id shown.
Proof.
  intros Hr (j & c' & Hj & Hid & Hs & Hno). exists j, c'. split; [by apply lookup_app_l_Some|]. split; [done|]. split; [done|].
  intros k d Hk Hd. apply lookup_app_Some in Hd as [Hd|[_ Hd]]; [by eapply Hno|]. by apply list_lookup_singleton_Some in Hd as [_ <-].
Qed.

Lemma cache_from_here calls c id : shared_id_of (tc_op c) = Some id -> cache_from (calls ++ [c]) id (metadata (tc_redact c) (si_text id)).
Proof.
  intros Hid. exists (List.length calls), c. split; [by apply list_lookup_middle|]. split; [done|]. split; [done|].
  intros k d Hk Hd. apply lookup_lt_Some in Hd. rewrite length_app in Hd. change (length calls) with (List.length calls) in Hd. cbn in Hd. lia.
Qed.

Lemma cache_from_attempt calls c id shown : shared_id_of (tc_op c) = Some id -> buffers_ok (calls ++ [c]) ->
  forall id', cache_from (calls ++ [c]) id' shown -> si_buffer id' = si_buffer id ->
  exists j c', (calls ++ [c]) !! j = Some c' /\ same_attempt (calls ++ [c]) j (List.length calls) /\ metadata_shown (tc_redact c') (si_text id) shown.
Proof.
  intros Hid Hb id' (j & c' & Hj & Hid' & -> & Hno) Hbuf. exists j, c'. split; [done|]. split.
  - split; [apply lookup_lt_Some in Hj; rewrite length_app in Hj; change (length calls) with (List.length calls) in Hj; cbn in Hj; lia|].
    intros k d Hk _. by apply Hno.
  - rewrite <- (Hb j (List.length calls) c' c id' id); [apply metadata_is_shown|done|by apply list_lookup_middle|done..].
Qed.

(** The message a call pushes, and the cache after it. *)
Lemma step_shows limits calls c : tc_op c <> T_Reset -> buffers_ok (calls ++ [c]) -> bytes_ok (payload_of (tc_op c)) ->
  let t := transcript_run limits calls in cache_ok calls t ->
  exists m, tr_events (transcript_step t c) = tr_events t ++ [m] /\ entry_shows limits (calls ++ [c]) (List.length calls) c m /\
    cache_ok (calls ++ [c]) (transcript_step t c).
Proof.
  intros Hr Hb Hbytes t Hcache. destruct (transcript_inv limits calls) as (_ & _ & Hl & _). fold t in Hl.
  assert (Hlim : Nat.max (preview_bytes limits) 16 = preview_bytes (tr_limits t)) by (by rewrite Hl).
  assert (Hkeep : cache_ok (calls ++ [c]) t) by (intros id shown E; apply cache_from_snoc; [done|by apply Hcache]).
  unfold entry_shows. rewrite Hlim. unfold transcript_step.
  destruct (tc_op c) as [d k p|d k w s|d k p i ty|d k p i ty|d k p|k s|] eqn:Eop; [..|done]; cbn [payload_of] in Hbytes |- *;
    unfold data, data_text, event, event_shared_id, note, control, entry.
  4: {
    set (t1 := count d (blen p) t). assert (E1 : tr_limits t1 = tr_limits t /\ tr_events t1 = tr_events t /\ tr_shared_id t1 = tr_shared_id t) by (by destruct d).
    destruct E1 as (L1 & V1 & S1).
    assert (exists shown t2, match i with Some id => let '(s, t) := shared_metadata (tc_redact c) id t1 in (Some s, t) | None => (None, t1) end = (shown, t2) /\
      tr_limits t2 = tr_limits t /\ tr_events t2 = tr_events t /\ cache_ok (calls ++ [c]) t2 /\
      (forall sh, shown = Some sh -> match i with Some id => exists j c', (calls ++ [c]) !! j = Some c' /\ same_attempt (calls ++ [c]) j (List.length calls) /\
         metadata_shown (tc_redact c') (si_text id) sh | None => False end)) as (shown & t2 & -> & L2 & V2 & C2 & Hid).
    { destruct i as [id|]; [|eexists None, t1; split; [done|]; split; [done|]; split; [done|]; split; [|done]; intros id sh; rewrite S1; apply Hkeep].
      assert (Hshared : shared_id_of (tc_op c) = Some id) by (by rewrite Eop).
      unfold shared_metadata. rewrite S1. destruct (tr_shared_id t) as [[cached sh]|] eqn:Esh; [destruct (Z.eqb_spec (si_buffer cached) (si_buffer id))|].
      1: { eexists (Some sh), t1. split; [done|]. split; [done|]. split; [done|]. split; [intros id' sh' E; rewrite S1 in E; injection E as <- <-; by apply Hkeep|].
           intros ? [= <-]. eapply (cache_from_attempt calls c id); [done..| |done]. by apply Hkeep. }
      all: eexists (Some (metadata (tc_redact c) (si_text id))), _; split; [done|]; split; [done|]; split; [done|]; split;
        [intros id' sh' [= <- <-]; by apply cache_from_here|]; intros ? [= <-];
        eapply (cache_from_attempt calls c id); [done..|by apply cache_from_here|done]. }
    destruct (preview (tc_redact c) (tr_limits t2) p false) as [[sh hx] tr] eqn:Ep.
    pose proof (preview_is_shown (tc_redact c) (tr_limits t2) p false Hbytes) as Hp. rewrite Ep, L2 in Hp.
    cbn [sm_direction sm_offset_us sm_kind sm_size sm_preview sm_preview_is_hex sm_preview_truncated sm_event_type].
    match goal with |- context [push ?m t2] => exists m; destruct (push_counters m t2) as (_ & _ & _ & _ & -> & _ & Hs); rewrite V2 end.
    split; [done|]. split; [|intros id' sh'; rewrite Hs; apply C2]. cbn [sm_preview sm_event_type sm_event_id fmap option_fmap option_map].
    split; [done|]. split; [exact Hp|]. split; [intros ? [= <-]; eexists; split; [apply metadata_is_shown|done]|exact Hid]. }
  all: match goal with |- context [preview ?r (tr_limits ?t') ?p ?b] =>
         assert (tr_limits t' = tr_limits t /\ tr_events t' = tr_events t /\ tr_shared_id t' = tr_shared_id t) as (L1 & V1 & S1) by (by try destruct d);
         pose proof (preview_is_shown r (tr_limits t') p b Hbytes) as Hp; destruct (preview r (tr_limits t') p b) as [[sh hx] tr]; try rewrite L1 in Hp end.
  all: cbn [sm_direction sm_offset_us sm_kind sm_size sm_preview sm_preview_is_hex sm_preview_truncated sm_event_id sm_event_type].
  all: match goal with |- context [push ?m ?t'] => exists m; destruct (push_counters m t') as (_ & _ & _ & _ & -> & _ & Hs); try rewrite V1;
    split; [done|]; split; [|intros id' sh' E; apply Hkeep; transitivity (tr_shared_id (push m t')); [symmetry; exact (eq_trans Hs S1)|exact E]] end.
  all: cbn [sm_preview sm_event_type sm_event_id fmap option_fmap option_map]; split; [done|]; split; [exact Hp|]; split; intros shown; try done.
  - destruct ty as [ty|]; [|done]. intros [= <-]. eexists. split; [apply metadata_is_shown|done].
  - destruct i as [id|]; [|done]. intros [= <-]. apply metadata_is_shown.
Qed.

Lemma entry_shows_snoc limits calls d i c m : calls !! i = Some c -> entry_shows limits calls i c m -> entry_shows limits (calls ++ [d]) i c m.
Proof.
  intros Hi (H0 & H1 & H2 & H3). split; [done|]. split; [done|]. split; [done|]. intros shown E. specialize (H3 shown E).
  destruct (tc_op c); try done. destruct event_id as [id|]; [|done]. destruct H3 as (j & c' & Hj & [Hle Hno] & Hm).
  exists j, c'. split; [by apply lookup_app_l_Some|]. split; [|done]. split; [done|]. intros k e Hk Hki Hd.
  apply lookup_app_Some in Hd as [Hd|[Hge _]]; [by eapply Hno|]. apply lookup_lt_Some in Hi. lia.
Qed.

Lemma buffers_ok_prefix calls d : buffers_ok (calls ++ [d]) -> buffers_ok calls.
Proof. intros H i j ci cj a b Hi Hj. apply (H i j); by apply lookup_app_l_Some. Qed.

Definition payloads_ok (calls : list TranscriptCall) : Prop := Forall (fun c => bytes_ok (payload_of (tc_op c))) calls.

Lemma transcript_shows limits calls : buffers_ok calls -> payloads_ok calls -> let t := transcript_run limits calls in
  cache_ok calls t /\ forall m, m ∈ tr_events t -> exists i c, calls !! i = Some c /\ entry_shows limits calls i c m.
Proof.
  induction calls as [|c calls IH] using rev_ind; intros Hb Hbytes; cbv zeta.
  { split; [done|]. intros m Hm. by apply not_elem_of_nil in Hm. }
  apply Forall_app in Hbytes as [Hbytes Hcb]. apply (proj1 (list.Forall_singleton _ _)) in Hcb.
  destruct (IH (buffers_ok_prefix _ _ Hb) Hbytes) as [Hc Hm]. clear IH. rewrite run_snoc.
  assert (Hold : forall m, m ∈ tr_events (transcript_run limits calls) ->
    exists i c0, (calls ++ [c]) !! i = Some c0 /\ entry_shows limits (calls ++ [c]) i c0 m).
  { intros m Hin. destruct (Hm m Hin) as (i & c' & Hi & Hs). exists i, c'. split; [by apply lookup_app_l_Some|by apply entry_shows_snoc]. }
  assert (tc_op c = T_Reset \/ tc_op c <> T_Reset) as [Er|Er] by (destruct (tc_op c); by (right + left)).
  - unfold transcript_step. rewrite Er. split; [done|]. exact Hold.
  - destruct (step_shows limits calls c Er Hb Hcb Hc) as (m & -> & Hs & Hc'). split; [done|]. intros m' Hin.
    apply elem_of_app in Hin as [Hin|Hin%list_elem_of_singleton]; [by apply Hold|]. subst m'.
    exists (List.length calls), c. split; [by apply list_lookup_middle|done].
Qed.

Lemma kept_incl {A} n (all : list A) m : m ∈ kept n all -> m ∈ all.
Proof.
  unfold kept. destruct (_ <=? _); [done|]. intros [H|H]%elem_of_app.
  - apply list_elem_of_lookup in H as [i Hi]. apply lookup_take_Some in Hi as [Hi _]. by eapply list_elem_of_lookup_2.
  - apply list_elem_of_lookup in H as [i Hi]. rewrite lookup_drop in Hi. by eapply list_elem_of_lookup_2.
Qed.

Lemma kept_length {A} n (all : list A) : 2 <= n -> List.length (kept n all) = Nat.min n (List.length all).
Proof.
  intros Hn. destruct (half_lt n Hn). unfold kept. destruct (Nat.leb_spec (List.length all) n); [lia|].
  rewrite length_app, length_take, length_drop. lia.
Qed.

(** * Properties *)

(** A transcript keeps the first half and the most recent half of what the
    session's calls recorded, in order, at most its bound; the rest is counted
    as dropped; the counters cover every application message of the session,
    kept or not, as far as 64-bit counters go. *)
Theorem transcript_exact limits calls :
  let t := transcript_run limits calls in
  let n := Nat.max (max_messages limits) 2 in
  let out := finish t in
  map (fun m => (sm_direction m, sm_kind m, sm_size m)) (tr_events t) = omap (fun c => message_of (tc_op c)) calls /\
  str_messages out = kept n (tr_events t) /\ List.length (str_messages out) <= n /\
  ((Z.of_nat (List.length calls) < 2 ^ 64)%Z ->
   (str_dropped_messages out + Z.of_nat (List.length (str_messages out)) = Z.of_nat (List.length (tr_events t)))%Z) /\
  str_sent_count out = (Z.of_nat (List.length (counted_in Direction_Sent calls)) mod 2 ^ 64)%Z /\
  str_sent_bytes out = (sizes (counted_in Direction_Sent calls) mod 2 ^ 64)%Z /\
  str_received_count out = (Z.of_nat (List.length (counted_in Direction_Received calls)) mod 2 ^ 64)%Z /\
  str_received_bytes out = (sizes (counted_in Direction_Received calls) mod 2 ^ 64)%Z.
Proof.
  intros t n out. destruct (transcript_inv limits calls) as (Hh & [C1 C2 C3 C4] & Hl & He). fold t in Hh, C1, C2, C3, C4, Hl, He.
  pose proof (finish_kept t Hh) as Hk. assert (Hn : max_messages (tr_limits t) = n) by (by rewrite Hl). rewrite Hn in Hk.
  pose proof (kept_length n (tr_events t) ltac:(lia)) as Hlen. fold out in Hk. rewrite <- Hk in Hlen.
  split; [done|]. split; [done|]. split; [lia|]. split; [|by rewrite C1, C2, C3, C4 || done].
  intros Hz. assert (Hcalls : List.length (tr_events t) <= List.length calls).
  { transitivity (List.length (omap (fun c => message_of (tc_op c)) calls)); [rewrite <- He; by rewrite length_map|]. clear.
    induction calls as [|c cs IH]; cbn; [done|]. destruct (message_of (tc_op c)); cbn; lia. }
  pose proof (history_dropped t Hh ltac:(lia)) as Hd. rewrite Hn in Hd. change (str_dropped_messages out) with (tr_dropped t). lia.
Qed.

(** C18: whatever the payloads and however the redactor grows, an entry of a
    transcript shows of its payload, event id and type only what the redactor
    of its call makes of them, redacted before they are cut: an excerpt, cut at
    the bound of the text or of the hexadecimal form of the payload, of what
    redacting it with the 64 KiB past the cut gives. An id shared across events
    may show what it did at an earlier event of the same connection attempt,
    never of an attempt before. Without a redactor the first bytes are shown,
    up to the bound. Ids and types have at most 256 bytes before they are
    redacted, and a mark when they were cut. *)
Theorem transcript_shows_only_redacted limits calls : buffers_ok calls -> payloads_ok calls ->
  forall m, m ∈ str_messages (finish (transcript_run limits calls)) ->
  exists i c, calls !! i = Some c /\ entry_shows limits calls i c m.
Proof.
  intros Hb Hbytes m Hm. destruct (transcript_inv limits calls) as (Hh & _). rewrite (finish_kept _ Hh) in Hm. apply kept_incl in Hm.
  by apply (transcript_shows limits calls Hb Hbytes).
Qed.

(** * Witnesses *)

Definition hide_all (s : string) : string := if String.eqb s "token" then REDACTED else s.

Definition sample_calls : list TranscriptCall :=
  [mkTranscriptCall None 1 (T_EventSharedId Direction_Received "event" [104; 105]%Z (Some (mkSharedId 7 "token")) "message");
   mkTranscriptCall (Some hide_all) 2 (T_EventSharedId Direction_Received "event" [0; 255]%Z (Some (mkSharedId 7 "token")) "message");
   mkTranscriptCall (Some hide_all) 3 T_Reset;
   mkTranscriptCall (Some hide_all) 4 (T_EventSharedId Direction_Received "event" [104]%Z (Some (mkSharedId 7 "token")) "message");
   mkTranscriptCall (Some hide_all) 5 (T_Data Direction_Sent "text" (bytes_of_string "token"))].

Example sample_transcript :
  map (fun m => (sm_preview m, sm_preview_is_hex m, sm_event_id m)) (str_messages (finish (transcript_run (mkTranscriptLimits 3 0) sample_calls))) =
  [("hi", false, Some "token"); ("h", false, Some REDACTED); (REDACTED, false, None)].
Proof. vm_compute. reflexivity. Qed.

Lemma sample_buffers_ok : buffers_ok sample_calls.
Proof.
  intros i j ci cj a b Hi Hj Ha Hb _.
  assert (H : forall k c id, sample_calls !! k = Some c -> shared_id_of (tc_op c) = Some id -> si_text id = "token").
  { intros k c id Hk. do 5 (destruct k as [|k]; [injection Hk as <-; cbn; by intros [= <-]|]). done. }
  by rewrite (H i ci a), (H j cj b).
Qed.

Lemma sample_payloads_ok : payloads_ok sample_calls.
Proof. apply (bool_decide_unpack _). vm_compute. exact I. Qed.

Lemma transcript_exact_witness :
  let t := transcript_run (mkTranscriptLimits 3 0) sample_calls in
  let out := finish t in
  (str_dropped_messages out + Z.of_nat (List.length (str_messages out)) = Z.of_nat (List.length (tr_events t)))%Z.
Proof. by apply (transcript_exact (mkTranscriptLimits 3 0) sample_calls). Defined.

Lemma transcript_shows_only_redacted_witness :
  let out := finish (transcript_run (mkTranscriptLimits 3 0) sample_calls) in
  List.length (str_messages out) = 3%nat /\
  forall m, m ∈ str_messages out -> exists i c, sample_calls !! i = Some c /\ entry_shows (mkTranscriptLimits 3 0) sample_calls i c m.
Proof. split; [vm_compute; reflexivity|]. exact (transcript_shows_only_redacted (mkTranscriptLimits 3 0) sample_calls sample_buffers_ok sample_payloads_ok). Defined.
