(* ===== verification/Recorder.v ===== *)
(** The phases of an attempt as they are recorded
    (crates/anvil-transport/src/recorder.rs, [Recorder]; the end of an attempt
    in session.rs): every phase opened is closed when the attempt ends, with
    the status its failure gives, and the live events tell the same.

    Times are microseconds since the recorder's [t0], read by the caller of an
    operation. *)
From Stdlib Require Import ZArith Lia Ascii String.
From stdpp Require Import base numbers strings option list.
From S2P Require Import Prelude Text Evidence Secret.
Open Scope string_scope.
Open Scope list_scope.
Open Scope Z_scope.

(** [ExecutionEvent] (anvil-domain/src/events.rs). *)
Inductive ExecutionEvent :=
  | EE_Started (execution_id method url : string)
  | EE_AttemptStarted (execution_id : string) (attempt : Z)
  | EE_Phase (execution_id : string) (attempt : Z) (phase : Phase) (status : PhaseStatus) (offset_us : Z)
  | EE_ResponseHead (execution_id : string) (attempt : Z) (status : Z)
  | EE_BodyProgress (execution_id : string) (bytes : Z)
  | EE_Message (execution_id : string) (message : StreamMessage)
  | EE_AttemptFailed (execution_id : string) (attempt : Z) (kind : FailureKind)
  | EE_Finished (execution_id : string).

Record Recorder := mkRecorder {
  rc_phases : list PhaseTiming;
  rc_attempt : Z;
  rc_execution_id : string;
  rc_events : list ExecutionEvent
}.

#[export] Instance eta_Recorder : Eta Recorder := fun r => mkRecorder (rc_phases r) (rc_attempt r) (rc_execution_id r) (rc_events r).
#[export] Instance eta_PhaseTiming : Eta PhaseTiming := fun p =>
  mkPhaseTiming (pt_phase p) (pt_status p) (pt_start_us p) (pt_end_us p) (pt_detail p).







(** A phase that began and has no end. *)
Definition is_open (p : PhaseTiming) : bool :=
  match pt_end_us p, pt_start_us p with None, Some _ => true | _, _ => false end.



Definition open_phase (r : Recorder) : option Phase := pt_phase <$> List.find is_open (rev (rc_phases r)).

(** * The end of an attempt (session.rs) *)


#[export] Instance eta_AttemptObservation : Eta AttemptObservation := fun o =>
  mkAttemptObservation (att_index o) (att_reason o) (att_method o) (att_url o) (att_started_at o) (att_connection o) (att_phases o)
    (att_dispatch o) (att_bytes o) (att_response_status o) (att_failure o) (att_duration_us o) (att_early_data o).






(** [earliest] and [cleanup_bound]: instants as nanoseconds. *)
Definition earliest (a b : option Z) : option Z :=
  match a, b with
  | Some a, Some b => Some (Z.min a b)
  | Some a, None => Some a
  | None, b => b
  end.

Definition cleanup_bound (now max : Z) (deadline : option Z) : Z :=
  let own := now + max in match deadline with Some d => Z.min d own | None => own end.

Definition deadline_from (now : Z) (ms : option Z) : option Z := (fun m => now + m * 1000000) <$> ms.

(** What a [guarded] operation comes to, polled in the source's order: the
    cancellation, the deadline, the operation itself; [None] while none of
    them is ready. *)
Inductive Interrupted := Interrupted_Canceled | Interrupted_Deadline.

Definition guarded {A} (canceled deadline_passed : bool) (fut : option A) : option (result A Interrupted) :=
  if canceled then Some (Err Interrupted_Canceled)
  else if deadline_passed then Some (Err Interrupted_Deadline)
  else Ok <$> fut.

(** * Attempts *)



















(** ** What a phase's record says *)





















