(* ===== verification/WsDeflate.v ===== *)
(** WebSocket compression (crates/anvil-transport/src/ws_deflate.rs): the
    permessage-deflate offer, the validation of the server's answer against
    it, and the meter that counts data messages and their bytes from frame
    headers as they cross the stream.

    Header values are byte strings; every delimiter is an ASCII character, so
    characters and bytes are split alike. *)
From Stdlib Require Import ZArith Lia Ascii String.
From stdpp Require Import base numbers strings pretty option list.
From S2P Require Import Prelude Text Bytes Evidence Secret.
Open Scope string_scope.
Open Scope list_scope.
Open Scope Z_scope.

Definition EXTENSION : string := "permessage-deflate".

Record DeflateOffer := mkDeflateOffer {
  do_server_no_context_takeover : bool;
  do_client_no_context_takeover : bool;
  do_server_max_window_bits : option Z;
  do_client_max_window_bits : option Z
}.

Definition DeflateOffer_default : DeflateOffer := mkDeflateOffer false false None None.

(** [DeflateOffer::header_value]. *)
Definition header_value (o : DeflateOffer) : string :=
  EXTENSION
  +:+ (if do_server_no_context_takeover o then "; server_no_context_takeover" else "")
  +:+ (if do_client_no_context_takeover o then "; client_no_context_takeover" else "")
  +:+ (match do_server_max_window_bits o with Some b => "; server_max_window_bits=" +:+ pretty b | None => "" end)
  +:+ (match do_client_max_window_bits o with
       | Some b => "; client_max_window_bits=" +:+ pretty b
       | None => "; client_max_window_bits" end).

(** The codec's setup (the vendored tungstenite's [DeflateConfig]). *)
Record DeflateConfig := mkDeflateConfig {
  dc_compress : bool;
  dc_compress_window_bits : Z;
  dc_compress_no_context_takeover : bool;
  dc_decompress_no_context_takeover : bool;
  dc_level : Z
}.

Record Agreed := mkAgreed { ag_params : WsDeflateParams; ag_codec : DeflateConfig }.

Definition describe (p : WsDeflateParams) : string :=
  let bits (b : option Z) := "2^" +:+ pretty (default 15 b) in
  "permessage-deflate negotiated: server window " +:+ bits (wdp_server_max_window_bits p) +:+ " with"
  +:+ (if wdp_server_no_context_takeover p then "out" else "") +:+ " context takeover, Anvil window "
  +:+ bits (wdp_client_max_window_bits p) +:+ " with" +:+ (if wdp_client_no_context_takeover p then "out" else "")
  +:+ " context takeover"
  +:+ (if wdp_client_compresses p then ""
       else "; Anvil sends its messages uncompressed because it cannot compress within a 256-byte window").

(** * The answer *)

Record Element := mkElement { el_name : string; el_params : list (string * option string) }.

Definition QUOTE : ascii := "034".

Definition ascii_between (lo hi : nat) (c : ascii) : bool := ((lo <=? byte_of c) && (byte_of c <=? hi))%nat.

Definition is_tchar (c : ascii) : bool :=
  ascii_between 48 57 c || ascii_between 65 90 c || ascii_between 97 122 c
  || existsb (Ascii.eqb c) (list_ascii_of_string "!#$%&'*+-.^_`|~").

Definition is_token (s : string) : bool := negb (str_is_empty s) && forallb is_tchar (list_ascii_of_string s).

(** [split_outside_quotes] from a state: [part] is the part so far. *)
Fixpoint split_from (sep : ascii) (s : string) (part : string) (quoted escaped : bool) : result (list string) string :=
  match s with
  | "" => if quoted then Err "an unterminated quoted string" else Ok [part]
  | String c s' =>
      let keep := part +:+ String c "" in
      if escaped then split_from sep s' keep quoted false
      else if Ascii.eqb c "\" && quoted then split_from sep s' keep quoted true
      else if Ascii.eqb c QUOTE then split_from sep s' keep (negb quoted) false
      else if Ascii.eqb c sep && negb quoted then
        let? parts := split_from sep s' "" quoted false in Ok (part :: parts)
      else split_from sep s' keep quoted false
  end.

Definition split_outside_quotes (s : string) (sep : ascii) : result (list string) string := split_from sep s "" false false.

(** The text of a quoted string, its escapes undone. *)
Fixpoint unquote (s : string) (esc : bool) : string :=
  match s with
  | "" => ""
  | String c s' => if negb esc && Ascii.eqb c "\" then unquote s' true else String c (unquote s' false)
  end.

(** [v.len() >= 2 && v.starts_with(QUOTE) && v.ends_with(QUOTE)]: the text between. *)
Definition quoted_text (v : string) : option string :=
  match v with
  | String a (String _ _ as r) =>
      let inner := str_take (String.length r - 1) r in
      if Ascii.eqb a QUOTE && String.eqb (str_drop (String.length r - 1) r) (String QUOTE "") then Some inner else None
  | _ => None
  end.

Definition parse_value (k : string) (v : option string) : result (option string) string :=
  match v with
  | None => Ok None
  | Some v =>
      match quoted_text v with
      | Some inner =>
          let s := unquote inner false in
          if is_token s then Ok (Some s) else Err ("the value of " +:+ k +:+ " is not a token")
      | None => if is_token v then Ok (Some v) else Err ("the value of " +:+ k +:+ " is not a token")
      end
  end.

Definition parse_param (name p : string) : result (string * option string) string :=
  let '(k, v) := match split_once "=" p with Some (k, v) => (trim k, Some (trim v)) | None => (trim p, None) end in
  if negb (is_token k) then Err ("'" +:+ trim p +:+ "' is not a valid parameter of " +:+ name)
  else let? v := parse_value k v in Ok (to_ascii_lowercase k, v).

(** A loop that stops at the first error. *)
Fixpoint collect {A B E} (f : A -> result B E) (l : list A) : result (list B) E :=
  match l with
  | [] => Ok []
  | x :: l' => let? y := f x in let? ys := collect f l' in Ok (y :: ys)
  end.

(** One item of the list; an empty one is ignored. *)
Definition parse_item (item : string) : result (option Element) string :=
  if str_is_empty (trim item) then Ok None
  else
    let? parts := split_outside_quotes item ";" in
    let name := trim (default "" (head parts)) in
    if negb (is_token name) then Err ("'" +:+ name +:+ "' is not a valid extension name")
    else
      let? params := collect (parse_param name) (tail parts) in
      Ok (Some (mkElement (to_ascii_lowercase name) params)).

Definition parse (values : list string) : result (list Element) string :=
  let? out := collect (fun value => let? items := split_outside_quotes value "," in collect parse_item items) values in
  Ok (omap id (concat out)).

(** [str::parse::<u8>]: an optional plus sign and digits. *)
Definition parse_u8 (s : string) : option Z :=
  let digits := match s with String "+" s' => s' | _ => s end in
  if str_is_empty digits then None else
  n ← digits_value 0 digits; if n <=? U8_MAX then Some n else None.

Definition window_bits (name : string) (v : option string) : result Z string :=
  match v with
  | None => Err (name +:+ " has no value, but the answer must give one (8 to 15)")
  | Some s =>
      match (if starts_with s "0" then None else b ← parse_u8 s; if (8 <=? b) && (b <=? 15) then Some b else None) with
      | Some b => Ok b
      | None => Err (name +:+ "=" +:+ s +:+ " is not a window size from 8 to 15")
      end
  end.

(** The parameters read so far, and the names seen. *)
Record Answer := mkAnswer {
  an_server_nct : bool;
  an_client_nct : bool;
  an_server_bits : option Z;
  an_client_bits : option Z;
  an_seen : list string
}.

Definition Answer_empty : Answer := mkAnswer false false None None [].

Definition SNCT : string := "server_no_context_takeover".
Definition CNCT : string := "client_no_context_takeover".
Definition SBITS : string := "server_max_window_bits".
Definition CBITS : string := "client_max_window_bits".

Definition read_param (a : Answer) (kv : string * option string) : result Answer string :=
  let '(k, v) := kv in
  if existsb (String.eqb k) (an_seen a) then Err ("the answer repeats " +:+ k)
  else
    let seen := an_seen a ++ [k] in
    if String.eqb k SNCT || String.eqb k CNCT then
      match v with
      | Some v => Err (k +:+ " takes no value, but the answer gives " +:+ k +:+ "=" +:+ v)
      | None =>
          if String.eqb k SNCT then Ok (mkAnswer true (an_client_nct a) (an_server_bits a) (an_client_bits a) seen)
          else Ok (mkAnswer (an_server_nct a) true (an_server_bits a) (an_client_bits a) seen)
      end
    else if String.eqb k SBITS then
      let? b := window_bits k v in Ok (mkAnswer (an_server_nct a) (an_client_nct a) (Some b) (an_client_bits a) seen)
    else if String.eqb k CBITS then
      let? b := window_bits k v in Ok (mkAnswer (an_server_nct a) (an_client_nct a) (an_server_bits a) (Some b) seen)
    else Err (k +:+ " is not a permessage-deflate parameter").

Definition read_params (params : list (string * option string)) (a : Answer) : result Answer string :=
  fold_left (fun r kv => let? a := r in read_param a kv) params (Ok a).

(** What the answer must honour of the offer. *)
Definition check_offer (offer : DeflateOffer) (a : Answer) : result unit string :=
  if do_server_no_context_takeover offer && negb (an_server_nct a) then
    Err "the offer asked for server_no_context_takeover, but the answer does not include it"
  else
    let? _ := match do_server_max_window_bits offer with
      | Some asked =>
          match an_server_bits a with
          | None => Err ("the offer asked for server_max_window_bits=" +:+ pretty asked +:+ ", but the answer does not include it")
          | Some b => if asked <? b then Err ("the answer's server_max_window_bits=" +:+ pretty b +:+ " is larger than the " +:+ pretty asked +:+ " Anvil asked for") else Ok tt
          end
      | None => Ok tt
      end in
    match do_client_max_window_bits offer, an_client_bits a with
    | Some limit, Some b => if limit <? b then Err ("the answer's client_max_window_bits=" +:+ pretty b +:+ " is larger than the " +:+ pretty limit +:+ " Anvil offered") else Ok tt
    | _, _ => Ok tt
    end.

Definition agree (offer : DeflateOffer) (a : Answer) : Agreed :=
  let client_nct := an_client_nct a || do_client_no_context_takeover offer in
  let client_window := match an_client_bits a with Some b => Some b | None => do_client_max_window_bits offer end in
  let bits := default 15 client_window in
  let client_compresses := 9 <=? bits in
  mkAgreed
    (mkWsDeflateParams (an_server_nct a) client_nct (an_server_bits a) client_window client_compresses)
    (mkDeflateConfig client_compresses (Z.max bits 9) client_nct (an_server_nct a) 6).

Definition negotiate (offer : option DeflateOffer) (answer : list string) (raw_offer : bool) : result (option Agreed) string :=
  match parse answer with
  | Err e => Err ("the Sec-WebSocket-Extensions answer is malformed: " +:+ e)
  | Ok [] => Ok None
  | Ok (first :: others) =>
      match (o ← offer; if String.eqb (el_name first) EXTENSION then Some o else None) with
      | None =>
          let why := if raw_offer then "; Anvil runs only a permessage-deflate it offered itself, not one offered through a custom Sec-WebSocket-Extensions header" else "" in
          Err ("the server accepted the extension '" +:+ el_name first +:+ "', which Anvil did not offer" +:+ why)
      | Some offer =>
          match others with
          | extra :: _ =>
              if String.eqb (el_name extra) EXTENSION then Err "the answer names permessage-deflate more than once"
              else Err ("the server accepted the extension '" +:+ el_name extra +:+ "', which Anvil did not offer")
          | [] =>
              let? a := read_params (el_params first) Answer_empty in
              let? _ := check_offer offer a in
              Ok (Some (agree offer a))
          end
      end
  end.

(** * The handshake's extensions (ws.rs) *)

(** The [bounded] of [negotiate_extensions]. *)
Definition bounded (s : string) : string :=
  if (String.length s <=? 512)%nat then s else str_take (floor_char_boundary s 512) s +:+ "…".

Definition offer_name (deflate : option DeflateOffer) : string :=
  match deflate with Some _ => "permessage-deflate" | None => "a Sec-WebSocket-Extensions header" end.

Definition not_negotiated_note (deflate : option DeflateOffer) : string :=
  offer_name deflate +:+ " offered but not negotiated: the answer named no extension, so the session is uncompressed".

(** [negotiate_extensions]: the evidence, the codec or the reason the answer
    is refused, and the notes. [offered] and [answered] are the values of the
    request's and the response's [Sec-WebSocket-Extensions] fields. *)
Definition negotiate_extensions (deflate : option DeflateOffer) (redact : option (string -> string)) (offered answered : list string)
  (notes : list string) : option WsExtensions * result (option DeflateConfig) string * list string :=
  match offered, answered with
  | [], [] => (None, Ok None, notes)
  | _, _ =>
      let redact := default (fun s => s) redact in
      let some (l : list string) (s : string) : option string := match l with [] => None | _ => Some s end in
      let ext negotiation problem params :=
        mkWsExtensions (some offered (redact (join ", " offered))) (some answered (redact (bounded (join ", " answered))))
          negotiation problem params None None in
      let raw_offer := match deflate, offered with None, _ :: _ => true | _, _ => false end in
      match negotiate deflate answered raw_offer with
      | Ok (Some a) => (Some (ext WsNegotiation_Negotiated None (Some (ag_params a))), Ok (Some (ag_codec a)), notes ++ [describe (ag_params a)])
      | Ok None => (Some (ext WsNegotiation_NotNegotiated None None), Ok None, notes ++ [not_negotiated_note deflate])
      | Err e => (Some (ext WsNegotiation_Rejected (Some (redact e)) None), Err (redact e), notes)
      end
  end.

(** * The meter *)

(** The header bytes collected, how many are needed, the payload bytes to
    come, whether they are data, and the totals. *)
Record DirMeter := mkDirMeter {
  dm_header : list Z;
  dm_need : nat;
  dm_skip : Z;
  dm_data : bool;
  dm_totals : WsDirectionTotals
}.

Definition DirMeter_default : DirMeter := mkDirMeter [] 0 0 false (mkWsDirectionTotals 0 0 0 0).

Definition hdr (h : list Z) (i : nat) : Z := default 0 (h !! i).

Definition count_wire (n : Z) (t : WsDirectionTotals) : WsDirectionTotals :=
  mkWsDirectionTotals (wdt_messages t) (wdt_compressed_messages t) (wdt_payload_bytes t) (add64 (wdt_wire_bytes t) n).

Definition count_message (compressed : bool) (t : WsDirectionTotals) : WsDirectionTotals :=
  mkWsDirectionTotals (add64 (wdt_messages t) 1) (if compressed then add64 (wdt_compressed_messages t) 1 else wdt_compressed_messages t)
    (wdt_payload_bytes t) (wdt_wire_bytes t).

(** The length of a header whose first two bytes are known. *)
Definition header_need (h : list Z) : nat :=
  let len7 := Z.land (hdr h 1) 0x7f in
  let extended := if len7 =? 126 then 2%nat else if len7 =? 127 then 8%nat else 0%nat in
  let mask := if Z.land (hdr h 1) 0x80 =? 0 then 0%nat else 4%nat in
  (2 + extended + mask)%nat.

(** A complete header. *)
Definition end_header (h : list Z) (t : WsDirectionTotals) : DirMeter :=
  let opcode := Z.land (hdr h 0) 0x0f in
  let len7 := Z.land (hdr h 1) 0x7f in
  let len :=
    if len7 =? 126 then be_value [hdr h 2; hdr h 3]
    else if len7 =? 127 then be_value (take 8 (drop 2 h))
    else len7 in
  let data := (opcode =? 0) || (opcode =? 1) || (opcode =? 2) in
  let t := if (opcode =? 1) || (opcode =? 2) then count_message (negb (Z.land (hdr h 0) 0x40 =? 0)) t else t in
  mkDirMeter [] 2 len data t.

(** The loop of [feed]; every turn takes a byte of [buf]. *)
Fixpoint feed_loop (fuel : nat) (buf : list Z) (m : DirMeter) : DirMeter :=
  match fuel, buf with
  | S fuel', _ :: _ =>
      if 0 <? dm_skip m then
        let n := Z.to_nat (Z.min (dm_skip m) (blen buf)) in
        let t := if dm_data m then count_wire (Z.of_nat n) (dm_totals m) else dm_totals m in
        feed_loop fuel' (drop n buf) (mkDirMeter (dm_header m) (dm_need m) (dm_skip m - Z.of_nat n) (dm_data m) t)
      else
        let need := if (dm_need m =? 0)%nat then 2%nat else dm_need m in
        let n := Nat.min (need - List.length (dm_header m)) (List.length buf) in
        let h := dm_header m ++ take n buf in
        let buf := drop n buf in
        if (List.length h <? need)%nat then feed_loop fuel' buf (mkDirMeter h need (dm_skip m) (dm_data m) (dm_totals m))
        else
          let need' := if (List.length h =? 2)%nat then header_need h else need in
          if (List.length h <? need')%nat then feed_loop fuel' buf (mkDirMeter h need' (dm_skip m) (dm_data m) (dm_totals m))
          else feed_loop fuel' buf (end_header h (dm_totals m))
  | _, _ => m
  end.

Definition meter_feed (buf : list Z) (m : DirMeter) : DirMeter := feed_loop (List.length buf) buf m.

Record FrameMeter := mkFrameMeter { fm_read : DirMeter; fm_written : DirMeter }.

(** [FrameMeter::totals]: sent and received. *)
Definition meter_totals (m : FrameMeter) : WsDirectionTotals * WsDirectionTotals := (dm_totals (fm_written m), dm_totals (fm_read m)).

(** What [Metered] feeds: the bytes a read filled, and those a write took. *)
Definition metered_read (filled : list Z) (m : FrameMeter) : FrameMeter := mkFrameMeter (meter_feed filled (fm_read m)) (fm_written m).
Definition metered_write (data : list Z) (n : nat) (m : FrameMeter) : FrameMeter := mkFrameMeter (fm_read m) (meter_feed (take n data) (fm_written m)).

Definition demo_negotiate (o : DeflateOffer) (answer : string) := negotiate (Some o) [answer] false.

Example negotiate_examples :
  demo_negotiate DeflateOffer_default "permessage-deflate" = Ok (Some (mkAgreed (mkWsDeflateParams false false None None true) (mkDeflateConfig true 15 false false 6))) /\
  demo_negotiate DeflateOffer_default " , Permessage-Deflate ;client_max_window_bits=8; SERVER_no_context_takeover" =
    Ok (Some (mkAgreed (mkWsDeflateParams true false None (Some 8) false) (mkDeflateConfig false 9 false true 6))) /\
  demo_negotiate DeflateOffer_default "permessage-deflate; server_max_window_bits=08" = Err "server_max_window_bits=08 is not a window size from 8 to 15" /\
  demo_negotiate DeflateOffer_default "x-webkit" = Err "the server accepted the extension 'x-webkit', which Anvil did not offer" /\
  demo_negotiate (mkDeflateOffer true false None None) "permessage-deflate" =
    Err "the offer asked for server_no_context_takeover, but the answer does not include it" /\
  negotiate None [] true = Ok None.
Proof. vm_compute. repeat split. Qed.

(** * What an answer must be *)

(** A decimal integer from 8 to 15 that does not begin with a zero, as
    [u8::from_str] reads it. *)
Definition window_read (s : string) (b : Z) : Prop := starts_with s "0" = false /\ parse_u8 s = Some b /\ 8 <= b <= 15.

Definition param_read (kv : string * option string) : Prop :=
  (kv.1 ∈ [SNCT; CNCT] /\ kv.2 = None) \/ (kv.1 ∈ [SBITS; CBITS] /\ exists s b, kv.2 = Some s /\ window_read s b).

(** The window a parameter gives. *)
Fixpoint param_bits (params : list (string * option string)) (k : string) : option Z :=
  match params with
  | [] => None
  | (k', v) :: params' => if String.eqb k k' then s ← v; parse_u8 s else param_bits params' k
  end.

Definition named (params : list (string * option string)) (k : string) : bool := existsb (String.eqb k) params.*1.

(** An accepted request is repeated, a window only shrinks. *)
Record fits (o : DeflateOffer) (params : list (string * option string)) : Prop := mkFits {
  fits_server_nct : do_server_no_context_takeover o = true -> SNCT ∈ params.*1;
  fits_server_bits asked : do_server_max_window_bits o = Some asked -> exists b, param_bits params SBITS = Some b /\ b <= asked;
  fits_client_bits limit b : do_client_max_window_bits o = Some limit -> param_bits params CBITS = Some b -> b <= limit
}.

Definition answer_of (params : list (string * option string)) : Answer :=
  mkAnswer (named params SNCT) (named params CNCT) (param_bits params SBITS) (param_bits params CBITS) params.*1.

Lemma named_elem params k : named params k = true <-> k ∈ params.*1.
Proof.
  unfold named. rewrite existsb_exists, list_elem_of_In. split; [intros (x & Hx & E); by apply String.eqb_eq in E as ->|].
  intros H. exists k. split; [done|apply String.eqb_refl].
Qed.

Lemma named_snoc params kv k : named (params ++ [kv]) k = named params k || String.eqb k kv.1.
Proof. unfold named. rewrite fmap_app, existsb_app. cbn. by rewrite orb_false_r. Qed.

Lemma param_bits_snoc params k v k' : named params k = false ->
  param_bits (params ++ [(k, v)]) k' = if String.eqb k' k then s ← v; parse_u8 s else param_bits params k'.
Proof.
  unfold named. induction params as [|[q w] params IH]; cbn [app param_bits fmap list_fmap existsb fst].
  - intros _. by destruct (String.eqb k' k).
  - intros [Hq Hn]%orb_false_iff. rewrite (IH Hn). destruct (String.eqb_spec k' q) as [->|]; [|done].
    rewrite String.eqb_sym, Hq. done.
Qed.

Lemma window_bits_Ok k v b : window_bits k v = Ok b <-> exists s, v = Some s /\ window_read s b.
Proof.
  unfold window_bits, window_read. destruct v as [s|]; [|split; [done|by intros (? & ? & _)]].
  destruct (starts_with s "0") eqn:E0.
  { split; [done|]. intros (? & [= <-] & H & _). congruence. }
  destruct (parse_u8 s) as [c|] eqn:Ep; cbn [mbind option_bind].
  2: { split; [done|]. intros (? & [= <-] & _ & H & _). congruence. }
  destruct ((8 <=? c) && (c <=? 15)) eqn:Ec.
  - apply andb_split in Ec as [H1%Z.leb_le H2%Z.leb_le]. split; [intros [= <-]; by exists s|]. intros (? & [= <-] & _ & H & _). congruence.
  - split; [done|]. intros (? & [= <-] & _ & H & [H1 H2]). rewrite Ep in H. injection H as ->.
    apply Z.leb_le in H1, H2. by rewrite H1, H2 in Ec.
Qed.

Lemma read_param_iff params kv a : read_param (answer_of params) kv = Ok a <->
  named params kv.1 = false /\ param_read kv /\ a = answer_of (params ++ [kv]).
Proof.
  destruct kv as [k v]. unfold read_param, answer_of, param_read. cbn [an_seen an_server_nct an_client_nct an_server_bits an_client_bits fst snd].
  fold (named params k). destruct (named params k) eqn:En; [by split; [|intros [? _]]|].
  rewrite !named_snoc, !(param_bits_snoc params k v) by done. rewrite fmap_app. cbn [fst fmap list_fmap].
  assert (Hin : forall x a b : string, x ∈ [a; b] <-> x = a \/ x = b) by (intros; rewrite !elem_of_cons, elem_of_nil; tauto).
  rewrite !Hin.
  destruct (String.eqb_spec k SNCT) as [->|N1]; [|destruct (String.eqb_spec k CNCT) as [->|N2]; [|destruct (String.eqb_spec k SBITS) as [->|N3]; [|destruct (String.eqb_spec k CBITS) as [->|N4]]]]; cbn [orb].
  - rewrite orb_true_r, orb_false_r. destruct v as [v|]; [split; [done|]|split; [intros [= <-]; split; [done|]; split; [by left; split; [left|]|done]|by intros (_ & _ & ->)]].
    intros (_ & [[_ ?]|[[?|?] _]] & _); done.
  - rewrite orb_true_r, orb_false_r. destruct v as [v|]; [split; [done|]|split; [intros [= <-]; split; [done|]; split; [by left; split; [right|]|done]|by intros (_ & _ & ->)]].
    intros (_ & [[_ ?]|[[?|?] _]] & _); done.
  - rewrite !orb_false_r. destruct (window_bits SBITS v) as [b|e] eqn:Ew; cbn [result_bind].
    + pose proof Ew as (s & -> & Hs)%window_bits_Ok. pose proof Hs as (_ & Hp & _). cbn [mbind option_bind]. rewrite Hp.
      split; [intros [= <-]; split; [done|]; split; [|done]; right; split; [by left|by exists s, b]|by intros (_ & _ & ->)].
    + split; [done|]. intros (_ & [[[?|?] _]|[_ (s & b & -> & Hs)]] & _); [done..|]. by rewrite (proj2 (window_bits_Ok SBITS (Some s) b)) in Ew by (by exists s).
  - rewrite !orb_false_r. destruct (window_bits CBITS v) as [b|e] eqn:Ew; cbn [result_bind].
    + pose proof Ew as (s & -> & Hs)%window_bits_Ok. pose proof Hs as (_ & Hp & _). cbn [mbind option_bind]. rewrite Hp.
      split; [intros [= <-]; split; [done|]; split; [|done]; right; split; [by right|by exists s, b]|by intros (_ & _ & ->)].
    + split; [done|]. intros (_ & [[[?|?] _]|[_ (s & b & -> & Hs)]] & _); [done..|]. by rewrite (proj2 (window_bits_Ok CBITS (Some s) b)) in Ew by (by exists s).
  - split; [done|]. intros (_ & [[[?|?] _]|[[?|?] _]] & _); done.
Qed.

Lemma read_params_iff params a : read_params params Answer_empty = Ok a <-> NoDup params.*1 /\ Forall param_read params /\ a = answer_of params.
Proof.
  revert a. induction params as [|kv params IH] using rev_ind; intros a.
  { cbn. split; [intros [= <-]; repeat split; constructor|by intros (_ & _ & ->)]. }
  unfold read_params. rewrite fold_left_app. cbn [fold_left]. fold (read_params params Answer_empty).
  rewrite fmap_app, NoDup_app, list.Forall_app. cbn [fmap list_fmap].
  destruct (read_params params Answer_empty) as [b|e]; cbn [result_bind].
  - destruct (proj1 (IH b) eq_refl) as (Hn & Hv & ->). rewrite read_param_iff, <- not_true_iff_false, named_elem. split.
    + intros (Hk & Hkv & ->). split; [|split; [split; [done|by apply Forall_singleton]|done]]. split; [done|]. split; [|apply NoDup_singleton].
      intros x Hx ->%list_elem_of_singleton. done.
    + intros ((_ & Hk & _) & (_ & Hkv) & ->). split; [|split; [by inversion Hkv|done]]. intros Hx. apply (Hk _ Hx). by left.
  - split; [done|]. intros ((Hn & _ & _) & (Hv & _) & _). by specialize (proj2 (IH (answer_of params)) (conj Hn (conj Hv eq_refl))).
Qed.

Lemma check_offer_iff o params : check_offer o (answer_of params) = Ok tt <-> fits o params.
Proof.
  unfold check_offer. cbn [answer_of an_server_nct an_server_bits an_client_bits]. split.
  - intros H. destruct (do_server_no_context_takeover o) eqn:E1; cbn [andb] in H.
    + destruct (named params SNCT) eqn:En; [|done]. cbn [negb] in H. constructor; [intros _; by apply named_elem| |].
      * intros asked Ea. rewrite Ea in H. destruct (param_bits params SBITS) as [b|]; [|done]. destruct (Z.ltb_spec asked b); [done|]. by exists b.
      * intros limit b El Eb. rewrite El, Eb in H. destruct (match do_server_max_window_bits o with Some _ => _ | None => _ end); [|done].
        cbn [result_bind] in H. by destruct (Z.ltb_spec limit b).
    + constructor; [congruence| |].
      * intros asked Ea. rewrite Ea in H. destruct (param_bits params SBITS) as [b|]; [|done]. destruct (Z.ltb_spec asked b); [done|]. by exists b.
      * intros limit b El Eb. rewrite El, Eb in H. destruct (match do_server_max_window_bits o with Some _ => _ | None => _ end); [|done].
        cbn [result_bind] in H. by destruct (Z.ltb_spec limit b).
  - intros [H1 H2 H3].
    assert (E1 : do_server_no_context_takeover o && negb (named params SNCT) = false).
    { destruct (do_server_no_context_takeover o); [|done]. apply named_elem in H1; [|done]. by rewrite H1. }
    rewrite E1. destruct (do_server_max_window_bits o) as [asked|].
    + destruct (H2 asked eq_refl) as (b & -> & Hb). destruct (Z.ltb_spec asked b); [lia|]. cbn [result_bind].
      destruct (do_client_max_window_bits o) as [limit|]; [|done]. destruct (param_bits params CBITS) as [c|]; [|done].
      pose proof (H3 limit c eq_refl eq_refl). destruct (Z.ltb_spec limit c); [lia|done].
    + cbn [result_bind]. destruct (do_client_max_window_bits o) as [limit|]; [|done]. destruct (param_bits params CBITS) as [c|]; [|done].
      pose proof (H3 limit c eq_refl eq_refl). destruct (Z.ltb_spec limit c); [lia|done].
Qed.

Lemma negotiate_iff offer answer raw : (forall agreed, negotiate offer answer raw = Ok (Some agreed) <->
    exists o params, offer = Some o /\ parse answer = Ok [mkElement EXTENSION params] /\
      NoDup params.*1 /\ Forall param_read params /\ fits o params /\ agreed = agree o (answer_of params)) /\
  (negotiate offer answer raw = Ok None <-> parse answer = Ok []).
Proof.
  unfold negotiate. destruct (parse answer) as [[|first others]|e].
  - split; [|done]. intros agreed. split; [done|]. by intros (o & params & _ & [=] & _).
  - destruct offer as [o|]; cbn [mbind option_bind].
    2: { split; [|done]. intros agreed. split; [done|]. by intros (? & ? & [=] & _). }
    destruct (String.eqb_spec (el_name first) EXTENSION) as [E|E].
    2: { split; [|done]. intros agreed. split; [done|]. intros (? & params & _ & [= -> _] & _). by destruct E. }
    destruct others as [|extra others].
    2: { destruct (String.eqb (el_name extra) EXTENSION); (split; [|done]); intros agreed; (split; [done|]); by intros (? & ? & _ & [=] & _). }
    destruct first as [name params]. cbn [el_name el_params] in *. subst name. split.
    + intros agreed. split.
      * destruct (read_params params Answer_empty) as [a|] eqn:Er; [|done]. apply read_params_iff in Er as (Hn & Hv & ->). cbn [result_bind].
        destruct (check_offer o (answer_of params)) as [[]|] eqn:Ec; [|done]. apply check_offer_iff in Ec. intros [= <-]. by exists o, params.
      * intros (o' & params' & [= <-] & [= <-] & Hn & Hv & Hf & ->).
        rewrite (proj2 (read_params_iff params (answer_of params))) by done. cbn [result_bind]. by rewrite (proj2 (check_offer_iff o params)) by done.
    + split; [|done]. destruct (read_params params Answer_empty) as [a|]; [|done]. cbn [result_bind]. by destruct (check_offer o a).
  - split; [|done]. intros agreed. split; [done|]. by intros (? & ? & _ & [=] & _).
Qed.

Lemma negotiate_spec offer answer raw agreed : negotiate offer answer raw = Ok (Some agreed) ->
  exists o params, offer = Some o /\ parse answer = Ok [mkElement EXTENSION params] /\
    NoDup params.*1 /\ Forall param_read params /\ fits o params /\ agreed = agree o (answer_of params).
Proof. apply negotiate_iff. Qed.

(** ** The rules of the answer *)

Fixpoint zeros (n : nat) : string := match n with O => "" | S n' => String "0" (zeros n') end.

(** A window from 8 to 15 as RFC 7692 writes it, in decimal; what is read of
    it here is more: a plus sign, and zeros after the plus sign, do no harm. *)
Definition window_value (s : string) (b : Z) : Prop := 8 <= b <= 15 /\ (s = pretty b \/ exists n, s = "+" +:+ zeros n +:+ pretty b).

Definition param_valid (kv : string * option string) : Prop :=
  (kv.1 = "server_no_context_takeover" \/ kv.1 = "client_no_context_takeover") /\ kv.2 = None \/
  (kv.1 = "server_max_window_bits" \/ kv.1 = "client_max_window_bits") /\ exists s b, kv.2 = Some s /\ window_value s b.

(** The parameters give a window for [k], or none. *)
Definition gives (params : list (string * option string)) (k : string) (w : option Z) : Prop :=
  match w with
  | Some b => exists s, (k, Some s) ∈ params /\ window_value s b
  | None => k ∉ params.*1
  end.

Lemma digits_grow acc s b : 0 <= acc -> digits_value acc s = Some b -> acc <= b /\ (s <> "" -> 10 * acc <= b).
Proof.
  revert acc. induction s as [|c s IH]; intros acc Ha; cbn [digits_value]; [by intros [= <-]|]. unfold digit_of.
  destruct ((48 <=? byte_of c) && (byte_of c <=? 57))%nat eqn:E; [|done]. apply andb_split in E as [E1%Nat.leb_le E2%Nat.leb_le]. cbn [mbind option_bind].
  intros Hd. apply IH in Hd as [Hd _]; [|lia]. split; [lia|]. intros _. lia.
Qed.

Lemma digit_char c d : digit_of c = Some d -> c = ascii_of_nat (48 + Z.to_nat d) /\ 0 <= d <= 9.
Proof.
  unfold digit_of. destruct ((48 <=? byte_of c) && (byte_of c <=? 57))%nat eqn:E; [|done]. apply andb_split in E as [E1%Nat.leb_le E2%Nat.leb_le].
  intros [= <-]. split; [|lia]. replace (48 + Z.to_nat (Z.of_nat (byte_of c) - 48))%nat with (byte_of c) by lia. by rewrite ascii_nat_embedding.
Qed.

Lemma window_digits s b : 8 <= b <= 15 -> digits_value 0 s = Some b -> exists n, s = zeros n +:+ pretty b.
Proof.
  intros Hb. induction s as [|c s IH]; cbn [digits_value]; [intros [= <-]; lia|].
  destruct (digit_of c) as [d|] eqn:Ed; [|done]. apply digit_char in Ed as [-> Hd]. cbn [mbind option_bind]. rewrite Z.mul_0_l, Z.add_0_l.
  destruct (decide (d = 0)) as [->|Hd0].
  { intros Hs. destruct (IH Hs) as [n ->]. by exists (S n). }
  intros Hs. exists 0%nat. cbn [zeros]. rewrite str_app_nil. destruct s as [|c2 s].
  { cbn in Hs. injection Hs as <-. assert (d = 8 \/ d = 9) as [-> | ->] by lia; done. }
  pose proof (digits_grow d (String c2 s) b ltac:(lia) Hs) as [_ Hg]. specialize (Hg ltac:(done)). assert (d = 1) as -> by lia.
  cbn [digits_value] in Hs. destruct (digit_of c2) as [e|] eqn:Ee; [|done]. apply digit_char in Ee as [-> He]. cbn [mbind option_bind] in Hs.
  destruct s as [|c3 s].
  { cbn in Hs. injection Hs as <-. assert (e = 0 \/ e = 1 \/ e = 2 \/ e = 3 \/ e = 4 \/ e = 5) as [-> | [-> | [-> | [-> | [-> | ->]]]]] by lia; done. }
  pose proof (digits_grow (1 * 10 + e) (String c3 s) b ltac:(lia) Hs) as [_ Hg2]. specialize (Hg2 ltac:(done)). lia.
Qed.

Lemma window_sizes b : 8 <= b <= 15 -> b ∈ seqZ 8 8.
Proof. intros Hb. apply elem_of_seqZ. lia. Qed.

Lemma window_decimal b n : 8 <= b <= 15 -> digits_value 0 (zeros n +:+ pretty b) = Some b /\ starts_with (pretty b) "0" = false /\
  (forall s, pretty b <> String "+" s) /\ str_is_empty (pretty b) = false.
Proof.
  intros Hb. assert (Hall : forallb (fun b => bool_decide (digits_value 0 (pretty b) = Some b) && negb (starts_with (pretty b) "0") &&
    negb (starts_with (pretty b) "+") && negb (str_is_empty (pretty b))) (seqZ 8 8) = true) by by vm_compute.
  rewrite forallb_forall in Hall. specialize (Hall b). rewrite <-list_elem_of_In in Hall. specialize (Hall (window_sizes b Hb)).
  rewrite !andb_true_iff, !negb_true_iff in Hall. destruct Hall as [[[Hd H0] Hp] He]. apply bool_decide_eq_true in Hd.
  split; [induction n as [|n IH]; [done|exact IH]|]. split; [done|]. split; [intros s Hs; by rewrite Hs in Hp|done].
Qed.

Lemma window_read_value s b : window_read s b <-> window_value s b.
Proof.
  unfold window_read, window_value, parse_u8. split.
  - intros (H0 & Hp & Hb). split; [done|]. destruct s as [|c s]; [done|].
    destruct (Ascii.eqb_spec c "+") as [->|Hc].
    + right. destruct (str_is_empty s); [done|]. destruct (digits_value 0 s) as [v|] eqn:E; [|done]. cbn in Hp. destruct (v <=? U8_MAX); [|done].
      injection Hp as ->. destruct (window_digits s b Hb E) as [n ->]. by exists n.
    + left. assert (Hm : match String c s with String "+" s' => s' | _ => String c s end = String c s) by by destruct c as [[] [] [] [] [] [] [] []].
      rewrite Hm in Hp. cbn [str_is_empty] in Hp. destruct (digits_value 0 (String c s)) as [v|] eqn:E; [|done].
      cbn in Hp. destruct (v <=? U8_MAX); [|done]. injection Hp as ->. destruct (window_digits _ b Hb E) as [n Hn]. destruct n as [|n]; [done|].
      cbn in Hn. injection Hn as -> ->. by cbn in H0.
  - intros [Hb Hs]. assert (Hle : (b <=? U8_MAX) = true) by (apply Z.leb_le; unfold U8_MAX; lia). destruct Hs as [->|[n ->]].
    + destruct (window_decimal b 0 Hb) as (Hd & H0 & Hp & He). split; [done|]. split; [|done].
      assert (Hm : match pretty b with String "+" s' => s' | _ => pretty b end = pretty b).
      { destruct (pretty b) as [|c r]; [done|]. specialize (Hp r). destruct c as [[] [] [] [] [] [] [] []]; done. }
      rewrite Hm, He. cbn [zeros] in Hd. rewrite str_app_nil in Hd. rewrite Hd. cbn. by rewrite Hle.
    + destruct (window_decimal b n Hb) as (Hd & _ & _ & He). split; [done|]. split; [|done].
      change ("+" +:+ zeros n +:+ pretty b) with (String "+" (zeros n +:+ pretty b)). cbv iota.
      assert (Hne : str_is_empty (zeros n +:+ pretty b) = false) by by destruct n. rewrite Hne, Hd. cbn. by rewrite Hle.
Qed.

Lemma param_read_valid kv : param_read kv <-> param_valid kv.
Proof.
  unfold param_read, param_valid. setoid_rewrite window_read_value. rewrite !elem_of_cons, elem_of_nil. unfold SNCT, CNCT, SBITS, CBITS. tauto.
Qed.
(** An accepted request is repeated, a window only shrinks. *)
Record honours (o : DeflateOffer) (params : list (string * option string)) : Prop := mkHonours {
  honours_server_nct : do_server_no_context_takeover o = true -> "server_no_context_takeover" ∈ params.*1;
  honours_server_bits asked : do_server_max_window_bits o = Some asked ->
    exists b, gives params "server_max_window_bits" (Some b) /\ b <= asked;
  honours_client_bits limit b : do_client_max_window_bits o = Some limit ->
    gives params "client_max_window_bits" (Some b) -> b <= limit
}.

(** What is then in use: the server's window and context are those of its
    answer; the client's window is the answer's, else the offered limit, and it
    drops its context when either side asked for that. A client whose window
    has 256 bytes does not compress. *)
Record agreed_on (o : DeflateOffer) (params : list (string * option string)) (g : Agreed) : Prop := mkAgreedOn {
  agreed_server_nct : wdp_server_no_context_takeover (ag_params g) = true <-> "server_no_context_takeover" ∈ params.*1;
  agreed_client_nct : wdp_client_no_context_takeover (ag_params g) = true <->
    "client_no_context_takeover" ∈ params.*1 \/ do_client_no_context_takeover o = true;
  agreed_server_window : gives params "server_max_window_bits" (wdp_server_max_window_bits (ag_params g));
  agreed_client_window : exists w, gives params "client_max_window_bits" w /\
    wdp_client_max_window_bits (ag_params g) = match w with Some b => Some b | None => do_client_max_window_bits o end;
  agreed_compresses : wdp_client_compresses (ag_params g) = false <-> exists b, wdp_client_max_window_bits (ag_params g) = Some b /\ b < 9;
  agreed_codec : ag_codec g = mkDeflateConfig (wdp_client_compresses (ag_params g))
    (Z.max (default 15 (wdp_client_max_window_bits (ag_params g))) 9)
    (wdp_client_no_context_takeover (ag_params g)) (wdp_server_no_context_takeover (ag_params g)) 6
}.

Lemma param_bits_gives params k w : NoDup params.*1 -> Forall param_valid params -> k = SBITS \/ k = CBITS ->
  param_bits params k = w <-> gives params k w.
Proof.
  intros Hn Hv Hk. revert w. induction params as [|[q v] params IH]; intros w; cbn [param_bits].
  { destruct w as [b|]; cbn; [split; [done|]; by intros (s & ?%elem_of_nil & _)|split; [intros _; by apply not_elem_of_nil|done]]. }
  cbn in Hn. apply NoDup_cons in Hn as [Hq Hn]. inversion Hv as [|? ? Hqv Hv']; subst. specialize (IH Hn Hv').
  destruct (String.eqb_spec k q) as [->|Hne].
  - destruct Hqv as [[[Eq|Eq] _]|[_ (s & b & Es & Hs)]]; cbn in *; [by destruct Hk as [-> | ->]..|]. subst v. cbn [mbind option_bind].
    pose proof Hs as Hr. apply window_read_value in Hr as (_ & Hp & _). rewrite Hp. split.
    + intros <-. exists s. split; [by left|done].
    + destruct w as [b'|]; cbn [gives fmap list_fmap fst].
      * intros (s' & [[= ->]|Hin]%elem_of_cons & Hs'); [apply window_read_value in Hs' as (_ & Hp' & _); congruence|].
        destruct Hq. apply list_elem_of_fmap. by exists (q, Some s').
      * intros Hnin. destruct Hnin. cbn. by left.
  - rewrite IH. unfold gives. cbn [fmap list_fmap fst]. destruct w as [b|].
    + split; intros (s & Hin & Hs); exists s; (split; [|done]); [by right|]. apply elem_of_cons in Hin as [[= <- _]|Hin]; done.
    + rewrite elem_of_cons. tauto.
Qed.

Lemma fits_honours o params : NoDup params.*1 -> Forall param_valid params -> fits o params <-> honours o params.
Proof.
  intros Hn Hv. pose proof (param_bits_gives params SBITS) as HS. pose proof (param_bits_gives params CBITS) as HC. split; intros [H1 H2 H3]; constructor.
  - exact H1.
  - intros asked Ha. destruct (H2 asked Ha) as (b & Hb & Hle). exists b. split; [|done]. apply HS; auto.
  - intros limit b Hl Hb. apply (H3 limit b Hl). apply HC; auto.
  - exact H1.
  - intros asked Ha. destruct (H2 asked Ha) as (b & Hb & Hle). exists b. split; [|done]. apply HS; auto.
  - intros limit b Hl Hb. apply (H3 limit b Hl). apply HC; auto.
Qed.

Lemma agree_agreed o params g : NoDup params.*1 -> Forall param_valid params -> g = agree o (answer_of params) <-> agreed_on o params g.
Proof.
  intros Hn Hv. assert (HS : forall w, param_bits params SBITS = w <-> gives params SBITS w) by (intros w; apply param_bits_gives; auto).
  assert (HC : forall w, param_bits params CBITS = w <-> gives params CBITS w) by (intros w; apply param_bits_gives; auto). split.
  - intros ->. constructor; cbn.
    + apply named_elem.
    + by rewrite orb_true_iff, named_elem.
    + by apply HS.
    + exists (param_bits params CBITS). split; [by apply HC|done].
    + rewrite Z.leb_gt. destruct (param_bits params CBITS) as [b|]; [|destruct (do_client_max_window_bits o) as [b|]]; cbn [default];
        (split; [try (intros Hb; by exists b); lia|by intros (? & [= <-] & ?)]).
    + reflexivity.
  - intros [A1 A2 A3 (w & Hw & A4) A5 A6]. destruct g as [[snct cnct sb cb comp] codec]. cbn in *. subst codec.
    apply HS in A3. apply HC in Hw. unfold agree, answer_of. cbn [an_server_nct an_client_nct an_server_bits an_client_bits]. rewrite A3, Hw, <-A4.
    assert (snct = named params SNCT) as -> by (apply eq_true_iff_eq; by rewrite named_elem).
    assert (cnct = named params CNCT || do_client_no_context_takeover o) as -> by (apply eq_true_iff_eq; by rewrite orb_true_iff, named_elem).
    assert (comp = (9 <=? default 15 cb)) as ->; [|done].
    destruct comp.
    + symmetry. apply Z.leb_le. destruct cb as [b|]; cbn; [|lia]. destruct (Z.le_gt_cases 9 b) as [|Hlt]; [done|].
      by pose proof (proj2 A5 (ex_intro _ b (conj eq_refl Hlt))).
    + symmetry. apply Z.leb_gt. destruct (proj1 A5 eq_refl) as (b & -> & Hb). exact Hb.
Qed.

(** C16: what the parser reads of a server's answer is accepted exactly when
    it follows the rules of RFC 7692, except that a window may also be written
    with a plus sign and zeros after it: it names permessage-deflate alone, was
    made to an offer, gives each parameter once, of the four the RFC has, the
    two windows with a value from 8 to 15 and the others without, repeats what
    the offer asks for and only shrinks windows. What is then in use is
    determined by the offer and the answer, and no extension is in use exactly
    when the answer names none. *)
Theorem negotiate_accepts_iff offer answer raw : (forall agreed, negotiate offer answer raw = Ok (Some agreed) <->
    exists o params, offer = Some o /\ parse answer = Ok [mkElement "permessage-deflate" params] /\
      NoDup params.*1 /\ Forall param_valid params /\ honours o params /\ agreed_on o params agreed) /\
  (negotiate offer answer raw = Ok None <-> parse answer = Ok []).
Proof.
  destruct (negotiate_iff offer answer raw) as [H1 H2]. split; [|exact H2]. intros agreed. rewrite H1. split.
  - intros (o & params & -> & Hp & Hn & Hv & Hf & Ha). apply (Forall_impl _ param_valid) in Hv; [|intros kv; apply param_read_valid].
    exists o, params. do 4 (split; [done|]). split; [by apply fits_honours|by apply agree_agreed].
  - intros (o & params & -> & Hp & Hn & Hv & Hf & Ha). exists o, params. do 3 (split; [done|]).
    split; [eapply Forall_impl; [exact Hv|]; intros kv; apply param_read_valid|]. split; [by apply fits_honours|by apply agree_agreed].
Qed.

(** The evidence of a handshake says what the codec runs, and quotes the
    reason of a refusal redacted. *)
Lemma extensions_evidence deflate redact offered answered notes :
  let '(ext, codec, notes') := negotiate_extensions deflate redact offered answered notes in
  match ext with
  | None => offered = [] /\ answered = [] /\ codec = Ok None
  | Some e =>
      match wse_negotiation e with
      | WsNegotiation_NotOffered => False
      | WsNegotiation_NotNegotiated => parse answered = Ok [] /\ codec = Ok None /\ wse_problem e = None /\ wse_deflate e = None
      | WsNegotiation_Negotiated =>
          exists o params, deflate = Some o /\ parse answered = Ok [mkElement EXTENSION params] /\ fits o params /\
            let a := agree o (answer_of params) in
            codec = Ok (Some (ag_codec a)) /\ wse_deflate e = Some (ag_params a) /\ wse_problem e = None /\ describe (ag_params a) ∈ notes'
      | WsNegotiation_Rejected =>
          exists why, codec = Err (default (fun s => s) redact why) /\ wse_problem e = Some (default (fun s => s) redact why) /\ wse_deflate e = None
      end
  end.
Proof.
  unfold negotiate_extensions.
  destruct offered as [|o offered], answered as [|v answered]; [done|..];
    cbv zeta;
    match goal with |- context [negotiate deflate ?l ?raw] => destruct (negotiate deflate l raw) as [[a|]|e] eqn:En end; cbn;
    try (apply negotiate_iff in En; exact (conj En (conj eq_refl (conj eq_refl eq_refl))));
    try (exists e; done);
    (destruct (negotiate_spec _ _ _ _ En) as (o' & params & -> & Hp & _ & _ & Hf & ->); exists o', params;
     repeat (split; [done|]); apply elem_of_app; right; by left).
Qed.

(** [u8::from_str] takes a plus sign, so a window may be written [+9], and
    with a zero after the sign. *)
Lemma window_plus_sign :
  window_bits CBITS (Some "+9") = Ok 9 /\ window_bits CBITS (Some "+09") = Ok 9 /\ is_ok (window_bits CBITS (Some "09")) = false /\
  is_ok (negotiate (Some DeflateOffer_default) ["permessage-deflate; server_max_window_bits=+9"] false) = true.
Proof. vm_compute. repeat split. Qed.

(** [bounded] cuts the answered header before it is redacted: a secret that
    the cut splits is shown up to the cut, although redaction alone hides the
    whole header. *)
Lemma answered_cut_before_redacted :
  let hide s := if str_contains s "s3cr3t-token" then REDACTED else s in
  let filler := string_of_bytes (replicate 500 0x78) in
  let '(ext, _, _) := negotiate_extensions (Some DeflateOffer_default) (Some hide) ["permessage-deflate"] [filler +:+ "=s3cr3t-token"] [] in
  hide (filler +:+ "=s3cr3t-token") = REDACTED /\ (e ← ext; wse_answered e) = Some (filler +:+ "=s3cr3t-toke…").
Proof. vm_compute. split; reflexivity. Qed.

(** * Offers *)

Definition window_ok (b : option Z) : Prop := match b with Some b => 8 <= b <= 15 | None => True end.

Definition offer_ok (o : DeflateOffer) : Prop := window_ok (do_server_max_window_bits o) /\ window_ok (do_client_max_window_bits o).

(** The parameters an offer's header names. *)
Definition offer_params (o : DeflateOffer) : list (string * option string) :=
  (if do_server_no_context_takeover o then [(SNCT, None)] else []) ++
  (if do_client_no_context_takeover o then [(CNCT, None)] else []) ++
  (match do_server_max_window_bits o with Some b => [(SBITS, Some (pretty b))] | None => [] end) ++
  [(CBITS, pretty <$> do_client_max_window_bits o)].

Definition all_windows : list (option Z) := None :: (Some <$> [8; 9; 10; 11; 12; 13; 14; 15]).

Definition all_offers : list DeflateOffer :=
  s ← [true; false]; c ← [true; false]; sb ← all_windows; cb ← all_windows; [mkDeflateOffer s c sb cb].

Lemma all_windows_complete b : window_ok b -> b ∈ all_windows.
Proof.
  destruct b as [b|]; [|by left]. cbn. intros Hb. right. apply list_elem_of_In. cbn.
  assert (b = 8 \/ b = 9 \/ b = 10 \/ b = 11 \/ b = 12 \/ b = 13 \/ b = 14 \/ b = 15) as H by lia.
  repeat destruct H as [->|H]; subst; tauto.
Qed.

Lemma all_offers_complete o : offer_ok o -> o ∈ all_offers.
Proof.
  destruct o as [s c sb cb]. intros [Hs%all_windows_complete Hc%all_windows_complete]. unfold all_offers. cbn in Hs, Hc.
  apply list_elem_of_bind. exists s. split; [|destruct s; [by left|right; by left]].
  apply list_elem_of_bind. exists c. split; [|destruct c; [by left|right; by left]].
  apply list_elem_of_bind. exists sb. split; [|done]. apply list_elem_of_bind. exists cb. split; [by left|done].
Qed.

#[local] Instance Element_eq_dec : EqDecision Element.
Proof. solve_decision. Defined.

#[local] Instance WsDeflateParams_eq_dec : EqDecision WsDeflateParams.
Proof. solve_decision. Defined.

#[local] Instance DeflateConfig_eq_dec : EqDecision DeflateConfig.
Proof. solve_decision. Defined.

#[local] Instance Agreed_eq_dec : EqDecision Agreed.
Proof. solve_decision. Defined.

#[local] Instance result_eq_dec {A E} `{EqDecision A, EqDecision E} : EqDecision (result A E).
Proof. solve_decision. Defined.

(** What a server that repeats the whole offer agrees to. *)
Definition echoed (o : DeflateOffer) (b : Z) : Agreed :=
  mkAgreed (mkWsDeflateParams (do_server_no_context_takeover o) (do_client_no_context_takeover o) (do_server_max_window_bits o) (Some b) (9 <=? b))
    (mkDeflateConfig (9 <=? b) (Z.max b 9) (do_client_no_context_takeover o) (do_server_no_context_takeover o) 6).

Definition offer_check (o : DeflateOffer) : bool :=
  bool_decide (parse [header_value o] = Ok [mkElement EXTENSION (offer_params o)]) &&
  match do_client_max_window_bits o with
  | Some b => bool_decide (negotiate (Some o) [header_value o] false = Ok (Some (echoed o b)))
  | None => negb (is_ok (negotiate (Some o) [header_value o] false))
  end.

Lemma offers_checked : forallb offer_check all_offers = true.
Proof. vm_compute. reflexivity. Qed.

(** Every offer Anvil can make is well-formed: its header value reads back
    as permessage-deflate with exactly the parameters asked for, and a server
    that repeats an offer with a client window agrees to all of it, the codec
    set up accordingly (no compression within a 256-byte window); repeating the
    bare [client_max_window_bits] is refused. *)
Theorem offer_reads_back o : offer_ok o ->
  parse [header_value o] = Ok [mkElement EXTENSION (offer_params o)] /\
  match do_client_max_window_bits o with
  | Some b => negotiate (Some o) [header_value o] false = Ok (Some (echoed o b))
  | None => is_ok (negotiate (Some o) [header_value o] false) = false
  end.
Proof.
  intros Ho%all_offers_complete. pose proof offers_checked as Hc. rewrite forallb_forall in Hc. apply list_elem_of_In in Ho. specialize (Hc o Ho).
  unfold offer_check in Hc. apply andb_split in Hc as [H1%bool_decide_eq_true H2]. split; [done|].
  destruct (do_client_max_window_bits o); [by apply bool_decide_eq_true in H2|by apply negb_true_iff in H2].
Qed.

Lemma param_bits_window params k b : Forall param_read params -> k ∈ [SBITS; CBITS] -> param_bits params k = Some b -> 8 <= b <= 15.
Proof.
  intros Hv Hk. induction Hv as [|[q v] params Hq _ IH]; cbn [param_bits]; [done|]. destruct (String.eqb_spec k q) as [->|]; [|done].
  unfold param_read in Hq. cbn [fst snd] in Hq. destruct Hq as [[Hq _]|[_ (s & c & -> & Hs)]].
  - exfalso. assert (Hall : forall q, q ∈ [SBITS; CBITS] -> q ∉ [SNCT; CNCT]); [|by apply (Hall q)].
    intros x [->|[->|Hx%elem_of_nil]%elem_of_cons]%elem_of_cons; [..|done]; (intros [?|[?|?%elem_of_nil]%elem_of_cons]%elem_of_cons; done).
  - destruct Hs as (_ & Hp & Hb). cbn [mbind option_bind]. rewrite Hp. by intros [= <-].
Qed.

(** An agreement keeps the promises of both sides: the codec's window is
    from 9 to 15 and, when it compresses, within every limit the answer or the
    offer set for the client; it resets its context when either asked for that,
    and resets the decompressor exactly when the server said it starts anew; a
    server window is within the one asked for. *)
Theorem agreement_within_limits o answer raw agreed : offer_ok o -> negotiate (Some o) answer raw = Ok (Some agreed) ->
  let p := ag_params agreed in let c := ag_codec agreed in
  9 <= dc_compress_window_bits c <= 15 /\
  (dc_compress c = true -> forall limit, do_client_max_window_bits o = Some limit \/ wdp_client_max_window_bits p = Some limit ->
     dc_compress_window_bits c <= limit) /\
  (dc_compress c = true <-> wdp_client_max_window_bits p <> Some 8) /\
  (do_client_no_context_takeover o = true -> dc_compress_no_context_takeover c = true) /\
  (do_server_no_context_takeover o = true -> dc_decompress_no_context_takeover c = true) /\
  (forall asked, do_server_max_window_bits o = Some asked -> exists b, wdp_server_max_window_bits p = Some b /\ 8 <= b <= asked).
Proof.
  intros [Ho1 Ho2] Hn. destruct (negotiate_spec (Some o) answer raw agreed Hn) as (o' & params & [= <-] & _ & _ & Hv & [F1 F2 F3] & ->).
  assert (Hin : SBITS ∈ [SBITS; CBITS] /\ CBITS ∈ [SBITS; CBITS]) by (split; [by left|right; by left]). destruct Hin as [I1 I2].
  pose proof (fun b => param_bits_window params CBITS b Hv I2) as Hc. pose proof (fun b => param_bits_window params SBITS b Hv I1) as Hs.
  unfold agree, answer_of. cbn [an_server_nct an_client_nct an_server_bits an_client_bits ag_params ag_codec dc_compress dc_compress_window_bits
    dc_compress_no_context_takeover dc_decompress_no_context_takeover wdp_client_max_window_bits wdp_server_max_window_bits].
  set (w := match param_bits params CBITS with Some b => Some b | None => do_client_max_window_bits o end).
  assert (Hw : match w with Some b => 8 <= b <= 15 /\ forall limit, do_client_max_window_bits o = Some limit -> b <= limit | None => do_client_max_window_bits o = None end).
  { unfold w. destruct (param_bits params CBITS) as [b|]; [split; [by apply Hc|intros limit Hl; by apply (F3 limit b)]|].
    destruct (do_client_max_window_bits o) as [b|]; [|done]. split; [done|]. intros ? [= ->]. lia. }
  clearbody w. split; [|split; [|split; [|split; [|split]]]].
  - destruct w as [b|]; cbn; lia.
  - intros Hb%Z.leb_le limit [Hl|Hl].
    + destruct w as [b|]; cbn in *; [destruct Hw as [_ Hw]; specialize (Hw limit Hl); lia|congruence].
    + subst w. cbn in *. lia.
  - rewrite Z.leb_le. destruct w as [b|]; cbn; [|split; [done|lia]]. destruct Hw as [Hw _]. split; [intros H [= ->]; lia|]. intros H. assert (b <> 8) by congruence. lia.
  - intros ->. apply orb_true_r.
  - intros H. by apply named_elem, F1.
  - intros asked Ha. destruct (F2 asked Ha) as (b & Hb & Hle). exists b. split; [done|]. split; [|done]. by apply (Hs b) in Hb as [? _].
Qed.

(** * The meter *)

(** A header in progress is shorter than it needs to be. *)
Definition needed (m : DirMeter) : nat := if (dm_need m =? 0)%nat then 2%nat else dm_need m.

Record meter_ok (m : DirMeter) : Prop := mkMeterOk {
  meter_short : (List.length (dm_header m) < needed m)%nat;
  meter_long : (2 < needed m)%nat -> (2 <= List.length (dm_header m))%nat;
  meter_two : (2 <= needed m)%nat;
  meter_skip : 0 <= dm_skip m
}.

Lemma meter_default_ok : meter_ok DirMeter_default.
Proof. split; cbn; lia. Qed.

Lemma be_value_nonneg bs : bytes_ok bs -> 0 <= be_value bs.
Proof. intros H. pose proof (be_value_bounds bs H). lia. Qed.

(** One turn of the loop on a non-empty buffer. *)
Definition turn (buf : list Z) (m : DirMeter) : nat * DirMeter :=
  if 0 <? dm_skip m then
    let n := Z.to_nat (Z.min (dm_skip m) (blen buf)) in
    let t := if dm_data m then count_wire (Z.of_nat n) (dm_totals m) else dm_totals m in
    (n, mkDirMeter (dm_header m) (dm_need m) (dm_skip m - Z.of_nat n) (dm_data m) t)
  else
    let n := Nat.min (needed m - List.length (dm_header m)) (List.length buf) in
    let h := dm_header m ++ take n buf in
    (n,
     if (List.length h <? needed m)%nat then mkDirMeter h (needed m) (dm_skip m) (dm_data m) (dm_totals m)
     else
       let need' := if (List.length h =? 2)%nat then header_need h else needed m in
       if (List.length h <? need')%nat then mkDirMeter h need' (dm_skip m) (dm_data m) (dm_totals m)
       else end_header h (dm_totals m)).

Lemma feed_loop_turn fuel b buf m : feed_loop (S fuel) (b :: buf) m =
  let '(n, m') := turn (b :: buf) m in feed_loop fuel (drop n (b :: buf)) m'.
Proof.
  cbn [feed_loop]. unfold turn. destruct (0 <? dm_skip m); [done|]. fold (needed m). cbv zeta.
  destruct (_ <? needed m)%nat; [done|]. by destruct (_ <? _)%nat.
Qed.

Lemma turn_bytes buf m : meter_ok m -> buf <> [] -> (1 <= (turn buf m).1 <= List.length buf)%nat.
Proof.
  intros [H1 _ _ H4] Hb. assert (0 < List.length buf)%nat by (destruct buf; [done|cbn; lia]). unfold turn, blen.
  destruct (Z.ltb_spec 0 (dm_skip m)); cbn [fst]; lia.
Qed.

Lemma header_need_two h : (2 <= header_need h)%nat.
Proof. unfold header_need. lia. Qed.

Lemma hdr_ok h i : bytes_ok h -> is_u8 (hdr h i).
Proof.
  intros H. unfold hdr. destruct (h !! i) as [b|] eqn:E; [|by cbn; unfold in_width; lia]. by eapply (list.Forall_lookup_1 is_u8 h).
Qed.

Lemma end_header_ok h t : bytes_ok h -> meter_ok (end_header h t).
Proof.
  intros Hh. split; cbn -[be_value]; try lia. destruct (_ =? 126); [|destruct (_ =? 127)].
  - apply be_value_nonneg. repeat constructor; by apply hdr_ok.
  - apply be_value_nonneg. by apply Forall_take, Forall_drop.
  - apply Z.land_nonneg. lia.
Qed.

Lemma turn_ok buf m : meter_ok m -> bytes_ok (dm_header m) -> bytes_ok buf -> buf <> [] ->
  meter_ok (turn buf m).2 /\ bytes_ok (dm_header (turn buf m).2).
Proof.
  intros [H1 H2 H3 H4] Hh Hb Hne. assert (0 < List.length buf)%nat by (destruct buf; [done|cbn; lia]). unfold turn, blen.
  destruct (Z.ltb_spec 0 (dm_skip m)) as [Hs|Hs]; cbn [snd].
  { split; [|done]. split; cbn [dm_header dm_need dm_skip needed]; [exact H1|exact H2|exact H3|]. lia. }
  set (n := Nat.min _ _). set (h := dm_header m ++ take n buf).
  assert (Hok : bytes_ok h) by (apply bytes_ok_app; split; [done|by apply Forall_take]).
  assert (Hl : List.length h = (List.length (dm_header m) + n)%nat) by (unfold h; rewrite length_app, length_take; lia).
  assert (Hn : forall k : nat, (2 <= k)%nat -> needed (mkDirMeter h k (dm_skip m) (dm_data m) (dm_totals m)) = k).
  { intros k Hk. unfold needed. cbn. by destruct (Nat.eqb_spec k 0); [lia|]. }
  destruct (Nat.ltb_spec (List.length h) (needed m)) as [Hlt|Hge].
  { split; [|done]. split; rewrite ?Hn by done; cbn [dm_header dm_skip]; [done| |done|done]. intros Hk. specialize (H2 Hk). lia. }
  assert (Hneed : (2 <= (if (List.length h =? 2)%nat then header_need h else needed m))%nat) by (destruct (_ =? 2)%nat; [apply header_need_two|done]).
  destruct (Nat.ltb_spec (List.length h) (if (List.length h =? 2)%nat then header_need h else needed m)) as [Hlt|Hge'].
  - split; [|done]. split; rewrite ?Hn by done; cbn [dm_header dm_skip]; [done| |done|done]. intros _. lia.
  - split; [by apply end_header_ok|constructor].
Qed.

(** The fuel is enough. *)
Lemma feed_fuel f1 : forall f2 buf m, meter_ok m -> bytes_ok (dm_header m) -> bytes_ok buf -> (List.length buf <= f1)%nat -> (List.length buf <= f2)%nat ->
  feed_loop f1 buf m = feed_loop f2 buf m.
Proof.
  induction f1 as [|f1 IH]; intros f2 buf m Hm Hh Hb L1 L2.
  { destruct buf; [by destruct f2|cbn in L1; lia]. }
  destruct f2 as [|f2]; [destruct buf; [done|cbn in L2; lia]|]. destruct buf as [|b buf]; [done|].
  rewrite !feed_loop_turn. pose proof (turn_bytes (b :: buf) m Hm ltac:(done)) as Hn. pose proof (turn_ok (b :: buf) m Hm Hh Hb ltac:(done)) as [Hm' Hh'].
  destruct (turn (b :: buf) m) as [n m']. cbn [fst snd] in *. apply IH; [done|done|by apply Forall_drop| |]; rewrite length_drop; lia.
Qed.

(** Counting [x] bytes and then [y] is counting [x + y]. *)
Lemma count_wire_add x y t : count_wire y (count_wire x t) = count_wire (x + y) t.
Proof. unfold count_wire, add64. cbn. f_equal. rewrite Zplus_mod_idemp_l. f_equal. lia. Qed.

(** One byte of a header that needs more. *)
Lemma turn_header_byte b m : meter_ok m -> dm_skip m <= 0 -> (List.length (dm_header m) + 1 < needed m)%nat ->
  turn [b] m = (1%nat, mkDirMeter (dm_header m ++ [b]) (needed m) (dm_skip m) (dm_data m) (dm_totals m)).
Proof.
  intros [H1 H2 H3 H4] Hs Hlt. unfold turn. destruct (Z.ltb_spec 0 (dm_skip m)); [lia|].
  replace (Nat.min (needed m - List.length (dm_header m)) (List.length [b])) with 1%nat by (cbn [List.length]; lia).
  cbn [take]. rewrite length_app. cbn [List.length]. by destruct (Nat.ltb_spec (List.length (dm_header m) + 1) (needed m)); [|lia].
Qed.

(** A turn takes the first byte as a turn on that byte alone does, and then
    what a turn on the rest takes, unless the rest is for the next turn. *)
Lemma turn_split b rest m : meter_ok m ->
  turn (b :: rest) m = (1%nat, (turn [b] m).2) \/
  exists n, turn (b :: rest) m = (S n, (turn rest (turn [b] m).2).2) /\ rest <> [] /\ (turn rest (turn [b] m).2).1 = n.
Proof.
  intros Hm. pose proof Hm as [H1 H2 H3 H4].
  destruct rest as [|c rest]; [left; pose proof (turn_bytes [b] m Hm ltac:(done)) as Hn; destruct (turn [b] m) as [n ?]; cbn in *; f_equal; lia|].
  destruct (Z.ltb_spec 0 (dm_skip m)) as [Hs|Hs].
  - unfold turn, blen. rewrite (proj2 (Z.ltb_lt _ _) Hs).
    set (len := Z.of_nat (List.length (c :: rest))). assert (Hlen : Z.of_nat (List.length (b :: c :: rest)) = 1 + len) by (unfold len; cbn [List.length]; lia).
    rewrite Hlen. replace (Z.min (dm_skip m) (Z.of_nat (List.length [b]))) with 1 by (cbn; lia). cbn [snd dm_skip dm_data dm_totals dm_header dm_need].
    change (Z.of_nat (Z.to_nat 1)) with 1. assert (0 < len) by (unfold len; cbn [List.length]; lia).
    destruct (Z.ltb_spec 0 (dm_skip m - 1)).
    + right. exists (Z.to_nat (Z.min (dm_skip m - 1) len)). cbn [fst snd dm_skip dm_data dm_totals dm_header dm_need]. split; [|done].
      rewrite !Z2Nat.id by lia. f_equal; [lia|]. replace (Z.min (dm_skip m) (1 + len)) with (1 + Z.min (dm_skip m - 1) len) by lia.
      destruct (dm_data m); [rewrite count_wire_add|]; f_equal; lia.
    + left. by replace (Z.min (dm_skip m) (1 + len)) with 1 by lia.
  - destruct (decide (List.length (dm_header m) + 1 = needed m)%nat) as [Hone|Hmore].
    + left. unfold turn. destruct (Z.ltb_spec 0 (dm_skip m)); [lia|].
      replace (needed m - List.length (dm_header m))%nat with 1%nat by lia. done.
    + right. rewrite turn_header_byte by (done || lia). cbn [snd].
      assert (Hn : needed (mkDirMeter (dm_header m ++ [b]) (needed m) (dm_skip m) (dm_data m) (dm_totals m)) = needed m).
      { unfold needed at 1. cbn [dm_need]. by destruct (Nat.eqb_spec (needed m) 0); [lia|]. }
      unfold turn. rewrite Hn. cbn [dm_skip dm_data dm_totals dm_header]. destruct (Z.ltb_spec 0 (dm_skip m)); [lia|]. cbn [fst snd].
      eexists. split; [|split; [done|reflexivity]]. rewrite (length_app (dm_header m) [b]). cbn [List.length].
      assert (Hmin : Nat.min (needed m - List.length (dm_header m)) (S (S (List.length rest))) =
        S (Nat.min (needed m - (List.length (dm_header m) + 1)) (S (List.length rest)))) by lia.
      rewrite Hmin. set (q := Nat.min _ (S _)). change (take (S q) (b :: c :: rest)) with ([b] ++ take q (c :: rest)). by rewrite app_assoc.
Qed.

Lemma meter_feed_cons b rest m : meter_ok m -> bytes_ok (dm_header m) -> bytes_ok (b :: rest) ->
  meter_feed (b :: rest) m = meter_feed rest (turn [b] m).2.
Proof.
  intros Hm Hh Hb. unfold meter_feed. cbn [List.length]. rewrite feed_loop_turn.
  destruct (turn_split b rest m Hm) as [->|(n & -> & Hne & Hn)]; [done|]. cbn [drop].
  assert (Hb' : bytes_ok [b] /\ bytes_ok rest) by (inversion Hb; repeat split; [by constructor|done]). destruct Hb' as [Hb1 Hb2].
  pose proof (turn_ok [b] m Hm Hh Hb1 ltac:(done)) as [Hm' Hh']. revert Hm' Hh' Hn. generalize (turn [b] m).2. intros m' Hm' Hh' Hn.
  destruct rest as [|c rest]; [done|]. cbn [List.length]. rewrite feed_loop_turn.
  pose proof (turn_bytes (c :: rest) m' Hm' Hne) as Hl. pose proof (turn_ok (c :: rest) m' Hm' Hh' Hb2 Hne) as [Hm2 Hh2].
  destruct (turn (c :: rest) m') as [q m2]. cbn [fst snd] in *. subst q. apply feed_fuel; [done|done|by apply Forall_drop| |]; rewrite length_drop; cbn [List.length] in *; lia.
Qed.

Lemma meter_feed_app a : forall b m, meter_ok m -> bytes_ok (dm_header m) -> bytes_ok a -> bytes_ok b ->
  meter_feed (a ++ b) m = meter_feed b (meter_feed a m).
Proof.
  induction a as [|x a IH]; intros b m Hm Hh Ha Hb; [done|]. cbn [app].
  assert (bytes_ok [x] /\ bytes_ok a) as [Hx Ha'] by (inversion Ha; split; [by constructor|done]).
  rewrite !meter_feed_cons by (done || (constructor; [by inversion Ha|by apply bytes_ok_app])).
  destruct (turn_ok [x] m Hm Hh Hx ltac:(done)) as [Hm' Hh']. by apply IH.
Qed.

Lemma meter_feed_ok a : forall m, meter_ok m -> bytes_ok (dm_header m) -> bytes_ok a -> meter_ok (meter_feed a m) /\ bytes_ok (dm_header (meter_feed a m)).
Proof.
  induction a as [|x a IH]; intros m Hm Hh Ha; [done|].
  assert (bytes_ok [x] /\ bytes_ok a) as [Hx Ha'] by (inversion Ha; split; [by constructor|done]).
  rewrite meter_feed_cons by done. destruct (turn_ok [x] m Hm Hh Hx ltac:(done)) as [Hm' Hh']. by apply IH.
Qed.

(** However the bytes are cut into buffers, the meter ends the same. *)
Lemma meter_feed_concat chunks : forall m, meter_ok m -> bytes_ok (dm_header m) -> Forall bytes_ok chunks ->
  fold_left (fun m c => meter_feed c m) chunks m = meter_feed (concat chunks) m.
Proof.
  induction chunks as [|c chunks IH]; intros m Hm Hh Hc; [done|]. inversion Hc as [|? ? Hc1 Hc2]; subst. cbn [fold_left concat].
  rewrite meter_feed_app by (done || by apply Forall_concat). destruct (meter_feed_ok c m Hm Hh Hc1). by apply IH.
Qed.

(** * Frames on the wire (RFC 6455, section 5.2) *)

Record WsFrame := mkWsFrame {
  wf_first : Z;
  wf_second : Z;
  wf_extended : list Z;
  wf_mask : list Z;
  wf_payload : list Z
}.

Definition wf_header (f : WsFrame) : list Z := wf_first f :: wf_second f :: wf_extended f ++ wf_mask f.
Definition wf_bytes (f : WsFrame) : list Z := wf_header f ++ wf_payload f.

Definition wf_opcode (f : WsFrame) : Z := Z.land (wf_first f) 0x0f.
Definition wf_data (f : WsFrame) : bool := wf_opcode f <=? 2.
Definition wf_message (f : WsFrame) : bool := (wf_opcode f =? 1) || (wf_opcode f =? 2).
Definition wf_compressed (f : WsFrame) : bool := wf_message f && negb (Z.land (wf_first f) 0x40 =? 0).

(** The payload has the announced length, in the 7 bits of the second byte or
    in the 2 or 8 bytes that 126 and 127 announce, and a mask has 4 bytes. *)
Record frame_ok (f : WsFrame) : Prop := mkFrameOk {
  frame_bytes : bytes_ok (wf_bytes f);
  frame_length : let len7 := Z.land (wf_second f) 0x7f in
    if len7 =? 126 then List.length (wf_extended f) = 2%nat /\ blen (wf_payload f) = be_value (wf_extended f)
    else if len7 =? 127 then List.length (wf_extended f) = 8%nat /\ blen (wf_payload f) = be_value (wf_extended f)
    else wf_extended f = [] /\ blen (wf_payload f) = len7;
  frame_mask : List.length (wf_mask f) = if Z.land (wf_second f) 0x80 =? 0 then 0%nat else 4%nat
}.

(** The totals after a frame. *)
Definition frame_totals (f : WsFrame) (t : WsDirectionTotals) : WsDirectionTotals :=
  let t := if wf_message f then count_message (negb (Z.land (wf_first f) 0x40 =? 0)) t else t in
  if wf_data f then count_wire (blen (wf_payload f)) t else t.

Lemma frame_need f : frame_ok f -> header_need (wf_header f) = List.length (wf_header f).
Proof.
  intros [_ Hl Hm]. unfold header_need, wf_header, hdr. cbn [lookup list_lookup default List.length]. rewrite length_app, Hm.
  revert Hl. cbv zeta. destruct (_ =? 126); [|destruct (_ =? 127)]; intros [-> _]; cbn [List.length]; by destruct (_ =? 0).
Qed.

(** Buffers that end where a turn ends. *)
Lemma feed_whole_turn buf m m' : buf <> [] -> turn buf m = (List.length buf, m') -> meter_feed buf m = m'.
Proof.
  intros Hb Ht. unfold meter_feed. destruct buf as [|b buf]; [done|]. cbn [List.length]. rewrite feed_loop_turn, Ht.
  rewrite drop_ge by done. by destruct (List.length buf).
Qed.

Lemma feed_header f m : frame_ok f -> meter_ok m -> dm_header m = [] -> needed m = 2%nat -> dm_skip m = 0 ->
  meter_feed (wf_header f) m = end_header (wf_header f) (dm_totals m).
Proof.
  intros Hf Hm Hh Hn Hs. pose proof (frame_need f Hf) as Hneed. destruct Hf as [Hb _ _]. unfold wf_bytes in Hb. apply bytes_ok_app in Hb as [Hb _].
  unfold wf_header in *. set (rest := wf_extended f ++ wf_mask f) in *.
  assert (bytes_ok [wf_first f; wf_second f] /\ bytes_ok rest) as [Hb1 Hb2] by (apply bytes_ok_app; exact Hb).
  assert (Hshort : header_need [wf_first f; wf_second f] = S (S (List.length rest))) by exact Hneed.
  change (wf_first f :: wf_second f :: rest) with ([wf_first f; wf_second f] ++ rest).
  rewrite meter_feed_app by (done || (rewrite Hh; constructor)).
  assert (Ht : turn [wf_first f; wf_second f] m = (2%nat, if (2 <? S (S (List.length rest)))%nat
     then mkDirMeter [wf_first f; wf_second f] (S (S (List.length rest))) (dm_skip m) (dm_data m) (dm_totals m)
     else end_header [wf_first f; wf_second f] (dm_totals m))).
  { unfold turn. rewrite Hs, Hh, Hn. cbn [Z.ltb Z.compare List.length Nat.sub Nat.min app take]. cbn [Nat.ltb Nat.leb Nat.eqb]. by rewrite Hshort. }
  rewrite (feed_whole_turn [wf_first f; wf_second f] m _ ltac:(done) Ht).
  clearbody rest. destruct rest as [|c rest]; [done|]. cbn [List.length]. destruct (Nat.ltb_spec 2 (S (S (S (List.length rest))))); [|lia].
  apply feed_whole_turn; [done|]. unfold turn, needed. cbn [dm_skip dm_header dm_need dm_data dm_totals]. rewrite Hs.
  cbn [Z.ltb Z.compare Nat.eqb List.length Nat.sub]. rewrite Nat.min_id, take_ge by (cbn; lia).
  cbn [app List.length]. destruct (Nat.ltb_spec (S (S (S (List.length rest)))) (S (S (S (List.length rest))))); [lia|].
  cbn [Nat.eqb]. by destruct (Nat.ltb_spec (S (S (S (List.length rest)))) (S (S (S (List.length rest))))); [lia|].
Qed.

(** What [end_header] reads back of a header. *)
Lemma end_header_frame f t : frame_ok f -> end_header (wf_header f) t =
  mkDirMeter [] 2 (blen (wf_payload f)) (wf_data f) (if wf_message f then count_message (negb (Z.land (wf_first f) 0x40 =? 0)) t else t).
Proof.
  intros [Hb Hl Hm]. unfold end_header, wf_header, wf_data, wf_message, wf_opcode, hdr. cbn [lookup list_lookup default]. unfold id.
  assert (0 <= Z.land (wf_first f) 15) by (apply Z.land_nonneg; lia). f_equal.
  - revert Hl. cbv zeta. destruct (_ =? 126); [|destruct (_ =? 127)]; intros [Hx ->].
    + destruct (wf_extended f) as [|a [|b [|]]]; done.
    + change (drop 2 (wf_first f :: wf_second f :: wf_extended f ++ wf_mask f)) with (wf_extended f ++ wf_mask f). by rewrite take_app_length' by done.
    + done.
  - set (o := Z.land (wf_first f) 15) in *. clearbody o. destruct (Z.eqb_spec o 0), (Z.eqb_spec o 1), (Z.eqb_spec o 2), (Z.leb_spec o 2); cbn [orb]; done || lia.
Qed.

Definition totals_ok (t : WsDirectionTotals) : Prop :=
  0 <= wdt_messages t < 2 ^ 64 /\ 0 <= wdt_compressed_messages t < 2 ^ 64 /\ 0 <= wdt_wire_bytes t < 2 ^ 64.

Lemma count_message_ok c t : totals_ok t -> totals_ok (count_message c t).
Proof. intros (H1 & H2 & H3). split; [|split]; destruct c; cbn; try done; apply Z.mod_pos_bound; lia. Qed.

Lemma count_wire_ok n t : totals_ok t -> totals_ok (count_wire n t).
Proof. intros (H1 & H2 & H3). split; [|split]; cbn; try done; apply Z.mod_pos_bound; lia. Qed.

Lemma feed_payload payload data t : totals_ok t ->
  meter_feed payload (mkDirMeter [] 2 (blen payload) data t) = mkDirMeter [] 2 0 data (if data then count_wire (blen payload) t else t).
Proof.
  intros (_ & _ & Ht). destruct payload as [|b payload].
  { unfold blen. cbn. destruct data; [|done]. unfold count_wire, add64. rewrite Z.add_0_r, Z.mod_small by done. by destruct t. }
  apply feed_whole_turn; [done|]. unfold turn, blen. cbn [dm_skip dm_data dm_totals dm_header dm_need].
  rewrite Z.min_id, Nat2Z.id, Z.sub_diag. destruct (Z.ltb_spec 0 (Z.of_nat (List.length (b :: payload)))); [done|cbn in *; lia].
Qed.

Lemma frame_totals_ok f t : totals_ok t -> totals_ok (frame_totals f t).
Proof. unfold frame_totals. intros Ht. destruct (wf_message f), (wf_data f); auto using count_wire_ok, count_message_ok. Qed.

(** A meter between frames. *)
Record at_rest (m : DirMeter) : Prop := mkAtRest {
  rest_header : dm_header m = [];
  rest_need : needed m = 2%nat;
  rest_skip : dm_skip m = 0;
  rest_range : totals_ok (dm_totals m)
}.

Lemma at_rest_ok m : at_rest m -> meter_ok m /\ bytes_ok (dm_header m).
Proof. intros [H1 H2 H3 _]. rewrite H1. split; [|constructor]. split; rewrite ?H1, ?H2, ?H3; cbn; lia. Qed.

Lemma feed_frame f m : frame_ok f -> at_rest m -> at_rest (meter_feed (wf_bytes f) m) /\ dm_totals (meter_feed (wf_bytes f) m) = frame_totals f (dm_totals m).
Proof.
  intros Hf Hr. destruct (at_rest_ok m Hr) as [Hm Hb]. destruct Hr as [R1 R2 R3 R4].
  pose proof (frame_bytes f Hf) as Hok. unfold wf_bytes in *. apply bytes_ok_app in Hok as [Hok1 Hok2].
  rewrite meter_feed_app, feed_header, end_header_frame, feed_payload by
    (done || (destruct (wf_message f); [by apply count_message_ok|done])).
  split; [|done]. split; [done..|]. by apply frame_totals_ok.
Qed.

Lemma feed_frames frames : forall m, Forall frame_ok frames -> at_rest m ->
  at_rest (meter_feed (concat (map wf_bytes frames)) m) /\
  dm_totals (meter_feed (concat (map wf_bytes frames)) m) = fold_left (fun t f => frame_totals f t) frames (dm_totals m).
Proof.
  induction frames as [|f frames IH]; intros m Hf Hr; [done|]. inversion Hf as [|? ? Hf1 Hf2]; subst. cbn [map concat fold_left].
  destruct (at_rest_ok m Hr) as [Hm Hb]. destruct (feed_frame f m Hf1 Hr) as [Hr' Ht].
  rewrite meter_feed_app; [rewrite <- Ht; by apply IH|done|done|by apply frame_bytes|].
  apply Forall_concat, List.Forall_map. eapply list.Forall_impl; [exact Hf2|]. intros g. apply frame_bytes.
Qed.

Definition count_frames (p : WsFrame -> bool) (frames : list WsFrame) : Z := Z.of_nat (List.length (List.filter p frames)).

Definition data_bytes (frames : list WsFrame) : Z := foldr Z.add 0 (map (fun f => blen (wf_payload f)) (List.filter wf_data frames)).

Lemma totals_fold frames : forall t, 
  let t' := fold_left (fun t f => frame_totals f t) frames t in
  wdt_messages t' mod 2 ^ 64 = (wdt_messages t + count_frames wf_message frames) mod 2 ^ 64 /\
  wdt_compressed_messages t' mod 2 ^ 64 = (wdt_compressed_messages t + count_frames wf_compressed frames) mod 2 ^ 64 /\
  wdt_payload_bytes t' = wdt_payload_bytes t /\
  wdt_wire_bytes t' mod 2 ^ 64 = (wdt_wire_bytes t + data_bytes frames) mod 2 ^ 64.
Proof.
  unfold count_frames, data_bytes. induction frames as [|f frames IH]; intros t; [cbn; by rewrite !Z.add_0_r|].
  cbn [fold_left]. destruct (IH (frame_totals f t)) as (-> & -> & -> & ->). cbn [List.filter].
  replace (wf_compressed f) with (wf_message f && negb (Z.land (wf_first f) 0x40 =? 0)) by done. unfold frame_totals.
  destruct (wf_message f), (wf_data f), (negb (Z.land (wf_first f) 0x40 =? 0)); cbn [andb count_wire count_message wdt_messages wdt_compressed_messages wdt_payload_bytes wdt_wire_bytes map foldr List.length];
    unfold add64; rewrite ?Zplus_mod_idemp_l; repeat split; f_equal; lia.
Qed.

(** C17: the meter of a direction counts exactly the data messages, the
    compressed ones and the payload bytes of data frames of the frames on the
    wire (modulo 2^64, the counters' width), however reads or writes cut the
    bytes, headers included; control frames are passed over. *)
Theorem meter_exact frames chunks : Forall frame_ok frames -> concat chunks = concat (map wf_bytes frames) ->
  let t := dm_totals (fold_left (fun m c => meter_feed c m) chunks DirMeter_default) in
  wdt_messages t = count_frames wf_message frames mod 2 ^ 64 /\
  wdt_compressed_messages t = count_frames wf_compressed frames mod 2 ^ 64 /\
  wdt_wire_bytes t = data_bytes frames mod 2 ^ 64 /\
  wdt_payload_bytes t = 0.
Proof.
  intros Hf Hc t. assert (Hr : at_rest DirMeter_default) by (split; [done..|]; unfold totals_ok; cbn; lia).
  assert (Hb : Forall bytes_ok chunks).
  { apply (List.Forall_concat is_u8). rewrite Hc. apply Forall_concat, List.Forall_map. eapply list.Forall_impl; [exact Hf|]. intros g. apply frame_bytes. }
  destruct (at_rest_ok _ Hr) as [Hm Hh]. destruct (feed_frames frames _ Hf Hr) as [[_ _ _ (B1 & B2 & B3)] Ht].
  unfold t. rewrite meter_feed_concat, Hc by done. rewrite Ht in *.
  destruct (totals_fold frames (dm_totals DirMeter_default)) as (T1 & T2 & T3 & T4). rewrite !Z.mod_small in T1, T2, T4 by done.
  by rewrite T1, T2, T3, T4.
Qed.

(** * Witnesses *)

Definition demo_offer : DeflateOffer := mkDeflateOffer true true (Some 10) (Some 12).

Lemma offer_reads_back_witness :
  header_value demo_offer = "permessage-deflate; server_no_context_takeover; client_no_context_takeover; server_max_window_bits=10; client_max_window_bits=12" /\
  negotiate (Some demo_offer) [header_value demo_offer] false = Ok (Some (echoed demo_offer 12)).
Proof. split; [vm_compute; reflexivity|]. refine (proj2 (offer_reads_back demo_offer _)). split; cbn; lia. Defined.

Definition demo_answer : string := "permessage-deflate; server_no_context_takeover; server_max_window_bits=9; client_max_window_bits=8".

Definition demo_agreed : Agreed :=
  mkAgreed (mkWsDeflateParams true true (Some 9) (Some 8) false) (mkDeflateConfig false 9 true true 6).

Lemma agreement_within_limits_witness :
  negotiate (Some demo_offer) [demo_answer] false = Ok (Some demo_agreed) /\
  (dc_compress (ag_codec demo_agreed) = true <-> wdp_client_max_window_bits (ag_params demo_agreed) <> Some 8).
Proof.
  assert (Hn : negotiate (Some demo_offer) [demo_answer] false = Ok (Some demo_agreed)) by (vm_compute; reflexivity). split; [exact Hn|].
  refine (proj1 (proj2 (proj2 (agreement_within_limits demo_offer [demo_answer] false demo_agreed _ Hn)))). split; cbn; lia.
Defined.

(** A compressed text message, a ping, and a masked text. *)
Definition demo_frames : list WsFrame :=
  [mkWsFrame 0xc1 3 [] [] [1; 2; 3]; mkWsFrame 0x89 1 [] [] [9]; mkWsFrame 0x81 0x82 [] [1; 2; 3; 4] [5; 6]].

Lemma demo_frames_ok : Forall frame_ok demo_frames.
Proof.
  assert (Hb : Forall bytes_ok (map wf_bytes demo_frames)).
  { cbn. repeat (apply List.Forall_cons; [repeat (apply List.Forall_cons; [split; lia|]); constructor|]). constructor. }
  apply List.Forall_map in Hb. unfold demo_frames in *.
  repeat (apply list.Forall_cons in Hb as [? Hb]; apply List.Forall_cons; [split; [done|vm_compute; by split|done]|]). constructor.
Qed.

Definition demo_cuts : list (list Z) := [[0xc1]; [3; 1; 2]; [3; 0x89; 1; 9; 0x81; 0x82; 1]; [2; 3; 4; 5; 6]].

Lemma meter_exact_witness :
  let t := dm_totals (fold_left (fun m c => meter_feed c m) demo_cuts DirMeter_default) in
  t = mkWsDirectionTotals 2 1 0 5 /\ wdt_wire_bytes t = data_bytes demo_frames mod 2 ^ 64.
Proof.
  split; [vm_compute; reflexivity|].
  refine (proj1 (proj2 (proj2 (meter_exact demo_frames demo_cuts demo_frames_ok _)))). vm_compute; reflexivity.
Defined.
