(* ===== verification/Redaction.v ===== *)
(** Exact-value redaction (crates/anvil-engine/src/redact.rs,
    [replace_matches], [replace_ranges], [fallback_ranges]): the ranges of a
    text that hold a secret, merged where they overlap, widened to existing
    markers they cut, and replaced by the marker. A text is the list of its
    bytes. The multi-pattern matcher (crate aho_corasick) is a parameter with
    its documented laws. *)
From Stdlib Require Import ZArith Lia Ascii String Sorted.
From stdpp Require Import base numbers strings pretty option list.
From S2P Require Import Prelude Text Bytes Utf8 Secret.
Open Scope string_scope.
Open Scope list_scope.
Open Scope Z_scope.

(** * Ranges and occurrences *)

(** A byte range, [start..end]. *)
Definition Range : Type := nat * nat.

(** [p] is at byte [i] of [s]. *)
Definition occurs (p s : list Z) (i : nat) : Prop := exists pre post, s = pre ++ p ++ post /\ List.length pre = i.

(** The marker's bytes. *)
Definition marker : list Z := bytes_of_string REDACTED.

Definition MAX_SECRET_MATCHES : Z := 4096.

(** * Merging *)

(** The ranges a match that starts at [start] overlaps are taken off the end
    of the list, which is kept with its last range first. *)
Fixpoint pop_overlapping (start : nat) (ranges : list Range) : nat * list Range :=
  match ranges with
  | r :: rs => if (start <? r.2)%nat then pop_overlapping (Nat.min start r.1) rs else (start, ranges)
  | [] => (start, [])
  end.

Definition add_match (ranges : list Range) (found : Range) : list Range :=
  let '(start, ranges) := pop_overlapping found.1 ranges in (start, found.2) :: ranges.

(** The merged ranges of the matches, [None] past the budget. *)
Definition merge_matches (found : list Range) : option (list Range) :=
  if MAX_SECRET_MATCHES <? Z.of_nat (List.length found) then None
  else Some (rev (fold_left add_match found [])).

(** * Existing markers *)

Fixpoint is_prefix (p s : list Z) : bool :=
  match p, s with
  | [], _ => true
  | x :: p', y :: s' => (x =? y) && is_prefix p' s'
  | _ :: _, [] => false
  end.

(** [s.match_indices(p)], [skip] bytes of the last match still to be passed. *)
Fixpoint match_indices (p : list Z) (skip at_ : nat) (s : list Z) : list Range :=
  match s with
  | [] => []
  | _ :: s' =>
      match skip with
      | S skip' => match_indices p skip' (S at_) s'
      | O =>
          if is_prefix p s then (at_, at_ + List.length p)%nat :: match_indices p (List.length p - 1) (S at_) s'
          else match_indices p 0 (S at_) s'
      end
  end.

Definition markers_of (s : list Z) : list Range := match_indices marker 0 0 s.

Fixpoint drop_markers (start : nat) (ms : list Range) : list Range :=
  match ms with
  | m :: ms' => if (m.2 <=? start)%nat then drop_markers start ms' else ms
  | [] => []
  end.

(** The markers a range cuts widen it. *)
Fixpoint absorb (r : Range) (ms : list Range) : Range * list Range :=
  match ms with
  | m :: ms' => if (m.1 <? r.2)%nat then absorb (Nat.min r.1 m.1, Nat.max r.2 m.2) ms' else (r, ms)
  | [] => (r, [])
  end.

(** [adjusted] is kept with its last range first. *)
Definition push_adjusted (r : Range) (adjusted : list Range) : list Range :=
  match adjusted with
  | last_ :: rest => if (r.1 <? last_.2)%nat then (last_.1, Nat.max last_.2 r.2) :: rest else r :: adjusted
  | [] => [r]
  end.

Definition inside (r m : Range) : bool := ((m.1 <=? r.1) && (r.2 <=? m.2))%nat.

Fixpoint adjust (ranges ms adjusted : list Range) : list Range :=
  match ranges with
  | [] => rev adjusted
  | r :: rs =>
      let ms := drop_markers r.1 ms in
      if (if ms is m :: _ then inside r m else false) then adjust rs ms adjusted
      else let '(r, ms) := absorb r ms in adjust rs ms (push_adjusted r adjusted)
  end.

Definition slice (s : list Z) (a b : nat) : list Z := take (b - a) (drop a s).

(** The ranges replaced, from [offset]. *)
Fixpoint mask (s : list Z) (offset : nat) (ranges : list Range) : list Z :=
  match ranges with
  | [] => drop offset s
  | r :: rs => slice s offset r.1 ++ marker ++ mask s r.2 rs
  end.

Definition replace_ranges (s : list Z) (ranges : list Range) : list Z :=
  match ranges with
  | [] => s
  | _ => mask s 0 (adjust ranges (markers_of s) [])
  end.

(** [replace_matches] on what the matcher finds. *)
Definition replace_matches (found : list Range) (s : list Z) : list Z :=
  match merge_matches found with
  | None => marker
  | Some ranges => replace_ranges s ranges
  end.

(** * What the ranges mean *)

Definition nonempty (r : Range) : Prop := (r.1 < r.2)%nat.
Definition covers (r m : Range) : Prop := (r.1 <= m.1)%nat /\ (m.2 <= r.2)%nat.

(** The byte [x] is in one of the ranges. *)
Definition hidden (ranges : list Range) (x : nat) : Prop := exists r, r ∈ ranges /\ (r.1 <= x < r.2)%nat.

(** Ranges one after the other, from [lo], none empty. *)
Fixpoint ordered (lo : nat) (ranges : list Range) : Prop :=
  match ranges with
  | [] => True
  | r :: rs => (lo <= r.1)%nat /\ nonempty r /\ ordered r.2 rs
  end.

(** [x] lies strictly inside a match, so no merged range starts or ends there. *)
Definition interior (found : list Range) (x : nat) : Prop := exists m, m ∈ found /\ (m.1 < x < m.2)%nat.

(** [ranges] are the matches merged where they overlap: in order and apart,
    they hold every match, and within each range every cut would cut a
    match. *)
Record merged (found ranges : list Range) : Prop := {
  mg_ordered : ordered 0 ranges;
  mg_covers m : m ∈ found -> exists r, r ∈ ranges /\ covers r m;
  mg_tight r x : r ∈ ranges -> (r.1 < x < r.2)%nat -> interior found x;
  mg_ends r : r ∈ ranges -> (exists m, m ∈ found /\ m.1 = r.1) /\ (exists m, m ∈ found /\ m.2 = r.2);
}.

Lemma ordered_app lo a b : ordered lo (a ++ b) <-> ordered lo a /\ ordered (default lo (snd <$> last a)) b.
Proof.
  revert lo. induction a as [|r a IH]; intros lo; cbn [app ordered]; [simpl; tauto|].
  rewrite IH. assert (default lo (snd <$> last (r :: a)) = default r.2 (snd <$> last a)) as ->.
  { by destruct a as [|r' a]; [|rewrite last_cons_cons; destruct (last (r' :: a)) eqn:E; [|apply last_None in E]]. }
  tauto.
Qed.

Lemma ordered_le lo lo' ranges : (lo <= lo')%nat -> ordered lo' ranges -> ordered lo ranges.
Proof. destruct ranges as [|r rs]; simpl; [done|]. intros H (? & ? & ?). split; [lia|done]. Qed.

Lemma ordered_in lo ranges r : ordered lo ranges -> r ∈ ranges -> (lo <= r.1)%nat /\ nonempty r.
Proof.
  revert lo. induction ranges as [|r' rs IH]; intros lo Ho Hr; [by apply elem_of_nil in Hr|].
  destruct Ho as (H1 & H2 & H3). apply elem_of_cons in Hr as [->|Hr]; [done|].
  destruct (IH _ H3 Hr) as [H4 H5]. unfold nonempty in *. split; [lia|done].
Qed.

(** The same for a list kept with its last range first, ending by [hi]. *)
Fixpoint ordered_rev (hi : nat) (ranges : list Range) : Prop :=
  match ranges with
  | [] => True
  | r :: rs => (r.2 <= hi)%nat /\ nonempty r /\ ordered_rev r.1 rs
  end.

Lemma ordered_rev_le hi hi' ranges : (hi <= hi')%nat -> ordered_rev hi ranges -> ordered_rev hi' ranges.
Proof. destruct ranges as [|r rs]; simpl; [done|]. intros H (? & ? & ?). split; [lia|done]. Qed.

Lemma ordered_rev_in hi ranges r : ordered_rev hi ranges -> r ∈ ranges -> (r.2 <= hi)%nat /\ nonempty r.
Proof.
  revert hi. induction ranges as [|r' rs IH]; intros hi Ho Hr; [by apply elem_of_nil in Hr|].
  destruct Ho as (H1 & H2 & H3). apply elem_of_cons in Hr as [->|Hr]; [done|].
  destruct (IH _ H3 Hr) as [H4 H5]. unfold nonempty in *. split; [lia|done].
Qed.

Lemma ordered_rev_append hi ranges acc : ordered_rev hi ranges -> ordered hi acc -> ordered 0 (rev_append ranges acc).
Proof.
  revert hi acc. induction ranges as [|r rs IH]; intros hi acc Ho Ha; simpl in *.
  - apply (ordered_le 0 hi); [lia|done].
  - destruct Ho as (H1 & H2 & H3). apply (IH r.1); [done|]. simpl. split; [lia|]. split; [done|].
    by apply (ordered_le r.2 hi).
Qed.

Lemma ordered_rev_rev hi ranges : ordered_rev hi ranges -> ordered 0 (rev ranges).
Proof. intros H. rewrite rev_alt. by apply (ordered_rev_append hi). Qed.

(** ** The merge of [replace_matches] *)

Lemma pop_none start hi ranges : (hi <= start)%nat -> ordered_rev hi ranges -> pop_overlapping start ranges = (start, ranges).
Proof.
  destruct ranges as [|r rs]; simpl; [done|]. intros H (H1 & _). by rewrite (proj2 (Nat.ltb_ge _ _)) by lia.
Qed.

(** The ranges taken off overlap the match; what starts the merged range is the
    match or the range [r] the match starts in. *)
Lemma pop_spec start hi ranges : ordered_rev hi ranges ->
  let '(start', kept) := pop_overlapping start ranges in
  (start' <= start)%nat /\ ordered_rev start' kept /\ (forall r, r ∈ kept -> r ∈ ranges) /\
  (forall r, r ∈ ranges -> r ∈ kept \/ (start' <= r.1)%nat) /\
  (start' = start \/ exists r, r ∈ ranges /\ r.1 = start' /\ (start < r.2)%nat).
Proof.
  revert start hi. induction ranges as [|r rs IH]; intros start hi; simpl.
  - intros _. split; [done|]. split; [done|]. split; [done|]. split; [|by left]. intros r Hr. by apply elem_of_nil in Hr.
  - intros (H1 & H2 & H3). unfold nonempty in H2. destruct (Nat.ltb_spec start r.2) as [Hlt|Hge].
    + destruct (le_lt_dec start r.1) as [Hs|Hs].
      * rewrite Nat.min_l by lia. specialize (IH start _ H3). destruct (pop_overlapping start rs) as [start' kept].
        destruct IH as (I1 & I2 & I3 & I4 & I5). split; [done|]. split; [done|].
        split; [intros q Hq; apply elem_of_cons; right; by apply I3|]. split.
        -- intros q Hq. apply elem_of_cons in Hq as [->|Hq]; [right; lia|by apply I4].
        -- destruct I5 as [|(q & Hq & ? & ?)]; [by left|right]. exists q. split; [by apply elem_of_cons; right|done].
      * rewrite Nat.min_r by lia. rewrite (pop_none r.1 r.1) by done. split; [lia|]. split; [done|].
        split; [intros q Hq; by apply elem_of_cons; right|]. split.
        -- intros q Hq. apply elem_of_cons in Hq as [->|Hq]; [by right|by left].
        -- right. exists r. split; [by apply elem_of_cons; left|done].
    + split; [done|]. split; [by split|]. split; [done|]. split; [by left|by left].
Qed.

(** What holds of the merged list after some matches, the ends of which are
    all at most [hi]. *)
Record merging (found ranges : list Range) (hi : nat) : Prop := {
  mi_ordered : ordered_rev hi ranges;
  mi_covers m : m ∈ found -> exists r, r ∈ ranges /\ covers r m;
  mi_tight r x : r ∈ ranges -> (r.1 < x < r.2)%nat -> interior found x;
  mi_ends r : r ∈ ranges -> (exists m, m ∈ found /\ m.1 = r.1) /\ (exists m, m ∈ found /\ m.2 = r.2);
}.

Lemma interior_mono found found' x : (forall m, m ∈ found -> m ∈ found') -> interior found x -> interior found' x.
Proof. intros H (m & Hm & Hx). exists m. split; [by apply H|done]. Qed.

Lemma add_match_merging found ranges hi m : merging found ranges hi -> nonempty m -> (hi <= m.2)%nat ->
  merging (found ++ [m]) (add_match ranges m) m.2.
Proof.
  intros [Ho Hc Ht He] Hm Hhi. unfold add_match. pose proof (pop_spec m.1 _ _ Ho) as H.
  destruct (pop_overlapping m.1 ranges) as [start kept]. destruct H as (H1 & H2 & H3 & H4 & H5). unfold nonempty in *.
  assert (Hin : forall q, q ∈ found -> q ∈ found ++ [m]) by (intros q Hq; apply elem_of_app; by left).
  assert (Hlast : m ∈ found ++ [m]) by (apply elem_of_app; right; by apply list_elem_of_singleton).
  split.
  - cbn [ordered_rev fst snd]. split; [done|]. split; [unfold nonempty; simpl; lia|done].
  - intros q Hq. apply elem_of_app in Hq as [Hq|Hq%list_elem_of_singleton].
    + destruct (Hc q Hq) as (r & Hr & [C1 C2]). destruct (ordered_rev_in _ _ _ Ho Hr) as [Hr2 _].
      destruct (H4 r Hr) as [Hk|Hk].
      * exists r. split; [by apply elem_of_cons; right|done].
      * eexists. split; [by apply elem_of_cons; left|]. split; simpl; lia.
    + subst q. eexists. split; [by apply elem_of_cons; left|]. split; simpl; lia.
  - intros r x Hr Hx. apply elem_of_cons in Hr as [->|Hr].
    + simpl in Hx. destruct (le_lt_dec x m.1) as [Hxm|Hxm]; [|exists m; split; [done|lia]].
      destruct H5 as [->|(q & Hq & <- & Hq2)]; [lia|]. apply (interior_mono found); [done|]. apply (Ht q); [done|lia].
    + apply (interior_mono found); [done|]. apply (Ht r); [by apply H3|done].
  - intros r Hr. apply elem_of_cons in Hr as [->|Hr].
    + simpl. split; [|by exists m]. destruct H5 as [->|(q & Hq & <- & _)]; [by exists m|].
      destruct (He q Hq) as [(q' & Hq' & E) _]. exists q'. split; [by apply Hin|done].
    + destruct (He r (H3 r Hr)) as [(a & Ha & ?) (b & Hb & ?)]. split; [exists a|exists b]; split; auto.
Qed.

(** Matches as the matcher gives them: in the order of their ends. *)
Definition end_order (found : list Range) : Prop := Sorted (fun a b : Range => (a.2 <= b.2)%nat) found.

Lemma merging_merged found ranges hi : merging found ranges hi -> merged found (rev ranges).
Proof.
  intros [Ho Hc Ht He]. assert (Hr : forall r, r ∈ rev ranges <-> r ∈ ranges) by (intros r; rewrite !list_elem_of_In; symmetry; apply in_rev).
  split.
  - by apply (ordered_rev_rev hi).
  - intros m Hm. destruct (Hc m Hm) as (r & ? & ?). exists r. split; [by apply Hr|done].
  - intros r x Hin. by apply Ht, Hr.
  - intros r Hin. by apply He, Hr.
Qed.

Lemma merge_matches_merged found ranges : Forall nonempty found -> end_order found ->
  merge_matches found = Some ranges -> merged found ranges.
Proof.
  intros Hne Hs. unfold merge_matches. case_match; [done|]. intros Hr. apply (inj Some) in Hr as <-.
  apply Sorted_StronglySorted in Hs; [|intros a b c; lia].
  assert (forall rest done_ acc hi, merging done_ acc hi -> Forall nonempty rest ->
    Forall (fun m => hi <= m.2)%nat rest -> StronglySorted (fun a b : Range => (a.2 <= b.2)%nat) rest ->
    exists hi', merging (done_ ++ rest) (fold_left add_match rest acc) hi') as Hgen.
  { clear. induction rest as [|m rest IH]; intros done_ acc hi Hm Hne Hhi Hs; simpl.
    - rewrite app_nil_r. by exists hi.
    - inversion Hne as [|? ? Hm1 Hne']. inversion Hhi as [|? ? Hm2 Hhi']. inversion Hs as [|? ? Hs' Hall]. subst.
      destruct (IH (done_ ++ [m]) (add_match acc m) m.2) as [hi' H]; [by apply (add_match_merging _ _ hi)|done|done|done|].
      rewrite <- app_assoc in H. by exists hi'. }
  destruct (Hgen found [] [] 0%nat) as [hi Hm].
  - split; [done|..]; intros; exfalso; by eapply not_elem_of_nil.
  - done.
  - apply Forall_true. lia.
  - done.
  - by apply (merging_merged _ _ hi).
Qed.

(** ** Existing markers *)

Lemma is_prefix_spec p s : is_prefix p s = true <-> exists rest, s = p ++ rest.
Proof.
  revert s. induction p as [|x p IH]; intros s; [split; [by exists s|done]|]. destruct s as [|y s]; simpl.
  - split; [done|by intros (? & ?)].
  - rewrite andb_true_iff, Z.eqb_eq, IH. split.
    + intros (-> & rest & ->). by exists rest.
    + intros (rest & [= -> ->]). split; [done|by exists rest].
Qed.

Lemma match_indices_spec p skip s0 s : p <> [] -> (skip <= List.length s)%nat ->
  ordered (List.length s0 + skip) (match_indices p skip (List.length s0) s) /\
  (forall m, m ∈ match_indices p skip (List.length s0) s -> occurs p (s0 ++ s) m.1 /\ m.2 = (m.1 + List.length p)%nat).
Proof.
  intros Hp. revert skip s0. induction s as [|b s IH]; intros skip s0 Hskip.
  - split; [done|]. intros m Hm. by apply elem_of_nil in Hm.
  - assert (List.length (s0 ++ [b]) = S (List.length s0)) as Hl by (rewrite length_app; simpl; lia).
    cbn [match_indices]. destruct skip as [|skip].
    + destruct (is_prefix p (b :: s)) eqn:E.
      * apply is_prefix_spec in E as [rest E].
        assert (Hlen : (List.length p - 1 <= List.length s)%nat).
        { apply (f_equal (@List.length Z)) in E. rewrite length_app in E. simpl in E. lia. }
        destruct (IH (List.length p - 1)%nat (s0 ++ [b]) Hlen) as [H1 H2]. rewrite Hl in H1, H2.
        assert (0 < List.length p)%nat by (destruct p; [done|simpl; lia]).
        split.
        -- cbn [ordered fst snd]. split; [lia|]. split; [unfold nonempty; simpl; lia|].
           eapply ordered_le; [|exact H1]. lia.
        -- intros m Hm. apply elem_of_cons in Hm as [->|Hm].
           ++ split; [|done]. exists s0, rest. by rewrite E.
           ++ rewrite <- app_assoc in H2. by apply H2.
      * destruct (IH 0%nat (s0 ++ [b]) ltac:(lia)) as [H1 H2]. rewrite Hl in H1, H2. split.
        -- eapply ordered_le; [|exact H1]. lia.
        -- rewrite <- app_assoc in H2. exact H2.
    + simpl in Hskip. destruct (IH skip (s0 ++ [b]) ltac:(lia)) as [H1 H2]. rewrite Hl in H1, H2. split.
      * eapply ordered_le; [|exact H1]. lia.
      * rewrite <- app_assoc in H2. exact H2.
Qed.

Lemma markers_spec s : ordered 0 (markers_of s) /\
  (forall m, m ∈ markers_of s -> occurs marker s m.1 /\ m.2 = (m.1 + List.length marker)%nat).
Proof. apply (match_indices_spec marker 0 [] s); [done|lia]. Qed.

(** ** Widening to the markers *)

Definition apart (r m : Range) : Prop := (r.2 <= m.1)%nat \/ (m.2 <= r.1)%nat.

(** What [adjust] makes of merged ranges: ranges in order and apart that hold
    each of them, unless a marker does, that cut no marker, and that hold no
    byte but those of the ranges and the markers. *)
Record adjusted_to (ranges ms adjusted : list Range) : Prop := {
  aj_ordered : ordered 0 adjusted;
  aj_covers r : r ∈ ranges -> (exists m, m ∈ ms /\ covers m r) \/ (exists a, a ∈ adjusted /\ covers a r);
  aj_markers a m : a ∈ adjusted -> m ∈ ms -> covers a m \/ apart a m;
  aj_hidden x : hidden adjusted x -> hidden ranges x \/ hidden ms x;
}.

Lemma drop_markers_spec start lo ms : ordered lo ms -> exists dropped, ms = dropped ++ drop_markers start ms /\
  Forall (fun m : Range => m.2 <= start)%nat dropped /\
  (forall m ms', drop_markers start ms = m :: ms' -> (start < m.2)%nat).
Proof.
  revert lo. induction ms as [|m ms IH]; intros lo Ho; [by exists []|]. destruct Ho as (_ & _ & Ho). cbn [drop_markers].
  destruct (Nat.leb_spec m.2 start) as [H|H].
  - destruct (IH _ Ho) as (d & Hd & Hf & Hn). exists (m :: d). split; [by rewrite Hd at 1|]. split; [by constructor|done].
  - exists []. split; [done|]. split; [constructor|]. by intros ? ? [= <- <-].
Qed.

Lemma absorb_spec r lo ms : ordered lo ms -> nonempty r -> (forall m ms', ms = m :: ms' -> (r.1 < m.2)%nat) ->
  exists eaten rest, ms = eaten ++ rest /\ (absorb r ms).2 = rest /\ covers (absorb r ms).1 r /\ nonempty (absorb r ms).1 /\
    Forall (fun m => covers (absorb r ms).1 m) eaten /\ Forall (fun m : Range => (absorb r ms).1.2 <= m.1)%nat rest /\
    (Nat.min lo r.1 <= (absorb r ms).1.1)%nat /\
    (forall x, ((absorb r ms).1.1 <= x < (absorb r ms).1.2)%nat -> (r.1 <= x < r.2)%nat \/ hidden eaten x).
Proof.
  revert r lo. induction ms as [|m ms IH]; intros r lo Ho Hr Hm.
  - exists [], []. unfold covers. split; [done|]. split; [done|]. split; [simpl; lia|]. split; [done|].
    split; [constructor|]. split; [constructor|]. split; [simpl; lia|]. by left.
  - destruct Ho as (H1 & H2 & Ho). specialize (Hm m ms eq_refl). cbn [absorb]. unfold nonempty in *.
    destruct (Nat.ltb_spec m.1 r.2) as [Hlt|Hge].
    + set (r' := (Nat.min r.1 m.1, Nat.max r.2 m.2)).
      destruct (IH r' m.2 Ho) as (eaten & rest & -> & E & C & N & F1 & F2 & L & X).
      { simpl. lia. }
      { intros q qs ->. destruct Ho as (? & ? & _). simpl. unfold nonempty in *. lia. }
      destruct C as [C1 C2]. change r'.1 with (Nat.min r.1 m.1) in *. change r'.2 with (Nat.max r.2 m.2) in *.
      exists (m :: eaten), rest. split; [done|]. split; [done|]. split; [split; lia|]. split; [done|].
      split; [constructor; [split; lia|done]|]. split; [done|]. split; [lia|].
      intros x Hx. destruct (X x Hx) as [Hx'|(q & Hq & Hx')].
      * destruct (decide (r.1 <= x < r.2)%nat) as [|Hn]; [by left|]. right. exists m.
        split; [by apply elem_of_cons; left|]. lia.
      * right. exists q. split; [by apply elem_of_cons; right|done].
    + exists [], (m :: ms). unfold covers. cbn [fst snd]. split; [done|]. split; [done|]. split; [lia|]. split; [done|]. split; [constructor|].
      split; [|split; [lia|by left]]. constructor; [done|].
      assert (forall q, q ∈ ms -> (m.2 <= q.1)%nat) as Hq by (intros q Hq; by apply (ordered_in _ _ _ Ho)).
      apply list.Forall_forall. intros q Hq'. specialize (Hq q Hq'). lia.
Qed.

Lemma ordered_after lo a b x : ordered lo (a ++ b) -> x ∈ a -> ordered x.2 b.
Proof.
  revert lo. induction a as [|r a IH]; intros lo Ho Hx; [by apply elem_of_nil in Hx|]. destruct Ho as (H1 & H2 & H3).
  apply elem_of_cons in Hx as [->|Hx]; [|by apply (IH r.2)].
  clear IH H1 H2. revert r H3. induction a as [|q a IH]; intros r H3; [done|]. destruct H3 as (H1 & H2 & H3).
  unfold nonempty in H2. apply (ordered_le _ q.2); [lia|]. by apply IH.
Qed.

(** After the ranges [old], the markers [past] passed and [ms] to come; the
    ranges to come start at [lo] or later. *)
Record adjusting (old past ms acc : list Range) (lo : nat) : Prop := {
  ai_ordered : exists hi, ordered_rev hi acc;
  ai_covers r : r ∈ old -> (exists m, m ∈ past ++ ms /\ covers m r) \/ (exists a, a ∈ acc /\ covers a r);
  ai_markers a m : a ∈ acc -> m ∈ past ++ ms -> covers a m \/ apart a m;
  ai_ahead a m : a ∈ acc -> m ∈ ms -> (a.2 <= m.1)%nat;
  ai_past d : d ∈ past -> (d.2 <= lo)%nat \/ exists a, a ∈ acc /\ covers a d;
  ai_start a : a ∈ acc -> (a.1 <= lo)%nat;
  ai_hidden x : hidden acc x -> hidden old x \/ hidden (past ++ ms) x;
}.

Lemma adjusting_skip old past dropped ms acc lo r : adjusting old past (dropped ++ ms) acc lo ->
  Forall (fun m : Range => m.2 <= r.1)%nat dropped -> (lo <= r.1)%nat -> nonempty r ->
  (exists m, m ∈ ms /\ covers m r) -> adjusting (old ++ [r]) (past ++ dropped) ms acc r.2.
Proof.
  intros [Ho Hc Hm Ha Hp Hs Hh] Hd Hlo Hr Hin. unfold nonempty in Hr. split.
  - done.
  - intros q Hq. rewrite <- app_assoc. apply elem_of_app in Hq as [Hq|Hq%list_elem_of_singleton]; [by apply Hc|].
    subst q. left. destruct Hin as (m & Hm' & ?). exists m. split; [|done]. by rewrite !elem_of_app; right; right.
  - intros a m. rewrite <- app_assoc. apply Hm.
  - intros a m Ha' Hm'. apply Ha; [done|]. apply elem_of_app. by right.
  - intros d Hd'. apply elem_of_app in Hd' as [Hd'|Hd'].
    + destruct (Hp d Hd') as [|]; [left; lia|by right].
    + left. rewrite list.Forall_forall in Hd. specialize (Hd d Hd'). lia.
  - intros a Ha'. specialize (Hs a Ha'). lia.
  - intros x Hx. rewrite <- app_assoc. destruct (Hh x Hx) as [(q & ? & ?)|]; [|by right]. left. exists q.
    split; [by apply elem_of_app; left|done].
Qed.

(** The list ends with the new range, or with the last one widened to it. *)
Lemma push_adjusted_spec hi acc r' : ordered_rev hi acc -> nonempty r' ->
  match acc with l :: _ => (r'.1 < l.2)%nat -> (l.1 <= r'.1)%nat | [] => True end ->
  exists l rest, push_adjusted r' acc = l :: rest /\ covers l r' /\ (forall a, a ∈ acc -> a ∈ rest \/ covers l a) /\
    (forall a, a ∈ rest -> a ∈ acc) /\ ordered_rev l.2 (l :: rest) /\ (l.1 <= r'.1)%nat /\
    (forall a, a ∈ rest -> (a.2 <= l.1)%nat) /\
    (l = r' \/ exists q, q ∈ acc /\ q.1 = l.1 /\ (r'.1 < q.2)%nat /\ l.2 = Nat.max q.2 r'.2 /\
                (forall a, a ∈ rest -> (a.2 <= q.1)%nat)).
Proof.
  unfold nonempty. intros Ho Hr' Hlast. unfold push_adjusted. destruct acc as [|q acc].
  - exists r', []. unfold covers. split; [done|]. split; [lia|].
    split; [by intros a Ha'; apply elem_of_nil in Ha'|]. split; [done|]. split; [simpl; repeat split; unfold nonempty; lia|].
    split; [lia|]. split; [by intros a Ha'; apply elem_of_nil in Ha'|by left].
  - destruct Ho as (Ho1 & Ho2 & Ho3). unfold nonempty in Ho2.
    assert (forall a, a ∈ acc -> (a.2 <= q.1)%nat) as Hacc by (intros a Ha'; by apply (ordered_rev_in _ _ _ Ho3)).
    destruct (Nat.ltb_spec r'.1 q.2) as [Hlt|Hge].
    + specialize (Hlast Hlt). exists (q.1, Nat.max q.2 r'.2), acc. unfold covers. cbn [fst snd].
      split; [done|]. split; [lia|]. split; [|split; [by intros a Ha'; apply elem_of_cons; right|]].
      { intros a Ha'. apply elem_of_cons in Ha' as [->|]; [right; lia|by left]. }
      split; [simpl; unfold nonempty; simpl; repeat split; (lia || done)|]. split; [lia|]. split; [done|].
      right. exists q. split; [by apply elem_of_cons; left|]. repeat split; (lia || done).
    + exists r', (q :: acc). unfold covers. split; [done|]. split; [lia|]. split; [by left|]. split; [done|].
      split; [simpl; unfold nonempty; repeat split; (lia || done)|]. split; [lia|]. split; [|by left].
      intros a Ha'. apply elem_of_cons in Ha' as [->|Ha']; [lia|]. specialize (Hacc a Ha'). lia.
Qed.

(** A range [r'] that holds [r] and the markers [eaten] is added. *)
Lemma adjusting_push old past dropped eaten ms acc lo r r' : adjusting old past (dropped ++ eaten ++ ms) acc lo ->
  ordered 0 ((past ++ dropped) ++ eaten ++ ms) -> (lo <= r.1)%nat -> nonempty r -> nonempty r' -> covers r' r ->
  Forall (fun m : Range => m.2 <= r.1)%nat dropped -> Forall (fun m => covers r' m) eaten ->
  Forall (fun m : Range => r'.2 <= m.1)%nat ms -> (forall l, ordered l (eaten ++ ms) -> Nat.min l r.1 <= r'.1)%nat ->
  (forall x, (r'.1 <= x < r'.2)%nat -> (r.1 <= x < r.2)%nat \/ hidden eaten x) ->
  adjusting (old ++ [r]) ((past ++ dropped) ++ eaten) ms (push_adjusted r' acc) r.2.
Proof.
  intros [[hi Ho] Hc Hm Ha Hp Hs Hh] Hord Hlo Hr Hr' [Hc1 Hc2] Hd He Hms Hmin Hx. unfold nonempty in *.
  rewrite list.Forall_forall in Hd, He, Hms.
  assert (Hpast : forall d, d ∈ past ++ dropped -> (d.2 <= r'.1)%nat \/ exists a, a ∈ acc /\ covers a d).
  { intros d Hdin. specialize (Hmin _ (ordered_after _ _ _ _ Hord Hdin)).
    apply elem_of_app in Hdin as [Hdin|Hdin]; [destruct (Hp d Hdin) as [|]; [left; lia|by right]|left].
    specialize (Hd d Hdin). lia. }
  assert (Hahead : forall a m, a ∈ acc -> m ∈ ms -> (a.2 <= m.1)%nat).
  { intros a m Ha' Hm'. apply Ha; [done|]. rewrite !elem_of_app. by right; right. }
  (* the last range is left alone, or ends up merged with the new one *)
  assert (Hlast : match acc with
    | l :: _ => (r'.1 < l.2)%nat -> r'.1 = r.1 /\ (l.1 <= r.1)%nat
    | [] => True end).
  { destruct acc as [|l acc]; [done|]. intros Hlt. specialize (Hs l ltac:(by apply elem_of_cons; left)).
    assert (ordered l.2 (eaten ++ ms)) as Hl.
    { assert (forall m, m ∈ eaten ++ ms -> (l.2 <= m.1)%nat) as Hl.
      { intros m Hm'. apply Ha; [by apply elem_of_cons; left|]. apply elem_of_app. by right. }
      apply ordered_app in Hord as [_ Hord]. destruct (eaten ++ ms) as [|m l']; [done|]. destruct Hord as (_ & ? & ?).
      split; [apply Hl; by apply elem_of_cons; left|done]. }
    specialize (Hmin _ Hl). lia. }
  destruct (push_adjusted_spec hi acc r') as (l & rest & E & [L1 L2] & Hkeep & Hrest & Hol & Hl1 & Hbelow & Hl); [done..| |].
  { destruct acc; [done|]. intros Hlt. destruct (Hlast Hlt). lia. }
  rewrite E. assert (l.1 <= r.1)%nat by lia. clear E Hl1.
  assert (Hin : l ∈ l :: rest) by (by apply elem_of_cons; left).
  assert (Hkeep' : forall a q, a ∈ acc -> covers a q -> exists b, b ∈ l :: rest /\ covers b q).
  { intros a q Ha' [C1 C2]. destruct (Hkeep a Ha') as [Hr2|[C3 C4]]; [exists a; split; [by apply elem_of_cons; right|done]|].
    exists l. split; [done|]. split; lia. }
  (* the markers against the new last range *)
  assert (Hml : forall m, m ∈ ((past ++ dropped) ++ eaten) ++ ms -> covers l m \/ apart l m).
  { intros m Hm'. apply elem_of_app in Hm' as [Hm'|Hm'].
    - apply elem_of_app in Hm' as [Hm'|Hm'].
      + destruct Hl as [->|(q & Hq & Eq & Hlt & E2 & Hqb)].
        * destruct (Hpast m Hm') as [|(a & Ha' & [C1 C2])]; [right; right; lia|].
          destruct (Hkeep a Ha') as [Hr2|[C3 C4]]; [|left; split; lia]. right. right. specialize (Hbelow a Hr2). lia.
        * destruct (Hm q m Hq ltac:(rewrite app_assoc; apply elem_of_app; by left)) as [[C1 C2]|[C|C]]; [left; split; lia| |right; right; lia].
          assert (m.1 < m.2)%nat as Hmne by (apply (ordered_in _ _ m Hord); apply elem_of_app; by left).
          destruct (Hpast m Hm') as [|(a & Ha' & [C1 C2])]; [lia|].
          destruct (Hkeep a Ha') as [Hr2|[C3 C4]]; [|left; split; lia]. specialize (Hbelow a Hr2). right. right. lia.
      + specialize (He m Hm'). destruct He. left. split; lia.
    - specialize (Hms m Hm'). destruct Hl as [->|(q & Hq & Eq & Hlt & E2 & _)]; [by right; left|].
      specialize (Hahead q m Hq Hm'). right. left. lia. }
  split.
  - by exists l.2.
  - intros q Hq. apply elem_of_app in Hq as [Hq|Hq%list_elem_of_singleton].
    + destruct (Hc q Hq) as [(m & Hm' & ?)|(a & Ha' & ?)]; [left|right; by apply (Hkeep' a)].
      exists m. split; [|done]. rewrite !elem_of_app in *. tauto.
    + subst q. right. exists l. split; [done|]. split; lia.
  - intros a m Ha' Hm'. apply elem_of_cons in Ha' as [->|Ha']; [by apply Hml|].
    apply Hm; [by apply Hrest|]. rewrite !elem_of_app in *. tauto.
  - intros a m Ha' Hm'. apply elem_of_cons in Ha' as [->|Ha']; [|by apply Hahead; [apply Hrest|]].
    specialize (Hms m Hm'). destruct Hl as [->|(q & Hq & Eq & Hlt & E2 & _)]; [lia|].
    specialize (Hahead q m Hq Hm'). lia.
  - intros d Hd'. apply elem_of_app in Hd' as [Hd'|Hd'].
    + destruct (Hpast d Hd') as [|(a & Ha' & ?)]; [left; lia|right; by apply (Hkeep' a)].
    + right. exists l. split; [done|]. destruct (He d Hd'). split; lia.
  - intros a Ha'. apply elem_of_cons in Ha' as [->|Ha']; [lia|].
    specialize (Hs a (Hrest a Ha')). lia.
  - intros x (a & Ha' & Hxa).
    assert (Hold : forall a, a ∈ acc -> (a.1 <= x < a.2)%nat -> hidden (old ++ [r]) x \/ hidden (((past ++ dropped) ++ eaten) ++ ms) x).
    { intros b Hb Hxb. destruct (Hh x) as [(q & Hq & ?)|(m & Hm' & ?)]; [by exists b| |].
      - left. exists q. split; [by apply elem_of_app; left|done].
      - right. exists m. split; [|done]. rewrite !elem_of_app in *. tauto. }
    apply elem_of_cons in Ha' as [->|Ha']; [|by apply (Hold a); [apply Hrest|]].
    destruct (decide (r'.1 <= x < r'.2)%nat) as [Hxr|Hxr].
    + destruct (Hx x Hxr) as [|(m & Hm' & ?)].
      * left. exists r. split; [|done]. apply elem_of_app. right. by apply list_elem_of_singleton.
      * right. exists m. split; [|done]. rewrite !elem_of_app. tauto.
    + destruct Hl as [->|(q & Hq & Eq & Hlt & E2 & _)]; [done|]. apply (Hold q Hq). lia.
Qed.

Lemma adjust_adjusting rs old past ms acc lo : adjusting old past ms acc lo -> ordered lo rs -> ordered 0 (past ++ ms) ->
  adjusted_to (old ++ rs) (past ++ ms) (adjust rs ms acc).
Proof.
  revert old past ms acc lo. induction rs as [|r rs IH]; intros old past ms acc lo Hi Ho Hord.
  - rewrite app_nil_r. cbn [adjust]. destruct Hi as [[hi Hoa] Hc Hm Ha Hp Hs Hh].
    assert (Hr : forall a, a ∈ rev acc <-> a ∈ acc) by (intros a; rewrite !list_elem_of_In; symmetry; apply in_rev).
    split.
    + by apply (ordered_rev_rev hi).
    + intros q Hq. destruct (Hc q Hq) as [|(a & ? & ?)]; [by left|right]. exists a. split; [by apply Hr|done].
    + intros a m Ha'. by apply Hm, Hr.
    + intros x (a & Ha' & ?). apply Hh. exists a. split; [by apply Hr|done].
  - destruct Ho as (Hlo & Hr & Ho). cbn [adjust].
    destruct (drop_markers_spec r.1 _ ms (proj2 (proj1 (ordered_app _ _ _) Hord))) as (dropped & E & Hd & Hnext).
    set (ms1 := drop_markers r.1 ms) in *. clearbody ms1. subst ms.
    destruct (if ms1 is m :: _ then inside r m else false) eqn:Hin.
    + destruct ms1 as [|m ms1]; [done|]. unfold inside in Hin. apply andb_prop in Hin as [H1 H2].
      apply Nat.leb_le in H1, H2. replace (old ++ r :: rs) with ((old ++ [r]) ++ rs) by (by rewrite <- app_assoc).
      rewrite app_assoc. apply (IH _ _ _ _ r.2); [|done|by rewrite <- app_assoc].
      apply (adjusting_skip _ _ _ _ _ lo); try done. exists m. split; [by apply elem_of_cons; left|done].
    + rewrite app_assoc in Hord. destruct (absorb_spec r 0 ms1) as (eaten & rest & -> & E & C & N & F1 & F2 & _ & X).
      { eapply ordered_le; [|exact (proj2 (proj1 (ordered_app _ _ _) Hord))]. lia. }
      { done. }
      { intros m ms' ->. by apply (Hnext m ms'). }
      destruct (absorb r (eaten ++ rest)) as [r' ms2] eqn:Ea. simpl in E, C, N, F1, F2, X. subst ms2.
      replace (old ++ r :: rs) with ((old ++ [r]) ++ rs) by (by rewrite <- app_assoc).
      replace (past ++ dropped ++ eaten ++ rest) with (((past ++ dropped) ++ eaten) ++ rest) by (by rewrite <- !app_assoc).
      apply (IH _ _ _ _ r.2); [|done|by rewrite <- app_assoc].
      apply (adjusting_push _ _ _ _ _ _ lo r r'); try done.
      intros l Hl. destruct (absorb_spec r l (eaten ++ rest) Hl Hr) as (? & ? & _ & _ & _ & _ & _ & _ & H & _).
      { intros m ms' Em. by apply (Hnext m ms'). }
      by rewrite Ea in H.
Qed.

Lemma adjust_spec ranges s : ordered 0 ranges -> adjusted_to ranges (markers_of s) (adjust ranges (markers_of s) []).
Proof.
  intros Ho. apply (adjust_adjusting ranges [] [] (markers_of s) [] 0); [|done|apply markers_spec].
  split; [by exists 0%nat|..]; try (intros; exfalso; by eapply not_elem_of_nil). intros x (a & Ha & _). by apply elem_of_nil in Ha.
Qed.

(** ** The text after replacement *)

Lemma occurs_lookup p s i : occurs p s i <->
  (i + List.length p <= List.length s)%nat /\ forall k, (k < List.length p)%nat -> s !! (i + k)%nat = p !! k.
Proof.
  split.
  - intros (pre & post & -> & <-). split; [rewrite !length_app; lia|]. intros k Hk.
    rewrite lookup_app_r by lia. rewrite lookup_app_l by lia. f_equal. lia.
  - intros [Hl Hk]. exists (take i s), (drop (i + List.length p) s). split; [|rewrite length_take; lia].
    apply list_eq. intros n. destruct (decide (n < i)%nat) as [Hn|Hn].
    { rewrite lookup_app_l by (rewrite length_take; lia). by rewrite lookup_take_lt. }
    rewrite lookup_app_r by (rewrite length_take; lia). rewrite length_take_le by lia.
    destruct (decide (n - i < List.length p)%nat) as [Hn2|Hn2].
    { rewrite lookup_app_l by lia. rewrite <- Hk by lia. f_equal. lia. }
    rewrite lookup_app_r by lia. rewrite lookup_drop. f_equal. lia.
Qed.

Lemma slice_length s a b : (b <= List.length s)%nat -> List.length (slice s a b) = (b - a)%nat.
Proof. intros H. unfold slice. rewrite length_take, length_drop. lia. Qed.

Lemma slice_lookup s a b k : (k < b - a)%nat -> slice s a b !! k = s !! (a + k)%nat.
Proof. intros H. unfold slice. by rewrite lookup_take_lt, lookup_drop by lia. Qed.

(** [i..i+n] and [j..j+k] share a byte. *)
Definition overlap (i n j k : nat) : Prop := (i < j + k /\ j < i + n)%nat.

(** The text between two replaced ranges, at its place in the result. *)
Record piece (s : list Z) (lo : nat) (ranges : list Range) (out : list Z) (pre x y : nat) : Prop := {
  pc_text k : (x + k < y)%nat -> out !! (pre + k)%nat = s !! (x + k)%nat;
  pc_length : (pre + (y - x) <= List.length out)%nat;
  pc_bounds : (lo <= x <= y)%nat /\ (y <= List.length s)%nat;
  pc_apart a : a ∈ ranges -> (a.2 <= x \/ y <= a.1)%nat;
  pc_start : x = lo \/ exists a, a ∈ ranges /\ a.2 = x;
  pc_end : y = List.length s \/ exists a, a ∈ ranges /\ a.1 = y;
}.

(** Bytes of the result are a marker's or text between two ranges. *)
Lemma mask_cases s lo ranges i n : ordered lo ranges -> (lo <= List.length s)%nat ->
  (forall a, a ∈ ranges -> (a.2 <= List.length s)%nat) -> (0 < n)%nat ->
  (i + n <= List.length (mask s lo ranges))%nat ->
  (exists j, occurs marker (mask s lo ranges) j /\ overlap i n j (List.length marker)) \/
  (exists pre x y, piece s lo ranges (mask s lo ranges) pre x y /\ (pre <= i)%nat /\ (i + n <= pre + (y - x))%nat).
Proof.
  revert lo i. induction ranges as [|r rs IH]; intros lo i Ho Hlo Hin Hn Hi; cbn [mask] in *.
  - right. rewrite length_drop in Hi. exists 0%nat, lo, (List.length s). split; [|lia]. split; try lia.
    + intros k Hk. by rewrite lookup_drop.
    + rewrite length_drop. lia.
    + intros a Ha. by apply elem_of_nil in Ha.
  - destruct Ho as (H1 & H2 & H3). unfold nonempty in H2.
    assert (Hr : (r.2 <= List.length s)%nat) by (apply Hin; by apply elem_of_cons; left).
    rewrite !length_app, slice_length in Hi by lia. set (out := slice s lo r.1 ++ marker ++ mask s r.2 rs).
    assert (Hsl : List.length (slice s lo r.1) = (r.1 - lo)%nat) by (apply slice_length; lia).
    destruct (le_lt_dec (i + n) (r.1 - lo)) as [Hc|Hc].
    { right. exists 0%nat, lo, r.1. split; [|lia]. split; try lia.
      - intros k Hk. unfold out. rewrite lookup_app_l by lia. simpl. by rewrite slice_lookup by lia.
      - unfold out. rewrite length_app. lia.
      - intros a Ha. apply elem_of_cons in Ha as [->|Ha]; [lia|]. destruct (ordered_in _ _ _ H3 Ha). lia.
      - right. exists r. split; [by apply elem_of_cons; left|done]. }
    destruct (le_lt_dec (r.1 - lo + List.length marker) i) as [Hc2|Hc2].
    2:{ left. exists (r.1 - lo)%nat. split; [|unfold overlap; lia].
        exists (slice s lo r.1), (mask s r.2 rs). by split. }
    assert (Hout : forall j, (j < List.length (mask s r.2 rs))%nat ->
      out !! ((r.1 - lo + List.length marker) + j)%nat = mask s r.2 rs !! j).
    { intros j Hj. unfold out. rewrite lookup_app_r by lia. rewrite lookup_app_r by lia. f_equal. lia. }
    destruct (IH r.2 (i - (r.1 - lo + List.length marker))%nat H3 Hr) as [(j & Hj & Hov)|(pre & x & y & [P1 P2 P3 P4 P5 P6] & Hp1 & Hp2)];
      [intros a Ha; apply Hin; by apply elem_of_cons; right|done|lia| |].
    + left. exists ((r.1 - lo + List.length marker) + j)%nat. split; [|unfold overlap in *; lia].
      apply occurs_lookup in Hj as [Hj1 Hj2]. apply occurs_lookup. split.
      * unfold out. rewrite !length_app. lia.
      * intros k Hk. rewrite <- Hj2 by done. rewrite <- Nat.add_assoc. apply Hout. lia.
    + right. exists ((r.1 - lo + List.length marker) + pre)%nat, x, y. split; [|lia]. split.
      * intros k Hk. rewrite <- Nat.add_assoc. rewrite Hout by lia. by apply P1.
      * unfold out. rewrite !length_app. lia.
      * lia.
      * intros a Ha. apply elem_of_cons in Ha as [->|Ha]; [lia|by apply P4].
      * right. destruct P5 as [->|(a & Ha & ?)]; [exists r|exists a]; (split; [apply elem_of_cons; auto|done]).
      * destruct P6 as [|(a & Ha & ?)]; [by left|right; exists a]. split; [by apply elem_of_cons; right|done].
Qed.

(** A range of the text apart from all replaced ones lies in one piece. *)
Lemma piece_holds s ranges out pre x y u v : piece s 0 ranges out pre x y -> (u < v <= List.length s)%nat ->
  (forall a, a ∈ ranges -> apart a (u, v)) -> (forall a, a ∈ ranges -> nonempty a) ->
  (u < y)%nat -> (x < v)%nat -> (x <= u)%nat /\ (v <= y)%nat.
Proof.
  intros [_ _ Hb _ Hs He] Huv Ha Hne Huy Hxv. unfold apart in Ha. cbn [fst snd] in Ha. split.
  - destruct Hs as [->|(a & Hin & <-)]; [lia|]. destruct (Ha a Hin); [lia|]. specialize (Hne a Hin). unfold nonempty in Hne. lia.
  - destruct He as [->|(a & Hin & <-)]; [lia|]. destruct (Ha a Hin); [|lia]. specialize (Hne a Hin). unfold nonempty in Hne. lia.
Qed.

(** What was found does not occur in the result, but over a marker. *)
Lemma replace_ranges_hides found ranges s p i : merged found ranges -> p <> [] ->
  (forall m, m ∈ found -> (m.2 <= List.length s)%nat) ->
  (forall i, occurs p s i -> exists m, m ∈ found /\ covers m (i, i + List.length p)%nat) ->
  occurs p (replace_ranges s ranges) i ->
  exists j, occurs marker (replace_ranges s ranges) j /\ overlap i (List.length p) j (List.length marker).
Proof.
  intros [Ho Hc Ht He] Hp Hlen Hfound Hocc.
  assert (Hn : (0 < List.length p)%nat) by (destruct p; [done|simpl; lia]).
  unfold replace_ranges in *. destruct ranges as [|r0 rs0].
  { destruct (Hfound i Hocc) as (m & Hm & _). destruct (Hc m Hm) as (r & Hr & _). by apply elem_of_nil in Hr. }
  set (ranges := r0 :: rs0) in *. destruct (adjust_spec ranges s Ho) as [Ao Ac Am Ah].
  destruct (markers_spec s) as [Mo Ms]. set (A := adjust ranges (markers_of s) []) in *.
  assert (Hne : forall a, a ∈ A -> nonempty a) by (intros a Ha; by apply (ordered_in _ _ _ Ao)).
  assert (Hends : forall a, a ∈ A -> (a.2 <= List.length s)%nat).
  { intros a Ha. assert (hidden A (a.2 - 1)) as Hh.
    { exists a. split; [done|]. specialize (Hne a Ha). unfold nonempty in Hne. lia. }
    specialize (Hne a Ha). unfold nonempty in Hne. destruct (Ah _ Hh) as [(r & Hr & ?)|(m & Hm & ?)].
    - destruct (He r Hr) as [_ (q & Hq & Eq)]. specialize (Hlen q Hq). lia.
    - destruct (Ms m Hm) as [Hm1 Hm2]. apply occurs_lookup in Hm1 as [Hm1 _]. lia. }
  apply occurs_lookup in Hocc as Hl. destruct Hl as [Hl Hk].
  destruct (mask_cases s 0 A i (List.length p) Ao ltac:(lia) Hends Hn Hl) as [|(pre & x & y & Hpc & Hi1 & Hi2)]; [done|].
  pose proof Hpc as [P1 P2 P3 P4 _ _]. set (u := (x + (i - pre))%nat).
  assert (Hs : occurs p s u).
  { apply occurs_lookup. split; [unfold u; lia|]. intros k Hkp. rewrite <- Hk by done.
    replace (i + k)%nat with (pre + (i - pre + k))%nat by lia. rewrite P1 by lia. f_equal. unfold u. lia. }
  destruct (Hfound u Hs) as (m & Hm & [M1 M2]). cbn [fst snd] in M1, M2. destruct (Hc m Hm) as (r & Hr & [R1 R2]).
  destruct (Ac r Hr) as [(mk & Hmk & [K1 K2])|(a & Ha & [A1 A2])].
  - (* inside a marker of the text, which is kept *)
    destruct (Ms mk Hmk) as [Mocc Mend].
    assert (Hap : forall a, a ∈ A -> apart a (mk.1, mk.2)).
    { intros a Ha. destruct (Am a mk Ha Hmk) as [[C1 C2]|]; [|done]. destruct (P4 a Ha); unfold u in *; lia. }
    apply occurs_lookup in Mocc as [Ml Mk].
    destruct (piece_holds _ _ _ _ _ _ mk.1 mk.2 Hpc) as [X1 X2]; try done; [lia|unfold u in *; lia..|].
    exists (pre + (mk.1 - x))%nat. split; [|unfold overlap, u in *; lia].
    apply occurs_lookup. split; [lia|]. intros k Hkm. rewrite <- Mk by done.
    rewrite <- Nat.add_assoc, P1 by lia. f_equal. lia.
  - destruct (P4 a Ha); unfold u in *; lia.
Qed.

(** A byte of a merged range is a byte of a match. *)
Lemma merged_hidden found ranges x : merged found ranges -> Forall nonempty found -> hidden ranges x -> hidden found x.
Proof.
  intros [Ho _ Ht He] Hne (r & Hr & Hx). destruct (decide (x = r.1)) as [->|].
  - destruct (He r Hr) as [(m & Hm & E) _]. exists m. split; [done|]. rewrite list.Forall_forall in Hne.
    specialize (Hne m Hm). unfold nonempty in Hne. lia.
  - destruct (Ht r x Hr ltac:(lia)) as (m & Hm & ?). exists m. split; [done|lia].
Qed.

(** Only ranges in order are replaced, and their bytes are those of a match or
    of a marker the text already had. *)
Lemma replace_ranges_keeps found ranges s : merged found ranges -> Forall nonempty found ->
  exists adjusted, replace_ranges s ranges = mask s 0 adjusted /\ ordered 0 adjusted /\
    (forall x, hidden adjusted x -> hidden found x \/ hidden (markers_of s) x) /\
    (forall m, m ∈ found -> (exists a, a ∈ adjusted /\ covers a m) \/ (exists k, k ∈ markers_of s /\ covers k m)).
Proof.
  intros Hm Hne. destruct ranges as [|r rs].
  - exists []. split; [done|]. split; [done|]. split; [intros x (a & Ha & _); by apply elem_of_nil in Ha|].
    intros m Hin. destruct (mg_covers _ _ Hm m Hin) as (r & Hr & _). by apply elem_of_nil in Hr.
  - destruct (adjust_spec (r :: rs) s (mg_ordered _ _ Hm)) as [Ao Ac _ Ah]. eexists. split; [done|]. split; [done|]. split.
    + intros x Hx. destruct (Ah x Hx); [left; by apply (merged_hidden _ (r :: rs))|by right].
    + intros m Hin. destruct (mg_covers _ _ Hm m Hin) as (q & Hq & [Q1 Q2]).
      destruct (Ac q Hq) as [(k & Hk & [K1 K2])|(a & Ha & [A1 A2])]; [right; exists k|left; exists a]; (split; [done|split; lia]).
Qed.

(** * Without the matcher *)

(** [s.find(p)] from byte [at_]. *)
Fixpoint find_at (p : list Z) (at_ : nat) (s : list Z) : option nat :=
  if is_prefix p s then Some at_ else match s with [] => None | _ :: s' => find_at p (S at_) s' end.

(** The earlier of two matches (start, length), the longer of two that start
    at the same byte. *)
Definition first_longest (a b : nat * nat) : nat * nat :=
  if ((b.1 <? a.1) || ((b.1 =? a.1) && (a.2 <? b.2)))%nat then b else a.

Definition next_match (patterns : list (list Z)) (text : list Z) (offset : nat) : option (nat * nat) :=
  fold_left (fun best p =>
    match find_at p offset (drop offset text) with
    | None => best
    | Some at_ =>
        Some match best with None => (at_, List.length p) | Some b => first_longest b (at_, List.length p) end
    end) patterns None.

(** The bytes of the character at [start]. *)
Definition char_len (text : list Z) (start : nat) : nat :=
  match utf8_next (drop start text) with Utf8_Char n => n | Utf8_Malformed _ => 1 end.

(** The loop of [fallback_ranges]; every round moves past a byte, so the bytes
    of the text are fuel enough. *)
Fixpoint fallback_loop (fuel : nat) (text : list Z) (patterns : list (list Z)) (offset : nat) (matches : Z)
    (ranges : list Range) : list Range :=
  match fuel with
  | O => ranges
  | S fuel' =>
      if (offset <? List.length text)%nat then
        match next_match patterns text offset with
        | None => ranges
        | Some (start, len) =>
            if matches =? MAX_SECRET_MATCHES then [(0%nat, List.length text)]
            else
              fallback_loop fuel' text patterns (start + char_len text start) (matches + 1)
                (push_adjusted (start, start + len)%nat ranges)
        end
      else ranges
  end.

Definition fallback_ranges (text : list Z) (patterns : list (list Z)) : list Range :=
  rev (fallback_loop (List.length text) text patterns 0 0 []).

Definition fallback_redact (text : list Z) (patterns : list (list Z)) : list Z :=
  replace_ranges text (fallback_ranges text patterns).

(** A pattern starts a character, as every non-empty [str] does. *)
Definition starts_char (p : list Z) : Prop := exists b rest, p = b :: rest /\ is_cont b = false.

Lemma find_at_spec p at_ s : match find_at p at_ s with
  | Some i => (at_ <= i)%nat /\ occurs p s (i - at_) /\ forall j, occurs p s j -> (i - at_ <= j)%nat
  | None => forall j, ~ occurs p s j
  end.
Proof.
  revert at_. induction s as [|b s IH]; intros at_; cbn [find_at].
  - destruct (is_prefix p []) eqn:E.
    + apply is_prefix_spec in E as [rest E]. split; [done|]. rewrite Nat.sub_diag. split; [by exists [], rest|lia].
    + intros j (pre & post & Hs & _). destruct pre; [|done]. assert (is_prefix p [] = true) by (apply is_prefix_spec; by exists post). congruence.
  - destruct (is_prefix p (b :: s)) eqn:E.
    + apply is_prefix_spec in E as [rest E]. split; [done|]. rewrite Nat.sub_diag. split; [by exists [], rest|lia].
    + assert (Hno : forall j, occurs p (b :: s) j -> exists j', j = S j' /\ occurs p s j').
      { intros j (pre & post & Hs & <-). destruct pre as [|c pre].
        - assert (is_prefix p (b :: s) = true) by (apply is_prefix_spec; by exists post). congruence.
        - exists (List.length pre). split; [done|]. injection Hs as <- ->. by exists pre, post. }
      specialize (IH (S at_)). destruct (find_at p (S at_) s) as [i|].
      * destruct IH as (H1 & (pre & post & -> & Hl) & H3). split; [lia|]. split.
        -- exists (b :: pre), post. split; [done|]. simpl. lia.
        -- intros j Hj. destruct (Hno j Hj) as (j' & -> & Hj'). specialize (H3 j' Hj'). lia.
      * intros j Hj. destruct (Hno j Hj) as (j' & -> & Hj'). by apply (IH j').
Qed.

Lemma occurs_drop p s n i : p <> [] -> occurs p (drop n s) i <-> occurs p s (n + i).
Proof.
  intros Hp. rewrite !occurs_lookup, length_drop. assert (0 < List.length p)%nat by (destruct p; [done|simpl; lia]). split.
  - intros [Hl Hk]. split; [lia|]. intros k Hkp. rewrite <- Hk by done. rewrite lookup_drop. f_equal. lia.
  - intros [Hl Hk]. split; [lia|]. intros k Hkp. rewrite lookup_drop. rewrite <- Hk by done. f_equal. lia.
Qed.

(** The best match of the patterns seen so far. *)
Definition best_of (ps : list (list Z)) (text : list Z) (offset : nat) (best : option (nat * nat)) : Prop :=
  match best with
  | None => forall p j, p ∈ ps -> (offset <= j)%nat -> ~ occurs p text j
  | Some (start, len) =>
      (exists p, p ∈ ps /\ occurs p text start /\ len = List.length p) /\ (offset <= start)%nat /\
      forall p j, p ∈ ps -> (offset <= j)%nat -> occurs p text j -> (start < j \/ (j = start /\ List.length p <= len))%nat
  end.

Lemma first_longest_cases a b :
  (first_longest a b = b /\ (b.1 < a.1 \/ (b.1 = a.1 /\ a.2 < b.2))%nat) \/
  (first_longest a b = a /\ (a.1 < b.1 \/ (a.1 = b.1 /\ b.2 <= a.2))%nat).
Proof.
  unfold first_longest.
  destruct (Nat.ltb_spec b.1 a.1), (Nat.eqb_spec b.1 a.1), (Nat.ltb_spec a.2 b.2); cbn [orb andb];
    first [left; split; [done|lia] | right; split; [done|lia]].
Qed.

Lemma next_match_best ps text offset : Forall (fun p => p <> []) ps -> best_of ps text offset (next_match ps text offset).
Proof.
  intros Hne. unfold next_match. set (step := fun _ _ => _).
  assert (Hgen : forall rest seen best, Forall (fun p => p <> []) rest -> best_of seen text offset best ->
    best_of (seen ++ rest) text offset (fold_left step rest best)).
  2:{ apply (Hgen ps [] None); [done|]. intros p j Hp. by apply elem_of_nil in Hp. }
  clear Hne. induction rest as [|p rest IH]; intros seen best Hne Hb; [by rewrite app_nil_r|]. cbn [fold_left].
  inversion Hne as [|? ? Hp Hne']. subst. replace (seen ++ p :: rest) with ((seen ++ [p]) ++ rest) by (by rewrite <- app_assoc).
  apply IH; [done|]. clear IH Hne Hne'. unfold step. pose proof (find_at_spec p offset (drop offset text)) as Hf.
  assert (Hsplit : forall q, q ∈ seen ++ [p] <-> q ∈ seen \/ q = p) by (intros q; by rewrite elem_of_app, list_elem_of_singleton).
  destruct (find_at p offset (drop offset text)) as [at_|].
  - destruct Hf as (F1 & F2 & F3). apply (occurs_drop p text offset _ Hp) in F2.
    replace (offset + (at_ - offset))%nat with at_ in F2 by lia.
    assert (F4 : forall j, (offset <= j)%nat -> occurs p text j -> (at_ <= j)%nat).
    { intros j Hj Ho. assert (occurs p (drop offset text) (j - offset)) as Hd.
      { apply (occurs_drop p text offset _ Hp). by replace (offset + (j - offset))%nat with j by lia. }
      specialize (F3 _ Hd). lia. }
    destruct best as [[start len]|]; cbn [best_of] in *.
    + destruct Hb as ((q & Hq & Hqo & Hql) & B2 & B3). 
      destruct (first_longest_cases (start, len) (at_, List.length p)) as [[-> E]|[-> E]]; cbn [fst snd] in E.
      * split; [exists p; rewrite Hsplit; auto|]. split; [done|]. intros r j Hr Hj Hro.
        apply Hsplit in Hr as [Hr| ->]; [|specialize (F4 j Hj Hro); lia]. specialize (B3 r j Hr Hj Hro). lia.
      * split; [exists q; rewrite Hsplit; auto|]. split; [done|]. intros r j Hr Hj Hro.
        apply Hsplit in Hr as [Hr| ->]; [by apply (B3 r)|]. specialize (F4 j Hj Hro). lia.
    + split; [exists p; rewrite Hsplit; auto|]. split; [done|]. intros r j Hr Hj Hro.
      apply Hsplit in Hr as [Hr| ->]; [by destruct (Hb r j Hr Hj)|]. specialize (F4 j Hj Hro). lia.
  - assert (Hnone : forall j, (offset <= j)%nat -> ~ occurs p text j).
    { intros j Hj Ho. apply (Hf (j - offset)%nat). apply (occurs_drop p text offset _ Hp).
      by replace (offset + (j - offset))%nat with j by lia. }
    destruct best as [[start len]|]; cbn [best_of] in *.
    + destruct Hb as ((q & Hq & ?) & B2 & B3). split; [exists q; rewrite Hsplit; auto|]. split; [done|].
      intros r j Hr Hj Hro. apply Hsplit in Hr as [Hr| ->]; [by apply (B3 r)|by destruct (Hnone j)].
    + intros r j Hr Hj. apply Hsplit in Hr as [Hr| ->]; [by apply Hb|by apply Hnone].
Qed.

Lemma second_of_three_cont b c : second_of_three b c = true -> is_cont c = true.
Proof.
  unfold second_of_three, is_cont, between. repeat case_match; rewrite !andb_true_iff, !Z.leb_le; lia.
Qed.

Lemma second_of_four_cont b c : second_of_four b c = true -> is_cont c = true.
Proof.
  unfold second_of_four, is_cont, between. repeat case_match; rewrite !andb_true_iff, !Z.leb_le; lia.
Qed.

(** The bytes of a character after the first are continuation bytes. *)
Lemma utf8_char_cont bs n k : utf8_next bs = Utf8_Char n -> (0 < k < n)%nat -> is_cont (byte_at bs k) = true.
Proof.
  unfold utf8_next. intros H Hk.
  repeat match type of H with (if ?b then _ else _) = _ => destruct b eqn:? end;
    try (injection H as <-); try done; rewrite ?negb_false_iff in *; try lia.
  - by assert (k = 1)%nat as -> by lia.
  - assert (k = 1 \/ k = 2)%nat as [->| ->] by lia; [by eapply second_of_three_cont|done].
  - assert (k = 1 \/ k = 2 \/ k = 3)%nat as [->|[->| ->]] by lia; [by eapply second_of_four_cont|done..].
Qed.

Lemma char_len_pos text start : (1 <= char_len text start)%nat.
Proof.
  unfold char_len. destruct (utf8_next_len (drop start text)) as (n & Hn & [->| ->]); lia.
Qed.

(** No pattern starts inside a character. *)
Lemma starts_char_boundary p text start j : starts_char p -> occurs p text j -> (start < j)%nat ->
  (start + char_len text start <= j)%nat.
Proof.
  intros (b & rest & -> & Hb) Ho Hj. destruct (le_lt_dec (start + char_len text start) j) as [|Hlt]; [done|exfalso].
  unfold char_len in Hlt. destruct (utf8_next (drop start text)) as [n|n] eqn:E; [|lia].
  pose proof (utf8_char_cont _ _ (j - start) E ltac:(lia)) as Hc. apply occurs_lookup in Ho as [_ Ho].
  specialize (Ho 0%nat ltac:(simpl; lia)). rewrite Nat.add_0_r in Ho. simpl in Ho.
  unfold byte_at in Hc. rewrite lookup_drop in Hc. replace (start + (j - start))%nat with j in Hc by lia.
  rewrite Ho in Hc. simpl in Hc. change (id b) with b in Hc. congruence.
Qed.

(** What holds of the list after the matches [chosen], which start at or
    before [lo]. *)
Record starting (chosen ranges : list Range) (lo : nat) : Prop := {
  st_ordered : exists hi, ordered_rev hi ranges;
  st_covers m : m ∈ chosen -> exists r, r ∈ ranges /\ covers r m;
  st_tight r x : r ∈ ranges -> (r.1 < x < r.2)%nat -> interior chosen x;
  st_ends r : r ∈ ranges -> (exists m, m ∈ chosen /\ m.1 = r.1) /\ (exists m, m ∈ chosen /\ m.2 = r.2);
  st_start r : r ∈ ranges -> (r.1 <= lo)%nat;
}.

Lemma starting_merged chosen ranges lo : starting chosen ranges lo -> merged chosen (rev ranges).
Proof. intros [[hi Ho] Hc Ht He _]. by apply (merging_merged _ _ hi). Qed.

Lemma push_starting chosen ranges lo m : starting chosen ranges lo -> (lo <= m.1)%nat -> nonempty m ->
  starting (chosen ++ [m]) (push_adjusted m ranges) m.1.
Proof.
  intros [[hi Ho] Hc Ht He Hs] Hlo Hm. unfold nonempty in *.
  destruct (push_adjusted_spec hi ranges m Ho Hm) as (l & rest & -> & [L1 L2] & Hkeep & Hrest & Hol & Hl1 & Hbelow & Hl).
  { destruct ranges as [|r rs]; [done|]. intros _. specialize (Hs r ltac:(by apply elem_of_cons; left)). lia. }
  assert (Hin : forall q, q ∈ chosen -> q ∈ chosen ++ [m]) by (intros q Hq; apply elem_of_app; by left).
  assert (Hlast : m ∈ chosen ++ [m]) by (apply elem_of_app; right; by apply list_elem_of_singleton).
  assert (Hl0 : l ∈ l :: rest) by (by apply elem_of_cons; left).
  split.
  - by exists l.2.
  - intros q Hq. apply elem_of_app in Hq as [Hq|Hq%list_elem_of_singleton].
    + destruct (Hc q Hq) as (r & Hr & [C1 C2]). destruct (Hkeep r Hr) as [Hr'|[C3 C4]].
      * exists r. split; [by apply elem_of_cons; right|done].
      * exists l. split; [done|]. split; lia.
    + subst q. exists l. split; [done|]. split; lia.
  - intros r x Hr Hx. apply elem_of_cons in Hr as [->|Hr].
    + destruct Hl as [->|(q & Hq & E1 & Hlt & E2 & _)]; [by exists m|].
      destruct (le_lt_dec q.2 x) as [Hqx|Hqx]; [exists m; split; [done|lia]|].
      apply (interior_mono chosen); [done|]. apply (Ht q); [done|lia].
    + apply (interior_mono chosen); [done|]. apply (Ht r); [by apply Hrest|done].
  - intros r Hr. apply elem_of_cons in Hr as [->|Hr].
    + destruct Hl as [->|(q & Hq & E1 & Hlt & E2 & _)]; [split; by exists m|].
      destruct (He q Hq) as [(a & Ha & Ea) (b & Hb & Eb)]. split.
      * exists a. split; [by apply Hin|congruence].
      * destruct (Nat.max_spec q.2 m.2) as [[? E]|[? E]]; rewrite E in E2; [by exists m|exists b; split; [by apply Hin|congruence]].
    + destruct (He r (Hrest r Hr)) as [(a & Ha & ?) (b & Hb & ?)]. split; [exists a|exists b]; split; auto.
  - intros r Hr. apply elem_of_cons in Hr as [->|Hr]; [lia|]. specialize (Hs r (Hrest r Hr)). lia.
Qed.

(** The matches behind a merged list hold every occurrence of the patterns. *)
Definition complete (ps : list (list Z)) (text : list Z) (found : list Range) : Prop :=
  forall p i, p ∈ ps -> occurs p text i -> exists m, m ∈ found /\ covers m (i, i + List.length p)%nat.

Definition within (text : list Z) (found : list Range) : Prop :=
  Forall (fun m => nonempty m /\ (m.2 <= List.length text)%nat) found.

Lemma fallback_loop_spec ps text fuel offset matches chosen ranges lo :
  Forall starts_char ps -> (List.length text - offset <= fuel)%nat -> starting chosen ranges lo -> (lo <= offset)%nat ->
  within text chosen ->
  (forall p j, p ∈ ps -> (j < offset)%nat -> occurs p text j -> exists m, m ∈ chosen /\ covers m (j, j + List.length p)%nat) ->
  exists found, merged found (rev (fallback_loop fuel text ps offset matches ranges)) /\ within text found /\ complete ps text found.
Proof.
  intros Hps. assert (Hne : Forall (fun p => p <> []) ps).
  { eapply list.Forall_impl; [exact Hps|]. by intros p (b & rest & -> & _). }
  revert offset matches chosen ranges lo. induction fuel as [|fuel IH]; intros offset matches chosen ranges lo Hf Hs Hlo Hw Hcov;
    cbn [fallback_loop].
  { exists chosen. split; [by eapply starting_merged|]. split; [done|]. intros p i Hp Ho.
    apply (Hcov p i Hp); [|done]. apply occurs_lookup in Ho as [Ho _].
    rewrite list.Forall_forall in Hps. destruct (Hps p Hp) as (b & rest & -> & _). simpl in Ho. lia. }
  destruct (Nat.ltb_spec offset (List.length text)) as [Hlt|Hge].
  2:{ exists chosen. split; [by eapply starting_merged|]. split; [done|]. intros p i Hp Ho.
      apply (Hcov p i Hp); [|done]. apply occurs_lookup in Ho as [Ho _].
      rewrite list.Forall_forall in Hps. destruct (Hps p Hp) as (b & rest & -> & _). simpl in Ho. lia. }
  pose proof (next_match_best ps text offset Hne) as Hb. destruct (next_match ps text offset) as [[start len]|]; cbn [best_of] in Hb.
  - destruct Hb as ((p & Hp & Hpo & ->) & B2 & B3). destruct (matches =? MAX_SECRET_MATCHES).
    { exists [(0, List.length text)%nat]. assert (nonempty (0, List.length text)%nat) as Hn by (unfold nonempty; simpl; lia).
      split; [split|split].
      - simpl. split; [lia|]. by split.
      - intros m Hm. exists m. split; [done|]. split; lia.
      - intros r x Hr Hx. by exists r.
      - intros r Hr. split; by exists r.
      - constructor; [by split|constructor].
      - intros q i Hq Ho. apply occurs_lookup in Ho as [Ho _]. eexists. split; [by apply list_elem_of_singleton|].
        split; simpl; lia. }
    apply occurs_lookup in Hpo as Hl. destruct Hl as [Hl _].
    assert (0 < List.length p)%nat as Hp0.
    { rewrite list.Forall_forall in Hps. destruct (Hps p Hp) as (b & rest & -> & _). simpl. lia. }
    pose proof (char_len_pos text start) as Hcl.
    apply (IH _ _ (chosen ++ [(start, start + List.length p)%nat]) _ start); [lia| |lia| |].
    + apply (push_starting _ _ lo); [done|simpl; lia|unfold nonempty; simpl; lia].
    + apply Forall_app. split; [done|]. constructor; [|constructor]. unfold nonempty. simpl. lia.
    + intros q j Hq Hj Hqo. destruct (le_lt_dec offset j) as [Hoj|Hoj].
      * destruct (B3 q j Hq Hoj Hqo) as [Hsj|[-> Hlen]].
        { rewrite list.Forall_forall in Hps. pose proof (starts_char_boundary q text start j (Hps q Hq) Hqo Hsj). lia. }
        eexists. split; [apply elem_of_app; right; by apply list_elem_of_singleton|]. split; simpl; lia.
      * destruct (Hcov q j Hq Hoj Hqo) as (m & Hm & ?). exists m. split; [apply elem_of_app; by left|done].
  - exists chosen. split; [by eapply starting_merged|]. split; [done|]. intros p i Hp Ho.
    destruct (le_lt_dec offset i) as [Hoi|Hoi]; [by destruct (Hb p i Hp Hoi)|by apply (Hcov p i)].
Qed.

Lemma fallback_ranges_spec ps text : Forall starts_char ps ->
  exists found, merged found (fallback_ranges text ps) /\ within text found /\ complete ps text found.
Proof.
  intros Hps. apply (fallback_loop_spec ps text _ 0 0 [] [] 0); try done; try lia.
  - split; [by exists 0%nat|..]; try (intros; exfalso; by eapply not_elem_of_nil).
  - constructor.
Qed.
