(* ===== verification/Redactor.v ===== *)
(** The redactor of one execution (crates/anvil-engine/src/redact.rs,
    [Redactor]): the secret values it knows with the forms they may take, the
    names it treats as sensitive, and what it makes of a text, a URL and a
    header. The multi-pattern matcher and the encoders (crates aho_corasick,
    hex, percent_encoding, url, serde_json) are the operations of a class with
    their documented laws. *)
From Stdlib Require Import ZArith Lia Ascii String Sorted.
From stdpp Require Import base numbers strings pretty option list sorting.
From S2P Require Import Prelude Text Bytes Utf8 Secret Redaction.
Open Scope string_scope.
Open Scope list_scope.
Open Scope Z_scope.

(** * Names *)

Definition SENSITIVE_HEADERS : list string :=
  ["authorization"; "proxy-authorization"; "cookie"; "set-cookie"; "x-api-key"; "api-key"; "apikey"; "x-auth-token";
   "x-access-token"; "x-amz-security-token"; "x-csrf-token"; "dpop"; "x-functions-key"; "ocp-apim-subscription-key"].

Definition SENSITIVE_NAME_PARTS : list string :=
  ["password"; "passwd"; "secret"; "token"; "apikey"; "api_key"; "api-key"; "access_key"; "private_key"; "signature";
   "sig"; "session"; "credential"; "auth"].

Definition URL_HEADERS : list string := ["location"; "content-location"; "referer"].

Definition is_sensitive_name (name : string) (extra : list string) : bool :=
  let n := to_ascii_lowercase name in
  if existsb (String.eqb n) SENSITIVE_HEADERS || existsb (fun e => eq_ignore_ascii_case e n) extra then true
  else existsb (fun p => String.eqb n p || (str_contains n p && (str_len n <=? 48))) SENSITIVE_NAME_PARTS.

Definition is_credential_name (name : string) (extra : list string) : bool :=
  let n := to_ascii_lowercase name in
  existsb (String.eqb n) SENSITIVE_HEADERS || existsb (fun e => eq_ignore_ascii_case e n) extra
  || existsb (fun p => str_contains n p) SENSITIVE_NAME_PARTS || ends_with n "-key" || ends_with n "_key".

(** * What the redactor calls *)

Definition lower_byte (b : Z) : Z := if (65 <=? b) && (b <=? 90) then b + 32 else b.

(** A text as it is compared: ASCII case folded when [ci]. *)
Definition folded (ci : bool) (bs : list Z) : list Z := if ci then map lower_byte bs else bs.

Class Libraries := {
  ac_build : bool -> list string -> bool;
  ac_find : bool -> list string -> list Z -> list Range;
  hex_encode_str : string -> string;
  utf8_percent_encode : string -> string;
  byte_serialize : string -> string;
  json_to_string : string -> option string;
  percent_decode : list Z -> list Z;
}.

(** A text that starts with a character, as every non-empty [str] does. *)
Definition is_text (s : string) : Prop := starts_char (bytes_of_string s).

(** [p] is at byte [i] of [s], ASCII case ignored when [ci]. *)
Definition occurs_as (ci : bool) (p s : list Z) (i : nat) : Prop := exists q, folded ci q = folded ci p /\ occurs q s i.

(** The matcher gives every occurrence of a pattern, overlapping ones too, in
    the order of their ends; the encoders make non-empty text of non-empty
    text, and a JSON string is quoted. *)
Class LibraryLaws `{Libraries} := {
  ac_find_spec ci ps s m : ac_build ci ps = true -> Forall is_text ps ->
    m ∈ ac_find ci ps s <-> exists p, p ∈ ps /\ occurs_as ci (bytes_of_string p) s m.1 /\
      m.2 = (m.1 + String.length p)%nat;
  ac_find_order ci ps s : end_order (ac_find ci ps s);
  hex_encode_text s : is_text s -> is_text (hex_encode_str s);
  utf8_percent_encode_text s : is_text s -> is_text (utf8_percent_encode s);
  byte_serialize_text s : is_text s -> is_text (byte_serialize s);
  json_to_string_text s q : is_text s -> json_to_string s = Some q ->
    exists inner, q = String "034" (inner +:+ String "034" "") /\ is_text inner;
}.

(** Percent-decoding changes nothing but escapes. *)
Class DecodeLaws `{Libraries} := {
  percent_decode_plain bs : 37 ∉ bs -> percent_decode bs = bs;
}.

(** * The redactor *)

Definition MIN_SECRET_LEN : Z := 4.
Definition MAX_DECODE_ROUNDS : nat := 3.

(** An automaton is known by the patterns it was built for. *)
Record Redactor := mkRedactor {
  rr_secrets : list string;
  rr_matcher : option (list string);
  rr_any_case : option (list string);
  rr_any_case_fallback : list string;
  rr_fallback_patterns : list string;
  rr_extra_names : list string;
}.

#[export] Instance eta_Redactor : Eta Redactor := fun r =>
  mkRedactor (rr_secrets r) (rr_matcher r) (rr_any_case r) (rr_any_case_fallback r) (rr_fallback_patterns r) (rr_extra_names r).

Definition Redactor_default : Redactor := mkRedactor [] None None [] [] [].

(** The order of [sort_longest_first]. *)
Definition longest_first (a b : string) : Prop :=
  str_len b < str_len a \/ (str_len a = str_len b /\ String.leb a b = true).

#[export] Instance longest_first_dec a b : Decision (longest_first a b).
Proof. unfold longest_first. apply _. Defined.

(** [Vec::dedup]. *)
Fixpoint dedup (l : list string) : list string :=
  match l with
  | a :: (b :: _) as l' => if String.eqb a b then dedup l' else a :: dedup l'
  | _ => l
  end.

Definition sort_longest_first (v : list string) : list string := dedup (merge_sort longest_first v).

(** The loop of [lower_hex]: [left] characters of an escape are to come. *)
Fixpoint lower_escapes (left : nat) (s : string) : string :=
  match s with
  | "" => ""
  | String c s' =>
      match left with
      | S left' => String (ascii_lower c) (lower_escapes left' s')
      | O => String c (lower_escapes (if Ascii.eqb c "%" then 2 else 0) s')
      end
  end.

Section Redacting.
Context `{Libraries}.

Definition encoded_forms (s : string) : list string :=
  let upper := utf8_percent_encode s in
  filter (fun f => f <> s) [upper; lower_escapes 0 upper; byte_serialize s].

Definition json_escaped (s : string) : option string :=
  quoted ← json_to_string s;
  let inner := str_take (String.length quoted - 2) (str_drop 1 quoted) in
  if String.eqb inner s then None else Some inner.

(** The patterns of one secret. *)
Definition pattern_forms (s : string) : list string :=
  s :: hex_encode_str s :: encoded_forms s ++ option_list (json_escaped s).

(** [Redactor::reindex]. *)
Definition reindex (r : Redactor) : Redactor :=
  let secrets := sort_longest_first (rr_secrets r) in
  let patterns := sort_longest_first (concat (map pattern_forms secrets)) in
  let build ci := match patterns with [] => None | _ => if ac_build ci patterns then Some patterns else None end in
  r <| rr_secrets := secrets |>
    <| rr_any_case := build true |>
    <| rr_any_case_fallback := match build true with None => map to_ascii_lowercase patterns | Some _ => [] end |>
    <| rr_matcher := build false |>
    <| rr_fallback_patterns := match build false with None => patterns | Some _ => [] end |>.

(** [Redactor::new]. *)
Definition Redactor_new (secrets extra_names : list string) : Redactor :=
  reindex (mkRedactor (filter (fun s => MIN_SECRET_LEN <= str_len s) secrets) None None [] [] extra_names).

Definition add_names (names : list string) (r : Redactor) : Redactor :=
  fold_left (fun r n =>
    if existsb (fun x => eq_ignore_ascii_case x n) (rr_extra_names r) then r
    else r <| rr_extra_names ::= (fun l => l ++ [n]) |>) names r.

(** New secrets are appended, and the patterns built again when there was
    one. *)
Definition take_in (keep : string -> bool) (secrets : list string) (r : Redactor) : Redactor :=
  let all := fold_left (fun l s => if keep s && negb (bool_decide (s ∈ l)) then l ++ [s] else l) secrets (rr_secrets r) in
  if (List.length all =? List.length (rr_secrets r))%nat then r else reindex (r <| rr_secrets := all |>).

(** [Redactor::refresh_used_secrets], with what the resolver has seen. *)
Definition refresh_used_secrets (used decoded names : list string) (r : Redactor) : Redactor :=
  add_names names (take_in (fun s => MIN_SECRET_LEN <=? str_len s) (used ++ decoded) r).

(** [Redactor::absorb]. *)
Definition absorb_redactor (other r : Redactor) : Redactor :=
  add_names (rr_extra_names other) (take_in (fun _ => true) (rr_secrets other) r).

(** [Redactor::add_secret]. *)
Definition add_secret (s : string) (r : Redactor) : Redactor :=
  if (MIN_SECRET_LEN <=? str_len s) && negb (bool_decide (s ∈ rr_secrets r))
  then reindex (r <| rr_secrets ::= (fun l => l ++ [s]) |>) else r.

(** * Text *)

(** [Redactor::text]. *)
Definition text (r : Redactor) (s : string) : string :=
  let bs := bytes_of_string s in
  match rr_matcher r with
  | Some ps => string_of_bytes (replace_matches (ac_find false ps bs) bs)
  | None =>
      match rr_fallback_patterns r with
      | [] => s
      | ps => string_of_bytes (fallback_redact bs (map bytes_of_string ps))
      end
  end.

(** [Redactor::text_any_case]. *)
Definition text_any_case (r : Redactor) (s : string) : string :=
  let bs := bytes_of_string s in
  match rr_any_case r with
  | Some ps => string_of_bytes (replace_matches (ac_find true ps bs) bs)
  | None =>
      match rr_any_case_fallback r with
      | [] => s
      | ps => string_of_bytes (replace_ranges bs
          (fallback_ranges (bytes_of_string (to_ascii_lowercase s)) (map bytes_of_string ps)))
      end
  end.

(** [contains_bytes]: ASCII case ignored. *)
Fixpoint contains_folded (hay needle : list Z) : bool :=
  is_prefix needle hay || match hay with [] => false | _ :: hay' => contains_folded hay' needle end.

Definition contains_bytes (hay needle : list Z) : bool :=
  negb (bool_decide (needle = [])) && contains_folded (map lower_byte hay) (map lower_byte needle).

Definition holds_secret (r : Redactor) (layer : list Z) : bool :=
  existsb (fun s => contains_bytes layer (bytes_of_string s)) (rr_secrets r).

Definition plus_as_space (bs : list Z) : list Z := map (fun b => if b =? 43 then 32 else b) bs.

Definition has_escapes (s : string) : bool := existsb (fun b => (b =? 37) || (b =? 43)) (bytes_of_string s).

(** The rounds of [hides_secret]. *)
Fixpoint hides_in (rounds : nat) (r : Redactor) (layer : list Z) : bool :=
  match rounds with
  | O => false
  | S rounds' =>
      let decoded := percent_decode layer in
      let form := percent_decode (plus_as_space layer) in
      if existsb (fun s => contains_bytes decoded (bytes_of_string s) || contains_bytes form (bytes_of_string s)) (rr_secrets r)
      then true
      else if bool_decide (decoded = layer) then false
      else hides_in rounds' r decoded
  end.

(** [Redactor::hides_secret]. *)
Definition hides_secret (r : Redactor) (component : string) : bool :=
  match rr_secrets r with
  | [] => false
  | _ => if has_escapes component then hides_in MAX_DECODE_ROUNDS r (bytes_of_string component) else false
  end.

(** The layers decoded from [layers], each once. *)
Definition next_layers (layers : list (list Z)) : list (list Z) :=
  fold_left (fun next d => if bool_decide (d ∈ next) then next else next ++ [d])
    (concat (map (fun l => [percent_decode l; percent_decode (plus_as_space l)]) layers)) [].

(** The rounds of [reveals_secret]. *)
Fixpoint reveals_in (rounds : nat) (r : Redactor) (layers : list (list Z)) : bool :=
  if existsb (holds_secret r) layers then true
  else match rounds with
  | O => false
  | S rounds' => reveals_in rounds' r (next_layers layers)
  end.

(** [Redactor::reveals_secret]. *)
Definition reveals_secret (r : Redactor) (s : string) : bool :=
  match rr_secrets r with
  | [] => false
  | _ =>
      if negb (has_escapes s) then holds_secret r (bytes_of_string s)
      else reveals_in MAX_DECODE_ROUNDS r [bytes_of_string s]
  end.

(** [Redactor::metadata_text]. *)
Definition metadata_text (r : Redactor) (s : string) : string := if hides_secret r s then REDACTED else text_any_case r s.

End Redacting.

(** * What the redactor knows *)

Lemma dedup_in x l : x ∈ dedup l <-> x ∈ l.
Proof.
  induction l as [|a [|b l] IH]; [done|done|]. cbn [dedup] in *. destruct (String.eqb_spec a b) as [->|].
  - rewrite IH, !elem_of_cons. tauto.
  - rewrite !(elem_of_cons _ _ a), IH. done.
Qed.

Lemma sort_longest_first_in x l : x ∈ sort_longest_first l <-> x ∈ l.
Proof. unfold sort_longest_first. by rewrite dedup_in, merge_sort_Permutation. Qed.

Lemma lower_byte_ok b : is_u8 b -> is_u8 (lower_byte b).
Proof. unfold lower_byte, in_width. case_match; lia. Qed.

Lemma folded_length ci p q : folded ci q = folded ci p -> List.length q = List.length p.
Proof. unfold folded. destruct ci; [|congruence]. intros E. apply (f_equal (@List.length Z)) in E. by rewrite !length_map in E. Qed.

Lemma is_text_cons s : is_text s <-> exists c rest, s = String c rest /\ is_cont (byte_of_ascii c) = false.
Proof.
  unfold is_text, starts_char. split.
  - intros (b & rest & E & Hb). destruct s as [|c s]; [done|]. injection E as <- _. by exists c, s.
  - intros (c & rest & -> & Hc). by exists (byte_of_ascii c), (bytes_of_string rest).
Qed.

Lemma is_text_length s : is_text s -> (0 < String.length s)%nat.
Proof. intros (c & rest & -> & _)%is_text_cons. simpl. lia. Qed.

Lemma bytes_of_lowercase s : bytes_of_string (to_ascii_lowercase s) = map lower_byte (bytes_of_string s).
Proof.
  induction s as [|c s IH]; [done|]. unfold bytes_of_string in *. simpl. f_equal; [|done].
  unfold byte_of_ascii, ascii_lower, lower_byte, byte_of. by destruct c as [[] [] [] [] [] [] [] []].
Qed.

Lemma lower_is_text s : is_text s -> is_text (to_ascii_lowercase s).
Proof.
  intros (c & rest & -> & Hc)%is_text_cons. apply is_text_cons. simpl. eexists _, _. split; [done|].
  revert Hc. by destruct c as [[] [] [] [] [] [] [] []].
Qed.

Lemma lower_escapes_text s : is_text s -> is_text (lower_escapes 0 s).
Proof. intros (c & rest & -> & Hc)%is_text_cons. apply is_text_cons. simpl. by eexists _, _. Qed.

Section Knowing.
Context `{LibraryLaws}.

Lemma pattern_forms_text s : is_text s -> Forall is_text (pattern_forms s).
Proof.
  intros Hs. unfold pattern_forms, encoded_forms. constructor; [done|]. constructor; [by apply hex_encode_text|].
  apply Forall_app. split.
  - apply list.Forall_forall. intros f [_ Hf]%list_elem_of_filter. revert f Hf. apply list.Forall_forall.
    pose proof (utf8_percent_encode_text s Hs). repeat constructor; [done|by apply lower_escapes_text|by apply byte_serialize_text].
  - unfold json_escaped. destruct (json_to_string s) as [q|] eqn:E; [|constructor]. simpl.
    destruct (json_to_string_text s q Hs E) as (inner & -> & Hi). case_match; [constructor|]. simpl.
    constructor; [|constructor]. assert (str_take (String.length (inner +:+ String "034" "") - 1) (inner +:+ String "034" "") = inner) as Hin.
    { rewrite str_length_app. simpl. replace (String.length inner + 1 - 1)%nat with (String.length inner) by lia.
      clear. induction inner as [|c inner IH]; [done|]. rewrite str_app_cons. simpl. by rewrite IH. }
    simpl in Hin. destruct (String.length (inner +:+ String "034" "")) eqn:El; [by destruct inner|]. simpl in *. by rewrite Hin.
Qed.

(** The patterns of the secrets of a redactor. *)
Definition patterns (r : Redactor) : list string := sort_longest_first (concat (map pattern_forms (rr_secrets r))).

(** The matchers are those of the patterns of its secrets. *)
Definition indexed (r : Redactor) : Prop := exists raw names, r = reindex (mkRedactor raw None None [] [] names).

Lemma reindex_indexed r : indexed (reindex r).
Proof. by exists (rr_secrets r), (rr_extra_names r). Qed.

Lemma default_indexed : indexed Redactor_default.
Proof. by exists [], []. Qed.

Lemma add_names_secrets names r : rr_secrets (add_names names r) = rr_secrets r.
Proof.
  unfold add_names. revert r. induction names as [|n names IH]; intros r; simpl; [done|]. rewrite IH. by destruct (existsb _ _).
Qed.

Lemma add_names_indexed names r : indexed r -> indexed (add_names names r).
Proof.
  unfold add_names. revert r. induction names as [|n names IH]; intros r Hr; simpl; [done|]. apply IH.
  destruct (existsb _ _); [done|]. destruct Hr as (raw & l & ->). by exists raw, (l ++ [n]).
Qed.

Lemma take_in_indexed keep secrets r : indexed r -> indexed (take_in keep secrets r).
Proof. intros Hr. unfold take_in. case_match; [done|]. apply reindex_indexed. Qed.

Lemma take_in_secrets keep secrets r x : x ∈ rr_secrets (take_in keep secrets r) <->
  x ∈ rr_secrets r \/ (x ∈ secrets /\ keep x = true).
Proof.
  unfold take_in. set (step := fun l s => _).
  assert (Hstep : forall secrets l, (forall x, x ∈ fold_left step secrets l <-> x ∈ l \/ (x ∈ secrets /\ keep x = true)) /\
    exists new, fold_left step secrets l = l ++ new).
  { clear. induction secrets as [|s secrets IH]; intros l; simpl.
    - split; [|exists []; by rewrite app_nil_r]. intros x. rewrite elem_of_nil. tauto.
    - destruct (IH (step l s)) as [H1 [new H2]]. unfold step in *.
      destruct (keep s) eqn:Ek; cbn [andb] in *; [destruct (bool_decide_reflect (s ∈ l)) as [Hin|Hin]; cbn [negb] in *|].
      + split; [|by exists new]. intros x. rewrite H1, elem_of_cons. naive_solver.
      + split; [|exists (s :: new); by rewrite H2, <- app_assoc]. intros x. rewrite H1, elem_of_app, list_elem_of_singleton, elem_of_cons. naive_solver.
      + split; [|by exists new]. intros x. rewrite H1, elem_of_cons. naive_solver congruence. }
  destruct (Hstep secrets (rr_secrets r)) as [H1 [new H2]]. case_match eqn:El.
  - apply Nat.eqb_eq in El. rewrite H2, length_app in El. assert (new = []) as -> by (destruct new; [done|simpl in El; lia]).
    rewrite app_nil_r in H2. rewrite <- H1, H2. done.
  - simpl. rewrite sort_longest_first_in. apply H1.
Qed.

Lemma add_secret_secrets s r x : x ∈ rr_secrets (add_secret s r) <->
  x ∈ rr_secrets r \/ (x = s /\ MIN_SECRET_LEN <= str_len s).
Proof.
  unfold add_secret. destruct (Z.leb_spec MIN_SECRET_LEN (str_len s)) as [Hl|Hl]; cbn [andb]; [|split; [by left|intros [|[_ ?]]; [done|lia]]].
  destruct (bool_decide_reflect (s ∈ rr_secrets r)) as [Hin|Hin]; cbn [negb].
  - split; [by left|]. by intros [|[-> _]].
  - simpl. rewrite sort_longest_first_in, elem_of_app, list_elem_of_singleton. naive_solver.
Qed.

(** A redactor made by any sequence of its operations, and the secrets it was
    given. *)
Inductive built : Redactor -> list string -> Prop :=
  | Built_default : built Redactor_default []
  | Built_new secrets names : built (Redactor_new secrets names) secrets
  | Built_add_secret r given s : built r given -> built (add_secret s r) (given ++ [s])
  | Built_refresh r given used decoded names : built r given ->
      built (refresh_used_secrets used decoded names r) (given ++ used ++ decoded)
  | Built_absorb r given other given' : built r given -> built other given' ->
      built (absorb_redactor other r) (given ++ given').

(** It knows exactly the secrets given that are long enough, under the patterns
    it searches for. *)
Lemma built_knows r given : built r given ->
  indexed r /\ (forall s, s ∈ rr_secrets r <-> s ∈ given /\ MIN_SECRET_LEN <= str_len s).
Proof.
  intros Hb. induction Hb as [|secrets names|r given s _ [IH1 IH2]|r given used decoded names _ [IH1 IH2]|r given other given' _ [IH1 IH2] _ [IH3 IH4]].
  - split; [apply default_indexed|]. intros s. split; [by intros ?%elem_of_nil|by intros [?%elem_of_nil _]].
  - split; [apply reindex_indexed|]. intros s. unfold Redactor_new. simpl. rewrite sort_longest_first_in, list_elem_of_filter. tauto.
  - split; [unfold add_secret; case_match; [apply reindex_indexed|done]|]. intros x.
    rewrite add_secret_secrets, IH2, elem_of_app, list_elem_of_singleton. naive_solver.
  - split; [by apply add_names_indexed, take_in_indexed|]. intros x. unfold refresh_used_secrets.
    rewrite add_names_secrets, take_in_secrets, IH2, !elem_of_app. rewrite Z.leb_le. tauto.
  - split; [by apply add_names_indexed, take_in_indexed|]. intros x. unfold absorb_redactor.
    rewrite add_names_secrets, take_in_secrets, IH2, IH4, elem_of_app. tauto.
Qed.

(** * No known secret is shown *)

(** The texts the redactor makes of [s], ASCII case ignored when [ci]. *)
Definition shown (ci : bool) (r : Redactor) (s : string) : string := if ci then text_any_case r s else text r s.

(** Every occurrence of [p] in the bytes [bs] lies over a marker. *)
Definition only_marked (p bs : list Z) : Prop := forall i, occurs p bs i ->
  exists j, occurs marker bs j /\ overlap i (List.length p) j (List.length marker).

Lemma only_marked_marker p : p <> [] -> only_marked p marker.
Proof.
  intros Hp i Ho. exists 0%nat. split; [by exists [], []|]. apply occurs_lookup in Ho as [Ho _].
  assert (0 < List.length p)%nat by (destruct p; [done|simpl; lia]). unfold overlap. lia.
Qed.

(** A list of ranges that hides every occurrence of [q]. *)
Lemma replace_found_hides found ranges s q : merged found ranges -> within s found -> q <> [] ->
  (forall i, occurs q s i -> exists m, m ∈ found /\ covers m (i, i + List.length q)%nat) ->
  only_marked q (replace_ranges s ranges).
Proof.
  intros Hm Hw Hq Hc i. apply (replace_ranges_hides found); try done. intros m Hin. unfold within in Hw.
  rewrite list.Forall_forall in Hw. by apply Hw.
Qed.

(** What the matcher finds, merged: within the budget, nothing is missed. *)
Lemma replace_matches_hides ci ps s p q : ac_build ci ps = true -> Forall is_text ps -> p ∈ ps ->
  folded ci q = folded ci (bytes_of_string p) -> only_marked q (replace_matches (ac_find ci ps s) s).
Proof.
  intros Hb Hps Hp Hq. pose proof (folded_length _ _ _ Hq) as Hlen.
  assert (q <> []) as Hne.
  { rewrite list.Forall_forall in Hps. pose proof (Hps p Hp) as (c & rest & -> & _)%is_text_cons. by destruct q. }
  assert (Hw : within s (ac_find ci ps s)).
  { apply list.Forall_forall. intros m Hm. apply (ac_find_spec ci ps s m Hb Hps) in Hm as (p' & Hp' & (q' & Hq' & Ho) & E).
    apply occurs_lookup in Ho as [Ho _]. rewrite (folded_length _ _ _ Hq') in Ho.
    pose proof (bytes_of_string_length p') as Hl. unfold blen, str_len in Hl. rewrite list.Forall_forall in Hps.
    pose proof (is_text_length p' (Hps p' Hp')). unfold nonempty. lia. }
  unfold replace_matches. destruct (merge_matches (ac_find ci ps s)) as [ranges|] eqn:E; [|by apply only_marked_marker].
  apply (replace_found_hides (ac_find ci ps s)); try done.
  - apply merge_matches_merged; [|apply ac_find_order|done]. eapply list.Forall_impl; [exact Hw|]. by intros m [? _].
  - intros i Ho. exists (i, i + List.length q)%nat. split; [|by split; simpl].
    apply (ac_find_spec ci ps s _ Hb Hps). exists p. split; [done|]. split; [by exists q|].
    simpl. rewrite Hlen. pose proof (bytes_of_string_length p) as Hl. unfold blen, str_len in Hl. lia.
Qed.

(** Without the matcher, in the folded text. *)
Lemma fallback_hides ci ps s p q : Forall is_text ps -> p ∈ ps -> folded ci q = bytes_of_string p ->
  only_marked q (replace_ranges s (fallback_ranges (folded ci s) (map bytes_of_string ps))).
Proof.
  intros Hps Hp Hq. assert (Forall starts_char (map bytes_of_string ps)) as Hs by by apply Forall_map.
  destruct (fallback_ranges_spec (map bytes_of_string ps) (folded ci s) Hs) as (found & Hm & Hw & Hc).
  assert (Hlen : List.length (folded ci s) = List.length s) by (unfold folded; destruct ci; [apply length_map|done]).
  assert (Hlq : List.length (folded ci q) = List.length q) by (unfold folded; destruct ci; [apply length_map|done]).
  apply (replace_found_hides found); [done| | |].
  - eapply list.Forall_impl; [exact Hw|]. rewrite Hlen. done.
  - rewrite list.Forall_forall in Hps. pose proof (Hps p Hp) as (c & rest & -> & _)%is_text_cons. intros ->. by destruct ci.
  - intros i Ho. rewrite <- Hlq. apply Hc; [rewrite Hq; by apply list_elem_of_fmap_2|].
    apply occurs_lookup in Ho as [Ho1 Ho2]. apply occurs_lookup. rewrite Hlen, Hlq. split; [done|].
    intros k Hk. specialize (Ho2 k Hk). unfold folded. destruct ci; [|done]. 
    change (map lower_byte s) with (lower_byte <$> s). change (map lower_byte q) with (lower_byte <$> q).
    by rewrite !list_lookup_fmap, Ho2.
Qed.

Lemma replace_ranges_ok s ranges : bytes_ok s -> bytes_ok (replace_ranges s ranges).
Proof.
  intros Hs. unfold replace_ranges. destruct ranges as [|r0 rs0]; [done|]. generalize (adjust (r0 :: rs0) (markers_of s) []) as l, 0%nat as lo.
  intros l. induction l as [|r l IH]; intros lo; cbn [mask]; [by apply Forall_drop|].
  unfold bytes_ok. rewrite !Forall_app. split; [|split; [apply bytes_of_string_ok|apply IH]].
  unfold slice. by apply Forall_take, Forall_drop.
Qed.

Lemma replace_matches_ok found s : bytes_ok s -> bytes_ok (replace_matches found s).
Proof. intros Hs. unfold replace_matches. case_match; [by apply replace_ranges_ok|apply bytes_of_string_ok]. Qed.

Lemma indexed_patterns_text r given : built r given -> Forall is_text given -> Forall is_text (patterns r).
Proof.
  intros Hb Hg. destruct (built_knows r given Hb) as [_ Hk]. apply list.Forall_forall. intros p Hp.
  unfold patterns in Hp. rewrite sort_longest_first_in in Hp. apply list_elem_of_In, in_concat in Hp as (l & Hl & Hp).
  apply in_map_iff in Hl as (s & <- & Hs). rewrite <- list_elem_of_In in Hp, Hs. revert p Hp. apply list.Forall_forall, pattern_forms_text.
  rewrite list.Forall_forall in Hg. by apply Hg, Hk.
Qed.

(** The automata of a redactor, as its patterns decide. *)
Lemma indexed_matchers r : indexed r ->
  let built_for ci := match patterns r with [] => None | ps => if ac_build ci ps then Some ps else None end in
  rr_matcher r = built_for false /\ rr_any_case r = built_for true /\
  rr_fallback_patterns r = (if built_for false is Some _ then [] else patterns r) /\
  rr_any_case_fallback r = (if built_for true is Some _ then [] else map to_ascii_lowercase (patterns r)).
Proof.
  intros (raw & names & ->). unfold patterns, reindex. cbn [rr_secrets rr_matcher rr_any_case rr_fallback_patterns rr_any_case_fallback upd_field].
  destruct (sort_longest_first (concat (map pattern_forms (sort_longest_first raw)))) as [|p ps]; [done|].
  split; [done|]. split; [done|]. by destruct (ac_build false (p :: ps)), (ac_build true (p :: ps)).
Qed.

Lemma shown_hides ci r given s p q : built r given -> Forall is_text given -> p ∈ patterns r ->
  folded ci q = folded ci (bytes_of_string p) -> only_marked q (bytes_of_string (shown ci r s)).
Proof.
  intros Hb Hg Hp Hq. pose proof (indexed_patterns_text r given Hb Hg) as Hps.
  destruct (indexed_matchers r (proj1 (built_knows r given Hb))) as (E1 & E2 & E3 & E4).
  pose proof (bytes_of_string_ok s) as Hs.
  assert (Hne : exists p0 rest, patterns r = p0 :: rest).
  { destruct (patterns r) as [|p0 rest]; [by apply elem_of_nil in Hp|]. by exists p0, rest. }
  destruct Hne as (p0 & rest & Hne). rewrite Hne in *. cbn [map] in E1, E2, E3, E4. unfold shown. destruct ci.
  - unfold text_any_case. destruct (ac_build true (p0 :: rest)) eqn:Eb; rewrite E2, ?E4.
    + rewrite bytes_of_string_of by by apply replace_matches_ok. by apply (replace_matches_hides true (p0 :: rest) _ p).
    + rewrite bytes_of_string_of by by apply replace_ranges_ok. rewrite bytes_of_lowercase.
      apply (fallback_hides true (map to_ascii_lowercase (p0 :: rest)) _ (to_ascii_lowercase p)).
      * apply Forall_map. eapply list.Forall_impl; [exact Hps|]. apply lower_is_text.
      * by apply list_elem_of_fmap_2.
      * rewrite bytes_of_lowercase. exact Hq.
  - unfold text. destruct (ac_build false (p0 :: rest)) eqn:Eb; rewrite E1, ?E3.
    + rewrite bytes_of_string_of by by apply replace_matches_ok. by apply (replace_matches_hides false (p0 :: rest) _ p).
    + unfold fallback_redact. rewrite bytes_of_string_of by by apply replace_ranges_ok.
      by apply (fallback_hides false (p0 :: rest) _ p).
Qed.

Lemma pattern_of_secret r given secret form : built r given -> secret ∈ given -> MIN_SECRET_LEN <= str_len secret ->
  form ∈ pattern_forms secret -> form ∈ patterns r.
Proof.
  intros Hb Hs Hl Hf. destruct (built_knows r given Hb) as [_ Hk]. unfold patterns. rewrite sort_longest_first_in.
  apply list_elem_of_In, in_concat. exists (pattern_forms secret). split; [|by apply list_elem_of_In].
  apply in_map, list_elem_of_In. by apply Hk.
Qed.

(** Every occurrence of a known secret in [t], in any known form and letter
    case, lies over a marker. *)
Definition hides (given : list string) (t : string) : Prop :=
  forall secret form q, secret ∈ given -> MIN_SECRET_LEN <= str_len secret -> form ∈ pattern_forms secret ->
    folded true q = folded true (bytes_of_string form) -> only_marked q (bytes_of_string t).

Lemma text_hides given r s : built r given -> Forall is_text given -> hides given (text_any_case r s).
Proof.
  intros Hb Hg secret form q Hs Hl Hf Hq. change (text_any_case r s) with (shown true r s).
  apply (shown_hides true r given s form q Hb Hg); [|done]. by apply (pattern_of_secret r given secret).
Qed.

Lemma marker_hides given : Forall is_text given -> hides given REDACTED.
Proof.
  intros Hg secret form q Hs Hl Hf Hq. apply only_marked_marker. intros ->. apply folded_length in Hq.
  rewrite list.Forall_forall in Hg. pose proof (pattern_forms_text secret (Hg _ Hs)) as Ht. rewrite list.Forall_forall in Ht.
  destruct (Ht form Hf) as (b & rest & E & _). by rewrite E in Hq.
Qed.

Lemma metadata_hides given r s : built r given -> Forall is_text given -> hides given (metadata_text r s).
Proof. intros Hb Hg. unfold metadata_text. destruct (hides_secret r s); [by apply marker_hides|by apply text_hides]. Qed.

(** Every exact occurrence of a known form of a secret in [t] lies over a
    marker. *)
Definition hides_exact (given : list string) (t : string) : Prop :=
  forall secret form, secret ∈ given -> 4 <= str_len secret -> form ∈ pattern_forms secret -> only_marked (bytes_of_string form) (bytes_of_string t).

Lemma text_hides_exact given r s : built r given -> Forall is_text given -> hides_exact given (text r s).
Proof.
  intros Hb Hg secret form Hs Hl Hf. apply (shown_hides false r given s form _ Hb Hg); [|done]. by apply (pattern_of_secret r given secret).
Qed.

Lemma hides_hides_exact given t : hides given t -> hides_exact given t.
Proof. intros Hh secret form Hs Hl Hf. by apply (Hh secret form). Qed.

(** C35: a redactor, however it was put together, never shows a secret of four
    bytes or more that it was given: neither the value nor its hex, percent
    encodings, form encoding or JSON escape occurs in what [text] makes of any
    text ([ci = false]), nor in what [text_any_case] does in any letter case
    ([ci = true]), but over a redaction marker; with or without the
    multi-pattern matcher, and past its match budget. *)
Theorem known_secret_never_shown ci r given s secret form q i : built r given -> Forall is_text given ->
  secret ∈ given -> MIN_SECRET_LEN <= str_len secret -> form ∈ pattern_forms secret ->
  folded ci q = folded ci (bytes_of_string form) -> occurs q (bytes_of_string (shown ci r s)) i ->
  exists j, occurs marker (bytes_of_string (shown ci r s)) j /\ overlap i (List.length q) j (List.length marker).
Proof.
  intros Hb Hg Hs Hl Hf Hq Ho. apply (shown_hides ci r given s form q Hb Hg); [|done|done].
  by apply (pattern_of_secret r given secret).
Qed.

(** Redaction withholds nothing else. Within the budget of matches the
    result is the text with some ranges, in order, replaced by the marker, and
    every byte of them belongs to an occurrence of a secret's form, or to a
    marker the text already had. *)
Theorem text_withholds_only ci r given s : built r given -> Forall is_text given ->
  (patterns r <> [] -> ac_build ci (patterns r) = true) ->
  Z.of_nat (List.length (ac_find ci (patterns r) (bytes_of_string s))) <= MAX_SECRET_MATCHES ->
  let bs := bytes_of_string s in
  exists ranges, bytes_of_string (shown ci r s) = mask bs 0 ranges /\ ordered 0 ranges /\
    forall x, hidden ranges x ->
      (exists p i, p ∈ patterns r /\ occurs_as ci (bytes_of_string p) bs i /\ (i <= x < i + String.length p)%nat) \/
      hidden (markers_of bs) x.
Proof.
  intros Hb Hg Hbuild Hbudget bs. pose proof (indexed_patterns_text r given Hb Hg) as Hps.
  assert (Hshown : shown ci r s = match patterns r with
    | [] => s | ps => string_of_bytes (replace_matches (ac_find ci ps bs) bs) end).
  { destruct (indexed_matchers r (proj1 (built_knows r given Hb))) as (E1 & E2 & E3 & E4).
    unfold shown, text, text_any_case. rewrite E1, E2, E3, E4. destruct (patterns r) as [|p0 ps]; [by destruct ci|].
    specialize (Hbuild ltac:(done)). by destruct ci; cbv beta iota zeta; rewrite Hbuild. }
  rewrite Hshown. destruct (patterns r) as [|p0 ps] eqn:Ep.
  { exists []. split; [done|]. split; [done|]. intros x (a & Ha & _). by apply elem_of_nil in Ha. }
  rewrite <- Ep in *. specialize (Hbuild ltac:(congruence)). set (found := ac_find ci (patterns r) bs) in *.
  assert (Hsound : forall m, m ∈ found -> exists p, p ∈ patterns r /\ occurs_as ci (bytes_of_string p) bs m.1 /\
    m.2 = (m.1 + String.length p)%nat) by (intros m Hm; by apply (ac_find_spec ci _ bs m Hbuild Hps)).
  assert (Hne : Forall nonempty found).
  { apply list.Forall_forall. intros m Hm. destruct (Hsound m Hm) as (p & Hp & _ & E). rewrite list.Forall_forall in Hps.
    pose proof (is_text_length p (Hps p Hp)). unfold nonempty. lia. }
  rewrite bytes_of_string_of by (apply replace_matches_ok, bytes_of_string_ok).
  unfold replace_matches. destruct (merge_matches found) as [ranges|] eqn:Em.
  2:{ unfold merge_matches in Em. rewrite (proj2 (Z.ltb_ge _ _)) in Em; done. }
  pose proof (merge_matches_merged found ranges Hne (ac_find_order _ _ _) Em) as Hm.
  destruct (replace_ranges_keeps found ranges bs Hm Hne) as (A & -> & Ho & Hh & _).
  exists A. split; [done|]. split; [done|]. intros x Hx. destruct (Hh x Hx) as [(m & Hin & Hxm)|]; [left|by right].
  destruct (Hsound m Hin) as (p & Hp & Hocc & E). exists p, m.1. split; [done|]. split; [done|]. lia.
Qed.
End Knowing.

(** * Secrets behind escapes *)

Section Decoding.
Context `{Libraries}.

(** [layer] is what a reader finds in [bs] after undoing percent-encoding at
    most [n] times, a plus sign standing for itself or for a space each time. *)
Inductive reads_as : nat -> list Z -> list Z -> Prop :=
  | reads_plain n bs : reads_as n bs bs
  | reads_percent n bs layer : reads_as n (percent_decode bs) layer -> reads_as (S n) bs layer
  | reads_form n bs spaced layer : Forall2 (fun b b' => b' = if decide (b = 43) then 32 else b) bs spaced ->
      reads_as n (percent_decode spaced) layer -> reads_as (S n) bs layer.

(** Undone at least once; a plus sign is a space in the last layer only. *)
Inductive unescapes : nat -> list Z -> list Z -> Prop :=
  | unescapes_percent n bs : unescapes (S n) bs (percent_decode bs)
  | unescapes_form n bs spaced : Forall2 (fun b b' => b' = if decide (b = 43) then 32 else b) bs spaced ->
      unescapes (S n) bs (percent_decode spaced)
  | unescapes_again n bs layer : unescapes n (percent_decode bs) layer -> unescapes (S n) bs layer.

(** No secret of four bytes or more among [given] is found in [s], in any
    letter case, directly or after up to three rounds of decoding. *)
Definition unread (given : list string) (s : string) : Prop :=
  forall secret layer i, secret ∈ given -> 4 <= str_len secret -> reads_as 3 (bytes_of_string s) layer ->
    ~ occurs_as true (bytes_of_string secret) layer i.

(** Nor in a component of a URL, behind its escapes. *)
Definition unescaped_unread (given : list string) (s : string) : Prop :=
  forall secret layer i, secret ∈ given -> 4 <= str_len secret -> unescapes 3 (bytes_of_string s) layer ->
    ~ occurs_as true (bytes_of_string secret) layer i.

Lemma plus_as_space_spec bs spaced :
  Forall2 (fun b b' => b' = if decide (b = 43) then 32 else b) bs spaced <-> spaced = plus_as_space bs.
Proof.
  unfold plus_as_space. split.
  - induction 1 as [|b b' bs bs' -> _ ->]; [done|]. cbn [map]. destruct (decide (b = 43)), (Z.eqb_spec b 43); done.
  - intros ->. induction bs as [|b bs IH]; cbn [map]; constructor; [|done]. destruct (decide (b = 43)), (Z.eqb_spec b 43); done.
Qed.

Lemma contains_folded_spec hay needle : contains_folded hay needle = true <-> exists i, occurs needle hay i.
Proof.
  induction hay as [|b hay IH]; cbn [contains_folded]; rewrite orb_true_iff, is_prefix_spec.
  - split.
    + intros [(rest & E)|?]; [|done]. exists 0%nat. by exists [], rest.
    + intros (i & pre & post & E & _). left. destruct pre; [by exists post|done].
  - rewrite IH. split.
    + intros [(rest & E)|(i & pre & post & E & Hl)]; [exists 0%nat; by exists [], rest|].
      exists (S i), (b :: pre), post. split; [by rewrite E|cbn; lia].
    + intros (i & pre & post & E & Hl). destruct pre as [|b' pre]; [left; by exists post|right].
      injection E as -> E. by exists (List.length pre), pre, post.
Qed.

Lemma contains_bytes_spec hay needle i : occurs_as true needle hay i -> needle <> [] -> contains_bytes hay needle = true.
Proof.
  intros (q & Hq & pre & post & -> & Hl) Hn. unfold contains_bytes. rewrite bool_decide_eq_false_2 by done. cbn [negb andb].
  apply contains_folded_spec. exists (List.length pre), (map lower_byte pre), (map lower_byte post). cbn [folded] in Hq.
  rewrite !map_app, Hq, length_map. done.
Qed.

Lemma secret_bytes secret : 4 <= str_len secret -> bytes_of_string secret <> [].
Proof. intros Hl E. pose proof (bytes_of_string_length secret) as Hs. unfold blen in Hs. rewrite E in Hs. cbn in Hs. lia. Qed.

Lemma holds_secret_spec r layer secret i : holds_secret r layer = false -> secret ∈ rr_secrets r -> 4 <= str_len secret ->
  ~ occurs_as true (bytes_of_string secret) layer i.
Proof.
  unfold holds_secret. intros Hh Hs Hl Ho. rewrite <-not_true_iff_false, existsb_exists in Hh. apply Hh. exists secret.
  rewrite <-list_elem_of_In. split; [done|]. by apply (contains_bytes_spec _ _ i), secret_bytes.
Qed.

Lemma next_layers_in l layers : l ∈ layers -> percent_decode l ∈ next_layers layers /\ percent_decode (plus_as_space l) ∈ next_layers layers.
Proof.
  assert (Hfold : forall ds acc d, d ∈ acc \/ d ∈ ds -> d ∈ fold_left (fun (next : list (list Z)) d => if bool_decide (d ∈ next) then next else next ++ [d]) ds acc).
  { induction ds as [|x ds IH]; intros acc d Hd; cbn [fold_left]; [destruct Hd as [Hd|Hd%elem_of_nil]; done|]. apply IH.
    case_bool_decide as Hx; [|rewrite elem_of_app, list_elem_of_singleton]; destruct Hd as [Hd|[->|Hd]%elem_of_cons]; auto. }
  intros Hl. unfold next_layers. split; apply Hfold; right; apply list_elem_of_In, in_concat; (eexists; split; [apply in_map, list_elem_of_In, Hl|]); cbn; auto.
Qed.

Lemma reveals_in_spec n r layers : reveals_in n r layers = false -> forall l layer, l ∈ layers -> reads_as n l layer -> holds_secret r layer = false.
Proof.
  assert (Hhere : forall layers l, existsb (holds_secret r) layers = false -> l ∈ layers -> holds_secret r l = false).
  { intros ls l He Hl. rewrite <-not_true_iff_false, existsb_exists in He. apply not_true_iff_false. intros Ht. apply He. exists l. by rewrite <-list_elem_of_In. }
  revert layers. induction n as [|n IH]; intros layers; cbn [reveals_in]; destruct (existsb (holds_secret r) layers) eqn:E; try done; intros Hr l layer Hl Hx.
  - inversion Hx; subst. by apply (Hhere layers).
  - destruct (next_layers_in l layers Hl) as [N1 N2]. inversion Hx as [|? ? ? Hx'|? ? spaced ? Hsp Hx']; subst.
    + by apply (Hhere layers).
    + by apply (IH _ Hr _ _ N1).
    + apply plus_as_space_spec in Hsp as ->. by apply (IH _ Hr _ _ N2).
Qed.

Lemma plain_reads `{!DecodeLaws} s : has_escapes s = false -> forall n layer, reads_as n (bytes_of_string s) layer -> layer = bytes_of_string s.
Proof.
  intros He. assert (Hno : forall b, b ∈ bytes_of_string s -> b <> 37 /\ b <> 43).
  { intros b Hb. unfold has_escapes in He. rewrite <-not_true_iff_false, existsb_exists in He.
    split; intros ->; apply He; eexists; (split; [by apply list_elem_of_In|done]). }
  assert (Hd : percent_decode (bytes_of_string s) = bytes_of_string s) by (apply percent_decode_plain; intros Hin; by apply Hno in Hin as [? _]).
  assert (Hp : plus_as_space (bytes_of_string s) = bytes_of_string s).
  { unfold plus_as_space. clear Hd He. revert Hno. induction (bytes_of_string s) as [|b bs IH]; intros Hno; [done|]. cbn [map].
    destruct (Hno b ltac:(left)) as [_ Hb]. rewrite (proj2 (Z.eqb_neq b 43) Hb), IH; [done|]. intros c Hc. apply Hno. by right. }
  intros n. induction n as [|n IH]; intros layer Hx; inversion Hx as [|? ? ? Hx'|? ? spaced ? Hsp Hx']; subst; try done.
  - rewrite Hd in Hx'. by apply IH.
  - apply plus_as_space_spec in Hsp as ->. rewrite Hp, Hd in Hx'. by apply IH.
Qed.

(** [reveals_secret] misses no secret. *)
Lemma reveals_secret_unread `{!DecodeLaws} r given s : (forall x, x ∈ given -> 4 <= str_len x -> x ∈ rr_secrets r) -> reveals_secret r s = false -> unread given s.
Proof.
  intros Hk Hr secret layer i Hs Hl Hx. specialize (Hk secret Hs Hl). apply (holds_secret_spec r); [|done|done]. revert Hr. unfold reveals_secret.
  destruct (rr_secrets r) as [|s0 ss] eqn:Es; [by apply elem_of_nil in Hk|]. destruct (has_escapes s) eqn:He; cbn [negb].
  - intros Hr. eapply reveals_in_spec; [exact Hr| |exact Hx]. by apply list_elem_of_singleton.
  - by rewrite (plain_reads s He 3 layer Hx).
Qed.

Lemma hides_in_spec n r bs layer secret i : hides_in n r bs = false -> unescapes n bs layer -> secret ∈ rr_secrets r -> 4 <= str_len secret ->
  ~ occurs_as true (bytes_of_string secret) layer i.
Proof.
  revert bs. induction n as [|n IH]; intros bs Hh Hx Hs Hl Ho; [by inversion Hx|]. cbn [hides_in] in Hh. cbv zeta in Hh.
  destruct (existsb _ (rr_secrets r)) eqn:E; [done|].
  assert (Hnone : layer <> percent_decode bs /\ layer <> percent_decode (plus_as_space bs)).
  { rewrite <-not_true_iff_false, existsb_exists in E.
    split; intros ->; apply E; exists secret; rewrite <-list_elem_of_In; (split; [done|]); rewrite orb_true_iff;
      [left|right]; by apply (contains_bytes_spec _ _ i), secret_bytes. }
  destruct Hnone as [N1 N2]. revert Hh. inversion Hx as [|? ? spaced Hsp|? ? ? Hx']; subst; [done|apply plus_as_space_spec in Hsp as ->; done|].
  case_bool_decide as Ed; [intros _|intros Hh; by apply (IH (percent_decode bs))].
  rewrite Ed in Hx'. clear - Ed N1 N2 Hx'. induction n as [|n IH]; [by inversion Hx'|].
  inversion Hx' as [|? ? spaced Hsp|? ? ? Hx'']; subst; [done|apply plus_as_space_spec in Hsp as ->; done|]. rewrite Ed in Hx''. by apply IH.
Qed.

(** [hides_secret] misses none behind escapes. *)
Lemma hides_secret_unread r given s : (forall x, x ∈ given -> 4 <= str_len x -> x ∈ rr_secrets r) -> hides_secret r s = false ->
  has_escapes s = true -> unescaped_unread given s.
Proof.
  intros Hk Hh He secret layer i Hs Hl Hx. specialize (Hk secret Hs Hl). revert Hh. unfold hides_secret.
  destruct (rr_secrets r) as [|s0 ss] eqn:Es; [by apply elem_of_nil in Hk|]. rewrite He, <-Es in *. intros Hh. by apply (hides_in_spec 3 r (bytes_of_string s)).
Qed.
End Decoding.

(** * A concrete matcher *)

(** Every range of the text, by its end, that a pattern fits. *)
Definition simple_find (ci : bool) (ps : list string) (s : list Z) : list Range :=
  concat (map (fun e => filter (fun m : Range =>
      existsb (fun p => bool_decide (folded ci (slice s m.1 m.2) = folded ci (bytes_of_string p))) ps = true)
    (map (fun a => (a, e)) (seq 0 e))) (seq 1 (List.length s))).

(** A matcher that cannot be built for more than eight patterns, and no encoding
    but the quotes of a JSON string. *)
Definition simple_libraries : Libraries := {|
  ac_build _ ps := (List.length ps <=? 8)%nat;
  ac_find := simple_find;
  hex_encode_str s := hex_encode (bytes_of_string s);
  utf8_percent_encode s := s;
  byte_serialize s := s;
  json_to_string s := Some (String "034" (s +:+ String "034" ""));
  percent_decode bs := bs;
|}.

Lemma simple_find_in ci ps s m : m ∈ simple_find ci ps s <->
  (m.1 < m.2 <= List.length s)%nat /\ exists p, p ∈ ps /\ folded ci (slice s m.1 m.2) = folded ci (bytes_of_string p).
Proof.
  unfold simple_find. rewrite list_elem_of_In, in_concat. split.
  - intros (l & Hl & Hm). apply in_map_iff in Hl as (e & <- & He). apply in_seq in He.
    apply list_elem_of_In, list_elem_of_filter in Hm as [Hm Hin]. apply list_elem_of_In, in_map_iff in Hin as (a & <- & Ha).
    apply in_seq in Ha. simpl. split; [lia|]. apply existsb_exists in Hm as (p & Hp & Hm). apply bool_decide_eq_true in Hm.
    exists p. by rewrite list_elem_of_In.
  - intros [Hb (p & Hp & Hf)]. destruct m as [a e]. cbn [fst snd] in *. eexists. split.
    + apply in_map_iff. exists e. split; [reflexivity|]. apply in_seq. lia.
    + apply list_elem_of_In, list_elem_of_filter. split.
      * apply existsb_exists. exists p. rewrite <- list_elem_of_In. split; [done|]. by apply bool_decide_eq_true.
      * apply list_elem_of_In, in_map_iff. exists a. split; [done|]. apply in_seq. lia.
Qed.

Lemma simple_find_order ci ps s : end_order (simple_find ci ps s).
Proof.
  unfold end_order, simple_find. apply StronglySorted_Sorted.
  generalize 1%nat as lo. induction (List.length s) as [|n IH]; intros lo; [constructor|].
  cbn [seq map concat]. set (here := filter _ _).
  assert (Hhere : forall m, m ∈ here -> m.2 = lo).
  { intros m [_ Hm]%list_elem_of_filter. apply list_elem_of_In, in_map_iff in Hm as (a & <- & _). done. }
  assert (Hlater : forall m, m ∈ concat (map (fun e => filter (fun m : Range =>
      existsb (fun p => bool_decide (folded ci (slice s m.1 m.2) = folded ci (bytes_of_string p))) ps = true)
    (map (fun a => (a, e)) (seq 0 e))) (seq (S lo) n)) -> (lo <= m.2)%nat).
  { intros m Hm. apply list_elem_of_In, in_concat in Hm as (l & Hl & Hm). apply in_map_iff in Hl as (e & <- & He).
    apply in_seq in He. apply list_elem_of_In, list_elem_of_filter in Hm as [_ Hm].
    apply list_elem_of_In, in_map_iff in Hm as (a & <- & _). simpl. lia. }
  specialize (IH (S lo)). clearbody here. induction here as [|m here IHh]; [exact IH|]. cbn [app]. constructor.
  - apply IHh. intros q Hq. apply Hhere. by apply elem_of_cons; right.
  - apply Forall_app. rewrite (Hhere m) by (by apply elem_of_cons; left). split; apply list.Forall_forall.
    + intros q Hq. rewrite (Hhere q); [done|]. by apply elem_of_cons; right.
    + intros q Hq. by apply Hlater.
Qed.

Lemma simple_libraries_laws : @LibraryLaws simple_libraries.
Proof.
  split; simpl.
  - intros ci ps s m _ Hps. rewrite simple_find_in. split.
    + intros [Hb (p & Hp & Hf)]. exists p. split; [done|]. pose proof (folded_length _ _ _ Hf) as Hl.
      rewrite slice_length in Hl by lia. pose proof (bytes_of_string_length p) as Hl2. unfold blen, str_len in Hl2.
      split; [|lia]. exists (slice s m.1 m.2). split; [done|]. exists (take m.1 s), (drop m.2 s).
      split; [|rewrite length_take; lia]. unfold slice. replace (drop m.2 s) with (drop (m.2 - m.1) (drop m.1 s)).
      * by rewrite take_drop, take_drop.
      * rewrite drop_drop. f_equal. lia.
    + intros (p & Hp & (q & Hq & Ho) & E). pose proof (folded_length _ _ _ Hq) as Hl.
      pose proof (bytes_of_string_length p) as Hl2. unfold blen, str_len in Hl2. rewrite list.Forall_forall in Hps.
      pose proof (is_text_length p (Hps p Hp)). destruct Ho as (pre & post & -> & Hpre). rewrite !length_app. split; [lia|].
      exists p. split; [done|]. rewrite <- Hq. f_equal. unfold slice. rewrite drop_app_exact by done.
      by rewrite take_app_exact by lia.
  - intros ci ps s. apply simple_find_order.
  - intros s (c & rest & -> & _)%is_text_cons. unfold bytes_of_string. cbn [list_ascii_of_string map]. unfold hex_encode.
    apply is_text_cons. destruct rest as [|c2 rest]; simpl; eexists _, _; (split; [done|]); unfold hex_digit;
      pose proof (byte_of_ascii_ok c) as Hc; unfold in_width in Hc;
      assert (0 <= byte_of_ascii c / 16 < 16) as Hd by (split; [apply Z.div_pos; lia|apply Z.div_lt_upper_bound; lia]);
      destruct (Z.ltb_spec (byte_of_ascii c / 16) 10);
      rewrite byte_of_ascii_of by (unfold in_width; lia); unfold is_cont, between; rewrite (proj2 (Z.leb_gt _ _)) by lia; done.
  - done.
  - done.
  - intros s q Hs [= <-]. by exists s.
Qed.

(** A session with a token; the echo of the server, in capitals, ends in a text
    that repeats it overlapping itself. *)
Definition demo_redactor : Redactor := @add_secret simple_libraries "toto" (@Redactor_new simple_libraries ["abc"; "s3cr3t-toto"] ["x-tenant"]).

Lemma demo_built : @built simple_libraries demo_redactor (["abc"; "s3cr3t-toto"] ++ ["toto"]).
Proof. apply Built_add_secret, Built_new. Qed.

Lemma demo_texts : Forall is_text (["abc"; "s3cr3t-toto"] ++ ["toto"]).
Proof. repeat constructor; apply is_text_cons; by eexists _, _. Qed.

Example demo_shown : @shown simple_libraries true demo_redactor "a: S3CR3T-TOTOTO, abc" = "a: " +:+ REDACTED +:+ ", abc".
Proof. vm_compute. reflexivity. Qed.

(** A secret that is part of the marker shows in one only. *)
Lemma known_secret_never_shown_witness :
  let out := bytes_of_string (@shown simple_libraries true (@Redactor_new simple_libraries ["redac"] []) (REDACTED +:+ " redac")) in
  exists j, occurs marker out j /\ overlap 3 5 j (List.length marker).
Proof.
  refine (@known_secret_never_shown simple_libraries simple_libraries_laws true
    (@Redactor_new simple_libraries ["redac"] []) ["redac"] (REDACTED +:+ " redac") "redac" "redac" (bytes_of_string "redac") 3 _ _ _ _ _ _ _).
  - apply Built_new.
  - repeat constructor. apply is_text_cons. by eexists _, _.
  - by apply elem_of_cons; left.
  - by vm_compute.
  - by apply elem_of_cons; left.
  - done.
  - apply occurs_lookup. vm_compute. split; [lia|]. intros k Hk. do 5 (destruct k as [|k]; [done|]). lia.
Defined.

Lemma text_withholds_only_witness :
  let bs := bytes_of_string "a: S3CR3T-TOTOTO, abc" in
  exists ranges, bytes_of_string (@shown simple_libraries true demo_redactor "a: S3CR3T-TOTOTO, abc") = mask bs 0 ranges /\
    ordered 0 ranges /\
    forall x, hidden ranges x ->
      (exists p i, p ∈ @patterns simple_libraries demo_redactor /\ occurs_as true (bytes_of_string p) bs i /\
        (i <= x < i + String.length p)%nat) \/ hidden (markers_of bs) x.
Proof.
  apply (@text_withholds_only simple_libraries simple_libraries_laws true demo_redactor (["abc"; "s3cr3t-toto"] ++ ["toto"])).
  - apply demo_built.
  - apply demo_texts.
  - intros _. by vm_compute.
  - by vm_compute.
Defined.
