(* ===== verification/RedactedFields.v ===== *)
(** What the redactor makes of URLs and headers
    (crates/anvil-engine/src/redact.rs, [Redactor::url] and
    [Redactor::header] with what they call): components are examined one by
    one, and a URL whose finished form still reveals a secret keeps at most its
    origin. *)
From Stdlib Require Import ZArith Lia Ascii String.
From stdpp Require Import base numbers strings pretty option list.
From S2P Require Import Prelude Text Bytes Utf8 Evidence Secret Redaction Redactor.
Open Scope string_scope.
Open Scope list_scope.
Open Scope Z_scope.

(** * Text helpers *)

Definition contains_any (chars : list Z) (b : Z) : bool := existsb (Z.eqb b) chars.

(** [same_delimiters]: the delimiters of both texts, in order. *)
Definition same_delimiters (before after : string) (delimiters : string) : bool :=
  let keep s := filter (fun b => contains_any (bytes_of_string delimiters) b = true) (bytes_of_string s) in
  bool_decide (keep before = keep after).

Definition is_ascii_alphanumeric (b : Z) : bool :=
  (48 <=? b) && (b <=? 57) || (65 <=? b) && (b <=? 90) || (97 <=? b) && (b <=? 122).

Definition is_scheme (s : string) : bool :=
  negb (str_is_empty s) && forallb (fun b => is_ascii_alphanumeric b || (b =? 43) || (b =? 45) || (b =? 46)) (bytes_of_string s).

(** [s.find(chars).unwrap_or(s.len())], as the text before and after. *)
Fixpoint split_at_any (chars : list Z) (s : string) : string * string :=
  match s with
  | "" => ("", "")
  | String c s' =>
      if contains_any chars (byte_of_ascii c) then ("", s)
      else let '(a, b) := split_at_any chars s' in (String c a, b)
  end.

(** [s.rfind(c)], as the text before and after the character. *)
Fixpoint rsplit_once (c : ascii) (s : string) : option (string * string) :=
  match s with
  | "" => None
  | String x s' =>
      match rsplit_once c s' with
      | Some (a, b) => Some (String x a, b)
      | None => if Ascii.eqb x c then Some ("", s') else None
      end
  end.

(** [redact_userinfo]. *)
Definition redact_userinfo (u : string) : string :=
  match (match str_strip_prefix "//" u with
         | Some rest => Some ("//", rest)
         | None => match split_once "://" u with
                   | Some (scheme, rest) => Some (scheme +:+ "://", rest)
                   | None => None
                   end
         end) with
  | None => u
  | Some (head, rest) =>
      let '(authority, tail) := split_at_any [47; 63; 35] rest in
      match rsplit_once "@" authority with
      | Some (_, host) => head +:+ REDACTED +:+ "@" +:+ host +:+ tail
      | None => u
      end
  end.

Section Fields.
Context `{Libraries}.

(** * URLs *)

(** A part of a query or fragment. *)
Definition pair_text (r : Redactor) (kv : string) : string :=
  match split_once "=" kv with
  | Some (k, v) =>
      let dk := from_utf8_lossy (percent_decode (bytes_of_string k)) in
      let k := if hides_secret r k then REDACTED else k in
      if is_sensitive_name dk (rr_extra_names r) || hides_secret r v then k +:+ "=" +:+ REDACTED
      else k +:+ "=" +:+ v
  | None => if hides_secret r kv then REDACTED else kv
  end.

(** [Redactor::pairs]. *)
Definition pairs (r : Redactor) (q : string) : string := join "&" (map (pair_text r) (split_on "&" q)).

(** [Redactor::url_path]. *)
Definition url_path (r : Redactor) (s : string) : string :=
  let '(prefix, path) := match split_once "://" s with
    | Some (scheme, rest) => let '(authority, path) := split_at_any [47] rest in (scheme +:+ "://" +:+ authority, path)
    | None => ("", s)
    end in
  prefix +:+ join "/" (map (fun seg => if hides_secret r seg then REDACTED else seg) (split_on "/" path)).

(** The scheme and the rest of a URL that has one. *)
Definition scheme_of (u : string) : option (string * string) :=
  '(scheme, rest) ← split_once "://" u;
  if is_scheme scheme then Some (scheme, rest) else None.

(** [Redactor::seal]. *)
Definition seal (r : Redactor) (u : string) : string :=
  if negb (reveals_secret r u) then u
  else
    let sealed := match scheme_of u with
      | Some (scheme, rest) => scheme +:+ "://" +:+ (split_at_any [47; 63; 35] rest).1 +:+ "/" +:+ REDACTED
      | None => REDACTED
      end in
    if reveals_secret r sealed then REDACTED else sealed.

(** The start of [Redactor::url], when a secret crosses a delimiter: the origin
    at most. *)
Definition origin_only (r : Redactor) (u : string) : string :=
  let safe := redact_userinfo u in
  match scheme_of safe with
  | None => REDACTED
  | Some (scheme, rest) =>
      let origin := scheme +:+ "://" +:+ (split_at_any [47; 63; 35] rest).1 in
      if negb (String.eqb (text_any_case r origin) origin) || reveals_secret r origin then REDACTED
      else origin +:+ "/" +:+ REDACTED
  end.

(** [Redactor::url]. *)
Definition redact_url (r : Redactor) (u : string) : string :=
  if negb (same_delimiters u (text_any_case r u) ":/?#&=@") then origin_only r u
  else
    let '(base, frag) := match split_once "#" u with Some (b, f) => (b, Some f) | None => (u, None) end in
    let '(before_query, query) := match split_once "?" base with Some (p, q) => (p, Some q) | None => (base, None) end in
    let out := url_path r before_query in
    let out := match query with Some q => out +:+ "?" +:+ pairs r q | None => out end in
    let out := redact_userinfo out in
    let out := match frag with Some f => out +:+ "#" +:+ pairs r f | None => out end in
    seal r (text_any_case r out).

(** * Headers *)

(** One attribute of a Set-Cookie value. *)
Definition cookie_attr (r : Redactor) (attr : string) : string :=
  match split_once "=" attr with
  | Some (name, value) =>
      let n := to_ascii_lowercase (trim name) in
      if (String.eqb n "path" || String.eqb n "domain") && hides_secret r (trim value) then name +:+ "=" +:+ REDACTED else attr
  | None => attr
  end.

(** [Redactor::set_cookie_attrs]. *)
Definition set_cookie_attrs (r : Redactor) (attrs : string) : string := join ";" (map (cookie_attr r) (split_on ";" attrs)).

(** The value of a sensitive cookie header with its names and attributes
    examined, [None] for other headers. *)
Definition prepared_value (r : Redactor) (sensitive : bool) (name value : string) : option string :=
  if sensitive && eq_ignore_ascii_case name "set-cookie" then
    '(key, rest) ← split_once "=" value;
    let key := if hides_secret r (trim key) then REDACTED else key in
    Some match split_once ";" rest with
    | Some (credential, attrs) => key +:+ "=" +:+ credential +:+ ";" +:+ set_cookie_attrs r attrs
    | None => key +:+ "=" +:+ rest
    end
  else if sensitive && eq_ignore_ascii_case name "cookie" then
    Some (join ";" (map (fun part =>
      match split_once "=" part with
      | Some (key, rest) => if hides_secret r (trim key) then REDACTED +:+ "=" +:+ rest else part
      | None => part
      end) (split_on ";" value)))
  else None.

(** One cookie of a Cookie value: its name. *)
Definition cookie_name (r : Redactor) (c : string) : string :=
  match split_once "=" c with
  | Some (k, _) =>
      let name := trim k in
      if hides_secret r name then REDACTED +:+ "=" +:+ REDACTED else name +:+ "=" +:+ REDACTED
  | None => REDACTED
  end.

(** What is left of the value of a header with a sensitive name. *)
Definition sensitive_value (r : Redactor) (name value : string) : string :=
  let lower := to_ascii_lowercase name in
  let rest :=
    if String.eqb lower "cookie" then join "; " (map (cookie_name r) (split_on ";" value))
    else if String.eqb lower "set-cookie" then
      match split_once "=" value with
      | Some (k, rest) =>
          let name := trim k in
          let name := if hides_secret r name then REDACTED else name in
          let attrs := match split_once ";" rest with Some (_, a) => ";" +:+ set_cookie_attrs r a | None => "" end in
          name +:+ "=" +:+ REDACTED +:+ attrs
      | None => REDACTED
      end
    else REDACTED in
  if String.eqb lower "authorization" || String.eqb lower "proxy-authorization" then
    match split_once " " value with
    | Some (scheme, _) => scheme +:+ " " +:+ REDACTED
    | None => rest
    end
  else rest.

(** The value of a header that is not a URL, a Link or a Refresh. *)
Definition plain_header (r : Redactor) (sensitive : bool) (name value : string) : string :=
  let scrubbed := text_any_case r value in
  let prepared := prepared_value r sensitive name value in
  match (if prepared is Some p then if String.eqb p value then Some scrubbed
                                    else if negb (same_delimiters value scrubbed ";=") then None else Some (text_any_case r p)
         else Some scrubbed) with
  | None => REDACTED
  | Some value => if sensitive then sensitive_value r name (text r value) else text r value
  end.
(** [anchor_value_start]: the text before the value of the first anchor
    parameter, and from the value on; [before] is the text already passed. *)
Fixpoint anchor_value (before s : string) : option (string * string) :=
  match (after ← (if eq_ignore_ascii_case (str_take 6 s) "anchor" then Some (str_drop 6 s) else None);
         rest ← str_strip_prefix "=" (trim_start after);
         let value := trim_start rest in
         if ends_with (trim_end before) ";" then
           Some (before +:+ str_take (String.length s - String.length value) s, value)
         else None) with
  | Some r => Some r
  | None => match s with "" => None | String c s' => anchor_value (before +:+ String c "") s' end
  end.

(** [Redactor::link_params]; every round passes a parameter, so the length of
    the text is fuel enough. *)
Fixpoint link_params (fuel : nat) (r : Redactor) (rest : string) : string :=
  match fuel with
  | O => rest
  | S fuel' =>
      match anchor_value "" rest with
      | None => rest
      | Some (before, value) =>
          let '(redacted, after) :=
            match str_strip_prefix (String "034" "") value with
            | Some quoted =>
                match split_once (String "034" "") quoted with
                | Some (inner, after) => (String "034" (redact_url r inner +:+ String "034" ""), after)
                | None => (String "034" (redact_url r quoted), "")
                end
            | None => let '(inner, after) := split_at_any [59; 44] value in (redact_url r inner, after)
            end in
          before +:+ redacted +:+ link_params fuel' r after
      end
  end.

(** [Redactor::link]. *)
Fixpoint link (fuel : nat) (r : Redactor) (rest : string) : string :=
  let params s := link_params (String.length s) r s in
  match fuel with
  | O => params rest
  | S fuel' =>
      match (p ← split_once "<" rest; q ← split_once ">" p.2; Some (p.1, q)) with
      | None => params rest
      | Some (before, (inner, after)) => params before +:+ "<" +:+ redact_url r inner +:+ ">" +:+ link fuel' r after
      end
  end.

(** [lower.find("url=")], as the text through it and after it. *)
Fixpoint split_url_param (s : string) : option (string * string) :=
  if eq_ignore_ascii_case (str_take 4 s) "url=" then Some (str_take 4 s, str_drop 4 s)
  else match s with
  | "" => None
  | String c s' => '(a, b) ← split_url_param s'; Some (String c a, b)
  end.

(** [Redactor::refresh]. *)
Definition refresh (r : Redactor) (value : string) : string :=
  match split_url_param value with
  | None => redact_url r value
  | Some (head, target) =>
      match target with
      | String q rest =>
          if (Ascii.eqb q "034" || Ascii.eqb q "'") && (1 <? str_len target) && ends_with target (String q "") then
            head +:+ String q (redact_url r (str_take (String.length rest - 1) rest) +:+ String q "")
          else head +:+ redact_url r target
      | "" => head +:+ redact_url r target
      end
  end.

(** [Redactor::header]. *)
Definition redact_header (r : Redactor) (name value : string) : string :=
  let sensitive := is_sensitive_name name (rr_extra_names r) in
  if negb sensitive && existsb (fun h => eq_ignore_ascii_case name h) URL_HEADERS then redact_url r value
  else if negb sensitive && (eq_ignore_ascii_case name "link" || eq_ignore_ascii_case name "refresh") then
    if negb (same_delimiters value (text_any_case r value) (":/?#&=@<>;" +:+ String "034" "'")) then REDACTED
    else text_any_case r (if eq_ignore_ascii_case name "link" then link (String.length value) r value else refresh r value)
  else plain_header r sensitive name value.

(** One entry of [Redactor::headers]. *)
Definition redact_entry (r : Redactor) (e : HeaderEntry) : HeaderEntry :=
  let name := text_any_case r (he_name e) in
  mkHeaderEntry name
    (if negb (String.eqb name (he_name e)) || str_contains name REDACTED then REDACTED
     else metadata_text r (redact_header r (he_name e) (he_value e))).

(** [Redactor::headers]. *)
Definition redact_headers (r : Redactor) (h : list HeaderEntry) : list HeaderEntry := map (redact_entry r) h.

(** * What they show *)

(** The URL as the code's own last examination leaves it. *)
Lemma url_examined r u :
  redact_url r u = REDACTED \/ reveals_secret r (redact_url r u) = false \/
  exists scheme host, redact_url r u = (scheme +:+ "://" +:+ host) +:+ "/" +:+ REDACTED /\
    reveals_secret r (scheme +:+ "://" +:+ host) = false /\
    text_any_case r (scheme +:+ "://" +:+ host) = scheme +:+ "://" +:+ host.
Proof.
  unfold redact_url. destruct (negb (same_delimiters u _ _)).
  - unfold origin_only. destruct (scheme_of (redact_userinfo u)) as [[scheme rest]|]; [|by left].
    destruct (String.eqb_spec (text_any_case r (scheme +:+ "://" +:+ (split_at_any [47; 63; 35] rest).1))
      (scheme +:+ "://" +:+ (split_at_any [47; 63; 35] rest).1)) as [E|]; cbn [negb orb]; [|by left].
    destruct (reveals_secret r _) eqn:Er; [by left|]. right. right. by eexists _, _.
  - destruct (match split_once "#" u with Some (b, f) => (b, Some f) | None => (u, None) end) as [base frag].
    destruct (match split_once "?" base with Some (p, q) => (p, Some q) | None => (base, None) end) as [before query].
    unfold seal. match goal with |- context [ reveals_secret r ?x ] => destruct (reveals_secret r x) eqn:Er end; cbn [negb].
    + match goal with |- context [ if reveals_secret r ?x then _ else _ ] => destruct (reveals_secret r x) eqn:Es end; [by left|].
      by right; left.
    + by right; left.
Qed.

(** A redacted URL reveals no secret of [given]: no reading of it finds one,
    or it is the marker, or an origin of which this is so, and in which every
    known form of a secret lies over a marker, with the marker for a path. *)
Definition url_unread (given : list string) (out : string) : Prop :=
  out = REDACTED \/ unread given out \/
  exists scheme host, out = (scheme +:+ "://" +:+ host) +:+ "/" +:+ REDACTED /\
    unread given (scheme +:+ "://" +:+ host) /\ hides given (scheme +:+ "://" +:+ host).

Lemma built_given `{!LibraryLaws} r given : built r given -> forall x, x ∈ given -> 4 <= str_len x -> x ∈ rr_secrets r.
Proof. intros Hb x Hx Hl. destruct (built_knows r given Hb) as [_ Hk]. apply Hk. by split. Qed.

Lemma redact_url_unread `{!LibraryLaws, !DecodeLaws} r given u : built r given -> Forall is_text given -> url_unread given (redact_url r u).
Proof.
  intros Hb Hg. pose proof (built_given r given Hb) as Hk. destruct (url_examined r u) as [E|[Hr|(scheme & host & E & Hr & Ht)]]; [by left| |].
  - right. left. by apply (reveals_secret_unread r).
  - right. right. exists scheme, host. split; [done|]. split; [by apply (reveals_secret_unread r)|]. rewrite <-Ht. by apply text_hides.
Qed.

(** C36: a URL redacted by a redactor, however that was put together, reveals
    no secret of four bytes or more the redactor was given: reading what is
    left of the URL, in any letter case, directly or after undoing percent
    encoding up to three times, with a plus sign for itself or for a space each
    time, never finds one; unless nothing is left but the marker, or but an
    origin of which the same is true, with the marker for a path. *)
Theorem url_never_reveals `{!LibraryLaws, !DecodeLaws} r given u : built r given -> Forall is_text given ->
  let out := redact_url r u in
  out = REDACTED \/ unread given out \/
  exists scheme host, out = (scheme +:+ "://" +:+ host) +:+ "/" +:+ REDACTED /\
    unread given (scheme +:+ "://" +:+ host) /\ hides given (scheme +:+ "://" +:+ host).
Proof. intros Hb Hg. exact (redact_url_unread r given u Hb Hg). Qed.

(** [s] has no character [c]. *)
Definition lacks (c : ascii) (s : string) : Prop := split_once (String c "") s = None.

Lemma split_once_lacks c s a b : split_once (String c "") s = Some (a, b) -> lacks c a.
Proof.
  unfold lacks. revert a. induction s as [|x s IH]; intros a; cbn [split_once str_strip_prefix]; [done|].
  destruct (Ascii.eqb c x) eqn:E; [by intros [= <- _]|].
  destruct (split_once (String c "") s) as [[p q]|] eqn:Es; [|done]. intros [= <- <-].
  cbn [split_once str_strip_prefix]. rewrite E. by rewrite (IH p).
Qed.

(** The value of a header with a sensitive name is withheld: it is the
    marker, except for what describes the credential, taken from the value
    after it was scrubbed of every known secret: the scheme word of an
    Authorization value, the names of cookies, and of a Set-Cookie its name
    and attributes. *)
Theorem credential_header_withheld r name value : is_sensitive_name name (rr_extra_names r) = true ->
  let out := redact_header r name value in
  let lower := to_ascii_lowercase name in
  out = REDACTED \/
  exists v,
    ((lower = "authorization" \/ lower = "proxy-authorization") /\
     exists scheme rest, split_once " " (text r v) = Some (scheme, rest) /\ lacks " " scheme /\ out = scheme +:+ " " +:+ REDACTED) \/
    (lower = "cookie" /\ out = join "; " (map (cookie_name r) (split_on ";" (text r v)))) \/
    (lower = "set-cookie" /\
     exists k rest attrs, split_once "=" (text r v) = Some (k, rest) /\
       out = (if hides_secret r (trim k) then REDACTED else trim k) +:+ "=" +:+ REDACTED +:+ attrs /\
       (attrs = "" \/ exists credential a, split_once ";" rest = Some (credential, a) /\ attrs = ";" +:+ set_cookie_attrs r a)).
Proof.
  intros Hs out lower. unfold out, redact_header. rewrite Hs. cbn [negb andb]. unfold plain_header.
  destruct (if prepared_value r true name value is Some p then _ else _) as [v|]; [|by left]. unfold sensitive_value. fold lower.
  assert (Hrest : String.eqb lower "authorization" || String.eqb lower "proxy-authorization" = true ->
    String.eqb lower "cookie" = false /\ String.eqb lower "set-cookie" = false).
  { intros H1. apply orb_prop in H1 as [E|E]; apply String.eqb_eq in E; by rewrite E. }
  destruct (String.eqb lower "authorization" || String.eqb lower "proxy-authorization") eqn:Ea.
  - destruct (Hrest eq_refl) as [-> ->]. destruct (split_once " " (text r v)) as [[scheme rest]|] eqn:E; [|by left].
    right. exists v. left. split; [|exists scheme, rest; split; [done|]; split; [by eapply split_once_lacks|done]].
    apply orb_prop in Ea as [E'|E']; apply String.eqb_eq in E'; auto.
  - destruct (String.eqb_spec lower "cookie") as [->|_]; [right; exists v; right; by left|].
    destruct (String.eqb_spec lower "set-cookie") as [->|_]; [|by left].
    destruct (split_once "=" (text r v)) as [[k rest]|] eqn:E; [|by left]. right. exists v. right. right. split; [done|].
    destruct (split_once ";" rest) as [[cr a]|] eqn:E2.
    + exists k, rest, (";" +:+ set_cookie_attrs r a). split; [done|]. split; [done|]. right. by exists cr, a.
    + exists k, rest, "". split; [done|]. split; [done|]. by left.
Qed.

(** What is left of a header's value: of a credential the marker, with its
    scheme word, or with the names of cookies, or with the name and attributes
    of a cookie, at most; of a URL what reveals no secret; and in any other
    value a known form of a secret lies over a marker, in any letter case in a
    Link or Refresh. *)
Definition header_shown (given : list string) (r : Redactor) (name out : string) : Prop :=
  let lower := to_ascii_lowercase name in
  if is_sensitive_name name (rr_extra_names r) then
    out = REDACTED \/
    ((lower = "authorization" \/ lower = "proxy-authorization") /\ exists scheme, lacks " " scheme /\ out = scheme +:+ " " +:+ REDACTED) \/
    (lower = "cookie" /\ exists names, out = join "; " (map (fun n : option string => match n with Some name => name +:+ "=" +:+ REDACTED | None => REDACTED end) names)) \/
    (lower = "set-cookie" /\ exists name attrs, out = name +:+ "=" +:+ REDACTED +:+ attrs)
  else if bool_decide (lower ∈ ["location"; "content-location"; "referer"]) then url_unread given out
  else if bool_decide (lower ∈ ["link"; "refresh"]) then hides given out
  else hides_exact given out.

Lemma redact_header_shown `{!LibraryLaws, !DecodeLaws} given r name value : built r given -> Forall is_text given -> header_shown given r name (redact_header r name value).
Proof.
  intros Hb Hg. unfold header_shown. cbv zeta. destruct (is_sensitive_name name (rr_extra_names r)) eqn:Es.
  - destruct (credential_header_withheld r name value Es) as [E|(v & [[Hl (scheme & rest & _ & Hs & E)]|[[Hl E]|[Hl (k & rest & attrs & _ & E & _)]]])]; cbv zeta in *.
    + by left.
    + right. left. split; [done|]. by exists scheme.
    + right. right. left. split; [done|]. exists (map (fun c => match split_once "=" c with Some (k, _) => Some (if hides_secret r (trim k) then REDACTED else trim k) | None => None end) (split_on ";" (text r v))).
      rewrite E. f_equal. rewrite map_map. apply map_ext. intros c. unfold cookie_name. destruct (split_once "=" c) as [[k ?]|]; [|done]. by destruct (hides_secret r (trim k)).
    + right. right. right. split; [done|]. by exists (if hides_secret r (trim k) then REDACTED else trim k), attrs.
  - unfold redact_header. rewrite Es. cbn [negb andb].
    assert (Hlow : forall l, existsb (fun h => eq_ignore_ascii_case name h) l = existsb (String.eqb (to_ascii_lowercase name)) (map to_ascii_lowercase l)).
    { intros l. induction l as [|h l IH]; [done|]. cbn. by rewrite IH. }
    assert (Hin : forall l, existsb (String.eqb (to_ascii_lowercase name)) l = bool_decide (to_ascii_lowercase name ∈ l)).
    { intros l. symmetry. case_bool_decide as Hm; symmetry; [apply existsb_exists; exists (to_ascii_lowercase name); split; [by apply list_elem_of_In|by apply String.eqb_eq]|].
      apply not_true_iff_false. intros (x & Hx & Ex)%existsb_exists. apply String.eqb_eq in Ex as <-. apply Hm. by apply list_elem_of_In. }
    rewrite Hlow, Hin. change (map to_ascii_lowercase URL_HEADERS) with ["location"; "content-location"; "referer"].
    destruct (bool_decide (to_ascii_lowercase name ∈ ["location"; "content-location"; "referer"])); [by apply redact_url_unread|].
    assert (Hlr : eq_ignore_ascii_case name "link" || eq_ignore_ascii_case name "refresh" = bool_decide (to_ascii_lowercase name ∈ ["link"; "refresh"])).
    { rewrite <-Hin. cbn. by rewrite orb_false_r. }
    rewrite Hlr. destruct (bool_decide _).
    + destruct (negb _); [by apply marker_hides|by apply text_hides].
    + unfold plain_header. cbn [prepared_value andb]. by apply text_hides_exact.
Qed.

(** A name that redaction treats as sensitive never follows a redirect to
    another origin. *)
Lemma sensitive_is_credential name extra : is_sensitive_name name extra = true -> is_credential_name name extra = true.
Proof.
  unfold is_sensitive_name, is_credential_name. destruct (existsb _ SENSITIVE_HEADERS || _); [done|]. cbn [orb].
  intros H1. apply existsb_exists in H1 as (p & Hp & H1). assert (existsb (fun p => str_contains (to_ascii_lowercase name) p) SENSITIVE_NAME_PARTS = true) as ->; [|done].
  apply existsb_exists. exists p. split; [done|]. apply orb_prop in H1 as [E|E]; [|by apply andb_prop in E as [E _]].
  apply String.eqb_eq in E as ->. revert Hp. clear. unfold SENSITIVE_NAME_PARTS. simpl. intros H. repeat destruct H as [<-|H]; done.
Qed.
End Fields.

Lemma credential_header_withheld_witness :
  let r := @Redactor_new simple_libraries ["tok-123"] [] in
  let out := @redact_header simple_libraries r "Authorization" "Bearer tok-123" in
  let lower := to_ascii_lowercase "Authorization" in
  out = REDACTED \/
  exists v,
    ((lower = "authorization" \/ lower = "proxy-authorization") /\
     exists scheme rest, split_once " " (@text simple_libraries r v) = Some (scheme, rest) /\ lacks " " scheme /\
       out = scheme +:+ " " +:+ REDACTED) \/
    (lower = "cookie" /\ out = join "; " (map (@cookie_name simple_libraries r) (split_on ";" (@text simple_libraries r v)))) \/
    (lower = "set-cookie" /\
     exists k rest attrs, split_once "=" (@text simple_libraries r v) = Some (k, rest) /\
       out = (if @hides_secret simple_libraries r (trim k) then REDACTED else trim k) +:+ "=" +:+ REDACTED +:+ attrs /\
       (attrs = "" \/ exists credential a, split_once ";" rest = Some (credential, a) /\
          attrs = ";" +:+ @set_cookie_attrs simple_libraries r a)).
Proof. apply (@credential_header_withheld simple_libraries (@Redactor_new simple_libraries ["tok-123"] [])). by vm_compute. Defined.

Example url_demo : @redact_url simple_libraries (@Redactor_new simple_libraries ["tok-123"] []) "https://u:p@h.example/a/TOK-123?sig=1&b=2#x" =
  "https://" +:+ REDACTED +:+ "@h.example/a/" +:+ REDACTED +:+ "?sig=" +:+ REDACTED +:+ "&b=2#x".
Proof. vm_compute. reflexivity. Qed.

(** The libraries of the demonstrations, with a percent-decoder. *)
Definition hex_value (b : Z) : option Z :=
  if (48 <=? b) && (b <=? 57) then Some (b - 48) else if (65 <=? b) && (b <=? 70) then Some (b - 55)
  else if (97 <=? b) && (b <=? 102) then Some (b - 87) else None.

Fixpoint demo_percent_decode (bs : list Z) : list Z :=
  match bs with
  | [] => []
  | b :: bs' =>
      match bs' with
      | h :: l :: rest =>
          match (if b =? 37 then hex_value h else None), hex_value l with
          | Some x, Some y => 16 * x + y :: demo_percent_decode rest
          | _, _ => b :: demo_percent_decode bs'
          end
      | _ => b :: demo_percent_decode bs'
      end
  end.

Definition decoding_libraries : Libraries := {|
  ac_build := @ac_build simple_libraries;
  ac_find := @ac_find simple_libraries;
  hex_encode_str := @hex_encode_str simple_libraries;
  utf8_percent_encode := @utf8_percent_encode simple_libraries;
  byte_serialize := @byte_serialize simple_libraries;
  json_to_string := @json_to_string simple_libraries;
  percent_decode := demo_percent_decode;
|}.

Lemma decoding_libraries_laws : @LibraryLaws decoding_libraries.
Proof. destruct simple_libraries_laws. by constructor. Qed.

Lemma decoding_decode_laws : @DecodeLaws decoding_libraries.
Proof.
  constructor. cbn [percent_decode decoding_libraries]. induction bs as [|b bs IH]; intros Hb; [done|]. rewrite not_elem_of_cons in Hb. destruct Hb as [Hb Hbs].
  specialize (IH Hbs). cbn [demo_percent_decode]. rewrite (proj2 (Z.eqb_neq b 37)) by done. destruct bs as [|h [|l rest]]; by rewrite IH.
Qed.

Lemma simple_decode_laws : @DecodeLaws simple_libraries.
Proof. by constructor. Qed.

Definition decoding_redactor : Redactor := @Redactor_new decoding_libraries ["tok-123"] [].

(** A token escaped twice in a path, and once in a host. *)
Definition escaped_url : string := "https://h.example/a/%2574ok-123/b?c=1".
Definition escaped_host : string := "https://u.%74ok-123.example/a".

Lemma url_never_reveals_witness :
  @redact_url decoding_libraries decoding_redactor escaped_url = "https://h.example/a/" +:+ REDACTED +:+ "/b?c=1" /\
  @redact_url decoding_libraries decoding_redactor escaped_host = REDACTED /\
  @url_unread decoding_libraries ["tok-123"] (@redact_url decoding_libraries decoding_redactor escaped_url).
Proof.
  split; [vm_compute; reflexivity|]. split; [vm_compute; reflexivity|].
  apply (@url_never_reveals decoding_libraries decoding_libraries_laws decoding_decode_laws).
  - apply Built_new.
  - repeat constructor. apply is_text_cons. by eexists _, _.
Defined.
