(* ===== verification/Cookies.v ===== *)
(** Cookie jars (crates/anvil-engine/src/cookies.rs, [BoundedJar]): the cookies
    of a workspace with their bounds in number and bytes, per site and in
    total, the least recently used ones evicted first, and the Cookie header
    of a request. Cookies, their matching and expiry (crate cookie_store) and
    the public suffix list (crate psl) are parameters; [None] is a panic. *)
From Stdlib Require Import ZArith Lia Ascii String.
From stdpp Require Import base numbers strings option list sorting.
From S2P Require Import Prelude OrdMap Text.
Open Scope string_scope.
Open Scope list_scope.
Open Scope Z_scope.

Definition MAX_SET_COOKIE_BYTES : Z := 4096.
Definition MAX_ITEM_BYTES : Z := 8192.
Definition MAX_SITE_COUNT : Z := 180.
Definition MAX_SITE_BYTES : Z := 128 * 1024.
Definition MAX_JAR_COUNT : Z := 3000.
Definition MAX_JAR_BYTES : Z := 2 * 1024 * 1024.
Definition MAX_COOKIE_HEADER_BYTES : Z := 8192.

(** What the jar asks of a cookie, of a URL and of the public suffix list, and
    the size of an entry. *)
Class CookieStore (Cookie Url Time : Type) := {
  ck_domain : Cookie -> option string;
  ck_path : Cookie -> string;
  ck_name : Cookie -> string;
  ck_value : Cookie -> string;
  ck_is_expired : Time -> Cookie -> bool;
  ck_matches : Cookie -> Url -> bool;
  psl_is_known : string -> bool;
  psl_domain_str : string -> option string;
  entry_size : Z;
}.

Record Entry (Cookie : Type) := mkEntry {
  en_cookie : Cookie;
  en_site : string;
  en_bytes : Z;
  en_used : Z;
  en_created : Z;
}.
Arguments mkEntry {Cookie}.
Arguments en_cookie {Cookie}.
Arguments en_site {Cookie}.
Arguments en_bytes {Cookie}.
Arguments en_used {Cookie}.
Arguments en_created {Cookie}.

Record BoundedJar (Cookie : Type) := mkBoundedJar {
  bj_entries : list (Entry Cookie);
  bj_clock : Z;
}.
Arguments mkBoundedJar {Cookie}.
Arguments bj_entries {Cookie}.
Arguments bj_clock {Cookie}.

Definition BoundedJar_default {Cookie} : BoundedJar Cookie := mkBoundedJar [] 0.

(** [Vec::dedup] and [binary_search] of a sorted vector of stamps. *)
Fixpoint dedup_stamps (l : list Z) : list Z :=
  match l with
  | a :: (b :: _) as l' => if a =? b then dedup_stamps l' else a :: dedup_stamps l'
  | _ => l
  end.

Fixpoint stamp_index (x : Z) (l : list Z) : option Z :=
  match l with
  | [] => None
  | y :: l' => if x =? y then Some 0 else (Z.succ <$> stamp_index x l')
  end.

(** [str::trim_end_matches] of a character. *)
Fixpoint trim_end_matches (c : ascii) (s : string) : string :=
  match s with
  | "" => ""
  | String x s' =>
      match trim_end_matches c s' with
      | "" => if Ascii.eqb x c then "" else String x ""
      | t => String x t
      end
  end.

(** [Iterator::min_by_key] (the first of the least) and [max_by_key] (the last
    of the greatest). *)
Definition min_by_key {A K} `{OrdKey K} (key : A -> K) (l : list A) : option A :=
  fold_left (fun best x =>
    match best with
    | None => Some x
    | Some b => match kcmp (key x) (key b) with Lt => Some x | _ => best end
    end) l None.

Definition max_by_key {A K} `{OrdKey K} (key : A -> K) (l : list A) : option A :=
  fold_left (fun best x =>
    match best with
    | None => Some x
    | Some b => match kcmp (key x) (key b) with Lt => best | _ => Some x end
    end) l None.

Section Jar.
Context {Cookie Url Time : Type} `{CookieStore Cookie Url Time}.
Implicit Types (es : list (Entry Cookie)) (j : BoundedJar Cookie).

(** [site_key]. *)
Definition site_key (domain : string) : string :=
  let domain := trim_end_matches "." domain in
  if psl_is_known domain then default domain (psl_domain_str domain) else domain.

(** [BoundedJar::purge_expired]. *)
Definition purge_expired (now : Time) j : BoundedJar Cookie :=
  mkBoundedJar (filter (fun e => ck_is_expired now (en_cookie e) = false) (bj_entries j)) (bj_clock j).

(** [BoundedJar::bytes] and [site_usage]. *)
Definition jar_bytes es : Z := foldr (fun e b => en_bytes e + b) 0 es.
Definition site_usage (site : string) es : Z * Z :=
  foldr (fun e u => if String.eqb (en_site e) site then (1 + u.1, en_bytes e + u.2) else u) (0, 0) es.

(** The stamps of the entries, sorted, each once. *)
Definition stamps_of es : list Z := dedup_stamps (merge_sort Z.le (concat (map (fun e => [en_used e; en_created e]) es))).

Definition rebase es : option (list (Entry Cookie)) :=
  let stamps := stamps_of es in
  mapM (fun e => u ← stamp_index (en_used e) stamps; c ← stamp_index (en_created e) stamps;
    Some (mkEntry (en_cookie e) (en_site e) (en_bytes e) u c)) es.

(** [BoundedJar::tick]. *)
Definition tick j : option (Z * BoundedJar Cookie) :=
  j ← (if bj_clock j =? U64_MAX then
         es ← rebase (bj_entries j); Some (mkBoundedJar es (Z.of_nat (List.length (stamps_of (bj_entries j)))))
       else Some j);
  Some (add64 (bj_clock j) 1, mkBoundedJar (bj_entries j) (add64 (bj_clock j) 1)).

(** The key [evict] takes the least of. *)
Definition evict_key (e : Entry Cookie) : Z * (Z * string) := (en_used e, (en_created e, ck_name (en_cookie e))).

(** [BoundedJar::evict]. *)
Definition evict (site : string) es : option (list (Entry Cookie)) :=
  '(i, _) ← min_by_key (fun ie => evict_key ie.2) (filter (fun ie => en_site ie.2 = site) (imap pair es)); Some (delete i es).

(** The first loop of [insert]. *)
Fixpoint make_site_room (fuel : nat) (site : string) (bytes : Z) es : option (list (Entry Cookie)) :=
  let '(count, total) := site_usage site es in
  if (count <? MAX_SITE_COUNT) && (total + bytes <=? MAX_SITE_BYTES) then Some es
  else match fuel with
  | O => None
  | S fuel' => es ← evict site es; make_site_room fuel' site bytes es
  end.

(** The site with the most bytes, then entries, then the last name. *)
Definition largest_site es : option string :=
  max_by_key (fun site => let '(count, total) := site_usage site es in ((total, count), site)) (map en_site es).

(** The second loop of [insert]. *)
Fixpoint make_jar_room (fuel : nat) (bytes : Z) es : option (list (Entry Cookie)) :=
  if (MAX_JAR_COUNT <=? Z.of_nat (List.length es)) || (MAX_JAR_BYTES <? jar_bytes es + bytes) then
    match fuel with
    | O => None
    | S fuel' => site ← largest_site es; es ← evict site es; make_jar_room fuel' bytes es
    end
  else Some es.

(** What identifies a cookie. *)
Definition cookie_key (c : Cookie) : option string * string * string := (ck_domain c, ck_path c, ck_name c).

(** [self.entries.iter().position(..)] of the entry with the same key. *)
Definition position_of (c : Cookie) es : option nat :=
  fst <$> list_find (fun e => cookie_key (en_cookie e) = cookie_key c) es.

(** [BoundedJar::insert]; the time passes between its two looks at expiry. *)
Definition insert_cookie (now now' : Time) (cookie : Cookie) (wire_bytes : Z) j : option (BoundedJar Cookie) :=
  let j := purge_expired now j in
  match ck_domain cookie with
  | None => Some j
  | Some domain =>
      let site := site_key domain in
      let bytes := wire_bytes + str_len domain + str_len (ck_path cookie) + str_len site + entry_size in
      if MAX_ITEM_BYTES <? bytes then Some j
      else
        '(used, j) ← tick j;
        let old := position_of cookie (bj_entries j) in
        let created := (i ← old; en_created <$> (bj_entries j !! i)) in
        let es := match old with Some i => delete i (bj_entries j) | None => bj_entries j end in
        if ck_is_expired now' cookie then Some (mkBoundedJar es (bj_clock j))
        else
          es ← make_site_room (List.length es) site bytes es;
          es ← make_jar_room (List.length es) bytes es;
          Some (mkBoundedJar (es ++ [mkEntry cookie site bytes used (default used created)]) (bj_clock j))
  end.

(** * The Cookie header *)

(** The key of [sort_by_key]: longer paths, then older, then as kept. *)
Definition sent_key es (i : nat) : Z * (Z * Z) :=
  from_option (fun e => (- str_len (ck_path (en_cookie e)), (en_created e, Z.of_nat i))) (0, (0, Z.of_nat i)) (es !! i).
Definition sent_before es (a b : nat) : Prop := kcmp (sent_key es a) (sent_key es b) <> Gt.

(** The indices of the entries that match, in the order kept. *)
Definition matching (url : Url) es : list nat :=
  filter (fun i => from_option (fun e => ck_matches (en_cookie e) url) false (es !! i) = true) (seq 0 (List.length es)).

Definition pair_size (c : Cookie) : Z := str_len (ck_name c) + 1 + str_len (ck_value c).

(** Whole cookies are skipped when they do not fit. *)
Fixpoint select es (indices : list nat) (none_yet : bool) (bytes : Z) : list nat :=
  match indices with
  | [] => []
  | i :: indices' =>
      match es !! i with
      | None => select es indices' none_yet bytes
      | Some e =>
          let added := pair_size (en_cookie e) + (if none_yet then 0 else 2) in
          if bytes + added <=? MAX_COOKIE_HEADER_BYTES then i :: select es indices' false (bytes + added)
          else select es indices' none_yet bytes
      end
  end.

Definition cookie_pair (c : Cookie) : string := ck_name c +:+ "=" +:+ ck_value c.

(** [BoundedJar::header]. *)
Definition jar_header (now : Time) (url : Url) j : option (option string * BoundedJar Cookie) :=
  let j := purge_expired now j in
  let es := bj_entries j in
  let selected := select es (merge_sort (sent_before es) (matching url es)) true 0 in
  match selected with
  | [] => Some (None, j)
  | _ =>
      '(used, j) ← tick j;
      Some (Some (join "; " (map (fun i => from_option (cookie_pair ∘ en_cookie) "" (bj_entries j !! i)) selected)),
        mkBoundedJar (imap (fun i e => if bool_decide (i ∈ selected)
            then mkEntry (en_cookie e) (en_site e) (en_bytes e) used (en_created e) else e) (bj_entries j)) (bj_clock j))
  end.
End Jar.

(** * Orders *)

(** A sort by a key. *)
#[export] Instance by_key_trans {A K} `{OrdKey K} (key : A -> K) : Transitive (fun a b => kcmp (key a) (key b) <> Gt).
Proof.
  intros a b c Hab Hbc Hac. apply kcmp_gt_lt in Hac. destruct (kcmp (key b) (key c)) eqn:E; [|..|done].
  - apply kcmp_eq in E. rewrite <- E in Hac. by apply kcmp_gt_lt in Hac.
  - apply Hab, kcmp_gt_lt. by apply (kcmp_trans _ (key c)).
Qed.

#[export] Instance by_key_total {A K} `{OrdKey K} (key : A -> K) : Total (fun a b => kcmp (key a) (key b) <> Gt).
Proof. intros a b. rewrite (kcmp_antisym (key a) (key b)). destruct (kcmp (key a) (key b)); simpl; auto. Qed.

(** * Least and greatest *)

Lemma kcmp_le_trans `{OrdKey K} a b c : kcmp a b <> Lt -> kcmp c b = Lt -> kcmp a c <> Lt.
Proof. intros Hab Hcb Hac. apply Hab. by apply (kcmp_trans a c b). Qed.

Lemma min_by_key_spec {A K} `{OrdKey K} (key : A -> K) (l : list A) :
  match min_by_key key l with
  | None => l = []
  | Some b => b ∈ l /\ forall x, x ∈ l -> kcmp (key x) (key b) <> Lt
  end.
Proof.
  unfold min_by_key. set (step := fun _ _ => _).
  assert (Hgen : forall l b seen, b ∈ seen -> (forall x, x ∈ seen -> kcmp (key x) (key b) <> Lt) ->
    exists b', fold_left step l (Some b) = Some b' /\ b' ∈ seen ++ l /\ forall x, x ∈ seen ++ l -> kcmp (key x) (key b') <> Lt).
  { clear l. induction l as [|x l IH]; intros b seen Hb Hmin; [exists b; by rewrite app_nil_r|]. cbn [fold_left].
    replace (seen ++ x :: l) with ((seen ++ [x]) ++ l) by (by rewrite <- app_assoc). unfold step at 2.
    assert (Hin : forall y, y ∈ seen ++ [x] <-> y ∈ seen \/ y = x) by (intros y; by rewrite elem_of_app, list_elem_of_singleton).
    destruct (kcmp (key x) (key b)) eqn:E; (apply IH; [apply Hin; auto|]); intros y [Hy|Hy]%Hin; try subst y; auto; try congruence.
    - by apply (kcmp_le_trans _ (key b)); [apply Hmin|].
    - by rewrite kcmp_refl. }
  destruct l as [|a l]; [done|]. destruct (Hgen l a [a]) as (b & E & Hin & Hmin).
  - by apply list_elem_of_singleton.
  - intros x ->%list_elem_of_singleton. by rewrite kcmp_refl.
  - simpl. rewrite E. by split.
Qed.

Lemma max_by_key_spec {A K} `{OrdKey K} (key : A -> K) (l : list A) :
  match max_by_key key l with
  | None => l = []
  | Some b => b ∈ l /\ forall x, x ∈ l -> kcmp (key b) (key x) <> Lt
  end.
Proof.
  unfold max_by_key. set (step := fun _ _ => _).
  assert (Hgen : forall l b seen, b ∈ seen -> (forall x, x ∈ seen -> kcmp (key b) (key x) <> Lt) ->
    exists b', fold_left step l (Some b) = Some b' /\ b' ∈ seen ++ l /\ forall x, x ∈ seen ++ l -> kcmp (key b') (key x) <> Lt).
  { clear l. induction l as [|x l IH]; intros b seen Hb Hmax; [exists b; by rewrite app_nil_r|]. cbn [fold_left].
    replace (seen ++ x :: l) with ((seen ++ [x]) ++ l) by (by rewrite <- app_assoc). unfold step at 2.
    assert (Hin : forall y, y ∈ seen ++ [x] <-> y ∈ seen \/ y = x) by (intros y; by rewrite elem_of_app, list_elem_of_singleton).
    destruct (kcmp (key x) (key b)) eqn:E; (apply IH; [apply Hin; auto|]); intros y [Hy|Hy]%Hin; try subst y; auto;
      try (by rewrite kcmp_refl).
    - apply kcmp_eq in E. rewrite E. by apply Hmax.
    - rewrite (kcmp_antisym (key x) (key b)), E. done.
    - intros Hlt. apply (Hmax y Hy). apply (kcmp_trans _ (key x)); [by apply kcmp_gt_lt|done]. }
  destruct l as [|a l]; [done|]. destruct (Hgen l a [a]) as (b & E & Hin & Hmax).
  - by apply list_elem_of_singleton.
  - intros x ->%list_elem_of_singleton. by rewrite kcmp_refl.
  - simpl. rewrite E. by split.
Qed.

(** * Stamps *)

Lemma dedup_stamps_in x l : x ∈ dedup_stamps l <-> x ∈ l.
Proof.
  induction l as [|a [|b l] IH]; [done|done|]. cbn [dedup_stamps] in *. destruct (Z.eqb_spec a b) as [->|].
  - rewrite IH, !elem_of_cons. tauto.
  - rewrite !(elem_of_cons _ _ a), IH. done.
Qed.

Lemma dedup_stamps_sorted l : StronglySorted Z.le l -> StronglySorted Z.lt (dedup_stamps l).
Proof.
  induction l as [|a l IH]; intros Hs; [constructor|]. inversion Hs as [|? ? Hs' Ha]. subst. specialize (IH Hs').
  destruct l as [|b l]; [by repeat constructor|].
  change (dedup_stamps (a :: b :: l)) with (if a =? b then dedup_stamps (b :: l) else a :: dedup_stamps (b :: l)).
  destruct (Z.eqb_spec a b) as [->|Hne]; [done|].
  constructor; [done|]. apply list.Forall_forall. intros x Hx. rewrite dedup_stamps_in in Hx.
  rewrite list.Forall_forall in Ha. pose proof (Ha b ltac:(by apply elem_of_cons; left)) as Hab.
  apply elem_of_cons in Hx as [->|Hx]; [lia|]. inversion Hs' as [|? ? _ Hb]. subst.
  rewrite list.Forall_forall in Hb. specialize (Hb x Hx). lia.
Qed.

Lemma stamp_index_spec l x : StronglySorted Z.lt l -> x ∈ l ->
  exists k, stamp_index x l = Some k /\ 0 <= k < Z.of_nat (List.length l).
Proof.
  intros Hs. induction Hs as [|a l Hs IH Ha]; intros Hx; [by apply elem_of_nil in Hx|]. cbn [stamp_index].
  destruct (Z.eqb_spec x a) as [->|Hne]; [exists 0; cbn [List.length]; split; [done|lia]|].
  apply elem_of_cons in Hx as [|Hx]; [done|]. destruct (IH Hx) as (k & -> & Hk). exists (Z.succ k). simpl. split; [done|lia].
Qed.

(** The position in the stamps is in the order of the stamps. *)
Lemma stamp_index_order l x y kx ky : StronglySorted Z.lt l -> stamp_index x l = Some kx -> stamp_index y l = Some ky ->
  (x ?= y) = (kx ?= ky).
Proof.
  assert (Hnn : forall l x k, stamp_index x l = Some k -> 0 <= k).
  { clear. induction l as [|a l IH]; intros x k; cbn [stamp_index]; [done|]. case_match; [intros [= <-]; lia|].
    destruct (stamp_index x l) eqn:E; [|done]. intros [= <-]. specialize (IH _ _ E). lia. }
  assert (Hin : forall l x k, stamp_index x l = Some k -> x ∈ l).
  { clear. induction l as [|a l IH]; intros x k; cbn [stamp_index]; [done|].
    destruct (Z.eqb_spec x a) as [->|]; [by intros _; apply elem_of_cons; left|].
    destruct (stamp_index x l) eqn:E; [|done]. intros _. apply elem_of_cons. right. by eapply IH. }
  intros Hs. revert kx ky. induction Hs as [|a l Hs IH Ha]; intros kx ky; cbn [stamp_index]; [done|].
  rewrite list.Forall_forall in Ha. destruct (Z.eqb_spec x a) as [->|Hx], (Z.eqb_spec y a) as [->|Hy].
  - intros [= <-] [= <-]. by rewrite !Z.compare_refl.
  - intros [= <-]. destruct (stamp_index y l) as [k|] eqn:E; [|done]. intros [= <-]. specialize (Ha y (Hin _ _ _ E)).
    specialize (Hnn _ _ _ E). rewrite (proj2 (Z.compare_lt_iff a y)), (proj2 (Z.compare_lt_iff 0 (Z.succ k))); [done|lia|lia].
  - destruct (stamp_index x l) as [k|] eqn:E; [|done]. intros [= <-] [= <-]. specialize (Ha x (Hin _ _ _ E)).
    specialize (Hnn _ _ _ E). rewrite (proj2 (Z.compare_gt_iff x a)), (proj2 (Z.compare_gt_iff (Z.succ k) 0)); [done|lia|lia].
  - destruct (stamp_index x l) as [k|] eqn:E; [|done]. destruct (stamp_index y l) as [k'|] eqn:E'; [|done].
    intros [= <-] [= <-]. rewrite (IH _ _ eq_refl eq_refl). destruct (Z.compare_spec k k'), (Z.compare_spec (Z.succ k) (Z.succ k')); lia || done.
Qed.

Section Keeping.
Context {Cookie Url Time : Type} `{CookieStore Cookie Url Time}.
Implicit Types (es : list (Entry Cookie)) (j : BoundedJar Cookie) (e : Entry Cookie).

(** An entry apart from its stamps. *)
Definition content e : Cookie * string * Z := (en_cookie e, en_site e, en_bytes e).

(** Two lists of entries that differ only in their stamps, which are in the
    same order. *)
Definition restamped es es' : Prop :=
  map content es = map content es' /\
  forall i i' a a' b b', es !! i = Some a -> es' !! i = Some a' -> es !! i' = Some b -> es' !! i' = Some b' ->
    (en_used a ?= en_used b) = (en_used a' ?= en_used b') /\ (en_created a ?= en_created b) = (en_created a' ?= en_created b').

Lemma restamped_refl es : restamped es es.
Proof. split; [done|]. intros i i' a a' b b' E1 E2 E3 E4. rewrite E1 in E2. rewrite E3 in E4. by simplify_eq. Qed.

Definition stamps_ok (clock : Z) es : Prop := Forall (fun e => 0 <= en_used e <= clock /\ 0 <= en_created e <= clock) es.

Lemma stamps_of_in es e : e ∈ es -> en_used e ∈ stamps_of es /\ en_created e ∈ stamps_of es.
Proof.
  intros He. unfold stamps_of. rewrite !dedup_stamps_in, !(merge_sort_Permutation Z.le).
  rewrite !list_elem_of_In, !in_concat. rewrite list_elem_of_In in He.
  split; exists [en_used e; en_created e]; (split; [by apply (in_map (fun e => [en_used e; en_created e]))|simpl; auto]).
Qed.

Lemma stamps_of_sorted es : StronglySorted Z.lt (stamps_of es).
Proof. apply dedup_stamps_sorted. apply (StronglySorted_merge_sort Z.le). Qed.

Lemma dedup_stamps_length l : (List.length (dedup_stamps l) <= List.length l)%nat.
Proof. induction l as [|a [|b l] IH]; [done|done|]. cbn [dedup_stamps]. case_match; simpl in *; lia. Qed.

Lemma stamps_of_length es : (List.length (stamps_of es) <= 2 * List.length es)%nat.
Proof.
  unfold stamps_of. etrans; [apply dedup_stamps_length|]. rewrite (merge_sort_Permutation Z.le).
  induction es as [|e es IH]; simpl; [done|]. lia.
Qed.

Lemma rebase_spec es : exists es', rebase es = Some es' /\ restamped es es' /\
  stamps_ok (Z.of_nat (List.length (stamps_of es))) es'.
Proof.
  set (stamps := stamps_of es).
  assert (Hgen : forall l, (forall e, e ∈ l -> e ∈ es) -> exists l',
    mapM (fun e => u ← stamp_index (en_used e) stamps; c ← stamp_index (en_created e) stamps;
      Some (mkEntry (en_cookie e) (en_site e) (en_bytes e) u c)) l = Some l' /\
    Forall2 (fun e e' => content e = content e' /\ stamp_index (en_used e) stamps = Some (en_used e') /\
      stamp_index (en_created e) stamps = Some (en_created e')) l l').
  { induction l as [|e l IH]; intros Hl; [by exists []|].
    destruct (stamps_of_in es e (Hl e ltac:(by apply elem_of_cons; left))) as [Hu Hc].
    destruct (stamp_index_spec stamps _ (stamps_of_sorted es) Hu) as (u & Eu & _).
    destruct (stamp_index_spec stamps _ (stamps_of_sorted es) Hc) as (c & Ec & _).
    destruct IH as (l' & El & Hl'); [intros e' He'; apply Hl; by apply elem_of_cons; right|].
    eexists. simpl. rewrite Eu. simpl. rewrite Ec. simpl. rewrite El. simpl. split; [done|]. by constructor. }
  destruct (Hgen es ltac:(done)) as (es' & E & Hall). exists es'. split; [exact E|]. split.
  - split.
    + clear -Hall. revert Hall. generalize es. intros l0 Hall. induction Hall as [|e e' l l' (Hc & _) _ IH]; [done|]. simpl. by rewrite Hc, IH.
    + intros i i' a a' b b' E1 E2 E3 E4.
      pose proof (Forall2_lookup_lr _ _ _ _ _ _ Hall E1 E2) as (_ & Ua & Ca).
      pose proof (Forall2_lookup_lr _ _ _ _ _ _ Hall E3 E4) as (_ & Ub & Cb).
      split; eapply stamp_index_order; eauto using stamps_of_sorted.
  - apply Forall_lookup. intros i e' He'. destruct (Forall2_lookup_r _ _ _ _ _ Hall He') as (e & He & _ & Hu & Hc).
    apply list_elem_of_lookup_2 in He. destruct (stamps_of_in es e He) as [Iu Ic].
    destruct (stamp_index_spec stamps _ (stamps_of_sorted es) Iu) as (u & Eu & Hub).
    destruct (stamp_index_spec stamps _ (stamps_of_sorted es) Ic) as (c & Ec & Hcb).
    rewrite Eu in Hu. rewrite Ec in Hc. simplify_eq. fold stamps. lia.
Qed.

(** A tick never panics, is later than every stamp and keeps their order, also
    when the clock is used up. *)
Lemma tick_spec j : 0 <= bj_clock j <= U64_MAX -> stamps_ok (bj_clock j) (bj_entries j) ->
  Z.of_nat (List.length (bj_entries j)) <= MAX_JAR_COUNT ->
  exists used j', tick j = Some (used, j') /\ used = bj_clock j' /\ 0 < used <= U64_MAX /\
    restamped (bj_entries j) (bj_entries j') /\
    Forall (fun e => 0 <= en_used e < used /\ 0 <= en_created e < used) (bj_entries j').
Proof.
  intros Hclock Hst Hlen. unfold tick. destruct (Z.eqb_spec (bj_clock j) U64_MAX) as [E|Hne].
  - destruct (rebase_spec (bj_entries j)) as (es' & -> & Hr & Hs). simpl.
    pose proof (stamps_of_length (bj_entries j)) as Hl. set (n := List.length (stamps_of (bj_entries j))) in *.
    unfold MAX_JAR_COUNT in Hlen.
    rewrite add64_small by lia. eexists _, _. split; [done|]. simpl. split; [done|].
    split; [unfold U64_MAX; lia|]. split; [done|]. eapply list.Forall_impl; [exact Hs|]. simpl. intros e. lia.
  - simpl. rewrite add64_small by (unfold U64_MAX in *; lia). eexists _, _. split; [done|]. simpl. split; [done|].
    split; [unfold U64_MAX in *; lia|]. split; [apply restamped_refl|].
    eapply list.Forall_impl; [exact Hst|]. simpl. intros e. lia.
Qed.

(** ** Eviction *)

Lemma evict_spec site es :
  match evict site es with
  | None => Forall (fun e => en_site e <> site) es
  | Some es' =>
      exists e, es ≡ₚ e :: es' /\ sublist es' es /\ en_site e = site /\
        forall x, x ∈ es -> en_site x = site -> kcmp (evict_key x) (evict_key e) <> Lt
  end.
Proof.
  unfold evict. pose proof (min_by_key_spec (fun ie => evict_key ie.2) (filter (fun ie => en_site ie.2 = site) (imap pair es))) as Hm.
  assert (Hin : forall i e, (i, e) ∈ imap pair es <-> es !! i = Some e).
  { intros i e. rewrite list_elem_of_lookup. split.
    - intros (k & Hk). rewrite list_lookup_imap in Hk. destruct (es !! k) as [e'|] eqn:E; [|done]. by injection Hk as <- <-.
    - intros He. exists i. by rewrite list_lookup_imap, He. }
  destruct (min_by_key _ _) as [[i e]|]; simpl.
  - destruct Hm as [[Hs Hie]%list_elem_of_filter Hmin]. apply Hin in Hie. simpl in Hs. exists e.
    split; [by apply delete_Permutation|]. split; [apply sublist_delete|]. split; [done|]. intros x Hx Hxs.
    apply list_elem_of_lookup in Hx as (k & Hk). apply (Hmin (k, x)). apply list_elem_of_filter. split; [done|]. by apply Hin.
  - apply list.Forall_forall. intros x Hx Hxs. apply list_elem_of_lookup in Hx as (k & Hk).
    apply (not_elem_of_nil (k, x)). rewrite <- Hm. apply list_elem_of_filter. split; [done|]. by apply Hin.
Qed.

Definition sizes_ok es : Prop := Forall (fun e => 0 <= en_bytes e <= MAX_ITEM_BYTES) es.

Lemma jar_bytes_perm es es' : es ≡ₚ es' -> jar_bytes es = jar_bytes es'.
Proof. intros Hl. induction Hl; simpl; lia. Qed.

Lemma site_usage_cons site e es : site_usage site (e :: es) =
  if String.eqb (en_site e) site then (1 + (site_usage site es).1, en_bytes e + (site_usage site es).2) else site_usage site es.
Proof. done. Qed.

Lemma site_usage_perm site es es' : es ≡ₚ es' -> site_usage site es = site_usage site es'.
Proof.
  intros Hl. induction Hl as [|x l l' _ IH|x y l|l1 l2 l3 _ IH1 _ IH2]; [done| | |congruence].
  - by rewrite !site_usage_cons, IH.
  - rewrite !site_usage_cons. destruct (String.eqb (en_site x) site), (String.eqb (en_site y) site); try done.
    cbn [fst snd]. f_equal; lia.
Qed.

Lemma site_usage_nonneg site es : sizes_ok es -> 0 <= (site_usage site es).1 /\ 0 <= (site_usage site es).2.
Proof.
  intros Hs. induction Hs as [|e es He _ IH]; [by split|]. rewrite site_usage_cons. case_match; simpl; lia.
Qed.

Lemma site_usage_zero site es : Forall (fun e => en_site e <> site) es -> site_usage site es = (0, 0).
Proof.
  intros Hs. induction Hs as [|e es He _ IH]; [done|]. rewrite site_usage_cons.
  destruct (String.eqb_spec (en_site e) site); [done|exact IH].
Qed.

Lemma jar_bytes_nonneg es : sizes_ok es -> 0 <= jar_bytes es.
Proof. intros Hs. induction Hs as [|e es He _ IH]; simpl; lia. Qed.

(** Fewer entries use less. *)
Lemma sublist_usage es es' : sublist es' es -> sizes_ok es ->
  sizes_ok es' /\ jar_bytes es' <= jar_bytes es /\ (List.length es' <= List.length es)%nat /\
  forall site, (site_usage site es').1 <= (site_usage site es).1 /\ (site_usage site es').2 <= (site_usage site es).2.
Proof.
  intros Hsub. induction Hsub as [|e l1 l2 _ IH|e l1 l2 _ IH]; intros Hs.
  - split; [done|]. split; [done|]. split; [done|]. done.
  - inversion Hs as [|? ? He Hs']. subst. destruct (IH Hs') as (I1 & I2 & I3 & I4).
    split; [by constructor|]. split; [simpl; lia|]. split; [simpl; lia|]. intros site. specialize (I4 site).
    rewrite !site_usage_cons. case_match; simpl; lia.
  - inversion Hs as [|? ? He Hs']. subst. destruct (IH Hs') as (I1 & I2 & I3 & I4).
    split; [done|]. split; [simpl; lia|]. split; [simpl; lia|]. intros site. specialize (I4 site).
    rewrite !site_usage_cons. case_match; simpl; lia.
Qed.

(** Room is made for a cookie in its site, by evictions from that site. *)
Lemma make_site_room_spec fuel site bytes es : sizes_ok es -> 0 <= bytes <= MAX_ITEM_BYTES -> (List.length es <= fuel)%nat ->
  exists es', make_site_room fuel site bytes es = Some es' /\ sublist es' es /\
    (site_usage site es').1 < MAX_SITE_COUNT /\ (site_usage site es').2 + bytes <= MAX_SITE_BYTES /\
    (forall e, e ∈ es -> en_site e <> site -> e ∈ es').
Proof.
  revert es. induction fuel as [|fuel IH]; intros es Hs Hb Hf; cbn [make_site_room].
  - assert (es = []) as -> by (destruct es; [done|simpl in Hf; lia]). simpl. unfold MAX_ITEM_BYTES, MAX_SITE_BYTES in *.
    rewrite (proj2 (Z.leb_le _ _)) by lia. exists []. unfold MAX_SITE_COUNT. simpl. split; [done|]. repeat (split; [done || lia|]). done.
  - destruct (site_usage site es) as [count total] eqn:Eu.
    destruct ((count <? MAX_SITE_COUNT) && (total + bytes <=? MAX_SITE_BYTES)) eqn:Ec.
    { apply andb_prop in Ec as [E1 E2]. apply Z.ltb_lt in E1. apply Z.leb_le in E2. exists es. rewrite Eu. by repeat split. }
    pose proof (evict_spec site es) as He. destruct (evict site es) as [es1|] eqn:Ee.
    + destruct He as (e & Hp & Hsub & Hes & _). simpl. destruct (sublist_usage es es1 Hsub Hs) as (S1 & _).
      apply Permutation_length in Hp as Hl. simpl in Hl. destruct (IH es1 S1 Hb ltac:(lia)) as (es' & E & Hsub' & U1 & U2 & Hk).
      exists es'. rewrite E. split; [done|]. split; [by trans es1|]. split; [done|]. split; [done|].
      intros x Hx Hxs. apply Hk; [|done]. rewrite Hp in Hx. apply elem_of_cons in Hx as [->|]; [congruence|done].
    + exfalso. rewrite (site_usage_zero _ _ He) in Eu. injection Eu as <- <-. simpl in Ec.
      unfold MAX_ITEM_BYTES, MAX_SITE_BYTES in *. rewrite (proj2 (Z.leb_le _ _)) in Ec by lia. done.
Qed.

Lemma largest_site_spec es : match largest_site es with
  | None => es = []
  | Some site => (exists e, e ∈ es /\ en_site e = site) /\
      forall e, e ∈ es -> (site_usage (en_site e) es).2 <= (site_usage site es).2
  end.
Proof.
  unfold largest_site. pose proof (max_by_key_spec (fun site => let '(count, total) := site_usage site es in ((total, count), site))
    (map en_site es)) as Hm. destruct (max_by_key _ _) as [site|].
  - destruct Hm as [Hin Hmax]. apply list_elem_of_In, in_map_iff in Hin as (e & He & Hin). split.
    + exists e. by rewrite list_elem_of_In.
    + intros x Hx. specialize (Hmax (en_site x)). destruct (site_usage (en_site x) es) as [n1 b1], (site_usage site es) as [n2 b2].
      simpl in *. destruct (Z.compare_spec b2 b1); try lia. exfalso. apply Hmax.
      * apply list_elem_of_In, in_map, list_elem_of_In. done.
      * done.
  - by apply map_eq_nil in Hm.
Qed.

(** Room is made in the jar, by evictions from the largest sites. *)
Lemma make_jar_room_spec fuel bytes es : sizes_ok es -> 0 <= bytes <= MAX_ITEM_BYTES -> (List.length es <= fuel)%nat ->
  exists es', make_jar_room fuel bytes es = Some es' /\ sublist es' es /\
    Z.of_nat (List.length es') < MAX_JAR_COUNT /\ jar_bytes es' + bytes <= MAX_JAR_BYTES.
Proof.
  revert es. induction fuel as [|fuel IH]; intros es Hs Hb Hf; cbn [make_jar_room].
  - assert (es = []) as -> by (destruct es; [done|simpl in Hf; lia]). unfold MAX_JAR_COUNT, MAX_JAR_BYTES, MAX_ITEM_BYTES in *. simpl.
    rewrite (proj2 (Z.ltb_ge _ _)) by lia. exists []. simpl. repeat (split; [done || lia|]). lia.
  - destruct ((MAX_JAR_COUNT <=? Z.of_nat (List.length es)) || (MAX_JAR_BYTES <? jar_bytes es + bytes)) eqn:Ec.
    2:{ apply orb_false_elim in Ec as [E1 E2]. apply Z.leb_gt in E1. apply Z.ltb_ge in E2. exists es. by repeat split. }
    pose proof (largest_site_spec es) as Hl. destruct (largest_site es) as [site|].
    + destruct Hl as [(e0 & He0 & Hs0) _]. simpl. pose proof (evict_spec site es) as He. destruct (evict site es) as [es1|].
      * destruct He as (e & Hp & Hsub & Hes & _). simpl. destruct (sublist_usage es es1 Hsub Hs) as (S1 & _).
        apply Permutation_length in Hp as Hlen. simpl in Hlen.
        destruct (IH es1 S1 Hb ltac:(lia)) as (es' & E & Hsub' & U1 & U2). exists es'. rewrite E. split; [done|]. split; [by trans es1|]. done.
      * rewrite list.Forall_forall in He. by destruct (He e0 He0).
    + subst es. unfold MAX_JAR_COUNT, MAX_JAR_BYTES, MAX_ITEM_BYTES in *. simpl in Ec.
      rewrite (proj2 (Z.ltb_ge _ _)) in Ec by lia. done.
Qed.

(** ** The invariant of a jar *)

(** The charge of a cookie. *)
Definition cookie_bytes (c : Cookie) (wire_bytes : Z) (domain : string) : Z :=
  wire_bytes + str_len domain + str_len (ck_path c) + str_len (site_key domain) + entry_size.

Definition keys_of es : list (option string * string * string) := map (fun e => cookie_key (en_cookie e)) es.

Lemma sublist_all (P : Entry Cookie -> Prop) es es' : sublist es' es -> Forall P es -> Forall P es'.
Proof. intros Hsub Hall. apply list.Forall_forall. intros x Hx. rewrite list.Forall_forall in Hall. apply Hall. by eapply elem_of_sublist. Qed.

Record jar_ok (clock : Z) es : Prop := {
  jo_sizes : sizes_ok es;
  jo_site : forall site, (site_usage site es).1 <= MAX_SITE_COUNT /\ (site_usage site es).2 <= MAX_SITE_BYTES;
  jo_count : Z.of_nat (List.length es) <= MAX_JAR_COUNT;
  jo_bytes : jar_bytes es <= MAX_JAR_BYTES;
  jo_keys : NoDup (keys_of es);
  jo_sites : Forall (fun e => site_key <$> ck_domain (en_cookie e) = Some (en_site e)) es;
  jo_stamps : stamps_ok clock es;
}.

Lemma jar_ok_sublist clock es es' : sublist es' es -> jar_ok clock es -> jar_ok clock es'.
Proof.
  intros Hsub []. destruct (sublist_usage es es' Hsub jo_sizes0) as (S1 & S2 & S3 & S4). constructor; [done|..].
  - intros site. specialize (jo_site0 site). specialize (S4 site). lia.
  - lia.
  - lia.
  - eapply sublist_NoDup; [exact jo_keys0|]. by apply (fmap_sublist (fun e => cookie_key (en_cookie e))).
  - by apply (sublist_all _ es).
  - by apply (sublist_all _ es).
Qed.

Lemma content_usage es es' : map content es = map content es' ->
  (forall site, site_usage site es = site_usage site es') /\ jar_bytes es = jar_bytes es' /\ List.length es = List.length es' /\
  keys_of es = keys_of es' /\ (sizes_ok es -> sizes_ok es') /\
  (Forall (fun e => site_key <$> ck_domain (en_cookie e) = Some (en_site e)) es ->
   Forall (fun e => site_key <$> ck_domain (en_cookie e) = Some (en_site e)) es').
Proof.
  revert es'. induction es as [|e es IH]; intros [|e' es']; try done. simpl. intros [= Hc Hs Hb Hl].
  destruct (IH es' Hl) as (I1 & I2 & I3 & I4 & I5 & I6). split; [|split; [|split; [|split; [|split]]]].
  - intros site. by rewrite Hs, Hb, I1.
  - by rewrite Hb, I2.
  - by rewrite I3.
  - simpl. by rewrite Hc, I4.
  - intros Hok. inversion Hok. subst. constructor; [by rewrite <- Hb|]. by apply I5.
  - intros Hok. inversion Hok. subst. constructor; [by rewrite <- Hc, <- Hs|]. by apply I6.
Qed.

Lemma jar_ok_restamp clock clock' es es' : map content es = map content es' -> stamps_ok clock' es' -> jar_ok clock es -> jar_ok clock' es'.
Proof.
  intros Hc Hst []. destruct (content_usage es es' Hc) as (I1 & I2 & I3 & I4 & I5 & I6).
  constructor; [by apply I5|by intros; rewrite <- I1|by rewrite <- I3|by rewrite <- I2|by rewrite <- I4|by apply I6|done].
Qed.

Lemma filter_all (P : Entry Cookie -> Prop) `{forall e, Decision (P e)} es : (forall e, e ∈ es -> P e) -> filter P es = es.
Proof.
  induction es as [|e es IH]; intros Hall; [done|]. rewrite filter_cons_True by (apply Hall, elem_of_cons; by left).
  f_equal. apply IH. intros x Hx. apply Hall, elem_of_cons. by right.
Qed.

(** The entries that another cookie does not replace. *)
Definition without (c : Cookie) es : list (Entry Cookie) := filter (fun e => cookie_key (en_cookie e) <> cookie_key c) es.

Lemma position_without c es : NoDup (keys_of es) ->
  match position_of c es with Some i => delete i es | None => es end = without c es.
Proof.
  unfold position_of, without. induction es as [|e es IH]; [done|]. intros Hnd. cbn [keys_of map] in Hnd.
  apply NoDup_cons in Hnd as [Hni Hnd]. specialize (IH Hnd). simpl.
  destruct (decide (cookie_key (en_cookie e) = cookie_key c)) as [E|E]; simpl.
  - rewrite filter_cons_False by (intros H'; by apply H'). symmetry. apply filter_all. intros x Hx Hk.
    apply Hni. rewrite E, <- Hk.
    apply (list_elem_of_fmap_2' (fun e => cookie_key (en_cookie e)) es x); done.
  - rewrite filter_cons_True by done. rewrite <- IH. by destruct (list_find _ es) as [[i x]|].
Qed.

Lemma keys_inj es x y : NoDup (keys_of es) -> x ∈ es -> y ∈ es -> cookie_key (en_cookie x) = cookie_key (en_cookie y) -> x = y.
Proof.
  intros Hnd (i & Hi)%list_elem_of_lookup (k & Hk)%list_elem_of_lookup E.
  assert (i = k) as ->; [|congruence]. eapply (NoDup_lookup _ _ _ _ Hnd); unfold keys_of; rewrite list_lookup_fmap; [by rewrite Hi|by rewrite Hk, E].
Qed.

Definition jar_inv j : Prop := 0 <= bj_clock j <= U64_MAX /\ jar_ok (bj_clock j) (bj_entries j).

Lemma purge_sublist now j : sublist (bj_entries (purge_expired now j)) (bj_entries j).
Proof. apply sublist_filter. Qed.

Lemma without_restamped c es es' : restamped es es' -> map content (without c es) = map content (without c es').
Proof.
  intros [Hc _]. revert es' Hc. induction es as [|e es IH]; intros [|e' es']; try done. cbn [map]. intros [= H1 H2 H3 Hl].
  specialize (IH es' Hl). unfold without in *. rewrite !filter_cons, H1. case_decide; [|exact IH].
  cbn [map]. unfold content at 1 3. by rewrite H1, H2, H3, IH.
Qed.

(** The rooms do nothing where there is room already. *)
Lemma make_site_room_room fuel site bytes es : (site_usage site es).1 < MAX_SITE_COUNT -> (site_usage site es).2 + bytes <= MAX_SITE_BYTES ->
  make_site_room fuel site bytes es = Some es.
Proof.
  intros H1 H2. destruct fuel; cbn [make_site_room]; destruct (site_usage site es) as [n b]; simpl in *;
    by rewrite (proj2 (Z.ltb_lt _ _) H1), (proj2 (Z.leb_le _ _) H2).
Qed.

Lemma make_jar_room_room fuel bytes es : Z.of_nat (List.length es) < MAX_JAR_COUNT -> jar_bytes es + bytes <= MAX_JAR_BYTES ->
  make_jar_room fuel bytes es = Some es.
Proof.
  intros H1 H2. destruct fuel; cbn [make_jar_room];
    by rewrite (proj2 (Z.leb_gt _ _) H1), (proj2 (Z.ltb_ge _ _) H2).
Qed.

Lemma jar_bytes_app es e : jar_bytes (es ++ [e]) = jar_bytes es + en_bytes e.
Proof. induction es as [|x es IH]; simpl; [lia|]. rewrite IH. lia. Qed.

Lemma site_usage_app site es e : site_usage site (es ++ [e]) =
  if String.eqb (en_site e) site then (1 + (site_usage site es).1, en_bytes e + (site_usage site es).2) else site_usage site es.
Proof. rewrite <- site_usage_cons. apply site_usage_perm. by rewrite Permutation_app_comm. Qed.

(** An entry with a key of its own goes in where there is room for it. *)
Lemma jar_ok_push clock es e : jar_ok clock es -> 0 <= en_bytes e <= MAX_ITEM_BYTES ->
  (site_usage (en_site e) es).1 < MAX_SITE_COUNT -> (site_usage (en_site e) es).2 + en_bytes e <= MAX_SITE_BYTES ->
  Z.of_nat (List.length es) < MAX_JAR_COUNT -> jar_bytes es + en_bytes e <= MAX_JAR_BYTES ->
  cookie_key (en_cookie e) ∉ keys_of es -> site_key <$> ck_domain (en_cookie e) = Some (en_site e) ->
  0 <= en_used e <= clock -> 0 <= en_created e <= clock -> jar_ok clock (es ++ [e]).
Proof.
  intros [] Hb U1 U2 L1 L2 Hk Hd T1 T2. constructor.
  - apply Forall_app. split; [done|]. by constructor.
  - intros site. specialize (jo_site0 site). rewrite site_usage_app. destruct (String.eqb_spec (en_site e) site) as [<-|]; [simpl; lia|done].
  - rewrite length_app. simpl. lia.
  - by rewrite jar_bytes_app.
  - unfold keys_of. rewrite map_app. apply NoDup_app. split; [done|]. split; [|apply NoDup_singleton].
    intros k Hin ->%list_elem_of_singleton. done.
  - apply Forall_app. split; [done|]. by constructor.
  - apply Forall_app. split; [done|]. by constructor.
Qed.

Lemma without_key c es es' : sublist es' (without c es) -> cookie_key c ∉ keys_of es'.
Proof.
  intros Hsub Hin. apply list_elem_of_fmap_1 in Hin as (e & He & Hin). apply (elem_of_sublist _ _ _ Hin) in Hsub.
  apply list_elem_of_filter in Hsub as [Hne _]. done.
Qed.

(** What an insert that is kept does, its evictions apart. *)
Lemma insert_kept_spec now now' c wire j domain : jar_inv j -> 0 <= wire -> 0 <= entry_size -> ck_domain c = Some domain ->
  cookie_bytes c wire domain <= MAX_ITEM_BYTES ->
  exists clock es, 0 < clock <= U64_MAX /\ restamped (bj_entries (purge_expired now j)) es /\
    Forall (fun e => 0 <= en_used e < clock /\ 0 <= en_created e < clock) es /\ jar_ok clock es /\
    insert_cookie now now' c wire j =
      if ck_is_expired now' c then Some (mkBoundedJar (without c es) clock)
      else es1 ← make_site_room (List.length (without c es)) (site_key domain) (cookie_bytes c wire domain) (without c es);
        es2 ← make_jar_room (List.length es1) (cookie_bytes c wire domain) es1;
        Some (mkBoundedJar (es2 ++ [mkEntry c (site_key domain) (cookie_bytes c wire domain) clock
          (default clock (i ← position_of c es; en_created <$> (es !! i)))]) clock).
Proof.
  intros [Hclock Hok] Hw He Hd Hb.
  pose proof (jar_ok_sublist _ _ _ (purge_sublist now j) Hok) as Hp.
  destruct (tick_spec (purge_expired now j) Hclock (jo_stamps _ _ Hp) (jo_count _ _ Hp)) as (used & j' & Et & Hu & Hur & Hr & Hst).
  assert (Hok' : jar_ok (bj_clock j') (bj_entries j')).
  { apply (jar_ok_restamp (bj_clock j) _ (bj_entries (purge_expired now j))); [apply Hr| |done].
    eapply list.Forall_impl; [exact Hst|]. simpl. intros e. lia. }
  exists used, (bj_entries j'). rewrite Hu in *. split; [done|]. split; [done|]. split; [done|]. split; [done|].
  unfold insert_cookie. rewrite Hd. fold (cookie_bytes c wire domain). rewrite (proj2 (Z.ltb_ge _ _) Hb), Et. cbn [mbind option_bind].
  rewrite (position_without c _ (jo_keys _ _ Hok')). done.
Qed.

(** What is kept of the entries [es] when the cookie goes in. *)
Definition makes_room (site : string) (bytes : Z) es kept : Prop :=
  sublist kept es /\ (site_usage site kept).1 < MAX_SITE_COUNT /\ (site_usage site kept).2 + bytes <= MAX_SITE_BYTES /\
  Z.of_nat (List.length kept) < MAX_JAR_COUNT /\ jar_bytes kept + bytes <= MAX_JAR_BYTES /\
  ((site_usage site es).1 < MAX_SITE_COUNT -> (site_usage site es).2 + bytes <= MAX_SITE_BYTES ->
   Z.of_nat (List.length es) < MAX_JAR_COUNT -> jar_bytes es + bytes <= MAX_JAR_BYTES -> kept = es).

Lemma rooms_spec site bytes es : sizes_ok es -> 0 <= bytes <= MAX_ITEM_BYTES ->
  exists es1 kept, make_site_room (List.length es) site bytes es = Some es1 /\ make_jar_room (List.length es1) bytes es1 = Some kept /\
    makes_room site bytes es kept.
Proof.
  intros Hs Hb. destruct (make_site_room_spec (List.length es) site bytes es Hs Hb ltac:(lia)) as (es1 & E1 & Sub1 & U1 & U2 & _).
  destruct (sublist_usage es es1 Sub1 Hs) as (S1 & S2 & S3 & S4).
  destruct (make_jar_room_spec (List.length es1) bytes es1 S1 Hb ltac:(lia)) as (es2 & E2 & Sub2 & L1 & L2).
  destruct (sublist_usage es1 es2 Sub2 S1) as (_ & _ & _ & S4'). specialize (S4' site).
  exists es1, es2. split; [done|]. split; [done|]. split; [by trans es1|]. split; [lia|]. split; [lia|]. split; [done|]. split; [done|].
  intros R1 R2 R3 R4. rewrite make_site_room_room in E1 by done. injection E1 as <-. rewrite make_jar_room_room in E2 by done. by injection E2.
Qed.

Lemma cookie_bytes_nonneg c wire domain : 0 <= wire -> 0 <= entry_size -> 0 <= cookie_bytes c wire domain.
Proof.
  intros Hw He. unfold cookie_bytes. pose proof (str_len_nonneg domain). pose proof (str_len_nonneg (ck_path c)).
  pose proof (str_len_nonneg (site_key domain)). lia.
Qed.

(** The stamp of the entry replaced is one of the entries'. *)
Lemma created_bound c clock es : Forall (fun e => 0 <= en_used e < clock /\ 0 <= en_created e < clock) es ->
  0 < clock -> 0 <= default clock (i ← position_of c es; en_created <$> (es !! i)) <= clock.
Proof.
  intros Hall Hc. destruct (position_of c es) as [i|]; simpl; [|lia]. destruct (es !! i) as [e|] eqn:E; simpl; [|lia].
  rewrite list.Forall_forall in Hall. specialize (Hall e (list_elem_of_lookup_2 _ _ _ E)). simpl in Hall. lia.
Qed.

Lemma stored_ok c clock es kept wire domain : jar_ok clock es ->
  Forall (fun e => 0 <= en_used e < clock /\ 0 <= en_created e < clock) es -> 0 < clock <= U64_MAX ->
  0 <= cookie_bytes c wire domain <= MAX_ITEM_BYTES -> ck_domain c = Some domain ->
  makes_room (site_key domain) (cookie_bytes c wire domain) (without c es) kept ->
  jar_ok clock (kept ++ [mkEntry c (site_key domain) (cookie_bytes c wire domain) clock
    (default clock (i ← position_of c es; en_created <$> (es !! i)))]).
Proof.
  intros Hok Hst Hc Hb Hd (Sub & U1 & U2 & L1 & L2 & _).
  apply jar_ok_push; simpl; try done; try lia.
  - eapply jar_ok_sublist; [exact Sub|]. by apply (jar_ok_sublist _ es); [apply sublist_filter|].
  - by apply (without_key c es).
  - by rewrite Hd.
  - by apply created_bound; [|lia].
Qed.

Lemma insert_inv now now' c wire j : jar_inv j -> 0 <= wire -> 0 <= entry_size ->
  exists j', insert_cookie now now' c wire j = Some j' /\ jar_inv j'.
Proof.
  intros Hj Hw He. destruct (ck_domain c) as [domain|] eqn:Hd.
  2:{ exists (purge_expired now j). unfold insert_cookie. rewrite Hd. split; [done|]. destruct Hj as [Hc Hok].
      split; [done|]. by apply (jar_ok_sublist _ (bj_entries j)); [apply purge_sublist|]. }
  destruct (Z.le_gt_cases (cookie_bytes c wire domain) MAX_ITEM_BYTES) as [Hb|Hb].
  2:{ exists (purge_expired now j). unfold insert_cookie. rewrite Hd. fold (cookie_bytes c wire domain).
      rewrite (proj2 (Z.ltb_lt _ _) Hb). split; [done|]. destruct Hj as [Hc Hok].
      split; [done|]. by apply (jar_ok_sublist _ (bj_entries j)); [apply purge_sublist|]. }
  destruct (insert_kept_spec now now' c wire j domain Hj Hw He Hd Hb) as (clock & es & Hc & _ & Hst & Hok & ->).
  pose proof (cookie_bytes_nonneg c wire domain Hw He) as Hnn.
  destruct (ck_is_expired now' c).
  - eexists. split; [done|]. split; [simpl; lia|]. by apply (jar_ok_sublist _ es); [apply sublist_filter|].
  - destruct (rooms_spec (site_key domain) (cookie_bytes c wire domain) (without c es)) as (es1 & kept & E1 & E2 & Hr);
      [|lia|].
    { eapply sublist_usage; [apply sublist_filter|]. apply Hok. }
    rewrite E1. cbn [mbind option_bind]. rewrite E2. cbn [mbind option_bind]. eexists. split; [done|]. split; [simpl; lia|]. cbn [bj_clock bj_entries].
    by apply stored_ok.
Qed.

(** Storing a cookie never panics and its eviction loops end, from any jar
    within its bounds: the result is a jar within its bounds (number and bytes
    of the entries, per site and in total, one entry per domain, path and
    name, stamps no later than the clock). *)
Theorem insert_total now now' c wire j : jar_inv j -> 0 <= wire -> 0 <= entry_size ->
  exists j', insert_cookie now now' c wire j = Some j' /\ jar_inv j'.
Proof. apply insert_inv. Qed.

(** A cookie that is neither too large nor expired is the last entry of the
    jar afterwards, newest in use; the entry it replaces is gone and lends it
    its age, the entries kept are in their order with their contents, and
    without pressure on the bounds all of them are kept. An expired one only
    removes the entry it replaces. *)
Theorem insert_stores now now' c wire j domain : jar_inv j -> 0 <= wire -> 0 <= entry_size -> ck_domain c = Some domain ->
  cookie_bytes c wire domain <= MAX_ITEM_BYTES ->
  exists clock es, restamped (bj_entries (purge_expired now j)) es /\
    if ck_is_expired now' c then insert_cookie now now' c wire j = Some (mkBoundedJar (without c es) clock)
    else exists kept e, insert_cookie now now' c wire j = Some (mkBoundedJar (kept ++ [e]) clock) /\
      makes_room (site_key domain) (cookie_bytes c wire domain) (without c es) kept /\
      content e = (c, site_key domain, cookie_bytes c wire domain) /\ en_used e = clock /\
      Forall (fun x => en_used x < clock /\ cookie_key (en_cookie x) <> cookie_key c) kept /\
      (forall x, x ∈ es -> cookie_key (en_cookie x) = cookie_key c -> en_created e = en_created x).
Proof.
  intros Hj Hw He Hd Hb.
  destruct (insert_kept_spec now now' c wire j domain Hj Hw He Hd Hb) as (clock & es & Hc & Hr & Hst & Hok & ->).
  pose proof (cookie_bytes_nonneg c wire domain Hw He) as Hnn.
  exists clock, es. split; [done|]. destruct (ck_is_expired now' c); [done|].
  destruct (rooms_spec (site_key domain) (cookie_bytes c wire domain) (without c es)) as (es1 & kept & E1 & E2 & Hm); [|lia|].
  { eapply sublist_usage; [apply sublist_filter|]. apply Hok. }
  rewrite E1. cbn [mbind option_bind]. rewrite E2. cbn [mbind option_bind].
  eexists kept, _. split; [done|]. split; [done|]. split; [done|]. split; [done|]. split.
  - apply list.Forall_forall. intros x Hx. pose proof (elem_of_sublist _ _ _ Hx (proj1 Hm)) as Hin.
    apply list_elem_of_filter in Hin as [Hk Hin]. split; [|done]. rewrite list.Forall_forall in Hst. specialize (Hst x Hin). simpl in Hst. lia.
  - intros x Hx Hk. cbn [en_created]. unfold position_of.
    destruct (list_find _ es) as [[i y]|] eqn:Ef.
    + apply list_find_Some in Ef as (Hi & Hky & _). cbn [fmap option_fmap option_map fst mbind option_bind]. rewrite Hi. simpl. f_equal.
      apply (keys_inj es); [apply Hok|by eapply list_elem_of_lookup_2|done|congruence].
    + apply list_find_None in Ef. rewrite list.Forall_forall in Ef. by destruct (Ef x Hx).
Qed.

(** ** The Cookie header *)

(** The bytes of the pairs with their separators. *)
Definition pair_sum es (none_yet : bool) (indices : list nat) : Z :=
  foldr (fun i n => from_option (fun e => pair_size (en_cookie e)) 0 (es !! i) + 2 + n) (if none_yet then -2 else 0) indices.

Lemma pair_sum_first es i l : pair_sum es true (i :: l) = pair_sum es false (i :: l) - 2.
Proof. unfold pair_sum. revert i. induction l as [|k l IH]; intros i; simpl in *; [lia|]. specialize (IH k). lia. Qed.

Lemma pair_sum_nonneg es l : 0 <= pair_sum es false l.
Proof.
  induction l as [|i l IH]; simpl; [done|]. fold (pair_sum es false l). unfold pair_size.
  destruct (es !! i) as [e|]; simpl; [|lia]. pose proof (str_len_nonneg (ck_name (en_cookie e))). pose proof (str_len_nonneg (ck_value (en_cookie e))). lia.
Qed.

(** The pairs selected fit. *)
Lemma select_fits es indices none_yet bytes : bytes <= MAX_COOKIE_HEADER_BYTES ->
  select es indices none_yet bytes <> [] -> bytes + pair_sum es none_yet (select es indices none_yet bytes) <= MAX_COOKIE_HEADER_BYTES.
Proof.
  revert none_yet bytes. induction indices as [|i indices IH]; intros none_yet bytes Hb; [done|]. cbn [select].
  destruct (es !! i) as [e|] eqn:Ei; [|by apply IH].
  destruct (Z.leb_spec (bytes + (pair_size (en_cookie e) + (if none_yet then 0 else 2))) MAX_COOKIE_HEADER_BYTES) as [Hle|]; [|by apply IH].
  intros _. set (b' := bytes + _) in *. destruct (select es indices false b') as [|k l] eqn:El.
  - unfold pair_sum. simpl. rewrite Ei. simpl. subst b'. destruct none_yet; lia.
  - specialize (IH false b' Hle). rewrite El in IH. specialize (IH ltac:(done)).
    destruct none_yet; [rewrite pair_sum_first|]; unfold pair_sum in *; cbn [foldr] in *; rewrite Ei; cbn [from_option]; subst b'; lia.
Qed.

Lemma select_sublist es indices none_yet bytes : sublist (select es indices none_yet bytes) indices.
Proof.
  revert none_yet bytes. induction indices as [|i indices IH]; intros none_yet bytes; [constructor|]. cbn [select].
  repeat case_match; by constructor.
Qed.

(** When they all fit, all are sent. *)
Lemma select_all es indices none_yet bytes : Forall (fun i => is_Some (es !! i)) indices ->
  bytes + pair_sum es none_yet indices <= MAX_COOKIE_HEADER_BYTES -> select es indices none_yet bytes = indices.
Proof.
  intros Hall. revert none_yet bytes. induction Hall as [|i indices [e Ei] _ IH]; intros none_yet bytes Hb; [done|].
  cbn [select]. rewrite Ei. pose proof (pair_sum_nonneg es indices) as Hnn.
  assert (Hs : pair_sum es none_yet (i :: indices) = pair_size (en_cookie e) + (if none_yet then 0 else 2) + pair_sum es false indices).
  { destruct none_yet; [rewrite pair_sum_first|]; unfold pair_sum; cbn [foldr]; rewrite Ei; cbn [from_option]; lia. }
  rewrite Hs in Hb. rewrite (proj2 (Z.leb_le _ _)) by lia. f_equal. apply IH. lia.
Qed.

Definition header_of es (indices : list nat) : string :=
  join "; " (map (fun i => from_option (cookie_pair ∘ en_cookie) "" (es !! i)) indices).

Lemma header_length es indices : Forall (fun i => is_Some (es !! i)) indices -> indices <> [] ->
  str_len (header_of es indices) = pair_sum es true indices.
Proof.
  intros Hall. induction Hall as [|i indices [e Ei] Hall IH]; [done|]. intros _.
  assert (Hp : str_len (cookie_pair (en_cookie e)) = pair_size (en_cookie e)).
  { unfold cookie_pair, pair_size. rewrite !str_len_app. unfold str_len. simpl. lia. }
  destruct indices as [|k l].
  - unfold header_of, join, pair_sum. simpl. rewrite Ei. simpl. rewrite Hp. lia.
  - specialize (IH ltac:(done)). rewrite pair_sum_first in IH |- *.
    change (header_of es (i :: k :: l)) with (from_option (cookie_pair ∘ en_cookie) "" (es !! i) +:+ "; " +:+ header_of es (k :: l)).
    rewrite !str_len_app, IH, Ei. cbn [from_option compose]. rewrite Hp. unfold pair_sum. cbn [foldr]. rewrite Ei. cbn [from_option].
    change (str_len "; ") with 2. lia.
Qed.

(** The entries that match, in the order they are sent. *)
Definition sending (url : Url) es : list nat := merge_sort (sent_before es) (matching url es).

Lemma sending_spec url es : StronglySorted (sent_before es) (sending url es) /\
  forall i, i ∈ sending url es <-> exists e, es !! i = Some e /\ ck_matches (en_cookie e) url = true.
Proof.
  split; [apply (StronglySorted_merge_sort (sent_before es))|]. intros i. unfold sending.
  rewrite (merge_sort_Permutation (sent_before es)). unfold matching. rewrite list_elem_of_filter, elem_of_seq. split.
  - intros [Hm _]. destruct (es !! i) as [e|]; [|done]. by exists e.
  - intros (e & He & Hm). rewrite He. apply lookup_lt_Some in He. split; [done|]. change (List.length es) with (length es). lia.
Qed.

Lemma content_lookup es es' i : map content es = map content es' -> content <$> (es !! i) = content <$> (es' !! i).
Proof. intros Hc. rewrite <- !list_lookup_fmap. change (map content es !! i = map content es' !! i). by rewrite Hc. Qed.

Lemma header_of_content es es' l : map content es = map content es' -> header_of es l = header_of es' l.
Proof.
  intros Hc. unfold header_of. f_equal. apply map_ext. intros i. pose proof (content_lookup es es' i Hc) as Hl.
  destruct (es !! i) as [x|], (es' !! i) as [y|]; try done. cbn [fmap option_fmap option_map] in Hl. injection Hl as Hxy _ _. cbn [from_option compose]. by rewrite Hxy.
Qed.

(** What sending does to the entries. *)
Definition touched (used : Z) (sent : list nat) es : list (Entry Cookie) :=
  imap (fun i e => if bool_decide (i ∈ sent) then mkEntry (en_cookie e) (en_site e) (en_bytes e) used (en_created e) else e) es.

Lemma touch_content used sent es : map content (touched used sent es) = map content es.
Proof. unfold touched. change (content <$> imap (fun i e => if bool_decide (i ∈ sent) then mkEntry (en_cookie e) (en_site e) (en_bytes e) used (en_created e) else e) es = content <$> es). apply list_eq. intros i. rewrite !list_lookup_fmap, list_lookup_imap. destruct (es !! i); simpl; [|done]. by case_match. Qed.

Lemma touch_stamps used sent es : 0 <= used -> Forall (fun e => 0 <= en_used e < used /\ 0 <= en_created e < used) es ->
  stamps_ok used (touched used sent es).
Proof.
  intros Hu Hall. apply Forall_lookup. intros i e He. unfold touched in He. rewrite list_lookup_imap in He. destruct (es !! i) as [x|] eqn:E; [|done].
  rewrite Forall_lookup in Hall. specialize (Hall i x E). simpl in *. injection He as <-. case_match; simpl; lia.
Qed.

Lemma touch_newest used es sent i e : Forall (fun e => 0 <= en_used e < used /\ 0 <= en_created e < used) es ->
  i ∈ sent -> touched used sent es !! i = Some e ->
  en_used e = used /\ forall k e', k ∉ sent -> touched used sent es !! k = Some e' -> en_used e' < en_used e.
Proof.
  intros Hall Hi He. unfold touched in *. rewrite list_lookup_imap in He. destruct (es !! i) as [x|]; [|done]. simpl in He.
  rewrite bool_decide_eq_true_2 in He by done. injection He as <-. split; [done|]. intros k e' Hk He'.
  rewrite list_lookup_imap in He'. destruct (es !! k) as [y|] eqn:Ey; [|done]. simpl in He'. rewrite bool_decide_eq_false_2 in He' by done.
  injection He' as <-. rewrite Forall_lookup in Hall. specialize (Hall k y Ey). simpl in *. lia.
Qed.

Lemma jar_header_spec now url j : jar_inv j ->
  exists r j' sent, jar_header now url j = Some (r, j') /\ jar_inv j' /\
    let es := bj_entries (purge_expired now j) in
    map content (bj_entries j') = map content es /\
    sublist sent (sending url es) /\ (pair_sum es true (sending url es) <= MAX_COOKIE_HEADER_BYTES -> sent = sending url es) /\
    match sent, r with
    | [], None => True
    | _ :: _, Some h => h = header_of es sent /\ str_len h <= MAX_COOKIE_HEADER_BYTES /\
        forall i e, i ∈ sent -> bj_entries j' !! i = Some e -> en_used e = bj_clock j' /\ forall k e', k ∉ sent -> bj_entries j' !! k = Some e' -> en_used e' < en_used e
    | _, _ => False
    end.
Proof.
  intros [Hclock Hok]. pose proof (jar_ok_sublist _ _ _ (purge_sublist now j) Hok) as Hp.
  unfold jar_header. fold (sending url (bj_entries (purge_expired now j))). set (es := bj_entries (purge_expired now j)) in *.
  set (sent := select es (sending url es) true 0).
  assert (Hsome : Forall (fun i => is_Some (es !! i)) (sending url es)).
  { apply list.Forall_forall. intros i Hi. apply (proj2 (sending_spec url es)) in Hi as (e & He & _). by exists e. }
  pose proof (select_sublist es (sending url es) true 0) as Hsub. pose proof (select_all es (sending url es) true 0 Hsome) as Hall.
  pose proof (select_fits es (sending url es) true 0 ltac:(done)) as Hfit. fold sent in Hsub, Hall, Hfit.
  destruct sent as [|i0 sel] eqn:Es.
  { eexists None, _, []. split; [done|]. split; [by split|]. cbv zeta. split; [done|]. split; [done|]. split; [exact Hall|]. done. }
  rewrite <- Es in *.
  assert (Hss : Forall (fun i => is_Some (es !! i)) sent) by (apply list.Forall_forall; intros i Hi; rewrite list.Forall_forall in Hsome; apply Hsome; by apply (elem_of_sublist sent _ i Hi)).
  destruct (tick_spec (purge_expired now j) Hclock (jo_stamps _ _ Hp) (jo_count _ _ Hp)) as (used & j' & -> & Hu & Hur & Hr & Hst).
  fold es in Hr. cbn [mbind option_bind]. fold (touched used sent (bj_entries j')). set (touch := touched used sent (bj_entries j')).
  assert (Hc : map content touch = map content (bj_entries j')) by apply touch_content.
  eexists (Some _), _, sent. split; [done|]. split; [|split; [|split; [done|split; [exact Hall|]]]].
  - split; [simpl; lia|]. cbn [bj_clock bj_entries]. apply (jar_ok_restamp (bj_clock j) _ es); [by rewrite Hc, (proj1 Hr)| |done].
    rewrite <- Hu. apply touch_stamps; [lia|done].
  - cbn [bj_entries]. by rewrite Hc, (proj1 Hr).
  - cbn [bj_entries bj_clock]. fold (header_of (bj_entries j') sent). rewrite <- (header_of_content es) by apply (proj1 Hr).
    assert (Hne : sent <> []) by congruence. clearbody sent. destruct sent as [|s0 sent0]; [done|]. split; [done|].
    split. { rewrite header_length by done. by apply Hfit. }
    intros i e Hi He. rewrite <- Hu. by apply (touch_newest used (bj_entries j') (s0 :: sent0) i).
Qed.

(** The Cookie header of a request is at most 8 KiB of whole pairs: of the
    unexpired cookies that match the URL, longest paths and then oldest first,
    those that fit, all of them when they all fit; it is a panic-free read of
    the jar that only makes the cookies sent the newest in use. *)
Theorem header_whole_pairs now url j : jar_inv j ->
  exists r j' sent, jar_header now url j = Some (r, j') /\ jar_inv j' /\
    let es := bj_entries (purge_expired now j) in
    map content (bj_entries j') = map content es /\
    sublist sent (sending url es) /\ (pair_sum es true (sending url es) <= MAX_COOKIE_HEADER_BYTES -> sent = sending url es) /\
    match sent, r with
    | [], None => True
    | _ :: _, Some h => h = header_of es sent /\ str_len h <= MAX_COOKIE_HEADER_BYTES /\
        forall i e, i ∈ sent -> bj_entries j' !! i = Some e -> en_used e = bj_clock j' /\ forall k e', k ∉ sent -> bj_entries j' !! k = Some e' -> en_used e' < en_used e
    | _, _ => False
    end.
Proof. apply jar_header_spec. Qed.

(** The eviction that makes room in a site takes only entries of that site,
    the least recently used first: no entry that goes was used later than one
    of the site that stays (nor, of the same use, stored later). *)
Theorem site_room_is_lru fuel site bytes es : sizes_ok es -> 0 <= bytes <= MAX_ITEM_BYTES -> (List.length es <= fuel)%nat ->
  exists kept, make_site_room fuel site bytes es = Some kept /\ sublist kept es /\
    (forall e, e ∈ es -> en_site e <> site -> e ∈ kept) /\
    forall gone stays, gone ∈ es -> gone ∉ kept -> stays ∈ kept -> en_site stays = site ->
      kcmp (evict_key stays) (evict_key gone) <> Lt.
Proof.
  revert es. induction fuel as [|fuel IH]; intros es Hs Hb Hf.
  - assert (es = []) as -> by (destruct es; [done|simpl in Hf; lia]).
    destruct (make_site_room_spec 0 site bytes [] Hs Hb ltac:(done)) as (kept & E & Sub & _ & _ & Hk).
    exists kept. split; [done|]. split; [done|]. split; [done|]. intros gone ? Hg. by apply elem_of_nil in Hg.
  - destruct (make_site_room_spec (S fuel) site bytes es Hs Hb Hf) as (kept & E & Sub & _ & _ & Hk).
    exists kept. split; [done|]. split; [done|]. split; [done|]. cbn [make_site_room] in E.
    destruct (site_usage site es) as [count total]. case_match; [by injection E as <-|].
    pose proof (evict_spec site es) as He. destruct (evict site es) as [es1|]; [|done]. cbn [mbind option_bind] in E.
    destruct He as (e & Hp & Hsub & Hes & Hleast). apply Permutation_length in Hp as Hl. simpl in Hl.
    destruct (IH es1 ltac:(by eapply sublist_usage) Hb ltac:(lia)) as (kept' & E' & Sub' & _ & Hlru).
    rewrite E in E'. injection E' as <-. intros gone stays Hg Hng Hst Hss.
    rewrite Hp in Hg. apply elem_of_cons in Hg as [->|Hg]; [|by apply Hlru]. apply Hleast; [|done].
    by apply (elem_of_sublist kept _ stays Hst).
Qed.
End Keeping.

(** * Witnesses *)

(** Cookies with an exact host, a path and an expiry time. *)
Record DemoCookie := mkDemoCookie {
  dc_domain : option string; dc_path : string; dc_name : string; dc_value : string; dc_expires : Z
}.

#[export] Instance demo_cookies : CookieStore DemoCookie string Z := {|
  ck_domain := dc_domain; ck_path := dc_path; ck_name := dc_name; ck_value := dc_value;
  ck_is_expired := fun now c => dc_expires c <=? now;
  ck_matches := fun c url => bool_decide (dc_domain c = Some url);
  psl_is_known := fun d => String.eqb d "www.ferrum.test";
  psl_domain_str := fun d => if String.eqb d "www.ferrum.test" then Some "ferrum.test" else None;
  entry_size := 264;
|}.

Definition demo_cookie (host path name value : string) : DemoCookie := mkDemoCookie (Some host) path name value 100.

(** A jar whose clock is used up. *)
Definition demo_entry (c : DemoCookie) (site : string) (used created : Z) : Entry DemoCookie :=
  mkEntry c site 300 used created.
Definition demo_jar : BoundedJar DemoCookie := mkBoundedJar
  [demo_entry (demo_cookie "www.ferrum.test" "/" "sid" "a") "ferrum.test" 7 7;
   demo_entry (demo_cookie "www.ferrum.test" "/app" "tab" "b") "ferrum.test" U64_MAX 9] U64_MAX.

Lemma jar_ok_nil clock : jar_ok clock ([] : list (Entry DemoCookie)).
Proof.
  constructor; try constructor; try done.
Qed.

Lemma demo_jar_inv : jar_inv demo_jar.
Proof.
  split; [done|]. cbn [bj_entries bj_clock demo_jar].
  apply (jar_ok_push U64_MAX [_]); try done; try (cbn; unfold U64_MAX; lia).
  - apply (jar_ok_push U64_MAX []); try done; try (cbn; unfold U64_MAX; lia); [apply jar_ok_nil|by apply not_elem_of_nil].
  - intros Hin. by apply list_elem_of_singleton in Hin.
Qed.

Definition demo_new : DemoCookie := demo_cookie "www.ferrum.test" "/" "sid" "fresh".

(** The replaced cookie's age survives the rebased clock. *)
Lemma insert_total_witness : exists j', insert_cookie 1 2 demo_new 40 demo_jar = Some j' /\ jar_inv j'.
Proof. apply (insert_total 1 2 demo_new 40 demo_jar demo_jar_inv); done. Defined.

Lemma insert_stores_witness : insert_cookie 1 2 demo_new 40 demo_jar =
  Some (mkBoundedJar [demo_entry (demo_cookie "www.ferrum.test" "/app" "tab" "b") "ferrum.test" 2 1;
    mkEntry demo_new "ferrum.test" 331 4 0] 4) /\
  exists clock es, restamped (bj_entries (purge_expired 1 demo_jar)) es /\
    if ck_is_expired 2 demo_new then insert_cookie 1 2 demo_new 40 demo_jar = Some (mkBoundedJar (without demo_new es) clock)
    else exists kept e, insert_cookie 1 2 demo_new 40 demo_jar = Some (mkBoundedJar (kept ++ [e]) clock) /\
      makes_room (site_key "www.ferrum.test") (cookie_bytes demo_new 40 "www.ferrum.test") (without demo_new es) kept /\
      content e = (demo_new, site_key "www.ferrum.test", cookie_bytes demo_new 40 "www.ferrum.test") /\ en_used e = clock /\
      Forall (fun x => en_used x < clock /\ cookie_key (en_cookie x) <> cookie_key demo_new) kept /\
      (forall x, x ∈ es -> cookie_key (en_cookie x) = cookie_key demo_new -> en_created e = en_created x).
Proof. split; [by vm_compute|]. apply (insert_stores 1 2 demo_new 40 demo_jar "www.ferrum.test" demo_jar_inv); done. Defined.

Lemma header_whole_pairs_witness :
  fst <$> jar_header 1 "www.ferrum.test" demo_jar = Some (Some "tab=b; sid=a") /\
  exists r j' sent, jar_header 1 "www.ferrum.test" demo_jar = Some (r, j') /\ jar_inv j' /\
    let es := bj_entries (purge_expired 1 demo_jar) in
    map content (bj_entries j') = map content es /\
    sublist sent (sending "www.ferrum.test" es) /\
    (pair_sum es true (sending "www.ferrum.test" es) <= MAX_COOKIE_HEADER_BYTES -> sent = sending "www.ferrum.test" es) /\
    match sent, r with
    | [], None => True
    | _ :: _, Some h => h = header_of es sent /\ str_len h <= MAX_COOKIE_HEADER_BYTES /\
        forall i e, i ∈ sent -> bj_entries j' !! i = Some e -> en_used e = bj_clock j' /\
          forall k e', k ∉ sent -> bj_entries j' !! k = Some e' -> en_used e' < en_used e
    | _, _ => False
    end.
Proof. split; [by vm_compute|]. apply (header_whole_pairs 1 "www.ferrum.test" demo_jar demo_jar_inv). Defined.

(** A site at its bound of bytes. *)
Definition demo_full : list (Entry DemoCookie) :=
  demo_entry (demo_cookie "b.test" "/" "other" "x") "b.test" 1 1 ::
  map (fun k => mkEntry (demo_cookie "a.test" "/" "n" "v") "a.test" 8192 k k) [5; 3; 4; 6; 7; 8; 9; 10; 11; 12; 13; 14; 15; 16; 17; 18].

Lemma site_room_is_lru_witness :
  (map en_used <$> make_site_room 17 "a.test" 100 demo_full) = Some [1; 5; 4; 6; 7; 8; 9; 10; 11; 12; 13; 14; 15; 16; 17; 18] /\
  exists kept, make_site_room 17 "a.test" 100 demo_full = Some kept /\ sublist kept demo_full /\
    (forall e, e ∈ demo_full -> en_site e <> "a.test" -> e ∈ kept) /\
    forall gone stays, gone ∈ demo_full -> gone ∉ kept -> stays ∈ kept -> en_site stays = "a.test" ->
      kcmp (evict_key stays) (evict_key gone) <> Lt.
Proof.
  split; [by vm_compute|]. apply (site_room_is_lru 17 "a.test" 100 demo_full); [|done|by vm_compute].
  repeat constructor; by vm_compute.
Defined.
