(* ===== verification/Fence.v ===== *)
(** Clear generations of the connection, ticket and channel caches
    (crates/anvil-transport/src/fence.rs), and the interface of a cache fenced
    by them: after a clear that covers a key, the cache holds nothing under it
    but what an attempt that began after the clear put there. *)
From Stdlib Require Import ZArith Lia Ascii String.
From stdpp Require Import base numbers strings option list gmap.
From S2P Require Import Prelude Text.
Open Scope string_scope.
Open Scope list_scope.
Open Scope Z_scope.

(** The iteration order of a [HashMap]. *)
Class HashOrder (V : Type) := {
  hash_iter : gmap string V -> list (string * V);
  hash_iter_perm : forall m, hash_iter m ≡ₚ map_to_list m;
}.

(** The iteration order of stdpp's maps, for evaluation. *)
#[export] Instance demo_hash_order {V} : HashOrder V := {| hash_iter := map_to_list; hash_iter_perm := fun m => Permutation_refl _ |}.

Record Generations := mkGenerations {
  gen_current : Z;
  gen_all : Z;
  gen_isolations : gmap string Z;
}.

Definition Generations_default : Generations := mkGenerations 0 0 ∅.

(** [Generations::clear] and [clear_isolation]; the counter is 64 bits wide. *)
Definition gen_clear (g : Generations) : Generations :=
  let current := add64 (gen_current g) 1 in mkGenerations current current ∅.

Definition gen_clear_isolation (isolation : string) (g : Generations) : Generations :=
  let current := add64 (gen_current g) 1 in
  mkGenerations current (gen_all g) (<[isolation := current]> (gen_isolations g)).

(** Whether a cache key starts with [<isolation>|]. *)
Definition in_isolation (key isolation : string) : bool :=
  match str_strip_prefix isolation key with Some rest => starts_with rest "|" | None => false end.

(** [Generations::admits]. *)
Definition admits (g : Generations) (generation : Z) (key : string) : bool :=
  (gen_all g <=? generation) &&
  forallb (fun ic => (ic.2 <=? generation) || negb (in_isolation key ic.1)) (map_to_list (gen_isolations g)).

(** * What the generations promise *)

(** A clear of everything or of one isolation. *)
Inductive Clear := ClearAll | ClearIsolation (isolation : string).

Definition apply_clear (g : Generations) (c : Clear) : Generations :=
  match c with ClearAll => gen_clear g | ClearIsolation i => gen_clear_isolation i g end.

Definition clear_covers (c : Clear) (key : string) : bool :=
  match c with ClearAll => true | ClearIsolation i => in_isolation key i end.

Definition after_clears (cs : list Clear) : Generations := foldl apply_clear Generations_default cs.

(** The clears are few enough for their counter. *)
Definition countable_clears (cs : list Clear) : Prop := Z.of_nat (List.length cs) <= U64_MAX.

Lemma in_isolation_starts_with key isolation : in_isolation key isolation = starts_with key (isolation +:+ "|").
Proof.
  unfold in_isolation, starts_with. destruct (str_strip_prefix (isolation +:+ "|") key) as [r|] eqn:E.
  - apply str_strip_prefix_Some in E. subst key. rewrite str_app_assoc.
    rewrite (proj2 (str_strip_prefix_Some isolation _ ("|" +:+ r)) eq_refl).
    by rewrite (proj2 (str_strip_prefix_Some "|" _ r) eq_refl).
  - destruct (str_strip_prefix isolation key) as [rest|] eqn:E1; [|done].
    destruct (str_strip_prefix "|" rest) as [rest'|] eqn:E2; [|done]. exfalso.
    apply str_strip_prefix_Some in E1, E2. subst. rewrite <- str_app_assoc in E.
    by rewrite (proj2 (str_strip_prefix_Some (isolation +:+ "|") _ rest') eq_refl) in E.
Qed.

Lemma admits_true g generation key : admits g generation key = true <->
  gen_all g <= generation /\
  forall isolation cleared, gen_isolations g !! isolation = Some cleared -> in_isolation key isolation = true -> cleared <= generation.
Proof.
  unfold admits. rewrite andb_true_iff, Z.leb_le, forallb_forall. split; intros [H1 H2]; (split; [done|]).
  - intros i c Hi Hk. specialize (H2 (i, c)). rewrite <- list_elem_of_In, elem_of_map_to_list in H2.
    specialize (H2 Hi). simpl in H2. rewrite Hk, orb_false_r in H2. by apply Z.leb_le.
  - intros [i c] Hic. rewrite <- list_elem_of_In, elem_of_map_to_list in Hic. simpl.
    destruct (in_isolation key i) eqn:Ek; simpl; [|by rewrite orb_true_r]. rewrite orb_false_r. apply Z.leb_le. by apply (H2 i).
Qed.

Lemma after_clears_app cs c : after_clears (cs ++ [c]) = apply_clear (after_clears cs) c.
Proof. unfold after_clears. by rewrite foldl_app. Qed.

(** The generations after some clears, as the clears that cover a key. *)
Lemma after_clears_spec cs : countable_clears cs ->
  gen_current (after_clears cs) = Z.of_nat (List.length cs) /\
  (forall isolation c, gen_isolations (after_clears cs) !! isolation = Some c -> c <= Z.of_nat (List.length cs)) /\
  forall generation key, admits (after_clears cs) generation key = true <->
    0 <= generation /\ forall i c, cs !! i = Some c -> clear_covers c key = true -> Z.of_nat (S i) <= generation.
Proof.
  unfold countable_clears, U64_MAX. induction cs as [|c cs IH] using rev_ind; intros Hc.
  - split; [done|]. split; [intros i c; unfold after_clears; simpl; by rewrite lookup_empty|].
    intros generation key. rewrite admits_true. simpl. split; [intros [H _]; by split|].
    intros [H _]. split; [done|]. intros i c Hi. by rewrite lookup_empty in Hi.
  - rewrite length_app in Hc. cbn [List.length] in Hc. destruct IH as (I1 & I2 & I3); [lia|]. rewrite after_clears_app, length_app.
    assert (Hcur : add64 (gen_current (after_clears cs)) 1 = Z.of_nat (List.length cs) + 1) by (rewrite I1; apply add64_small; lia).
    assert (Hat : forall i d (P : Prop), (cs ++ [c]) !! i = Some d -> (cs !! i = Some d -> P) -> (i = List.length cs -> d = c -> P) -> P).
    { intros i d P [Hi|[Hi Hd]]%lookup_app_Some H1 H2; [by apply H1|]. apply list_lookup_singleton_Some in Hd as [Hi' <-].
      apply H2; [|done]. change (List.length cs) with (length cs). lia. }
    assert (Hlast : (cs ++ [c]) !! List.length cs = Some c) by (apply list_lookup_middle; reflexivity).
    destruct c as [|iso]; cbn [apply_clear gen_clear gen_clear_isolation gen_current gen_all gen_isolations List.length] in *; rewrite Hcur.
    + split; [lia|]. split; [intros i c; by rewrite lookup_empty|]. intros generation key. rewrite admits_true. simpl. split.
      * intros [H _]. split; [lia|]. intros i c Hi _. apply lookup_lt_Some in Hi. rewrite length_app in Hi. simpl in Hi.
        change (length cs) with (List.length cs) in Hi. lia.
      * intros [_ H]. split; [|intros i c Hi; by rewrite lookup_empty in Hi]. specialize (H _ _ Hlast eq_refl). lia.
    + split; [lia|]. split.
      { intros i c. destruct (decide (iso = i)) as [->|Hne]; [rewrite lookup_insert_eq; intros [= <-]; lia|].
        rewrite lookup_insert_ne by done. intros Hi. specialize (I2 _ _ Hi). lia. }
      intros generation key. specialize (I3 generation key). rewrite admits_true in *. simpl. split.
      * intros [H1 H2]. destruct (proj1 I3) as [J1 J2].
        { split; [done|]. intros i c Hi Hk. destruct (decide (iso = i)) as [->|Hne].
          - specialize (H2 i _ (lookup_insert_eq _ _ _) Hk). specialize (I2 _ _ Hi). lia.
          - apply (H2 i); [by rewrite lookup_insert_ne|done]. }
        split; [done|]. intros i d Hi Hk. eapply (Hat _ _ _ Hi); [intros Hi'; by apply (J2 i d)|]. intros -> ->.
        specialize (H2 iso _ (lookup_insert_eq _ _ _) Hk). lia.
      * intros [H1 H2]. destruct (proj2 I3) as [J1 J2].
        { split; [done|]. intros i c Hi Hk. apply (H2 i c); [|done]. by apply lookup_app_l_Some. }
        split; [done|]. intros i c. destruct (decide (iso = i)) as [->|Hne].
        -- rewrite lookup_insert_eq. intros [= <-] Hk. specialize (H2 _ _ Hlast Hk). lia.
        -- rewrite lookup_insert_ne by done. apply J2.
Qed.

(** The generations fence exactly what the clears since cover: an attempt
    that took its generation after some clears may put something under a key
    after further clears if and only if none of those covers the key. *)
Theorem admits_iff_uncovered before since key : countable_clears (before ++ since) ->
  admits (after_clears (before ++ since)) (gen_current (after_clears before)) key = negb (existsb (fun c => clear_covers c key) since).
Proof.
  intros Hc. assert (Hb : countable_clears before) by (unfold countable_clears in *; rewrite length_app in Hc; lia).
  rewrite (proj1 (after_clears_spec before Hb)). apply eq_true_iff_eq. rewrite (proj2 (proj2 (after_clears_spec _ Hc))), negb_true_iff.
  rewrite <- not_true_iff_false, existsb_exists. split.
  - intros [_ H] (c & Hin & Hk). apply list_elem_of_In, list_elem_of_lookup in Hin as (i & Hi).
    specialize (H (List.length before + i)%nat c). rewrite lookup_app_r in H by (change (length before) with (List.length before); lia).
    replace (List.length before + i - length before)%nat with i in H by (change (length before) with (List.length before); lia).
    specialize (H Hi Hk). lia.
  - intros Hno. split; [lia|]. intros i c [Hi|[Hi Hd]]%lookup_app_Some Hk.
    + apply lookup_lt_Some in Hi. change (length before) with (List.length before) in Hi. lia.
    + destruct Hno. exists c. split; [|done]. apply list_elem_of_In. by eapply list_elem_of_lookup_2.
Qed.

Lemma admits_iff_uncovered_witness :
  admits (after_clears [ClearIsolation "ws-a"]) (gen_current (after_clears [])) "ws-a|https://example.test:443" =
  negb (existsb (fun c => clear_covers c "ws-a|https://example.test:443") [ClearIsolation "ws-a"]).
Proof. by apply (admits_iff_uncovered [] [ClearIsolation "ws-a"]). Defined.

(** * Fenced caches *)

(** What an operation of a cache does to what the cache holds. *)
Inductive FenceStep (Item : Type) :=
  | FenceClear (c : Clear)
  | FenceKeep (key : string) (item : Item) (generation : Z)
  | FenceOther.
Arguments FenceClear {Item}.
Arguments FenceKeep {Item}.
Arguments FenceOther {Item}.

Definition fence_clears {Item} (steps : list (FenceStep Item)) : list Clear :=
  omap (fun s => match s with FenceClear c => Some c | _ => None end) steps.

(** A cache under string keys, with generations; an operation may hold a
    clear, one insertion under its generation, or neither. *)
Class FencedCache (Cache Op Item : Type) := {
  fc_init : Cache;
  fc_step : Op -> Cache -> Cache;
  fc_generations : Cache -> Generations;
  fc_holds : Cache -> string -> Item -> Prop;
  fc_label : Op -> FenceStep Item;
}.

(** What such a cache promises: a clear leaves nothing it clear_covers, and what an
    attempt inserts is admitted under its generation. *)
Class FencedCacheLaws (Cache Op Item : Type) `{FencedCache Cache Op Item} := {
  fc_init_generations : fc_generations fc_init = Generations_default;
  fc_init_empty : forall key item, ~ fc_holds fc_init key item;
  fc_step_generations : forall op s,
    fc_generations (fc_step op s) = match fc_label op with FenceClear c => apply_clear (fc_generations s) c | _ => fc_generations s end;
  fc_step_holds : forall op s key item, fc_holds (fc_step op s) key item ->
    match fc_label op with
    | FenceClear c => fc_holds s key item /\ clear_covers c key = false
    | FenceKeep key' item' generation => fc_holds s key item \/
        (key = key' /\ item = item' /\ admits (fc_generations s) generation key = true)
    | FenceOther => fc_holds s key item
    end;
}.

Section Fenced.
Context {Cache Op Item : Type} `{FencedCacheLaws Cache Op Item}.

Definition fc_run (ops : list Op) : Cache := foldl (fun s op => fc_step op s) fc_init ops.
Definition clears_of (ops : list Op) : list Clear := fence_clears (map fc_label ops).

Lemma fc_run_app ops op : fc_run (ops ++ [op]) = fc_step op (fc_run ops).
Proof. unfold fc_run. by rewrite foldl_app. Qed.

Lemma clears_of_app ops ops' : clears_of (ops ++ ops') = clears_of ops ++ clears_of ops'.
Proof. unfold clears_of, fence_clears. by rewrite map_app, omap_app. Qed.

Lemma clears_of_one op : clears_of [op] = match fc_label op with FenceClear c => [c] | _ => [] end.
Proof. unfold clears_of, fence_clears. simpl. by destruct (fc_label op). Qed.

Lemma fc_run_generations ops : fc_generations (fc_run ops) = after_clears (clears_of ops).
Proof.
  induction ops as [|op ops IH] using rev_ind; [apply fc_init_generations|].
  rewrite fc_run_app, fc_step_generations, clears_of_app, IH, clears_of_one.
  destruct (fc_label op); rewrite ?app_nil_r, ?after_clears_app; done.
Qed.

(** After a clear that covers a key, the cache holds under it only what was
    put there since, by an attempt that began since. *)
Lemma fenced_run before op c since key item : fc_label op = FenceClear c -> clear_covers c key = true ->
  countable_clears (clears_of (before ++ op :: since)) -> fc_holds (fc_run (before ++ op :: since)) key item ->
  exists kept generation, kept ∈ since /\ fc_label kept = FenceKeep key item generation /\
    gen_current (fc_generations (fc_run (before ++ [op]))) <= generation.
Proof.
  intros Hop Hk. induction since as [|o since IH] using rev_ind; intros Hc Hh.
  - rewrite fc_run_app in Hh. apply fc_step_holds in Hh. rewrite Hop in Hh. destruct Hh as [_ Hh]. congruence.
  - change (before ++ op :: since ++ [o]) with (before ++ (op :: since) ++ [o]) in *. rewrite app_assoc in Hc, Hh.
    rewrite fc_run_app in Hh. apply fc_step_holds in Hh.
    assert (Hc' : countable_clears (clears_of (before ++ op :: since))).
    { rewrite clears_of_app in Hc. unfold countable_clears in *. rewrite length_app in Hc. lia. }
    assert (Hold : fc_holds (fc_run (before ++ op :: since)) key item -> exists kept generation,
      kept ∈ since ++ [o] /\ fc_label kept = FenceKeep key item generation /\
      gen_current (fc_generations (fc_run (before ++ [op]))) <= generation).
    { intros Hh'. destruct (IH Hc' Hh') as (kept & g & Hin & Hl & Hg). exists kept, g. split; [|done]. apply elem_of_app. by left. }
    destruct (fc_label o) as [c'|key' item' g|] eqn:Eo; [by apply Hold, Hh| |by apply Hold].
    destruct Hh as [Hh|(<- & <- & Ha)]; [by apply Hold|]. exists o, g. split; [apply elem_of_app; right; by apply list_elem_of_singleton|].
    split; [done|]. rewrite fc_run_generations in *.
    apply (proj2 (proj2 (after_clears_spec _ Hc'))) in Ha as [_ Ha].
    change (op :: since) with ([op] ++ since) in *. rewrite clears_of_app in Hc'. rewrite !clears_of_app in *.
    assert (Hone : clears_of [op] = [c]) by (by rewrite clears_of_one, Hop). rewrite Hone in *.
    rewrite (proj1 (after_clears_spec (clears_of before ++ [c]) ltac:(unfold countable_clears in *; rewrite !length_app in *; lia))).
    rewrite length_app. cbn [List.length]. specialize (Ha (List.length (clears_of before)) c).
    cbn [app] in Ha. rewrite list_lookup_middle in Ha by reflexivity. specialize (Ha eq_refl Hk). lia.
Qed.
End Fenced.
