(* ===== verification/Pool.v ===== *)
(** The HTTP connection pool over TCP (crates/anvil-transport/src/http.rs,
    [Pool]): idle connections bounded per key and in total, HTTP/2 connections
    shared by the requests in flight on them, the connection kept for a retry
    after 425, the sweep, and the fence of a clear. Whether a connection is
    usable is hyper's answer, a parameter of each operation, as is the
    iteration order of a hash map. Instants are nanoseconds. *)
From Stdlib Require Import ZArith Lia Ascii String.
From stdpp Require Import base numbers strings option list gmap.
From S2P Require Import Prelude Text Fence.
Open Scope string_scope.
Open Scope list_scope.
Open Scope Z_scope.

(** * Connections *)

Inductive Sender := Sender_H1 | Sender_H2.
#[export] Instance Sender_eq_dec : EqDecision Sender.
Proof. solve_decision. Defined.

Record StreamUse := mkStreamUse { su_active : Z; su_idle_since : Z }.

(** A pooled connection; [po_id] is the id of its observation template, and the
    key of its [StreamUse], which its clones share. *)
Record Pooled := mkPooled { po_id : Z; po_sender : Sender; po_idle_since : Z }.
#[export] Instance Pooled_eq_dec : EqDecision Pooled.
Proof. solve_decision. Defined.

Abbreviation Streams := (gmap Z StreamUse).
Definition stream_use (ss : Streams) (p : Pooled) : StreamUse := default (mkStreamUse 0 0) (ss !! po_id p).

Definition lease_active (ss : Streams) (p : Pooled) : Streams :=
  <[po_id p := mkStreamUse (su_active (stream_use ss p) + 1) (su_idle_since (stream_use ss p))]> ss.

(** [Pooled::lease]: the connection of the lease taken, if one is needed. *)
Definition pooled_lease (ss : Streams) (p : Pooled) : option Z * Streams :=
  match po_sender p with Sender_H1 => (None, ss) | Sender_H2 => (Some (po_id p), lease_active ss p) end.

(** [Drop for StreamLease]. *)
Definition drop_lease (now : Z) (id : Z) (ss : Streams) : Streams :=
  let u := default (mkStreamUse 0 0) (ss !! id) in
  let active := sat_sub64 (su_active u) 1 in
  <[id := mkStreamUse active (if active =? 0 then now else su_idle_since u)]> ss.

(** [Pooled::idle_start]. *)
Definition idle_start (ss : Streams) (p : Pooled) : option Z :=
  match po_sender p with
  | Sender_H1 => Some (po_idle_since p)
  | Sender_H2 => if su_active (stream_use ss p) =? 0 then Some (su_idle_since (stream_use ss p)) else None
  end.

(** [Instant::saturating_duration_since]. *)
Definition saturating_since (now t : Z) : Z := Z.max 0 (now - t).

(** [Pooled::expired]. *)
Definition pooled_expired (usable : Pooled -> bool) (now ttl : Z) (ss : Streams) (p : Pooled) : bool :=
  negb (usable p) || match idle_start ss p with Some t => ttl <=? saturating_since now t | None => false end.

(** * The pool *)

Definition MAX_IDLE_PER_KEY : Z := 8.
Definition MAX_IDLE_TOTAL : Z := 64.
Definition IDLE_TTL : Z := 90 * 1000000000.
Definition TOO_EARLY_TTL : Z := 10 * 1000000000.

Record PoolLimits := mkPoolLimits { max_idle_per_key : Z; max_idle_total : Z; idle_ttl : Z }.
Definition PoolLimits_default : PoolLimits := mkPoolLimits MAX_IDLE_PER_KEY MAX_IDLE_TOTAL IDLE_TTL.

Record PoolState := mkPoolState {
  ps_generations : Generations;
  ps_idle : gmap string (list Pooled);
  ps_too_early : gmap string Pooled;
  ps_sweeper : bool;
}.
Definition PoolState_default : PoolState := mkPoolState Generations_default ∅ ∅ false.

(** [Iterator::min_by_key] of pairs with an instant. *)
Definition earliest {A} (l : list (Z * A)) : option (Z * A) :=
  fold_left (fun best x => match best with None => Some x | Some b => if x.1 <? b.1 then Some x else best end) l None.

(** The idle connections of a list, with their positions. *)
Definition idle_positions (ss : Streams) (conns : list Pooled) : list (Z * nat) :=
  omap (fun ip => (fun t => (t, ip.1)) <$> idle_start ss ip.2) (imap pair conns).

(** A list put back under its key, which goes with its last connection. *)
Definition put_list (key : string) (conns : list Pooled) (idle : gmap string (list Pooled)) : gmap string (list Pooled) :=
  match conns with [] => delete key idle | _ => <[key := conns]> idle end.

Definition idle_list (ss : Streams) (conns : list Pooled) : list Pooled := filter (fun p => is_Some (idle_start ss p)) conns.

Section Pool.
Context `{HashOrder (list Pooled)}.

Definition hash_values (idle : gmap string (list Pooled)) : list Pooled := concat (map snd (hash_iter idle)).

Definition idle_count (ss : Streams) (idle : gmap string (list Pooled)) : nat := List.length (idle_list ss (hash_values idle)).

(** The loop of [evict_over_cap]: the pool and the connections moved out. *)
Fixpoint evict_loop (fuel : nat) (ss : Streams) (count max : Z) (idle : gmap string (list Pooled)) (out : list Pooled)
  : gmap string (list Pooled) * list Pooled :=
  match fuel with
  | O => (idle, out)
  | S fuel' =>
      if count <=? max then (idle, out)
      else match earliest (concat (map (fun kl => map (fun ti => (ti.1, (kl.1, ti.2))) (idle_positions ss kl.2)) (hash_iter idle))) with
      | None => (idle, out)
      | Some (_, (key, i)) =>
          let '(idle, out) := match idle !! key with
            | Some conns => (put_list key (delete i conns) idle, out ++ option_list (conns !! i))
            | None => (idle, out)
            end in
          evict_loop fuel' ss (count - 1) max idle out
      end
  end.

(** [evict_over_cap]. *)
Definition evict_over_cap (ss : Streams) (max : Z) (idle : gmap string (list Pooled)) : gmap string (list Pooled) * list Pooled :=
  evict_loop (idle_count ss idle) ss (Z.of_nat (idle_count ss idle)) max idle [].

(** [Pool::checkout]: the connection found and its lease; the stale ones are
    dropped. *)
Definition checkout (limits : PoolLimits) (usable : Pooled -> bool) (now : Z) (key : string) (ss : Streams) (st : PoolState)
  : option (Pooled * option Z) * Streams * PoolState :=
  match ps_idle st !! key with
  | None => (None, ss, st)
  | Some conns =>
      let conns := filter (fun p => pooled_expired usable now (idle_ttl limits) ss p = false) conns in
      let '(found, conns, ss) :=
        match find (fun p => bool_decide (po_sender p = Sender_H2)) conns with
        | Some p => let '(lease, ss) := pooled_lease ss p in (Some (p, lease), conns, ss)
        | None => match last conns with Some p => (Some (p, None), removelast conns, ss) | None => (None, conns, ss) end
        end in
      (found, ss, mkPoolState (ps_generations st) (put_list key conns (ps_idle st)) (ps_too_early st) (ps_sweeper st))
  end.

(** [Pool::ensure_sweeper]; there is a runtime, or not. *)
Definition ensure_sweeper (runtime : bool) (sweeper : bool) : bool := sweeper || runtime.

(** The list of a key with a connection returned to it, and what it closes. *)
Definition push_within (ss : Streams) (max : Z) (p : Pooled) (conns : list Pooled) : list Pooled * list Pooled :=
  let '(conns, dropped) :=
    if max <=? Z.of_nat (List.length conns) then
      match earliest (idle_positions ss conns) with
      | Some (_, i) => (delete i conns, option_list (conns !! i))
      | None => (conns, [])
      end
    else (conns, []) in
  if Z.of_nat (List.length conns) <? max then (conns ++ [p], dropped) else (conns, dropped ++ [p]).

(** [Pool::checkin]: the pool and the connections closed. *)
Definition checkin (limits : PoolLimits) (runtime : bool) (now : Z) (key : string) (p : Pooled) (generation : Z) (ss : Streams) (st : PoolState)
  : PoolState * list Pooled :=
  let p := mkPooled (po_id p) (po_sender p) now in
  if negb (admits (ps_generations st) generation key) then (st, [p])
  else
    let conns := default [] (ps_idle st !! key) in
    if existsb (fun x => po_id x =? po_id p) conns then (st, [p])
    else
      let '(conns, dropped) := push_within ss (max_idle_per_key limits) p conns in
      let '(idle, over) := evict_over_cap ss (max_idle_total limits) (put_list key conns (ps_idle st)) in
      (mkPoolState (ps_generations st) idle (ps_too_early st) (ensure_sweeper runtime (ps_sweeper st)), dropped ++ over).

(** [Pool::evict]. *)
Definition pool_evict (key : string) (conn_id : Z) (st : PoolState) : PoolState :=
  match ps_idle st !! key with
  | None => st
  | Some conns => mkPoolState (ps_generations st) (put_list key (filter (fun p => po_id p <> conn_id) conns) (ps_idle st)) (ps_too_early st) (ps_sweeper st)
  end.

(** [Pool::take_too_early]. *)
Definition take_too_early (limits : PoolLimits) (usable : Pooled -> bool) (now : Z) (key : string) (ss : Streams) (st : PoolState)
  : option (Pooled * option Z) * Streams * PoolState :=
  match ps_too_early st !! key with
  | None => (None, ss, st)
  | Some p =>
      let st := mkPoolState (ps_generations st) (ps_idle st) (delete key (ps_too_early st)) (ps_sweeper st) in
      if pooled_expired usable now (Z.min (idle_ttl limits) TOO_EARLY_TTL) ss p || negb (usable p) then (None, ss, st)
      else let '(lease, ss) := pooled_lease ss p in (Some (p, lease), ss, st)
  end.

(** [Pool::keep_too_early]. *)
Definition keep_too_early (runtime : bool) (now : Z) (key : string) (p : Pooled) (generation : Z) (st : PoolState) : PoolState :=
  let p := mkPooled (po_id p) (po_sender p) now in
  if negb (admits (ps_generations st) generation key) then st
  else mkPoolState (ps_generations st) (ps_idle st) (<[key := p]> (ps_too_early st)) (ensure_sweeper runtime (ps_sweeper st)).

(** [Pool::clear] and [clear_isolation]. *)
Definition pool_clear (st : PoolState) : PoolState :=
  mkPoolState (gen_clear (ps_generations st)) ∅ ∅ (ps_sweeper st).

Definition pool_clear_isolation (isolation : string) (st : PoolState) : PoolState :=
  let prefix := isolation +:+ "|" in
  mkPoolState (gen_clear_isolation isolation (ps_generations st))
    (filter (fun kl => starts_with kl.1 prefix = false) (ps_idle st))
    (filter (fun kp => starts_with kp.1 prefix = false) (ps_too_early st)) (ps_sweeper st).

(** [PoolShared::sweep_at]: whether the pool still holds any. *)
Definition sweep_at (limits : PoolLimits) (usable : Pooled -> bool) (now : Z) (forget_sweeper_when_empty : bool) (ss : Streams) (st : PoolState)
  : bool * PoolState :=
  let ttl := idle_ttl limits in
  let kept := omap (fun conns => match filter (fun p => pooled_expired usable now ttl ss p = false) conns with [] => None | l => Some l end) (ps_idle st) in
  let '(idle, _) := evict_over_cap ss (max_idle_total limits) kept in
  let too_early := filter (fun kp => pooled_expired usable now (Z.min ttl TOO_EARLY_TTL) ss kp.2 = false) (ps_too_early st) in
  let more := negb (bool_decide (idle = ∅)) || negb (bool_decide (too_early = ∅)) in
  (more, mkPoolState (ps_generations st) idle too_early (ps_sweeper st && (more || negb forget_sweeper_when_empty))).

(** [Pool::stats]: keys, connections, idle ones. *)
Definition pool_stats (ss : Streams) (st : PoolState) : Z * Z * Z :=
  (Z.of_nat (size (ps_idle st)), Z.of_nat (List.length (hash_values (ps_idle st))), Z.of_nat (idle_count ss (ps_idle st))).
End Pool.

(** [sweep_interval]. *)
Definition sweep_interval (ttl : Z) : Z := Z.min (Z.max (ttl / 6) 10000000) 15000000000.

(** * The longest idle *)

Lemma earliest_spec {A} (l : list (Z * A)) :
  match earliest l with None => l = [] | Some x => x ∈ l /\ forall y, y ∈ l -> x.1 <= y.1 end.
Proof.
  unfold earliest. set (step := fun _ _ => _).
  assert (Hgen : forall l b seen, b ∈ seen -> (forall y, y ∈ seen -> b.1 <= y.1) ->
    exists b', fold_left step l (Some b) = Some b' /\ b' ∈ seen ++ l /\ forall y, y ∈ seen ++ l -> b'.1 <= y.1).
  { clear l. induction l as [|x l IH]; intros b seen Hb Hmin; [exists b; by rewrite app_nil_r|]. cbn [fold_left].
    replace (seen ++ x :: l) with ((seen ++ [x]) ++ l) by (by rewrite <- app_assoc). unfold step at 2.
    assert (Hin : forall y, y ∈ seen ++ [x] <-> y ∈ seen \/ y = x) by (intros y; by rewrite elem_of_app, list_elem_of_singleton).
    destruct (Z.ltb_spec x.1 b.1); (apply IH; [apply Hin; auto|]); intros y [Hy|Hy]%Hin; try subst y; try lia; auto.
    specialize (Hmin y Hy). lia. }
  destruct l as [|a l]; [done|]. destruct (Hgen l a [a]) as (b & E & Hin & Hmin).
  - by apply list_elem_of_singleton.
  - intros x ->%list_elem_of_singleton. lia.
  - simpl. rewrite E. by split.
Qed.

Lemma idle_positions_in ss conns t i : (t, i) ∈ idle_positions ss conns <-> exists p, conns !! i = Some p /\ idle_start ss p = Some t.
Proof.
  unfold idle_positions. rewrite list_elem_of_omap. split.
  - intros ([k p] & Hin & Hf). apply list_elem_of_lookup in Hin as (n & Hn). rewrite list_lookup_imap in Hn.
    destruct (conns !! n) as [q|] eqn:E; [|done]. simpl in *. injection Hn as <- <-.
    destruct (idle_start ss q) as [t'|] eqn:Et; [|done]. simpl in Hf. injection Hf as <- <-. by exists q.
  - intros (p & Hp & Ht). exists (i, p). simpl. rewrite Ht. split; [|done]. apply list_elem_of_lookup. exists i.
    by rewrite list_lookup_imap, Hp.
Qed.

(** * The connections of the pool *)

Section PoolFacts.
Context `{HashOrder (list Pooled)}.
Implicit Types (idle : gmap string (list Pooled)) (ss : Streams) (conns : list Pooled).

(** The lists without those of a key. *)
Lemma hash_values_get idle key conns : idle !! key = Some conns -> hash_values idle ≡ₚ conns ++ hash_values (delete key idle).
Proof.
  intros Hk. unfold hash_values. rewrite !hash_iter_perm. rewrite <- (insert_delete_id idle key conns Hk) at 1.
  by rewrite map_to_list_insert by apply lookup_delete_eq.
Qed.

Lemma hash_values_put idle key conns : hash_values (put_list key conns idle) ≡ₚ conns ++ hash_values (delete key idle).
Proof.
  destruct conns as [|p conns]; [done|]. cbn [put_list]. rewrite (hash_values_get _ key (p :: conns)) by apply lookup_insert_eq.
  by rewrite delete_insert_eq.
Qed.

Lemma hash_values_in idle p : p ∈ hash_values idle <-> exists key conns, idle !! key = Some conns /\ p ∈ conns.
Proof.
  unfold hash_values. rewrite list_elem_of_In, in_concat. split.
  - intros (conns & Hin & Hp). apply in_map_iff in Hin as ([key c] & <- & Hin). exists key, c. rewrite list_elem_of_In. split; [|done].
    apply list_elem_of_In in Hin. rewrite hash_iter_perm in Hin. by apply elem_of_map_to_list in Hin.
  - intros (key & conns & Hk & Hp). exists conns. split; [|by apply list_elem_of_In]. apply in_map_iff. exists (key, conns). split; [done|].
    apply list_elem_of_In. rewrite hash_iter_perm. by apply elem_of_map_to_list.
Qed.

Lemma idle_list_perm ss conns conns' : conns ≡ₚ conns' -> idle_list ss conns ≡ₚ idle_list ss conns'.
Proof. intros Hp. unfold idle_list. by rewrite Hp. Qed.

Lemma idle_count_perm ss idle conns : hash_values idle ≡ₚ conns -> idle_count ss idle = List.length (idle_list ss conns).
Proof. intros Hp. unfold idle_count. apply Permutation_length. by apply idle_list_perm. Qed.

Lemma put_list_lookup key conns idle k c : put_list key conns idle !! k = Some c ->
  (k = key /\ c = conns /\ conns <> []) \/ (k <> key /\ idle !! k = Some c).
Proof.
  destruct conns as [|p conns]; cbn [put_list].
  - intros [Hne Hl]%lookup_delete_Some. right. by split.
  - destruct (decide (k = key)) as [->|Hne]; [rewrite lookup_insert_eq; intros [= <-]; by left|].
    rewrite lookup_insert_ne by done. auto.
Qed.

(** What is left of the pool when some connections go. *)
Definition shrinks idle' idle : Prop :=
  forall key conns', idle' !! key = Some conns' -> exists conns, idle !! key = Some conns /\ sublist conns' conns /\ (conns' = [] -> conns = []).

Lemma shrinks_refl idle : shrinks idle idle.
Proof. intros key conns Hk. by exists conns. Qed.

Lemma shrinks_trans idle1 idle2 idle3 : shrinks idle1 idle2 -> shrinks idle2 idle3 -> shrinks idle1 idle3.
Proof.
  intros H12 H23 key c1 Hk. destruct (H12 _ _ Hk) as (c2 & Hk2 & S12 & E12). destruct (H23 _ _ Hk2) as (c3 & Hk3 & S23 & E23).
  exists c3. split; [done|]. split; [by trans c2|]. auto.
Qed.

Lemma put_shrinks idle key conns conns' : idle !! key = Some conns -> sublist conns' conns -> shrinks (put_list key conns' idle) idle.
Proof.
  intros Hk Hs k c [(-> & -> & Hne)|[_ Hc]]%put_list_lookup; [exists conns; by split|]. by exists c.
Qed.

(** The connections the loop has to choose from. *)
Definition candidates ss idle : list (Z * (string * nat)) :=
  concat (map (fun kl => map (fun ti => (ti.1, (kl.1, ti.2))) (idle_positions ss kl.2)) (hash_iter idle)).

Lemma candidates_in ss idle t key i : (t, (key, i)) ∈ candidates ss idle <->
  exists conns p, idle !! key = Some conns /\ conns !! i = Some p /\ idle_start ss p = Some t.
Proof.
  unfold candidates. rewrite list_elem_of_In, in_concat. split.
  - intros (l & Hl & Hin). apply in_map_iff in Hl as ([k c] & <- & Hkc). apply list_elem_of_In in Hkc. rewrite hash_iter_perm in Hkc.
    apply elem_of_map_to_list in Hkc. apply in_map_iff in Hin as ([t' i'] & E & Hin). simpl in *. injection E as -> -> ->.
    apply list_elem_of_In, idle_positions_in in Hin as (p & Hp & Ht). by exists c, p.
  - intros (conns & p & Hk & Hp & Ht). eexists. split.
    + apply in_map_iff. exists (key, conns). split; [done|]. apply list_elem_of_In. rewrite hash_iter_perm. by apply elem_of_map_to_list.
    + apply in_map_iff. exists (t, i). split; [done|]. apply list_elem_of_In, idle_positions_in. by exists p.
Qed.

Definition older ss (p q : Pooled) : Prop := exists t, idle_start ss p = Some t /\ forall t', idle_start ss q = Some t' -> t <= t'.

(** ** Eviction *)
Lemma evict_loop_spec fuel ss max idle out : (idle_count ss idle <= fuel)%nat ->
  exists idle' gone, evict_loop fuel ss (Z.of_nat (idle_count ss idle)) max idle out = (idle', out ++ gone) /\
    hash_values idle ≡ₚ hash_values idle' ++ gone /\ shrinks idle' idle /\
    (0 <= max -> Z.of_nat (idle_count ss idle') <= max) /\
    (Z.of_nat (idle_count ss idle) <= max -> gone = []) /\
    (forall p q, p ∈ gone -> q ∈ hash_values idle' -> older ss p q) /\ Forall (fun p => is_Some (idle_start ss p)) gone.
Proof.
  revert idle out. induction fuel as [|fuel IH]; intros idle out Hf; cbn [evict_loop].
  - exists idle, []. rewrite !app_nil_r. split; [done|]. split; [done|]. split; [apply shrinks_refl|].
    split; [lia|]. split; [done|]. split; [intros p q Hp; by apply elem_of_nil in Hp|done].
  - destruct (Z.leb_spec (Z.of_nat (idle_count ss idle)) max) as [Hle|Hgt].
    { exists idle, []. rewrite !app_nil_r. split; [done|]. split; [done|]. split; [apply shrinks_refl|].
      split; [lia|]. split; [done|]. split; [intros p q Hp; by apply elem_of_nil in Hp|done]. }
    fold (candidates ss idle). pose proof (earliest_spec (candidates ss idle)) as He. destruct (earliest (candidates ss idle)) as [[t [key i]]|].
    + destruct He as [Hin Hmin]. apply candidates_in in Hin as (conns & p & Hk & Hp & Ht). rewrite Hk, Hp. cbn [option_list option_rect].
      assert (Hperm : hash_values idle ≡ₚ p :: hash_values (put_list key (delete i conns) idle)).
      { rewrite (hash_values_get idle key conns Hk), hash_values_put. exact (Permutation_app_tail _ (delete_Permutation conns i p Hp)). }
      assert (Hcount : idle_count ss idle = S (idle_count ss (put_list key (delete i conns) idle))).
      { rewrite (idle_count_perm ss idle _ Hperm). unfold idle_list. by rewrite filter_cons_True by (by exists t). }
      rewrite Hcount. replace (Z.of_nat (S _) - 1) with (Z.of_nat (idle_count ss (put_list key (delete i conns) idle))) by lia.
      destruct (IH (put_list key (delete i conns) idle) (out ++ [p]) ltac:(lia)) as (idle' & gone & -> & I1 & I2 & I3 & I4 & I5 & I6).
      exists idle', (p :: gone). split; [by rewrite <- app_assoc|]. split; [rewrite Hperm, I1; by rewrite Permutation_middle|].
      split; [eapply shrinks_trans; [done|]; by apply (put_shrinks _ _ conns); [|apply sublist_delete]|].
      split; [done|]. split; [lia|]. split; [|constructor; [by exists t|done]].
      intros p' q [->|Hp']%elem_of_cons Hq; [|by apply I5]. exists t. split; [done|]. intros t' Ht'.
      assert (Hq' : q ∈ hash_values idle) by (rewrite Hperm, I1; apply elem_of_cons; right; apply elem_of_app; by left).
      apply hash_values_in in Hq' as (k' & c' & Hk' & (n & Hn)%list_elem_of_lookup).
      specialize (Hmin (t', (k', n))). apply Hmin. apply candidates_in. by exists c', q.
    + assert (Hnone : idle_list ss (hash_values idle) = []).
      { apply elem_of_nil_inv. intros q [[t Ht] Hq]%list_elem_of_filter. apply hash_values_in in Hq as (k' & c' & Hk' & (n & Hn)%list_elem_of_lookup).
        apply (not_elem_of_nil (t, (k', n))). rewrite <- He. apply candidates_in. by exists c', q. }
      exists idle, []. unfold idle_count in Hgt |- *. rewrite Hnone in Hgt |- *. simpl in Hgt. rewrite !app_nil_r.
      split; [done|]. split; [done|]. split; [apply shrinks_refl|]. split; [simpl; lia|]. split; [done|].
      split; [intros p q Hp; by apply elem_of_nil in Hp|done].
Qed.
End PoolFacts.

(** * The operations of the pool *)

Inductive PoolOp :=
  | PoolCheckout (usable : Pooled -> bool) (now : Z) (key : string)
  | PoolCheckin (runtime : bool) (now : Z) (key : string) (p : Pooled) (generation : Z)
  | PoolEvict (key : string) (conn_id : Z)
  | PoolTakeTooEarly (usable : Pooled -> bool) (now : Z) (key : string)
  | PoolKeepTooEarly (runtime : bool) (now : Z) (key : string) (p : Pooled) (generation : Z)
  | PoolSweep (usable : Pooled -> bool) (now : Z) (forget : bool)
  | PoolDropLease (now : Z) (id : Z)
  | PoolClear
  | PoolClearIsolation (isolation : string).

Section PoolSteps.
Context `{HashOrder (list Pooled)} (limits : PoolLimits).

(** One operation on the pool and the streams of its connections. *)
Definition conn_step (op : PoolOp) (s : Streams * PoolState) : Streams * PoolState :=
  let '(ss, st) := s in
  match op with
  | PoolCheckout usable now key => let '(_, ss, st) := checkout limits usable now key ss st in (ss, st)
  | PoolCheckin runtime now key p generation => (ss, fst (checkin limits runtime now key p generation ss st))
  | PoolEvict key conn_id => (ss, pool_evict key conn_id st)
  | PoolTakeTooEarly usable now key => let '(_, ss, st) := take_too_early limits usable now key ss st in (ss, st)
  | PoolKeepTooEarly runtime now key p generation => (ss, keep_too_early runtime now key p generation st)
  | PoolSweep usable now forget => (ss, snd (sweep_at limits usable now forget ss st))
  | PoolDropLease now id => (drop_lease now id ss, st)
  | PoolClear => (ss, pool_clear st)
  | PoolClearIsolation isolation => (ss, pool_clear_isolation isolation st)
  end.

(** The pool holds the connection [id] under [key], for reuse or for a retry. *)
Definition pool_holds (s : Streams * PoolState) (key : string) (id : Z) : Prop :=
  (exists conns p, ps_idle s.2 !! key = Some conns /\ p ∈ conns /\ po_id p = id) \/
  (exists p, ps_too_early s.2 !! key = Some p /\ po_id p = id).

Definition pool_label (op : PoolOp) : FenceStep Z :=
  match op with
  | PoolCheckin _ _ key p generation | PoolKeepTooEarly _ _ key p generation => FenceKeep key (po_id p) generation
  | PoolClear => FenceClear ClearAll
  | PoolClearIsolation isolation => FenceClear (ClearIsolation isolation)
  | _ => FenceOther
  end.

#[export] Instance pool_cache : FencedCache (Streams * PoolState) PoolOp Z := {|
  fc_init := (∅, PoolState_default);
  fc_step := conn_step;
  fc_generations := fun s => ps_generations s.2;
  fc_holds := pool_holds;
  fc_label := pool_label;
|}.

(** Every list of the pool is kept, within its bound, each connection once. *)
Definition pool_ok (st : PoolState) : Prop :=
  forall key conns, ps_idle st !! key = Some conns ->
    conns <> [] /\ Z.of_nat (List.length conns) <= max_idle_per_key limits /\ NoDup (map po_id conns).

Definition idle_ok (idle : gmap string (list Pooled)) : Prop :=
  forall key conns, idle !! key = Some conns ->
    conns <> [] /\ Z.of_nat (List.length conns) <= max_idle_per_key limits /\ NoDup (map po_id conns).

Lemma ids_sublist (conns conns' : list Pooled) : sublist conns' conns -> sublist (map po_id conns') (map po_id conns).
Proof. apply (fmap_sublist po_id). Qed.

Lemma shrinks_ok idle' idle : shrinks idle' idle -> idle_ok idle -> idle_ok idle'.
Proof.
  intros Hs Hok key conns' Hk. destruct (Hs _ _ Hk) as (conns & Hk' & Hsub & Hne). destruct (Hok _ _ Hk') as (H1 & H2 & H3).
  split; [auto|]. split; [apply sublist_length in Hsub; change (List.length conns') with (length conns'); change (List.length conns) with (length conns) in H2; lia|].
  eapply sublist_NoDup; [exact H3|]. by apply ids_sublist.
Qed.

Lemma put_list_ok key conns idle : idle_ok idle ->
  Z.of_nat (List.length conns) <= max_idle_per_key limits -> NoDup (map po_id conns) -> idle_ok (put_list key conns idle).
Proof. intros Hok Hl Hn k c [(-> & -> & Hne)|[_ Hc]]%put_list_lookup; [done|]. by apply (Hok k). Qed.

Lemma shrink_list_ok key conns conns' idle : idle_ok idle -> idle !! key = Some conns -> sublist conns' conns -> idle_ok (put_list key conns' idle).
Proof. intros Hok Hk Hs. eapply shrinks_ok; [|exact Hok]. by apply (put_shrinks _ _ conns). Qed.

Lemma evict_over_cap_spec ss max idle : exists idle' gone, evict_over_cap ss max idle = (idle', gone) /\
  hash_values idle ≡ₚ hash_values idle' ++ gone /\ shrinks idle' idle /\
  (0 <= max -> Z.of_nat (idle_count ss idle') <= max) /\ (Z.of_nat (idle_count ss idle) <= max -> gone = []) /\
  (forall p q, p ∈ gone -> q ∈ hash_values idle' -> older ss p q) /\ Forall (fun p => is_Some (idle_start ss p)) gone.
Proof.
  destruct (evict_loop_spec (idle_count ss idle) ss max idle [] ltac:(lia)) as (idle' & gone & E & Hs). exists idle', gone. split; [exact E|done].
Qed.

(** What a list keeps and closes when a connection is returned to it. *)
Lemma push_within_spec ss max p conns : exists conns' dropped, push_within ss max p conns = (conns', dropped) /\
  p :: conns ≡ₚ conns' ++ dropped /\
  (exists kept, sublist kept conns /\ (conns' = kept ++ [p] \/ conns' = kept)) /\
  (Z.of_nat (List.length conns) <= max -> Z.of_nat (List.length conns') <= max) /\
  (Z.of_nat (List.length conns) < max -> conns' = conns ++ [p] /\ dropped = []) /\
  forall q, q ∈ dropped -> q = p \/ (is_Some (idle_start ss q) /\ forall r, r ∈ conns -> older ss q r).
Proof.
  unfold push_within. destruct (Z.leb_spec max (Z.of_nat (List.length conns))) as [Hfull|Hroom].
  - pose proof (earliest_spec (idle_positions ss conns)) as He. destruct (earliest _) as [[t i]|].
    + destruct He as [(q & Hq & Ht)%idle_positions_in Hmin].
      assert (Hold : is_Some (idle_start ss q) /\ forall r, r ∈ conns -> older ss q r).
      { split; [by exists t|]. intros r (n & Hn)%list_elem_of_lookup. exists t. split; [done|]. intros t' Ht'.
        specialize (Hmin (t', n)). apply Hmin, idle_positions_in. by exists r. }
      rewrite Hq. cbn [option_list option_rect]. pose proof (delete_Permutation conns i q Hq) as Hp.
      assert (Hlen : List.length conns = S (List.length (delete i conns))) by apply (Permutation_length Hp).
      destruct (Z.ltb_spec (Z.of_nat (List.length (delete i conns))) max) as [Hlt|Hge].
      * eexists _, _. split; [done|]. split; [rewrite Hp at 1; solve_Permutation|]. split; [exists (delete i conns); split; [apply sublist_delete|by left]|].
        split; [intros _; rewrite length_app; simpl; lia|]. split; [lia|]. intros q' ->%list_elem_of_singleton. by right.
      * eexists _, _. split; [done|]. split; [rewrite Hp at 1; solve_Permutation|]. split; [exists (delete i conns); split; [apply sublist_delete|by right]|].
        split; [lia|]. split; [lia|]. intros q' Hq'. simpl in Hq'.
        apply elem_of_cons in Hq' as [->|Hq'%list_elem_of_singleton]; [by right|by left].
    + destruct (Z.ltb_spec (Z.of_nat (List.length conns)) max) as [Hlt|Hge]; [lia|].
      eexists _, _. split; [done|]. split; [solve_Permutation|]. split; [exists conns; split; [done|by right]|].
      split; [lia|]. split; [lia|]. intros q' ->%list_elem_of_singleton. by left.
  - rewrite (proj2 (Z.ltb_lt _ _) Hroom). eexists _, _. split; [done|]. split; [solve_Permutation|].
    split; [exists conns; split; [done|by left]|]. split; [intros _; rewrite length_app; simpl; lia|]. split; [done|].
    intros q Hq. by apply elem_of_nil in Hq.
Qed.

(** A connection returned, with the time it was. *)
Definition returned (p : Pooled) (now : Z) : Pooled := mkPooled (po_id p) (po_sender p) now.

(** Whether the pool takes a connection back. *)
Definition takes_back (st : PoolState) (key : string) (p : Pooled) (generation : Z) : bool :=
  admits (ps_generations st) generation key && negb (existsb (fun x => po_id x =? po_id p) (default [] (ps_idle st !! key))).

(** Returning a connection the pool takes back. *)
Lemma checkin_taken runtime now key p generation ss st : takes_back st key p generation = true ->
  exists conns' dropped idle' over, let conns := default [] (ps_idle st !! key) in
    push_within ss (max_idle_per_key limits) (returned p now) conns = (conns', dropped) /\
    evict_over_cap ss (max_idle_total limits) (put_list key conns' (ps_idle st)) = (idle', over) /\
    checkin limits runtime now key p generation ss st =
      (mkPoolState (ps_generations st) idle' (ps_too_early st) (ensure_sweeper runtime (ps_sweeper st)), dropped ++ over).
Proof.
  unfold takes_back. rewrite andb_true_iff, negb_true_iff. intros [Ha Hn].
  destruct (push_within ss (max_idle_per_key limits) (returned p now) (default [] (ps_idle st !! key))) as [conns' dropped] eqn:Ep.
  destruct (evict_over_cap ss (max_idle_total limits) (put_list key conns' (ps_idle st))) as [idle' over] eqn:Ee.
  exists conns', dropped, idle', over. split; [done|]. split; [done|]. unfold checkin. rewrite Ha. cbn [negb po_id]. rewrite Hn.
  fold (returned p now). by rewrite Ep, Ee.
Qed.

Lemma checkin_refused runtime now key p generation ss st : takes_back st key p generation = false ->
  checkin limits runtime now key p generation ss st = (st, [returned p now]).
Proof.
  unfold takes_back, checkin. destruct (admits _ _ _); [|done]. cbn [andb negb po_id].
  intros ->%negb_false_iff. done.
Qed.

Lemma conns_ids_fresh st key p generation : takes_back st key p generation = true ->
  po_id p ∉ map po_id (default [] (ps_idle st !! key)).
Proof.
  unfold takes_back. rewrite andb_true_iff, negb_true_iff. intros [_ Hn] Hin.
  apply list_elem_of_In, in_map_iff in Hin as (x & Hx & Hin). apply not_true_iff_false in Hn. apply Hn. apply existsb_exists.
  exists x. split; [done|]. by apply Z.eqb_eq.
Qed.

Lemma default_ok st key : pool_ok st -> 0 <= max_idle_per_key limits -> let conns := default [] (ps_idle st !! key) in
  Z.of_nat (List.length conns) <= max_idle_per_key limits /\ NoDup (map po_id conns).
Proof. intros Hok Hm. destruct (ps_idle st !! key) as [conns|] eqn:E; simpl; [by apply (Hok key)|]. split; [done|constructor]. Qed.

(** The list of the key, with the connection returned. *)
Lemma taken_list_ok now key p generation ss st conns' dropped : pool_ok st -> 0 <= max_idle_per_key limits ->
  takes_back st key p generation = true ->
  push_within ss (max_idle_per_key limits) (returned p now) (default [] (ps_idle st !! key)) = (conns', dropped) ->
  idle_ok (put_list key conns' (ps_idle st)).
Proof.
  intros Hok Hm Ht Ep. destruct (default_ok st key Hok Hm) as [Hl Hn]. pose proof (conns_ids_fresh st key p generation Ht) as Hf.
  destruct (push_within_spec ss (max_idle_per_key limits) (returned p now) (default [] (ps_idle st !! key)))
    as (c & d & E & _ & (kept & Hsub & Hc) & Hlen & _). rewrite Ep in E. injection E as <- <-.
  apply put_list_ok; [exact Hok|by apply Hlen|].
  assert (Hkept : NoDup (map po_id kept)) by (eapply sublist_NoDup; [exact Hn|by apply ids_sublist]).
  destruct Hc as [-> | ->]; [|done]. rewrite map_app. apply NoDup_app. split; [done|]. split; [|apply NoDup_singleton].
  intros i Hi ->%list_elem_of_singleton. apply Hf. eapply elem_of_sublist; [exact Hi|]. by apply ids_sublist.
Qed.

(** Filtering the lists of a map and dropping the empty ones. *)
Lemma filter_lists_shrink (P : Pooled -> Prop) `{forall p, Decision (P p)} (idle : gmap string (list Pooled)) :
  shrinks (omap (fun conns => match filter P conns with [] => None | l => Some l end) idle) idle.
Proof.
  intros key conns' Hk. rewrite lookup_omap in Hk. destruct (idle !! key) as [conns|]; [|done]. simpl in Hk. exists conns. split; [done|].
  destruct (filter P conns) as [|q l] eqn:E; [done|]. injection Hk as <-. split; [rewrite <- E; apply sublist_filter|done].
Qed.

Lemma filter_keys_shrink (P : string * list Pooled -> Prop) `{forall p, Decision (P p)} (idle : gmap string (list Pooled)) :
  shrinks (filter P idle) idle.
Proof. intros key conns Hk. apply map_lookup_filter_Some in Hk as [Hk _]. by exists conns. Qed.

Lemma shrinks_state st gens idle' too_early sweeper : shrinks idle' (ps_idle st) -> pool_ok st -> pool_ok (mkPoolState gens idle' too_early sweeper).
Proof. intros Hs Hok. exact (shrinks_ok _ _ Hs Hok). Qed.

Lemma removelast_sublist {A} (l : list A) : sublist (removelast l) l.
Proof. induction l as [|a [|b l] IH]; [done|repeat constructor|]. cbn [removelast] in *. by constructor. Qed.

Lemma checkout_shrinks usable now key ss st :
  shrinks (ps_idle (snd (checkout limits usable now key ss st))) (ps_idle st).
Proof.
  unfold checkout. destruct (ps_idle st !! key) as [conns|] eqn:E; [|apply shrinks_refl].
  set (fresh := filter _ conns). assert (Hf : sublist fresh conns) by apply sublist_filter.
  destruct (find _ fresh) as [p|]; [destruct (pooled_lease ss p); by apply (put_shrinks _ _ conns)|].
  destruct (last fresh) as [p|]; (apply (put_shrinks _ _ conns); [done|]); [|done].
  etrans; [apply removelast_sublist|done].
Qed.

Lemma conn_step_ok op s : 0 <= max_idle_per_key limits -> pool_ok s.2 -> pool_ok (conn_step op s).2.
Proof.
  destruct s as [ss st]. intros Hm Hok. destruct op as [usable now key|runtime now key p g|key id|usable now key|runtime now key p g|usable now f|now id| |i];
    cbn [conn_step snd] in *.
  - pose proof (checkout_shrinks usable now key ss st) as Hs. destruct (checkout _ _ _ _ _ _) as [[r ss'] st']. exact (shrinks_ok _ _ Hs Hok).
  - destruct (takes_back st key p g) eqn:Et; [|by rewrite checkin_refused].
    destruct (checkin_taken runtime now key p g ss st Et) as (c & d & i & o & Ep & Ee & ->). cbn [fst].
    destruct (evict_over_cap_spec ss (max_idle_total limits) (put_list key c (ps_idle st))) as (i' & o' & Ee' & _ & Hs & _).
    rewrite Ee in Ee'. injection Ee' as <- <-. apply (shrinks_ok _ _ Hs). by apply (taken_list_ok now key p g ss st c d).
  - unfold pool_evict. destruct (ps_idle st !! key) as [conns|] eqn:E; [|done]. eapply shrinks_state; [|exact Hok].
    apply (put_shrinks _ _ conns); [done|apply sublist_filter].
  - unfold take_too_early. destruct (ps_too_early st !! key) as [p|]; [|done]. destruct (pooled_expired _ _ _ _ _ || _); [|destruct (pooled_lease ss p)];
      (apply (shrinks_state st); [apply shrinks_refl|done]).
  - unfold keep_too_early. destruct (negb _); [done|]. by apply (shrinks_state st); [apply shrinks_refl|].
  - unfold sweep_at. set (kept := omap _ _). destruct (evict_over_cap_spec ss (max_idle_total limits) kept) as (i' & o' & -> & _ & Hs & _).
    cbn [snd]. eapply shrinks_state; [|exact Hok]. eapply shrinks_trans; [exact Hs|]. apply filter_lists_shrink.
  - done.
  - intros key conns Hk. simpl in Hk. by rewrite lookup_empty in Hk.
  - eapply shrinks_state; [|exact Hok]. apply filter_keys_shrink.
Qed.

(** * The fence *)

Lemma shrinks_holds ss gens idle' too_early' sweeper st key id :
  shrinks idle' (ps_idle st) -> (forall k p, too_early' !! k = Some p -> ps_too_early st !! k = Some p) ->
  pool_holds (ss, mkPoolState gens idle' too_early' sweeper) key id -> pool_holds (ss, st) key id.
Proof.
  intros Hs Ht [(conns & p & Hk & Hp & Hid)|(p & Hk & Hid)]; simpl in *.
  - left. destruct (Hs _ _ Hk) as (conns' & Hk' & Hsub & _). exists conns', p. split; [done|]. split; [by eapply elem_of_sublist|done].
  - right. exists p. split; [by apply Ht|done].
Qed.

Lemma holds_streams ss ss' st key id : pool_holds (ss, st) key id -> pool_holds (ss', st) key id.
Proof. done. Qed.

#[export] Instance pool_cache_laws : FencedCacheLaws (Streams * PoolState) PoolOp Z.
Proof.
  constructor.
  - done.
  - intros key id [(conns & p & Hk & _)|(p & Hk & _)]; simpl in Hk; by rewrite lookup_empty in Hk.
  - intros op [ss st]. destruct op as [usable now key|runtime now key p g|key id|usable now key|runtime now key p g|usable now f|now id| |i];
      cbn [fc_step fc_generations fc_label pool_cache conn_step pool_label snd fst apply_clear]; try done.
    + unfold checkout. destruct (ps_idle st !! key) as [conns|]; [|done]. destruct (find _ _) as [p|]; [by destruct (pooled_lease ss p)|].
      by destruct (last _).
    + destruct (takes_back st key p g) eqn:Et; [|by rewrite checkin_refused].
      by destruct (checkin_taken runtime now key p g ss st Et) as (c & d & i & o & _ & _ & ->).
    + unfold pool_evict. by destruct (ps_idle st !! key).
    + unfold take_too_early. destruct (ps_too_early st !! key) as [p|]; [|done]. destruct (pooled_expired _ _ _ _ _ || _); [done|by destruct (pooled_lease ss p)].
    + unfold keep_too_early. by destruct (negb _).
    + unfold sweep_at. by destruct (evict_over_cap _ _ _).
  - intros op [ss st] key' id'. destruct op as [usable now key|runtime now key p g|key id|usable now key|runtime now key p g|usable now f|now id| |i];
      cbn [fc_step fc_generations fc_holds fc_label pool_cache conn_step pool_label snd fst].
    + intros Hh. pose proof (checkout_shrinks usable now key ss st) as Hs. destruct (checkout limits usable now key ss st) as [[r ss'] st'] eqn:E.
      assert (Ht : ps_too_early st' = ps_too_early st).
      { clear -E. unfold checkout in E. destruct (ps_idle st !! key); [|congruence]. destruct (find _ _) as [p|];
          [destruct (pooled_lease ss p)|destruct (last _)]; injection E as <- <- <-; done. }
      destruct st' as [g' i' t' s']. simpl in *. subst t'. by apply (shrinks_holds _ _ _ _ _ _ _ _ Hs (fun _ _ E => E) Hh).
    + destruct (takes_back st key p g) eqn:Et; [|rewrite checkin_refused by done; by left].
      destruct (checkin_taken runtime now key p g ss st Et) as (c & d & i & o & Ep & Ee & ->). cbn [fst].
      destruct (evict_over_cap_spec ss (max_idle_total limits) (put_list key c (ps_idle st))) as (i' & o' & Ee' & _ & Hs & _).
      rewrite Ee in Ee'. injection Ee' as <- <-.
      destruct (push_within_spec ss (max_idle_per_key limits) (returned p now) (default [] (ps_idle st !! key))) as (c' & d' & Ep' & Hperm & _).
      rewrite Ep in Ep'. injection Ep' as <- <-.
      intros [(conns & q & Hk & Hq & Hid)|(q & Hk & Hid)]; [|left; right; by exists q]. simpl in Hk.
      destruct (Hs _ _ Hk) as (conns' & Hk' & Hsub & _). apply put_list_lookup in Hk' as [(-> & -> & _)|[_ Hk']].
      * assert (Hq' : q ∈ returned p now :: default [] (ps_idle st !! key)).
        { rewrite Hperm. apply elem_of_app. left. by eapply elem_of_sublist. }
        apply elem_of_cons in Hq' as [->|Hq'].
        -- right. split; [done|]. split; [done|]. unfold takes_back in Et. by apply andb_true_iff in Et as [Et _].
        -- left. left. destruct (ps_idle st !! key) as [l|] eqn:El; simpl in Hq'; [|by apply elem_of_nil in Hq']. exists l, q. done.
      * left. left. exists conns', q. split; [done|]. split; [by eapply elem_of_sublist|done].
    + unfold pool_evict. destruct (ps_idle st !! key) as [conns|] eqn:E; [|done]. apply shrinks_holds; [|done].
      apply (put_shrinks _ _ conns); [done|apply sublist_filter].
    + unfold take_too_early. destruct (ps_too_early st !! key) as [p|]; [|done].
      destruct (pooled_expired _ _ _ _ _ || _); [|destruct (pooled_lease ss p)]; (apply (shrinks_holds _ _ _ _ _ st); [apply shrinks_refl|]; intros k q Hq; by apply lookup_delete_Some in Hq as [_ Hq]).
    + unfold keep_too_early. destruct (admits (ps_generations st) g key) eqn:Ea; cbn [negb]; [|by left].
      intros [Hh|(q & Hk & Hid)]; [by left; left|]. simpl in Hk. destruct (decide (key' = key)) as [->|Hne].
      * rewrite lookup_insert_eq in Hk. injection Hk as <-. by right.
      * rewrite lookup_insert_ne in Hk by done. left. right. by exists q.
    + unfold sweep_at. set (kept := omap _ _). destruct (evict_over_cap_spec ss (max_idle_total limits) kept) as (i' & o' & -> & _ & Hs & _).
      cbn [snd]. apply shrinks_holds; [eapply shrinks_trans; [exact Hs|]; apply filter_lists_shrink|].
      intros k q Hq. by apply map_lookup_filter_Some in Hq as [Hq _].
    + done.
    + intros [(conns & p & Hk & _)|(p & Hk & _)]; simpl in Hk; by rewrite lookup_empty in Hk.
    + intros Hh. split.
      * revert Hh. apply shrinks_holds; [apply filter_keys_shrink|]. intros k q Hq. by apply map_lookup_filter_Some in Hq as [Hq _].
      * simpl. rewrite in_isolation_starts_with.
        destruct Hh as [(conns & p & Hk & _)|(p & Hk & _)]; simpl in Hk; by apply map_lookup_filter_Some in Hk as [_ Hk].
Qed.

Implicit Types (st : PoolState) (ss : Streams).

(** ** What the pool guarantees *)

(** Every operation keeps each key's connections within the bound, each
    once; returning a connection the pool takes back and a sweep leave at most
    the total of idle connections, and a sweep leaves no dead or expired one. *)
Theorem pool_within_limits op ss st : 0 <= max_idle_per_key limits -> 0 <= max_idle_total limits -> pool_ok st ->
  let '(ss', st') := conn_step op (ss, st) in
  pool_ok st' /\
  match op with
  | PoolCheckin runtime now key p generation =>
      takes_back st key p generation = true -> Z.of_nat (idle_count ss (ps_idle st')) <= max_idle_total limits
  | PoolSweep usable now forget =>
      Z.of_nat (idle_count ss (ps_idle st')) <= max_idle_total limits /\
      (forall key conns p, ps_idle st' !! key = Some conns -> p ∈ conns -> pooled_expired usable now (idle_ttl limits) ss p = false) /\
      (fst (sweep_at limits usable now forget ss st) = false -> ps_idle st' = ∅ /\ ps_too_early st' = ∅)
  | _ => True
  end.
Proof.
  intros Hk Ht Hok. pose proof (conn_step_ok op (ss, st) Hk Hok) as Hok'. destruct (conn_step op (ss, st)) as [ss' st'] eqn:E.
  split; [done|]. destruct op; try done; cbn [conn_step] in E; injection E as <- <-.
  - intros Htb. destruct (checkin_taken runtime now key p generation ss st Htb) as (c & d & i & o & Ep & Ee & ->). cbn [fst ps_idle].
    destruct (evict_over_cap_spec ss (max_idle_total limits) (put_list key c (ps_idle st))) as (i' & o' & Ee' & _ & _ & Hmax & _).
    rewrite Ee in Ee'. injection Ee' as <- <-. by apply Hmax.
  - unfold sweep_at. set (kept := omap _ _). set (early := filter _ (ps_too_early st)).
    destruct (evict_over_cap_spec ss (max_idle_total limits) kept) as (i' & o' & -> & _ & Hs & Hmax & _). cbn [fst snd ps_idle ps_too_early].
    split; [by apply Hmax|]. split.
    + intros key conns p Hkey Hp. destruct (Hs _ _ Hkey) as (conns' & Hk' & Hsub & _).
      unfold kept in Hk'. rewrite lookup_omap in Hk'. destruct (ps_idle st !! key) as [l|]; [|done]. simpl in Hk'.
      assert (Hp' : p ∈ filter (fun p => pooled_expired usable now (idle_ttl limits) ss p = false) l).
      { destruct (filter _ l) as [|q r]; [done|]. injection Hk' as <-. by eapply elem_of_sublist. }
      by apply list_elem_of_filter in Hp' as [Hp' _].
    + intros Hmore. apply orb_false_iff in Hmore as [H1 H2]. apply negb_false_iff in H1, H2.
      by apply bool_decide_eq_true_1 in H1, H2.
Qed.

(** A connection taken back displaces only idle ones, never one with a
    request in flight, and no connection is lost: each is kept or closed.
    Nothing is closed while the key and the pool have room, and a connection
    of the key that stays was not idle longer than one that is closed. *)
Theorem checkin_conserves runtime now key p generation ss st :
  takes_back st key p generation = true ->
  let conns := default [] (ps_idle st !! key) in
  let '(st', closed) := checkin limits runtime now key p generation ss st in
  returned p now :: hash_values (ps_idle st) ≡ₚ hash_values (ps_idle st') ++ closed /\
  (Z.of_nat (List.length conns) < max_idle_per_key limits ->
   Z.of_nat (idle_count ss (put_list key (conns ++ [returned p now]) (ps_idle st))) <= max_idle_total limits -> closed = []) /\
  (forall q, q ∈ closed -> q <> returned p now ->
     is_Some (idle_start ss q) /\ forall r, r ∈ conns -> r ∈ hash_values (ps_idle st') -> older ss q r).
Proof.
  intros Htb conns. destruct (checkin_taken runtime now key p generation ss st Htb) as (c & d & i & o & Ep & Ee & ->). fold conns in Ep. cbn [ps_idle].
  destruct (push_within_spec ss (max_idle_per_key limits) (returned p now) conns) as (c' & d' & Ep' & Hperm & _ & _ & Hroom & Hold).
  rewrite Ep in Ep'. injection Ep' as <- <-.
  destruct (evict_over_cap_spec ss (max_idle_total limits) (put_list key c (ps_idle st))) as (i' & o' & Ee' & Hperm' & _ & _ & Hover & Hold' & Hidle).
  rewrite Ee in Ee'. injection Ee' as <- <-.
  assert (Hall : returned p now :: hash_values (ps_idle st) ≡ₚ hash_values i ++ d ++ o).
  { assert (Hst : hash_values (ps_idle st) ≡ₚ conns ++ hash_values (delete key (ps_idle st))).
    { unfold conns. destruct (ps_idle st !! key) as [l|] eqn:El; [by apply hash_values_get|]. simpl. by rewrite delete_id. }
    rewrite Hst. change (returned p now :: conns ++ ?x) with ((returned p now :: conns) ++ x). rewrite Hperm.
    rewrite hash_values_put in Hperm'.
    transitivity ((c ++ hash_values (delete key (ps_idle st))) ++ d); [solve_Permutation|]. rewrite Hperm'. solve_Permutation. }
  split; [exact Hall|]. split.
  - intros Hl Hc. destruct (Hroom Hl) as [-> ->]. by rewrite (Hover Hc).
  - intros q [Hq|Hq]%elem_of_app Hne.
    + destruct (Hold q Hq) as [|[Hi Ho]]; [done|]. split; [done|]. intros r Hr _. by apply Ho.
    + rewrite list.Forall_forall in Hidle. split; [by apply Hidle|]. intros r _ Hr. by apply Hold'.
Qed.

(** A checked out connection is neither dead nor expired. An HTTP/1.1
    connection leaves the pool, so that it carries one request at a time; an
    HTTP/2 one stays, leased and so busy, and the fresh connections left are
    those of before. *)
Theorem checkout_exclusive usable now key ss st p lease ss' st' : pool_ok st ->
  checkout limits usable now key ss st = (Some (p, lease), ss', st') ->
  pooled_expired usable now (idle_ttl limits) ss p = false /\
  match po_sender p with
  | Sender_H1 => lease = None /\ ss' = ss /\ forall conns q, ps_idle st' !! key = Some conns -> q ∈ conns -> po_id q <> po_id p
  | Sender_H2 => lease = Some (po_id p) /\ (0 <= su_active (stream_use ss p) -> idle_start ss' p = None) /\
      exists conns, ps_idle st' !! key = Some conns /\ p ∈ conns
  end.
Proof.
  intros Hok. unfold checkout. destruct (ps_idle st !! key) as [conns|] eqn:Ek; [|done].
  destruct (Hok _ _ Ek) as (_ & _ & Hnd). set (fresh := filter _ conns).
  assert (Hfresh : forall q, q ∈ fresh -> pooled_expired usable now (idle_ttl limits) ss q = false) by (intros q Hq; by apply list_elem_of_filter in Hq as [Hq _]).
  destruct (find _ fresh) as [q|] eqn:Ef.
  - apply find_some in Ef as [Hq H2]. apply list_elem_of_In in Hq. apply bool_decide_eq_true_1 in H2. unfold pooled_lease. rewrite H2.
    intros [= <- <- <- <-]. split; [by apply Hfresh|]. rewrite H2. split; [done|]. split.
    + intros Ha. unfold idle_start. rewrite H2. assert (E : stream_use (lease_active ss q) q = mkStreamUse (su_active (stream_use ss q) + 1) (su_idle_since (stream_use ss q))).
      { unfold stream_use at 1. unfold lease_active. by rewrite lookup_insert_eq. }
      rewrite E. cbn [su_active].
      destruct (Z.eqb_spec (su_active (stream_use ss q) + 1) 0); [lia|done].
    + exists fresh. split; [|done]. cbn [ps_idle]. destruct fresh as [|a l]; [by apply elem_of_nil in Hq|]. apply lookup_insert_eq.
  - destruct (last fresh) as [q|] eqn:El; [|done]. intros [= <- <- <- <-].
    apply last_Some in El as (l & El). assert (Hq : q ∈ fresh) by (rewrite El; apply elem_of_app; right; by apply list_elem_of_singleton).
    split; [by apply Hfresh|]. pose proof (find_none _ _ Ef q ltac:(by apply list_elem_of_In)) as H2. apply bool_decide_eq_false_1 in H2.
    destruct (po_sender q); [|done]. split; [done|]. split; [done|]. intros c r Hc Hr Hid. cbn [ps_idle] in Hc.
    apply put_list_lookup in Hc as [(_ & -> & _)|[? _]]; [|done]. rewrite El, removelast_last in Hr.
    assert (Hnd' : NoDup (map po_id (l ++ [q]))) by (rewrite <- El; eapply sublist_NoDup; [exact Hnd|apply ids_sublist, sublist_filter]).
    rewrite map_app in Hnd'. apply NoDup_app in Hnd' as (_ & Hd & _). apply (Hd (po_id q)); [|by apply list_elem_of_singleton].
    rewrite <- Hid. by apply (list_elem_of_fmap_2 po_id).
Qed.

(** C34: after a clear that covers a key (of everything, as at a vault lock, or
    of the key's workspace, as at its delete), the pool holds under it, for
    reuse or for a retry after 425, only connections returned since by an
    attempt that took its generation after the clear. *)
Theorem pool_fenced before op c since key id : pool_label op = FenceClear c -> clear_covers c key = true ->
  countable_clears (clears_of (before ++ op :: since)) -> pool_holds (fc_run (before ++ op :: since)) key id ->
  exists kept generation, kept ∈ since /\ pool_label kept = FenceKeep key id generation /\
    gen_current (ps_generations (snd (fc_run (before ++ [op])))) <= generation.
Proof. exact (fenced_run before op c since key id). Qed.
End PoolSteps.

(** * Witnesses *)

Definition pool_demo_limits : PoolLimits := mkPoolLimits 2 3 1000.
Definition demo_h1 (id idle_since : Z) : Pooled := mkPooled id Sender_H1 idle_since.
Definition demo_h2 (id idle_since : Z) : Pooled := mkPooled id Sender_H2 idle_since.
Definition demo_streams : Streams := {[ 20 := mkStreamUse 1 0 ]}.
Definition demo_pool : PoolState := mkPoolState Generations_default
  {[ "ws-a|x" := [demo_h1 1 5; demo_h1 2 3]; "ws-b|y" := [demo_h2 20 0; demo_h1 3 1] ]} ∅ true.

Lemma demo_pool_ok : pool_ok pool_demo_limits demo_pool.
Proof.
  intros key conns Hk. cbn [ps_idle demo_pool] in Hk.
  apply lookup_insert_Some in Hk as [[<- <-]|[_ [<- <-]%lookup_singleton_Some]]; (split; [done|split; [done|]]);
    cbn; repeat constructor; set_solver.
Qed.

Lemma pool_within_limits_witness :
  let '(ss', st') := conn_step pool_demo_limits (PoolSweep (fun p => negb (po_id p =? 3)) 100 true) (demo_streams, demo_pool) in
  (ps_idle st' = {[ "ws-a|x" := [demo_h1 1 5; demo_h1 2 3]; "ws-b|y" := [demo_h2 20 0] ]}) /\
  (0 <= 2 /\ 0 <= 3) /\
  let '(ss', st') := conn_step pool_demo_limits (PoolSweep (fun p => negb (po_id p =? 3)) 100 true) (demo_streams, demo_pool) in
  pool_ok pool_demo_limits st' /\
  Z.of_nat (idle_count demo_streams (ps_idle st')) <= max_idle_total pool_demo_limits /\
  (forall key conns p, ps_idle st' !! key = Some conns -> p ∈ conns ->
    pooled_expired (fun p => negb (po_id p =? 3)) 100 (idle_ttl pool_demo_limits) demo_streams p = false) /\
  (fst (sweep_at pool_demo_limits (fun p => negb (po_id p =? 3)) 100 true demo_streams demo_pool) = false -> ps_idle st' = ∅ /\ ps_too_early st' = ∅).
Proof.
  split; [by vm_compute|]. split; [lia|].
  exact (pool_within_limits pool_demo_limits (PoolSweep (fun p => negb (po_id p =? 3)) 100 true) demo_streams demo_pool ltac:(done) ltac:(done) demo_pool_ok).
Defined.

(** The third connection of a key closes the longest idle of the two. *)
Definition demo_returned : Pooled := demo_h1 9 0.
Lemma checkin_conserves_witness :
  (let '(st', closed) := checkin pool_demo_limits true 50 "ws-a|x" demo_returned 0 demo_streams demo_pool in
   ps_idle st' !! "ws-a|x" = Some [demo_h1 1 5; demo_h1 9 50] /\ closed = [demo_h1 2 3]) /\
  let conns := default [] (ps_idle demo_pool !! "ws-a|x") in
  let '(st', closed) := checkin pool_demo_limits true 50 "ws-a|x" demo_returned 0 demo_streams demo_pool in
  returned demo_returned 50 :: hash_values (ps_idle demo_pool) ≡ₚ hash_values (ps_idle st') ++ closed /\
  (Z.of_nat (List.length conns) < max_idle_per_key pool_demo_limits ->
   Z.of_nat (idle_count demo_streams (put_list "ws-a|x" (conns ++ [returned demo_returned 50]) (ps_idle demo_pool))) <= max_idle_total pool_demo_limits -> closed = []) /\
  (forall q, q ∈ closed -> q <> returned demo_returned 50 ->
     is_Some (idle_start demo_streams q) /\ forall r, r ∈ conns -> r ∈ hash_values (ps_idle st') -> older demo_streams q r).
Proof.
  split; [by vm_compute|]. exact (checkin_conserves pool_demo_limits true 50 "ws-a|x" demo_returned 0 demo_streams demo_pool ltac:(by vm_compute)).
Defined.

Lemma checkout_exclusive_witness :
  let p := demo_h2 20 0 in let ss' := lease_active demo_streams p in
  exists st', checkout pool_demo_limits (fun _ => true) 100 "ws-b|y" demo_streams demo_pool = (Some (p, Some 20), ss', st') /\
  pooled_expired (fun _ => true) 100 (idle_ttl pool_demo_limits) demo_streams p = false /\
  match po_sender p with
  | Sender_H1 => Some 20 = None /\ ss' = demo_streams /\ forall conns q, ps_idle st' !! "ws-b|y" = Some conns -> q ∈ conns -> po_id q <> po_id p
  | Sender_H2 => Some 20 = Some (po_id p) /\ (0 <= su_active (stream_use demo_streams p) -> idle_start ss' p = None) /\
      exists conns, ps_idle st' !! "ws-b|y" = Some conns /\ p ∈ conns
  end.
Proof.
  exists demo_pool. assert (E : checkout pool_demo_limits (fun _ => true) 100 "ws-b|y" demo_streams demo_pool =
    (Some (demo_h2 20 0, Some 20), lease_active demo_streams (demo_h2 20 0), demo_pool)) by (by vm_compute). split; [exact E|].
  exact (checkout_exclusive pool_demo_limits (fun _ => true) 100 "ws-b|y" demo_streams demo_pool (demo_h2 20 0) (Some 20) _ _ demo_pool_ok E).
Defined.

(** A request in flight over a delete of its workspace: its connection is
    closed, and the one of a later request is pooled. *)
Definition demo_before : list PoolOp := [PoolCheckin true 1 "ws-a|x" (demo_h1 1 0) 0; PoolCheckout (fun _ => true) 2 "ws-a|x"].
Definition demo_delete : PoolOp := PoolClearIsolation "ws-a".
Definition demo_since : list PoolOp := [PoolCheckin true 3 "ws-a|x" (demo_h1 1 0) 0; PoolCheckin true 4 "ws-a|x" (demo_h1 2 0) 1].

Lemma pool_fenced_witness :
  let s : Streams * PoolState := fc_run (H := pool_cache pool_demo_limits) (demo_before ++ demo_delete :: demo_since) in
  ps_idle s.2 = {[ "ws-a|x" := [demo_h1 2 4] ]} /\
  exists kept generation, kept ∈ demo_since /\ pool_label kept = FenceKeep "ws-a|x" 2 generation /\
    gen_current (ps_generations (snd (fc_run (H := pool_cache pool_demo_limits) (demo_before ++ [demo_delete])))) <= generation.
Proof.
  split; [by vm_compute|]. apply (pool_fenced pool_demo_limits demo_before demo_delete (ClearIsolation "ws-a") demo_since "ws-a|x" 2); try done.
  left. exists [demo_h1 2 4], (demo_h1 2 4). split; [by vm_compute|]. split; [by apply list_elem_of_singleton|done].
Defined.
