(* ===== verification/Tickets.v ===== *)
(** The session-ticket cache behind 0-RTT early data
    (crates/anvil-transport/src/tickets.rs): resumption contexts under
    isolation keys, fenced by clear generations, and the tickets of each
    context.

    A context ([Arc<ResumptionContext>]) is an identity; its ticket store
    lives as long as a connection holds it, so stores are kept by identity
    beside the cache. What rustls keeps itself (key-exchange hints, TLS 1.2
    sessions), the verifier a context pins and its handshake gate are not
    modelled. Creating a context gives it the identity its operation names. *)
From Stdlib Require Import ZArith Lia Ascii String.
From stdpp Require Import base numbers strings option list gmap pretty.
From S2P Require Import Prelude Text Fence.
Open Scope string_scope.
Open Scope list_scope.
Open Scope Z_scope.

Definition MAX_TICKETS : nat := 8.
Definition MAX_CONTEXTS : nat := 256.

Inductive TicketTransport := TicketTransport_Quic | TicketTransport_Tls.

(** A TLS 1.3 ticket: which it is, and [max_early_data_size()]. *)
Record Ticket := mkTicket { tk_id : Z; tk_max_early : Z }.

#[export] Instance Ticket_eq_dec : EqDecision Ticket.
Proof. solve_decision. Defined.

Record TicketStore := mkTicketStore {
  ts_tls13 : list Ticket;
  ts_received : Z;
  ts_newest_max_early : option Z;
  ts_taken : option Z
}.

Definition TicketStore_default : TicketStore := mkTicketStore [] 0 None None.

Definition tickets_len (s : TicketStore) : nat := List.length (ts_tls13 s).

Definition reset_take (s : TicketStore) : TicketStore := mkTicketStore (ts_tls13 s) (ts_received s) (ts_newest_max_early s) None.

(** The counter is 32 bits wide. *)
Definition insert_tls13_ticket (value : Ticket) (s : TicketStore) : TicketStore :=
  let q := if (MAX_TICKETS <=? List.length (ts_tls13 s))%nat then drop 1 (ts_tls13 s) else ts_tls13 s in
  mkTicketStore (q ++ [value]) ((ts_received s + 1) mod 2 ^ 32) (Some (tk_max_early value)) (ts_taken s).

(** The newest ticket, taken off. *)
Definition take_tls13_ticket (s : TicketStore) : option Ticket * TicketStore :=
  match last (ts_tls13 s) with
  | Some v => (Some v, mkTicketStore (removelast (ts_tls13 s)) (ts_received s) (ts_newest_max_early s) (Some (tk_max_early v)))
  | None => (None, s)
  end.

(** What a prepared TLS configuration brings to the key. *)
Record PreparedTls := mkPreparedTls { profile_key : string; fingerprint : string }.

Definition ticket_key (isolation : string) (transport : TicketTransport) (host : string) (port : Z) (prepared : PreparedTls) (alpn : list string) : string :=
  isolation +:+ "|" +:+ (match transport with TicketTransport_Quic => "quic" | TicketTransport_Tls => "tls" end) +:+ "|" +:+
  to_ascii_lowercase host +:+ ":" +:+ pretty port +:+ "|" +:+ profile_key prepared +:+ "|" +:+ fingerprint prepared +:+ "|" +:+
  String.concat "," alpn.

(** The cache, and the store of every context there is. *)
Record TicketCache := mkTicketCache {
  tk_contexts : gmap string Z;
  tk_generations : Generations;
  tk_stores : gmap Z TicketStore
}.

Definition TicketCache_default : TicketCache := mkTicketCache ∅ Generations_default ∅.

Definition tickets_clear (c : TicketCache) : TicketCache := mkTicketCache ∅ (gen_clear (tk_generations c)) (tk_stores c).

Definition tickets_clear_isolation (isolation : string) (c : TicketCache) : TicketCache :=
  let prefix := isolation +:+ "|" in
  mkTicketCache (filter (fun kv => starts_with kv.1 prefix = false) (tk_contexts c)) (gen_clear_isolation isolation (tk_generations c)) (tk_stores c).

Section Context.
Context `{HashOrder Z}.

(** [map.keys().next()] removed, from a cache that is full. *)
Definition make_room (m : gmap string Z) : gmap string Z :=
  if (MAX_CONTEXTS <=? size m)%nat
  then match hash_iter m with (k, _) :: _ => delete k m | [] => m end
  else m.

(** [TicketCache::context] once its key is known; [fresh] is the identity of a
    context it creates. *)
Definition context_at (generation : Z) (key : string) (fresh : Z) (c : TicketCache) : Z * TicketCache :=
  let stores := <[fresh := TicketStore_default]> (tk_stores c) in
  if negb (admits (tk_generations c) generation key) then (fresh, mkTicketCache (tk_contexts c) (tk_generations c) stores)
  else match tk_contexts c !! key with
       | Some id => (id, c)
       | None => (fresh, mkTicketCache (<[key := fresh]> (make_room (tk_contexts c))) (tk_generations c) stores)
       end.

Definition context (generation : Z) (isolation : string) (transport : TicketTransport) (host : string) (port : Z) (prepared : PreparedTls)
  (alpn : list string) (fresh : Z) (c : TicketCache) : Z * TicketCache :=
  context_at generation (ticket_key isolation transport host port prepared alpn) fresh c.

(** * Runs *)

(** [TK_Context] is a call of [context] whose key is [key]. *)

Inductive TicketOp :=
  | TK_Clear
  | TK_ClearIsolation (isolation : string)
  | TK_Context (generation : Z) (key : string) (fresh : Z)
  | TK_Begin (id : Z)
  | TK_Insert (id : Z) (value : Ticket)
  | TK_Take (id : Z).

Definition ticket_step (op : TicketOp) (c : TicketCache) : TicketCache :=
  let on id f := mkTicketCache (tk_contexts c) (tk_generations c) (alter f id (tk_stores c)) in
  match op with
  | TK_Clear => tickets_clear c
  | TK_ClearIsolation isolation => tickets_clear_isolation isolation c
  | TK_Context generation key fresh => (context_at generation key fresh c).2
  | TK_Begin id => on id reset_take
  | TK_Insert id value => on id (insert_tls13_ticket value)
  | TK_Take id => on id (fun s => (take_tls13_ticket s).2)
  end.

Definition ticket_label (op : TicketOp) : FenceStep Z :=
  match op with
  | TK_Clear => FenceClear ClearAll
  | TK_ClearIsolation isolation => FenceClear (ClearIsolation isolation)
  | TK_Context generation key fresh => FenceKeep key fresh generation
  | _ => FenceOther
  end.

#[export] Instance ticket_cache : FencedCache TicketCache TicketOp Z := {|
  fc_init := TicketCache_default;
  fc_step := ticket_step;
  fc_generations := tk_generations;
  fc_holds := fun c key id => tk_contexts c !! key = Some id;
  fc_label := ticket_label;
|}.

Lemma make_room_subset m key id : make_room m !! key = Some id -> m !! key = Some id.
Proof.
  unfold make_room. destruct (_ <=? _)%nat; [|done]. destruct (hash_iter m) as [|[k x] ?]; [done|]. intros H1.
  by apply lookup_delete_Some in H1 as [_ ?].
Qed.

Lemma make_room_size m : (size m <= MAX_CONTEXTS)%nat -> (size (make_room m) < MAX_CONTEXTS)%nat.
Proof.
  intros Hm. unfold make_room. destruct (Nat.leb_spec MAX_CONTEXTS (size m)) as [Hge|]; [|done].
  pose proof (hash_iter_perm m) as Hp. destruct (hash_iter m) as [|[k x] l] eqn:E.
  - apply Permutation_nil_l in Hp. symmetry in Hp. apply map_to_list_empty_iff in Hp as ->. rewrite map_size_empty in Hge. unfold MAX_CONTEXTS in Hge. lia.
  - assert (Hk : m !! k = Some x) by (apply elem_of_map_to_list; rewrite <- Hp; by left).
    rewrite map_size_delete, Hk. unfold MAX_CONTEXTS in *. lia.
Qed.

#[export] Instance ticket_cache_laws : FencedCacheLaws TicketCache TicketOp Z.
Proof.
  constructor.
  - done.
  - intros key id. cbn. by rewrite lookup_empty.
  - intros [|iso|g key fresh|id|id v|id] c; try done. cbn. unfold context_at.
    destruct (negb _); [done|]. by destruct (tk_contexts c !! key).
  - intros [|iso|g key' fresh|id'|id' v|id'] c key id; cbn [fc_holds fc_step fc_label ticket_cache ticket_step ticket_label tk_contexts tickets_clear tickets_clear_isolation]; try done.
    + intros Hh. apply map_lookup_filter_Some in Hh as [Hh Hn]. split; [done|]. cbn [clear_covers]. by rewrite in_isolation_starts_with.
    + unfold context_at. destruct (admits (tk_generations c) g key') eqn:Ea; cbn [negb]; [|by left].
      destruct (tk_contexts c !! key') as [id0|] eqn:Ek; cbn; [by left|]. intros Hh.
      apply lookup_insert_Some in Hh as [[<- <-]|[_ Hh]]; [by right|]. left. by apply make_room_subset.
Qed.

(** The identity an operation may give to a new context. *)
Definition created (op : TicketOp) : option Z := match op with TK_Context _ _ fresh => Some fresh | _ => None end.

Lemma created_unique ops x y id : NoDup (omap created ops) -> x ∈ ops -> y ∈ ops -> created x = Some id -> created y = Some id -> x = y.
Proof.
  intros Hn Hx Hy Cx Cy. induction ops as [|o ops IH]; [by apply not_elem_of_nil in Hx|]. cbn in Hn.
  assert (Hin : forall z, z ∈ ops -> created z = Some id -> id ∈ omap created ops) by (intros z Hz Cz; apply list_elem_of_omap; by exists z).
  apply elem_of_cons in Hx as [->|Hx], Hy as [->|Hy]; [done|exfalso..|].
  - rewrite Cx in Hn. apply NoDup_cons in Hn as [Hn _]. eauto.
  - rewrite Cy in Hn. apply NoDup_cons in Hn as [Hn _]. eauto.
  - apply IH; try done. destruct (created o); [by apply NoDup_cons in Hn as [_ Hn]|done].
Qed.

Lemma context_creates g key fresh c id key' : tk_contexts (context_at g key fresh c).2 !! key' = Some id ->
  tk_contexts c !! key' = Some id \/ (id = fresh /\ key' = key /\ tk_stores (context_at g key fresh c).2 !! fresh = Some TicketStore_default).
Proof.
  unfold context_at. destruct (negb _); [by left|]. destruct (tk_contexts c !! key); cbn; [by left|]. intros Hh.
  apply lookup_insert_Some in Hh as [[<- <-]|[_ Hh]]; [right; by rewrite lookup_insert_eq|left; by apply make_room_subset].
Qed.

(** A context the cache holds after a clear was created since, with no ticket. *)
Lemma held_created before op c since key id : ticket_label op = FenceClear c -> clear_covers c key = true ->
  tk_contexts (fc_run (before ++ op :: since)) !! key = Some id ->
  exists g s1 s2, since = s1 ++ TK_Context g key id :: s2 /\
    tk_stores (fc_run ((before ++ op :: s1) ++ [TK_Context g key id])) !! id = Some TicketStore_default.
Proof.
  intros Hop Hk. induction since as [|o since IH] using rev_ind; intros Hh.
  - rewrite fc_run_app in Hh. pose proof (fc_step_holds (H := ticket_cache) op _ key id Hh) as Hs. cbn [fc_label ticket_cache] in Hs.
    rewrite Hop in Hs. destruct Hs; congruence.
  - assert (Hs : before ++ op :: since ++ [o] = (before ++ op :: since) ++ [o]) by (by rewrite <- app_assoc).
    rewrite Hs, fc_run_app in Hh.
    assert (Hold : tk_contexts (fc_run (before ++ op :: since)) !! key = Some id -> exists g s1 s2, since ++ [o] = s1 ++ TK_Context g key id :: s2 /\
      tk_stores (fc_run ((before ++ op :: s1) ++ [TK_Context g key id])) !! id = Some TicketStore_default).
    { intros Hh'. destruct (IH Hh') as (g & s1 & s2 & -> & Hst). exists g, s1, (s2 ++ [o]). split; [by rewrite <- app_assoc|done]. }
    destruct o as [|iso|g key' fresh|i|i v|i]; cbn [fc_step ticket_cache ticket_step] in Hh; try (by apply Hold).
    + unfold tickets_clear_isolation in Hh. cbn [tk_contexts] in Hh. apply map_lookup_filter_Some in Hh as [Hh _]. by apply Hold.
    + apply context_creates in Hh as [Hh|(-> & -> & Hst)]; [by apply Hold|]. exists g, since, []. split; [done|]. by rewrite fc_run_app.
Qed.

(** A context's tickets since some point are those it had then and those that
    arrived since. *)
Lemma insert_ticket_in t v s : t ∈ ts_tls13 (insert_tls13_ticket v s) -> t = v \/ t ∈ ts_tls13 s.
Proof.
  unfold insert_tls13_ticket. cbn [ts_tls13]. intros [Ht|Ht%list_elem_of_singleton]%elem_of_app; [|by left]. right.
  destruct (_ <=? _)%nat; [|done]. apply list_elem_of_lookup in Ht as [i Hi]. rewrite lookup_drop in Hi. by eapply list_elem_of_lookup_2.
Qed.

Lemma take_ticket_in t s : t ∈ ts_tls13 (take_tls13_ticket s).2 -> t ∈ ts_tls13 s.
Proof.
  unfold take_tls13_ticket. destruct (last (ts_tls13 s)) as [v|] eqn:E; [|done]. cbn. intros Ht.
  apply last_Some in E as [l E]. rewrite E in *. rewrite removelast_last in Ht. apply elem_of_app. by left.
Qed.

Lemma stores_since ops since id store : (forall op, op ∈ since -> created op <> Some id) ->
  tk_stores (fc_run (ops ++ since)) !! id = Some store ->
  forall t, t ∈ ts_tls13 store -> (exists s0, tk_stores (fc_run ops) !! id = Some s0 /\ t ∈ ts_tls13 s0) \/ TK_Insert id t ∈ since.
Proof.
  revert store. induction since as [|o since IH] using rev_ind; intros store Hc Hs t Ht.
  { rewrite app_nil_r in Hs. left. by exists store. }
  rewrite app_assoc, fc_run_app in Hs.
  assert (Hold : forall s0, tk_stores (fc_run (ops ++ since)) !! id = Some s0 -> t ∈ ts_tls13 s0 ->
    (exists s0, tk_stores (fc_run ops) !! id = Some s0 /\ t ∈ ts_tls13 s0) \/ TK_Insert id t ∈ since ++ [o]).
  { intros s0 Hs0 Ht0. destruct (IH s0) with (t := t) as [?|Hin]; [|done|done|by left|right; apply elem_of_app; by left].
    intros op Hop. apply Hc, elem_of_app. by left. }
  destruct o as [|iso|g key fresh|i|i v|i]; cbn [fc_step ticket_cache ticket_step tk_stores tickets_clear tickets_clear_isolation] in Hs; try (by eapply Hold).
  - assert (fresh <> id) by (intros ->; apply (Hc (TK_Context g key id)); [apply elem_of_app; right; by apply list_elem_of_singleton|done]).
    unfold context_at in Hs. destruct (negb _); [|destruct (tk_contexts _ !! key)]; cbn in Hs; rewrite ?lookup_insert_ne in Hs by done; by eapply Hold.
  - apply lookup_alter_Some in Hs as [(-> & s0 & H1 & ->)|[_ H1]]; [|by eapply Hold]. by apply (Hold s0).
  - apply lookup_alter_Some in Hs as [(-> & s0 & H1 & ->)|[_ H1]]; [|by eapply Hold].
    apply insert_ticket_in in Ht as [->|Ht]; [|by apply (Hold s0)]. right. apply elem_of_app. right. by apply list_elem_of_singleton.
  - apply lookup_alter_Some in Hs as [(-> & s0 & H1 & ->)|[_ H1]]; [|by eapply Hold].
    apply take_ticket_in in Ht. by apply (Hold s0).
Qed.

(** ** Bounds *)

Definition bounded (c : TicketCache) : Prop :=
  (size (tk_contexts c) <= MAX_CONTEXTS)%nat /\ forall id s, tk_stores c !! id = Some s -> (List.length (ts_tls13 s) <= MAX_TICKETS)%nat.

Lemma insert_ticket_length v s : (List.length (ts_tls13 s) <= MAX_TICKETS)%nat -> (List.length (ts_tls13 (insert_tls13_ticket v s)) <= MAX_TICKETS)%nat.
Proof.
  intros Hs. unfold insert_tls13_ticket. cbn [ts_tls13]. rewrite length_app. cbn [List.length].
  destruct (Nat.leb_spec MAX_TICKETS (List.length (ts_tls13 s))); rewrite ?length_drop; unfold MAX_TICKETS in *; lia.
Qed.

Lemma take_ticket_length s : (List.length (ts_tls13 s) <= MAX_TICKETS)%nat -> (List.length (ts_tls13 (take_tls13_ticket s).2) <= MAX_TICKETS)%nat.
Proof.
  intros Hs. unfold take_tls13_ticket. destruct (last (ts_tls13 s)) as [v|] eqn:E; [|done]. cbn [snd ts_tls13].
  apply last_Some in E as [l E]. rewrite E in *. rewrite removelast_last. rewrite length_app in Hs. lia.
Qed.

Lemma insert_size (m : gmap string Z) key (id : Z) : m !! key = None -> (size m < MAX_CONTEXTS)%nat -> (size (<[key := id]> m) <= MAX_CONTEXTS)%nat.
Proof. intros Hk Hm. rewrite map_size_insert, Hk. lia. Qed.

Lemma empty_size : (size (∅ : gmap string Z) <= MAX_CONTEXTS)%nat.
Proof. rewrite map_size_empty. unfold MAX_CONTEXTS. lia. Qed.

Lemma bounded_stores c stores : bounded c -> (forall id s, stores !! id = Some s -> (List.length (ts_tls13 s) <= MAX_TICKETS)%nat) ->
  bounded (mkTicketCache (tk_contexts c) (tk_generations c) stores).
Proof. intros [H1 _] H2. by split. Qed.

Lemma ticket_step_bounded op c : bounded c -> bounded (ticket_step op c).
Proof.
  intros [Hs Ht]. assert (Halter : forall f id, (forall s, (List.length (ts_tls13 s) <= MAX_TICKETS)%nat -> (List.length (ts_tls13 (f s)) <= MAX_TICKETS)%nat) ->
    bounded (mkTicketCache (tk_contexts c) (tk_generations c) (alter f id (tk_stores c)))).
  { intros f id Hf. apply bounded_stores; [done|]. intros id' s [(-> & s0 & H1 & ->)|[_ H1]]%lookup_alter_Some; [|by eapply Ht]. by eapply Hf, Ht. }
  destruct op as [|iso|g key fresh|i|i v|i]; cbn [ticket_step].
  - split; [|done]. apply empty_size.
  - split; [|done]. etrans; [|exact Hs]. apply map_subseteq_size, map_filter_subseteq.
  - assert (Hfresh : forall id s, <[fresh := TicketStore_default]> (tk_stores c) !! id = Some s -> (List.length (ts_tls13 s) <= MAX_TICKETS)%nat).
    { intros id s [[_ <-]|[_ Hi]]%lookup_insert_Some; [cbn; unfold MAX_TICKETS; lia|by eapply Ht]. }
    unfold context_at. destruct (negb _); [by apply bounded_stores|]. destruct (tk_contexts c !! key) as [id|] eqn:Ek; [done|]. split; [|done].
    cbn [snd tk_contexts]. apply insert_size; [|by apply make_room_size]. destruct (make_room (tk_contexts c) !! key) eqn:E; [|done].
    apply make_room_subset in E. congruence.
  - by apply Halter.
  - apply Halter, insert_ticket_length.
  - apply Halter, take_ticket_length.
Qed.

Lemma tickets_bounded ops : bounded (fc_run ops).
Proof.
  induction ops as [|op ops IH] using rev_ind; [|rewrite fc_run_app; by apply ticket_step_bounded].
  split; [apply empty_size|done].
Qed.

(** ** Tickets used *)

(** The tickets connections took, in order, over a run from [c]. *)
Fixpoint taken_from (c : TicketCache) (ops : list TicketOp) : list Ticket :=
  match ops with
  | [] => []
  | op :: ops' =>
      (match op with
       | TK_Take id => option_list (tk_stores c !! id ≫= fun s => (take_tls13_ticket s).1)
       | _ => []
       end) ++ taken_from (ticket_step op c) ops'
  end.

Definition arrived (op : TicketOp) : option Ticket := match op with TK_Insert _ v => Some v | _ => None end.

(** The tickets still in a store are each in one, once, and none is among
    those in [out]. *)
Record distinct (out : list Ticket) (c : TicketCache) : Prop := mkDistinct {
  distinct_once : forall id s, tk_stores c !! id = Some s -> NoDup (ts_tls13 s);
  distinct_apart : forall i j a b t, tk_stores c !! i = Some a -> tk_stores c !! j = Some b -> t ∈ ts_tls13 a -> t ∈ ts_tls13 b -> i = j;
  distinct_out : forall id s t, tk_stores c !! id = Some s -> t ∈ ts_tls13 s -> t ∉ out
}.

(** No store gained a ticket, and none has one in [out']. *)
Lemma distinct_fewer out out' c stores : distinct out c ->
  (forall id s, stores !! id = Some s -> NoDup (ts_tls13 s) /\
     (ts_tls13 s = [] \/ exists s0, tk_stores c !! id = Some s0 /\ forall t, t ∈ ts_tls13 s -> t ∈ ts_tls13 s0) /\ forall t, t ∈ ts_tls13 s -> t ∉ out') ->
  forall contexts generations, distinct out' (mkTicketCache contexts generations stores).
Proof.
  intros [D1 D2 D3] H0 contexts generations. constructor; cbn [tk_stores].
  - intros id s Hs. by apply (H0 id s Hs).
  - intros i j a b t Ha Hb Hta Htb. destruct (H0 i a Ha) as (_ & [Ea|(a0 & Ha0 & Sa)] & _); [rewrite Ea in Hta; by apply not_elem_of_nil in Hta|].
    destruct (H0 j b Hb) as (_ & [Eb|(b0 & Hb0 & Sb)] & _); [rewrite Eb in Htb; by apply not_elem_of_nil in Htb|].
    eapply (D2 i j a0 b0 t); eauto.
  - intros id s t Hs. by apply (H0 id s Hs).
Qed.

Lemma distinct_insert out c id v : distinct out c -> v ∉ out -> (forall i s, tk_stores c !! i = Some s -> v ∉ ts_tls13 s) ->
  distinct out (ticket_step (TK_Insert id v) c).
Proof.
  intros [D1 D2 D3] Hv Hnew. assert (Hcase : forall j s t, alter (insert_tls13_ticket v) id (tk_stores c) !! j = Some s -> t ∈ ts_tls13 s ->
    (t = v /\ j = id) \/ exists s0, tk_stores c !! j = Some s0 /\ t ∈ ts_tls13 s0).
  { intros j s t [(-> & s0 & Hs0 & ->)|[_ Hs]]%lookup_alter_Some Ht; [|right; by exists s].
    apply insert_ticket_in in Ht as [->|Ht]; [by left|right; by exists s0]. }
  constructor; cbn [ticket_step tk_stores].
  - intros j s [(-> & s0 & Hs0 & ->)|[_ Hs]]%lookup_alter_Some; [|by eapply D1]. unfold insert_tls13_ticket. cbn [ts_tls13].
    pose proof (D1 j s0 Hs0) as Hn. pose proof (Hnew j s0 Hs0) as Hnv. apply NoDup_app. split; [|split; [|apply NoDup_singleton]].
    + destruct (_ <=? _)%nat; [|done]. by apply (NoDup_app (take 1 (ts_tls13 s0)) (drop 1 (ts_tls13 s0))); rewrite take_drop.
    + intros x Hx ->%list_elem_of_singleton. apply Hnv. destruct (_ <=? _)%nat; [|done].
      apply list_elem_of_lookup in Hx as [k Hk]. rewrite lookup_drop in Hk. by eapply list_elem_of_lookup_2.
  - intros i j a b t Ha Hb Hta Htb. destruct (Hcase i a t Ha Hta) as [[-> ->]|(a0 & Ha0 & Ta)], (Hcase j b _ Hb Htb) as [[E1 E2]|(b0 & Hb0 & Tb)]; try done.
    + by destruct (Hnew j b0 Hb0).
    + subst. by destruct (Hnew i a0 Ha0).
    + by eapply (D2 i j a0 b0 t).
  - intros j s t Hs Ht. destruct (Hcase j s t Hs Ht) as [[-> _]|(s0 & Hs0 & Ht0)]; [done|by eapply D3].
Qed.

(** Taking a ticket. *)
Lemma take_ticket_spec s t s' : take_tls13_ticket s = (Some t, s') -> ts_tls13 s = ts_tls13 s' ++ [t].
Proof.
  unfold take_tls13_ticket. destruct (last (ts_tls13 s)) as [v|] eqn:E; [|done]. intros [= <- <-]. cbn.
  apply last_Some in E as [l E]. by rewrite E, removelast_last.
Qed.

Lemma taken_once ops out c : distinct out c -> NoDup (omap arrived ops) ->
  (forall v, v ∈ omap arrived ops -> v ∉ out /\ forall id s, tk_stores c !! id = Some s -> v ∉ ts_tls13 s) ->
  NoDup (taken_from c ops) /\ forall t, t ∈ taken_from c ops -> t ∉ out.
Proof.
  revert out c. induction ops as [|op ops IH]; intros out c Hd Hn Hnew.
  { split; [constructor|]. intros t Ht. by apply not_elem_of_nil in Ht. }
  assert (Hsame : forall c', (forall id s, tk_stores c' !! id = Some s -> NoDup (ts_tls13 s) /\
      (ts_tls13 s = [] \/ exists s0, tk_stores c !! id = Some s0 /\ forall t, t ∈ ts_tls13 s -> t ∈ ts_tls13 s0)) ->
    NoDup (omap arrived ops) -> (forall v, v ∈ omap arrived ops -> v ∈ omap arrived (op :: ops)) ->
    NoDup (taken_from c' ops) /\ forall t, t ∈ taken_from c' ops -> t ∉ out).
  { intros c' Hc Hno Hsub. destruct c' as [m g stores]. cbn [tk_stores] in Hc. apply IH; [|done|].
    - apply (distinct_fewer out out c stores Hd). intros id s Hs. destruct (Hc id s Hs) as [H1 H2]. split; [done|]. split; [done|].
      intros t Ht. destruct H2 as [E|(s0 & Hs0 & Hin)]; [rewrite E in Ht; by apply not_elem_of_nil in Ht|].
      destruct Hd as [_ _ D3]. by eapply D3, Hin.
    - intros v Hv. destruct (Hnew v (Hsub v Hv)) as [H1 H2]. split; [done|]. intros id s Hs Hin.
      destruct (Hc id s Hs) as [_ [E|(s0 & Hs0 & Hin0)]]; [rewrite E in Hin; by apply not_elem_of_nil in Hin|]. by apply (H2 id s0 Hs0), Hin0. }
  assert (Hself : forall id s, tk_stores c !! id = Some s -> NoDup (ts_tls13 s) /\
      (ts_tls13 s = [] \/ exists s0, tk_stores c !! id = Some s0 /\ forall t, t ∈ ts_tls13 s -> t ∈ ts_tls13 s0)).
  { intros id s Hs. destruct Hd as [D1 _ _]. split; [by eapply D1|]. right. by exists s. }
  cbn [taken_from]. destruct op as [|iso|g key fresh|i|i v|i]; cbn [app]; try (apply Hsame; [exact Hself|exact Hn|done]).
  - assert (Hf : forall id s, <[fresh := TicketStore_default]> (tk_stores c) !! id = Some s -> NoDup (ts_tls13 s) /\
      (ts_tls13 s = [] \/ exists s0, tk_stores c !! id = Some s0 /\ forall t, t ∈ ts_tls13 s -> t ∈ ts_tls13 s0)).
    { intros id s [[_ <-]|[_ Hs]]%lookup_insert_Some; [split; [constructor|by left]|by apply Hself]. }
    apply Hsame; [|exact Hn|done]. cbn [ticket_step]. unfold context_at.
    destruct (negb _); [exact Hf|]. destruct (tk_contexts c !! key); [exact Hself|exact Hf].
  - apply Hsame; [|exact Hn|done]. cbn [ticket_step tk_stores]. intros id s [(-> & s0 & Hs0 & ->)|[_ Hs]]%lookup_alter_Some; [|by apply Hself].
    destruct (Hself id s0 Hs0). split; [done|]. right. by exists s0.
  - change (omap arrived (TK_Insert i v :: ops)) with (v :: omap arrived ops) in Hn, Hnew. apply NoDup_cons in Hn as [Hv Hn].
    destruct (Hnew v) as [Hvo Hvs]; [by left|]. apply IH; [by apply distinct_insert|done|]. intros w Hw.
    destruct (Hnew w) as [Hwo Hws]; [by right|]. split; [done|]. cbn [ticket_step tk_stores].
    intros id s [(-> & s0 & Hs0 & ->)|[_ Hs]]%lookup_alter_Some; [|by eapply Hws].
    intros [->|Hin]%insert_ticket_in; [done|]. by eapply Hws.
  - change (omap arrived (TK_Take i :: ops)) with (omap arrived ops) in Hn, Hnew.
    destruct (tk_stores c !! i) as [s0|] eqn:Es0; cbn [mbind option_bind option_list app].
    2: { cbn [ticket_step]. apply Hsame; [|done|done]. cbn [tk_stores]. intros id s [(-> & s0 & Hs0 & _)|[_ Hs]]%lookup_alter_Some; [congruence|by apply Hself]. }
    destruct (take_tls13_ticket s0) as [[t|] s'] eqn:Et.
    + pose proof (take_ticket_spec _ _ _ Et) as Hspec. cbn [fst option_list app].
      assert (Ht0 : t ∈ ts_tls13 s0) by (rewrite Hspec; apply elem_of_app; right; by apply list_elem_of_singleton).
      pose proof Hd as [D1 D2 D3]. pose proof (D1 i s0 Es0) as Hnd. rewrite Hspec in Hnd. apply NoDup_app in Hnd as (Hn1 & Hn2 & _).
      assert (Hstores : forall id s, alter (fun s => (take_tls13_ticket s).2) i (tk_stores c) !! id = Some s ->
        NoDup (ts_tls13 s) /\ t ∉ ts_tls13 s /\ exists s1, tk_stores c !! id = Some s1 /\ forall x, x ∈ ts_tls13 s -> x ∈ ts_tls13 s1).
      { intros id s [(-> & s1 & Hs1 & ->)|[Hne Hs]]%lookup_alter_Some.
        - rewrite Es0 in Hs1. injection Hs1 as <-. rewrite Et. cbn [snd]. split; [done|]. split; [intros Hx; by apply (Hn2 t Hx), list_elem_of_singleton|].
          exists s0. split; [done|]. intros x Hx. rewrite Hspec. apply elem_of_app. by left.
        - split; [by eapply D1|]. split; [intros Hx; by apply Hne, (D2 i id s0 s t)|]. by exists s. }
      destruct (IH (t :: out) (ticket_step (TK_Take i) c)) as [J1 J2].
      * cbn [ticket_step]. apply (distinct_fewer out (t :: out) c _ Hd). intros id s Hs. destruct (Hstores id s Hs) as (S1 & S2 & s1 & Hs1 & S3).
        split; [done|]. split; [right; by exists s1|]. intros x Hx [->|Hin]%elem_of_cons; [done|]. by apply (D3 id s1 x Hs1 (S3 x Hx)).
      * done.
      * intros v Hv. destruct (Hnew v Hv) as [Hv1 Hv2]. split.
        -- intros [->|Hin]%elem_of_cons; [by apply (Hv2 i s0 Es0)|done].
        -- cbn [ticket_step tk_stores]. intros id s Hs Hin. destruct (Hstores id s Hs) as (_ & _ & s1 & Hs1 & S3). by apply (Hv2 id s1 Hs1), S3.
      * split; [constructor; [intros Hin; apply (J2 t Hin); by left|done]|].
        intros x [->|Hx]%elem_of_cons; [by apply (D3 i s0)|]. intros Hin. apply (J2 x Hx). by right.
    + assert (Hs' : s' = s0) by (unfold take_tls13_ticket in Et; destruct (last (ts_tls13 s0)); by injection Et).
      cbn [fst option_list app]. apply Hsame; [|done|done]. cbn [ticket_step tk_stores]. intros id s [(-> & s1 & Hs1 & ->)|[_ Hs]]%lookup_alter_Some; [|by apply Hself].
      rewrite Es0 in Hs1. injection Hs1 as <-. rewrite Et. cbn [snd]. rewrite Hs'. by apply Hself.
Qed.

(** * Properties *)

(** C20: after a clear that covers a key (a lock, or the delete of its
    workspace), under any later operations, a context the cache holds under it
    was created since for an attempt that began since, and every ticket it
    holds arrived since: nothing a connection received for an earlier attempt
    is ever resumed. *)
Theorem tickets_fenced before op c since key id store : ticket_label op = FenceClear c -> clear_covers c key = true ->
  countable_clears (clears_of (before ++ op :: since)) -> NoDup (omap created (before ++ op :: since)) ->
  tk_contexts (fc_run (before ++ op :: since)) !! key = Some id -> tk_stores (fc_run (before ++ op :: since)) !! id = Some store ->
  (exists generation, TK_Context generation key id ∈ since /\ gen_current (tk_generations (fc_run (before ++ [op]))) <= generation) /\
  forall t, t ∈ ts_tls13 store -> TK_Insert id t ∈ since.
Proof.
  intros Hop Hk Hc Hn Hh Hs. split.
  - destruct (fenced_run (H := ticket_cache) before op c since key id Hop Hk Hc Hh) as (kept & g & Hin & Hl & Hg).
    destruct kept; cbn in Hl; try done. injection Hl as -> -> ->. by exists g.
  - destruct (held_created before op c since key id Hop Hk Hh) as (g & s1 & s2 & -> & Hst). intros t Ht.
    replace (before ++ op :: s1 ++ TK_Context g key id :: s2) with (((before ++ op :: s1) ++ [TK_Context g key id]) ++ s2) in Hs, Hn by (rewrite <- !app_assoc; done).
    destruct (stores_since ((before ++ op :: s1) ++ [TK_Context g key id]) s2 id store) with (t := t) as [(s0 & Hs0 & Ht0)|Hin]; [|exact Hs|exact Ht| |].
    + intros o Ho Co. rewrite !omap_app in Hn. apply NoDup_app in Hn as (_ & Hn & _). apply (Hn id).
      * apply elem_of_app. right. by apply list_elem_of_singleton.
      * apply list_elem_of_omap. by exists o.
    + rewrite Hst in Hs0. injection Hs0 as <-. by apply not_elem_of_nil in Ht0.
    + apply elem_of_app. right. by right.
Qed.

(** Whatever the operations, the cache holds at most 256 contexts of at
    most 8 tickets, and no ticket is taken twice, in one connection or two. *)
Theorem tickets_single_use ops : NoDup (omap arrived ops) ->
  let c := fc_run ops in
  NoDup (taken_from TicketCache_default ops) /\
  (size (tk_contexts c) <= 256)%nat /\ (forall id s, tk_stores c !! id = Some s -> (tickets_len s <= 8)%nat).
Proof.
  intros Hn c. split.
  - apply (taken_once ops [] TicketCache_default); [constructor|done|].
    + intros id s Hs. by apply (lookup_empty_Some (A := TicketStore)) in Hs.
    + intros i j a b t Ha. by apply (lookup_empty_Some (A := TicketStore)) in Ha.
    + intros id s t Hs. by apply (lookup_empty_Some (A := TicketStore)) in Hs.
    + intros v _. split; [apply not_elem_of_nil|]. intros id s Hs. by apply (lookup_empty_Some (A := TicketStore)) in Hs.
  - exact (tickets_bounded ops).
Qed.
End Context.

(** * Witnesses *)

Definition sample_before : list TicketOp := [TK_Context 0 "ws|quic|a:443|p|f|h3" 1; TK_Insert 1 (mkTicket 10 0)].
Definition sample_since : list TicketOp :=
  [TK_Context 0 "ws|quic|a:443|p|f|h3" 2; TK_Insert 2 (mkTicket 11 0); TK_Context 1 "ws|quic|a:443|p|f|h3" 3; TK_Insert 3 (mkTicket 12 64);
   TK_Insert 3 (mkTicket 13 64); TK_Take 3].

Example sample_tickets : tk_contexts (fc_run (sample_before ++ TK_ClearIsolation "ws" :: sample_since)) !! "ws|quic|a:443|p|f|h3" = Some 3 /\
  taken_from TicketCache_default (sample_before ++ TK_ClearIsolation "ws" :: sample_since) = [mkTicket 13 64].
Proof. split; vm_compute; reflexivity. Qed.

Lemma tickets_fenced_witness :
  (exists generation, TK_Context generation "ws|quic|a:443|p|f|h3" 3 ∈ sample_since /\
     gen_current (tk_generations (fc_run (sample_before ++ [TK_ClearIsolation "ws"]))) <= generation) /\
  forall t, t ∈ ts_tls13 (mkTicketStore [mkTicket 12 64] 2 (Some 64) (Some 64)) -> TK_Insert 3 t ∈ sample_since.
Proof.
  apply (tickets_fenced sample_before (TK_ClearIsolation "ws") (ClearIsolation "ws") sample_since "ws|quic|a:443|p|f|h3" 3); try done.
  by apply (bool_decide_unpack _); vm_compute.
Defined.

Lemma tickets_single_use_witness :
  NoDup (taken_from TicketCache_default (sample_before ++ TK_ClearIsolation "ws" :: sample_since)).
Proof. apply (tickets_single_use (sample_before ++ TK_ClearIsolation "ws" :: sample_since)). by apply (bool_decide_unpack _); vm_compute. Defined.
