(* ===== verification/XmlLimits.v ===== *)
(** The pre-parse scan of XML text (crates/anvil-xml-limits/src/lib.rs): one
    pass over start tags that bounds the attributes and namespace declarations
    the parser would compare, and the proof that on well-formed text the scan
    accepts exactly the documents within the limits.

    A position in the text is the rest of the text from it, so an index the
    source returns is here the rest that begins there. Counts of things in the
    text are below 2^63 like its length, and exact; the sums the source
    saturates are saturated. *)
From Stdlib Require Import ZArith Lia Ascii String.
From stdpp Require Import base numbers strings option list pretty.
From S2P Require Import Prelude Text Bytes.
Open Scope string_scope.
Open Scope list_scope.
Open Scope Z_scope.

Record XmlLimits := mkXmlLimits {
  attributes_per_element : Z;
  attribute_pairs : Z;
  attribute_name_bytes : Z;
  xmlns_declarations : Z;
  xmlns_prefix_bytes : Z;
  xmlns_uri_bytes : Z;
  in_scope_namespaces : Z;
  namespace_scope_work : Z
}.

Inductive XmlLimitExceeded :=
  | AttributesPerElement (l : Z)
  | AttributePairs (l : Z)
  | AttributeNameBytes (l : Z)
  | NamespaceDeclarations (l : Z)
  | NamespacePrefixBytes (l : Z)
  | NamespaceUriBytes (l : Z)
  | InScopeNamespaces (l : Z)
  | NamespaceScopeWork (l : Z).

(** [Display]. *)
Definition limit_text (e : XmlLimitExceeded) : string :=
  match e with
  | AttributesPerElement l => "more than " +:+ pretty l +:+ " attributes on one element"
  | AttributePairs l => "more than " +:+ pretty l +:+ " attribute pairs on the elements of the document"
  | AttributeNameBytes l => "an attribute name longer than " +:+ pretty l +:+ " bytes"
  | NamespaceDeclarations l => "more than " +:+ pretty l +:+ " namespace declarations (xmlns)"
  | NamespacePrefixBytes l => "a namespace prefix longer than " +:+ pretty l +:+ " bytes"
  | NamespaceUriBytes l => "a namespace URI longer than " +:+ pretty l +:+ " bytes"
  | InScopeNamespaces l => "more than " +:+ pretty l +:+ " namespace declarations in scope of one element"
  | NamespaceScopeWork l =>
      "namespace scopes costing more than " +:+ pretty l +:+ " to resolve (declarations in scope, squared, per declaring element)"
  end.

(** The state of the scan but its text and limits. *)
Record Scan := mkScan {
  sc_xmlns : Z;
  sc_pairs : Z;
  sc_depth : Z;
  sc_scopes : list (Z * Z);
  sc_in_scope : Z;
  sc_work : Z
}.

Definition Scan_default : Scan := mkScan 0 0 0 [] 0 0.

Definition is_space (c : Z) : bool := existsb (Z.eqb c) [32; 9; 10; 13].

(** [find_byte]: the bytes before the first [c], and the text from it. *)
Fixpoint find_byte (c : Z) (b : list Z) : option (list Z * list Z) :=
  match b with
  | [] => None
  | x :: b' => if x =? c then Some ([], b) else '(before, from) ← find_byte c b'; Some (x :: before, from)
  end.

Fixpoint starts_with_bytes (pat b : list Z) : bool :=
  match pat, b with
  | [], _ => true
  | p :: pat', x :: b' => (p =? x) && starts_with_bytes pat' b'
  | _ :: _, [] => false
  end.

(** [find]: the text from the first occurrence of [pat]. *)
Fixpoint find_pat (pat b : list Z) : option (list Z) :=
  if starts_with_bytes pat b then Some b else match b with [] => None | _ :: b' => find_pat pat b' end.

Fixpoint skip_while (f : Z -> bool) (b : list Z) : list Z :=
  match b with x :: b' => if f x then skip_while f b' else b | [] => [] end.

Definition skip_space : list Z -> list Z := skip_while is_space.

(** The bytes for which [f] holds, and the rest. *)
Fixpoint span (f : Z -> bool) (b : list Z) : list Z * list Z :=
  match b with
  | x :: b' => if f x then let '(t, r) := span f b' in (x :: t, r) else ([], b)
  | [] => ([], [])
  end.

(** [scopes] has its last entry first. *)
Definition end_tag (s : Scan) : Scan :=
  let depth := Z.max 0 (sc_depth s - 1) in
  match sc_scopes s with
  | (d, declared) :: scopes =>
      if d =? depth then mkScan (sc_xmlns s) (sc_pairs s) depth scopes (sc_in_scope s - declared) (sc_work s)
      else mkScan (sc_xmlns s) (sc_pairs s) depth (sc_scopes s) (sc_in_scope s) (sc_work s)
  | [] => mkScan (sc_xmlns s) (sc_pairs s) depth [] (sc_in_scope s) (sc_work s)
  end.

Definition sat_mul64 (a b : Z) : Z := Z.min U64_MAX (a * b).

Section Check.
Variable l : XmlLimits.

Definition close_start_tag (declared : Z) (empty : bool) (s : Scan) : result Scan XmlLimitExceeded :=
  let? s :=
    if 0 <? declared then
      let n := sc_in_scope s + declared in
      if in_scope_namespaces l <? n then Err (InScopeNamespaces (in_scope_namespaces l))
      else
        let work := sat_add64 (sc_work s) (sat_mul64 n n) in
        if namespace_scope_work l <? work then Err (NamespaceScopeWork (namespace_scope_work l))
        else if empty then Ok (mkScan (sc_xmlns s) (sc_pairs s) (sc_depth s) (sc_scopes s) (sc_in_scope s) work)
        else Ok (mkScan (sc_xmlns s) (sc_pairs s) (sc_depth s) ((sc_depth s, declared) :: sc_scopes s) n work)
    else Ok s in
  Ok (if empty then s else mkScan (sc_xmlns s) (sc_pairs s) (sc_depth s + 1) (sc_scopes s) (sc_in_scope s) (sc_work s)).

Definition XMLNS : list Z := [120; 109; 108; 110; 115].

(** The declared prefix's length, when the name is one of a declaration. *)
Definition xmlns_prefix (name : list Z) : option Z :=
  if starts_with_bytes XMLNS name then
    match drop 5 name with
    | [] => Some 0
    | c :: p => if c =? 58 then Some (blen p) else None
    end
  else None.

(** One attribute counted. *)
Definition count_attribute (name : list Z) (value attributes declared : Z) (s : Scan) : result (Z * Z * Scan) XmlLimitExceeded :=
  let pairs := sat_add64 (sc_pairs s) attributes in
  let attributes := attributes + 1 in
  let s := mkScan (sc_xmlns s) pairs (sc_depth s) (sc_scopes s) (sc_in_scope s) (sc_work s) in
  if attributes_per_element l <? attributes then Err (AttributesPerElement (attributes_per_element l))
  else if attribute_pairs l <? pairs then Err (AttributePairs (attribute_pairs l))
  else if attribute_name_bytes l <? blen name then Err (AttributeNameBytes (attribute_name_bytes l))
  else
    match xmlns_prefix name with
    | None => Ok (attributes, declared, s)
    | Some prefix =>
        let declared := declared + 1 in
        let xmlns := sc_xmlns s + 1 in
        let s := mkScan xmlns (sc_pairs s) (sc_depth s) (sc_scopes s) (sc_in_scope s) (sc_work s) in
        if xmlns_declarations l <? xmlns then Err (NamespaceDeclarations (xmlns_declarations l))
        else if xmlns_prefix_bytes l <? prefix then Err (NamespacePrefixBytes (xmlns_prefix_bytes l))
        else if xmlns_uri_bytes l <? value then Err (NamespaceUriBytes (xmlns_uri_bytes l))
        else Ok (attributes, declared, s)
    end.

Definition name_byte (c : Z) : bool := negb (is_space c) && negb (existsb (Z.eqb c) [61; 62; 47]).

(** The loop of [start_tag]; every turn takes a byte of [b]. *)
Fixpoint attributes_loop (fuel : nat) (b : list Z) (attributes declared : Z) (empty : bool) (s : Scan)
  : result (option (list Z) * Scan) XmlLimitExceeded :=
  match fuel with
  | O => Ok (None, s)
  | S fuel =>
      match skip_space b with
      | [] => Ok (None, s)
      | c :: b =>
          if c =? 62 then let? s := close_start_tag declared empty s in Ok (Some b, s)
          else if c =? 47 then attributes_loop fuel b attributes declared true s
          else
            let '(name, b) := span name_byte (c :: b) in
            match skip_space b with
            | eq_ :: b =>
                if negb (eq_ =? 61) then Ok (None, s) else
                match skip_space b with
                | q :: b =>
                    if negb ((q =? 34) || (q =? 39)) then Ok (None, s) else
                    match find_byte q b with
                    | None => Ok (None, s)
                    | Some (value, b) =>
                        let? (attributes, declared, s) := count_attribute name (blen value) attributes declared s in
                        attributes_loop fuel (drop 1 b) attributes declared false s
                    end
                | [] => Ok (None, s)
                end
            | [] => Ok (None, s)
            end
      end
  end.

Definition tag_name_byte (c : Z) : bool := negb (is_space c) && negb (existsb (Z.eqb c) [62; 47]).

Definition start_tag (b : list Z) (s : Scan) : result (option (list Z) * Scan) XmlLimitExceeded :=
  let b := skip_while tag_name_byte b in
  attributes_loop (S (List.length b)) b 0 0 false s.

Definition LT : Z := 60.
Definition COMMENT : list Z := [60; 33; 45; 45].
Definition COMMENT_END : list Z := [45; 45; 62].
Definition CDATA : list Z := [60; 33; 91; 67; 68; 65; 84; 65; 91].
Definition CDATA_END : list Z := [93; 93; 62].
Definition PI_END : list Z := [63; 62].

(** The markup at [rest], which begins with [<]: the text after it. *)
Definition scan_markup (rest : list Z) (s : Scan) : result (option (list Z) * Scan) XmlLimitExceeded :=
  if starts_with_bytes COMMENT rest then Ok (drop 3 <$> find_pat COMMENT_END (drop 4 rest), s)
  else if starts_with_bytes CDATA rest then Ok (drop 3 <$> find_pat CDATA_END (drop 9 rest), s)
  else if starts_with_bytes [60; 63] rest then Ok (drop 2 <$> find_pat PI_END (drop 2 rest), s)
  else if starts_with_bytes [60; 33] rest then Ok (None, s)
  else if starts_with_bytes [60; 47] rest then Ok ((fun f => drop 1 f.2) <$> find_byte 62 (drop 2 rest), end_tag s)
  else start_tag (drop 1 rest) s.

(** The loop of [check_xml_limits]; every turn takes a byte of [b]. *)
Fixpoint scan_loop (fuel : nat) (b : list Z) (s : Scan) : result unit XmlLimitExceeded :=
  match fuel with
  | O => Ok tt
  | S fuel =>
      match find_byte LT b with
      | None => Ok tt
      | Some (_, rest) =>
          let? (next, s) := scan_markup rest s in
          match next with Some b => scan_loop fuel b s | None => Ok tt end
      end
  end.

Definition check_xml_limits (text : list Z) : result unit XmlLimitExceeded := scan_loop (S (List.length text)) text Scan_default.
End Check.

(** * Enough fuel *)

Lemma skip_while_length f b : (List.length (skip_while f b) <= List.length b)%nat.
Proof. induction b as [|x b IH]; cbn; [done|]. destruct (f x); cbn; lia. Qed.

Lemma span_length f b : (List.length (span f b).2 <= List.length b)%nat.
Proof. induction b as [|x b IH]; cbn; [done|]. destruct (f x); [|done]. destruct (span f b) as [t r]. cbn in *. lia. Qed.

Lemma find_byte_length c b before from : find_byte c b = Some (before, from) -> (1 <= List.length from <= List.length b)%nat.
Proof.
  revert before from. induction b as [|x b IH]; intros before from; cbn; [done|]. destruct (x =? c); [intros [= <- <-]; cbn; lia|].
  destruct (find_byte c b) as [[t r]|]; [|done]. cbn. intros [= <- <-]. specialize (IH _ _ eq_refl). lia.
Qed.

Lemma find_pat_length pat b from : find_pat pat b = Some from -> (List.length from <= List.length b)%nat.
Proof.
  revert from. induction b as [|x b IH]; intros from; cbn [find_pat]; destruct (starts_with_bytes pat _); try (by intros [= <-]); [].
  intros H. specialize (IH _ H). cbn. lia.
Qed.

Section Fuel.
Variable l : XmlLimits.

(** Of an attribute-loop turn: the result does not depend on the fuel, past
    the text's length. *)
Lemma attributes_fuel fuel fuel' b attributes declared empty s : (List.length b < fuel)%nat -> (List.length b < fuel')%nat ->
  attributes_loop l fuel b attributes declared empty s = attributes_loop l fuel' b attributes declared empty s.
Proof.
  revert fuel' b attributes declared empty s. induction fuel as [|fuel IH]; intros [|fuel'] b attributes declared empty s H1 H2; try lia.
  cbn [attributes_loop]. pose proof (skip_while_length is_space b) as Hs. fold (skip_space b) in Hs. destruct (skip_space b) as [|c r]; [done|].
  cbn [List.length] in Hs. destruct (c =? 62); [done|]. destruct (c =? 47); [apply IH; lia|].
  pose proof (span_length name_byte (c :: r)) as Hn. destruct (span name_byte (c :: r)) as [name r1]. cbn [snd List.length] in Hn.
  pose proof (skip_while_length is_space r1) as Hs1. fold (skip_space r1) in Hs1. destruct (skip_space r1) as [|e r2]; [done|].
  destruct (negb (e =? 61)); [done|]. pose proof (skip_while_length is_space r2) as Hs2. fold (skip_space r2) in Hs2.
  destruct (skip_space r2) as [|q r3]; [done|]. destruct (negb _); [done|]. destruct (find_byte q r3) as [[value r4]|] eqn:Ef; [|done].
  apply find_byte_length in Ef. cbn [List.length] in *. destruct (count_attribute _ _ _ _ _ _) as [[[a d] s']|]; [|done]. cbn [result_bind].
  apply IH; rewrite length_drop; lia.
Qed.

(** What the attribute loop leaves is shorter than what it had. *)
Lemma attributes_length fuel b attributes declared empty s r s' :
  attributes_loop l fuel b attributes declared empty s = Ok (Some r, s') -> (List.length r < List.length b)%nat.
Proof.
  revert b attributes declared empty s. induction fuel as [|fuel IH]; intros b attributes declared empty s; cbn [attributes_loop]; [done|].
  pose proof (skip_while_length is_space b) as Hs. fold (skip_space b) in Hs. destruct (skip_space b) as [|c t]; [done|].
  cbn [List.length] in Hs. destruct (c =? 62).
  { destruct (close_start_tag l declared empty s); [|done]. cbn [result_bind]. intros [= -> _]. lia. }
  destruct (c =? 47); [intros H; apply IH in H; lia|].
  pose proof (span_length name_byte (c :: t)) as Hn. destruct (span name_byte (c :: t)) as [name r1]. cbn [snd List.length] in Hn.
  pose proof (skip_while_length is_space r1) as Hs1. fold (skip_space r1) in Hs1. destruct (skip_space r1) as [|e r2]; [done|].
  destruct (negb (e =? 61)); [done|]. pose proof (skip_while_length is_space r2) as Hs2. fold (skip_space r2) in Hs2.
  destruct (skip_space r2) as [|q r3]; [done|]. destruct (negb _); [done|]. destruct (find_byte q r3) as [[value r4]|] eqn:Ef; [|done].
  apply find_byte_length in Ef. cbn [List.length] in *. destruct (count_attribute _ _ _ _ _ _) as [[[a d] s1]|]; [|done]. cbn [result_bind].
  intros H. apply IH in H. rewrite length_drop in H. lia.
Qed.

Lemma scan_markup_length rest s b s' : rest <> [] -> scan_markup l rest s = Ok (Some b, s') -> (List.length b < List.length rest)%nat.
Proof.
  intros Hne. unfold scan_markup.
  assert (Hpat : forall pat n k, (1 <= k)%nat -> drop n <$> find_pat pat (drop k rest) = Some b -> (List.length b < List.length rest)%nat).
  { intros pat n k Hk H. destruct (find_pat pat (drop k rest)) as [f|] eqn:E; [|done]. injection H as <-. apply find_pat_length in E.
    rewrite length_drop in *. destruct rest; [done|]. cbn [List.length] in *. lia. }
  destruct (starts_with_bytes COMMENT rest); [intros [= H _]; by eapply Hpat in H; [|lia]|].
  destruct (starts_with_bytes CDATA rest); [intros [= H _]; by eapply Hpat in H; [|lia]|].
  destruct (starts_with_bytes [60; 63] rest); [intros [= H _]; by eapply Hpat in H; [|lia]|].
  destruct (starts_with_bytes [60; 33] rest); [done|]. destruct (starts_with_bytes [60; 47] rest).
  - intros [= H _]. destruct (find_byte 62 (drop 2 rest)) as [[t f]|] eqn:E; [|done]. injection H as <-. apply find_byte_length in E.
    cbn [snd]. rewrite length_drop in *. destruct rest; [done|]. cbn [List.length] in *. lia.
  - intros H. unfold start_tag in H. apply attributes_length in H. pose proof (skip_while_length tag_name_byte (drop 1 rest)) as Hs.
    rewrite length_drop in Hs. lia.
Qed.

Lemma scan_fuel fuel fuel' b s : (List.length b < fuel)%nat -> (List.length b < fuel')%nat -> scan_loop l fuel b s = scan_loop l fuel' b s.
Proof.
  revert fuel' b s. induction fuel as [|fuel IH]; intros [|fuel'] b s H1 H2; try lia. cbn [scan_loop].
  destruct (find_byte LT b) as [[t rest]|] eqn:E; [|done]. apply find_byte_length in E.
  destruct (scan_markup l rest s) as [[[r|] s']|] eqn:Em; [|done..]. cbn [result_bind].
  apply scan_markup_length in Em; [|by destruct rest; [cbn in E; lia|]]. apply IH; lia.
Qed.
End Fuel.

(** The scan from a state, with fuel enough for the text. *)
Definition scan_from (l : XmlLimits) (b : list Z) (s : Scan) : result unit XmlLimitExceeded := scan_loop l (S (List.length b)) b s.

(** One turn of the scan. *)
Lemma scan_from_eq l b s : scan_from l b s =
  match find_byte LT b with
  | None => Ok tt
  | Some (_, rest) =>
      let? (next, s) := scan_markup l rest s in
      match next with Some b => scan_from l b s | None => Ok tt end
  end.
Proof.
  unfold scan_from at 1. cbn [scan_loop]. destruct (find_byte LT b) as [[t rest]|] eqn:E; [|done]. apply find_byte_length in E.
  destruct (scan_markup l rest s) as [[[r|] s']|] eqn:Em; [|done..]. cbn [result_bind].
  apply scan_markup_length in Em; [|by destruct rest; [cbn in E; lia|]]. apply scan_fuel; lia.
Qed.

(** * Documents *)

Record XAttr := mkXAttr {
  xa_space : list Z;
  xa_name : list Z;
  xa_before_eq : list Z;
  xa_after_eq : list Z;
  xa_quote : Z;
  xa_value : list Z
}.

(** A document as it may be written: elements with their attributes (spaced
    and quoted in any way), text, comments, CDATA sections and processing
    instructions; [empty] writes a tag closed in itself. *)
Inductive XNode :=
  | X_Element (name : list Z) (attrs : list XAttr) (space : list Z) (empty : bool) (children : list XNode) (end_space : list Z)
  | X_Text (text : list Z)
  | X_Comment (text : list Z)
  | X_Cdata (text : list Z)
  | X_Pi (text : list Z).

Definition render_attr (a : XAttr) : list Z :=
  xa_space a ++ xa_name a ++ xa_before_eq a ++ [61] ++ xa_after_eq a ++ [xa_quote a] ++ xa_value a ++ [xa_quote a].

Fixpoint render (n : XNode) : list Z :=
  match n with
  | X_Element name attrs space empty children end_space =>
      LT :: name ++ concat (map render_attr attrs) ++ space ++
      (if empty then [47; 62] else [62] ++ concat (map render children) ++ [LT; 47] ++ name ++ end_space ++ [62])
  | X_Text text => text
  | X_Comment text => COMMENT ++ text ++ COMMENT_END
  | X_Cdata text => CDATA ++ text ++ CDATA_END
  | X_Pi text => [60; 63] ++ text ++ PI_END
  end.

(** [text] holds no earlier end than the one written after it. *)
Definition ends_at (pat text : list Z) : Prop := find_pat pat (text ++ pat) = Some pat.

Record attr_ok (a : XAttr) : Prop := mkAttrOk {
  attr_space : xa_space a <> [] /\ forallb is_space (xa_space a) = true;
  attr_name : xa_name a <> [] /\ forallb name_byte (xa_name a) = true;
  attr_eq : forallb is_space (xa_before_eq a) = true /\ forallb is_space (xa_after_eq a) = true;
  attr_quote : xa_quote a = 34 \/ xa_quote a = 39;
  attr_value : Forall (fun c => c <> xa_quote a) (xa_value a)
}.

Definition tag_name_ok (name : list Z) : Prop :=
  forallb tag_name_byte name = true /\ match name with c :: _ => c <> 33 /\ c <> 63 | [] => False end.

Fixpoint node_ok (n : XNode) : Prop :=
  match n with
  | X_Element name attrs space empty children end_space =>
      tag_name_ok name /\ Forall attr_ok attrs /\ forallb is_space space = true /\ forallb is_space end_space = true /\
      foldr (fun c P => node_ok c /\ P) True children /\ (empty = true -> children = [])
  | X_Text text => Forall (fun c => c <> LT) text
  | X_Comment text => ends_at COMMENT_END text
  | X_Cdata text => ends_at CDATA_END text
  | X_Pi text => ends_at PI_END text
  end.

(** Induction over a document with its children. *)
Lemma XNode_nested (P : XNode -> Prop) :
  (forall name attrs space empty children end_space, Forall P children -> P (X_Element name attrs space empty children end_space)) ->
  (forall t, P (X_Text t)) -> (forall t, P (X_Comment t)) -> (forall t, P (X_Cdata t)) -> (forall t, P (X_Pi t)) -> forall n, P n.
Proof.
  intros He Ht Hc Hd Hp. fix IH 1. intros [name attrs space empty children end_space|t|t|t|t]; [|apply Ht|apply Hc|apply Hd|apply Hp].
  apply He. induction children as [|c cs IHc]; constructor; [apply IH|exact IHc].
Qed.

(** * The scan as an account of the document *)

Section Account.
Variable l : XmlLimits.

Fixpoint account_attrs (attrs : list XAttr) (attributes declared : Z) (s : Scan) : result (Z * Z * Scan) XmlLimitExceeded :=
  match attrs with
  | [] => Ok (attributes, declared, s)
  | a :: attrs' =>
      let? (attributes, declared, s) := count_attribute l (xa_name a) (blen (xa_value a)) attributes declared s in
      account_attrs attrs' attributes declared s
  end.

Fixpoint account (n : XNode) (s : Scan) : result Scan XmlLimitExceeded :=
  match n with
  | X_Element _ attrs _ empty children _ =>
      let? (_, declared, s) := account_attrs attrs 0 0 s in
      let? s := close_start_tag l declared empty s in
      if empty then Ok s
      else let? s := foldl (fun r c => let? s := r in account c s) (Ok s) children in Ok (end_tag s)
  | _ => Ok s
  end.

Definition account_all (ns : list XNode) (s : Scan) : result Scan XmlLimitExceeded := foldl (fun r c => let? s := r in account c s) (Ok s) ns.

Lemma account_all_cons n ns s : account_all (n :: ns) s = let? s := account n s in account_all ns s.
Proof.
  unfold account_all. cbn [foldl result_bind]. destruct (account n s) as [s'|e]; [done|]. cbn [result_bind]. by induction ns.
Qed.

(** ** Reading what was rendered *)

Lemma skip_while_app f a b : forallb f a = true -> skip_while f (a ++ b) = skip_while f b.
Proof. induction a as [|x a IH]; cbn; [done|]. intros [-> Ha]%andb_prop. by apply IH. Qed.

Lemma span_app f a b : forallb f a = true -> match b with c :: _ => f c = false | [] => True end -> span f (a ++ b) = (a, b).
Proof.
  induction a as [|x a IH]; cbn; intros Ha Hb.
  - destruct b as [|c b]; [done|]. cbn. by rewrite Hb.
  - apply andb_prop in Ha as [-> Ha]. by rewrite IH.
Qed.

Lemma find_byte_app c a b : Forall (fun x => x <> c) a -> find_byte c (a ++ c :: b) = Some (a, c :: b).
Proof.
  induction 1 as [|x a Hx _ IH]; cbn; [by rewrite Z.eqb_refl|]. rewrite (proj2 (Z.eqb_neq x c) Hx), IH. done.
Qed.

Lemma starts_with_length pat b : starts_with_bytes pat b = true -> (List.length pat <= List.length b)%nat.
Proof. revert b. induction pat as [|p pat IH]; intros [|x b]; cbn; try lia; try done. intros [_ H]%andb_prop. specialize (IH _ H). lia. Qed.

Lemma starts_with_app pat b r : (List.length pat <= List.length b)%nat -> starts_with_bytes pat (b ++ r) = starts_with_bytes pat b.
Proof. revert b. induction pat as [|p pat IH]; intros [|x b]; cbn; try done; try lia. intros H. rewrite IH by lia. done. Qed.

Lemma starts_with_self pat r : starts_with_bytes pat (pat ++ r) = true.
Proof. induction pat as [|p pat IH]; cbn; [done|]. by rewrite Z.eqb_refl. Qed.

Lemma find_pat_ends pat text r : ends_at pat text -> find_pat pat (text ++ pat ++ r) = Some (pat ++ r).
Proof.
  unfold ends_at. induction text as [|x text IH]; cbn [app].
  - intros _. pose proof (starts_with_self pat r) as Hs. destruct (pat ++ r); cbn [find_pat] in *; by rewrite Hs.
  - cbn [find_pat]. assert (Hl : (List.length pat <= List.length (x :: text ++ pat))%nat) by (cbn; rewrite length_app; lia).
    pose proof (starts_with_app pat (x :: text ++ pat) r Hl) as Hs. cbn [app] in Hs. rewrite <- app_assoc in Hs. rewrite Hs.
    destruct (starts_with_bytes pat (x :: text ++ pat)); [|exact IH].
    intros [= H]. apply (f_equal (@List.length Z)) in H. cbn in H. rewrite length_app in H. lia.
Qed.

Lemma render_attr_step a b fuel fuel' attributes declared empty s : attr_ok a ->
  (List.length (render_attr a ++ b) < fuel)%nat -> (List.length b < fuel')%nat ->
  attributes_loop l fuel (render_attr a ++ b) attributes declared empty s =
  let? (attributes, declared, s) := count_attribute l (xa_name a) (blen (xa_value a)) attributes declared s in
  attributes_loop l fuel' b attributes declared false s.
Proof.
  intros [[Hs1 Hs2] [Hn1 Hn2] [He1 He2] Hq Hv] Hf Hf'. destruct fuel as [|fuel]; [lia|]. unfold render_attr in *. cbn [attributes_loop].
  rewrite <- !app_assoc. unfold skip_space at 1. rewrite skip_while_app by done.
  destruct (xa_name a) as [|c name] eqn:En; [done|]. cbn [forallb] in Hn2. apply andb_prop in Hn2 as [Hc Hn2].
  assert (Hc' : is_space c = false /\ (c =? 62) = false /\ (c =? 47) = false /\ (c =? 61) = false).
  { unfold name_byte in Hc. apply andb_prop in Hc as [H1 H2]. apply negb_true_iff in H1, H2. cbn in H2. rewrite !orb_false_iff in H2. tauto. }
  destruct Hc' as (C1 & C2 & C3 & C4). cbn [app skip_while]. rewrite C1, C2, C3.
  assert (Hspan : span name_byte (c :: name ++ xa_before_eq a ++ 61 :: xa_after_eq a ++ xa_quote a :: xa_value a ++ xa_quote a :: b) =
    (c :: name, xa_before_eq a ++ 61 :: xa_after_eq a ++ xa_quote a :: xa_value a ++ xa_quote a :: b)).
  { apply (span_app name_byte (c :: name)); [cbn; by rewrite Hc|]. destruct (xa_before_eq a) as [|w ws]; [done|]. cbn [forallb] in He1. cbn [app].
    apply andb_prop in He1 as [Hw _]. unfold name_byte. by rewrite Hw. }
  cbn [app] in Hspan |- *. rewrite Hspan. unfold skip_space. rewrite skip_while_app by done. cbn [skip_while]. change (is_space 61) with false. cbn iota.
  change (negb (61 =? 61)) with false. cbn iota. rewrite skip_while_app by done. cbn [skip_while].
  assert (Hq1 : is_space (xa_quote a) = false) by (by destruct Hq as [-> | ->]). rewrite Hq1.
  assert (Hq2 : negb ((xa_quote a =? 34) || (xa_quote a =? 39)) = false) by (by destruct Hq as [-> | ->]). rewrite Hq2.
  rewrite find_byte_app by done. cbn [drop]. destruct (count_attribute l (c :: name) _ _ _ _) as [[[at_ d] s']|]; [|done]. cbn [result_bind].
  apply attributes_fuel; rewrite !length_app in Hf; cbn [List.length] in Hf; rewrite ?length_app in Hf; cbn [List.length] in Hf; rewrite ?length_app in Hf; cbn [List.length] in Hf; lia.
Qed.

Lemma render_attrs_step attrs b fuel fuel' attributes declared s : Forall attr_ok attrs ->
  (List.length (concat (map render_attr attrs) ++ b) < fuel)%nat -> (List.length b < fuel')%nat ->
  attributes_loop l fuel (concat (map render_attr attrs) ++ b) attributes declared false s =
  let? (attributes, declared, s) := account_attrs attrs attributes declared s in
  attributes_loop l fuel' b attributes declared false s.
Proof.
  intros Ha. revert fuel attributes declared s. induction Ha as [|a attrs Ha _ IH]; intros fuel attributes declared s Hf Hf'; cbn [map concat account_attrs] in *.
  - by apply attributes_fuel.
  - rewrite <- app_assoc in *. rewrite (render_attr_step a _ fuel (S (List.length (concat (map render_attr attrs) ++ b)))) by (done || lia).
    destruct (count_attribute _ _ _ _ _ _) as [[[at_ d] s']|]; [|done]. cbn [result_bind]. apply IH; [lia|done].
Qed.

Definition tag_end (empty : bool) : list Z := if empty then [47; 62] else [62].

Lemma tag_close space empty r fuel attributes declared s : forallb is_space space = true ->
  (List.length (space ++ tag_end empty ++ r) < fuel)%nat ->
  attributes_loop l fuel (space ++ tag_end empty ++ r) attributes declared false s =
  let? s := close_start_tag l declared empty s in Ok (Some r, s).
Proof.
  intros Hs Hf. destruct fuel as [|fuel]; [lia|]. cbn [attributes_loop]. unfold skip_space at 1. rewrite skip_while_app by done.
  destruct empty; cbn [tag_end app skip_while].
  - change (is_space 47) with false. cbn iota. change (47 =? 62) with false. change (47 =? 47) with true. cbn iota.
    rewrite !length_app in Hf. cbn [tag_end List.length] in Hf. destruct fuel as [|fuel]; [lia|]. cbn [attributes_loop]. unfold skip_space. cbn [skip_while].
    change (is_space 62) with false. by change (62 =? 62) with true.
  - change (is_space 62) with false. by change (62 =? 62) with true.
Qed.

Lemma tag_name_stops (x : list Z) name : forallb tag_name_byte name = true ->
  match x with c :: _ => tag_name_byte c = false | [] => True end -> skip_while tag_name_byte (name ++ x) = x.
Proof. intros Hn Hx. rewrite skip_while_app by done. destruct x as [|c x]; [done|]. cbn. by rewrite Hx. Qed.

Lemma after_name attrs space (empty : bool) r : Forall attr_ok attrs -> forallb is_space space = true ->
  match concat (map render_attr attrs) ++ space ++ tag_end empty ++ r with c :: _ => tag_name_byte c = false | [] => True end.
Proof.
  intros Ha Hs. assert (Hsp : forall c, is_space c = true -> tag_name_byte c = false) by (intros c Hc; unfold tag_name_byte; by rewrite Hc).
  destruct Ha as [|a attrs [[H1 H2] _ _ _ _] _]; cbn [map concat app].
  - destruct space as [|c space]; [by destruct empty|]. cbn [app forallb] in *. apply andb_prop in Hs as [Hc _]. by apply Hsp.
  - unfold render_attr at 1. destruct (xa_space a) as [|c w]; [done|]. cbn [app forallb] in *. apply andb_prop in H2 as [Hc _]. by apply Hsp.
Qed.

Lemma start_tag_step name attrs space (empty : bool) r s : tag_name_ok name -> Forall attr_ok attrs -> forallb is_space space = true ->
  scan_markup l (LT :: name ++ concat (map render_attr attrs) ++ space ++ tag_end empty ++ r) s =
  let? (_, declared, s) := account_attrs attrs 0 0 s in
  let? s := close_start_tag l declared empty s in Ok (Some r, s).
Proof.
  intros [Hn Hc] Ha Hs. set (x := concat (map render_attr attrs) ++ space ++ tag_end empty ++ r).
  destruct name as [|c name]; [done|]. destruct Hc as [C1 C2].
  assert (C3 : c <> 47) by (intros ->; discriminate Hn).
  assert (Hmk : scan_markup l (LT :: (c :: name) ++ x) s = start_tag l ((c :: name) ++ x) s).
  { unfold scan_markup, COMMENT, CDATA, LT. cbn [starts_with_bytes app drop].
    rewrite (proj2 (Z.eqb_neq 33 c)), (proj2 (Z.eqb_neq 63 c)), (proj2 (Z.eqb_neq 47 c)) by done. done. }
  rewrite Hmk. unfold start_tag. rewrite tag_name_stops by (done || by apply after_name). subst x.
  rewrite (render_attrs_step attrs _ _ (S (List.length (space ++ tag_end empty ++ r)))) by (done || lia).
  destruct (account_attrs attrs 0 0 s) as [[[at_ d] s']|]; [|done]. cbn [result_bind]. apply tag_close; [done|lia].
Qed.

Lemma find_byte_skip c a b : Forall (fun x => x <> c) a ->
  find_byte c (a ++ b) = '(before, from) ← find_byte c b; Some (a ++ before, from).
Proof.
  induction 1 as [|x a Hx _ IH]; cbn [app find_byte]; [by destruct (find_byte c b) as [[]|]|].
  rewrite (proj2 (Z.eqb_neq x c) Hx), IH. by destruct (find_byte c b) as [[]|].
Qed.

Lemma scan_text t rest s : Forall (fun c => c <> LT) t -> scan_from l (t ++ rest) s = scan_from l rest s.
Proof. intros Ht. rewrite !scan_from_eq, find_byte_skip by done. by destruct (find_byte LT rest) as [[]|]. Qed.

Lemma scan_markup_step b s : scan_from l (LT :: b) s = let? (next, s) := scan_markup l (LT :: b) s in
  match next with Some b => scan_from l b s | None => Ok tt end.
Proof. rewrite scan_from_eq. cbn [find_byte]. by change (LT =? LT) with true. Qed.

Lemma end_tag_step name space rest s : tag_name_ok name -> forallb is_space space = true ->
  scan_from l ([LT; 47] ++ name ++ space ++ [62] ++ rest) s = scan_from l rest (end_tag s).
Proof.
  intros [Hn Hc] Hs. cbn [app]. rewrite scan_markup_step.
  assert (Hno : Forall (fun x => x <> 62) (name ++ space)).
  { apply list.Forall_app. split; apply List.Forall_forall; intros x Hx ->; rewrite forallb_forall in Hn, Hs.
    - by specialize (Hn _ Hx). - by specialize (Hs _ Hx). }
  unfold scan_markup, COMMENT, CDATA, LT. cbn [starts_with_bytes drop].
  change (33 =? 47) with false. change (63 =? 47) with false. change (47 =? 47) with true. change (60 =? 60) with true. cbn [andb].
  change (skipn 2 (60 :: 47 :: name ++ space ++ 62 :: rest)) with (name ++ space ++ 62 :: rest).
  rewrite drop_0, (app_assoc name space). rewrite (find_byte_app 62 (name ++ space) rest Hno). done.
Qed.

(** Scanning a document is accounting for it, then scanning what follows. *)
Lemma scan_node n : node_ok n -> forall rest s, scan_from l (render n ++ rest) s = let? s := account n s in scan_from l rest s.
Proof.
  induction n as [name attrs space empty children end_space IH|t|t|t|t] using XNode_nested; intros Hok rest s.
  - destruct Hok as (Hn & Ha & Hs & Hes & Hch & Hempty). cbn [render account].
    assert (Hkids : forall rest s, scan_from l (concat (map render children) ++ rest) s = let? s := account_all children s in scan_from l rest s).
    { clear -IH Hch. induction IH as [|c cs Hc _ IHc]; intros rest s; [done|]. cbn [foldr] in Hch. destruct Hch as [Hok Hch].
      cbn [map concat]. rewrite <- app_assoc, Hc by done. rewrite account_all_cons. destruct (account c s) as [s'|]; [|done]. cbn [result_bind]. by apply IHc. }
    replace ((LT :: name ++ concat (map render_attr attrs) ++ space ++
       (if empty then [47; 62] else [62] ++ concat (map render children) ++ [LT; 47] ++ name ++ end_space ++ [62])) ++ rest)
      with (LT :: name ++ concat (map render_attr attrs) ++ space ++ tag_end empty ++
       (if empty then rest else concat (map render children) ++ [LT; 47] ++ name ++ end_space ++ [62] ++ rest)).
    2: { destruct empty; cbn [tag_end app]; rewrite <- ?app_assoc; cbn [app]; rewrite <- ?app_assoc; cbn [app]; rewrite <- ?app_assoc; cbn [app]; rewrite <- ?app_assoc; done. }
    rewrite scan_markup_step, start_tag_step by done. destruct (account_attrs attrs 0 0 s) as [[[at_ d] s1]|]; [|done]. cbn [result_bind].
    destruct (close_start_tag l d empty s1) as [s2|]; [|done]. cbn [result_bind]. destruct empty; [done|]. rewrite Hkids. unfold account_all.
    destruct (foldl _ (Ok s2) children) as [s3|]; [|done]. cbn [result_bind]. by apply end_tag_step.
  - by apply scan_text.
  - cbn [render account result_bind]. rewrite <- !app_assoc. change (COMMENT ++ t ++ COMMENT_END ++ rest) with (LT :: [33; 45; 45] ++ t ++ COMMENT_END ++ rest).
    rewrite scan_markup_step. unfold scan_markup. change (starts_with_bytes COMMENT (LT :: [33; 45; 45] ++ t ++ COMMENT_END ++ rest)) with true. cbn iota.
    change (drop 4 (LT :: [33; 45; 45] ++ t ++ COMMENT_END ++ rest)) with (t ++ COMMENT_END ++ rest). rewrite find_pat_ends by done. done.
  - cbn [render account result_bind]. rewrite <- !app_assoc. change (CDATA ++ t ++ CDATA_END ++ rest) with (LT :: [33; 91; 67; 68; 65; 84; 65; 91] ++ t ++ CDATA_END ++ rest).
    rewrite scan_markup_step. unfold scan_markup.
    change (starts_with_bytes COMMENT (LT :: [33; 91; 67; 68; 65; 84; 65; 91] ++ t ++ CDATA_END ++ rest)) with false.
    change (starts_with_bytes CDATA (LT :: [33; 91; 67; 68; 65; 84; 65; 91] ++ t ++ CDATA_END ++ rest)) with true. cbn iota.
    change (drop 9 (LT :: [33; 91; 67; 68; 65; 84; 65; 91] ++ t ++ CDATA_END ++ rest)) with (t ++ CDATA_END ++ rest). rewrite find_pat_ends by done. done.
  - cbn [render account result_bind]. rewrite <- !app_assoc. change ([60; 63] ++ t ++ PI_END ++ rest) with (LT :: [63] ++ t ++ PI_END ++ rest).
    rewrite scan_markup_step. unfold scan_markup.
    change (starts_with_bytes COMMENT (LT :: [63] ++ t ++ PI_END ++ rest)) with false.
    change (starts_with_bytes CDATA (LT :: [63] ++ t ++ PI_END ++ rest)) with false.
    change (starts_with_bytes [60; 63] (LT :: [63] ++ t ++ PI_END ++ rest)) with true. cbn iota.
    change (drop 2 (LT :: [63] ++ t ++ PI_END ++ rest)) with (t ++ PI_END ++ rest). rewrite find_pat_ends by done. done.
Qed.

Lemma scan_nodes ns : Forall node_ok ns -> check_xml_limits l (concat (map render ns)) = let? _ := account_all ns Scan_default in Ok tt.
Proof.
  intros Hok. change (check_xml_limits l (concat (map render ns))) with (scan_from l (concat (map render ns)) Scan_default).
  generalize Scan_default. induction Hok as [|n ns Hn _ IH]; intros s; [done|]. cbn [map concat]. rewrite scan_node by done.
  rewrite account_all_cons. destruct (account n s) as [s'|]; [|done]. apply IH.
Qed.

(** ** What the limits say of a document *)

Definition declares (a : XAttr) : bool := if xmlns_prefix (xa_name a) is Some _ then true else false.
Definition declared_by (attrs : list XAttr) : Z := Z.of_nat (List.length (List.filter declares attrs)).

(** The start tags of a document, in order, each with the declarations of its
    open ancestors. *)
Fixpoint elements (scope : Z) (n : XNode) : list (Z * list XAttr) :=
  match n with
  | X_Element _ attrs _ _ children _ => (scope, attrs) :: concat (map (elements (scope + declared_by attrs)) children)
  | _ => []
  end.

Definition attr_within (a : XAttr) : Prop :=
  blen (xa_name a) <= attribute_name_bytes l /\
  forall p, xmlns_prefix (xa_name a) = Some p -> p <= xmlns_prefix_bytes l /\ blen (xa_value a) <= xmlns_uri_bytes l.

Definition element_within (e : Z * list XAttr) : Prop :=
  Z.of_nat (List.length e.2) <= attributes_per_element l /\ Forall attr_within e.2 /\
  (0 < declared_by e.2 -> e.1 + declared_by e.2 <= in_scope_namespaces l).

Definition total (f : Z * list XAttr -> Z) (es : list (Z * list XAttr)) : Z := foldr (fun e acc => f e + acc) 0 es.

(** The pairs of an element's attributes. *)
Definition pairs_of (e : Z * list XAttr) : Z := let n := Z.of_nat (List.length e.2) in n * (n - 1) / 2.
Definition xmlns_of (e : Z * list XAttr) : Z := declared_by e.2.
Definition work_of (e : Z * list XAttr) : Z := if 0 <? declared_by e.2 then (e.1 + declared_by e.2) * (e.1 + declared_by e.2) else 0.

(** Within the limits: each start tag, and the sums over the document. *)
Definition within (es : list (Z * list XAttr)) : Prop :=
  Forall element_within es /\ total pairs_of es <= attribute_pairs l /\ total xmlns_of es <= xmlns_declarations l /\
  total work_of es <= namespace_scope_work l.

Record limits_ok : Prop := mkLimitsOk {
  limits_nonneg : 0 <= attributes_per_element l /\ 0 <= attribute_pairs l /\ 0 <= xmlns_declarations l /\ 0 <= namespace_scope_work l;
  limits_below : attribute_pairs l < U64_MAX /\ namespace_scope_work l < U64_MAX
}.

Record scan_ok (s : Scan) : Prop := mkScanOk {
  scan_xmlns : 0 <= sc_xmlns s <= xmlns_declarations l;
  scan_pairs : 0 <= sc_pairs s <= attribute_pairs l;
  scan_work : 0 <= sc_work s <= namespace_scope_work l;
  scan_scope : 0 <= sc_in_scope s;
  scan_depth : 0 <= sc_depth s;
  scan_scopes : Forall (fun e => e.1 < sc_depth s) (sc_scopes s)
}.

Definition add_scan (s : Scan) (x p w : Z) : Scan :=
  mkScan (sc_xmlns s + x) (sc_pairs s + p) (sc_depth s) (sc_scopes s) (sc_in_scope s) (sc_work s + w).

Definition declared_one (a : XAttr) : Z := Z.b2z (declares a).

Hypothesis Hl : limits_ok.

Lemma sat_add_le a b m : m < U64_MAX -> (m <? sat_add64 a b) = (m <? a + b).
Proof. intros Hm. unfold sat_add64. apply eq_true_iff_eq. rewrite !Z.ltb_lt. lia. Qed.

Lemma count_attribute_iff a n d s r : scan_ok s -> 0 <= n ->
  count_attribute l (xa_name a) (blen (xa_value a)) n d s = Ok r <->
  attr_within a /\ n + 1 <= attributes_per_element l /\ sc_pairs s + n <= attribute_pairs l /\ sc_xmlns s + declared_one a <= xmlns_declarations l /\
  r = (n + 1, d + declared_one a, add_scan s (declared_one a) n 0).
Proof.
  intros [Hx Hp Hw _ _ _] Hn. destruct Hl as [_ [Lp Lw]]. unfold count_attribute. cbv zeta. cbn [sc_pairs sc_xmlns].
  rewrite sat_add_le by done. unfold attr_within, declared_one, declares, add_scan. destruct s as [x p depth scopes scope work]. cbn in *.
  assert (Hsat : p + n <= attribute_pairs l -> sat_add64 p n = p + n) by (intros; unfold sat_add64; lia).
  destruct (Z.ltb_spec (attributes_per_element l) (n + 1)); [split; [done|lia]|].
  destruct (Z.ltb_spec (attribute_pairs l) (p + n)); [split; [done|lia]|]. rewrite Hsat by lia. clear Hsat.
  destruct (Z.ltb_spec (attribute_name_bytes l) (blen (xa_name a))); [split; [done|lia]|].
  destruct (xmlns_prefix (xa_name a)) as [pre|]; cbn [Z.b2z].
  - destruct (Z.ltb_spec (xmlns_declarations l) (x + 1)); [split; [done|lia]|].
    destruct (Z.ltb_spec (xmlns_prefix_bytes l) pre); [split; [done|intros ((_ & H') & _); specialize (H' _ eq_refl); lia]|].
    destruct (Z.ltb_spec (xmlns_uri_bytes l) (blen (xa_value a))); [split; [done|intros ((_ & H') & _); specialize (H' _ eq_refl); lia]|].
    rewrite Z.add_0_r. split; [|by intros (_ & _ & _ & _ & ->)]. intros [= <-]. split; [split; [lia|by intros ? [= <-]]|]. done.
  - rewrite !Z.add_0_r. split; [|by intros (_ & _ & _ & _ & ->)]. intros [= <-]. split; [by split|]. split; [lia|]. split; [lia|]. split; [lia|done].
Qed.

Definition attrs_pairs (n : Z) (attrs : list XAttr) : Z := let k := Z.of_nat (List.length attrs) in k * n + k * (k - 1) / 2.

Lemma attrs_pairs_cons n a attrs : attrs_pairs n (a :: attrs) = n + attrs_pairs (n + 1) attrs.
Proof.
  unfold attrs_pairs. cbn [List.length]. set (k := Z.of_nat (List.length attrs)). replace (Z.of_nat (S (List.length attrs))) with (k + 1) by lia.
  replace ((k + 1) * (k + 1 - 1)) with (k * (k - 1) + k * 2) by lia. rewrite Z.div_add by done. lia.
Qed.

Lemma attrs_pairs_nonneg n attrs : 0 <= n -> 0 <= attrs_pairs n attrs.
Proof.
  revert n. induction attrs as [|a attrs IH]; intros n Hn; [done|]. rewrite attrs_pairs_cons. specialize (IH (n + 1)). lia.
Qed.

Lemma declared_by_cons a attrs : declared_by (a :: attrs) = declared_one a + declared_by attrs.
Proof. unfold declared_by, declared_one. cbn [List.filter]. destruct (declares a); cbn [List.length Z.b2z]; lia. Qed.

Lemma declared_by_nonneg attrs : 0 <= declared_by attrs.
Proof. unfold declared_by. lia. Qed.

Lemma bind_iff {A B E} (m : result A E) (f : A -> result B E) r : (let? x := m in f x) = Ok r <-> exists x, m = Ok x /\ f x = Ok r.
Proof. destruct m as [x|e]; cbn; split; [by exists x|by intros (y & [= <-] & ?)|done|by intros (y & ? & _)]. Qed.

Lemma account_attrs_iff attrs n d s r : scan_ok s -> 0 <= n <= attributes_per_element l ->
  account_attrs attrs n d s = Ok r <->
  Forall attr_within attrs /\ n + Z.of_nat (List.length attrs) <= attributes_per_element l /\ sc_pairs s + attrs_pairs n attrs <= attribute_pairs l /\
  sc_xmlns s + declared_by attrs <= xmlns_declarations l /\
  r = (n + Z.of_nat (List.length attrs), d + declared_by attrs, add_scan s (declared_by attrs) (attrs_pairs n attrs) 0).
Proof.
  revert n d s r. induction attrs as [|a attrs IH]; intros n d s r Hs Hn.
  - cbn [account_attrs]. pose proof Hs as [Hx Hp Hw _ _ _]. unfold attrs_pairs, declared_by, add_scan. cbn [List.length List.filter Z.of_nat].
    replace (0 * n + 0 * (0 - 1) / 2) with 0 by reflexivity. rewrite !Z.add_0_r. destruct s. split; [intros [= <-]; repeat split; cbn in *; try lia; done|by intros (_ & _ & _ & _ & ->)].
  - cbn [account_attrs]. rewrite attrs_pairs_cons, declared_by_cons, list.Forall_cons. cbn [List.length]. rewrite bind_iff.
    pose proof (attrs_pairs_nonneg (n + 1) attrs ltac:(lia)) as Hp0. pose proof (declared_by_nonneg attrs) as Hd0.
    assert (Hone : 0 <= declared_one a) by (unfold declared_one; by destruct (declares a)). split.
    + intros (x & H1 & H2). apply count_attribute_iff in H1 as (W1 & W2 & W3 & W4 & ->); [|done|lia].
      apply IH in H2 as (V1 & V2 & V3 & V4 & ->); [|destruct Hs; constructor; cbn; try lia; done|lia]. cbn [add_scan sc_pairs sc_xmlns] in *.
      repeat (split; [first [done|lia]|]). unfold add_scan. cbn. apply f_equal2; [apply f_equal2; lia|]. f_equal; lia.
    + intros ((W1 & V1) & V2 & V3 & V4 & ->). eexists. split; [apply count_attribute_iff; [done|lia|]; repeat (split; [first [done|lia]|]); done|].
      apply IH; [destruct Hs; constructor; cbn; try lia; done|lia|]. cbn [add_scan sc_pairs sc_xmlns]. repeat (split; [first [done|lia]|]).
      unfold add_scan. cbn. apply f_equal2; [apply f_equal2; lia|]. f_equal; lia.
Qed.

(** The state inside an element that declares [d] namespaces, its tag read. *)
Definition opened (s : Scan) (d w : Z) : Scan :=
  mkScan (sc_xmlns s) (sc_pairs s) (sc_depth s + 1) (if 0 <? d then (sc_depth s, d) :: sc_scopes s else sc_scopes s) (sc_in_scope s + d) (sc_work s + w).

Definition scope_work (s : Scan) (d : Z) : Z := if 0 <? d then (sc_in_scope s + d) * (sc_in_scope s + d) else 0.

Lemma scope_work_nonneg s d : 0 <= scope_work s d.
Proof. unfold scope_work. destruct (0 <? d); [apply Z.square_nonneg|done]. Qed.

Lemma close_start_tag_iff d (empty : bool) s r : scan_ok s -> 0 <= d ->
  close_start_tag l d empty s = Ok r <->
  (0 < d -> sc_in_scope s + d <= in_scope_namespaces l) /\ sc_work s + scope_work s d <= namespace_scope_work l /\
  r = if empty then add_scan s 0 0 (scope_work s d) else opened s d (scope_work s d).
Proof.
  intros [_ _ Hw Hsc _ _] Hd. destruct Hl as [_ [_ Lw]]. unfold close_start_tag, opened, add_scan, scope_work. destruct s as [x p depth scopes scope work]. cbn in *.
  destruct (Z.ltb_spec 0 d); [|assert (d = 0) as -> by lia; cbn [result_bind]; rewrite !Z.add_0_r;
    destruct empty; (split; [intros [= <-]; split; [lia|]; split; [lia|done]|by intros (_ & _ & ->)])].
  cbv zeta. destruct (Z.ltb_spec (in_scope_namespaces l) (scope + d)); [split; [done|lia]|].
  assert (Hnn : 0 <= (scope + d) * (scope + d)) by apply Z.square_nonneg. set (q := (scope + d) * (scope + d)) in *. unfold sat_mul64. fold q.
  assert (Hlt : (namespace_scope_work l <? sat_add64 work (Z.min U64_MAX q)) = (namespace_scope_work l <? work + q)).
  { unfold sat_add64. apply eq_true_iff_eq. rewrite !Z.ltb_lt. lia. }
  rewrite Hlt. destruct (Z.ltb_spec (namespace_scope_work l) (work + q)); [split; [done|lia]|].
  assert (Hsat : sat_add64 work (Z.min U64_MAX q) = work + q) by (unfold sat_add64; lia). rewrite Hsat.
  destruct empty; cbn [result_bind sc_xmlns sc_pairs sc_depth sc_scopes sc_in_scope sc_work]; rewrite ?Z.add_0_r;
    (split; [intros [= <-]; split; [lia|]; split; [lia|done]|by intros (_ & _ & ->)]).
Qed.

Lemma end_tag_opened s d w x p w' : scan_ok s -> 0 <= d -> end_tag (add_scan (opened s d w) x p w') = add_scan s x p (w + w').
Proof.
  intros [_ _ _ _ Hdepth Hsc] Hd. unfold end_tag, add_scan, opened. destruct s as [xs ps depth scopes scope work].
  cbn [sc_xmlns sc_pairs sc_depth sc_scopes sc_in_scope sc_work] in *. replace (Z.max 0 (depth + 1 - 1)) with depth by lia.
  destruct (Z.ltb_spec 0 d).
  - rewrite Z.eqb_refl. f_equal; lia.
  - assert (d = 0) as -> by lia. destruct scopes as [|[e k] scopes]; [f_equal; lia|]. apply list.Forall_cons in Hsc as [Hlt _]. cbn in Hlt.
    rewrite (proj2 (Z.eqb_neq e depth)) by lia. f_equal; lia.
Qed.

Lemma total_app f a b : total f (a ++ b) = total f a + total f b.
Proof. unfold total. induction a as [|e a IH]; cbn; [done|]. rewrite IH. lia. Qed.

Lemma total_nonneg f es : (forall e, 0 <= f e) -> 0 <= total f es.
Proof. intros Hf. unfold total. induction es as [|e es IH]; cbn; [done|]. specialize (Hf e). lia. Qed.

Lemma pairs_of_nonneg e : 0 <= pairs_of e.
Proof. unfold pairs_of. cbv zeta. apply Z.div_pos; [|done]. pose proof (Zle_0_nat (List.length e.2)). nia. Qed.

Lemma xmlns_of_nonneg e : 0 <= xmlns_of e.
Proof. unfold xmlns_of, declared_by. lia. Qed.

Lemma work_of_nonneg e : 0 <= work_of e.
Proof. unfold work_of. destruct (0 <? _); [apply Z.square_nonneg|done]. Qed.

(** The account of the tags [es] begun in state [s]. *)
Definition accounts (es : list (Z * list XAttr)) (s : Scan) (r : Scan) : Prop :=
  Forall element_within es /\ sc_pairs s + total pairs_of es <= attribute_pairs l /\ sc_xmlns s + total xmlns_of es <= xmlns_declarations l /\
  sc_work s + total work_of es <= namespace_scope_work l /\ r = add_scan s (total xmlns_of es) (total pairs_of es) (total work_of es).

Lemma accounts_nil s r : scan_ok s -> accounts [] s r <-> r = s.
Proof.
  intros [Hx Hp Hw _ _ _]. unfold accounts, add_scan, total. cbn [foldr]. rewrite !Z.add_0_r. destruct s. cbn in *.
  split; [by intros (_ & _ & _ & _ & ->)|]. intros ->. split; [done|]. repeat split; lia.
Qed.

Lemma add_scan_ok s x p w : scan_ok s -> 0 <= x -> 0 <= p -> 0 <= w -> sc_xmlns s + x <= xmlns_declarations l ->
  sc_pairs s + p <= attribute_pairs l -> sc_work s + w <= namespace_scope_work l -> scan_ok (add_scan s x p w).
Proof. intros [] ? ? ? ? ? ?. constructor; cbn; try lia; done. Qed.

Lemma accounts_app es es' s r : scan_ok s ->
  accounts (es ++ es') s r <-> exists s1, accounts es s s1 /\ accounts es' s1 r /\ scan_ok s1.
Proof.
  intros Hs. unfold accounts. rewrite !total_app, list.Forall_app.
  pose proof (total_nonneg _ es pairs_of_nonneg). pose proof (total_nonneg _ es xmlns_of_nonneg). pose proof (total_nonneg _ es work_of_nonneg).
  pose proof (total_nonneg _ es' pairs_of_nonneg). pose proof (total_nonneg _ es' xmlns_of_nonneg). pose proof (total_nonneg _ es' work_of_nonneg).
  split.
  - intros ((W1 & W2) & A & B & C & ->). eexists. split; [split; [done|]; split; [lia|]; split; [lia|]; split; [lia|reflexivity]|]. cbn [add_scan sc_pairs sc_xmlns sc_work].
    split; [split; [done|]; split; [lia|]; split; [lia|]; split; [lia|]; unfold add_scan; cbn; f_equal; lia|]. apply add_scan_ok; done || lia.
  - intros (s1 & (W1 & _ & _ & _ & ->) & (W2 & A & B & C & ->) & _). cbn [add_scan sc_pairs sc_xmlns sc_work] in *.
    split; [done|]. split; [lia|]. split; [lia|]. split; [lia|]. unfold add_scan. cbn. f_equal; lia.
Qed.

Lemma opened_ok s d : scan_ok s -> 0 <= d -> sc_work s + scope_work s d <= namespace_scope_work l -> scan_ok (opened s d (scope_work s d)).
Proof.
  intros [Hx Hp Hw Hsc Hdp Hscs] Hd Hle. pose proof (scope_work_nonneg s d). constructor; cbn; try lia. destruct (0 <? d).
  - constructor; [cbn; lia|]. eapply List.Forall_impl; [|exact Hscs]. intros e He. cbn in *. lia.
  - eapply List.Forall_impl; [|exact Hscs]. intros e He. cbn in *. lia.
Qed.

Lemma account_iff n : node_ok n -> forall s r, scan_ok s -> account n s = Ok r <-> accounts (elements (sc_in_scope s) n) s r.
Proof.
  induction n as [name attrs space empty children end_space IH|t|t|t|t] using XNode_nested; intros Hok s r Hs; cbn [account elements];
    try (rewrite accounts_nil by done; split; [by intros [= ->]|by intros ->]).
  destruct Hok as (_ & _ & _ & _ & Hch & Hempty). destruct Hl as [(L1 & _) _].
  assert (Hkids : forall s r, scan_ok s -> account_all children s = Ok r <-> accounts (concat (map (elements (sc_in_scope s)) children)) s r).
  { clear -IH Hch Hl. induction IH as [|c cs Hc _ IHc]; intros s r Hs; cbn [map concat].
    - rewrite accounts_nil by done. unfold account_all. cbn. split; [by intros [= ->]|by intros ->].
    - cbn [foldr] in Hch. destruct Hch as [Hok Hch]. rewrite account_all_cons, bind_iff, accounts_app by done. split.
      + intros (s1 & H1 & H2). apply Hc in H1; [|done..]. pose proof H1 as (_ & A & B & C & E).
        assert (Hs1 : scan_ok s1) by (subst s1; apply add_scan_ok; try done; apply total_nonneg; [apply xmlns_of_nonneg|apply pairs_of_nonneg|apply work_of_nonneg]).
        exists s1. split; [done|]. split; [|done]. apply IHc in H2; [|done..]. by subst s1.
      + intros (s1 & H1 & H2 & Hs1). exists s1. split; [by apply Hc|]. apply IHc; [done..|]. destruct H1 as (_ & _ & _ & _ & ->). done. }
  set (d := declared_by attrs). assert (Hd : 0 <= d) by apply declared_by_nonneg. rewrite bind_iff.
  set (s1 := add_scan s d (attrs_pairs 0 attrs) 0). set (w := scope_work s1 d).
  pose proof (attrs_pairs_nonneg 0 attrs ltac:(lia)) as Hpn. pose proof (scope_work_nonneg s1 d) as Hwn. fold w in Hwn.
  assert (Hpairs : pairs_of (sc_in_scope s, attrs) = attrs_pairs 0 attrs) by (unfold pairs_of, attrs_pairs; cbn [snd]; cbv zeta; lia).
  assert (Hwork : work_of (sc_in_scope s, attrs) = w) by done. assert (Hxm : xmlns_of (sc_in_scope s, attrs) = d) by done.
  set (kids := concat (map (elements (sc_in_scope s + d)) children)).
  pose proof (total_nonneg _ kids pairs_of_nonneg) as T1. pose proof (total_nonneg _ kids xmlns_of_nonneg) as T2. pose proof (total_nonneg _ kids work_of_nonneg) as T3.
  assert (Hcons : forall f, total f ((sc_in_scope s, attrs) :: kids) = f (sc_in_scope s, attrs) + total f kids) by done.
  assert (Hs1 : sc_pairs s + attrs_pairs 0 attrs <= attribute_pairs l -> sc_xmlns s + d <= xmlns_declarations l -> scan_ok s1).
  { intros. apply add_scan_ok; try done; try lia. destruct Hs; lia. }
  unfold accounts. rewrite list.Forall_cons, !Hcons, Hpairs, Hwork, Hxm. unfold element_within. cbn [fst snd]. fold d. split.
  - intros ([[a0 d0] s0] & H1 & H2). apply account_attrs_iff in H1 as (V1 & V2 & V3 & V4 & E); [|done|lia]. injection E as -> -> ->. fold d s1 in H2, V4.
    rewrite bind_iff in H2. destruct H2 as (s2 & H2 & H3). rewrite Z.add_0_l in H2. apply close_start_tag_iff in H2 as (C1 & C2 & ->); [|by apply Hs1|done]. fold w in H3, C2.
    change (sc_in_scope s1) with (sc_in_scope s) in C1. change (sc_work s1) with (sc_work s + 0) in C2.
    destruct empty.
    + injection H3 as <-. assert (Hk : kids = []) by (unfold kids; by rewrite Hempty). rewrite Hk. cbn [total foldr]. unfold s1, add_scan. cbn.
      split; [repeat split; try done; lia|]. split; [lia|]. split; [lia|]. split; [lia|]. f_equal; lia.
    + rewrite bind_iff in H3. destruct H3 as (s3 & H3 & [= <-]).
      apply Hkids in H3; [|apply opened_ok; [by apply Hs1|done|done]]. destruct H3 as (F & A & B & C & ->).
      change (sc_in_scope (opened s1 d w)) with (sc_in_scope s + d) in *. fold kids in F, A, B, C |- *.
      change (sc_pairs (opened s1 d w)) with (sc_pairs s + attrs_pairs 0 attrs) in A. change (sc_xmlns (opened s1 d w)) with (sc_xmlns s + d) in B.
      change (sc_work (opened s1 d w)) with (sc_work s + 0 + w) in C. rewrite end_tag_opened by (done || by apply Hs1).
      split; [repeat split; try done; lia|]. split; [lia|]. split; [lia|]. split; [lia|]. unfold s1, add_scan. cbn. f_equal; lia.
  - intros (((V2 & V1 & C1) & F) & A & B & C & ->). eexists. split.
    { apply account_attrs_iff; [done|lia|]. split; [done|]. split; [lia|]. split; [lia|]. split; [fold d; lia|reflexivity]. }
    fold d s1. change (0 + d) with d. assert (Hok1 : scan_ok s1) by (apply Hs1; lia).
    assert (C2 : sc_work s1 + w <= namespace_scope_work l) by (change (sc_work s1) with (sc_work s + 0); lia).
    rewrite bind_iff. eexists. split; [apply close_start_tag_iff; [done|done|]; split; [done|]; split; [done|reflexivity]|]. fold w. destruct empty.
    + assert (Hk : kids = []) by (unfold kids; by rewrite Hempty). rewrite Hk. cbn [total foldr]. unfold s1, add_scan. cbn. do 2 f_equal; lia.
    + rewrite bind_iff. eexists. split; [apply Hkids; [by apply opened_ok|]; change (sc_in_scope (opened s1 d w)) with (sc_in_scope s + d); fold kids;
        split; [done|]; cbn [opened sc_pairs sc_xmlns sc_work s1 add_scan]; split; [lia|]; split; [lia|]; split; [lia|reflexivity]|].
      change (sc_in_scope (opened s1 d w)) with (sc_in_scope s + d). fold kids. rewrite end_tag_opened by done. f_equal. unfold s1, add_scan. cbn. f_equal; lia.
Qed.
End Account.

(** * Properties *)

(** C21: on any document as it may be written (elements with attributes spaced
    and quoted in any way, text, comments, CDATA sections, processing
    instructions), the scan accepts exactly the documents within the limits:
    the attributes of each tag, the lengths of names, prefixes and namespace
    URIs, the declarations in scope where one is declared, and the sums of
    attribute pairs, declarations and scope work over the document. Nothing in
    a comment, a CDATA section or a quoted value counts. *)
Theorem limits_exact l ns : limits_ok l -> Forall node_ok ns ->
  check_xml_limits l (concat (map render ns)) = Ok tt <-> within l (concat (map (elements 0) ns)).
Proof.
  intros Hl Hok. rewrite scan_nodes, bind_iff by done.
  assert (Hs : scan_ok l Scan_default) by (destruct Hl as [(? & ? & ? & ?) _]; constructor; cbn; try lia; constructor).
  assert (Hall : forall s r, scan_ok l s -> account_all l ns s = Ok r <-> accounts l (concat (map (elements (sc_in_scope s)) ns)) s r).
  { clear Hs. induction Hok as [|n ns Hn _ IH]; intros s r Hs; cbn [map concat].
    - rewrite accounts_nil by done. unfold account_all. cbn. split; [by intros [= ->]|by intros ->].
    - rewrite account_all_cons, bind_iff, accounts_app by done. split.
      + intros (s1 & H1 & H2). apply account_iff in H1; [|done..]. pose proof H1 as (_ & A & B & C & E).
        assert (Hs1 : scan_ok l s1) by (subst s1; apply add_scan_ok; try done; apply total_nonneg; [apply xmlns_of_nonneg|apply pairs_of_nonneg|apply work_of_nonneg]).
        exists s1. split; [done|]. split; [|done]. apply IH in H2; [|done..]. by subst s1.
      + intros (s1 & H1 & H2 & Hs1). exists s1. split; [by apply account_iff|]. apply IH; [done..|]. destruct H1 as (_ & _ & _ & _ & ->). done. }
  unfold within. split.
  - intros (r & Hr & _). apply Hall in Hr as (F & A & B & C & _); done.
  - intros (F & A & B & C). eexists. split; [|done]. apply Hall; [done|]. split; [done|]. split; [done|]. split; [done|]. split; [done|reflexivity].
Qed.

(** * Witnesses *)

Definition demo_limits : XmlLimits := mkXmlLimits 4 3 20 2 8 16 2 100.

Definition demo_attr (name value : string) : XAttr := mkXAttr [32] (bytes_of_string name) [] [32] 39 (bytes_of_string value).

Definition demo_document : list XNode :=
  [X_Element (bytes_of_string "a") [demo_attr "xmlns:p" "urn:x"; demo_attr "b" "<c d=1>"] [] false
     [X_Comment (bytes_of_string " <b c=1> -"); X_Text (bytes_of_string "text"); X_Element (bytes_of_string "p:e") [demo_attr "xmlns" "urn:y"] [10] true [] [];
      X_Cdata (bytes_of_string "<z z='z'>")] [32]].

Example demo_rendered : string_of_bytes (concat (map render demo_document)) =
  "<a xmlns:p= 'urn:x' b= '<c d=1>'><!-- <b c=1> --->text<p:e xmlns= 'urn:y'" +:+ String "010" "/><![CDATA[<z z='z'>]]></a >".
Proof. vm_compute. reflexivity. Qed.

Example demo_scan : check_xml_limits demo_limits (concat (map render demo_document)) = Ok tt /\
  check_xml_limits (mkXmlLimits 4 3 20 1 8 16 2 100) (concat (map render demo_document)) = Err (NamespaceDeclarations 1) /\
  check_xml_limits (mkXmlLimits 4 3 20 2 8 16 2 4) (concat (map render demo_document)) = Err (NamespaceScopeWork 4).
Proof. vm_compute. auto. Qed.

Lemma demo_document_ok : Forall node_ok demo_document.
Proof.
  assert (Ha : forall name value, match bytes_of_string name with [] => False | _ => True end -> forallb name_byte (bytes_of_string name) = true ->
    Forall (fun c => c <> 39) (bytes_of_string value) -> attr_ok (demo_attr name value)).
  { intros name value H1 H2 H3. constructor; cbn; auto; try (by right). by destruct (bytes_of_string name). }
  repeat constructor; try done; apply Ha; try done; vm_compute; repeat constructor; done.
Qed.

Lemma limits_exact_witness :
  check_xml_limits demo_limits (concat (map render demo_document)) = Ok tt <-> within demo_limits (concat (map (elements 0) demo_document)).
Proof. apply (limits_exact demo_limits demo_document); [|exact demo_document_ok]. constructor; cbn; unfold U64_MAX; lia. Defined.
