(* ===== verification/XPath.v ===== *)
(** The XPath subset of assertions and extractions
    (crates/anvil-engine/src/assertions.rs): its grammar, and the evaluation
    of a path over a parsed document.

    The parser is the crate [roxmltree]; a parsed document is its tree, a
    node the path of child positions that leads to it from the document's
    root, and document order the order of those paths, as the crate orders its
    nodes. [char::is_alphabetic] and [is_alphanumeric] beyond ASCII are the
    standard library's Unicode tables, a parameter. *)
From Stdlib Require Import ZArith Lia Ascii String Sorted.
From stdpp Require Import base numbers strings option list sorting pretty.
From S2P Require Import Prelude Text Bytes Utf8 XmlLimits.
Open Scope string_scope.
Open Scope list_scope.
Open Scope nat_scope.

(** * Documents *)

Inductive XKind :=
  | XK_Root
  | XK_Element (local : string) (attributes : list (string * string))
  | XK_Text (text : string)
  | XK_Other.

Inductive XTree := XT (kind : XKind) (children : list XTree).

Abbreviation XPos := (list nat).

Definition kind_of (t : XTree) : XKind := let 'XT k _ := t in k.
Definition kids_of (t : XTree) : list XTree := let 'XT _ cs := t in cs.

Fixpoint subtree (t : XTree) (p : XPos) : option XTree :=
  match p with
  | [] => Some t
  | i :: p' => c ← kids_of t !! i; subtree c p'
  end.

(** [n.descendants()]: the node at [p] and all below it. *)
Fixpoint preorder (t : XTree) (p : XPos) : list XPos :=
  let 'XT _ cs := t in
  p :: (fix go (i : nat) (cs : list XTree) : list XPos :=
          match cs with [] => [] | c :: cs' => preorder c (p ++ [i]) ++ go (S i) cs' end) 0 cs.

Section Document.
Variable doc : XTree.

Definition descendants (p : XPos) : list XPos := match subtree doc p with Some t => preorder t p | None => [] end.

Definition children (p : XPos) : list XPos :=
  match subtree doc p with Some t => map (fun i => p ++ [i]) (seq 0 (List.length (kids_of t))) | None => [] end.

Definition node_kind (p : XPos) : XKind := match subtree doc p with Some t => kind_of t | None => XK_Other end.

Definition is_text (p : XPos) : bool := match node_kind p with XK_Text _ => true | _ => false end.
Definition node_text (p : XPos) : option string := match node_kind p with XK_Text s => Some s | _ => None end.
Definition attributes (p : XPos) : list (string * string) := match node_kind p with XK_Element _ a => a | _ => [] end.

(** [c.is_element() && (name == "*" || c.tag_name().name() == name)]. *)
Definition element_named (name : string) (p : XPos) : bool :=
  match node_kind p with XK_Element local _ => String.eqb name "*" || String.eqb local name | _ => false end.

(** Document order. *)
Fixpoint pos_leb (p q : XPos) : bool :=
  match p, q with
  | [], _ => true
  | _ :: _, [] => false
  | i :: p', j :: q' => (i <? j) || ((i =? j) && pos_leb p' q')
  end.

Definition pos_le (p q : XPos) : Prop := pos_leb p q = true.
Definition pos_lt (p q : XPos) : Prop := pos_le p q /\ p <> q.

#[export] Instance pos_le_dec p q : Decision (pos_le p q).
Proof. unfold pos_le. apply _. Defined.

(** The loop of [xpath_axis]; [seen] are the nodes listed so far. *)
Fixpoint axis_loop (seen : list XPos) (nodes : list XPos) : list XPos :=
  match nodes with
  | [] => []
  | n :: nodes' => if decide (n ∈ seen) then axis_loop seen nodes' else descendants n ++ axis_loop (seen ++ descendants n) nodes'
  end.

Definition xpath_axis (nodes : list XPos) (descendant : bool) : list XPos := if descendant then axis_loop [] nodes else nodes.

(** The children of [parent] a step selects. *)
Definition matched (name : string) (position : option nat) (parent : XPos) : list XPos :=
  let m := List.filter (element_named name) (children parent) in
  match position with Some i => option_list (m !! (i - 1)) | None => m end.

Definition xpath_elements (nodes : list XPos) (descendant : bool) (name : string) (position : option nat) : list XPos :=
  merge_sort pos_le (concat (map (matched name position) (xpath_axis nodes descendant))).
End Document.

(** * Steps *)

Inductive XStep :=
  | XS_Element (descendant : bool) (name : string) (position : option nat)
  | XS_Attribute (descendant : bool) (name : string)
  | XS_Text (descendant : bool).

(** The least node in document order ([Iterator::min]). *)
Definition first_of (ps : list XPos) : option XPos :=
  foldl (fun best p => match best with Some b => if pos_leb b p then Some b else Some p | None => Some p end) None ps.

Fixpoint find_map {A B} (f : A -> option B) (l : list A) : option B :=
  match l with [] => None | x :: l' => match f x with Some y => Some y | None => find_map f l' end end.

(** The first attribute of a node with that local name. *)
Definition attribute (doc : XTree) (name : string) (p : XPos) : option string :=
  snd <$> List.find (fun a => String.eqb a.1 name) (attributes doc p).

(** An element's whole text. *)
Definition full_text (doc : XTree) (p : XPos) : string :=
  String.concat "" (map (fun d => default "" (node_text doc d)) (List.filter (is_text doc) (descendants doc p))).

(** The evaluation of [xpath] from a list of nodes. *)
Fixpoint eval_steps (doc : XTree) (steps : list XStep) (nodes : list XPos) : option string :=
  match steps with
  | [] => full_text doc <$> head nodes
  | XS_Text descendant :: _ =>
      (fun t => default "" (node_text doc t)) <$>
      first_of (List.filter (is_text doc) (concat (map (children doc) (xpath_axis doc nodes descendant))))
  | XS_Attribute descendant name :: _ => find_map (attribute doc name) (xpath_axis doc nodes descendant)
  | XS_Element descendant name position :: steps' =>
      match xpath_elements doc nodes descendant name position with
      | [] => None
      | nodes => eval_steps doc steps' nodes
      end
  end.

Definition eval_xpath (doc : XTree) (steps : list XStep) : option string := eval_steps doc steps [[]].

(** * The text of a path *)

(** [char::is_alphabetic] and [char::is_alphanumeric] of a character beyond
    ASCII, given by its UTF-8 bytes. *)
Class Unicode := mkUnicode {
  uni_alphabetic : string -> bool;
  uni_alphanumeric : string -> bool
}.

(** The characters of a string. *)
Fixpoint chars_of (s : string) : list string :=
  match s with
  | "" => []
  | String c s' =>
      match chars_of s' with
      | String d r :: ds => if is_char_start d then String c "" :: String d r :: ds else String c (String d r) :: ds
      | ds => String c "" :: ds
      end
  end.

Definition ascii_in (lo hi : nat) (c : ascii) : bool := (lo <=? byte_of c) && (byte_of c <=? hi).
Definition ascii_letter (c : ascii) : bool := ascii_in 65 90 c || ascii_in 97 122 c.
Definition ascii_digit (c : ascii) : bool := ascii_in 48 57 c.

Definition name_mark (c : ascii) : bool := Ascii.eqb c "_" || Ascii.eqb c "-" || Ascii.eqb c ".".

Section Parse.
Context `{U : Unicode}.

Definition name_start (ch : string) : bool :=
  match ch with
  | "" => false
  | String c _ => if byte_of c <? 128 then ascii_letter c || Ascii.eqb c "_" else uni_alphabetic ch
  end.

Definition name_char (ch : string) : bool :=
  match ch with
  | "" => false
  | String c _ => if byte_of c <? 128 then ascii_letter c || ascii_digit c || name_mark c else uni_alphanumeric ch
  end.

Definition is_name (s : string) : bool :=
  match chars_of s with [] => false | c :: cs => name_start c && forallb name_char cs end.

Definition xpath_name (name : string) : result string string :=
  let local := match split_once ":" name with
    | Some (prefix, local) => if is_name prefix then local else ""
    | None => name
    end in
  if is_name local then Ok local else Err ("XPath step '" +:+ name +:+ "' is not supported").

(** [s.strip_suffix(c)]. *)
Fixpoint strip_last (c : ascii) (s : string) : option string :=
  match s with
  | "" => None
  | String a s' => if str_is_empty s' then if Ascii.eqb a c then Some "" else None else String a <$> strip_last c s'
  end.

(** The position between the brackets of a predicate; a [usize] has 64 bits. *)
Definition xpath_position (inner : string) : result nat string :=
  let inner := trim inner in
  if str_is_empty inner || negb (forallb ascii_digit (list_ascii_of_string inner)) then
    Err ("XPath predicate '[" +:+ inner +:+ "]' is not supported; only a position such as [1] or [2] is")
  else
    match digits_value 0 inner with
    | Some n =>
        if (U64_MAX <? n)%Z then Err ("XPath position [" +:+ inner +:+ "] is too large")
        else if (n =? 0)%Z then Err "XPath positions start at 1; [0] never selects anything"
        else Ok (Z.to_nat n)
    | None => Err ("XPath position [" +:+ inner +:+ "] is too large")
    end.

(** The name and position of an element step. *)
Definition xpath_predicate (step : string) : result (string * option nat) string :=
  match split_once "[" step with
  | None => if str_contains step "]" then Err ("XPath step '" +:+ step +:+ "' has an unbalanced ']'") else Ok (step, None)
  | Some (name, predicate) =>
      match strip_last "]" predicate with
      | None => Err ("XPath step '" +:+ step +:+ "' has a malformed predicate (expected it to end with ']')")
      | Some inner =>
          if str_contains inner "[" || str_contains inner "]" then
            Err ("XPath step '" +:+ step +:+ "': only one predicate per step is supported")
          else let? n := xpath_position inner in Ok (name, Some n)
      end
  end.

(** One step; [first] when none came before it. *)
Definition xpath_step (path : string) (first descendant : bool) (step : string) : result XStep string :=
  if str_is_empty step then Err ("XPath has an empty step in '" +:+ path +:+ "'")
  else if String.eqb step "text()" || starts_with step "@" then
    if first && negb descendant then Err ("XPath step '/" +:+ step +:+ "' must follow an element step")
    else match str_strip_prefix "@" step with
      | Some attr => let? name := xpath_name attr in Ok (XS_Attribute descendant name)
      | None => Ok (XS_Text descendant)
      end
  else
    let? (name, position) := xpath_predicate step in
    let? name := if String.eqb name "*" then Ok name else xpath_name name in
    Ok (XS_Element descendant name position).

Definition final_step (s : XStep) : bool := match s with XS_Element _ _ _ => false | _ => true end.

(** [rest.split_at(rest.find('/').unwrap_or(rest.len()))]. *)
Definition split_step (rest : string) : string * string :=
  match split_once "/" rest with Some (step, tail) => (step, String "/" tail) | None => (rest, "") end.

(** The loop of [parse_xpath]; each turn takes a slash. *)
Fixpoint parse_steps (fuel : nat) (path rest : string) (steps : list XStep) : result (list XStep) string :=
  match fuel with
  | O => Ok steps
  | S fuel' =>
      if str_is_empty rest then Ok steps
      else if match last steps with Some s => final_step s | None => false end then
        Err "XPath: @attribute and text() must be the last step"
      else
        let descendant := starts_with rest "//" in
        let '(step, tail) := split_step (str_drop (if descendant then 2 else 1) rest) in
        let? s := xpath_step path (match steps with [] => true | _ => false end) descendant step in
        parse_steps fuel' path tail (steps ++ [s])
  end.

Definition parse_xpath (path : string) : result (list XStep) string :=
  let rest := trim path in
  if negb (starts_with rest "/") then Err "XPath must start with / or //" else parse_steps (S (String.length rest)) path rest [].
End Parse.

(** * Bodies *)

Definition XPATH_MAX_NODES : Z := 4_000_000.

Definition XPATH_XML_LIMITS : XmlLimits := mkXmlLimits 256 (Z.shiftl 1 22) 256 8192 64 512 128 (Z.shiftl 1 26).

Definition TOO_COMPLEX : string := "XML too complex to evaluate safely".

(** The XML parser, with DTDs refused and a limit on the nodes: the tree, or
    why there is none ([None]: more nodes than that). *)
Class XmlParser := xml_parse : Z -> string -> result XTree (option string).

Definition xpath `{Unicode, XmlParser} (body : list Z) (path : string) : result (option string) string :=
  let? steps := parse_xpath path in
  let? text := ok_or (from_utf8 body) "body is not UTF-8" in
  match check_xml_limits XPATH_XML_LIMITS body with
  | Err e => Err (TOO_COMPLEX +:+ " (" +:+ limit_text e +:+ ")")
  | Ok _ =>
      match xml_parse XPATH_MAX_NODES text with
      | Err None => Err (TOO_COMPLEX +:+ " (more than " +:+ pretty XPATH_MAX_NODES +:+ " nodes)")
      | Err (Some e) => Err ("body is not XML: " +:+ e)
      | Ok doc => Ok (eval_xpath doc steps)
      end
  end.

(** * What steps denote *)

(** The nodes a step starts from: the context, or after [//] all below it too. *)
Definition on_axis (doc : XTree) (descendant : bool) (ctx : XPos -> Prop) (q : XPos) : Prop :=
  if descendant then exists p r, ctx p /\ q = p ++ r /\ is_Some (subtree doc q) else ctx q.

(** The elements an element step denotes. *)
Definition step_selects (doc : XTree) (descendant : bool) (name : string) (position : option nat) (ctx : XPos -> Prop) (q : XPos) : Prop :=
  exists parent, on_axis doc descendant ctx parent /\
    let m := List.filter (element_named doc name) (children doc parent) in
    match position with Some i => m !! (i - 1) = Some q | None => q ∈ m end.

Fixpoint selects (doc : XTree) (steps : list (bool * string * option nat)) (ctx : XPos -> Prop) : XPos -> Prop :=
  match steps with
  | [] => ctx
  | (descendant, name, position) :: steps' => selects doc steps' (step_selects doc descendant name position ctx)
  end.

(** [p] is the first node, in document order, with the property. *)
Definition first_with (P : XPos -> Prop) (p : XPos) : Prop := P p /\ forall q, P q -> pos_le p q.

(** * What is written *)

(** A step as it may be written: its name with a prefix or none, its position
    as the text between the brackets. *)
Inductive Written :=
  | W_Element (descendant : bool) (prefix : option string) (name : string) (position : option string)
  | W_Attribute (descendant : bool) (prefix : option string) (name : string)
  | W_Text (descendant : bool).

Definition write_name (prefix : option string) (name : string) : string :=
  match prefix with Some p => p +:+ ":" +:+ name | None => name end.

Definition write_position (position : option string) : string :=
  match position with Some t => "[" +:+ t +:+ "]" | None => "" end.

Definition write_body (w : Written) : string :=
  match w with
  | W_Element _ prefix name position => write_name prefix name +:+ write_position position
  | W_Attribute _ prefix name => "@" +:+ write_name prefix name
  | W_Text _ => "text()"
  end.

Definition after_slashes (w : Written) : bool := match w with W_Element d _ _ _ | W_Attribute d _ _ | W_Text d => d end.

Definition write_step (w : Written) : string := (if after_slashes w then "//" else "/") +:+ write_body w.

Definition write_path (ws : list Written) : string := foldr (fun w s => write_step w +:+ s) "" ws.

(** [c] is not in [s]. *)
Definition free_of (c : ascii) (s : string) : Prop := Forall (fun x => x <> c) (list_ascii_of_string s).

(** The position a text between brackets denotes. *)
Definition position_value (t : string) : option nat :=
  let digits := trim t in
  if str_is_empty digits then None else
  n ← digits_value 0 digits; if ((0 <? n) && (n <=? U64_MAX))%Z then Some (Z.to_nat n) else None.

Section Written.
Context `{U : Unicode}.

Definition name_ok (prefix : option string) (name : string) : Prop :=
  is_name name = true /\ match prefix with Some p => is_name p = true | None => True end.

Definition written_ok (w : Written) : Prop :=
  match w with
  | W_Element _ prefix name position =>
      (name = "*" /\ prefix = None \/ name_ok prefix name) /\
      match position with
      | Some t => is_Some (position_value t) /\ free_of "/" t /\ free_of "[" t /\ free_of "]" t
      | None => True
      end
  | W_Attribute _ prefix name => name_ok prefix name
  | W_Text _ => True
  end.

(** What a written step denotes. *)
Definition denotes (w : Written) : XStep :=
  match w with
  | W_Element d _ name position => XS_Element d name (t ← position; position_value t)
  | W_Attribute d _ name => XS_Attribute d name
  | W_Text d => XS_Text d
  end.

(** Only the last step may be an attribute or [text()]. *)
Fixpoint finals_last (steps : list XStep) : Prop :=
  match steps with s :: (_ :: _) as rest => final_step s = false /\ finals_last rest | _ => True end.

(** A first step that is an attribute or [text()] follows [//]. *)
Definition first_ok (w : Written) : Prop := final_step (denotes w) = true -> after_slashes w = true.

Record path_ok (ws : list Written) : Prop := mkPathOk {
  path_steps : Forall written_ok ws;
  path_first : match ws with [] => False | w :: _ => first_ok w end;
  path_finals : finals_last (map denotes ws)
}.

(** * Characters and names *)

Lemma free_of_cons c x s : free_of c (String x s) <-> x <> c /\ free_of c s.
Proof. unfold free_of. cbn [list_ascii_of_string]. by rewrite list.Forall_cons. Qed.

Lemma free_of_app c a b : free_of c (a +:+ b) <-> free_of c a /\ free_of c b.
Proof. induction a as [|x a IH]; [by split; [intros H; split; [constructor|]|intros [_ H]]|]. rewrite str_app_cons, !free_of_cons, IH. tauto. Qed.

Lemma split_free c s : free_of c s -> split_once (String c "") s = None.
Proof.
  induction s as [|x s IH]; intros Hf; [done|]. apply free_of_cons in Hf as [Hx Hf]. cbn [split_once str_strip_prefix].
  destruct (Ascii.eqb_spec c x) as [<-|_]; [done|]. by rewrite IH.
Qed.

Lemma split_at c a b : free_of c a -> split_once (String c "") (a +:+ String c b) = Some (a, b).
Proof.
  induction a as [|x a IH]; intros Hf; [rewrite str_app_nil; cbn; by rewrite Ascii.eqb_refl|].
  apply free_of_cons in Hf as [Hx Hf]. rewrite str_app_cons. cbn [split_once str_strip_prefix].
  destruct (Ascii.eqb_spec c x) as [<-|_]; [done|]. by rewrite IH.
Qed.

Lemma split_char c s : match split_once (String c "") s with Some (a, b) => s = a +:+ String c b /\ free_of c a | None => free_of c s end.
Proof.
  induction s as [|x s IH]; cbn [split_once str_strip_prefix]; [constructor|].
  destruct (Ascii.eqb_spec c x) as [<-|Hx]; [by split; [|constructor]|].
  destruct (split_once (String c "") s) as [[a b]|]; [destruct IH as [-> IH]; split; [done|]|]; by apply free_of_cons.
Qed.

Lemma contains_char c s : str_contains s (String c "") = false <-> free_of c s.
Proof.
  unfold str_contains. pose proof (split_char c s) as H. destruct (split_once _ s) as [[a b]|]; [|done].
  split; [done|]. destruct H as [-> _]. intros [_ H]%free_of_app. by apply free_of_cons in H as [? _].
Qed.

Lemma strip_last_Some c s t : strip_last c s = Some t <-> s = t +:+ String c "".
Proof.
  revert t. induction s as [|x s IH]; intros t; cbn [strip_last]; [split; [done|by destruct t]|].
  destruct s as [|y s]; cbn [str_is_empty].
  - destruct (Ascii.eqb_spec x c) as [->|Hx]; split; [by intros [= <-]|destruct t as [|z [|? ?]]; [done|by intros [=]..]|done|].
    destruct t as [|z [|? ?]]; [by intros [= ->]|by intros [=]..].
  - split.
    + destruct (strip_last c (String y s)) as [u|]; [|done]. intros [= <-]. rewrite str_app_cons. f_equal. by apply IH.
    + destruct t as [|z t]; [by intros [=]|]. rewrite str_app_cons. intros [= -> E]. apply IH in E. by rewrite E.
Qed.

(** The bytes of a name below 128. *)
Definition name_ascii (c : ascii) : bool := ascii_letter c || ascii_digit c || name_mark c.

Definition cont_only (s : string) : Prop := Forall (fun c => is_char_start c = false) (list_ascii_of_string s).

Lemma chars_of_spec s : foldr String.append "" (chars_of s) = s /\
  Forall (fun ch => exists c r, ch = String c r /\ cont_only r) (chars_of s).
Proof.
  induction s as [|c s [IH1 IH2]]; [by split; [|constructor]|]. cbn [chars_of].
  assert (H1 : exists c' r, String c "" = String c' r /\ cont_only r) by (exists c, ""; split; [done|constructor]).
  destruct (chars_of s) as [|[|d r] ds].
  - cbn in *. subst s. split; [done|]. by constructor.
  - apply list.Forall_cons in IH2 as [(? & ? & [=] & _) _].
  - pose proof IH2 as [(d' & r' & [= <- <-] & Hr) Hds]%list.Forall_cons. destruct (is_char_start d) eqn:E.
    + split; [by rewrite <- IH1|by constructor].
    + split; [by rewrite <- IH1|]. constructor; [|done]. exists c, (String d r). split; [done|]. by constructor.
Qed.

Lemma not_start_high c : is_char_start c = false -> (byte_of c <? 128) = false.
Proof. unfold is_char_start. intros H. apply Nat.ltb_ge. destruct (128 <=? byte_of c) eqn:E; [by apply Nat.leb_le in E|done]. Qed.

Definition ascii_bytes (P : ascii -> bool) (s : string) : Prop := Forall (fun c => byte_of c <? 128 = true -> P c = true) (list_ascii_of_string s).

Lemma list_ascii_app a b : list_ascii_of_string (a +:+ b) = list_ascii_of_string a ++ list_ascii_of_string b.
Proof. induction a as [|x a IH]; [done|]. rewrite str_app_cons. cbn. by rewrite IH. Qed.

Lemma name_bytes s : is_name s = true -> ascii_bytes name_ascii s.
Proof.
  unfold is_name. destruct (chars_of_spec s) as [E Hf]. intros H.
  assert (Hn : Forall (fun ch => name_char ch = true \/ name_start ch = true) (chars_of s)).
  { destruct (chars_of s) as [|ch chs]; [done|]. apply andb_split in H as [H1 H2]. constructor; [by right|].
    apply list.Forall_forall. intros x Hx. left. rewrite forallb_forall in H2. apply H2. by apply list_elem_of_In. }
  rewrite <- E. clear E H. unfold ascii_bytes. induction Hf as [|ch chs (c & r & -> & Hr) _ IH]; [constructor|]. apply list.Forall_cons in Hn as [Hch Hn].
  cbn [foldr]. rewrite list_ascii_app. apply list.Forall_app. split; [|by apply IH]. cbn [list_ascii_of_string]. constructor.
  - intros Hl. unfold name_ascii. cbn [name_char name_start] in Hch. rewrite Hl in Hch. destruct Hch as [->|Hch]; [done|].
    apply orb_true_iff in Hch as [->|Hch]; [done|]. unfold name_mark. rewrite Hch. by rewrite !orb_true_r.
  - eapply List.Forall_impl; [|exact Hr]. cbv beta. intros x Hx Hl. by rewrite (not_start_high x Hx) in Hl.
Qed.

(** A name has none of the grammar's marks. *)
Lemma name_free c s : byte_of c <? 128 = true -> name_ascii c = false -> is_name s = true -> free_of c s.
Proof.
  intros H1 H2 Hs. eapply List.Forall_impl; [|exact (name_bytes s Hs)]. cbv beta. intros x Hx ->. by rewrite (Hx H1) in H2.
Qed.

Lemma name_marks s : is_name s = true -> free_of "/" s /\ free_of "[" s /\ free_of "]" s /\ free_of ":" s /\ free_of "@" s /\ free_of "(" s /\ free_of "*" s.
Proof. intros H. repeat split; by apply name_free. Qed.

Lemma is_name_nonempty s : is_name s = true -> exists c r, s = String c r.
Proof. destruct s as [|c r]; [done|]. intros _. by exists c, r. Qed.

Lemma write_name_marks prefix name : name_ok prefix name ->
  free_of "/" (write_name prefix name) /\ free_of "[" (write_name prefix name) /\ free_of "]" (write_name prefix name) /\
  free_of "(" (write_name prefix name) /\ free_of "*" (write_name prefix name) /\
  exists c r, write_name prefix name = String c r /\ c <> "@"%char.
Proof.
  intros [Hn Hp]. pose proof (name_marks name Hn) as (N1 & N2 & N3 & N4 & N5 & N6 & N7).
  destruct prefix as [p|]; cbn [write_name].
  - pose proof (name_marks p Hp) as (P1 & P2 & P3 & P4 & P5 & P6 & P7). apply is_name_nonempty in Hp as (c & r & ->).
    repeat (split; [apply free_of_app; split; [done|]; by apply free_of_cons|]). exists c, (r +:+ ":" +:+ name). split; [done|].
    by apply free_of_cons in P5 as [? _].
  - repeat (split; [done|]). apply is_name_nonempty in Hn as (c & r & ->). exists c, r. split; [done|]. by apply free_of_cons in N5 as [? _].
Qed.

Lemma xpath_name_iff text name : xpath_name text = Ok name <-> exists prefix, name_ok prefix name /\ text = write_name prefix name.
Proof.
  unfold xpath_name. split.
  - pose proof (split_char ":" text) as Hs. destruct (split_once ":" text) as [[p l]|].
    + destruct Hs as [-> Hf]. destruct (is_name p) eqn:Ep; [|done]. destruct (is_name l) eqn:El; [|done]. intros [= ->]. by exists (Some p).
    + destruct (is_name text) eqn:E; [|done]. intros [= ->]. by exists None.
  - intros (prefix & [Hn Hp] & ->). destruct prefix as [p|]; cbn [write_name].
    + pose proof (name_marks p Hp) as (_ & _ & _ & P4 & _). change (":" +:+ name) with (String ":" name). rewrite split_at by done. by rewrite Hp, Hn.
    + pose proof (name_marks name Hn) as (_ & _ & _ & N4 & _). rewrite split_free by done. by rewrite Hn.
Qed.

(** * Steps *)

Lemma digits_all acc s : is_Some (digits_value acc s) <-> forallb ascii_digit (list_ascii_of_string s) = true.
Proof.
  revert acc. induction s as [|c s IH]; intros acc; cbn [digits_value list_ascii_of_string forallb]; [by split; [|eexists]|].
  change (ascii_digit c) with ((48 <=? byte_of c) && (byte_of c <=? 57)). unfold digit_of.
  destruct ((48 <=? byte_of c) && (byte_of c <=? 57)); cbn [mbind option_bind andb]; [apply IH|]. split; [by intros [? ?]|done].
Qed.

Lemma digits_nonneg acc s n : (0 <= acc)%Z -> digits_value acc s = Some n -> (0 <= n)%Z.
Proof.
  revert acc. induction s as [|c s IH]; intros acc Ha; cbn [digits_value]; [by intros [= <-]|]. unfold digit_of.
  destruct ((48 <=? byte_of c) && (byte_of c <=? 57)) eqn:E; [|done]. cbn [mbind option_bind]. apply IH.
  apply andb_split in E as [E _]. apply Nat.leb_le in E. lia.
Qed.

Lemma xpath_position_iff t n : xpath_position t = Ok n <-> position_value t = Some n.
Proof.
  unfold xpath_position, position_value. set (digits := trim t). destruct (str_is_empty digits); [done|]. cbn [orb].
  pose proof (digits_all 0 digits) as Hd. destruct (forallb ascii_digit _); cbn [negb].
  - destruct (proj2 Hd eq_refl) as [v E]. pose proof (digits_nonneg 0 digits v ltac:(lia) E). rewrite E. cbn [mbind option_bind].
    destruct (Z.ltb_spec U64_MAX v); destruct (Z.ltb_spec 0 v); destruct (Z.leb_spec v U64_MAX); destruct (Z.eqb_spec v 0); cbn [andb]; try lia;
      try (split; [by intros [= <-]|by intros [= <-]]); done.
  - destruct (digits_value 0 digits); [|done]. by specialize (proj1 Hd ltac:(by eexists)).
Qed.

Lemma xpath_predicate_iff step name pos : xpath_predicate step = Ok (name, pos) <->
  exists position, step = name +:+ write_position position /\ free_of "[" name /\
    match position with
    | Some t => free_of "[" t /\ free_of "]" t /\ exists n, position_value t = Some n /\ pos = Some n
    | None => free_of "]" name /\ pos = None
    end.
Proof.
  unfold xpath_predicate. split.
  - pose proof (split_char "[" step) as Hs. destruct (split_once "[" step) as [[a b]|].
    + destruct Hs as [-> Hf]. destruct (strip_last "]" b) as [t|] eqn:E; [|done]. apply strip_last_Some in E as ->.
      destruct (str_contains t "[") eqn:E1; [done|]. destruct (str_contains t "]") eqn:E2; [done|]. cbn [orb].
      apply contains_char in E1, E2. destruct (xpath_position t) as [n|] eqn:E; [|done]. apply xpath_position_iff in E. intros [= <- <-].
      exists (Some t). split; [done|]. split; [done|]. split; [done|]. split; [done|]. by exists n.
    + destruct (str_contains step "]") eqn:E; [done|]. apply contains_char in E. intros [= <- <-]. exists None. by rewrite str_app_nil_r.
  - intros (position & -> & Hf & Hp). destruct position as [t|]; cbn [write_position].
    + destruct Hp as (H1 & H2 & n & Hn & ->). change ("[" +:+ t +:+ "]") with (String "[" (t +:+ "]")). rewrite split_at by done.
      rewrite (proj2 (strip_last_Some "]" (t +:+ "]") t)) by done. apply contains_char in H1, H2. rewrite H1, H2. cbn [orb].
      apply xpath_position_iff in Hn. by rewrite Hn.
    + destruct Hp as [H ->]. rewrite str_app_nil_r, split_free by done. apply contains_char in H. by rewrite H.
Qed.

Lemma write_body_head w : written_ok w -> exists c r, write_body w = String c r /\ free_of "/" (String c r).
Proof.
  assert (H : forall s, (exists c r, s = String c r) -> free_of "/" s -> exists c r, s = String c r /\ free_of "/" (String c r)).
  { intros s (c & r & ->) Hf. by exists c, r. }
  assert (Happ : forall a b, (exists c r, a = String c r) -> exists c r, a +:+ b = String c r) by (intros a b (c & r & ->); by exists c, (r +:+ b)).
  intros Hw. apply H.
  - destruct w as [d prefix name position|d prefix name|d]; cbn [write_body]; [|by eexists _, _..].
    apply Happ. destruct Hw as [[[-> ->]|Hn] _]; [by eexists _, _|]. apply write_name_marks in Hn as (_ & _ & _ & _ & _ & c & r & -> & _). by exists c, r.
  - destruct w as [d prefix name position|d prefix name|d]; cbn [write_body]; [| |repeat constructor; done].
    + destruct Hw as [Hn Hp]. apply free_of_app. split.
      * destruct Hn as [[-> ->]|Hn]; [repeat constructor; done|]. by apply write_name_marks in Hn as (? & _).
      * destruct position as [t|]; cbn [write_position]; [|constructor]. destruct Hp as (_ & Hp & _).
        apply free_of_app. split; [repeat constructor; done|]. apply free_of_app. split; [done|repeat constructor; done].
    + apply free_of_app. split; [repeat constructor; done|]. by apply write_name_marks in Hw as (? & _).
Qed.

(** The texts that are not element steps. *)
Lemma element_text prefix name position : name = "*" /\ prefix = None \/ name_ok prefix name ->
  let s := write_name prefix name +:+ write_position position in
  str_is_empty s = false /\ String.eqb s "text()" = false /\ starts_with s "@" = false.
Proof.
  intros [[-> ->]|Hn]; [done|]. apply write_name_marks in Hn as (_ & _ & _ & Hf & _ & c & r & E & Hc). cbv zeta.
  split; [by rewrite E|]. split.
  - apply String.eqb_neq. intros Ht. destruct position as [t|]; cbn [write_position] in Ht.
    + assert (Hb : free_of "[" "text()") by (repeat constructor; done). rewrite <- Ht in Hb. apply free_of_app in Hb as [_ Hb].
      by apply free_of_cons in Hb as [? _].
    + rewrite str_app_nil_r in Ht. rewrite Ht in Hf. repeat (apply free_of_cons in Hf as [? Hf]; try done).
  - rewrite E, str_app_cons. unfold starts_with. cbn [str_strip_prefix]. destruct (Ascii.eqb_spec "@" c) as [<-|]; done.
Qed.

Lemma xpath_step_iff path first d step s : free_of "/" step -> xpath_step path first d step = Ok s <->
  exists w, written_ok w /\ step = write_body w /\ after_slashes w = d /\ s = denotes w /\ (first = true -> first_ok w).
Proof.
  intros Hs. unfold xpath_step, first_ok. split.
  - destruct (str_is_empty step); [done|]. destruct (String.eqb_spec step "text()") as [->|Ht]; cbn [orb].
    + destruct (first && negb d) eqn:Ed; [done|]. intros [= <-]. exists (W_Text d). repeat split. cbn. intros ->. by destruct d.
    + destruct (starts_with step "@") eqn:Ea.
      * destruct (first && negb d) eqn:Ed; [done|]. unfold starts_with in Ea. destruct (str_strip_prefix "@" step) as [attr|] eqn:E; [|done].
        apply str_strip_prefix_Some in E as ->. destruct (xpath_name attr) as [name|] eqn:En; [|done]. intros [= <-].
        apply xpath_name_iff in En as (prefix & Hn & ->). exists (W_Attribute d prefix name). repeat split; try apply Hn. cbn. intros ->. by destruct d.
      * destruct (xpath_predicate step) as [[name pos]|] eqn:Ep; [|done]. cbn [result_bind].
        apply xpath_predicate_iff in Ep as (position & -> & Hf & Hp). apply free_of_app in Hs as [Hs1 Hs2].
        assert (Hpos : match position with Some t => is_Some (position_value t) /\ free_of "/" t /\ free_of "[" t /\ free_of "]" t | None => True end /\
          pos = (t ← position; position_value t)).
        { destruct position as [t|]; [|by destruct Hp as [_ ->]]. destruct Hp as (H1 & H2 & n & Hn & ->). cbn [mbind option_bind]. rewrite Hn.
          split; [|done]. split; [by eexists|]. cbn [write_position] in Hs2. apply free_of_app in Hs2 as [_ Hs2]. by apply free_of_app in Hs2 as [? _]. }
        destruct Hpos as [Hpos ->]. destruct (String.eqb_spec name "*") as [->|_].
        -- intros [= <-]. exists (W_Element d None "*" position). split; [split; [by left|done]|]. repeat split. done.
        -- destruct (xpath_name name) as [local|] eqn:En; [|done]. apply xpath_name_iff in En as (prefix & Hn & ->). intros [= <-].
           exists (W_Element d prefix local position). split; [split; [by right|done]|]. repeat split. done.
  - intros (w & Hw & -> & <- & -> & Hfirst). destruct w as [d prefix name position|d prefix name|d].
    + destruct Hw as [Hn Hp]. destruct (element_text prefix name position Hn) as (E1 & E2 & E3). cbn [write_body after_slashes denotes].
      rewrite E1, E2, E3. cbn [orb]. rewrite (proj2 (xpath_predicate_iff _ (write_name prefix name) (t ← position; position_value t))).
      * cbn [result_bind]. destruct Hn as [[-> ->]|Hn]; [done|]. destruct (String.eqb_spec (write_name prefix name) "*") as [E|_].
        { apply write_name_marks in Hn as (_ & _ & _ & _ & Hf & _). rewrite E in Hf. by apply free_of_cons in Hf as [? _]. }
        by rewrite (proj2 (xpath_name_iff _ name)) by (by exists prefix).
      * exists position. assert (Hm : free_of "[" (write_name prefix name) /\ free_of "]" (write_name prefix name)).
        { destruct Hn as [[-> ->]|Hn]; [by repeat constructor|]. by apply write_name_marks in Hn as (_ & ? & ? & _). }
        destruct Hm as [M1 M2]. split; [done|]. split; [done|]. destruct position as [t|]; [|done]. destruct Hp as ([n En] & _ & H1 & H2). split; [done|]. split; [done|]. by exists n.
    + cbn [write_body after_slashes denotes] in *. assert (E : first && negb d = false) by (destruct first, d; try done; by specialize (Hfirst eq_refl eq_refl)).
      change ("@" +:+ write_name prefix name) with (String "@" (write_name prefix name)). cbn [str_is_empty]. unfold starts_with. cbn [str_strip_prefix].
      rewrite E. rewrite orb_true_r. cbn. by rewrite (proj2 (xpath_name_iff _ name)) by (by exists prefix).
    + assert (E : first && negb d = false) by (destruct first, d; try done; by specialize (Hfirst eq_refl eq_refl)). cbn. by rewrite E.
Qed.

Lemma split_step_iff r a b : split_step r = (a, b) <-> r = a +:+ b /\ free_of "/" a /\ (b = "" \/ exists b', b = String "/" b').
Proof.
  unfold split_step. split.
  - pose proof (split_char "/" r) as Hs. destruct (split_once "/" r) as [[x y]|]; intros [= <- <-].
    + destruct Hs as [-> Hf]. split; [done|]. split; [done|]. right. by eexists.
    + split; [by rewrite str_app_nil_r|]. split; [done|by left].
  - intros (-> & Hf & [->|[b' ->]]); [rewrite str_app_nil_r; by rewrite split_free|by rewrite split_at].
Qed.

Lemma write_path_cons w ws : write_path (w :: ws) = write_step w +:+ write_path ws.
Proof. done. Qed.

Lemma write_path_head ws : write_path ws = "" \/ exists r, write_path ws = String "/" r.
Proof. destruct ws as [|w ws]; [by left|]. right. rewrite write_path_cons. unfold write_step. destruct (after_slashes w); by eexists. Qed.

(** What may follow the steps already read. *)
Definition may_follow (steps : list XStep) (ws : list Written) : Prop :=
  match ws with
  | [] => True
  | w :: _ => match last steps with Some s => final_step s = false | None => first_ok w end
  end /\ finals_last (map denotes ws).

Lemma may_follow_cons steps w ws : may_follow steps (w :: ws) <->
  match last steps with Some s => final_step s = false | None => first_ok w end /\ may_follow (steps ++ [denotes w]) ws.
Proof.
  unfold may_follow. destruct ws as [|w' ws]; cbn [map finals_last]; [by split; intros [? _]|]. rewrite last_snoc. tauto.
Qed.

Lemma slashes_of w rest : written_ok w -> starts_with (write_step w +:+ rest) "//" = after_slashes w /\
  str_drop (if after_slashes w then 2 else 1) (write_step w +:+ rest) = write_body w +:+ rest.
Proof.
  intros (c & r & E & Hf)%write_body_head. unfold write_step. rewrite E. destruct (after_slashes w); (split; [|reflexivity]); [reflexivity|].
  apply free_of_cons in Hf as [Hc _]. unfold starts_with.
  change (("/" +:+ String c r) +:+ rest) with (String "/" (String c (r +:+ rest))). cbn [str_strip_prefix]. rewrite Ascii.eqb_refl.
  by destruct (Ascii.eqb_spec "/" c) as [<-|].
Qed.

Lemma slashes_split rest : (exists r, rest = String "/" r) ->
  exists r, rest = (if starts_with rest "//" then "//" else "/") +:+ r /\ str_drop (if starts_with rest "//" then 2 else 1) rest = r.
Proof.
  intros [r ->]. unfold starts_with. cbn [str_strip_prefix]. rewrite Ascii.eqb_refl. destruct r as [|c r]; [by exists ""|].
  destruct (Ascii.eqb_spec "/" c) as [<-|]; [by exists r|by exists (String c r)].
Qed.

Lemma parse_steps_iff path fuel : forall rest steps out, String.length rest < fuel -> (rest = "" \/ exists r, rest = String "/" r) ->
  parse_steps fuel path rest steps = Ok out <->
  exists ws, rest = write_path ws /\ Forall written_ok ws /\ may_follow steps ws /\ out = steps ++ map denotes ws.
Proof.
  induction fuel as [|fuel IH]; intros rest steps out Hlen Hrest; [lia|]. cbn [parse_steps]. destruct rest as [|c rest].
  { cbn [str_is_empty]. split.
    - intros [= <-]. exists []. repeat split; [constructor|by rewrite app_nil_r].
    - intros (ws & E & Hw & _ & ->). destruct ws as [|w ws]; [by rewrite app_nil_r|]. rewrite write_path_cons in E. unfold write_step in E. by destruct (after_slashes w). }
  destruct Hrest as [|[r [= -> ->]]]; [done|]. cbn [str_is_empty].
  split.
  - destruct (match last steps with Some s => final_step s | None => false end) eqn:El; [done|].
    destruct (slashes_split (String "/" r)) as (q & Eq & ->); [by eexists|]. destruct (split_step q) as [a b] eqn:Es. apply split_step_iff in Es as (-> & Ha & Hb).
    destruct (xpath_step path _ _ a) as [s|] eqn:Ex; [|done]. cbn [result_bind]. apply xpath_step_iff in Ex as (w & Hw & -> & Hd & -> & Hfirst); [|done].
    intros Hp. apply IH in Hp as (ws & -> & Hws & Hm & ->); [| |done].
    + exists (w :: ws). rewrite write_path_cons. unfold write_step. rewrite Hd. rewrite Eq at 1. rewrite str_app_assoc. split; [done|]. split; [by constructor|].
      split; [|by rewrite <- app_assoc]. apply may_follow_cons. split; [|done]. destruct steps as [|s l]; [by apply Hfirst|].
      by destruct (last (s :: l)) eqn:E; [|apply last_None in E].
    + rewrite Eq, !str_length_app in Hlen. destruct (starts_with _ _); cbn in Hlen; lia.
  - intros (ws & E & Hw & Hm & ->). destruct ws as [|w ws]; [done|]. apply list.Forall_cons in Hw as [Hw Hws]. apply may_follow_cons in Hm as [Hl Hm].
    rewrite write_path_cons in E. assert (El : match last steps with Some s => final_step s | None => false end = false) by (by destruct (last steps)).
    rewrite El, E. destruct (slashes_of w (write_path ws) Hw) as [E1 E2]. rewrite E1, E2. destruct (write_body_head w Hw) as (c & q & Eb & Hf). rewrite <- Eb in Hf.
    rewrite (proj2 (split_step_iff _ (write_body w) (write_path ws))) by (split; [done|]; split; [done|]; apply write_path_head).
    rewrite (proj2 (xpath_step_iff path _ _ _ (denotes w) Hf)).
    + cbn [result_bind]. apply IH; [|apply write_path_head|].
      * rewrite E, str_length_app in Hlen. unfold write_step in Hlen. rewrite str_length_app in Hlen. destruct (after_slashes w); cbn in Hlen; lia.
      * exists ws. split; [done|]. split; [done|]. split; [done|]. by rewrite <- app_assoc.
    + exists w. split; [done|]. split; [done|]. split; [done|]. split; [done|]. by destruct steps.
Qed.

(** C23: the grammar of paths is exactly the documented subset: a text parses
    if and only if, trimmed, it is a sequence of steps after [/] or [//], each
    an element name or [*] with a position from 1 between brackets or none, or
    at the end [@name] or [text()] (as the only step only after [//]); the
    result is what these steps denote, prefixes dropped, and anything else is
    an error. *)
Theorem xpath_grammar path steps : parse_xpath path = Ok steps <-> exists ws, trim path = write_path ws /\ path_ok ws /\ steps = map denotes ws.
Proof.
  unfold parse_xpath. destruct (starts_with (trim path) "/") eqn:Es; cbn [negb].
  - unfold starts_with in Es. destruct (str_strip_prefix "/" (trim path)) as [r|] eqn:E; [|done]. apply str_strip_prefix_Some in E.
    rewrite parse_steps_iff by first [lia|right; by exists r]. split; intros (ws & Ht & H).
    + destruct H as (Hw & [Hm Hl] & ->). exists ws. split; [done|]. split; [|done]. split; [done| |done]. destruct ws; [|done]. by rewrite E in Ht.
    + destruct H as ([Hw Hm Hl] & ->). exists ws. split; [done|]. split; [done|]. split; [|done]. split; [|done]. by destruct ws.
  - split; [done|]. intros (ws & E & [_ Hw _] & _). exfalso. destruct ws as [|w ws]; [done|]. rewrite write_path_cons in E. rewrite E in Es.
    unfold write_step in Es. by destruct (after_slashes w).
Qed.
End Written.

(** * Document order *)

Lemma pos_le_refl p : pos_le p p.
Proof. unfold pos_le. induction p as [|i p IH]; cbn [pos_leb app]; [done|]. by rewrite Nat.eqb_refl, IH, orb_true_r. Qed.

Lemma pos_le_cons i j p q : pos_le (i :: p) (j :: q) <-> i < j \/ (i = j /\ pos_le p q).
Proof. unfold pos_le. cbn [pos_leb]. rewrite orb_true_iff, andb_true_iff, Nat.ltb_lt, Nat.eqb_eq. done. Qed.

Lemma pos_le_trans p q r : pos_le p q -> pos_le q r -> pos_le p r.
Proof.
  revert q r. induction p as [|i p IH]; intros [|j q] [|k r]; try done. rewrite !pos_le_cons.
  intros [?|[-> H1]] [?|[-> H2]]; try (left; lia). right. split; [done|by eapply IH].
Qed.

Lemma pos_le_antisym p q : pos_le p q -> pos_le q p -> p = q.
Proof.
  revert q. induction p as [|i p IH]; intros [|j q]; try done. rewrite !pos_le_cons.
  intros [?|[-> H1]] [?|[? H2]]; try lia. f_equal. by apply IH.
Qed.

#[export] Instance pos_le_total : Total pos_le.
Proof.
  intros p. induction p as [|i p IH]; intros [|j q]; [by left|by left|by right|]. rewrite !pos_le_cons.
  destruct (lt_eq_lt_dec i j) as [[?|<-]|?]; [by left; left| |by right; left]. destruct (IH q) as [H|H]; [left|right]; by right.
Qed.

Lemma pos_lt_cons i j p q : pos_lt (i :: p) (j :: q) <-> i < j \/ (i = j /\ pos_lt p q).
Proof.
  unfold pos_lt. rewrite pos_le_cons. split.
  - intros [[?|[-> H]] Hne]; [by left|]. right. split; [done|]. split; [done|]. intros ->. by apply Hne.
  - intros [?|[-> [H Hne]]]; [split; [by left|intros [= ? _]; lia]|]. split; [by right|]. by intros [= ->].
Qed.

Lemma pos_lt_le_trans p q r : pos_lt p q -> pos_le q r -> pos_lt p r.
Proof. intros [H1 Hne] H2. split; [by eapply pos_le_trans|]. intros ->. apply Hne. by apply pos_le_antisym. Qed.

Lemma pos_lt_trans p q r : pos_lt p q -> pos_lt q r -> pos_lt p r.
Proof. intros H1 [H2 _]. by eapply pos_lt_le_trans. Qed.

Lemma pos_le_under p r : pos_le p (p ++ r).
Proof. unfold pos_le. induction p as [|i p IH]; cbn [pos_leb app]; [done|]. by rewrite Nat.eqb_refl, IH, orb_true_r. Qed.

Lemma pos_lt_app p q r : pos_lt q r -> pos_lt (p ++ q) (p ++ r).
Proof. intros H. induction p as [|i p IH]; [done|]. cbn [app]. apply pos_lt_cons. by right. Qed.

(** A later node is below the earlier one, or after all that is below it. *)
Lemma pos_lt_apart p q : pos_lt p q -> (exists r, q = p ++ r) \/ forall r, pos_lt (p ++ r) q.
Proof.
  revert q. induction p as [|i p IH]; intros q Hlt; [left; by exists q|]. destruct q as [|j q]; [by destruct Hlt as [? _]|].
  apply pos_lt_cons in Hlt as [Hlt|[-> Hlt]].
  - right. intros r. apply pos_lt_cons. by left.
  - destruct (IH q Hlt) as [[r ->]|H]; [left; by exists r|]. right. intros r. cbn [app]. apply pos_lt_cons. by right.
Qed.

Abbreviation ordered := (StronglySorted pos_lt).

Lemma in_order_app a b : ordered a -> ordered b -> (forall p q, p ∈ a -> q ∈ b -> pos_lt p q) -> ordered (a ++ b).
Proof.
  induction 1 as [|x a Ha IH Hx]; intros Hb Hab; [done|]. cbn [app]. constructor.
  - apply IH; [done|]. intros p q Hp. apply Hab. by right.
  - apply list.Forall_app. split; [done|]. apply list.Forall_forall. intros q Hq. apply Hab; [by left|done].
Qed.

Lemma ordered_NoDup l : ordered l -> NoDup l.
Proof.
  induction 1 as [|x l Hl IH Hx]; constructor; [|done]. intros Hin. rewrite list.Forall_forall in Hx. by destruct (Hx _ Hin) as [_ Hne].
Qed.

Lemma sorted_ordered l : Sorted pos_le l -> NoDup l -> ordered l.
Proof.
  intros Hs. apply Sorted_StronglySorted in Hs; [|intros p q r; apply pos_le_trans]. induction Hs as [|x l Hl IH Hx]; [constructor|].
  intros [Hn Hnd]%NoDup_cons. constructor; [by apply IH|]. rewrite list.Forall_forall in *. intros q Hq. split; [by apply Hx|]. by intros ->.
Qed.

Lemma ordered_first p l : ordered (p :: l) -> forall q, q ∈ p :: l -> pos_le p q.
Proof.
  intros Ho q [->|Hq]%elem_of_cons; [apply pos_le_refl|]. inversion Ho as [|? ? _ Hx]; subst. rewrite list.Forall_forall in Hx. by apply Hx.
Qed.

(** * Nodes below a node *)

Lemma subtree_app t p q : subtree t (p ++ q) = t' ← subtree t p; subtree t' q.
Proof. revert t. induction p as [|i p IH]; intros t; cbn; [done|]. destruct (kids_of t !! i) as [c|]; cbn; [apply IH|done]. Qed.

Lemma XTree_nested (P : XTree -> Prop) : (forall k cs, Forall P cs -> P (XT k cs)) -> forall t, P t.
Proof.
  intros H. fix IH 1. intros [k cs]. apply H. induction cs as [|c cs IHc]; constructor; [apply IH|exact IHc].
Qed.

(** The nodes of the children from the [i]-th. *)
Fixpoint forest (p : XPos) (i : nat) (cs : list XTree) : list XPos :=
  match cs with [] => [] | c :: cs' => preorder c (p ++ [i]) ++ forest p (S i) cs' end.

Lemma preorder_eq k cs p : preorder (XT k cs) p = p :: forest p 0 cs.
Proof. cbn [preorder]. f_equal. generalize 0. induction cs as [|c cs IH]; intros i; [done|]. cbn [forest]. by rewrite <- IH. Qed.

Lemma preorder_spec t : forall p, ordered (preorder t p) /\ forall q, q ∈ preorder t p <-> exists r, q = p ++ r /\ is_Some (subtree t r).
Proof.
  induction t as [k cs IH] using XTree_nested. intros p. rewrite preorder_eq.
  assert (Hf : forall i, ordered (forest p i cs) /\ forall q, q ∈ forest p i cs <-> exists j c r, cs !! j = Some c /\ q = p ++ (i + j) :: r /\ is_Some (subtree c r)).
  { induction IH as [|c cs Hc _ IHc]; intros i; cbn [forest].
    { split; [constructor|]. intros q. split; [intros Hq; by apply not_elem_of_nil in Hq|]. by intros (j & c & r & Hj & _). }
    destruct (Hc (p ++ [i])) as [O1 M1], (IHc (S i)) as [O2 M2]. split.
    - apply in_order_app; [done..|]. intros a b Ha Hb. apply M1 in Ha as (r & -> & _). apply M2 in Hb as (j & c' & r' & _ & -> & _).
      rewrite <- app_assoc. apply pos_lt_app. cbn [app]. apply pos_lt_cons. left. lia.
    - intros q. rewrite elem_of_app, M1, M2. split.
      + intros [(r & -> & Hr)|(j & c' & r & Hj & -> & Hr)].
        * exists 0, c, r. rewrite <- app_assoc. cbn [app]. rewrite Nat.add_0_r. by split.
        * exists (S j), c', r. split; [done|]. split; [do 2 f_equal; lia|done].
      + intros ([|j] & c' & r & Hj & -> & Hr).
        * left. injection Hj as <-. exists r. rewrite <- app_assoc. cbn [app]. by rewrite Nat.add_0_r.
        * right. exists j, c', r. split; [done|]. split; [do 2 f_equal; lia|done]. }
  destruct (Hf 0) as [O M]. split.
  - constructor; [done|]. apply list.Forall_forall. intros q Hq. apply M in Hq as (j & c & r & _ & -> & _).
    split; [apply pos_le_under|]. intros E. apply (f_equal (@List.length nat)) in E. rewrite length_app in E. cbn in E. lia.
  - intros q. rewrite elem_of_cons, M. split.
    + intros [->|(j & c & r & Hj & -> & Hr)]; [exists []; rewrite app_nil_r; split; [done|by eexists]|]. exists (j :: r). split; [done|]. cbn. by rewrite Hj.
    + intros ([|j r] & -> & Hr); [left; by rewrite app_nil_r|]. right. cbn in Hr. destruct (cs !! j) as [c|] eqn:E; [|by destruct Hr].
      by exists j, c, r.
Qed.

Section Facts.
Variable doc : XTree.

Definition is_node (p : XPos) : Prop := is_Some (subtree doc p).

Lemma descendants_spec p : ordered (descendants doc p) /\ forall q, q ∈ descendants doc p <-> is_node p /\ exists r, q = p ++ r /\ is_node q.
Proof.
  unfold descendants, is_node. destruct (subtree doc p) as [t|] eqn:E.
  - destruct (preorder_spec t p) as [O M]. split; [done|]. intros q. rewrite M. split.
    + intros (r & -> & Hr). split; [by eexists|]. exists r. split; [done|]. by rewrite subtree_app, E.
    + intros (_ & r & -> & Hr). exists r. split; [done|]. by rewrite subtree_app, E in Hr.
  - split; [constructor|]. intros q. split; [intros Hq; by apply not_elem_of_nil in Hq|]. intros [[? ?] _]. done.
Qed.

Lemma children_spec p : NoDup (children doc p) /\ forall q, q ∈ children doc p <-> exists i, q = p ++ [i] /\ is_node q.
Proof.
  unfold children, is_node. destruct (subtree doc p) as [t|] eqn:E.
  - split.
    + apply (NoDup_fmap_2_strong (fun i => p ++ [i])); [|apply NoDup_ListNoDup, seq_NoDup]. intros i j _ _ H. by apply app_inj_2 in H as [_ [= ->]].
    + intros q. change (map (fun i => p ++ [i])) with (fmap (M := list) (fun i => p ++ [i])). rewrite list_elem_of_fmap. split.
      * intros (i & -> & Hi). exists i. split; [done|]. rewrite subtree_app, E. cbn. apply list_elem_of_In, in_seq in Hi.
        destruct (lookup_lt_is_Some_2 (kids_of t) i) as [c Hc]; [change (length (kids_of t)) with (List.length (kids_of t)); lia|]. rewrite Hc. by eexists.
      * intros (i & -> & Hi). exists i. split; [done|]. rewrite subtree_app, E in Hi. cbn in Hi. apply list_elem_of_In, in_seq.
        destruct (kids_of t !! i) as [c|] eqn:Ec; [|by destruct Hi]. apply lookup_lt_Some in Ec. change (length (kids_of t)) with (List.length (kids_of t)) in Ec. lia.
  - split; [constructor|]. intros q. split; [intros Hq; by apply not_elem_of_nil in Hq|]. intros (i & -> & [? H]). by rewrite subtree_app, E in H.
Qed.

(** * The axis *)

Lemma on_axis_ext d (c1 c2 : XPos -> Prop) : (forall q, c1 q <-> c2 q) -> forall q, on_axis doc d c1 q <-> on_axis doc d c2 q.
Proof.
  intros H q. unfold on_axis. destruct d; [|done]. split; intros (p & r & Hp & ?); exists p, r; (split; [by apply H|done]).
Qed.

Lemma axis_loop_spec nodes : forall seen, ordered nodes -> Forall is_node nodes ->
  (forall p q, p ∈ seen -> q ∈ nodes -> q ∈ seen \/ pos_lt p q) -> (forall p r, p ∈ seen -> is_node (p ++ r) -> p ++ r ∈ seen) ->
  ordered (axis_loop doc seen nodes) /\ (forall p q, p ∈ seen -> q ∈ axis_loop doc seen nodes -> pos_lt p q) /\
  forall q, q ∈ seen \/ q ∈ axis_loop doc seen nodes <-> q ∈ seen \/ exists p r, p ∈ nodes /\ q = p ++ r /\ is_node q.
Proof.
  induction nodes as [|n nodes IH]; intros seen Ho Hn Hs Hc; cbn [axis_loop].
  { split; [constructor|]. split; [intros p q _ Hq; by apply not_elem_of_nil in Hq|]. intros q. split; (intros [H|H]; [by left|]).
    - by apply not_elem_of_nil in H.
    - destruct H as (p & _ & Hp & _). by apply not_elem_of_nil in Hp. }
  apply list.Forall_cons in Hn as [Hnode Hn]. pose proof (ordered_first n nodes Ho) as Hfirst. inversion Ho as [|? ? Ho' Hlater]; subst.
  rewrite list.Forall_forall in Hlater. destruct (decide (n ∈ seen)) as [Hin|Hin].
  - destruct (IH seen) as (R1 & R2 & R3); [done|done|intros p q Hp Hq; apply Hs; [done|by right]|done|].
    split; [done|]. split; [done|]. intros q. rewrite R3. split.
    + intros [H|(p & r & Hp & H)]; [by left|]. right. exists p, r. split; [by right|done].
    + intros [H|(p & r & [->|Hp]%elem_of_cons & E & H)]; [by left| |right; by exists p, r]. left. subst q. by apply Hc.
  - destruct (descendants_spec n) as [D1 D2].
    assert (Hpast : forall p q, p ∈ seen -> q ∈ descendants doc n -> pos_lt p q).
    { intros p q Hp Hq. apply D2 in Hq as (_ & r & -> & _). destruct (Hs p n Hp) as [?|Hlt]; [by left|done|]. eapply pos_lt_le_trans; [done|apply pos_le_under]. }
    destruct (IH (seen ++ descendants doc n)) as (R1 & R2 & R3); [done|done|..].
    + intros p q Hp Hq. specialize (Hlater q Hq). apply elem_of_app in Hp as [Hp|Hp].
      * destruct (Hs p q Hp) as [?|?]; [by right|left; apply elem_of_app; by left|by right].
      * apply D2 in Hp as (_ & r & -> & _). destruct (pos_lt_apart n q Hlater) as [[r' ->]|Hap]; [|by right].
        left. apply elem_of_app. right. apply D2. split; [done|]. exists r'. split; [done|]. by eapply (list.Forall_forall is_node nodes).
    + intros p r Hp Hr. apply elem_of_app in Hp as [Hp|Hp]; [apply elem_of_app; left; by apply Hc|].
      apply D2 in Hp as (_ & r' & -> & _). apply elem_of_app. right. apply D2. split; [done|]. exists (r' ++ r). by rewrite app_assoc.
    + split.
      { apply in_order_app; [done..|]. intros p q Hp Hq. apply R2; [|done]. apply elem_of_app. by right. }
      split.
      { intros p q Hp [Hq|Hq]%elem_of_app; [by apply Hpast|]. apply R2; [|done]. apply elem_of_app. by left. }
      intros q. rewrite elem_of_app. specialize (R3 q). rewrite elem_of_app in R3. transitivity ((q ∈ seen \/ q ∈ descendants doc n) \/ q ∈ axis_loop doc (seen ++ descendants doc n) nodes); [tauto|]. rewrite R3, D2. split.
      * intros [[H|(_ & r & E & H)]|(p & r & Hp & H)]; [by left|right; exists n, r; split; [by left|done]|right; exists p, r; split; [by right|done]].
      * intros [H|(p & r & [->|Hp]%elem_of_cons & E & H)]; [by left; left|left; right; split; [done|by exists r]|right; by exists p, r].
Qed.

(** A context: its nodes once, in document order. *)
Record context_ok (nodes : list XPos) : Prop := mkContextOk {
  context_ordered : ordered nodes;
  context_nodes : Forall is_node nodes
}.

Lemma axis_spec nodes d : context_ok nodes -> context_ok (xpath_axis doc nodes d) /\
  forall q, q ∈ xpath_axis doc nodes d <-> on_axis doc d (fun p => p ∈ nodes) q.
Proof.
  intros [Ho Hn]. unfold xpath_axis, on_axis. destruct d; [|by split].
  destruct (axis_loop_spec nodes [] Ho Hn) as (R1 & _ & R3); [intros p q Hp; by apply not_elem_of_nil in Hp..|].
  assert (Hm : forall q, q ∈ axis_loop doc [] nodes <-> exists p r, p ∈ nodes /\ q = p ++ r /\ is_node q).
  { intros q. specialize (R3 q). split.
    - intros Hq. destruct (proj1 R3) as [H|H]; [by right|by apply not_elem_of_nil in H|done].
    - intros Hq. destruct (proj2 R3) as [H|H]; [by right|by apply not_elem_of_nil in H|done]. }
  split; [|exact Hm]. split; [done|]. apply list.Forall_forall. intros q Hq. apply Hm in Hq as (? & ? & _ & _ & ?). done.
Qed.

(** * Element steps *)

Lemma matched_spec name position parent : NoDup (matched doc name position parent) /\
  (forall q, q ∈ matched doc name position parent <->
     let m := List.filter (element_named doc name) (children doc parent) in
     match position with Some i => m !! (i - 1) = Some q | None => q ∈ m end) /\
  forall q, q ∈ matched doc name position parent -> exists i, q = parent ++ [i] /\ is_node q.
Proof.
  destruct (children_spec parent) as [Hnd Hch]. set (m := List.filter (element_named doc name) (children doc parent)).
  assert (Hm : NoDup m) by (apply NoDup_ListNoDup, List.NoDup_filter; by apply NoDup_ListNoDup).
  assert (Hsub : forall q, q ∈ m -> exists i, q = parent ++ [i] /\ is_node q).
  { intros q Hq. apply Hch. apply list_elem_of_In in Hq. apply filter_In in Hq as [Hq _]. by apply list_elem_of_In. }
  unfold matched. fold m. destruct position as [i|]; [|by split].
  destruct (m !! (i - 1)) as [x|] eqn:E; [change (option_list (Some x)) with [x]|change (option_list (@None XPos)) with (@nil XPos)].
  - split; [apply NoDup_singleton|]. split.
    + intros q. rewrite list_elem_of_singleton. split; [by intros ->|by intros [= ->]].
    + intros q ->%list_elem_of_singleton. apply Hsub. by eapply list_elem_of_lookup_2.
  - split; [constructor|]. split; intros q; [split; [intros Hq; by apply not_elem_of_nil in Hq|done]|intros Hq; by apply not_elem_of_nil in Hq].
Qed.

Lemma concat_NoDup {A} (f : XPos -> list A) ps : NoDup ps -> (forall p, NoDup (f p)) -> (forall p q x, x ∈ f p -> x ∈ f q -> p = q) -> NoDup (concat (map f ps)).
Proof.
  intros Hp Hf Hd. induction Hp as [|p ps Hin _ IH]; cbn [map concat]; [constructor|]. apply NoDup_app. split; [done|]. split; [|done].
  intros x Hx Hx'. apply Hin. apply list_elem_of_In, in_concat in Hx' as (l & Hl & Hxl). apply in_map_iff in Hl as (q & <- & Hq).
  rewrite (Hd p q x Hx); [by apply list_elem_of_In|by apply list_elem_of_In].
Qed.

Lemma elements_spec nodes d name position : context_ok nodes -> context_ok (xpath_elements doc nodes d name position) /\
  forall q, q ∈ xpath_elements doc nodes d name position <-> step_selects doc d name position (fun p => p ∈ nodes) q.
Proof.
  intros Hc. destruct (axis_spec nodes d Hc) as [[Ho _] Ha]. unfold xpath_elements, step_selects.
  set (all := concat (map (matched doc name position) (xpath_axis doc nodes d))).
  assert (Hin : forall q, q ∈ all <-> exists parent, parent ∈ xpath_axis doc nodes d /\ q ∈ matched doc name position parent).
  { intros q. unfold all. rewrite list_elem_of_In, in_concat. split.
    - intros (l & Hl & Hq). apply in_map_iff in Hl as (p & <- & Hp). exists p. by rewrite !list_elem_of_In.
    - intros (p & Hp & Hq). exists (matched doc name position p). rewrite list_elem_of_In in Hp, Hq. split; [by apply in_map|done]. }
  assert (Hnd : NoDup all).
  { apply concat_NoDup; [by apply ordered_NoDup|intros p; apply matched_spec|]. intros p q x Hp Hq.
    apply matched_spec in Hp as (i & -> & _). apply matched_spec in Hq as (j & E & _). by apply app_inj_2 in E as [-> _]. }
  pose proof (merge_sort_Permutation pos_le all) as Hperm. split.
  - split; [apply sorted_ordered; [apply (Sorted_merge_sort pos_le)|by rewrite Hperm]|]. apply list.Forall_forall. intros q Hq.
    rewrite Hperm in Hq. apply Hin in Hq as (p & _ & Hq). apply matched_spec in Hq as (i & _ & ?). done.
  - intros q. rewrite Hperm, Hin. split; intros (p & Hp & Hq); exists p; (split; [by apply Ha|by apply matched_spec]).
Qed.

Lemma step_selects_ext d name position (c1 c2 : XPos -> Prop) : (forall q, c1 q <-> c2 q) ->
  forall q, step_selects doc d name position c1 q <-> step_selects doc d name position c2 q.
Proof. intros H q. split; intros (p & Hp & Hq); exists p; (split; [by apply (on_axis_ext d c1 c2 H)|done]). Qed.

Lemma selects_ext es : forall c1 c2 : XPos -> Prop, (forall q, c1 q <-> c2 q) -> forall q, selects doc es c1 q <-> selects doc es c2 q.
Proof.
  induction es as [|[[d name] position] es IH]; intros c1 c2 H q; [apply H|]. cbn [selects]. apply IH. by apply step_selects_ext.
Qed.

Lemma selects_none es (c : XPos -> Prop) : (forall q, ~ c q) -> forall q, ~ selects doc es c q.
Proof.
  revert c. induction es as [|[[d' n'] p'] es IH]; intros c H q; [apply H|]. cbn [selects]. apply IH. intros x (parent & Hp & _).
  unfold on_axis in Hp. destruct d'; [destruct Hp as (p & _ & Hp & _); by apply (H p)|by apply (H parent)].
Qed.

(** The nodes after some element steps, and the evaluation of the rest. *)
Definition element_step (e : bool * string * option nat) : XStep := let '(d, name, position) := e in XS_Element d name position.

Lemma eval_elements es rest : forall nodes, context_ok nodes -> nodes <> [] ->
  exists sel, context_ok sel /\ (forall q, q ∈ sel <-> selects doc es (fun p => p ∈ nodes) q) /\
    eval_steps doc (map element_step es ++ rest) nodes = if sel is [] then None else eval_steps doc rest sel.
Proof.
  induction es as [|[[d name] position] es IH]; intros nodes Hc Hne.
  { exists nodes. split; [done|]. split; [done|]. cbn [map app]. by destruct nodes. }
  cbn [map app element_step eval_steps selects]. destruct (elements_spec nodes d name position Hc) as [Hc' Hs].
  destruct (xpath_elements doc nodes d name position) as [|n ns] eqn:E.
  - exists []. split; [by constructor; constructor|]. split; [|done]. intros q. split; [intros Hq; by apply not_elem_of_nil in Hq|].
    intros Hq. exfalso. revert Hq. apply selects_none. intros x Hx. apply Hs in Hx. by apply not_elem_of_nil in Hx.
  - destruct (IH (n :: ns) Hc') as (sel & Hsel & Hq & He); [done|]. exists sel. split; [done|]. split; [|done].
    intros q. rewrite Hq. by apply selects_ext.
Qed.

Lemma find_map_ordered {B} (f : XPos -> option B) ps : ordered ps ->
  match find_map f ps with
  | Some y => exists p, first_with (fun q => q ∈ ps /\ is_Some (f q)) p /\ f p = Some y
  | None => forall q, q ∈ ps -> f q = None
  end.
Proof.
  induction 1 as [|p ps Ho IH Hp]; cbn [find_map]; [intros q Hq; by apply not_elem_of_nil in Hq|].
  rewrite list.Forall_forall in Hp. destruct (f p) as [y|] eqn:E.
  - exists p. split; [|done]. split; [split; [by left|by eexists]|]. intros q [[->|Hq]%elem_of_cons _]; [apply pos_le_refl|by apply Hp].
  - destruct (find_map f ps) as [y|].
    + destruct IH as (x & [[Hx Hfx] Hmin] & Hy). exists x. split; [|done]. split; [split; [by right|done]|].
      intros q [[->|Hq]%elem_of_cons [z Hz]]; [congruence|]. apply Hmin. split; [done|by eexists].
    + intros q [->|Hq]%elem_of_cons; [done|by apply IH].
Qed.

Lemma first_of_spec ps : match first_of ps with Some p => first_with (fun q => q ∈ ps) p | None => ps = [] end.
Proof.
  unfold first_of. assert (H : forall best, match foldl (fun best p => match best with Some b => if pos_leb b p then Some b else Some p | None => Some p end) best ps with
    | Some p => (best = Some p \/ p ∈ ps) /\ (forall b, best = Some b -> pos_le p b) /\ forall q, q ∈ ps -> pos_le p q
    | None => best = None /\ ps = []
    end).
  { induction ps as [|p ps IH]; intros best; cbn [foldl].
    - destruct best as [b|]; [|done]. split; [by left|]. split; [intros ? [= ->]; apply pos_le_refl|]. intros q Hq. by apply not_elem_of_nil in Hq.
    - set (best' := match best with Some b => if pos_leb b p then Some b else Some p | None => Some p end).
      assert (Hb : exists b', best' = Some b' /\ (best = Some b' \/ b' = p) /\ pos_le b' p /\ forall b, best = Some b -> pos_le b' b).
      { unfold best'. destruct best as [b|]; [destruct (pos_leb b p) eqn:E|].
        - exists b. split; [done|]. split; [by left|]. split; [done|]. intros ? [= ->]. apply pos_le_refl.
        - exists p. split; [done|]. split; [by right|]. split; [apply pos_le_refl|]. intros ? [= <-]. destruct (pos_le_total b p) as [H|H]; [by rewrite H in E|done].
        - exists p. split; [done|]. split; [by right|]. split; [apply pos_le_refl|done]. }
      destruct Hb as (b' & -> & Hb1 & Hb2 & Hb3). specialize (IH (Some b')). destruct (foldl _ (Some b') ps) as [x|]; [|by destruct IH].
      destruct IH as (I1 & I2 & I3). split.
      + destruct I1 as [[= <-]|I1]; [destruct Hb1 as [->| ->]; [by left|right; by left]|right; by right].
      + split; [intros b Hbest; eapply pos_le_trans; [by apply I2|by apply Hb3]|]. intros q [->|Hq]%elem_of_cons; [|by apply I3].
        eapply pos_le_trans; [by apply I2|done]. }
  specialize (H None). destruct (foldl _ None ps) as [p|]; [|by destruct H]. destruct H as ([?|Hp] & _ & Hmin); [done|]. by split.
Qed.

Lemma root_ok : context_ok [[]].
Proof. split; [repeat constructor|]. constructor; [by eexists|constructor]. Qed.

(** * Properties *)

(** C22: a path selects what its steps denote: on any document, the result of a
    path of element steps is the whole text of the first node, in document
    order, of those its steps denote (children of the context or, after [//],
    of any node below it, by local name and position among the matching
    children of one parent), and there is none exactly when no node is
    denoted; the same for a last [text()] or attribute step. *)
Theorem xpath_selects es final : let sel := selects doc es (eq []) in
  match final with
  | None =>
      match eval_xpath doc (map element_step es) with
      | Some text => exists p, first_with sel p /\ text = full_text doc p
      | None => forall p, ~ sel p
      end
  | Some (inl d) =>
      let texts p := is_text doc p = true /\ exists parent, on_axis doc d sel parent /\ p ∈ children doc parent in
      match eval_xpath doc (map element_step es ++ [XS_Text d]) with
      | Some text => exists p, first_with texts p /\ node_text doc p = Some text
      | None => forall p, ~ texts p
      end
  | Some (inr (d, name)) =>
      let owners p := on_axis doc d sel p /\ is_Some (attribute doc name p) in
      match eval_xpath doc (map element_step es ++ [XS_Attribute d name]) with
      | Some value => exists p, first_with owners p /\ attribute doc name p = Some value
      | None => forall p, ~ owners p
      end
  end.
Proof.
  cbv zeta. set (rest := match final with None => [] | Some (inl d) => [XS_Text d] | Some (inr (d, name)) => [XS_Attribute d name] end).
  destruct (eval_elements es rest [[]] root_ok) as (sel & Hc & Hm & He); [done|].
  assert (Hsel : forall q, q ∈ sel <-> selects doc es (eq []) q).
  { intros q. rewrite Hm. apply selects_ext. intros p. rewrite list_elem_of_singleton. by split. }
  fold (eval_xpath doc (map element_step es ++ rest)) in He. destruct final as [[d|[d name]]|]; subst rest.
  - destruct (axis_spec sel d Hc) as [_ Ha]. pose proof (on_axis_ext d _ _ Hsel) as Hax. unfold eval_xpath in He |- *. rewrite He. clear He.
    assert (Ht : forall p, p ∈ List.filter (is_text doc) (concat (map (children doc) (xpath_axis doc sel d))) <->
      is_text doc p = true /\ exists parent, on_axis doc d (selects doc es (eq [])) parent /\ p ∈ children doc parent).
    { intros p. rewrite list_elem_of_In, filter_In, in_concat, (and_comm _ (is_text doc p = true)). apply and_iff_compat_l. split.
      - intros (l & Hl & Hp). apply in_map_iff in Hl as (x & <- & Hx). exists x. rewrite <- Hax, <- Ha, !list_elem_of_In. done.
      - intros (x & Hx & Hp). apply Hax, Ha in Hx. exists (children doc x). rewrite <- !list_elem_of_In in *. split; [|done]. apply list_elem_of_In, in_map. by apply list_elem_of_In. }
    destruct sel as [|n ns].
    { intros p [_ (parent & Hp & _)]. apply Hax, Ha in Hp. unfold xpath_axis in Hp. destruct d; cbn in Hp; by apply not_elem_of_nil in Hp. }
    cbn [eval_steps]. pose proof (first_of_spec (List.filter (is_text doc) (concat (map (children doc) (xpath_axis doc (n :: ns) d))))) as Hf.
    destruct (first_of _) as [p|]; cbn [fmap option_fmap option_map].
    + destruct Hf as [Hp Hmin]. exists p. split; [split; [by apply Ht|]; intros q Hq; by apply Hmin, Ht|].
      apply Ht in Hp as [Hp _]. unfold is_text in Hp. unfold node_text. by destruct (node_kind doc p).
    + intros p Hp. apply Ht in Hp. rewrite Hf in Hp. by apply not_elem_of_nil in Hp.
  - destruct (axis_spec sel d Hc) as [[Ho _] Ha]. pose proof (on_axis_ext d _ _ Hsel) as Hax. unfold eval_xpath in He |- *. rewrite He. clear He.
    destruct sel as [|n ns].
    { intros p [Hp _]. apply Hax, Ha in Hp. unfold xpath_axis in Hp. destruct d; cbn in Hp; by apply not_elem_of_nil in Hp. }
    cbn [eval_steps]. pose proof (find_map_ordered (attribute doc name) _ Ho) as Hf. destruct (find_map _ _) as [v|].
    + destruct Hf as (p & [[Hp Hv] Hmin] & Ev). exists p. split; [|done]. split; [split; [by apply Hax, Ha|done]|].
      intros q [Hq Hqv]. apply Hmin. split; [by apply Ha, Hax|done].
    + intros p [Hp [v Hv]]. apply Hax, Ha in Hp. rewrite (Hf p Hp) in Hv. done.
  - rewrite app_nil_r in He. unfold eval_xpath in He |- *. rewrite He. clear He. destruct sel as [|n ns].
    + intros p Hp. apply Hsel in Hp. by apply not_elem_of_nil in Hp.
    + cbn [eval_steps head fmap option_fmap option_map]. exists n. split; [|done]. destruct Hc as [Ho _]. split; [apply Hsel; by left|].
      intros q Hq. apply Hsel in Hq. by apply (ordered_first n ns Ho).
Qed.
End Facts.

(** * Examples *)

#[local] Instance demo_unicode : Unicode := mkUnicode (fun _ => true) (fun _ => true).

Definition demo_element (name : string) (attributes : list (string * string)) (children : list XTree) : XTree := XT (XK_Element name attributes) children.

(** [<r id="r"><a id="a1"><a id="a2"><b id="b1"/>x</a><b id="b2"><b id="b3"/></b>y</a><b id="b4"/></r>]. *)
Definition demo_tree : XTree :=
  XT XK_Root [demo_element "r" [("id", "r")]
    [demo_element "a" [("id", "a1")]
       [demo_element "a" [("id", "a2")] [demo_element "b" [("id", "b1")] []; XT (XK_Text "x") []];
        demo_element "b" [("id", "b2")] [demo_element "b" [("id", "b3")] []];
        XT (XK_Text "y") []];
     demo_element "b" [("id", "b4")] []]].

Definition demo_ids (path : string) : result (list (option string)) string :=
  let? steps := parse_xpath path in
  Ok (map (attribute demo_tree "id") (foldl (fun nodes s => match s with XS_Element d name position => xpath_elements demo_tree nodes d name position | _ => nodes end) [[]] steps)).

Example demo_document_order :
  demo_ids "//a//b" = Ok [Some "b1"; Some "b2"; Some "b3"] /\ demo_ids "//a" = Ok [Some "a1"; Some "a2"] /\
  demo_ids "//b" = Ok [Some "b1"; Some "b2"; Some "b3"; Some "b4"] /\ demo_ids "/r/a//b[1]" = Ok [Some "b1"; Some "b2"; Some "b3"].
Proof. vm_compute. auto. Qed.

#[local] Instance demo_parser : XmlParser := fun _ _ => Ok demo_tree.

Example demo_xpath :
  xpath [60; 114; 47; 62]%Z " /r//p:a[ 1 ]/@id " = Ok (Some "a1") /\ xpath [60; 114; 47; 62]%Z "//a[2]" = Ok None /\ xpath [60; 114; 47; 62]%Z "/r/a" = Ok (Some "xy") /\
  xpath [] "//a//text()" = Ok (Some "x") /\ xpath [255]%Z "//a" = Err "body is not UTF-8".
Proof. vm_compute. auto. Qed.

Example demo_refused :
  parse_xpath "a" = Err "XPath must start with / or //" /\ parse_xpath "/a/@b/c" = Err "XPath: @attribute and text() must be the last step" /\
  parse_xpath "/@a" = Err "XPath step '/@a' must follow an element step" /\ parse_xpath "/a[0]" = Err "XPath positions start at 1; [0] never selects anything" /\
  parse_xpath "/a[last()]" = Err "XPath predicate '[last()]' is not supported; only a position such as [1] or [2] is" /\
  parse_xpath "/a:b:c" = Err "XPath step 'a:b:c' is not supported" /\ parse_xpath "/a/" = Err "XPath has an empty step in '/a/'" /\
  parse_xpath "/a[18446744073709551616]" = Err "XPath position [18446744073709551616] is too large".
Proof. vm_compute. repeat split. Qed.
