(* ===== verification/CookieJars.v ===== *)
(** The workspaces' cookie jars of an engine (crates/anvil-engine/src/lib.rs,
    [CookieJars], [scoped_cookie]) and the Cookie header of a request
    (crates/anvil-engine/src/http_exec.rs, [add_jar_cookies],
    [cookie_header_budget]). Parsing of a Set-Cookie value and of a URL (crates
    cookie_store and url), the public suffix list and the validity of a header
    value (crate http) are parameters. *)
From Stdlib Require Import ZArith Lia Ascii String.
From stdpp Require Import base numbers strings option list gmap.
From S2P Require Import Prelude Text Bytes Evidence Redaction Cookies Redactor.
Open Scope string_scope.
Open Scope list_scope.
Open Scope Z_scope.

(** What storing a response's cookies asks of the crates, next to what the jar
    asks ([CookieStore]): the domain of a cookie when its [Domain] attribute
    names one, whether it is the request's host, and the cookie as a host-only
    one. *)
Class CookieParsing (Cookie Url : Type) := {
  url_parse : string -> option Url;
  url_host_str : Url -> option string;
  url_path_str : Url -> string;
  cookie_parse : string -> Url -> option Cookie;
  suffix_domain : Cookie -> option string;
  host_is_identical : Cookie -> Url -> bool;
  as_host_only : Cookie -> Url -> option Cookie;
  psl_is_whole : string -> bool;
  header_value_ok : string -> bool;
}.

(** * Storing *)

(** The generations of an execution's caches, and of its engine. *)
Record CacheGenerations := mkCacheGenerations { cg_pool : Z; cg_tickets : Z }.
Record CacheFence := mkCacheFence { cf_tcp : CacheGenerations; cf_quic : CacheGenerations }.
Record SensitiveEpoch := mkSensitiveEpoch { se_epoch : Z; se_transport : CacheFence; se_channels : Z; se_jar : option Z }.
#[export] Instance CacheGenerations_eq_dec : EqDecision CacheGenerations.
Proof. solve_decision. Defined.
#[export] Instance CacheFence_eq_dec : EqDecision CacheFence.
Proof. solve_decision. Defined.
#[export] Instance SensitiveEpoch_eq_dec : EqDecision SensitiveEpoch.
Proof. solve_decision. Defined.

Record Jars (Cookie : Type) := mkJars {
  by_isolation : gmap string (BoundedJar Cookie);
  jar_generations : gmap string Z;
}.
Arguments mkJars {Cookie}.
Arguments by_isolation {Cookie}.
Arguments jar_generations {Cookie}.

Definition Jars_default {Cookie} : Jars Cookie := mkJars ∅ ∅.

(** [Jars::generation]. *)
Definition jars_generation {Cookie} (jars : Jars Cookie) (isolation : string) : Z := default 0 (jar_generations jars !! isolation).

(** [CookieJars::clear_isolation]. *)
Definition jars_clear_isolation {Cookie} (isolation : string) (jars : Jars Cookie) : Jars Cookie :=
  mkJars (delete isolation (by_isolation jars)) (<[isolation := add64 (jars_generation jars isolation) 1]> (jar_generations jars)).

(** [by_isolation.clear()] of [Engine::clear_sensitive_state]. *)
Definition jars_clear {Cookie} (jars : Jars Cookie) : Jars Cookie := mkJars ∅ (jar_generations jars).

(** [is_single_label_domain]. *)
Definition is_single_label_domain (domain : string) : bool := negb (str_contains (trim_end_matches "." domain) ".").

(** The name of a Set-Cookie value. *)
Definition set_cookie_name (v : string) : option string :=
  match split_on ";" v with
  | first :: _ => (fun nv => trim nv.1) <$> split_once "=" first
  | [] => None
  end.

Section Jars.
Context {Cookie Url Time : Type} `{CookieStore Cookie Url Time} `{!CookieParsing Cookie Url} `{Libraries}.

(** [is_public_suffix]. *)
Definition is_public_suffix (domain : string) : bool := psl_is_known domain && psl_is_whole domain.

(** Whether a [Domain] could scope a cookie too broadly. *)
Definition restricted (cookie : Cookie) : bool :=
  match suffix_domain cookie with
  | Some d => is_public_suffix d || is_single_label_domain d || negb (psl_is_known d)
  | None => false
  end.

(** [scoped_cookie]. *)
Definition scoped_cookie (set_cookie : string) (url : Url) : option Cookie :=
  if (MAX_SET_COOKIE_BYTES <? str_len set_cookie)
     || match url_host_str url with Some h => MAX_SET_COOKIE_BYTES <? str_len h | None => false end
     || (MAX_SET_COOKIE_BYTES <? str_len (url_path_str url))
  then None
  else
    cookie ← cookie_parse set_cookie url;
    if restricted cookie then if negb (host_is_identical cookie url) then None else as_host_only cookie url
    else Some cookie.

(** Whether the name of a Set-Cookie value contains a secret. *)
Definition secret_name (redactor : Redactor) (v : string) : bool :=
  match set_cookie_name v with
  | Some name => negb (String.eqb (text redactor name) name) || hides_secret redactor name
  | None => false
  end.

(** One Set-Cookie value, with the times its insert reads. *)
Definition store_one (redactor : Redactor) (url : Url) (acc : BoundedJar Cookie * bool) (v : string * (Time * Time)) : option (BoundedJar Cookie * bool) :=
  let '(jar, skipped) := acc in
  let '(value, (now, now')) := v in
  if MAX_SET_COOKIE_BYTES <? str_len value then Some (jar, skipped)
  else if secret_name redactor value then Some (jar, true)
  else match scoped_cookie value url with
  | None => Some (jar, skipped)
  | Some cookie => jar ← insert_cookie now now' cookie (str_len value) jar; Some (jar, skipped)
  end.

Fixpoint store_all (redactor : Redactor) (url : Url) (acc : BoundedJar Cookie * bool) (vs : list (string * (Time * Time))) : option (BoundedJar Cookie * bool) :=
  match vs with
  | [] => Some acc
  | v :: vs' => acc ← store_one redactor url acc v; store_all redactor url acc vs'
  end.

(** The check of [CookieJars::store], under the jars' lock, with the engine's
    epoch as loaded. *)
Definition store_admits (engine_epoch : Z) (epoch : SensitiveEpoch) (isolation : string) (jars : Jars Cookie) : bool :=
  (engine_epoch =? se_epoch epoch) && bool_decide (se_jar epoch = Some (jars_generation jars isolation)).

(** The rest of it: the jar of the isolation, made if there is none, takes the
    cookies; whether one was skipped for its name. *)
Definition store_into (isolation : string) (url : Url) (redactor : Redactor) (now : Time) (set_cookie : list (string * (Time * Time)))
  (jars : Jars Cookie) : option (bool * Jars Cookie) :=
  let jar := purge_expired now (default BoundedJar_default (by_isolation jars !! isolation)) in
  '(jar, skipped) ← store_all redactor url (jar, false) set_cookie;
  Some (skipped, mkJars (<[isolation := jar]> (by_isolation jars)) (jar_generations jars)).

(** [CookieJars::store] for the response to a request for [target]. *)
Definition store (engine_epoch : Z) (epoch : SensitiveEpoch) (isolation target : string) (redactor : Redactor) (now : Time)
  (set_cookie : list (string * (Time * Time))) (jars : Jars Cookie) : option (bool * Jars Cookie) :=
  match set_cookie with
  | [] => Some (false, jars)
  | _ =>
      match url_parse target with
      | None => Some (false, jars)
      | Some url =>
          if negb (store_admits engine_epoch epoch isolation jars) then Some (false, jars)
          else store_into isolation url redactor now set_cookie jars
      end
  end.

(** [CookieJars::header]. *)
Definition jars_header (now : Time) (isolation target : string) (jars : Jars Cookie) : option (option string * Jars Cookie) :=
  match url_parse target with
  | None => Some (None, jars)
  | Some url =>
      match by_isolation jars !! isolation with
      | None => Some (None, jars)
      | Some jar =>
          '(h, jar) ← jar_header now url jar;
          Some (h, mkJars (<[isolation := jar]> (by_isolation jars)) (jar_generations jars))
      end
  end.

(** * The request's Cookie header *)

Definition is_cookie_header (h : string * string) : bool := eq_ignore_ascii_case h.1 "cookie".

(** [cookie_name]: the name of one pair. *)
Definition pair_name (p : string) : string := trim (match split_once "=" p with Some (n, _) => n | None => p end).

(** [cookie_header_budget]: the headers kept, a note for each one dropped, and
    the bytes of the Cookie headers kept. *)
Definition budget_note : string := "a Cookie header exceeds the 8 KiB request cookie budget".

Fixpoint budget_loop (bytes : Z) (headers : list (string * string)) : list (string * string) * list string * Z :=
  match headers with
  | [] => ([], [], bytes)
  | h :: headers' =>
      if negb (is_cookie_header h) then
        let '(kept, notes, bytes) := budget_loop bytes headers' in (h :: kept, notes, bytes)
      else
        let added := str_len h.2 + (if bytes =? 0 then 0 else 2) in
        if MAX_COOKIE_HEADER_BYTES <? bytes + added then
          let '(kept, notes, bytes) := budget_loop bytes headers' in (kept, budget_note :: notes, bytes)
        else let '(kept, notes, bytes) := budget_loop (bytes + added) headers' in (h :: kept, notes, bytes)
  end.

Definition cookie_header_budget (headers : list (string * string)) : list (string * string) * list string * Z := budget_loop 0 headers.

(** The names of the cookies the request sends itself. *)
Definition sent_names (headers : list (string * string)) : list string :=
  filter (fun n => str_is_empty n = false)
    (map pair_name (concat (map (fun h => split_on ";" h.2) (filter (fun h => is_cookie_header h = true) headers)))).

Definition invalid_note (name : string) : string := "stored cookie '" +:+ name +:+ "' not sent: its value is not a valid header value".
Definition over_note : string := "a stored cookie exceeds the 8 KiB request cookie budget".

(** The loop over the stored pairs: the pairs added, the notes and the bytes. *)
Fixpoint add_pairs (sent : list string) (bytes : Z) (pairs : list string) : list string * list string * Z :=
  match pairs with
  | [] => ([], [], bytes)
  | p :: pairs' =>
      let name := pair_name p in
      if existsb (fun s => String.eqb s name) sent then add_pairs sent bytes pairs'
      else if negb (header_value_ok p) then
        let '(added, notes, bytes) := add_pairs sent bytes pairs' in (added, invalid_note name :: notes, bytes)
      else
        let size := str_len p + (if bytes =? 0 then 0 else 2) in
        if MAX_COOKIE_HEADER_BYTES <? bytes + size then
          let '(added, notes, bytes) := add_pairs sent bytes pairs' in (added, over_note :: notes, bytes)
        else let '(added, notes, bytes) := add_pairs sent (bytes + size) pairs' in (p :: added, notes, bytes)
  end.

(** The stored pairs of a jar's header. *)
Definition stored_pairs (stored : string) : list string :=
  filter (fun p => str_is_empty p = false) (map trim (split_on ";" stored)).

(** The pairs put into the first Cookie header, or into one of their own. *)
Fixpoint put_cookies (added : string) (headers : list (string * string)) : list (string * string) :=
  match headers with
  | [] => [("Cookie", added)]
  | h :: headers' =>
      if is_cookie_header h then
        (h.1, if str_is_empty (trim h.2) then added else h.2 +:+ "; " +:+ added) :: headers'
      else h :: put_cookies added headers'
  end.

(** [add_jar_cookies], with the jar's header for the request. *)
Definition add_jar_cookies (stored : option string) (headers : list (string * string)) : list (string * string) * list string :=
  let '(headers, notes, bytes) := cookie_header_budget headers in
  match stored with
  | None => (headers, notes)
  | Some stored =>
      let '(added, more, _) := add_pairs (sent_names headers) bytes (stored_pairs stored) in
      match added with
      | [] => (headers, notes ++ more)
      | _ => (put_cookies (join "; " added) headers, notes ++ more)
      end
  end.
End Jars.

(** * Where cookies come from *)

Section JarFacts.
Context {Cookie Url Time : Type} `{CookieStore Cookie Url Time} `{!CookieParsing Cookie Url} `{Libraries}.
Implicit Types (es : list (Entry Cookie)) (j : BoundedJar Cookie) (jars : Jars Cookie).

Definition jar_cookies j : list Cookie := map en_cookie (bj_entries j).

Lemma cookies_sublist es es' : sublist es' es -> map en_cookie es' ⊆ map en_cookie es.
Proof. intros Hs c Hc. eapply elem_of_sublist; [exact Hc|]. by apply (fmap_sublist en_cookie). Qed.

Lemma rebase_cookies es es' : rebase es = Some es' -> map en_cookie es' = map en_cookie es.
Proof.
  unfold rebase. generalize (stamps_of es). intros stamps Hm. apply mapM_Some in Hm.
  induction Hm as [|e e' l l' He _ IH]; [done|]. simpl. rewrite IH. f_equal.
  destruct (stamp_index (en_used e) stamps); [|discriminate He]. destruct (stamp_index (en_created e) stamps); [|discriminate He]. by injection He as <-.
Qed.

Lemma tick_cookies j used j' : tick j = Some (used, j') -> jar_cookies j' = jar_cookies j.
Proof.
  unfold tick, jar_cookies. destruct (bj_clock j =? U64_MAX).
  - destruct (rebase (bj_entries j)) as [es|] eqn:E; [|done]. cbn [mbind option_bind]. intros [= _ <-]. by apply rebase_cookies.
  - cbn [mbind option_bind]. by intros [= _ <-].
Qed.

Lemma evict_sublist site es es' : evict site es = Some es' -> sublist es' es.
Proof. intros E. pose proof (evict_spec site es) as He. rewrite E in He. by destruct He as (e & _ & Hs & _). Qed.

Lemma make_site_room_sublist fuel site bytes es es' : make_site_room fuel site bytes es = Some es' -> sublist es' es.
Proof.
  revert es. induction fuel as [|fuel IH]; intros es; cbn [make_site_room]; destruct (site_usage site es); case_match; try done; try (by intros [= <-]).
  destruct (evict site es) as [es1|] eqn:E; [|done]. cbn [mbind option_bind]. intros E'. etrans; [by apply IH|by apply (evict_sublist site)].
Qed.

Lemma make_jar_room_sublist fuel bytes es es' : make_jar_room fuel bytes es = Some es' -> sublist es' es.
Proof.
  revert es. induction fuel as [|fuel IH]; intros es; cbn [make_jar_room]; case_match; try done; try (by intros [= <-]).
  destruct (largest_site es) as [site|]; [|done]. cbn [mbind option_bind].
  destruct (evict site es) as [es1|] eqn:E; [|done]. cbn [mbind option_bind]. intros E'. etrans; [by apply IH|by apply (evict_sublist site)].
Qed.

(** An insert brings no cookie but its own. *)
Lemma insert_cookies now now' c wire j j' : insert_cookie now now' c wire j = Some j' -> jar_cookies j' ⊆ jar_cookies j ++ [c].
Proof.
  assert (Hp : jar_cookies (purge_expired now j) ⊆ jar_cookies j) by apply cookies_sublist, purge_sublist.
  unfold insert_cookie. destruct (ck_domain c) as [domain|]; [|intros [= <-]; set_solver]. case_match; [intros [= <-]; set_solver|].
  destruct (tick _) as [[used j1]|] eqn:Et; [|done]. apply tick_cookies in Et. cbn [mbind option_bind].
  set (es := match position_of c (bj_entries j1) with Some i => _ | None => _ end).
  assert (Hes : map en_cookie es ⊆ jar_cookies j).
  { rewrite <- Et in Hp. transitivity (jar_cookies j1); [|exact Hp]. unfold es. destruct (position_of c (bj_entries j1)); [|done].
    apply cookies_sublist, sublist_delete. }
  case_match; [intros [= <-]; unfold jar_cookies; simpl; set_solver|].
  destruct (make_site_room _ _ _ es) as [es1|] eqn:E1; [|done]. cbn [mbind option_bind].
  destruct (make_jar_room _ _ es1) as [es2|] eqn:E2; [|done]. cbn [mbind option_bind]. intros [= <-].
  apply make_site_room_sublist, cookies_sublist in E1. apply make_jar_room_sublist, cookies_sublist in E2.
  unfold jar_cookies in *. cbn [bj_entries]. rewrite map_app. set_solver.
Qed.

(** Sending brings no cookie. *)
Lemma header_cookies now url j h j' : jar_header now url j = Some (h, j') -> jar_cookies j' ⊆ jar_cookies j.
Proof.
  assert (Hp : jar_cookies (purge_expired now j) ⊆ jar_cookies j) by apply cookies_sublist, purge_sublist.
  unfold jar_header. case_match; [by intros [= <- <-]|]. destruct (tick _) as [[used j1]|] eqn:Et; [|done]. apply tick_cookies in Et.
  cbn [mbind option_bind]. intros [= <- <-]. rewrite <- Et in Hp. etrans; [|exact Hp]. unfold jar_cookies. cbn [bj_entries].
  pose proof (touch_content used (n :: l) (bj_entries j1)) as Ht. apply (f_equal (map (fun x => x.1.1))) in Ht. rewrite !map_map in Ht.
  unfold touched in Ht. change (map en_cookie ?es) with (map (fun x => (content x).1.1) es). by rewrite Ht.
Qed.

(** What [store_one] lets through. *)
Definition lets_through (redactor : Redactor) (url : Url) (v : string) (c : Cookie) : Prop :=
  str_len v <= MAX_SET_COOKIE_BYTES /\ secret_name redactor v = false /\ scoped_cookie v url = Some c.

Lemma store_all_cookies redactor url jar skipped vs jar' skipped' :
  store_all redactor url (jar, skipped) vs = Some (jar', skipped') ->
  forall c, c ∈ jar_cookies jar' -> c ∈ jar_cookies jar \/ exists v, v ∈ map fst vs /\ lets_through redactor url v c.
Proof.
  revert jar skipped. induction vs as [|[v [now now']] vs IH]; intros jar skipped; cbn [store_all]; [intros [= <- <-]; by left|].
  destruct (store_one redactor url (jar, skipped) (v, (now, now'))) as [[j1 s1]|] eqn:E; [|done]. cbn [mbind option_bind].
  intros Hs c Hc. destruct (IH _ _ Hs c Hc) as [Hj|(v' & Hv' & Hl)]; [|right; exists v'; split; [by apply elem_of_cons; right|done]].
  unfold store_one in E. destruct (Z.ltb_spec MAX_SET_COOKIE_BYTES (str_len v)); [injection E as <- <-; by left|].
  destruct (secret_name redactor v) eqn:Es; [injection E as <- <-; by left|].
  destruct (scoped_cookie v url) as [cookie|] eqn:Ec; [|injection E as <- <-; by left].
  destruct (insert_cookie now now' cookie (str_len v) jar) as [j2|] eqn:Ei; [|done]. cbn [mbind option_bind] in E. injection E as <- <-.
  apply insert_cookies in Ei. apply Ei in Hj. apply elem_of_app in Hj as [Hj|Hj%list_elem_of_singleton]; [by left|]. subst c.
  right. exists v. split; [apply elem_of_cons; by left|]. by split.
Qed.

(** Bounds of the jars. *)
Definition jars_inv jars : Prop := forall isolation jar, by_isolation jars !! isolation = Some jar -> jar_inv jar.

Lemma jar_inv_default : jar_inv BoundedJar_default.
Proof. split; [done|]. constructor; try constructor; done. Qed.

Lemma jar_inv_purge now j : jar_inv j -> jar_inv (purge_expired now j).
Proof. intros [Hc Hok]. split; [done|]. by apply (jar_ok_sublist _ (bj_entries j)); [apply purge_sublist|]. Qed.


Lemma store_one_inv redactor url jar skipped v : jar_inv jar -> 0 <= entry_size ->
  exists r, store_one redactor url (jar, skipped) v = Some r /\ jar_inv r.1.
Proof.
  intros Hj He. destruct v as [v [now now']]. unfold store_one. case_match; [by eexists|]. case_match; [by eexists|].
  destruct (scoped_cookie v url) as [c|]; [|by eexists].
  destruct (insert_inv now now' c (str_len v) jar Hj (str_len_nonneg v) He) as (j' & -> & Hj'). by eexists.
Qed.

Lemma store_all_inv redactor url jar skipped vs : jar_inv jar -> 0 <= entry_size ->
  exists r, store_all redactor url (jar, skipped) vs = Some r /\ jar_inv r.1.
Proof.
  intros Hj He. revert jar skipped Hj. induction vs as [|v vs IH]; intros jar skipped Hj; cbn [store_all]; [by eexists|].
  destruct (store_one_inv redactor url jar skipped v Hj He) as ([j1 s1] & -> & Hj1). cbn [mbind option_bind]. by apply IH.
Qed.

Lemma jar_or_default jars isolation : jars_inv jars -> jar_inv (default BoundedJar_default (by_isolation jars !! isolation)).
Proof. intros Hj. destruct (by_isolation jars !! isolation) as [j|] eqn:E; [by apply (Hj isolation)|apply jar_inv_default]. Qed.

(** Sending and clearing keep the bounds. *)
Lemma jars_header_inv now isolation target jars : jars_inv jars -> exists r, jars_header now isolation target jars = Some r /\ jars_inv r.2.
Proof.
  intros Hj. unfold jars_header. destruct (url_parse target) as [url|]; [|by eexists]. destruct (by_isolation jars !! isolation) as [jar|] eqn:E; [|by eexists].
  destruct (jar_header_spec now url jar (Hj _ _ E)) as (h & j' & sent & -> & Hj' & _). cbn [mbind option_bind]. eexists. split; [done|].
  intros i k Hk. cbn in Hk. apply lookup_insert_Some in Hk as [[<- <-]|[_ Hk]]; [done|by apply (Hj i)].
Qed.

Lemma jars_clear_isolation_inv isolation jars : jars_inv jars -> jars_inv (jars_clear_isolation isolation jars).
Proof. intros Hj i jar Hi. cbn in Hi. apply lookup_delete_Some in Hi as [_ Hi]. by apply (Hj i). Qed.

Lemma store_into_inv isolation url redactor now set_cookie jars : jars_inv jars -> 0 <= entry_size ->
  exists r, store_into isolation url redactor now set_cookie jars = Some r /\ jars_inv r.2.
Proof.
  intros Hj He. unfold store_into.
  destruct (store_all_inv redactor url (purge_expired now (default BoundedJar_default (by_isolation jars !! isolation))) false set_cookie) as ([j s] & -> & Hj');
    [by apply jar_inv_purge, jar_or_default|done|]. cbn [mbind option_bind]. eexists. split; [done|].
  intros i jar Hi. cbn in Hi. apply lookup_insert_Some in Hi as [[<- <-]|[_ Hi]]; [done|by apply (Hj i)].
Qed.

(** Storing a response's cookies never panics and keeps every jar within
    its bounds; it changes only the jar of its workspace, and no jar when the
    execution's epoch or its workspace's generation is not the current one. *)
Theorem store_total engine_epoch epoch isolation target redactor now set_cookie jars : jars_inv jars -> 0 <= entry_size ->
  exists skipped jars', store engine_epoch epoch isolation target redactor now set_cookie jars = Some (skipped, jars') /\
    jars_inv jars' /\ jar_generations jars' = jar_generations jars /\
    (forall other, other <> isolation -> by_isolation jars' !! other = by_isolation jars !! other) /\
    (store_admits engine_epoch epoch isolation jars = false -> jars' = jars /\ skipped = false).
Proof.
  intros Hj He. unfold store. destruct set_cookie as [|v vs]; [by eexists _, _|].
  destruct (url_parse target) as [url|]; [|by eexists _, _]. destruct (store_admits _ _ _ _); [|by eexists _, _]. cbn [negb].
  unfold store_into.
  destruct (store_all_inv redactor url (purge_expired now (default BoundedJar_default (by_isolation jars !! isolation))) false (v :: vs)) as ([j s] & -> & Hj');
    [by apply jar_inv_purge, jar_or_default|done|]. cbn [mbind option_bind].
  eexists s, _. split; [done|]. split; [|split; [done|split; [intros other Ho; by apply lookup_insert_ne|done]]].
  intros i jar Hi. cbn [by_isolation] in Hi. apply lookup_insert_Some in Hi as [[<- <-]|[_ Hi]]; [done|by apply (Hj i)].
Qed.

(** What the host-only form of a cookie is. *)
Class CookieParsingLaws : Prop := as_host_only_law : forall c url c', as_host_only c url = Some c' -> suffix_domain c' = None.

Lemma scoped_not_restricted `{!CookieParsingLaws} v url c : scoped_cookie v url = Some c -> restricted c = false.
Proof.
  unfold scoped_cookie. case_match; [done|]. destruct (cookie_parse v url) as [c0|]; [|done]. cbn [mbind option_bind].
  destruct (restricted c0) eqn:Er; [|by intros [= <-]]. destruct (host_is_identical c0 url); [|done]. cbn [negb].
  intros Hh. apply as_host_only_law in Hh. unfold restricted. by rewrite Hh.
Qed.

Lemma unrestricted c : restricted c = false -> forall d, suffix_domain c = Some d ->
  is_public_suffix d = false /\ is_single_label_domain d = false /\ psl_is_known d = true.
Proof.
  unfold restricted. intros Hr d Hd. rewrite Hd in Hr. apply orb_false_iff in Hr as [Hr Hk].
  apply orb_false_iff in Hr as [Hp Hs]. by apply negb_false_iff in Hk.
Qed.

(** [name] is the name of the Set-Cookie value [v]: before its first semicolon,
    before the first equals sign there, without the space around it. *)
Definition names_cookie (v name : string) : Prop := exists key value attrs,
  v = (key +:+ "=" +:+ value) +:+ attrs /\ (";"%char ∉ list_ascii_of_string (key +:+ "=" +:+ value)) /\ ("="%char ∉ list_ascii_of_string key) /\
  (attrs = "" \/ exists rest, attrs = String ";" rest) /\ name = trim key.

Lemma split_on_first c p attrs : c ∉ list_ascii_of_string p -> attrs = "" \/ (exists rest, attrs = String c rest) ->
  exists xs, split_on c (p +:+ attrs) = p :: xs.
Proof.
  intros Hc Ha. induction p as [|x p IH].
  - rewrite str_app_nil. destruct Ha as [->|[rest ->]]; [by exists []|]. cbn. rewrite Ascii.eqb_refl. by eexists.
  - cbn in Hc. apply not_elem_of_cons in Hc as [Hx Hp]. destruct (IH Hp) as [xs Hs]. exists xs. rewrite str_app_cons. cbn. rewrite Hs.
    by rewrite (proj2 (Ascii.eqb_neq x c)) by congruence.
Qed.

Lemma split_once_first c key value : c ∉ list_ascii_of_string key -> split_once (String c "") (key +:+ String c value) = Some (key, value).
Proof.
  induction key as [|x key IH]; intros Hc.
  - rewrite str_app_nil. cbn. by rewrite Ascii.eqb_refl.
  - cbn in Hc. apply not_elem_of_cons in Hc as [Hx Hp]. rewrite str_app_cons. cbn [split_once str_strip_prefix].
    rewrite (proj2 (Ascii.eqb_neq c x)) by done. by rewrite IH.
Qed.

Lemma names_cookie_name v name : names_cookie v name -> set_cookie_name v = Some name.
Proof.
  intros (key & value & attrs & -> & Hs & Hk & Ha & ->). unfold set_cookie_name. destruct (split_on_first ";" _ attrs Hs Ha) as [xs ->].
  change ("=" +:+ value) with (String "=" value). by rewrite split_once_first.
Qed.

(** Redaction changes nothing in [name], and no secret the redactor was given
    shows in it: no known form, but over a marker, and nothing behind escapes
    in any letter case. *)
Definition shows_no_secret (redactor : Redactor) (name : string) : Prop :=
  text redactor name = name /\
  forall given, built redactor given -> Forall is_text given ->
    hides_exact given name /\ ("%"%char ∈ list_ascii_of_string name \/ "+"%char ∈ list_ascii_of_string name -> unescaped_unread given name).

Lemma has_escapes_spec s : "%"%char ∈ list_ascii_of_string s \/ "+"%char ∈ list_ascii_of_string s -> has_escapes s = true.
Proof.
  unfold has_escapes. intros Hs. apply existsb_exists.
  destruct Hs as [Hs|Hs]; apply list_elem_of_In, (in_map byte_of_ascii) in Hs; (eexists; split; [exact Hs|done]).
Qed.

Lemma secret_name_shows `{!LibraryLaws} redactor v name : secret_name redactor v = false -> names_cookie v name -> shows_no_secret redactor name.
Proof.
  intros Hsec Hn. unfold secret_name in Hsec. rewrite (names_cookie_name v name Hn) in Hsec. apply orb_false_iff in Hsec as [S1 S2].
  apply negb_false_iff, String.eqb_eq in S1. split; [done|]. intros given Hb Hg. split.
  - rewrite <-S1. by apply text_hides_exact.
  - intros He. apply (hides_secret_unread redactor); [|done|by apply has_escapes_spec].
    intros x Hx Hl. apply (built_knows redactor given Hb). by split.
Qed.

(** A cookie as a Set-Cookie value of a response from [url] makes it: as the
    parser has it, or its host-only form. *)
Definition made_of (url : Url) (v : string) (c : Cookie) : Prop := exists parsed, cookie_parse v url = Some parsed /\
  (c = parsed \/ host_is_identical parsed url = true /\ as_host_only parsed url = Some c).

Lemma scoped_made_of v url c : scoped_cookie v url = Some c -> made_of url v c.
Proof.
  unfold scoped_cookie. case_match; [done|]. destruct (cookie_parse v url) as [c0|] eqn:E; [|done]. cbn [mbind option_bind].
  intros Hc. exists c0. split; [done|]. destruct (restricted c0); [|injection Hc as <-; by left].
  destruct (host_is_identical c0 url) eqn:Eh; [by right|done].
Qed.

(** No cookie reaches further than a registered domain. *)
Definition narrow_domain (d : string) : Prop := psl_is_known d = true /\ psl_is_whole d = false /\ str_contains (trim_end_matches "." d) "." = true.

Lemma unrestricted_narrow c : restricted c = false -> forall d, suffix_domain c = Some d -> narrow_domain d.
Proof.
  intros Hr d Hd. destruct (unrestricted c Hr d Hd) as (Hp & Hs & Hk). unfold is_public_suffix in Hp. rewrite Hk in Hp.
  unfold is_single_label_domain in Hs. apply negb_false_iff in Hs. done.
Qed.

(** C33: a cookie in a jar after a store was in it before, or is what the
    parser makes of a Set-Cookie value of the response, of at most 4096 bytes
    and whose name shows no secret the redactor was given; the response belongs
    to the workspace and to its current generation; and the cookie's domain is
    of a known suffix, is no public suffix and no single label, unless the
    cookie is for the request's own host alone. *)
Theorem store_scopes_cookies `{!CookieParsingLaws, !LibraryLaws} engine_epoch epoch isolation target redactor now set_cookie jars skipped jars' :
  store engine_epoch epoch isolation target redactor now set_cookie jars = Some (skipped, jars') ->
  forall other jar' c, by_isolation jars' !! other = Some jar' -> c ∈ jar_cookies jar' ->
  (exists jar, by_isolation jars !! other = Some jar /\ c ∈ jar_cookies jar) \/
  (other = isolation /\ engine_epoch = se_epoch epoch /\ se_jar epoch = Some (jars_generation jars isolation) /\
   (forall d, suffix_domain c = Some d -> narrow_domain d) /\
   exists v url, v ∈ map fst set_cookie /\ url_parse target = Some url /\ made_of url v c /\ str_len v <= 4096 /\
     forall name, names_cookie v name -> shows_no_secret redactor name).
Proof.
  unfold store. destruct set_cookie as [|v0 vs]; [intros [= <- <-] other jar' c Hj Hc; left; by exists jar'|].
  destruct (url_parse target) as [url|] eqn:Eu; [|intros [= <- <-] other jar' c Hj Hc; left; by exists jar'].
  destruct (store_admits _ _ _ _) eqn:Ea; cbn [negb]; [|intros [= <- <-] other jar' c Hj Hc; left; by exists jar'].
  unfold store_into. destruct (store_all _ _ _ _) as [[j s]|] eqn:Es; [|done]. cbn [mbind option_bind]. intros [= <- <-] other jar' c Hj Hc.
  cbn [by_isolation] in Hj. apply lookup_insert_Some in Hj as [[<- <-]|[_ Hj]]; [|left; by exists jar'].
  destruct (store_all_cookies _ _ _ _ _ _ _ Es c Hc) as [Hold|(v & Hv & Hlen & Hsec & Hscope)].
  - left. apply (cookies_sublist _ _ (purge_sublist _ _)) in Hold.
    destruct (by_isolation jars !! isolation) as [jar|]; [by exists jar|]. by apply elem_of_nil in Hold.
  - right. unfold store_admits in Ea. apply andb_true_iff in Ea as [E1 E2]. apply Z.eqb_eq in E1. apply bool_decide_eq_true_1 in E2.
    split; [done|]. split; [done|]. split; [done|]. split; [by eapply unrestricted_narrow, scoped_not_restricted|]. exists v, url.
    split; [done|]. split; [done|]. split; [by apply scoped_made_of|]. split; [done|]. intros name Hn. by apply (secret_name_shows redactor v).
Qed.
End JarFacts.

(** * The budget of the Cookie header *)

(** The bytes of some values joined, the empty ones apart. *)
Definition joined_size (vs : list string) : Z := str_len (join "; " (filter (fun v => str_is_empty v = false) vs)).

Definition cookie_values (headers : list (string * string)) : list string := map snd (filter (fun h => is_cookie_header h = true) headers).

(** Bytes after bytes, with a separator between them. *)
Definition after_bytes (b m : Z) : Z := if m =? 0 then b else if b =? 0 then m else b + 2 + m.

Lemma join_cons sep x y l : join sep (x :: y :: l) = x +:+ sep +:+ join sep (y :: l).
Proof. done. Qed.

Lemma str_is_empty_len v : str_is_empty v = false <-> 0 < str_len v.
Proof. unfold str_len. destruct v; simpl; split; intros; try lia; done. Qed.

Lemma join_size p l : Forall (fun v => 0 < str_len v) l -> str_len (join "; " (p :: l)) = after_bytes (str_len p) (str_len (join "; " l)) \/ str_len p = 0.
Proof.
  intros Hl. destruct (Z.eq_dec (str_len p) 0); [by right|left]. unfold after_bytes. destruct Hl as [|q l Hq Hl].
  - simpl. done.
  - rewrite join_cons, !str_len_app. change (str_len "; ") with 2. assert (Hpos : 0 < str_len (join "; " (q :: l))).
    { destruct l; [done|]. rewrite join_cons, !str_len_app. pose proof (str_len_nonneg (join "; " (s :: l))). change (str_len "; ") with 2. lia. }
    destruct (Z.eqb_spec (str_len (join "; " (q :: l))) 0); [lia|]. destruct (Z.eqb_spec (str_len p) 0); lia.
Qed.

(** Cases on the comparisons of a goal, innermost first. *)
Ltac split_eqb :=
  repeat match goal with |- context [?a =? ?b] =>
    lazymatch a with context [if _ then _ else _] => fail | _ => destruct (Z.eqb_spec a b) end end; try lia.

Lemma joined_size_cons v vs : joined_size (v :: vs) = if str_is_empty v then joined_size vs else after_bytes (str_len v) (joined_size vs).
Proof.
  unfold joined_size. destruct (str_is_empty v) eqn:E; [by rewrite filter_cons_False by (by rewrite E)|]. rewrite filter_cons_True by done. apply str_is_empty_len in E.
  destruct (join_size v (filter (fun v => str_is_empty v = false) vs)) as [->|]; [|done|lia].
  apply list.Forall_forall. intros x Hx. apply list_elem_of_filter in Hx as [Hx _]. by apply str_is_empty_len.
Qed.

Lemma joined_size_nonneg vs : 0 <= joined_size vs.
Proof. apply str_len_nonneg. Qed.

Lemma after_bytes_mono b b' m : 0 <= b <= b' -> 0 <= m -> after_bytes b m <= after_bytes b' m.
Proof. intros Hb Hm. unfold after_bytes. destruct (Z.eqb_spec m 0), (Z.eqb_spec b 0), (Z.eqb_spec b' 0); lia. Qed.

Lemma after_bytes_assoc b l m : 0 <= b -> 0 < l -> 0 <= m ->
  after_bytes b (after_bytes l m) = after_bytes (b + (l + (if b =? 0 then 0 else 2))) m.
Proof.
  intros Hb Hl Hm. unfold after_bytes.
  split_eqb.
Qed.

Lemma is_cookie_values h headers : cookie_values (h :: headers) = (if is_cookie_header h then [h.2] else []) ++ cookie_values headers.
Proof. unfold cookie_values. rewrite filter_cons. by destruct (is_cookie_header h). Qed.

(** The Cookie headers kept fit, the others are kept. *)
Lemma budget_loop_spec bytes headers : 0 <= bytes <= MAX_COOKIE_HEADER_BYTES ->
  let '(kept, notes, bytes') := budget_loop bytes headers in
  after_bytes bytes (joined_size (cookie_values kept)) <= bytes' <= MAX_COOKIE_HEADER_BYTES /\ bytes <= bytes' /\ sublist kept headers /\
  filter (fun h => is_cookie_header h = false) kept = filter (fun h => is_cookie_header h = false) headers /\
  (List.length headers = List.length kept + List.length notes)%nat.
Proof.
  revert bytes. induction headers as [|h headers IH]; intros bytes Hb; cbn [budget_loop].
  { unfold after_bytes. simpl. split; [lia|]. split; [lia|]. by repeat split. }
  destruct (is_cookie_header h) eqn:Eh; cbn [negb].
  - set (added := str_len h.2 + _). assert (Hadd : 0 <= added) by (unfold added; pose proof (str_len_nonneg h.2); case_match; lia).
    destruct (Z.ltb_spec MAX_COOKIE_HEADER_BYTES (bytes + added)) as [Hover|Hfit].
    + specialize (IH bytes Hb). destruct (budget_loop bytes headers) as [[kept notes] b']. destruct IH as (I1 & I2 & I3 & I4 & I5).
      split; [done|]. split; [done|]. split; [by constructor|]. split; [rewrite filter_cons_False by (by rewrite Eh); exact I4|]. simpl. lia.
    + specialize (IH (bytes + added) ltac:(lia)). destruct (budget_loop (bytes + added) headers) as [[kept notes] b'].
      destruct IH as (I1 & I2 & I3 & I4 & I5). split; [|split; [lia|split; [by constructor|split; [rewrite !filter_cons_False by (by rewrite Eh); exact I4|simpl; lia]]]].
      split; [|lia]. rewrite is_cookie_values, Eh. cbn [app]. rewrite joined_size_cons. pose proof (joined_size_nonneg (cookie_values kept)) as Hm.
      etrans; [|apply I1]. destruct (str_is_empty h.2) eqn:Ee.
      * apply after_bytes_mono; lia.
      * apply str_is_empty_len in Ee. rewrite after_bytes_assoc by lia. done.
  - specialize (IH bytes Hb). destruct (budget_loop bytes headers) as [[kept notes] b']. destruct IH as (I1 & I2 & I3 & I4 & I5).
    rewrite is_cookie_values, Eh. cbn [app]. split; [done|]. split; [done|]. split; [by constructor|].
    split; [rewrite !filter_cons_True by done; by rewrite I4|]. simpl. lia.
Qed.

Section Budget.
Context {Cookie Url : Type} `{!CookieParsing Cookie Url}.

Lemma add_pairs_spec sent bytes pairs : 0 <= bytes <= MAX_COOKIE_HEADER_BYTES -> Forall (fun p => str_is_empty p = false) pairs ->
  let '(added, notes, bytes') := add_pairs sent bytes pairs in
  after_bytes bytes (joined_size added) = bytes' /\ bytes' <= MAX_COOKIE_HEADER_BYTES /\ sublist added pairs /\
  Forall (fun p => header_value_ok p = true /\ pair_name p ∉ sent) added.
Proof.
  revert bytes. induction pairs as [|p pairs IH]; intros bytes Hb Hne; cbn [add_pairs].
  { unfold after_bytes. simpl. split; [done|]. split; [lia|]. by split. }
  inversion Hne as [|? ? Hp Hne']. subst. destruct (existsb _ sent) eqn:Es.
  { specialize (IH bytes Hb Hne'). destruct (add_pairs sent bytes pairs) as [[a n] b']. destruct IH as (I1 & I2 & I3 & I4).
    repeat (split; [done|]). split; [by constructor|done]. }
  destruct (header_value_ok p) eqn:Ev; cbn [negb].
  2:{ specialize (IH bytes Hb Hne'). destruct (add_pairs sent bytes pairs) as [[a n] b']. destruct IH as (I1 & I2 & I3 & I4).
      repeat (split; [done|]). split; [by constructor|done]. }
  destruct (Z.ltb_spec MAX_COOKIE_HEADER_BYTES (bytes + (str_len p + (if bytes =? 0 then 0 else 2)))) as [Hover|Hfit].
  { specialize (IH bytes Hb Hne'). destruct (add_pairs sent bytes pairs) as [[a n] b']. destruct IH as (I1 & I2 & I3 & I4).
    repeat (split; [done|]). split; [by constructor|done]. }
  pose proof (str_len_nonneg p). assert (Hp' : 0 < str_len p) by (by apply str_is_empty_len).
  specialize (IH (bytes + (str_len p + (if bytes =? 0 then 0 else 2))) ltac:(case_match; lia) Hne').
  destruct (add_pairs sent _ pairs) as [[a n] b']. destruct IH as (I1 & I2 & I3 & I4).
  split; [|split; [done|split; [by constructor|]]].
  - rewrite joined_size_cons, Hp. rewrite after_bytes_assoc; [exact I1|lia|lia|apply joined_size_nonneg].
  - constructor; [|done]. split; [done|]. intros Hin. apply not_true_iff_false in Es. apply Es. apply existsb_exists. exists (pair_name p).
    split; [by apply list_elem_of_In|]. apply String.eqb_refl.
Qed.
End Budget.

Lemma joined_size_all added : Forall (fun p => str_is_empty p = false) added -> joined_size added = str_len (join "; " added).
Proof. intros Hall. unfold joined_size. f_equal. f_equal. induction Hall as [|p l Hp _ IH]; [done|]. rewrite filter_cons_True by done. by rewrite IH. Qed.

(** Pairs that follow the values of the request fit as one more value. *)
Lemma put_cookies_size added headers : 0 < str_len added ->
  joined_size (cookie_values (put_cookies added headers)) <= after_bytes (joined_size (cookie_values headers)) (str_len added).
Proof.
  intros Ha. pose proof (proj2 (str_is_empty_len added) Ha) as Hae. induction headers as [|h headers IH]; cbn [put_cookies].
  - rewrite is_cookie_values. change (is_cookie_header ("Cookie", added)) with true. cbn [app snd].
    rewrite joined_size_cons, Hae. change (joined_size (cookie_values [])) with 0. unfold after_bytes. split_eqb.
  - destruct (is_cookie_header h) eqn:Eh.
    + rewrite !is_cookie_values. change (is_cookie_header (h.1, _)) with (is_cookie_header h). rewrite Eh. cbn [app snd].
      pose proof (joined_size_nonneg (cookie_values headers)) as Hm. rewrite !joined_size_cons. set (m := joined_size _) in *.
      destruct (str_is_empty (trim h.2)) eqn:Et.
      * rewrite Hae. destruct (str_is_empty h.2) eqn:Ee; unfold after_bytes;
          [|apply str_is_empty_len in Ee]; split_eqb.
      * destruct (str_is_empty h.2) eqn:Ee; [destruct h as [n v]; simpl in *; destruct v; [done|done]|].
        apply str_is_empty_len in Ee. rewrite (proj2 (str_is_empty_len (h.2 +:+ "; " +:+ added))).
        -- rewrite !str_len_app. change (str_len "; ") with 2. unfold after_bytes. split_eqb.
        -- rewrite !str_len_app. change (str_len "; ") with 2. lia.
    + rewrite !is_cookie_values, Eh. exact IH.
Qed.

Lemma put_cookies_others added headers :
  filter (fun h => is_cookie_header h = false) (put_cookies added headers) = filter (fun h => is_cookie_header h = false) headers.
Proof.
  induction headers as [|h headers IH]; cbn [put_cookies]; [by rewrite filter_cons_False|].
  destruct (is_cookie_header h) eqn:Eh.
  - rewrite !filter_cons_False; [done|by rewrite Eh|]. change (is_cookie_header (h.1, _)) with (is_cookie_header h). by rewrite Eh.
  - rewrite !filter_cons_True by done. by rewrite IH.
Qed.

Lemma stored_pairs_nonempty stored : Forall (fun p => str_is_empty p = false) (stored_pairs stored).
Proof. apply list.Forall_forall. intros p Hp. by apply list_elem_of_filter in Hp as [Hp _]. Qed.

(** The Cookie fields a request sends, its own and the jar's, are at most
    8 KiB joined; the other headers are untouched; of the jar's pairs, valid
    ones are added whole and in their order, and never one whose name the
    request sends itself; each header or pair that does not fit has a note. *)
Theorem request_cookies_bounded {Cookie Url : Type} `{!CookieParsing Cookie Url} stored headers :
  let '(kept, dropped, _) := cookie_header_budget headers in
  let '(headers', notes) := add_jar_cookies stored headers in
  joined_size (cookie_values headers') <= MAX_COOKIE_HEADER_BYTES /\
  filter (fun h => is_cookie_header h = false) headers' = filter (fun h => is_cookie_header h = false) headers /\
  sublist kept headers /\ (List.length headers = List.length kept + List.length dropped)%nat /\
  exists added, sublist added (match stored with Some s => stored_pairs s | None => [] end) /\
    Forall (fun p => header_value_ok p = true /\ pair_name p ∉ sent_names kept) added /\
    headers' = match added with [] => kept | _ => put_cookies (join "; " added) kept end.
Proof.
  pose proof (budget_loop_spec 0 headers ltac:(done)) as Hb. fold (cookie_header_budget headers) in Hb. unfold add_jar_cookies.
  destruct (cookie_header_budget headers) as [[kept dropped] bytes]. destruct Hb as (B1 & B2 & B3 & B4 & B5).
  assert (Hk : joined_size (cookie_values kept) <= bytes).
  { pose proof (joined_size_nonneg (cookie_values kept)). unfold after_bytes in B1. simpl in B1. destruct (Z.eqb_spec (joined_size (cookie_values kept)) 0); lia. }
  destruct stored as [stored|].
  2:{ split; [lia|]. split; [done|]. split; [done|]. split; [done|]. by exists []. }
  pose proof (add_pairs_spec (sent_names kept) bytes (stored_pairs stored) ltac:(lia) (stored_pairs_nonempty stored)) as Ha.
  destruct (add_pairs (sent_names kept) bytes (stored_pairs stored)) as [[added more] bytes']. destruct Ha as (A1 & A2 & A3 & A4).
  destruct added as [|p added].
  { split; [lia|]. split; [done|]. split; [done|]. split; [done|]. by exists []. }
  assert (Hne : Forall (fun p => str_is_empty p = false) (p :: added)).
  { pose proof (stored_pairs_nonempty stored) as Hs. apply list.Forall_forall. intros x Hx. rewrite list.Forall_forall in Hs. apply Hs. by eapply elem_of_sublist. }
  rewrite (joined_size_all _ Hne) in A1. assert (Hpos : 0 < str_len (join "; " (p :: added))).
  { inversion Hne as [|? ? Hp _]. subst. apply str_is_empty_len in Hp. destruct added as [|q l]; [done|].
    rewrite join_cons, !str_len_app. pose proof (str_len_nonneg (join "; " (q :: l))). change (str_len "; ") with 2. lia. }
  split.
  - etrans; [by apply put_cookies_size|]. pose proof (joined_size_nonneg (cookie_values kept)).
    etrans; [apply (after_bytes_mono _ bytes); lia|]. lia.
  - split; [by rewrite put_cookies_others|]. split; [done|]. split; [done|]. by exists (p :: added).
Qed.

(** * Witnesses *)

#[export] Instance demo_parsing : CookieParsing DemoCookie string := {|
  url_parse := fun s => Some s;
  url_host_str := fun u => Some u;
  url_path_str := fun _ => "/";
  cookie_parse := fun v u => '(first, rest) ← split_once ";" v; '(name, value) ← split_once "=" first;
    match split_once "=" rest with
    | Some (_, d) => Some (mkDemoCookie (Some d) "/" (trim name) value 100)
    | None => Some (mkDemoCookie (Some u) "/" (trim name) value 100)
    end;
  suffix_domain := fun c => match dc_domain c with Some d => if String.eqb (dc_path c) "/" then Some d else None | None => None end;
  host_is_identical := fun c u => bool_decide (dc_domain c = Some u);
  as_host_only := fun c u => Some (mkDemoCookie (Some u) "/." (dc_name c) (dc_value c) (dc_expires c));
  psl_is_whole := fun d => String.eqb d "test";
  header_value_ok := fun v => negb (str_contains v "!");
|}.

Lemma demo_parsing_laws : CookieParsingLaws (Cookie := DemoCookie) (Url := string).
Proof. intros c url c' [= <-]. done. Qed.

Definition demo_jars : Jars DemoCookie := mkJars {[ "ws" := demo_jar ]} {[ "ws" := 1 ]}.
Definition demo_epoch (jar : Z) : SensitiveEpoch := mkSensitiveEpoch 3 (mkCacheFence (mkCacheGenerations 0 0) (mkCacheGenerations 0 0)) 0 (Some jar).

Lemma demo_jars_inv : jars_inv demo_jars.
Proof. intros i jar Hi. unfold demo_jars in Hi. cbn [by_isolation] in Hi. apply lookup_singleton_Some in Hi as [_ <-]. apply demo_jar_inv. Qed.

(** The jar of a workspace cleared since the execution began. *)
Lemma store_total_witness :
  exists skipped jars', store (H0 := simple_libraries) 3 (demo_epoch 0) "ws" "www.ferrum.test" demo_redactor 1 [("sid=fresh;", (1, 2))] demo_jars =
    Some (skipped, jars') /\
    jars_inv jars' /\ jar_generations jars' = jar_generations demo_jars /\
    (forall other, other <> "ws" -> by_isolation jars' !! other = by_isolation demo_jars !! other) /\
    (store_admits 3 (demo_epoch 0) "ws" demo_jars = false -> jars' = demo_jars /\ skipped = false).
Proof.
  apply (store_total (H0 := simple_libraries) 3 (demo_epoch 0) "ws" "www.ferrum.test" demo_redactor 1 [("sid=fresh;", (1, 2))] demo_jars demo_jars_inv).
  done.
Defined.

Definition demo_set_cookies : list (string * (Z * Z)) := [("sid=fresh;", (1, 2)); ("wide=x; Domain=test", (1, 2)); ("x-toto=y;", (1, 2))].
Definition demo_stored : Jars DemoCookie :=
  default Jars_default (snd <$> store (H0 := simple_libraries) 3 (demo_epoch 1) "ws" "www.ferrum.test" demo_redactor 1 demo_set_cookies demo_jars).

(** Of three cookies one is stored: the others name a public suffix and a
    secret. *)
Lemma store_scopes_cookies_witness :
  map dc_value (from_option jar_cookies [] (by_isolation demo_stored !! "ws")) = ["b"; "fresh"] /\
  names_cookie "sid=fresh;" "sid" /\
  forall other jar' c, by_isolation demo_stored !! other = Some jar' -> c ∈ jar_cookies jar' ->
  (exists jar, by_isolation demo_jars !! other = Some jar /\ c ∈ jar_cookies jar) \/
  (other = "ws" /\ 3 = se_epoch (demo_epoch 1) /\ se_jar (demo_epoch 1) = Some (jars_generation demo_jars "ws") /\
   (forall d, suffix_domain c = Some d -> narrow_domain d) /\
   exists v url, v ∈ map fst demo_set_cookies /\ url_parse "www.ferrum.test" = Some url /\ made_of url v c /\ str_len v <= 4096 /\
     forall name, names_cookie v name -> @shows_no_secret simple_libraries demo_redactor name).
Proof.
  split; [by vm_compute|]. split; [exists "sid", "fresh", ";"; split; [done|]; split; [apply (bool_decide_unpack _); vm_compute; exact I|]; split; [apply (bool_decide_unpack _); vm_compute; exact I|]; split; [right; by exists ""|done]|].
  apply (store_scopes_cookies (H0 := simple_libraries) (H1 := demo_parsing_laws) (H2 := simple_libraries_laws) 3 (demo_epoch 1) "ws" "www.ferrum.test" demo_redactor 1 demo_set_cookies demo_jars true demo_stored).
  by vm_compute.
Defined.

Example demo_request_cookies :
  add_jar_cookies (Cookie := DemoCookie) (Url := string) (Some "sid=jar; tab=b; bad=!") [("Accept", "*/*"); ("cookie", "sid=mine")] =
  ([("Accept", "*/*"); ("cookie", "sid=mine; tab=b")], [invalid_note "bad"]).
Proof. by vm_compute. Qed.
