(* ===== verification/EngineState.v ===== *)
(** The sensitive state of an engine (crates/anvil-engine/src/lib.rs): the epoch
    a lock advances, the generation of a workspace its delete advances, the
    cookie jars and the prepared TLS configurations fenced by them, and the
    snapshot an execution starts with. The steps are those of the code between
    two acquisitions of a mutex or atomic accesses; any interleaving of them is
    a list of events. Preparing TLS material is a parameter, and clones of an
    [Arc] are its value. *)
From Stdlib Require Import ZArith Lia Ascii String.
From stdpp Require Import base numbers strings option list gmap.
From S2P Require Import Prelude Text Evidence Cookies Redactor CookieJars Fence.
Open Scope string_scope.
Open Scope list_scope.
Open Scope Z_scope.

(** The fenced caches of the transports and of gRPC. *)
Inductive CacheId := TcpPool | TcpTickets | QuicPool | QuicTickets | Channels.
#[export] Instance CacheId_eq_dec : EqDecision CacheId.
Proof. solve_decision. Defined.

Definition caches : Type := CacheId -> Generations.
Definition clear_cache (id : CacheId) (c : Clear) (cs : caches) : caches :=
  fun id' => if decide (id' = id) then apply_clear (cs id) c else cs id'.

(** The variant part of a TLS profile key, [rsplit_once('|')]. *)
Fixpoint rsplit_once_bar (s : string) : option (string * string) :=
  match s with
  | "" => None
  | String c s' =>
      match rsplit_once_bar s' with
      | Some (a, b) => Some (String c a, b)
      | None => if Ascii.eqb c "|" then Some ("", s') else None
      end
  end.

Section Engine.
Context {Cookie Url Time Tls : Type} `{CookieStore Cookie Url Time} `{!CookieParsing Cookie Url} `{Libraries}.

(** A response whose cookies are to be stored. *)
Record StoreRequest := mkStoreRequest {
  sr_epoch : SensitiveEpoch;
  sr_isolation : string;
  sr_target : string;
  sr_redactor : Redactor;
  sr_now : Time;
  sr_set_cookie : list (string * (Time * Time));
}.

(** Prepared TLS material to be cached. *)
Record TlsRequest := mkTlsRequest { tr_epoch : SensitiveEpoch; tr_isolation : string; tr_key : string; tr_prepared : Tls }.

(** The engine; [eg_storing] holds the jars' mutex for a store past its check,
    [eg_caching] the TLS cache's mutex for an insert, with whether the
    workspace's generation was compared. *)
Record Engine := mkEngine {
  eg_epoch : Z;
  eg_jars : Jars Cookie;
  eg_tls : gmap (string * string) Tls;
  eg_caches : caches;
  eg_storing : option StoreRequest;
  eg_caching : option (TlsRequest * bool);
}.

(** [Engine::new]. *)
Definition Engine_new : Engine := mkEngine 0 Jars_default ∅ (fun _ => Generations_default) None None.

Inductive EngineEvent :=
  (* [clear_sensitive_state] *)
  | LockEpoch
  | LockTls
  | LockJars
  (* [clear_isolation] *)
  | DeleteJar (isolation : string)
  | DeleteTls (isolation : string)
  (* both, on one of the transports' caches *)
  | ClearCache (id : CacheId) (c : Clear)
  (* [CookieJars::store] and [CookieJars::header] *)
  | StoreCheck (r : StoreRequest)
  | StoreInsert
  | SendCookies (now : Time) (isolation target : string)
  (* the insert of [prepared_tls] *)
  | TlsCheck (r : TlsRequest)
  | TlsGeneration
  | TlsInsert.

Definition set_epoch e s := mkEngine e (eg_jars s) (eg_tls s) (eg_caches s) (eg_storing s) (eg_caching s).
Definition set_jars jars s := mkEngine (eg_epoch s) jars (eg_tls s) (eg_caches s) (eg_storing s) (eg_caching s).
Definition set_tls tls s := mkEngine (eg_epoch s) (eg_jars s) tls (eg_caches s) (eg_storing s) (eg_caching s).
Definition set_caches cs s := mkEngine (eg_epoch s) (eg_jars s) (eg_tls s) cs (eg_storing s) (eg_caching s).
Definition set_storing r s := mkEngine (eg_epoch s) (eg_jars s) (eg_tls s) (eg_caches s) r (eg_caching s).
Definition set_caching r s := mkEngine (eg_epoch s) (eg_jars s) (eg_tls s) (eg_caches s) (eg_storing s) r.

(** What a mutex allows when nobody holds it. *)
Definition jars_free (s : Engine) (next : option Engine) : option Engine := match eg_storing s with None => next | Some _ => None end.
Definition tls_free (s : Engine) (next : option Engine) : option Engine := match eg_caching s with None => next | Some _ => None end.

(** [Engine::is_current]. *)
Definition is_current (s : Engine) (epoch : SensitiveEpoch) : bool := eg_epoch s =? se_epoch epoch.

(** [Engine::tls_cacheable]. *)
Definition tls_cacheable (s : Engine) (epoch : SensitiveEpoch) (isolation : string) : bool :=
  is_current s epoch && bool_decide (se_jar epoch = Some (jars_generation (eg_jars s) isolation)).

(** The entries [prepared_tls] drops for a key: those of its variant. *)
Definition drop_variant (isolation key : string) (tls : gmap (string * string) Tls) : gmap (string * string) Tls :=
  match rsplit_once_bar key with
  | Some (variant, _) =>
      let prefix := variant +:+ "|" in
      filter (fun kp => negb (String.eqb kp.1.1 isolation) || negb (starts_with kp.1.2 prefix) = true) tls
  | None => tls
  end.

(** The cache lookup of [prepared_tls]. *)
Definition tls_lookup (s : Engine) (epoch : SensitiveEpoch) (isolation key : string) : option Tls :=
  p ← eg_tls s !! (isolation, key); if tls_cacheable s epoch isolation then Some p else None.

(** One step; [None] is a step that has to wait, or a panic. *)
Definition engine_step (ev : EngineEvent) (s : Engine) : option Engine :=
  match ev with
  | LockEpoch => Some (set_epoch (add64 (eg_epoch s) 1) s)
  | LockTls => tls_free s (Some (set_tls ∅ s))
  | LockJars => jars_free s (Some (set_jars (jars_clear (eg_jars s)) s))
  | DeleteJar isolation => jars_free s (Some (set_jars (jars_clear_isolation isolation (eg_jars s)) s))
  | DeleteTls isolation => tls_free s (Some (set_tls (filter (fun kp => String.eqb kp.1.1 isolation = false) (eg_tls s)) s))
  | ClearCache id c => Some (set_caches (clear_cache id c (eg_caches s)) s)
  | StoreCheck r =>
      match sr_set_cookie r, url_parse (sr_target r) with
      | _ :: _, Some _ =>
          jars_free s (Some (if store_admits (eg_epoch s) (sr_epoch r) (sr_isolation r) (eg_jars s) then set_storing (Some r) s else s))
      | _, _ => Some s
      end
  | StoreInsert =>
      r ← eg_storing s; url ← url_parse (sr_target r);
      '(_, jars) ← store_into (sr_isolation r) url (sr_redactor r) (sr_now r) (sr_set_cookie r) (eg_jars s);
      Some (set_storing None (set_jars jars s))
  | SendCookies now isolation target =>
      jars_free s ('(_, jars) ← jars_header now isolation target (eg_jars s); Some (set_jars jars s))
  | TlsCheck r => tls_free s (Some (if is_current s (tr_epoch r) then set_caching (Some (r, false)) s else s))
  | TlsGeneration =>
      '(r, checked) ← eg_caching s;
      if (checked : bool) then None
      else jars_free s (Some (set_caching
        (if bool_decide (se_jar (tr_epoch r) = Some (jars_generation (eg_jars s) (tr_isolation r))) then Some (r, true) else None) s))
  | TlsInsert =>
      '(r, checked) ← eg_caching s;
      if (checked : bool) then
        Some (set_caching None (set_tls (<[(tr_isolation r, tr_key r) := tr_prepared r]> (drop_variant (tr_isolation r) (tr_key r) (eg_tls s))) s))
      else None
  end.

Fixpoint engine_run (evs : list EngineEvent) (s : Engine) : option Engine :=
  match evs with
  | [] => Some s
  | ev :: evs' => s' ← engine_step ev s; engine_run evs' s'
  end.

(** * The epoch of an execution *)

(** The generations of the transports' caches at one point. *)
Definition cache_fence (cs : caches) : CacheFence :=
  mkCacheFence (mkCacheGenerations (gen_current (cs TcpPool)) (gen_current (cs TcpTickets)))
    (mkCacheGenerations (gen_current (cs QuicPool)) (gen_current (cs QuicTickets))).

(** One turn of the loop of [snapshot]: the engine as each of its reads finds
    it, in order; the fence's reads at one point each. *)
Record SnapshotReads := mkSnapshotReads {
  sn_epoch : Engine; sn_jar : Engine; sn_fence : Engine; sn_channels : Engine; sn_epoch' : Engine; sn_jar' : Engine
}.

Definition snapshot_turn (isolation : option string) (r : SnapshotReads) : option SensitiveEpoch :=
  let epoch := eg_epoch (sn_epoch r) in
  let jar := jars_generation (eg_jars (sn_jar r)) <$> isolation in
  let transport := cache_fence (eg_caches (sn_fence r)) in
  let channels := gen_current (eg_caches (sn_channels r) Channels) in
  if (eg_epoch (sn_epoch' r) =? epoch) && bool_decide (jars_generation (eg_jars (sn_jar' r)) <$> isolation = jar)
  then Some (mkSensitiveEpoch epoch transport channels jar) else None.

(** [Engine::snapshot], with what its turns read. *)
Fixpoint snapshot (isolation : option string) (turns : list SnapshotReads) : option SensitiveEpoch :=
  match turns with
  | [] => None
  | r :: turns' => match snapshot_turn isolation r with Some e => Some e | None => snapshot isolation turns' end
  end.

(** [ContextEpoch] and [Engine::epoch_for]. *)
Record ContextEpoch := mkContextEpoch { ce_engine : Z; ce_isolation : string; ce_epoch : SensitiveEpoch }.

Definition epoch_for (engine : Z) (context : option ContextEpoch) (isolation : string) (current : SensitiveEpoch) : SensitiveEpoch :=
  match context with
  | Some c => if (ce_engine c =? engine) && String.eqb (ce_isolation c) isolation then ce_epoch c else current
  | None => current
  end.
End Engine.

(** * Runs *)

Section EngineFacts.
Context {Cookie Url Time Tls : Type} `{CookieStore Cookie Url Time} `{!CookieParsing Cookie Url} `{Libraries}.
Abbreviation Engine := (Engine (Cookie := Cookie) (Time := Time) (Tls := Tls)).
Abbreviation EngineEvent := (EngineEvent (Time := Time) (Tls := Tls)).
Implicit Types (s : Engine) (ev : EngineEvent) (evs : list EngineEvent).

Lemma engine_run_app evs evs' s : engine_run (evs ++ evs') s = s' ← engine_run evs s; engine_run evs' s'.
Proof.
  revert s. induction evs as [|ev evs IH]; intros s; [done|]. cbn [app engine_run]. destruct (engine_step ev s); [|done]. cbn [mbind option_bind]. apply IH.
Qed.

Lemma engine_run_snoc evs ev s s' : engine_run (evs ++ [ev]) s = Some s' <-> exists s1, engine_run evs s = Some s1 /\ engine_step ev s1 = Some s'.
Proof.
  rewrite engine_run_app. destruct (engine_run evs s) as [s1|]; cbn [mbind option_bind engine_run].
  - destruct (engine_step ev s1) as [s2|] eqn:E; cbn [mbind option_bind]; split.
    + intros [= ->]. by exists s1.
    + intros (? & [= <-] & ?). congruence.
    + done.
    + intros (? & [= <-] & ?). congruence.
  - split; [done|]. by intros (? & ? & _).
Qed.

(** ** Inversion of the steps *)

Lemma jars_free_Some s next s' : jars_free s next = Some s' <-> eg_storing s = None /\ next = Some s'.
Proof. unfold jars_free. destruct (eg_storing s); naive_solver. Qed.

Lemma tls_free_Some s next s' : tls_free s next = Some s' <-> eg_caching s = None /\ next = Some s'.
Proof. unfold tls_free. destruct (eg_caching s); naive_solver. Qed.

Lemma store_into_generations isolation url redactor now set_cookie (jars : Jars Cookie) r : 
  store_into isolation url redactor now set_cookie jars = Some r -> jar_generations r.2 = jar_generations jars.
Proof.
  unfold store_into. destruct (store_all _ _ _ _) as [[j k]|]; [|done]. cbn [mbind option_bind]. by intros [= <-].
Qed.

Lemma jars_header_generations now isolation target (jars : Jars Cookie) r :
  jars_header now isolation target jars = Some r -> jar_generations r.2 = jar_generations jars.
Proof.
  unfold jars_header. destruct (url_parse target) as [url|]; [|by intros [= <-]]. destruct (by_isolation jars !! isolation) as [jar|]; [|by intros [= <-]].
  destruct (jar_header now url jar) as [[h j]|]; [|done]. cbn [mbind option_bind]. by intros [= <-].
Qed.

(** The epoch counts the locks begun, the generations of a workspace its
    deletes. *)
Definition is_lock ev : bool := match ev with LockEpoch => true | _ => false end.
Definition is_delete (isolation : string) ev : bool := match ev with DeleteJar i => String.eqb i isolation | _ => false end.
Definition count_of (P : EngineEvent -> bool) evs : Z := Z.of_nat (List.length (filter (fun ev => P ev = true) evs)).

Lemma count_of_app P evs evs' : count_of P (evs ++ evs') = count_of P evs + count_of P evs'.
Proof. unfold count_of. rewrite filter_app, length_app. lia. Qed.

Lemma count_of_one P ev : count_of P [ev] = Z.b2z (P ev).
Proof. unfold count_of. rewrite filter_cons. case_decide as E; [by rewrite E|]. by destruct (P ev). Qed.

Lemma count_of_nonneg P evs : 0 <= count_of P evs.
Proof. unfold count_of. lia. Qed.

Lemma clear_isolation_generation isolation i (jars : Jars Cookie) :
  jars_generation (jars_clear_isolation i jars) isolation = if String.eqb i isolation then add64 (jars_generation jars isolation) 1 else jars_generation jars isolation.
Proof.
  unfold jars_clear_isolation, jars_generation at 1. cbn [jar_generations]. destruct (String.eqb_spec i isolation) as [->|Hne].
  - by rewrite lookup_insert_eq.
  - by rewrite lookup_insert_ne.
Qed.

(** A check that refuses, or that takes the jars' mutex for its store. *)
Lemma store_check_cases r s s' : engine_step (StoreCheck r) s = Some s' ->
  s' = s \/ (eg_storing s = None /\ (exists url, url_parse (sr_target r) = Some url) /\
    store_admits (eg_epoch s) (sr_epoch r) (sr_isolation r) (eg_jars s) = true /\ s' = set_storing (Some r) s).
Proof.
  cbn [engine_step]. destruct (sr_set_cookie r); [intros [= <-]; by left|]. destruct (url_parse (sr_target r)) as [url|]; [|intros [= <-]; by left].
  unfold jars_free. destruct (eg_storing s) eqn:E; [done|]. destruct (store_admits (eg_epoch s) (sr_epoch r) (sr_isolation r) (eg_jars s)) eqn:Ea;
    intros [= <-]; [right|by left]. split; [done|]. split; [by exists url|done].
Qed.

Lemma store_insert_inv s s' : engine_step StoreInsert s = Some s' ->
  exists r url skipped jars, eg_storing s = Some r /\ url_parse (sr_target r) = Some url /\
    store_into (sr_isolation r) url (sr_redactor r) (sr_now r) (sr_set_cookie r) (eg_jars s) = Some (skipped, jars) /\
    s' = set_storing None (set_jars jars s).
Proof.
  cbn [engine_step]. destruct (eg_storing s) as [r|]; [|done]. cbn [mbind option_bind].
  destruct (url_parse (sr_target r)) as [url|] eqn:Eu; [|done]. cbn [mbind option_bind].
  destruct (store_into _ _ _ _ _ _) as [[k jars]|] eqn:E; [|done]. cbn [mbind option_bind]. intros [= <-]. by exists r, url, k, jars.
Qed.

Lemma send_cookies_inv now isolation target s s' : engine_step (SendCookies now isolation target) s = Some s' ->
  exists h jars, jars_header now isolation target (eg_jars s) = Some (h, jars) /\ s' = set_jars jars s.
Proof.
  cbn [engine_step]. intros [_ Hs]%jars_free_Some. destruct (jars_header _ _ _ _) as [[h jars]|] eqn:E; [|done].
  cbn [mbind option_bind] in Hs. injection Hs as <-. by exists h, jars.
Qed.

Lemma tls_generation_inv s s' : engine_step TlsGeneration s = Some s' ->
  exists r, eg_caching s = Some (r, false) /\
    s' = set_caching (if bool_decide (se_jar (tr_epoch r) = Some (jars_generation (eg_jars s) (tr_isolation r))) then Some (r, true) else None) s.
Proof.
  cbn [engine_step]. destruct (eg_caching s) as [[r []]|]; [done| |done]. cbn [mbind option_bind].
  intros [_ [= <-]]%jars_free_Some. by exists r.
Qed.

Lemma tls_insert_inv s s' : engine_step TlsInsert s = Some s' ->
  exists r, eg_caching s = Some (r, true) /\
    s' = set_caching None (set_tls (<[(tr_isolation r, tr_key r) := tr_prepared r]> (drop_variant (tr_isolation r) (tr_key r) (eg_tls s))) s).
Proof. cbn [engine_step]. destruct (eg_caching s) as [[r []]|]; [|done|done]. cbn [mbind option_bind]. intros [= <-]. by exists r. Qed.

Lemma tls_check_inv r s s' : engine_step (TlsCheck r) s = Some s' ->
  eg_caching s = None /\ s' = (if is_current s (tr_epoch r) then set_caching (Some (r, false)) s else s).
Proof. cbn [engine_step]. intros [? [= <-]]%tls_free_Some. done. Qed.

(** Inverts a step. *)
Ltac invert_step Hs :=
  match type of Hs with
  | engine_step (StoreCheck _) _ = _ => apply store_check_cases in Hs as [->|(? & (? & ?) & ? & ->)]
  | engine_step StoreInsert _ = _ => apply store_insert_inv in Hs as (? & ? & ? & ? & ? & ? & ? & ->)
  | engine_step (SendCookies _ _ _) _ = _ => apply send_cookies_inv in Hs as (? & ? & ? & ->)
  | engine_step TlsGeneration _ = _ => apply tls_generation_inv in Hs as (? & ? & ->)
  | engine_step TlsInsert _ = _ => apply tls_insert_inv in Hs as (? & ? & ->)
  | engine_step (TlsCheck _) _ = _ => apply tls_check_inv in Hs as [? ->]
  | engine_step _ _ = _ => cbn [engine_step] in Hs;
      first [apply jars_free_Some in Hs as [? [= <-]] | apply tls_free_Some in Hs as [? [= <-]] | injection Hs as <-]
  end.

Lemma step_counters ev s s' : engine_step ev s = Some s' ->
  eg_epoch s' = (if is_lock ev then add64 (eg_epoch s) 1 else eg_epoch s) /\
  forall isolation, jars_generation (eg_jars s') isolation =
    (if is_delete isolation ev then add64 (jars_generation (eg_jars s) isolation) 1 else jars_generation (eg_jars s) isolation).
Proof.
  intros Hs. destruct ev; invert_step Hs; cbn [is_lock is_delete]; try done.
  - split; [done|]. intros i. apply clear_isolation_generation.
  - match goal with E : store_into _ _ _ _ _ _ = _ |- _ => apply store_into_generations in E as Eg end.
    cbn [snd] in Eg. split; [done|]. intros i. unfold jars_generation. cbn. by rewrite Eg.
  - match goal with E : jars_header _ _ _ _ = _ |- _ => apply jars_header_generations in E as Eg end.
    cbn [snd] in Eg. split; [done|]. intros i. unfold jars_generation. cbn. by rewrite Eg.
  - by destruct (is_current _ _).
Qed.

Definition countable evs : Prop := Z.of_nat (List.length evs) <= U64_MAX.

Lemma count_of_le P evs : count_of P evs <= Z.of_nat (List.length evs).
Proof. unfold count_of. pose proof (length_filter (fun ev => P ev = true) evs) as Hl. change (length evs) with (List.length evs) in Hl. lia. Qed.

(** The counters of a new engine after a run. *)
Lemma run_counters evs s : countable evs -> engine_run evs Engine_new = Some s ->
  eg_epoch s = count_of is_lock evs /\ forall isolation, jars_generation (eg_jars s) isolation = count_of (is_delete isolation) evs.
Proof.
  unfold countable, U64_MAX. revert s. induction evs as [|ev evs IH] using rev_ind; intros s Hc Hr.
  - injection Hr as <-. split; [done|]. intros i. unfold jars_generation. simpl. by rewrite lookup_empty.
  - apply engine_run_snoc in Hr as (s1 & Hr & Hs). rewrite length_app in Hc. cbn [List.length] in Hc.
    destruct (IH s1 ltac:(lia) Hr) as [I1 I2]. destruct (step_counters ev s1 s Hs) as [J1 J2].
    pose proof (count_of_le is_lock evs). rewrite count_of_app, count_of_one. split.
    + rewrite J1, I1. destruct (is_lock ev); simpl; [|lia]. apply add64_small; unfold count_of in *; lia.
    + intros i. pose proof (count_of_le (is_delete i) evs). rewrite J2, I2, count_of_app, count_of_one.
      destruct (is_delete i ev); simpl; [|lia]. apply add64_small; unfold count_of in *; lia.
Qed.

(** ** What a run keeps *)

Lemma jars_header_cookies now isolation target (jars : Jars Cookie) h jars' : jars_header now isolation target jars = Some (h, jars') ->
  forall other jar' c, by_isolation jars' !! other = Some jar' -> c ∈ jar_cookies jar' ->
  exists jar, by_isolation jars !! other = Some jar /\ c ∈ jar_cookies jar.
Proof.
  unfold jars_header. destruct (url_parse target) as [url|]; [|intros [= <- <-] other jar' c Hj Hc; by exists jar'].
  destruct (by_isolation jars !! isolation) as [jar|] eqn:E; [|intros [= <- <-] other jar' c Hj Hc; by exists jar'].
  destruct (jar_header now url jar) as [[h' j]|] eqn:Eh; [|done]. cbn [mbind option_bind]. intros [= <- <-] other jar' c Hj Hc.
  cbn [by_isolation] in Hj. apply lookup_insert_Some in Hj as [[<- <-]|[_ Hj]]; [|by exists jar']. exists jar. split; [done|].
  by apply (header_cookies _ _ _ _ _ Eh).
Qed.

Lemma store_into_cookies isolation url redactor now set_cookie (jars : Jars Cookie) skipped jars' :
  store_into isolation url redactor now set_cookie jars = Some (skipped, jars') ->
  forall other jar' c, by_isolation jars' !! other = Some jar' -> c ∈ jar_cookies jar' ->
  (exists jar, by_isolation jars !! other = Some jar /\ c ∈ jar_cookies jar) \/
  (other = isolation /\ exists v, v ∈ map fst set_cookie /\ lets_through redactor url v c).
Proof.
  unfold store_into. destruct (store_all _ _ _ _) as [[j s]|] eqn:Es; [|done]. cbn [mbind option_bind]. intros [= <- <-] other jar' c Hj Hc.
  cbn [by_isolation] in Hj. apply lookup_insert_Some in Hj as [[<- <-]|[_ Hj]]; [|left; by exists jar'].
  destruct (store_all_cookies _ _ _ _ _ _ _ Es c Hc) as [Hold|Hnew]; [|by right]. left.
  apply (cookies_sublist _ _ (purge_sublist _ _)) in Hold.
  destruct (by_isolation jars !! isolation) as [jar|]; [by exists jar|]. by apply elem_of_nil in Hold.
Qed.

(** Where a cookie or a TLS configuration comes from. *)
Definition stored_by (r : StoreRequest (Time := Time)) isolation (c : Cookie) : Prop :=
  sr_isolation r = isolation /\ exists url v, url_parse (sr_target r) = Some url /\ v ∈ map fst (sr_set_cookie r) /\ lets_through (sr_redactor r) url v c.

(** The cookies of some workspaces after a run from an engine without any,
    whose checks admit only some epochs. *)
Lemma cookies_since (S : string -> Prop) (B : SensitiveEpoch -> Prop) s0 since s :
  eg_storing s0 = None ->
  (forall isolation jar, S isolation -> by_isolation (eg_jars s0) !! isolation = Some jar -> jar_cookies jar = []) ->
  (forall pre post s1, since = pre ++ post -> engine_run pre s0 = Some s1 -> forall e isolation, S isolation ->
     store_admits (eg_epoch s1) e isolation (eg_jars s1) = true -> B e) ->
  engine_run since s0 = Some s ->
  (forall isolation jar c, S isolation -> by_isolation (eg_jars s) !! isolation = Some jar -> c ∈ jar_cookies jar ->
     exists r, StoreCheck r ∈ since /\ stored_by r isolation c /\ B (sr_epoch r)) /\
  (forall r, eg_storing s = Some r -> StoreCheck r ∈ since /\ (S (sr_isolation r) -> B (sr_epoch r))).
Proof.
  intros Hfree Hempty. revert s. induction since as [|ev since IH] using rev_ind; intros s Hadm Hr.
  { injection Hr as <-. split; [|by rewrite Hfree]. intros isolation jar c HS Hj Hc. rewrite (Hempty _ _ HS Hj) in Hc. by apply elem_of_nil in Hc. }
  apply engine_run_snoc in Hr as (s1 & Hr & Hs). destruct (IH s1) as [Icookies Ipend]; [|done|].
  { intros pre post s2 -> Hp. apply (Hadm pre (post ++ [ev])); [by rewrite app_assoc|done]. }
  assert (Hmono : forall ev', ev' ∈ since -> ev' ∈ since ++ [ev]) by (intros; apply elem_of_app; by left).
  assert (Hkeep : forall s2, (forall isolation jar c, S isolation -> by_isolation (eg_jars s2) !! isolation = Some jar -> c ∈ jar_cookies jar ->
      exists jar0, by_isolation (eg_jars s1) !! isolation = Some jar0 /\ c ∈ jar_cookies jar0) ->
    forall isolation jar c, S isolation -> by_isolation (eg_jars s2) !! isolation = Some jar -> c ∈ jar_cookies jar ->
      exists r, StoreCheck r ∈ since ++ [ev] /\ stored_by r isolation c /\ B (sr_epoch r)).
  { intros s2 Hsub isolation jar c HS Hj Hc. destruct (Hsub _ _ _ HS Hj Hc) as (jar0 & Hj0 & Hc0).
    destruct (Icookies _ _ _ HS Hj0 Hc0) as (r & Hin & Hrest). exists r. split; [by apply Hmono|done]. }
  assert (Hpend : forall r, eg_storing s1 = Some r -> StoreCheck r ∈ since ++ [ev] /\ (S (sr_isolation r) -> B (sr_epoch r))).
  { intros r Hp. destruct (Ipend r Hp) as [Hin HB]. split; [by apply Hmono|done]. }
  destruct ev; invert_step Hs; cbn [eg_jars eg_storing set_epoch set_tls set_jars set_caches set_storing set_caching];
    try (split; [apply (Hkeep s1); intros i0 jar0 c0 _ Hj Hc; by exists jar0|exact Hpend]).
  - (* a lock clears the jars *)
    split; [|exact Hpend]. intros isolation jar c _ Hj. cbn in Hj. by rewrite lookup_empty in Hj.
  - (* a delete removes one *)
    split; [|exact Hpend]. apply (Hkeep (set_jars (jars_clear_isolation isolation (eg_jars s1)) s1)).
    intros i jar c _ Hj Hc. cbn in Hj. apply lookup_delete_Some in Hj as [_ Hj]. by exists jar.
  - (* a check *)
    split; [apply (Hkeep s1); intros i jar c _ Hj Hc; by exists jar|]. intros r' [= <-].
    split; [apply elem_of_app; right; by apply list_elem_of_singleton|]. intros HS. by apply (Hadm since [StoreCheck r] s1) with (sr_isolation r).
  - (* an insert *)
    match goal with E : store_into _ _ _ _ _ _ = _ |- _ => pose proof (store_into_cookies _ _ _ _ _ _ _ _ E) as Hst end.
    split; [|done]. intros i jar c HS Hj Hc. destruct (Hst _ _ _ Hj Hc) as [(jar0 & Hj0 & Hc0)|(-> & v & Hv & Hl)].
    + destruct (Icookies _ _ _ HS Hj0 Hc0) as (r & Hin & Hrest). exists r. split; [by apply Hmono|done].
    + match goal with E : eg_storing s1 = Some ?r |- _ => destruct (Hpend r E) as [Hin HB]; exists r end.
      split; [done|]. split; [|by apply HB]. split; [done|]. by eexists _, v.
  - (* cookies sent *)
    match goal with E : jars_header _ _ _ _ = Some (_, ?jars) |- _ => pose proof (jars_header_cookies _ _ _ _ _ _ E) as Hh; split; [|exact Hpend];
      apply (Hkeep (set_jars jars s1)) end. intros i jar c _ Hj Hc. by apply (Hh _ _ _ Hj Hc).
  - destruct (is_current _ _); (split; [apply (Hkeep s1); intros i jar c _ Hj Hc; by exists jar|exact Hpend]).
Qed.

(** The TLS configurations of some workspaces, in the same way; the epoch is
    compared when the cache's mutex is taken, the generation after it. *)
Lemma tls_since (S : string -> Prop) (B1 B2 : SensitiveEpoch -> Prop) s0 since s :
  eg_caching s0 = None ->
  (forall isolation key, S isolation -> eg_tls s0 !! (isolation, key) = None) ->
  (forall pre post s1, since = pre ++ post -> engine_run pre s0 = Some s1 -> forall e isolation, S isolation ->
     (is_current s1 e = true -> B1 e) /\ (se_jar e = Some (jars_generation (eg_jars s1) isolation) -> B2 e)) ->
  engine_run since s0 = Some s ->
  (forall isolation key p, S isolation -> eg_tls s !! (isolation, key) = Some p ->
     exists r, TlsCheck r ∈ since /\ tr_isolation r = isolation /\ tr_key r = key /\ tr_prepared r = p /\ B1 (tr_epoch r) /\ B2 (tr_epoch r)) /\
  (forall r checked, eg_caching s = Some (r, checked) -> TlsCheck r ∈ since /\ (S (tr_isolation r) -> B1 (tr_epoch r) /\ (checked = true -> B2 (tr_epoch r)))).
Proof.
  intros Hfree Hempty. revert s. induction since as [|ev since IH] using rev_ind; intros s Hadm Hr.
  { injection Hr as <-. split; [|by rewrite Hfree]. intros isolation key p HS Hp. by rewrite (Hempty _ _ HS) in Hp. }
  apply engine_run_snoc in Hr as (s1 & Hr & Hs). destruct (IH s1) as [Itls Ipend]; [|done|].
  { intros pre post s2 -> Hp. apply (Hadm pre (post ++ [ev])); [by rewrite app_assoc|done]. }
  pose proof (Hadm since [ev] s1 eq_refl Hr) as Hnow.
  assert (Hmono : forall ev', ev' ∈ since -> ev' ∈ since ++ [ev]) by (intros; apply elem_of_app; by left).
  assert (Hkeep : forall isolation key p, S isolation -> eg_tls s1 !! (isolation, key) = Some p ->
     exists r, TlsCheck r ∈ since ++ [ev] /\ tr_isolation r = isolation /\ tr_key r = key /\ tr_prepared r = p /\ B1 (tr_epoch r) /\ B2 (tr_epoch r)).
  { intros isolation key p HS Hp. destruct (Itls _ _ _ HS Hp) as (r & Hin & Hrest). exists r. split; [by apply Hmono|done]. }
  assert (Hpend : forall r checked, eg_caching s1 = Some (r, checked) ->
     TlsCheck r ∈ since ++ [ev] /\ (S (tr_isolation r) -> B1 (tr_epoch r) /\ (checked = true -> B2 (tr_epoch r)))).
  { intros r checked Hp. destruct (Ipend r checked Hp) as [Hin HB]. split; [by apply Hmono|done]. }
  destruct ev; invert_step Hs; try (split; [exact Hkeep|exact Hpend]).
  - (* a lock clears the cache *)
    split; [|exact Hpend]. intros isolation key p _ Hp. cbn in Hp. by rewrite lookup_empty in Hp.
  - (* a delete drops a workspace's *)
    split; [|exact Hpend]. intros i key p HS Hp. cbn in Hp. apply map_lookup_filter_Some in Hp as [Hp _]. by apply Hkeep.
  - (* the mutex is taken *)
    destruct (is_current s1 (tr_epoch r)) eqn:Ec; [|split; [exact Hkeep|exact Hpend]]. split; [exact Hkeep|]. intros r' checked [= <- <-].
    split; [apply elem_of_app; right; by apply list_elem_of_singleton|]. intros HS. split; [|done]. by apply (proj1 (Hnow (tr_epoch r) _ HS)).
  - (* the generation is compared *)
    match goal with E : eg_caching s1 = Some (?r, false) |- _ => destruct (Hpend r false E) as [Hin HB]; rename r into r0 end.
    split; [exact Hkeep|]. cbn [eg_caching set_caching]. intros r' checked. case_bool_decide as Eg; [|done]. intros [= <- <-].
    split; [done|]. intros HS. split; [by apply HB|]. intros _. by apply (proj2 (Hnow (tr_epoch r0) _ HS)).
  - (* the configuration goes in *)
    match goal with E : eg_caching s1 = Some (?r, true) |- _ => destruct (Hpend r true E) as [Hin HB]; rename r into r0 end.
    split; [|done]. intros i key p HS Hp. cbn in Hp. apply lookup_insert_Some in Hp as [[[= <- <-] <-]|[_ Hp]].
    + destruct (HB HS) as [Hb1 Hb2]. exists r0. split; [done|]. split; [done|]. split; [done|]. split; [done|]. split; [done|]. by apply Hb2.
    + apply Hkeep; [done|]. unfold drop_variant in Hp. destruct (rsplit_once_bar (tr_key r0)) as [[variant rest]|]; [|done].
      by apply map_lookup_filter_Some in Hp as [Hp _].
Qed.

(** Lists of events, with their brackets to the right. *)
Ltac norm_app := repeat (progress (rewrite <- ?app_assoc; cbn [app])).

(** Epochs and generations of a later engine are no older. *)
Lemma run_later before pre s1 s : countable (before ++ pre) -> engine_run before Engine_new = Some s1 -> engine_run pre s1 = Some s ->
  eg_epoch s1 <= eg_epoch s /\ forall isolation, jars_generation (eg_jars s1) isolation <= jars_generation (eg_jars s) isolation.
Proof.
  intros Hc H1 H2. assert (Hb : countable before) by (unfold countable in *; rewrite length_app in Hc; lia).
  destruct (run_counters before s1 Hb H1) as [E1 G1].
  assert (Hr : engine_run (before ++ pre) Engine_new = Some s) by (rewrite engine_run_app, H1; exact H2).
  destruct (run_counters _ s Hc Hr) as [E2 G2]. rewrite E1, E2, count_of_app. pose proof (count_of_nonneg is_lock pre). split; [lia|].
  intros i. rewrite G1, G2, count_of_app. pose proof (count_of_nonneg (is_delete i) pre). lia.
Qed.

Lemma countable_prefix evs evs' : countable (evs ++ evs') -> countable evs.
Proof. unfold countable. rewrite length_app. lia. Qed.

Lemma engine_run_split evs evs' s0 s : engine_run (evs ++ evs') s0 = Some s -> exists s1, engine_run evs s0 = Some s1 /\ engine_run evs' s1 = Some s.
Proof. rewrite engine_run_app. destruct (engine_run evs s0) as [s1|]; [|done]. cbn [mbind option_bind]. intros Hr. by exists s1. Qed.

(** C31: after a vault lock, whatever was in flight and however its steps were
    interleaved with those of the lock and of other locks and deletes, the
    jars hold only cookies whose store began after the lock cleared them, and
    the cache only TLS configurations whose insert did, both for executions
    whose epoch is the one the lock started or a later one. *)
Theorem lock_fences before mid1 mid2 since s1 s :
  let trace := before ++ LockEpoch :: mid1 ++ LockTls :: mid2 ++ LockJars :: since in
  countable trace -> engine_run (before ++ [LockEpoch]) Engine_new = Some s1 -> engine_run trace Engine_new = Some s ->
  (forall isolation jar c, by_isolation (eg_jars s) !! isolation = Some jar -> c ∈ jar_cookies jar ->
     exists r, StoreCheck r ∈ since /\ stored_by r isolation c /\ eg_epoch s1 <= se_epoch (sr_epoch r)) /\
  (forall isolation key p, eg_tls s !! (isolation, key) = Some p ->
     exists r, TlsCheck r ∈ mid2 ++ LockJars :: since /\ tr_isolation r = isolation /\ tr_key r = key /\ tr_prepared r = p /\
       eg_epoch s1 <= se_epoch (tr_epoch r)).
Proof.
  intros trace Hc H1 Hr.
  assert (Hlater : forall pre post s2, trace = (before ++ [LockEpoch]) ++ pre ++ post -> engine_run ((before ++ [LockEpoch]) ++ pre) Engine_new = Some s2 -> eg_epoch s1 <= eg_epoch s2).
  { intros pre post s2 Ht H2. rewrite engine_run_app, H1 in H2. cbn [mbind option_bind] in H2.
    apply (run_later (before ++ [LockEpoch]) pre); [|done|done]. rewrite app_assoc in Ht. rewrite Ht in Hc. by apply countable_prefix in Hc. }
  split.
  - assert (Ht : trace = (before ++ LockEpoch :: mid1 ++ LockTls :: mid2 ++ [LockJars]) ++ since) by (unfold trace; by norm_app).
    rewrite Ht in Hr. apply engine_run_split in Hr as (s2 & Hr2 & Hr).
    assert (Hj : by_isolation (eg_jars s2) = ∅ /\ eg_storing s2 = None).
    { replace (before ++ LockEpoch :: mid1 ++ LockTls :: mid2 ++ [LockJars]) with ((before ++ LockEpoch :: mid1 ++ LockTls :: mid2) ++ [LockJars]) in Hr2
        by (by norm_app).
      apply engine_run_snoc in Hr2 as (s3 & _ & Hs). invert_step Hs. done. }
    destruct (cookies_since (fun _ => True) (fun e => eg_epoch s1 <= se_epoch e) s2 since s) as [Hcookies _]; [apply Hj| | |done|].
    + intros i jar _ Hi. by rewrite (proj1 Hj), lookup_empty in Hi.
    + intros pre post s3 -> H3 e i _ Ha. unfold store_admits in Ha. apply andb_true_iff in Ha as [Ha _]. apply Z.eqb_eq in Ha. rewrite <- Ha.
      apply (Hlater (mid1 ++ LockTls :: mid2 ++ LockJars :: pre) post); [unfold trace; by norm_app|].
      replace ((before ++ [LockEpoch]) ++ mid1 ++ LockTls :: mid2 ++ LockJars :: pre) with ((before ++ LockEpoch :: mid1 ++ LockTls :: mid2 ++ [LockJars]) ++ pre)
        by (by norm_app).
      rewrite engine_run_app, Hr2. exact H3.
    + intros i jar c Hi Hcc. by apply (Hcookies i jar c).
  - assert (Ht : trace = (before ++ LockEpoch :: mid1 ++ [LockTls]) ++ mid2 ++ LockJars :: since) by (unfold trace; by norm_app).
    rewrite Ht in Hr. apply engine_run_split in Hr as (s2 & Hr2 & Hr).
    assert (Hj : eg_tls s2 = ∅ /\ eg_caching s2 = None).
    { replace (before ++ LockEpoch :: mid1 ++ [LockTls]) with ((before ++ LockEpoch :: mid1) ++ [LockTls]) in Hr2 by (by norm_app).
      apply engine_run_snoc in Hr2 as (s3 & _ & Hs). invert_step Hs. done. }
    destruct (tls_since (fun _ => True) (fun e => eg_epoch s1 <= se_epoch e) (fun _ => True) s2 (mid2 ++ LockJars :: since) s) as [Htls _]; [apply Hj| | |done|].
    + intros i key _. by rewrite (proj1 Hj), lookup_empty.
    + intros pre post s3 Hp H3 e i _. split; [|done]. intros Ha. unfold is_current in Ha. apply Z.eqb_eq in Ha. rewrite <- Ha.
      apply (Hlater (mid1 ++ LockTls :: pre) post); [unfold trace; rewrite Hp; by norm_app|].
      replace ((before ++ [LockEpoch]) ++ mid1 ++ LockTls :: pre) with ((before ++ LockEpoch :: mid1 ++ [LockTls]) ++ pre)
        by (by norm_app).
      rewrite engine_run_app, Hr2. exact H3.
    + intros i key p Hp. destruct (Htls i key p I Hp) as (r & Hin & E1 & E2 & E3 & HB & _). by exists r.
Qed.

(** After a delete of a workspace, whatever was in flight, the workspace's
    jar holds only cookies whose store began after the delete removed the jar,
    and the cache only TLS configurations of the workspace whose insert began
    after the delete dropped them, both for executions of the generation the
    delete started or of a later one. *)
Theorem delete_fences isolation before mid since s1 s :
  let trace := before ++ DeleteJar isolation :: mid ++ DeleteTls isolation :: since in
  countable trace -> engine_run (before ++ [DeleteJar isolation]) Engine_new = Some s1 -> engine_run trace Engine_new = Some s ->
  let generation := jars_generation (eg_jars s1) isolation in
  (forall jar c, by_isolation (eg_jars s) !! isolation = Some jar -> c ∈ jar_cookies jar ->
     exists r g, StoreCheck r ∈ mid ++ DeleteTls isolation :: since /\ stored_by r isolation c /\ se_jar (sr_epoch r) = Some g /\ generation <= g) /\
  (forall key p, eg_tls s !! (isolation, key) = Some p ->
     exists r g, TlsCheck r ∈ since /\ tr_isolation r = isolation /\ tr_key r = key /\ tr_prepared r = p /\
       se_jar (tr_epoch r) = Some g /\ generation <= g).
Proof.
  intros trace Hc Hr1 Hr generation. set (B := fun e => exists g, se_jar e = Some g /\ generation <= g).
  assert (Ht : trace = (before ++ [DeleteJar isolation]) ++ mid ++ DeleteTls isolation :: since) by (unfold trace; by norm_app).
  assert (Hlater : forall pre post s2 e, mid ++ DeleteTls isolation :: since = pre ++ post -> engine_run pre s1 = Some s2 ->
    se_jar e = Some (jars_generation (eg_jars s2) isolation) -> B e).
  { intros pre post s2 e Hp H2 He. exists (jars_generation (eg_jars s2) isolation). split; [done|].
    apply (run_later (before ++ [DeleteJar isolation]) pre); [|done|done]. rewrite Ht, Hp, app_assoc in Hc. by apply countable_prefix in Hc. }
  rewrite Ht in Hr. rewrite engine_run_app, Hr1 in Hr. cbn [mbind option_bind] in Hr. split.
  - assert (Hj : by_isolation (eg_jars s1) !! isolation = None /\ eg_storing s1 = None).
    { apply engine_run_snoc in Hr1 as (s3 & _ & Hs). invert_step Hs. cbn. by rewrite lookup_delete_eq. }
    destruct (cookies_since (fun i => i = isolation) B s1 (mid ++ DeleteTls isolation :: since) s) as [Hcookies _]; [apply Hj| | |done|].
    + intros i jar -> Hi. by rewrite (proj1 Hj) in Hi.
    + intros pre post s3 Hp H3 e i -> Ha. unfold store_admits in Ha. apply andb_true_iff in Ha as [_ Ha]. apply bool_decide_eq_true_1 in Ha.
      by apply (Hlater pre post s3).
    + intros jar c Hi Hcc. destruct (Hcookies isolation jar c eq_refl Hi Hcc) as (r & Hin & Hst & g & Hg & Hle). by exists r, g.
  - change (mid ++ DeleteTls isolation :: since) with (mid ++ [DeleteTls isolation] ++ since) in Hr. rewrite app_assoc in Hr.
    apply engine_run_split in Hr as (s2 & Hr2 & Hr).
    assert (Hj : (forall key, eg_tls s2 !! (isolation, key) = None) /\ eg_caching s2 = None).
    { apply engine_run_snoc in Hr2 as (s3 & _ & Hs). invert_step Hs. split; [|done]. intros key. cbn. apply map_lookup_filter_None. right.
      intros p _. simpl. by rewrite String.eqb_refl. }
    destruct (tls_since (fun i => i = isolation) (fun _ => True) B s2 since s) as [Htls _]; [apply Hj| | |done|].
    + intros i key ->. apply Hj.
    + intros pre post s3 Hp H3 e i ->. split; [done|]. intros He. apply (Hlater ((mid ++ [DeleteTls isolation]) ++ pre) post s3 e); [rewrite Hp; by norm_app| |done].
      rewrite engine_run_app, Hr2. exact H3.
    + intros key p Hp. destruct (Htls isolation key p eq_refl Hp) as (r & Hin & E1 & E2 & E3 & _ & g & Hg & Hle). by exists r, g.
Qed.

(** ** Snapshots *)

Lemma no_event P a b : count_of P (a ++ b) = count_of P a -> forall ev, ev ∈ b -> P ev = false.
Proof.
  rewrite count_of_app. intros Hc ev Hin. destruct (P ev) eqn:E; [|done]. exfalso.
  assert (Hin' : ev ∈ filter (fun ev => P ev = true) b) by (by apply list_elem_of_filter).
  unfold count_of in Hc. destruct (filter (fun ev => P ev = true) b); [by apply elem_of_nil in Hin'|simpl in Hc; lia].
Qed.

(** An execution's epoch lies on one side of every lock and of every delete
    of its workspace: if one of them began before the snapshot read the
    transports' generations, and so may have cleared caches that it found
    cleared, then the snapshot's epoch or generation is that of the lock or
    delete, or a later one; whatever runs between its reads. *)
Theorem snapshot_one_side isolation evs1 evs2 evs3 evs4 evs5 s1 s2 s3 s4 s5 s6 evs6 epoch :
  engine_run evs1 Engine_new = Some s1 -> engine_run evs2 s1 = Some s2 -> engine_run evs3 s2 = Some s3 -> engine_run evs4 s3 = Some s4 ->
  engine_run evs5 s4 = Some s5 -> engine_run evs6 s5 = Some s6 -> countable (evs1 ++ evs2 ++ evs3 ++ evs4 ++ evs5 ++ evs6) ->
  snapshot_turn (Some isolation) (mkSnapshotReads s1 s2 s3 s4 s5 s6) = Some epoch ->
  se_transport epoch = cache_fence (eg_caches s3) /\ se_channels epoch = gen_current (eg_caches s4 Channels) /\
  forall before after s, evs1 ++ evs2 ++ evs3 ++ evs4 = before ++ after -> engine_run before Engine_new = Some s ->
    eg_epoch s <= se_epoch epoch /\ exists g, se_jar epoch = Some g /\ jars_generation (eg_jars s) isolation <= g.
Proof.
  intros R1 R2 R3 R4 R5 R6 Hc. unfold snapshot_turn. cbn [sn_epoch sn_jar sn_fence sn_channels sn_epoch' sn_jar' fmap option_fmap option_map].
  destruct (Z.eqb_spec (eg_epoch s5) (eg_epoch s1)) as [Ee|]; [|done]. case_bool_decide as Eg; [|done]. cbn [andb]. intros [= <-].
  split; [done|]. split; [done|]. intros before after s Hsplit Hrun. cbn [se_epoch se_jar].
  assert (R12 : engine_run (evs1 ++ evs2) Engine_new = Some s2) by (rewrite engine_run_app, R1; exact R2).
  assert (R14 : engine_run (evs1 ++ evs2 ++ evs3 ++ evs4) Engine_new = Some s4).
  { rewrite engine_run_app, R1. cbn [mbind option_bind]. rewrite engine_run_app, R2. cbn [mbind option_bind]. rewrite engine_run_app, R3. exact R4. }
  assert (R15 : engine_run ((evs1 ++ evs2 ++ evs3 ++ evs4) ++ evs5) Engine_new = Some s5) by (rewrite engine_run_app, R14; exact R5).
  assert (R16 : engine_run (((evs1 ++ evs2 ++ evs3 ++ evs4) ++ evs5) ++ evs6) Engine_new = Some s6) by (rewrite engine_run_app, R15; exact R6).
  assert (Hc' : countable (((evs1 ++ evs2 ++ evs3 ++ evs4) ++ evs5) ++ evs6)) by (clear -Hc; unfold countable in *; rewrite !length_app in *; lia).
  assert (C5 : countable ((evs1 ++ evs2 ++ evs3 ++ evs4) ++ evs5)) by (by apply countable_prefix in Hc').
  assert (C4 : countable (evs1 ++ evs2 ++ evs3 ++ evs4)) by (by apply countable_prefix in C5).
  assert (C1 : countable evs1) by (by apply countable_prefix in C4).
  assert (C2 : countable (evs1 ++ evs2)) by (rewrite app_assoc in C4; by apply countable_prefix in C4).
  destruct (run_counters _ _ C1 R1) as [E1 _]. destruct (run_counters _ _ C2 R12) as [_ G2].
  destruct (run_counters _ _ C5 R15) as [E5 _]. destruct (run_counters _ _ Hc' R16) as [_ G6].
  assert (Cb : countable before) by (rewrite Hsplit in C4; by apply countable_prefix in C4).
  destruct (run_counters _ _ Cb Hrun) as [Eb Gb]. rewrite Hsplit in E5, G6.
  split.
  - rewrite Eb, <- Ee, E5, !count_of_app. pose proof (count_of_nonneg is_lock after). pose proof (count_of_nonneg is_lock evs5). lia.
  - exists (jars_generation (eg_jars s2) isolation). split; [done|]. injection Eg as Eg. rewrite <- Eg, Gb, G6, !count_of_app.
    pose proof (count_of_nonneg (is_delete isolation) after). pose proof (count_of_nonneg (is_delete isolation) evs5).
    pose proof (count_of_nonneg (is_delete isolation) evs6). lia.
Qed.

(** ** Mutexes *)

(** The jars are within their bounds, and a store that holds their mutex has a
    URL. *)
Definition engine_inv s : Prop :=
  jars_inv (eg_jars s) /\ forall r, eg_storing s = Some r -> exists url, url_parse (sr_target r) = Some url.

Lemma engine_new_inv : engine_inv Engine_new.
Proof. split; [|done]. intros i jar Hi. cbn in Hi. by rewrite lookup_empty in Hi. Qed.

Lemma engine_step_inv ev s s' : 0 <= entry_size -> engine_inv s -> engine_step ev s = Some s' -> engine_inv s'.
Proof.
  intros He [Hj Hu] Hs. destruct ev; invert_step Hs; try (by split).
  - split; [|done]. by apply jars_clear_isolation_inv.
  - split; [done|]. intros r' [= <-]. by eexists.
  - match goal with E : store_into ?i ?u ?r ?n ?c _ = _ |- _ => destruct (store_into_inv i u r n c _ Hj He) as ([k jars'] & E' & Hj');
      rewrite E in E'; injection E' as <- <- end. by split.
  - match goal with E : jars_header ?n ?i ?t _ = _ |- _ => destruct (jars_header_inv n i t _ Hj) as ([h jars'] & E' & Hj');
      rewrite E in E'; injection E' as <- <- end. by split.
  - destruct (is_current _ _); by split.
Qed.

Lemma engine_run_inv evs s s' : 0 <= entry_size -> engine_inv s -> engine_run evs s = Some s' -> engine_inv s'.
Proof.
  intros He. revert s. induction evs as [|ev evs IH]; intros s Hi; cbn [engine_run]; [by intros [= <-]|].
  destruct (engine_step ev s) as [s1|] eqn:E; [|done]. cbn [mbind option_bind]. apply IH. by apply (engine_step_inv ev s).
Qed.

(** A step of a thread that holds a mutex. *)
Definition holder_step ev : Prop := match ev with StoreInsert | TlsGeneration | TlsInsert => True | _ => False end.

(** C32: the engine's mutexes never deadlock, and no store panics under one: from
    every engine that a run reaches, at most three steps of the threads that
    hold a mutex release both. *)
Theorem mutexes_release evs s : 0 <= entry_size -> engine_run evs Engine_new = Some s ->
  exists releases s', (List.length releases <= 3)%nat /\ Forall holder_step releases /\ engine_run releases s = Some s' /\
    eg_storing s' = None /\ eg_caching s' = None.
Proof.
  intros He Hr. pose proof (engine_run_inv _ _ _ He engine_new_inv Hr) as Hi. clear Hr evs.
  assert (Hstore : exists l s1, (List.length l <= 1)%nat /\ Forall holder_step l /\ engine_run l s = Some s1 /\ eg_storing s1 = None).
  { destruct (eg_storing s) as [r|] eqn:Es; [|exists [], s; split; [simpl; lia|split; [done|by split]]]. destruct Hi as [Hj Hu]. destruct (Hu r Es) as (url & Eu).
    destruct (store_into_inv (sr_isolation r) url (sr_redactor r) (sr_now r) (sr_set_cookie r) (eg_jars s) Hj He) as ([k jars] & E & _).
    exists [StoreInsert], (set_storing None (set_jars jars s)).  split; [done|]. split; [by repeat constructor|]. split; [|done].
    cbn [engine_run engine_step]. rewrite Es. cbn [mbind option_bind]. rewrite Eu. cbn [mbind option_bind]. rewrite E. done. }
  destruct Hstore as (l & s1 & Hl & Hall & Hrun & Hfree).
  assert (Htls : exists l' s2, (List.length l' <= 2)%nat /\ Forall holder_step l' /\ engine_run l' s1 = Some s2 /\ eg_storing s2 = None /\ eg_caching s2 = None).
  { destruct (eg_caching s1) as [[r []]|] eqn:Ec; [| |exists [], s1; split; [simpl; lia|split; [done|split; [done|by split]]]].
    - exists [TlsInsert], (set_caching None (set_tls (<[(tr_isolation r, tr_key r) := tr_prepared r]> (drop_variant (tr_isolation r) (tr_key r) (eg_tls s1))) s1)). split; [simpl; lia|]. split; [by repeat constructor|]. split; [|split].
      + cbn [engine_run engine_step]. rewrite Ec. done.
      + done.
      + done.
    - destruct (bool_decide (se_jar (tr_epoch r) = Some (jars_generation (eg_jars s1) (tr_isolation r)))) eqn:Eb.
      + exists [TlsGeneration; TlsInsert], (set_caching None (set_tls (<[(tr_isolation r, tr_key r) := tr_prepared r]> (drop_variant (tr_isolation r) (tr_key r) (eg_tls s1))) s1)). split; [simpl; lia|]. split; [by repeat constructor|]. split; [|split].
        * cbn [engine_run engine_step]. rewrite Ec. cbn [mbind option_bind]. unfold jars_free. rewrite Hfree, Eb. cbn. done.
        * done.
        * done.
      + exists [TlsGeneration], (set_caching None s1). split; [simpl; lia|]. split; [by repeat constructor|]. split; [|split].
        * cbn [engine_run engine_step]. rewrite Ec. cbn [mbind option_bind]. unfold jars_free. rewrite Hfree, Eb. cbn. done.
        * done.
        * done. }
  destruct Htls as (l' & s2 & Hl' & Hall' & Hrun' & Hf1 & Hf2).
  exists (l ++ l'), s2. split; [rewrite length_app; change (length l) with (List.length l); change (length l') with (List.length l'); lia|].
  split; [by apply Forall_app|]. split; [|done]. rewrite engine_run_app, Hrun. exact Hrun'.
Qed.
End EngineFacts.

(** * Witnesses *)

#[local] Existing Instance simple_libraries.

Definition demo_fence : CacheFence := mkCacheFence (mkCacheGenerations 0 0) (mkCacheGenerations 0 0).
Definition demo_store (epoch jar : Z) (value : string) : StoreRequest (Time := Z) :=
  mkStoreRequest (mkSensitiveEpoch epoch demo_fence 0 (Some jar)) "ws" "www.ferrum.test" demo_redactor 1 [(value, (1, 1))].
Definition demo_tls (epoch jar p : Z) : TlsRequest (Tls := Z) :=
  mkTlsRequest (mkSensitiveEpoch epoch demo_fence 0 (Some jar)) "ws" "default|aa" p.

Abbreviation DemoEngine := (Engine (Cookie := DemoCookie) (Time := Z) (Tls := Z)).
Abbreviation DemoEvent := (EngineEvent (Time := Z) (Tls := Z)).

Definition demo_run (evs : list DemoEvent) : option DemoEngine := engine_run evs Engine_new.
Definition demo_after (evs : list DemoEvent) : DemoEngine := default Engine_new (demo_run evs).

(** What the jar and the cache of a workspace hold. *)
Definition demo_held (s : DemoEngine) : list string * option Z :=
  (map dc_value (from_option jar_cookies [] (by_isolation (eg_jars s) !! "ws")), eg_tls s !! ("ws", "default|aa")).

(** A store and a TLS insert in flight over a lock, and later ones. *)
Definition demo_flight : list DemoEvent := [StoreCheck (demo_store 0 0 "sid=old;"); TlsCheck (demo_tls 0 0 1)].
Definition demo_mid1 : list DemoEvent := [StoreInsert; TlsGeneration; TlsInsert].
Definition demo_mid2 : list DemoEvent := [TlsCheck (demo_tls 1 0 2); TlsGeneration; TlsInsert].
Definition demo_later : list DemoEvent := [StoreCheck (demo_store 0 0 "sid=stale;"); StoreCheck (demo_store 1 0 "sid=new;"); StoreInsert].
Definition demo_locked : list DemoEvent := demo_flight ++ LockEpoch :: demo_mid1 ++ LockTls :: demo_mid2 ++ LockJars :: demo_later.

Lemma lock_fences_witness :
  demo_held (demo_after (demo_flight ++ LockEpoch :: demo_mid1)) = (["old"], Some 1) /\
  demo_held (demo_after demo_locked) = (["new"], Some 2) /\
  (forall isolation jar c, by_isolation (eg_jars (demo_after demo_locked)) !! isolation = Some jar -> c ∈ jar_cookies jar ->
     exists r, StoreCheck r ∈ demo_later /\ stored_by r isolation c /\ eg_epoch (demo_after (demo_flight ++ [LockEpoch])) <= se_epoch (sr_epoch r)) /\
  (forall isolation key p, eg_tls (demo_after demo_locked) !! (isolation, key) = Some p ->
     exists r, TlsCheck r ∈ demo_mid2 ++ LockJars :: demo_later /\ tr_isolation r = isolation /\ tr_key r = key /\ tr_prepared r = p /\
       eg_epoch (demo_after (demo_flight ++ [LockEpoch])) <= se_epoch (tr_epoch r)).
Proof.
  split; [by vm_compute|]. split; [by vm_compute|].
  apply (lock_fences demo_flight demo_mid1 demo_mid2 demo_later (demo_after (demo_flight ++ [LockEpoch])) (demo_after demo_locked)).
  - by vm_compute.
  - by vm_compute.
  - by vm_compute.
Defined.

(** A workspace deleted under a store, which the delete then removes. *)
Definition demo_deleted : list DemoEvent :=
  [StoreCheck (demo_store 0 0 "sid=old;"); StoreInsert; TlsCheck (demo_tls 0 0 1); TlsGeneration] ++ DeleteJar "ws" ::
  [TlsInsert; StoreCheck (demo_store 0 0 "sid=stale;"); StoreCheck (demo_store 0 1 "sid=new;"); StoreInsert] ++ DeleteTls "ws" ::
  [TlsCheck (demo_tls 0 1 3); TlsGeneration; TlsInsert; SendCookies 1 "ws" "www.ferrum.test"].

Lemma delete_fences_witness :
  let before := [StoreCheck (demo_store 0 0 "sid=old;"); StoreInsert; TlsCheck (demo_tls 0 0 1); TlsGeneration] in
  let mid := [TlsInsert; StoreCheck (demo_store 0 0 "sid=stale;"); StoreCheck (demo_store 0 1 "sid=new;"); StoreInsert] in
  let since := [TlsCheck (demo_tls 0 1 3); TlsGeneration; TlsInsert; SendCookies 1 "ws" "www.ferrum.test"] in
  let s1 := demo_after (before ++ [DeleteJar "ws"]) in
  demo_held s1 = ([], None) /\ demo_held (demo_after demo_deleted) = (["new"], Some 3) /\
  (forall jar c, by_isolation (eg_jars (demo_after demo_deleted)) !! "ws" = Some jar -> c ∈ jar_cookies jar ->
     exists r g, StoreCheck r ∈ mid ++ DeleteTls "ws" :: since /\ stored_by r "ws" c /\ se_jar (sr_epoch r) = Some g /\ jars_generation (eg_jars s1) "ws" <= g) /\
  (forall key p, eg_tls (demo_after demo_deleted) !! ("ws", key) = Some p ->
     exists r g, TlsCheck r ∈ since /\ tr_isolation r = "ws" /\ tr_key r = key /\ tr_prepared r = p /\
       se_jar (tr_epoch r) = Some g /\ jars_generation (eg_jars s1) "ws" <= g).
Proof.
  intros before mid since s1. split; [by vm_compute|]. split; [by vm_compute|].
  apply (delete_fences "ws" before mid since s1 (demo_after demo_deleted)).
  - by vm_compute.
  - by vm_compute.
  - by vm_compute.
Defined.

(** A snapshot taken across nothing, after a lock. *)
Definition demo_locked_state : DemoEngine := demo_after [LockEpoch; ClearCache TcpPool ClearAll].
Definition demo_epoch_after : SensitiveEpoch := mkSensitiveEpoch 1 (mkCacheFence (mkCacheGenerations 1 0) (mkCacheGenerations 0 0)) 0 (Some 0).

Lemma snapshot_one_side_witness :
  let s := demo_locked_state in
  snapshot_turn (Some "ws") (mkSnapshotReads s s s s s s) = Some demo_epoch_after /\
  snapshot_turn (Some "ws") (mkSnapshotReads Engine_new Engine_new s s s s) = None /\
  se_transport demo_epoch_after = cache_fence (eg_caches s) /\ se_channels demo_epoch_after = gen_current (eg_caches s Channels) /\
  forall before after s', [LockEpoch; ClearCache TcpPool ClearAll] ++ [] ++ [] ++ [] = before ++ after -> engine_run before Engine_new = Some s' ->
    eg_epoch (s' : DemoEngine) <= se_epoch demo_epoch_after /\ exists g, se_jar demo_epoch_after = Some g /\ jars_generation (eg_jars s') "ws" <= g.
Proof.
  intros s. split; [by vm_compute|]. split; [by vm_compute|].
  apply (snapshot_one_side "ws" [LockEpoch; ClearCache TcpPool ClearAll] [] [] [] [] s s s s s s []); done.
Defined.

Lemma mutexes_release_witness :
  exists releases s', (List.length releases <= 3)%nat /\ Forall holder_step releases /\
    engine_run releases (demo_after demo_flight) = Some s' /\ eg_storing s' = None /\ eg_caching s' = None.
Proof. apply (mutexes_release demo_flight); [done|by vm_compute]. Defined.
