(* ===== verification/Json.v ===== *)
(** The JSON values the contract components work on: [serde_json::Value] as
    data, its [Map] in the [preserve_order] form the workspace turns on (an
    insertion-ordered map of unique keys), and the equality of values, which
    ignores the order of members. The map operations are the documented
    behaviour of the few calls the sources make; everything proved about the
    components from here on holds of values whose keys are unique ([wf]), the
    invariant of that map. *)
From S2P Require Import Prelude Text.
From stdpp Require Import base list numbers strings.
From Stdlib Require Import ZArith Lia Ascii String.
Open Scope Z_scope.
Open Scope string_scope.

(** * Values *)

(** [serde_json::Number]: an integer of the [u64] range, a negative [i64], or
    a finite [f64], here its 64 bits. *)
Inductive Number :=
  | PosInt (n : Z)
  | NegInt (n : Z)
  | Float (bits : Z).

Definition is_u64_number (n : Number) : bool := if n is PosInt _ then true else false.
Definition is_i64_number (n : Number) : bool :=
  match n with PosInt v => (v <? 2 ^ 63)%Z | NegInt _ => true | Float _ => false end.

(** [f64]'s [==] on finite numbers: the same bits, or zeros of either sign. *)
Definition float_eqb (a b : Z) : bool :=
  ((a =? b) || ((a mod 2 ^ 63 =? 0) && (b mod 2 ^ 63 =? 0)))%Z.

Definition number_eqb (a b : Number) : bool :=
  match a, b with
  | PosInt x, PosInt y | NegInt x, NegInt y => (x =? y)%Z
  | Float x, Float y => float_eqb x y
  | _, _ => false
  end.

Lemma number_eqb_refl n : number_eqb n n = true.
Proof. destruct n; simpl; unfold float_eqb; by rewrite Z.eqb_refl. Qed.

Inductive Value :=
  | JNull
  | JBool (b : bool)
  | JNumber (n : Number)
  | JString (s : string)
  | JArray (a : list Value)
  | JObject (o : list (string * Value)).

Abbreviation Object := (list (string * Value)).

(** Induction with the hypothesis at every item and every member. *)
Section Induction.
Variable P : Value -> Prop.
Hypothesis Hnull : P JNull.
Hypothesis Hbool : forall b, P (JBool b).
Hypothesis Hnumber : forall n, P (JNumber n).
Hypothesis Hstring : forall s, P (JString s).
Hypothesis Harray : forall a, Forall P a -> P (JArray a).
Hypothesis Hobject : forall o, Forall (fun kv => P kv.2) o -> P (JObject o).

Fixpoint value_ind (v : Value) : P v :=
  match v with
  | JNull => Hnull
  | JBool b => Hbool b
  | JNumber n => Hnumber n
  | JString s => Hstring s
  | JArray a => Harray a ((fix go l : Forall P l :=
      match l with [] => Forall_nil_2 _ | x :: l' => Forall_cons_2 _ _ _ (value_ind x) (go l') end) a)
  | JObject o => Hobject o ((fix go l : Forall (fun kv => P kv.2) l :=
      match l with [] => Forall_nil_2 _ | kv :: l' => Forall_cons_2 _ _ _ (value_ind kv.2) (go l') end) o)
  end.
End Induction.

(** * Insertion-ordered maps *)

Section Maps.
Context {V : Type}.
Implicit Types o : list (string * V).

(** [Map::get]. *)
Fixpoint obj_get (k : string) o : option V :=
  match o with
  | [] => None
  | (k', v) :: o' => if String.eqb k k' then Some v else obj_get k o'
  end.

(** [Map::insert]: an existing key keeps its place. *)
Fixpoint obj_insert (k : string) (v : V) o : list (string * V) :=
  match o with
  | [] => [(k, v)]
  | (k', v') :: o' => if String.eqb k k' then (k', v) :: o' else (k', v') :: obj_insert k v o'
  end.

(** [Map::shift_remove]: the members after it move up. *)
Fixpoint obj_remove (k : string) o : list (string * V) :=
  match o with
  | [] => []
  | (k', v') :: o' => if String.eqb k k' then o' else (k', v') :: obj_remove k o'
  end.

Definition obj_contains (k : string) o : bool := if obj_get k o is Some _ then true else false.

(** [keys().position(|k| ..)]. *)
Fixpoint obj_position (k : string) o : option nat :=
  match o with
  | [] => None
  | (k', _) :: o' => if String.eqb k k' then Some 0%nat else S <$> obj_position k o'
  end.

(** [Map::shift_insert]: the member goes to index [i]; one with the key moves
    there. *)
Definition obj_shift_insert (i : nat) (k : string) (v : V) o : list (string * V) :=
  let o := obj_remove k o in (take i o ++ (k, v) :: drop i o)%list.

Definition keys o : list string := o.*1.

Lemma obj_get_insert_eq k v o : obj_get k (obj_insert k v o) = Some v.
Proof.
  induction o as [|[k' v'] o IH]; simpl; [by rewrite String.eqb_refl|].
  destruct (String.eqb k k') eqn:E; simpl; by rewrite E.
Qed.

Lemma obj_get_insert_ne k k' v o : k <> k' -> obj_get k' (obj_insert k v o) = obj_get k' o.
Proof.
  intros Hne. induction o as [|[q w] o IH]; simpl.
  - by destruct (String.eqb_spec k' k).
  - destruct (String.eqb_spec k q) as [->|]; simpl; [by destruct (String.eqb_spec k' q)|].
    by destruct (String.eqb k' q).
Qed.

Lemma obj_insert_insert k v w o : obj_insert k v (obj_insert k w o) = obj_insert k v o.
Proof.
  induction o as [|[q x] o IH]; simpl; [by rewrite String.eqb_refl|].
  destruct (String.eqb k q) eqn:E; simpl; rewrite E; [done|]. by rewrite IH.
Qed.

Lemma obj_insert_id k v o : obj_get k o = Some v -> obj_insert k v o = o.
Proof.
  induction o as [|[q x] o IH]; simpl; [done|].
  destruct (String.eqb k q) eqn:E; [by intros [= ->]|]. intros H. by rewrite IH.
Qed.

Lemma obj_insert_fresh k v o : obj_get k o = None -> obj_insert k v o = (o ++ [(k, v)])%list.
Proof.
  induction o as [|[q x] o IH]; simpl; [done|]. destruct (String.eqb k q); [done|].
  intros H. by rewrite IH.
Qed.

Lemma obj_remove_fresh k v o : obj_get k o = None -> obj_remove k (o ++ [(k, v)])%list = o.
Proof.
  induction o as [|[q x] o IH]; simpl; [by rewrite String.eqb_refl|].
  destruct (String.eqb k q); [done|]. intros H. by rewrite IH.
Qed.

Lemma obj_get_None k o : obj_get k o = None <-> k ∉ keys o.
Proof.
  unfold keys. induction o as [|[q x] o IH]; csimpl; [split; [intros _; apply not_elem_of_nil|done]|].
  rewrite not_elem_of_cons, <- IH. destruct (String.eqb_spec k q) as [->|]; [split; [done|by intros [? _]]|].
  split; [intros H; by split|by intros [_ ?]].
Qed.

Lemma obj_get_Some k v o : NoDup (keys o) -> obj_get k o = Some v <-> (k, v) ∈ o.
Proof.
  unfold keys. induction o as [|[q x] o IH]; csimpl; [split; [done|by intros ?%not_elem_of_nil]|].
  rewrite NoDup_cons. intros [Hq Hnd]. rewrite elem_of_cons, <- IH by done.
  destruct (String.eqb_spec k q) as [->|Hne].
  - split; [intros [= ->]; by left|]. intros [[= ->]|Hin]; [done|]. apply IH in Hin; [|done].
    exfalso. apply Hq. apply list_elem_of_fmap. by exists (q, v).
  - split; [intros H; by right|]. by intros [[= -> ->]|].
Qed.

Lemma obj_get_elem k v o : obj_get k o = Some v -> (k, v) ∈ o.
Proof.
  induction o as [|[q x] o IH]; csimpl; [done|]. rewrite elem_of_cons.
  destruct (String.eqb_spec k q) as [->|]; [intros [= ->]; by left|right; by apply IH].
Qed.

Lemma obj_insert_keys k v o :
  keys (obj_insert k v o) = if obj_get k o is Some _ then keys o else (keys o ++ [k])%list.
Proof.
  unfold keys. induction o as [|[q x] o IH]; csimpl; [done|].
  destruct (String.eqb k q); [done|]. csimpl. rewrite IH. by destruct (obj_get k o).
Qed.

Lemma obj_insert_NoDup k v o : NoDup (keys o) -> NoDup (keys (obj_insert k v o)).
Proof.
  intros H. rewrite obj_insert_keys. destruct (obj_get k o) eqn:E; [done|].
  apply obj_get_None in E. apply NoDup_app. split; [done|]. split; [|apply NoDup_singleton].
  by intros x Hx ->%list_elem_of_singleton.
Qed.

Lemma obj_insert_Forall (P : string * V -> Prop) k v o :
  (forall q, P (q, v)) -> Forall P o -> Forall P (obj_insert k v o).
Proof.
  intros Hv. induction 1 as [|[q x] o Hx Ho IH]; csimpl; [by repeat constructor|].
  destruct (String.eqb k q); by constructor.
Qed.

Lemma obj_remove_sublist k o : sublist (obj_remove k o) o.
Proof.
  induction o as [|[q x] o IH]; csimpl; [done|].
  destruct (String.eqb k q); [by apply sublist_cons|by apply sublist_skip].
Qed.

Lemma obj_remove_NoDup k o : NoDup (keys o) -> NoDup (keys (obj_remove k o)).
Proof. intros H. eapply sublist_NoDup; [exact H|]. apply fmap_sublist, obj_remove_sublist. Qed.

Lemma obj_remove_Forall (P : string * V -> Prop) k o : Forall P o -> Forall P (obj_remove k o).
Proof.
  induction 1 as [|[q x] o Hx Ho IH]; simpl; [done|]. destruct (String.eqb k q); [done|]. by constructor.
Qed.

Lemma obj_remove_absent k o : obj_get k o = None -> obj_remove k o = o.
Proof.
  induction o as [|[q x] o IH]; csimpl; [done|]. destruct (String.eqb k q); [done|].
  intros H. by rewrite IH.
Qed.

Lemma obj_get_remove_eq k o : NoDup (keys o) -> obj_get k (obj_remove k o) = None.
Proof.
  unfold keys. induction o as [|[q x] o IH]; csimpl; [done|]. rewrite NoDup_cons. intros [Hq Hnd].
  destruct (String.eqb k q) eqn:E; csimpl; [|rewrite E; by apply IH].
  apply String.eqb_eq in E as ->. by apply obj_get_None.
Qed.

Lemma obj_get_remove_ne k k' o : k <> k' -> obj_get k' (obj_remove k o) = obj_get k' o.
Proof.
  intros Hne. induction o as [|[q x] o IH]; csimpl; [done|].
  destruct (String.eqb_spec k q) as [->|]; [by destruct (String.eqb_spec k' q)|].
  csimpl. by destruct (String.eqb k' q).
Qed.

Lemma obj_position_None k o : obj_position k o = None <-> obj_get k o = None.
Proof.
  induction o as [|[q x] o IH]; csimpl; [done|]. destruct (String.eqb k q); [done|].
  rewrite fmap_None. exact IH.
Qed.

(** A member put back where it was removed from. *)
Lemma obj_reinsert k v o i : NoDup (keys o) -> obj_get k o = Some v -> obj_position k o = Some i ->
  obj_shift_insert (i `min` List.length (obj_remove k o)) k v (obj_remove k o) = o.
Proof.
  intros Hnd. unfold obj_shift_insert. rewrite (obj_remove_absent k (obj_remove k o)) by (by apply obj_get_remove_eq).
  revert i. unfold keys in *. induction o as [|[q x] o IH]; intros i; csimpl; [done|].
  csimpl in Hnd. apply NoDup_cons in Hnd as [Hq Hnd].
  destruct (String.eqb_spec k q) as [->|Hne]; [by intros [= ->] [= <-]|].
  intros Hg (j & Hj & ->)%fmap_Some. csimpl. by rewrite (IH Hnd j Hg Hj).
Qed.
End Maps.

(** * Well-formed values *)

(** Keys are unique at every level. *)
Fixpoint wf (v : Value) : bool :=
  match v with
  | JArray a => forallb wf a
  | JObject o => bool_decide (NoDup (keys o)) && forallb (fun kv => wf kv.2) o
  | _ => true
  end.

Abbreviation wf_value v := (wf v = true).
Abbreviation wf_members o := (NoDup (keys o) /\ Forall (fun kv : string * Value => wf_value kv.2) o).

Lemma forallb_Forall_true {A} (f : A -> bool) (l : list A) : forallb f l = true <-> Forall (fun x => f x = true) l.
Proof. rewrite forallb_forall, list.Forall_forall. by setoid_rewrite list_elem_of_In. Qed.

Lemma wf_JArray a : wf_value (JArray a) <-> Forall (fun v => wf_value v) a.
Proof. apply forallb_Forall_true. Qed.

Lemma wf_JObject o : wf_value (JObject o) <-> wf_members o.
Proof. simpl. by rewrite andb_split, bool_decide_eq_true, forallb_Forall_true. Qed.

Lemma wf_member o k v : wf_value (JObject o) -> obj_get k o = Some v -> wf_value v.
Proof.
  intros [_ H]%wf_JObject Hk%obj_get_elem. rewrite list.Forall_forall in H. exact (H _ Hk).
Qed.

Lemma wf_insert o k v : wf_value (JObject o) -> wf_value v -> wf_value (JObject (obj_insert k v o)).
Proof.
  intros [Hn Hf]%wf_JObject Hv. apply wf_JObject. split; [by apply obj_insert_NoDup|].
  by apply obj_insert_Forall.
Qed.

Lemma wf_remove o k : wf_value (JObject o) -> wf_value (JObject (obj_remove k o)).
Proof.
  intros [Hn Hf]%wf_JObject. apply wf_JObject. split; [by apply obj_remove_NoDup|by apply obj_remove_Forall].
Qed.

#[export] Hint Resolve wf_insert wf_remove wf_member : anvil.

(** * Accessors *)

(** [Value::get] of a name, [as_str] and [as_array]. *)
Definition get (k : string) (v : Value) : option Value := if v is JObject o then obj_get k o else None.
Definition as_str (v : Value) : option string := if v is JString s then Some s else None.
Definition as_array (v : Value) : option (list Value) := if v is JArray a then Some a else None.

(** * Equality

    [Value]'s derived [==]; two maps are equal when they hold equal values
    under the same keys, in any order. *)
Fixpoint value_eqb (v w : Value) : bool :=
  match v, w with
  | JNull, JNull => true
  | JBool a, JBool b => Bool.eqb a b
  | JNumber a, JNumber b => number_eqb a b
  | JString a, JString b => String.eqb a b
  | JArray a, JArray b =>
      (fix go (l1 l2 : list Value) :=
         match l1, l2 with
         | [], [] => true
         | x :: l1', y :: l2' => value_eqb x y && go l1' l2'
         | _, _ => false
         end) a b
  | JObject a, JObject b =>
      (List.length a =? List.length b)%nat &&
      forallb (fun kv => match obj_get kv.1 b with Some w => value_eqb kv.2 w | None => false end) a
  | _, _ => false
  end.

Lemma value_eqb_JArray a b :
  value_eqb (JArray a) (JArray b) = true <-> Forall2 (fun x y => value_eqb x y = true) a b.
Proof.
  revert b. induction a as [|x a IH]; intros [|y b]; simpl.
  - split; [constructor|done].
  - split; [done|inversion 1].
  - split; [done|inversion 1].
  - rewrite andb_split. specialize (IH b). simpl in IH. rewrite IH.
    split; [intros []; by constructor|inversion 1; by split].
Qed.

Lemma value_eqb_JObject a b :
  value_eqb (JObject a) (JObject b) = true <->
  List.length a = List.length b /\
  Forall (fun kv => exists w, obj_get kv.1 b = Some w /\ value_eqb kv.2 w = true) a.
Proof.
  simpl. rewrite andb_split, Nat.eqb_eq, forallb_Forall_true.
  apply and_iff_compat_l. apply Forall_proper; [|done]. intros kv.
  destruct (obj_get kv.1 b) as [w|]; [|split; [done|by intros (? & ? & _)]].
  split; [intros H; by exists w|by intros (? & [= <-] & ?)].
Qed.

Lemma value_eqb_refl v : wf_value v -> value_eqb v v = true.
Proof.
  induction v as [|b|n|s|a IH|o IH] using value_ind; intros Hwf; try done.
  - by destruct b.
  - apply number_eqb_refl.
  - apply String.eqb_refl.
  - apply value_eqb_JArray. apply wf_JArray in Hwf.
    induction a as [|x a IHa]; constructor; inversion IH; inversion Hwf; auto.
  - apply wf_JObject in Hwf as [Hn Hf]. apply value_eqb_JObject. split; [done|].
    apply list.Forall_forall. intros [k v] Hin. exists v. split; [by apply obj_get_Some|].
    rewrite list.Forall_forall in IH, Hf. by apply (IH _ Hin), (Hf _ Hin).
Qed.
