(* ===== verification/Float64.v ===== *)
(** What the modelled code uses of [f64]: [str::parse] (the standard
    library's grammar, correctly rounded to nearest even) and the order. A
    number is one of the Standard Library's specification floats, with 53 bits
    of precision and a largest exponent of 1024. *)
From Stdlib Require Import ZArith Lia Ascii String SpecFloat.
From stdpp Require Import base numbers strings option list.
From S2P Require Import Prelude Text.
Open Scope string_scope.
Open Scope list_scope.
Open Scope Z_scope.

Abbreviation F64 := spec_float.

Definition f64_prec : Z := 53.
Definition f64_emax : Z := 1024.

(** The float nearest to [m * 10 ^ e], ties to even; [m] is not negative. *)
Definition f64_decimal (negative : bool) (m e : Z) : F64 :=
  match m with
  | Zpos p =>
      if 0 <=? e then
        match m * 10 ^ e with
        | Zpos q => binary_round f64_prec f64_emax negative q 0
        | _ => S754_zero negative
        end
      else
        let '(q, e2, l) := SFdiv_core_binary f64_prec f64_emax m 0 (10 ^ (- e)) 0 in
        binary_round_aux f64_prec f64_emax negative q e2 l
  | _ => S754_zero negative
  end.

Definition is_digit (c : ascii) : bool := if digit_of c is Some _ then true else false.

(** The digits a text begins with, and the rest. *)
Fixpoint take_digits (s : string) : string * string :=
  match s with
  | String c s' => if is_digit c then let '(d, r) := take_digits s' in (String c d, r) else ("", s)
  | "" => ("", "")
  end.

Definition signed (s : string) : bool * string :=
  match s with
  | String "-" s' => (true, s')
  | String "+" s' => (false, s')
  | _ => (false, s)
  end.

(** The exponent after a mantissa, to the end of the text. *)
Definition parse_exponent (s : string) : option Z :=
  match s with
  | "" => Some 0
  | String c s' =>
      if Ascii.eqb (ascii_lower c) "e" then
        let '(negative, digits) := signed s' in
        if str_is_empty digits then None else
        n ← digits_value 0 digits; Some (if negative then - n else n)
      else None
  end.

(** [str::parse::<f64>]. *)
Definition parse_f64 (s : string) : option F64 :=
  let '(negative, s) := signed s in
  let word := to_ascii_lowercase s in
  if String.eqb word "nan" then Some S754_nan
  else if String.eqb word "inf" || String.eqb word "infinity" then Some (S754_infinity negative)
  else
    let '(whole, s) := take_digits s in
    let '(fraction, s) := match s with String "." s' => take_digits s' | _ => ("", s) end in
    if str_is_empty whole && str_is_empty fraction then None
    else
      m ← digits_value 0 (whole +:+ fraction); e ← parse_exponent s;
      Some (f64_decimal negative m (e - str_len fraction)).

Definition f64_lt (a b : F64) : bool := SFltb a b.

Example parse_examples :
  parse_f64 "0.1" = Some (S754_finite false 7205759403792794 (-56)) /\ parse_f64 "-2e3" = Some (S754_finite true 8796093022208000 (-42)) /\
  parse_f64 "1." = Some (S754_finite false 4503599627370496 (-52)) /\ parse_f64 ".5" = Some (S754_finite false 4503599627370496 (-53)) /\
  parse_f64 "1e400" = Some (S754_infinity false) /\ parse_f64 "4.9e-324" = Some (S754_finite false 1 (-1074)) /\ parse_f64 "1e-400" = Some (S754_zero false) /\
  parse_f64 "." = None /\ parse_f64 "1e" = None /\ parse_f64 "0x1" = None /\ parse_f64 "-iNf" = Some (S754_infinity true) /\
  parse_f64 "9007199254740993" = parse_f64 "9007199254740992".
Proof. vm_compute. repeat split. Qed.

(** * Integers *)

Lemma digits2_bounds p : 2 ^ (Zpos (digits2_pos p) - 1) <= Zpos p < 2 ^ Zpos (digits2_pos p).
Proof.
  induction p as [p IH|p IH|]; cbn [digits2_pos]; [..|done];
    rewrite Pos2Z.inj_succ; replace (Z.succ (Zpos (digits2_pos p)) - 1) with (Z.succ (Zpos (digits2_pos p) - 1)) by lia;
    rewrite !Z.pow_succ_r by lia; lia.
Qed.

Lemma digits2_of p d : 0 < d -> 2 ^ (d - 1) <= Zpos p < 2 ^ d -> Zpos (digits2_pos p) = d.
Proof.
  intros Hd [H1 H2]. pose proof (digits2_bounds p) as [H3 H4].
  assert (d - 1 < Zpos (digits2_pos p)) by (apply (Z.pow_lt_mono_r_iff 2); lia).
  assert (Zpos (digits2_pos p) - 1 < d) by (apply (Z.pow_lt_mono_r_iff 2); lia). lia.
Qed.

Lemma iter_xO d p : Zpos (Pos.iter xO p d) = Zpos p * 2 ^ Zpos d.
Proof.
  induction d as [|d IH] using Pos.peano_ind; [cbn; lia|]. rewrite Pos.iter_succ, Pos2Z.inj_xO, IH, Pos2Z.inj_succ, Z.pow_succ_r by lia. lia.
Qed.

(** [x] is the canonical float of the integer [p]. *)
Definition exact_float (p : positive) (m : positive) (e : Z) : Prop :=
  e <= 0 /\ 2 ^ 52 <= Zpos m < 2 ^ 53 /\ Zpos m = Zpos p * 2 ^ (- e).

Lemma fexp_small k : -1021 <= k -> fexp f64_prec f64_emax k = k - 53.
Proof. intros H. change (Z.max (k - 53) (-1074) = k - 53). lia. Qed.

Lemma round_exact s m e : 2 ^ 52 <= Zpos m < 2 ^ 53 -> -1074 <= e <= 971 -> binary_round_aux f64_prec f64_emax s (Zpos m) e loc_Exact = S754_finite s m e.
Proof.
  intros Hm He. pose proof (digits2_of m 53 ltac:(lia) Hm) as Hd.
  assert (H : shr_fexp f64_prec f64_emax (Zpos m) e loc_Exact = ({| shr_m := Zpos m; shr_r := false; shr_s := false |}, e)).
  { unfold shr_fexp. cbn [Zdigits2 shr_record_of_loc]. rewrite Hd, fexp_small by lia. by replace (53 + e - 53 - e) with 0 by lia. }
  unfold binary_round_aux. rewrite H. cbn [loc_of_shr_record round_nearest_even shr_m]. rewrite H. cbn [shr_m].
  destruct (Z.leb_spec e (f64_emax - f64_prec)); [done|]. unfold f64_emax, f64_prec in *. lia.
Qed.

Lemma integer_exact s p : Zpos p < 2 ^ 53 -> exists m e, binary_round f64_prec f64_emax s p 0 = S754_finite s m e /\ exact_float p m e.
Proof.
  intros Hp. pose proof (digits2_bounds p) as [H1 H2]. set (d := Zpos (digits2_pos p)) in *.
  assert (Hd : 1 <= d <= 53).
  { split; [lia|]. assert (d - 1 < 53) by (apply (Z.pow_lt_mono_r_iff 2); lia). lia. }
  unfold binary_round. fold d. rewrite Z.add_0_r, fexp_small by lia. unfold shl_align. rewrite Z.sub_0_r.
  assert (Hpow : forall k, 0 <= k -> 2 ^ (d - 1 + k) <= Zpos p * 2 ^ k < 2 ^ (d + k)).
  { intros k Hk. rewrite !Z.pow_add_r by lia. assert (0 < 2 ^ k) by (apply Z.pow_pos_nonneg; lia). nia. }
  destruct (d - 53) as [|q|q] eqn:Eq; [|lia|].
  - exists p, 0. specialize (Hpow 0 ltac:(lia)). replace d with 53 in * by lia. cbn in Hpow. split; [apply round_exact; lia|].
    split; [lia|]. split; [lia|]. cbn. lia.
  - assert (Hm : Zpos (Pos.iter xO p q) = Zpos p * 2 ^ (53 - d)) by (rewrite iter_xO; f_equal; f_equal; lia).
    exists (Pos.iter xO p q), (d - 53). rewrite <- Eq. specialize (Hpow (53 - d) ltac:(lia)). rewrite <- Hm in Hpow.
    replace (d - 1 + (53 - d)) with 52 in Hpow by lia. replace (d + (53 - d)) with 53 in Hpow by lia.
    split; [apply round_exact; lia|]. split; [lia|]. split; [done|]. rewrite Hm. f_equal. f_equal. lia.
Qed.

Lemma exact_compare p1 m1 e1 p2 m2 e2 : exact_float p1 m1 e1 -> exact_float p2 m2 e2 ->
  match Z.compare e1 e2 with Lt => Lt | Gt => Gt | Eq => Pos.compare_cont Eq m1 m2 end = Pos.compare p1 p2.
Proof.
  assert (Hlt : forall p1 m1 e1 p2 m2 e2, exact_float p1 m1 e1 -> exact_float p2 m2 e2 -> e1 < e2 -> Zpos p1 < Zpos p2).
  { intros q1 n1 f1 q2 n2 f2 (He1 & [Hm1 Hm1'] & E1) (He2 & [Hm2 Hm2'] & E2) He. replace (- f1) with ((- f2) + (f2 - f1)) in E1 by lia.
    rewrite Z.pow_add_r in E1 by lia. assert (2 <= 2 ^ (f2 - f1)) by (change 2 with (2 ^ 1) at 1; apply Z.pow_le_mono_r; lia).
    set (x := 2 ^ (- f2)) in *. set (k := 2 ^ (f2 - f1)) in *. assert (Hx : 0 < x) by (apply Z.pow_pos_nonneg; lia).
    change (2 ^ 53) with (2 * 2 ^ 52) in *. assert (Zpos q1 * x * 2 <= Zpos q1 * x * k) by (apply Z.mul_le_mono_nonneg_l; lia).
    apply (Z.mul_lt_mono_pos_r x); lia. }
  intros H1 H2. destruct (Z.compare_spec e1 e2) as [<-|He|He].
  - destruct H1 as (He1 & _ & E1), H2 as (_ & _ & E2). assert (0 < 2 ^ (- e1)) by (apply Z.pow_pos_nonneg; lia).
    change (Pos.compare_cont Eq m1 m2) with (Pos.compare m1 m2).
    destruct (Pos.compare_spec p1 p2) as [<-|Hp|Hp].
    + apply Pos.compare_eq_iff. lia.
    + apply Pos.compare_lt_iff. nia.
    + apply Pos.compare_gt_iff. nia.
  - symmetry. apply Pos.compare_lt_iff. by eapply (Hlt p1 m1 e1 p2 m2 e2).
  - symmetry. apply Pos.compare_gt_iff. by eapply (Hlt p2 m2 e2 p1 m1 e1).
Qed.

(** The float of an integer's sign and absolute value. *)
Definition f64_integer (negative : bool) (n : Z) : F64 := f64_decimal negative n 0.

Definition signed_value (negative : bool) (n : Z) : Z := if negative then - n else n.

Lemma f64_integer_cases negative n : 0 <= n < 2 ^ 53 ->
  (n = 0 /\ f64_integer negative n = S754_zero negative) \/
  exists p m e, n = Zpos p /\ f64_integer negative n = S754_finite negative m e /\ exact_float p m e.
Proof.
  intros Hn. destruct n as [|p|p]; [by left|right|lia]. destruct (integer_exact negative p) as (m & e & Hr & He); [lia|].
  exists p, m, e. split; [done|]. split; [|done]. unfold f64_integer, f64_decimal. cbn [Z.leb Z.compare]. change (10 ^ 0) with 1. rewrite Z.mul_1_r. done.
Qed.

Lemma integers_compare n1 z1 n2 z2 : 0 <= z1 < 2 ^ 53 -> 0 <= z2 < 2 ^ 53 ->
  f64_lt (f64_integer n1 z1) (f64_integer n2 z2) = (signed_value n1 z1 <? signed_value n2 z2).
Proof.
  intros H1 H2. unfold f64_lt, SFltb.
  destruct (f64_integer_cases n1 z1 H1) as [[-> ->]|(p1 & m1 & e1 & -> & -> & E1)];
    destruct (f64_integer_cases n2 z2 H2) as [[-> ->]|(p2 & m2 & e2 & -> & -> & E2)]; destruct n1, n2; cbn [SFcompare signed_value]; try done.
  all: pose proof (exact_compare p1 m1 e1 p2 m2 e2 E1 E2) as Hc; destruct (Z.compare e1 e2); rewrite ?Hc; destruct (Pos.compare_spec p1 p2); try done;
    cbn [CompOpp]; symmetry; first [apply Z.ltb_lt; lia|apply Z.ltb_ge; lia].
Qed.

(** A decimal integer: a sign or none, and digits. *)
Definition integer_text (sign : option bool) (digits : string) : string :=
  match sign with Some true => "-" +:+ digits | Some false => "+" +:+ digits | None => digits end.

Lemma take_digits_all s r : is_Some (digits_value 0 s) -> match r with String c _ => is_digit c = false | "" => True end -> take_digits (s +:+ r) = (s, r).
Proof.
  generalize 0. induction s as [|c s IH]; intros acc Hs Hr.
  - rewrite str_app_nil. destruct r as [|c r]; [done|]. cbn [take_digits]. by rewrite Hr.
  - rewrite str_app_cons. cbn [take_digits]. cbn [digits_value] in Hs. unfold is_digit. destruct (digit_of c) as [d|]; [|by destruct Hs].
    cbn [mbind option_bind] in Hs. by rewrite (IH _ Hs Hr).
Qed.

Lemma digit_head acc s n : str_is_empty s = false -> digits_value acc s = Some n -> exists c r d, s = String c r /\ digit_of c = Some d.
Proof.
  destruct s as [|c r]; [done|]. intros _. cbn [digits_value]. destruct (digit_of c) as [d|] eqn:E; [|done]. intros _. by exists c, r, d.
Qed.

Lemma parse_integer sign digits n : str_is_empty digits = false -> digits_value 0 digits = Some n ->
  parse_f64 (integer_text sign digits) = Some (f64_integer (if sign is Some true then true else false) n).
Proof.
  intros He Hd. destruct (digit_head 0 digits n He Hd) as (c & r & d & E & Hc).
  assert (Hn : ascii_lower c = c /\ c <> "n"%char /\ c <> "i"%char /\ c <> "-"%char /\ c <> "+"%char).
  { unfold digit_of in Hc. destruct ((48 <=? byte_of c) && (byte_of c <=? 57))%nat eqn:Eb; [|done]. apply andb_split in Eb as [Eb1 Eb2].
    clear -Eb1 Eb2. destruct c as [b0 b1 b2 b3 b4 b5 b6 b7]. destruct b0, b1, b2, b3, b4, b5, b6, b7; try done. }
  destruct Hn as (Hl & N1 & N2 & N3 & N4).
  assert (Hsign : signed (integer_text sign digits) = (if sign is Some true then true else false, digits)).
  { destruct sign as [[]|]; [done|done|]. cbn [integer_text]. rewrite E. unfold signed.
    clear -N3 N4. destruct c as [b0 b1 b2 b3 b4 b5 b6 b7]. destruct b0, b1, b2, b3, b4, b5, b6, b7; done. }
  unfold parse_f64. rewrite Hsign. assert (Hw : exists w, to_ascii_lowercase digits = String c w) by (rewrite E; cbn [to_ascii_lowercase]; rewrite Hl; by eexists).
  destruct Hw as [w Hw]. rewrite Hw. cbn [String.eqb].
  destruct (Ascii.eqb_spec c "n") as [->|_]; [done|]. destruct (Ascii.eqb_spec c "i") as [->|_]; [done|]. cbn [orb].
  rewrite <- (str_app_nil_r digits) at 1. rewrite (take_digits_all digits ""); [|by eexists|done]. rewrite He. cbn [andb str_is_empty].
  rewrite str_app_nil_r, Hd. cbn [mbind option_bind parse_exponent]. done.
Qed.
