(* ===== verification/Assertions.v ===== *)
(** Assertions and extractions (crates/anvil-engine/src/assertions.rs): the
    comparison of a value, the JSON-RPC and tool assertions, the results with
    their redacted evidence, and the values extracted from a response.

    JSON text, JSONPath, JSON Schema, regular expressions and SHA-256 (crates
    serde_json, serde_json_path, jsonschema, regex, sha2) are the operations
    of a class; a failure is the text of its error. *)
From Stdlib Require Import ZArith Lia Ascii String.
From stdpp Require Import base numbers strings pretty option list sorting.
From S2P Require Import Prelude OrdMap Text Bytes Utf8 XPath Evidence Request Secret Redaction Redactor RedactedFields Json Float64.
Open Scope string_scope.
Open Scope list_scope.
Open Scope Z_scope.

Record Regex := mkRegex {
  re_is_match : string -> bool;
  re_captures : string -> option (list (option string))
}.

Class Judges := mkJudges {
  json_from_slice : list Z -> result Value string;
  json_text : Value -> string;
  jsonpath_parse : string -> result (Value -> list Value) string;
  validator_for : Value -> result (Value -> list string) string;
  regex_build : string -> result Regex string;
  sha256 : list Z -> list Z
}.

Record Observed := mkObserved {
  ob_response : option ResponseRecord;
  ob_body : list Z;
  ob_body_unavailable : option string;
  ob_latency_ms : option Z;
  ob_protocol_status : ProtocolStatus;
  ob_stream : option StreamTranscript;
  ob_findings : list DiagnosticFinding;
  ob_transport : TransportState
}.

(** [map_err]. *)
Definition or_err {A} (prefix : string) (r : result A string) : result A string :=
  match r with Ok a => Ok a | Err e => Err (prefix +:+ e) end.

Section Judging.
Context `{Libraries} `{Judges} `{Unicode} `{XmlParser}.

Definition compare (c : Comparison) (actual : option string) (expected : string) : result bool string :=
  match c with
  | Comparison_Exists => Ok (if actual is Some _ then true else false)
  | Comparison_NotExists => Ok (if actual is Some _ then false else true)
  | Comparison_Equals => Ok (bool_decide (actual = Some expected))
  | Comparison_NotEquals => Ok (bool_decide (actual <> Some expected))
  | Comparison_Contains => Ok (if actual is Some a then str_contains a expected else false)
  | Comparison_NotContains => Ok (negb (if actual is Some a then str_contains a expected else false))
  | Comparison_Matches =>
      let? re := or_err "invalid pattern: " (regex_build expected) in
      Ok (if actual is Some a then re_is_match re a else false)
  | Comparison_LessThan | Comparison_GreaterThan =>
      match a ← actual; parse_f64 (trim a), parse_f64 (trim expected) with
      | Some a, Some e => Ok (if c is Comparison_LessThan then f64_lt a e else f64_lt e a)
      | _, _ => Ok false
      end
  end.

Definition json_path (body : list Z) (path : string) : result (option string) string :=
  let? v := or_err "body is not JSON: " (json_from_slice body) in
  let? p := or_err "invalid JSONPath: " (jsonpath_parse path) in
  Ok match p v with
     | [] => None
     | [JString s] => Some s
     | [other] => Some (json_text other)
     | many => Some (json_text (JArray many))
     end.

Definition reads_body (k : AssertionKind) : bool :=
  match k with
  | AssertionKind_JsonPath _ _ _ | AssertionKind_XPath _ _ _ | AssertionKind_JsonSchema _ | AssertionKind_Body _ _
  | AssertionKind_JsonRpcError _ | AssertionKind_JsonRpcResult | AssertionKind_McpIsError _ | AssertionKind_ToolPresent _
  | AssertionKind_ToolAbsent _ | AssertionKind_ToolInputSchema _ _ _ => true
  | AssertionKind_Status _ _ | AssertionKind_StatusIn _ | AssertionKind_Header _ _ _ | AssertionKind_Trailer _ _ _
  | AssertionKind_LatencyMs _ | AssertionKind_GrpcStatus _ | AssertionKind_MessageCount _ _ | AssertionKind_Diagnostic _ _
  | AssertionKind_Transport _ => false
  end.

(** * JSON-RPC *)

(** The other accessors of a value. *)
Definition as_i64 (v : Value) : option Z :=
  match v with JNumber (PosInt n) => if n <? 2 ^ 63 then Some n else None | JNumber (NegInt n) => Some n | _ => None end.
Definition as_bool (v : Value) : option bool := if v is JBool b then Some b else None.

Definition jsonrpc_response (body : list Z) : result Value string :=
  let? v := or_err "body is not JSON: " (json_from_slice body) in
  match get "result" v, get "error" v with
  | None, None => Err "the body is not a JSON-RPC response (it has no result or error)"
  | _, _ => Ok v
  end.

Definition MAX_ERROR_MESSAGE_CHARS : nat := 200.

(** The first characters of a message, past the cut by the lookahead. *)
Definition message_window (message : string) : string :=
  default message (before_char (MAX_ERROR_MESSAGE_CHARS + Z.to_nat REDACT_LOOKAHEAD_BYTES) message).

Definition jsonrpc_outcome (v : Value) (redactor : Redactor) : string :=
  match get "error" v with
  | None => "result"
  | Some e =>
      let code := default "without an integer code" (pretty <$> (get "code" e ≫= as_i64)) in
      let message := default "" (get "message" e ≫= as_str) in
      if str_is_empty message then "error " +:+ code
      else
        let window := message_window message in
        let cut := default (String.length window) (nth_char MAX_ERROR_MESSAGE_CHARS window) in
        "error " +:+ code +:+ ": " +:+ redact_then_cut (text_any_case redactor) window cut
  end.

Definition jsonrpc_result (v : Value) (redactor : Redactor) : result Value string :=
  match get "result" v, get "error" v with
  | Some r, None => Ok r
  | _, _ => Err ("the response is a JSON-RPC " +:+ jsonrpc_outcome v redactor +:+ ", not a result")
  end.

Definition listed_tools (v : Value) (redactor : Redactor) : result (list Value) string :=
  let? r := jsonrpc_result v redactor in
  ok_or (get "tools" r ≫= as_array) "the result has no tools list (it is not a tools/list result)".

Definition listed_tool (tools : list Value) (name : string) : option Value :=
  List.find (fun t => bool_decide ((get "name" t ≫= as_str) = Some name)) tools.

(** * Tool schemas *)

(** The order of [sort] on keys. *)
Definition key_le (a b : string * string) : Prop := String.leb a.1 b.1 = true.

#[export] Instance key_le_dec a b : Decision (key_le a b).
Proof. unfold key_le. apply _. Defined.

(** The text of a value with the members of objects in the order of their
    keys; a map's keys are unique. *)
Fixpoint canonical_json (v : Value) : string :=
  match v with
  | JObject o =>
      let members := (fix go o := match o with [] => [] | (k, w) :: o' => (k, canonical_json w) :: go o' end) o in
      "{" +:+ join "," (map (fun kt : string * string => json_text (JString kt.1) +:+ ":" +:+ kt.2) (merge_sort key_le members)) +:+ "}"
  | JArray a => "[" +:+ join "," ((fix go a := match a with [] => [] | w :: a' => canonical_json w :: go a' end) a) +:+ "]"
  | other => json_text other
  end.

Definition sha256_hex (bytes : list Z) : string := hex_encode (sha256 bytes).

Definition schema_sha256 (v : Value) : string := sha256_hex (bytes_of_string (canonical_json v)).

Definition tool_input_schema (body : list Z) (name : string) (schema sha : option string) (redactor : Redactor)
  : result (bool * option string) string :=
  if (if schema is None then if sha is None then true else false else false) then Err "give the expected inputSchema or its sha256"
  else
    let? v := jsonrpc_response body in
    let? tools := listed_tools v redactor in
    match listed_tool tools name with
    | None => Ok (false, Some "the tool is not listed")
    | Some tool =>
        match get "inputSchema" tool with
        | None => Ok (false, Some "the tool has no inputSchema")
        | Some actual =>
            let digest := schema_sha256 actual in
            let? passed :=
              match schema with
              | Some expected =>
                  let? expected := or_err "the expected schema is not JSON: " (json_from_slice (bytes_of_string expected)) in
                  Ok (value_eqb expected actual)
              | None => Ok true
              end in
            let passed := match sha with Some expected => passed && eq_ignore_ascii_case (trim expected) digest | None => passed end in
            Ok (passed, Some ("sha256 " +:+ digest))
        end
    end.

(** * Results *)

Definition body_not_available (reason : string) : string := "the complete response body is not available (" +:+ reason +:+ ")".

(** The serialized name of a transport state. *)
Definition transport_name (t : TransportState) : string :=
  match t with
  | TransportState_Completed => "completed"
  | TransportState_Failed => "failed"
  | TransportState_Canceled => "canceled"
  | TransportState_Incomplete => "incomplete"
  | TransportState_Unknown => "unknown"
  end.

(** The [Debug] text of a comparison and of a list of integers. *)
Definition comparison_name (c : Comparison) : string :=
  match c with
  | Comparison_Equals => "Equals" | Comparison_NotEquals => "NotEquals" | Comparison_Contains => "Contains"
  | Comparison_NotContains => "NotContains" | Comparison_Matches => "Matches" | Comparison_Exists => "Exists"
  | Comparison_NotExists => "NotExists" | Comparison_LessThan => "LessThan" | Comparison_GreaterThan => "GreaterThan"
  end.

Definition debug_list (l : list Z) : string := "[" +:+ join ", " (map pretty l) +:+ "]".

Definition default_label (k : AssertionKind) : string :=
  let compared what c value := what +:+ " " +:+ comparison_name c +:+ " " +:+ value in
  match k with
  | AssertionKind_Status c value => compared "status" c value
  | AssertionKind_StatusIn values => "status in " +:+ debug_list values
  | AssertionKind_Header name c value => compared ("header " +:+ name) c value
  | AssertionKind_Trailer name c value => compared ("trailer " +:+ name) c value
  | AssertionKind_JsonPath path c value => compared path c value
  | AssertionKind_XPath path c value => compared path c value
  | AssertionKind_JsonSchema _ => "body matches JSON Schema"
  | AssertionKind_Body c value => compared "body" c value
  | AssertionKind_LatencyMs max => "latency " +:+ string_of_bytes [0xE2; 0x89; 0xA4] +:+ " " +:+ pretty max +:+ " ms"
  | AssertionKind_GrpcStatus code => "grpc-status = " +:+ pretty code
  | AssertionKind_MessageCount c value => compared "messages" c (pretty value)
  | AssertionKind_Diagnostic code present => "diagnostic " +:+ code +:+ " " +:+ (if present then "present" else "absent")
  | AssertionKind_Transport state => "transport " +:+ state
  | AssertionKind_JsonRpcError code => "JSON-RPC error " +:+ pretty code
  | AssertionKind_JsonRpcResult => "JSON-RPC result"
  | AssertionKind_McpIsError is_error => "tool result isError = " +:+ (if is_error then "true" else "false")
  | AssertionKind_ToolPresent name => "tool " +:+ name +:+ " listed"
  | AssertionKind_ToolAbsent name => "tool " +:+ name +:+ " not listed"
  | AssertionKind_ToolInputSchema name _ _ => "tool " +:+ name +:+ " inputSchema"
  end.

Definition response_status (o : Observed) : option Z := resp_status <$> ob_response o.

(** Whether an assertion holds, with its actual value as the result shows
    it. *)
Definition judge (k : AssertionKind) (o : Observed) (redactor : Redactor) : result (bool * option string) string :=
  match k with
  | AssertionKind_Status c value =>
      let s := pretty <$> response_status o in
      let? passed := compare c s value in Ok (passed, s)
  | AssertionKind_StatusIn values =>
      let s := response_status o in
      Ok (if s is Some s then existsb (Z.eqb s) values else false, pretty <$> s)
  | AssertionKind_Header name c value =>
      let v := r ← ob_response o; head (header_values r name) in
      let? passed := compare c v value in Ok (passed, redact_header redactor name <$> v)
  | AssertionKind_Trailer name c value =>
      let v := r ← ob_response o; head (trailer_values r name) in
      let? passed := compare c v value in Ok (passed, redact_header redactor name <$> v)
  | AssertionKind_JsonPath path c value =>
      let? v := json_path (ob_body o) path in
      let? passed := compare c v value in Ok (passed, text_any_case redactor <$> v)
  | AssertionKind_XPath path c value =>
      let? v := xpath (ob_body o) path in
      let? passed := compare c v value in Ok (passed, text_any_case redactor <$> v)
  | AssertionKind_JsonSchema schema =>
      let? schema := or_err "schema is not JSON: " (json_from_slice (bytes_of_string schema)) in
      let? instance := or_err "body is not JSON: " (json_from_slice (ob_body o)) in
      let? validator := or_err "invalid schema: " (validator_for schema) in
      let errors := take 5 (validator instance) in
      Ok match errors with [] => (true, None) | _ => (false, Some (text_any_case redactor (join "; " errors))) end
  | AssertionKind_Body c value =>
      let? passed := compare c (Some (from_utf8_lossy (ob_body o))) value in Ok (passed, None)
  | AssertionKind_LatencyMs max =>
      Ok (if ob_latency_ms o is Some l then l <=? max else false, (fun l => pretty l +:+ " ms") <$> ob_latency_ms o)
  | AssertionKind_GrpcStatus code =>
      Ok match ob_protocol_status o with
         | ProtocolStatus_Grpc _ grpc_status _ _ => (bool_decide (grpc_status = Some code), pretty <$> grpc_status)
         | _ => (false, Some "not a gRPC call")
         end
  | AssertionKind_MessageCount c value =>
      let n := pretty ∘ str_received_count <$> ob_stream o in
      let? passed := compare c n (pretty value) in Ok (passed, n)
  | AssertionKind_Diagnostic code present =>
      let found := existsb (fun f => String.eqb (df_code f) code || starts_with (df_code f) (code +:+ ".")) (ob_findings o) in
      Ok (Bool.eqb found present, Some (if found then "present" else "absent"))
  | AssertionKind_Transport state =>
      let actual := transport_name (ob_transport o) in
      Ok (eq_ignore_ascii_case actual state, Some actual)
  | AssertionKind_JsonRpcError code =>
      let? v := jsonrpc_response (ob_body o) in
      let actual := e ← get "error" v; c ← get "code" e; as_i64 c in
      Ok (bool_decide (actual = Some code), Some (jsonrpc_outcome v redactor))
  | AssertionKind_JsonRpcResult =>
      let? v := jsonrpc_response (ob_body o) in
      Ok (match get "result" v, get "error" v with Some _, None => true | _, _ => false end, Some (jsonrpc_outcome v redactor))
  | AssertionKind_McpIsError is_error =>
      let? v := jsonrpc_response (ob_body o) in
      let? r := jsonrpc_result v redactor in
      let flag := default false (f ← get "isError" r; as_bool f) in
      Ok (Bool.eqb flag is_error, Some ("isError " +:+ (if flag then "true" else "false")))
  | AssertionKind_ToolPresent name | AssertionKind_ToolAbsent name =>
      let? v := jsonrpc_response (ob_body o) in
      let? tools := listed_tools v redactor in
      let listed := if listed_tool tools name is Some _ then true else false in
      let wanted := if k is AssertionKind_ToolPresent _ then true else false in
      Ok (Bool.eqb listed wanted,
          Some ((if listed then "listed" else "not listed") +:+ " (of " +:+ pretty (List.length tools) +:+ " listed tools)"))
  | AssertionKind_ToolInputSchema name schema sha => tool_input_schema (ob_body o) name schema sha redactor
  end.

(** One assertion. *)
Definition evaluate_one (a : Assertion) (o : Observed) (redactor : Redactor) : AssertionResult :=
  let label := text_any_case redactor (if str_is_empty (asn_label a) then default_label (asn_kind a) else asn_label a) in
  let res :=
    match ob_body_unavailable o with
    | Some reason => if reads_body (asn_kind a) then Err (body_not_available reason) else judge (asn_kind a) o redactor
    | None => judge (asn_kind a) o redactor
    end in
  match res with
  | Ok (passed, actual) =>
      mkAssertionResult label passed actual (if passed then "passed" else "failed (actual: " +:+ default "none" actual +:+ ")")
  | Err e => mkAssertionResult label false None ("could not evaluate: " +:+ text_any_case redactor e)
  end.

Definition evaluate (assertions : list Assertion) (o : Observed) (redactor : Redactor) : list AssertionResult :=
  map (fun a => evaluate_one a o redactor) (List.filter asn_enabled assertions).

(** * Extractions *)

Definition extraction_value (source : ExtractionSource) (response : option ResponseRecord) (body : list Z) : result (option string) string :=
  match source with
  | ExtractionSource_JsonPath path => json_path body path
  | ExtractionSource_XPath path => xpath body path
  | ExtractionSource_Header name => Ok (r ← response; head (header_values r name))
  | ExtractionSource_Regex pattern group =>
      let? re := or_err "invalid pattern: " (regex_build pattern) in
      Ok (c ← re_captures re (from_utf8_lossy body); m ← c !! Z.to_nat group; m)
  | ExtractionSource_Status => Ok (pretty ∘ resp_status <$> response)
  end.

Definition extracts_body (source : ExtractionSource) : bool :=
  match source with
  | ExtractionSource_JsonPath _ | ExtractionSource_XPath _ | ExtractionSource_Regex _ _ => true
  | ExtractionSource_Header _ | ExtractionSource_Status => false
  end.

(** One extraction: the variable, its value and whether it is sensitive. *)
Definition run_extraction (response : option ResponseRecord) (body : list Z) (body_unavailable : option string) (e : Extraction)
  : result (string * string * bool) string :=
  let named what := "extraction for '" +:+ ext_variable e +:+ "'" +:+ what in
  let run :=
    match extraction_value (ext_source e) response body with
    | Err x => Err (named (": " +:+ x))
    | Ok (Some v) => Ok (ext_variable e, v, ext_sensitive e)
    | Ok None => Err (named " matched nothing")
    end in
  match body_unavailable with
  | Some reason => if extracts_body (ext_source e) then Err (named (" was not run: " +:+ body_not_available reason)) else run
  | None => run
  end.

Definition extract (extractions : list Extraction) (response : option ResponseRecord) (body : list Z) (body_unavailable : option string)
  : list (result (string * string * bool) string) :=
  map (run_extraction response body body_unavailable) extractions.
End Judging.

(** * Verdicts *)

Section Facts.
Context `{Libraries} `{Judges} `{Unicode} `{XmlParser}.

(** Whether an assertion passes. *)
Definition verdict (r : result (bool * option string) string) : bool := match r with Ok (passed, _) => passed | Err _ => false end.

(** The redactor shows only in the error text. *)
Lemma jsonrpc_result_redactor v r1 r2 : match jsonrpc_result v r1, jsonrpc_result v r2 with Ok x, Ok y => x = y | Err _, Err _ => True | _, _ => False end.
Proof. unfold jsonrpc_result. destruct (get "result" v), (get "error" v); done. Qed.

Lemma listed_tools_redactor v r1 r2 : match listed_tools v r1, listed_tools v r2 with Ok x, Ok y => x = y | Err _, Err _ => True | _, _ => False end.
Proof.
  unfold listed_tools. pose proof (jsonrpc_result_redactor v r1 r2) as Hr.
  destruct (jsonrpc_result v r1), (jsonrpc_result v r2); try done. subst. cbn [result_bind]. unfold ok_or. by case_match.
Qed.

Lemma tool_input_schema_redactor body name schema sha r1 r2 :
  verdict (tool_input_schema body name schema sha r1) = verdict (tool_input_schema body name schema sha r2).
Proof.
  unfold tool_input_schema. destruct (match schema with None => _ | _ => _ end); [done|].
  destruct (jsonrpc_response body) as [v|]; [|done]. cbn [result_bind]. pose proof (listed_tools_redactor v r1 r2) as Hr.
  destruct (listed_tools v r1), (listed_tools v r2); try done. by subst.
Qed.

Lemma judge_redactor k o r1 r2 : verdict (judge k o r1) = verdict (judge k o r2).
Proof.
  assert (Hb : forall (m : result bool string) (a b : option string), verdict (let? passed := m in Ok (passed, a)) = verdict (let? passed := m in Ok (passed, b))) by (by intros []).
  destruct k; cbn [judge]; try done; try apply Hb.
  - destruct (json_path _ _); cbn [result_bind]; [apply Hb|done].
  - destruct (xpath _ _); cbn [result_bind]; [apply Hb|done].
  - do 3 (destruct (or_err _ _); cbn [result_bind]; [|done]). by destruct (take 5 _).
  - by destruct (jsonrpc_response _).
  - by destruct (jsonrpc_response _).
  - destruct (jsonrpc_response _) as [v|]; cbn [result_bind]; [|done]. pose proof (jsonrpc_result_redactor v r1 r2) as Hr.
    destruct (jsonrpc_result v r1), (jsonrpc_result v r2); try done. by subst.
  - destruct (jsonrpc_response _) as [v|]; cbn [result_bind]; [|done]. pose proof (listed_tools_redactor v r1 r2) as Hr.
    destruct (listed_tools v r1), (listed_tools v r2); try done. by subst.
  - destruct (jsonrpc_response _) as [v|]; cbn [result_bind]; [|done]. pose proof (listed_tools_redactor v r1 r2) as Hr.
    destruct (listed_tools v r1), (listed_tools v r2); try done. by subst.
  - apply tool_input_schema_redactor.
Qed.

Lemma evaluate_one_passed a o r : ar_passed (evaluate_one a o r) =
  if (if ob_body_unavailable o is Some _ then reads_body (asn_kind a) else false) then false else verdict (judge (asn_kind a) o r).
Proof.
  unfold evaluate_one. destruct (ob_body_unavailable o) as [reason|]; [destruct (reads_body (asn_kind a)); [done|]|]; by destruct (judge _ _ _) as [[]|].
Qed.

(** Secrets never decide a verdict: whatever redactors two evaluations
    run with, every assertion comes out the same; only the evidence is
    redacted, the comparison always reads the original values. *)
Theorem verdicts_ignore_redactor assertions o r1 r2 :
  map ar_passed (evaluate assertions o r1) = map ar_passed (evaluate assertions o r2).
Proof.
  unfold evaluate. rewrite !map_map. apply map_ext. intros a. rewrite !evaluate_one_passed. destruct (match ob_body_unavailable o with Some _ => _ | None => _ end); [done|].
  apply judge_redactor.
Qed.

(** * A body that is not complete *)

Definition with_body (o : Observed) (body : list Z) : Observed :=
  mkObserved (ob_response o) body (ob_body_unavailable o) (ob_latency_ms o) (ob_protocol_status o) (ob_stream o) (ob_findings o) (ob_transport o).

Lemma judge_without_body k o body r : reads_body k = false -> judge k (with_body o body) r = judge k o r.
Proof. by destruct k. Qed.

(** No assertion and no extraction is judged against a body that is cut
    short or not decoded: with a reason why the body is not complete, results
    and extracted values are the same whatever its bytes are, and every
    enabled assertion that reads the body fails. *)
Theorem incomplete_body_unread assertions extractions o body reason r : ob_body_unavailable o = Some reason ->
  evaluate assertions (with_body o body) r = evaluate assertions o r /\
  extract extractions (ob_response o) body (Some reason) = extract extractions (ob_response o) (ob_body o) (Some reason) /\
  Forall (fun a => reads_body (asn_kind a) = true -> ar_passed (evaluate_one a o r) = false /\ ar_actual (evaluate_one a o r) = None) assertions.
Proof.
  intros Ho. split; [|split].
  - apply map_ext. intros a. unfold evaluate_one. cbn [with_body ob_body_unavailable]. rewrite Ho.
    destruct (reads_body (asn_kind a)) eqn:E; [done|]. by rewrite judge_without_body.
  - apply map_ext. intros e. unfold run_extraction. by destruct (ext_source e).
  - apply list.Forall_forall. intros a _ E. unfold evaluate_one. by rewrite Ho, E.
Qed.

(** * Evidence *)







(** * Tool schemas *)

(** The same value with the members of its objects in any order. *)
Fixpoint reordered (v w : Value) : Prop :=
  match v, w with
  | JArray a, JArray b =>
      (fix go a b := match a, b with [], [] => True | x :: a', y :: b' => reordered x y /\ go a' b' | _, _ => False end) a b
  | JObject o, JObject p =>
      keys o ≡ₚ keys p /\
      (fix go o := match o with [] => True | (k, x) :: o' => (exists y, obj_get k p = Some y /\ reordered x y) /\ go o' end) o
  | JArray _, _ | JObject _, _ | _, JArray _ | _, JObject _ => False
  | _, _ => v = w
  end.

Definition canonical_members (o : Object) : list (string * string) := map (fun kv => (kv.1, canonical_json kv.2)) o.

Lemma canonical_object o : canonical_json (JObject o) =
  "{" +:+ join "," (map (fun kt : string * string => json_text (JString kt.1) +:+ ":" +:+ kt.2) (merge_sort key_le (canonical_members o))) +:+ "}".
Proof.
  cbn [canonical_json]. do 4 f_equal. unfold canonical_members. f_equal. induction o as [|[k w] o IH]; [done|]. cbn [map]. by rewrite IH.
Qed.

Lemma canonical_array a : canonical_json (JArray a) = "[" +:+ join "," (map canonical_json a) +:+ "]".
Proof. reflexivity. Qed.

Lemma key_le_iff a b : key_le a b <-> kcmp a.1 b.1 <> Gt.
Proof. unfold key_le, String.leb. change (String.compare a.1 b.1) with (kcmp a.1 b.1). by destruct (kcmp a.1 b.1). Qed.

#[local] Instance key_le_total : Total key_le.
Proof.
  intros a b. rewrite !key_le_iff. destruct (kcmp a.1 b.1) eqn:E; [by left|by left|]. right. rewrite kcmp_antisym, E. done.
Qed.

#[local] Instance key_le_trans : Transitive key_le.
Proof.
  intros a b c. rewrite !key_le_iff. destruct (kcmp a.1 b.1) eqn:E1, (kcmp b.1 c.1) eqn:E2; try done; intros _ _.
  - apply kcmp_eq in E1 as ->. by rewrite E2.
  - apply kcmp_eq in E1 as ->. by rewrite E2.
  - apply kcmp_eq in E2 as <-. by rewrite E1.
  - by rewrite (kcmp_trans _ _ _ E1 E2).
Qed.

(** Members in the order of unique keys are one list. *)
Lemma sorted_members m1 m2 : NoDup m1.*1 -> m1 ≡ₚ m2 -> merge_sort key_le m1 = merge_sort key_le m2.
Proof.
  intros Hn Hp. apply (StronglySorted_unique_strong key_le).
  - intros x y Hx Hy Hxy Hyx. rewrite merge_sort_Permutation in Hx. rewrite merge_sort_Permutation, <- Hp in Hy.
    apply key_le_iff in Hxy, Hyx. assert (Hk : x.1 = y.1).
    { apply kcmp_eq. destruct (kcmp x.1 y.1) eqn:E; [done| |by destruct Hxy]. exfalso. apply Hyx. by apply kcmp_gt_lt. }
    destruct x as [k x], y as [k' y]. cbn in Hk. subst k'. f_equal.
    apply list_elem_of_lookup in Hx as [i Hi], Hy as [j Hj].
    assert (i = j) as <-. { eapply NoDup_lookup; [exact Hn|..]; rewrite list_lookup_fmap; [by rewrite Hi|by rewrite Hj]. }
    congruence.
  - apply StronglySorted_merge_sort; apply _.
  - apply StronglySorted_merge_sort; apply _.
  - by rewrite !merge_sort_Permutation.
Qed.

Lemma reordered_array a b : reordered (JArray a) (JArray b) <-> Forall2 reordered a b.
Proof.
  cbn [reordered]. revert b. induction a as [|x a IH]; intros [|y b]; [by split; [constructor|]|by split; [|inversion 1]..|].
  rewrite Forall2_cons, <- IH. done.
Qed.

Lemma reordered_object o p : reordered (JObject o) (JObject p) <->
  keys o ≡ₚ keys p /\ Forall (fun kv => exists w, obj_get kv.1 p = Some w /\ reordered kv.2 w) o.
Proof.
  cbn [reordered]. apply and_iff_compat_l. induction o as [|[k x] o IH]; [by split|]. rewrite list.Forall_cons, <- IH. done.
Qed.

Lemma canonical_reordered v : forall w, wf_value v -> wf_value w -> reordered v w -> canonical_json v = canonical_json w.
Proof.
  induction v as [|b|n|s|a IH|o IH] using value_ind; intros w Hv Hw Hr;
    try (destruct w; cbn [reordered] in Hr; try done; by rewrite Hr).
  - destruct w as [| | | |b|]; try done. rewrite !canonical_array. do 3 f_equal.
    apply reordered_array in Hr. apply wf_JArray in Hv, Hw. revert IH Hv Hw. induction Hr as [|x y a b Hxy _ IHr]; intros IH Hv Hw; [done|].
    apply list.Forall_cons in IH as [IHx IH], Hv as [Hvx Hv], Hw as [Hwy Hw]. cbn [map]. f_equal; [by apply IHx|by apply IHr].
  - destruct w as [| | | | |p]; try done. rewrite !canonical_object. do 4 f_equal. apply reordered_object in Hr as [Hk Hm].
    apply wf_JObject in Hv as [Ho Hov], Hw as [Hp Hpv].
    assert (Hkeys : forall q, (canonical_members q).*1 = keys q).
    { intros q. unfold canonical_members, keys. rewrite <- list_fmap_compose. by apply list_fmap_ext. }
    apply sorted_members; [by rewrite Hkeys|].
    apply NoDup_Permutation_bis.
    + apply NoDup_ListNoDup, (NoDup_fmap_1 fst). by rewrite Hkeys.
    + unfold canonical_members. rewrite !length_map. apply Permutation_length in Hk. unfold keys in Hk. rewrite !length_fmap in Hk. by rewrite Hk.
    + intros [k t] Hin. apply in_map_iff in Hin as ([k' x] & [= <- <-] & Hin%list_elem_of_In).
      rewrite list.Forall_forall in Hm, Hov, IH. destruct (Hm _ Hin) as (w & Hw & Hxw). cbn in *.
      pose proof (obj_get_elem _ _ _ Hw) as Hpw. rewrite list.Forall_forall in Hpv.
      pose proof (IH _ Hin w (Hov _ Hin) (Hpv _ Hpw) Hxw) as Hc. cbn in Hc |- *. rewrite Hc. apply in_map_iff. exists (k', w). split; [done|by apply list_elem_of_In].
Qed.

(** The digest of a tool's input schema does not depend on how the server
    orders it: two values that differ only in the order of the members of
    their objects, at any depth, have one canonical text and one digest. *)
Theorem schema_digest_unordered v w : wf_value v -> wf_value w -> reordered v w ->
  canonical_json v = canonical_json w /\ schema_sha256 v = schema_sha256 w.
Proof. intros Hv Hw Hr. pose proof (canonical_reordered v w Hv Hw Hr) as E. split; [done|]. unfold schema_sha256. by rewrite E. Qed.

(** * Numeric comparisons *)

(** Numeric comparisons of integers are exact below 2^53: when both texts
    are, but for white space around them, decimal integers with a sign or none
    and an absolute value below 2^53, [LessThan] and [GreaterThan] compare the
    integers, as the correctly rounded doubles they are read as. *)
Theorem integers_compared_exactly a expected s1 d1 n1 s2 d2 n2 :
  trim a = integer_text s1 d1 -> trim expected = integer_text s2 d2 -> str_is_empty d1 = false -> str_is_empty d2 = false ->
  digits_value 0 d1 = Some n1 -> digits_value 0 d2 = Some n2 -> n1 < 2 ^ 53 -> n2 < 2 ^ 53 ->
  let v s n := signed_value (if s is Some true then true else false) n in
  compare Comparison_LessThan (Some a) expected = Ok (v s1 n1 <? v s2 n2) /\
  compare Comparison_GreaterThan (Some a) expected = Ok (v s2 n2 <? v s1 n1).
Proof.
  intros E1 E2 N1 N2 D1 D2 B1 B2. cbv zeta. pose proof (digits_nonneg 0 d1 n1 ltac:(lia) D1). pose proof (digits_nonneg 0 d2 n2 ltac:(lia) D2).
  unfold compare. cbn [mbind option_bind]. rewrite E1, E2, (parse_integer s1 d1 n1), (parse_integer s2 d2 n2) by done.
  split; by rewrite integers_compare.
Qed.
End Facts.

(** * Witnesses *)

(** The documents of the examples; the parser of [demo_judges] reads them by
    name. *)
Definition demo_denied : Value :=
  JObject [("id", JNumber (PosInt 2)); ("error", JObject [("code", JNumber (NegInt (-32602))); ("message", JString "bad s3cr3t-toto")])].

Definition demo_tool (schema : Value) : Value :=
  JObject [("result", JObject [("tools", JArray [JObject [("name", JString "fx.echo"); ("inputSchema", schema)]])])].

Definition demo_schema : Value := JObject [("type", JString "object"); ("required", JArray [JString "text"])].
Definition demo_schema' : Value := JObject [("required", JArray [JString "text"]); ("type", JString "object")].

Definition demo_json_text (v : Value) : string := match v with JString s => String "034" (s +:+ String "034" "") | JNumber (PosInt n) => pretty n | _ => "" end.

#[local] Instance demo_judges : Judges := {|
  json_from_slice body := match string_of_bytes body with
    | "denied" => Ok demo_denied | "tools" => Ok (demo_tool demo_schema) | "schema" => Ok demo_schema' | _ => Err "expected value at line 1 column 1" end;
  json_text := demo_json_text;
  jsonpath_parse path := if String.eqb path "$.error.message" then Ok (fun v => option_list (e ← get "error" v; get "message" e)) else Err "no";
  validator_for _ := Ok (fun _ => []);
  regex_build _ := Err "no";
  sha256 bytes := [blen bytes mod 256]
|}.

#[local] Instance demo_unicode : Unicode := mkUnicode (fun _ => true) (fun _ => true).
#[local] Instance demo_parser : XmlParser := fun _ _ => Err None.
#[local] Existing Instance simple_libraries.
#[local] Existing Instance simple_libraries_laws.
#[local] Existing Instance simple_decode_laws.

Definition demo_observed (body : string) (unavailable : option string) : Observed :=
  mkObserved None (bytes_of_string body) unavailable (Some 12) ProtocolStatus_None None [] TransportState_Completed.

Definition demo_assertions : list Assertion :=
  [mkAssertion true "" (AssertionKind_JsonRpcError (-32602)); mkAssertion true "is it S3cr3t-Toto?" (AssertionKind_JsonPath "$.error.message" Comparison_Contains "s3cr3t-toto");
   mkAssertion false "" AssertionKind_JsonRpcResult; mkAssertion true "" (AssertionKind_LatencyMs 10);
   mkAssertion true "" (AssertionKind_ToolPresent "fx.echo")].

Definition demo_extractions : list Extraction := [mkExtraction "m" (ExtractionSource_JsonPath "$.error.message") true; mkExtraction "s" ExtractionSource_Status false].

Example demo_results : evaluate demo_assertions (demo_observed "denied" None) demo_redactor =
  [mkAssertionResult "JSON-RPC error -32602" true (Some ("error -32602: bad " +:+ REDACTED)) "passed";
   mkAssertionResult ("is it " +:+ REDACTED +:+ "?") true (Some ("bad " +:+ REDACTED)) "passed";
   mkAssertionResult ("latency " +:+ string_of_bytes [0xE2; 0x89; 0xA4] +:+ " 10 ms") false (Some "12 ms") "failed (actual: 12 ms)";
   mkAssertionResult "tool fx.echo listed" false None
     ("could not evaluate: the response is a JSON-RPC error -32602: bad " +:+ REDACTED +:+ ", not a result")].
Proof. vm_compute. reflexivity. Qed.

Example demo_digests :
  tool_input_schema (bytes_of_string "tools") "fx.echo" (Some "schema") None demo_redactor = Ok (true, Some "sha256 25") /\
  tool_input_schema (bytes_of_string "tools") "fx.echo" None (Some " 25 ") demo_redactor = Ok (true, Some "sha256 25") /\
  tool_input_schema (bytes_of_string "tools") "fx.nope" None (Some "25") demo_redactor = Ok (false, Some "the tool is not listed") /\
  tool_input_schema (bytes_of_string "x") "fx.echo" None None demo_redactor = Err "give the expected inputSchema or its sha256".
Proof. vm_compute. repeat split. Qed.

Example demo_extracted : extract demo_extractions None (bytes_of_string "denied") None =
  [Ok ("m", "bad s3cr3t-toto", true); Err "extraction for 's' matched nothing"].
Proof. vm_compute. reflexivity. Qed.

Lemma incomplete_body_unread_witness :
  let o := demo_observed "denied" (Some "cut") in
  evaluate demo_assertions (with_body o [1; 2]) demo_redactor = evaluate demo_assertions o demo_redactor /\
  extract demo_extractions None [1; 2] (Some "cut") = extract demo_extractions None (bytes_of_string "denied") (Some "cut") /\
  Forall (fun a => reads_body (asn_kind a) = true -> ar_passed (evaluate_one a o demo_redactor) = false /\ ar_actual (evaluate_one a o demo_redactor) = None)
    demo_assertions.
Proof. exact (incomplete_body_unread demo_assertions demo_extractions (demo_observed "denied" (Some "cut")) [1; 2] "cut" demo_redactor eq_refl). Defined.


Lemma schema_digest_unordered_witness : canonical_json demo_schema = canonical_json demo_schema' /\ schema_sha256 demo_schema = schema_sha256 demo_schema'.
Proof.
  apply (schema_digest_unordered demo_schema demo_schema'); [by vm_compute|by vm_compute|]. apply reordered_object. split.
  - apply (Permutation_swap "required" "type" []).
  - repeat constructor; eexists; split; try reflexivity; by cbn.
Defined.

Lemma integers_compared_exactly_witness :
  compare Comparison_LessThan (Some " -9007199254740991") "-9007199254740990 " = Ok true /\
  compare Comparison_GreaterThan (Some " -9007199254740991") "-9007199254740990 " = Ok false.
Proof.
  apply (integers_compared_exactly " -9007199254740991" "-9007199254740990 " (Some true) "9007199254740991" 9007199254740991 (Some true) "9007199254740990" 9007199254740990);
    first [reflexivity|lia].
Defined.
