(* ===== verification/Patch.v ===== *)
(** Suggested changes to a description ([anvil-contract/src/patch.rs]): the
    four operations at an RFC 6901 pointer, all-or-nothing application with
    its undo records, and the RFC 6902 difference of two documents.

    [&mut Value] results of the source's walks are modelled by continuations:
    [walk_to] and [walk_existing] apply what the caller does with the
    reference, and give back the whole document with the count of failures
    ([1] where the source's walk returns [None]). *)
From S2P Require Import Prelude Text Json.
From stdpp Require Import base list numbers strings.
From Stdlib Require Import ZArith Lia Ascii String.
Open Scope Z_scope.
Open Scope string_scope.

(** * Pointers *)

(** [str::replace] of one byte. *)
Fixpoint replace_char (c : ascii) (to s : string) : string :=
  match s with
  | "" => ""
  | String x s' => if Ascii.eqb x c then to ++ replace_char c to s' else String x (replace_char c to s')
  end.

(** [str::replace] of a two-byte pattern: leftmost matches, not overlapping. *)
Fixpoint replace_pair (a b : ascii) (to s : string) : string :=
  match s with
  | String x (String y s'' as s') =>
      if Ascii.eqb x a && Ascii.eqb y b then to ++ replace_pair a b to s'' else String x (replace_pair a b to s')
  | _ => s
  end.

(** [str::parse::<usize>]: an optional [+], then digits, in the [u64] range. *)
Definition parse_usize (s : string) : option Z :=
  let digits := match s with String "+" s' => s' | _ => s end in
  if str_is_empty digits then None else
  n ← digits_value 0 digits;
  if decide (n <= U64_MAX) then Some n else None.

Definition unescape (t : string) : string := replace_pair "~" "0" "~" (replace_pair "~" "1" "/" t).

Definition pointer_tokens (pointer : string) : list string := map unescape (tail (split_on "/" pointer)).

Definition escape (t : string) : string := replace_char "/" "~1" (replace_char "~" "~0" t).

(** * Operations *)

Inductive PatchKind :=
  | PatchKind_Add
  | PatchKind_Replace
  | PatchKind_Remove
  | PatchKind_Union.

Record PatchOp := mkPatchOp { op : PatchKind; path : string; value : option Value }.

Definition PatchOp_add (path : string) (value : Value) : PatchOp := mkPatchOp PatchKind_Add path (Some value).
Definition PatchOp_replace (path : string) (value : Value) : PatchOp :=
  mkPatchOp PatchKind_Replace path (Some value).
Definition PatchOp_remove (path : string) : PatchOp := mkPatchOp PatchKind_Remove path None.
Definition PatchOp_union (path : string) (items : list Value) : PatchOp :=
  mkPatchOp PatchKind_Union path (Some (JArray items)).

Fixpoint merge_keep (into add : Value) {struct add} : Value :=
  match into, add with
  | JObject a, JObject b =>
      JObject (fold_left (fun a kv =>
        match obj_get kv.1 a with
        | Some existing => obj_insert kv.1 (merge_keep existing kv.2) a
        | None => obj_insert kv.1 kv.2 a
        end) b a)
  | _, _ => into
  end.

(** [a.get(i)] for an index of machine width. *)
Definition arr_get (i : Z) (a : list Value) : option Value :=
  if (i <? Z.of_nat (List.length a))%Z then a !! Z.to_nat i else None.

(** The child a pointer token names in an array. *)
Definition arr_child (t : string) (a : list Value) : option (nat * Value) :=
  i ← parse_usize t; v ← arr_get i a; Some (Z.to_nat i, v).

(** The loop [for i in items { if !list.contains(&i) { list.push(i) } }]. *)
Definition push_missing (existing items : list Value) : list Value :=
  fold_left (fun l i => if existsb (fun x => value_eqb x i) l then l else (l ++ [i])%list) items existing.

(** The items of a union's value. *)
Definition union_items (v : option Value) : list Value :=
  match v with
  | Some (JArray a) => a
  | Some v => [v]
  | None => []
  end.

(** What [apply] does at the parent of the last token. *)
Definition apply_at (o : PatchOp) (last : string) (cur : Value) : Value * nat :=
  let v := default JNull (value o) in
  match op o, cur with
  | PatchKind_Remove, JObject m =>
      if obj_contains last m then (JObject (obj_remove last m), 0%nat) else (cur, 1%nat)
  | PatchKind_Remove, JArray a =>
      match arr_child last a with
      | Some (i, _) => (JArray (delete i a), 0%nat)
      | None => (cur, 1%nat)
      end
  | PatchKind_Add, JObject m =>
      match obj_get last m with
      | Some existing => (JObject (obj_insert last (merge_keep existing v) m), 0%nat)
      | None => (JObject (obj_insert last v m), 0%nat)
      end
  | PatchKind_Union, JObject m =>
      let items := union_items (value o) in
      match obj_get last m with
      | Some (JArray existing) => (JObject (obj_insert last (JArray (push_missing existing items)) m), 0%nat)
      | Some (JObject _) => (cur, 1%nat)
      | Some single =>
          let list := match single with JNull => [] | _ => [single] end in
          (JObject (obj_insert last (JArray (push_missing list items)) m), 0%nat)
      | None => (JObject (obj_insert last (JArray items) m), 0%nat)
      end
  | PatchKind_Replace, JObject m => (JObject (obj_insert last v m), 0%nat)
  | (PatchKind_Add | PatchKind_Replace), JArray a =>
      if String.eqb last "-" then (JArray (a ++ [v])%list, 0%nat)
      else
        match parse_usize last with
        | Some i =>
            if (i <? Z.of_nat (List.length a))%Z && (if op o is PatchKind_Replace then true else false)
            then (JArray (<[Z.to_nat i := v]> a), 0%nat)
            else if (i <=? Z.of_nat (List.length a))%Z
            then (JArray (take (Z.to_nat i) a ++ v :: drop (Z.to_nat i) a)%list, 0%nat)
            else (cur, 1%nat)
        | None => (cur, 1%nat)
        end
  | _, _ => (cur, 1%nat)
  end.

(** [toks] is the rest of the tokens from the first of [parents] on. *)
Fixpoint walk_to (cur : Value) (parents toks : list string) (k : Value -> Value * nat) : Value * nat :=
  match parents with
  | [] => k cur
  | t :: parents' =>
      let child_is_list := bool_decide (toks !! 1%nat = Some "-") in
      match cur with
      | JObject o =>
          let child := default (if child_is_list then JArray [] else JObject []) (obj_get t o) in
          let '(child', failed) := walk_to child parents' (tail toks) k in
          (JObject (obj_insert t child' o), failed)
      | JArray a =>
          match arr_child t a with
          | Some (i, child) =>
              let '(child', failed) := walk_to child parents' (tail toks) k in
              (JArray (<[i := child']> a), failed)
          | None => (cur, 1%nat)
          end
      | _ => (cur, 1%nat)
      end
  end.

Fixpoint walk_existing (cur : Value) (parents : list string) (k : Value -> Value * nat) : Value * nat :=
  match parents with
  | [] => k cur
  | t :: parents' =>
      match cur with
      | JObject o =>
          match obj_get t o with
          | Some child =>
              let '(child', failed) := walk_existing child parents' k in
              (JObject (obj_insert t child' o), failed)
          | None => (cur, 1%nat)
          end
      | JArray a =>
          match arr_child t a with
          | Some (i, child) =>
              let '(child', failed) := walk_existing child parents' k in
              (JArray (<[i := child']> a), failed)
          | None => (cur, 1%nat)
          end
      | _ => (cur, 1%nat)
      end
  end.

(** [split_last]. *)
Definition split_last (toks : list string) : option (string * list string) :=
  match last toks with Some t => Some (t, removelast toks) | None => None end.

(** One turn of [apply]'s loop, with the tokens of the path. *)
Definition apply_tokens (o : PatchOp) (toks : list string) (doc : Value) : Value * nat :=
  match split_last toks with
  | None =>
      let v := default JNull (value o) in
      match op o with
      | PatchKind_Add => (merge_keep doc v, 0%nat)
      | PatchKind_Replace | PatchKind_Union => (v, 0%nat)
      | PatchKind_Remove => (doc, 1%nat)
      end
  | Some (last, parents) =>
      match op o with
      | PatchKind_Remove => walk_existing doc parents (apply_at o last)
      | _ => walk_to doc parents toks (apply_at o last)
      end
  end.

Definition apply_one (doc : Value) (o : PatchOp) : Value * nat := apply_tokens o (pointer_tokens (path o)) doc.

Definition apply (doc : Value) (ops : list PatchOp) : Value * nat :=
  fold_left (fun '(d, failed) o => let '(d', n) := apply_one d o in (d', (failed + n)%nat)) ops (doc, 0%nat).

(** * Undo *)

Inductive Undo :=
  | Undo_Nothing
  | Undo_Set (at_ : list string) (v : Value)
  | Undo_RemoveKey (at_ : list string) (k : string)
  | Undo_Truncate (at_ : list string) (len : nat)
  | Undo_Reinsert (at_ : list string) (k : string) (i : nat) (v : Value).

(** The walk of [undo_for] from the tokens already taken. *)
Fixpoint undo_from (prefix : list string) (node : Value) (toks : list string) (kind : PatchKind) : Undo :=
  match toks with
  | [] => Undo_Nothing
  | t :: toks' =>
      let is_last := if toks' is [] then true else false in
      match node with
      | JObject o =>
          match obj_get t o with
          | Some child =>
              if is_last then
                if kind is PatchKind_Remove
                then Undo_Reinsert prefix t (default 0%nat (obj_position t o)) child
                else Undo_Set (prefix ++ [t])%list child
              else undo_from (prefix ++ [t])%list child toks' kind
          | None => if kind is PatchKind_Remove then Undo_Nothing else Undo_RemoveKey prefix t
          end
      | JArray a =>
          if String.eqb t "-" then Undo_Truncate prefix (List.length a)
          else if is_last then Undo_Set prefix node
          else
            match arr_child t a with
            | Some (_, child) => undo_from (prefix ++ [t])%list child toks' kind
            | None => Undo_Nothing
            end
      | _ => Undo_Nothing
      end
  end.

Definition undo_for (doc : Value) (o : PatchOp) : Undo :=
  let toks := pointer_tokens (path o) in
  if toks is [] then Undo_Set [] doc else undo_from [] doc toks (op o).

Definition restore (doc : Value) (u : Undo) : Value :=
  match u with
  | Undo_Nothing => doc
  | Undo_Set at_ v => (walk_existing doc at_ (fun _ => (v, 0%nat))).1
  | Undo_RemoveKey at_ k =>
      (walk_existing doc at_ (fun n => (if n is JObject o then JObject (obj_remove k o) else n, 0%nat))).1
  | Undo_Truncate at_ len =>
      (walk_existing doc at_ (fun n => (if n is JArray a then JArray (take len a) else n, 0%nat))).1
  | Undo_Reinsert at_ k i v =>
      (walk_existing doc at_ (fun n =>
         (if n is JObject o then JObject (obj_shift_insert (i `min` List.length o) k v o) else n, 0%nat))).1
  end.

(** The loop of [apply_atomic] with the undo records kept so far, newest
    first. *)
Fixpoint apply_atomic_from (undo : list Undo) (doc : Value) (ops : list PatchOp) : Value * bool :=
  match ops with
  | [] => (doc, true)
  | o :: ops' =>
      let undo := undo_for doc o :: undo in
      let '(doc, failed) := apply doc [o] in
      if (0 <? failed)%nat then (fold_left restore undo doc, false)
      else apply_atomic_from undo doc ops'
  end.

Definition apply_atomic (doc : Value) (ops : list PatchOp) : Value * bool := apply_atomic_from [] doc ops.

(** * Differences *)

(** [json!({"op": .., "path": .., ("value": ..)})]. *)
Definition json_op (name path : string) (v : option Value) : Value :=
  JObject ([("op", JString name); ("path", JString path)] ++
           match v with Some v => [("value", v)] | None => [] end)%list.

(** [y.starts_with(x)] with values' [==]. *)
Fixpoint values_start_with (y x : list Value) : bool :=
  match x, y with
  | [], _ => true
  | a :: x', b :: y' => value_eqb a b && values_start_with y' x'
  | _ :: _, [] => false
  end.

Fixpoint diff_at (a b : Value) (at_ : string) {struct b} : list Value :=
  if value_eqb a b then [] else
  match a, b with
  | JObject x, JObject y =>
      let member k := at_ ++ "/" ++ escape k in
      (map (fun k => json_op "remove" (member k) None)
         (List.filter (fun k => negb (obj_contains k y)) (keys x)) ++
       flat_map (fun kv =>
         let p := member kv.1 in
         match obj_get kv.1 x with
         | Some old => diff_at old kv.2 p
         | None => [json_op "add" p (Some kv.2)]
         end) y)%list
  | JArray x, JArray y =>
      if (List.length x <? List.length y)%nat && values_start_with y x
      then map (fun v => json_op "add" (at_ ++ "/-") (Some v)) (drop (List.length x) y)
      else [json_op "replace" at_ (Some b)]
  | _, _ => [json_op "replace" at_ (Some b)]
  end.

Definition diff (from to : Value) : list Value := diff_at from to "".

(** [PatchOp]'s derived [Deserialize] on an object ([snake_case] kinds, the
    value optional). *)
Definition PatchOp_deserialize (v : Value) : option PatchOp :=
  match v with
  | JObject o =>
      kind ← match obj_get "op" o with
             | Some (JString "add") => Some PatchKind_Add
             | Some (JString "replace") => Some PatchKind_Replace
             | Some (JString "remove") => Some PatchKind_Remove
             | Some (JString "union") => Some PatchKind_Union
             | _ => None
             end;
      match obj_get "path" o with
      | Some (JString p) => Some (mkPatchOp kind p (match obj_get "value" o with Some JNull => None | r => r end))
      | _ => None
      end
  | _ => None
  end.

(** * Fragments *)

(** [anvil_import::Syntax]. *)
Inductive Syntax :=
  | Syntax_Json
  | Syntax_Yaml
  | Syntax_Xml
  | Syntax_Shell
  | Syntax_Unknown.

Section Fragment.
(** [serde_json::to_string_pretty] and [serde_norway::to_string], with the
    empty text where they fail. *)
Variable to_string_pretty yaml_to_string : Value -> string.

Definition render (v : Value) (syntax : Syntax) : string :=
  match syntax with
  | Syntax_Json => to_string_pretty v ++ String "010" ""
  | _ => yaml_to_string v
  end.

(** The value nested under the tokens, innermost first. *)
Definition nested (toks : list string) (v : Value) : Value := fold_left (fun v t => JObject [(t, v)]) (rev toks) v.

Definition fragment (ops : list PatchOp) (syntax : Syntax) : string :=
  let '(root, removed) :=
    fold_left (fun '(root, removed) o =>
      match op o with
      | PatchKind_Remove => (root, (removed ++ [path o])%list)
      | _ => (merge_keep root (nested (pointer_tokens (path o)) (default JNull (value o))), removed)
      end) ops (JObject [], []) in
  fold_left (fun text r => text ++ "# remove " ++ r ++ String "010" "") removed (render root syntax).
End Fragment.

(** * Pointers round-trip *)

(** What [escape] writes for one byte. *)
Fixpoint escaped (t : string) : string :=
  match t with
  | "" => ""
  | String c t' => (if Ascii.eqb c "~" then "~0" else if Ascii.eqb c "/" then "~1" else String c "") ++ escaped t'
  end.

Lemma replace_char_app c to a b : replace_char c to (a ++ b) = replace_char c to a ++ replace_char c to b.
Proof.
  induction a as [|x a IH]; simpl; [done|]. rewrite IH.
  destruct (Ascii.eqb x c); [by rewrite str_app_assoc|done].
Qed.

Lemma escape_escaped t : escape t = escaped t.
Proof.
  unfold escape. induction t as [|c t IH]; [done|]. simpl.
  destruct (Ascii.eqb c "~") eqn:E; [rewrite replace_char_app, IH; done|].
  simpl. destruct (Ascii.eqb c "/") eqn:E2; by rewrite IH.
Qed.

Lemma replace_pair_other a b to c s : c <> a -> replace_pair a b to (String c s) = String c (replace_pair a b to s).
Proof.
  intros Hne%Ascii.eqb_neq. destruct s as [|y s]; [done|]. cbn [replace_pair]. by rewrite Hne.
Qed.

Lemma unescape_escape t : unescape (escape t) = t.
Proof.
  rewrite escape_escaped. unfold unescape. induction t as [|c t IH]; [done|]. cbn [escaped].
  destruct (Ascii.eqb_spec c "~") as [->|H1].
  { change ("~0" ++ escaped t) with (String "~" (String "0" (escaped t))).
    change (replace_pair "~" "1" "/" (String "~" (String "0" (escaped t))))
      with (String "~" (replace_pair "~" "1" "/" (String "0" (escaped t)))).
    rewrite (replace_pair_other "~" "1") by done.
    change (replace_pair "~" "0" "~" (String "~" (String "0" (replace_pair "~" "1" "/" (escaped t)))))
      with (String "~" (replace_pair "~" "0" "~" (replace_pair "~" "1" "/" (escaped t)))).
    by rewrite IH. }
  destruct (Ascii.eqb_spec c "/") as [->|H2].
  { change ("~1" ++ escaped t) with (String "~" (String "1" (escaped t))).
    change (replace_pair "~" "1" "/" (String "~" (String "1" (escaped t))))
      with (String "/" (replace_pair "~" "1" "/" (escaped t))).
    rewrite replace_pair_other by done. by rewrite IH. }
  change (String c "" ++ escaped t) with (String c (escaped t)).
  rewrite !replace_pair_other by done. by rewrite IH.
Qed.

(** The pointer with the given tokens. *)
Definition pointer (ts : list string) : string := foldr (fun t acc => "/" ++ escape t ++ acc) "" ts.

Lemma split_on_escaped t s x xs : split_on "/" s = x :: xs ->
  split_on "/" (escaped t ++ s) = (escaped t ++ x) :: xs.
Proof.
  intros Hs. induction t as [|c t IH]; [done|]. cbn [escaped].
  destruct (Ascii.eqb_spec c "~") as [->|H1]; [simpl; by rewrite str_app_nil, IH|].
  destruct (Ascii.eqb c "/") eqn:E; [simpl; by rewrite str_app_nil, IH|].
  change ((String c "" ++ escaped t) ++ s) with (String c (escaped t ++ s)).
  simpl. by rewrite E, IH.
Qed.

Lemma split_on_nonempty c s : exists x xs, split_on c s = x :: xs.
Proof.
  induction s as [|a s (x & xs & IH)]; simpl; [by eexists _, _|].
  destruct (Ascii.eqb a c); [by eexists _, _|]. rewrite IH. by eexists _, _.
Qed.

Lemma split_on_pointer ts : split_on "/" (pointer ts) = "" :: map escape ts.
Proof.
  induction ts as [|t ts IH]; [done|].
  change (split_on "/" (pointer (t :: ts))) with ("" :: split_on "/" (escape t ++ pointer ts)).
  rewrite escape_escaped, (split_on_escaped t (pointer ts) "" (map escape ts)) by exact IH.
  by rewrite str_app_nil_r, <- escape_escaped.
Qed.

Lemma tokens_of_pointer ts : pointer_tokens (pointer ts) = ts.
Proof.
  unfold pointer_tokens. rewrite split_on_pointer. simpl. rewrite map_map.
  induction ts as [|t ts IH]; simpl; [done|]. by rewrite unescape_escape, IH.
Qed.

Lemma pointer_snoc ts t : pointer (ts ++ [t])%list = pointer ts ++ "/" ++ escape t.
Proof.
  induction ts as [|u ts IH]; simpl; [by rewrite str_app_nil_r|]. by rewrite IH, !str_app_assoc.
Qed.

(** * Undo *)

(** The undo record for the same change one token deeper. *)
Definition undo_under (t : string) (u : Undo) : Undo :=
  match u with
  | Undo_Nothing => Undo_Nothing
  | Undo_Set p v => Undo_Set (t :: p) v
  | Undo_RemoveKey p k => Undo_RemoveKey (t :: p) k
  | Undo_Truncate p n => Undo_Truncate (t :: p) n
  | Undo_Reinsert p k i v => Undo_Reinsert (t :: p) k i v
  end.

Lemma undo_from_under t p node toks kind :
  undo_from (t :: p) node toks kind = undo_under t (undo_from p node toks kind).
Proof.
  revert p node. induction toks as [|u toks IH]; intros p node; [done|]. simpl.
  destruct node as [| | | |a|o]; try done.
  - destruct (String.eqb u "-"); [done|]. destruct toks; [done|].
    destruct (arr_child u a) as [[i c]|]; [|done]. by rewrite <- IH.
  - destruct (obj_get u o) as [c|]; [|by destruct kind]. destruct toks; [by destruct kind|]. by rewrite <- IH.
Qed.

Lemma restore_under_obj t u o child : obj_get t o = Some child ->
  restore (JObject o) (undo_under t u) = JObject (obj_insert t (restore child u) o).
Proof.
  intros Ho. destruct u; simpl; try rewrite Ho; try by destruct (walk_existing child _ _).
  by rewrite obj_insert_id.
Qed.

Lemma arr_child_Some t a i v : arr_child t a = Some (i, v) <->
  exists z, parse_usize t = Some z /\ z < Z.of_nat (List.length a) /\ i = Z.to_nat z /\ a !! i = Some v.
Proof.
  unfold arr_child, arr_get. destruct (parse_usize t) as [z|]; simpl; [|naive_solver].
  destruct (Z.ltb_spec z (Z.of_nat (List.length a))); simpl; [|naive_solver lia].
  destruct (a !! Z.to_nat z) eqn:E; simpl; naive_solver.
Qed.

Lemma arr_child_insert t a i v w : arr_child t a = Some (i, v) -> arr_child t (<[i:=w]> a) = Some (i, w).
Proof.
  intros (z & Hz & Hlt & -> & Hl)%arr_child_Some. apply arr_child_Some. exists z.
  rewrite length_insert. repeat split; try done. apply list_lookup_insert_eq.
  by eapply lookup_lt_Some.
Qed.

Lemma restore_under_arr t u a i child : arr_child t a = Some (i, child) ->
  restore (JArray a) (undo_under t u) = JArray (<[i := restore child u]> a).
Proof.
  intros Ha. destruct u; simpl; try rewrite Ha; try by destruct (walk_existing child _ _).
  rewrite list_insert_id; [done|]. by apply arr_child_Some in Ha as (z & _ & _ & -> & ?).
Qed.

(** The change of [o] below [parents], as [apply_tokens] makes it. *)
Definition change_at (o : PatchOp) (parents : list string) (last : string) (doc : Value) : Value * nat :=
  match op o with
  | PatchKind_Remove => walk_existing doc parents (apply_at o last)
  | _ => walk_to doc parents (parents ++ [last])%list (apply_at o last)
  end.

Lemma split_last_snoc parents t : split_last (parents ++ [t])%list = Some (t, parents).
Proof. unfold split_last. by rewrite last_snoc, removelast_last. Qed.

Lemma apply_tokens_snoc o parents t doc : apply_tokens o (parents ++ [t])%list doc = change_at o parents t doc.
Proof. unfold apply_tokens. by rewrite split_last_snoc. Qed.

Lemma toks_snoc (toks : list string) : toks <> [] -> exists parents t, toks = (parents ++ [t])%list.
Proof. intros H. destruct (exists_last H) as (p & t & ->). by eexists _, _. Qed.

Lemma snoc_cons (parents : list string) t : exists t' toks, (parents ++ [t])%list = t' :: toks.
Proof. destruct parents as [|u p]; [by exists t, []|by exists u, (p ++ [t])%list]. Qed.

(** Restoring at the target itself. *)
Lemma restore_here o t doc : wf_value doc ->
  restore (apply_at o t doc).1 (undo_from [] doc [t] (op o)) = doc.
Proof.
  intros Hwf. destruct doc as [| | | |a|m]; try by destruct o as [[] ? ?].
  - cbn [undo_from]. destruct (String.eqb t "-") eqn:Et; [|done].
    apply String.eqb_eq in Et as ->. simpl. unfold apply_at.
    destruct (op o); simpl; by rewrite ?take_app_length, ?firstn_all.
  - cbn [undo_from]. destruct (obj_get t m) as [child|] eqn:Eg.
    + unfold apply_at. destruct (op o); cbn [app restore walk_existing].
      * by rewrite Eg; simpl; rewrite obj_get_insert_eq, obj_insert_insert, obj_insert_id.
      * by simpl; rewrite obj_get_insert_eq, obj_insert_insert, obj_insert_id.
      * unfold obj_contains. rewrite Eg. cbn [fst default]. apply wf_JObject in Hwf as [Hn _].
        destruct (obj_position t m) as [i|] eqn:Ei; [|by apply obj_position_None in Ei; congruence].
        change (default 0%nat (Some i)) with i. by rewrite (obj_reinsert t child m i).
      * rewrite Eg. by destruct child; simpl;
          rewrite ?obj_get_insert_eq, ?Eg, ?obj_insert_insert, ?obj_insert_id by done.
    + unfold apply_at, obj_contains. destruct (op o); rewrite ?Eg; simpl;
        by rewrite ?obj_insert_fresh, ?obj_remove_fresh by done.
Qed.

Lemma arr_child_dash a : arr_child "-" a = None.
Proof. done. Qed.

(** Restoring below a member or an item that exists. *)
Lemma change_at_obj o t parents last m child : obj_get t m = Some child ->
  (change_at o (t :: parents) last (JObject m)) =
  (JObject (obj_insert t (change_at o parents last child).1 m), (change_at o parents last child).2).
Proof.
  intros Hg. unfold change_at. destruct (op o); simpl; rewrite Hg; simpl;
    by destruct (walk_to child _ _ _) || destruct (walk_existing child _ _).
Qed.

Lemma change_at_arr o t parents last a i child : arr_child t a = Some (i, child) ->
  (change_at o (t :: parents) last (JArray a)) =
  (JArray (<[i := (change_at o parents last child).1]> a), (change_at o parents last child).2).
Proof.
  intros Hg. unfold change_at. destruct (op o); simpl; rewrite Hg; simpl;
    by destruct (walk_to child _ _ _) || destruct (walk_existing child _ _).
Qed.

Lemma change_at_arr_None o t parents last a : arr_child t a = None ->
  (change_at o (t :: parents) last (JArray a)) = (JArray a, 1%nat).
Proof. intros Hg. unfold change_at. by destruct (op o); simpl; rewrite Hg. Qed.

Lemma undo_from_step t t' toks node kind :
  undo_from [] node (t :: t' :: toks) kind =
  match node with
  | JObject o =>
      match obj_get t o with
      | Some child => undo_under t (undo_from [] child (t' :: toks) kind)
      | None => if kind is PatchKind_Remove then Undo_Nothing else Undo_RemoveKey [] t
      end
  | JArray a =>
      if String.eqb t "-" then Undo_Truncate [] (List.length a)
      else match arr_child t a with
           | Some (_, child) => undo_under t (undo_from [] child (t' :: toks) kind)
           | None => Undo_Nothing
           end
  | _ => Undo_Nothing
  end.
Proof.
  cbn [undo_from app]. destruct node as [| | | |a|o]; try done.
  - destruct (String.eqb t "-"); [done|]. destruct (arr_child t a) as [[i c]|]; [|done].
    exact (undo_from_under t [] c (t' :: toks) kind).
  - destruct (obj_get t o) as [c|]; [|done]. exact (undo_from_under t [] c (t' :: toks) kind).
Qed.

Lemma restore_change o parents t doc : wf_value doc ->
  restore (change_at o parents t doc).1 (undo_from [] doc (parents ++ [t])%list (op o)) = doc.
Proof.
  revert doc. induction parents as [|u parents IH]; intros doc Hwf.
  { generalize (restore_here o t doc Hwf). unfold change_at. by destruct (op o). }
  destruct (snoc_cons parents t) as (t' & toks & Et).
  change ((u :: parents) ++ [t])%list with (u :: (parents ++ [t])%list). rewrite Et, undo_from_step, <- Et.
  destruct doc as [| | | |a|m]; try by (unfold change_at; destruct (op o)).
  - destruct (String.eqb u "-") eqn:Eu.
    { apply String.eqb_eq in Eu as ->. rewrite change_at_arr_None by done. simpl. by rewrite firstn_all. }
    destruct (arr_child u a) as [[i child]|] eqn:Ec; [|by rewrite change_at_arr_None].
    rewrite (change_at_arr o u parents t a i child Ec). simpl.
    rewrite (restore_under_arr u _ _ i (change_at o parents t child).1) by (by eapply arr_child_insert).
    rewrite IH, list_insert_insert_eq, list_insert_id; [done| |].
    + by apply arr_child_Some in Ec as (z & _ & _ & -> & ?).
    + apply wf_JArray in Hwf. apply arr_child_Some in Ec as (z & _ & _ & _ & ?).
      by eapply Forall_lookup_1 in Hwf.
  - destruct (obj_get u m) as [child|] eqn:Ec.
    + rewrite (change_at_obj o u parents t m child Ec). simpl.
      rewrite (restore_under_obj u _ _ (change_at o parents t child).1) by apply obj_get_insert_eq.
      rewrite IH, obj_insert_insert, obj_insert_id; [done..|]. by eapply wf_member.
    + unfold change_at. destruct (op o); simpl; rewrite Ec; simpl; try done;
        destruct (walk_to _ _ _ _); simpl; by rewrite obj_insert_fresh, obj_remove_fresh.
Qed.

(** One operation is undone by the record taken before it. *)
Lemma restore_apply_one doc o : wf_value doc -> restore (apply_one doc o).1 (undo_for doc o) = doc.
Proof.
  intros Hwf. unfold apply_one, undo_for. destruct (pointer_tokens (path o)) as [|t0 toks] eqn:Et; [done|].
  destruct (toks_snoc (t0 :: toks)) as (parents & t & ->); [done|].
  rewrite apply_tokens_snoc. destruct (snoc_cons parents t) as (t' & r & E). 
  generalize (restore_change o parents t doc Hwf). by rewrite E.
Qed.

(** * Well-formedness *)

Definition wf_op (o : PatchOp) : Prop := if value o is Some v then wf_value v else True.

Lemma merge_keep_wf into add : wf_value into -> wf_value add -> wf_value (merge_keep into add).
Proof.
  revert into. induction add as [|?|?|?|? _|b IH] using value_ind; intros into Hi Ha;
    destruct into as [|?|?|?|?|m]; try done.
  cbn [merge_keep]. apply wf_JObject in Ha as [_ Hb].
  revert m Hi. induction b as [|[k v] b IHb]; intros m Hi; [done|]. cbn [fold_left fst snd].
  inversion_clear IH as [|? ? Hv IH']. inversion_clear Hb as [|? ? Hwv Hb'].
  apply IHb; [done..|]. destruct (obj_get k m) as [e|] eqn:E; apply wf_insert; try done.
  apply Hv; [by eapply wf_member|done].
Qed.

Lemma push_missing_wf l items : Forall (fun v => wf_value v) l -> Forall (fun v => wf_value v) items ->
  Forall (fun v => wf_value v) (push_missing l items).
Proof.
  unfold push_missing. intros Hl Hi. revert l Hl. induction Hi as [|i items Hi Hit IH]; intros l Hl; [done|].
  cbn [fold_left]. apply IH. destruct (existsb _ l); [done|]. apply Forall_app. split; [done|]. by constructor.
Qed.

Lemma value_of_wf o : wf_op o -> wf_value (default JNull (value o)).
Proof. unfold wf_op. by destruct (value o). Qed.

Lemma union_items_wf o : wf_op o -> Forall (fun v => wf_value v) (union_items (value o)).
Proof.
  unfold wf_op. destruct (value o) as [v|]; simpl; [|by constructor].
  destruct v; intros H; try by repeat constructor. by apply wf_JArray.
Qed.

Lemma wf_array_insert i v a : wf_value v -> Forall (fun v => wf_value v) a -> Forall (fun v => wf_value v) (<[i:=v]> a).
Proof. intros Hv Ha. by apply Forall_insert. Qed.

#[local] Hint Resolve value_of_wf union_items_wf merge_keep_wf push_missing_wf wf_array_insert : anvil.

Lemma apply_at_wf o t doc : wf_op o -> wf_value doc -> wf_value (apply_at o t doc).1.
Proof.
  intros Ho Hd. unfold apply_at. set (v := default JNull (value o)).
  assert (Hv : wf_value v) by by apply value_of_wf.
  destruct doc as [|?|?|?|a|m]; try by destruct (op o).
  - apply wf_JArray in Hd as Ha. assert (Happ : forall l : list Value, Forall (fun v => wf_value v) l ->
      wf_value (JArray (l ++ [v])%list)) by (intros l Hl; apply wf_JArray, Forall_app; split; [done|by constructor]).
    assert (Hins : forall i, wf_value (JArray (take i a ++ v :: drop i a)%list)).
    { intros i. apply wf_JArray, Forall_app. split; [by apply Forall_take|].
      constructor; [done|by apply Forall_drop]. }
    destruct (op o); try done.
    1,2: destruct (String.eqb t "-"); [by apply Happ|]; destruct (parse_usize t) as [i|]; [|done];
      destruct (i <? _)%Z; cbn [andb]; repeat (destruct (i <=? _)%Z); cbn [fst]; try done; try apply Hins;
      apply wf_JArray; auto with anvil.
    destruct (arr_child t a) as [[i c]|]; [|done]. apply wf_JArray. by apply Forall_delete.
  - destruct (op o); cbn [fst]; try by auto with anvil.
    + destruct (obj_get t m) eqn:E; cbn [fst]; eauto with anvil.
    + destruct (obj_contains t m); cbn [fst]; auto with anvil.
    + destruct (obj_get t m) as [[| | | |l|]|] eqn:E; cbn [fst]; try done;
        apply wf_insert; try done; apply wf_JArray; auto with anvil;
        apply push_missing_wf; auto with anvil; [..|by apply wf_JArray; eauto with anvil].
      all: repeat constructor.
Qed.

Lemma walk_to_wf k doc parents toks : (forall v, wf_value v -> wf_value (k v).1) -> wf_value doc ->
  wf_value (walk_to doc parents toks k).1.
Proof.
  intros Hk. revert doc toks. induction parents as [|t parents IH]; intros doc toks Hd; cbn [walk_to]; [by apply Hk|].
  destruct doc as [|?|?|?|a|m]; try done.
  - destruct (arr_child t a) as [[i c]|] eqn:E; [|done].
    apply arr_child_Some in E as (z & _ & _ & _ & Hl). apply wf_JArray in Hd as Ha.
    assert (Hc : wf_value c) by by eapply Forall_lookup_1 in Ha.
    specialize (IH c (tail toks) Hc). destruct (walk_to c _ _ _); cbn [fst] in *. apply wf_JArray; auto with anvil.
  - set (child := default _ _). assert (Hc : wf_value child).
    { subst child. destruct (obj_get t m) eqn:E; simpl; [by eauto with anvil|by case_bool_decide]. }
    specialize (IH child (tail toks) Hc). destruct (walk_to child _ _ _); cbn [fst] in *. auto with anvil.
Qed.

Lemma walk_existing_wf k doc parents : (forall v, wf_value v -> wf_value (k v).1) -> wf_value doc ->
  wf_value (walk_existing doc parents k).1.
Proof.
  intros Hk. revert doc. induction parents as [|t parents IH]; intros doc Hd; cbn [walk_existing]; [by apply Hk|].
  destruct doc as [|?|?|?|a|m]; try done.
  - destruct (arr_child t a) as [[i c]|] eqn:E; [|done].
    apply arr_child_Some in E as (z & _ & _ & _ & Hl). apply wf_JArray in Hd as Ha.
    assert (Hc : wf_value c) by by eapply Forall_lookup_1 in Ha.
    specialize (IH c Hc). destruct (walk_existing c _ _); cbn [fst] in *. apply wf_JArray; auto with anvil.
  - destruct (obj_get t m) as [c|] eqn:E; [|done].
    assert (Hc : wf_value c) by by eapply wf_member.
    specialize (IH c Hc). destruct (walk_existing c _ _); cbn [fst] in *. auto with anvil.
Qed.

Lemma apply_one_wf doc o : wf_op o -> wf_value doc -> wf_value (apply_one doc o).1.
Proof.
  intros Ho Hd. unfold apply_one, apply_tokens. pose proof (value_of_wf o Ho).
  destruct (split_last _) as [[t parents]|].
  - destruct (op o); (apply walk_to_wf || apply walk_existing_wf); try done; intros; by apply apply_at_wf.
  - destruct (op o); cbn [fst]; auto with anvil.
Qed.

(** ** [apply] as a composition *)

Definition apply_from (acc : Value * nat) (ops : list PatchOp) : Value * nat :=
  fold_left (fun '(d, failed) o => let '(d', n) := apply_one d o in (d', (failed + n)%nat)) ops acc.

Lemma apply_from_shift d n ops : apply_from (d, n) ops = ((apply d ops).1, (n + (apply d ops).2)%nat).
Proof.
  unfold apply. change (fold_left _ ops (d, 0%nat)) with (apply_from (d, 0%nat) ops).
  revert d n. induction ops as [|o ops IH]; intros d n; [by simpl; rewrite Nat.add_0_r|].
  cbn [apply_from fold_left]. destruct (apply_one d o) as [d' m].
  change (fold_left _ ops (d', (n + m)%nat)) with (apply_from (d', (n + m)%nat) ops).
  change (fold_left _ ops (d', (0 + m)%nat)) with (apply_from (d', (0 + m)%nat) ops).
  rewrite (IH d' (n + m)%nat), (IH d' (0 + m)%nat). simpl. by rewrite Nat.add_assoc.
Qed.

Lemma apply_cons d o ops :
  apply d (o :: ops) =
  ((apply (apply_one d o).1 ops).1, ((apply_one d o).2 + (apply (apply_one d o).1 ops).2)%nat).
Proof.
  change (apply d (o :: ops)) with (apply_from (let '(d', n) := apply_one d o in (d', (0 + n)%nat)) ops).
  destruct (apply_one d o) as [d' n]. by rewrite apply_from_shift.
Qed.

Lemma apply_app d ops ops' : apply d (ops ++ ops')%list =
  ((apply (apply d ops).1 ops').1, ((apply d ops).2 + (apply (apply d ops).1 ops').2)%nat).
Proof.
  revert d. induction ops as [|o ops IH]; intros d.
  { change ([] ++ ops')%list with ops'. change (apply d []) with (d, 0%nat). cbn [fst snd Nat.add].
    apply surjective_pairing. }
  change ((o :: ops) ++ ops')%list with (o :: (ops ++ ops')%list).
  rewrite !apply_cons, IH. simpl. by rewrite Nat.add_assoc.
Qed.

Lemma apply_wf doc ops : Forall wf_op ops -> wf_value doc -> wf_value (apply doc ops).1.
Proof.
  intros Ho. revert doc. induction Ho as [|o ops H1 Ho IH]; intros doc Hd; [done|].
  rewrite apply_cons. apply IH. by apply apply_one_wf.
Qed.

Lemma apply_atomic_from_spec us d doc0 ops : Forall wf_op ops -> wf_value d -> fold_left restore us d = doc0 ->
  apply_atomic_from us d ops = if ((apply d ops).2 =? 0)%nat then ((apply d ops).1, true) else (doc0, false).
Proof.
  intros Ho. revert us d. induction Ho as [|o ops H1 Ho IH]; intros us d Hd Hu; [done|].
  cbn [apply_atomic_from]. rewrite !apply_cons. cbn [fst snd apply fold_left].
  rewrite Nat.add_0_r. pose proof (restore_apply_one d o Hd) as Hr. pose proof (apply_one_wf d o H1 Hd) as Hw.
  change (apply d []) with (d, 0%nat).
  destruct (apply_one d o) as [d1 n]. cbn [fst snd] in *. destruct n as [|n].
  - change (0 <? 0)%nat with false. cbn [Nat.add]. rewrite (IH _ d1 Hw); [done|]. cbn [fold_left]. by rewrite Hr.
  - change (0 <? S n)%nat with true. cbn [Nat.add Nat.eqb fold_left]. by rewrite Hr, Hu.
Qed.

(** * The difference, applied *)

(** The value at a path of members. *)
Fixpoint get_at (doc : Value) (ts : list string) : option Value :=
  match ts with
  | [] => Some doc
  | t :: ts' => if doc is JObject o then child ← obj_get t o; get_at child ts' else None
  end.

(** The document with another value there. *)
Fixpoint put_at (doc : Value) (ts : list string) (x : Value) : Value :=
  match ts with
  | [] => x
  | t :: ts' =>
      match doc with
      | JObject o => match obj_get t o with
                     | Some child => JObject (obj_insert t (put_at child ts' x) o)
                     | None => doc
                     end
      | _ => doc
      end
  end.

Lemma get_at_cons t ts doc v : get_at doc (t :: ts) = Some v ->
  exists o child, doc = JObject o /\ obj_get t o = Some child /\ get_at child ts = Some v.
Proof.
  simpl. destruct doc as [|?|?|?|?|o]; try done. destruct (obj_get t o) as [child|] eqn:E; [|done]. simpl. eauto.
Qed.

Lemma get_put ts doc a x : get_at doc ts = Some a -> get_at (put_at doc ts x) ts = Some x.
Proof.
  revert doc. induction ts as [|t ts IH]; intros doc H; [done|].
  apply get_at_cons in H as (o & c & -> & Hc & H). cbn [put_at]. rewrite Hc. cbn [get_at].
  rewrite obj_get_insert_eq. cbn. by apply IH.
Qed.

Lemma put_put ts doc a x y : get_at doc ts = Some a -> put_at (put_at doc ts x) ts y = put_at doc ts y.
Proof.
  revert doc. induction ts as [|t ts IH]; intros doc H; [done|].
  apply get_at_cons in H as (o & c & -> & Hc & H). cbn [put_at]. rewrite Hc. cbn [put_at].
  by rewrite obj_get_insert_eq, obj_insert_insert, IH.
Qed.

Lemma put_get ts doc a : get_at doc ts = Some a -> put_at doc ts a = doc.
Proof.
  revert doc. induction ts as [|t ts IH]; intros doc H; [by injection H as ->|].
  apply get_at_cons in H as (o & c & -> & Hc & H). cbn [put_at]. by rewrite Hc, IH, obj_insert_id.
Qed.

Lemma get_at_snoc ts k doc m : get_at doc ts = Some (JObject m) -> get_at doc (ts ++ [k])%list = obj_get k m.
Proof.
  revert doc. induction ts as [|t ts IH]; intros doc H.
  { injection H as ->. simpl. by destruct (obj_get k m). }
  apply get_at_cons in H as (o & c & -> & Hc & H). cbn [app get_at]. rewrite Hc. cbn. by apply IH.
Qed.

Lemma put_at_snoc ts k doc m v x : get_at doc ts = Some (JObject m) -> obj_get k m = Some v ->
  put_at doc (ts ++ [k])%list x = put_at doc ts (JObject (obj_insert k x m)).
Proof.
  intros H Hk. revert doc H. induction ts as [|t ts IH]; intros doc H.
  { injection H as ->. cbn. by rewrite Hk. }
  apply get_at_cons in H as (o & c & -> & Hc & H). cbn [app put_at]. rewrite Hc. by rewrite IH.
Qed.

(** An operation whose parents exist acts on the parent alone. *)
Lemma apply_tokens_at o ts k doc cur : get_at doc ts = Some cur ->
  apply_tokens o (ts ++ [k])%list doc = (put_at doc ts (apply_at o k cur).1, (apply_at o k cur).2).
Proof.
  rewrite apply_tokens_snoc. revert doc. induction ts as [|t ts IH]; intros doc H.
  { injection H as ->. unfold change_at. destruct (op o); cbn; apply surjective_pairing. }
  apply get_at_cons in H as (m & c & -> & Hc & H).
  rewrite (change_at_obj o t ts k m c Hc), (IH c H). cbn [put_at fst snd]. by rewrite Hc.
Qed.

Lemma apply_one_at o ts k doc cur : path o = pointer (ts ++ [k])%list -> get_at doc ts = Some cur ->
  apply_one doc o = (put_at doc ts (apply_at o k cur).1, (apply_at o k cur).2).
Proof. intros Hp H. unfold apply_one. rewrite Hp, tokens_of_pointer. by apply apply_tokens_at. Qed.

(** What the rendered operations read back as. *)
Definition reads_as (v : Value) (kind : PatchKind) (p : string) (x : Value) : Prop :=
  exists o, PatchOp_deserialize v = Some o /\ op o = kind /\ path o = p /\ default JNull (value o) = x.

Lemma reads_add p x : reads_as (json_op "add" p (Some x)) PatchKind_Add p x.
Proof. eexists. split; [reflexivity|]. split; [done|]. split; [done|]. by destruct x. Qed.

Lemma reads_replace p x : reads_as (json_op "replace" p (Some x)) PatchKind_Replace p x.
Proof. eexists. split; [reflexivity|]. split; [done|]. split; [done|]. by destruct x. Qed.

Lemma reads_remove p : reads_as (json_op "remove" p None) PatchKind_Remove p JNull.
Proof. eexists. split; [reflexivity|]. by split; [done|]. Qed.

(** The operations [vs] turn the value at [ts] into [x]. *)
Definition turns (doc : Value) (ts : list string) (vs : list Value) (x : Value) : Prop :=
  exists ops, mapM PatchOp_deserialize vs = Some ops /\ apply doc ops = (put_at doc ts x, 0%nat).

Lemma turns_nil doc ts a : get_at doc ts = Some a -> turns doc ts [] a.
Proof. intros H. exists []. split; [done|]. by rewrite (put_get ts doc a). Qed.

Lemma turns_app doc ts us vs a x y : get_at doc ts = Some a ->
  turns doc ts us x -> turns (put_at doc ts x) ts vs y -> turns doc ts (us ++ vs)%list y.
Proof.
  intros H (o1 & Hm1 & Ha1) (o2 & Hm2 & Ha2). exists (o1 ++ o2)%list.
  split. { apply mapM_Some in Hm1, Hm2. apply mapM_Some. by apply Forall2_app. }
  rewrite apply_app, Ha1. cbn [fst snd]. rewrite Ha2. cbn [fst snd]. by rewrite (put_put ts doc a).
Qed.

Lemma reads_one v o : PatchOp_deserialize v = Some o -> mapM PatchOp_deserialize [v] = Some [o].
Proof. intros H. cbn. by rewrite H. Qed.

Lemma turns_one doc ts k cur v kind x new : get_at doc ts = Some cur ->
  reads_as v kind (pointer (ts ++ [k])%list) x ->
  (forall o, op o = kind -> default JNull (value o) = x -> apply_at o k cur = (new, 0%nat)) ->
  turns doc ts [v] new.
Proof.
  intros H (o & Hd & Hk & Hpo & Hv) Hat. exists [o]. split; [by apply reads_one|].
  rewrite apply_cons, (apply_one_at o ts k doc cur) by done. by rewrite (Hat o Hk Hv).
Qed.

Lemma turns_add_member doc ts m k x : get_at doc ts = Some (JObject m) -> obj_get k m = None ->
  turns doc ts [json_op "add" (pointer (ts ++ [k])%list) (Some x)] (JObject (obj_insert k x m)).
Proof.
  intros H Hk. eapply turns_one; [exact H|apply reads_add|]. intros o Ho Hv. unfold apply_at.
  by rewrite Ho, Hk, Hv.
Qed.

Lemma turns_remove_member doc ts m k : get_at doc ts = Some (JObject m) -> obj_contains k m = true ->
  turns doc ts [json_op "remove" (pointer (ts ++ [k])%list) None] (JObject (obj_remove k m)).
Proof.
  intros H Hk. eapply turns_one; [exact H|apply reads_remove|]. intros o Ho Hv. unfold apply_at.
  by rewrite Ho, Hk.
Qed.

Lemma turns_push doc ts a x : get_at doc ts = Some (JArray a) ->
  turns doc ts [json_op "add" (pointer ts ++ "/-") (Some x)] (JArray (a ++ [x])%list).
Proof.
  intros H. change "/-" with ("/" ++ escape "-"). rewrite <- pointer_snoc.
  eapply turns_one; [exact H|apply reads_add|]. intros o Ho Hv. unfold apply_at. by rewrite Ho, Hv.
Qed.

(** A replacement below the root changes a member of its parent. *)
Lemma get_at_parent ps k doc a : get_at doc (ps ++ [k])%list = Some a ->
  exists m, get_at doc ps = Some (JObject m) /\ obj_get k m = Some a.
Proof.
  revert doc. induction ps as [|p ps IH]; intros doc H.
  - apply get_at_cons in H as (m & c & -> & Hc & [= ->]). by exists m.
  - apply get_at_cons in H as (m & c & -> & Hc & H). destruct (IH c H) as (m' & Hm' & Hk).
    exists m'. split; [|done]. cbn. by rewrite Hc.
Qed.

Lemma turns_replace doc ts a x : get_at doc ts = Some a ->
  turns doc ts [json_op "replace" (pointer ts) (Some x)] x.
Proof.
  intros H. destruct (decide (ts = [])) as [->|Hne].
  { destruct (reads_replace (pointer []) x) as (o & Hd & Hk & Hp & Hv). exists [o].
    split; [by apply reads_one|]. rewrite apply_cons. unfold apply_one.
    rewrite Hp. change (pointer_tokens (pointer [])) with (@nil string). unfold apply_tokens.
    cbn [split_last last]. by rewrite Hk, Hv. }
  destruct (toks_snoc ts Hne) as (ps & k & ->).
  destruct (get_at_parent ps k doc a H) as (m & Hm & Hk).
  destruct (turns_one doc ps k (JObject m) _ _ x (JObject (obj_insert k x m)) Hm (reads_replace _ x)) as (ops & Hd & Ha).
  { intros o Ho Hv. unfold apply_at. by rewrite Ho, Hv. }
  exists ops. split; [exact Hd|]. by rewrite Ha, (put_at_snoc ps k doc m a).
Qed.

(** The members a difference removes. *)
Definition remove_all (ks : list string) (m : Object) : Object := fold_left (fun m k => obj_remove k m) ks m.

Lemma obj_contains_true {V} k (m : list (string * V)) : obj_contains k m = true <-> exists v, obj_get k m = Some v.
Proof. unfold obj_contains. destruct (obj_get k m) as [v|]; [split; [by exists v|done]|split; [done|by intros []]]. Qed.

Lemma obj_contains_remove_ne {V} k k' (m : list (string * V)) : k <> k' -> obj_contains k' (obj_remove k m) = obj_contains k' m.
Proof. intros H. unfold obj_contains. by rewrite obj_get_remove_ne. Qed.

Lemma turns_remove_all doc ts ks m : get_at doc ts = Some (JObject m) -> NoDup ks ->
  Forall (fun k => obj_contains k m = true) ks ->
  turns doc ts (map (fun k => json_op "remove" (pointer ts ++ "/" ++ escape k) None) ks) (JObject (remove_all ks m)).
Proof.
  intros H Hnd Hks. revert doc m H Hks. induction Hnd as [|k ks Hk Hnd IH]; intros doc m H Hks; [by apply turns_nil|].
  inversion_clear Hks as [|? ? Hc Hks']. cbn [map]. rewrite <- pointer_snoc.
  eapply (turns_app doc ts [_]); [exact H|by apply turns_remove_member|]. apply IH; [by eapply get_put|].
  eapply Forall_impl; [apply Forall_and; split; [exact Hks'|]|].
  { apply list.Forall_forall. intros k' Hk'. exact (fun e : k = k' => Hk (eq_ind_r (fun z => z ∈ ks) Hk' e)). }
  intros k' [Hc' Hne]. by rewrite obj_contains_remove_ne.
Qed.

Lemma remove_all_get ks m k : NoDup (keys m) ->
  obj_get k (remove_all ks m) = if decide (k ∈ ks) then None else obj_get k m.
Proof.
  revert m. induction ks as [|q ks IH]; intros m Hm; [done|].
  change (remove_all (q :: ks) m) with (remove_all ks (obj_remove q m)).
  rewrite (IH (obj_remove q m)) by by apply obj_remove_NoDup.
  destruct (decide (k = q)) as [->|Hne].
  - rewrite obj_get_remove_eq by done. rewrite (decide_True (P := q ∈ q :: ks)) by by left. by case_decide.
  - rewrite obj_get_remove_ne by done. destruct (decide (k ∈ ks)).
    + rewrite decide_True; [done|by right].
    + rewrite decide_False; [done|]. by rewrite not_elem_of_cons.
Qed.

Lemma remove_all_NoDup ks m : NoDup (keys m) -> NoDup (keys (remove_all ks m)).
Proof. revert m. induction ks as [|q ks IH]; intros m Hm; [done|]. by apply IH, obj_remove_NoDup. Qed.

Lemma turns_push_all doc ts a l : get_at doc ts = Some (JArray a) ->
  turns doc ts (map (fun v => json_op "add" (pointer ts ++ "/-") (Some v)) l) (JArray (a ++ l)%list).
Proof.
  revert doc a. induction l as [|x l IH]; intros doc a H; [rewrite app_nil_r; by apply turns_nil|].
  cbn [map]. eapply (turns_app doc ts [_]); [exact H|by apply turns_push|].
  replace (a ++ x :: l)%list with ((a ++ [x]) ++ l)%list by by rewrite <- app_assoc. apply IH. by eapply get_put.
Qed.

(** The statement of the difference of one value, for every place. *)
Definition diff_turns (b : Value) : Prop := forall a ts doc, wf_value a -> wf_value b ->
  get_at doc ts = Some a -> exists x, turns doc ts (diff_at a b (pointer ts)) x /\ value_eqb x b = true.

(** The members the second value has, one after another. *)
Definition diff_members (x : Object) (at_ : string) (y : Object) : list Value :=
  flat_map (fun kv =>
    let p := at_ ++ "/" ++ escape kv.1 in
    match obj_get kv.1 x with
    | Some old => diff_at old kv.2 p
    | None => [json_op "add" p (Some kv.2)]
    end) y.

Lemma diff_members_turn x ts y doc m : Forall (fun kv => diff_turns kv.2) y -> wf_members y -> wf_value (JObject x) ->
  NoDup (keys m) -> (forall k, k ∈ keys y -> obj_get k m = obj_get k x) ->
  get_at doc ts = Some (JObject m) ->
  exists m', turns doc ts (diff_members x (pointer ts) y) (JObject m') /\ NoDup (keys m') /\
    (forall k, k ∉ keys y -> obj_get k m' = obj_get k m) /\
    (forall k v, (k, v) ∈ y -> exists u, obj_get k m' = Some u /\ value_eqb u v = true).
Proof.
  intros Hd [Hy Hw] Hx. revert m doc. induction y as [|[k v] y IH]; intros m doc Hm Hkeep H.
  { exists m. split; [by apply turns_nil|]. split; [done|]. split; [done|]. by intros ? ? ?%not_elem_of_nil. }
  inversion_clear Hd as [|? ? Hv Hd']. inversion_clear Hw as [|? ? Hwv Hw']. cbn [fst snd] in *.
  unfold keys in Hy. csimpl in Hy. apply NoDup_cons in Hy as [Hky Hy].
  assert (exists u, turns doc ts (let p := pointer ts ++ "/" ++ escape k in
            match obj_get k x with Some old => diff_at old v p | None => [json_op "add" p (Some v)] end)
            (JObject (obj_insert k u m)) /\ value_eqb u v = true) as (u & Hu & Huv).
  { rewrite <- pointer_snoc. cbv zeta. rewrite <- (Hkeep k) by (unfold keys; csimpl; by left).
    destruct (obj_get k m) as [old|] eqn:Eo.
    - destruct (Hv old (ts ++ [k])%list doc) as (u & (ops & Hr & Ha) & He); [|done|by rewrite (get_at_snoc ts k doc m)|].
      { eapply wf_member; [exact Hx|]. rewrite <- (Hkeep k) by (unfold keys; csimpl; by left). exact Eo. }
      exists u. split; [|done]. exists ops. split; [done|]. by rewrite Ha, (put_at_snoc ts k doc m old).
    - exists v. split; [by apply turns_add_member|by apply value_eqb_refl]. }
  destruct (IH Hd' Hy Hw' (obj_insert k u m) (put_at doc ts (JObject (obj_insert k u m)))) as (m' & Ht & Hn & Hout & Hin).
  - by apply obj_insert_NoDup.
  - intros k' Hk'. rewrite obj_get_insert_ne by (by intros ->). apply Hkeep. unfold keys. csimpl. by right.
  - by eapply get_put.
  - exists m'. split; [cbn [diff_members flat_map]; by eapply turns_app|]. split; [done|]. split.
    + intros k' [Hne Hk']%not_elem_of_cons. rewrite Hout by done. by rewrite obj_get_insert_ne.
    + intros k' v' [[= -> ->]|Hin']%elem_of_cons; [|by apply Hin]. exists u. split; [|done].
      rewrite Hout by done. apply obj_get_insert_eq.
Qed.

(** Two maps that hold equal values under the same keys are equal. *)
Lemma value_eqb_members m y : NoDup (keys m) -> NoDup (keys y) ->
  (forall k, k ∉ keys y -> obj_get k m = None) ->
  (forall k v, (k, v) ∈ y -> exists u, obj_get k m = Some u /\ value_eqb u v = true) ->
  value_eqb (JObject m) (JObject y) = true.
Proof.
  intros Hm Hy Hout Hin. apply value_eqb_JObject.
  assert (Hkeys : forall k, k ∈ keys m <-> k ∈ keys y).
  { intros k. split.
    - intros Hk. destruct (decide (k ∈ keys y)) as [|Hn]; [done|]. apply Hout, obj_get_None in Hn. done.
    - intros Hk. destruct (obj_get k y) as [v|] eqn:E; [|by apply obj_get_None in E].
      apply obj_get_elem, Hin in E as (u & Hu & _). destruct (decide (k ∈ keys m)) as [|Hn]; [done|].
      apply obj_get_None in Hn. congruence. }
  split.
  - rewrite <- (length_fmap fst m), <- (length_fmap fst y). apply Permutation_length. by apply NoDup_Permutation.
  - apply list.Forall_forall. intros [k u] Hku. cbn [fst snd]. destruct (obj_get k y) as [v|] eqn:E.
    + exists v. split; [done|]. apply obj_get_elem, Hin in E as (u' & Hu' & He).
      apply obj_get_Some in Hku; [|done]. congruence.
    + apply obj_get_None in E. rewrite <- Hkeys in E. destruct E. apply list_elem_of_fmap. by exists (k, u).
Qed.

Lemma starts_with_append x y : values_start_with y x = true -> Forall (fun v => wf_value v) y ->
  value_eqb (JArray (x ++ drop (List.length x) y)%list) (JArray y) = true.
Proof.
  intros Hs Hw. apply value_eqb_JArray. revert y Hs Hw. induction x as [|a x IH]; intros y Hs Hw.
  { change (drop (List.length []) y) with y. cbn [app].
    clear Hs. induction Hw as [|v y Hv Hw IHy]; [constructor|]. constructor; [by apply value_eqb_refl|done]. }
  destruct y as [|b y]; [done|]. cbn in Hs. apply andb_split in Hs as [Hb Hs]. inversion_clear Hw.
  cbn. constructor; [done|by apply IH].
Qed.

Lemma diff_at_turns b : diff_turns b.
Proof.
  induction b as [|?|?|?|y _|y IH] using value_ind; intros a ts doc Ha Hb H; cbn [diff_at];
    (destruct (value_eqb a _) eqn:Eq; [by exists a; split; [apply turns_nil|]|]);
    destruct a as [|?|?|?|x|x];
    try (eexists; split; [by eapply turns_replace|by apply value_eqb_refl]).
  - destruct (_ <? _)%nat; [destruct (values_start_with y x) eqn:Es|]; cbn [andb];
      try (eexists; split; [by eapply turns_replace|by apply value_eqb_refl]).
    exists (JArray (x ++ drop (List.length x) y)%list). split; [by apply turns_push_all|].
    apply starts_with_append; [done|]. by apply wf_JArray.
  - pose proof Ha as [Hx _]%wf_JObject. pose proof Hb as Hy%wf_JObject.
    set (ks := List.filter (fun k => negb (obj_contains k y)) (keys x)).
    assert (Hks : forall k, k ∈ ks <-> obj_contains k y = false /\ k ∈ keys x).
    { intros k. subst ks. rewrite !list_elem_of_In, filter_In, negb_true_iff. tauto. }
    destruct (diff_members_turn x ts y (put_at doc ts (JObject (remove_all ks x))) (remove_all ks x))
      as (m & Ht & Hn & Hout & Hin); [done|done|done|by apply remove_all_NoDup|..].
    + intros k Hk. rewrite remove_all_get by done. rewrite decide_False; [done|].
      rewrite Hks. intros [Hc _]. unfold obj_contains in Hc. destruct (obj_get k y) eqn:E; [done|].
      by apply obj_get_None in E.
    + by eapply get_put.
    + exists (JObject m). split.
      * eapply turns_app; [exact H| |exact Ht]. apply turns_remove_all; [done|by apply NoDup_ListNoDup, List.NoDup_filter, NoDup_ListNoDup|].
        apply list.Forall_forall. intros k [_ Hk]%Hks. unfold obj_contains.
        destruct (obj_get k x) eqn:E; [done|]. by apply obj_get_None in E.
      * apply value_eqb_members; [done|apply Hy| |done]. intros k Hk. rewrite Hout, remove_all_get by done.
        case_decide as Hd; [done|]. rewrite Hks in Hd. apply obj_get_None. intros Hkx. apply Hd.
        split; [|done]. unfold obj_contains. by rewrite (proj2 (obj_get_None k y)).
Qed.

(** C26: [apply_atomic] is all or nothing: when every operation applies, the
    document is what [apply] makes of it, and when one fails the document is
    exactly the one before, member order included: every kind of change the
    earlier operations made is undone by the record taken before it. *)
Theorem apply_atomic_all_or_nothing doc ops : wf_value doc -> Forall wf_op ops ->
  apply_atomic doc ops =
  if ((apply doc ops).2 =? 0)%nat then ((apply doc ops).1, true) else (doc, false).
Proof. intros Hd Ho. by apply apply_atomic_from_spec. Qed.

(** A document, changes of every kind, and one that fails. *)
Definition demo_doc : Value :=
  JObject [("a", JObject [("x", JNumber (PosInt 1)); ("y", JArray [JNumber (PosInt 1)]); ("z", JString "s")]);
           ("t", JString "integer")].
Definition demo_changes : list PatchOp :=
  [PatchOp_add "/a/new/deep" (JNumber (PosInt 1)); PatchOp_add "/a/y/-" (JNumber (PosInt 3)); PatchOp_remove "/a/x";
   PatchOp_replace "/a/z" (JObject [("k", JNull)]); PatchOp_union "/t" [JString "null"]; PatchOp_remove "/no/such"].

Lemma demo_changes_wf : Forall wf_op demo_changes.
Proof. repeat constructor. Qed.

Lemma apply_atomic_all_or_nothing_witness :
  (apply demo_doc demo_changes).2 = 1%nat /\
  apply_atomic demo_doc demo_changes =
  if ((apply demo_doc demo_changes).2 =? 0)%nat then ((apply demo_doc demo_changes).1, true) else (demo_doc, false).
Proof.
  split; [by vm_compute|]. apply (apply_atomic_all_or_nothing demo_doc demo_changes ltac:(by vm_compute) demo_changes_wf).
Defined.

(** C28: applying the difference of two documents to the first gives the
    second: every operation [diff] writes reads back as a [PatchOp], none
    fails, and the result equals the second document (as values compare,
    whatever the order of members). *)
Theorem diff_applies a b : wf_value a -> wf_value b ->
  exists ops x, mapM PatchOp_deserialize (diff a b) = Some ops /\ apply a ops = (x, 0%nat) /\ value_eqb x b = true.
Proof.
  intros Ha Hb. destruct (diff_at_turns b a [] a Ha Hb eq_refl) as (x & (ops & Hr & Hap) & He).
  by exists ops, x.
Qed.

Definition demo_from : Value :=
  JObject [("a", JNumber (PosInt 1)); ("e~/f", JBool true); ("l", JArray [JNumber (PosInt 1)])].
Definition demo_to : Value :=
  JObject [("l", JArray [JNumber (PosInt 1); JNull]); ("a", JObject [("b", JNumber (Float 0))])].

Lemma diff_applies_witness :
  List.length (diff demo_from demo_to) = 3%nat /\
  exists ops x, mapM PatchOp_deserialize (diff demo_from demo_to) = Some ops /\
    apply demo_from ops = (x, 0%nat) /\ value_eqb x demo_to = true.
Proof.
  split; [by vm_compute|].
  apply (diff_applies demo_from demo_to ltac:(by vm_compute) ltac:(by vm_compute)).
Defined.

(** C0: every operation keeps a document's objects maps of unique keys, at
    every level, whether it applies or fails. *)
Theorem apply_preserves_wf doc ops : Forall wf_op ops -> wf_value doc -> wf_value (apply doc ops).1.
Proof. apply apply_wf. Qed.

Lemma apply_preserves_wf_witness :
  keys [("a", JNull); ("t", JNull)] = ["a"; "t"] /\ wf_value (apply demo_doc demo_changes).1.
Proof.
  split; [done|]. apply (apply_preserves_wf demo_doc demo_changes demo_changes_wf). by vm_compute.
Defined.
