(* ===== verification/Infer.v ===== *)
(** Schemas inferred from observed JSON ([anvil-contract/src/infer.rs]): the
    accumulating shape, its rendering in an OpenAPI dialect, the names a
    schema may keep and the string formats it recognises.

    The theorems are stated against a validator of the schemas written here,
    in the reading [anvil-contract/src/schema.rs] gives the dialects
    ([nullable] and [x-nullable] in 2.0 and 3.0, type lists in 3.1 and 3.2).

    Counters are the source's [usize]s counting values held in memory; they
    are exact. *)
From S2P Require Import Prelude Text Json.
From stdpp Require Import base list numbers strings sets.
From Stdlib Require Import ZArith Lia Ascii String.
Open Scope Z_scope.
Open Scope string_scope.

(** * Names and formats *)

Definition byte_digit (c : ascii) : bool := let n := byte_of c in ((48 <=? n) && (n <=? 57))%nat.
Definition byte_upper (c : ascii) : bool := let n := byte_of c in ((65 <=? n) && (n <=? 90))%nat.
Definition byte_lower (c : ascii) : bool := let n := byte_of c in ((97 <=? n) && (n <=? 122))%nat.
Definition byte_hex (c : ascii) : bool :=
  let n := byte_of c in byte_digit c || ((65 <=? n) && (n <=? 70) || (97 <=? n) && (n <=? 102))%nat.

(** [MAX_DEPTH] of the source. *)
Definition MAX_SHAPE_DEPTH : nat := 16.
Definition MAX_PROPERTIES : nat := 200.
Definition MAX_ITEMS : nat := 50.
Definition MAX_NAMED_PROPERTIES : nat := 50.

Definition safe_name (n : string) : bool :=
  let b := list_ascii_of_string n in
  let has f := existsb f b in
  let token_like := (16 <=? List.length b)%nat && has byte_upper && has byte_lower && has byte_digit in
  match b with
  | [] => false
  | first :: _ =>
      (List.length b <=? 64)%nat && negb (byte_digit first) &&
      forallb (fun c => byte_upper c || byte_lower c || byte_digit c ||
                        existsb (Ascii.eqb c) ["_"; "-"; "."; "$"; "["; "]"]%char) b &&
      (List.length (List.filter byte_digit b) <? 4)%nat && negb token_like
  end.

(** [b.get(from..to)] holds digits only. *)
Definition digits_at (from to : nat) (b : list ascii) : bool :=
  (to <=? List.length b)%nat && forallb byte_digit (take (to - from) (drop from b)).

Definition byte_is (i : nat) (cs : list ascii) (b : list ascii) : bool :=
  match b !! i with Some c => existsb (Ascii.eqb c) cs | None => false end.

(** [s.contains(char::is_whitespace)]. *)
Fixpoint has_whitespace (s : string) : bool :=
  negb (ws_prefix s =? 0)%nat || match s with "" => false | String _ s' => has_whitespace s' end.

(** [r.trim_start_matches(|c| c.is_ascii_digit())]. *)
Fixpoint drop_digits (b : list ascii) : list ascii :=
  match b with c :: b' => if byte_digit c then drop_digits b' else b | [] => [] end.

Definition is_date (b : list ascii) : bool :=
  (10 <=? List.length b)%nat && digits_at 0 4 b && byte_is 4 ["-"%char] b && digits_at 5 7 b &&
  byte_is 7 ["-"%char] b && digits_at 8 10 b.

(** The time zone after an optional fraction of a second. *)
Definition is_zone (tz : list ascii) : bool :=
  let tz := match tz with "."%char :: r => drop_digits r | _ => tz end in
  bool_decide (tz = ["Z"%char] \/ tz = ["z"%char]) ||
  ((List.length tz =? 6)%nat && byte_is 0 ["+"; "-"]%char tz && byte_is 3 [":"%char] tz).

Definition is_date_time (b : list ascii) : bool :=
  is_date b && (19 <? List.length b)%nat && byte_is 10 ["T"; "t"]%char b && digits_at 11 13 b &&
  byte_is 13 [":"%char] b && digits_at 14 16 b && byte_is 16 [":"%char] b && digits_at 17 19 b &&
  is_zone (drop 19 b).

(** Every character is a hexadecimal digit, and a dash at 8, 13, 18 and 23;
    a character of several bytes is neither, nor are its bytes. *)
Definition is_uuid (b : list ascii) : bool :=
  (List.length b =? 36)%nat &&
  forallb (fun ic => if existsb (Nat.eqb ic.1) [8; 13; 18; 23]%nat then Ascii.eqb ic.2 "-" else byte_hex ic.2)
    (imap (fun i c => (i, c)) b).

Definition is_email (s : string) : bool :=
  match split_once "@" s with
  | Some (local, domain) =>
      negb (str_is_empty local) && str_contains domain "." && negb (has_whitespace s) &&
      negb (str_contains domain "@")
  | None => false
  end.

Definition is_uri (s : string) : bool :=
  (starts_with s "https://" || starts_with s "http://") && negb (has_whitespace s) &&
  (8 <? String.length s)%nat.

(** The set in its ([BTreeSet]) order. *)
Definition string_formats (s : string) : list string :=
  let b := list_ascii_of_string s in
  ((if is_date b && (List.length b =? 10)%nat then ["date"] else []) ++
   (if is_date_time b then ["date-time"] else []) ++
   (if is_email s then ["email"] else []) ++
   (if is_uri s then ["uri"] else []) ++
   (if is_uuid b then ["uuid"] else []))%list.

(** [intersection]. *)
Definition formats_both (a b : list string) : list string := List.filter (fun f => existsb (String.eqb f) b) a.

(** * Shapes *)

Inductive Shape := mkShape {
  samples : Z;
  nulls : Z;
  booleans : Z;
  integers : Z;
  numbers : Z;
  strings : Z;
  formats : option (list string);
  arrays : Z;
  items : option Shape;
  objects : Z;
  properties : list (string * Z * Shape);
  map_like : bool;
  truncated : bool
}.

Definition Shape_default : Shape := mkShape 0 0 0 0 0 0 None 0 None 0 [] false false.

Abbreviation Property := (string * Z * Shape)%type.

Definition prop_name (p : Property) : string := p.1.1.
Definition prop_seen (p : Property) : Z := p.1.2.
Definition prop_shape (p : Property) : Shape := p.2.

(** [self.properties.iter().position(..)] and the change made there. *)
Fixpoint prop_update (k : string) (f : Property -> Property) (ps : list Property) : option (list Property) :=
  match ps with
  | [] => None
  | p :: ps' => if String.eqb (prop_name p) k then Some (f p :: ps') else cons p <$> prop_update k f ps'
  end.

(** One member of an object or of another shape: the property it updates, a
    new one while there is room, or [truncated]. *)
Definition prop_upsert (k : string) (f : Property -> Property) (fresh : Property)
    (acc : list Property * bool) : list Property * bool :=
  match prop_update k f acc.1 with
  | Some ps => (ps, acc.2)
  | None => if (List.length acc.1 <? MAX_PROPERTIES)%nat then ((acc.1 ++ [fresh])%list, acc.2) else (acc.1, true)
  end.

(** [add_at]: [room] is [MAX_SHAPE_DEPTH + 1 - depth], so that none left is the
    source's [depth > MAX_SHAPE_DEPTH]. *)
Fixpoint add_at (room : nat) (s : Shape) (v : Value) : Shape :=
  let '(mkShape n nu bo it nb st fm ar its ob ps ml tr) := s in
  let n := n + 1 in
  match room with
  | O => mkShape n nu bo it nb st fm ar its ob ps ml true
  | S room' =>
      match v with
      | JNull => mkShape n (nu + 1) bo it nb st fm ar its ob ps ml tr
      | JBool _ => mkShape n nu (bo + 1) it nb st fm ar its ob ps ml tr
      | JNumber x =>
          if is_i64_number x || is_u64_number x
          then mkShape n nu bo (it + 1) nb st fm ar its ob ps ml tr
          else mkShape n nu bo it (nb + 1) st fm ar its ob ps ml tr
      | JString t =>
          let found := string_formats t in
          let fm := Some (match fm with None => found | Some prev => formats_both prev found end) in
          mkShape n nu bo it nb (st + 1) fm ar its ob ps ml tr
      | JArray a =>
          let its := fold_left (add_at room') (take MAX_ITEMS a) (default Shape_default its) in
          mkShape n nu bo it nb st fm (ar + 1) (Some its) ob ps ml tr
      | JObject o =>
          let ml := ml || existsb (fun k => negb (safe_name k)) (keys o) || (MAX_NAMED_PROPERTIES <? List.length o)%nat in
          let '(ps, tr) := fold_left (fun acc kx =>
            prop_upsert kx.1 (fun p => (prop_name p, prop_seen p + 1, add_at room' (prop_shape p) kx.2))
              (kx.1, 1, add_at room' Shape_default kx.2) acc) o (ps, tr) in
          mkShape n nu bo it nb st fm ar its (ob + 1) ps ml tr
      end
  end.

Definition add (s : Shape) (v : Value) : Shape := add_at (S MAX_SHAPE_DEPTH) s v.
Definition Shape_of (v : Value) : Shape := add Shape_default v.

Definition merge_formats (a b : option (list string)) : option (list string) :=
  match a, b with
  | None, f => f
  | f, None => f
  | Some a, Some b => Some (formats_both a b)
  end.

Fixpoint merge (s other : Shape) {struct other} : Shape :=
  let '(mkShape n nu bo it nb st fm ar its ob ps ml tr) := s in
  let '(mkShape n' nu' bo' it' nb' st' fm' ar' its' ob' ps' ml' tr') := other in
  let its := match its' with Some oi => Some (merge (default Shape_default its) oi) | None => its end in
  let '(ps, tr) := fold_left (fun acc (q : Property) =>
    let '(k, seen, shape) := q in
    prop_upsert k (fun p => (prop_name p, prop_seen p + seen, merge (prop_shape p) shape)) (k, seen, shape) acc)
    ps' (ps, tr || tr') in
  mkShape (n + n') (nu + nu') (bo + bo') (it + it') (nb + nb') (st + st') (merge_formats fm fm')
    (ar + ar') its (ob + ob') ps (ml || ml') tr.

(** * Rendering *)

Inductive Dialect :=
  | Swagger20 | OpenApi30 | OpenApi31 | OpenApi32 | OpenApiUnsupported | Wsdl11 | Wsdl20 | PostmanV1
  | PostmanV20 | PostmanV21 | PostmanEnvironment | PostmanGlobals | InsomniaV4 | InsomniaV5 | Curl | Har
  | Dialect_Unknown.

Definition modern (d : Dialect) : bool := match d with OpenApi31 | OpenApi32 => true | _ => false end.

Definition null_schema (d : Dialect) : Value :=
  match d with
  | OpenApi31 | OpenApi32 => JObject [("type", JString "null")]
  | Swagger20 => JObject [("x-nullable", JBool true)]
  | _ => JObject [("nullable", JBool true)]
  end.

Definition values_contain (l : list Value) (v : Value) : bool := existsb (fun x => value_eqb x v) l.

Definition mark_nullable (s : Value) (d : Dialect) : Value :=
  match s with
  | JObject o =>
      let o :=
        match (if modern d then obj_get "const" o else None) with
        | Some c =>
            let o := obj_remove "const" o in
            let allowed := match obj_get "enum" o with
                           | Some (JArray values) => if negb (values_contain values c) then [] else [c]
                           | _ => [c]
                           end in
            obj_insert "enum" (JArray allowed) o
        | None => o
        end in
      let '(o, listed) :=
        match obj_get "enum" o with
        | Some (JArray e) =>
            (obj_insert "enum" (JArray (if negb (values_contain e JNull) then (e ++ [JNull])%list else e)) o, true)
        | _ => (o, false)
        end in
      match d with
      | OpenApi31 | OpenApi32 =>
          if listed && negb (obj_contains "type" o) then JObject o else
          match obj_get "type" o with
          | Some (JString t) => JObject (obj_insert "type" (JArray [JString t; JString "null"]) o)
          | Some (JArray a) =>
              JObject (obj_insert "type" (JArray (if negb (values_contain a (JString "null"))
                                                 then (a ++ [JString "null"])%list else a)) o)
          | _ => JObject [("anyOf", JArray [JObject o; JObject [("type", JString "null")]])]
          end
      | Swagger20 => JObject (obj_insert "x-nullable" (JBool true) o)
      | _ => JObject (obj_insert "nullable" (JBool true) o)
      end
  | _ => s
  end.

(** [only]. *)
Definition only (t : string) (s : Shape) : Shape :=
  let '(mkShape n nu bo it nb st fm ar its ob ps ml tr) := s in
  let keeps u := String.eqb t u in
  let '(ob, ps) := if keeps "object" then (ob, ps) else (0, []) in
  let '(ar, its) := if keeps "array" then (ar, its) else (0, None) in
  let st := if keeps "string" then st else 0 in
  let '(nb, it) := if keeps "number" || keeps "integer" then (nb, it) else (0, 0) in
  let bo := if keeps "boolean" then bo else 0 in
  mkShape n 0 bo it nb st fm ar its ob ps ml tr.

Definition shape_is_empty (s : Shape) : bool := (samples s =? 0)%Z.

(** The type names of a shape, in the order they are listed. *)
Definition shape_types (s : Shape) : list string :=
  let some n := (0 <? n)%Z in
  ((if some (objects s) then ["object"] else []) ++
   (if some (arrays s) then ["array"] else []) ++
   (if some (strings s) then ["string"] else []) ++
   (if some (numbers s) then ["number"] else if some (integers s) then ["integer"] else []) ++
   (if some (booleans s) then ["boolean"] else []))%list.

(** A map keeps no names. *)
Definition renders_map (s : Shape) : bool :=
  map_like s || (MAX_NAMED_PROPERTIES <? List.length (properties s))%nat.

Definition merged_values (s : Shape) : Shape :=
  fold_left (fun values p => merge values (prop_shape p)) (properties s) Shape_default.

(** The members after the type; [sub] renders a nested shape. *)
Definition render_rest (sub : Shape -> Value) (s : Shape) (types : list string) (out : Object) : Object :=
  let out :=
    if existsb (String.eqb "string") types
    then match formats s with Some (f :: _) => obj_insert "format" (JString f) out | _ => out end
    else out in
  let out :=
    if (0 <? objects s)%Z && renders_map s then
      let values := merged_values s in
      obj_insert "additionalProperties" (if shape_is_empty values then JObject [] else sub values) out
    else if (0 <? objects s)%Z then
      let props := fold_left (fun m p => obj_insert (prop_name p) (sub (prop_shape p)) m) (properties s) [] in
      let required := map (fun p => JString (prop_name p))
                        (List.filter (fun p => (prop_seen p =? objects s)%Z) (properties s)) in
      let out := obj_insert "properties" (JObject props) out in
      if required is [] then out else obj_insert "required" (JArray required) out
    else out in
  if (0 <? arrays s)%Z
  then obj_insert "items" (match items s with Some i => sub i | None => JObject [] end) out
  else out.

(** [schema]; [fuel] bounds the nesting ([schema_fuel] below shows that it is
    never reached: out of fuel is [null], which is no schema). *)
Fixpoint schema_at (fuel : nat) (d : Dialect) (s : Shape) : Value :=
  match fuel with
  | O => JNull
  | S fuel' =>
      let types := shape_types s in
      let nullable := (0 <? nulls s)%Z in
      let finish out :=
        let r := JObject (render_rest (schema_at fuel' d) s types out) in
        if nullable then mark_nullable r d else r in
      match types with
      | [] => if nullable then null_schema d else JObject []
      | [one] => finish [("type", JString one)]
      | many =>
          match d with
          | OpenApi31 | OpenApi32 => finish [("type", JArray (map JString many))]
          | Swagger20 => if nullable then JObject [("x-nullable", JBool true)] else JObject []
          | _ =>
              let r := JObject [("oneOf", JArray (map (fun t => schema_at fuel' d (only t s)) many))] in
              if nullable then mark_nullable r d else r
          end
      end
  end.

Definition SCHEMA_FUEL : nat := 40.
Definition schema (s : Shape) (d : Dialect) : Value := schema_at SCHEMA_FUEL d s.

Definition json_type_name (v : Value) : string :=
  match v with
  | JNull => "null"
  | JBool _ => "boolean"
  | JNumber n => if is_i64_number n || is_u64_number n then "integer" else "number"
  | JString _ => "string"
  | JArray _ => "array"
  | JObject _ => "object"
  end.

(** * The validator the theorems are stated against *)

Definition legacy (d : Dialect) : bool := match d with Swagger20 | OpenApi30 => true | _ => false end.

Definition type_is (t : string) (v : Value) : bool :=
  String.eqb (json_type_name v) t || (String.eqb t "number" && if v is JNumber _ then true else false).

(** One keyword [k] with the value [x]; [acc] judges nested schemas and
    [known] are the members "properties" names. *)
Definition keyword_ok (acc : Value -> Value -> bool) (known : Object) (k : string) (x v : Value) : bool :=
  if String.eqb k "type" then
    match x with
    | JString t => type_is t v
    | JArray ts => existsb (fun t => if t is JString t then type_is t v else false) ts
    | _ => false
    end
  else if String.eqb k "format" then
    match x, v with JString f, JString t => existsb (String.eqb f) (string_formats t) | _, _ => true end
  else if String.eqb k "properties" then
    match x, v with
    | JObject ps, JObject o =>
        forallb (fun p => match obj_get p.1 o with Some y => acc p.2 y | None => true end) ps
    | _, _ => true
    end
  else if String.eqb k "required" then
    match x, v with
    | JArray names, JObject o => forallb (fun n => if n is JString k then obj_contains k o else true) names
    | _, _ => true
    end
  else if String.eqb k "additionalProperties" then
    match v with
    | JObject o => forallb (fun kx => obj_contains kx.1 known || acc x kx.2) o
    | _ => true
    end
  else if String.eqb k "items" then
    match v with JArray a => forallb (acc x) a | _ => true end
  else if String.eqb k "oneOf" then
    match x with JArray bs => (List.length (List.filter (fun b => acc b v) bs) =? 1)%nat | _ => false end
  else if String.eqb k "anyOf" then
    match x with JArray bs => existsb (fun b => acc b v) bs | _ => false end
  else if String.eqb k "enum" then
    match x with JArray vs => values_contain vs v | _ => false end
  else true.

Definition known_members (m : Object) : Object :=
  match obj_get "properties" m with Some (JObject ps) => ps | _ => [] end.

(** [nullable], or else [x-nullable], as a boolean. *)
Definition marked_nullable (m : Object) : bool :=
  match (match obj_get "nullable" m with Some b => Some b | None => obj_get "x-nullable" m end) with
  | Some (JBool b) => b
  | _ => false
  end.

Fixpoint accepts (old : bool) (s v : Value) {struct s} : bool :=
  match s with
  | JObject m =>
      (old && marked_nullable m && if v is JNull then true else false) ||
      forallb (fun kx => keyword_ok (accepts old) (known_members m) kx.1 kx.2 v) m
  | JBool b => b
  | _ => false
  end.

(** * What a shape has seen *)

Definition tallies_ok (s : Shape) : Prop :=
  0 <= nulls s /\ 0 <= booleans s /\ 0 <= integers s /\ 0 <= numbers s /\ 0 <= strings s /\ 0 <= arrays s /\ 0 <= objects s.

(** A place below the nesting followed: nothing but the count of samples. *)
Definition blank (s : Shape) : Prop :=
  nulls s = 0 /\ booleans s = 0 /\ integers s = 0 /\ numbers s = 0 /\ strings s = 0 /\ arrays s = 0 /\ objects s = 0 /\
  items s = None /\ properties s = [].

Abbreviation prop_names ps := (prop_name <$> ps).

Fixpoint shape_ok (room : nat) (s : Shape) : Prop :=
  tallies_ok s /\
  match room with
  | O => blank s
  | S r =>
      (if items s is Some i then shape_ok r i else True) /\
      NoDup (prop_names (properties s)) /\
      (forall p, p ∈ properties s ->
         0 <= prop_seen p <= objects s /\ shape_ok r (prop_shape p) /\
         (map_like s = false -> safe_name (prop_name p) = true))
  end.

(** [s] has taken in a sample like [v]. *)
Fixpoint saw (room : nat) (s : Shape) (v : Value) : Prop :=
  match room with
  | O => True
  | S r =>
      match v with
      | JNull => 0 < nulls s
      | JBool _ => 0 < booleans s
      | JNumber n => if is_i64_number n || is_u64_number n then 0 < integers s else 0 < numbers s
      | JString t => 0 < strings s /\ exists f, formats s = Some f /\ forall x, x ∈ f -> x ∈ string_formats t
      | JArray a => 0 < arrays s /\ exists i, items s = Some i /\ forall x, x ∈ take MAX_ITEMS a -> saw r i x
      | JObject o =>
          0 < objects s /\
          (forall k x, (k, x) ∈ o -> truncated s = true \/
             exists p, p ∈ properties s /\ prop_name p = k /\ saw r (prop_shape p) x) /\
          (forall p, p ∈ properties s -> prop_name p ∉ keys o -> prop_seen p < objects s)
      end
  end.

(** ** The loop over members *)

Lemma prop_update_cases k f ps :
  match prop_update k f ps with
  | Some ps' => exists l1 p l2, ps = (l1 ++ (p :: l2))%list /\ prop_name p = k /\ (k ∉ prop_names l1) /\ ps' = (l1 ++ (f p :: l2))%list
  | None => k ∉ prop_names ps
  end.
Proof.
  induction ps as [|q ps IH]; cbn [prop_update]; [apply not_elem_of_nil|].
  destruct (String.eqb_spec (prop_name q) k) as [<-|Hne].
  { exists [], q, ps. split; [done|]. split; [done|]. split; [apply not_elem_of_nil|done]. }
  destruct (prop_update k f ps) as [ps'|]; cbn.
  - destruct IH as (l1 & p & l2 & -> & Hp & Hn & ->). exists (q :: l1), p, l2.
    split; [done|]. split; [done|]. split; [|done]. csimpl. rewrite not_elem_of_cons. by split.
  - rewrite not_elem_of_cons. by split.
Qed.

Section Upserts.
Context {A : Type} (name : A -> string) (f : A -> Property -> Property) (fresh : A -> Property).
Hypothesis f_name : forall a p, prop_name (f a p) = prop_name p.
Hypothesis fresh_name : forall a, prop_name (fresh a) = name a.

Definition upsert_all (l : list A) (acc : list Property * bool) : list Property * bool :=
  fold_left (fun acc a => prop_upsert (name a) (f a) (fresh a) acc) l acc.

(** What the members [l] make of the properties [ps]. *)
Record upserted (l : list A) (ps : list Property) (tr : bool) (ps' : list Property) (tr' : bool) : Prop := mkUpserted {
  up_nodup : NoDup (prop_names ps');
  up_truncated : tr = true -> tr' = true;
  up_kept : forall p, p ∈ ps ->
    ((prop_name p ∉ (name <$> l)) /\ p ∈ ps') \/ exists a, a ∈ l /\ name a = prop_name p /\ f a p ∈ ps';
  up_arrived : forall a, a ∈ l -> tr' = true \/
    (exists p, p ∈ ps /\ prop_name p = name a /\ f a p ∈ ps') \/ ((name a ∉ prop_names ps) /\ fresh a ∈ ps');
  up_source : forall q, q ∈ ps' ->
    (q ∈ ps /\ prop_name q ∉ (name <$> l)) \/
    (exists a p, a ∈ l /\ p ∈ ps /\ prop_name p = name a /\ q = f a p) \/
    (exists a, a ∈ l /\ (name a ∉ prop_names ps) /\ q = fresh a)
}.

Lemma upsert_one a ps tr ps' tr' : NoDup (prop_names ps) ->
  prop_upsert (name a) (f a) (fresh a) (ps, tr) = (ps', tr') -> upserted [a] ps tr ps' tr'.
Proof.
  intros Hnd. unfold prop_upsert. cbn [fst snd]. pose proof (prop_update_cases (name a) (f a) ps) as Hc.
  destruct (prop_update (name a) (f a) ps) as [ps1|].
  - destruct Hc as (l1 & p & l2 & -> & Hp & Hn1 & ->). intros [= <- <-].
    rewrite fmap_app in Hnd. csimpl in Hnd. apply NoDup_app in Hnd as (Hd1 & Hd & Hd2).
    apply NoDup_cons in Hd2 as [Hn2 Hd2].
    assert (Hother : forall q, q ∈ l1 \/ q ∈ l2 -> prop_name q ∉ (name <$> [a])).
    { intros q Hq Hqa%list_elem_of_singleton.
      destruct Hq as [Hq|Hq]; [apply Hn1|apply Hn2; rewrite Hp]; rewrite <- Hqa; by apply list_elem_of_fmap_2. }
    split.
    + rewrite fmap_app. csimpl. rewrite f_name. apply NoDup_app. split; [done|]. split; [done|]. by apply NoDup_cons.
    + done.
    + intros q Hq. apply elem_of_app in Hq as [Hq|Hq]; [|apply elem_of_cons in Hq as [->|Hq]].
      * left. split; [apply Hother; by left|apply elem_of_app; by left].
      * right. exists a. split; [by left|]. split; [done|]. apply elem_of_app. right. by left.
      * left. split; [apply Hother; by right|]. apply elem_of_app. right. by right.
    + intros b ->%list_elem_of_singleton. right. left. exists p. split; [apply elem_of_app; right; by left|].
      split; [done|]. apply elem_of_app. right. by left.
    + intros q Hq. apply elem_of_app in Hq as [Hq|Hq]; [|apply elem_of_cons in Hq as [->|Hq]].
      * left. split; [apply elem_of_app; by left|apply Hother; by left].
      * right. left. exists a, p. split; [by left|]. split; [apply elem_of_app; right; by left|done].
      * left. split; [apply elem_of_app; right; by right|apply Hother; by right].
  - assert (Hother : forall q, q ∈ ps -> prop_name q ∉ (name <$> [a])).
    { intros q Hq Hqa%list_elem_of_singleton. apply Hc. rewrite <- Hqa. by apply list_elem_of_fmap_2. }
    destruct (_ <? _)%nat; intros [= <- <-]; split; try done.
    + rewrite fmap_app. csimpl. rewrite fresh_name. apply NoDup_app. split; [done|]. split; [|apply NoDup_singleton].
      by intros x Hx ->%list_elem_of_singleton.
    + intros q Hq. left. split; [by apply Hother|]. apply elem_of_app. by left.
    + intros b ->%list_elem_of_singleton. right. right. split; [done|]. apply elem_of_app. right. by left.
    + intros q Hq. apply elem_of_app in Hq as [Hq|Hq]; [|apply list_elem_of_singleton in Hq as ->].
      * left. split; [done|by apply Hother].
      * right. right. exists a. split; [by left|done].
    + intros q Hq. left. split; [by apply Hother|done].
    + intros b ->%list_elem_of_singleton. by left.
    + intros q Hq. left. split; [done|by apply Hother].
Qed.

Lemma upsert_all_spec l ps tr ps' tr' : NoDup (prop_names ps) -> NoDup (name <$> l) ->
  upsert_all l (ps, tr) = (ps', tr') -> upserted l ps tr ps' tr'.
Proof.
  revert ps tr. induction l as [|a l IH]; intros ps tr Hps Hl; cbn [upsert_all fold_left].
  { intros [= <- <-]. split; [done|done|..].
    - intros p Hp. left. split; [apply not_elem_of_nil|done].
    - intros a Ha. by apply not_elem_of_nil in Ha.
    - intros q Hq. left. split; [done|apply not_elem_of_nil]. }
  destruct (prop_upsert (name a) (f a) (fresh a) (ps, tr)) as [ps1 tr1] eqn:E.
  apply (upsert_one a ps tr ps1 tr1) in E as [N1 T1 K1 A1 S1]; [|done].
  csimpl in Hl. apply NoDup_cons in Hl as [Ha Hl]. intros H. apply (IH ps1 tr1 N1 Hl) in H as [N2 T2 K2 A2 S2].
  assert (Hal : forall b, b ∈ l -> name b <> name a).
  { intros b Hb Heq. apply Ha. rewrite <- Heq. by apply list_elem_of_fmap_2. }
  split; [done|by auto|..].
  - intros p Hp. destruct (K1 p Hp) as [[Hna Hp1]|(b & ->%list_elem_of_singleton & Hb & Hp1)].
    + destruct (K2 p Hp1) as [[Hnl Hp2]|(b & Hb & Hbn & Hp2)].
      * left. split; [|done]. csimpl. rewrite not_elem_of_cons. split; [|done].
        intros Heq. apply Hna. rewrite Heq. by left.
      * right. exists b. split; [by right|done].
    + right. exists a. split; [by left|]. split; [done|].
      destruct (K2 (f a p) Hp1) as [[_ ?]|(b & Hbl & Hbn & _)]; [done|].
      rewrite f_name in Hbn. exfalso. apply (Hal b Hbl). congruence.
  - intros b [->|Hb]%elem_of_cons.
    + destruct (A1 a) as [Ht|[(p & Hp & Hn & Hp1)|[Hn Hp1]]]; [by left|by auto|..]; right.
      * left. exists p. split; [done|]. split; [done|].
        destruct (K2 _ Hp1) as [[_ ?]|(c & Hc & Hcn & _)]; [done|]. rewrite f_name in Hcn.
        exfalso. apply (Hal c Hc). congruence.
      * right. split; [done|]. destruct (K2 _ Hp1) as [[_ ?]|(c & Hc & Hcn & _)]; [done|]. rewrite fresh_name in Hcn.
        exfalso. by apply (Hal c Hc).
    + destruct (A2 b Hb) as [Ht|[(p & Hp & Hn & Hp1)|[Hn Hp1]]]; [by left|..]; right.
      * destruct (S1 p Hp) as [[Hps1 _]|[(c & q & ->%list_elem_of_singleton & Hq & Hqn & ->)|(c & ->%list_elem_of_singleton & _ & ->)]].
        -- left. by exists p.
        -- rewrite f_name in Hn. exfalso. apply (Hal b Hb). congruence.
        -- rewrite fresh_name in Hn. exfalso. by apply (Hal b Hb).
      * right. split; [|done]. intros Hin. apply list_elem_of_fmap in Hin as (p & Hpn & Hp).
        destruct (K1 p Hp) as [[_ Hp1']|(c & ->%list_elem_of_singleton & Hc & _)].
        -- apply Hn. rewrite Hpn. by apply list_elem_of_fmap_2.
        -- apply (Hal b Hb). congruence.
  - intros q Hq. destruct (S2 q Hq) as [[Hq1 Hnl]|[(b & p & Hb & Hp & Hpn & ->)|(b & Hb & Hn & ->)]].
    + destruct (S1 q Hq1) as [[Hqp Hna]|[(c & p & ->%list_elem_of_singleton & Hp & Hpn & ->)|(c & ->%list_elem_of_singleton & Hn & ->)]].
      * left. split; [done|]. csimpl. rewrite not_elem_of_cons. split; [|done]. intros Heq. apply Hna. rewrite Heq. by left.
      * right. left. exists a, p. split; [by left|done].
      * right. right. exists a. split; [by left|done].
    + destruct (S1 p Hp) as [[Hps1 _]|[(c & r & ->%list_elem_of_singleton & Hr & Hrn & ->)|(c & ->%list_elem_of_singleton & _ & ->)]].
      * right. left. exists b, p. split; [by right|done].
      * rewrite f_name in Hpn. exfalso. apply (Hal b Hb). congruence.
      * rewrite fresh_name in Hpn. exfalso. by apply (Hal b Hb).
    + right. right. exists b. split; [by right|]. split; [|done]. intros Hin.
      apply list_elem_of_fmap in Hin as (p & Hpn & Hp).
      destruct (K1 p Hp) as [[_ Hp1']|(c & ->%list_elem_of_singleton & Hc & _)].
      * apply Hn. rewrite Hpn. by apply list_elem_of_fmap_2.
      * apply (Hal b Hb). congruence.
Qed.
End Upserts.

(** ** Adding a sample *)

Definition add_member_f (room : nat) (kx : string * Value) (p : Property) : Property :=
  (prop_name p, prop_seen p + 1, add_at room (prop_shape p) kx.2).
Definition add_member_fresh (room : nat) (kx : string * Value) : Property :=
  (kx.1, 1, add_at room Shape_default kx.2).
Definition merge_member_f (q p : Property) : Property :=
  (prop_name p, prop_seen p + prop_seen q, merge (prop_shape p) (prop_shape q)).

Lemma add_at_object r s o : add_at (S r) s (JObject o) =
  let '(ps, tr) := upsert_all fst (add_member_f r) (add_member_fresh r) o (properties s, truncated s) in
  mkShape (samples s + 1) (nulls s) (booleans s) (integers s) (numbers s) (strings s) (formats s) (arrays s)
    (items s) (objects s + 1) ps
    (map_like s || existsb (fun k => negb (safe_name k)) (keys o) || (MAX_NAMED_PROPERTIES <? List.length o)%nat) tr.
Proof. by destruct s. Qed.

Lemma merge_fields s s' : merge s s' =
  let '(ps, tr) := upsert_all prop_name merge_member_f id (properties s') (properties s, truncated s || truncated s') in
  mkShape (samples s + samples s') (nulls s + nulls s') (booleans s + booleans s') (integers s + integers s')
    (numbers s + numbers s') (strings s + strings s') (merge_formats (formats s) (formats s')) (arrays s + arrays s')
    (match items s' with Some oi => Some (merge (default Shape_default (items s)) oi) | None => items s end)
    (objects s + objects s') ps (map_like s || map_like s') tr.
Proof.
  destruct s as [n nu bo it nb st fm ar its ob ps ml tr], s' as [n' nu' bo' it' nb' st' fm' ar' its' ob' ps' ml' tr'].
  cbn [merge properties truncated]. unfold upsert_all. generalize (ps, tr || tr').
  induction ps' as [|[[k seen] sh] ps' IH]; intros acc; [done|]. apply IH.
Qed.

Lemma shape_default_ok r : shape_ok r Shape_default.
Proof.
  destruct r; cbn; repeat split; try done; [apply NoDup_nil_2|..]; by apply not_elem_of_nil in H.
Qed.

Lemma add_members_spec r o ps tr ps' tr' : NoDup (prop_names ps) -> NoDup (keys o) ->
  upsert_all fst (add_member_f r) (add_member_fresh r) o (ps, tr) = (ps', tr') ->
  upserted fst (add_member_f r) (add_member_fresh r) o ps tr ps' tr'.
Proof. by apply upsert_all_spec. Qed.

Lemma merge_members_spec qs ps tr ps' tr' : NoDup (prop_names ps) -> NoDup (prop_names qs) ->
  upsert_all prop_name merge_member_f id qs (ps, tr) = (ps', tr') ->
  upserted prop_name merge_member_f id qs ps tr ps' tr'.
Proof. by apply upsert_all_spec. Qed.

Lemma wf_items a : wf_value (JArray a) -> Forall (fun v => wf_value v) (take MAX_ITEMS a).
Proof. intros H%wf_JArray. by apply Forall_take. Qed.

Lemma fold_add_ok r i l : (forall s v, shape_ok r s -> wf_value v -> shape_ok r (add_at r s v)) ->
  shape_ok r i -> Forall (fun v => wf_value v) l -> shape_ok r (fold_left (add_at r) l i).
Proof. intros Hadd Hi Hl. revert i Hi. induction Hl as [|v l Hv Hl IH]; intros i Hi; [done|]. cbn. auto. Qed.

Lemma shape_ok_items r s : shape_ok (S r) s -> shape_ok r (default Shape_default (items s)).
Proof. intros (_ & Hi & _). destruct (items s); [done|apply shape_default_ok]. Qed.

Lemma existsb_unsafe (o : Object) k : existsb (fun k => negb (safe_name k)) (keys o) = false -> k ∈ keys o -> safe_name k = true.
Proof.
  intros H Hk. destruct (safe_name k) eqn:E; [done|].
  assert (existsb (fun k => negb (safe_name k)) (keys o) = true) as Ht; [|congruence]. apply existsb_exists.
  exists k. split; [by apply list_elem_of_In|by rewrite E].
Qed.

Lemma add_at_ok r s v : shape_ok r s -> wf_value v -> shape_ok r (add_at r s v).
Proof.
  revert s v. induction r as [|r IH]; intros s v Hs Hv.
  { destruct s. destruct Hs as [Hc Hb]. by split. }
  pose proof (shape_ok_items r s Hs) as Hdef. destruct v as [|b|x|t|a|o].
  6: {
    rewrite add_at_object. destruct (upsert_all _ _ _ _ _) as [ps tr] eqn:E.
    destruct Hs as (Hc & Hi & Hn & Hp). apply wf_JObject in Hv as [Ho Hw].
    apply add_members_spec in E as [N _ _ _ Src]; [|done..].
    split; [unfold tallies_ok in *; cbn; lia|]. split; [done|]. split; [done|]. cbn [properties objects map_like].
    intros q Hq. destruct (Src q Hq) as [[Hqp _]|[(a & p & Ha & Hpp & Hn' & ->)|(a & Ha & Hn' & ->)]].
    - destruct (Hp q Hqp) as (? & ? & Hsafe). split; [lia|]. split; [done|].
      intros Hml. apply orb_false_iff in Hml as [Hml _]. apply orb_false_iff in Hml as [Hml _]. auto.
    - destruct (Hp p Hpp) as (? & Hsh & Hsafe). cbn. split; [lia|].
      rewrite list.Forall_forall in Hw. split; [apply IH; [done|by apply Hw]|].
      intros Hml. apply orb_false_iff in Hml as [Hml _]. apply orb_false_iff in Hml as [Hml _]. auto.
    - cbn. split; [destruct Hc; lia|]. rewrite list.Forall_forall in Hw.
      split; [apply IH; [apply shape_default_ok|by apply Hw]|].
      intros Hml. apply orb_false_iff in Hml as [Hml _]. apply orb_false_iff in Hml as [_ Hml].
      eapply existsb_unsafe; [exact Hml|]. change (a.1 ∈ o.*1); by apply list_elem_of_fmap_2. }
  all: destruct s as [n nu bo it nb st fm ar its ob ps ml tr], Hs as (Hc & Hi & Hn & Hp);
    cbn in *; unfold tallies_ok in *; cbn in *.
  1,2,4: split; [lia|done].
  - destruct (_ || _); (split; [cbn; lia|done]).
  - split; [lia|]. split; [|done]. apply fold_add_ok; [done..|]. by apply wf_items.
Qed.

(** What was covered stays covered. *)
Lemma fold_add_covers r i l v : (forall s w v, shape_ok r s -> wf_value w -> saw r s v -> saw r (add_at r s w) v) ->
  shape_ok r i -> Forall (fun v => wf_value v) l -> saw r i v -> saw r (fold_left (add_at r) l i) v.
Proof.
  intros Hadd Hi Hl. revert i Hi. induction Hl as [|w l Hw Hl IH]; intros i Hi Hc; [done|]. cbn.
  apply IH; [by apply add_at_ok|by apply Hadd].
Qed.

Lemma formats_both_elem x a b : x ∈ formats_both a b -> x ∈ a /\ x ∈ b.
Proof.
  unfold formats_both. rewrite list_elem_of_In, filter_In, <- list_elem_of_In.
  intros [Ha (y & Hy & <-%String.eqb_eq)%existsb_exists]. by rewrite <- list_elem_of_In in Hy.
Qed.

Lemma add_at_keeps r s w v : shape_ok r s -> wf_value w -> saw r s v -> saw r (add_at r s w) v.
Proof.
  revert s w v. induction r as [|r IH]; intros s w v Hs Hw Hc; [done|].
  pose proof (shape_ok_items r s Hs) as Hdef. destruct w as [|b|x|t|a|o].
  6: {
    rewrite add_at_object. destruct (upsert_all _ _ _ _ _) as [ps tr] eqn:E.
    destruct Hs as (Hcs & Hi & Hn & Hp). apply wf_JObject in Hw as [Ho Hw]. rewrite list.Forall_forall in Hw.
    apply add_members_spec in E as [_ T K _ Src]; [|done..].
    destruct v as [| | | | |o']; try done. destruct Hc as (Hob & Hmem & Hreq).
    cbn [saw objects properties truncated]. split; [lia|]. split.
    - intros k x Hkx. destruct (Hmem k x Hkx) as [Ht|(p & Hpp & Hpn & Hpc)]; [left; by apply T|right].
      destruct (K p Hpp) as [[_ Hp']|(a & Ha & _ & Hp')]; [by exists p|].
      exists (add_member_f r a p). split; [done|]. split; [done|].
      apply IH; [by apply Hp|by apply Hw|done].
    - intros q Hq Hnk. destruct (Src q Hq) as [[Hqp _]|[(a & p & _ & Hpp & _ & ->)|(a & _ & _ & ->)]].
      + specialize (Hreq q Hqp Hnk). lia.
      + specialize (Hreq p Hpp Hnk). cbn. lia.
      + cbn. lia. }
  all: destruct s as [n nu bo it nb st fm ar its ob ps ml tr], Hs as (Hcs & Hi & Hn & Hp);
    cbn in *; unfold tallies_ok in *; cbn in *.
  1,2: destruct v as [| |y| | |]; cbn in *; try done; try lia; by destruct (_ || _).
  - destruct (_ || _), v as [| |y| | |]; cbn in *; try done; try lia; destruct (_ || _); lia.
  - destruct v as [| |y|t'| |]; cbn in *; try done; try lia.
    destruct Hc as (? & f & -> & Hf). split; [lia|]. eexists. split; [done|].
    intros x [Hx _]%formats_both_elem. auto.
  - destruct v as [| |y| |a'|]; cbn in *; try done.
    destruct Hc as (? & i & -> & Hcov). split; [lia|]. eexists. split; [done|]. intros x Hx.
    apply fold_add_covers; [by intros; apply IH|done|by apply wf_items|by apply Hcov].
Qed.

(** The sample itself is covered. *)
Lemma fold_add_covered r i l v : (forall s v, shape_ok r s -> wf_value v -> saw r (add_at r s v) v) ->
  shape_ok r i -> Forall (fun v => wf_value v) l -> v ∈ l -> saw r (fold_left (add_at r) l i) v.
Proof.
  intros Hadd Hi Hl. revert i Hi. induction Hl as [|w l Hw Hl IH]; intros i Hi Hv; [by apply not_elem_of_nil in Hv|].
  cbn. apply elem_of_cons in Hv as [->|Hv]; [|by apply IH; [apply add_at_ok|]].
  apply fold_add_covers; [intros; by apply add_at_keeps|by apply add_at_ok|done|by apply Hadd].
Qed.

Lemma add_at_covers r s v : shape_ok r s -> wf_value v -> saw r (add_at r s v) v.
Proof.
  revert s v. induction r as [|r IH]; intros s v Hs Hv; [done|].
  pose proof (shape_ok_items r s Hs) as Hdef. destruct v as [|b|x|t|a|o].
  6: {
    rewrite add_at_object. destruct (upsert_all _ _ _ _ _) as [ps tr] eqn:E.
    destruct Hs as (Hcs & Hi & Hn & Hp). apply wf_JObject in Hv as [Ho Hw]. rewrite list.Forall_forall in Hw.
    apply add_members_spec in E as [_ _ _ Arr Src]; [|done..].
    cbn [saw objects properties truncated]. unfold tallies_ok in Hcs. split; [lia|]. split.
    - intros k x Hkx. destruct (Arr (k, x) Hkx) as [Ht|[(p & Hpp & Hpn & Hp')|[_ Hp']]]; [by left|right..].
      + exists (add_member_f r (k, x) p). split; [done|]. split; [done|]. apply IH; [by apply Hp|by apply (Hw (k, x))].
      + exists (add_member_fresh r (k, x)). split; [done|]. split; [done|].
        apply IH; [apply shape_default_ok|by apply (Hw (k, x))].
    - intros q Hq Hnk. destruct (Src q Hq) as [[Hqp _]|[(a & p & Ha & Hpp & Hpn & ->)|(a & Ha & _ & ->)]].
      + specialize (Hp q Hqp). lia.
      + destruct Hnk. cbn. rewrite Hpn. change (a.1 ∈ o.*1); by apply list_elem_of_fmap_2.
      + destruct Hnk. change (a.1 ∈ o.*1); by apply list_elem_of_fmap_2. }
  all: destruct s as [n nu bo it nb st fm ar its ob ps ml tr], Hs as (Hcs & Hi & Hn & Hp);
    cbn in *; unfold tallies_ok in *; cbn in *.
  1,2: lia.
  - destruct (_ || _); cbn; lia.
  - split; [lia|]. eexists. split; [done|]. intros x Hx. destruct fm; [by apply formats_both_elem in Hx as []|done].
  - split; [lia|]. eexists. split; [done|]. intros x Hx.
    apply fold_add_covered; [done..|by apply wf_items|done].
Qed.

(** ** Merging two shapes *)

Lemma merge_ok r s s' : shape_ok r s -> shape_ok r s' -> shape_ok r (merge s s').
Proof.
  revert s s'. induction r as [|r IH]; intros s s' Hs Hs'.
  { rewrite merge_fields. destruct (upsert_all _ _ _ _ _) as [ps tr] eqn:E.
    destruct s, s', Hs as [Hc Hb], Hs' as [Hc' Hb'].
    unfold blank, tallies_ok in *; cbn in *; unfold blank, tallies_ok in *; cbn in *.
    destruct Hb as (? & ? & ? & ? & ? & ? & ? & -> & ->), Hb' as (? & ? & ? & ? & ? & ? & ? & -> & ->).
    injection E as <- <-. repeat split; lia || done. }
  pose proof (shape_ok_items r s Hs) as Hdef. rewrite merge_fields. destruct (upsert_all _ _ _ _ _) as [ps tr] eqn:E.
  destruct Hs as (Hc & Hi & Hn & Hp), Hs' as (Hc' & Hi' & Hn' & Hp'). unfold tallies_ok in Hc, Hc'.
  apply merge_members_spec in E as [N _ _ _ Src]; [|done..].
  split; [unfold tallies_ok; cbn; lia|]. split; [cbn; destruct (items s'); [by apply IH|done]|]. split; [done|].
  cbn [properties objects map_like]. intros q Hq.
  destruct (Src q Hq) as [[Hqp _]|[(a & p & Ha & Hpp & Hn1 & ->)|(a & Ha & Hn1 & ->)]].
  - destruct (Hp q Hqp) as (? & ? & ?). split; [lia|]. split; [done|]. intros [? _]%orb_false_iff. auto.
  - destruct (Hp p Hpp) as (? & ? & ?), (Hp' a Ha) as (? & ? & ?). cbn. split; [lia|].
    split; [by apply IH|]. intros [? _]%orb_false_iff. auto.
  - destruct (Hp' a Ha) as (? & ? & ?). split; [unfold id; lia|]. split; [done|]. intros [_ ?]%orb_false_iff. unfold id. auto.
Qed.

Lemma merge_formats_sub a b f (P : string -> Prop) : a = Some f \/ b = Some f -> (forall x, x ∈ f -> P x) ->
  exists g, merge_formats a b = Some g /\ forall x, x ∈ g -> P x.
Proof.
  intros [->| ->] Hf; [destruct b|destruct a]; cbn; eexists; (split; [done|]); intros x Hx;
    try apply formats_both_elem in Hx as []; auto.
Qed.

Lemma merge_keeps r s s' v : shape_ok r s -> shape_ok r s' -> saw r s v -> saw r (merge s s') v.
Proof.
  revert s s' v. induction r as [|r IH]; intros s s' v Hs Hs' Hc; [done|].
  rewrite merge_fields. destruct (upsert_all _ _ _ _ _) as [ps tr] eqn:E.
  destruct Hs as (Hcs & Hi & Hn & Hp), Hs' as (Hcs' & Hi' & Hn' & Hp'). unfold tallies_ok in Hcs, Hcs'.
  destruct v as [|b|x|t|a|o]; cbn in Hc |- *; try lia.
  - destruct (_ || _); lia.
  - destruct Hc as (? & f & Hf & Hsub). split; [lia|]. eapply merge_formats_sub; [by left|done].
  - destruct Hc as (? & i & Hit & Hcov). split; [lia|]. rewrite Hit in *. destruct (items s') as [oi|].
    + eexists. split; [done|]. intros x Hx. apply IH; auto.
    + by exists i.
  - apply merge_members_spec in E as [_ T K _ Src]; [|done..]. destruct Hc as (Hob & Hmem & Hreq).
    split; [lia|]. split.
    + intros k x Hkx. destruct (Hmem k x Hkx) as [Ht|(p & Hpp & Hpn & Hpc)]; [left; apply T; by rewrite Ht|right].
      destruct (K p Hpp) as [[_ Hp1]|(a & Ha & _ & Hp1)]; [by exists p|].
      exists (merge_member_f a p). split; [done|]. split; [done|]. apply IH; [by apply Hp|by apply Hp'|done].
    + intros q Hq Hnk. destruct (Src q Hq) as [[Hqp _]|[(a & p & Ha & Hpp & _ & ->)|(a & Ha & _ & ->)]].
      * specialize (Hreq q Hqp Hnk). lia.
      * specialize (Hreq p Hpp Hnk). specialize (Hp' a Ha). cbn. lia.
      * specialize (Hp' a Ha). unfold id. lia.
Qed.

Lemma merge_covers r s s' v : shape_ok r s -> shape_ok r s' -> saw r s' v -> saw r (merge s s') v.
Proof.
  revert s s' v. induction r as [|r IH]; intros s s' v Hs Hs' Hc; [done|].
  pose proof (shape_ok_items r s Hs) as Hdef. rewrite merge_fields. destruct (upsert_all _ _ _ _ _) as [ps tr] eqn:E.
  destruct Hs as (Hcs & Hi & Hn & Hp), Hs' as (Hcs' & Hi' & Hn' & Hp'). unfold tallies_ok in Hcs, Hcs'.
  destruct v as [|b|x|t|a|o]; cbn in Hc |- *; try lia.
  - destruct (_ || _); lia.
  - destruct Hc as (? & f & Hf & Hsub). split; [lia|]. eapply merge_formats_sub; [by right|done].
  - destruct Hc as (? & i & Hit & Hcov). split; [lia|]. rewrite Hit in *.
    eexists. split; [done|]. intros x Hx. apply IH; auto.
  - apply merge_members_spec in E as [_ T _ Arr Src]; [|done..]. destruct Hc as (Hob & Hmem & Hreq).
    split; [lia|]. split.
    + intros k x Hkx. destruct (Hmem k x Hkx) as [Ht|(q & Hq & Hqn & Hqc)];
        [left; apply T; rewrite Ht; apply orb_true_r|].
      destruct (Arr q Hq) as [Ht|[(p & Hpp & Hpn & Hp1)|[_ Hp1]]]; [by left|right..].
      * exists (merge_member_f q p). split; [done|]. split; [cbn; congruence|]. apply IH; [by apply Hp|by apply Hp'|done].
      * by exists q.
    + intros q Hq Hnk. destruct (Src q Hq) as [[Hqp _]|[(a & p & Ha & Hpp & Hpn & ->)|(a & Ha & _ & ->)]].
      * specialize (Hp q Hqp). lia.
      * specialize (Hp p Hpp). cbn in Hnk. rewrite Hpn in Hnk. specialize (Hreq a Ha Hnk). cbn. lia.
      * specialize (Hreq a Ha Hnk). unfold id. lia.
Qed.

Lemma merged_values_ok r s : shape_ok (S r) s -> shape_ok r (merged_values s).
Proof.
  intros (_ & _ & _ & Hp). unfold merged_values. assert (Hd := shape_default_ok r). revert Hd.
  generalize Shape_default. induction (properties s) as [|p ps IH]; intros acc Hacc; [done|].
  cbn. apply IH; [intros; apply Hp; by right|]. apply merge_ok; [done|]. apply Hp. by left.
Qed.

Lemma merged_values_covers r s p v : shape_ok (S r) s -> p ∈ properties s -> saw r (prop_shape p) v ->
  saw r (merged_values s) v.
Proof.
  intros (_ & _ & _ & Hp) Hin Hc. unfold merged_values. assert (Hd := shape_default_ok r). revert Hd.
  assert (Hall : forall q, q ∈ properties s -> shape_ok r (prop_shape q)) by (intros; by apply Hp). clear Hp.
  generalize Shape_default. induction (properties s) as [|q ps IH]; intros acc Hacc; [by apply not_elem_of_nil in Hin|].
  assert (Hps : forall q', q' ∈ ps -> shape_ok r (prop_shape q')) by (intros; apply Hall; by right).
  assert (Hq : shape_ok r (prop_shape q)) by (apply Hall; by left).
  assert (Hm := merge_ok r acc (prop_shape q) Hacc Hq). cbn.
  apply elem_of_cons in Hin as [<-|Hin]; [|by apply IH].
  assert (Hcm := merge_covers r acc (prop_shape p) v Hacc Hq Hc). revert Hm Hcm.
  generalize (merge acc (prop_shape p)). clear IH Hall. induction ps as [|q ps IH]; intros acc' Hm Hcm; [done|].
  cbn. assert (Hq' : shape_ok r (prop_shape q)) by (apply Hps; by left).
  apply IH; [intros; apply Hps; by right|by apply merge_ok|by apply merge_keeps].
Qed.

(** ** The shape of a run of samples *)

Definition infer (vs : list Value) : Shape := fold_left add vs Shape_default.

Lemma infer_ok vs : Forall (fun v => wf_value v) vs -> shape_ok (S MAX_SHAPE_DEPTH) (infer vs).
Proof. intros H. apply fold_add_ok; [intros; by apply add_at_ok|apply shape_default_ok|done]. Qed.

Lemma infer_covers vs v : Forall (fun v => wf_value v) vs -> v ∈ vs -> saw (S MAX_SHAPE_DEPTH) (infer vs) v.
Proof.
  intros H Hv. apply (fold_add_covered (S MAX_SHAPE_DEPTH)); [intros; by apply add_at_covers|apply shape_default_ok|done..].
Qed.
