(* ===== verification/InferSchema.v ===== *)
(** What an inferred schema promises ([anvil-contract/src/infer.rs],
    [Shape::schema]): it accepts the samples it was inferred from, its fuel is
    never reached, and it holds no observed data. *)
From stdpp Require Import base list numbers strings sets.
From Stdlib Require Import ZArith Lia Ascii String.
From S2P Require Import Prelude Text Json Infer.
Open Scope Z_scope.
Open Scope string_scope.

(** * The rendering accepts what the shape saw *)

(** Every array is short enough to be sampled in full. *)
Fixpoint sampled (v : Value) : bool :=
  match v with
  | JArray a => (List.length a <=? MAX_ITEMS)%nat && forallb sampled a
  | JObject o => forallb (fun kv => sampled kv.2) o
  | _ => true
  end.

(** No place above the nesting followed dropped a property, nor did the merge
    of a map's values. *)
Fixpoint nothing_dropped (room : nat) (s : Shape) : bool :=
  match room with
  | O => true
  | S r =>
      negb ((0 <? objects s)%Z && truncated s) &&
      (if items s is Some i then nothing_dropped r i else true) &&
      (if renders_map s then nothing_dropped r (merged_values s)
       else forallb (fun p => nothing_dropped r (prop_shape p)) (properties s))
  end.

(** The members after the type, as one list. *)
Definition rest_format (s : Shape) (types : list string) : Object :=
  if existsb (String.eqb "string") types
  then match formats s with Some (f :: _) => [("format", JString f)] | _ => [] end else [].

Definition rest_props (sub : Shape -> Value) (s : Shape) : Object :=
  fold_left (fun m p => obj_insert (prop_name p) (sub (prop_shape p)) m) (properties s) [].

Definition rest_required (s : Shape) : list Value :=
  map (fun p => JString (prop_name p)) (List.filter (fun p => (prop_seen p =? objects s)%Z) (properties s)).

Definition rest_members (sub : Shape -> Value) (s : Shape) : Object :=
  if (0 <? objects s)%Z then
    if renders_map s
    then [("additionalProperties", if shape_is_empty (merged_values s) then JObject [] else sub (merged_values s))]
    else ("properties", JObject (rest_props sub s)) ::
         match rest_required s with [] => [] | names => [("required", JArray names)] end
  else [].

Definition rest_items (sub : Shape -> Value) (s : Shape) : Object :=
  if (0 <? arrays s)%Z then [("items", match items s with Some i => sub i | None => JObject [] end)] else [].

Definition rest (sub : Shape -> Value) (s : Shape) (types : list string) : Object :=
  (rest_format s types ++ rest_members sub s ++ rest_items sub s)%list.

Lemma render_rest_eq sub s types ty : render_rest sub s types [("type", ty)] = ("type", ty) :: rest sub s types.
Proof.
  unfold render_rest, rest, rest_format, rest_members, rest_items.
  change (fold_left _ (properties s) []) with (rest_props sub s).
  change (map _ (List.filter _ (properties s))) with (rest_required s).
  destruct (existsb _ types); [destruct (formats s) as [[|f fs]|]|];
    (destruct (0 <? objects s)%Z; cbn [andb]; [destruct (renders_map s); [|destruct (rest_required s)]|]);
    destruct (0 <? arrays s)%Z; reflexivity.
Qed.

Definition REST_KEYS : list string := ["format"; "additionalProperties"; "properties"; "required"; "items"].

Lemma rest_keys sub s types k : k ∈ keys (rest sub s types) -> k ∈ REST_KEYS.
Proof.
  unfold rest, rest_format, rest_members, rest_items, keys. rewrite !fmap_app, !elem_of_app.
  intros [H|[H|H]]; revert H.
  - destruct (existsb _ types); [destruct (formats s) as [[|f fs]|]|]; unfold REST_KEYS; csimpl; set_solver.
  - destruct (0 <? objects s)%Z; [destruct (renders_map s); [|destruct (rest_required s)]|]; unfold REST_KEYS; csimpl; set_solver.
  - destruct (0 <? arrays s)%Z; unfold REST_KEYS; csimpl; set_solver.
Qed.

Lemma rest_get sub s types k : k ∉ REST_KEYS -> obj_get k (rest sub s types) = None.
Proof. intros H. apply obj_get_None. by intros ?%rest_keys. Qed.

(** The members of the rendered "properties". *)
Lemma rest_props_get sub s k x : obj_get k (rest_props sub s) = Some x ->
  exists p, p ∈ properties s /\ prop_name p = k /\ x = sub (prop_shape p).
Proof.
  unfold rest_props.
  assert (H : forall ps m, obj_get k (fold_left (fun m p => obj_insert (prop_name p) (sub (prop_shape p)) m) ps m) = Some x ->
    obj_get k m = Some x \/ exists p, p ∈ ps /\ prop_name p = k /\ x = sub (prop_shape p)).
  { induction ps as [|p ps IH]; intros m Hm; [by left|]. cbn in Hm.
    destruct (IH _ Hm) as [Hk|(q & Hq & Hqn & ->)].
    - destruct (decide (prop_name p = k)) as [<-|Hne].
      + rewrite obj_get_insert_eq in Hk. injection Hk as <-. right. exists p. split; [by left|done].
      + rewrite obj_get_insert_ne in Hk by done. by left.
    - right. exists q. split; [by right|done]. }
  intros Hk. by destruct (H _ _ Hk).
Qed.

Lemma rest_props_NoDup sub s : NoDup (keys (rest_props sub s)).
Proof.
  unfold rest_props. assert (H : NoDup (keys ([] : Object))) by constructor. revert H. generalize ([] : Object).
  induction (properties s) as [|p ps IH]; intros m Hm; [done|]. cbn. apply IH. by apply obj_insert_NoDup.
Qed.

Lemma prop_names_inj ps p q : NoDup (prop_names ps) -> p ∈ ps -> q ∈ ps -> prop_name p = prop_name q -> p = q.
Proof.
  induction ps as [|a ps IH]; intros Hn Hp Hq He; [by apply not_elem_of_nil in Hp|].
  csimpl in Hn. apply NoDup_cons in Hn as [Ha Hn].
  apply elem_of_cons in Hp as [->|Hp]; apply elem_of_cons in Hq as [->|Hq]; [done| | |by apply IH].
  - exfalso. apply Ha. rewrite He. by apply list_elem_of_fmap_2.
  - exfalso. apply Ha. rewrite <- He. by apply list_elem_of_fmap_2.
Qed.

Section Rest.
Variables (old : bool) (r : nat) (sub : Shape -> Value).
Hypothesis sub_accepts : forall s v, shape_ok r s -> nothing_dropped r s = true -> saw r s v ->
  sampled v = true -> wf_value v -> accepts old (sub s) v = true.

(** Every member after the type accepts a covered value of the shape. *)
Lemma rest_accepts known s types v :
  shape_ok (S r) s -> nothing_dropped (S r) s = true -> saw (S r) s v -> sampled v = true -> wf_value v ->
  forallb (fun kx => keyword_ok (accepts old) known kx.1 kx.2 v) (rest sub s types) = true.
Proof.
  intros Hs Hcom Hc Hv Hw. pose proof Hs as (Hcs & Hi & Hn & Hp).
  cbn [nothing_dropped] in Hcom. rewrite !andb_true_iff in Hcom. destruct Hcom as [[Htr Hci] Hcp].
  unfold rest. rewrite !forallb_app, !andb_true_iff. split; [|split].
  - unfold rest_format. destruct (existsb _ types); [|done]. destruct (formats s) as [[|f fs]|] eqn:Ef; [done| |done].
    cbn. rewrite andb_true_r. destruct v as [| | |t| |]; try done.
    destruct Hc as (_ & f' & Hf & Hsub). rewrite Ef in Hf. injection Hf as <-.
    apply existsb_exists. exists f. rewrite <- list_elem_of_In. split; [apply Hsub; by left|apply String.eqb_refl].
  - unfold rest_members. destruct (0 <? objects s)%Z eqn:Eo; [|done].
    destruct v as [| | | | |o]; try (destruct (renders_map s); [done|]; by destruct (rest_required s)).
    destruct Hc as (_ & Hmem & Hreq). apply wf_JObject in Hw as [Hno Hwo]. rewrite list.Forall_forall in Hwo.
    cbn in Htr. destruct (truncated s); [done|].
    assert (Hso : forall k x, (k, x) ∈ o -> sampled x = true /\ wf_value x).
    { intros k x Hkx. split; [|by apply (Hwo (k, x))]. cbn in Hv. rewrite forallb_forall in Hv.
      apply (Hv (k, x)). by apply list_elem_of_In. }
    destruct (renders_map s).
    + cbn. rewrite andb_true_r. apply forallb_forall. intros [k x] Hkx%list_elem_of_In. apply orb_true_iff. right. cbn.
      destruct (Hmem k x Hkx) as [|(p & Hpp & Hpn & Hpc)]; [done|]. destruct (shape_is_empty _); [by destruct old|].
      destruct (Hso k x Hkx). apply sub_accepts; [by apply merged_values_ok|done| |done..].
      by eapply merged_values_covers.
    + assert (Hprops : keyword_ok (accepts old) known "properties" (JObject (rest_props sub s)) (JObject o) = true).
      { cbn. apply forallb_forall. intros [k x] Hkx%list_elem_of_In. cbn.
        apply obj_get_Some in Hkx; [|apply rest_props_NoDup]. apply rest_props_get in Hkx as (p & Hpp & <- & ->).
        destruct (obj_get (prop_name p) o) as [y|] eqn:Ey; [|done]. apply obj_get_elem in Ey.
        destruct (Hmem _ _ Ey) as [|(q & Hq & Hqn & Hqc)]; [done|].
        assert (q = p) as -> by (eapply prop_names_inj; done).
        destruct (Hso _ _ Ey). rewrite forallb_forall in Hcp.
        apply sub_accepts; [by apply Hp|by apply Hcp, list_elem_of_In|done..]. }
      assert (Hr : keyword_ok (accepts old) known "required" (JArray (rest_required s)) (JObject o) = true).
      { cbn. apply forallb_forall. unfold rest_required. intros n (p & <- & Hpf)%in_map_iff.
        apply filter_In in Hpf as [Hpp Heq%Z.eqb_eq]. apply list_elem_of_In in Hpp.
        unfold obj_contains. destruct (obj_get (prop_name p) o) eqn:Ep; [done|]. apply obj_get_None in Ep.
        specialize (Hreq p Hpp Ep). lia. }
      destruct (rest_required s) as [|n ns] eqn:Er; cbn [forallb fst snd]; rewrite Hprops; [done|]. by rewrite Hr.
  - unfold rest_items. destruct (0 <? arrays s)%Z eqn:Ea; [|done]. cbn. rewrite andb_true_r.
    destruct v as [| | | |a|]; try done. destruct Hc as (_ & i & Hit & Hcov). rewrite Hit in *.
    cbn in Hv. apply andb_true_iff in Hv as [Hlen Hsa]. rewrite forallb_forall in Hsa.
    apply wf_JArray in Hw. rewrite list.Forall_forall in Hw.
    apply forallb_forall. intros x Hx%list_elem_of_In. apply Nat.leb_le in Hlen.
    apply sub_accepts; [done|done| |by apply Hsa, list_elem_of_In|by apply Hw].
    apply Hcov. by rewrite take_ge.
Qed.
End Rest.

(** ** One type of a shape *)

Lemma only_ok r t s : shape_ok (S r) s -> shape_ok (S r) (only t s).
Proof.
  destruct s as [n nu bo it nb st fm ar its ob ps ml tr]. intros (Hc & Hi & Hn & Hp).
  unfold tallies_ok in Hc. cbn in Hc, Hi, Hn, Hp. unfold only.
  destruct (String.eqb t "object"), (String.eqb t "array"), (String.eqb t "string"),
    (String.eqb t "number" || String.eqb t "integer"), (String.eqb t "boolean");
    cbn; unfold tallies_ok; cbn; (split; [lia|]); (split; [done|]); (split; [done || apply NoDup_nil_2|]);
    try done; by intros p ?%not_elem_of_nil.
Qed.

Lemma complete_default r : nothing_dropped r Shape_default = true.
Proof. by destruct r. Qed.

Lemma only_complete r t s : nothing_dropped (S r) s = true -> nothing_dropped (S r) (only t s) = true.
Proof.
  destruct s as [n nu bo it nb st fm ar its ob ps ml tr]. cbn [nothing_dropped objects truncated items properties].
  unfold renders_map, merged_values. cbn [map_like properties]. rewrite !andb_true_iff. intros [[Htr Hi] Hp]. unfold only.
  destruct (String.eqb t "object"), (String.eqb t "array"), (String.eqb t "number" || String.eqb t "integer");
    cbn [nothing_dropped objects truncated items properties map_like]; unfold renders_map, merged_values;
    cbn [map_like properties]; rewrite ?Htr, ?Hi; (split; [done|]); first [exact Hp|cbn; destruct (ml || false); rewrite ?complete_default; done].
Qed.

Lemma only_types t s : t ∈ shape_types s -> shape_types (only t s) = [t] /\ nulls (only t s) = 0.
Proof.
  destruct s as [n nu bo it nb st fm ar its ob ps ml tr]. unfold shape_types. cbn.
  rewrite !elem_of_app. intros H. split; [|by destruct (String.eqb t "object"), (String.eqb t "array"), (_ || _)].
  destruct (0 <? ob)%Z eqn:E1, (0 <? ar)%Z eqn:E2, (0 <? st)%Z eqn:E3, (0 <? nb)%Z eqn:E4, (0 <? it)%Z eqn:E5,
    (0 <? bo)%Z eqn:E6; cbn in H; rewrite ?list_elem_of_singleton in H;
  repeat match goal with
  | H : _ \/ _ |- _ => destruct H
  | H : _ ∈ [] |- _ => by apply not_elem_of_nil in H
  | H : t = _ |- _ => subst t; cbn; rewrite ?E1, ?E2, ?E3, ?E4, ?E5, ?E6; done
  end.
Qed.

Lemma covers_only r s v : tallies_ok s -> saw (S r) s v -> v <> JNull ->
  exists t, t ∈ shape_types s /\ type_is t v = true /\ saw (S r) (only t s) v.
Proof.
  destruct s as [n nu bo it nb st fm ar its ob ps ml tr]. unfold tallies_ok, shape_types. cbn -[saw only].
  intros Hn Hc Hv.
  assert (Hin : forall (m : Z) (t : string), 0 < m -> t ∈ (if (0 <? m)%Z then [t] else [])).
  { intros m t Hm. rewrite (proj2 (Z.ltb_lt 0 m)) by done. by left. }
  destruct v as [|b|x|t|a|o]; [done|..].
  - exists "boolean". rewrite !elem_of_app. split; [by do 4 right; apply Hin|]. by split.
  - unfold type_is. cbn. cbn in Hc. destruct (is_i64_number x || is_u64_number x) eqn:Ex.
    + destruct (0 <? nb)%Z eqn:Eb.
      * exists "number". rewrite !elem_of_app. split; [do 3 right; left; by left|]. cbn. by rewrite ?Ex.
      * exists "integer". rewrite !elem_of_app. split; [do 3 right; left; by apply Hin|]. cbn. by rewrite ?Ex.
    + exists "number". rewrite !elem_of_app. rewrite (proj2 (Z.ltb_lt 0 nb)) by done.
      split; [do 3 right; left; by left|]. cbn. by rewrite ?Ex.
  - exists "string". rewrite !elem_of_app. split; [by do 2 right; left; apply Hin; apply Hc|]. by split.
  - exists "array". rewrite !elem_of_app. split; [by right; left; apply Hin; apply Hc|]. by split.
  - exists "object". rewrite !elem_of_app. split; [by left; apply Hin; apply Hc|]. by split.
Qed.

(** The types of one shape tell values apart. *)
Lemma types_disjoint s v t u : t ∈ shape_types s -> u ∈ shape_types s ->
  type_is t v = true -> type_is u v = true -> t = u.
Proof.
  unfold shape_types. cbn zeta. rewrite !elem_of_app. unfold type_is.
  assert (Hone : forall (b : bool) (w x : string), x ∈ (if b then [w] else []) -> x = w).
  { intros b w x H. destruct b; [by apply list_elem_of_singleton in H|by apply not_elem_of_nil in H]. }
  intros Ht Hu.
  assert (Hnum : forall x, x ∈ (if (0 <? numbers s)%Z then ["number"] else if (0 <? integers s)%Z then ["integer"] else []) ->
    x = if (0 <? numbers s)%Z then "number" else "integer").
  { intros x. destruct (0 <? numbers s)%Z, (0 <? integers s)%Z; intros H;
      by apply list_elem_of_singleton in H || apply not_elem_of_nil in H. }
  destruct Ht as [Ht|[Ht|[Ht|[Ht|Ht]]]], Hu as [Hu|[Hu|[Hu|[Hu|Hu]]]];
    first [apply Hone in Ht|apply Hnum in Ht]; first [apply Hone in Hu|apply Hnum in Hu]; subst; try done;
    destruct v as [| |x| | |]; cbn; try done; try (destruct (0 <? numbers s)%Z; cbn; done);
    destruct (is_i64_number x || is_u64_number x); cbn; try done; destruct (0 <? numbers s)%Z; cbn; done.
Qed.

(** ** Marking [null] *)

Definition marked (ty : Value) (out : Object) (d : Dialect) : Value :=
  match d with
  | OpenApi31 | OpenApi32 =>
      JObject (("type", match ty with
                        | JString t => JArray [ty; JString "null"]
                        | JArray a => JArray (if negb (values_contain a (JString "null")) then (a ++ [JString "null"])%list else a)
                        | _ => ty end) :: out)
  | Swagger20 => JObject (("type", ty) :: out ++ [("x-nullable", JBool true)])%list
  | _ => JObject (("type", ty) :: out ++ [("nullable", JBool true)])%list
  end.

Lemma mark_nullable_eq sub s types ty d : (exists t, ty = JString t) \/ (exists a, ty = JArray a) ->
  mark_nullable (JObject (("type", ty) :: rest sub s types)) d = marked ty (rest sub s types) d.
Proof.
  intros Hty. assert (Hno : forall k, k ∉ REST_KEYS -> obj_get k (rest sub s types) = None) by (intros; by apply rest_get).
  unfold mark_nullable, marked.
  assert (Hc : (if modern d then obj_get "const" (("type", ty) :: rest sub s types) else None) = None).
  { destruct (modern d); [|done]. cbn. apply Hno. unfold REST_KEYS. set_solver. }
  assert (He : obj_get "enum" (("type", ty) :: rest sub s types) = None).
  { cbn. apply Hno. unfold REST_KEYS. set_solver. }
  rewrite Hc, He.
  assert (Hins : forall k, k ∉ REST_KEYS -> k <> "type" ->
    obj_insert k (JBool true) (("type", ty) :: rest sub s types) = ("type", ty) :: (rest sub s types ++ [(k, JBool true)])%list).
  { intros k Hk Hkt. cbn. destruct (String.eqb_spec k "type"); [done|]. by rewrite obj_insert_fresh by by apply Hno. }
  destruct d; cbn [andb]; try (rewrite Hins; [done|unfold REST_KEYS; set_solver|done]).
  all: by destruct Hty as [[t ->]|[a ->]].
Qed.

Section Marked.
Variables (d : Dialect) (sub : Shape -> Value) (s : Shape) (types : list string) (ty v : Value).
Hypothesis ty_shape : (exists t, ty = JString t) \/ (exists ts, ty = JArray (map JString ts)).
Hypothesis rest_ok : forall known,
  forallb (fun kx => keyword_ok (accepts (legacy d)) known kx.1 kx.2 v) (rest sub s types) = true.

Lemma finish_plain : keyword_ok (accepts (legacy d)) [] "type" ty v = true ->
  accepts (legacy d) (JObject (("type", ty) :: rest sub s types)) v = true.
Proof. intros Ht. cbn [accepts]. apply orb_true_iff. right. cbn [forallb fst snd]. rewrite rest_ok, andb_true_r. exact Ht. Qed.

Lemma marked_shape : (exists t, ty = JString t) \/ (exists a, ty = JArray a).
Proof. destruct ty_shape as [H|[ts H]]; [by left|right; eauto]. Qed.

Lemma finish_marked : keyword_ok (accepts (legacy d)) [] "type" ty v = true ->
  accepts (legacy d) (mark_nullable (JObject (("type", ty) :: rest sub s types)) d) v = true.
Proof.
  intros Ht. rewrite mark_nullable_eq by apply marked_shape. unfold marked.
  assert (Hold : forall k, k ∉ REST_KEYS -> k <> "type" -> k = "nullable" \/ k = "x-nullable" ->
    accepts (legacy d) (JObject (("type", ty) :: rest sub s types ++ [(k, JBool true)])%list) v = true).
  { intros k _ _ Hk. cbn [accepts]. apply orb_true_iff. right. cbn [forallb fst snd]. rewrite forallb_app, rest_ok.
    cbn [forallb fst snd andb]. rewrite andb_true_r, andb_true_iff. split; [exact Ht|by destruct Hk as [->| ->]]. }
  assert (Hnew : forall ty', keyword_ok (accepts (legacy d)) [] "type" ty' v = true ->
    accepts (legacy d) (JObject (("type", ty') :: rest sub s types)) v = true).
  { intros ty' Ht'. cbn [accepts]. apply orb_true_iff. right. cbn [forallb fst snd]. rewrite rest_ok, andb_true_r. exact Ht'. }
  destruct d; try (apply Hold; [unfold REST_KEYS; set_solver|done|auto]; done).
  all: apply Hnew; destruct ty_shape as [[t ->]|[ts ->]]; cbn in Ht |- *; [by rewrite Ht|].
  all: destruct (values_contain _ _); cbn [negb]; [done|]; rewrite existsb_app; by rewrite Ht.
Qed.

Lemma finish_null : v = JNull -> d ∈ [Swagger20; OpenApi30; OpenApi31; OpenApi32] ->
  accepts (legacy d) (mark_nullable (JObject (("type", ty) :: rest sub s types)) d) v = true.
Proof.
  intros -> Hd. rewrite mark_nullable_eq by apply marked_shape. unfold marked.
  assert (Hx : forall k, k = "nullable" \/ k = "x-nullable" ->
    marked_nullable (("type", ty) :: rest sub s types ++ [(k, JBool true)])%list = true).
  { intros k Hk. unfold marked_nullable.
    assert (Hget : forall q, q = "nullable" \/ q = "x-nullable" ->
      obj_get q (("type", ty) :: rest sub s types ++ [(k, JBool true)])%list = if String.eqb q k then Some (JBool true) else None).
    { intros q Hq. cbn. replace (String.eqb q "type") with false by by destruct Hq as [->| ->].
      assert (Hn : obj_get q (rest sub s types) = None).
      { apply rest_get. destruct Hq as [->| ->]; unfold REST_KEYS; set_solver. }
      rewrite <- (obj_insert_fresh k (JBool true)).
      - destruct (String.eqb_spec q k) as [->|Hne]; [by apply obj_get_insert_eq|by rewrite obj_get_insert_ne].
      - apply rest_get. destruct Hk as [->| ->]; unfold REST_KEYS; set_solver. }
    rewrite !Hget by auto. by destruct Hk as [->| ->]. }
  rewrite !elem_of_cons in Hd.
  destruct Hd as [->|[->|[->|[->|Hd]]]]; [..|by apply not_elem_of_nil in Hd]; cbn [accepts legacy].
  1,2: by rewrite Hx by auto.
  all: cbn [andb orb forallb fst snd]; rewrite rest_ok, andb_true_r;
    destruct ty_shape as [[t ->]|[ts ->]]; cbn; [by rewrite orb_true_r|].
  all: destruct (values_contain _ _) eqn:E; cbn [negb]; [|rewrite existsb_app; cbn; by rewrite orb_true_r].
  all: unfold values_contain in E; apply existsb_exists in E as (x & Hx' & He); apply existsb_exists; exists x;
    (split; [done|]); destruct x as [| | |u| |]; try done; by apply String.eqb_eq in He as ->.
Qed.
End Marked.

(** ** One branch of [oneOf] *)

Lemma null_dec v : {v = JNull} + {v <> JNull}.
Proof. by destruct v; [left|right..]. Qed.

Lemma schema_single f d s t : shape_types s = [t] -> nulls s = 0 ->
  schema_at (S f) d s = JObject (("type", JString t) :: rest (schema_at f d) s [t]).
Proof. intros Ht Hn. cbn [schema_at]. by rewrite Ht, Hn, render_rest_eq. Qed.

(** A schema of a type the value is not of refuses it. *)
Lemma wrong_type old t out v : type_is t v = false -> (old = true -> v <> JNull) ->
  accepts old (JObject (("type", JString t) :: out)) v = false.
Proof.
  intros Ht Hv. cbn [accepts forallb fst snd]. unfold keyword_ok at 1. cbn [String.eqb]. rewrite Ht.
  rewrite andb_false_l, orb_false_r. destruct old; [|done].
  destruct v; [by destruct (Hv eq_refl)|..]; by rewrite andb_false_r.
Qed.

Lemma filter_one {A} (f : A -> bool) (l : list A) x : NoDup l -> x ∈ l -> f x = true ->
  (forall y, y ∈ l -> f y = true -> y = x) -> List.length (List.filter f l) = 1%nat.
Proof.
  induction l as [|a l IH]; intros Hn Hx Hf Hu; [by apply not_elem_of_nil in Hx|].
  apply NoDup_cons in Hn as [Ha Hn]. cbn. destruct (f a) eqn:Ea.
  - assert (a = x) as -> by (apply Hu; [by left|done]). cbn. f_equal.
    assert (List.filter f l = []) as ->; [|done].
    destruct (List.filter f l) as [|b bs] eqn:E; [done|]. exfalso.
    assert (In b (List.filter f l)) as Hb by (rewrite E; by left). apply filter_In in Hb as [Hb Hfb].
    apply list_elem_of_In in Hb. assert (b = x) as -> by (apply Hu; [by right|done]). done.
  - apply elem_of_cons in Hx as [->|Hx]; [congruence|]. apply IH; try done. intros y Hy. apply Hu. by right.
Qed.

Lemma filter_map_length {A B} (g : A -> B) (f : B -> bool) (l : list A) :
  List.length (List.filter f (map g l)) = List.length (List.filter (fun x => f (g x)) l).
Proof. induction l as [|a l IH]; cbn; [done|]. destruct (f (g a)); cbn; by rewrite IH. Qed.

Lemma shape_types_NoDup s : NoDup (shape_types s).
Proof.
  unfold shape_types.
  destruct (0 <? objects s)%Z, (0 <? arrays s)%Z, (0 <? strings s)%Z, (0 <? numbers s)%Z, (0 <? integers s)%Z,
    (0 <? booleans s)%Z; cbn; by apply (bool_decide_unpack _).
Qed.

Lemma null_no_type s t : t ∈ shape_types s -> type_is t JNull = false.
Proof.
  unfold shape_types. cbn zeta. rewrite !elem_of_app. unfold type_is.
  destruct (0 <? objects s)%Z, (0 <? arrays s)%Z, (0 <? strings s)%Z, (0 <? numbers s)%Z, (0 <? integers s)%Z,
    (0 <? booleans s)%Z; set_solver.
Qed.

Abbreviation OPENAPI := [Swagger20; OpenApi30; OpenApi31; OpenApi32].

Lemma no_types_covered r s v : shape_ok r s -> saw r s v -> shape_types s = [] -> v <> JNull ->
  r = 0%nat /\ nulls s = 0.
Proof.
  destruct r as [|r]; [by intros (_ & Hb & _) _ _ _|]. intros (Hc & _) Hcov Ht Hv.
  destruct (covers_only r s v Hc Hcov Hv) as (t & Hin & _). rewrite Ht in Hin. by apply not_elem_of_nil in Hin.
Qed.

Lemma blank_types s : blank s -> shape_types s = [] /\ nulls s = 0.
Proof. unfold blank, shape_types. by intros (-> & -> & -> & -> & -> & -> & -> & _). Qed.

Lemma one_of_accepts old bs extra v : keyword_ok (accepts old) [] "oneOf" (JArray bs) v = true ->
  extra = [] \/ extra = [("nullable", JBool true)] ->
  accepts old (JObject (("oneOf", JArray bs) :: extra)) v = true.
Proof.
  intros H Hx. cbn [accepts]. apply orb_true_iff. right. cbn [forallb fst snd]. apply andb_true_iff.
  split; [exact H|by destruct Hx as [->| ->]].
Qed.

(** The rendering of a shape accepts every value the shape saw. *)
Lemma schema_at_accepts d r f s v : d ∈ OPENAPI -> (2 * r + 1 <= f)%nat ->
  shape_ok r s -> nothing_dropped r s = true -> saw r s v -> sampled v = true -> wf_value v ->
  accepts (legacy d) (schema_at f d s) v = true.
Proof.
  intros Hd. revert f s v. induction r as [|r IH]; intros f s v Hf Hs Hcom Hc Hv Hw.
  { destruct f as [|f]; [lia|]. destruct Hs as [_ [Ht Hn]%blank_types]. cbn [schema_at].
    rewrite Ht, Hn. cbn. by destruct (legacy d). }
  destruct f as [|[|f]]; [lia..|].
  assert (Hsub : forall g, (2 * r + 1 <= g)%nat -> forall s v, shape_ok r s -> nothing_dropped r s = true -> saw r s v ->
    sampled v = true -> wf_value v -> accepts (legacy d) (schema_at g d s) v = true) by (intros; by apply IH).
  assert (Hrest : forall g s types v, (2 * r + 1 <= g)%nat -> shape_ok (S r) s -> nothing_dropped (S r) s = true ->
    saw (S r) s v -> sampled v = true -> wf_value v -> forall known,
    forallb (fun kx => keyword_ok (accepts (legacy d)) known kx.1 kx.2 v) (rest (schema_at g d) s types) = true).
  { intros g s' types v' Hg ? ? ? ? ? known. eapply rest_accepts; [by apply Hsub|done..]. }
  assert (Hfinish : forall ty, (exists t, ty = JString t) \/ (exists ts, ty = JArray (map JString ts)) ->
    (v <> JNull -> keyword_ok (accepts (legacy d)) [] "type" ty v = true) ->
    accepts (legacy d)
      (if (0 <? nulls s)%Z
       then mark_nullable (JObject (("type", ty) :: rest (schema_at (S f) d) s (shape_types s))) d
       else JObject (("type", ty) :: rest (schema_at (S f) d) s (shape_types s))) v = true).
  { intros ty Hty Hkw. assert (Hr := Hrest (S f) s (shape_types s) v ltac:(lia) Hs Hcom Hc Hv Hw).
    destruct (0 <? nulls s)%Z eqn:En.
    - destruct (null_dec v) as [Hnull|Hnull]; [by apply finish_null|]. by apply finish_marked; auto.
    - apply finish_plain; [done|]. apply Hkw. intros ->. cbn in Hc. lia. }
  assert (Htype : v <> JNull -> exists t, t ∈ shape_types s /\ type_is t v = true /\ saw (S r) (only t s) v).
  { apply covers_only; [by destruct Hs|done]. }
  change (schema_at (S (S f)) d s) with
    (let types := shape_types s in
     let nullable := (0 <? nulls s)%Z in
     let finish out :=
       let q := JObject (render_rest (schema_at (S f) d) s types out) in
       if nullable then mark_nullable q d else q in
     match types with
     | [] => if nullable then null_schema d else JObject []
     | [one] => finish [("type", JString one)]
     | many =>
         match d with
         | OpenApi31 | OpenApi32 => finish [("type", JArray (map JString many))]
         | Swagger20 => if nullable then JObject [("x-nullable", JBool true)] else JObject []
         | _ =>
             let q := JObject [("oneOf", JArray (map (fun t => schema_at (S f) d (only t s)) many))] in
             if nullable then mark_nullable q d else q
         end
     end).
  cbv zeta.
  destruct (shape_types s) as [|t [|u types]] eqn:Ety; rewrite ?render_rest_eq; try rewrite Ety in Hfinish.
  - destruct (null_dec v) as [->|Hnull].
    + cbn in Hc. rewrite (proj2 (Z.ltb_lt 0 _)) by done. rewrite !elem_of_cons in Hd.
      by destruct Hd as [->|[->|[->|[->|Hd%not_elem_of_nil]]]].
    + destruct (Htype Hnull) as (t & Hin & _). rewrite ?Ety in Hin. by apply not_elem_of_nil in Hin.
  - apply Hfinish; [left; by exists t|]. intros Hnull. destruct (Htype Hnull) as (t' & Hin & Ht' & _).
    rewrite ?Ety in Hin. apply list_elem_of_singleton in Hin as ->. exact Ht'.
  - assert (Hlist : v <> JNull -> keyword_ok (accepts (legacy d)) [] "type" (JArray (map JString (t :: u :: types))) v = true).
    { intros Hnull. destruct (Htype Hnull) as (t' & Hin & Ht' & _). cbn [keyword_ok String.eqb].
      apply existsb_exists. exists (JString t'). split; [|exact Ht'].
      apply list_elem_of_In, list_elem_of_fmap. rewrite ?Ety in Hin. by exists t'. }
    assert (Hone : v <> JNull -> keyword_ok (accepts (legacy d)) [] "oneOf"
      (JArray (map (fun t => schema_at (S f) d (only t s)) (t :: u :: types))) v = true).
    { intros Hnull. destruct (Htype Hnull) as (t' & Hin & Ht' & Hcov).
      unfold keyword_ok. cbn [String.eqb]. apply Nat.eqb_eq. rewrite filter_map_length.
      rewrite <- Ety in Hin |- *. apply (filter_one _ _ t'); [apply shape_types_NoDup|done|..].
      - destruct (only_types t' s Hin) as [Hot Hon]. rewrite (schema_single f d _ t') by done.
        apply finish_plain; [|exact Ht']. apply Hrest; [lia|by apply only_ok|by apply only_complete|done..].
      - intros q Hq Hacc. destruct (only_types q s Hq) as [Hot Hon]. rewrite (schema_single f d _ q) in Hacc by done.
        destruct (type_is q v) eqn:Eq; [by eapply types_disjoint|]. by rewrite wrong_type in Hacc. }
    rewrite !elem_of_cons in Hd. destruct Hd as [->|[->|[->|[->|Hd%not_elem_of_nil]]]]; [..|done];
      rewrite ?render_rest_eq.
    + destruct (0 <? nulls s)%Z eqn:En; [|done]. cbn. by destruct v.
    + destruct (null_dec v) as [->|Hnull].
      * cbn in Hc. by rewrite (proj2 (Z.ltb_lt 0 _)) by done.
      * specialize (Hone Hnull). by destruct (0 <? nulls s)%Z; apply one_of_accepts; auto.
    + apply Hfinish; [right; by exists (t :: u :: types)|done].
    + apply Hfinish; [right; by exists (t :: u :: types)|done].
Qed.

(** ** The fuel of the rendering *)

Lemma rest_ext r sub sub' s types : shape_ok (S r) s -> (forall c, shape_ok r c -> sub c = sub' c) ->
  rest sub s types = rest sub' s types.
Proof.
  intros Hs Hsub. pose proof (merged_values_ok r s Hs) as Hm. destruct Hs as (_ & Hi & _ & Hp).
  unfold rest. f_equal. f_equal.
  - unfold rest_members. destruct (0 <? objects s)%Z; [|done]. rewrite (Hsub _ Hm).
    assert (Hprops : rest_props sub s = rest_props sub' s); [|by rewrite Hprops].
    unfold rest_props. generalize ([] : Object). induction (properties s) as [|p ps IH]; intros m; [done|].
    cbn. rewrite (Hsub (prop_shape p)) by (apply Hp; by left). apply IH. intros q Hq. apply Hp. by right.
  - unfold rest_items. destruct (items s) as [i|]; [|done]. by rewrite (Hsub i Hi).
Qed.

Lemma schema_at_fuel r f g d s : shape_ok r s -> (2 * r + 1 <= f)%nat -> (2 * r + 1 <= g)%nat ->
  schema_at f d s = schema_at g d s.
Proof.
  revert f g s. induction r as [|r IH]; intros f g s Hs Hf Hg; (destruct f as [|f], g as [|g]; try lia).
  { destruct Hs as [_ [Ht Hn]%blank_types]. cbn [schema_at]. by rewrite Ht, Hn. }
  assert (Hfin : forall ty, render_rest (schema_at f d) s (shape_types s) [("type", ty)] =
                            render_rest (schema_at g d) s (shape_types s) [("type", ty)]).
  { intros ty. rewrite !render_rest_eq. f_equal. apply (rest_ext r); [done|]. intros c Hc. apply IH; [done|lia..]. }
  assert (Hone : forall t, t ∈ shape_types s -> schema_at f d (only t s) = schema_at g d (only t s)).
  { intros t Hin. destruct (only_types t s Hin) as [Ht Hn]. destruct f as [|f], g as [|g]; try lia.
    rewrite !(schema_single _ d _ t) by done. f_equal. f_equal. apply (rest_ext r); [by apply only_ok|].
    intros c Hc. apply IH; [done|lia..]. }
  cbn [schema_at]. destruct (shape_types s) as [|t [|u types]] eqn:Ety; [done|by rewrite Hfin|].
  assert (Hmap : map (fun t => schema_at f d (only t s)) (t :: u :: types) =
                 map (fun t => schema_at g d (only t s)) (t :: u :: types)).
  { apply map_ext_in. intros q Hq%list_elem_of_In. by apply Hone. }
  destruct d; rewrite ?Hfin, ?Hmap; done.
Qed.

(** * What a schema holds *)

(** No number, and no text but names that may appear in a message. *)
Fixpoint data_free (v : Value) : bool :=
  match v with
  | JNumber _ => false
  | JString t => safe_name t
  | JArray a => forallb data_free a
  | JObject o => forallb (fun kv => safe_name kv.1 && data_free kv.2) o
  | _ => true
  end.

Definition formats_safe (s : Shape) : Prop := forall f x, formats s = Some f -> x ∈ f -> safe_name x = true.

Fixpoint formats_ok (room : nat) (s : Shape) : Prop :=
  formats_safe s /\
  match room with
  | O => True
  | S r => (if items s is Some i then formats_ok r i else True) /\
           (forall p, p ∈ properties s -> formats_ok r (prop_shape p))
  end.

Lemma string_formats_safe t x : x ∈ string_formats t -> safe_name x = true.
Proof.
  unfold string_formats. cbn zeta.
  destruct (_ && (_ =? 10)%nat), (is_date_time _), (is_email _), (is_uri _), (is_uuid _); cbn;
    rewrite ?elem_of_cons; intros H; repeat destruct H as [->|H]; try done; by apply not_elem_of_nil in H.
Qed.

Lemma formats_default r : formats_ok r Shape_default.
Proof. destruct r; (split; [done|]); [done|]. split; [done|]. by intros p ?%not_elem_of_nil. Qed.

Lemma add_formats_ok r s v : shape_ok r s -> formats_ok r s -> wf_value v -> formats_ok r (add_at r s v).
Proof.
  revert s v. induction r as [|r IH]; intros s v Hs Hf Hv; [by destruct s, Hf|].
  pose proof (shape_ok_items r s Hs) as Hdef. destruct v as [|b|x|t|a|o].
  6: {
    rewrite add_at_object. destruct (upsert_all _ _ _ _ _) as [ps tr] eqn:E.
    destruct Hs as (Hc & Hi & Hn & Hp), Hf as (Hsafe & Hfi & Hfp). apply wf_JObject in Hv as [Ho Hw].
    rewrite list.Forall_forall in Hw.
    apply add_members_spec in E as [_ _ _ _ Src]; [|done..]. split; [exact Hsafe|]. split; [done|].
    cbn [properties]. intros q Hq.
    destruct (Src q Hq) as [[Hqp _]|[(m & p & Hm & Hpp & _ & ->)|(m & Hm & _ & ->)]]; [by apply Hfp|..];
      cbn; apply IH; try (by apply (Hw m)); [by apply Hp|by apply Hfp|apply shape_default_ok|apply formats_default]. }
  all: destruct s as [n nu bo it nb st fm ar its ob ps ml tr], Hf as (Hsafe & Hfi & Hfp);
    cbn [add_at properties items formats] in *.
  1,2: by split.
  - by destruct (_ || _); split.
  - split; [|done]. intros f x [= <-] Hx. destruct fm as [prev|]; [|by eapply string_formats_safe].
    apply formats_both_elem in Hx as [Hx _]. by apply (Hsafe prev).
  - split; [done|]. split; [|done]. cbn [items].
    assert (Hd : formats_ok r (default Shape_default its)) by (destruct its; [done|apply formats_default]).
    apply wf_items in Hv. cbn in Hdef. revert Hdef Hd. generalize (default Shape_default its).
    induction Hv as [|x l Hx Hl IHl]; intros i Hok Hd; [done|]. cbn. apply IHl; [by apply add_at_ok|by apply IH].
Qed.

Lemma merge_formats_ok r s s' : shape_ok r s -> shape_ok r s' -> formats_ok r s -> formats_ok r s' ->
  formats_ok r (merge s s').
Proof.
  revert s s'. induction r as [|r IH]; intros s s' Hs Hs' Hf Hf';
    rewrite merge_fields; destruct (upsert_all _ _ _ _ _) as [ps tr] eqn:E.
  all: assert (Hm : forall f x, merge_formats (formats s) (formats s') = Some f -> x ∈ f -> safe_name x = true) by
    (destruct Hf as [Hf _], Hf' as [Hf' _]; intros f x; destruct (formats s) as [a|] eqn:Ea, (formats s') as [b|] eqn:Eb;
     cbn; intros [= <-] Hx; try apply formats_both_elem in Hx as [Hx _]; first [by eapply Hf|by eapply Hf']).
  { by split. }
  pose proof (shape_ok_items r s Hs) as Hdef.
  destruct Hs as (_ & Hi & Hn & Hp), Hs' as (_ & Hi' & Hn' & Hp'), Hf as (_ & Hfi & Hfp), Hf' as (_ & Hfi' & Hfp').
  apply merge_members_spec in E as [_ _ _ _ Src]; [|done..]. split; [done|]. split.
  - cbn [items]. destruct (items s'); [|done].
    apply IH; [done..| |done]. destruct (items s); [done|apply formats_default].
  - cbn [properties]. intros q Hq.
    destruct (Src q Hq) as [[Hqp _]|[(m & p & Hm' & Hpp & _ & ->)|(m & Hm' & _ & ->)]]; [by apply Hfp| |by apply Hfp'].
    cbn. apply IH; [by apply Hp|by apply Hp'|by apply Hfp|by apply Hfp'].
Qed.

Lemma merged_formats_ok r s : shape_ok (S r) s -> formats_ok (S r) s -> formats_ok r (merged_values s).
Proof.
  intros (_ & _ & _ & Hp) (_ & _ & Hf). unfold merged_values.
  assert (Hd := shape_default_ok r). assert (Hfd := formats_default r). revert Hd Hfd.
  generalize Shape_default. induction (properties s) as [|p ps IH]; intros acc Hacc Hfacc; [done|].
  assert (Hps : shape_ok r (prop_shape p)) by (apply Hp; by left).
  assert (Hfs : formats_ok r (prop_shape p)) by (apply Hf; by left).
  cbn. apply IH; [intros; apply Hp; by right|intros; apply Hf; by right|by apply merge_ok|by apply merge_formats_ok].
Qed.

Lemma only_formats_ok r t s : formats_ok (S r) s -> formats_ok (S r) (only t s).
Proof.
  destruct s as [n nu bo it nb st fm ar its ob ps ml tr]. intros (Hs & Hi & Hp). unfold only.
  destruct (String.eqb t "object"), (String.eqb t "array"), (_ || String.eqb t "integer");
    cbn; (split; [done|]); (split; [done|]); try done; by intros p ?%not_elem_of_nil.
Qed.

Lemma data_free_insert k v o : safe_name k = true -> data_free v = true -> data_free (JObject o) = true ->
  data_free (JObject (obj_insert k v o)) = true.
Proof.
  intros Hk Hv. cbn. induction o as [|[q w] o IH]; cbn; [by rewrite Hk, Hv|].
  rewrite !andb_true_iff. intros [[Hq Hw] Ho]. destruct (String.eqb k q); cbn; rewrite ?Hq, ?Hv, ?Hw; cbn; auto.
Qed.

Lemma shape_types_safe s : data_free (JArray (map JString (shape_types s))) = true.
Proof.
  unfold shape_types.
  by destruct (0 <? objects s)%Z, (0 <? arrays s)%Z, (0 <? strings s)%Z, (0 <? numbers s)%Z, (0 <? integers s)%Z,
    (0 <? booleans s)%Z.
Qed.

(** The members after the type keep names only where all of them are safe. *)
Lemma rest_data_free r sub s types : shape_ok (S r) s -> formats_ok (S r) s ->
  (forall c, shape_ok r c -> formats_ok r c -> data_free (sub c) = true) ->
  data_free (JObject (rest sub s types)) = true.
Proof.
  intros Hs Hf Hsub. pose proof (merged_values_ok r s Hs) as Hm. pose proof (merged_formats_ok r s Hs Hf) as Hmf.
  destruct Hs as (_ & Hi & _ & Hp), Hf as (Hfs & Hfi & Hfp). cbn [data_free]. unfold rest.
  rewrite !forallb_app, !andb_true_iff. split; [|split].
  - unfold rest_format. destruct (existsb _ types); [|done]. destruct (formats s) as [[|f fs]|] eqn:Ef; try done.
    cbn [forallb fst snd data_free]. rewrite (Hfs (f :: fs) f Ef) by by left. done.
  - unfold rest_members. destruct (0 <? objects s)%Z; [|done]. destruct (renders_map s) eqn:Er.
    { cbn [forallb fst snd]. destruct (shape_is_empty _); [done|]. by rewrite (Hsub _ Hm Hmf). }
    apply orb_false_iff in Er as [Hml _].
    assert (Hprops : data_free (JObject (rest_props sub s)) = true).
    { unfold rest_props. assert (H0 : data_free (JObject []) = true) by done. revert H0.
      generalize ([] : Object). induction (properties s) as [|p ps IH]; intros m H0; [done|]. cbn [fold_left].
      destruct (Hp p) as (_ & Hok & Hsafe); [by left|].
      apply IH; [intros; apply Hp; by right|intros; apply Hfp; by right|].
      apply data_free_insert; [by apply Hsafe|apply Hsub; [done|apply Hfp; by left]|done]. }
    assert (Hreq : data_free (JArray (rest_required s)) = true).
    { cbn [data_free]. apply forallb_forall. unfold rest_required. intros x (p & <- & Hin)%in_map_iff.
      apply filter_In in Hin as [Hin%list_elem_of_In _]. by apply (Hp p Hin). }
    destruct (rest_required s) as [|n ns]; cbn [forallb fst snd]; rewrite Hprops; [done|].
    by rewrite Hreq.
  - unfold rest_items. destruct (0 <? arrays s)%Z; [|done]. destruct (items s) as [i|]; [|done].
    cbn [forallb fst snd]. by rewrite (Hsub i Hi Hfi).
Qed.

Lemma marked_data_free ty out d : data_free ty = true -> data_free (JObject out) = true ->
  data_free (marked ty out d) = true.
Proof.
  intros Ht Ho. cbn [data_free] in Ho.
  destruct d; cbn [marked data_free forallb fst snd]; rewrite ?forallb_app, ?Ho, ?Ht; try done.
  all: destruct ty as [| | |t|a|]; cbn [data_free forallb] in Ht |- *; try done; try (by rewrite Ht).
  all: destruct (values_contain _ _); cbn [negb]; [by rewrite Ht|]; by rewrite forallb_app, Ht.
Qed.

Lemma schema_at_data_free r f d s : shape_ok r s -> formats_ok r s -> data_free (schema_at f d s) = true.
Proof.
  revert r s. induction f as [|f IH]; intros r s Hs Hf; [done|].
  destruct r as [|r].
  { destruct Hs as [_ [Ht Hn]%blank_types]. cbn [schema_at]. by rewrite Ht, Hn. }
  assert (Hfin : forall ty, data_free ty = true -> (exists t, ty = JString t) \/ (exists a, ty = JArray a) ->
    data_free (let q := JObject (render_rest (schema_at f d) s (shape_types s) [("type", ty)]) in
               if (0 <? nulls s)%Z then mark_nullable q d else q) = true).
  { intros ty Hty Hsh. rewrite render_rest_eq. cbv zeta.
    assert (Hr : data_free (JObject (rest (schema_at f d) s (shape_types s))) = true)
      by (apply (rest_data_free r); [done..|intros; by eapply IH]).
    destruct (0 <? nulls s)%Z; [rewrite mark_nullable_eq by done; by apply marked_data_free|].
    cbn [data_free forallb fst snd]. by rewrite Hty. }
  cbn [schema_at]. pose proof (shape_types_safe s) as Hts.
  destruct (shape_types s) as [|t [|u types]] eqn:Ety.
  - destruct (0 <? nulls s)%Z; by destruct d.
  - apply Hfin; [|eauto]. cbn in Hts. by apply andb_true_iff in Hts as [? _].
  - assert (Hone : data_free (JArray (map (fun t => schema_at f d (only t s)) (t :: u :: types))) = true).
    { cbn [data_free]. apply forallb_forall. intros x (q & <- & _)%in_map_iff.
      apply (IH (S r)); [by apply only_ok|by apply only_formats_ok]. }
    assert (Hlist := Hfin (JArray (map JString (t :: u :: types))) Hts ltac:(eauto)).
    destruct d; try exact Hlist; try (by destruct (0 <? nulls s)%Z);
      destruct (0 <? nulls s)%Z; cbn [mark_nullable data_free forallb fst snd obj_get obj_insert]; cbn in Hone |- *;
      by rewrite Hone.
Qed.

Lemma infer_formats_ok vs : Forall (fun v => wf_value v) vs -> formats_ok (S MAX_SHAPE_DEPTH) (infer vs).
Proof.
  intros H. unfold infer. assert (Hd := shape_default_ok (S MAX_SHAPE_DEPTH)). assert (Hf := formats_default (S MAX_SHAPE_DEPTH)).
  revert Hd Hf. generalize Shape_default. induction H as [|v vs Hv H IH]; intros s Hs Hf; [done|].
  cbn [fold_left]. apply IH; [by apply add_at_ok|by apply add_formats_ok].
Qed.

(** The fuel of [schema] is enough for every shape samples can build. *)
Lemma infer_schema_fuel vs d f : Forall (fun v => wf_value v) vs -> (2 * S MAX_SHAPE_DEPTH + 1 <= f)%nat ->
  schema (infer vs) d = schema_at f d (infer vs).
Proof.
  intros H Hf. apply (schema_at_fuel (S MAX_SHAPE_DEPTH)); [by apply infer_ok| |done].
  unfold SCHEMA_FUEL, MAX_SHAPE_DEPTH. lia.
Qed.

(** * Properties *)

(** C27: the schema inferred from a run of samples is a type of each of them:
    in every OpenAPI dialect it accepts every sample whose arrays are short
    enough to be sampled in full, when no place dropped a property
    ([nothing_dropped]); mixed types, nulls, optional members, maps and nesting
    past the limit included. *)
Theorem inferred_schema_accepts d vs v : d ∈ OPENAPI -> Forall (fun v => wf_value v) vs ->
  nothing_dropped (S MAX_SHAPE_DEPTH) (infer vs) = true -> v ∈ vs -> sampled v = true ->
  accepts (legacy d) (schema (infer vs) d) v = true.
Proof.
  intros Hd Hw Hc Hv Hs. apply (schema_at_accepts d (S MAX_SHAPE_DEPTH)); try done.
  - unfold SCHEMA_FUEL, MAX_SHAPE_DEPTH. lia.
  - by apply infer_ok.
  - by apply infer_covers.
  - rewrite list.Forall_forall in Hw. by apply Hw.
Qed.

Definition demo_samples : list Value :=
  [JObject [("id", JNumber (PosInt 1)); ("at", JString "2026-09-30"); ("n", JNull)];
   JNull;
   JObject [("id", JString "a"); ("at", JString "2026-10-01"); ("tags", JArray [JString "x"; JNumber (Float 1)])];
   JArray [JObject [("a@b.example", JBool true)]]].

Lemma demo_samples_wf : Forall (fun v => wf_value v) demo_samples.
Proof. repeat constructor. Qed.

Lemma inferred_schema_accepts_witness :
  accepts false (schema (infer demo_samples) OpenApi31) (JString "no sample") = false /\
  accepts (legacy OpenApi31) (schema (infer demo_samples) OpenApi31)
    (JObject [("id", JString "a"); ("at", JString "2026-10-01"); ("tags", JArray [JString "x"; JNumber (Float 1)])]) = true.
Proof.
  split; [by vm_compute|]. apply (inferred_schema_accepts OpenApi31 demo_samples); [..|by vm_compute].
  - by right; right; left.
  - exact demo_samples_wf.
  - by vm_compute.
  - by right; right; left.
Defined.

(** C29: an inferred schema holds no observed data: no number at all, and no
    text but safe names, whatever the samples held; the names of an object
    with a key that looks like data are not kept, and only the dialect's own
    vocabulary and the formats' names are added. *)
Theorem inferred_schema_data_free d vs : Forall (fun v => wf_value v) vs ->
  data_free (schema (infer vs) d) = true.
Proof.
  intros H. apply (schema_at_data_free (S MAX_SHAPE_DEPTH)); [by apply infer_ok|by apply infer_formats_ok].
Qed.

Lemma inferred_schema_data_free_witness :
  safe_name "a@b.example" = false /\ data_free (schema (infer demo_samples) OpenApi30) = true.
Proof.
  split; [by vm_compute|]. apply (inferred_schema_data_free OpenApi30 demo_samples demo_samples_wf).
Defined.
