(* ===== verification/IpText.v ===== *)
(** What the modelled code uses of [std::net]: addresses, their octets, the
    IPv4-mapped forms, and their text: [Display] (with the compression of the
    longest run of zero groups) and [FromStr] (the standard library's
    recursive-descent parser), which reads back every address displayed. *)
From stdpp Require Import base list numbers strings option.
From Stdlib Require Import ZArith Lia Ascii String.
From S2P Require Import Prelude Text Bytes.
Open Scope Z_scope.
Open Scope string_scope.

(** * Addresses *)

(** [IpAddr]: the four octets of [Ipv4Addr], or the eight groups
    ([segments()]) of [Ipv6Addr]. *)
Inductive IpAddr :=
  | IpAddr_V4 (octets : list Z)
  | IpAddr_V6 (segments : list Z).

Record SocketAddr := mkSocketAddr { sa_ip : IpAddr; sa_port : Z }.

Definition ip_ok (a : IpAddr) : Prop :=
  match a with
  | IpAddr_V4 o => List.length o = 4%nat /\ Forall is_u8 o
  | IpAddr_V6 s => List.length s = 8%nat /\ Forall is_u16 s
  end.

Definition addr_ok (a : SocketAddr) : Prop := ip_ok (sa_ip a) /\ is_u16 (sa_port a).

Definition is_ipv4 (a : IpAddr) : bool := if a is IpAddr_V4 _ then true else false.

(** [octets()]. *)
Definition v6_octets (segments : list Z) : list Z := flat_map (be_bytes 2) segments.
Definition octets_of (a : IpAddr) : list Z := match a with IpAddr_V4 o => o | IpAddr_V6 s => v6_octets s end.

(** [Ipv6Addr::from] of sixteen bytes. *)
Fixpoint segments_of (bs : list Z) : list Z :=
  match bs with a :: b :: bs' => be_value [a; b] :: segments_of bs' | _ => [] end.

(** [Ipv6Addr::to_ipv4_mapped]. *)
Definition to_ipv4_mapped (s : list Z) : option (list Z) :=
  match s with
  | [a; b; c; d; e; f; g; h] =>
      if forallb (Z.eqb 0) [a; b; c; d; e] && (f =? 65535)%Z then Some (be_bytes 2 g ++ be_bytes 2 h)%list else None
  | _ => None
  end.

(** [Ipv4Addr::to_ipv6_mapped]. *)
Definition to_ipv6_mapped (o : list Z) : list Z := ([0; 0; 0; 0; 0; 65535] ++ segments_of o)%list.

(** * Display *)

Definition digit_text (d : Z) : ascii := ascii_of_byte (if (d <? 10)%Z then (48 + d)%Z else (87 + d)%Z).

(** The digits of a number below [radix ^ S fuel]. *)
Fixpoint digits_of (fuel : nat) (radix n : Z) (acc : list Z) : list Z :=
  match fuel with
  | O => (n :: acc)%list
  | S fuel' => if (n <? radix)%Z then (n :: acc)%list else digits_of fuel' radix (n / radix)%Z ((n mod radix)%Z :: acc)%list
  end.

Definition digits_text (ds : list Z) : string := string_of_list_ascii (map digit_text ds).

(** [{}] and [{:x}] of a [u16]. *)
Definition dec (n : Z) : string := digits_text (digits_of 4 10 n []).
Definition lower_hex (n : Z) : string := digits_text (digits_of 3 16 n []).

Definition v4_text (o : list Z) : string := join "." (map dec o).
Definition groups_text (s : list Z) : string := join ":" (map lower_hex s).

(** The longest run of zero groups, the first of its length. *)
Record Span := mkSpan { span_start : nat; span_len : nat }.

Fixpoint longest_run (i : nat) (s : list Z) (longest current : Span) : Span :=
  match s with
  | [] => longest
  | g :: s' =>
      if (g =? 0)%Z then
        let current := mkSpan (if (span_len current =? 0)%nat then i else span_start current) (S (span_len current)) in
        longest_run (S i) s' (if (span_len longest <? span_len current)%nat then current else longest) current
      else longest_run (S i) s' longest (mkSpan 0 0)
  end.

Definition v6_text (s : list Z) : string :=
  match to_ipv4_mapped s with
  | Some o => "::ffff:" ++ v4_text o
  | None =>
      let z := longest_run 0 s (mkSpan 0 0) (mkSpan 0 0) in
      if (1 <? span_len z)%nat
      then groups_text (take (span_start z) s) ++ "::" ++ groups_text (drop (span_start z + span_len z) s)
      else groups_text s
  end.

Definition ip_text (a : IpAddr) : string := match a with IpAddr_V4 o => v4_text o | IpAddr_V6 s => v6_text s end.

Definition addr_text (a : SocketAddr) : string :=
  match sa_ip a with
  | IpAddr_V4 o => v4_text o ++ ":" ++ dec (sa_port a)
  | IpAddr_V6 s => "[" ++ v6_text s ++ "]:" ++ dec (sa_port a)
  end.

(** * FromStr *)

(** [char::to_digit]. *)
Definition to_digit (radix : Z) (c : ascii) : option Z :=
  let n := byte_of_ascii c in
  let d := if (48 <=? n)%Z && (n <=? 57)%Z then Some (n - 48)%Z
           else if (97 <=? n)%Z && (n <=? 102)%Z then Some (n - 87)%Z
           else if (65 <=? n)%Z && (n <=? 70)%Z then Some (n - 55)%Z else None in
  match d with Some v => if (v <? radix)%Z then Some v else None | None => None end.

(** The digits the text starts with, and the rest. *)
Fixpoint read_digits (radix : Z) (s : string) : list Z * string :=
  match s with
  | "" => ([], s)
  | String c s' =>
      match to_digit radix c with
      | Some d => let '(ds, rest) := read_digits radix s' in (d :: ds, rest)
      | None => ([], s)
      end
  end.

Definition digits_num (radix : Z) (ds : list Z) : Z := fold_left (fun acc d => acc * radix + d)%Z ds 0.

(** [read_number]: at most [max_digits] digits, a value up to [max], and no
    leading zero unless allowed. *)
Definition read_number (radix max : Z) (max_digits : nat) (allow_zero_prefix : bool) (s : string) : option (Z * string) :=
  let '(ds, rest) := read_digits radix s in
  let n := digits_num radix ds in
  if (max_digits <? List.length ds)%nat || (max <? n)%Z then None
  else match ds with
       | [] => None
       | d :: _ => if negb allow_zero_prefix && (d =? 0)%Z && (1 <? List.length ds)%nat then None else Some (n, rest)
       end.

(** [read_separator]: the separator comes before every item but the first. *)
Definition read_separator {A} (sep : ascii) (i : nat) (inner : string -> option (A * string)) (s : string) : option (A * string) :=
  match i with
  | O => inner s
  | S _ => match s with String c s' => if Ascii.eqb c sep then inner s' else None | "" => None end
  end.

Definition read_octet (i : nat) : string -> option (Z * string) := read_separator "." i (read_number 10 255 3 false).

Definition read_ipv4_addr (s : string) : option (list Z * string) :=
  '(a, s) ← read_octet 0 s; '(b, s) ← read_octet 1 s; '(c, s) ← read_octet 2 s; '(d, s) ← read_octet 3 s;
  Some ([a; b; c; d], s).

(** [read_groups] with [n] slots left at index [i]: the groups, whether they
    end in an IPv4 address, and the rest. *)
Fixpoint read_groups (n i : nat) (s : string) : list Z * bool * string :=
  match n with
  | O => ([], false, s)
  | S n' =>
      match (if (0 <? n')%nat then read_separator ":" i read_ipv4_addr s else None) with
      | Some (o, s') => (segments_of o, true, s')
      | None =>
          match read_separator ":" i (read_number 16 65535 4 true) s with
          | Some (g, s') => let '(gs, v4, s'') := read_groups n' (S i) s' in (g :: gs, v4, s'')
          | None => ([], false, s)
          end
      end
  end.

Definition read_ipv6_addr (s : string) : option (list Z * string) :=
  let '(head, v4, s1) := read_groups 8 0 s in
  if (List.length head =? 8)%nat then Some (head, s1)
  else if v4 then None
  else
    s2 ← str_strip_prefix "::" s1;
    let '(tail, _, s3) := read_groups (7 - List.length head) 0 s2 in
    Some ((head ++ replicate (8 - List.length head - List.length tail) 0 ++ tail)%list, s3).

(** [str::parse::<IpAddr>]. *)
Definition parse_ip (s : string) : option IpAddr :=
  let r := match read_ipv4_addr s with
           | Some (o, rest) => Some (IpAddr_V4 o, rest)
           | None => '(g, rest) ← read_ipv6_addr s; Some (IpAddr_V6 g, rest)
           end in
  match r with Some (a, "") => Some a | _ => None end.

(** [str::parse::<u16>]: an optional [+], then digits. *)
Definition parse_u16 (s : string) : option Z :=
  let digits := match s with String "+" s' => s' | _ => s end in
  if str_is_empty digits then None else
  n ← digits_value 0 digits; if decide (n <= U16_MAX) then Some n else None.

(** * Numbers read back *)

Definition stops (radix : Z) (s : string) : Prop :=
  match s with String c _ => to_digit radix c = None | "" => True end.

Lemma digits_num_app radix a b : digits_num radix (a ++ b) = fold_left (fun acc d => acc * radix + d) b (digits_num radix a).
Proof. unfold digits_num. by rewrite fold_left_app. Qed.

(** The digits written: their value, their range, their count, no leading
    zero. *)
Lemma digits_of_spec radix fuel k n acc : 2 <= radix -> 0 <= n < radix ^ Z.of_nat (S k) -> (k <= fuel)%nat ->
  exists ds, digits_of fuel radix n acc = (ds ++ acc)%list /\ digits_num radix ds = n /\
    Forall (fun d => 0 <= d < radix) ds /\ (1 <= List.length ds <= S k)%nat /\
    match ds with d :: _ :: _ => d <> 0 | _ => True end.
Proof.
  intros Hr. revert k n acc. induction fuel as [|fuel IH]; intros k n acc Hn Hk.
  { assert (k = 0%nat) as -> by lia. rewrite Z.pow_1_r in Hn. exists [n]. cbn.
    split; [done|]. split; [unfold digits_num; cbn; lia|]. split; [constructor; [lia|constructor]|]. by split; [lia|]. }
  cbn [digits_of]. destruct (Z.ltb_spec n radix) as [Hlt|Hge].
  { exists [n]. split; [done|]. split; [unfold digits_num; cbn; lia|]. split; [constructor; [lia|constructor]|]. by split; [cbn; lia|]. }
  destruct k as [|k]; [rewrite Z.pow_1_r in Hn; lia|].
  destruct (IH k (n / radix) (n mod radix :: acc)%list) as (ds & -> & Hv & Hf & Hl & Hz); [|lia|].
  { split; [apply Z.div_pos; lia|]. apply Z.div_lt_upper_bound; [lia|].
    rewrite <- Z.pow_succ_r by lia. rewrite <- Nat2Z.inj_succ. lia. }
  exists (ds ++ [n mod radix])%list. split; [by rewrite <- app_assoc|].
  split; [rewrite digits_num_app, Hv; cbn [fold_left]; pose proof (Z.div_mod n radix); lia|].
  split; [apply Forall_app; split; [done|]; constructor; [apply Z.mod_pos_bound; lia|constructor]|].
  split; [rewrite length_app; cbn; lia|].
  destruct ds as [|d [|d' ds]]; [cbn in Hl; lia| |done]. cbn. unfold digits_num in Hv. cbn in Hv.
  intros ->. assert (1 <= n / radix) by (apply Z.div_le_lower_bound; lia). lia.
Qed.

Lemma to_digit_16 d : 0 <= d < 16 -> to_digit 16 (digit_text d) = Some d.
Proof.
  intros H. assert (Hall : forallb (fun d => bool_decide (to_digit 16 (digit_text d) = Some d)) (seqZ 0 16) = true)
    by by vm_compute.
  rewrite forallb_forall in Hall. eapply bool_decide_eq_true_1, Hall, list_elem_of_In, elem_of_seqZ. lia.
Qed.

Lemma to_digit_10 d : 0 <= d < 10 -> to_digit 10 (digit_text d) = Some d.
Proof.
  intros H. assert (Hall : forallb (fun d => bool_decide (to_digit 10 (digit_text d) = Some d)) (seqZ 0 10) = true)
    by by vm_compute.
  rewrite forallb_forall in Hall. eapply bool_decide_eq_true_1, Hall, list_elem_of_In, elem_of_seqZ. lia.
Qed.

Lemma digits_text_app_cons d ds rest : digits_text (d :: ds) ++ rest = String (digit_text d) (digits_text ds ++ rest).
Proof. done. Qed.

Lemma read_digits_text radix ds rest :
  Forall (fun d => to_digit radix (digit_text d) = Some d) ds -> stops radix rest ->
  read_digits radix (digits_text ds ++ rest) = (ds, rest).
Proof.
  intros Hd Hs. induction Hd as [|d ds Hd Hds IH].
  - change (digits_text [] ++ rest) with rest. destruct rest as [|c rest]; [done|]. cbn in Hs |- *. by rewrite Hs.
  - rewrite digits_text_app_cons. cbn [read_digits]. by rewrite Hd, IH.
Qed.

Lemma dec_digits k n : 0 <= n < 10 ^ Z.of_nat (S k) -> (k <= 4)%nat -> exists ds, dec n = digits_text ds /\ digits_num 10 ds = n /\
  Forall (fun d => 0 <= d < 10) ds /\ (1 <= List.length ds <= S k)%nat /\ match ds with d :: _ :: _ => d <> 0 | _ => True end.
Proof.
  intros Hn Hk. destruct (digits_of_spec 10 4 k n [] ltac:(lia) Hn Hk) as (ds & He & Hr).
  exists ds. rewrite app_nil_r in He. unfold dec. by rewrite He.
Qed.

Lemma hex_digits n : is_u16 n -> exists ds, lower_hex n = digits_text ds /\ digits_num 16 ds = n /\
  Forall (fun d => 0 <= d < 16) ds /\ (1 <= List.length ds <= 4)%nat.
Proof.
  intros Hn. destruct (digits_of_spec 16 3 3 n [] ltac:(lia) Hn ltac:(lia)) as (ds & He & Hv & Hf & Hl & _).
  exists ds. rewrite app_nil_r in He. unfold lower_hex. by rewrite He.
Qed.

Lemma read_octet_dec n rest : is_u8 n -> stops 10 rest -> read_number 10 255 3 false (dec n ++ rest) = Some (n, rest).
Proof.
  intros Hn Hs. destruct (dec_digits 2 n) as (ds & -> & Hv & Hf & Hl & Hz); [unfold in_width in Hn; lia|lia|].
  unfold read_number. rewrite read_digits_text; [|eapply List.Forall_impl; [|exact Hf]; exact to_digit_10|done].
  rewrite Hv. destruct (Nat.ltb_spec 3 (List.length ds)); [lia|]. unfold in_width in Hn.
  destruct (Z.ltb_spec 255 n); [lia|]. cbn [orb]. destruct ds as [|d ds]; [cbn in Hl; lia|].
  cbn [negb andb]. destruct ds as [|d' ds]; [by rewrite andb_false_r|]. by destruct (Z.eqb_spec d 0).
Qed.

Lemma read_group_hex n rest : is_u16 n -> stops 16 rest -> read_number 16 65535 4 true (lower_hex n ++ rest) = Some (n, rest).
Proof.
  intros Hn Hs. destruct (hex_digits n Hn) as (ds & -> & Hv & Hf & Hl).
  unfold read_number. rewrite read_digits_text; [|eapply List.Forall_impl; [|exact Hf]; exact to_digit_16|done].
  rewrite Hv. destruct (Nat.ltb_spec 4 (List.length ds)); [lia|]. unfold in_width in Hn.
  destruct (Z.ltb_spec 65535 n); [lia|]. cbn [orb]. destruct ds as [|d ds]; [cbn in Hl; lia|]. done.
Qed.

(** * IPv4 text *)

Lemma v4_text_eq a b c d : v4_text [a; b; c; d] = dec a ++ "." ++ dec b ++ "." ++ dec c ++ "." ++ dec d.
Proof. done. Qed.

Lemma read_ipv4_text o rest : List.length o = 4%nat -> Forall is_u8 o -> stops 10 rest ->
  read_ipv4_addr (v4_text o ++ rest) = Some (o, rest).
Proof.
  intros Hl Hf Hs. destruct o as [|a [|b [|c [|d [|]]]]]; try done.
  repeat match goal with H : Forall _ (_ :: _) |- _ => inversion_clear H end.
  rewrite v4_text_eq, !str_app_assoc. unfold read_ipv4_addr, read_octet. cbn [read_separator].
  rewrite read_octet_dec by done. cbn [mbind option_bind].
  do 3 (change ("." ++ ?s) with (String "." s); cbn [append read_separator Ascii.eqb Bool.eqb];
        rewrite read_octet_dec by done; cbn [mbind option_bind]).
  done.
Qed.

(** Digits of a group never lead to a dot. *)
Definition no_dot (s : string) : Prop := match s with String "." _ => False | _ => True end.

Lemma no_dot_stops s : no_dot s -> forall c s', s = String c s' -> Ascii.eqb c "." = false.
Proof. intros H c s' ->. destruct (Ascii.eqb_spec c ".") as [->|]; [done|done]. Qed.

Lemma hex_not_dot d : 0 <= d < 16 -> Ascii.eqb (digit_text d) "." = false.
Proof.
  intros H. assert (Hall : forallb (fun d => negb (Ascii.eqb (digit_text d) ".")) (seqZ 0 16) = true) by by vm_compute.
  rewrite forallb_forall in Hall. apply negb_true_iff. apply (Hall d), list_elem_of_In, elem_of_seqZ. lia.
Qed.

Definition group_end (rest : string) : Prop := rest = "" \/ exists r, rest = String ":" r.

Lemma read_digits_no_dot radix ds rest : Forall (fun d => 0 <= d < 16) ds -> group_end rest ->
  match (read_digits radix (digits_text ds ++ rest)).2 with String c _ => Ascii.eqb c "." = false | "" => True end.
Proof.
  intros Hd Hr. induction Hd as [|d ds Hd Hds IH].
  - change (digits_text [] ++ rest) with rest. by destruct Hr as [->|[r ->]].
  - rewrite digits_text_app_cons. cbn [read_digits]. destruct (to_digit radix (digit_text d)).
    + by destruct (read_digits radix _).
    + cbn. by apply hex_not_dot.
Qed.

Lemma read_number_rest radix max k z s n r : read_number radix max k z s = Some (n, r) -> r = (read_digits radix s).2.
Proof.
  unfold read_number. destruct (read_digits radix s) as [ds rest].
  destruct ((k <? List.length ds)%nat || (max <? digits_num radix ds)%Z); [done|].
  destruct ds as [|d ds]; [done|]. by destruct (negb z && (d =? 0)%Z && _); [|intros [= _ ->]].
Qed.

Lemma read_ipv4_group n rest : is_u16 n -> group_end rest -> read_ipv4_addr (lower_hex n ++ rest) = None.
Proof.
  intros Hn Hr. destruct (hex_digits n Hn) as (ds & -> & _ & Hf & _).
  pose proof (read_digits_no_dot 10 ds rest Hf Hr) as Hd. unfold read_ipv4_addr, read_octet. cbn [read_separator].
  destruct (read_number 10 255 3 false (digits_text ds ++ rest)) as [[x r]|] eqn:E; [|done].
  apply read_number_rest in E. rewrite <- E in Hd. cbn [mbind option_bind]. destruct r as [|c r]; [done|].
  cbn [read_separator]. by rewrite Hd.
Qed.

(** * IPv6 text *)

Lemma groups_text_cons g s : groups_text (g :: s) = match s with [] => lower_hex g | _ => lower_hex g ++ ":" ++ groups_text s end.
Proof. by destruct s. Qed.

Lemma colon_stops radix r : radix <= 16 -> stops radix (String ":" r).
Proof. intros _. done. Qed.

Lemma group_end_stops rest : group_end rest -> stops 16 rest /\ stops 10 rest.
Proof. by intros [->|[r ->]]. Qed.

(** What may follow a list of groups: the end, or a compressed run. *)
Definition list_end (rest : string) : Prop := rest = "" \/ exists r, rest = "::" ++ r.

Lemma list_end_group rest : list_end rest -> group_end rest.
Proof. intros [->|[r ->]]; [by left|right; by exists (String ":" r)]. Qed.

(** One group at an index, with its separator. *)
Definition before (i : nat) (s : string) : string := match i with O => s | S _ => String ":" s end.

Lemma read_separator_before {A} (inner : string -> option (A * string)) i s :
  read_separator ":" i inner (before i s) = inner s.
Proof. by destruct i. Qed.

Lemma read_groups_end n i rest : list_end rest -> read_groups n i rest = ([], false, rest).
Proof.
  intros Hr. destruct n as [|n]; [done|]. cbn [read_groups].
  assert (H4 : read_separator ":" i read_ipv4_addr rest = None).
  { by destruct Hr as [->|[r ->]]; destruct i. }
  assert (H6 : read_separator ":" i (read_number 16 65535 4 true) rest = None).
  { by destruct Hr as [->|[r ->]]; destruct i. }
  rewrite H4, H6. by destruct (0 <? n)%nat.
Qed.

Lemma read_groups_text n i s rest : (List.length s <= n)%nat -> Forall is_u16 s -> list_end rest ->
  read_groups n i (match s with [] => rest | _ => before i (groups_text s ++ rest) end) = (s, false, rest).
Proof.
  intros Hl Hf Hr. revert n i Hl. induction Hf as [|g s Hg Hs IH]; intros n i Hl; [by apply read_groups_end|].
  destruct n as [|n]; [cbn in Hl; lia|]. cbn [read_groups]. rewrite !read_separator_before.
  set (tail := match s with [] => rest | _ => before (S i) (groups_text s ++ rest) end).
  assert (Ht : groups_text (g :: s) ++ rest = lower_hex g ++ tail).
  { rewrite groups_text_cons. subst tail. destruct s as [|h s]; [done|]. by rewrite !str_app_assoc. }
  assert (Hg' : group_end tail).
  { subst tail. destruct s; [by apply list_end_group|]. right. by eexists. }
  rewrite Ht, read_ipv4_group by done. rewrite read_group_hex by (done || by apply group_end_stops).
  assert (IH' : read_groups n (S i) tail = (s, false, rest)) by (apply IH; cbn in Hl; lia).
  rewrite IH'. by destruct (0 <? n)%nat.
Qed.

Lemma read_groups_text_0 n s rest : (List.length s <= n)%nat -> Forall is_u16 s -> list_end rest ->
  read_groups n 0 (groups_text s ++ rest) = (s, false, rest).
Proof.
  intros Hl Hf Hr. pose proof (read_groups_text n 0 s rest Hl Hf Hr) as H. destruct s; [|exact H].
  change (groups_text [] ++ rest) with rest. exact H.
Qed.

(** The run found is inside the groups and zero. *)
Definition span_zero (s : list Z) (x : Span) : Prop :=
  (span_start x + span_len x <= List.length s)%nat /\ forall k, (span_start x <= k < span_start x + span_len x)%nat -> s !! k = Some 0.

Lemma longest_run_zero s0 i s longest current : drop i s0 = s -> (i + List.length s = List.length s0)%nat ->
  span_zero s0 longest -> span_zero s0 current -> (0 < span_len current -> span_start current + span_len current = i)%nat ->
  span_zero s0 (longest_run i s longest current).
Proof.
  revert i longest current. induction s as [|g s IH]; intros i longest current Hd Hl Hlong Hcur Hend; [done|].
  cbn [longest_run]. assert (Hg : s0 !! i = Some g).
  { replace i with (i + 0)%nat by lia. rewrite <- lookup_drop, Hd. done. }
  assert (Hd' : drop (S i) s0 = s) by (replace (S i) with (i + 1)%nat by lia; rewrite <- drop_drop, Hd; done).
  cbn [List.length] in Hl.
  destruct (Z.eqb_spec g 0) as [->|Hne].
  - set (c' := mkSpan _ _). assert (Hc' : span_zero s0 c').
    { subst c'. destruct Hcur as [Hb Hz]. unfold span_zero. cbn [span_start span_len].
      destruct (Nat.eqb_spec (span_len current) 0) as [->|Hn].
      - split; [lia|]. intros k Hk. by replace k with i by lia.
      - specialize (Hend ltac:(lia)). split; [lia|]. intros k Hk.
        destruct (decide (k = i)) as [->|]; [done|]. apply Hz. lia. }
    apply IH; [done|lia|by destruct (_ <? _)%nat|done|].
    intros _. subst c'. cbn [span_start span_len]. destruct (Nat.eqb_spec (span_len current) 0) as [->|Hn]; [lia|].
    specialize (Hend ltac:(lia)). lia.
  - apply IH; [done|lia|done| |cbn; lia]. split; [cbn; lia|]. cbn. intros. lia.
Qed.

Lemma span_split s x : span_zero s x ->
  s = (take (span_start x) s ++ replicate (span_len x) 0 ++ drop (span_start x + span_len x) s)%list.
Proof.
  intros [Hb Hz]. rewrite <- (take_drop (span_start x) s) at 1. f_equal.
  rewrite <- (take_drop (span_len x) (drop (span_start x) s)) at 1. rewrite drop_drop. f_equal.
  apply list_eq. intros k. destruct (decide (k < span_len x)%nat) as [Hk|Hk].
  - rewrite lookup_take_lt by done. rewrite lookup_drop, (Hz (span_start x + k)%nat) by lia.
    symmetry. by apply lookup_replicate_2.
  - rewrite !lookup_ge_None_2; [done| |]; [rewrite length_replicate; lia|rewrite length_take; lia].
Qed.

Lemma v6_read s : List.length s = 8%nat -> Forall is_u16 s -> to_ipv4_mapped s = None -> read_ipv6_addr (v6_text s) = Some (s, "").
Proof.
  intros Hl Hf Hm. unfold v6_text. rewrite Hm.
  set (z := longest_run 0 s (mkSpan 0 0) (mkSpan 0 0)).
  assert (Hz : span_zero s z).
  { apply longest_run_zero; [done|cbn; lia|..]; [split; [cbn; lia|cbn; intros; lia]..|cbn; lia]. }
  unfold read_ipv6_addr. destruct (Nat.ltb_spec 1 (span_len z)) as [Hlen|Hlen].
  - pose proof Hz as [Hb Hzero].
    rewrite read_groups_text_0; [|rewrite length_take; lia|by apply Forall_take|right; by eexists].
    rewrite length_take, Hl. destruct (Nat.eqb_spec (span_start z `min` 8) 8); [lia|].
    change ("::" ++ ?t) with (String ":" (String ":" t)). cbn [str_strip_prefix append Ascii.eqb Bool.eqb mbind option_bind].
    rewrite <- (str_app_nil_r (groups_text (drop _ _))).
    rewrite read_groups_text_0; [|rewrite length_drop; lia|by apply Forall_drop|by left].
    rewrite length_drop, Hl.
    replace (8 - span_start z `min` 8 - (8 - (span_start z + span_len z)))%nat with (span_len z) by lia.
    by rewrite <- (span_split s z Hz).
  - rewrite <- (str_app_nil_r (groups_text s)).
    rewrite read_groups_text_0; [|lia|done|by left]. by rewrite Hl.
Qed.

Lemma read_ipv4_groups s rest : Forall is_u16 s -> list_end rest -> read_ipv4_addr (groups_text s ++ rest) = None.
Proof.
  intros Hf Hr. destruct Hf as [|g s Hg Hs].
  - change (groups_text [] ++ rest) with rest. by destruct Hr as [->|[r ->]].
  - rewrite groups_text_cons. destruct s as [|h s].
    + apply read_ipv4_group; [done|by apply list_end_group].
    + rewrite !str_app_assoc. apply read_ipv4_group; [done|]. right. by eexists.
Qed.

Lemma v6_not_v4 s : List.length s = 8%nat -> Forall is_u16 s -> read_ipv4_addr (v6_text s) = None.
Proof.
  intros Hl Hf. unfold v6_text. destruct (to_ipv4_mapped s); [done|].
  destruct (1 <? _)%nat.
  - apply read_ipv4_groups; [by apply Forall_take|]. right. by eexists.
  - rewrite <- (str_app_nil_r (groups_text s)). apply read_ipv4_groups; [done|by left].
Qed.

Lemma mapped_form s o : List.length s = 8%nat -> Forall is_u16 s -> to_ipv4_mapped s = Some o ->
  s = ([0; 0; 0; 0; 0; 65535] ++ segments_of o)%list /\ List.length o = 4%nat /\ Forall is_u8 o.
Proof.
  intros Hl Hf. destruct s as [|a [|b [|c [|d [|e [|f [|g [|h [|]]]]]]]]]; try done. cbn [to_ipv4_mapped].
  destruct (forallb _ _ && _)%bool eqn:E; [|done]. intros [= <-].
  apply andb_true_iff in E as [E Ef]. cbn [forallb] in E. rewrite !andb_true_iff in E.
  destruct E as (Ea & Eb & Ec & Ed & Ee & _). apply Z.eqb_eq in Ea, Eb, Ec, Ed, Ee, Ef. subst.
  repeat match goal with H : Forall _ (_ :: _) |- _ => inversion_clear H end.
  split; [|split; [done|change (bytes_ok (be_bytes 2 g ++ be_bytes 2 h)); apply bytes_ok_app; split; apply be_bytes_ok]].
  assert (Hseg : segments_of (be_bytes 2 g ++ be_bytes 2 h) = [be_value (be_bytes 2 g); be_value (be_bytes 2 h)]) by done.
  rewrite !be_value_bytes in Hseg by done.
  change ([0; 0; 0; 0; 0; 65535; g; h] = ([0; 0; 0; 0; 0; 65535] ++ segments_of (be_bytes 2 g ++ be_bytes 2 h))%list).
  by rewrite Hseg.
Qed.

Lemma read_groups_eq n i s : read_groups (S n) i s =
  match (if (0 <? n)%nat then read_separator ":" i read_ipv4_addr s else None) with
  | Some (o, s') => (segments_of o, true, s')
  | None =>
      match read_separator ":" i (read_number 16 65535 4 true) s with
      | Some (g, s') => let '(gs, v4, s'') := read_groups n (S i) s' in (g :: gs, v4, s'')
      | None => ([], false, s)
      end
  end.
Proof. done. Qed.

Lemma v6_read_mapped s o : List.length s = 8%nat -> Forall is_u16 s -> to_ipv4_mapped s = Some o ->
  read_ipv6_addr (v6_text s) = Some (s, "").
Proof.
  intros Hl Hf Hm. unfold v6_text. rewrite Hm. apply mapped_form in Hm as (-> & Ho & Hof); [|done..].
  unfold read_ipv6_addr. change ("::ffff:" ++ v4_text o) with ("::" ++ "ffff:" ++ v4_text o).
  rewrite read_groups_end by (right; by eexists). cbn [List.length Nat.eqb].
  change (str_strip_prefix "::" ("::" ++ "ffff:" ++ v4_text o)) with (Some ("ffff:" ++ v4_text o)).
  cbn [mbind option_bind Nat.sub].
  assert (Hg : read_groups 7 0 ("ffff:" ++ v4_text o) = (65535 :: segments_of o, true, "")).
  { rewrite (read_groups_eq 6).
    change (read_separator ":" 0 read_ipv4_addr ("ffff:" ++ v4_text o)) with (@None (list Z * string)).
    change (read_separator ":" 0 (read_number 16 65535 4 true) ("ffff:" ++ v4_text o)) with (Some (65535, ":" ++ v4_text o)).
    cbv beta iota delta [Nat.ltb Nat.leb]. rewrite (read_groups_eq 5).
    change (read_separator ":" 1 read_ipv4_addr (":" ++ v4_text o)) with (read_ipv4_addr (v4_text o)).
    assert (H4 : read_ipv4_addr (v4_text o) = Some (o, "")).
    { rewrite <- (str_app_nil_r (v4_text o)). by apply read_ipv4_text. }
    by rewrite H4. }
  rewrite Hg. destruct o as [|a [|b [|c [|d [|]]]]]; done.
Qed.

(** [FromStr] reads back what [Display] writes. *)
Lemma parse_ip_text a : ip_ok a -> parse_ip (ip_text a) = Some a.
Proof.
  destruct a as [o|s]; intros [Hl Hf]; unfold parse_ip; cbn [ip_text].
  - rewrite <- (str_app_nil_r (v4_text o)). by rewrite read_ipv4_text.
  - rewrite v6_not_v4 by done. destruct (to_ipv4_mapped s) as [o|] eqn:E.
    + by rewrite (v6_read_mapped s o).
    + by rewrite v6_read.
Qed.

(** * The bytes of the text *)

(** Letters, digits, dots and colons. *)
Definition plain_byte (c : ascii) : bool :=
  let n := byte_of_ascii c in ((46 <=? n)%Z && (n <=? 58)%Z) || ((97 <=? n)%Z && (n <=? 102)%Z).

Definition plain (s : string) : Prop := Forall (fun c => plain_byte c = true) (list_ascii_of_string s).

Lemma plain_app a b : plain (a ++ b) <-> plain a /\ plain b.
Proof.
  unfold plain. induction a as [|c a IH]; [split; [intros; split; [constructor|done]|by intros []]|].
  change (String c a ++ b) with (String c (a ++ b)). cbn [list_ascii_of_string]. rewrite !list.Forall_cons, IH. tauto.
Qed.

Lemma digits_text_plain ds : Forall (fun d => 0 <= d < 16) ds -> plain (digits_text ds).
Proof.
  assert (Hall : forallb (fun d => plain_byte (digit_text d)) (seqZ 0 16) = true) by by vm_compute.
  rewrite forallb_forall in Hall. unfold plain, digits_text. rewrite list_ascii_of_string_of_list_ascii.
  induction 1 as [|d ds Hd Hds IH]; constructor; [|done]. apply Hall, list_elem_of_In, elem_of_seqZ. lia.
Qed.

Lemma digits_text_length ds : String.length (digits_text ds) = List.length ds.
Proof. unfold digits_text. induction ds as [|d ds IH]; cbn; [done|]. by rewrite IH. Qed.

Lemma dec_u16 n : is_u16 n -> plain (dec n) /\ (1 <= String.length (dec n) <= 5)%nat /\ parse_u16 (dec n) = Some n.
Proof.
  intros Hn. destruct (dec_digits 4 n) as (ds & -> & Hv & Hf & Hl & _); [unfold in_width in Hn; lia|lia|].
  split; [apply digits_text_plain; eapply List.Forall_impl; [|exact Hf]; cbn; lia|].
  split; [by rewrite digits_text_length|].
  assert (Hd : forall acc xs, Forall (fun d => 0 <= d < 10) xs ->
    digits_value acc (digits_text xs) = Some (fold_left (fun acc d => acc * 10 + d) xs acc)).
  { intros acc xs. revert acc. induction xs as [|x xs IH]; intros acc Hx; [done|]. inversion_clear Hx as [|? ? Hd Hx'].
    assert (Hdig : digit_of (digit_text x) = Some x).
    { assert (Hall : forallb (fun d => bool_decide (digit_of (digit_text d) = Some d)) (seqZ 0 10) = true) by by vm_compute.
      rewrite forallb_forall in Hall. eapply bool_decide_eq_true_1, Hall, list_elem_of_In, elem_of_seqZ. lia. }
    change (digits_text (x :: xs)) with (String (digit_text x) (digits_text xs)). cbn [digits_value].
    rewrite Hdig. cbn [mbind option_bind fold_left]. by apply IH. }
  destruct ds as [|d ds]; [cbn in Hl; lia|]. unfold parse_u16.
  replace (match digits_text (d :: ds) with String "+" s' => s' | _ => digits_text (d :: ds) end) with (digits_text (d :: ds)).
  2: { change (digits_text (d :: ds)) with (String (digit_text d) (digits_text ds)).
       inversion_clear Hf as [|? ? Hd0 _].
       assert (Hall : forallb (fun d => negb (Ascii.eqb (digit_text d) "+")) (seqZ 0 10) = true) by by vm_compute.
       rewrite forallb_forall in Hall. specialize (Hall d). rewrite <- list_elem_of_In, elem_of_seqZ in Hall.
       specialize (Hall ltac:(lia)). apply negb_true_iff in Hall. destruct (digit_text d) as [[] [] [] [] [] [] [] []]; done. }
  cbn [str_is_empty]. rewrite (Hd 0 (d :: ds) Hf). cbn [mbind option_bind].
  change (fold_left (fun acc d => acc * 10 + d) (d :: ds) 0) with (digits_num 10 (d :: ds)). rewrite Hv.
  unfold in_width in Hn. rewrite decide_True; [done|]. unfold U16_MAX. lia.
Qed.

Lemma lower_hex_plain n : is_u16 n -> plain (lower_hex n) /\ (String.length (lower_hex n) <= 4)%nat.
Proof.
  intros Hn. destruct (hex_digits n Hn) as (ds & -> & _ & Hf & Hl). split; [by apply digits_text_plain|].
  rewrite digits_text_length. lia.
Qed.

Lemma v4_text_plain o : List.length o = 4%nat -> Forall is_u8 o -> plain (v4_text o) /\ (String.length (v4_text o) <= 23)%nat.
Proof.
  intros Hl Hf. destruct o as [|a [|b [|c [|d [|]]]]]; try done.
  repeat match goal with H : Forall _ (_ :: _) |- _ => inversion_clear H end.
  rewrite v4_text_eq, !plain_app, !str_length_app. unfold in_width in *.
  destruct (dec_u16 a) as (? & ? & _), (dec_u16 b) as (? & ? & _), (dec_u16 c) as (? & ? & _),
    (dec_u16 d) as (? & ? & _); unfold in_width; try lia.
  split; [|cbn [String.length]; lia]. repeat split; try done; repeat constructor.
Qed.

Lemma groups_text_plain s : Forall is_u16 s -> plain (groups_text s) /\ (String.length (groups_text s) <= 5 * List.length s - 1)%nat.
Proof.
  induction 1 as [|g s Hg Hs [IHp IHl]]; [split; [constructor|cbn; lia]|]. rewrite groups_text_cons.
  destruct (lower_hex_plain g Hg) as [Hp Hl]. destruct s as [|h s]; [split; [done|cbn [List.length]; lia]|].
  rewrite !plain_app, !str_length_app. cbn [String.length List.length] in *.
  split; [|lia]. split; [done|]. split; [repeat constructor|done].
Qed.

Lemma v6_text_plain s : List.length s = 8%nat -> Forall is_u16 s -> plain (v6_text s) /\ (String.length (v6_text s) <= 39)%nat.
Proof.
  intros Hl Hf. unfold v6_text. destruct (to_ipv4_mapped s) as [o|] eqn:E.
  - apply mapped_form in E as (_ & Ho & Hof); [|done..]. destruct (v4_text_plain o Ho Hof) as [Hp Hlen].
    rewrite plain_app, str_length_app. split; [split; [repeat constructor|done]|cbn [String.length]; lia].
  - set (z := longest_run 0 s (mkSpan 0 0) (mkSpan 0 0)).
    assert (Hz : span_zero s z).
    { apply longest_run_zero; [done|cbn; lia|..]; [split; [cbn; lia|cbn; intros; lia]..|cbn; lia]. }
    destruct (Nat.ltb_spec 1 (span_len z)) as [Hlen|Hlen].
    + destruct (groups_text_plain (take (span_start z) s)) as [P1 L1]; [by apply Forall_take|].
      destruct (groups_text_plain (drop (span_start z + span_len z) s)) as [P2 L2]; [by apply Forall_drop|].
      rewrite length_take, Hl in L1. rewrite length_drop, Hl in L2. destruct Hz as [Hb _].
      rewrite !plain_app, !str_length_app. split; [split; [done|split; [repeat constructor|done]]|cbn [String.length]; lia].
    + destruct (groups_text_plain s Hf) as [P L]. split; [done|]. rewrite Hl in L. lia.
Qed.

Lemma ip_text_plain a : ip_ok a -> plain (ip_text a) /\ (1 <= String.length (ip_text a) <= 39)%nat.
Proof.
  intros Ha. assert (Hne : ip_text a <> "").
  { intros He. pose proof (parse_ip_text a Ha) as Hp. by rewrite He in Hp. }
  destruct a as [o|s]; destruct Ha as [Hl Hf]; cbn [ip_text] in *.
  - destruct (v4_text_plain o Hl Hf) as [Hp Hlen]. split; [done|]. destruct (v4_text o); [done|cbn in *; lia].
  - destruct (v6_text_plain s Hl Hf) as [Hp Hlen]. split; [done|]. destruct (v6_text s); [done|cbn in *; lia].
Qed.

(** * Octets read back *)

Lemma segments_octets s : Forall is_u16 s -> segments_of (v6_octets s) = s.
Proof.
  induction 1 as [|g s Hg Hs IH]; [done|].
  change (v6_octets (g :: s)) with (be_bytes 2 g ++ v6_octets s)%list.
  change (segments_of (be_bytes 2 g ++ v6_octets s)) with (be_value (be_bytes 2 g) :: segments_of (v6_octets s)).
  by rewrite IH, be_value_bytes.
Qed.

Lemma v6_octets_length s : List.length (v6_octets s) = (2 * List.length s)%nat.
Proof.
  induction s as [|g s IH]; [done|].
  change (v6_octets (g :: s)) with (be_bytes 2 g ++ v6_octets s)%list. rewrite length_app, IH, be_bytes_length. cbn. lia.
Qed.
