(* ===== verification/ProxyProtocol.v ===== *)
(** PROXY protocol framing ([anvil-transport/src/proxy_protocol.rs]): the v1
    and v2 headers written at the head of a connection, the check that reads
    a header the way the receiver does, the datagram envelope with its
    authentication, and the evidence of each.

    HMAC-SHA-256, hex decoding and the [Debug] form of text are parameters. *)
From stdpp Require Import base list numbers strings option pretty.
From Stdlib Require Import ZArith Lia Ascii String.
From S2P Require Import Prelude Text Bytes Utf8 IpText Evidence Request Secret.
Open Scope Z_scope.
Open Scope string_scope.

(** * Addresses *)

Definition canonical_ip (ip : IpAddr) : IpAddr :=
  match ip with
  | IpAddr_V6 v6 => match to_ipv4_mapped v6 with Some v4 => IpAddr_V4 v4 | None => IpAddr_V6 v6 end
  | v4 => v4
  end.

Definition canonical (a : SocketAddr) : SocketAddr := mkSocketAddr (canonical_ip (sa_ip a)) (sa_port a).

(** [to_v6]: the groups of the address. *)
Definition to_v6 (ip : IpAddr) : list Z := match ip with IpAddr_V4 v4 => to_ipv6_mapped v4 | IpAddr_V6 v6 => v6 end.

Definition V2_SIG : list Z := [13; 10; 13; 10; 0; 13; 10; 81; 85; 73; 84; 10].
Definition V1_MAX_LINE : Z := 107.
Definition V2_MAX_ADDR_LEN : Z := 512.
Definition AUTH_TLV_TYPE : Z := 0xE0.
Definition AUTH_TAG_LEN : nat := 32.
Definition FRESHNESS_TLV_TYPE : Z := 0xE1.
Definition FRESHNESS_VERSION : Z := 1.
Definition FRESHNESS_VALUE_LEN : nat := 29.
Definition MIN_DATAGRAM_SECRET_BYTES : Z := 32.
Definition PP2_TYPE_AUTHORITY : Z := 2.
Definition DOMAIN_LABEL : list Z := bytes_of_string "ferrum-datagram-proxy-v1".
Definition DOMAIN_BINDING_VERSION : Z := 1.
Definition TAG_MARK : string := "‹tag›".

Abbreviation Redact := (option (string -> string)).

(** * Evidence *)

#[export] Instance eta_ProxyHeaderObservation : Eta ProxyHeaderObservation := fun o =>
  mkProxyHeaderObservation (pho_format o) (pho_command o) (pho_family o) (pho_source o) (pho_source_origin o)
    (pho_destination o) (pho_destination_origin o) (pho_length o) (pho_hex o) (pho_text o) (pho_tlvs o)
    (pho_well_formed o) (pho_problem o) (pho_authenticated o) (pho_listener_binding o) (pho_sender_id o)
    (pho_epoch o) (pho_first_sequence o) (pho_last_sequence o) (pho_datagrams o).

Definition blank_observation (format : ProxyHeaderFormat) : ProxyHeaderObservation :=
  mkProxyHeaderObservation format None "" None None None None 0 "" None [] true None false None None None None None 0.

(** [scrub]: the hex of the bytes, or the mark where their text carries a
    redacted value. *)
Definition scrub (bytes : list Z) (redact : Redact) : string * bool :=
  match redact with
  | Some r =>
      let lossy := from_utf8_lossy bytes in
      if negb (String.eqb (r lossy) lossy) then (REDACTED, true) else (hex_encode bytes, false)
  | None => (hex_encode bytes, false)
  end.

(** [s.strip_suffix(p)], or [s]. *)
Fixpoint without_suffix (p s : string) : string :=
  if String.eqb s p then "" else match s with "" => "" | String c s' => String c (without_suffix p s') end.

Section Evidence.
(** [hex::decode]. *)
Variable hex_decode : string -> option (list Z).

(** A text field, withheld when it carries a redacted value. *)
Definition scrub_field (r : string -> string) (v : option string) : option string * bool :=
  match v with
  | Some t => if negb (String.eqb (r t) t) then (Some REDACTED, true) else (v, false)
  | None => (v, false)
  end.

Definition scrub_observation (o : ProxyHeaderObservation) (redact : Redact) : ProxyHeaderObservation :=
  match redact with
  | None => o
  | Some r =>
      let changes t := negb (String.eqb (r t) t) in
      let encoded := without_suffix TAG_MARK (pho_hex o) in
      let hit := String.eqb (pho_hex o) REDACTED || changes encoded ||
                 match hex_decode encoded with Some bytes => changes (from_utf8_lossy bytes) | None => false end in
      let '(source, h1) := scrub_field r (pho_source o) in
      let '(destination, h2) := scrub_field r (pho_destination o) in
      let '(text, h3) := scrub_field r (pho_text o) in
      let '(problem, h4) := scrub_field r (pho_problem o) in
      let '(binding, h5) := scrub_field r (pho_listener_binding o) in
      let tlvs := map (fun t => if changes t then REDACTED else t) (pho_tlvs o) in
      let hit := hit || h1 || h2 || h3 || h4 || h5 || existsb changes (pho_tlvs o) in
      let o := o <| pho_source := source |> <| pho_destination := destination |> <| pho_text := text |>
                 <| pho_problem := problem |> <| pho_listener_binding := binding |> <| pho_tlvs := tlvs |> in
      if hit then o <| pho_tlvs := map (fun _ => REDACTED) tlvs |> <| pho_hex := REDACTED |> else o
  end.
End Evidence.

(** * Reading a header the way the receiver does *)

Inductive StreamHeader :=
  | Forwarded (v2 : bool) (src dst : SocketAddr) (header_len : Z)
  | NoAddress (v2 local : bool) (header_len : Z).

Definition ascii_ws (c : ascii) : bool := let n := byte_of_ascii c in existsb (Z.eqb n) [9; 10; 12; 13; 32].

(** [split_ascii_whitespace]: [word] is the word being read. *)
Fixpoint ascii_words (word s : string) : list string :=
  let emit rest := if str_is_empty word then rest else word :: rest in
  match s with
  | "" => emit []
  | String c s' => if ascii_ws c then emit (ascii_words "" s') else ascii_words (word ++ String c "") s'
  end.

Definition split_ascii_whitespace (s : string) : list string := ascii_words "" s.

Definition starts_with_bytes (p bs : list Z) : bool :=
  (List.length p <=? List.length bs)%nat && bool_decide (take (List.length p) bs = p).

(** [windows(2).position(|w| w == b"\r\n")]. *)
Fixpoint crlf_position (bs : list Z) : option nat :=
  match bs with
  | a :: (b :: _) as t => if (a =? 13)%Z && (b =? 10)%Z then Some 0%nat else S <$> crlf_position t
  | _ => None
  end.

Definition be16 (bs : list Z) (i : nat) : Z := be_value (take 2 (drop i bs)).

Section Check.
(** [{:?}] of a [str]. *)
Variable str_debug : string -> string.

Definition next_field (name : string) (parts : list string) : result (string * list string) string :=
  match parts with p :: ps => Ok (p, ps) | [] => Err ("missing " ++ name ++ " in the v1 header") end.

Definition check_v1_line (line : string) (header_len : Z) : result StreamHeader string :=
  match split_ascii_whitespace line with
  | [] => Err "expected the PROXY keyword"
  | keyword :: parts =>
      if negb (String.eqb keyword "PROXY") then Err "expected the PROXY keyword" else
      match parts with
      | [] => Err "missing protocol field in the v1 header"
      | proto :: parts =>
          if String.eqb proto "UNKNOWN" then Ok (NoAddress false false header_len)
          else if negb (String.eqb proto "TCP4" || String.eqb proto "TCP6")
          then Err ("unsupported v1 protocol " ++ str_debug proto)
          else
            let? (s, parts) := next_field "source address" parts in
            let? (d, parts) := next_field "destination address" parts in
            let? (sp, parts) := next_field "source port" parts in
            let? (dp, _) := next_field "destination port" parts in
            let? sp := ok_or (parse_u16 sp) "invalid source port in the v1 header" in
            let? dp := ok_or (parse_u16 dp) "invalid destination port in the v1 header" in
            let? s := ok_or (parse_ip s) ("invalid source IP " ++ str_debug s) in
            let? d := ok_or (parse_ip d) ("invalid destination IP " ++ str_debug d) in
            let v4 := String.eqb proto "TCP4" in
            if negb (Bool.eqb v4 (is_ipv4 s)) || negb (Bool.eqb v4 (is_ipv4 d))
            then Err (proto ++ " addresses must be " ++ (if v4 then "IPv4" else "IPv6"))
            else Ok (Forwarded false (mkSocketAddr s sp) (mkSocketAddr d dp) header_len)
      end
  end.

(** The address block of a v2 PROXY command. *)
Definition check_v2_block (fam : Z) (block : list Z) (header_len : Z) : result StreamHeader string :=
  let transport := Z.land fam 0x0f in
  let family := Z.shiftr fam 4 in
  if (family =? 0)%Z || (family =? 3)%Z then Ok (NoAddress true false header_len)
  else if (family =? 1)%Z then
    if (blen block <? 12)%Z then Err ("AF_INET address block too short: " ++ pretty (blen block) ++ " bytes")
    else if negb (transport =? 1)%Z then Ok (NoAddress true false header_len)
    else Ok (Forwarded true (mkSocketAddr (IpAddr_V4 (take 4 block)) (be16 block 8))
                            (mkSocketAddr (IpAddr_V4 (take 4 (drop 4 block))) (be16 block 10)) header_len)
  else if (family =? 2)%Z then
    if (blen block <? 36)%Z then Err ("AF_INET6 address block too short: " ++ pretty (blen block) ++ " bytes")
    else if negb (transport =? 1)%Z then Ok (NoAddress true false header_len)
    else Ok (Forwarded true (mkSocketAddr (IpAddr_V6 (segments_of (take 16 block))) (be16 block 32))
                            (mkSocketAddr (IpAddr_V6 (segments_of (take 16 (drop 16 block)))) (be16 block 34)) header_len)
  else Err ("unsupported PROXY v2 address family 0x" ++ hex_encode [family]).

Definition check_v2 (bytes : list Z) : result StreamHeader string :=
  if (blen bytes <? 16)%Z then
    Err ("truncated PROXY v2 header (" ++ pretty (blen bytes) ++ " bytes; at least 16 are needed)")
  else if negb (starts_with_bytes V2_SIG bytes) then Err "invalid PROXY v2 signature"
  else
    let ver_cmd := default 0 (bytes !! 12%nat) in
    let fam := default 0 (bytes !! 13%nat) in
    let addr_len := be16 bytes 14 in
    if negb (Z.shiftr ver_cmd 4 =? 2)%Z then Err ("unsupported PROXY v2 version " ++ pretty (Z.shiftr ver_cmd 4))
    else if (V2_MAX_ADDR_LEN <? addr_len)%Z then
      Err ("PROXY v2 address block length " ++ pretty addr_len ++ " exceeds the " ++ pretty V2_MAX_ADDR_LEN ++ "-byte cap")
    else if (blen bytes <? 16 + addr_len)%Z then
      Err ("truncated PROXY v2 address block (" ++ pretty addr_len ++ " declared, " ++ pretty (blen bytes - 16) ++ " present)")
    else
      let header_len := 16 + addr_len in
      let block := take (Z.to_nat addr_len) (drop 16 bytes) in
      let command := Z.land ver_cmd 0x0f in
      if (command =? 0)%Z then Ok (NoAddress true true header_len)
      else if (command =? 1)%Z then check_v2_block fam block header_len
      else Err ("unsupported PROXY v2 command 0x" ++ hex_encode [command]).

Definition check_stream_header (bytes : list Z) : result StreamHeader string :=
  if starts_with_bytes (bytes_of_string "PROXY ") bytes then
    match crlf_position (take (Nat.min (List.length bytes) 109) bytes) with
    | None => Err (if (109 <=? blen bytes)%Z then "the PROXY v1 line has no CRLF within 109 bytes"
                   else "the PROXY v1 line is not terminated by CRLF")
    | Some end_ =>
        match from_utf8 (take end_ bytes) with
        | Some line => check_v1_line line (Z.of_nat end_ + 2)
        | None => Err "the PROXY v1 line is not UTF-8"
        end
    end
  else if (6 <=? blen bytes)%Z && bool_decide (take 6 bytes = take 6 V2_SIG) then check_v2 bytes
  else if (blen bytes =? 0)%Z then Err "the header is empty"
  else Err "the bytes do not start with a PROXY v1 or v2 signature".

Definition describe_stream_header (bytes : list Z) (o : ProxyHeaderObservation) : ProxyHeaderObservation :=
  match check_stream_header bytes with
  | Ok h =>
      let '(v2, n, o) :=
        match h with
        | Forwarded v2 src dst header_len =>
            (v2, header_len,
             o <| pho_source := Some (addr_text src) |> <| pho_destination := Some (addr_text dst) |>
               <| pho_source_origin := Some AddressOrigin_Configured |>
               <| pho_destination_origin := Some AddressOrigin_Configured |>
               <| pho_family := match v2, is_ipv4 (sa_ip src) with
                                | false, true => "TCP4" | false, false => "TCP6"
                                | true, true => "AF_INET" | true, false => "AF_INET6"
                                end |>)
        | NoAddress v2 local header_len =>
            let o := o <| pho_family := if v2 then "AF_UNSPEC" else "UNKNOWN" |> in
            (v2, header_len,
             if v2 then o <| pho_command := Some (if local then ProxyCommand_Local else ProxyCommand_Proxy) |> else o)
        end in
      let o := if negb v2 then o <| pho_text := from_utf8 (take (Z.to_nat (sat_sub64 n 2)) bytes) |>
               else match pho_command o with
                    | None => o <| pho_command := Some ProxyCommand_Proxy |>
                    | Some _ => o
                    end in
      if (n <? blen bytes)%Z
      then o <| pho_problem := Some (pretty (blen bytes - n) ++ " byte(s) after the header are sent as stream data") |>
      else o
  | Err e => o <| pho_family := "unparsed" |> <| pho_well_formed := false |> <| pho_problem := Some e |>
  end.
End Check.

(** * The connection header *)

Record HeaderPlan := mkHeaderPlan {
  hp_version : ProxyHeaderVersion;
  hp_command : ProxyCommand;
  hp_family : ProxyAddressFamily;
  hp_source : option SocketAddr;
  hp_destination : option SocketAddr;
  hp_tlvs : list (Z * list Z);
  hp_raw : list Z
}.

Record BuiltHeader := mkBuiltHeader { bh_bytes : list Z; bh_observation : ProxyHeaderObservation }.

Definition pick (configured socket : option SocketAddr) (which : string) : result (SocketAddr * AddressOrigin) string :=
  match configured, socket with
  | Some a, _ => Ok (a, AddressOrigin_Configured)
  | None, Some a => Ok (a, AddressOrigin_Socket)
  | None, None =>
      Err ("the real " ++ which ++ " socket address is not known; set the PROXY header " ++ which ++ " explicitly")
  end.

(** [bytes.len() as u32]. *)
Definition len32 (bytes : list Z) : Z := (blen bytes mod 2 ^ 32)%Z.

Definition CRLF : list Z := [13; 10].

(** The two addresses and their origins in the observation. *)
Definition with_addresses (o : ProxyHeaderObservation) (src dst : SocketAddr) (so dor : AddressOrigin) : ProxyHeaderObservation :=
  o <| pho_source := Some (addr_text src) |> <| pho_source_origin := Some so |>
    <| pho_destination := Some (addr_text dst) |> <| pho_destination_origin := Some dor |>.

Section Build.
Variable str_debug : string -> string.
Variable hex_decode : string -> option (list Z).

Definition build_raw (p : HeaderPlan) (redact : Redact) : BuiltHeader :=
  let o := describe_stream_header str_debug (hp_raw p) (blank_observation ProxyHeaderFormat_Raw) in
  let '(hex, redacted) := scrub (hp_raw p) redact in
  let o := o <| pho_hex := hex |> in
  let o := if redacted then o <| pho_text := None |> <| pho_source := None |> <| pho_destination := None |> <| pho_tlvs := [] |> else o in
  mkBuiltHeader (hp_raw p) (o <| pho_length := len32 (hp_raw p) |>).

(** The v1 line of a plan, and the observation with its addresses. *)
Definition v1_line (p : HeaderPlan) (local remote : option SocketAddr) (o : ProxyHeaderObservation)
  : result (string * ProxyHeaderObservation) string :=
  match hp_family p with
  | ProxyAddressFamily_Unspec => Ok ("PROXY UNKNOWN", o <| pho_family := "UNKNOWN" |>)
  | ProxyAddressFamily_Auto =>
      let? (src, so) := pick (hp_source p) local "source" in
      let? (dst, dor) := pick (hp_destination p) remote "destination" in
      let '(src, dst) := (canonical src, canonical dst) in
      let? proto := match sa_ip src, sa_ip dst with
                    | IpAddr_V4 _, IpAddr_V4 _ => Ok "TCP4"
                    | IpAddr_V6 _, IpAddr_V6 _ => Ok "TCP6"
                    | _, _ => Err ("PROXY v1 needs both addresses in one family (source " ++ addr_text src ++
                                   ", destination " ++ addr_text dst ++ ")")
                    end in
      Ok ("PROXY " ++ proto ++ " " ++ ip_text (sa_ip src) ++ " " ++ ip_text (sa_ip dst) ++ " " ++
          dec (sa_port src) ++ " " ++ dec (sa_port dst),
          with_addresses (o <| pho_family := proto |>) src dst so dor)
  end.

Definition build_v1 (p : HeaderPlan) (local remote : option SocketAddr) (redact : Redact) : result BuiltHeader string :=
  let o := blank_observation ProxyHeaderFormat_V1 in
  match hp_command p with
  | ProxyCommand_Local => Err "PROXY v1 has no LOCAL command; use v2, or v1 with the UNKNOWN family"
  | ProxyCommand_Proxy =>
      let? (line, o) := v1_line p local remote o in
      if (V1_MAX_LINE <? str_len line)%Z then
        Err ("the PROXY v1 line is " ++ pretty (str_len line) ++ " bytes; the limit is " ++ pretty V1_MAX_LINE ++ " before CRLF")
      else
        let bytes := (bytes_of_string line ++ CRLF)%list in
        let '(hex, redacted) := scrub bytes redact in
        Ok (mkBuiltHeader bytes (o <| pho_hex := hex |> <| pho_text := Some (if redacted then REDACTED else line) |>
                                   <| pho_length := len32 bytes |>))
  end.

Definition tlv_summary (t : Z) (v : list Z) : string :=
  if (t =? PP2_TYPE_AUTHORITY)%Z then "0x02 authority " ++ str_debug (from_utf8_lossy v)
  else if (t =? 5)%Z then "0x05 unique id (" ++ pretty (blen v) ++ " bytes)"
  else "0x" ++ hex_encode [t] ++ " (" ++ pretty (blen v) ++ " bytes): " ++ hex_encode (take 32 v).

(** The command, the family and the addresses of a v2 header. *)
Definition v2_fixed (p : HeaderPlan) (local remote : option SocketAddr) (o : ProxyHeaderObservation)
  : result (Z * Z * list Z * ProxyHeaderObservation) string :=
  match hp_command p, hp_family p with
  | ProxyCommand_Local, _ => Ok (0x20, 0x00, [], o <| pho_family := "AF_UNSPEC" |>)
  | ProxyCommand_Proxy, ProxyAddressFamily_Unspec => Ok (0x21, 0x00, [], o <| pho_family := "AF_UNSPEC" |>)
  | ProxyCommand_Proxy, ProxyAddressFamily_Auto =>
      let? (src, so) := pick (hp_source p) local "source" in
      let? (dst, dor) := pick (hp_destination p) remote "destination" in
      let '(src, dst) := (canonical src, canonical dst) in
      let o := with_addresses o src dst so dor in
      match sa_ip src, sa_ip dst with
      | IpAddr_V4 s, IpAddr_V4 d =>
          Ok (0x21, 0x11, (s ++ d ++ be_bytes 2 (sa_port src) ++ be_bytes 2 (sa_port dst))%list, o <| pho_family := "AF_INET" |>)
      | s, d =>
          Ok (0x21, 0x21, (v6_octets (to_v6 s) ++ v6_octets (to_v6 d) ++ be_bytes 2 (sa_port src) ++ be_bytes 2 (sa_port dst))%list,
              o <| pho_family := "AF_INET6" |>)
      end
  end.

(** The TLVs written one after another, and their summaries. *)
Fixpoint v2_tlvs (tlvs : list (Z * list Z)) : result (list Z * list string) string :=
  match tlvs with
  | [] => Ok ([], [])
  | (t, v) :: tlvs' =>
      if (U16_MAX <? blen v)%Z then
        Err ("TLV 0x" ++ hex_encode [t] ++ " is " ++ pretty (blen v) ++ " bytes; a TLV value holds at most 65535")
      else
        let? (bytes, summaries) := v2_tlvs tlvs' in
        Ok ((t :: be_bytes 2 (blen v) ++ v ++ bytes)%list, tlv_summary t v :: summaries)
  end.

Definition build_v2 (p : HeaderPlan) (local remote : option SocketAddr) (redact : Redact) : result BuiltHeader string :=
  let o := blank_observation ProxyHeaderFormat_V2 <| pho_command := Some (hp_command p) |> in
  let? (ver_cmd, fam, fixed, o) := v2_fixed p local remote o in
  let? (tlv_bytes, summaries) := v2_tlvs (hp_tlvs p) in
  let o := o <| pho_tlvs := summaries |> in
  let addr_len := blen fixed + blen tlv_bytes in
  if (U16_MAX <? addr_len)%Z then Err ("the address block is " ++ pretty addr_len ++ " bytes; PROXY v2 allows at most 65535")
  else
    let o := if (V2_MAX_ADDR_LEN <? addr_len)%Z then
               o <| pho_problem := Some ("the address block is " ++ pretty addr_len ++ " bytes, above the " ++
                      pretty V2_MAX_ADDR_LEN ++ "-byte cap some receivers (Ferrum Edge) enforce") |>
             else o in
    let bytes := (V2_SIG ++ [ver_cmd; fam] ++ be_bytes 2 addr_len ++ fixed ++ tlv_bytes)%list in
    let '(hex, redacted) := scrub bytes redact in
    let o := o <| pho_hex := hex |> in
    let o := if redacted then o <| pho_tlvs := [REDACTED] |> else o in
    Ok (mkBuiltHeader bytes (o <| pho_length := len32 bytes |>)).

Definition build (p : HeaderPlan) (local remote : option SocketAddr) (redact : Redact) : result BuiltHeader string :=
  let? built := match hp_version p with
                | ProxyHeaderVersion_Raw => Ok (build_raw p redact)
                | ProxyHeaderVersion_V1 => build_v1 p local remote redact
                | ProxyHeaderVersion_V2 => build_v2 p local remote redact
                end in
  Ok (mkBuiltHeader (bh_bytes built) (scrub_observation hex_decode (bh_observation built) redact)).
End Build.

(** * The datagram envelope *)

Record ListenerBinding := mkListenerBinding { lb_protocol : DatagramListenerProtocol; lb_bind_addr : IpAddr; lb_port : Z }.

Definition ListenerBinding_new (protocol : DatagramListenerProtocol) (bind_addr : IpAddr) (port : Z) : ListenerBinding :=
  mkListenerBinding protocol (canonical_ip bind_addr) port.

Definition canonical_domain (b : ListenerBinding) : list Z :=
  (DOMAIN_LABEL ++ [DOMAIN_BINDING_VERSION] ++
   [match lb_protocol b with DatagramListenerProtocol_Udp => 1 | DatagramListenerProtocol_Dtls => 2 end] ++
   match lb_bind_addr b with IpAddr_V4 v4 => 4 :: v4 | IpAddr_V6 v6 => 6 :: v6_octets v6 end ++
   be_bytes 2 (lb_port b))%list.

Definition binding_label (b : ListenerBinding) : string :=
  (match lb_protocol b with DatagramListenerProtocol_Udp => "udp" | DatagramListenerProtocol_Dtls => "dtls" end) ++ " " ++
  addr_text (mkSocketAddr (lb_bind_addr b) (lb_port b)).

Record Freshness := mkFreshness { fr_sender_id : Z; fr_epoch : Z; fr_sequence : Z; fr_timestamp_ms : Z }.

Definition encode_value (f : Freshness) : list Z :=
  ([FRESHNESS_VERSION] ++ be_bytes 4 (fr_sender_id f) ++ be_bytes 8 (fr_epoch f) ++ be_bytes 8 (fr_sequence f) ++
   be_bytes 8 (fr_timestamp_ms f))%list.

Inductive EnvelopeForm :=
  | EnvelopeForm_Local
  | EnvelopeForm_Unspec
  | EnvelopeForm_Forwarded (source destination : SocketAddr).

Record EnvelopeKey := mkEnvelopeKey { ek_secret : list Z; ek_binding : ListenerBinding; ek_freshness : Freshness }.

(** The command, the family and the addresses of an envelope. *)
Definition envelope_fixed (form : EnvelopeForm) : Z * Z * list Z :=
  match form with
  | EnvelopeForm_Local => (0x20, 0x00, [])
  | EnvelopeForm_Unspec => (0x21, 0x02, [])
  | EnvelopeForm_Forwarded source destination =>
      let '(s, d) := (canonical source, canonical destination) in
      match sa_ip s, sa_ip d with
      | IpAddr_V4 a, IpAddr_V4 b =>
          (0x21, 0x12, (a ++ b ++ be_bytes 2 (sa_port s) ++ be_bytes 2 (sa_port d))%list)
      | a, b =>
          (0x21, 0x22, (v6_octets (to_v6 a) ++ v6_octets (to_v6 b) ++ be_bytes 2 (sa_port s) ++ be_bytes 2 (sa_port d))%list)
      end
  end.

Section Envelope.
(** [Hmac<Sha256>] keyed with the first argument over the second. *)
Variable hmac_sha256 : list Z -> list Z -> list Z.

Definition encode_datagram (form : EnvelopeForm) (payload : list Z) (auth : option EnvelopeKey) : list Z * option nat :=
  let '(ver_cmd, fam, fixed) := envelope_fixed form in
  let tlv_len := match auth with Some _ => (3 + FRESHNESS_VALUE_LEN + 3 + AUTH_TAG_LEN)%nat | None => 0%nat end in
  let addr_len := (Z.of_nat (List.length fixed + tlv_len) mod 2 ^ 16)%Z in
  let out := (V2_SIG ++ [ver_cmd; fam] ++ be_bytes 2 addr_len ++ fixed)%list in
  match auth with
  | None => ((out ++ payload)%list, None)
  | Some auth =>
      let out := (out ++ [FRESHNESS_TLV_TYPE] ++ be_bytes 2 (Z.of_nat FRESHNESS_VALUE_LEN) ++
                  encode_value (ek_freshness auth) ++ [AUTH_TLV_TYPE] ++ be_bytes 2 (Z.of_nat AUTH_TAG_LEN))%list in
      let tag_start := List.length out in
      let out := (out ++ replicate AUTH_TAG_LEN 0 ++ payload)%list in
      let tag := hmac_sha256 (ek_secret auth)
        (canonical_domain (ek_binding auth) ++ take tag_start out ++ drop (tag_start + AUTH_TAG_LEN) out)%list in
      ((take tag_start out ++ tag ++ drop (tag_start + AUTH_TAG_LEN) out)%list, Some tag_start)
  end.

Record EnvelopeAuthPlan := mkEnvelopeAuthPlan {
  ea_secret : list Z;
  ea_protocol : DatagramListenerProtocol;
  ea_bind_addr : IpAddr;
  ea_port : option Z;
  ea_sender_id : Z;
  ea_epoch : option Z;
  ea_first_sequence : Z;
  ea_timestamp_offset_ms : Z
}.

Record EnvelopePlan := mkEnvelopePlan {
  ep_command : ProxyCommand;
  ep_family : ProxyAddressFamily;
  ep_source : option SocketAddr;
  ep_destination : option SocketAddr;
  ep_auth : option EnvelopeAuthPlan
}.

Record Minting := mkMinting {
  mi_secret : list Z;
  mi_binding : ListenerBinding;
  mi_sender_id : Z;
  mi_epoch : Z;
  mi_next_sequence : Z;
  mi_timestamp_offset_ms : Z
}.

Record Enveloper := mkEnveloper {
  en_form : EnvelopeForm;
  en_minting : option Minting;
  en_observation : ProxyHeaderObservation;
  en_redact : Redact
}.

(** [is_unspecified]. *)
Definition is_unspecified (a : IpAddr) : bool :=
  match a with IpAddr_V4 o => forallb (Z.eqb 0) o | IpAddr_V6 s => forallb (Z.eqb 0) s end.

Definition envelope_form (p : EnvelopePlan) (local remote : option SocketAddr) (o : ProxyHeaderObservation)
  : result (EnvelopeForm * ProxyHeaderObservation) string :=
  match ep_command p, ep_family p with
  | ProxyCommand_Local, _ => Ok (EnvelopeForm_Local, o <| pho_family := "AF_UNSPEC" |>)
  | ProxyCommand_Proxy, ProxyAddressFamily_Unspec => Ok (EnvelopeForm_Unspec, o <| pho_family := "AF_UNSPEC" |>)
  | ProxyCommand_Proxy, ProxyAddressFamily_Auto =>
      let? (s, so) := pick (ep_source p) local "source" in
      let? (d, dor) := pick (ep_destination p) remote "destination" in
      if is_unspecified (sa_ip s) then Err "the local socket address is unspecified; set the envelope source explicitly"
      else
        let '(s, d) := (canonical s, canonical d) in
        Ok (EnvelopeForm_Forwarded s d,
            with_addresses (o <| pho_family := if is_ipv4 (sa_ip s) && is_ipv4 (sa_ip d) then "AF_INET" else "AF_INET6" |>)
              s d so dor)
  end.

(** [EnvelopePlan::start], at [now] in Unix milliseconds. *)
Definition start (now : Z) (p : EnvelopePlan) (local remote : option SocketAddr) : result Enveloper string :=
  let o := blank_observation ProxyHeaderFormat_V2Datagram <| pho_command := Some (ep_command p) |> in
  let? (form, o) := envelope_form p local remote o in
  match ep_auth p with
  | None => Ok (mkEnveloper form None o None)
  | Some a =>
      if (blen (ea_secret a) <? MIN_DATAGRAM_SECRET_BYTES)%Z then
        Err ("the datagram authentication secret must be at least " ++ pretty MIN_DATAGRAM_SECRET_BYTES ++ " bytes")
      else
        let? port := match ea_port a, ep_destination p, remote with
                     | Some p, _, _ => Ok p
                     | None, Some d, _ => Ok (sa_port d)
                     | None, None, Some r => Ok (sa_port r)
                     | None, None, None => Err "the listener port is not known; set it explicitly"
                     end in
        let binding := ListenerBinding_new (ea_protocol a) (ea_bind_addr a) port in
        let epoch := default now (ea_epoch a) in
        Ok (mkEnveloper form
              (Some (mkMinting (ea_secret a) binding (ea_sender_id a) epoch (ea_first_sequence a) (ea_timestamp_offset_ms a)))
              (o <| pho_authenticated := true |> <| pho_listener_binding := Some (binding_label binding) |>
                 <| pho_sender_id := Some (ea_sender_id a) |> <| pho_epoch := Some epoch |>
                 <| pho_first_sequence := Some (ea_first_sequence a) |>)
              None)
  end.

(** [saturating_add_signed]. *)
Definition saturating_add_signed (a b : Z) : Z := Z.max 0 (Z.min U64_MAX (a + b)).

(** What the envelope of one datagram is made of. *)
Definition mint (now : Z) (e : Enveloper) (payload : list Z) : list Z * option nat * option Freshness * option Minting :=
  match en_minting e with
  | None => ((encode_datagram (en_form e) payload None).1, None, None, None)
  | Some m =>
      let ts := saturating_add_signed now (mi_timestamp_offset_ms m) in
      let freshness := mkFreshness (mi_sender_id m) (mi_epoch m) (mi_next_sequence m) ts in
      let '(d, at_) := encode_datagram (en_form e) payload (Some (mkEnvelopeKey (mi_secret m) (mi_binding m) freshness)) in
      (d, at_, Some freshness,
       Some (mkMinting (mi_secret m) (mi_binding m) (mi_sender_id m) (mi_epoch m) (sat_add64 (mi_next_sequence m) 1)
               (mi_timestamp_offset_ms m)))
  end.

Definition freshness_tlvs (f : Freshness) : list string :=
  ["0xE1 freshness v" ++ pretty FRESHNESS_VERSION ++ " sender_id=" ++ pretty (fr_sender_id f) ++ " epoch=" ++ pretty (fr_epoch f) ++
     " sequence=" ++ pretty (fr_sequence f) ++ " timestamp_ms=" ++ pretty (fr_timestamp_ms f);
   "0xE0 authentication tag (" ++ pretty (Z.of_nat AUTH_TAG_LEN) ++ " bytes, not recorded)"].

(** [Enveloper::wrap], at [now]. *)
Definition wrap (now : Z) (e : Enveloper) (payload : list Z) : list Z * Enveloper :=
  let '(datagram, tag_at, fresh, minting) := mint now e payload in
  let header_len := (List.length datagram - List.length payload)%nat in
  let o := en_observation e in
  let o :=
    if (pho_datagrams o =? 0)%Z then
      let o := o <| pho_length := (Z.of_nat header_len mod 2 ^ 32)%Z |>
                 <| pho_hex := match tag_at with
                               | Some at_ => hex_encode (take at_ datagram) ++ TAG_MARK
                               | None => hex_encode (take header_len datagram)
                               end |> in
      match fresh with Some f => o <| pho_tlvs := freshness_tlvs f |> | None => o end
    else o in
  let o :=
    match fresh with
    | Some f =>
        let o := o <| pho_last_sequence := Some (fr_sequence f) |> in
        if (fr_sequence f =? U64_MAX)%Z
        then o <| pho_problem := Some "sequence u64::MAX is reserved; receivers refuse it (the sender must roll its epoch)" |>
        else o
    | None => o
    end in
  (datagram, mkEnveloper (en_form e) minting (o <| pho_datagrams ::= (fun n => add64 n 1) |>) (en_redact e)).

(** The datagrams of a session, each with the time it is sent at. *)
Fixpoint wrap_all (e : Enveloper) (sends : list (Z * list Z)) : list (list Z) * Enveloper :=
  match sends with
  | [] => ([], e)
  | (now, payload) :: sends' =>
      let '(d, e) := wrap now e payload in
      let '(ds, e) := wrap_all e sends' in (d :: ds, e)
  end.

Definition with_redact (redact : Redact) (e : Enveloper) : Enveloper :=
  mkEnveloper (en_form e) (en_minting e) (en_observation e) redact.

(** [Enveloper::observation]. *)
Definition observation (hex_decode : string -> option (list Z)) (e : Enveloper) : ProxyHeaderObservation :=
  scrub_observation hex_decode (en_observation e) (en_redact e).

Definition summary (hex_decode : string -> option (list Z)) (e : Enveloper) : string :=
  let o := observation hex_decode e in
  let addrs := match pho_source o, pho_destination o with Some s, Some d => " " ++ s ++ " → " ++ d | _, _ => "" end in
  let auth := match pho_listener_binding o, pho_sender_id o, pho_epoch o with
              | Some b, Some s, Some e => "; authenticated for " ++ b ++ ", sender " ++ pretty s ++ ", epoch " ++ pretty e
              | _, _, _ => "; unauthenticated"
              end in
  let cmd := match pho_command o with Some ProxyCommand_Local => "LOCAL" | _ => "PROXY" end in
  "PROXY v2 DGRAM envelope (" ++ cmd ++ " " ++ pho_family o ++ addrs ++ auth ++ ") on every datagram".
End Envelope.

(** [header_summary]. *)
Definition header_summary (o : ProxyHeaderObservation) : string :=
  let v := match pho_format o with
           | ProxyHeaderFormat_V1 => "PROXY v1"
           | ProxyHeaderFormat_V2 => "PROXY v2"
           | ProxyHeaderFormat_Raw => "raw PROXY header"
           | ProxyHeaderFormat_V2Datagram => "PROXY v2 DGRAM"
           end in
  let cmd := match pho_command o, pho_format o with
             | Some ProxyCommand_Local, _ => " LOCAL"
             | Some ProxyCommand_Proxy, ProxyHeaderFormat_V1 => ""
             | Some ProxyCommand_Proxy, _ => " PROXY"
             | None, _ => ""
             end in
  let addrs := match pho_source o, pho_destination o with Some s, Some d => " " ++ s ++ " → " ++ d | _, _ => "" end in
  let wf := if pho_well_formed o then "" else ", malformed" in
  v ++ cmd ++ " " ++ pho_family o ++ addrs ++ " (" ++ pretty (pho_length o) ++ " bytes" ++ wf ++ ")".

(** * Headers read back as planned *)

Definition socket_ok (a : option SocketAddr) : Prop := if a is Some a then addr_ok a else True.

Record plan_ok (p : HeaderPlan) : Prop := mkPlanOk {
  ok_source : socket_ok (hp_source p);
  ok_destination : socket_ok (hp_destination p)
}.

Lemma canonical_ip_ok a : ip_ok a -> ip_ok (canonical_ip a).
Proof.
  destruct a as [o|s]; [done|]. intros [Hl Hf]. cbn [canonical_ip]. destruct (to_ipv4_mapped s) as [v4|] eqn:E; [|done].
  by apply mapped_form in E as (_ & ? & ?).
Qed.

Lemma canonical_ok a : addr_ok a -> addr_ok (canonical a).
Proof. intros [Hi Hp]. split; [by apply canonical_ip_ok|done]. Qed.

Lemma segments_of_ok o : List.length o = 4%nat -> Forall is_u8 o ->
  List.length (segments_of o) = 2%nat /\ Forall is_u16 (segments_of o).
Proof.
  intros Hl Hf. destruct o as [|a [|b [|c [|d [|]]]]]; try done.
  repeat match goal with H : Forall _ (_ :: _) |- _ => inversion_clear H end.
  split; [done|]. unfold in_width in *. cbn. unfold be_value, in_width. cbn. repeat constructor; lia.
Qed.

Lemma to_v6_ok a : ip_ok a -> ip_ok (IpAddr_V6 (to_v6 a)).
Proof.
  destruct a as [o|s]; [|done]. intros [Hl Hf]. destruct (segments_of_ok o Hl Hf) as [H2 Hs]. cbn [to_v6]. unfold to_ipv6_mapped.
  split; [by rewrite length_app, H2|]. apply List.Forall_app. split; [|done]. repeat constructor; unfold in_width; lia.
Qed.

(** A mapped address folds back to the address it maps. *)
Lemma mapped_v4 o : List.length o = 4%nat -> Forall is_u8 o -> to_ipv4_mapped (to_ipv6_mapped o) = Some o.
Proof.
  intros Hl Hf. destruct o as [|a [|b [|c [|d [|]]]]]; try done. unfold to_ipv6_mapped. cbn [segments_of app to_ipv4_mapped].
  cbn [forallb Z.eqb andb Pos.eqb].
  inversion Hf as [|? ? Ha Hf1]; inversion Hf1 as [|? ? Hb Hf2]; inversion Hf2 as [|? ? Hc Hf3]; inversion Hf3 as [|? ? Hd _]; subst.
  assert (H1 : be_bytes 2 (be_value [a; b]) = [a; b]) by (apply (be_bytes_value [a; b]); constructor; [done|constructor; [done|constructor]]).
  assert (H2 : be_bytes 2 (be_value [c; d]) = [c; d]) by (apply (be_bytes_value [c; d]); constructor; [done|constructor; [done|constructor]]).
  by rewrite H1, H2.
Qed.

Lemma canonical_to_v6 a : ip_ok a -> canonical_ip (IpAddr_V6 (to_v6 (canonical_ip a))) = canonical_ip a.
Proof.
  intros Ha. pose proof (canonical_ip_ok a Ha) as Hc. destruct a as [o|s]; cbn [canonical_ip to_v6] in *.
  - destruct Ha. by rewrite mapped_v4.
  - destruct (to_ipv4_mapped s) as [v4|] eqn:E; cbn [to_v6].
    + destruct Hc. by rewrite mapped_v4.
    + by rewrite E.
Qed.

(** ** v1 *)

Definition no_ws (s : string) : Prop := Forall (fun c => ascii_ws c = false) (list_ascii_of_string s).

Lemma plain_no_ws s : plain s -> no_ws s.
Proof.
  unfold plain, no_ws. intros H. eapply List.Forall_impl; [|exact H]. intros c Hc. cbn in Hc. unfold plain_byte in Hc. unfold ascii_ws.
  apply orb_true_iff in Hc. rewrite !andb_true_iff, !Z.leb_le in Hc. cbn [existsb].
  repeat match goal with |- context [(?a =? ?b)%Z] => destruct (Z.eqb_spec a b); [lia|] end. done.
Qed.

Lemma ascii_words_word acc a rest : no_ws a -> ascii_words acc (a ++ rest) = ascii_words (acc ++ a) rest.
Proof.
  unfold no_ws. revert acc. induction a as [|c a IH]; intros acc Ha; [by rewrite str_app_nil_r|].
  change (String c a ++ rest) with (String c (a ++ rest)). cbn [list_ascii_of_string] in Ha. inversion_clear Ha as [|? ? Hc Ha'].
  cbn [ascii_words]. rewrite Hc, IH by done. by rewrite str_app_assoc.
Qed.

Lemma words_cons a rest : no_ws a -> a <> "" -> ascii_words "" (a ++ " " ++ rest) = a :: ascii_words "" rest.
Proof.
  intros Ha Hne. rewrite ascii_words_word by done. change ("" ++ a) with a. change (" " ++ rest) with (String " " rest).
  cbn [ascii_words]. change (ascii_ws " ") with true. cbn iota. by destruct a.
Qed.

Lemma words_last a : no_ws a -> a <> "" -> ascii_words "" a = [a].
Proof.
  intros Ha Hne. rewrite <- (str_app_nil_r a) at 1. rewrite ascii_words_word by done. change ("" ++ a) with a. by destruct a.
Qed.

Lemma crlf_cons a b t : crlf_position (a :: b :: t) = if (a =? 13)%Z && (b =? 10)%Z then Some 0%nat else S <$> crlf_position (b :: t).
Proof. done. Qed.

Lemma crlf_first a r : Forall (fun b => b <> 13) a -> crlf_position (a ++ 13 :: 10 :: r) = Some (List.length a).
Proof.
  induction 1 as [|b a Hb Ha IH]; [done|]. cbn [app].
  destruct (a ++ 13 :: 10 :: r)%list as [|c t] eqn:E; [by destruct a|].
  rewrite crlf_cons. destruct (Z.eqb_spec b 13); [done|]. cbn [andb]. by rewrite IH.
Qed.

(** A byte a v1 line may hold. *)
Definition line_byte (c : ascii) : bool := let n := byte_of_ascii c in (32 <=? n)%Z && (n <? 128)%Z.
Definition line_ok (s : string) : Prop := Forall (fun c => line_byte c = true) (list_ascii_of_string s).

Lemma line_ok_app a b : line_ok a -> line_ok b -> line_ok (a ++ b).
Proof.
  unfold line_ok. intros Ha Hb. induction a as [|c a IH]; [done|]. change (String c a ++ b) with (String c (a ++ b)).
  cbn [list_ascii_of_string] in *. inversion_clear Ha. constructor; auto.
Qed.

Lemma plain_line s : plain s -> line_ok s.
Proof.
  unfold plain, line_ok. intros H. eapply List.Forall_impl; [|exact H]. intros c Hc. cbn in Hc. unfold plain_byte in Hc. unfold line_byte.
  apply orb_true_iff in Hc. rewrite !andb_true_iff, !Z.leb_le in Hc. rewrite andb_true_iff, Z.leb_le, Z.ltb_lt. lia.
Qed.

Lemma ascii_line_bytes s : line_ok s -> Forall (fun b => b <> 13 /\ b < 0x80) (bytes_of_string s).
Proof.
  unfold line_ok, bytes_of_string. intros H. apply List.Forall_map. eapply List.Forall_impl; [|exact H]. intros c Hc. cbn in Hc.
  unfold line_byte in Hc. rewrite andb_true_iff, Z.leb_le, Z.ltb_lt in Hc. lia.
Qed.

Lemma line_from_utf8 s : line_ok s -> from_utf8 (bytes_of_string s) = Some s.
Proof.
  intros Hs. unfold from_utf8. rewrite <- (app_nil_r (bytes_of_string s)) at 1.
  rewrite utf8_valid_ascii_app; [by rewrite string_of_bytes_of|]. eapply List.Forall_impl; [|apply (ascii_line_bytes s Hs)]. cbn. lia.
Qed.

Section ReadBack.
Variable str_debug : string -> string.

(** A v1 line up to its CRLF, whatever follows. *)
Lemma check_v1_bytes line stream : line_ok line -> str_len line <= V1_MAX_LINE ->
  starts_with_bytes (bytes_of_string "PROXY ") (bytes_of_string line) = true ->
  check_stream_header str_debug (bytes_of_string line ++ CRLF ++ stream) =
  check_v1_line str_debug line (str_len line + 2).
Proof.
  intros Hok Hlen Hstart. set (n := List.length (bytes_of_string line)).
  assert (Hn : Z.of_nat n = str_len line) by apply bytes_of_string_length.
  unfold starts_with_bytes in Hstart. apply andb_true_iff in Hstart as [Hs1 Hs2].
  apply Nat.leb_le in Hs1. apply bool_decide_eq_true_1 in Hs2.
  unfold check_stream_header, starts_with_bytes.
  rewrite (proj2 (Nat.leb_le _ _)) by (rewrite length_app; lia).
  rewrite take_app_le by done. rewrite bool_decide_eq_true_2 by done. cbn [andb].
  assert (Htake : take (Nat.min (List.length (bytes_of_string line ++ CRLF ++ stream)) 109) (bytes_of_string line ++ CRLF ++ stream) =
    (bytes_of_string line ++ 13 :: 10 :: take (107 - n) stream)%list).
  { unfold V1_MAX_LINE in Hlen. rewrite !length_app. cbn [List.length CRLF].
    rewrite take_app_ge by (fold n; lia). f_equal. fold n.
    destruct (decide (109 <= n + (2 + List.length stream))%nat) as [Hge|Hlt].
    - replace (Nat.min (n + (2 + List.length stream)) 109 - n)%nat with (S (S (107 - n))) by lia. done.
    - replace (Nat.min (n + (2 + List.length stream)) 109 - n)%nat with (S (S (List.length stream))) by lia.
      cbn [CRLF app take]. do 2 f_equal. rewrite !take_ge by lia. done. }
  rewrite Htake, crlf_first.
  - rewrite take_app_length, line_from_utf8 by done. fold n. by rewrite Hn.
  - eapply List.Forall_impl; [|apply (ascii_line_bytes line Hok)]. cbn. tauto.
Qed.

Lemma v1_pair_reads proto s d sp dp n : proto = "TCP4" \/ proto = "TCP6" ->
  ip_ok s -> ip_ok d -> is_u16 sp -> is_u16 dp ->
  is_ipv4 s = String.eqb proto "TCP4" -> is_ipv4 d = String.eqb proto "TCP4" ->
  check_v1_line str_debug ("PROXY " ++ proto ++ " " ++ ip_text s ++ " " ++ ip_text d ++ " " ++ dec sp ++ " " ++ dec dp) n =
  Ok (Forwarded false (mkSocketAddr s sp) (mkSocketAddr d dp) n).
Proof.
  intros Hp Hs Hd Hsp Hdp H4s H4d.
  destruct (ip_text_plain s Hs) as [P1 L1], (ip_text_plain d Hd) as [P2 L2].
  destruct (dec_u16 sp Hsp) as (P3 & L3 & R3), (dec_u16 dp Hdp) as (P4 & L4 & R4).
  assert (Hne : forall t : string, (1 <= String.length t)%nat -> t <> "") by (by intros [] ?; [cbn in *; lia|]).
  assert (Hw : split_ascii_whitespace ("PROXY " ++ proto ++ " " ++ ip_text s ++ " " ++ ip_text d ++ " " ++ dec sp ++ " " ++ dec dp) =
    ["PROXY"; proto; ip_text s; ip_text d; dec sp; dec dp]).
  { unfold split_ascii_whitespace. change ("PROXY " ++ ?t) with ("PROXY" ++ " " ++ t).
    rewrite words_cons by first [done|repeat constructor].
    rewrite words_cons by (destruct Hp as [->| ->]; first [done|repeat constructor]).
    rewrite !words_cons by first [by apply plain_no_ws|apply Hne; lia].
    by rewrite words_last by first [by apply plain_no_ws|apply Hne; lia]. }
  unfold check_v1_line. rewrite Hw. cbn [String.eqb]. 
  assert (Hk : (String.eqb proto "UNKNOWN" = false) /\ (String.eqb proto "TCP4" || String.eqb proto "TCP6") = true)
    by by destruct Hp as [->| ->].
  destruct Hk as [K1 K2]. change (negb (String.eqb "PROXY" "PROXY")) with false. cbn iota. rewrite K1, K2. cbn [negb next_field result_bind].
  rewrite R3, R4, !parse_ip_text by done. cbn [ok_or result_bind]. rewrite H4s, H4d, eqb_reflx. done.
Qed.
End ReadBack.

(** ** v2 *)

Lemma blen_be n v : blen (be_bytes n v) = Z.of_nat n.
Proof. unfold blen. by rewrite be_bytes_length. Qed.

#[local] Opaque be_bytes.

Lemma Ok_inj {A E} (x y : A) : @Ok A E x = Ok y -> x = y.
Proof. by intros [= ->]. Qed.

Section ReadBack2.
Variable str_debug : string -> string.

Lemma be16_at (pre : list Z) v rest i : List.length pre = i -> is_u16 v -> be16 (pre ++ be_bytes 2 v ++ rest) i = v.
Proof.
  intros Hl Hv. unfold be16. rewrite drop_app_exact by done. rewrite take_app_exact by apply be_bytes_length.
  by apply be_value_bytes.
Qed.

(** A v2 header whose block is within the cap. *)
Lemma check_v2_bytes ver_cmd fam block stream : blen block <= V2_MAX_ADDR_LEN -> ver_cmd = 0x20 \/ ver_cmd = 0x21 ->
  check_stream_header str_debug (V2_SIG ++ [ver_cmd; fam] ++ be_bytes 2 (blen block) ++ block ++ stream) =
  if (ver_cmd =? 0x20)%Z then Ok (NoAddress true true (16 + blen block)) else check_v2_block fam block (16 + blen block).
Proof.
  intros Hb Hv. unfold V2_MAX_ADDR_LEN in Hb. pose proof (blen_nonneg block) as Hnn.
  set (bytes := (V2_SIG ++ [ver_cmd; fam] ++ be_bytes 2 (blen block) ++ block ++ stream)%list).
  assert (Hlen : blen bytes = 16 + blen block + blen stream).
  { subst bytes. rewrite !blen_app, blen_be. unfold V2_SIG, blen at 1 2. cbn [List.length]. lia. }
  unfold check_stream_header. change (starts_with_bytes (bytes_of_string "PROXY ") bytes) with false. cbn iota.
  assert (H6 : (6 <=? blen bytes)%Z = true) by (apply Z.leb_le; pose proof (blen_nonneg stream); lia).
  rewrite H6. change (bool_decide (take 6 bytes = take 6 V2_SIG)) with true. cbn [andb].
  unfold check_v2. rewrite (proj2 (Z.ltb_ge _ _)) by (pose proof (blen_nonneg stream); lia).
  change (starts_with_bytes V2_SIG bytes) with true. cbn [negb].
  change (bytes !! 12%nat) with (Some ver_cmd). change (bytes !! 13%nat) with (Some fam). unfold default, from_option, id.
  assert (H16 : be16 bytes 14 = blen block).
  { change bytes with ((V2_SIG ++ [ver_cmd; fam]) ++ be_bytes 2 (blen block) ++ (block ++ stream))%list.
    apply be16_at; [done|]. unfold in_width. lia. }
  rewrite H16. assert (Hver : (Z.shiftr ver_cmd 4 =? 2)%Z = true) by by destruct Hv as [->| ->].
  cbv zeta. rewrite Hver. cbn [negb].
  unfold V2_MAX_ADDR_LEN. rewrite (proj2 (Z.ltb_ge 512 _)) by lia.
  rewrite (proj2 (Z.ltb_ge (blen bytes) _)) by (pose proof (blen_nonneg stream); lia).
  assert (Hblock : take (Z.to_nat (blen block)) (drop 16 bytes) = block).
  { change bytes with (V2_SIG ++ [ver_cmd; fam] ++ be_bytes 2 (blen block) ++ (block ++ stream))%list.
    rewrite !app_assoc. rewrite <- (app_assoc _ block stream).
    rewrite drop_app_exact by (rewrite !length_app, be_bytes_length; done).
    unfold blen. rewrite Nat2Z.id. by apply take_app_exact. }
  rewrite Hblock. by destruct Hv as [->| ->].
Qed.

Lemma check_block_v4 fam s d sp dp tlvs n : fam = 0x11 -> List.length s = 4%nat -> List.length d = 4%nat -> is_u16 sp -> is_u16 dp ->
  check_v2_block fam (s ++ d ++ be_bytes 2 sp ++ be_bytes 2 dp ++ tlvs) n =
  Ok (Forwarded true (mkSocketAddr (IpAddr_V4 s) sp) (mkSocketAddr (IpAddr_V4 d) dp) n).
Proof.
  intros -> Hs Hd Hsp Hdp. set (block := (s ++ d ++ be_bytes 2 sp ++ be_bytes 2 dp ++ tlvs)%list).
  assert (Hlen : 12 <= blen block).
  { subst block. rewrite !blen_app, !blen_be. unfold blen at 1 2. rewrite Hs, Hd. pose proof (blen_nonneg tlvs). lia. }
  unfold check_v2_block. cbn [Z.land Z.shiftr Z.shiftl Z.eqb Pos.eqb Pos.land orb Z.opp Z.div2 Pos.iter].
  change (Z.land 17 15) with 1. change (Z.shiftr 17 4) with 1. cbn [Z.eqb Pos.eqb orb negb].
  rewrite (proj2 (Z.ltb_ge _ _)) by lia. do 2 f_equal; f_equal.
  - subst block. by rewrite take_app_exact.
  - subst block. rewrite app_assoc. apply be16_at; [rewrite length_app; lia|done].
  - subst block. rewrite drop_app_exact by done. by rewrite take_app_exact.
  - subst block. rewrite !app_assoc, <- app_assoc. apply be16_at; [rewrite !length_app, be_bytes_length; lia|done].
Qed.

Lemma check_block_v6 fam s d sp dp tlvs n : fam = 0x21 -> ip_ok (IpAddr_V6 s) -> ip_ok (IpAddr_V6 d) -> is_u16 sp -> is_u16 dp ->
  check_v2_block fam (v6_octets s ++ v6_octets d ++ be_bytes 2 sp ++ be_bytes 2 dp ++ tlvs) n =
  Ok (Forwarded true (mkSocketAddr (IpAddr_V6 s) sp) (mkSocketAddr (IpAddr_V6 d) dp) n).
Proof.
  intros -> [Hs Hsf] [Hd Hdf] Hsp Hdp. set (block := (v6_octets s ++ v6_octets d ++ be_bytes 2 sp ++ be_bytes 2 dp ++ tlvs)%list).
  assert (Ls : List.length (v6_octets s) = 16%nat) by (rewrite v6_octets_length; lia).
  assert (Ld : List.length (v6_octets d) = 16%nat) by (rewrite v6_octets_length; lia).
  assert (Hlen : 36 <= blen block).
  { subst block. rewrite !blen_app, !blen_be. unfold blen at 1 2. rewrite Ls, Ld. pose proof (blen_nonneg tlvs). lia. }
  unfold check_v2_block. change (Z.land 33 15) with 1. change (Z.shiftr 33 4) with 2. cbn [Z.eqb Pos.eqb orb negb].
  rewrite (proj2 (Z.ltb_ge _ _)) by lia. do 2 f_equal; f_equal.
  - subst block. by rewrite take_app_exact, segments_octets.
  - subst block. rewrite app_assoc. apply be16_at; [rewrite length_app; lia|done].
  - subst block. rewrite drop_app_exact by done. by rewrite take_app_exact, segments_octets.
  - subst block. rewrite !app_assoc, <- app_assoc. apply be16_at; [rewrite !length_app, be_bytes_length; lia|done].
Qed.

(** What a header of the plan says, [n] bytes long. *)
Definition as_planned (p : HeaderPlan) (local remote : option SocketAddr) (n : Z) (h : StreamHeader) : Prop :=
  let v2 := if hp_version p is ProxyHeaderVersion_V2 then true else false in
  match hp_command p, hp_family p with
  | ProxyCommand_Proxy, ProxyAddressFamily_Auto =>
      exists s d src dst, h = Forwarded v2 s d n /\
        (if hp_source p is Some a then Some a else local) = Some src /\
        (if hp_destination p is Some a then Some a else remote) = Some dst /\
        canonical s = canonical src /\ canonical d = canonical dst
  | command, _ => h = NoAddress v2 (if command is ProxyCommand_Local then true else false) n
  end.

Lemma pick_Ok configured socket which a o : pick configured socket which = Ok (a, o) ->
  (if configured is Some x then Some x else socket) = Some a.
Proof. unfold pick. by destruct configured, socket; intros [= <- _]. Qed.

Lemma pick_ok configured socket which a o : socket_ok configured -> socket_ok socket ->
  pick configured socket which = Ok (a, o) -> addr_ok a.
Proof. unfold pick. by destruct configured, socket; intros ? ? [= <- _]. Qed.

Lemma canonical_idem a : canonical (canonical a) = canonical a.
Proof.
  unfold canonical. f_equal. cbn [sa_ip]. destruct (sa_ip a) as [o|s]; [done|]. cbn [canonical_ip].
  destruct (to_ipv4_mapped s) eqn:E; [done|]. cbn [canonical_ip]. by rewrite E.
Qed.

(** The address a v2 block of the other family carries folds back. *)
Lemma canonical_fold a : ip_ok (sa_ip a) ->
  canonical (mkSocketAddr (IpAddr_V6 (to_v6 (sa_ip (canonical a)))) (sa_port (canonical a))) = canonical a.
Proof. intros Ha. unfold canonical. cbn [sa_ip sa_port]. by rewrite canonical_to_v6. Qed.

(** The addresses planned, canonical: where they come from, and that they are
    addresses. *)
Lemma picked p local remote src so dst dor : plan_ok p -> socket_ok local -> socket_ok remote ->
  pick (hp_source p) local "source" = Ok (src, so) -> pick (hp_destination p) remote "destination" = Ok (dst, dor) ->
  addr_ok src /\ addr_ok dst /\ addr_ok (canonical src) /\ addr_ok (canonical dst) /\
  (if hp_source p is Some a then Some a else local) = Some src /\
  (if hp_destination p is Some a then Some a else remote) = Some dst.
Proof.
  intros [Hs Hd] Hl Hr Es Ed. pose proof (pick_ok _ _ _ _ _ Hs Hl Es) as Hsrc. pose proof (pick_ok _ _ _ _ _ Hd Hr Ed) as Hdst.
  split; [done|]. split; [done|]. split; [by apply canonical_ok|]. split; [by apply canonical_ok|].
  split; [by eapply pick_Ok|by eapply pick_Ok].
Qed.

(** The fixed part of a v2 block reads as planned, with any TLVs after it. *)
Lemma v2_fixed_reads p local remote o0 vc fam fixed o tlvs n : hp_version p = ProxyHeaderVersion_V2 ->
  plan_ok p -> socket_ok local -> socket_ok remote -> v2_fixed p local remote o0 = Ok (vc, fam, fixed, o) ->
  (vc = 0x20 \/ vc = 0x21) /\
  exists h, (if (vc =? 0x20)%Z then Ok (NoAddress true true n) else check_v2_block fam (fixed ++ tlvs) n) = Ok h /\
    as_planned p local remote n h.
Proof.
  intros Hver Hp Hl Hr Ef. unfold as_planned. rewrite Hver. cbn zeta iota. unfold v2_fixed in Ef.
  destruct (hp_command p); [|apply Ok_inj in Ef; simplify_eq; (split; [auto|by eexists])].
  destruct (hp_family p); [|apply Ok_inj in Ef; simplify_eq; (split; [auto|by eexists])].
  destruct (pick (hp_source p) local "source") as [[src so]|] eqn:Es; [|done]. cbn [result_bind] in Ef.
  destruct (pick (hp_destination p) remote "destination") as [[dst dor]|] eqn:Ed; [|done]. cbn [result_bind] in Ef.
  destruct (picked p local remote src so dst dor Hp Hl Hr Es Ed) as ([Ia _] & [Ib _] & [Is Ps] & [Id Pd] & Hsrc & Hdst).
  assert (Hv6 : vc = 0x21 -> fam = 0x21 ->
    fixed = (v6_octets (to_v6 (sa_ip (canonical src))) ++ v6_octets (to_v6 (sa_ip (canonical dst))) ++
             be_bytes 2 (sa_port (canonical src)) ++ be_bytes 2 (sa_port (canonical dst)))%list ->
    (vc = 0x20 \/ vc = 0x21) /\
    exists h, (if (vc =? 0x20)%Z then Ok (NoAddress true true n) else check_v2_block fam (fixed ++ tlvs) n) = Ok h /\
      exists s d src0 dst0, h = Forwarded true s d n /\ (if hp_source p is Some a then Some a else local) = Some src0 /\
        (if hp_destination p is Some a then Some a else remote) = Some dst0 /\ canonical s = canonical src0 /\ canonical d = canonical dst0).
  { intros -> -> ->. split; [by right|]. cbn [Z.eqb Pos.eqb]. rewrite <- !app_assoc.
    rewrite check_block_v6; [|done|by apply to_v6_ok|by apply to_v6_ok|done|done]. eexists. split; [done|].
    eexists _, _, src, dst. split; [done|]. split; [done|]. split; [done|].
    split; apply canonical_fold; done. }
  destruct (sa_ip (canonical src)) as [s4|s6] eqn:Esrc; [destruct (sa_ip (canonical dst)) as [d4|d6] eqn:Edst|];
    apply Ok_inj in Ef; [clear Hv6|apply Hv6; by simplify_eq..].
  simplify_eq. split; [by right|]. cbn [Z.eqb Pos.eqb]. rewrite <- !app_assoc. destruct Is as [Ls _], Id as [Ld _].
  rewrite check_block_v4 by done. eexists. split; [done|].
  exists (canonical src), (canonical dst), src, dst. rewrite !canonical_idem. split; [|done].
  by rewrite <- Esrc, <- Edst; destruct (canonical src), (canonical dst).
Qed.

Lemma build_v2_reads p local remote redact b stream : hp_version p = ProxyHeaderVersion_V2 ->
  plan_ok p -> socket_ok local -> socket_ok remote -> build_v2 str_debug p local remote redact = Ok b ->
  blen (bh_bytes b) <= 16 + V2_MAX_ADDR_LEN ->
  exists h, check_stream_header str_debug (bh_bytes b ++ stream) = Ok h /\ as_planned p local remote (blen (bh_bytes b)) h.
Proof.
  intros Hver Hp Hl Hr Hb Hlen. unfold build_v2 in Hb.
  destruct (v2_fixed p local remote _) as [[[[vc fam] fixed] o]|] eqn:Ef; [|done]. cbn [result_bind] in Hb.
  destruct (v2_tlvs str_debug (hp_tlvs p)) as [[tlvs sums]|]; [|done]. cbn [result_bind] in Hb.
  destruct (U16_MAX <? _)%Z; [done|]. destruct (scrub _ redact) as [hex red]. apply Ok_inj in Hb as <-. cbn [bh_bytes] in *.
  rewrite <- blen_app in Hlen |- *. set (block := (fixed ++ tlvs)%list) in *.
  assert (Htotal : blen (V2_SIG ++ [vc; fam] ++ be_bytes 2 (blen block) ++ block) = 16 + blen block).
  { rewrite (blen_app V2_SIG), (blen_app [vc; fam]), blen_app, blen_be. unfold V2_SIG, blen at 1 2. cbn [List.length]. lia. }
  rewrite Htotal in Hlen |- *.
  destruct (v2_fixed_reads p local remote _ vc fam fixed o tlvs (16 + blen block) Hver Hp Hl Hr Ef) as (Hv & h & Hh & Has).
  exists h. split; [|done]. rewrite <- Hh. fold block.
  replace ((V2_SIG ++ [vc; fam] ++ be_bytes 2 (blen block) ++ block) ++ stream)%list
    with (V2_SIG ++ [vc; fam] ++ be_bytes 2 (blen block) ++ block ++ stream)%list
    by (rewrite <- !(app_assoc _ _ stream); done).
  apply check_v2_bytes; [lia|done].
Qed.

Lemma build_v1_reads p local remote redact b stream : hp_version p = ProxyHeaderVersion_V1 ->
  plan_ok p -> socket_ok local -> socket_ok remote -> build_v1 p local remote redact = Ok b ->
  exists h, check_stream_header str_debug (bh_bytes b ++ stream) = Ok h /\ as_planned p local remote (blen (bh_bytes b)) h.
Proof.
  intros Hver Hp Hl Hr Hb. unfold build_v1 in Hb. unfold as_planned. rewrite Hver. cbn zeta iota. destruct (hp_command p); [|done].
  destruct (v1_line p local remote _) as [[line o]|] eqn:El; [|done]. cbn [result_bind] in Hb.
  destruct (Z.ltb_spec V1_MAX_LINE (str_len line)) as [|Hlen]; [done|]. destruct (scrub _ redact) as [hex red].
  apply Ok_inj in Hb as <-. cbn [bh_bytes]. rewrite <- app_assoc.
  assert (Hn : blen (bytes_of_string line ++ CRLF) = str_len line + 2) by (by rewrite blen_app, bytes_of_string_length).
  rewrite Hn. unfold v1_line in El. destruct (hp_family p).
  - destruct (pick (hp_source p) local "source") as [[src so]|] eqn:Es; [|done]. cbn [result_bind] in El.
    destruct (pick (hp_destination p) remote "destination") as [[dst dor]|] eqn:Ed; [|done]. cbn [result_bind] in El.
    destruct (picked p local remote src so dst dor Hp Hl Hr Es Ed) as ([Ia _] & [Ib _] & [Is Ps] & [Id Pd] & Hsrc & Hdst).
    assert (Hread : forall proto, proto = "TCP4" \/ proto = "TCP6" ->
      is_ipv4 (sa_ip (canonical src)) = String.eqb proto "TCP4" -> is_ipv4 (sa_ip (canonical dst)) = String.eqb proto "TCP4" ->
      line = "PROXY " ++ proto ++ " " ++ ip_text (sa_ip (canonical src)) ++ " " ++ ip_text (sa_ip (canonical dst)) ++ " " ++
             dec (sa_port (canonical src)) ++ " " ++ dec (sa_port (canonical dst)) ->
      exists h, check_stream_header str_debug (bytes_of_string line ++ CRLF ++ stream) = Ok h /\
        exists s d src0 dst0, h = Forwarded false s d (str_len line + 2) /\
          (if hp_source p is Some a then Some a else local) = Some src0 /\
          (if hp_destination p is Some a then Some a else remote) = Some dst0 /\ canonical s = canonical src0 /\ canonical d = canonical dst0).
    { intros proto Hpr H4s H4d Hline.
      destruct (ip_text_plain _ Is) as [P1 _], (ip_text_plain _ Id) as [P2 _].
      destruct (dec_u16 _ Ps) as (P3 & _), (dec_u16 _ Pd) as (P4 & _).
      rewrite check_v1_bytes; [|subst line; repeat apply line_ok_app; try (by apply plain_line); try (by repeat constructor);
        by destruct Hpr as [->| ->]; repeat constructor|done|by subst line; destruct Hpr as [->| ->]].
      rewrite Hline, v1_pair_reads by done. eexists. split; [done|].
      exists (canonical src), (canonical dst), src, dst. rewrite !canonical_idem. split; [|done].
      by destruct (canonical src), (canonical dst). }
    destruct (sa_ip (canonical src)) as [s4|s6] eqn:Esrc, (sa_ip (canonical dst)) as [d4|d6] eqn:Edst; try done;
      cbn [result_bind] in El; injection El as <- _; [apply (Hread "TCP4")|apply (Hread "TCP6")]; auto.
  - injection El as <- _. rewrite check_v1_bytes; [|by repeat constructor|done|done]. by eexists.
Qed.

(** A v1 line always fits: only a LOCAL command, an unknown socket address
    and a mixed pair are refused. *)
Lemma v1_line_fits p local remote o line o' : plan_ok p -> socket_ok local -> socket_ok remote ->
  v1_line p local remote o = Ok (line, o') -> str_len line <= V1_MAX_LINE.
Proof.
  intros Hp Hl Hr. unfold v1_line. destruct (hp_family p); [|by intros [= <- _]].
  destruct (pick (hp_source p) local "source") as [[src so]|] eqn:Es; [|done]. cbn [result_bind].
  destruct (pick (hp_destination p) remote "destination") as [[dst dor]|] eqn:Ed; [|done]. cbn [result_bind].
  destruct (picked p local remote src so dst dor Hp Hl Hr Es Ed) as (_ & _ & [Is Ps] & [Id Pd] & _).
  destruct (ip_text_plain _ Is) as [_ L1], (ip_text_plain _ Id) as [_ L2].
  destruct (dec_u16 _ Ps) as (_ & L3 & _), (dec_u16 _ Pd) as (_ & L4 & _).
  assert (Hlen : forall proto, String.length proto = 4%nat ->
    str_len ("PROXY " ++ proto ++ " " ++ ip_text (sa_ip (canonical src)) ++ " " ++ ip_text (sa_ip (canonical dst)) ++ " " ++
             dec (sa_port (canonical src)) ++ " " ++ dec (sa_port (canonical dst))) <= V1_MAX_LINE).
  { intros proto Hpr. rewrite !str_len_app. unfold str_len, V1_MAX_LINE. rewrite Hpr.
    change (String.length "PROXY ") with 6%nat. change (String.length " ") with 1%nat. lia. }
  destruct (sa_ip (canonical src)) as [s4|s6], (sa_ip (canonical dst)) as [d4|d6]; try done; cbn [result_bind]; intros [= <- _];
    by apply Hlen.
Qed.
End ReadBack2.

(** ** The datagram envelope *)

Definition form_ok (f : EnvelopeForm) : Prop :=
  match f with EnvelopeForm_Forwarded s d => addr_ok s /\ addr_ok d | _ => True end.

Record freshness_ok (f : Freshness) : Prop := mkFreshnessOk {
  ok_sender : in_width 32 (fr_sender_id f);
  ok_epoch : in_width 64 (fr_epoch f);
  ok_sequence : in_width 64 (fr_sequence f);
  ok_timestamp : in_width 64 (fr_timestamp_ms f)
}.

Record binding_ok (b : ListenerBinding) : Prop := mkBindingOk {
  ok_bind_addr : ip_ok (lb_bind_addr b);
  ok_bind_port : is_u16 (lb_port b)
}.

Record key_ok (k : EnvelopeKey) : Prop := mkKeyOk {
  ok_binding : binding_ok (ek_binding k);
  ok_freshness : freshness_ok (ek_freshness k)
}.

(** The form a receiver sees: the addresses folded. *)
Definition canonical_form (f : EnvelopeForm) : EnvelopeForm :=
  match f with EnvelopeForm_Forwarded s d => EnvelopeForm_Forwarded (canonical s) (canonical d) | _ => f end.

(** The bytes before the tag. *)
Definition before_tag (form : EnvelopeForm) (f : Freshness) : list Z :=
  let '(ver_cmd, fam, fixed) := envelope_fixed form in
  (V2_SIG ++ [ver_cmd; fam] ++
   be_bytes 2 (Z.of_nat (List.length fixed + (3 + FRESHNESS_VALUE_LEN + 3 + AUTH_TAG_LEN))%nat mod 2 ^ 16) ++ fixed ++
   [FRESHNESS_TLV_TYPE] ++ be_bytes 2 (Z.of_nat FRESHNESS_VALUE_LEN) ++ encode_value f ++
   [AUTH_TLV_TYPE] ++ be_bytes 2 (Z.of_nat AUTH_TAG_LEN))%list.

(** What the tag is computed over. *)
Definition authenticated_text (k : EnvelopeKey) (form : EnvelopeForm) (payload : list Z) : list Z :=
  (canonical_domain (ek_binding k) ++ before_tag form (ek_freshness k) ++ payload)%list.

Lemma encode_authenticated hmac form payload k :
  let tag := hmac (ek_secret k) (authenticated_text k form payload) in
  encode_datagram hmac form payload (Some k) =
  ((before_tag form (ek_freshness k) ++ tag ++ payload)%list, Some (List.length (before_tag form (ek_freshness k)))).
Proof.
  intros tag. subst tag. unfold encode_datagram, authenticated_text.
  destruct (envelope_fixed form) as [[vc fam] fixed] eqn:E.
  set (pre := (((V2_SIG ++ [vc; fam] ++ be_bytes 2 _ ++ fixed) ++ [FRESHNESS_TLV_TYPE] ++ be_bytes 2 _ ++ _ ++ _))%list).
  assert (Hpre : before_tag form (ek_freshness k) = pre).
  { unfold before_tag. rewrite E. subst pre. by rewrite <- !app_assoc. }
  rewrite Hpre. clearbody pre. cbv zeta. rewrite take_app_exact by done.
  assert (Hd : drop (List.length pre + AUTH_TAG_LEN) (pre ++ replicate AUTH_TAG_LEN 0 ++ payload) = payload).
  { rewrite app_assoc. apply drop_app_exact. by rewrite length_app, length_replicate. }
  by rewrite Hd.
Qed.

Lemma v6_octets_inj s1 s2 : ip_ok (IpAddr_V6 s1) -> ip_ok (IpAddr_V6 s2) -> v6_octets s1 = v6_octets s2 -> s1 = s2.
Proof. intros [_ H1] [_ H2] H. by rewrite <- (segments_octets s1 H1), <- (segments_octets s2 H2), H. Qed.

Lemma be_bytes_inj n a b : in_width (8 * Z.of_nat n) a -> in_width (8 * Z.of_nat n) b -> be_bytes n a = be_bytes n b -> a = b.
Proof. intros Ha Hb H. by rewrite <- (be_value_bytes n a Ha), <- (be_value_bytes n b Hb), H. Qed.

(** The listener's bytes are read back off the front of any text. *)
Lemma canonical_domain_inj b1 b2 r1 r2 : binding_ok b1 -> binding_ok b2 ->
  (canonical_domain b1 ++ r1 = canonical_domain b2 ++ r2)%list -> b1 = b2 /\ r1 = r2.
Proof.
  intros [I1 P1] [I2 P2]. unfold canonical_domain. rewrite <- !app_assoc.
  intros H%app_inv_head. injection H as Hp H. destruct b1 as [pr1 a1 p1], b2 as [pr2 a2 p2]; cbn [lb_protocol lb_bind_addr lb_port] in *.
  assert (pr1 = pr2) as <- by (by destruct pr1, pr2). clear Hp.
  destruct a1 as [a1|a1], a2 as [a2|a2]; cbn [app] in H; injection H as H; try done.
  - destruct I1 as [L1 _], I2 as [L2 _]. apply app_inj_1 in H as [<- H]; [|by rewrite L1, L2].
    apply app_inj_1 in H as [H ->]; [|by rewrite !be_bytes_length]. apply be_bytes_inj in H as ->; done.
  - apply app_inj_1 in H as [E H]; [|rewrite !v6_octets_length; destruct I1 as [L1 _], I2 as [L2 _]; lia].
    apply v6_octets_inj in E as ->; [|done..]. apply app_inj_1 in H as [H ->]; [|by rewrite !be_bytes_length].
    apply be_bytes_inj in H as ->; done.
Qed.

Lemma envelope_fixed_length form : form_ok form ->
  List.length (envelope_fixed form).2 = match (envelope_fixed form).1.2 with 0x12 => 12%nat | 0x22 => 36%nat | _ => 0%nat end.
Proof.
  destruct form as [| |s d]; [done..|]. intros [Hs Hd]. unfold envelope_fixed.
  destruct (canonical_ok s Hs) as [Is _], (canonical_ok d Hd) as [Id _]. pose proof (to_v6_ok _ Is) as [L1 _]. pose proof (to_v6_ok _ Id) as [L2 _].
  destruct (sa_ip (canonical s)) as [o1|s1], (sa_ip (canonical d)) as [o2|s2]; cbn [fst snd to_v6] in *;
    rewrite !length_app, ?v6_octets_length, !be_bytes_length; try lia.
  destruct Is as [-> _], Id as [-> _]. done.
Qed.

Lemma canonical_eq s1 s2 : addr_ok s1 -> addr_ok s2 -> to_v6 (sa_ip (canonical s1)) = to_v6 (sa_ip (canonical s2)) ->
  sa_port (canonical s1) = sa_port (canonical s2) -> canonical s1 = canonical s2.
Proof. intros [H1 _] [H2 _] E P. by rewrite <- (canonical_fold s1 H1), <- (canonical_fold s2 H2), E, P. Qed.

(** The addresses a mixed or v6 envelope carries are read back. *)
Lemma v6_block_inj s1 d1 s2 d2 : addr_ok s1 -> addr_ok d1 -> addr_ok s2 -> addr_ok d2 ->
  let block s d := (v6_octets (to_v6 (sa_ip (canonical s))) ++ v6_octets (to_v6 (sa_ip (canonical d))) ++
                    be_bytes 2 (sa_port (canonical s)) ++ be_bytes 2 (sa_port (canonical d)))%list in
  block s1 d1 = block s2 d2 -> canonical s1 = canonical s2 /\ canonical d1 = canonical d2.
Proof.
  intros Hs1 Hd1 Hs2 Hd2 block H. subst block. cbv beta in H.
  pose proof (canonical_ok _ Hs1) as [I1 P1]. pose proof (canonical_ok _ Hd1) as [J1 Q1].
  pose proof (canonical_ok _ Hs2) as [I2 P2]. pose proof (canonical_ok _ Hd2) as [J2 Q2].
  pose proof (to_v6_ok _ I1) as T1. pose proof (to_v6_ok _ J1) as U1. pose proof (to_v6_ok _ I2) as T2. pose proof (to_v6_ok _ J2) as U2.
  assert (Hlen : forall a, ip_ok (IpAddr_V6 a) -> List.length (v6_octets a) = 16%nat) by (intros a [L _]; rewrite v6_octets_length; lia).
  apply app_inj_1 in H as [E1 H]; [|by rewrite !Hlen]. apply app_inj_1 in H as [E2 H]; [|by rewrite !Hlen].
  apply app_inj_1 in H as [E3 E4]; [|by rewrite !be_bytes_length].
  apply v6_octets_inj in E1; [|done..]. apply v6_octets_inj in E2; [|done..].
  apply be_bytes_inj in E3; [|done..]. apply be_bytes_inj in E4; [|done..].
  split; by apply canonical_eq.
Qed.

Lemma v4_block_inj s1 d1 s2 d2 a1 b1 a2 b2 : addr_ok s1 -> addr_ok d1 -> addr_ok s2 -> addr_ok d2 ->
  sa_ip (canonical s1) = IpAddr_V4 a1 -> sa_ip (canonical d1) = IpAddr_V4 b1 ->
  sa_ip (canonical s2) = IpAddr_V4 a2 -> sa_ip (canonical d2) = IpAddr_V4 b2 ->
  (a1 ++ b1 ++ be_bytes 2 (sa_port (canonical s1)) ++ be_bytes 2 (sa_port (canonical d1)) =
   a2 ++ b2 ++ be_bytes 2 (sa_port (canonical s2)) ++ be_bytes 2 (sa_port (canonical d2)))%list ->
  canonical s1 = canonical s2 /\ canonical d1 = canonical d2.
Proof.
  intros Hs1 Hd1 Hs2 Hd2 A1 B1 A2 B2 H.
  pose proof (canonical_ok _ Hs1) as [I1 P1]. pose proof (canonical_ok _ Hd1) as [J1 Q1].
  pose proof (canonical_ok _ Hs2) as [I2 P2]. pose proof (canonical_ok _ Hd2) as [J2 Q2].
  rewrite A1 in I1. rewrite B1 in J1. rewrite A2 in I2. rewrite B2 in J2.
  destruct I1 as [La1 _], J1 as [Lb1 _], I2 as [La2 _], J2 as [Lb2 _].
  apply app_inj_1 in H as [E1 H]; [|by rewrite La1]. apply app_inj_1 in H as [E2 H]; [|by rewrite Lb1].
  apply app_inj_1 in H as [E3 E4]; [|by rewrite !be_bytes_length].
  apply be_bytes_inj in E3; [|done..]. apply be_bytes_inj in E4; [|done..].
  split; apply canonical_eq; try done; by rewrite ?A1, ?A2, ?B1, ?B2, ?E1, ?E2.
Qed.

Lemma envelope_fixed_inj f1 f2 : form_ok f1 -> form_ok f2 -> envelope_fixed f1 = envelope_fixed f2 -> canonical_form f1 = canonical_form f2.
Proof.
  destruct f1 as [| |s1 d1], f2 as [| |s2 d2]; intros H1 H2 H; try done; unfold envelope_fixed in H;
    try (by destruct (sa_ip (canonical s1)), (sa_ip (canonical d1))); try (by destruct (sa_ip (canonical s2)), (sa_ip (canonical d2))).
  destruct H1 as [Hs1 Hd1], H2 as [Hs2 Hd2]. cbn [canonical_form].
  cut (canonical s1 = canonical s2 /\ canonical d1 = canonical d2); [by intros [-> ->]|].
  destruct (sa_ip (canonical s1)) eqn:E1, (sa_ip (canonical d1)) eqn:E2, (sa_ip (canonical s2)) eqn:E3, (sa_ip (canonical d2)) eqn:E4;
    try (discriminate H); apply (f_equal snd) in H; cbn [snd] in H.
  1: by eapply v4_block_inj.
  all: apply v6_block_inj; try done; by rewrite ?E1, ?E2, ?E3, ?E4.
Qed.

Lemma encode_value_inj f1 f2 : freshness_ok f1 -> freshness_ok f2 -> encode_value f1 = encode_value f2 -> f1 = f2.
Proof.
  intros [A1 B1 C1 D1] [A2 B2 C2 D2] H. unfold encode_value in H. destruct f1 as [a1 b1 c1 d1], f2 as [a2 b2 c2 d2]. cbn [fr_sender_id fr_epoch fr_sequence fr_timestamp_ms] in *.
  apply app_inv_head in H. apply app_inj_1 in H as [->%be_bytes_inj H]; [|by rewrite ?be_bytes_length..|done|done].
  apply app_inj_1 in H as [->%be_bytes_inj H]; [|by rewrite ?be_bytes_length..|done|done].
  apply app_inj_1 in H as [->%be_bytes_inj ->%be_bytes_inj]; done.
Qed.

Lemma before_tag_inj f1 f2 v1 v2 r1 r2 : form_ok f1 -> form_ok f2 -> freshness_ok v1 -> freshness_ok v2 ->
  (before_tag f1 v1 ++ r1 = before_tag f2 v2 ++ r2)%list ->
  canonical_form f1 = canonical_form f2 /\ v1 = v2 /\ r1 = r2.
Proof.
  intros H1 H2 Hv1 Hv2 H. pose proof (envelope_fixed_length f1 H1) as L1. pose proof (envelope_fixed_length f2 H2) as L2.
  pose proof (envelope_fixed_inj f1 f2 H1 H2) as Hinj. unfold before_tag in H.
  destruct (envelope_fixed f1) as [[vc1 fam1] x1], (envelope_fixed f2) as [[vc2 fam2] x2]. cbn [fst snd] in L1, L2.
  rewrite <- !app_assoc in H. apply app_inv_head in H. apply app_inj_1 in H as [[= -> ->] H]; [|done].
  apply app_inj_1 in H as [_ H]; [|by rewrite !be_bytes_length]. apply app_inj_1 in H as [-> H]; [|by rewrite L1, L2].
  do 2 apply app_inv_head in H.
  apply app_inj_1 in H as [Hv H]; [|unfold encode_value; by rewrite !length_app, !be_bytes_length].
  apply encode_value_inj in Hv as ->; [|done..].
  do 2 apply app_inv_head in H. split; [by apply Hinj|done].
Qed.

(** The sequence number of the [k]-th datagram of a session. *)
Definition nth_key (m : Minting) (k : nat) (now : Z) : EnvelopeKey :=
  mkEnvelopeKey (mi_secret m) (mi_binding m)
    (mkFreshness (mi_sender_id m) (mi_epoch m) (Z.min U64_MAX (mi_next_sequence m + Z.of_nat k))
       (saturating_add_signed now (mi_timestamp_offset_ms m))).

(** What a minting envelope of one datagram is, and the state after it. *)
Lemma wrap_minting hmac now e payload m : en_minting e = Some m ->
  exists o, wrap hmac now e payload =
    ((encode_datagram hmac (en_form e) payload (Some (mkEnvelopeKey (mi_secret m) (mi_binding m)
        (mkFreshness (mi_sender_id m) (mi_epoch m) (mi_next_sequence m) (saturating_add_signed now (mi_timestamp_offset_ms m)))))).1,
     mkEnveloper (en_form e) (Some (mkMinting (mi_secret m) (mi_binding m) (mi_sender_id m) (mi_epoch m)
        (sat_add64 (mi_next_sequence m) 1) (mi_timestamp_offset_ms m))) o (en_redact e)) /\
    pho_datagrams o = add64 (pho_datagrams (en_observation e)) 1 /\ pho_last_sequence o = Some (mi_next_sequence m) /\
    (pho_problem o = pho_problem (en_observation e) \/ mi_next_sequence m = U64_MAX).
Proof.
  intros Hm. unfold wrap, mint. rewrite Hm.
  destruct (encode_datagram hmac (en_form e) payload _) as [d at_]. cbv zeta. eexists. split; [reflexivity|]. clear.
  destruct (pho_datagrams (en_observation e) =? 0)%Z; cbn [fr_sequence];
    (destruct (Z.eqb_spec (mi_next_sequence m) U64_MAX); [split; [done|]; split; [done|]; by right|split; [done|]; split; [done|]; by left]).
Qed.

Lemma wrap_all_steps hmac sends e m : en_minting e = Some m -> in_width 64 (mi_next_sequence m) ->
  0 <= pho_datagrams (en_observation e) -> pho_datagrams (en_observation e) + Z.of_nat (List.length sends) < 2 ^ 64 ->
  let '(ds, e') := wrap_all hmac e sends in
  List.length ds = List.length sends /\
  (forall k now payload, sends !! k = Some (now, payload) ->
     ds !! k = Some (encode_datagram hmac (en_form e) payload (Some (nth_key m k now))).1) /\
  pho_datagrams (en_observation e') = pho_datagrams (en_observation e) + Z.of_nat (List.length sends) /\
  (sends <> [] -> pho_last_sequence (en_observation e') =
     Some (Z.min U64_MAX (mi_next_sequence m + Z.of_nat (List.length sends) - 1))).
Proof.
  revert e m. induction sends as [|[now payload] sends IH]; intros e m Hm Hseq Hn Hsum; cbn [wrap_all].
  { split; [done|]. split; [done|]. split; [cbn; lia|done]. }
  destruct (wrap_minting hmac now e payload m Hm) as (o & -> & Hd & Hl & _).
  set (m' := mkMinting _ _ _ _ _ _). set (e1 := mkEnveloper _ _ o _). cbn [List.length] in Hsum.
  assert (Hd1 : pho_datagrams o = pho_datagrams (en_observation e) + 1) by (rewrite Hd; apply add64_small; lia).
  assert (Hnext : mi_next_sequence m' = Z.min U64_MAX (mi_next_sequence m + 1)) by done.
  specialize (IH e1 m' eq_refl). destruct (wrap_all hmac e1 sends) as [ds e'] eqn:Ew.
  destruct IH as (HL & Hds & Hcount & Hlast).
  { rewrite Hnext. unfold in_width, U64_MAX in *. lia. } { cbn [e1 en_observation]. lia. } { cbn [e1 en_observation]. lia. }
  cbn [e1 en_observation] in Hcount. split; [cbn; by rewrite HL|]. split.
  - intros [|k] now' payload' Hk; cbn in Hk.
    + injection Hk as -> ->. cbn [lookup list_lookup]. do 2 f_equal. unfold nth_key. do 5 f_equal.
      unfold in_width, U64_MAX in *. lia.
    + change ((_ :: ds) !! S k) with (ds !! k). rewrite (Hds _ _ _ Hk). unfold nth_key. rewrite Hnext. cbn [e1 en_form m' mi_secret mi_binding mi_sender_id mi_epoch mi_timestamp_offset_ms].
      do 6 f_equal. unfold in_width, U64_MAX in *. lia.
  - split; [cbn [List.length]; lia|]. intros _. destruct sends as [|s sends].
    + injection Ew as <- <-. cbn [List.length]. cbn [e1 en_observation]. rewrite Hl. f_equal. unfold in_width, U64_MAX in *. lia.
    + rewrite Hlast by done. rewrite Hnext. cbn [List.length]. f_equal. unfold in_width, U64_MAX in *. lia.
Qed.

(** ** What the evidence of an envelope is made of *)

(** The same envelope minting under another key. *)
Definition rekey (secret : list Z) (e : Enveloper) : Enveloper :=
  mkEnveloper (en_form e)
    ((fun m => mkMinting secret (mi_binding m) (mi_sender_id m) (mi_epoch m) (mi_next_sequence m) (mi_timestamp_offset_ms m)) <$> en_minting e)
    (en_observation e) (en_redact e).

Lemma wrap_rekey h1 h2 secret now e payload : (forall k t, List.length (h1 k t) = AUTH_TAG_LEN) -> (forall k t, List.length (h2 k t) = AUTH_TAG_LEN) ->
  (wrap h2 now (rekey secret e) payload).2 = rekey secret (wrap h1 now e payload).2.
Proof.
  intros H1 H2. unfold wrap, mint, rekey. destruct (en_minting e) as [m|] eqn:Em; cbn [fmap option_fmap option_map en_minting en_form].
  2: { unfold encode_datagram. destruct (envelope_fixed (en_form e)) as [[vc fam] fixed]. cbn [fst snd en_observation en_form en_minting]. by destruct (pho_datagrams _ =? 0)%Z. }
  rewrite !encode_authenticated. cbv zeta iota. cbn [ek_secret ek_freshness mi_secret mi_binding mi_sender_id mi_epoch mi_next_sequence mi_timestamp_offset_ms fst snd en_observation en_form en_redact en_minting].
  set (pre := before_tag _ _). rewrite !take_app_exact by done. rewrite !length_app, H1, H2. done.
Qed.

Lemma wrap_all_rekey h1 h2 secret sends e : (forall k t, List.length (h1 k t) = AUTH_TAG_LEN) -> (forall k t, List.length (h2 k t) = AUTH_TAG_LEN) ->
  (wrap_all h2 (rekey secret e) sends).2 = rekey secret (wrap_all h1 e sends).2.
Proof.
  intros H1 H2. revert e. induction sends as [|[now payload] sends IH]; intros e; [done|]. cbn [wrap_all].
  pose proof (wrap_rekey h1 h2 secret now e payload H1 H2) as Hw.
  destruct (wrap h2 now (rekey secret e) payload) as [d2 e2], (wrap h1 now e payload) as [d1 e1]. cbn [snd] in Hw. subst e2.
  specialize (IH e1). destruct (wrap_all h2 (rekey secret e1) sends), (wrap_all h1 e1 sends). exact IH.
Qed.

Lemma be16_app a b i : (i + 2 <= List.length a)%nat -> be16 (a ++ b) i = be16 a i.
Proof. intros H. unfold be16. rewrite drop_app_le by lia. rewrite take_app_le; [done|]. rewrite length_drop. lia. Qed.

(** The length field counts the addresses, the freshness and the tag. *)
Lemma block_length form f : form_ok form -> be16 (before_tag form f) 14 + 16 = blen (before_tag form f) + Z.of_nat AUTH_TAG_LEN.
Proof.
  intros Hf. pose proof (envelope_fixed_length form Hf) as L. unfold before_tag.
  destruct (envelope_fixed form) as [[vc fam] fixed]. cbn [fst snd] in L.
  assert (Hlen : (List.length fixed <= 36)%nat) by (rewrite L; repeat case_match; lia).
  rewrite (app_assoc V2_SIG). rewrite be16_at; [|done|].
  2: { unfold in_width. apply Z.mod_pos_bound. lia. }
  rewrite Z.mod_small by (unfold FRESHNESS_VALUE_LEN, AUTH_TAG_LEN; lia).
  rewrite !blen_app, !blen_be. unfold encode_value. rewrite !blen_app, !blen_be.
  unfold blen, V2_SIG. cbn [List.length]. unfold FRESHNESS_VALUE_LEN, AUTH_TAG_LEN. lia.
Qed.

Lemma before_tag_head form f : (14 + 2 <= List.length (before_tag form f))%nat.
Proof.
  unfold before_tag. destruct (envelope_fixed form) as [[vc fam] fixed].
  rewrite (length_app V2_SIG), (length_app [vc; fam]), length_app, be_bytes_length. unfold V2_SIG. cbn [List.length]. lia.
Qed.

(** * Properties *)

(** C24: a v1 or v2 connection header read by the receiver's check, with the
    stream after it, says what was planned: the addresses given or the
    socket's, in either family (a v4 address in a v6 block folds back), or
    that there are none, and where the stream starts. A v2 header over the
    receiver's 512-byte cap is out, as it is marked at the sender. *)
Theorem header_reads_back str_debug hex_decode p local remote redact b stream :
  hp_version p <> ProxyHeaderVersion_Raw -> plan_ok p -> socket_ok local -> socket_ok remote ->
  build str_debug hex_decode p local remote redact = Ok b ->
  (hp_version p = ProxyHeaderVersion_V2 -> blen (bh_bytes b) <= 16 + V2_MAX_ADDR_LEN) ->
  exists h, check_stream_header str_debug (bh_bytes b ++ stream) = Ok h /\ as_planned p local remote (blen (bh_bytes b)) h.
Proof.
  intros Hraw Hp Hl Hr Hb Hlen. unfold build in Hb. destruct (hp_version p) eqn:Hv; [..|done].
  - destruct (build_v1 p local remote redact) as [b0|] eqn:E; [|done]. injection Hb as <-. cbn [bh_bytes]. by eapply (build_v1_reads str_debug).
  - destruct (build_v2 str_debug p local remote redact) as [b0|] eqn:E; [|done]. injection Hb as <-. cbn [bh_bytes].
    eapply build_v2_reads; try done. by apply Hlen.
Qed.

Definition sample_v4 : SocketAddr := mkSocketAddr (IpAddr_V4 [192; 0; 2; 7]) 54321.
Definition sample_v6 : SocketAddr := mkSocketAddr (IpAddr_V6 [0x2001; 0xdb8; 0; 0; 0; 0; 0; 1]) 443.
Definition sample_plan : HeaderPlan :=
  mkHeaderPlan ProxyHeaderVersion_V2 ProxyCommand_Proxy ProxyAddressFamily_Auto None (Some sample_v6) [(2, [104; 105])] [].
Definition sample_built (str_debug : string -> string) (hex_decode : string -> option (list Z)) : BuiltHeader :=
  match build str_debug hex_decode sample_plan (Some sample_v4) None None with
  | Ok b => b
  | Err _ => mkBuiltHeader [] (blank_observation ProxyHeaderFormat_V2)
  end.

Lemma header_reads_back_witness :
  exists h, check_stream_header (fun s => s) (bh_bytes (sample_built (fun s => s) (fun _ => None)) ++ [71; 69; 84]) = Ok h /\
    as_planned sample_plan (Some sample_v4) None (blen (bh_bytes (sample_built (fun s => s) (fun _ => None)))) h.
Proof.
  apply (header_reads_back (fun s => s) (fun _ => None) sample_plan (Some sample_v4) None None);
    [done|split; [exact I|]|..]; try (by vm_compute); split; unfold sample_v4, sample_v6, in_width; cbn; try lia;
    (split; [done|]); repeat constructor; unfold in_width; lia.
Defined.

(** C25: an authenticated datagram is the envelope up to the tag, the tag and
    the payload; the tag authenticates one listener, one form with its
    addresses, one freshness and one payload: two keys that compute it over
    the same text agree on all four. The length field covers the envelope. *)
Theorem envelope_authentic hmac k1 k2 f1 f2 p1 p2 : (forall k t, List.length (hmac k t) = AUTH_TAG_LEN) ->
  form_ok f1 -> form_ok f2 -> key_ok k1 -> key_ok k2 ->
  let sent := (encode_datagram hmac f1 p1 (Some k1)).1 in
  sent = (before_tag f1 (ek_freshness k1) ++ hmac (ek_secret k1) (authenticated_text k1 f1 p1) ++ p1)%list /\
  be16 sent 14 + 16 + blen p1 = blen sent /\
  (authenticated_text k1 f1 p1 = authenticated_text k2 f2 p2 ->
   ek_binding k1 = ek_binding k2 /\ canonical_form f1 = canonical_form f2 /\ ek_freshness k1 = ek_freshness k2 /\ p1 = p2).
Proof.
  intros Hh H1 H2 [B1 F1] [B2 F2] sent. subst sent. rewrite encode_authenticated. cbn [fst]. split; [done|]. split.
  - pose proof (block_length f1 (ek_freshness k1) H1) as L. rewrite be16_app by apply before_tag_head.
    rewrite !blen_app. unfold blen in L |- *. rewrite Hh. lia.
  - intros E. apply canonical_domain_inj in E as [-> E]; [|done..]. by apply before_tag_inj in E as (? & ? & ?).
Qed.

Definition sample_key : EnvelopeKey :=
  mkEnvelopeKey [1; 2; 3] (mkListenerBinding DatagramListenerProtocol_Udp (IpAddr_V4 [10; 0; 0; 1]) 53) (mkFreshness 7 1700000000000 1 1700000000001).

Lemma envelope_authentic_witness :
  let sent := (encode_datagram (fun _ _ => replicate 32 9) EnvelopeForm_Unspec [104; 105] (Some sample_key)).1 in
  sent = (before_tag EnvelopeForm_Unspec (ek_freshness sample_key) ++ replicate 32 9 ++ [104; 105])%list /\
  be16 sent 14 + 16 + blen [104; 105] = blen sent /\
  (authenticated_text sample_key EnvelopeForm_Unspec [104; 105] = authenticated_text sample_key EnvelopeForm_Local [104; 105] ->
   ek_binding sample_key = ek_binding sample_key /\ canonical_form EnvelopeForm_Unspec = canonical_form EnvelopeForm_Local /\
   ek_freshness sample_key = ek_freshness sample_key /\ [104; 105] = [104; 105]).
Proof.
  refine (envelope_authentic (fun _ _ => replicate 32 9) sample_key sample_key EnvelopeForm_Unspec EnvelopeForm_Local [104; 105] [104; 105] _ I I _ _);
    [done|..]; repeat split; unfold in_width; cbn; try lia; repeat constructor; unfold in_width; lia.
Defined.

(** Each datagram of a session is sent with the next sequence number, as
    far as a 64-bit counter goes, and the evidence counts the datagrams and
    names the last number used. *)
Theorem envelope_sequences hmac e m sends : en_minting e = Some m -> in_width 64 (mi_next_sequence m) ->
  0 <= pho_datagrams (en_observation e) -> pho_datagrams (en_observation e) + Z.of_nat (List.length sends) < 2 ^ 64 -> sends <> [] ->
  let '(ds, e') := wrap_all hmac e sends in
  List.length ds = List.length sends /\
  (forall k now payload, sends !! k = Some (now, payload) ->
     ds !! k = Some (encode_datagram hmac (en_form e) payload (Some (nth_key m k now))).1) /\
  pho_datagrams (en_observation e') = pho_datagrams (en_observation e) + Z.of_nat (List.length sends) /\
  pho_last_sequence (en_observation e') = Some (Z.min U64_MAX (mi_next_sequence m + Z.of_nat (List.length sends) - 1)).
Proof.
  intros Hm Hs H0 Hn Hne. pose proof (wrap_all_steps hmac sends e m Hm Hs H0 Hn) as H.
  destruct (wrap_all hmac e sends) as [ds e']. destruct H as (? & ? & ? & Hl). repeat (split; [done|]). by apply Hl.
Qed.

Definition sample_minting : Minting := mkMinting [1; 2; 3] (ek_binding sample_key) 7 1700000000000 (2 ^ 64 - 2) (-5).
Definition sample_enveloper : Enveloper :=
  mkEnveloper EnvelopeForm_Local (Some sample_minting) (blank_observation ProxyHeaderFormat_V2Datagram) None.

Lemma envelope_sequences_witness :
  let '(ds, e') := wrap_all (fun _ _ => replicate 32 9) sample_enveloper [(3, [1]); (9, [2]); (10, [3])] in
  List.length ds = 3%nat /\
  (forall k now payload, [(3, [1]); (9, [2]); (10, [3])] !! k = Some (now, payload) ->
     ds !! k = Some (encode_datagram (fun _ _ => replicate 32 9) EnvelopeForm_Local payload (Some (nth_key sample_minting k now))).1) /\
  pho_datagrams (en_observation e') = 0 + Z.of_nat 3 /\
  pho_last_sequence (en_observation e') = Some (Z.min U64_MAX (2 ^ 64 - 2 + Z.of_nat 3 - 1)).
Proof.
  refine (envelope_sequences (fun _ _ => replicate 32 9) sample_enveloper sample_minting [(3, [1]); (9, [2]); (10, [3])] eq_refl _ _ _ _);
    [unfold in_width; cbn; lia|done|done|done].
Defined.

(** The evidence of a session says nothing of the key: under any other
    secret, and any other tag function of the same length, the same
    datagrams leave the same observation and the same summary. *)
Theorem evidence_without_key h1 h2 secret hex_decode redact e sends :
  (forall k t, List.length (h1 k t) = AUTH_TAG_LEN) -> (forall k t, List.length (h2 k t) = AUTH_TAG_LEN) ->
  let e1 := with_redact redact (wrap_all h1 e sends).2 in
  let e2 := with_redact redact (wrap_all h2 (rekey secret e) sends).2 in
  observation hex_decode e2 = observation hex_decode e1 /\ summary hex_decode e2 = summary hex_decode e1.
Proof. intros H1 H2 e1 e2. subst e1 e2. by rewrite (wrap_all_rekey h1 h2). Qed.

Lemma evidence_without_key_witness :
  let e1 := with_redact None (wrap_all (fun _ _ => replicate 32 9) sample_enveloper [(3, [1])]).2 in
  let e2 := with_redact None (wrap_all (fun _ _ => replicate 32 8) (rekey [4; 5] sample_enveloper) [(3, [1])]).2 in
  observation (fun _ => None) e2 = observation (fun _ => None) e1 /\ summary (fun _ => None) e2 = summary (fun _ => None) e1.
Proof. by apply (evidence_without_key (fun _ _ => replicate 32 9) (fun _ _ => replicate 32 8)). Defined.
