(* ===== verification/RecordRedaction.v ===== *)
(** The redaction of a whole execution record (crates/anvil-engine/src/redact.rs,
    [record_metadata], [finding], [inferred]; record.rs, [redact_attempts] and
    [redact_tls]): every text of the record that a peer, a template or a
    diagnosis wrote, in place. Built on the redactor's texts, URLs and headers. *)
From Stdlib Require Import ZArith Lia Ascii String.
From stdpp Require Import base numbers strings pretty option list sorting.
From S2P Require Import Prelude Text Bytes Settings Evidence Secret Redaction ProxyProtocol Observe Redactor RedactedFields.
Open Scope string_scope.
Open Scope list_scope.
Open Scope Z_scope.
Open Scope record_scope.

#[export] Instance eta_PhaseTiming : Eta PhaseTiming := fun r =>
  mkPhaseTiming (pt_phase r) (pt_status r) (pt_start_us r) (pt_end_us r) (pt_detail r).

#[export] Instance eta_TransportFailure : Eta TransportFailure := fun r =>
  mkTransportFailure (tf_phase r) (tf_kind r) (tf_message r) (tf_io_error_kind r) (tf_os_error_code r) (tf_tls_alert r) (tf_h2_error_code r)
    (tf_quic_error_code r) (tf_status r) (tf_field r) (tf_deadline_ms r).

#[export] Instance eta_CertificateSummary : Eta CertificateSummary := fun r =>
  mkCertificateSummary (cs_subject r) (cs_issuer r) (cs_subject_alt_names r) (cs_not_before r) (cs_not_after r) (cs_serial_hex r)
    (cs_sha256_fingerprint r) (cs_is_ca r) (cs_key_algorithm r).

#[export] Instance eta_TlsObservation : Eta TlsObservation := fun r =>
  mkTlsObservation (tls_server_name r) (tls_sni r) (tls_server_name_overridden r) (tls_identity_check r) (tls_peer_spiffe_id r) (tls_version r)
    (tls_cipher_suite r) (tls_alpn_offered r) (tls_alpn_negotiated r) (tls_verification r) (tls_peer_certificates r)
    (tls_client_certificate_requested r) (tls_client_certificate_presented r) (tls_alert_received r) (tls_resumed r).

#[export] Instance eta_TunnelObservation : Eta TunnelObservation := fun r =>
  mkTunnelObservation (tun_kind r) (tun_endpoint r) (tun_authority r) (tun_resolved_addresses r) (tun_resolution_source r) (tun_connect_attempts r)
    (tun_local_address r) (tun_remote_address r) (tun_phases r) (tun_tls r) (tun_connect_headers r) (tun_connect_status r) (tun_response_headers r)
    (tun_refusal_body r) (tun_refusal_body_truncated r) (tun_failure r) (tun_datagrams r).

#[export] Instance eta_ConnectionObservation : Eta ConnectionObservation := fun r =>
  mkConnectionObservation (co_id r) (co_reused r) (co_protocol r) (co_local_address r) (co_remote_address r) (co_resolved_addresses r)
    (co_resolution_source r) (co_connect_attempts r) (co_via_proxy r) (co_tls r) (co_prior_requests r) (co_proxy_header r) (co_tunnel r).

#[export] Instance eta_AttemptObservation : Eta AttemptObservation := fun r =>
  mkAttemptObservation (att_index r) (att_reason r) (att_method r) (att_url r) (att_started_at r) (att_connection r) (att_phases r) (att_dispatch r)
    (att_bytes r) (att_response_status r) (att_failure r) (att_duration_us r) (att_early_data r).

#[export] Instance eta_BodyCapture : Eta BodyCapture := fun r =>
  mkBodyCapture (bd_completeness r) (bd_wire_bytes r) (bd_declared_length r) (bd_captured_bytes r) (bd_display_truncated r) (bd_content_type r)
    (bd_content_encoding r) (bd_decoded_bytes r) (bd_decoding r) (bd_decoding_detail r) (bd_blob_sha256 r).

#[export] Instance eta_ResponseRecord : Eta ResponseRecord := fun r =>
  mkResponseRecord (resp_status r) (resp_reason r) (resp_http_version r) (resp_headers r) (resp_trailers r) (resp_trailers_received r) (resp_body r).

#[export] Instance eta_PreparedSummary : Eta PreparedSummary := fun r =>
  mkPreparedSummary (pr_protocol r) (pr_method r) (pr_url r) (pr_headers r) (pr_body_bytes r) (pr_body_sha256 r) (pr_content_type r) (pr_auth_label r)
    (pr_tls_profile r) (pr_proxy r) (pr_tls_verification_enabled r) (pr_settings r) (pr_inferred r) (pr_omitted_secrets r) (pr_workload_api r).

#[export] Instance eta_MasqueTunnel : Eta MasqueTunnel := fun r =>
  mkMasqueTunnel (mt_proxy r) (mt_target r) (mt_extended_connect r) (mt_h3_datagrams r) (mt_connect_status r) (mt_encoding r)
    (mt_sent_quic_datagrams r) (mt_sent_capsules r) (mt_received_quic_datagrams r) (mt_received_capsules r) (mt_dropped r) (mt_closed_by r).

#[export] Instance eta_WsCompressionViolation : Eta WsCompressionViolation := fun r =>
  mkWsCompressionViolation (wcv_kind r) (wcv_compressed_bytes r) (wcv_limit_bytes r) (wcv_detail r).

#[export] Instance eta_WsExtensions : Eta WsExtensions := fun r =>
  mkWsExtensions (wse_offered r) (wse_answered r) (wse_negotiation r) (wse_problem r) (wse_deflate r) (wse_traffic r) (wse_violation r).

#[export] Instance eta_OutcomeWarning : Eta OutcomeWarning := fun r =>
  mkOutcomeWarning (ow_code r) (ow_message r).

#[export] Instance eta_ExecutionOutcome : Eta ExecutionOutcome := fun r =>
  mkExecutionOutcome (oc_transport r) (oc_application r) (oc_assertions r) (oc_completeness r) (oc_protocol_status r) (oc_dispatch r) (oc_warnings r)
    (oc_summary r).

#[export] Instance eta_Evidence : Eta Evidence := fun r =>
  mkEvidence (ev_source r) (ev_key r) (ev_value r) (ev_attempt r).

#[export] Instance eta_Remediation : Eta Remediation := fun r =>
  mkRemediation (rem_text r) (rem_owner r).

#[export] Instance eta_DiagnosticFinding : Eta DiagnosticFinding := fun r =>
  mkDiagnosticFinding (df_code r) (df_rule_id r) (df_rule_version r) (df_title r) (df_explanation r) (df_scope r) (df_confidence r) (df_severity r)
    (df_evidence r) (df_alternatives r) (df_does_not_prove r) (df_remediation r) (df_owner r) (df_confirm_with r).

#[export] Instance eta_AssertionResult : Eta AssertionResult := fun r =>
  mkAssertionResult (ar_label r) (ar_passed r) (ar_actual r) (ar_message r).

#[export] Instance eta_ExecutionRecord : Eta ExecutionRecord := fun r =>
  mkExecutionRecord (rec_id r) (rec_schema_version r) (rec_adapter_version r) (rec_catalog_version r) (rec_compatibility_id r) (rec_workspace_id r)
    (rec_request_id r) (rec_revision_id r) (rec_environment_id r) (rec_started_at r) (rec_finished_at r) (rec_prepared r) (rec_attempts r)
    (rec_response r) (rec_stream r) (rec_outcome r) (rec_assertion_results r) (rec_extracted r) (rec_findings r).

Definition URL_EVIDENCE : list string := ["redirect.authorization_endpoint"; "body.problem.type"; "body.problem.instance"].

(** A tunnel's refusal body is kept to this size ([hbone::MAX_REFUSAL_BODY]). *)
Definition MAX_REFUSAL_BODY : nat := Nat.mul 8 1024.

(** * URLs quoted in a text *)

Definition longer_first (a b : string * string) : Prop := (String.length b.1 <= String.length a.1)%nat.

#[export] Instance longer_first_dec a b : Decision (longer_first a b).
Proof. unfold longer_first. apply _. Defined.

(** The scan of [replace_each_once]: [skip] bytes belong to a pair already
    replaced. A pair starts with a character, so the scan may go byte by byte. *)
Fixpoint replace_from (by_length : list (string * string)) (skip : nat) (rest : string) : string :=
  match rest with
  | "" => ""
  | String c rest' =>
      match skip with
      | S skip' => replace_from by_length skip' rest'
      | O =>
          match List.find (fun p => starts_with rest p.1) by_length with
          | Some (from, to) => to +:+ replace_from by_length (String.length from - 1) rest'
          | None => String c (replace_from by_length 0 rest')
          end
      end
  end.

Definition replace_each_once (text : string) (pairs : list (string * string)) : string :=
  match pairs with [] => text | _ => replace_from (merge_sort longer_first pairs) 0 text end.

Section Records.
Context `{Libraries}.
(** [hex::decode]. *)
Variable hex_decode : string -> option (list Z).
Variable red : Redactor.

Abbreviation metadata := (metadata_text red).
Abbreviation scrub_text := (text_any_case red).

(** [Redactor::inferred]. *)
Definition inferred (line : string) : string :=
  let scrubbed := scrub_text line in
  match (l ← str_strip_prefix "auth " line; split_once ": " l) with
  | Some (k, v) =>
      if ends_with k ".htu" then
        if negb (starts_with scrubbed ("auth " +:+ k +:+ ": ")) || negb (same_delimiters line scrubbed " :/?#&=@") then REDACTED
        else scrub_text ("auth " +:+ k +:+ ": " +:+ redact_url red v)
      else metadata line
  | None => metadata line
  end.

(** One item of evidence, and the URL it held when redaction changed it. *)
Definition redact_evidence (e : Evidence) : Evidence * option (string * string) :=
  if negb (existsb (String.eqb (ev_key e)) URL_EVIDENCE) then (e <| ev_value ::= metadata |>, None)
  else
    let redacted := redact_url red (ev_value e) in
    (e <| ev_value := redacted |>,
     if negb (str_is_empty (ev_value e)) && negb (String.eqb redacted (ev_value e)) then Some (ev_value e, redacted) else None).

(** [Redactor::finding]. *)
Definition redact_finding (f : DiagnosticFinding) : DiagnosticFinding :=
  let evidence := map redact_evidence (df_evidence f) in
  let urls := omap snd evidence in
  f <| df_title ::= metadata |>
    <| df_evidence := map fst evidence |>
    <| df_explanation := metadata (replace_each_once (df_explanation f) urls) |>
    <| df_alternatives ::= map metadata |>
    <| df_does_not_prove ::= map metadata |>
    <| df_confirm_with ::= map metadata |>
    <| df_remediation ::= map (fun m => m <| rem_text := metadata (replace_each_once (rem_text m) urls) |>) |>.

(** * Attempts (record.rs) *)

(** [refusal_body]. *)
Definition refusal_body (captured : string) : string * bool :=
  let cut := floor_char_boundary captured MAX_REFUSAL_BODY in
  (redact_then_cut scrub_text captured cut, (cut <? String.length captured)%nat).

Definition redact_identity (c : PeerIdentityCheck) : PeerIdentityCheck :=
  match c with
  | PeerIdentityCheck_HostName name => PeerIdentityCheck_HostName (metadata name)
  | PeerIdentityCheck_SpiffeId expected trust_domain => PeerIdentityCheck_SpiffeId (metadata expected) (metadata trust_domain)
  | PeerIdentityCheck_SpiffeTrustDomain trust_domain => PeerIdentityCheck_SpiffeTrustDomain (metadata trust_domain)
  end.

Definition redact_verification (v : TlsVerification) : TlsVerification :=
  match v with TlsVerification_Failed problem detail => TlsVerification_Failed problem (metadata detail) | _ => v end.

Definition redact_certificate (c : CertificateSummary) : CertificateSummary :=
  c <| cs_subject ::= metadata |> <| cs_issuer ::= metadata |> <| cs_not_before ::= metadata |> <| cs_not_after ::= metadata |>
    <| cs_serial_hex ::= metadata |> <| cs_sha256_fingerprint ::= metadata |> <| cs_key_algorithm ::= metadata |>
    <| cs_subject_alt_names ::= map metadata |>.

(** [redact_tls]. *)
Definition redact_tls (t : TlsObservation) : TlsObservation :=
  t <| tls_server_name ::= metadata |>
    <| tls_sni ::= option_map metadata |> <| tls_peer_spiffe_id ::= option_map metadata |> <| tls_version ::= option_map metadata |>
    <| tls_cipher_suite ::= option_map metadata |> <| tls_alpn_negotiated ::= option_map metadata |> <| tls_alert_received ::= option_map metadata |>
    <| tls_alpn_offered ::= map metadata |>
    <| tls_identity_check ::= option_map redact_identity |>
    <| tls_verification ::= redact_verification |>
    <| tls_peer_certificates ::= map redact_certificate |>
    <| tls_client_certificate_presented ::= option_map redact_certificate |>.

(** The message and the field of a failure; the detail of a phase. *)
Definition redact_failure (f : TransportFailure) : TransportFailure :=
  f <| tf_message ::= scrub_text |> <| tf_field ::= option_map scrub_text |>.

Definition redact_phase (p : PhaseTiming) : PhaseTiming := p <| pt_detail ::= option_map scrub_text |>.

Definition redact_tunnel (t : TunnelObservation) : TunnelObservation :=
  let refusal := option_map refusal_body (tun_refusal_body t) in
  t <| tun_endpoint ::= metadata |> <| tun_authority ::= metadata |>
    <| tun_tls ::= option_map redact_tls |>
    <| tun_failure ::= option_map redact_failure |>
    <| tun_phases ::= map redact_phase |>
    <| tun_refusal_body := option_map fst refusal |>
    <| tun_refusal_body_truncated ::= fun truncated => truncated || from_option snd false refusal |>
    <| tun_connect_headers ::= redact_headers red |> <| tun_response_headers ::= redact_headers red |>.

Definition redact_connection (c : ConnectionObservation) : ConnectionObservation :=
  c <| co_via_proxy ::= option_map metadata |>
    <| co_proxy_header ::= option_map (fun h => scrub_observation hex_decode h (Some metadata)) |>
    <| co_tls ::= option_map redact_tls |>
    <| co_tunnel ::= option_map redact_tunnel |>.

Definition redact_attempt (a : AttemptObservation) : AttemptObservation :=
  a <| att_method ::= metadata |>
    <| att_url := scrub_text (redact_url red (att_url a)) |>
    <| att_failure ::= option_map redact_failure |>
    <| att_phases ::= map redact_phase |>
    <| att_connection ::= option_map redact_connection |>.

(** [redact_attempts]. *)
Definition redact_attempts (attempts : list AttemptObservation) : list AttemptObservation := map redact_attempt attempts.

(** * The record *)

Definition redact_prepared (p : PreparedSummary) : PreparedSummary :=
  p <| pr_method ::= metadata |>
    <| pr_url := metadata (redact_url red (pr_url p)) |>
    <| pr_inferred ::= map (fun note => metadata (inferred note)) |>
    <| pr_headers ::= redact_headers red |>
    <| pr_content_type ::= option_map metadata |>
    <| pr_proxy ::= option_map metadata |>.

Definition redact_response (resp : ResponseRecord) : ResponseRecord :=
  resp <| resp_headers ::= redact_headers red |> <| resp_trailers ::= redact_headers red |>
    <| resp_reason ::= option_map metadata |>
    <| resp_body ::= fun b => b <| bd_content_type ::= option_map metadata |> <| bd_content_encoding ::= option_map metadata |>
        <| bd_decoding_detail ::= option_map metadata |> |>.

Definition redact_extensions (e : WsExtensions) : WsExtensions :=
  e <| wse_offered ::= option_map metadata |> <| wse_answered ::= option_map metadata |> <| wse_problem ::= option_map metadata |>
    <| wse_violation ::= option_map (fun v => v <| wcv_detail ::= option_map metadata |>) |>.

Definition redact_protocol_status (s : ProtocolStatus) : ProtocolStatus :=
  match s with
  | ProtocolStatus_Http status reason => ProtocolStatus_Http status (option_map metadata reason)
  | ProtocolStatus_Grpc http_status grpc_status grpc_message source => ProtocolStatus_Grpc http_status grpc_status (option_map metadata grpc_message) source
  | ProtocolStatus_WebSocket handshake_status close_code close_reason closed_by extensions =>
      ProtocolStatus_WebSocket handshake_status close_code (metadata close_reason) closed_by (option_map redact_extensions extensions)
  | ProtocolStatus_Udp sent received window (Some t) =>
      ProtocolStatus_Udp sent received window (Some (t <| mt_proxy ::= metadata |> <| mt_target ::= metadata |>))
  | _ => s
  end.

Definition redact_outcome (o : ExecutionOutcome) : ExecutionOutcome :=
  o <| oc_protocol_status ::= redact_protocol_status |>
    <| oc_summary ::= metadata |>
    <| oc_warnings ::= map (fun w => w <| ow_message ::= metadata |>) |>.

Definition redact_result (a : AssertionResult) : AssertionResult :=
  a <| ar_label ::= metadata |> <| ar_message ::= metadata |> <| ar_actual ::= option_map metadata |>.

(** [Redactor::record_metadata]. *)
Definition record_metadata (rec : ExecutionRecord) : ExecutionRecord :=
  rec <| rec_prepared ::= redact_prepared |>
    <| rec_attempts ::= redact_attempts |>
    <| rec_response ::= option_map redact_response |>
    <| rec_outcome ::= redact_outcome |>
    <| rec_findings ::= map redact_finding |>
    <| rec_assertion_results ::= map redact_result |>.
End Records.

(** * The texts of a record *)

(** The texts of a record that [record_metadata] redacts, but for the body of a
    tunnel's refusal, the bytes of a PROXY header and URL evidence, which are
    below. *)
Definition header_texts (h : list HeaderEntry) : list string := concat (map (fun e => [he_name e; he_value e]) h).

Definition failure_texts (f : TransportFailure) : list string := tf_message f :: option_list (tf_field f).

Definition phase_texts (p : PhaseTiming) : list string := option_list (pt_detail p).

Definition certificate_texts (c : CertificateSummary) : list string :=
  [cs_subject c; cs_issuer c; cs_not_before c; cs_not_after c; cs_serial_hex c; cs_sha256_fingerprint c; cs_key_algorithm c]
  ++ cs_subject_alt_names c.

Definition identity_texts (c : PeerIdentityCheck) : list string :=
  match c with
  | PeerIdentityCheck_HostName name => [name]
  | PeerIdentityCheck_SpiffeId expected trust_domain => [expected; trust_domain]
  | PeerIdentityCheck_SpiffeTrustDomain trust_domain => [trust_domain]
  end.

Definition verification_texts (v : TlsVerification) : list string := match v with TlsVerification_Failed _ detail => [detail] | _ => [] end.

Definition tls_texts (t : TlsObservation) : list string :=
  tls_server_name t :: option_list (tls_sni t) ++ option_list (tls_peer_spiffe_id t) ++ option_list (tls_version t) ++
  option_list (tls_cipher_suite t) ++ option_list (tls_alpn_negotiated t) ++ option_list (tls_alert_received t) ++ tls_alpn_offered t ++
  concat (map identity_texts (option_list (tls_identity_check t))) ++ verification_texts (tls_verification t) ++
  concat (map certificate_texts (tls_peer_certificates t)) ++ concat (map certificate_texts (option_list (tls_client_certificate_presented t))).

Definition tunnel_texts (t : TunnelObservation) : list string :=
  [tun_endpoint t; tun_authority t] ++ concat (map tls_texts (option_list (tun_tls t))) ++
  concat (map failure_texts (option_list (tun_failure t))) ++ concat (map phase_texts (tun_phases t)) ++
  header_texts (tun_connect_headers t) ++ header_texts (tun_response_headers t).

Definition proxy_header_texts (o : ProxyHeaderObservation) : list string :=
  option_list (pho_source o) ++ option_list (pho_destination o) ++ option_list (pho_text o) ++ option_list (pho_problem o) ++
  option_list (pho_listener_binding o) ++ pho_tlvs o.

Definition connection_texts (c : ConnectionObservation) : list string :=
  option_list (co_via_proxy c) ++ concat (map proxy_header_texts (option_list (co_proxy_header c))) ++
  concat (map tls_texts (option_list (co_tls c))) ++ concat (map tunnel_texts (option_list (co_tunnel c))).

Definition attempt_texts (a : AttemptObservation) : list string :=
  [att_method a; att_url a] ++ concat (map failure_texts (option_list (att_failure a))) ++ concat (map phase_texts (att_phases a)) ++
  concat (map connection_texts (option_list (att_connection a))).

Definition prepared_texts (p : PreparedSummary) : list string :=
  [pr_method p; pr_url p] ++ pr_inferred p ++ header_texts (pr_headers p) ++ option_list (pr_content_type p) ++ option_list (pr_proxy p).

Definition response_texts (resp : ResponseRecord) : list string :=
  header_texts (resp_headers resp) ++ header_texts (resp_trailers resp) ++ option_list (resp_reason resp) ++
  option_list (bd_content_type (resp_body resp)) ++ option_list (bd_content_encoding (resp_body resp)) ++
  option_list (bd_decoding_detail (resp_body resp)).

Definition extensions_texts (e : WsExtensions) : list string :=
  option_list (wse_offered e) ++ option_list (wse_answered e) ++ option_list (wse_problem e) ++
  concat (map (fun v => option_list (wcv_detail v)) (option_list (wse_violation e))).

Definition status_texts (s : ProtocolStatus) : list string :=
  match s with
  | ProtocolStatus_Http _ reason => option_list reason
  | ProtocolStatus_Grpc _ _ grpc_message _ => option_list grpc_message
  | ProtocolStatus_WebSocket _ _ close_reason _ extensions => close_reason :: concat (map extensions_texts (option_list extensions))
  | ProtocolStatus_Udp _ _ _ (Some t) => [mt_proxy t; mt_target t]
  | _ => []
  end.

Definition outcome_texts (o : ExecutionOutcome) : list string :=
  status_texts (oc_protocol_status o) ++ oc_summary o :: map ow_message (oc_warnings o).

Definition is_url_evidence (e : Evidence) : bool := existsb (String.eqb (ev_key e)) URL_EVIDENCE.

Definition finding_texts (f : DiagnosticFinding) : list string :=
  [df_title f; df_explanation f] ++ map ev_value (List.filter (fun e => negb (is_url_evidence e)) (df_evidence f)) ++
  df_alternatives f ++ df_does_not_prove f ++ df_confirm_with f ++ map rem_text (df_remediation f).

Definition result_texts (a : AssertionResult) : list string := [ar_label a; ar_message a] ++ option_list (ar_actual a).

Definition record_texts (rec : ExecutionRecord) : list string :=
  prepared_texts (rec_prepared rec) ++ concat (map attempt_texts (rec_attempts rec)) ++
  concat (map response_texts (option_list (rec_response rec))) ++ outcome_texts (rec_outcome rec) ++
  concat (map finding_texts (rec_findings rec)) ++ concat (map result_texts (rec_assertion_results rec)).

(** The bodies of refused tunnels. *)
Definition refusal_bodies (rec : ExecutionRecord) : list string :=
  omap (fun a => c ← att_connection a; t ← co_tunnel c; tun_refusal_body t) (rec_attempts rec).

(** The URLs of evidence. *)
Definition evidence_urls (rec : ExecutionRecord) : list string :=
  map ev_value (List.filter is_url_evidence (concat (map df_evidence (rec_findings rec)))).

(** * What a redacted record shows *)

Create HintDb hidden discriminated.

Section Hiding.
Context `{LibraryLaws} (hex_decode : string -> option (list Z)) (red : Redactor) (given : list string).
Hypothesis Hbuilt : built red given.
Hypothesis Htexts : Forall is_text given.

Abbreviation hidden_in := (Forall (hides given)).

Lemma hides_metadata s : hides given (metadata_text red s).
Proof. by apply metadata_hides. Qed.

Lemma hides_scrubbed s : hides given (text_any_case red s).
Proof. by apply text_hides. Qed.

Lemma hides_marker : hides given REDACTED.
Proof. by apply marker_hides. Qed.

Lemma hidden_concat {A} (f : A -> list string) (g : A -> A) l : (forall x, hidden_in (f (g x))) -> hidden_in (concat (map f (map g l))).
Proof. intros Hf. induction l as [|x l IH]; [constructor|]. cbn. apply Forall_app. by split. Qed.

Lemma hidden_option {A} (f : A -> list string) (g : A -> A) o : (forall x, hidden_in (f (g x))) -> hidden_in (concat (map f (option_list (option_map g o)))).
Proof. intros Hf. destruct o; cbn; [|constructor]. by rewrite app_nil_r. Qed.

Lemma hidden_map {A} (f : A -> string) (g : A -> A) l : (forall x, hides given (f (g x))) -> hidden_in (map f (map g l)).
Proof. intros Hf. induction l as [|x l IH]; constructor; auto. Qed.

Lemma hidden_mapped {A} (g : A -> string) l : (forall x, hides given (g x)) -> hidden_in (map g l).
Proof. intros Hg. induction l; constructor; auto. Qed.

Lemma hidden_optional (g : string -> string) o : (forall x, hides given (g x)) -> hidden_in (option_list (option_map g o)).
Proof. intros Hg. destruct o; repeat constructor; auto. Qed.

Lemma hidden_headers h : hidden_in (header_texts (redact_headers red h)).
Proof.
  unfold header_texts, redact_headers. apply hidden_concat. intros e. unfold redact_entry. cbn [he_name he_value].
  repeat constructor; [apply hides_scrubbed|]. case_match; [apply hides_marker|apply hides_metadata].
Qed.

(** Texts are hidden part by part. *)
Ltac hidden :=
  repeat first
    [ solve [auto 2 with hidden nocore] | apply Forall_app; split | apply hides_metadata | apply hides_scrubbed | apply hides_marker
    | apply hidden_headers
    | apply hidden_option; intros ? | apply hidden_concat; intros ? | apply hidden_map; intros ? | apply hidden_mapped; intros ?
    | apply hidden_optional; intros ? | apply List.Forall_cons | apply List.Forall_nil ].

Lemma hidden_failure f : hidden_in (failure_texts (redact_failure red f)).
Proof. unfold failure_texts. cbn. hidden. Qed.
#[local] Hint Resolve hidden_failure : hidden.

Lemma hidden_phase p : hidden_in (phase_texts (redact_phase red p)).
Proof. unfold phase_texts. cbn. hidden. Qed.
#[local] Hint Resolve hidden_phase : hidden.

Lemma hidden_certificate c : hidden_in (certificate_texts (redact_certificate red c)).
Proof. unfold certificate_texts. cbn. hidden. Qed.
#[local] Hint Resolve hidden_certificate : hidden.

Lemma hidden_tls t : hidden_in (tls_texts (redact_tls red t)).
Proof.
  unfold tls_texts. cbn. hidden.
  - match goal with |- context [redact_identity _ ?c] => destruct c end; cbn; hidden.
  - destruct (tls_verification t); cbn; hidden.
Qed.
#[local] Hint Resolve hidden_tls : hidden.

Lemma hidden_tunnel t : hidden_in (tunnel_texts (redact_tunnel red t)).
Proof. unfold tunnel_texts. cbn. hidden. Qed.
#[local] Hint Resolve hidden_tunnel : hidden.

Lemma kept_field v : hidden_in (option_list (scrub_field (metadata_text red) v).1).
Proof.
  unfold scrub_field. destruct v as [t|]; [|constructor]. destruct (String.eqb_spec (metadata_text red t) t) as [E|]; cbn; hidden. rewrite <- E. apply hides_metadata.
Qed.

Lemma hidden_proxy_header o : hidden_in (proxy_header_texts (scrub_observation hex_decode o (Some (metadata_text red)))).
Proof.
  unfold scrub_observation.
  pose proof (kept_field (pho_source o)) as K1. pose proof (kept_field (pho_destination o)) as K2. pose proof (kept_field (pho_text o)) as K3.
  pose proof (kept_field (pho_problem o)) as K4. pose proof (kept_field (pho_listener_binding o)) as K5.
  do 5 (destruct (scrub_field _ _)). cbn [fst] in *. cbv zeta.
  assert (Ht : hidden_in (map (fun t => if negb (String.eqb (metadata_text red t) t) then REDACTED else t) (pho_tlvs o))).
  { induction (pho_tlvs o) as [|t l IH]; [constructor|]. cbn [map]. apply List.Forall_cons; [|exact IH].
    destruct (String.eqb_spec (metadata_text red t) t) as [E|]; cbn [negb]; [rewrite <- E; apply hides_metadata|apply hides_marker]. }
  destruct (_ || _); unfold proxy_header_texts; cbn; repeat (apply Forall_app; split); try done.
  clear Ht;  induction (pho_tlvs o) as [|t l IH]; [constructor|]. apply List.Forall_cons; [apply hides_marker|exact IH].
Qed.
#[local] Hint Resolve hidden_proxy_header : hidden.

Lemma hidden_attempt a : hidden_in (attempt_texts (redact_attempt hex_decode red a)).
Proof.
  unfold attempt_texts, connection_texts. cbn. hidden.
Qed.
#[local] Hint Resolve hidden_attempt : hidden.

Lemma hidden_response resp : hidden_in (response_texts (redact_response red resp)).
Proof. unfold response_texts. cbn. hidden. Qed.
#[local] Hint Resolve hidden_response : hidden.

Lemma hidden_outcome o : hidden_in (outcome_texts (redact_outcome red o)).
Proof.
  unfold outcome_texts. cbn. hidden. destruct (oc_protocol_status o) as [| | | |? ? ?|? ? ? ?|? ? ? [t|]]; cbn; hidden.
Qed.

Lemma hidden_prepared p : hidden_in (prepared_texts (redact_prepared red p)).
Proof. unfold prepared_texts. cbn. hidden. Qed.

Lemma redact_evidence_key e : is_url_evidence (redact_evidence red e).1 = is_url_evidence e.
Proof. unfold redact_evidence. by destruct (negb _). Qed.

Lemma hidden_evidence l : hidden_in (map ev_value (List.filter (fun e => negb (is_url_evidence e)) (map fst (map (redact_evidence red) l)))).
Proof.
  induction l as [|e l IH]; [constructor|]. cbn [map List.filter]. rewrite redact_evidence_key.
  destruct (is_url_evidence e) eqn:E; cbn [negb]; [exact IH|]. apply List.Forall_cons; [|exact IH].
  unfold redact_evidence. fold (is_url_evidence e). rewrite E. cbn. apply hides_metadata.
Qed.
#[local] Hint Resolve hidden_evidence : hidden.

Lemma hidden_finding f : hidden_in (finding_texts (redact_finding red f)).
Proof. unfold finding_texts. cbn -[is_url_evidence]. hidden. Qed.
#[local] Hint Resolve hidden_finding : hidden.

Lemma hidden_result a : hidden_in (result_texts (redact_result red a)).
Proof. unfold result_texts. cbn. hidden. Qed.
#[local] Hint Resolve hidden_result hidden_outcome hidden_prepared : hidden.

Lemma hidden_record rec : hidden_in (record_texts (record_metadata hex_decode red rec)).
Proof. unfold record_texts, redact_attempts. cbn. hidden. Qed.

Lemma refusal_bodies_excerpts rec b : b ∈ refusal_bodies (record_metadata hex_decode red rec) ->
  exists captured cut, captured ∈ refusal_bodies rec /\ cut_at captured 8192 cut /\ excerpt_of (text_any_case red) captured cut b.
Proof.
  unfold refusal_bodies. cbn. intros (a' & Ha & Hb)%list_elem_of_omap. apply list_elem_of_fmap in Ha as (a & -> & Ha). cbn in Hb.
  destruct (att_connection a) as [c|] eqn:Ec; [|done]. cbn in Hb. destruct (co_tunnel c) as [t|] eqn:Et; [|done]. cbn in Hb.
  destruct (tun_refusal_body t) as [captured|] eqn:Er; [|done]. injection Hb as <-. exists captured, (floor_char_boundary captured MAX_REFUSAL_BODY). split; [|split].
  - apply list_elem_of_omap. exists a. split; [done|]. by rewrite Ec; cbn; rewrite Et.
  - apply floor_cut_at.
  - apply redact_then_cut_shows.
Qed.

Lemma evidence_url_shown rec u : u ∈ evidence_urls (record_metadata hex_decode red rec) ->
  exists raw, raw ∈ evidence_urls rec /\ u = redact_url red raw.
Proof.
  unfold evidence_urls. cbn. intros Hu. apply list_elem_of_fmap in Hu as (e' & -> & He'). revert He'.
  rewrite !list_elem_of_In, List.filter_In, in_concat. intros [(es & Hes & He') Hurl].
  apply in_map_iff in Hes as (f' & <- & Hf'). apply in_map_iff in Hf' as (f & <- & Hf). cbn in He'.
  apply in_map_iff in He' as ([e1 o] & E1 & He1). cbn in E1. subst e1. apply in_map_iff in He1 as (e & Ee & He).
  pose proof (redact_evidence_key e) as Hk. rewrite Ee in Hk. cbn [fst] in Hk. rewrite Hurl in Hk.
  exists (ev_value e). split.
  - apply list_elem_of_In, in_map. apply List.filter_In. split; [|done]. apply in_concat. exists (df_evidence f). split; [|done]. by apply in_map.
  - unfold redact_evidence in Ee. fold (is_url_evidence e) in Ee. rewrite <- Hk in Ee. injection Ee as <- _. done.
Qed.

Lemma evidence_urls_unread `{!DecodeLaws} rec : Forall (url_unread given) (evidence_urls (record_metadata hex_decode red rec)).
Proof. apply list.Forall_forall. intros u Hu. destruct (evidence_url_shown rec u Hu) as (raw & _ & ->). by apply redact_url_unread. Qed.
End Hiding.

(** C9: the texts that the pass over a record rewrites show no secret the
    redactor was given. Those are, of the request, its method, URL, notes,
    headers, content type and proxy; of each attempt, its method, URL, failure,
    phases, proxy, PROXY header, certificates and tunnel; of the response, its
    reason, headers, trailers and the texts about its body; the protocol's
    status, summary and warnings; the findings; and the assertion results: each
    occurrence of a secret of four bytes or more, in any known form and letter
    case, lies over a marker. The body of a refused tunnel is an excerpt of at
    most 8192 bytes cut after redaction; and no reading of a URL of a finding's
    evidence, up to three rounds of decoding, finds a secret. The stream's
    messages and the captured extractions are not of this pass, which leaves
    them as they are. *)
Theorem record_hides_secrets `{LibraryLaws, !DecodeLaws} hex_decode red given rec : built red given -> Forall is_text given ->
  let rec' := record_metadata hex_decode red rec in
  Forall (hides given) (record_texts rec') /\
  (forall b, b ∈ refusal_bodies rec' -> exists captured cut, captured ∈ refusal_bodies rec /\ cut_at captured 8192 cut /\
     excerpt_of (text_any_case red) captured cut b) /\
  Forall (url_unread given) (evidence_urls rec') /\
  rec_stream rec' = rec_stream rec /\ rec_extracted rec' = rec_extracted rec.
Proof.
  intros Hb Hg rec'. split; [by apply hidden_record|]. split; [intros b; apply refusal_bodies_excerpts|].
  split; [|done]. by apply evidence_urls_unread.
Qed.

(** * A record with a leaked secret *)

Definition leaky_record : ExecutionRecord :=
  sample_record TransportState_Completed (ProtocolStatus_Http 302 (Some "go to s3cr3t-toto")) []
    <| rec_prepared ::= fun p => p <| pr_url := "https://a.example/x?q=S3CR3T-TOTO#top" |> <| pr_inferred := ["auth dpop.htu: https://a.example/s3cr3t-toto/x"] |> |>
    <| rec_response := Some (mkResponseRecord 302 None "HTTP/2" [mkHeaderEntry "location" "https://a.example/t?k=s3cr3t-toto"; mkHeaderEntry "x-abc-echo" "v"] [] false
        (mkBodyCapture BodyCompleteness_Complete 0 None 0 false None None None None None None)) |>
    <| rec_findings := [mkDiagnosticFinding "c" "r" 1 "redirect" "It went to a.example/s3cr3t-toto/." SourceScope_Unknown Confidence_Likely Severity_Info
        [mkEvidence EvidenceSource_HttpHeader "redirect.authorization_endpoint" "a.example/s3cr3t-toto/" None] [] [] [] Owner_Unknown []] |>.

Definition scrubbed_record : ExecutionRecord := @record_metadata simple_libraries (fun _ => None) demo_redactor leaky_record.

Lemma record_hides_secrets_witness :
  evidence_urls scrubbed_record = ["a.example/" +:+ REDACTED +:+ "/"] /\
  pr_inferred (rec_prepared scrubbed_record) = ["auth dpop.htu: https://a.example/" +:+ REDACTED +:+ "/x"] /\
  Forall (@hides simple_libraries (["abc"; "s3cr3t-toto"] ++ ["toto"])) (record_texts scrubbed_record).
Proof.
  split; [vm_compute; reflexivity|]. split; [vm_compute; reflexivity|].
  exact (proj1 (@record_hides_secrets simple_libraries simple_libraries_laws simple_decode_laws (fun _ => None) demo_redactor _ leaky_record demo_built demo_texts)).
Defined.
