(* ===== verification/RunModel.v ===== *)
(** Collection runs: their data (crates/anvil-domain/src/runner.rs), their
    datasets and plans (crates/anvil-runner/src/dataset.rs and plan.rs), and
    the events they emit (emit.rs). Parsing the dataset's text is
    Dataset.v. *)
From Stdlib Require Import ZArith Lia.
From stdpp Require Import base numbers strings pretty option list.
From S2P Require Import Prelude Text Settings Evidence Vars Dataset Secret.
Open Scope string_scope.
Open Scope list_scope.
Open Scope Z_scope.
Open Scope record_scope.

Definition RUN_REPORT_VERSION : Z := 1.

(** * Outcomes (runner.rs) *)

Record FailOn := mkFailOn { fo_transport : bool; fo_application : bool; fo_assertions : bool }.

Definition FailOn_default : FailOn := mkFailOn true true true.

Inductive OutcomeDimension := OutcomeDimension_Transport | OutcomeDimension_Application | OutcomeDimension_Assertions.

#[export] Instance OutcomeDimension_eq_dec : EqDecision OutcomeDimension.
Proof. solve_decision. Defined.

Inductive RunSource :=
  | RunSource_Scenario (scenario_id : Id) (name : string) (untrusted_override : bool)
  | RunSource_Folder (folder_id : option Id) (path : string).

Inductive RunnerCompletion := RunnerCompletion_Completed | RunnerCompletion_Canceled | RunnerCompletion_Aborted.

#[export] Instance RunnerCompletion_eq_dec : EqDecision RunnerCompletion.
Proof. solve_decision. Defined.

Inductive RunStepStatus :=
  | RunStepStatus_Passed
  | RunStepStatus_Failed
  | RunStepStatus_Error
  | RunStepStatus_Skipped
  | RunStepStatus_Canceled.

#[export] Instance RunStepStatus_eq_dec : EqDecision RunStepStatus.
Proof. solve_decision. Defined.

Inductive RunIterationStatus := RunIterationStatus_Passed | RunIterationStatus_Failed | RunIterationStatus_Incomplete.

#[export] Instance RunIterationStatus_eq_dec : EqDecision RunIterationStatus.
Proof. solve_decision. Defined.

Record RunFindingSummary := mkRunFindingSummary {
  rf_code : string;
  rf_title : string;
  rf_confidence : Confidence;
  rf_severity : Severity;
}.

Record RunStep := mkRunStep {
  rs_index : Z;
  rs_request_id : Id;
  rs_revision_id : option Id;
  rs_name : string;
  rs_protocol : option Protocol;
  rs_method : string;
  rs_url : string;
  rs_status : RunStepStatus;
  rs_failed_dimensions : list OutcomeDimension;
  rs_execution_id : option Id;
  rs_transport : option TransportState;
  rs_application : option ApplicationState;
  rs_assertions : option AssertionState;
  rs_dispatch : option DispatchState;
  rs_http_status : option Z;
  rs_grpc_status : option Z;
  rs_summary : string;
  rs_message : option string;
  rs_duration_ms : option Z;
  rs_exchange_ms : option Z;
  rs_delay_ms : Z;
  rs_assertion_results : list AssertionResult;
  rs_assertion_results_omitted : Z;
  rs_findings : list RunFindingSummary;
  rs_extracted : list string;
}.

Record RunIteration := mkRunIteration {
  ri_index : Z;
  ri_dataset_row : option Z;
  ri_started_at : DateTime;
  ri_duration_ms : Z;
  ri_status : RunIterationStatus;
  ri_stopped_at_step : option Z;
  ri_steps : list RunStep;
  ri_steps_omitted : Z;
}.

Record RunTotals := mkRunTotals {
  rt_iterations_planned : Z;
  rt_iterations_started : Z;
  rt_iterations_passed : Z;
  rt_iterations_failed : Z;
  rt_iterations_incomplete : Z;
  rt_steps_executed : Z;
  rt_steps_passed : Z;
  rt_steps_failed : Z;
  rt_steps_errored : Z;
  rt_steps_skipped : Z;
  rt_steps_canceled : Z;
  rt_steps_canceled_in_flight : Z;
  rt_transport_failures : Z;
  rt_application_failures : Z;
  rt_assertion_failures : Z;
  rt_assertions_passed : Z;
  rt_assertions_failed : Z;
  rt_step_time_ms : Z;
}.

#[export] Instance eta_RunTotals : Eta RunTotals := fun r =>
  mkRunTotals (rt_iterations_planned r) (rt_iterations_started r) (rt_iterations_passed r) (rt_iterations_failed r) (rt_iterations_incomplete r)
    (rt_steps_executed r) (rt_steps_passed r) (rt_steps_failed r) (rt_steps_errored r) (rt_steps_skipped r) (rt_steps_canceled r)
    (rt_steps_canceled_in_flight r) (rt_transport_failures r) (rt_application_failures r) (rt_assertion_failures r) (rt_assertions_passed r)
    (rt_assertions_failed r) (rt_step_time_ms r).

Definition RunTotals_default : RunTotals := mkRunTotals 0 0 0 0 0 0 0 0 0 0 0 0 0 0 0 0 0 0.

Inductive DatasetFormat := DatasetFormat_Csv | DatasetFormat_Json.

Record RunDatasetSummary := mkRunDatasetSummary {
  rds_name : string;
  rds_format : DatasetFormat;
  rds_sha256 : string;
  rds_rows : Z;
  rds_columns : list string;
  rds_sensitive_columns : list string;
}.

Record RunReport := mkRunReport {
  rep_run_id : Id;
  rep_report_version : Z;
  rep_schema_version : Z;
  rep_runner_version : string;
  rep_workspace_id : Id;
  rep_name : string;
  rep_source : RunSource;
  rep_environment_id : option Id;
  rep_environment_name : option string;
  rep_dataset : option RunDatasetSummary;
  rep_fail_on : FailOn;
  rep_stop_on_failure : bool;
  rep_started_at : DateTime;
  rep_finished_at : DateTime;
  rep_duration_ms : Z;
  rep_completion : RunnerCompletion;
  rep_partial : bool;
  rep_abort_reason : option string;
  rep_totals : RunTotals;
  rep_iterations : list RunIteration;
  rep_notes : list string;
}.

(** [RunReport::passed]. *)
Definition passed (r : RunReport) : bool :=
  bool_decide (rep_completion r = RunnerCompletion_Completed) && (rt_steps_failed (rep_totals r) =? 0) && (rt_steps_errored (rep_totals r) =? 0).

Record RunProgress := mkRunProgress {
  rp_steps_done : Z;
  rp_steps_total : Z;
  rp_steps_failed : Z;
  rp_iterations_done : Z;
  rp_iterations_total : Z;
}.

#[export] Instance eta_RunProgress : Eta RunProgress := fun r =>
  mkRunProgress (rp_steps_done r) (rp_steps_total r) (rp_steps_failed r) (rp_iterations_done r) (rp_iterations_total r).

Inductive RunEvent :=
  | RunEvent_RunStarted (run_id : Id) (name : string) (iterations steps : Z)
  | RunEvent_IterationStarted (run_id : Id) (iteration : Z) (dataset_row : option Z)
  | RunEvent_StepStarted (run_id : Id) (iteration step : Z) (request_id : Id) (name : string)
  | RunEvent_StepFinished (run_id : Id) (iteration step : Z) (status : RunStepStatus) (execution_id : option Id) (http_status duration_ms : option Z)
      (progress : RunProgress)
  | RunEvent_IterationFinished (run_id : Id) (iteration : Z) (status : RunIterationStatus) (progress : RunProgress)
  | RunEvent_RunFinished (run_id : Id) (completion : RunnerCompletion) (progress : RunProgress) (dropped_events : Z).

(** * Events (emit.rs) *)

Definition MAX_FAILURE_EVENTS : Z := 1000.

Inductive Class_ := Class_Always | Class_Failure | Class_Normal.

(** The token bucket is refilled by the clock in floating point: [token n]
    tells whether it holds a token, refilled, at the [n]-th call. What the sink
    was given is kept in order. *)
Record Emitter := mkEmitter {
  em_sink : bool;
  em_calls : nat;
  em_failures : Z;
  em_dropped : Z;
  em_delivered : list RunEvent;
}.

Definition Emitter_new (sink : bool) : Emitter := mkEmitter sink 0 0 0 [].

Section Emitting.
Variable token : nat -> bool.

(** [Emitter::emit]. *)
Definition emit (ev : RunEvent) (class : Class_) (e : Emitter) : Emitter :=
  if negb (em_sink e) then e
  else
    let calls := S (em_calls e) in
    let counted := match class with Class_Failure => em_failures e <? MAX_FAILURE_EVENTS | _ => false end in
    let deliver := match class with Class_Always => true | _ => counted || token (em_calls e) end in
    mkEmitter true calls (if counted then add64 (em_failures e) 1 else em_failures e)
      (if deliver then em_dropped e else add64 (em_dropped e) 1) (if deliver then em_delivered e ++ [ev] else em_delivered e).
End Emitting.

(** * Datasets (dataset.rs) *)

Definition MAX_DATASET_BYTES : Z := 16 * 1024 * 1024.
Definition MAX_DATASET_ROWS : Z := 100000.

Record RunDataset := mkRunDataset {
  rd_name : string;
  rd_format : DatasetFormat;
  rd_columns : list string;
  rd_rows : list (list (option string));
  rd_sha256 : string;
  rd_sensitive_columns : list string;
  rd_missing_sensitive_columns : list string;
}.

(** The sensitive columns that exist, once each, and those that do not. *)
Fixpoint split_sensitive (columns requested sensitive missing : list string) : list string * list string :=
  match requested with
  | [] => (sensitive, missing)
  | c :: requested' =>
      let c := trim c in
      if str_is_empty c then split_sensitive columns requested' sensitive missing
      else if existsb (String.eqb c) columns then
        split_sensitive columns requested' (if existsb (String.eqb c) sensitive then sensitive else sensitive ++ [c]) missing
      else split_sensitive columns requested' sensitive (missing ++ [c])
  end.

(** [RunDataset::parse]; [parse] is the load engine's parser under the
    runner's limits with the digest of the bytes, and its errors as text. *)
Definition RunDataset_parse (parse : DatasetFormat -> string -> DatasetLimits -> result (list string * list (list (option string)) * string) string)
    (name : string) (format : DatasetFormat) (bytes : string) (sensitive_columns : list string) : result RunDataset string :=
  if MAX_DATASET_BYTES <? str_len bytes then
    Err ("'" +:+ name +:+ "' is " +:+ pretty (str_len bytes) +:+ " bytes; the collection runner accepts at most " +:+ pretty MAX_DATASET_BYTES +:+ " bytes")
  else
    match parse format bytes (mkDatasetLimits MAX_DATASET_ROWS MAX_CELLS) with
    | Err msg => Err ("'" +:+ name +:+ "': " +:+ default msg (str_strip_prefix "invalid load plan: " msg))
    | Ok (columns, rows, sha256) =>
        let '(sensitive, missing) := split_sensitive columns sensitive_columns [] [] in
        Ok (mkRunDataset name format columns rows sha256 sensitive missing)
    end.

Definition format_for_path (path : string) : option DatasetFormat :=
  let lower := to_ascii_lowercase path in
  if ends_with lower ".csv" then Some DatasetFormat_Csv else if ends_with lower ".json" then Some DatasetFormat_Json else None.

Definition row_count (d : RunDataset) : Z := zlen (rd_rows d).

(** [RunDataset::row_index]. *)
Definition run_row_index (d : RunDataset) (iteration : Z) : nat := Z.to_nat (iteration mod Z.max (row_count d) 1).

Definition is_sensitive (d : RunDataset) (column : string) : bool := existsb (String.eqb column) (rd_sensitive_columns d).

(** The cells of the iteration's row by column; indexing panics on a dataset
    without rows, which parsing refuses. *)
Definition row_of (d : RunDataset) (iteration : Z) : list (string * option string) :=
  zip (rd_columns d) (default [] (rd_rows d !! run_row_index d iteration)).

(** [RunDataset::row_layer]. *)
Definition run_row_layer (d : RunDataset) (iteration : Z) : VarLayer :=
  mkVarLayer ("dataset '" +:+ rd_name d +:+ "' row " +:+ pretty (Z.of_nat (run_row_index d iteration) + 1))
    (omap (fun cv : string * option string => option_map (fun v => mkVarEntry cv.1 v (is_sensitive d cv.1) true) cv.2) (row_of d iteration)).

(** [RunDataset::sensitive_values]. *)
Definition sensitive_values (d : RunDataset) (iteration : Z) : list string :=
  List.filter (fun v => negb (str_is_empty v)) (omap snd (List.filter (fun cv => is_sensitive d cv.1) (row_of d iteration))).

Definition dataset_summary (d : RunDataset) : RunDatasetSummary :=
  mkRunDatasetSummary (rd_name d) (rd_format d) (rd_sha256 d) (row_count d) (rd_columns d) (rd_sensitive_columns d).

(** * Plans (plan.rs) *)

Definition MAX_ITERATIONS : Z := 10000.
Definition MAX_STEPS : Z := 1000.
Definition MAX_DELAY_MS : Z := 10 * 60 * 1000.

Record PlannedStep := mkPlannedStep { ps_request_id : Id; ps_name : string; ps_enabled : bool; ps_delay_ms : Z }.

Record RunPlan := mkRunPlan {
  pl_workspace_id : Id;
  pl_name : string;
  pl_source : RunSource;
  pl_steps : list PlannedStep;
  pl_iterations : Z;
  pl_stop_on_failure : bool;
  pl_trusted : bool;
  pl_dataset : option RunDataset;
  pl_environment_id : option Id;
  pl_environment_name : option string;
}.

(** A saved scenario (workspace.rs), the fields a plan reads. *)
Record ScenarioStep := mkScenarioStep { ss_request_id : Id; ss_enabled : bool; ss_delay_ms : Z }.

Record Scenario := mkScenario {
  sc_id : Id;
  sc_workspace_id : Id;
  sc_name : string;
  sc_steps : list ScenarioStep;
  sc_iterations : Z;
  sc_stop_on_failure : bool;
  sc_trusted : bool;
}.

Definition from_scenario (s : Scenario) (names : Id -> string) (dataset : option RunDataset) : RunPlan :=
  mkRunPlan (sc_workspace_id s) (sc_name s) (RunSource_Scenario (sc_id s) (sc_name s) false)
    (map (fun st => mkPlannedStep (ss_request_id st) (names (ss_request_id st)) (ss_enabled st) (ss_delay_ms st)) (sc_steps s))
    (sc_iterations s) (sc_stop_on_failure s) (sc_trusted s) dataset None None.

(** [RunPlan::folder]. *)
Definition folder_plan (workspace_id : Id) (folder_id : option Id) (path : string) (requests : list (Id * string)) : RunPlan :=
  mkRunPlan workspace_id (if str_is_empty path || String.eqb path "/" then "Workspace" else path)
    (RunSource_Folder folder_id (if str_is_empty path then "/" else path))
    (map (fun '(request_id, name) => mkPlannedStep request_id name true 0) requests) 0 false true None None None.

Inductive RunError := RunError_Untrusted (name : string) | RunError_Invalid (message : string) | RunError_Dataset (message : string).

Record RunOptions := mkRunOptions {
  ro_iterations : option Z;
  ro_stop_on_failure : option bool;
  ro_fail_on : FailOn;
  ro_allow_untrusted : bool;
  ro_events : bool;
  ro_run_id : option Id;
  ro_max_report_steps : option Z;
}.

(** The first step that waits too long, and its position. *)
Fixpoint too_slow (i : Z) (steps : list PlannedStep) : option (Z * PlannedStep) :=
  match steps with
  | [] => None
  | s :: steps' => if MAX_DELAY_MS <? ps_delay_ms s then Some (i, s) else too_slow (i + 1) steps'
  end.

(** [RunPlan::check]. *)
Definition check_plan (p : RunPlan) (opts : RunOptions) : result Z RunError :=
  let invalid m := Err (RunError_Invalid m) in
  if negb (pl_trusted p) && negb (ro_allow_untrusted opts) then Err (RunError_Untrusted (pl_name p))
  else if match pl_steps p with [] => true | _ => false end then invalid ("'" +:+ pl_name p +:+ "' has no steps")
  else if negb (existsb ps_enabled (pl_steps p)) then invalid ("'" +:+ pl_name p +:+ "' has no enabled steps")
  else if MAX_STEPS <? zlen (pl_steps p) then
    invalid ("'" +:+ pl_name p +:+ "' has " +:+ pretty (zlen (pl_steps p)) +:+ " steps; the limit is " +:+ pretty MAX_STEPS)
  else match too_slow 0 (pl_steps p) with
  | Some (i, s) => invalid ("step " +:+ pretty (i + 1) +:+ " ('" +:+ ps_name s +:+ "') waits " +:+ pretty (ps_delay_ms s)
      +:+ " ms; the think-time limit is " +:+ pretty MAX_DELAY_MS +:+ " ms")
  | None =>
      let iterations := match ro_iterations opts with
        | Some n => if n =? 0 then invalid "iterations must be at least 1" else Ok n
        | None => Ok (if 0 <? pl_iterations p then pl_iterations p else from_option (fun d => Z.min (row_count d) U32_MAX) 1 (pl_dataset p))
        end in
      let? iterations := iterations in
      if MAX_ITERATIONS <? iterations then invalid (pretty iterations +:+ " iterations requested; the limit is " +:+ pretty MAX_ITERATIONS)
      else Ok iterations
  end.
