(* ===== verification/RunSecrets.v ===== *)
(** The secrets of a collection run and its notes (crates/anvil-runner/src/redact.rs,
    run.rs, lib.rs): the bounded values and names learned while it runs, what
    they withhold from a record and from a captured body, bounded text and
    bounded notes. *)
From Stdlib Require Import ZArith Lia Ascii String.
From stdpp Require Import base numbers strings pretty option list.
From S2P Require Import Prelude Text Bytes Settings Evidence Secret Redaction Observe Redactor RedactedFields RecordRedaction.
Open Scope string_scope.
Open Scope list_scope.
Open Scope Z_scope.
Open Scope record_scope.

#[export] Instance eta_StreamMessage : Eta StreamMessage := fun r =>
  mkStreamMessage (sm_direction r) (sm_offset_us r) (sm_kind r) (sm_size r) (sm_preview r) (sm_preview_is_hex r) (sm_preview_truncated r)
    (sm_event_id r) (sm_event_type r).

#[export] Instance eta_StreamTranscript : Eta StreamTranscript := fun r =>
  mkStreamTranscript (str_messages r) (str_dropped_messages r) (str_sent_count r) (str_received_count r) (str_sent_bytes r) (str_received_bytes r).

#[export] Instance eta_ExecutionOutput : Eta ExecutionOutput := fun r =>
  mkExecutionOutput (eo_response_metadata r) (eo_record r) (eo_body r) (eo_decoded_body r) (eo_extracted r) (eo_session_facts r).

Definition MAX_RUN_SECRETS : nat := 4096.

(** [clip] (lib.rs). *)
Definition clip (s : string) (max : nat) : string :=
  if (String.length s <=? max)%nat then s else str_take (floor_char_boundary s max) s +:+ "…".

(** * Bodies *)

(** [has_content_coding]. *)
Definition has_content_coding (ce : option string) : bool :=
  match ce with
  | Some ce => existsb (fun c => negb (str_is_empty c) && negb (eq_ignore_ascii_case c "identity")) (map trim (split_on "," ce))
  | None => false
  end.

(** [contains] and [replace] of bytes. *)
Definition holds (hay needle : string) : bool := negb (str_is_empty needle) && str_contains hay needle.

Fixpoint replace_bytes (needle marker : string) (skip : nat) (hay : string) : string :=
  match hay with
  | "" => ""
  | String c hay' =>
      match skip with
      | S skip' => replace_bytes needle marker skip' hay'
      | O => if starts_with hay needle then marker +:+ replace_bytes needle marker (String.length needle - 1) hay'
             else String c (replace_bytes needle marker 0 hay')
      end
  end.

(** ** What replacing leaves *)

(** [v] does not occur in [s]. *)
Definition absent (v s : string) : Prop := forall a b, s <> a +:+ v +:+ b.

(** No occurrence of [v] shares a byte with a marker. *)
Definition clear_of_marker (v : string) : Prop := forall a b c d, a +:+ v +:+ b = c +:+ REDACTED +:+ d ->
  (String.length a + String.length v <= String.length c)%nat \/ (String.length c + String.length REDACTED <= String.length a)%nat.

(** [t] is [s] with the marker for every occurrence of [w], taken from the
    left. *)
Inductive replaced_one (w : string) : string -> string -> Prop :=
  | Replaced_none s : absent w s -> replaced_one w s s
  | Replaced_next p s t : (forall a b, p +:+ w = a +:+ w +:+ b -> b = "") -> replaced_one w s t ->
      replaced_one w (p +:+ w +:+ s) (p +:+ REDACTED +:+ t).

(** One value after another. *)
Inductive replaced_all : list string -> string -> string -> Prop :=
  | Replaced_all_nil s : replaced_all [] s s
  | Replaced_all_cons v vs s u t : replaced_one v s u -> replaced_all vs u t -> replaced_all (v :: vs) s t.

Lemma str_app_split a b c d : a +:+ b = c +:+ d -> (String.length a <= String.length c)%nat -> exists e, c = a +:+ e /\ b = e +:+ d.
Proof.
  revert c. induction a as [|x a IH]; intros c; [intros E _; by exists c|]. destruct c as [|y c]; cbn [String.length]; [lia|].
  rewrite !str_app_cons. intros [= -> E] Hl. destruct (IH c E) as (e & -> & ->); [lia|]. by exists e.
Qed.

Lemma text_starts_with_app s w : starts_with s w = true <-> exists r, s = w +:+ r.
Proof.
  unfold starts_with. destruct (str_strip_prefix w s) as [r|] eqn:E.
  - split; [intros _; exists r; by apply str_strip_prefix_Some|done].
  - split; [done|]. intros (r & ->). by rewrite (proj2 (str_strip_prefix_Some w _ r)) in E.
Qed.

Lemma absent_or_first w s : w <> "" ->
  absent w s \/ exists p r, s = p +:+ w +:+ r /\ forall a b, p +:+ w = a +:+ w +:+ b -> b = "".
Proof.
  intros Hw. induction s as [|c s IH].
  { left. intros [|? a] b; [|done]. rewrite str_app_nil. by destruct w. }
  destruct (starts_with (String c s) w) eqn:E.
  { apply text_starts_with_app in E as (r & E). right. exists "", r. split; [done|]. intros a b Hab. apply (f_equal String.length) in Hab.
    rewrite !str_app_nil, !str_length_app in Hab. destruct b; [done|]. cbn in Hab. lia. }
  assert (Hn : forall r, String c s <> w +:+ r) by (intros r Hr; rewrite (proj2 (text_starts_with_app _ _)) in E; [done|by exists r]).
  destruct IH as [IH|(p & r & -> & Hf)]; [left|right].
  - intros [|x a] b Hab; [by apply (Hn b)|]. rewrite str_app_cons in Hab. injection Hab as _ Hab. by apply (IH a b).
  - exists (String c p), r. split; [done|]. intros [|x a] b Hab.
    + exfalso. apply (Hn (b +:+ r)). rewrite str_app_nil in Hab. rewrite <- !str_app_assoc, <- Hab. by rewrite !str_app_cons, str_app_assoc.
    + rewrite !str_app_cons in Hab. injection Hab as _ Hab. by apply (Hf a b).
Qed.

Lemma replace_skip w m u s : replace_bytes w m (String.length u) (u +:+ s) = replace_bytes w m 0 s.
Proof. induction u as [|c u IH]; [done|]. rewrite str_app_cons. exact IH. Qed.

Lemma replace_none w m s : absent w s -> replace_bytes w m 0 s = s.
Proof.
  induction s as [|c s IH]; intros Ha; [done|]. cbn [replace_bytes]. destruct (starts_with (String c s) w) eqn:E.
  - apply text_starts_with_app in E as (r & E). by destruct (Ha "" r).
  - rewrite IH; [done|]. intros a b Hab. apply (Ha (String c a) b). by rewrite Hab.
Qed.

Lemma replace_found w m p s : w <> "" -> (forall a b, p +:+ w = a +:+ w +:+ b -> b = "") ->
  replace_bytes w m 0 (p +:+ w +:+ s) = p +:+ m +:+ replace_bytes w m 0 s.
Proof.
  intros Hw. induction p as [|c p IH]; intros Hf.
  - rewrite !str_app_nil. assert (E : starts_with (w +:+ s) w = true) by (apply text_starts_with_app; by exists s). destruct w as [|x w]; [done|].
    rewrite str_app_cons in E |- *. cbn [replace_bytes]. rewrite E. f_equal.
    replace (String.length (String x w) - 1)%nat with (String.length w) by (cbn [String.length]; lia). apply replace_skip.
  - rewrite str_app_cons. cbn [replace_bytes]. destruct (starts_with _ w) eqn:E.
    + exfalso. apply text_starts_with_app in E as (r & E). rewrite <- str_app_cons, <- str_app_assoc in E. symmetry in E.
      destruct (str_app_split _ _ _ _ E) as (e & Ee & _); [rewrite str_length_app; lia|]. pose proof (Hf "" e Ee) as ->.
      apply (f_equal String.length) in Ee. rewrite str_app_nil_r, str_length_app in Ee. cbn in Ee. lia.
    + rewrite IH; [done|]. intros a b Hab. apply (Hf (String c a) b). by rewrite !str_app_cons, Hab.
Qed.

Lemma replace_bytes_replaced w s : w <> "" -> replaced_one w s (replace_bytes w REDACTED 0 s).
Proof.
  intros Hw. remember (String.length s) as n eqn:En. revert s En. induction n as [n IH] using lt_wf_ind. intros s ->.
  destruct (absent_or_first w s Hw) as [Ha|(p & r & -> & Hf)]; [rewrite replace_none by done; by constructor|].
  rewrite replace_found by done. constructor; [done|]. apply (IH (String.length r)); [|done]. rewrite !str_length_app. destruct w; [done|]. cbn. lia.
Qed.

Lemma absent_replaced w s t : w <> "" -> clear_of_marker w -> replaced_one w s t -> absent w t.
Proof.
  intros Hw Hc. induction 1 as [s Ha|p s t Hf _ IH]; [done|]. intros a b E. destruct (Hc _ _ _ _ (eq_sym E)) as [Hl|Hl].
  - rewrite <- (str_app_assoc a) in E. symmetry in E. destruct (str_app_split _ _ _ _ E) as (e & -> & _); [rewrite str_length_app; lia|].
    specialize (Hf a (e +:+ w)). rewrite !str_app_assoc in Hf. specialize (Hf eq_refl). destruct e; [|done]. by rewrite str_app_nil in Hf.
  - rewrite <- (str_app_assoc p) in E. destruct (str_app_split _ _ _ _ E) as (e & -> & Et); [rewrite str_length_app; lia|]. by apply (IH e b).
Qed.

Lemma absent_kept v w s t : clear_of_marker v -> replaced_one w s t -> absent v s -> absent v t.
Proof.
  intros Hc. induction 1 as [s|p s t Hf _ IH]; [done|]. intros Hs a b E. destruct (Hc _ _ _ _ (eq_sym E)) as [Hl|Hl].
  - rewrite <- (str_app_assoc a) in E. symmetry in E. destruct (str_app_split _ _ _ _ E) as (e & -> & _); [rewrite str_length_app; lia|].
    apply (Hs a (e +:+ w +:+ s)). by rewrite !str_app_assoc.
  - rewrite <- (str_app_assoc p) in E. destruct (str_app_split _ _ _ _ E) as (e & -> & Et); [rewrite str_length_app; lia|].
    apply (IH ltac:(intros a' b' ->; apply (Hs (p +:+ w +:+ a') b'); by rewrite !str_app_assoc) e b Et).
Qed.

Lemma replaced_all_kept v vs s t : clear_of_marker v -> replaced_all vs s t -> absent v s -> absent v t.
Proof. intros Hc. induction 1 as [|w vs s u t Hr _ IH]; [done|]. intros Hs. apply IH. by apply (absent_kept v w s u). Qed.

(** A value that no marker shares a byte with is gone. *)
Lemma replaced_all_absent vs s t v : replaced_all vs s t -> v ∈ vs -> v <> "" -> clear_of_marker v -> absent v t.
Proof.
  induction 1 as [|w vs s u t Hr Ha IH]; [by intros ?%elem_of_nil|]. intros Hv Hne Hc. apply elem_of_cons in Hv as [->|Hv]; [|by apply IH].
  apply (replaced_all_kept w vs u t Hc Ha). by apply (absent_replaced w s u).
Qed.

Lemma holds_absent v s : holds s v = false -> v <> "" -> absent v s.
Proof.
  unfold holds, str_contains. intros Hh Hv a b ->. destruct v as [|x v]; [done|]. cbn [str_is_empty negb andb] in Hh. revert Hh.
  induction a as [|c a IH].
  - rewrite str_app_nil. destruct (split_once _ _) as [[? ?]|] eqn:E; [done|]. intros _.
    rewrite str_app_cons in E. cbn [split_once] in E. by rewrite <- str_app_cons, (proj2 (str_strip_prefix_Some (String x v) _ b) eq_refl) in E.
  - rewrite str_app_cons. cbn [split_once]. destruct (str_strip_prefix (String x v) _); [done|]. intros Hh. apply IH. by destruct (split_once _ _) as [[? ?]|].
Qed.

Lemma list_ascii_of_string_app a b : list_ascii_of_string (a +:+ b) = list_ascii_of_string a ++ list_ascii_of_string b.
Proof. induction a as [|x a IH]; [done|]. rewrite str_app_cons. cbn. by rewrite IH. Qed.

(** A value that starts with a byte the marker does not have, and does not have
    the byte the marker starts with. *)
Lemma clear_of_marker_bytes x v : (x ∉ list_ascii_of_string REDACTED) -> ("226"%char ∉ list_ascii_of_string (String x v)) ->
  clear_of_marker (String x v).
Proof.
  intros Hx Hv a b c d E. destruct (decide (String.length a + String.length (String x v) <= String.length c)%nat) as [|Hl]; [by left|right].
  destruct (decide (String.length c + String.length REDACTED <= String.length a)%nat) as [|Hr]; [done|exfalso].
  destruct (decide (String.length c <= String.length a)%nat) as [Hca|Hac].
  - destruct (str_app_split _ _ _ _ (eq_sym E) Hca) as (e & -> & Ee). rewrite str_length_app in Hr. symmetry in Ee.
    destruct (str_app_split _ _ _ _ Ee) as (f & Ef & Ev); [lia|]. apply Hx. rewrite Ef, list_ascii_of_string_app.
    destruct f as [|y f]; [apply (f_equal String.length) in Ef; rewrite str_app_nil_r in Ef; lia|]. rewrite !str_app_cons in Ev. injection Ev as -> _.
    apply elem_of_app. right. by left.
  - destruct (str_app_split _ _ _ _ E) as (e & -> & Ee); [lia|]. rewrite str_length_app in Hl. symmetry in Ee.
    destruct (str_app_split _ _ _ _ Ee) as (f & Ef & Ev); [lia|]. apply Hv. rewrite Ef, list_ascii_of_string_app.
    destruct f as [|y f]; [apply (f_equal String.length) in Ef; rewrite str_app_nil_r in Ef; lia|]. unfold REDACTED in Ev. rewrite !str_app_cons in Ev. injection Ev as <- _.
    apply elem_of_app. right. by left.
Qed.

Section Secrets.
Context `{Libraries}.
Variable hex_decode : string -> option (list Z).

(** * The secrets of a run *)

Record RunSecrets := mkRunSecrets {
  sec_values : list string;
  sec_names : list string;
  sec_redactor : Redactor;
}.

(** [RunSecrets::rebuild]. *)
Definition rebuild (s : RunSecrets) : RunSecrets :=
  mkRunSecrets (sec_values s) (sec_names s) (Redactor_new (sec_values s) (sec_names s)).

Definition RunSecrets_new (names : list string) : RunSecrets := rebuild (mkRunSecrets [] names Redactor_default).

(** [VecDeque::remove] of the first [v]. *)
Fixpoint remove_first (v : string) (l : list string) : list string :=
  match l with [] => [] | x :: l' => if String.eqb x v then l' else x :: remove_first v l' end.

(** One turn of [add_values]: the values, and whether anything is new. *)
Definition add_value (acc : list string * bool) (v : string) : list string * bool :=
  let '(values, changed) := acc in
  if str_len v <? 4 then acc
  else if existsb (String.eqb v) values then (remove_first v values ++ [v], changed)
  else let values := values ++ [v] in (drop (List.length values - MAX_RUN_SECRETS) values, true).

(** [RunSecrets::add_values]. *)
Definition add_values (vs : list string) (s : RunSecrets) : RunSecrets * bool :=
  let '(values, changed) := fold_left add_value vs (sec_values s, false) in
  let s := mkRunSecrets values (sec_names s) (sec_redactor s) in
  (if changed then rebuild s else s, changed).

(** [RunSecrets::add_name]. *)
Definition add_name (name : string) (s : RunSecrets) : RunSecrets :=
  if existsb (fun n => eq_ignore_ascii_case n name) (sec_names s) then s
  else rebuild (mkRunSecrets (sec_values s) (sec_names s ++ [name]) (sec_redactor s)).

(** [RunSecrets::text] and [url]. *)
Definition sec_text (s : RunSecrets) (t : string) : string := text (sec_redactor s) t.
Definition sec_url (s : RunSecrets) (t : string) : string := redact_url (sec_redactor s) t.

Definition has_values (s : RunSecrets) : bool := match sec_values s with [] => false | _ => true end.

Definition scrub_message (red : Redactor) (m : StreamMessage) : StreamMessage :=
  m <| sm_preview ::= text red |> <| sm_event_id ::= option_map (text red) |> <| sm_event_type ::= option_map (text red) |>.

(** [RunSecrets::scrub_record]. *)
Definition scrub_record (s : RunSecrets) (r : ExecutionRecord) : ExecutionRecord :=
  record_metadata hex_decode (sec_redactor s) r
    <| rec_stream ::= option_map (fun st => st <| str_messages ::= map (scrub_message (sec_redactor s)) |>) |>.

(** The body was sent under a content coding. *)
Definition coded (out : ExecutionOutput) : bool :=
  (if eo_decoded_body out is Some _ then true else false)
  || match eo_response_metadata out with
     | None => match rec_response (eo_record out) with Some resp => has_content_coding (bd_content_encoding (resp_body resp)) | None => false end
     | Some m => rm_has_content_coding m
     end.

(** The decoding, when it is complete. *)
Definition complete_decoding (out : ExecutionOutput) : option string :=
  match (resp ← rec_response (eo_record out); bd_decoding (resp_body resp)) with
  | Some ContentDecoding_Complete => eo_decoded_body out
  | _ => None
  end.

(** [RunSecrets::scrub_body]. *)
Definition scrub_body (s : RunSecrets) (out : ExecutionOutput) : ExecutionOutput * option string :=
  if negb (has_values s) || str_is_empty (eo_body out) then (out, None)
  else if coded out then
    let reason := match complete_decoding out with
      | None => Some "it was not fully decoded, so it could not be checked for sensitive run values"
      | Some d => if existsb (fun v => holds d v || holds (eo_body out) v) (sec_values s) then Some "it contained a sensitive run value" else None
      end in
    match reason with
    | None => (out, None)
    | Some reason => (out <| eo_body := "" |> <| eo_decoded_body := None |>,
                      Some ("A content-encoded response body was not kept in history: " +:+ reason +:+ "."))
    end
  else
    (out <| eo_body := fold_left (fun body v => if holds body v then replace_bytes v REDACTED 0 body else body) (sec_values s) (eo_body out) |>, None).

(** * Notes (run.rs) *)

Definition MAX_TEXT : nat := 1024.
Definition MAX_NOTES : nat := 50.

(** [Notes::push]. *)
Definition notes_push (s : RunSecrets) (note : string) (notes : list string) : list string :=
  let n := clip (sec_text s note) MAX_TEXT in
  if existsb (String.eqb n) notes then notes
  else if (List.length notes <? MAX_NOTES)%nat then notes ++ [n]
  else if (List.length notes =? MAX_NOTES)%nat then notes ++ ["further notes were omitted"]
  else notes.

End Secrets.

(** * What a run knows *)

Section Known.
Context `{LibraryLaws}.

(** The redactor is built of the values; values are long enough, distinct and
    bounded. *)
Record secrets_ok (s : RunSecrets) : Prop := mkSecretsOk {
  known_built : exists raw, raw ≡ₚ sec_values s /\ built (sec_redactor s) raw;
  known_long : Forall (fun v => 4 <= str_len v) (sec_values s);
  known_distinct : NoDup (sec_values s);
  known_bounded : (List.length (sec_values s) <= MAX_RUN_SECRETS)%nat
}.

Lemma rebuild_built s : exists raw, raw ≡ₚ sec_values (rebuild s) /\ built (sec_redactor (rebuild s)) raw.
Proof. exists (sec_values s). split; [done|]. apply Built_new. Qed.

Lemma secrets_new_ok names : secrets_ok (RunSecrets_new names).
Proof. split; [apply rebuild_built|constructor|constructor|cbn; lia]. Qed.

Lemma add_name_ok name s : secrets_ok s -> secrets_ok (add_name name s).
Proof. intros [H1 H2 H3 H4]. unfold add_name. destruct (existsb _ _); [done|]. split; [apply rebuild_built|done|done|done]. Qed.

Lemma add_name_values name s : sec_values (add_name name s) = sec_values s.
Proof. unfold add_name. by destruct (existsb _ _). Qed.

Lemma remove_first_perm v l : v ∈ l -> v :: remove_first v l ≡ₚ l.
Proof.
  induction l as [|x l IH]; [by intros ?%elem_of_nil|]. intros Hv. cbn [remove_first]. destruct (String.eqb_spec x v) as [->|Hne]; [done|].
  apply elem_of_cons in Hv as [->|Hv]; [done|]. rewrite <- (IH Hv) at 2. apply perm_swap.
Qed.

Lemma existsb_elem v (l : list string) : existsb (String.eqb v) l = true <-> v ∈ l.
Proof.
  rewrite existsb_exists, list_elem_of_In. split; [intros (x & Hx & E); by apply String.eqb_eq in E as ->|].
  intros Hv. exists v. split; [done|apply String.eqb_refl].
Qed.

(** The values under an addition: still distinct, long and bounded; a
    permutation unless changed. *)
Definition values_ok (values : list string) : Prop :=
  Forall (fun v => 4 <= str_len v) values /\ NoDup values /\ (List.length values <= MAX_RUN_SECRETS)%nat.

Lemma add_value_ok values changed v : values_ok values ->
  let '(values', changed') := add_value (values, changed) v in
  values_ok values' /\ (changed = true -> changed' = true) /\ (changed' = false -> values' ≡ₚ values).
Proof.
  intros (Hl & Hd & Hb). unfold add_value. destruct (Z.ltb_spec (str_len v) 4) as [|Hv]; [done|].
  destruct (existsb (String.eqb v) values) eqn:E.
  - apply existsb_elem in E. pose proof (remove_first_perm v values E) as P. assert (P' : remove_first v values ++ [v] ≡ₚ values) by (rewrite Permutation_app_comm; exact P).
    split; [|done]. split; [by rewrite P'|]. split; [by rewrite P'|]. by rewrite (Permutation_length P').
  - assert (Hn : v ∉ values) by (intros Hin; apply existsb_elem in Hin; congruence).
    split; [|done]. split; [|split].
    + apply Forall_drop, Forall_app. split; [done|]. by constructor.
    + eapply sublist_NoDup; [|apply sublist_drop]. apply NoDup_app. split; [done|]. split; [|apply NoDup_singleton]. intros x Hx ->%list_elem_of_singleton. done.
    + rewrite length_drop. lia.
Qed.

Lemma add_value_fold vs : forall values changed, values_ok values ->
  let '(values', changed') := fold_left add_value vs (values, changed) in
  values_ok values' /\ (changed = true -> changed' = true) /\ (changed' = false -> values' ≡ₚ values).
Proof.
  induction vs as [|v vs IH]; intros values changed Hok; [done|]. cbn [fold_left].
  pose proof (add_value_ok values changed v Hok) as Hv. destruct (add_value (values, changed) v) as [values1 changed1].
  destruct Hv as (H1 & H2 & H3). specialize (IH values1 changed1 H1). destruct (fold_left add_value vs (values1, changed1)) as [values2 changed2].
  destruct IH as (I1 & I2 & I3). split; [done|]. split; [auto|]. intros ->. rewrite I3 by done. apply H3. by destruct changed1; [specialize (I2 eq_refl)|].
Qed.

Lemma add_values_ok vs s : secrets_ok s -> secrets_ok (add_values vs s).1.
Proof.
  intros [(raw & Hp & Hb) H2 H3 H4]. unfold add_values. pose proof (add_value_fold vs (sec_values s) false (conj H2 (conj H3 H4))) as Hf.
  destruct (fold_left add_value vs (sec_values s, false)) as [values changed]. destruct Hf as ((F1 & F2 & F3) & _ & Hperm).
  destruct changed; cbn [fst]; (split; [|exact F1|exact F2|exact F3]); [apply rebuild_built|].
  exists raw. split; [|done]. cbn. rewrite Hperm by done. exact Hp.
Qed.

(** [v] is among the last [k] values. *)
Definition recent (k : nat) (v : string) (values : list string) : Prop := exists front back, values = front ++ v :: back /\ (List.length back < k)%nat.

Lemma add_value_recent k v values changed x : (k < MAX_RUN_SECRETS)%nat -> NoDup values -> recent k v values ->
  recent (S k) v (add_value (values, changed) x).1.
Proof.
  intros Hk Hd (front & back & -> & Hb). unfold add_value. destruct (str_len x <? 4); [exists front, back; split; [done|lia]|].
  destruct (existsb (String.eqb x) (front ++ v :: back)) eqn:E; cbn [fst].
  - apply existsb_elem in E. destruct (decide (x = v)) as [->|Hne]; [eexists _, []; split; [done|cbn; lia]|].
    assert (Hr : exists front' back', remove_first x (front ++ v :: back) = front' ++ v :: back' /\ (List.length back' <= List.length back)%nat).
    { clear Hd Hb E. induction front as [|y front IH]; cbn [app remove_first].
      - destruct (String.eqb_spec v x); [congruence|]. eexists [], _. split; [done|]. clear. induction back as [|y back IH]; [done|]. cbn [remove_first].
        destruct (String.eqb y x); cbn [List.length]; lia.
      - destruct (String.eqb y x); [by exists front, back|]. destruct IH as (f & b & -> & ?). by exists (y :: f), b. }
    destruct Hr as (f & b & -> & Hl). exists f, (b ++ [x]). split; [by rewrite <- app_assoc|]. rewrite length_app. cbn. lia.
  - set (n := (List.length ((front ++ v :: back) ++ [x]) - MAX_RUN_SECRETS)%nat).
    assert (Hn : (n <= List.length front)%nat) by (unfold n; rewrite !length_app; cbn; lia).
    exists (drop n front), (back ++ [x]). split; [|rewrite length_app; cbn; lia].
    rewrite <- app_assoc, drop_app_le by done. done.
Qed.

Lemma add_value_new values changed v : 4 <= str_len v -> recent 1 v (add_value (values, changed) v).1.
Proof.
  intros Hv. unfold add_value. destruct (Z.ltb_spec (str_len v) 4); [lia|]. destruct (existsb _ _); cbn [fst].
  { eexists _, []. split; [done|cbn; lia]. }
  set (n := (List.length (values ++ [v]) - MAX_RUN_SECRETS)%nat).
  exists (drop n values), []. split; [|cbn; lia]. rewrite drop_app_le; [done|]. unfold n. rewrite length_app. cbn [List.length].
  assert (1 <= MAX_RUN_SECRETS)%nat by (unfold MAX_RUN_SECRETS; lia). lia.
Qed.

(** What was just added is known, when no more than fits was added. *)
Lemma add_values_known vs s v : secrets_ok s -> v ∈ vs -> 4 <= str_len v -> (List.length vs <= MAX_RUN_SECRETS)%nat ->
  v ∈ sec_values (add_values vs s).1.
Proof.
  intros [_ H2 H3 H4] Hv Hlen Hmax. unfold add_values.
  assert (Hrec : recent (List.length vs) v (fold_left add_value vs (sec_values s, false)).1).
  { assert (Hok : values_ok (sec_values s)) by done. clear H2 H3 H4. revert Hok. generalize (sec_values s) as values, false as changed.
    induction vs as [|x vs IH] using rev_ind; [by apply elem_of_nil in Hv|]. intros values changed Hok. rewrite fold_left_app. cbn [fold_left].
    rewrite length_app in *. cbn [List.length] in *. pose proof (add_value_fold vs values changed Hok) as Hf.
    apply elem_of_app in Hv as [Hv|Hv].
    - specialize (IH Hv ltac:(lia) values changed Hok). destruct (fold_left add_value vs (values, changed)) as [values1 changed1]. cbn [fst] in *.
      replace (List.length vs + 1)%nat with (S (List.length vs)) by lia. apply add_value_recent; [lia|apply Hf|done].
    - apply list_elem_of_singleton in Hv as <-. destruct (fold_left add_value vs (values, changed)) as [values1 changed1].
      destruct (add_value_new values1 changed1 v Hlen) as (front & back & -> & Hb). exists front, back. split; [done|lia]. }
  destruct (fold_left add_value vs (sec_values s, false)) as [values changed]. cbn [fst] in *.
  destruct Hrec as (front & back & -> & _). assert (v ∈ front ++ v :: back) by (apply elem_of_app; right; by left). by destruct changed.
Qed.

(** A value of 4 bytes or more starts with a character, as every [str] does. *)
Definition value_text (v : string) : Prop := 4 <= str_len v -> is_text v.

Lemma add_values_texts vs s : Forall is_text (sec_values s) -> Forall value_text vs -> Forall is_text (sec_values (add_values vs s).1).
Proof.
  intros Hs Hvs. unfold add_values.
  assert (Hf : Forall is_text (fold_left add_value vs (sec_values s, false)).1).
  { revert Hs. generalize (sec_values s) as values, false as changed. induction Hvs as [|v vs Hv _ IH]; intros values changed Hs; [done|].
    cbn [fold_left]. unfold add_value at 2. destruct (Z.ltb_spec (str_len v) 4) as [|Hl]; [by apply IH|].
    destruct (existsb _ _) eqn:E; apply IH.
    - apply existsb_elem in E. rewrite Permutation_app_comm. cbn. by rewrite (remove_first_perm v values E).
    - apply Forall_drop, Forall_app. split; [done|]. constructor; [by apply Hv|constructor]. }
  destruct (fold_left add_value vs (sec_values s, false)) as [values changed]. by destruct changed.
Qed.

(** * What a recorded output shows *)

Section Recorded.
Variable hex_decode : string -> option (list Z).

Lemma hides_perm given given' t : given ≡ₚ given' -> hides given t -> hides given' t.
Proof. intros P Ht secret form q Hs. apply Ht. by rewrite P. Qed.

Lemma record_texts_stream f rec : record_texts (rec <| rec_stream ::= f |>) = record_texts rec.
Proof. by destruct rec. Qed.

(** No value of the run is in the texts of a scrubbed record. *)
Lemma scrub_record_hides s rec : secrets_ok s -> Forall is_text (sec_values s) ->
  Forall (hides (sec_values s)) (record_texts (scrub_record hex_decode s rec)).
Proof.
  intros [(raw & Hp & Hb) _ _ _] Ht.
  unfold scrub_record. rewrite record_texts_stream. eapply list.Forall_impl; [apply (hidden_record hex_decode (sec_redactor s) raw Hb)|]. { by rewrite Hp. }
  intros t. by apply hides_perm.
Qed.

(** Nor in the texts of its stream's messages. *)
Definition stream_texts (rec : ExecutionRecord) : list string :=
  concat (map (fun st => concat (map (fun m => sm_preview m :: option_list (sm_event_id m) ++ option_list (sm_event_type m)) (str_messages st)))
    (option_list (rec_stream rec))).

Lemma scrub_record_stream s rec : secrets_ok s -> Forall is_text (sec_values s) ->
  Forall (hides_exact (sec_values s)) (stream_texts (scrub_record hex_decode s rec)).
Proof.
  intros [(raw & Hp & Hb) _ _ _] Ht. rewrite <- Hp in Ht.
  assert (Hh : forall t, hides_exact (sec_values s) (text (sec_redactor s) t)).
  { intros t secret form Hs. apply (text_hides_exact raw); [done|done|by rewrite Hp]. }
  unfold stream_texts. destruct rec as [? ? ? ? ? ? ? ? ? ? ? ? ? ? [[ms ? ? ? ? ?]|] ? ? ? ?]; cbn; [|constructor]. rewrite app_nil_r.
  induction ms as [|m ms IH]; [constructor|]. cbn. constructor; [apply Hh|]. rewrite <- !app_assoc. repeat (apply Forall_app; split); [| |exact IH].
  - destruct (sm_event_id m); repeat constructor; apply Hh.
  - destruct (sm_event_type m); repeat constructor; apply Hh.
Qed.

(** No reading of a URL of a finding's evidence finds one. *)
Lemma scrub_record_urls `{!DecodeLaws} s rec : secrets_ok s -> Forall is_text (sec_values s) ->
  Forall (url_unread (sec_values s)) (evidence_urls (scrub_record hex_decode s rec)).
Proof.
  intros [(raw & Hp & Hb) _ _ _] Ht. rewrite <- Hp in Ht.
  assert (Hu : forall t, unread raw t -> unread (sec_values s) t) by (intros t Hr secret layer i Hs; apply Hr; by rewrite Hp).
  replace (evidence_urls (scrub_record hex_decode s rec)) with (evidence_urls (record_metadata hex_decode (sec_redactor s) rec)) by (by destruct rec).
  eapply list.Forall_impl; [by apply (evidence_urls_unread hex_decode (sec_redactor s) raw Hb)|].
  intros u [->|[Hr|(scheme & host & -> & Hr & Hh)]]; [by left|right; left; auto|]. right. right. exists scheme, host.
  split; [done|]. split; [auto|]. eapply hides_perm; done.
Qed.

(** The body of a refused tunnel is an excerpt of a text that shows none. *)
Lemma scrub_record_refusals s rec : secrets_ok s -> Forall is_text (sec_values s) ->
  forall b, b ∈ refusal_bodies (scrub_record hex_decode s rec) ->
  exists redact captured cut, (forall t, hides (sec_values s) (redact t)) /\ captured ∈ refusal_bodies rec /\ cut_at captured 8192 cut /\
    excerpt_of redact captured cut b.
Proof.
  intros [(raw & Hp & Hb) _ _ _] Ht b. rewrite <- Hp in Ht.
  replace (refusal_bodies (scrub_record hex_decode s rec)) with (refusal_bodies (record_metadata hex_decode (sec_redactor s) rec)) by (by destruct rec).
  intros (captured & cut & Hin & Hcut & He)%refusal_bodies_excerpts. eexists _, captured, cut. split; [|done].
  intros t. eapply hides_perm; [done|]. by apply text_hides.
Qed.

(** A body not coded has its values replaced one after another. *)
Lemma scrub_body_plain s out : Forall (fun v => 4 <= str_len v) (sec_values s) -> coded out = false ->
  replaced_all (sec_values s) (eo_body out) (eo_body (scrub_body s out).1).
Proof.
  intros Hl Hc. unfold scrub_body. rewrite Hc. assert (Hne : Forall (fun v => v <> "") (sec_values s)) by (eapply list.Forall_impl; [exact Hl|]; by intros [|? ?]).
  destruct (negb (has_values s) || str_is_empty (eo_body out)) eqn:E; cbn [fst].
  - apply orb_prop in E as [E|E].
    + unfold has_values in E. destruct (sec_values s); [constructor|done].
    + destruct (eo_body out) as [|? ?]; [|done]. clear Hl. induction Hne as [|v vs Hv _ IH]; [constructor|]. econstructor; [|exact IH]. constructor.
      intros [|? ?] b; [|done]. rewrite str_app_nil. by destruct v.
  - cbn. generalize (eo_body out) as body. clear Hl E Hc. induction Hne as [|v vs Hv _ IH]; intros body; [constructor|]. cbn [fold_left]. econstructor; [|apply IH].
    destruct (holds body v) eqn:Eh; [by apply replace_bytes_replaced|]. constructor. by apply holds_absent.
Qed.

(** A content-coded body is kept only when it was decoded whole and holds no
    value of the run. *)
Lemma scrub_body_coded s out : coded out = true -> has_values s = true ->
  let out' := (scrub_body s out).1 in
  eo_body out' = "" \/
  (out' = out /\ exists d, complete_decoding out = Some d /\ forall v, v ∈ sec_values s -> holds d v = false /\ holds (eo_body out) v = false).
Proof.
  intros Hc Hv out'. unfold out', scrub_body. rewrite Hc, Hv. destruct (str_is_empty (eo_body out)) eqn:Ee; cbn [negb orb fst].
  { left. by destruct (eo_body out). }
  destruct (complete_decoding out) as [d|]; [|by left]. destruct (existsb _ _) eqn:E; [by left|]. right. split; [done|]. exists d. split; [done|].
  intros v Hin. apply not_true_iff_false in E. split; apply not_true_iff_false; intros Hh; apply E, existsb_exists; exists v; rewrite Hh;
    (split; [by apply list_elem_of_In|]); [done|by rewrite orb_true_r].
Qed.

(** Coded or not, a value that no marker shares a byte with is not in a body. *)
Lemma scrub_body_absent s out v : Forall (fun v => 4 <= str_len v) (sec_values s) -> v ∈ sec_values s -> clear_of_marker v ->
  absent v (eo_body (scrub_body s out).1).
Proof.
  intros Hl Hv Hc. assert (Hne : v <> "") by (rewrite list.Forall_forall in Hl; specialize (Hl v Hv); by destruct v).
  destruct (coded out) eqn:Ec; [|eapply replaced_all_absent; [by apply scrub_body_plain|done|done|done]].
  assert (Hh : has_values s = true) by (unfold has_values; destruct (sec_values s); [by apply elem_of_nil in Hv|done]).
  destruct (scrub_body_coded s out Ec Hh) as [->|[-> (d & _ & Hd)]].
  - intros [|? ?] b; [|done]. rewrite str_app_nil. by destruct v.
  - apply holds_absent; [|done]. by apply Hd.
Qed.

(** A body whose output says it is not coded was not: nothing was removed. *)
Lemma scrub_body_not_coded s out : eo_decoded_body out = None -> coded (scrub_body s out).1 = false -> coded out = false.
Proof.
  intros Hd. unfold scrub_body. destruct (_ || _); [done|]. destruct (coded out) eqn:Ec; [|done]. unfold complete_decoding. rewrite Hd.
  assert (Hn : match (resp ← rec_response (eo_record out); bd_decoding (resp_body resp)) with Some ContentDecoding_Complete => None | _ => @None string end = None)
    by (by repeat case_match).
  rewrite Hn. cbn [fst]. intros Hc. rewrite <- Hc, <- Ec. destruct out as [? ? ? dec ? ?]. cbn in Hd. by rewrite Hd.
Qed.
End Recorded.
End Known.
