(* ===== verification/Runner.v ===== *)
(** The collection runner (crates/anvil-runner/src/run.rs): the run loop over
    iterations and steps, what each step is sent with, what is recorded and
    reported, and how the run ends.

    The engine, the provider of steps, the cancellation token and the clock are
    outside this component: what they answer at each step is an argument
    ([Surroundings]). The run's state keeps, besides the source's fields, the
    list of what was sent and recorded, for the theorems. *)
From Stdlib Require Import ZArith Lia Ascii String Sorted.
From stdpp Require Import base numbers strings pretty option list.
From S2P Require Import Prelude Text Bytes Settings Evidence Secret Redaction Vars Plan Observe Redactor RedactedFields RecordRedaction RunModel RunSecrets.
Open Scope string_scope.
Open Scope list_scope.
Open Scope Z_scope.
Open Scope record_scope.

(** [a += b] on [u32] in the release profile. *)
Definition add32 (a b : Z) : Z := (a + b) mod 2 ^ 32.

Definition MAX_REPORT_STEPS : Z := 10000.
Definition MAX_EXTRA_FAILED_STEPS : Z := 2000.
Definition MAX_ASSERTIONS_PER_STEP : nat := 50.
Definition MAX_FINDINGS_PER_STEP : nat := 5.
Definition MAX_URL : nat := 2048.
Definition MAX_SUMMARY : nat := 512.
Definition MAX_SENSITIVE_EXTRACTION_BYTES : Z := 64 * 1024.

Definition DATASET_SKIPPED_UNDER_IMPORT_ROOT : string :=
  "Dataset rows were not applied to steps of an imported collection not opened to this workspace; open its import root to use them.".

Inductive StepError := StepError_Step (m : string) | StepError_Fatal (m : string).

Definition error_text (e : StepError) : string := match e with StepError_Step m | StepError_Fatal m => m end.

(** [DispatchState]'s [Debug]. *)
Definition dispatch_debug (d : DispatchState) : string :=
  match d with
  | DispatchState_NotDispatched => "NotDispatched"
  | DispatchState_Sent => "Sent"
  | DispatchState_MayHaveBeenSent => "MayHaveBeenSent"
  | DispatchState_Unknown => "Unknown"
  end.

(** A response whose sensitive extraction is too large: every part of the
    output that derives from the response is removed. *)
Definition discard_output (var : string) (out : ExecutionOutput) : ExecutionOutput :=
  out <| eo_body := "" |> <| eo_decoded_body := None |> <| eo_response_metadata := None |>
    <| eo_record ::= fun r => r
        <| rec_prepared ::= fun p => p <| pr_url := "" |> <| pr_headers := [] |> <| pr_inferred := [] |> |>
        <| rec_attempts := [] |> <| rec_response := None |> <| rec_stream := None |>
        <| rec_assertion_results := [] |> <| rec_extracted := [] |> <| rec_findings := [] |>
        <| rec_outcome ::= fun o => o <| oc_transport := TransportState_Failed |> <| oc_application := ApplicationState_NotEvaluated |>
            <| oc_assertions := AssertionState_NotRun |> <| oc_protocol_status := ProtocolStatus_None |> <| oc_warnings := [] |>
            <| oc_summary := "Sensitive extraction '" +:+ var +:+ "' exceeded the 64 KiB limit; response data was discarded." |> |> |>.

Definition oversize_note (var : string) : string :=
  "Sensitive extraction '" +:+ var +:+ "' exceeded the 64 KiB limit; step failed, response discarded, value not forwarded.".

Section Runner.
Context `{Libraries}.
Context {Rest : Type}.
Variable hex_decode : string -> option (list Z).
(** [Id]'s text. *)
Variable id_text : Id -> string.

(** The fields of an [ExecutionContext] a run touches. *)
Record RunContext := mkRunContext {
  cx_var_layers : list VarLayer;
  cx_secrets : SecretResolver;
  cx_seed : option Z;
  cx_redaction_names : list string;
  cx_scope : option Id;
  cx_rest : Rest;
}.

Record ProvidedStep := mkProvidedStep { pv_name : string; pv_context : RunContext }.

(** What the run asks of its surroundings at iteration and step. *)
Record Surroundings := mkSurroundings {
  w_canceled_at_start : Z -> bool;
  w_canceled : Z -> Z -> bool;
  w_canceled_in_delay : Z -> Z -> bool;
  w_step : Z -> Z -> Id -> result ProvidedStep StepError;
  w_execute : Z -> Z -> RunContext -> ExecutionOutput;
  w_record : Z -> Z -> ExecutionOutput -> result unit StepError;
  w_token : nat -> bool;
  w_started_at : DateTime;
  w_finished_at : DateTime;
  w_elapsed_ms : Z;
  w_iteration_started_at : Z -> DateTime;
  w_iteration_ms : Z -> Z;
}.
Variable w : Surroundings.

(** What was sent: iteration, step, context and the engine's output; and what
    was handed to the history after the scrub. *)
Inductive RunTrace :=
  | Trace_Sent (it pos : Z) (ctx : RunContext) (out : ExecutionOutput)
  | Trace_Recorded (it pos : Z) (secrets : RunSecrets) (out : ExecutionOutput)
  | Trace_Finished (it : Z) (s : RunStep) (kept : bool).

Record Run := mkRun {
  ru_run_id : Id;
  ru_fail_on : FailOn;
  ru_stop_on_failure : bool;
  ru_max_report_steps : Z;
  ru_secrets : RunSecrets;
  ru_notes : list string;
  ru_emitter : Emitter;
  ru_progress : RunProgress;
  ru_totals : RunTotals;
  ru_iterations : list RunIteration;
  ru_retained : Z;
  ru_completion : RunnerCompletion;
  ru_abort_reason : option string;
  ru_source : RunSource;
  ru_trace : list RunTrace;
}.

#[local] Instance eta_Run : Eta Run := fun r =>
  mkRun (ru_run_id r) (ru_fail_on r) (ru_stop_on_failure r) (ru_max_report_steps r) (ru_secrets r) (ru_notes r) (ru_emitter r) (ru_progress r)
    (ru_totals r) (ru_iterations r) (ru_retained r) (ru_completion r) (ru_abort_reason r) (ru_source r) (ru_trace r).

#[local] Instance eta_RunContext : Eta RunContext := fun c =>
  mkRunContext (cx_var_layers c) (cx_secrets c) (cx_seed c) (cx_redaction_names c) (cx_scope c) (cx_rest c).

Definition add_note (note : string) (r : Run) : Run := r <| ru_notes ::= notes_push (ru_secrets r) note |>.

Definition emit_run (ev : RunEvent) (class : Class_) (r : Run) : Run := r <| ru_emitter ::= emit (w_token w) ev class |>.

Definition traced (t : RunTrace) (r : Run) : Run := r <| ru_trace ::= fun l => l ++ [t] |>.

(** * Starting (run.rs, [Run::new]) *)

Definition note_to (secrets : RunSecrets) (note : string) (notes : list string) : list string := notes_push secrets note notes.

Definition Run_new (plan : RunPlan) (opts : RunOptions) (iterations : Z) (nil_id : Id) : Run :=
  let secrets := RunSecrets_new [] in
  let source := match pl_source plan with
    | RunSource_Scenario scenario_id name _ => RunSource_Scenario scenario_id name (negb (pl_trusted plan))
    | s => s
    end in
  let notes := if negb (pl_trusted plan)
    then note_to secrets "This scenario is not trusted (imported or not yet reviewed); it ran only because this run explicitly allowed it." []
    else [] in
  let '(secrets, notes) := match pl_dataset plan with
    | None => (secrets, notes)
    | Some d =>
        let secrets := fold_left (fun s c => add_name c s) (rd_sensitive_columns d) secrets in
        let notes := match rd_missing_sensitive_columns d with
          | [] => notes
          | missing => note_to secrets ("Sensitive column(s) " +:+ join ", " missing +:+ " are not in dataset '" +:+ rd_name d
              +:+ "'; nothing was marked for them.") notes
          end in
        let notes :=
          if row_count d <? iterations then note_to secrets (pretty iterations +:+ " iterations over " +:+ pretty (row_count d)
            +:+ " dataset row(s): rows are reused in order (iteration i uses row i mod rows).") notes
          else if iterations <? row_count d then note_to secrets ("Only the first " +:+ pretty iterations +:+ " of " +:+ pretty (row_count d)
            +:+ " dataset rows were used.") notes
          else notes in
        (secrets, notes)
    end in
  mkRun (default nil_id (ro_run_id opts)) (ro_fail_on opts) (default (pl_stop_on_failure plan) (ro_stop_on_failure opts))
    (default MAX_REPORT_STEPS (ro_max_report_steps opts)) secrets notes (Emitter_new (ro_events opts))
    (mkRunProgress 0 (iterations * Z.of_nat (List.length (pl_steps plan))) 0 0 iterations)
    (RunTotals_default <| rt_iterations_planned := iterations |>) [] 0 RunnerCompletion_Completed None source [].

(** * Steps that are not executed *)

Definition not_executed (pos : Z) (step : PlannedStep) (status : RunStepStatus) (message : string) (delay_ms : Z) : RunStep := {|
  rs_index := pos; rs_request_id := ps_request_id step; rs_revision_id := None; rs_name := clip (ps_name step) MAX_SUMMARY;
  rs_protocol := None; rs_method := ""; rs_url := ""; rs_status := status; rs_failed_dimensions := []; rs_execution_id := None;
  rs_transport := None; rs_application := None; rs_assertions := None; rs_dispatch := None; rs_http_status := None; rs_grpc_status := None;
  rs_summary := ""; rs_message := Some message; rs_duration_ms := None; rs_exchange_ms := None; rs_delay_ms := delay_ms;
  rs_assertion_results := []; rs_assertion_results_omitted := 0; rs_findings := []; rs_extracted := [] |}.

Definition stop_reason (r : Run) : string :=
  match ru_completion r with
  | RunnerCompletion_Aborted => "not started: the run was aborted"
  | _ => "not started: the run was canceled"
  end.

Definition abort (reason : string) (r : Run) : Run :=
  r <| ru_completion := RunnerCompletion_Aborted |>
    <| ru_abort_reason := match ru_abort_reason r with None => Some reason | some => some end |>.

(** * Counting and keeping a finished step *)

Definition count_dimension (t : RunTotals) (d : OutcomeDimension) : RunTotals :=
  match d with
  | OutcomeDimension_Transport => t <| rt_transport_failures ::= fun n => add64 n 1 |>
  | OutcomeDimension_Application => t <| rt_application_failures ::= fun n => add64 n 1 |>
  | OutcomeDimension_Assertions => t <| rt_assertion_failures ::= fun n => add64 n 1 |>
  end.

Definition count_status (s : RunStep) (t : RunTotals) : RunTotals :=
  match rs_status s with
  | RunStepStatus_Passed => t <| rt_steps_passed ::= fun n => add64 n 1 |>
  | RunStepStatus_Failed => t <| rt_steps_failed ::= fun n => add64 n 1 |>
  | RunStepStatus_Error => t <| rt_steps_errored ::= fun n => add64 n 1 |>
  | RunStepStatus_Skipped => t <| rt_steps_skipped ::= fun n => add64 n 1 |>
  | RunStepStatus_Canceled => match rs_execution_id s with
      | Some _ => t <| rt_steps_canceled_in_flight ::= fun n => add64 n 1 |>
      | None => t <| rt_steps_canceled ::= fun n => add64 n 1 |>
      end
  end.

Definition count_step (s : RunStep) (t : RunTotals) : RunTotals :=
  let t := count_status s t in
  match rs_execution_id s with
  | Some _ =>
      fold_left count_dimension (rs_failed_dimensions s)
        (t <| rt_steps_executed ::= fun n => add64 n 1 |> <| rt_step_time_ms ::= fun n => add64 n (default 0 (rs_duration_ms s)) |>)
  | None => t
  end.

Definition step_failed (s : RunStep) : bool :=
  match rs_status s with RunStepStatus_Failed | RunStepStatus_Error => true | _ => false end.

Definition keeps (s : RunStep) (r : Run) : bool :=
  (ru_retained r <? ru_max_report_steps r)
  || (match rs_status s with RunStepStatus_Passed | RunStepStatus_Skipped => false | _ => true end
      && (ru_retained r <? ru_max_report_steps r + MAX_EXTRA_FAILED_STEPS)).

Definition omitted_note (r : Run) : string :=
  "The report keeps at most " +:+ pretty (ru_max_report_steps r) +:+ " step summaries (plus " +:+ pretty MAX_EXTRA_FAILED_STEPS
  +:+ " failed ones); further summaries were omitted, totals still count them.".

(** The summaries of the iteration kept so far, and how many were omitted. *)
Record Kept := mkKept { kp_steps : list RunStep; kp_omitted : Z }.

(** [Run::finish_step]. *)
Definition finish_step (it : Z) (s : RunStep) (k : Kept) (r : Run) : Kept * Run :=
  let r := r <| ru_totals ::= count_step s |> in
  let r := r <| ru_progress ::= fun p => p <| rp_steps_done ::= fun n => add64 n 1 |>
      <| rp_steps_failed ::= fun n => if step_failed s then add64 n 1 else n |> |> in
  let r := emit_run (RunEvent_StepFinished (ru_run_id r) it (rs_index s) (rs_status s) (rs_execution_id s) (rs_http_status s) (rs_duration_ms s)
      (ru_progress r)) (if step_failed s then Class_Failure else Class_Normal) r in
  let keep := keeps s r in
  let r := traced (Trace_Finished it s keep) r in
  if keep then (mkKept (kp_steps k ++ [s]) (kp_omitted k), r <| ru_retained ::= fun n => n + 1 |>)
  else (mkKept (kp_steps k) (add32 (kp_omitted k) 1), add_note (omitted_note r) r).

(** * The summary of an executed step *)

Definition failed_dimensions (o : ExecutionOutcome) : list OutcomeDimension :=
  (if bool_decide (oc_transport o = TransportState_Completed) then [] else [OutcomeDimension_Transport]) ++
  (match oc_application o with ApplicationState_Failure => [OutcomeDimension_Application] | _ => [] end) ++
  (match oc_assertions o with AssertionState_Fail => [OutcomeDimension_Assertions] | _ => [] end).

Definition counted (d : OutcomeDimension) (f : FailOn) : bool :=
  match d with
  | OutcomeDimension_Transport => fo_transport f
  | OutcomeDimension_Application => fo_application f
  | OutcomeDimension_Assertions => fo_assertions f
  end.

Definition step_status (f : FailOn) (o : ExecutionOutcome) : RunStepStatus * list OutcomeDimension :=
  if bool_decide (oc_transport o = TransportState_Canceled) then (RunStepStatus_Canceled, [])
  else
    let dims := failed_dimensions o in
    (if existsb (fun d => counted d f) dims then RunStepStatus_Failed else RunStepStatus_Passed, dims).

Definition statuses (rec : ExecutionRecord) : option Z * option Z :=
  match oc_protocol_status (rec_outcome rec) with
  | ProtocolStatus_Http status _ => (Some status, None)
  | ProtocolStatus_Grpc http_status grpc_status _ _ => (http_status, grpc_status)
  | ProtocolStatus_WebSocket handshake_status _ _ _ _ => (handshake_status, None)
  | ProtocolStatus_Sse http_status _ _ => (Some http_status, None)
  | _ => (resp_status <$> rec_response rec, None)
  end.

Definition count_assertion (t : RunTotals) (a : AssertionResult) : RunTotals :=
  if ar_passed a then t <| rt_assertions_passed ::= fun n => add64 n 1 |> else t <| rt_assertions_failed ::= fun n => add64 n 1 |>.

(** The last attempt's failure, or up to three extraction misses. *)
Definition step_message (sec : RunSecrets) (rec : ExecutionRecord) : option string :=
  match (a ← last (rec_attempts rec); att_failure a) with
  | Some f => Some (clip (sec_text sec (tf_message f)) MAX_TEXT)
  | None =>
      match take 3 (List.filter (fun m => starts_with m "extraction for") (map ow_message (oc_warnings (rec_outcome rec)))) with
      | [] => None
      | misses => Some (clip (sec_text sec (join "; " misses)) MAX_TEXT)
      end
  end.

Definition result_summary (sec : RunSecrets) (a : AssertionResult) : AssertionResult :=
  mkAssertionResult (clip (sec_text sec (ar_label a)) MAX_SUMMARY) (ar_passed a)
    (option_map (fun x => clip (sec_text sec x) MAX_SUMMARY) (ar_actual a)) (clip (sec_text sec (ar_message a)) MAX_TEXT).

Definition finding_summary (sec : RunSecrets) (f : DiagnosticFinding) : RunFindingSummary :=
  mkRunFindingSummary (df_code f) (clip (sec_text sec (df_title f)) MAX_SUMMARY) (df_confidence f) (df_severity f).

(** The summary [executed] makes of a record. *)
Definition summarize (sec : RunSecrets) (fail_on : FailOn) (pos : Z) (step : PlannedStep) (name : string) (rec : ExecutionRecord) : RunStep :=
  let o := rec_outcome rec in
  let '(status, dims) := step_status fail_on o in
  let '(http_status, grpc_status) := statuses rec in {|
    rs_index := pos; rs_request_id := ps_request_id step; rs_revision_id := rec_revision_id rec; rs_name := clip name MAX_SUMMARY;
    rs_protocol := Some (pr_protocol (rec_prepared rec)); rs_method := clip (pr_method (rec_prepared rec)) 32;
    rs_url := clip (sec_url sec (pr_url (rec_prepared rec))) MAX_URL; rs_status := status; rs_failed_dimensions := dims;
    rs_execution_id := Some (rec_id rec); rs_transport := Some (oc_transport o); rs_application := Some (oc_application o);
    rs_assertions := Some (oc_assertions o); rs_dispatch := Some (oc_dispatch o); rs_http_status := http_status; rs_grpc_status := grpc_status;
    rs_summary := clip (sec_text sec (oc_summary o)) MAX_SUMMARY; rs_message := step_message sec rec;
    rs_duration_ms := Some (Z.max 0 (Z.quot (unix_nanos (rec_finished_at rec) - unix_nanos (rec_started_at rec)) 1000000));
    rs_exchange_ms := option_map (fun us => us / 1000) (exchange_duration_us (rec_attempts rec)); rs_delay_ms := ps_delay_ms step;
    rs_assertion_results := map (result_summary sec) (take MAX_ASSERTIONS_PER_STEP (rec_assertion_results rec));
    rs_assertion_results_omitted := Z.max 0 (Z.of_nat (List.length (rec_assertion_results rec)) - Z.of_nat MAX_ASSERTIONS_PER_STEP);
    rs_findings := map (finding_summary sec) (take MAX_FINDINGS_PER_STEP (rec_findings rec));
    rs_extracted := rec_extracted rec |}.

(** [Run::executed]. *)
Definition executed (pos : Z) (step : PlannedStep) (name : string) (rec : ExecutionRecord) (r : Run) : RunStep * Run :=
  (summarize (ru_secrets r) (ru_fail_on r) pos step name rec, r <| ru_totals ::= fun t => fold_left count_assertion (rec_assertion_results rec) t |>).

(** * One iteration *)

Abbreviation Scoped := (option Id * string)%type.

(** The variables of an iteration: extracted values with the scope of the step
    that extracted them, and the names of a scope whose value was too large. *)
Record Vars := mkVars { va_extracted : list (option Id * VarEntry); va_unavailable : list Scoped }.

Definition is_unavailable (v : Vars) (scope : option Id) (name : string) : bool :=
  existsb (fun x => bool_decide (x.1 = scope) && String.eqb x.2 name) (va_unavailable v).

(** Entries of other scopes or names. *)
Definition other_entry (scope : option Id) (name : string) (e : option Id * VarEntry) : bool :=
  negb (bool_decide (e.1 = scope) && String.eqb (ve_name e.2) name).

Definition visible_to (scope : option Id) (v : Vars) : list VarEntry :=
  map snd (List.filter (fun e => bool_decide (e.1 = scope)) (va_extracted v)).

Definition run_layer (it pos : Z) : VarLayer :=
  mkVarLayer "run" [mkVarEntry "anvil.iteration" (pretty it) false false; mkVarEntry "anvil.step" (pretty pos) false false].

(** Every sensitive name of the run, in the context's list unless it is there. *)
Definition with_names (secrets : RunSecrets) (names : list string) : list string :=
  fold_left (fun l n => if existsb (fun x => eq_ignore_ascii_case x n) l then l else l ++ [n]) (sec_names secrets) names.

Definition step_seed (it pos seed : Z) : Z := splitmix64 (Z.lxor seed (splitmix64 (Z.lor (Z.shiftl it 32) pos))).

(** The context of a step: the provider's, under the run's layers. *)
Definition step_context (it pos : Z) (dataset_layer : option VarLayer) (v : Vars) (secrets : RunSecrets) (ctx : RunContext) : RunContext :=
  let scope := cx_scope ctx in
  let layers := cx_var_layers ctx ++ [run_layer it pos] ++
    (match dataset_layer with Some l => if bool_decide (scope = None) then [l] else [] | None => [] end) ++
    (match visible_to scope v with [] => [] | vars => [mkVarLayer "extracted (this iteration)" vars] end) in
  let '(layers, store) := match va_unavailable v with
    | [] => (layers, cx_secrets ctx)
    | _ => retain_variables (fun e => negb (is_unavailable v scope (ve_name e))) layers (cx_secrets ctx)
    end in
  ctx <| cx_var_layers := layers |> <| cx_secrets := store |>
      <| cx_redaction_names ::= with_names secrets |>
      <| cx_seed ::= option_map (step_seed it pos) |>.

Definition too_large (x : string * string * bool) : bool :=
  let '(_, value, sensitive) := x in sensitive && (MAX_SENSITIVE_EXTRACTION_BYTES <? str_len value).

(** The variables after one extracted value: it replaces the value its scope
    had under the name, or makes the name unavailable. *)
Definition extract_var (scope : option Id) (v : Vars) (x : string * string * bool) : Vars :=
  let '(var, value, sensitive) := x in
  let extracted := List.filter (other_entry scope var) (va_extracted v) in
  let others := List.filter (fun y : Scoped => negb (bool_decide (y.1 = scope) && String.eqb y.2 var)) (va_unavailable v) in
  if too_large x then mkVars extracted (others ++ [(scope, var)])
  else mkVars (extracted ++ [(scope, mkVarEntry var value sensitive true)]) others.

(** One extracted value: the variables, the new secrets, the output and the
    run after it. *)
Definition extract_value (scope : option Id) (acc : Vars * list string * ExecutionOutput * Run) (x : string * string * bool)
    : Vars * list string * ExecutionOutput * Run :=
  let '(v, new_secrets, out, r) := acc in
  let '(var, value, sensitive) := x in
  if too_large x then (extract_var scope v x, new_secrets, discard_output var out, add_note (oversize_note var) r)
  else
    (extract_var scope v x, if sensitive then new_secrets ++ [value] else new_secrets, out,
     if sensitive then r <| ru_secrets ::= add_name var |> else r).

(** The loop of an iteration over its steps. *)
Record Loop := mkLoop {
  lo_vars : Vars;
  lo_stopped_at : option Z;
  lo_failed : bool;
  lo_stop : bool;
  lo_kept : Kept;
}.

#[local] Instance eta_Loop : Eta Loop := fun l => mkLoop (lo_vars l) (lo_stopped_at l) (lo_failed l) (lo_stop l) (lo_kept l).

Definition finished (it : Z) (s : RunStep) (lr : Loop * Run) : Loop * Run :=
  let '(l, r) := lr in
  let '(k, r) := finish_step it s (lo_kept l) r in (l <| lo_kept := k |>, r).

(** The loop notices a cancellation. *)
Definition notice_cancel (it pos : Z) (lr : Loop * Run) : Loop * Run :=
  let '(l, r) := lr in
  if negb (lo_stop l) && w_canceled w it pos then (l <| lo_stop := true |>, r <| ru_completion := RunnerCompletion_Canceled |>) else (l, r).

(** Why a step is not run. *)
Definition not_run (step : PlannedStep) (l : Loop) (r : Run) : option (RunStepStatus * string) :=
  if lo_stop l then Some (RunStepStatus_Canceled, stop_reason r)
  else if negb (ps_enabled step) then Some (RunStepStatus_Skipped, "disabled in the scenario")
  else option_map (fun f => (RunStepStatus_Skipped,
    "not run: step " +:+ pretty (f + 1) +:+ " failed and the run stops an iteration at its first failure")) (lo_stopped_at l).

Definition canceled_note (it pos : Z) (name : string) (d : DispatchState) : string :=
  "Iteration " +:+ pretty (it + 1) +:+ " step " +:+ pretty (pos + 1) +:+ " ('" +:+ name +:+ "') was canceled after its request may have reached the peer ("
  +:+ dispatch_debug d +:+ "). It was not retried; check the server state before running it again.".

(** After a step that the provider could not give. *)
Definition step_error (it pos : Z) (step : PlannedStep) (e : StepError) (l : Loop) (r : Run) : Loop * Run :=
  let msg := clip (sec_text (ru_secrets r) (error_text e)) MAX_TEXT in
  let '(l, r) := finished it (not_executed pos step RunStepStatus_Error ("not sent: " +:+ msg) (ps_delay_ms step)) (l, r) in
  let l := l <| lo_failed := true |> in
  match e with
  | StepError_Fatal _ => (l <| lo_stop := true |>, abort msg r)
  | StepError_Step _ => (if ru_stop_on_failure r then l <| lo_stopped_at := Some pos |> else l, r)
  end.

(** The output is scrubbed and handed to the history. *)
Definition record_step (it pos : Z) (out : ExecutionOutput) (l : Loop) (r : Run) : ExecutionOutput * Loop * Run :=
  let secrets := ru_secrets r in
  let out := out <| eo_record ::= scrub_record hex_decode secrets |> in
  let '(out, note) := scrub_body secrets out in
  let r := match note with Some n => add_note n r | None => r end in
  let r := traced (Trace_Recorded it pos secrets out) r in
  match w_record w it pos out with
  | Ok _ => (out, l, r)
  | Err e =>
      let msg := clip (sec_text secrets (error_text e)) MAX_TEXT in
      match e with
      | StepError_Step _ => (out, l, add_note ("A step could not be recorded in history: " +:+ msg) r)
      | StepError_Fatal _ => (out, l <| lo_stop := true |>, abort msg r)
      end
  end.

(** What the status of an executed step does to the loop and the run. *)
Definition settle_step (it pos : Z) (name : string) (s : RunStep) (l : Loop) (r : Run) : Loop * Run :=
  match rs_status s with
  | RunStepStatus_Canceled =>
      let r := if bool_decide (ru_completion r = RunnerCompletion_Completed) then r <| ru_completion := RunnerCompletion_Canceled |> else r in
      let l := l <| lo_stop := true |> in
      match rs_dispatch s with
      | Some DispatchState_NotDispatched | None => (l, r)
      | Some d => (l, add_note (canceled_note it pos name d) r)
      end
  | RunStepStatus_Failed =>
      let l := l <| lo_failed := true |> in
      (if ru_stop_on_failure r && (if lo_stopped_at l is None then true else false) then l <| lo_stopped_at := Some pos |> else l, r)
  | _ => (l, r)
  end.

(** A step that is executed: sent, its values extracted, scrubbed, recorded,
    summarized, counted. *)
Definition execute_step (it pos : Z) (step : PlannedStep) (dataset_layer : option VarLayer) (name : string) (provided : ProvidedStep)
    (l : Loop) (r : Run) : Loop * Run :=
  let name := if str_is_empty (pv_name provided) then name else pv_name provided in
  let scope := cx_scope (pv_context provided) in
  let r := match dataset_layer with
    | Some _ => if bool_decide (scope = None) then r else add_note DATASET_SKIPPED_UNDER_IMPORT_ROOT r
    | None => r
    end in
  let ctx := step_context it pos dataset_layer (lo_vars l) (ru_secrets r) (pv_context provided) in
  let out := w_execute w it pos ctx in
  let r := traced (Trace_Sent it pos ctx out) r in
  let '(v, new_secrets, out, r) :=
    fold_left (extract_value scope) (eo_extracted out) (lo_vars l, [], out <| eo_extracted := [] |>, r) in
  let l := l <| lo_vars := v |> in
  let r := r <| ru_secrets ::= fun s => (add_values new_secrets s).1 |> in
  let '(out, l, r) := record_step it pos out l r in
  let '(s, r) := executed pos step name (eo_record out) r in
  let '(l, r) := settle_step it pos name s l r in
  finished it s (l, r).

(** A step whose turn has come. *)
Definition start_step (it pos : Z) (step : PlannedStep) (dataset_layer : option VarLayer) (l : Loop) (r : Run) : Loop * Run :=
  if (0 <? ps_delay_ms step) && w_canceled_in_delay w it pos then
    finished it (not_executed pos step RunStepStatus_Canceled "canceled during think time; not sent" (ps_delay_ms step))
      (l <| lo_stop := true |>, r <| ru_completion := RunnerCompletion_Canceled |>)
  else
    let name := if str_is_empty (ps_name step) then id_text (ps_request_id step) else ps_name step in
    let r := emit_run (RunEvent_StepStarted (ru_run_id r) it pos (ps_request_id step) name) Class_Normal r in
    match w_step w it pos (ps_request_id step) with
    | Err e => step_error it pos step e l r
    | Ok provided => execute_step it pos step dataset_layer name provided l r
    end.

(** One turn of the loop. *)
Definition run_step (it : Z) (dataset_layer : option VarLayer) (pos : Z) (step : PlannedStep) (lr : Loop * Run) : Loop * Run :=
  let '(l, r) := notice_cancel it pos lr in
  match not_run step l r with
  | Some (status, msg) => finished it (not_executed pos step status msg 0) (l, r)
  | None => start_step it pos step dataset_layer l r
  end.

Fixpoint run_steps (it : Z) (dataset_layer : option VarLayer) (pos : Z) (steps : list PlannedStep) (lr : Loop * Run) : Loop * Run :=
  match steps with
  | [] => lr
  | step :: steps' => run_steps it dataset_layer (pos + 1) steps' (run_step it dataset_layer pos step lr)
  end.

Definition Loop_new : Loop := mkLoop (mkVars [] []) None false false (mkKept [] 0).

Definition iteration_status (l : Loop) : RunIterationStatus :=
  if lo_stop l then RunIterationStatus_Incomplete else if lo_failed l then RunIterationStatus_Failed else RunIterationStatus_Passed.

Definition count_iteration (status : RunIterationStatus) (t : RunTotals) : RunTotals :=
  match status with
  | RunIterationStatus_Passed => t <| rt_iterations_passed ::= fun n => add32 n 1 |>
  | RunIterationStatus_Failed => t <| rt_iterations_failed ::= fun n => add32 n 1 |>
  | RunIterationStatus_Incomplete => t <| rt_iterations_incomplete ::= fun n => add32 n 1 |>
  end.

(** The start of [Run::iteration]. *)
Definition begin_iteration (plan : RunPlan) (it : Z) (r : Run) : Run :=
  let r := match pl_dataset plan with Some d => r <| ru_secrets ::= fun s => (add_values (sensitive_values d it) s).1 |> | None => r end in
  let r := r <| ru_totals ::= fun t => t <| rt_iterations_started ::= fun n => add32 n 1 |> |> in
  emit_run (RunEvent_IterationStarted (ru_run_id r) it (option_map (fun d => Z.of_nat (run_row_index d it) + 1) (pl_dataset plan))) Class_Normal r.

(** The end of [Run::iteration]; whether the run must stop. *)
Definition end_iteration (plan : RunPlan) (it : Z) (lr : Loop * Run) : bool * Run :=
  let '(l, r) := lr in
  let status := iteration_status l in
  let r := r <| ru_totals ::= count_iteration status |> <| ru_progress ::= fun p => p <| rp_iterations_done ::= fun n => add32 n 1 |> |> in
  let r := emit_run (RunEvent_IterationFinished (ru_run_id r) it status (ru_progress r))
      (if bool_decide (status = RunIterationStatus_Passed) then Class_Normal else Class_Failure) r in
  (lo_stop l, r <| ru_iterations ::= fun its => its ++ [mkRunIteration it
      (option_map (fun d => Z.of_nat (run_row_index d it) + 1) (pl_dataset plan)) (w_iteration_started_at w it) (w_iteration_ms w it) status
      (lo_stopped_at l) (kp_steps (lo_kept l)) (kp_omitted (lo_kept l))] |>).

(** [Run::iteration]. *)
Definition iteration (plan : RunPlan) (it : Z) (r : Run) : bool * Run :=
  end_iteration plan it
    (run_steps it (option_map (fun d => run_row_layer d it) (pl_dataset plan)) 0 (pl_steps plan) (Loop_new, begin_iteration plan it r)).

(** * The run *)

(** The loop of [run] from iteration [it]; [left] iterations are planned. *)
Fixpoint run_iterations (plan : RunPlan) (left : nat) (it : Z) (r : Run) : Run :=
  match left with
  | O => r
  | S left' =>
      if w_canceled_at_start w it then r <| ru_completion := RunnerCompletion_Canceled |>
      else
        let '(incomplete, r) := iteration plan it r in
        if incomplete then r else run_iterations plan left' (it + 1) r
  end.

(** [Run::finish]. *)
Definition finish_run (plan : RunPlan) (schema_version : Z) (runner_version : string) (r : Run) : RunReport * Run :=
  let r := emit_run (RunEvent_RunFinished (ru_run_id r) (ru_completion r) (ru_progress r) (em_dropped (ru_emitter r))) Class_Always r in
  ({| rep_run_id := ru_run_id r; rep_report_version := RUN_REPORT_VERSION; rep_schema_version := schema_version; rep_runner_version := runner_version;
      rep_workspace_id := pl_workspace_id plan; rep_name := clip (pl_name plan) MAX_SUMMARY; rep_source := ru_source r;
      rep_environment_id := pl_environment_id plan; rep_environment_name := pl_environment_name plan;
      rep_dataset := option_map dataset_summary (pl_dataset plan); rep_fail_on := ru_fail_on r; rep_stop_on_failure := ru_stop_on_failure r;
      rep_started_at := w_started_at w; rep_finished_at := w_finished_at w; rep_duration_ms := w_elapsed_ms w;
      rep_completion := ru_completion r; rep_partial := negb (bool_decide (ru_completion r = RunnerCompletion_Completed));
      rep_abort_reason := ru_abort_reason r; rep_totals := ru_totals r; rep_iterations := ru_iterations r; rep_notes := ru_notes r |}, r).

(** [run]: an error before anything is sent, or a report, with the final
    state. *)
Definition run (plan : RunPlan) (opts : RunOptions) (nil_id : Id) (schema_version : Z) (runner_version : string) : result (RunReport * Run) RunError :=
  let? iterations := check_plan plan opts in
  let r := Run_new plan opts iterations nil_id in
  let r := emit_run (RunEvent_RunStarted (ru_run_id r) (pl_name plan) iterations (Z.of_nat (List.length (pl_steps plan)))) Class_Always r in
  Ok (finish_run plan schema_version runner_version (run_iterations plan (Z.to_nat iterations) 0 r)).

(** * What a turn does *)

(** Whether the values a run meets are text and the libraries keep their
    laws: only what is said of recorded outputs depends on it. *)
Variable texts : Prop.
Hypothesis laws : texts -> LibraryLaws.
(** Extracted values are text. *)
Hypothesis extracted_texts : texts -> forall it pos ctx x, x ∈ eo_extracted (w_execute w it pos ctx) -> value_text x.1.2.

(** The secrets are in order and are text. *)
Definition known_ok (s : RunSecrets) : Prop := texts -> secrets_ok s /\ Forall is_text (sec_values s).

Lemma add_name_known name s : known_ok s -> known_ok (add_name name s).
Proof. intros Hk Ht. destruct (Hk Ht) as [H1 H2]. split; [pose proof (laws Ht); by apply add_name_ok|]. by rewrite add_name_values. Qed.

Lemma add_values_known_ok vs s : (texts -> Forall value_text vs) -> known_ok s -> known_ok (add_values vs s).1.
Proof. intros Hv Hk Ht. destruct (Hk Ht) as [H1 H2]. pose proof (laws Ht). split; [by apply add_values_ok|by apply add_values_texts; auto]. Qed.

(** Nothing finished: [new] was sent or recorded, and no count changed. *)
Record quiet (new : list RunTrace) (r r' : Run) : Prop := mkQuiet {
  quiet_fail_on : ru_fail_on r' = ru_fail_on r;
  quiet_stop_on_failure : ru_stop_on_failure r' = ru_stop_on_failure r;
  quiet_max : ru_max_report_steps r' = ru_max_report_steps r;
  quiet_secrets : known_ok (ru_secrets r) -> known_ok (ru_secrets r');
  quiet_totals : ru_totals r' = ru_totals r;
  quiet_iterations : ru_iterations r' = ru_iterations r;
  quiet_retained : ru_retained r' = ru_retained r;
  quiet_completion : ru_completion r <> RunnerCompletion_Completed -> ru_completion r' <> RunnerCompletion_Completed;
  quiet_trace : ru_trace r' = ru_trace r ++ new;
  quiet_notes : (List.length (ru_notes r) <= S MAX_NOTES)%nat -> (List.length (ru_notes r') <= S MAX_NOTES)%nat
}.

Lemma quiet_refl r : quiet [] r r.
Proof. split; try done. by rewrite app_nil_r. Qed.

Lemma quiet_trans a b r1 r2 r3 : quiet a r1 r2 -> quiet b r2 r3 -> quiet (a ++ b) r1 r3.
Proof. intros [] []. split; try congruence; auto. etransitivity; [eassumption|]. rewrite app_assoc. congruence. Qed.

Lemma notes_push_bound s note notes : (List.length notes <= S MAX_NOTES)%nat -> (List.length (notes_push s note notes) <= S MAX_NOTES)%nat.
Proof.
  intros Hl. unfold notes_push. destruct (existsb _ _); [done|]. destruct (Nat.ltb_spec (List.length notes) MAX_NOTES); [rewrite length_app; cbn [List.length]; lia|].
  destruct (Nat.eqb_spec (List.length notes) MAX_NOTES); [rewrite length_app; cbn [List.length]; lia|done].
Qed.

Lemma quiet_note note r : quiet [] r (add_note note r).
Proof. split; try done; cbn; [by rewrite app_nil_r|apply notes_push_bound]. Qed.

Lemma quiet_emit ev class r : quiet [] r (emit_run ev class r).
Proof. split; try done. cbn. by rewrite app_nil_r. Qed.

Lemma quiet_traced t r : quiet [t] r (traced t r).
Proof. by split. Qed.

Lemma quiet_abort reason r : quiet [] r (abort reason r).
Proof. split; try done. cbn. by rewrite app_nil_r. Qed.

Lemma quiet_canceled r : quiet [] r (r <| ru_completion := RunnerCompletion_Canceled |>).
Proof. split; try done. cbn. by rewrite app_nil_r. Qed.

Lemma quiet_learn f r : (forall s, known_ok s -> known_ok (f s)) -> quiet [] r (r <| ru_secrets ::= f |>).
Proof. intros Hf. split; try done; cbn; [apply Hf|by rewrite app_nil_r]. Qed.

(** A finished step: counted, and kept or omitted. *)
Record finishes (it : Z) (s : RunStep) (k : Kept) (r : Run) (k' : Kept) (r' : Run) : Prop := mkFinishes {
  fin_fail_on : ru_fail_on r' = ru_fail_on r;
  fin_stop_on_failure : ru_stop_on_failure r' = ru_stop_on_failure r;
  fin_max : ru_max_report_steps r' = ru_max_report_steps r;
  fin_secrets : ru_secrets r' = ru_secrets r;
  fin_totals : ru_totals r' = count_step s (ru_totals r);
  fin_iterations : ru_iterations r' = ru_iterations r;
  fin_completion : ru_completion r' = ru_completion r;
  fin_trace : ru_trace r' = ru_trace r ++ [Trace_Finished it s (keeps s r)];
  fin_notes : (List.length (ru_notes r) <= S MAX_NOTES)%nat -> (List.length (ru_notes r') <= S MAX_NOTES)%nat;
  fin_retained : ru_retained r' = if keeps s r then ru_retained r + 1 else ru_retained r;
  fin_kept : k' = if keeps s r then mkKept (kp_steps k ++ [s]) (kp_omitted k) else mkKept (kp_steps k) (add32 (kp_omitted k) 1)
}.

Lemma finish_step_finishes it s k r : let '(k', r') := finish_step it s k r in finishes it s k r k' r'.
Proof.
  unfold finish_step. cbv zeta.
  match goal with |- context [keeps s ?x] => change (keeps s x) with (keeps s r) end.
  destruct (keeps s r) eqn:E; (split; try done; cbn; try (rewrite E; done); try (intros; by apply notes_push_bound)).
Qed.

(** Steps that are executed have a record, others have none. *)
Definition step_ok (s : RunStep) : Prop :=
  match rs_status s with
  | RunStepStatus_Passed | RunStepStatus_Failed => exists id, rs_execution_id s = Some id
  | RunStepStatus_Error | RunStepStatus_Skipped => rs_execution_id s = None
  | RunStepStatus_Canceled => True
  end.

Definition executed_step (s : RunStep) : bool := match rs_execution_id s with Some _ => true | None => false end.

(** The sensitive values of a send within the limit, and the output without
    what derives from the response when one is over it. *)
Definition learned (xs : list (string * string * bool)) : list string :=
  map (fun x => x.1.2) (List.filter (fun x => x.2 && negb (too_large x)) xs).

Definition after_discards (xs : list (string * string * bool)) (out : ExecutionOutput) : ExecutionOutput :=
  fold_left (fun out x => if too_large x then discard_output x.1.1 out else out) xs out.

Lemma learned_texts it pos ctx : texts -> Forall value_text (learned (eo_extracted (w_execute w it pos ctx))).
Proof.
  intros Ht. unfold learned. apply list.Forall_forall. intros v Hin. apply list_elem_of_In, in_map_iff in Hin as (x & <- & Hx). apply List.filter_In in Hx as [Hx _].
  apply (extracted_texts Ht it pos ctx x). by apply list_elem_of_In.
Qed.

Lemma extract_fold scope xs : forall v new_secrets out r,
  exists r', fold_left (extract_value scope) xs (v, new_secrets, out, r) =
    (fold_left (extract_var scope) xs v, new_secrets ++ learned xs, after_discards xs out, r') /\
    quiet [] r r' /\ sec_values (ru_secrets r') = sec_values (ru_secrets r) /\ ru_completion r' = ru_completion r.
Proof.
  unfold learned, after_discards. induction xs as [|[[var value] sensitive] xs IH]; intros v new_secrets out r; cbn [fold_left List.filter map].
  { exists r. rewrite app_nil_r. split; [done|]. split; [apply quiet_refl|done]. }
  unfold extract_value at 2. destruct (too_large (var, value, sensitive)) eqn:E; cbn [snd fst negb].
  - destruct (IH (extract_var scope v (var, value, sensitive)) new_secrets (discard_output var out) (add_note (oversize_note var) r)) as (r' & -> & Q & S & C).
    exists r'. rewrite andb_false_r. split; [done|]. split; [|by rewrite S, C]. apply (quiet_trans [] [] r (add_note (oversize_note var) r) r'); [apply quiet_note|done].
  - destruct sensitive; cbn [andb].
    + destruct (IH (extract_var scope v (var, value, true)) (new_secrets ++ [value]) out (r <| ru_secrets ::= add_name var |>)) as (r' & -> & Q & S & C).
      exists r'. cbn [map fst snd]. rewrite <- app_assoc. split; [done|]. split.
      * apply (quiet_trans [] [] r (r <| ru_secrets ::= add_name var |>) r'); [|done]. apply quiet_learn. intros s. apply add_name_known.
      * rewrite S, C. cbn. by rewrite add_name_values.
    + destruct (IH (extract_var scope v (var, value, false)) new_secrets out r) as (r' & -> & Q & S & C). by exists r'.
Qed.

(** What a send leaves: the context it was sent with, what was extracted and
    what was recorded. *)
Definition sends (it pos : Z) (dataset_layer : option VarLayer) (request : Id) (l : Loop) (r : Run) (l' : Loop) (new : list RunTrace) : Prop :=
  exists provided secrets0 secrets,
    let ctx := step_context it pos dataset_layer (lo_vars l) (ru_secrets r) (pv_context provided) in
    let out := w_execute w it pos ctx in
    let kept := after_discards (eo_extracted out) (out <| eo_extracted := [] |>) in
    let recorded := (scrub_body secrets (kept <| eo_record ::= scrub_record hex_decode secrets |>)).1 in
    w_step w it pos request = Ok provided /\
    new = [Trace_Sent it pos ctx out; Trace_Recorded it pos secrets recorded] /\
    lo_vars l' = fold_left (extract_var (cx_scope (pv_context provided))) (eo_extracted out) (lo_vars l) /\
    sec_values secrets0 = sec_values (ru_secrets r) /\ (known_ok (ru_secrets r) -> known_ok secrets0) /\
    secrets = (add_values (learned (eo_extracted out)) secrets0).1.

(** A turn of the loop: nothing or one send, then one step finished. *)
Record turn (it pos : Z) (dataset_layer : option VarLayer) (step : PlannedStep) (l : Loop) (r : Run) (l' : Loop) (r' : Run) (s : RunStep)
    (new : list RunTrace) : Prop := mkTurn {
  turn_finishes : exists results r1 k' r2, quiet new r r1 /\
    finishes it s (lo_kept l) (r1 <| ru_totals ::= fun t => fold_left count_assertion results t |>) k' r2 /\ quiet [] r2 r' /\ lo_kept l' = k';
  turn_step : step_ok s /\ rs_index s = pos /\ rs_request_id s = ps_request_id step;
  turn_sends : if executed_step s
    then sends it pos dataset_layer (ps_request_id step) l r l' new /\ lo_stop l = false /\ lo_stopped_at l = None /\ ps_enabled step = true
    else new = [] /\ lo_vars l' = lo_vars l;
  turn_stop : lo_stop l = true -> lo_stop l' = true;
  turn_stopped : lo_stopped_at l <> None -> lo_stopped_at l' <> None;
  turn_canceled : rs_status s = RunStepStatus_Canceled -> lo_stop l' = true;
  turn_failed : lo_failed l' = lo_failed l || step_failed s;
  turn_stops : step_failed s = true -> ru_stop_on_failure r = true -> lo_stopped_at l' <> None \/ lo_stop l' = true;
  turn_completion : (lo_stop l = true <-> ru_completion r <> RunnerCompletion_Completed) ->
    (lo_stop l' = true <-> ru_completion r' <> RunnerCompletion_Completed)
}.

Lemma finished_spec it s l r : exists k' r', finished it s (l, r) = (l <| lo_kept := k' |>, r') /\ finishes it s (lo_kept l) r k' r'.
Proof. unfold finished. pose proof (finish_step_finishes it s (lo_kept l) r) as Hf. destruct (finish_step it s (lo_kept l) r) as [k' r']. by exists k', r'. Qed.

Lemma finishes_counted it s k r k' r' : finishes it s k r k' r' -> finishes it s k (r <| ru_totals ::= fun t => fold_left count_assertion [] t |>) k' r'.
Proof. intros Hf. by destruct r. Qed.

(** A step that is not executed, after a quiet change. *)
Lemma turn_unsent it pos dl step l r status msg delay l1 r1 l' r' r2 k' :
  status <> RunStepStatus_Passed -> status <> RunStepStatus_Failed ->
  quiet [] r r1 -> finishes it (not_executed pos step status msg delay) (lo_kept l1) r1 k' r2 -> quiet [] r2 r' ->
  lo_kept l1 = lo_kept l -> lo_kept l' = k' -> lo_vars l' = lo_vars l ->
  (lo_stop l = true -> lo_stop l' = true) -> (lo_stopped_at l <> None -> lo_stopped_at l' <> None) ->
  (status = RunStepStatus_Canceled -> lo_stop l' = true) ->
  lo_failed l' = lo_failed l || (if decide (status = RunStepStatus_Error) then true else false) ->
  (status = RunStepStatus_Error -> ru_stop_on_failure r = true -> lo_stopped_at l' <> None \/ lo_stop l' = true) ->
  ((lo_stop l = true <-> ru_completion r <> RunnerCompletion_Completed) -> (lo_stop l' = true <-> ru_completion r' <> RunnerCompletion_Completed)) ->
  turn it pos dl step l r l' r' (not_executed pos step status msg delay) [].
Proof.
  intros N1 N2 Q1 F Q2 K1 K2 V S1 S2 C Fl St Co. split; try done.
  - exists [], r1, k', r2. rewrite <- K1. split; [done|]. split; [by apply finishes_counted|done].
  - split; [|done]. unfold step_ok. cbn. by destruct status.
  - by destruct status; try done; rewrite Fl.
  - unfold step_failed. cbn. intros Hs. apply St. by destruct status.
Qed.

Lemma record_step_spec it pos out l r : exists l' r',
  let recorded := (scrub_body (ru_secrets r) (out <| eo_record ::= scrub_record hex_decode (ru_secrets r) |>)).1 in
  record_step it pos out l r = (recorded, l', r') /\
  quiet [Trace_Recorded it pos (ru_secrets r) recorded] r r' /\
  ((l' = l /\ ru_completion r' = ru_completion r) \/ (l' = l <| lo_stop := true |> /\ ru_completion r' <> RunnerCompletion_Completed)).
Proof.
  unfold record_step. cbv zeta. destruct (scrub_body _ _) as [recorded note] eqn:Es. cbn [fst].
  set (r1 := match note with Some n => add_note n r | None => r end).
  assert (Q1 : quiet [] r r1 /\ ru_completion r1 = ru_completion r) by (unfold r1; destruct note; split; [apply quiet_note|done|apply quiet_refl|done]).
  destruct Q1 as [Q1 C1]. set (r2 := traced _ r1).
  assert (Q2 : quiet [Trace_Recorded it pos (ru_secrets r) recorded] r r2) by (apply (quiet_trans [] [_] r r1 r2); [done|apply quiet_traced]).
  destruct (w_record w it pos recorded) as [u|[m|m]].
  - exists l, r2. by split; [|split; [|left]].
  - eexists _, _. split; [done|]. split; [|by left]. rewrite <- (app_nil_r [_]). eapply quiet_trans; [exact Q2|apply quiet_note].
  - eexists _, _. split; [done|]. split; [|by right]. rewrite <- (app_nil_r [_]). eapply quiet_trans; [exact Q2|apply quiet_abort].
Qed.

Lemma settle_step_spec it pos name s l r : exists l' r', settle_step it pos name s l r = (l', r') /\ quiet [] r r' /\
  lo_kept l' = lo_kept l /\ lo_vars l' = lo_vars l /\
  (lo_stop l = true -> lo_stop l' = true) /\ (lo_stopped_at l <> None -> lo_stopped_at l' <> None) /\
  (rs_status s = RunStepStatus_Canceled -> lo_stop l' = true /\ ru_completion r' <> RunnerCompletion_Completed) /\
  (rs_status s <> RunStepStatus_Canceled -> lo_stop l' = lo_stop l /\ ru_completion r' = ru_completion r) /\
  lo_failed l' = lo_failed l || bool_decide (rs_status s = RunStepStatus_Failed) /\
  (rs_status s = RunStepStatus_Failed -> ru_stop_on_failure r = true -> lo_stopped_at l' <> None).
Proof.
  unfold settle_step. destruct (rs_status s) eqn:Es; cbn [bool_decide decide_rel].
  - exists l, r. rewrite orb_false_r. by repeat (split; [apply quiet_refl || done|]).
  - eexists _, _. split; [done|]. rewrite orb_true_r. change (lo_stopped_at (l <| lo_failed := true |>)) with (lo_stopped_at l).
    destruct (ru_stop_on_failure r) eqn:Est; cbn [andb]; [destruct (lo_stopped_at l) as [q|] eqn:El|].
    all: repeat (split; [apply quiet_refl || done || (cbn; intros; congruence)|]); cbn; intros; congruence.
  - exists l, r. rewrite orb_false_r. by repeat (split; [apply quiet_refl || done|]).
  - exists l, r. rewrite orb_false_r. by repeat (split; [apply quiet_refl || done|]).
  - rewrite orb_false_r. cbv zeta.
    set (r1 := if bool_decide _ then _ else r).
    assert (Q : quiet [] r r1 /\ ru_completion r1 <> RunnerCompletion_Completed).
    { unfold r1. case_bool_decide as E; [split; [apply quiet_canceled|done]|split; [apply quiet_refl|done]]. }
    destruct Q as [Q1 C1].
    assert (Hn : forall n, quiet [] r (add_note n r1)) by (intros n; apply (quiet_trans [] [] r r1 _); [done|apply quiet_note]).
    destruct (rs_dispatch s) as [[]|]; (eexists _, _; split; [done|]; split; [first [exact Q1|apply Hn]|]; repeat (split; [done|]); done).
Qed.

Lemma summarize_ok sec fail_on pos step name rec : let s := summarize sec fail_on pos step name rec in
  step_ok s /\ rs_index s = pos /\ rs_request_id s = ps_request_id step /\ executed_step s = true /\
  step_failed s = bool_decide (rs_status s = RunStepStatus_Failed).
Proof.
  unfold summarize, step_status. destruct (bool_decide _), (statuses rec); cbn; [done|]. unfold step_ok, step_failed. cbn.
  by destruct (existsb _ _); cbn; (split; [eexists|]).
Qed.

Lemma execute_step_turn it pos step dl name provided l r : w_step w it pos (ps_request_id step) = Ok provided ->
  lo_stop l = false -> lo_stopped_at l = None -> ps_enabled step = true ->
  let '(l', r') := execute_step it pos step dl name provided l r in
  exists s new, turn it pos dl step l r l' r' s new.
Proof.
  intros Hp Hstop Hstopped Hen. unfold execute_step. cbv zeta.
  set (name' := if str_is_empty (pv_name provided) then name else pv_name provided). clearbody name'. clear name.
  set (r0 := match dl with Some _ => if bool_decide _ then r else add_note _ r | None => r end).
  assert (Q0 : quiet [] r r0 /\ ru_secrets r0 = ru_secrets r /\ ru_completion r0 = ru_completion r).
  { unfold r0. destruct dl; [case_bool_decide|]; split; first [apply quiet_refl|apply quiet_note|done]. }
  destruct Q0 as (Q0 & S0 & C0). rewrite S0. clearbody r0.
  set (ctx := step_context it pos dl (lo_vars l) (ru_secrets r) (pv_context provided)).
  set (out := w_execute w it pos ctx). set (ra := traced (Trace_Sent it pos ctx out) r0).
  assert (Qa : quiet [Trace_Sent it pos ctx out] r ra) by (apply (quiet_trans [] [_] r r0 ra); [done|apply quiet_traced]).
  destruct (extract_fold (cx_scope (pv_context provided)) (eo_extracted out) (lo_vars l) [] (out <| eo_extracted := [] |>) ra) as (rb & -> & Qb & Sb & Cb).
  cbn [app]. set (v := fold_left (extract_var _) _ _). set (kept := after_discards _ _).
  set (l1 := l <| lo_vars := v |>). set (rc := rb <| ru_secrets ::= _ |>).
  assert (Qc : quiet [Trace_Sent it pos ctx out] r rc).
  { rewrite <- (app_nil_r [_]), <- (app_nil_r [_]), <- app_assoc. apply (quiet_trans _ _ r ra rc); [done|]. apply (quiet_trans [] [] ra rb rc); [done|].
    apply quiet_learn. intros s. apply add_values_known_ok. intros Ht. by apply learned_texts. }
  destruct (record_step_spec it pos kept l1 rc) as (l2 & rd & -> & Qd & Hd).
  set (secrets := ru_secrets rc) in *. set (recorded := (scrub_body secrets _).1) in *.
  set (sum := summarize (ru_secrets rd) (ru_fail_on rd) pos step name' (eo_record recorded)).
  unfold executed. fold sum. set (re := rd <| ru_totals ::= _ |>).
  destruct (settle_step_spec it pos name' sum l2 re) as (l3 & rf & -> & Qf & K3 & V3 & T1 & T2 & T3 & T4 & T5 & T6).
  destruct (finished_spec it sum l3 rf) as (k' & rg & -> & Fg).
  assert (Hsum : step_ok sum /\ rs_index sum = pos /\ rs_request_id sum = ps_request_id step /\ executed_step sum = true /\
    step_failed sum = bool_decide (rs_status sum = RunStepStatus_Failed)) by apply summarize_ok. clearbody sum.
  destruct Hsum as (Hok & Hidx & Hreq & Hex & Hfail).
  assert (Hl2 : lo_kept l2 = lo_kept l /\ lo_vars l2 = v /\ lo_failed l2 = lo_failed l /\ lo_stopped_at l2 = lo_stopped_at l) by (by destruct Hd as [[-> _]|[-> _]]).
  destruct Hl2 as (L1 & L2 & L3 & L4).
  assert (Hrf : exists r1, quiet [Trace_Sent it pos ctx out; Trace_Recorded it pos secrets recorded] r r1 /\
    rf = r1 <| ru_totals ::= fun t => fold_left count_assertion (rec_assertion_results (eo_record recorded)) t |> /\
    ru_completion rf = ru_completion r1 /\ ru_stop_on_failure re = ru_stop_on_failure r).
  { exists (rf <| ru_totals := ru_totals rd |>). pose proof (quiet_trans _ _ r rc rd Qc Qd) as Qrd. cbn [app] in Qrd.
    split; [|split; [|split; [done|exact (quiet_stop_on_failure _ _ _ Qrd)]]].
    - destruct Qrd as [A1 A2 A3 A4 A5 A6 A7 A8 A9 A10], Qf as [B1 B2 B3 B4 B5 B6 B7 B8 B9 B10]. cbn in B1, B2, B3, B4, B6, B7, B8, B9, B10. rewrite app_nil_r in B9.
      split; cbn; first [congruence|rewrite B9; exact A9|auto].
    - pose proof (quiet_totals _ _ _ Qf) as Ht. cbn in Ht. destruct rf. cbn in *. by subst. }
  destruct Hrf as (r1 & Q1 & -> & Cr & Hst).
  exists sum, [Trace_Sent it pos ctx out; Trace_Recorded it pos secrets recorded]. split.
  - exists (rec_assertion_results (eo_record recorded)), r1, k', rg. split; [done|]. rewrite <- L1, <- K3. split; [done|]. by split; [apply quiet_refl|].
  - done.
  - rewrite Hex. split; [|done]. exists provided, (ru_secrets rb), secrets. cbv zeta. fold ctx out kept recorded. split; [done|]. split; [done|].
    split; [exact (eq_trans V3 L2)|]. split; [rewrite Sb; change (ru_secrets ra) with (ru_secrets r0); by rewrite S0|]. split; [|done]. intros Hs. apply (quiet_secrets _ _ _ Qb). cbn. by rewrite S0.
  - by rewrite Hstop.
  - by rewrite Hstopped.
  - intros Hc. cbn. by apply T3.
  - cbn. by rewrite T5, L3, Hfail.
  - rewrite Hfail. intros Hf%bool_decide_eq_true Hs. left. cbn. apply T6; [done|]. by rewrite Hst.
  - intros Hiff. cbn [lo_stop]. rewrite (fin_completion _ _ _ _ _ _ Fg). change (ru_completion (r1 <| ru_totals ::= _ |>)) with (ru_completion r1) in *.
    assert (Hrd : lo_stop l2 = true <-> ru_completion re <> RunnerCompletion_Completed).
    { destruct Hd as [[-> E]|[-> E]]; [|done]. change (ru_completion re) with (ru_completion rd). rewrite E. change (ru_completion rc) with (ru_completion rb). rewrite Cb.
      change (ru_completion ra) with (ru_completion r0). by rewrite C0. }
    destruct (decide (rs_status sum = RunStepStatus_Canceled)) as [Hc|Hc]; [destruct (T3 Hc); done|]. destruct (T4 Hc) as [E1 E2].
    change (lo_stop (l3 <| lo_kept := k' |>)) with (lo_stop l3). by rewrite E1, E2.
Qed.

Lemma step_error_turn it pos dl step e l r : lo_stop l = false -> lo_stopped_at l = None ->
  let '(l', r') := step_error it pos step e l r in
  exists s new, turn it pos dl step l r l' r' s new.
Proof.
  intros Hstop Hstopped. unfold step_error. cbv zeta. set (msg := clip _ MAX_TEXT).
  destruct (finished_spec it (not_executed pos step RunStepStatus_Error ("not sent: " +:+ msg) (ps_delay_ms step)) l r) as (k' & r2 & -> & F).
  pose proof (fin_completion _ _ _ _ _ _ F) as C. pose proof (fin_stop_on_failure _ _ _ _ _ _ F) as S.
  destruct e as [m|m]; eexists _, [].
  - eapply (turn_unsent it pos dl step l r RunStepStatus_Error _ _ l r _ r2 r2 k'); try done; try apply quiet_refl.
    all: try (by destruct (ru_stop_on_failure r2)).
    + destruct (ru_stop_on_failure r2); cbn; by rewrite orb_true_r.
    + intros _ Hs. rewrite S, Hs. by left.
    + rewrite C. by destruct (ru_stop_on_failure r2).
  - eapply (turn_unsent it pos dl step l r RunStepStatus_Error _ _ l r _ _ r2 k'); try done; try apply quiet_refl.
    + apply quiet_abort.
    + cbn. by rewrite orb_true_r.
    + intros _ _. by right.
Qed.

Lemma start_step_turn it pos dl step l r : lo_stop l = false -> lo_stopped_at l = None -> ps_enabled step = true ->
  let '(l', r') := start_step it pos step dl l r in
  exists s new, turn it pos dl step l r l' r' s new.
Proof.
  intros Hstop Hstopped Hen. unfold start_step. destruct (_ && _).
  - destruct (finished_spec it (not_executed pos step RunStepStatus_Canceled "canceled during think time; not sent" (ps_delay_ms step))
      (l <| lo_stop := true |>) (r <| ru_completion := RunnerCompletion_Canceled |>)) as (k' & r2 & -> & F).
    eexists _, []. eapply (turn_unsent it pos dl step l r RunStepStatus_Canceled _ _ (l <| lo_stop := true |>) (r <| ru_completion := RunnerCompletion_Canceled |>) _ r2 r2 k');
      try done; try apply quiet_refl.
    + apply quiet_canceled.
    + cbn. by rewrite orb_false_r.
    + intros _. by rewrite (fin_completion _ _ _ _ _ _ F).
  - cbv zeta. set (name := if str_is_empty (ps_name step) then _ else _). set (r1 := emit_run _ _ r).
    assert (Hmove : forall l' r' s new, turn it pos dl step l r1 l' r' s new -> turn it pos dl step l r l' r' s new).
    { intros l' r' s new [T1 T2 T3 T4 T5 T6 T7 T8 T9]. split; try done.
      destruct T1 as (results & ra & k' & rb & Q & F & Q2 & K). exists results, ra, k', rb.
      split; [|done]. apply (quiet_trans [] new r r1 ra); [apply quiet_emit|done]. }
    destruct (w_step w it pos (ps_request_id step)) as [provided|e] eqn:Ep.
    + pose proof (execute_step_turn it pos step dl name provided l r1 Ep Hstop Hstopped Hen) as Ht.
      destruct (execute_step _ _ _ _ _ _ _ _) as [l' r']. destruct Ht as (s & new & Ht). exists s, new. by apply Hmove.
    + pose proof (step_error_turn it pos dl step e l r1 Hstop Hstopped) as Ht.
      destruct (step_error _ _ _ _ _ _) as [l' r']. destruct Ht as (s & new & Ht). exists s, new. by apply Hmove.
Qed.

Lemma run_step_turn it dl pos step l r : let '(l', r') := run_step it dl pos step (l, r) in
  exists s new, turn it pos dl step l r l' r' s new.
Proof.
  unfold run_step, notice_cancel. destruct (negb (lo_stop l) && w_canceled w it pos) eqn:Ec.
  - set (l0 := l <| lo_stop := true |>). set (r0 := r <| ru_completion := RunnerCompletion_Canceled |>).
    change (not_run step l0 r0) with (Some (RunStepStatus_Canceled, stop_reason r0)). cbv iota beta.
    destruct (finished_spec it (not_executed pos step RunStepStatus_Canceled (stop_reason r0) 0) l0 r0) as (k' & r2 & -> & F).
    eexists _, []. eapply (turn_unsent it pos dl step l r RunStepStatus_Canceled _ _ l0 r0 _ r2 r2 k'); try done; try apply quiet_refl.
    + apply quiet_canceled.
    + cbn. by rewrite orb_false_r.
    + intros _. by rewrite (fin_completion _ _ _ _ _ _ F).
  - unfold not_run. destruct (lo_stop l) eqn:Es; [|destruct (ps_enabled step) eqn:Een; cbn [negb]; [destruct (lo_stopped_at l) as [f|] eqn:Ef; cbn [option_map]|]].
    + destruct (finished_spec it (not_executed pos step RunStepStatus_Canceled (stop_reason r) 0) l r) as (k' & r2 & -> & F).
      eexists _, []. eapply (turn_unsent it pos dl step l r RunStepStatus_Canceled _ _ l r _ r2 r2 k'); try done; try apply quiet_refl.
      * cbn. by rewrite orb_false_r.
      * by rewrite (fin_completion _ _ _ _ _ _ F).
    + match goal with |- context [not_executed pos step ?st ?m ?d] => destruct (finished_spec it (not_executed pos step st m d) l r) as (k' & r2 & -> & F) end.
      eexists _, []. eapply (turn_unsent it pos dl step l r RunStepStatus_Skipped _ _ l r _ r2 r2 k'); try done; try apply quiet_refl.
      * cbn. by rewrite orb_false_r.
      * by rewrite (fin_completion _ _ _ _ _ _ F).
    + pose proof (start_step_turn it pos dl step l r Es Ef Een) as Ht. exact Ht.
    + match goal with |- context [not_executed pos step ?st ?m ?d] => destruct (finished_spec it (not_executed pos step st m d) l r) as (k' & r2 & -> & F) end.
      eexists _, []. eapply (turn_unsent it pos dl step l r RunStepStatus_Skipped _ _ l r _ r2 r2 k'); try done; try apply quiet_refl.
      * cbn. by rewrite orb_false_r.
      * by rewrite (fin_completion _ _ _ _ _ _ F).
Qed.

(** * The counts of a run *)

Record ledger_ok (finished_steps sent_steps : Z) (t : RunTotals) : Prop := mkLedgerOk {
  ledger_sent : rt_steps_executed t = sent_steps;
  ledger_executed : rt_steps_executed t = rt_steps_passed t + rt_steps_failed t + rt_steps_canceled_in_flight t;
  ledger_finished : rt_steps_executed t + rt_steps_errored t + rt_steps_skipped t + rt_steps_canceled t = finished_steps;
  ledger_nonneg : 0 <= rt_steps_passed t /\ 0 <= rt_steps_failed t /\ 0 <= rt_steps_canceled_in_flight t /\ 0 <= rt_steps_errored t /\
    0 <= rt_steps_skipped t /\ 0 <= rt_steps_canceled t
}.

Definition steps_of (t : RunTotals) : list Z :=
  [rt_steps_executed t; rt_steps_passed t; rt_steps_failed t; rt_steps_errored t; rt_steps_skipped t; rt_steps_canceled t; rt_steps_canceled_in_flight t].

Definition iterations_of (t : RunTotals) : list Z :=
  [rt_iterations_planned t; rt_iterations_started t; rt_iterations_passed t; rt_iterations_failed t; rt_iterations_incomplete t].

Lemma ledger_ok_steps n k t t' : steps_of t' = steps_of t -> ledger_ok n k t -> ledger_ok n k t'.
Proof. intros [= E1 E2 E3 E4 E5 E6 E7] [H1 H2 H3 H4]. split; rewrite ?E1, ?E2, ?E3, ?E4, ?E5, ?E6, ?E7; done. Qed.

Lemma dimensions_keep ds t : steps_of (fold_left count_dimension ds t) = steps_of t /\ iterations_of (fold_left count_dimension ds t) = iterations_of t.
Proof. revert t. induction ds as [|d ds IH]; intros t; [done|]. cbn [fold_left]. destruct (IH (count_dimension t d)) as [-> ->]. by destruct d. Qed.

Lemma assertions_keep results t : steps_of (fold_left count_assertion results t) = steps_of t /\ iterations_of (fold_left count_assertion results t) = iterations_of t.
Proof.
  revert t. induction results as [|a l IH]; intros t; [done|]. cbn [fold_left]. destruct (IH (count_assertion t a)) as [-> ->].
  unfold count_assertion. by destruct (ar_passed a).
Qed.

Lemma count_step_ledger s t n k : step_ok s -> ledger_ok n k t -> n + 1 < 2 ^ 64 ->
  ledger_ok (n + 1) (if executed_step s then k + 1 else k) (count_step s t) /\ iterations_of (count_step s t) = iterations_of t.
Proof.
  intros Hs [H1 H2 H3 H4] Hn. unfold count_step, executed_step, step_ok in *.
  destruct (rs_execution_id s) as [id|] eqn:Ee.
  - match goal with |- context [fold_left count_dimension ?ds ?t] => destruct (dimensions_keep ds t) as [Ds Di] end.
    split; [eapply ledger_ok_steps; [exact Ds|]|rewrite Di]; unfold count_status; rewrite ?Ee; destruct (rs_status s); try done;
      (split; cbn; rewrite ?add64_small by lia; lia).
  - unfold count_status. rewrite Ee. destruct (rs_status s); try (by destruct Hs); (split; [|done]); (split; cbn; rewrite ?add64_small by lia; lia).
Qed.

Definition canceled_of (t : RunTotals) : Z * Z := (rt_steps_canceled t, rt_steps_canceled_in_flight t).

Lemma steps_canceled t t' : steps_of t' = steps_of t -> canceled_of t' = canceled_of t.
Proof. unfold canceled_of. intros [= _ _ _ _ _ -> ->]. done. Qed.

Lemma count_step_canceled s t : rs_status s <> RunStepStatus_Canceled -> canceled_of (count_step s t) = canceled_of t.
Proof.
  intros Hs. unfold count_step. destruct (rs_execution_id s) eqn:E; [erewrite steps_canceled by apply dimensions_keep|];
    unfold count_status; rewrite ?E; by destruct (rs_status s).
Qed.

(** * The trace of a run *)

Definition sent_at (t : RunTrace) : option (Z * Z) := match t with Trace_Sent it pos _ _ => Some (it, pos) | _ => None end.

Definition finished_at (t : RunTrace) : option (Z * Z) := match t with Trace_Finished it s _ => Some (it, rs_index s) | _ => None end.

Definition before (a b : Z * Z) : Prop := a.1 < b.1 \/ (a.1 = b.1 /\ a.2 < b.2).

(** After [t] nothing is sent in iteration [it']: a step was canceled, or one
    failed in it and the run stops at failures. *)
Definition blocks (stop_on_failure : bool) (t : RunTrace) (it' : Z) : Prop :=
  match t with
  | Trace_Finished it s _ => rs_status s = RunStepStatus_Canceled \/ (stop_on_failure = true /\ step_failed s = true /\ it' = it)
  | _ => False
  end.

Definition dataset_layer_of (plan : RunPlan) (it : Z) : option VarLayer := option_map (fun d => run_row_layer d it) (pl_dataset plan).

(** The variables the sends of an iteration left. *)
Definition vars_of (it : Z) (trace : list RunTrace) : Vars :=
  fold_left (fun v t => match t with
    | Trace_Sent it' _ ctx out => if it' =? it then fold_left (extract_var (cx_scope ctx)) (eo_extracted out) v else v
    | _ => v
    end) trace (mkVars [] []).

(** What a step was sent with, after the trace [a]. *)
Definition sent_ok (plan : RunPlan) (it pos : Z) (ctx : RunContext) (out : ExecutionOutput) (a : list RunTrace) : Prop :=
  exists step provided secrets, pl_steps plan !! Z.to_nat pos = Some step /\ 0 <= pos /\ ps_enabled step = true /\
    w_step w it pos (ps_request_id step) = Ok provided /\
    ctx = step_context it pos (dataset_layer_of plan it) (vars_of it a) secrets (pv_context provided) /\ out = w_execute w it pos ctx.

(** What was recorded of an output. *)
Definition recorded_ok (out : ExecutionOutput) (secrets : RunSecrets) (recorded : ExecutionOutput) : Prop :=
  (texts -> secrets_ok secrets /\ Forall is_text (sec_values secrets) /\
     ((List.length (learned (eo_extracted out)) <= MAX_RUN_SECRETS)%nat ->
      forall v, v ∈ learned (eo_extracted out) -> 4 <= str_len v -> v ∈ sec_values secrets)) /\
  recorded = (scrub_body secrets (after_discards (eo_extracted out) (out <| eo_extracted := [] |>)
      <| eo_record ::= scrub_record hex_decode secrets |>)).1.

Record trace_ok (plan : RunPlan) (stop_on_failure : bool) (trace : list RunTrace) : Prop := mkTraceOk {
  trace_sorted : StronglySorted before (omap sent_at trace);
  trace_blocks a t b : trace = a ++ t :: b -> forall it pos ctx out, Trace_Sent it pos ctx out ∈ b -> ~ blocks stop_on_failure t it;
  trace_sent a it pos ctx out b : trace = a ++ Trace_Sent it pos ctx out :: b ->
    sent_ok plan it pos ctx out a /\ exists secrets recorded b', b = Trace_Recorded it pos secrets recorded :: b' /\ recorded_ok out secrets recorded
}.

Lemma snoc_split {A} (l : list A) x a t b : l ++ [x] = a ++ t :: b -> (b = [] /\ t = x /\ a = l) \/ exists b', b = b' ++ [x] /\ l = a ++ t :: b'.
Proof.
  destruct b as [|y b _] using rev_ind; intros E.
  - apply app_inj_tail in E as [-> ->]. by left.
  - right. rewrite app_comm_cons, app_assoc in E. apply app_inj_tail in E as [-> ->]. by exists b.
Qed.

Lemma trace_ok_nil plan sof : trace_ok plan sof [].
Proof. split; [constructor|intros a t b E; by destruct a..|intros a it pos ctx out b E; by destruct a]. Qed.

Lemma trace_ok_finished plan sof trace it s keep : trace_ok plan sof trace -> trace_ok plan sof (trace ++ [Trace_Finished it s keep]).
Proof.
  intros [H1 H2 H3]. split.
  - rewrite omap_app. cbn. by rewrite app_nil_r.
  - intros a t b [(-> & _)|(b' & -> & E)]%snoc_split it' pos ctx out Hin; [by apply elem_of_nil in Hin|].
    apply elem_of_app in Hin as [Hin|Hin%list_elem_of_singleton]; [|done]. by apply (H2 a t b' E it' pos ctx out).
  - intros a it' pos ctx out b [(_ & ? & _)|(b' & -> & E)]%snoc_split; [done|].
    destruct (H3 a it' pos ctx out b' E) as [Hs (secrets & recorded & b2 & -> & Hr)]. split; [done|]. by exists secrets, recorded, (b2 ++ [Trace_Finished it s keep]).
Qed.

Lemma before_sorted_snoc l x : StronglySorted before l -> Forall (fun y => before y x) l -> StronglySorted before (l ++ [x]).
Proof.
  induction 1 as [|y l Hl IH Hy]; intros Hx; [repeat constructor|]. inversion Hx; subst. cbn. constructor; [by apply IH|].
  apply Forall_app. split; [done|]. by constructor.
Qed.

Lemma trace_ok_sent plan sof trace it pos ctx out secrets recorded :
  trace_ok plan sof trace -> Forall (fun y => before y (it, pos)) (omap sent_at trace) -> (forall t, t ∈ trace -> ~ blocks sof t it) ->
  sent_ok plan it pos ctx out trace -> recorded_ok out secrets recorded ->
  trace_ok plan sof (trace ++ [Trace_Sent it pos ctx out; Trace_Recorded it pos secrets recorded]).
Proof.
  intros [H1 H2 H3] Hb Hn Hs Hr. split.
  - rewrite omap_app. cbn. by apply before_sorted_snoc.
  - change [Trace_Sent it pos ctx out; Trace_Recorded it pos secrets recorded] with ([Trace_Sent it pos ctx out] ++ [Trace_Recorded it pos secrets recorded]).
    rewrite app_assoc. intros a t b [(-> & _)|(b' & -> & E)]%snoc_split it' pos' ctx' out' Hin; [by apply elem_of_nil in Hin|].
    apply elem_of_app in Hin as [Hin|Hin%list_elem_of_singleton]; [|done].
    apply snoc_split in E as [(-> & _)|(b2 & -> & E)]; [by apply elem_of_nil in Hin|].
    apply elem_of_app in Hin as [Hin|Hin%list_elem_of_singleton]; [by apply (H2 a t b2 E it' pos' ctx' out')|].
    injection Hin as -> -> -> ->. apply Hn. rewrite E. apply elem_of_app. right. by left.
  - change [Trace_Sent it pos ctx out; Trace_Recorded it pos secrets recorded] with ([Trace_Sent it pos ctx out] ++ [Trace_Recorded it pos secrets recorded]).
    rewrite app_assoc. intros a it' pos' ctx' out' b [(_ & ? & _)|(b' & -> & E)]%snoc_split; [done|].
    apply snoc_split in E as [(-> & [= -> -> -> ->] & ->)|(b2 & -> & E)].
    + split; [done|]. by exists secrets, recorded, [].
    + destruct (H3 a it' pos' ctx' out' b2 E) as [Hs' (secrets' & recorded' & b3 & -> & Hr')]. split; [done|].
      exists secrets', recorded', (b3 ++ [Trace_Sent it pos ctx out] ++ [Trace_Recorded it pos secrets recorded]). split; [|done]. cbn. by rewrite <- app_assoc.
Qed.

(** * Invariants of a run *)

Section Plan.
Variable plan : RunPlan.
(** The dataset's values are text. *)
Hypothesis dataset_texts : texts -> forall d it v, pl_dataset plan = Some d -> v ∈ sensitive_values d it -> value_text v.

(** What the report keeps: a summary is omitted only when it is full. *)
Record report_ok (r : Run) : Prop := mkReportOk {
  report_full : ru_retained r <= Z.max 0 (ru_max_report_steps r) + MAX_EXTRA_FAILED_STEPS;
  report_omits it s : Trace_Finished it s false ∈ ru_trace r -> ru_max_report_steps r <= ru_retained r /\
    (rs_status s <> RunStepStatus_Passed -> rs_status s <> RunStepStatus_Skipped -> ru_max_report_steps r + MAX_EXTRA_FAILED_STEPS <= ru_retained r)
}.

(** What holds of a run at any moment. *)
Record run_ok (r : Run) : Prop := mkRunOk {
  ok_secrets : known_ok (ru_secrets r);
  ok_notes : (List.length (ru_notes r) <= S MAX_NOTES)%nat;
  ok_trace : trace_ok plan (ru_stop_on_failure r) (ru_trace r);
  ok_report : report_ok r
}.

Definition sent_count (r : Run) : Z := Z.of_nat (List.length (omap sent_at (ru_trace r))).

(** What holds in iteration [it] before the step at [pos]; [rs] is the run at
    its start, after [n] steps were finished. *)
Record loop_ok (it pos n : Z) (rs : Run) (l : Loop) (r : Run) : Prop := mkLoopOk {
  loop_run : run_ok r;
  loop_ledger : ledger_ok (n + pos) (sent_count r) (ru_totals r);
  loop_counts : iterations_of (ru_totals r) = iterations_of (ru_totals rs);
  loop_iterations : ru_iterations r = ru_iterations rs;
  loop_options : ru_stop_on_failure r = ru_stop_on_failure rs /\ ru_max_report_steps r = ru_max_report_steps rs;
  loop_kept : Z.of_nat (List.length (kp_steps (lo_kept l))) + kp_omitted (lo_kept l) = pos /\ 0 <= kp_omitted (lo_kept l);
  loop_retained : ru_retained r = ru_retained rs + Z.of_nat (List.length (kp_steps (lo_kept l)));
  loop_stop : lo_stop l = true <-> ru_completion r <> RunnerCompletion_Completed;
  loop_before : Forall (fun y => before y (it, pos)) (omap sent_at (ru_trace r));
  loop_blocks t : t ∈ ru_trace r -> blocks (ru_stop_on_failure r) t it -> lo_stop l = true \/ lo_stopped_at l <> None;
  loop_canceled it' s keep : Trace_Finished it' s keep ∈ ru_trace r -> rs_status s = RunStepStatus_Canceled -> lo_stop l = true;
  loop_uncanceled : lo_stop l = false -> canceled_of (ru_totals r) = (0, 0);
  loop_finished : omap finished_at (ru_trace r) = omap finished_at (ru_trace rs) ++ map (fun p => (it, p)) (seqZ 0 pos);
  loop_vars : lo_vars l = vars_of it (ru_trace r)
}.

Lemma vars_of_snoc it a t : vars_of it (a ++ [t]) =
  match t with
  | Trace_Sent it' _ ctx out => if it' =? it then fold_left (extract_var (cx_scope ctx)) (eo_extracted out) (vars_of it a) else vars_of it a
  | _ => vars_of it a
  end.
Proof. unfold vars_of. by rewrite fold_left_app. Qed.

Lemma before_trans a b c : before a b -> before b c -> before a c.
Proof. unfold before. lia. Qed.

(** What a turn sends keeps the trace in order. *)
Lemma sends_ok it pos step l r l' new n rs : pl_steps plan !! Z.to_nat pos = Some step -> 0 <= pos -> loop_ok it pos n rs l r ->
  sends it pos (dataset_layer_of plan it) (ps_request_id step) l r l' new -> lo_stop l = false -> lo_stopped_at l = None -> ps_enabled step = true ->
  trace_ok plan (ru_stop_on_failure r) (ru_trace r ++ new) /\ omap sent_at new = [(it, pos)] /\ omap finished_at new = [] /\
  lo_vars l' = vars_of it (ru_trace r ++ new) /\ (forall t, t ∈ new -> forall it', ~ blocks (ru_stop_on_failure r) t it') /\
  (forall it' s keep, Trace_Finished it' s keep ∉ new).
Proof.
  intros Hst Hpos Hl (provided & secrets0 & secrets & Hp & -> & Hv & Hvals & Hok & ->) Hstop Hstopped Hen.
  set (ctx := step_context _ _ _ _ _ _) in *. set (out := w_execute w it pos ctx) in *.
  set (secrets := (add_values (learned (eo_extracted out)) secrets0).1).
  pose proof (loop_run _ _ _ _ _ _ Hl) as [R1 R2 R3 R4]. specialize (Hok R1).
  split.
  - apply trace_ok_sent; [done|exact (loop_before _ _ _ _ _ _ Hl)| | |].
    + intros t Ht Hb. destruct (loop_blocks _ _ _ _ _ _ Hl t Ht Hb); congruence.
    + exists step, provided, (ru_secrets r). split; [done|]. split; [done|]. split; [done|]. split; [done|]. split; [|done].
      unfold ctx. by rewrite (loop_vars _ _ _ _ _ _ Hl).
    + split; [|done]. intros Ht. assert (Hk : known_ok secrets) by (apply add_values_known_ok; [intros _; by apply learned_texts|exact Hok]).
      destruct (Hk Ht) as [Hk1 Hk2], (Hok Ht) as [Hok1 _]. split; [done|]. split; [done|]. pose proof (laws Ht).
      intros Hmax v Hin Hlen. by apply add_values_known.
  - split; [done|]. split; [done|]. split; [|split].
    + change [Trace_Sent it pos ctx out; ?y] with ([Trace_Sent it pos ctx out] ++ [y]). rewrite app_assoc, !vars_of_snoc, Z.eqb_refl, Hv.
      rewrite (loop_vars _ _ _ _ _ _ Hl). unfold ctx, step_context. by destruct (match va_unavailable _ with [] => _ | _ => _ end).
    + intros t [->|[->|Ht%elem_of_nil]%elem_of_cons]%elem_of_cons it' Hb; done.
    + intros it' s keep [?|[?|Ht%elem_of_nil]%elem_of_cons]%elem_of_cons; done.
Qed.

(** The trace, the counts and the report after a turn. *)
Lemma turn_after it pos step l r l' r' s new : turn it pos (dataset_layer_of plan it) step l r l' r' s new ->
  exists keep results, 
    ru_trace r' = (ru_trace r ++ new) ++ [Trace_Finished it s keep] /\
    ru_totals r' = count_step s (fold_left count_assertion results (ru_totals r)) /\
    ru_iterations r' = ru_iterations r /\ ru_stop_on_failure r' = ru_stop_on_failure r /\ ru_max_report_steps r' = ru_max_report_steps r /\
    (known_ok (ru_secrets r) -> known_ok (ru_secrets r')) /\
    ((List.length (ru_notes r) <= S MAX_NOTES)%nat -> (List.length (ru_notes r') <= S MAX_NOTES)%nat) /\
    keep = keeps s r /\
    ru_retained r' = (if keep then ru_retained r + 1 else ru_retained r) /\
    lo_kept l' = (if keep then mkKept (kp_steps (lo_kept l) ++ [s]) (kp_omitted (lo_kept l)) else mkKept (kp_steps (lo_kept l)) (add32 (kp_omitted (lo_kept l)) 1)).
Proof.
  intros T. destruct (turn_finishes _ _ _ _ _ _ _ _ _ _ T) as (results & r1 & k' & r2 & Q1 & F & Q2 & K).
  exists (keeps s r1), results.
  assert (Ek : keeps s (r1 <| ru_totals ::= fun t => fold_left count_assertion results t |>) = keeps s r1) by done.
  assert (Ek' : keeps s r1 = keeps s r) by (unfold keeps; by rewrite (quiet_retained _ _ _ Q1), (quiet_max _ _ _ Q1)).
  destruct F as [F1 F2 F3 F4 F5 F6 F7 F8 F9 F10 F11]. rewrite Ek in *. cbn in F1, F2, F3, F4, F5, F6, F8, F9, F10.
  pose proof (quiet_trace _ _ _ Q1) as T1. pose proof (quiet_trace _ _ _ Q2) as T2. rewrite app_nil_r in T2.
  split; [congruence|]. split; [by rewrite (quiet_totals _ _ _ Q2), F5, (quiet_totals _ _ _ Q1)|].
  split; [by rewrite (quiet_iterations _ _ _ Q2), F6, (quiet_iterations _ _ _ Q1)|].
  split; [by rewrite (quiet_stop_on_failure _ _ _ Q2), F2, (quiet_stop_on_failure _ _ _ Q1)|].
  split; [by rewrite (quiet_max _ _ _ Q2), F3, (quiet_max _ _ _ Q1)|].
  split. { intros Hs. apply (quiet_secrets _ _ _ Q2). rewrite F4. by apply (quiet_secrets _ _ _ Q1). }
  split. { intros Hs. by apply (quiet_notes _ _ _ Q2), F9, (quiet_notes _ _ _ Q1). }
  split; [done|]. split; [by rewrite (quiet_retained _ _ _ Q2), F10, (quiet_retained _ _ _ Q1)|]. congruence.
Qed.

Lemma report_turn it s keep r r' new : report_ok r -> (forall it' s' keep', Trace_Finished it' s' keep' ∉ new) ->
  ru_trace r' = (ru_trace r ++ new) ++ [Trace_Finished it s keep] -> ru_max_report_steps r' = ru_max_report_steps r ->
  keep = keeps s r -> ru_retained r' = (if keep then ru_retained r + 1 else ru_retained r) -> report_ok r'.
Proof.
  intros [H1 H2] Hn Ht Hm Hk Hr. rewrite Hk in Hr. unfold keeps in *. split.
  - rewrite Hm, Hr. unfold MAX_EXTRA_FAILED_STEPS in *.
    destruct (Z.ltb_spec (ru_retained r) (ru_max_report_steps r)), (rs_status s), (Z.ltb_spec (ru_retained r) (ru_max_report_steps r + 2000)); cbn [orb andb]; lia.
  - intros it' s'. rewrite Ht, Hm, Hr. rewrite elem_of_app, list_elem_of_singleton. intros [[Hin|Hin]%elem_of_app|[= -> -> <-]].
    + specialize (H2 it' s' Hin). destruct (_ || _); [|done]. destruct H2 as [H2 H3]. split; [lia|]. intros A B. specialize (H3 A B). lia.
    + by apply Hn in Hin.
    + rewrite <- Hk. unfold MAX_EXTRA_FAILED_STEPS in *.
      destruct (Z.ltb_spec (ru_retained r) (ru_max_report_steps r)); [done|]. cbn [orb] in Hk. split; [done|]. intros A B.
      destruct (rs_status s); try done; destruct (Z.ltb_spec (ru_retained r) (ru_max_report_steps r + 2000)); try done; lia.
Qed.

Lemma seqZ_snoc p : 0 <= p -> seqZ 0 (p + 1) = seqZ 0 p ++ [p].
Proof. intros Hp. rewrite seqZ_app by lia. f_equal. Qed.

Lemma loop_turn it pos n step l r l' r' s new rs : pl_steps plan !! Z.to_nat pos = Some step -> 0 <= pos < 2 ^ 32 - 1 -> 0 <= n -> n + pos + 1 < 2 ^ 64 ->
  loop_ok it pos n rs l r -> turn it pos (dataset_layer_of plan it) step l r l' r' s new -> loop_ok it (pos + 1) n rs l' r'.
Proof.
  intros Hstep Hpos Hn0 Hn Hl T.
  destruct (turn_after _ _ _ _ _ _ _ _ _ T) as (keep & results & A1 & A2 & A3 & A4 & A5 & A6 & A7 & A8 & A9 & A10).
  destruct (turn_step _ _ _ _ _ _ _ _ _ _ T) as (Hs & Hidx & _).
  assert (Hnew : trace_ok plan (ru_stop_on_failure r) (ru_trace r ++ new) /\ omap sent_at new = (if executed_step s then [(it, pos)] else []) /\
    omap finished_at new = [] /\ lo_vars l' = vars_of it (ru_trace r ++ new) /\
    (forall t, t ∈ new -> forall it', ~ blocks (ru_stop_on_failure r) t it') /\ (forall it' s keep, Trace_Finished it' s keep ∉ new)).
  { pose proof (turn_sends _ _ _ _ _ _ _ _ _ _ T) as Hsend. destruct (executed_step s).
    - destruct Hsend as (Hsend & H1 & H2 & H3). apply (sends_ok it pos step l r l' new n rs); done || lia.
    - destruct Hsend as [-> Hv]. rewrite app_nil_r, Hv. pose proof (loop_run _ _ _ _ _ _ Hl) as [_ _ R3 _].
      split; [done|]. split; [done|]. split; [done|]. split; [exact (loop_vars _ _ _ _ _ _ Hl)|].
      split; [by intros t ?%elem_of_nil|]. intros it' s' keep' Hin. by apply elem_of_nil in Hin. }
  destruct Hnew as (N1 & N2 & N3 & N4 & N5 & N6).
  pose proof Hl as [[R1 R2 R3 R4] L1 L2 L3 [L4 L4'] [L5 L5'] L6 L7 L8 L9 L10 L13 L11 L12].
  destruct (assertions_keep results (ru_totals r)) as [S1 S2].
  assert (Hcount : sent_count r' = if executed_step s then sent_count r + 1 else sent_count r).
  { unfold sent_count. rewrite A1, !omap_app, N2, !length_app. destruct (executed_step s); cbn; lia. }
  destruct (count_step_ledger s (fold_left count_assertion results (ru_totals r)) (n + pos) (sent_count r) Hs) as [Hled Hits];
    [by eapply ledger_ok_steps|lia|].
  split.
  - split; [by apply A6|by apply A7|rewrite A4, A1; by apply trace_ok_finished|]. by apply (report_turn it s keep r r' new).
  - rewrite A2, Hcount. by replace (n + (pos + 1)) with (n + pos + 1) by lia.
  - by rewrite A2, Hits, S2.
  - by rewrite A3.
  - by rewrite A4, A5.
  - rewrite A10. destruct keep; cbn [kp_steps kp_omitted]; [rewrite length_app; cbn [List.length]; lia|].
    unfold add32. rewrite Z.mod_small by lia. lia.
  - rewrite A9, A10. destruct keep; cbn [kp_steps]; [rewrite length_app; cbn [List.length]; lia|lia].
  - apply (turn_completion _ _ _ _ _ _ _ _ _ _ T). exact L7.
  - rewrite A1, !omap_app, N2. cbn. rewrite app_nil_r. apply Forall_app. split.
    + eapply list.Forall_impl; [exact L8|]. intros y Hy. eapply before_trans; [exact Hy|]. right. cbn. lia.
    + destruct (executed_step s); [|constructor]. constructor; [|constructor]. right. cbn. lia.
  - intros t. rewrite A1, A4, elem_of_app, list_elem_of_singleton. intros [[Ht|Ht]%elem_of_app| ->] Hb.
    + destruct (L9 t Ht Hb) as [Hst|Hst]; [left; by apply (turn_stop _ _ _ _ _ _ _ _ _ _ T)|right; by apply (turn_stopped _ _ _ _ _ _ _ _ _ _ T)].
    + by destruct (N5 t Ht it).
    + destruct Hb as [Hc|(Hsof & Hf & _)]; [left; by apply (turn_canceled _ _ _ _ _ _ _ _ _ _ T)|].
      destruct (turn_stops _ _ _ _ _ _ _ _ _ _ T Hf Hsof); [by right|by left].
  - intros it' s' keep'. rewrite A1, elem_of_app, list_elem_of_singleton. intros [[Ht|Ht]%elem_of_app|[= -> -> ->]] Hc.
    + apply (turn_stop _ _ _ _ _ _ _ _ _ _ T). by apply (L10 it' s' keep').
    + by apply N6 in Ht.
    + by apply (turn_canceled _ _ _ _ _ _ _ _ _ _ T).
  - intros Hgo. assert (Hgo' : lo_stop l = false) by (apply not_true_iff_false; intros Hst; rewrite (turn_stop _ _ _ _ _ _ _ _ _ _ T Hst) in Hgo; done).
    rewrite A2, count_step_canceled; [rewrite <- (L13 Hgo'); by apply steps_canceled|].
    intros Hc. rewrite (turn_canceled _ _ _ _ _ _ _ _ _ _ T Hc) in Hgo. done.
  - rewrite A1, !omap_app, N3, L11. cbn. rewrite app_nil_r, Hidx, seqZ_snoc, map_app by lia. by rewrite app_assoc.
  - by rewrite A1, vars_of_snoc.
Qed.

Lemma run_steps_ok it n rs : forall steps pos l r, 0 <= pos -> pos + Z.of_nat (List.length steps) < 2 ^ 32 -> 0 <= n ->
  n + pos + Z.of_nat (List.length steps) < 2 ^ 64 -> drop (Z.to_nat pos) (pl_steps plan) = steps -> loop_ok it pos n rs l r ->
  let '(l', r') := run_steps it (dataset_layer_of plan it) pos steps (l, r) in loop_ok it (pos + Z.of_nat (List.length steps)) n rs l' r'.
Proof.
  induction steps as [|step steps IH]; intros pos l r Hpos Hlen Hn Hmax Hdrop Hl; cbn [run_steps].
  { by rewrite Z.add_0_r. }
  cbn [List.length] in *. assert (Hstep : pl_steps plan !! Z.to_nat pos = Some step).
  { rewrite <- (Nat.add_0_r (Z.to_nat pos)), <- lookup_drop, Hdrop. done. }
  pose proof (run_step_turn it (dataset_layer_of plan it) pos step l r) as Ht. destruct (run_step it _ pos step (l, r)) as [l1 r1].
  destruct Ht as (s & new & Ht). assert (Hl1 : loop_ok it (pos + 1) n rs l1 r1) by (eapply loop_turn; [exact Hstep|lia|done|lia|exact Hl|exact Ht]).
  specialize (IH (pos + 1) l1 r1). replace (pos + Z.of_nat (S (List.length steps))) with (pos + 1 + Z.of_nat (List.length steps)) by lia.
  apply IH; try lia; [|done]. replace (Z.to_nat (pos + 1)) with (Z.to_nat pos + 1)%nat by lia. by rewrite <- drop_drop, Hdrop.
Qed.

Definition step_count : Z := Z.of_nat (List.length (pl_steps plan)).

(** Every step of the first [k] iterations, in order. *)
Definition positions (k : Z) : list (Z * Z) := concat (map (fun it => map (fun p => (it, p)) (seqZ 0 step_count)) (seqZ 0 k)).

Definition iteration_ok (i : RunIteration) : Prop := Z.of_nat (List.length (ri_steps i)) + ri_steps_omitted i = step_count /\ 0 <= ri_steps_omitted i.

Definition kept_summaries (r : Run) : Z := foldr Z.add 0 (map (fun i => Z.of_nat (List.length (ri_steps i))) (ru_iterations r)).

(** The run after [k] iterations of [planned]. *)
Record after_iterations (planned k : Z) (r : Run) : Prop := mkAfter {
  after_run : run_ok r;
  after_ledger : ledger_ok (k * step_count) (sent_count r) (ru_totals r);
  after_counts : exists p f i, iterations_of (ru_totals r) = [planned; k; p; f; i] /\ 0 <= p /\ 0 <= f /\ 0 <= i /\ p + f + i = k;
  after_reports : Z.of_nat (List.length (ru_iterations r)) = k /\ Forall iteration_ok (ru_iterations r) /\ ru_retained r = kept_summaries r;
  after_uncanceled : ru_completion r = RunnerCompletion_Completed -> canceled_of (ru_totals r) = (0, 0);
  after_finished : omap finished_at (ru_trace r) = positions k
}.

(** The run between iterations. *)
Record between (planned k : Z) (r : Run) : Prop := mkBetween {
  between_after : after_iterations planned k r;
  between_going : ru_completion r = RunnerCompletion_Completed;
  between_before : Forall (fun y => before y (k, 0)) (omap sent_at (ru_trace r));
  between_canceled it' s keep : Trace_Finished it' s keep ∈ ru_trace r -> rs_status s <> RunStepStatus_Canceled
}.

Lemma positions_before k it p : (it, p) ∈ positions k -> it < k.
Proof.
  unfold positions. rewrite list_elem_of_In, in_concat. intros (l & Hl & Hin). apply in_map_iff in Hl as (j & <- & Hj).
  apply in_map_iff in Hin as (q & [= -> ->] & _). apply list_elem_of_In, elem_of_seqZ in Hj. lia.
Qed.

Lemma positions_succ k : 0 <= k -> positions (k + 1) = positions k ++ map (fun p => (k, p)) (seqZ 0 step_count).
Proof. intros Hk. unfold positions. rewrite seqZ_snoc, map_app, concat_app by done. cbn. by rewrite app_nil_r. Qed.

Lemma vars_of_none it trace : (forall it' pos ctx out, Trace_Sent it' pos ctx out ∈ trace -> it' <> it) -> vars_of it trace = mkVars [] [].
Proof.
  unfold vars_of. generalize (mkVars [] []). intros v. induction trace as [|t trace IH]; intros Hn; [done|]. cbn [fold_left].
  transitivity (fold_left (fun v t => match t with
    | Trace_Sent it' _ ctx out => if it' =? it then fold_left (extract_var (cx_scope ctx)) (eo_extracted out) v else v | _ => v end) trace v).
  - f_equal. destruct t as [it' pos ctx out| |]; [|done..]. destruct (Z.eqb_spec it' it) as [->|]; [|done]. by destruct (Hn it pos ctx out ltac:(by left)).
  - apply IH. intros it' pos ctx out Hin. apply (Hn it' pos ctx out). by right.
Qed.

Lemma sent_positions sof trace it pos ctx out : trace_ok plan sof trace -> Trace_Sent it pos ctx out ∈ trace -> 0 <= pos.
Proof. intros Ht (a & b & E)%list_elem_of_split. destruct (trace_sent _ _ _ Ht a it pos ctx out b E) as [(? & ? & ? & _ & ? & _) _]. done. Qed.

(** The loop of an iteration starts in order. *)
Lemma begin_loop planned k r : 0 <= k < 2 ^ 31 -> between planned k r ->
  loop_ok k 0 (k * step_count) (begin_iteration plan k r) Loop_new (begin_iteration plan k r) /\
  ru_trace (begin_iteration plan k r) = ru_trace r /\ ru_iterations (begin_iteration plan k r) = ru_iterations r /\
  ru_retained (begin_iteration plan k r) = ru_retained r /\
  iterations_of (ru_totals (begin_iteration plan k r)) = match iterations_of (ru_totals r) with [a; b; c; d; e] => [a; b + 1; c; d; e] | l => l end.
Proof.
  intros Hk [[[R1 R2 R3 R4] A2 (p & f & i & A3 & P1 & P2 & P3 & P4) A4 A6 A5] B1 B2 B3]. unfold begin_iteration. cbv zeta.
  set (r1 := match pl_dataset plan with Some d => _ | None => r end).
  assert (H1 : known_ok (ru_secrets r1) /\ ru_notes r1 = ru_notes r /\ ru_trace r1 = ru_trace r /\ ru_stop_on_failure r1 = ru_stop_on_failure r /\
    ru_max_report_steps r1 = ru_max_report_steps r /\ ru_retained r1 = ru_retained r /\ ru_totals r1 = ru_totals r /\ ru_iterations r1 = ru_iterations r /\
    ru_completion r1 = ru_completion r).
  { unfold r1. destruct (pl_dataset plan) as [d|] eqn:Ed; [|done]. split; [|done]. cbn. apply add_values_known_ok; [|done].
    intros Ht. apply list.Forall_forall. intros v Hv. by apply (dataset_texts Ht d k). }
  clearbody r1. destruct H1 as (E1 & E2 & E3 & E4 & E5 & E6 & E7 & E8 & E9).
  assert (Hst : add32 (rt_iterations_started (ru_totals r)) 1 = k + 1).
  { injection A3 as _ E _ _ _. rewrite E. unfold add32. apply Z.mod_small. lia. }
  split; [|split; [done|split; [done|split; [done|]]]].
  - split; cbn; try done.
    + split; [done|by rewrite E2|by rewrite E3, E4|]. split; cbn; [by rewrite E6, E5; apply R4|]. intros it s. rewrite E3, E5, E6. apply R4.
    + rewrite Z.add_0_r. unfold sent_count in *. cbn. rewrite E3, E7. eapply ledger_ok_steps; [|exact A2]. done.
    + lia.
    + rewrite E9, B1. split; [done|]. by intros [].
    + by rewrite E3.
    + intros t Ht Hb. rewrite E3 in Ht. exfalso. destruct t as [| |it' s keep]; try done. destruct Hb as [Hc|(_ & _ & Eit)]; [by apply (B3 it' s keep)|].
      assert (Hin : (it', rs_index s) ∈ omap finished_at (ru_trace r)) by (apply list_elem_of_omap; by exists (Trace_Finished it' s keep)).
      rewrite A5 in Hin. apply positions_before in Hin. subst it'. clear - Hin. lia.
    + intros it' s keep Hin. rewrite E3 in Hin. intros Hc. by destruct (B3 it' s keep).
    + intros _. rewrite E7. exact (A6 B1).
    + by rewrite app_nil_r.
    + rewrite E3. symmetry. apply vars_of_none. intros it' pos ctx out Hin ->.
      assert (Hb : (k, pos) ∈ omap sent_at (ru_trace r)) by (apply list_elem_of_omap; by exists (Trace_Sent k pos ctx out)).
      rewrite list.Forall_forall in B2. specialize (B2 _ Hb). unfold before in B2. cbn in B2. pose proof (sent_positions _ _ _ _ _ _ R3 Hin). lia.
  - cbn. rewrite E7, Hst. injection A3 as X1 X2 X3 X4 X5. by rewrite X2.
Qed.


Lemma kept_summaries_snoc its i : foldr Z.add 0 (map (fun i => Z.of_nat (List.length (ri_steps i))) (its ++ [i])) =
  foldr Z.add 0 (map (fun i => Z.of_nat (List.length (ri_steps i))) its) + Z.of_nat (List.length (ri_steps i)).
Proof. induction its as [|j its IH]; cbn [app map foldr]; [lia|]. rewrite IH. lia. Qed.

(** The end of an iteration, from the end of its loop. *)
Lemma end_loop planned k r l r1 : 0 <= k < 2 ^ 31 -> between planned k r ->
  loop_ok k step_count (k * step_count) (begin_iteration plan k r) l r1 ->
  let '(stop, r') := end_iteration plan k (l, r1) in
  after_iterations planned (k + 1) r' /\ (if stop then ru_completion r' <> RunnerCompletion_Completed else between planned (k + 1) r').
Proof.
  intros Hk Hb Hl. destruct (begin_loop planned k r Hk Hb) as (_ & T & I & Re & C).
  destruct Hb as [[_ _ (p & f & i & A3 & P1 & P2 & P3 & P4) [A4 [A4' A4'']] _ A5] _ _ _].
  destruct Hl as [[R1 R2 R3 R4] L1 L2 L3 _ [L5 L5'] L6 L7 L8 _ L10 L13 L11 _].
  rewrite A3 in C. rewrite C in L2. rewrite I in L3. rewrite T, A5 in L11. rewrite Re, A4'' in L6. unfold end_iteration. cbv zeta.
  assert (Ha : forall r', run_ok r' -> ru_trace r' = ru_trace r1 -> steps_of (ru_totals r') = steps_of (ru_totals r1) ->
    iterations_of (ru_totals r') = iterations_of (count_iteration (iteration_status l) (ru_totals r1)) -> ru_retained r' = ru_retained r1 -> ru_completion r' = ru_completion r1 ->
    (exists i, ru_iterations r' = ru_iterations r1 ++ [i] /\ ri_steps i = kp_steps (lo_kept l) /\ ri_steps_omitted i = kp_omitted (lo_kept l)) ->
    after_iterations planned (k + 1) r').
  { intros r' Hr' Ht Hs Hi Hre Hco (ri & Hri & Hri1 & Hri2). split; [done| | | | |].
    - replace ((k + 1) * step_count) with (k * step_count + step_count) by lia. unfold sent_count in *. rewrite Ht. by eapply ledger_ok_steps.
    - rewrite Hi. injection L2 as X1 X2 X3 X4 X5. unfold count_iteration, iterations_of.
      destruct (iteration_status l); cbn; rewrite X1, X2, X3, X4, X5; unfold add32; rewrite Z.mod_small by lia;
        eexists _, _, _; (split; [reflexivity|lia]).
    - rewrite Hri, L3, length_app, Hre. split; [cbn [List.length]; lia|]. split.
      + apply Forall_app. split; [done|]. constructor; [|constructor]. unfold iteration_ok. by rewrite Hri1, Hri2.
      + unfold kept_summaries in *. by rewrite Hri, L3, kept_summaries_snoc, Hri1.
    - rewrite Hco. intros Hc. rewrite (steps_canceled _ _ Hs). apply L13. apply not_true_iff_false. by intros ?%L7.
    - rewrite Ht, L11, positions_succ by lia. done. }
  match goal with |- after_iterations _ _ ?x /\ _ => assert (Hx : after_iterations planned (k + 1) x) end.
  { destruct R4 as [R4 R4']. apply Ha; [by split|done| | |done|done|by eexists]; cbn; by destruct (iteration_status l). }
  split; [exact Hx|]. destruct (lo_stop l) eqn:E; [apply L7; done|]. split; [exact Hx| | |].
  - cbn. destruct (ru_completion r1) eqn:Ec; [done|exfalso..]; by assert (false = true) by (apply L7; done).
  - eapply list.Forall_impl; [exact L8|]. intros y Hy. unfold before in *. cbn in *. lia.
  - intros it' s keep Hin Hc. by assert (false = true) by exact (L10 it' s keep Hin Hc).
Qed.

Lemma iteration_after planned k r : 0 <= k < 2 ^ 31 -> step_count < 2 ^ 31 -> between planned k r ->
  let '(stop, r') := iteration plan k r in
  after_iterations planned (k + 1) r' /\ (if stop then ru_completion r' <> RunnerCompletion_Completed else between planned (k + 1) r') /\
  ru_stop_on_failure r' = ru_stop_on_failure r /\ ru_max_report_steps r' = ru_max_report_steps r.
Proof.
  intros Hk Hc Hb. unfold iteration. destruct (begin_loop planned k r Hk Hb) as (Hl & _).
  pose proof (run_steps_ok k (k * step_count) (begin_iteration plan k r) (pl_steps plan) 0 Loop_new (begin_iteration plan k r)) as Hs.
  unfold step_count in *. fold (dataset_layer_of plan k). destruct (run_steps _ _ _ _ _) as [l r1].
  assert (H1 : loop_ok k step_count (k * step_count) (begin_iteration plan k r) l r1) by (apply Hs; [lia|lia|lia|nia|done|exact Hl]).
  pose proof (end_loop planned k r l r1 Hk Hb H1) as He. destruct (loop_options _ _ _ _ _ _ H1) as [O1 O2].
  unfold end_iteration in *. cbv zeta in *. destruct He as [He1 He2]. split; [exact He1|]. split; [exact He2|]. cbn. rewrite O1, O2.
  unfold begin_iteration. by destruct (pl_dataset plan).
Qed.

(** The loop over the iterations ends after all of them, or early and says so. *)
Lemma run_iterations_after planned : step_count < 2 ^ 31 -> forall left k r, 0 <= k -> k + Z.of_nat left = planned -> planned < 2 ^ 31 -> between planned k r ->
  let r' := run_iterations plan left k r in
  (exists k', 0 <= k' <= planned /\ after_iterations planned k' r' /\ (ru_completion r' = RunnerCompletion_Completed -> k' = planned)) /\
  ru_stop_on_failure r' = ru_stop_on_failure r /\ ru_max_report_steps r' = ru_max_report_steps r.
Proof.
  intros Hc. induction left as [|left IH]; intros k r Hk Hp Hmax Hb; cbn [run_iterations]; cbv zeta.
  { split; [|done]. exists k. split; [lia|]. split; [apply Hb|]. lia. }
  destruct (w_canceled_at_start w k).
  - split; [|done]. exists k. split; [lia|]. split; [|done]. destruct Hb as [[[R1 R2 R3 [R4 R5]] A2 A3 A4 A6 A5] _ _ _].
    split; [|done..]. by split.
  - pose proof (iteration_after planned k r ltac:(lia) Hc Hb) as Hi. destruct (iteration plan k r) as [stop r'].
    destruct Hi as (H1 & H2 & H3 & H4). destruct stop.
    + split; [|done]. exists (k + 1). split; [lia|]. split; [done|]. by intros ?%H2.
    + destruct (IH (k + 1) r' ltac:(lia) ltac:(lia) Hmax H2) as [IH1 [-> ->]]. done.
Qed.

(** * From the start to the report *)

Lemma check_plan_bounds opts n : match ro_iterations opts with Some n => 0 <= n | None => True end -> check_plan plan opts = Ok n ->
  0 <= n <= MAX_ITERATIONS /\ step_count <= MAX_STEPS.
Proof.
  unfold check_plan, step_count. intros Ho. destruct (negb _ && negb _); [done|]. destruct (match pl_steps plan with [] => true | _ => false end); [done|].
  destruct (negb _); [done|]. destruct (Z.ltb_spec MAX_STEPS (Z.of_nat (List.length (pl_steps plan)))); [done|].
  destruct (too_slow _ _) as [[i s]|]; [done|]. assert (Hb : forall m, 0 <= m -> (if MAX_ITERATIONS <? m then
    Err (RunError_Invalid (pretty m +:+ " iterations requested; the limit is " +:+ pretty MAX_ITERATIONS)) else Ok m) = Ok n -> 0 <= n <= MAX_ITERATIONS /\
    Z.of_nat (List.length (pl_steps plan)) <= MAX_STEPS).
  { intros m Hm. destruct (Z.ltb_spec MAX_ITERATIONS m); [done|]. intros [= <-]. lia. }
  destruct (ro_iterations opts) as [m|].
  - destruct (m =? 0); [done|]. cbn. by apply Hb.
  - cbn. apply Hb. destruct (Z.ltb_spec 0 (pl_iterations plan)); [lia|]. destruct (pl_dataset plan); cbn; [|lia]. unfold row_count, U32_MAX. lia.
Qed.

Lemma add_names_known names s : known_ok s -> known_ok (fold_left (fun s c => add_name c s) names s).
Proof. revert s. induction names as [|c names IH]; intros s Hs; [done|]. cbn [fold_left]. by apply IH, add_name_known. Qed.

(** What a run starts from. *)
Lemma start_between n id fail_on sof max secrets notes em progress source ev : known_ok secrets -> (List.length notes <= S MAX_NOTES)%nat ->
  between n 0 (emit_run ev Class_Always (mkRun id fail_on sof max secrets notes em progress (RunTotals_default <| rt_iterations_planned := n |>)
    [] 0 RunnerCompletion_Completed None source [])).
Proof.
  intros Hs1 Hs2. split; [|done|constructor|cbn; by intros ? ? ? ?%elem_of_nil]. split.
  - split; [done|done|apply trace_ok_nil|]. split; cbn; [unfold MAX_EXTRA_FAILED_STEPS; lia|]. by intros ? ? ?%elem_of_nil.
  - split; cbn; done || lia.
  - exists 0, 0, 0. by split; [|lia].
  - done.
  - done.
  - done.
Qed.

Lemma Run_new_between opts n nil_id ev : between n 0 (emit_run ev Class_Always (Run_new plan opts n nil_id)) /\
  ru_stop_on_failure (Run_new plan opts n nil_id) = default (pl_stop_on_failure plan) (ro_stop_on_failure opts) /\
  ru_max_report_steps (Run_new plan opts n nil_id) = default MAX_REPORT_STEPS (ro_max_report_steps opts).
Proof.
  unfold Run_new. cbv zeta. set (notes0 := if negb (pl_trusted plan) then _ else _).
  assert (H0' : (List.length notes0 <= S MAX_NOTES)%nat) by (unfold notes0; destruct (negb _); [apply notes_push_bound|]; cbn; lia). clearbody notes0.
  assert (Hn : known_ok (RunSecrets_new [])) by (intros Ht; pose proof (laws Ht); split; [apply secrets_new_ok|constructor]).
  destruct (pl_dataset plan) as [d|]; (split; [|done]); apply start_between; [by apply add_names_known| |done..].
  unfold note_to. repeat case_match; by repeat apply notes_push_bound.
Qed.

(** The report of a run and its state at the end: [k] iterations of the [n]
    planned ones were started. *)
Lemma run_after opts nil_id sv rv rep r : match ro_iterations opts with Some n => 0 <= n | None => True end ->
  run plan opts nil_id sv rv = Ok (rep, r) ->
  exists n k, check_plan plan opts = Ok n /\ 0 <= k <= n /\ after_iterations n k r /\ (rep_completion rep = RunnerCompletion_Completed -> k = n) /\
    rep_totals rep = ru_totals r /\ rep_iterations rep = ru_iterations r /\ rep_notes rep = ru_notes r /\ rep_completion rep = ru_completion r /\
    rep_partial rep = negb (bool_decide (rep_completion rep = RunnerCompletion_Completed)) /\
    rep_stop_on_failure rep = ru_stop_on_failure r /\ ru_stop_on_failure r = default (pl_stop_on_failure plan) (ro_stop_on_failure opts) /\
    ru_max_report_steps r = default MAX_REPORT_STEPS (ro_max_report_steps opts).
Proof.
  intros Ho. unfold run. destruct (check_plan plan opts) as [n|e] eqn:Ec; [|done]. cbn [result_bind].
  destruct (check_plan_bounds opts n Ho Ec) as [Hn Hsteps]. unfold MAX_ITERATIONS, MAX_STEPS in *.
  set (r0 := emit_run _ _ _). destruct (Run_new_between opts n nil_id (RunEvent_RunStarted (ru_run_id (Run_new plan opts n nil_id)) (pl_name plan) n (Z.of_nat (List.length (pl_steps plan)))))
    as (Hb & O1 & O2). fold r0 in Hb. change (ru_stop_on_failure (Run_new plan opts n nil_id)) with (ru_stop_on_failure r0) in O1.
  change (ru_max_report_steps (Run_new plan opts n nil_id)) with (ru_max_report_steps r0) in O2. clearbody r0.
  destruct (run_iterations_after n ltac:(lia) (Z.to_nat n) 0 r0 ltac:(lia) ltac:(lia) ltac:(lia) Hb) as [(k & Hk & Ha & Hc) [O3 O4]].
  unfold finish_run. cbv zeta. intros [= <- <-]. set (r' := run_iterations plan _ 0 r0) in *. clearbody r'.
  exists n, k. cbn. split; [done|]. split; [done|]. split; [|rewrite <- O1, <- O2; done].
  destruct Ha as [[R1 R2 R3 [R4 R5]] A2 A3 A4 A6 A5]. by split.
Qed.
End Plan.
End Runner.

(** * What a step sees *)

Section Scopes.
Context {Rest : Type}.
Abbreviation Trace := (@RunTrace Rest).

(** What the sends of an iteration extracted, with the scope of the step. *)
Definition extractions (it : Z) (trace : list Trace) : list (option Id * (string * string * bool)) :=
  concat (map (fun t => match t with
    | Trace_Sent it' _ ctx out => if it' =? it then map (pair (cx_scope ctx)) (eo_extracted out) else []
    | _ => []
    end) trace).

(** The last value extracted under a name in a scope. *)
Definition latest (scope : option Id) (name : string) (l : list (option Id * (string * string * bool))) : option (string * string * bool) :=
  fold_left (fun acc y => if bool_decide (y.1 = scope) && String.eqb y.2.1.1 name then Some y.2 else acc) l None.

Definition entry_of (x : string * string * bool) : VarEntry := mkVarEntry x.1.1 x.1.2 x.2 true.

Definition extract_all (l : list (option Id * (string * string * bool))) : Vars := fold_left (fun v y => extract_var y.1 v y.2) l (mkVars [] []).

Lemma vars_of_extractions it trace : vars_of it trace = extract_all (extractions it trace).
Proof.
  unfold vars_of, extract_all, extractions. generalize (mkVars [] []). induction trace as [|t trace IH]; intros v; [done|].
  cbn [fold_left map concat]. rewrite fold_left_app, IH. f_equal. destruct t as [it' pos ctx out| |]; [|done..]. destruct (it' =? it); [|done].
  generalize (eo_extracted out). intros l. revert v. induction l as [|x l IHl]; intros v; [done|]. cbn [fold_left map]. apply IHl.
Qed.

Lemma latest_app scope name l y : latest scope name (l ++ [y]) =
  if bool_decide (y.1 = scope) && String.eqb y.2.1.1 name then Some y.2 else latest scope name l.
Proof. unfold latest. by rewrite fold_left_app. Qed.

(** A scope has, under a name, the last value extracted; it is unavailable
    when that was too large. *)
Lemma extract_all_spec l :
  (forall scope e, (scope, e) ∈ va_extracted (extract_all l) <->
    exists x, latest scope (ve_name e) l = Some x /\ too_large x = false /\ e = entry_of x) /\
  (forall scope name, (scope, name) ∈ va_unavailable (extract_all l) <-> exists x, latest scope name l = Some x /\ too_large x = true).
Proof.
  induction l as [|[sc [[var value] sensitive]] l [IH1 IH2]] using rev_ind.
  { split; intros; (split; [by intros ?%elem_of_nil|by intros (x & ? & _)]). }
  unfold extract_all in *. rewrite fold_left_app. cbn [fold_left fst snd]. unfold extract_var at 1 3. cbn [fst snd].
  set (v := fold_left _ l _) in *. clearbody v.
  assert (F1 : forall scope e, (scope, e) ∈ List.filter (other_entry sc var) (va_extracted v) <-> (scope, e) ∈ va_extracted v /\ ~ (scope = sc /\ ve_name e = var)).
  { intros scope e. rewrite list_elem_of_In, List.filter_In, <- list_elem_of_In. unfold other_entry. cbn.
    rewrite negb_true_iff, andb_false_iff, bool_decide_eq_false, String.eqb_neq. destruct (decide (scope = sc)), (decide (ve_name e = var)); naive_solver. }
  assert (F2 : forall scope name, (scope, name) ∈ List.filter (fun y : option Id * string => negb (bool_decide (y.1 = sc) && String.eqb y.2 var)) (va_unavailable v) <->
    (scope, name) ∈ va_unavailable v /\ ~ (scope = sc /\ name = var)).
  { intros scope name. rewrite list_elem_of_In, List.filter_In, <- list_elem_of_In. cbn.
    rewrite negb_true_iff, andb_false_iff, bool_decide_eq_false, String.eqb_neq. destruct (decide (scope = sc)), (decide (name = var)); naive_solver. }
  assert (L : forall scope name, latest scope name (l ++ [(sc, (var, value, sensitive))]) =
    if decide (scope = sc /\ name = var) then Some (var, value, sensitive) else latest scope name l).
  { intros scope name. rewrite latest_app. cbn. case_bool_decide; destruct (String.eqb_spec var name); cbn [andb];
      destruct (decide (scope = sc /\ name = var)) as [[? ?]|Hn]; done || congruence || (by destruct Hn). }
  split.
  - intros scope e. rewrite L. destruct (too_large (var, value, sensitive)) eqn:Et; cbn [va_extracted].
    + rewrite F1, IH1. destruct (decide _) as [Hn|Hn]; [|tauto]. split; [tauto|]. intros (x & [= <-] & Hx & _). congruence.
    + rewrite elem_of_app, F1, IH1, list_elem_of_singleton. destruct (decide _) as [[-> Hn]|Hn].
      * split; [intros [[_ Hx]|[= ->]]; [by destruct Hx|by eexists]|]. intros (x & [= <-] & _ & ->). by right.
      * split; [intros [[Hx _]|[= -> ->]]; [done|by destruct Hn]|]. by left.
  - intros scope name. rewrite L. destruct (too_large (var, value, sensitive)) eqn:Et; cbn [va_unavailable].
    + rewrite elem_of_app, F2, IH2, list_elem_of_singleton. destruct (decide _) as [[-> ->]|Hn].
      * split; [intros _; by eexists|by right].
      * split; [intros [[Hx _]|[= -> ->]]; [done|by destruct Hn]|]. by left.
    + rewrite F2, IH2. destruct (decide _) as [Hn|Hn]; [|tauto]. split; [tauto|]. intros (x & [= <-] & Hx). congruence.
Qed.

Lemma is_unavailable_spec v scope name : is_unavailable v scope name = true <-> (scope, name) ∈ va_unavailable v.
Proof.
  unfold is_unavailable. rewrite existsb_exists. setoid_rewrite <- list_elem_of_In. setoid_rewrite andb_true_iff.
  setoid_rewrite bool_decide_eq_true. setoid_rewrite String.eqb_eq. split; [intros ([a b] & Hin & <- & <-); done|]. intros Hin. by exists (scope, name).
Qed.

Lemma retain_layers keep layers secrets : (retain_variables keep layers secrets).1 =
  map (fun layer => mkVarLayer (vl_label layer) (List.filter keep (vl_vars layer))) layers.
Proof.
  unfold retain_variables. cbn [fst]. apply map_ext. intros layer. f_equal. generalize 0%nat. induction (vl_vars layer) as [|e vars IH]; intros n; [done|].
  cbn [retain_entries List.filter]. specialize (IH (S n)). destruct (retain_entries keep (S n) vars) as [kept retained]. cbn in IH. subst kept. by destruct (keep e).
Qed.

(** The variables of a step's context: those of its layers whose names are
    not withheld. *)
Lemma step_context_entries it pos dl v secrets (ctx : RunContext (Rest := Rest)) e :
  (exists layer, layer ∈ cx_var_layers (step_context it pos dl v secrets ctx) /\ e ∈ vl_vars layer) <->
  is_unavailable v (cx_scope ctx) (ve_name e) = false /\
  ((exists layer, layer ∈ cx_var_layers ctx /\ e ∈ vl_vars layer) \/ e ∈ vl_vars (run_layer it pos) \/
   (exists l, dl = Some l /\ cx_scope ctx = None /\ e ∈ vl_vars l) \/ (cx_scope ctx, e) ∈ va_extracted v).
Proof.
  unfold step_context. cbv zeta. set (dataset := match dl with Some l => _ | None => [] end). set (own := match visible_to _ _ with [] => [] | _ => _ end).
  assert (Hd : (exists layer, layer ∈ dataset /\ e ∈ vl_vars layer) <-> (exists l, dl = Some l /\ cx_scope ctx = None /\ e ∈ vl_vars l)).
  { unfold dataset. destruct dl as [l|]; [|split; [intros (? & ?%elem_of_nil & _)|intros (? & ? & _)]; done]. case_bool_decide as Hs.
    - split; [intros (layer & ->%list_elem_of_singleton & He); by exists l|]. intros (l' & [= <-] & _ & He). exists l. by rewrite list_elem_of_singleton.
    - split; [intros (? & ?%elem_of_nil & _); done|]. by intros (? & _ & ? & _). }
  assert (Hv : (exists layer, layer ∈ own /\ e ∈ vl_vars layer) <-> (cx_scope ctx, e) ∈ va_extracted v).
  { assert (Hin : e ∈ visible_to (cx_scope ctx) v <-> (cx_scope ctx, e) ∈ va_extracted v).
    { unfold visible_to. rewrite list_elem_of_In, in_map_iff. setoid_rewrite List.filter_In. setoid_rewrite <- list_elem_of_In.
      split; [intros ([sc e'] & <- & Hin & Hs%bool_decide_eq_true); cbn in *; by subst|]. intros Hin. exists (cx_scope ctx, e). split; [done|]. split; [done|]. by apply bool_decide_eq_true. }
    rewrite <- Hin. unfold own. destruct (visible_to _ v) as [|e' vars]; [split; [intros (? & ?%elem_of_nil & _)|intros ?%elem_of_nil]; done|].
    split; [by intros (layer & ->%list_elem_of_singleton & He)|]. intros He. eexists. split; [by apply list_elem_of_singleton|done]. }
  assert (Hall : forall P : VarLayer -> Prop, (exists layer, layer ∈ cx_var_layers ctx ++ [run_layer it pos] ++ dataset ++ own /\ P layer) <->
    (exists layer, layer ∈ cx_var_layers ctx /\ P layer) \/ P (run_layer it pos) \/ (exists layer, layer ∈ dataset /\ P layer) \/ (exists layer, layer ∈ own /\ P layer)).
  { intros P. setoid_rewrite elem_of_app. setoid_rewrite elem_of_cons. setoid_rewrite elem_of_app. naive_solver. }
  clearbody dataset own. destruct (va_unavailable v) as [|u us] eqn:Eu.
  - assert (Hn : is_unavailable v (cx_scope ctx) (ve_name e) = false) by (unfold is_unavailable; by rewrite Eu).
    cbn. change (run_layer it pos :: dataset ++ own) with ([run_layer it pos] ++ dataset ++ own). rewrite Hall, Hd, Hv. by split; [|intros [_ ?]].
  - clear Eu. pose proof (retain_layers (fun e => negb (is_unavailable v (cx_scope ctx) (ve_name e))) (cx_var_layers ctx ++ [run_layer it pos] ++ dataset ++ own) (cx_secrets ctx)) as Hr.
    destruct (retain_variables _ _ _) as [layers store]. cbn in Hr |- *. rewrite Hr.
    rewrite <- Hd, <- Hv, <- Hall. split.
    + intros (layer & (l0 & -> & Hl)%list_elem_of_fmap & He). cbn in He. apply list_elem_of_In, List.filter_In in He as [He Hk%negb_true_iff].
      split; [done|]. exists l0. split; [done|]. by apply list_elem_of_In.
    + intros [Hk (layer & Hl & He)]. eexists. split; [apply list_elem_of_fmap; exists layer; split; [reflexivity|done]|]. cbn.
      apply list_elem_of_In, List.filter_In. split; [by apply list_elem_of_In|]. by rewrite Hk.
Qed.

Lemma step_context_scope it pos dl v secrets (ctx : RunContext (Rest := Rest)) : cx_scope (step_context it pos dl v secrets ctx) = cx_scope ctx.
Proof. unfold step_context. cbv zeta. destruct (va_unavailable v); [done|]. by destruct (retain_variables _ _ _). Qed.
End Scopes.

(** * What an output leaves *)

Section Outputs.
Context `{Libraries}.

Lemma learned_length xs : (List.length (learned xs) <= List.length xs)%nat.
Proof. unfold learned. rewrite length_map. induction xs as [|x xs IH]; cbn; [lia|]. destruct (_ && _); cbn; lia. Qed.

Lemma learned_elem var v xs : (var, v, true) ∈ xs -> 4 <= str_len v <= MAX_SENSITIVE_EXTRACTION_BYTES -> v ∈ learned xs.
Proof.
  intros Hin Hlen. unfold learned. rewrite list_elem_of_In, in_map_iff. exists (var, v, true). split; [done|]. apply List.filter_In.
  split; [by apply list_elem_of_In|]. cbn. apply negb_true_iff, Z.ltb_ge. lia.
Qed.

(** Too large a value leaves nothing of the response. *)
Lemma after_discards_empty xs : forall out, eo_body out = "" -> eo_decoded_body out = None -> rec_attempts (eo_record out) = [] -> rec_response (eo_record out) = None ->
  rec_stream (eo_record out) = None ->
  let out' := after_discards xs out in
  eo_body out' = "" /\ eo_decoded_body out' = None /\ rec_attempts (eo_record out') = [] /\ rec_response (eo_record out') = None /\
  rec_stream (eo_record out') = None.
Proof. unfold after_discards. induction xs as [|x xs IH]; intros out D1 D2 D3 D4 D5; [done|]. cbn [fold_left]. destruct (too_large x); by apply IH. Qed.

Lemma after_discards_large xs : forall out, existsb too_large xs = true ->
  let out' := after_discards xs out in
  eo_body out' = "" /\ eo_decoded_body out' = None /\ rec_attempts (eo_record out') = [] /\ rec_response (eo_record out') = None /\
  rec_stream (eo_record out') = None.
Proof.
  induction xs as [|x xs IH]; intros out Hx; [done|]. cbn [existsb] in Hx. unfold after_discards. cbn [fold_left]. destruct (too_large x); [|by apply IH].
  by apply after_discards_empty.
Qed.

Lemma after_discards_small xs out : existsb too_large xs = false -> after_discards xs out = out.
Proof. unfold after_discards. induction xs as [|x xs IH]; [done|]. cbn [existsb fold_left]. intros [-> Hx]%orb_false_elim. by apply IH. Qed.

Lemma scrub_body_record s out : eo_record (scrub_body s out).1 = eo_record out.
Proof. unfold scrub_body. destruct (_ || _); [done|]. destruct (coded out); [|done]. destruct (match complete_decoding out with None => _ | Some _ => _ end); done. Qed.

(** A body that is kept is the captured one, or was not coded. *)
Lemma scrub_body_kept s out : eo_body (scrub_body s out).1 <> "" -> has_values s = true ->
  (scrub_body s out).1 = out \/ coded (scrub_body s out).1 = false.
Proof.
  unfold scrub_body. intros Hb Hv. revert Hb. rewrite Hv. cbn [negb orb]. destruct (str_is_empty (eo_body out)); [by left|]. destruct (coded out) eqn:Ec.
  - cbv zeta. set (reason := match complete_decoding out with None => _ | Some _ => _ end). destruct reason as [why|]; [|by left]. intros Hb. by destruct Hb.
  - intros _. right. exact Ec.
Qed.
End Outputs.

(** * The theorems of a run *)

Section Theorems.
Context `{Libraries} {Rest : Type}.
Variable hex_decode : string -> option (list Z).
Variable id_text : Id -> string.
Variable w : Surroundings (Rest := Rest).
Variable plan : RunPlan.
Variable opts : RunOptions.
Variable nil_id : Id.
Variable schema_version : Z.
Variable runner_version : string.
Variable rep : RunReport.
Variable final : Run (Rest := Rest).
(** The option is a [u32]. *)
Hypothesis iterations_u32 : match ro_iterations opts with Some n => 0 <= n | None => True end.
Hypothesis ran : run hex_decode id_text w plan opts nil_id schema_version runner_version = Ok (rep, final).

Lemma ran_after : exists n k, check_plan plan opts = Ok n /\ 0 <= k <= n /\ after_iterations hex_decode w False plan n k final /\
  (rep_completion rep = RunnerCompletion_Completed -> k = n) /\
  rep_totals rep = ru_totals final /\ rep_iterations rep = ru_iterations final /\ rep_notes rep = ru_notes final /\ rep_completion rep = ru_completion final /\
  rep_partial rep = negb (bool_decide (rep_completion rep = RunnerCompletion_Completed)) /\
  rep_stop_on_failure rep = ru_stop_on_failure final /\ ru_stop_on_failure final = default (pl_stop_on_failure plan) (ro_stop_on_failure opts) /\
  ru_max_report_steps final = default MAX_REPORT_STEPS (ro_max_report_steps opts).
Proof. by apply (run_after hex_decode id_text w False ltac:(by intros []) ltac:(by intros []) plan ltac:(by intros []) opts nil_id schema_version runner_version rep final). Qed.

(** C4: the totals of a report balance: every started iteration accounts for
    each step of the plan exactly once (executed, errored, skipped or canceled);
    the executed steps are the sends, and they passed, failed or were canceled
    in flight; the started iterations passed, failed or are incomplete, and each
    has its entry; a run that completed started every planned iteration and
    canceled nothing, and any other report is marked partial. *)
Theorem run_ledger :
  let t := rep_totals rep in
  rt_steps_executed t = Z.of_nat (List.length (omap sent_at (ru_trace final))) /\
  rt_steps_executed t = rt_steps_passed t + rt_steps_failed t + rt_steps_canceled_in_flight t /\
  rt_steps_executed t + rt_steps_errored t + rt_steps_skipped t + rt_steps_canceled t =
    rt_iterations_started t * Z.of_nat (List.length (pl_steps plan)) /\
  rt_iterations_started t = rt_iterations_passed t + rt_iterations_failed t + rt_iterations_incomplete t /\
  rt_iterations_started t = Z.of_nat (List.length (rep_iterations rep)) /\
  check_plan plan opts = Ok (rt_iterations_planned t) /\ rt_iterations_started t <= rt_iterations_planned t /\
  (rep_completion rep = RunnerCompletion_Completed ->
    rt_iterations_started t = rt_iterations_planned t /\ rt_steps_canceled t = 0 /\ rt_steps_canceled_in_flight t = 0) /\
  rep_partial rep = negb (bool_decide (rep_completion rep = RunnerCompletion_Completed)).
Proof.
  destruct ran_after as (n & k & Hc & Hk & [_ [L1 L2 L3 L4] (p & f & i & C & P1 & P2 & P3 & P4) [A1 _] U _] & Hdone & -> & -> & _ & Hco & -> & _).
  injection C as C1 C2 C3 C4 C5. cbv zeta. rewrite C1, C2, C3, C4, C5, A1. fold (sent_count final). unfold step_count in L3.
  do 7 (split; [done || lia|]). split; [|done]. intros Hcompl. rewrite (Hdone Hcompl). rewrite Hco in Hcompl.
  split; [done|]. by injection (U Hcompl).
Qed.

(** C5: a run sends its steps in order and none twice: the sends are strictly
    ordered by iteration and step, so nothing is retried; every step of every
    started iteration is finished exactly once, in order; only enabled steps of
    the plan are sent; nothing is sent after a step was canceled, nor later in
    an iteration in which a step failed when the run stops at failures. *)
Theorem run_order :
  StronglySorted before (omap sent_at (ru_trace final)) /\
  omap finished_at (ru_trace final) = positions plan (rt_iterations_started (rep_totals rep)) /\
  (forall it pos ctx out, Trace_Sent it pos ctx out ∈ ru_trace final ->
    exists step, pl_steps plan !! Z.to_nat pos = Some step /\ 0 <= pos /\ ps_enabled step = true) /\
  (forall a it s kept b, ru_trace final = a ++ Trace_Finished it s kept :: b -> forall it' pos ctx out, Trace_Sent it' pos ctx out ∈ b ->
    rs_status s <> RunStepStatus_Canceled /\
    (default (pl_stop_on_failure plan) (ro_stop_on_failure opts) = true -> step_failed s = true -> it' <> it)).
Proof.
  destruct ran_after as (n & k & _ & _ & [[_ _ [T1 T2 T3] _] _ (p & f & i & C & _) _ _ F] & _ & -> & _ & _ & _ & _ & _ & O & _).
  injection C as _ C _ _ _. rewrite C. split; [done|]. split; [done|]. split.
  - intros it pos ctx out (a & b & E)%list_elem_of_split. destruct (T3 a it pos ctx out b E) as [(step & _ & _ & ? & ? & ? & _) _]. by exists step.
  - rewrite <- O. intros a it s kept b E it' pos ctx out Hin. split.
    + intros Hc. apply (T2 a _ b E it' pos ctx out Hin). by left.
    + intros Hs Hf ->. apply (T2 a _ b E it pos ctx out Hin). by right.
Qed.

(** C6: what a step is sent with: a variable is in one of its layers exactly
    when its name is not withheld and it comes from the provider's layers, the
    run's own, the dataset row (only for a step outside every import root) or
    is the value last extracted under its name, in the same iteration, by a
    step of the same import root; a name whose last such value was too large is
    withheld from every layer. *)
Theorem run_scopes : forall a it pos ctx out b, ru_trace final = a ++ Trace_Sent it pos ctx out :: b ->
  exists step provided, pl_steps plan !! Z.to_nat pos = Some step /\ w_step w it pos (ps_request_id step) = Ok provided /\
    cx_scope ctx = cx_scope (pv_context provided) /\
    let scope := cx_scope ctx in
    let last_extracted name := latest scope name (extractions it a) in
    forall e, (exists layer, layer ∈ cx_var_layers ctx /\ e ∈ vl_vars layer) <->
      ~ (exists x, last_extracted (ve_name e) = Some x /\ too_large x = true) /\
      ((exists layer, layer ∈ cx_var_layers (pv_context provided) /\ e ∈ vl_vars layer) \/ e ∈ vl_vars (run_layer it pos) \/
       (exists d, pl_dataset plan = Some d /\ scope = None /\ e ∈ vl_vars (run_row_layer d it)) \/
       exists x, last_extracted (ve_name e) = Some x /\ e = entry_of x).
Proof.
  intros a it pos ctx out b E. destruct ran_after as (n & k & _ & _ & [[_ _ [_ _ T] _] _ _ _ _ _] & _).
  destruct (T a it pos ctx out b E) as [(step & provided & secrets & Hs & _ & _ & Hp & Hctx & _) _].
  exists step, provided. split; [done|]. split; [done|].
  assert (Hsc : cx_scope ctx = cx_scope (pv_context provided)) by (rewrite Hctx; apply step_context_scope).
  split; [done|]. cbv zeta. intros e. rewrite Hsc, Hctx, step_context_entries, vars_of_extractions.
  destruct (extract_all_spec (extractions it a)) as [X1 X2]. rewrite <- not_true_iff_false, is_unavailable_spec, X2, X1.
  assert (Hd : (exists l, dataset_layer_of plan it = Some l /\ cx_scope (pv_context provided) = None /\ e ∈ vl_vars l) <->
    (exists d, pl_dataset plan = Some d /\ cx_scope (pv_context provided) = None /\ e ∈ vl_vars (run_row_layer d it))).
  { unfold dataset_layer_of. destruct (pl_dataset plan) as [d|]; cbn; [|by split; intros (? & ? & _)].
    split; intros (d' & [= <-] & ?); by eexists. }
  rewrite Hd. split; (intros [Hn Ho]; split; [done|]); (destruct Ho as [Ho|[Ho|[Ho|(x & Hx & Ho)]]]; [by left|by right; left|by right; right; left|right; right; right]).
  - exists x. split; [done|]. by destruct Ho.
  - exists x. split; [done|]. split; [|done]. apply not_true_iff_false. intros Ht. apply Hn. by exists x.
Qed.

(** C8: the report is bounded: the step summaries are at most the limit and
    2000 failed ones, the notes at most 51; each iteration reports or counts as
    omitted every step of the plan; and a summary is omitted only when the
    report is full, of a step that did not pass or was not skipped only when
    the extra room is full too. *)
Theorem report_bounded :
  let max := default MAX_REPORT_STEPS (ro_max_report_steps opts) in
  let kept := foldr Z.add 0 (map (fun i => Z.of_nat (List.length (ri_steps i))) (rep_iterations rep)) in
  kept <= Z.max 0 max + MAX_EXTRA_FAILED_STEPS /\ (List.length (rep_notes rep) <= S MAX_NOTES)%nat /\
  Forall (fun i => Z.of_nat (List.length (ri_steps i)) + ri_steps_omitted i = Z.of_nat (List.length (pl_steps plan)) /\ 0 <= ri_steps_omitted i)
    (rep_iterations rep) /\
  (forall it s, Trace_Finished it s false ∈ ru_trace final -> max <= kept /\
    (rs_status s <> RunStepStatus_Passed -> rs_status s <> RunStepStatus_Skipped -> max + MAX_EXTRA_FAILED_STEPS <= kept)).
Proof.
  destruct ran_after as (n & k & _ & _ & [[_ N _ [R1 R2]] _ _ (_ & A2 & A3) _ _] & _ & _ & -> & -> & _ & _ & _ & _ & O).
  cbv zeta. rewrite <- O. unfold kept_summaries in A3. rewrite <- A3. done.
Qed.

(** C7: what is recorded of a send. Right after each send its output is
    recorded, scrubbed with the values the run knows, among them every
    sensitive value of 4 to 65536 bytes it extracted. In the texts of the
    record that are redacted ([record_texts], listed under C9), in any known
    form and letter case, and in the preview, event id and event type of every
    stream message, in any known form, each occurrence of a value lies over a
    marker; no reading of a URL of a finding's evidence finds one; a refused
    tunnel's body is an excerpt cut after redaction. The recorded body holds no
    value, but for one that shares a byte with a marker; one that was not coded
    is the received body with the values replaced one after another, and one
    under a content coding is kept only when it was decoded whole and neither
    it nor its decoding holds one. The response of a send that extracted a
    larger sensitive value is discarded. *)
Theorem run_hides_sensitive :
  LibraryLaws -> DecodeLaws -> (forall it pos ctx x, x ∈ eo_extracted (w_execute w it pos ctx) -> value_text x.1.2) ->
  (forall d it v, pl_dataset plan = Some d -> v ∈ sensitive_values d it -> value_text v) ->
  forall a it pos ctx out b, ru_trace final = a ++ Trace_Sent it pos ctx out :: b ->
  exists secrets recorded b', b = Trace_Recorded it pos secrets recorded :: b' /\
    let known := sec_values secrets in
    ((List.length (eo_extracted out) <= MAX_RUN_SECRETS)%nat ->
      forall var v, (var, v, true) ∈ eo_extracted out -> 4 <= str_len v <= MAX_SENSITIVE_EXTRACTION_BYTES -> v ∈ known) /\
    Forall (hides known) (record_texts (eo_record recorded)) /\
    Forall (hides_exact known) (stream_texts (eo_record recorded)) /\
    Forall (url_unread known) (evidence_urls (eo_record recorded)) /\
    (forall excerpt, excerpt ∈ refusal_bodies (eo_record recorded) -> exists redact captured cut,
      (forall t, hides known (redact t)) /\ cut_at captured 8192 cut /\ excerpt_of redact captured cut excerpt) /\
    (forall v, v ∈ known -> clear_of_marker v -> absent v (eo_body recorded)) /\
    (existsb too_large (eo_extracted out) = false -> eo_decoded_body out = None -> coded recorded = false ->
      replaced_all known (eo_body out) (eo_body recorded)) /\
    (eo_body recorded <> "" -> has_values secrets = true -> coded recorded = true ->
      exists d, complete_decoding recorded = Some d /\ forall v, v ∈ known -> holds d v = false /\ holds (eo_body recorded) v = false) /\
    (existsb too_large (eo_extracted out) = true ->
      eo_body recorded = "" /\ eo_decoded_body recorded = None /\ rec_attempts (eo_record recorded) = [] /\ rec_response (eo_record recorded) = None /\
      rec_stream (eo_record recorded) = None).
Proof.
  intros Hlaws Hdec Hx Hds a it pos ctx out b E.
  destruct (run_after hex_decode id_text w True (fun _ => Hlaws) (fun _ => Hx) plan (fun _ => Hds) opts nil_id schema_version runner_version rep final iterations_u32 ran)
    as (n & k & _ & _ & [[_ _ [_ _ T] _] _ _ _ _ _] & _).
  destruct (T a it pos ctx out b E) as [_ (secrets & recorded & b' & -> & Hk & ->)]. destruct (Hk I) as (K1 & K2 & K3).
  exists secrets. eexists _, b'. split; [done|]. cbv zeta. split.
  { intros Hmax var v Hin Hlen. apply K3; [|by apply learned_elem with var|lia]. etransitivity; [|exact Hmax]. apply learned_length. }
  set (kept := after_discards _ _). set (scrubbed := kept <| eo_record ::= _ |>).
  assert (Hrec : eo_record (scrub_body secrets scrubbed).1 = eo_record scrubbed) by apply scrub_body_record. rewrite Hrec.
  assert (Hs : eo_record scrubbed = scrub_record hex_decode secrets (eo_record kept)) by reflexivity.
  split; [rewrite Hs; by apply scrub_record_hides|]. split; [rewrite Hs; by apply scrub_record_stream|].
  split; [rewrite Hs; by apply scrub_record_urls|]. split.
  { intros excerpt Hin. rewrite Hs in Hin. destruct (scrub_record_refusals hex_decode secrets (eo_record kept) K1 K2 excerpt Hin) as (redact & captured & cut & Hh & _ & Hc).
    by exists redact, captured, cut. }
  clear Hs.
  pose proof (known_long _ K1) as Hlong. split; [intros v; by apply scrub_body_absent|]. split.
  { intros Hsmall Hd Hc. assert (Hkept : kept = out <| eo_extracted := [] |>) by (by apply after_discards_small).
    replace (eo_body out) with (eo_body scrubbed) by (unfold scrubbed; by rewrite Hkept). apply scrub_body_plain; [done|].
    apply (scrub_body_not_coded secrets); [|done]. unfold scrubbed. by rewrite Hkept. }
  split.
  - intros Hb Hv Hc. destruct (scrub_body_kept secrets scrubbed Hb Hv) as [Hsame|Hsame].
    + rewrite Hsame in Hc |- *. destruct (scrub_body_coded secrets scrubbed Hc Hv) as [He|[_ Hd]]; [by destruct Hb|done].
    + by rewrite Hsame in Hc.
  - intros Hlarge. pose proof (after_discards_large (eo_extracted out) (out <| eo_extracted := [] |>) Hlarge) as (D1 & D2 & D3 & D4 & D5). fold kept in D1, D2, D3, D4, D5.
    assert (Hb : (scrub_body secrets scrubbed).1 = scrubbed).
    { unfold scrub_body. change (eo_body scrubbed) with (eo_body kept). rewrite D1. by rewrite orb_true_r. }
    rewrite Hb. split; [done|]. split; [done|]. unfold scrubbed. cbn. by rewrite D3, D4, D5.
Qed.
End Theorems.

(** * A run of two iterations *)

Definition demo_plan : RunPlan :=
  mkRunPlan (mkId 1) "demo" (RunSource_Folder None "/")
    [mkPlannedStep (mkId 10) "login" true 0; mkPlannedStep (mkId 11) "list" true 5; mkPlannedStep (mkId 12) "off" false 0] 2 true true
    (Some (mkRunDataset "users" DatasetFormat_Csv ["user"; "key"] [[Some "ada"; Some "k3y-value"]; [Some "bob"; None]] "" ["key"] [])) None None.

Definition demo_options : RunOptions := mkRunOptions None None FailOn_default false true None (Some 3).

(** The first step extracts a token, and fails an assertion in the second
    iteration; the second step shows the token. *)
Definition demo_output (it pos : Z) : ExecutionOutput := {|
  eo_response_metadata := None;
  eo_record := sample_record TransportState_Completed (ProtocolStatus_Http 200 (Some "go to s3cr3t-toto")) []
    <| rec_outcome ::= fun o => o <| oc_assertions := if it =? 1 then AssertionState_Fail else AssertionState_Pass |> |>;
  eo_body := "echo s3cr3t-toto"; eo_decoded_body := None;
  eo_extracted := if pos =? 0 then [("token", "s3cr3t-toto", true)] else []; eo_session_facts := None |}.

Definition demo_context : RunContext :=
  mkRunContext [mkVarLayer "workspace" [mkVarEntry "host" "a.example" false false]] (MemorySecrets []) (Some 7) [] None tt.

Definition demo_surroundings : Surroundings := {|
  w_canceled_at_start _ := false; w_canceled _ _ := false; w_canceled_in_delay _ _ := false;
  w_step _ _ _ := Ok (mkProvidedStep "" demo_context);
  w_execute it pos _ := demo_output it pos;
  w_record _ _ _ := Ok tt; w_token n := Nat.even n;
  w_started_at := mkDateTime 0; w_finished_at := mkDateTime 9000000; w_elapsed_ms := 9;
  w_iteration_started_at _ := mkDateTime 0; w_iteration_ms _ := 4 |}.

#[local] Existing Instance simple_libraries.

Definition demo_run : result (RunReport * Run) RunError :=
  run (fun _ => None) (fun _ => "id") demo_surroundings demo_plan demo_options (mkId 0) 1 "1.0".

(** The report of the run and its state at the end satisfy [P]. *)
Definition of_demo (P : RunReport -> Run (Rest := unit) -> Prop) : Prop := match demo_run with Ok (rep, final) => P rep final | Err _ => False end.

Example demo_totals : of_demo (fun rep _ => rep_totals rep = mkRunTotals 2 2 1 1 0 3 2 1 0 3 0 0 0 0 1 0 0 3).
Proof. vm_compute. reflexivity. Qed.

(** The second step of the first iteration was sent after the token was
    extracted. *)
Example demo_trace : of_demo (fun _ final => exists ctx out, ru_trace final !! 3%nat = Some (Trace_Sent 0 1 ctx out) /\
  cx_scope ctx = None /\ latest None "token" (extractions 0 (take 3 (ru_trace final))) = Some ("token", "s3cr3t-toto", true)).
Proof. vm_compute. eexists _, _. split; [reflexivity|]. split; reflexivity. Qed.

Example demo_first : of_demo (fun _ final => exists ctx b, ru_trace final = Trace_Sent 0 0 ctx (demo_output 0 0) :: b).
Proof. vm_compute. eexists _, _. reflexivity. Qed.

Lemma run_ledger_witness : of_demo (fun rep final =>
  rt_steps_executed (rep_totals rep) = Z.of_nat (List.length (omap sent_at (ru_trace final))) /\ rt_steps_executed (rep_totals rep) = 3 /\
  rt_steps_canceled (rep_totals rep) = 0).
Proof.
  pose proof demo_totals as Ht. unfold of_demo in *. destruct demo_run as [[rep final]|] eqn:E; [|done].
  pose proof (run_ledger (fun _ => None) (fun _ => "id") demo_surroundings demo_plan demo_options (mkId 0) 1 "1.0" rep final I E) as Hl.
  rewrite Ht in *. split; [exact (proj1 Hl)|done].
Defined.

Lemma run_order_witness : of_demo (fun _ final =>
  StronglySorted before (omap sent_at (ru_trace final)) /\ omap finished_at (ru_trace final) = [(0, 0); (0, 1); (0, 2); (1, 0); (1, 1); (1, 2)]).
Proof.
  pose proof demo_totals as Ht. unfold of_demo in *. destruct demo_run as [[rep final]|] eqn:E; [|done].
  destruct (run_order (fun _ => None) (fun _ => "id") demo_surroundings demo_plan demo_options (mkId 0) 1 "1.0" rep final I E) as (H1 & H2 & _).
  rewrite Ht in H2. by split.
Defined.

Lemma run_scopes_witness : of_demo (fun _ final => exists ctx out, Trace_Sent 0 1 ctx out ∈ ru_trace final /\
  exists layer, layer ∈ cx_var_layers ctx /\ mkVarEntry "token" "s3cr3t-toto" true true ∈ vl_vars layer).
Proof.
  pose proof demo_trace as Ht. unfold of_demo in *. destruct demo_run as [[rep final]|] eqn:E; [|done].
  destruct Ht as (ctx & out & Hi & Hs & Hlast). exists ctx, out. split; [by eapply list_elem_of_lookup_2|].
  destruct (run_scopes (fun _ => None) (fun _ => "id") demo_surroundings demo_plan demo_options (mkId 0) 1 "1.0" rep final I E
    (take 3 (ru_trace final)) 0 1 ctx out (drop 4 (ru_trace final))) as (step & provided & _ & _ & _ & He); [by rewrite take_drop_middle|].
  cbv zeta in He. rewrite Hs in He. apply He. cbn [ve_name]. rewrite Hlast. split; [by intros (x & [= <-] & ?)|]. right; right; right. by eexists.
Defined.

Lemma report_bounded_witness : of_demo (fun rep _ => (List.length (rep_notes rep) <= 51)%nat /\
  foldr Z.add 0 (map (fun i => Z.of_nat (List.length (ri_steps i))) (rep_iterations rep)) <= 2003).
Proof.
  unfold of_demo. destruct demo_run as [[rep final]|] eqn:E; [|by vm_compute in E].
  destruct (report_bounded (fun _ => None) (fun _ => "id") demo_surroundings demo_plan demo_options (mkId 0) 1 "1.0" rep final I E) as (H1 & H2 & _).
  by split.
Defined.

Lemma run_hides_sensitive_witness : of_demo (fun _ final => exists secrets recorded, Trace_Recorded 0 0 secrets recorded ∈ ru_trace final /\
  "s3cr3t-toto" ∈ sec_values secrets /\ Forall (hides (sec_values secrets)) (record_texts (eo_record recorded)) /\
  absent "s3cr3t-toto" (eo_body recorded)).
Proof.
  pose proof demo_first as Ht. unfold of_demo in *. destruct demo_run as [[rep final]|] eqn:E; [|done]. destruct Ht as (ctx & b & Ht).
  destruct (run_hides_sensitive (fun _ => None) (fun _ => "id") demo_surroundings demo_plan demo_options (mkId 0) 1 "1.0" rep final I E
    simple_libraries_laws simple_decode_laws) with (a := @nil (RunTrace (Rest := unit))) (it := 0) (pos := 0) (ctx := ctx) (out := demo_output 0 0) (b := b)
    as (secrets & recorded & b' & Hb & Hk & Hh & _ & _ & _ & Ha & _).
  - intros it pos ctx' x Hx. cbn in Hx. destruct (pos =? 0); [|by apply elem_of_nil in Hx]. apply list_elem_of_singleton in Hx as ->.
    intros _. apply is_text_cons. by eexists _, _.
  - intros d it v [= <-] Hv. unfold sensitive_values, row_of, run_row_index in Hv. change (Z.max _ 1) with 2 in Hv.
    assert (Hm : it mod 2 = 0 \/ it mod 2 = 1) by (pose proof (Z.mod_pos_bound it 2 ltac:(lia)); lia).
    destruct Hm as [Hm|Hm]; rewrite Hm in Hv; cbn in Hv; [|by apply elem_of_nil in Hv]. apply list_elem_of_singleton in Hv as ->.
    intros _. apply is_text_cons. by eexists _, _.
  - exact Ht.
  - exists secrets, recorded. split; [rewrite Ht, Hb; right; by left|].
    assert (Hin : "s3cr3t-toto" ∈ sec_values secrets) by (apply (Hk ltac:(cbn; unfold MAX_RUN_SECRETS; lia) "token"); [by left|]; vm_compute; done).
    split; [done|]. split; [done|]. apply (Ha _ Hin). apply clear_of_marker_bytes; apply (bool_decide_unpack _); vm_compute; exact I.
Defined.
