(* ===== verification/Refs.v ===== *)
(** References inside an API description (crates/anvil-contract/src/spec.rs):
    internal JSON pointers, [$ref] chains followed once per document and
    remembered, the byte budget of resolutions, the locations that could not be
    resolved, and the bound on the pointers of a document.

    The document is parsed elsewhere; a [Spec] here is its root and the two
    fields a resolution changes. A lock is held for one resolution, so the
    resolutions of a document are a list. [Value::pointer] is serde_json's,
    written out. *)
From Stdlib Require Import ZArith Lia Ascii String.
From stdpp Require Import base numbers strings pretty option list gmap.
From S2P Require Import Prelude Text Bytes Utf8 Json Patch.
Open Scope string_scope.
Open Scope list_scope.
Open Scope Z_scope.
Open Scope record_scope.

Definition MAX_REF_DEPTH : nat := 32.
Definition MAX_KEY_BYTES : Z := 4 * 1024.
Definition MAX_POINTER_BYTES : Z := 64 * 1024 * 1024.
Definition MAX_UNRESOLVED : nat := 1000.

(** * Pointers *)

(** [(b as char).to_digit(16)]. *)
Definition hex_val (b : Z) : option Z :=
  if (48 <=? b) && (b <=? 57) then Some (b - 48)
  else if (97 <=? b) && (b <=? 102) then Some (b - 87)
  else if (65 <=? b) && (b <=? 70) then Some (b - 55)
  else None.

(** The loop of [percent_decode]: an escape needs two hexadecimal digits. *)
Fixpoint percent_decoded (plus_is_space : bool) (skip : nat) (bs : list Z) : list Z :=
  match bs with
  | [] => []
  | b :: bs' =>
      match skip with
      | S skip' => percent_decoded plus_is_space skip' bs'
      | O =>
          match b =? 37, bs' with
          | true, h :: l :: _ =>
              match hex_val h, hex_val l with
              | Some h, Some l => (h * 16 + l) :: percent_decoded plus_is_space 2 bs'
              | _, _ => b :: percent_decoded plus_is_space 0 bs'
              end
          | _, _ => (if plus_is_space && (b =? 43) then 32 else b) :: percent_decoded plus_is_space 0 bs'
          end
      end
  end.

Definition percent_decode_ref (s : string) : string := from_utf8_lossy (percent_decoded false 0 (bytes_of_string s)).

(** [internal_pointer]. *)
Definition internal_pointer (r : string) : option string :=
  frag ← str_strip_prefix "#" r;
  if negb (str_is_empty frag || starts_with frag "/") then None else Some (percent_decode_ref frag).

(** serde_json's index of an array in a pointer: digits without a sign or a
    leading zero. *)
Definition parse_index (t : string) : option Z :=
  if starts_with t "+" || (starts_with t "0" && negb (String.length t =? 1)%nat) then None else parse_usize t.

Fixpoint value_at (v : Value) (tokens : list string) : option Value :=
  match tokens with
  | [] => Some v
  | t :: tokens' =>
      match v with
      | JObject o => child ← obj_get t o; value_at child tokens'
      | JArray a => i ← parse_index t; child ← arr_get i a; value_at child tokens'
      | _ => None
      end
  end.

(** [Value::pointer]. *)
Definition value_pointer (root : Value) (p : string) : option Value :=
  if str_is_empty p then Some root
  else if negb (starts_with p "/") then None
  else value_at root (pointer_tokens p).

(** The reference a value is. *)
Definition ref_of (v : Value) : option string := x ← get "$ref" v; as_str x.

(** * The references followed so far *)

Record RefCache := mkRefCache {
  rf_by_ref : gmap string (option (nat * nat));
  rf_ends : list string;
  rf_end_ids : gmap string nat;
}.

Definition RefCache_default : RefCache := mkRefCache ∅ [] ∅.

(** [RefCache::intern]. *)
Definition intern (p : string) (c : RefCache) : nat * RefCache :=
  match rf_end_ids c !! p with
  | Some id => (id, c)
  | None => let id := List.length (rf_ends c) in (id, mkRefCache (rf_by_ref c) (rf_ends c ++ [p]) (<[p := id]> (rf_end_ids c)))
  end.

Definition remember (r : string) (end_ : option (nat * nat)) (c : RefCache) : RefCache :=
  mkRefCache (<[r := end_]> (rf_by_ref c)) (rf_ends c) (rf_end_ids c).

(** Every [$ref] string of a value. *)
Fixpoint refs_in (v : Value) : list string :=
  match v with
  | JArray a => concat (map refs_in a)
  | JObject o => (match obj_get "$ref" o with Some (JString s) => [s] | _ => [] end) ++ concat (map (fun kv => refs_in kv.2) o)
  | _ => []
  end.

Section Document.
Variable root : Value.

(** The loop of [end_of] at the last reference [cur] of [chain]: where it
    leads, the chain, and the cache. [fuel] is more than the references there
    are ([end_of] gives one more than the document has). *)
Fixpoint follow (fuel : nat) (chain : list string) (on_chain : gset string) (cur : string) (c : RefCache)
    : option (nat * nat) * list string * RefCache :=
  match fuel with
  | O => (None, chain, c)
  | S fuel' =>
      match internal_pointer cur with
      | None => (None, chain, c)
      | Some target =>
          match value_pointer root target with
          | None => (None, chain, c)
          | Some v =>
              match ref_of v with
              | None => let '(id, c) := intern target c in (Some (id, 0%nat), chain, c)
              | Some next =>
                  match rf_by_ref c !! next with
                  | Some found => (found, chain, c)
                  | None =>
                      if decide (next ∈ on_chain) then (None, chain, c)
                      else follow fuel' (chain ++ [next]) ({[next]} ∪ on_chain) next c
                  end
              end
          end
      end
  end.

(** The references of a chain are remembered, [n] the length of what is left
    of it. *)
Fixpoint remember_chain (end_ : option (nat * nat)) (chain : list string) (c : RefCache) : RefCache :=
  match chain with
  | [] => c
  | r :: chain' => remember_chain end_ chain' (remember r (option_map (fun e => (e.1, (e.2 + List.length chain)%nat)) end_) c)
  end.

(** [Spec::end_of]. *)
Definition end_of (r : string) (c : RefCache) : option (nat * nat) * RefCache :=
  match rf_by_ref c !! r with
  | Some found => (found, c)
  | None =>
      let '(end_, chain, c) := follow (S (List.length (refs_in root))) [r] {[r]} r c in
      (option_map (fun e => (e.1, (e.2 + List.length chain)%nat)) end_, remember_chain end_ chain c)
  end.

(** * Resolution *)

Record RefTarget := mkRefTarget { rt_id : nat; rt_pointer : string }.

Inductive Reach :=
  | Reach_Inline (v : Value)
  | Reach_Target (t : RefTarget)
  | Reach_Unresolved.

(** What resolutions change. *)
Record SpecState := mkSpecState {
  sp_unresolved : gset string;
  sp_unresolved_count : Z;
  sp_refs : RefCache;
}.

Definition SpecState_new : SpecState := mkSpecState ∅ 0 RefCache_default.

(** [Spec::note_unresolved]. *)
Definition note_unresolved (at_ : string) (s : SpecState) : SpecState :=
  if (size (sp_unresolved s) <? MAX_UNRESOLVED)%nat then
    if decide (at_ ∈ sp_unresolved s) then s
    else mkSpecState ({[at_]} ∪ sp_unresolved s) (sp_unresolved_count s + 1) (sp_refs s)
  else if negb (bool_decide (at_ ∈ sp_unresolved s)) then mkSpecState (sp_unresolved s) (sp_unresolved_count s + 1) (sp_refs s)
  else s.

(** [Spec::reach]. *)
Definition reach (v : Value) (at_ : string) (s : SpecState) : Reach * SpecState :=
  match ref_of v with
  | None => (Reach_Inline v, s)
  | Some r =>
      let '(end_, c) := end_of r (sp_refs s) in
      let s := mkSpecState (sp_unresolved s) (sp_unresolved_count s) c in
      match end_ with
      | Some (id, hops) =>
          if (hops <? MAX_REF_DEPTH)%nat then (Reach_Target (mkRefTarget id (default "" (rf_ends c !! id))), s)
          else (Reach_Unresolved, note_unresolved at_ s)
      | None => (Reach_Unresolved, note_unresolved at_ s)
      end
  end.

(** [Spec::target_value] and [resolve]. *)
Definition target_value (t : RefTarget) : option Value := value_pointer root (rt_pointer t).

Definition resolved (at_ : string) (x : Reach) : option (Value * string) :=
  match x with
  | Reach_Inline v => Some (v, at_)
  | Reach_Target t => v ← target_value t; Some (v, rt_pointer t)
  | Reach_Unresolved => None
  end.

Definition resolve (v : Value) (at_ : string) (s : SpecState) : option (Value * string) * SpecState :=
  let '(x, s) := reach v at_ s in (resolved at_ x, s).

(** [Spec::deref] and [usable]. *)
Definition deref (v : Value) (at_ : string) (s : SpecState) : (Value * string) * SpecState :=
  let '(x, s) := resolve v at_ s in (default (v, at_) x, s).

Definition usable (v : Value) (at_ : string) (s : SpecState) : option (Value * string) * SpecState := resolve v at_ s.

(** [Spec::unresolved]; the locations are listed in no order here. *)
Definition unresolved (s : SpecState) : list string * Z := (elements (sp_unresolved s), sp_unresolved_count s).

(** * Budgets *)

Record Meter := mkMeter { mt_left : Z; mt_spent : Z; mt_exhausted : bool }.

Definition Meter_new (bytes : Z) : Meter := mkMeter bytes 0 false.

(** [Meter::charge]. *)
Definition charge (bytes : Z) (m : Meter) : bool * Meter :=
  if mt_exhausted m || (mt_left m <? bytes) then (false, mkMeter (mt_left m) (mt_spent m) true)
  else (true, mkMeter (mt_left m - bytes) (mt_spent m + bytes) (mt_exhausted m)).

(** [Spec::resolve_within]. *)
Definition resolve_within (v : Value) (at_ : string) (m : Meter) (s : SpecState) : option (Value * string) * Meter * SpecState :=
  let r := from_option str_len 0 (ref_of v) in
  let '(ok, m) := charge (str_len at_ + r) m in
  if negb ok then (None, m, s)
  else
    let '(x, s) := reach v at_ s in
    match x with
    | Reach_Inline v => (Some (v, at_), m, s)
    | Reach_Target t =>
        let '(ok, m) := charge (str_len (rt_pointer t)) m in
        if negb ok then (None, m, s) else (resolved at_ x, m, s)
    | Reach_Unresolved => (None, m, s)
    end.
End Document.

(** * The pointers of a document *)

Inductive Complexity := LongName (len : Z) | LongPaths.

(** The members or items of a value with the lengths of their pointers,
    [len] the length of its own; the error of one. *)
Fixpoint member_pointers (len total : Z) (o : Object) (stack : list (Value * Z)) : result (Z * list (Value * Z)) Complexity :=
  match o with
  | [] => Ok (total, stack)
  | (k, child) :: o' =>
      if MAX_KEY_BYTES <? str_len k then Err (LongName (str_len k))
      else
        let child_len := len + 1 + str_len k in
        let total := total + child_len in
        if MAX_POINTER_BYTES <? total then Err LongPaths
        else member_pointers len total o' ((child, child_len) :: stack)
  end.

Fixpoint item_pointers (len total : Z) (i : nat) (a : list Value) (stack : list (Value * Z)) : result (Z * list (Value * Z)) Complexity :=
  match a with
  | [] => Ok (total, stack)
  | child :: a' =>
      let child_len := len + 1 + str_len (pretty i) in
      let total := total + child_len in
      if MAX_POINTER_BYTES <? total then Err LongPaths
      else item_pointers len total (S i) a' ((child, child_len) :: stack)
  end.

(** The values of a document, itself included. *)
Fixpoint value_count (v : Value) : nat :=
  match v with
  | JArray a => S (list_sum (map value_count a))
  | JObject o => S (list_sum (map (fun kv => value_count kv.2) o))
  | _ => 1
  end.

(** The loop of [check_pointer_budget]; the stack's top is its head. *)
Fixpoint check_stack (fuel : nat) (total : Z) (stack : list (Value * Z)) : result unit Complexity :=
  match fuel, stack with
  | _, [] | O, _ => Ok tt
  | S fuel', (v, len) :: stack' =>
      match v with
      | JObject o => let? next := member_pointers len total o stack' in check_stack fuel' next.1 next.2
      | JArray a => let? next := item_pointers len total 0 a stack' in check_stack fuel' next.1 next.2
      | _ => check_stack fuel' total stack'
      end
  end.

(** [check_pointer_budget]. *)
Definition check_pointer_budget (root : Value) : result unit Complexity := check_stack (value_count root) 0 [(root, 0)].

(** * Where references lead *)

Section Document.
Variable root : Value.

(** The chain from the reference [r] passes through [n] references and ends
    at [p], a value of the document that is no reference. *)
Inductive leads : string -> string -> nat -> Prop :=
  | leads_end r p v : internal_pointer r = Some p -> value_pointer root p = Some v -> ref_of v = None -> leads r p 1
  | leads_step r t v next p n : internal_pointer r = Some t -> value_pointer root t = Some v -> ref_of v = Some next ->
      leads next p n -> leads r p (S n).

Lemma leads_deterministic r p n : leads r p n -> forall p' n', leads r p' n' -> p' = p /\ n' = n.
Proof.
  induction 1 as [r p v I V R|r t v next p n I V R _ IH]; intros p' n' H; inversion H; subst; try congruence.
  - split; [congruence|done].
  - simplify_eq. match goal with Hl : leads _ p' _ |- _ => destruct (IH _ _ Hl) as [-> ->] end. done.
Qed.

(** One reference of a chain leads to the next. *)
Definition steps (r next : string) : Prop :=
  exists t v, internal_pointer r = Some t /\ value_pointer root t = Some v /\ ref_of v = Some next.

Lemma steps_leads r next p n : steps r next -> (leads next p n <-> leads r p (S n)).
Proof.
  intros (t & v & I & V & R). split; [by econstructor|]. intros H. inversion H; subst; simplify_eq; done.
Qed.

Lemma leads_steps r next p n : steps r next -> leads r p n -> exists n', n = S n' /\ leads next p n'.
Proof. intros (t & v & I & V & R) H. inversion H; subst; simplify_eq. eauto. Qed.

(** A chain of references: each leads to the one after it, the last is [cur]. *)
Inductive chain_to (cur : string) : list string -> Prop :=
  | chain_one : chain_to cur [cur]
  | chain_cons r next l : steps r next -> chain_to cur (next :: l) -> chain_to cur (r :: next :: l).

Lemma chain_snoc cur next l : chain_to cur l -> steps cur next -> chain_to next (l ++ [next]).
Proof. induction 1; intros Hs; cbn; constructor; try done; [constructor|]. by apply IHchain_to. Qed.

(** What the last reference leads to, the others lead to from further away. *)
Lemma chain_leads cur l : chain_to cur l -> forall r l', l = r :: l' -> forall p n, leads cur p n <-> leads r p (n + List.length l').
Proof.
  induction 1 as [|r next l Hs Hc IH]; intros r' l' [= -> <-] p n; cbn [List.length]; [by rewrite Nat.add_0_r|].
  rewrite (IH next l eq_refl p n), (steps_leads r' next p (n + List.length l) Hs). by rewrite Nat.add_succ_r.
Qed.

Lemma chain_dead cur l : chain_to cur l -> (forall p n, ~ leads cur p n) -> Forall (fun r => forall p n, ~ leads r p n) l.
Proof.
  induction 1 as [|r next l Hs Hc IH]; intros Hd; [by constructor|]. specialize (IH Hd). constructor; [|done].
  intros p n Hr. apply (leads_steps _ _ _ _ Hs) in Hr as (n' & _ & Hr). inversion IH; subst. by eapply H1.
Qed.

Lemma chain_member cur l r : chain_to cur l -> r ∈ l -> exists d, forall p n, leads cur p n -> leads r p (n + d).
Proof.
  induction 1 as [|r' next l Hs Hc IH].
  - intros ->%list_elem_of_singleton. exists 0%nat. intros p n. by rewrite Nat.add_0_r.
  - intros [->|Hin]%elem_of_cons; [|by apply IH]. exists (S (List.length l)). intros p n Hl.
    rewrite Nat.add_succ_r. apply (steps_leads _ _ _ _ Hs). by apply (chain_leads cur (next :: l) Hc next l eq_refl).
Qed.

(** A chain that comes back on itself ends nowhere. *)
Lemma chain_cycle cur next l p n : chain_to cur l -> steps cur next -> next ∈ l -> ~ leads cur p n.
Proof.
  intros Hc Hs Hin Hl. destruct (leads_steps _ _ _ _ Hs Hl) as (n' & -> & Hl').
  destruct (chain_member _ _ _ Hc Hin) as (d & Hd). specialize (Hd p (S n') Hl). destruct (leads_deterministic _ _ _ Hl' _ _ Hd). lia.
Qed.

(** References met while a chain is followed are references of the document. *)
Lemma obj_get_in {V} k (o : list (string * V)) v : obj_get k o = Some v -> exists k', (k', v) ∈ o.
Proof. induction o as [|[k' v'] o IH]; cbn; [done|]. destruct (String.eqb k k'); [intros [= ->]; exists k'; by left|]. intros H. destruct (IH H) as (q & Hq). exists q. by right. Qed.

Lemma value_at_refs tokens : forall v x s, value_at v tokens = Some x -> ref_of x = Some s -> s ∈ refs_in v.
Proof.
  induction tokens as [|t tokens IH]; intros v x s; cbn [value_at].
  - intros [= ->] Hr. unfold ref_of, get, as_str in Hr. destruct x; try done. cbn [refs_in].
    destruct (obj_get "$ref" o) as [y|]; [|done]. cbn in Hr. destruct y; try done. injection Hr as ->. apply elem_of_app. left. by left.
  - destruct v; try done.
    + destruct (parse_index t) as [i|]; [|done]. cbn. unfold arr_get. destruct (_ <? _); [|done]. destruct (a !! Z.to_nat i) as [y|] eqn:E; [|done].
      cbn. intros Hx Hr. cbn [refs_in]. apply list_elem_of_In, in_concat. exists (refs_in y). split; [|apply list_elem_of_In; by eapply IH].
      apply in_map, list_elem_of_In. by eapply list_elem_of_lookup_2.
    + destruct (obj_get t o) as [y|] eqn:E; [|done]. cbn. intros Hx Hr. cbn [refs_in]. apply elem_of_app. right.
      destruct (obj_get_in _ _ _ E) as (k & Hk). apply list_elem_of_In, in_concat. exists (refs_in y).
      split; [|apply list_elem_of_In; by eapply IH]. apply in_map_iff. exists (k, y). split; [done|]. by apply list_elem_of_In.
Qed.

Lemma steps_refs r next : steps r next -> next ∈ refs_in root.
Proof.
  intros (t & v & _ & V & R). unfold value_pointer in V. destruct (str_is_empty t).
  - injection V as <-. by apply (value_at_refs [] root root).
  - destruct (negb _); [done|]. by eapply value_at_refs.
Qed.

(** * The cache *)

Record cache_ok (c : RefCache) : Prop := mkCacheOk {
  cache_ids p id : rf_end_ids c !! p = Some id <-> rf_ends c !! id = Some p;
  cache_known r id n : rf_by_ref c !! r = Some (Some (id, n)) -> exists p, rf_ends c !! id = Some p /\ leads r p n;
  cache_dead r : rf_by_ref c !! r = Some None -> forall p n, ~ leads r p n
}.

(** Ends are only added. *)
Definition cache_le (c c' : RefCache) : Prop := rf_ends c `prefix_of` rf_ends c'.

#[export] Instance cache_le_preorder : PreOrder cache_le.
Proof. unfold cache_le. split; [by intros c|]. intros a b c Hab Hbc. by transitivity (rf_ends b). Qed.

Lemma intern_ok p c : cache_ok c -> let '(id, c') := intern p c in
  cache_ok c' /\ rf_ends c' !! id = Some p /\ cache_le c c' /\ rf_by_ref c' = rf_by_ref c.
Proof.
  intros [H1 H2 H3]. unfold intern. destruct (rf_end_ids c !! p) as [id|] eqn:E.
  - split; [done|]. split; [by apply H1|]. by split.
  - assert (Hl : (rf_ends c ++ [p]) !! List.length (rf_ends c) = Some p) by (rewrite lookup_app_r, Nat.sub_diag by lia; done).
    split; [|split; [done|split; [by eexists|done]]]. split; cbn.
    + intros q id. rewrite lookup_insert_Some. split.
      * intros [[-> <-]|[Hne Hq]]; [done|]. apply lookup_app_l_Some. by apply H1.
      * intros [Hq|[Hge Hq]]%lookup_app_Some.
        -- right. split; [|by apply H1]. intros ->. apply H1 in Hq. congruence.
        -- apply list_lookup_singleton_Some in Hq as [Hid <-]. left. split; [done|lia].
    + intros r id n Hr. destruct (H2 r id n Hr) as (q & Hq & Hle). exists q. split; [by apply lookup_app_l_Some|done].
    + done.
Qed.

(** What is known where [r] leads. *)
Definition known (c : RefCache) (r : string) (end_ : option (nat * nat)) : Prop :=
  match end_ with
  | Some (id, n) => exists p, rf_ends c !! id = Some p /\ leads r p n
  | None => forall p n, ~ leads r p n
  end.

Lemma remember_ok c r end_ : cache_ok c -> known c r end_ -> cache_ok (remember r end_ c).
Proof.
  intros [H1 H2 H3] Hk. split; cbn; [done| |].
  - intros r' id n. rewrite lookup_insert_Some. intros [[-> ->]|[_ Hr]]; [done|by apply H2].
  - intros r'. rewrite lookup_insert_Some. intros [[-> ->]|[_ Hr]]; [done|by apply H3].
Qed.

(** From the last reference of the chain the rest is known. *)
Definition last_known (c : RefCache) (cur : string) (end_ : option (nat * nat)) : Prop :=
  known c cur (option_map (fun e => (e.1, S e.2)) end_).

Lemma remember_chain_ok cur end_ : forall chain c, chain_to cur chain -> cache_ok c -> last_known c cur end_ ->
  cache_ok (remember_chain end_ chain c) /\ rf_ends (remember_chain end_ chain c) = rf_ends c /\
  known c (default cur (head chain)) (option_map (fun e => (e.1, (e.2 + List.length chain)%nat)) end_).
Proof.
  intros chain c Hc. revert c. assert (Hk : forall c l, chain_to cur l -> last_known c cur end_ ->
    known c (default cur (head l)) (option_map (fun e => (e.1, (e.2 + List.length l)%nat)) end_)).
  { intros c l Hl Hlast. destruct end_ as [[id after]|]; cbn in *.
    - destruct Hlast as (p & Hp & Hle). exists p. split; [done|]. destruct l as [|r l]; [inversion Hl|]. cbn.
      rewrite Nat.add_succ_r. change (S (after + List.length l)) with (S after + List.length l)%nat. by apply (chain_leads cur (r :: l) Hl r l eq_refl).
    - pose proof (chain_dead _ _ Hl Hlast) as Hd. destruct l as [|r l]; [inversion Hl|]. by inversion Hd. }
  assert (Hends : forall l c, rf_ends (remember_chain end_ l c) = rf_ends c).
  { induction l as [|r l IH]; intros c; [done|]. cbn [remember_chain]. by rewrite IH. }
  intros c Hok Hlast. split; [|split; [apply Hends|by apply Hk]]. revert c Hok Hlast.
  induction Hc as [|r next l Hs Hc IH]; intros c Hok Hlast; cbn [remember_chain].
  - apply remember_ok; [done|]. exact (Hk c [cur] (chain_one _) Hlast).
  - apply IH; [|by destruct end_ as [[? ?]|]]. apply remember_ok; [done|]. exact (Hk c (r :: next :: l) (chain_cons _ _ _ _ Hs Hc) Hlast).
Qed.

Lemma known_le c c' r end_ : cache_le c c' -> known c r end_ -> known c' r end_.
Proof. intros Hle. destruct end_ as [[id n]|]; [|done]. intros (p & Hp & Hl). exists p. split; [by eapply prefix_lookup_Some|done]. Qed.

(** The loop: enough fuel for the references not met yet. *)
Lemma follow_ok fuel : forall chain on_chain cur c, cache_ok c -> chain_to cur chain -> NoDup chain -> (forall r, r ∈ on_chain <-> r ∈ chain) ->
  (forall r, r ∈ tail chain -> r ∈ refs_in root) -> (List.length (refs_in root) < fuel + List.length (tail chain))%nat ->
  let '(end_, chain', c') := follow root fuel chain on_chain cur c in
  exists cur', cache_ok c' /\ cache_le c c' /\ chain_to cur' chain' /\ head chain' = head chain /\ last_known c' cur' end_.
Proof.
  induction fuel as [|fuel IH]; intros chain on_chain cur c Hok Hc Hnd Hon Hrefs Hf.
  { exfalso. assert (Hsub : NoDup (tail chain)) by (destruct chain; [constructor|by inversion Hnd]).
    pose proof (submseteq_length (tail chain) (refs_in root) (NoDup_submseteq _ _ Hsub Hrefs)). lia. }
  cbn [follow]. assert (Hdead : (forall p n, ~ leads cur p n) -> exists cur', cache_ok c /\ cache_le c c /\ chain_to cur' chain /\ head chain = head chain /\ last_known c cur' None).
  { intros Hd. by exists cur. }
  destruct (internal_pointer cur) as [target|] eqn:I; [|apply Hdead; intros p n Hl; inversion Hl; congruence].
  destruct (value_pointer root target) as [v|] eqn:V; [|apply Hdead; intros p n Hl; inversion Hl; congruence].
  destruct (ref_of v) as [next|] eqn:R.
  - assert (Hs : steps cur next) by (by exists target, v). destruct (rf_by_ref c !! next) as [found|] eqn:E.
    + exists cur. split; [done|]. split; [done|]. split; [done|]. split; [done|]. destruct found as [[id n]|]; cbn.
      * destruct (cache_known _ Hok _ _ _ E) as (p & Hp & Hl). exists p. split; [done|]. by apply (steps_leads _ _ _ _ Hs).
      * intros p n Hl. destruct (leads_steps _ _ _ _ Hs Hl) as (n' & _ & Hl'). exact (cache_dead _ Hok _ E p n' Hl').
    + destruct (decide (next ∈ on_chain)) as [Hin|Hnin].
      * apply Hdead. intros p n. by apply (chain_cycle cur next chain); [| |apply Hon].
      * assert (Hnc : next ∉ chain) by (by rewrite <- Hon).
        assert (Htl : tail (chain ++ [next]) = tail chain ++ [next]) by (destruct chain; [inversion Hc|done]).
        specialize (IH (chain ++ [next]) ({[next]} ∪ on_chain) next c Hok (chain_snoc _ _ _ Hc Hs)).
        destruct (follow root fuel (chain ++ [next]) _ next c) as [[end_ chain'] c'].
        destruct IH as (cur' & I1 & I2 & I3 & I4 & I5).
        -- apply NoDup_app. split; [done|]. split; [|apply NoDup_singleton]. intros x Hx ->%list_elem_of_singleton. done.
        -- intros x. rewrite elem_of_union, elem_of_singleton, elem_of_app, list_elem_of_singleton, Hon. tauto.
        -- rewrite Htl. intros x [Hx| ->%list_elem_of_singleton]%elem_of_app; [by apply Hrefs|by eapply steps_refs].
        -- rewrite Htl, length_app. cbn [List.length]. lia.
        -- exists cur'. split; [done|]. split; [done|]. split; [done|]. split; [|done]. rewrite I4. destruct chain; [inversion Hc|done].
  - pose proof (intern_ok target c Hok) as Hi. destruct (intern target c) as [id c']. destruct Hi as (J1 & J2 & J3 & _).
    exists cur. split; [done|]. split; [done|]. split; [done|]. split; [done|]. exists target. split; [done|]. by apply (leads_end cur target v).
Qed.

Lemma end_of_ok r c : cache_ok c -> let '(end_, c') := end_of root r c in cache_ok c' /\ cache_le c c' /\ known c' r end_.
Proof.
  intros Hok. unfold end_of. destruct (rf_by_ref c !! r) as [found|] eqn:E.
  { split; [done|]. split; [done|]. destruct found as [[id n]|]; [by apply (cache_known _ Hok)|exact (cache_dead _ Hok _ E)]. }
  pose proof (follow_ok (S (List.length (refs_in root))) [r] {[r]} r c Hok (chain_one _) (NoDup_singleton _)) as Hf.
  destruct (follow root _ [r] {[r]} r c) as [[end_ chain] c'].
  destruct Hf as (cur & H1 & H2 & H3 & H4 & H5); [intros x; by rewrite elem_of_singleton, list_elem_of_singleton|by intros x ?%elem_of_nil|cbn; lia|].
  destruct (remember_chain_ok cur end_ chain c' H3 H1 H5) as (J1 & J2 & J3). rewrite H4 in J3. cbn in J3.
  assert (Hle : cache_le c' (remember_chain end_ chain c')) by (unfold cache_le; by rewrite J2).
  split; [done|]. split; [by etransitivity|]. by eapply known_le.
Qed.
End Document.

(** * Resolution *)

Section Resolution.
Variable root : Value.

(** The reference definition: the chain is followed anew every time, at most
    [n] references. *)
Fixpoint plain_end (n : nat) (r : string) : option string :=
  match n with
  | O => None
  | S n' =>
      t ← internal_pointer r;
      v ← value_pointer root t;
      match ref_of v with None => Some t | Some next => plain_end n' next end
  end.

Lemma plain_end_leads n : forall r p, plain_end n r = Some p <-> exists k, (k <= n)%nat /\ leads root r p k.
Proof.
  induction n as [|n IH]; intros r p; cbn [plain_end].
  { split; [done|]. intros (k & Hk & Hl). inversion Hl; subst; lia. }
  destruct (internal_pointer r) as [t|] eqn:I; cbn.
  2: { split; [done|]. intros (k & _ & Hl). inversion Hl; congruence. }
  destruct (value_pointer root t) as [v|] eqn:V; cbn.
  2: { split; [done|]. intros (k & _ & Hl). inversion Hl; congruence. }
  destruct (ref_of v) as [next|] eqn:R.
  - rewrite IH. assert (Hs : steps root r next) by (by exists t, v). split.
    + intros (k & Hk & Hl). exists (S k). split; [lia|]. by apply (steps_leads _ _ _ _ _ Hs).
    + intros (k & Hk & Hl). destruct (leads_steps _ _ _ _ _ Hs Hl) as (k' & -> & Hl'). exists k'. split; [lia|done].
  - split.
    + intros [= <-]. exists 1%nat. split; [lia|]. by apply (leads_end root r t v).
    + intros (k & _ & Hl). inversion Hl; congruence.
Qed.

Lemma leads_value r p n : leads root r p n -> exists v, value_pointer root p = Some v /\ ref_of v = None.
Proof. induction 1; eauto. Qed.

(** What is reached from a value: itself, the end of its chain of at most 31
    references, or nothing. *)
Definition reaches (v : Value) (x : Reach) : Prop :=
  match ref_of v with
  | None => x = Reach_Inline v
  | Some r => match plain_end (MAX_REF_DEPTH - 1) r with
      | Some p => exists id, x = Reach_Target (mkRefTarget id p)
      | None => x = Reach_Unresolved
      end
  end.

Lemma note_unresolved_refs at_ s : sp_refs (note_unresolved at_ s) = sp_refs s.
Proof. unfold note_unresolved. by repeat (case_match; try done). Qed.

Lemma reach_ok v at_ s : cache_ok root (sp_refs s) -> let '(x, s') := reach root v at_ s in
  cache_ok root (sp_refs s') /\ cache_le (sp_refs s) (sp_refs s') /\ reaches v x /\
  (forall t, x = Reach_Target t -> rf_ends (sp_refs s') !! rt_id t = Some (rt_pointer t)).
Proof.
  intros Hok. unfold reach, reaches. destruct (ref_of v) as [r|]; [|by split].
  pose proof (end_of_ok root r (sp_refs s) Hok) as He. destruct (end_of root r (sp_refs s)) as [end_ c]. destruct He as (H1 & H2 & H3).
  destruct end_ as [[id hops]|]; cbn in H3.
  - destruct H3 as (p & Hp & Hl). destruct (Nat.ltb_spec hops MAX_REF_DEPTH) as [Hh|Hh].
    + split; [done|]. split; [done|]. rewrite Hp. cbn [default]. split; [|by intros t [= <-]].
      assert (E : plain_end (MAX_REF_DEPTH - 1) r = Some p) by (apply plain_end_leads; exists hops; split; [unfold MAX_REF_DEPTH in *; lia|done]).
      rewrite E. by exists id.
    + rewrite note_unresolved_refs. split; [done|]. split; [done|]. split; [|done].
      destruct (plain_end (MAX_REF_DEPTH - 1) r) as [q|] eqn:E; [|done]. apply plain_end_leads in E as (k & Hk & Hl').
      destruct (leads_deterministic root _ _ _ Hl _ _ Hl') as [-> ->]. unfold MAX_REF_DEPTH in *. lia.
  - rewrite note_unresolved_refs. split; [done|]. split; [done|]. split; [|done].
    destruct (plain_end (MAX_REF_DEPTH - 1) r) as [q|] eqn:E; [|done]. apply plain_end_leads in E as (k & _ & Hl). by apply H3 in Hl.
Qed.

(** The resolutions of a document, in order. *)
Fixpoint reach_all (queries : list (Value * string)) (s : SpecState) : list Reach * SpecState :=
  match queries with
  | [] => ([], s)
  | (v, at_) :: queries' =>
      let '(x, s) := reach root v at_ s in
      let '(xs, s) := reach_all queries' s in (x :: xs, s)
  end.

Lemma reach_all_ok queries : forall s, cache_ok root (sp_refs s) -> let '(xs, s') := reach_all queries s in
  cache_ok root (sp_refs s') /\ cache_le (sp_refs s) (sp_refs s') /\ Forall2 (fun q x => reaches q.1 x) queries xs /\
  (forall t, Reach_Target t ∈ xs -> rf_ends (sp_refs s') !! rt_id t = Some (rt_pointer t)).
Proof.
  induction queries as [|[v at_] queries IH]; intros s Hok; cbn [reach_all].
  { split; [done|]. split; [done|]. split; [constructor|]. by intros t ?%elem_of_nil. }
  pose proof (reach_ok v at_ s Hok) as Hr. destruct (reach root v at_ s) as [x s1]. destruct Hr as (H1 & H2 & H3 & H4).
  specialize (IH s1 H1). destruct (reach_all queries s1) as [xs s2]. destruct IH as (I1 & I2 & I3 & I4).
  split; [done|]. split; [by etransitivity|]. split; [by constructor|].
  intros t [Ht|Ht]%elem_of_cons; [|by apply I4]. eapply prefix_lookup_Some; [by apply H4|exact I2].
Qed.

Lemma cache_ok_default : cache_ok root RefCache_default.
Proof. split; cbn; [intros p id; by rewrite lookup_empty, lookup_nil|intros r id n; by rewrite lookup_empty|intros r; by rewrite lookup_empty]. Qed.

Lemma cache_ids_unique c id id' p : cache_ok root c -> rf_ends c !! id = Some p -> rf_ends c !! id' = Some p -> id = id'.
Proof. intros Hok H1%(cache_ids root c Hok) H2%(cache_ids root c Hok). congruence. Qed.

(** C13: however the references of a document are resolved, and in whatever
    order, each is answered as if its chain were followed anew: the value
    itself when it is no reference, the end of a chain of at most 31
    references, which is a value that is no reference, and otherwise nothing
    (an external, dangling, cyclic or too deep one); and two references have the
    same target identity exactly when they end at the same pointer. *)
Theorem references_remembered queries : let xs := (reach_all queries SpecState_new).1 in
  Forall2 (fun q x => reaches q.1 x) queries xs /\
  (forall t, Reach_Target t ∈ xs -> exists v, target_value root t = Some v /\ ref_of v = None) /\
  (forall t u, Reach_Target t ∈ xs -> Reach_Target u ∈ xs -> (rt_id t = rt_id u <-> rt_pointer t = rt_pointer u)).
Proof.
  cbv zeta. pose proof (reach_all_ok queries SpecState_new cache_ok_default) as Hr. destruct (reach_all queries SpecState_new) as [xs s].
  destruct Hr as (H1 & _ & H3 & H4). cbn [fst]. split; [done|]. split.
  - intros t Ht. apply list_elem_of_lookup_1 in Ht as (i & Hi). destruct (Forall2_lookup_r _ _ _ _ _ H3 Hi) as ([v at_] & _ & Hx).
    unfold reaches in Hx. cbn [fst] in Hx. destruct (ref_of v) as [r|]; [|done]. destruct (plain_end _ r) as [p|] eqn:E; [|done].
    destruct Hx as (id & [= ->]). apply plain_end_leads in E as (k & _ & Hl). exact (leads_value _ _ _ Hl).
  - intros t u Ht Hu. apply H4 in Ht, Hu. split; [|intros E; rewrite E in Ht; by eapply cache_ids_unique].
    intros E. rewrite E in Ht. congruence.
Qed.

(** * Budgets *)

Fixpoint resolve_within_all (queries : list (Value * string)) (m : Meter) (s : SpecState) : list (option (Value * string)) * Meter :=
  match queries with
  | [] => ([], m)
  | (v, at_) :: queries' =>
      let '(x, m, s) := resolve_within root v at_ m s in
      let '(xs, m) := resolve_within_all queries' m s in (x :: xs, m)
  end.

(** What a resolution is answered without a budget, and what it costs. *)
Definition plain_resolve (v : Value) (at_ : string) : option (Value * string) :=
  match ref_of v with
  | None => Some (v, at_)
  | Some r => p ← plain_end (MAX_REF_DEPTH - 1) r; x ← value_pointer root p; Some (x, p)
  end.

Definition resolve_cost (v : Value) (at_ : string) : Z :=
  str_len at_ + from_option (fun r => str_len r + from_option str_len 0 (plain_end (MAX_REF_DEPTH - 1) r)) 0 (ref_of v).

(** A meter keeps its total. *)
Definition meter_ok (bytes : Z) (m : Meter) : Prop := mt_left m + mt_spent m = bytes /\ 0 <= mt_left m /\ 0 <= mt_spent m.

Lemma charge_ok bytes n m : 0 <= n -> meter_ok bytes m -> let '(ok, m') := charge n m in
  meter_ok bytes m' /\ (mt_exhausted m = true -> ok = false /\ m' = m) /\
  if ok then mt_exhausted m' = false /\ mt_spent m' = mt_spent m + n else mt_exhausted m' = true /\ mt_spent m' = mt_spent m.
Proof.
  intros Hn (H1 & H2 & H3). unfold charge, meter_ok. destruct m as [left spent exhausted]. cbn in *. destruct exhausted; cbn; [by split_and!|].
  destruct (Z.ltb_spec left n); cbn; split_and!; done || lia.
Qed.

Lemma resolve_within_ok bytes v at_ m s : meter_ok bytes m -> cache_ok root (sp_refs s) -> let '(x, m', s') := resolve_within root v at_ m s in
  meter_ok bytes m' /\ cache_ok root (sp_refs s') /\ (mt_exhausted m = true -> x = None /\ m' = m) /\ (mt_exhausted m' = true -> x = None) /\ mt_spent m <= mt_spent m' /\
  (mt_exhausted m' = false -> x = plain_resolve v at_ /\ mt_spent m' = mt_spent m + resolve_cost v at_).
Proof.
  intros Hm Hc. unfold resolve_within, plain_resolve, resolve_cost. cbv zeta.
  assert (Hpos : 0 <= str_len at_ + from_option str_len 0 (ref_of v)) by (unfold str_len; destruct (ref_of v); cbn; lia).
  pose proof (charge_ok bytes _ m Hpos Hm) as H1. destruct (charge _ m) as [ok m1]. destruct H1 as (H1 & H2 & H3).
  destruct ok; cbn [negb].
  2: { split; [done|]. split; [done|]. destruct H3 as [H3 H4]. split; [by intros [_ ?]%H2|]. split; [done|]. split; [lia|]. congruence. }
  destruct H3 as [H3 H4]. pose proof (reach_ok v at_ s Hc) as Hr. destruct (reach root v at_ s) as [x s1]. destruct Hr as (R1 & _ & R3 & R4).
  unfold reaches in R3. assert (Hex : mt_exhausted m = true -> False) by (by intros [? _]%H2).
  destruct (ref_of v) as [r|]; cbn [from_option] in *; unfold mbind, option_bind.
  - destruct (plain_end _ r) as [p|] eqn:E; cbn [from_option] in *; try rewrite E in R3.
    + destruct R3 as (id & ->). cbn [rt_pointer]. assert (Hp : 0 <= str_len p) by (unfold str_len; lia).
      pose proof (charge_ok bytes (str_len p) m1 Hp H1) as H5. destruct (charge (str_len p) m1) as [ok m2]. destruct H5 as (H5 & _ & H7).
      destruct ok; destruct H7 as [H7 H8]; cbn [negb]; (split; [done|]; split; [done|]; split; [by intros ?%Hex|]); [|split; [done|]; split; [lia|congruence]].
      split; [congruence|]. split; [lia|]. intros _. split; [done|]. rewrite H8, H4. lia.
    + subst x. split; [done|]. split; [done|]. split; [by intros ?%Hex|]. split; [congruence|]. split; [lia|]. intros _. split; [done|]. rewrite H4. lia.
  - subst x. split; [done|]. split; [done|]. split; [by intros ?%Hex|]. split; [congruence|]. split; [lia|]. intros _. split; [done|]. rewrite H4. lia.
Qed.

(** Resolutions charged to a meter never cost more than it allows: what is
    spent and what is left always add up to the budget; and there is a first
    resolution that does not fit, or none: before it every one is answered as
    without a budget and charged in full, from it on every one is refused. *)
Theorem metered_resolutions queries bytes : 0 <= bytes ->
  let '(xs, m) := resolve_within_all queries (Meter_new bytes) SpecState_new in
  mt_left m + mt_spent m = bytes /\ 0 <= mt_left m /\ 0 <= mt_spent m /\
  exists fit, (fit <= List.length queries)%nat /\ (mt_exhausted m = true <-> (fit < List.length queries)%nat) /\
    xs = map (fun q => plain_resolve q.1 q.2) (take fit queries) ++ replicate (List.length queries - fit) None /\
    foldr Z.add 0 (map (fun q => resolve_cost q.1 q.2) (take fit queries)) <= mt_spent m.
Proof.
  intros Hb. assert (Hgen : forall queries m s, meter_ok bytes m -> cache_ok root (sp_refs s) -> let '(xs, m') := resolve_within_all queries m s in
    meter_ok bytes m' /\ (mt_exhausted m = true -> m' = m /\ xs = replicate (List.length queries) None) /\
    (mt_exhausted m = false -> exists fit, (fit <= List.length queries)%nat /\ (mt_exhausted m' = true <-> (fit < List.length queries)%nat) /\
      xs = map (fun q => plain_resolve q.1 q.2) (take fit queries) ++ replicate (List.length queries - fit) None /\
      mt_spent m + foldr Z.add 0 (map (fun q => resolve_cost q.1 q.2) (take fit queries)) <= mt_spent m')).
  { clear queries. induction queries as [|[v at_] queries IH]; intros m s Hm Hc; cbn [resolve_within_all].
    { split; [done|]. split; [done|]. intros He. exists 0%nat. cbn. split; [done|]. split; [rewrite He; split; [done|lia]|]. split; [done|lia]. }
    pose proof (resolve_within_ok bytes v at_ m s Hm Hc) as H1. destruct (resolve_within root v at_ m s) as [[x m1] s1].
    destruct H1 as (H1 & H2 & H3 & H4 & Hmono & H5). specialize (IH m1 s1 H1 H2). destruct (resolve_within_all queries m1 s1) as [xs m2].
    destruct IH as (I1 & I2 & I3). split; [done|]. split.
    - intros He. destruct (H3 He) as [-> ->]. destruct (I2 He) as [-> ->]. done.
    - intros He. destruct (mt_exhausted m1) eqn:E1.
      + destruct (I2 eq_refl) as [-> ->]. exists 0%nat. cbn [take map app foldr List.length]. rewrite (H4 eq_refl). split; [lia|]. split; [rewrite E1; split; [lia|done]|].
        split; [done|]. lia.
      + destruct (H5 eq_refl) as [-> Hs]. destruct (I3 eq_refl) as (fit & F1 & F2 & F3 & F4). exists (S fit). cbn [take map app foldr List.length fst snd].
        split; [lia|]. split; [rewrite F2; lia|]. split; [by rewrite F3|]. rewrite Hs in F4. lia. }
  specialize (Hgen queries (Meter_new bytes) SpecState_new). destruct (resolve_within_all queries _ _) as [xs m].
  destruct Hgen as ((G1 & G2 & G3) & _ & G4); [unfold meter_ok; cbn; lia|apply cache_ok_default|]. split; [done|]. split; [done|]. split; [done|]. apply G4. done.
Qed.
End Resolution.

(** * The pointers of a document *)

(** The bytes of the pointers below [v], whose own takes [len], when a name is
    counted as it is written. *)
Fixpoint pointer_bytes (len : Z) (v : Value) : Z :=
  match v with
  | JArray a => (fix go (i : nat) (a : list Value) : Z :=
      match a with [] => 0 | x :: a' => let l := len + 1 + str_len (pretty i) in l + pointer_bytes l x + go (S i) a' end) 0%nat a
  | JObject o => foldr Z.add 0 (map (fun kv => let l := len + 1 + str_len kv.1 in l + pointer_bytes l kv.2) o)
  | _ => 0
  end.

Fixpoint items_bytes (len : Z) (i : nat) (a : list Value) : Z :=
  match a with [] => 0 | x :: a' => let l := len + 1 + str_len (pretty i) in l + pointer_bytes l x + items_bytes len (S i) a' end.

Lemma pointer_bytes_array len a : pointer_bytes len (JArray a) = items_bytes len 0 a.
Proof. cbn [pointer_bytes]. generalize 0%nat. induction a as [|x a IH]; intros i; cbn; [done|]. by rewrite IH. Qed.

(** Every member name of [v] is short enough. *)
Fixpoint names_short (v : Value) : bool :=
  match v with
  | JArray a => forallb names_short a
  | JObject o => forallb (fun kv => (str_len kv.1 <=? MAX_KEY_BYTES) && names_short kv.2) o
  | _ => true
  end.

Lemma pointer_bytes_nonneg : forall v len, 0 <= len -> 0 <= pointer_bytes len v.
Proof.
  apply (value_ind (fun v => forall len, 0 <= len -> 0 <= pointer_bytes len v)); try done.
  - intros a Ha len Hl. rewrite pointer_bytes_array. generalize 0%nat. induction Ha as [|x a Hx Ha IH]; intros i; cbn [items_bytes]; [done|].
    cbv zeta. specialize (IH (S i)). pose proof (str_len_nonneg (pretty i)). specialize (Hx (len + 1 + str_len (pretty i))). lia.
  - intros o Ho len Hl. cbn [pointer_bytes]. induction Ho as [|[k x] o Hx Ho IH]; cbn; [done|]. pose proof (str_len_nonneg k). specialize (Hx (len + 1 + str_len k)). cbn in Hx. lia.
Qed.

(** What the values of the stack still cost, and whether their names are
    short. *)
Definition stack_bytes (stack : list (Value * Z)) : Z := foldr Z.add 0 (map (fun x => pointer_bytes x.2 x.1) stack).

Definition stack_ok (stack : list (Value * Z)) : Prop := Forall (fun x => 0 <= x.2) stack.

Definition stack_short (stack : list (Value * Z)) : Prop := Forall (fun x => names_short x.1 = true) stack.

Definition stack_count (stack : list (Value * Z)) : nat := list_sum (map (fun x => value_count x.1) stack).

Lemma stack_bytes_nonneg stack : stack_ok stack -> 0 <= stack_bytes stack.
Proof. unfold stack_bytes. induction 1 as [|[v len] stack Hx _ IH]; cbn; [done|]. pose proof (pointer_bytes_nonneg v len Hx). lia. Qed.

(** The outcome of putting members or items on the stack: they cost what is
    below them and themselves. *)
Definition put (bytes : Z) (short : bool) (count : nat) (total : Z) (stack : list (Value * Z)) (next : result (Z * list (Value * Z)) Complexity) : Prop :=
  match next with
  | Ok (total', stack') => total' <= MAX_POINTER_BYTES /\ stack_ok stack' /\ total' + stack_bytes stack' = total + bytes + stack_bytes stack /\
      (stack_short stack' <-> short = true /\ stack_short stack) /\ stack_count stack' = (count + stack_count stack)%nat
  | Err _ => ~ (short = true /\ total + bytes <= MAX_POINTER_BYTES)
  end.

Lemma member_pointers_put len : 0 <= len -> forall o total stack, total <= MAX_POINTER_BYTES -> stack_ok stack ->
  put (pointer_bytes len (JObject o)) (names_short (JObject o)) (list_sum (map (fun kv => value_count kv.2) o)) total stack (member_pointers len total o stack).
Proof.
  intros Hl. induction o as [|[k child] o IH]; intros total stack Ht Hs; cbn [member_pointers].
  { cbn. split; [done|]. split; [done|]. split; [lia|]. split; [|done]. tauto. }
  cbn [pointer_bytes map foldr names_short forallb fst snd] in *. pose proof (str_len_nonneg k) as Hk.
  pose proof (pointer_bytes_nonneg child (len + 1 + str_len k) ltac:(lia)) as Hc.
  assert (Ho : 0 <= pointer_bytes len (JObject o)) by (apply pointer_bytes_nonneg; lia). cbn [pointer_bytes] in Ho.
  destruct (Z.ltb_spec MAX_KEY_BYTES (str_len k)) as [Hlong|Hshort].
  { cbn. rewrite (proj2 (Z.leb_gt _ _) Hlong). by intros [? _]. }
  rewrite (proj2 (Z.leb_le _ _) Hshort). cbn [andb].
  destruct (Z.ltb_spec MAX_POINTER_BYTES (total + (len + 1 + str_len k))) as [Hbig|Hfits]; [cbn; lia|].
  specialize (IH (total + (len + 1 + str_len k)) ((child, len + 1 + str_len k) :: stack) Hfits).
  destruct (member_pointers len _ o _) as [[total' stack']|e]; cbn [put] in *.
  - destruct IH as (I1 & I2 & I3 & I4 & I5); [constructor; [cbn; lia|done]|]. split; [done|]. split; [done|]. split; [unfold stack_bytes in *; cbn in I3; lia|].
    split; [|unfold stack_count, list_sum in *; cbn in I5 |- *; lia]. rewrite I4. unfold stack_short. rewrite Forall_cons, andb_true_iff. cbn. tauto.
  - intros [Hn Hb]. apply IH; [constructor; [cbn; lia|done]|]. apply andb_true_iff in Hn as [_ Hn]. split; [done|lia].
Qed.

Lemma item_pointers_put len : 0 <= len -> forall a i total stack, total <= MAX_POINTER_BYTES -> stack_ok stack ->
  put (items_bytes len i a) (forallb names_short a) (list_sum (map value_count a)) total stack (item_pointers len total i a stack).
Proof.
  intros Hl. induction a as [|child a IH]; intros i total stack Ht Hs; cbn [item_pointers].
  { cbn. split; [done|]. split; [done|]. split; [lia|]. split; [|done]. tauto. }
  cbn [items_bytes forallb] in *. cbv zeta. pose proof (str_len_nonneg (pretty i)) as Hk.
  assert (Hc : 0 <= pointer_bytes (len + 1 + str_len (pretty i)) child) by (apply pointer_bytes_nonneg; lia).
  assert (Ho : forall i, 0 <= items_bytes len i a).
  { clear - Hl. induction a as [|x a IH]; intros i; cbn [items_bytes]; [done|]. cbv zeta. specialize (IH (S i)). pose proof (str_len_nonneg (pretty i)).
    assert (0 <= pointer_bytes (len + 1 + str_len (pretty i)) x) by (apply pointer_bytes_nonneg; lia). lia. }
  specialize (Ho (S i)).
  destruct (Z.ltb_spec MAX_POINTER_BYTES (total + (len + 1 + str_len (pretty i)))) as [Hbig|Hfits]; [cbn; lia|].
  specialize (IH (S i) (total + (len + 1 + str_len (pretty i))) ((child, len + 1 + str_len (pretty i)) :: stack) Hfits).
  destruct (item_pointers len _ (S i) a _) as [[total' stack']|e]; cbn [put] in *.
  - destruct IH as (I1 & I2 & I3 & I4 & I5); [constructor; [cbn; lia|done]|]. split; [done|]. split; [done|]. split; [unfold stack_bytes in *; cbn in I3; lia|].
    split; [|unfold stack_count, list_sum in *; cbn in I5 |- *; lia]. rewrite I4. unfold stack_short. rewrite Forall_cons, andb_true_iff. cbn. tauto.
  - intros [Hn Hb]. apply IH; [constructor; [cbn; lia|done]|]. apply andb_true_iff in Hn as [_ Hn]. split; [done|lia].
Qed.

Lemma check_stack_iff fuel : forall total stack, total <= MAX_POINTER_BYTES -> stack_ok stack -> (stack_count stack <= fuel)%nat ->
  check_stack fuel total stack = Ok tt <-> stack_short stack /\ total + stack_bytes stack <= MAX_POINTER_BYTES.
Proof.
  induction fuel as [|fuel IH]; intros total [|[v len] stack] Ht Hs Hf; cbn [check_stack].
  - split; [intros _; split; [constructor|unfold stack_bytes; cbn; lia]|done].
  - exfalso. unfold stack_count, list_sum in Hf. cbn in Hf. assert (1 <= value_count v)%nat by (destruct v; cbn; lia). lia.
  - split; [intros _; split; [constructor|unfold stack_bytes; cbn; lia]|done].
  - inversion Hs as [|? ? Hl Hs']; subst. cbn in Hl.
    assert (Hsimple : pointer_bytes len v = 0 -> names_short v = true -> value_count v = 1%nat ->
      check_stack fuel total stack = Ok tt <-> stack_short ((v, len) :: stack) /\ total + stack_bytes ((v, len) :: stack) <= MAX_POINTER_BYTES).
    { intros B N C. rewrite IH; [|done|done|unfold stack_count, list_sum in *; cbn in Hf; lia].
      unfold stack_short, stack_bytes. rewrite Forall_cons. cbn. rewrite B. split; [intros [? ?]; split; [done|lia]|intros [[_ ?] ?]; split; [done|lia]]. }
    assert (Hput : forall bytes short count next, pointer_bytes len v = bytes -> names_short v = short -> value_count v = S count ->
      put bytes short count total stack next ->
      (let? next := next in check_stack fuel next.1 next.2) = Ok tt <-> stack_short ((v, len) :: stack) /\ total + stack_bytes ((v, len) :: stack) <= MAX_POINTER_BYTES).
    { intros bytes short count next B N C Hp. unfold stack_short, stack_bytes. rewrite Forall_cons. cbn [fst snd map foldr]. rewrite B, N.
      pose proof (stack_bytes_nonneg stack Hs') as Hn. unfold stack_bytes in Hn. destruct next as [[total' stack']|e]; cbn [put result_bind fst snd] in *.
      - destruct Hp as (P1 & P2 & P3 & P4 & P5). rewrite IH; [|done|done|unfold stack_count, list_sum in *; cbn in Hf; lia].
        rewrite P4. unfold stack_short, stack_bytes in *. split; intros [[? ?] ?]; (split; [by split|lia]).
      - split; [done|]. intros [[? _] ?]. exfalso. apply Hp. split; [done|lia]. }
    destruct v as [| | | |a|o]; try (by apply Hsimple).
    + eapply Hput; [apply pointer_bytes_array|reflexivity|reflexivity|by apply item_pointers_put].
    + eapply Hput; [reflexivity|reflexivity|reflexivity|by apply member_pointers_put].
Qed.

(** ** The pointers themselves *)

(** The members and items of a document, at any depth, by the names and
    indices that lead to them. *)
Fixpoint value_paths (v : Value) : list (list string) :=
  match v with
  | JArray a => (fix go (i : nat) (a : list Value) : list (list string) :=
      match a with [] => [] | x :: a' => ([pretty i] :: map (cons (pretty i)) (value_paths x)) ++ go (S i) a' end) 0%nat a
  | JObject o => concat (map (fun kv => [kv.1] :: map (cons kv.1) (value_paths kv.2)) o)
  | _ => []
  end.

Fixpoint items_paths (i : nat) (a : list Value) : list (list string) :=
  match a with [] => [] | x :: a' => ([pretty i] :: map (cons (pretty i)) (value_paths x)) ++ items_paths (S i) a' end.

Lemma value_paths_array a : value_paths (JArray a) = items_paths 0 a.
Proof. cbn [value_paths]. generalize 0%nat. induction a as [|x a IH]; intros i; cbn; [done|]. by rewrite IH. Qed.

(** The names of the members, at any depth. *)
Fixpoint member_names (v : Value) : list string :=
  match v with
  | JArray a => concat (map member_names a)
  | JObject o => concat (map (fun kv => kv.1 :: member_names kv.2) o)
  | _ => []
  end.

(** A pointer with its names as they are written; [Patch.pointer] escapes the
    tildes and slashes of a name, as RFC 6901 has it. *)
Definition raw_pointer (ts : list string) : string := foldr (fun t acc => "/" +:+ t +:+ acc) "" ts.

Definition total_len (l : list string) : Z := foldr Z.add 0 (map str_len l).

Lemma total_len_app l l' : total_len (l ++ l') = total_len l + total_len l'.
Proof. unfold total_len. induction l as [|x l IH]; cbn in *; lia. Qed.

(** What the pointers of some paths take, [len] bytes down. *)
Definition paths_bytes (len : Z) (paths : list (list string)) : Z := foldr Z.add 0 (map (fun ts => len + str_len (raw_pointer ts)) paths).

Lemma paths_bytes_app len ps qs : paths_bytes len (ps ++ qs) = paths_bytes len ps + paths_bytes len qs.
Proof. unfold paths_bytes. induction ps as [|p ps IH]; cbn in *; lia. Qed.

Lemma str_len_slash t u : str_len ("/" +:+ t +:+ u) = 1 + str_len t + str_len u.
Proof. rewrite !str_len_app. change (str_len "/") with 1. lia. Qed.

Lemma paths_bytes_below len k paths : paths_bytes len ([k] :: map (cons k) paths) = (len + 1 + str_len k) + paths_bytes (len + 1 + str_len k) paths.
Proof.
  unfold paths_bytes. cbn [map foldr]. f_equal; [cbn [raw_pointer foldr]; rewrite str_len_slash; change (str_len "") with 0; lia|].
  induction paths as [|ts paths IH]; [done|]. cbn [map foldr]. rewrite IH. f_equal. cbn [raw_pointer foldr]. rewrite str_len_slash. fold (raw_pointer ts). lia.
Qed.

Lemma pointer_bytes_paths : forall v len, pointer_bytes len v = paths_bytes len (value_paths v).
Proof.
  apply (value_ind (fun v => forall len, pointer_bytes len v = paths_bytes len (value_paths v))); try done.
  - intros a Ha len. rewrite pointer_bytes_array, value_paths_array. generalize 0%nat. induction Ha as [|x a Hx Ha IH]; intros i; cbn [items_bytes items_paths]; [done|].
    cbv zeta. by rewrite paths_bytes_app, paths_bytes_below, IH, Hx.
  - intros o Ho len. cbn [pointer_bytes value_paths]. induction Ho as [|[k x] o Hx Ho IH]; cbn [map foldr concat]; [done|].
    cbv zeta. cbn [fst snd] in *. by rewrite paths_bytes_app, paths_bytes_below, <-IH, Hx.
Qed.

Lemma paths_bytes_total paths : paths_bytes 0 paths = total_len (map raw_pointer paths).
Proof. unfold paths_bytes, total_len. induction paths as [|ts paths IH]; cbn in *; lia. Qed.

Lemma names_short_iff : forall v, names_short v = true <-> forall k, k ∈ member_names v -> str_len k <= MAX_KEY_BYTES.
Proof.
  apply (value_ind (fun v => names_short v = true <-> forall k, k ∈ member_names v -> str_len k <= MAX_KEY_BYTES)); try (split; [by intros _ k ?%elem_of_nil|done]).
  - intros a Ha. cbn [names_short member_names]. induction Ha as [|x a Hx Ha IH]; cbn [forallb map concat]; [split; [by intros _ k ?%elem_of_nil|done]|].
    rewrite andb_true_iff, Hx, IH. setoid_rewrite elem_of_app. naive_solver.
  - intros o Ho. cbn [names_short member_names]. induction Ho as [|[k x] o Hx Ho IH]; cbn [forallb map concat]; [split; [by intros _ k ?%elem_of_nil|done]|].
    cbn [fst snd] in *. rewrite !andb_true_iff, Hx, IH, Z.leb_le. setoid_rewrite elem_of_app. setoid_rewrite elem_of_cons. naive_solver.
Qed.

(** *** Escaping *)

Definition plain_name (t : string) : Prop := forall c, c ∈ list_ascii_of_string t -> c <> "~"%char /\ c <> "/"%char.

Lemma escape_len t : str_len t <= str_len (escape t) <= 2 * str_len t.
Proof.
  rewrite escape_escaped. induction t as [|c t IH]; [done|]. cbn [escaped]. change (str_len (String c t)) with (str_len (String c "" +:+ t)).
  rewrite !str_len_app. change (str_len (String c "")) with 1.
  destruct (Ascii.eqb c "~"); [change (str_len "~0") with 2; lia|]. destruct (Ascii.eqb c "/"); [change (str_len "~1") with 2; lia|].
  change (str_len (String c "")) with 1. lia.
Qed.

Lemma escape_plain t : plain_name t -> escape t = t.
Proof.
  rewrite escape_escaped. induction t as [|c t IH]; intros Hp; [done|]. cbn [escaped]. destruct (Hp c) as [H1%Ascii.eqb_neq H2%Ascii.eqb_neq]; [cbn; left|].
  rewrite H1, H2, IH; [done|]. intros d Hd. apply Hp. cbn. by right.
Qed.

Lemma index_plain (i : nat) : plain_name (pretty i).
Proof.
  assert (Hgo : forall x s, plain_name s -> plain_name (pretty_N_go x s)).
  { intros x. induction (N.lt_wf_0 x) as [x _ IH]. intros s Hs. destruct (decide (x = 0%N)) as [->|Hx]; [by rewrite pretty_N_go_0|].
    rewrite pretty_N_go_step by lia. apply IH; [apply N.div_lt; lia|]. intros c Hc. cbn in Hc. apply elem_of_cons in Hc as [->|Hc]; [|by apply Hs].
    unfold pretty_N_char. repeat case_match; split; discriminate. }
  unfold pretty, pretty_nat, pretty, pretty_N. case_match; [|apply Hgo; by intros c ?%elem_of_nil].
  intros c Hc. cbn in Hc. apply list_elem_of_singleton in Hc as ->. done.
Qed.

Lemma paths_plain : forall v, (forall k, k ∈ member_names v -> plain_name k) -> Forall (Forall plain_name) (value_paths v).
Proof.
  assert (Hbelow : forall k paths, plain_name k -> Forall (Forall plain_name) paths -> Forall (Forall plain_name) ([k] :: map (cons k) paths)).
  { intros k paths Hk Hp. constructor; [by constructor; [|constructor]|]. apply List.Forall_map. eapply Forall_impl; [exact Hp|]. intros ts Hts. by constructor. }
  apply (value_ind (fun v => (forall k, k ∈ member_names v -> plain_name k) -> Forall (Forall plain_name) (value_paths v))); try constructor.
  - intros a Ha. rewrite value_paths_array. generalize 0%nat. cbn [member_names]. induction Ha as [|x a Hx Ha IH]; intros i Hk; cbn [items_paths]; [constructor|].
    cbn [map concat] in Hk. apply Forall_app. split; [apply Hbelow; [apply index_plain|apply Hx]|apply IH]; intros k Hin; apply Hk, elem_of_app; auto.
  - intros o Ho. cbn [member_names value_paths]. induction Ho as [|[n x] o Hx Ho IH]; intros Hk; cbn [map concat]; [constructor|].
    cbn [map concat fst snd] in *. apply Forall_app. split; [apply Hbelow; [apply Hk; left|apply Hx]|apply IH]; intros k Hin; apply Hk; right; apply elem_of_app; auto.
Qed.

Lemma pointers_plain paths : Forall (Forall plain_name) paths -> map pointer paths = map raw_pointer paths.
Proof.
  induction 1 as [|ts paths Hts _ IH]; [done|]. cbn [map]. rewrite IH. f_equal. induction Hts as [|t ts Ht _ IHt]; [done|].
  unfold pointer, raw_pointer in *. cbn [foldr]. by rewrite escape_plain, IHt.
Qed.

Lemma pointer_len ts : str_len (raw_pointer ts) <= str_len (pointer ts) <= 2 * str_len (raw_pointer ts).
Proof.
  induction ts as [|t ts IH]; [done|]. unfold raw_pointer, pointer in *. cbn [foldr]. rewrite !str_len_slash. pose proof (escape_len t). lia.
Qed.

Lemma pointers_len paths : total_len (map raw_pointer paths) <= total_len (map pointer paths) <= 2 * total_len (map raw_pointer paths).
Proof. unfold total_len. induction paths as [|ts paths IH]; cbn in *; [lia|]. pose proof (pointer_len ts). lia. Qed.

(** C15: the pass over a document ends, and accepts it exactly when every
    member name has at most 4096 bytes and the pointers of all its members and
    items, with the names as they are written, take at most 64 MiB together.
    The JSON Pointers proper, with tildes and slashes escaped, never take less:
    they take the same when no name has a tilde or a slash, and at most twice
    as much, 128 MiB for an accepted document, otherwise. *)
Theorem pointer_budget_exact root : let raw := map raw_pointer (value_paths root) in let pointers := map pointer (value_paths root) in
  (check_pointer_budget root = Ok tt <->
     (forall k, k ∈ member_names root -> str_len k <= 4096) /\ total_len raw <= 64 * 1024 * 1024) /\
  total_len raw <= total_len pointers <= 2 * total_len raw /\
  ((forall k, k ∈ member_names root -> plain_name k) -> pointers = raw).
Proof.
  intros raw pointers. split; [|split; [apply pointers_len|intros Hp; by apply pointers_plain, paths_plain]].
  unfold check_pointer_budget. rewrite check_stack_iff; [|done|by constructor|unfold stack_count; cbn; lia].
  unfold stack_short, stack_bytes. rewrite Forall_cons. cbn [fst snd map foldr]. rewrite names_short_iff, pointer_bytes_paths, paths_bytes_total.
  fold raw. unfold MAX_KEY_BYTES, MAX_POINTER_BYTES. split.
  - intros [[? _] ?]. split; [done|lia].
  - intros [? ?]. split; [by split; [|constructor]|lia].
Qed.

(** Past its bound a location is counted every time it is noted. *)
Lemma note_unresolved_recounts at_ s : size (sp_unresolved s) = MAX_UNRESOLVED -> at_ ∉ sp_unresolved s ->
  sp_unresolved_count (note_unresolved at_ (note_unresolved at_ s)) = sp_unresolved_count s + 2.
Proof.
  intros Hs Hn. assert (H : forall s, size (sp_unresolved s) = MAX_UNRESOLVED -> at_ ∉ sp_unresolved s ->
    note_unresolved at_ s = mkSpecState (sp_unresolved s) (sp_unresolved_count s + 1) (sp_refs s)).
  { clear. intros s Hs Hn. unfold note_unresolved. rewrite Hs, Nat.ltb_irrefl. by rewrite bool_decide_false. }
  rewrite (H s Hs Hn), H by done. cbn. lia.
Qed.

(** * A description *)

Definition ref_to (r : string) : Value := JObject [("$ref", JString r)].

Definition demo_schemas : Value := JObject [("schemas", JObject [
  ("A", ref_to "#/schemas/B"); ("B", JObject [("type", JString "string")]);
  ("C", ref_to "#/schemas/C"); ("D", ref_to "other.yaml#/X"); ("F", ref_to "#/schemas/%41")])].

Example demo_reached : (reach_all demo_schemas [(ref_to "#/schemas/F", "/x"); (ref_to "#/schemas/C", "/y"); (ref_to "#/schemas/A", "/z");
    (ref_to "#/schemas/D", "/w")] SpecState_new).1 =
  [Reach_Target (mkRefTarget 0 "/schemas/B"); Reach_Unresolved; Reach_Target (mkRefTarget 0 "/schemas/B"); Reach_Unresolved].
Proof. vm_compute. reflexivity. Qed.

Lemma metered_resolutions_witness :
  let '(xs, m) := resolve_within_all demo_schemas [(ref_to "#/schemas/A", "/x"); (ref_to "#/schemas/F", "/y")] (Meter_new 30) SpecState_new in
  mt_left m + mt_spent m = 30 /\ xs = [Some (JObject [("type", JString "string")], "/schemas/B"); None].
Proof.
  pose proof (metered_resolutions demo_schemas [(ref_to "#/schemas/A", "/x"); (ref_to "#/schemas/F", "/y")] 30 ltac:(lia)) as H.
  assert (E : (resolve_within_all demo_schemas [(ref_to "#/schemas/A", "/x"); (ref_to "#/schemas/F", "/y")] (Meter_new 30) SpecState_new).1 =
    [Some (JObject [("type", JString "string")], "/schemas/B"); None]) by (vm_compute; reflexivity).
  destruct (resolve_within_all _ _ _ _) as [xs m]. destruct H as [H _]. by split.
Defined.
