(* ===== verification/Route.v ===== *)
(** Routing observed requests to the operations of an API description
    (crates/anvil-contract/src/route.rs, with [read_paths] of model.rs, the
    URL parts of observe.rs and [ptr] of locate.rs): the paths and Path Items
    of the document, the path templates, the base paths of the servers, and the
    operation a request is.

    Regular expressions are outside this component: their construction and
    matching are arguments, a compiled one is its text. *)
From Stdlib Require Import ZArith Lia Ascii String.
From stdpp Require Import base numbers strings pretty option list gmap sorting.
From S2P Require Import Prelude Text Bytes Utf8 Json Infer Patch Secret RedactedFields Refs.
Open Scope string_scope.
Open Scope list_scope.
Open Scope Z_scope.
Open Scope record_scope.

Definition MAX_BASES : nat := 64.
Definition MAX_CHOICES : nat := 64.
Definition MAX_ROUTE_BYTES : Z := 256 * 1024 * 1024.
Definition ROUTE_OPERATION_BYTES : Z := 512.
Definition METHODS : list string := ["get"; "put"; "post"; "delete"; "options"; "head"; "patch"; "trace"].

(** * Pointers, URLs *)

(** The characters of a token under RFC 6901. *)
Fixpoint ptr_token (t : string) : string :=
  match t with
  | "" => ""
  | String c t' => (if Ascii.eqb c "~" then "~0" else if Ascii.eqb c "/" then "~1" else String c "") +:+ ptr_token t'
  end.

(** [ptr] (locate.rs). *)
Definition ptr (base_ token : string) : string := base_ +:+ "/" +:+ ptr_token token.

(** [percent_decode_path] (observe.rs). *)
Definition percent_decode_with_plus (s : string) (plus_is_space : bool) : string :=
  from_utf8_lossy (percent_decoded plus_is_space 0 (bytes_of_string s)).
Definition percent_decode_path (s : string) : string := percent_decode_with_plus s false.

(** [str::to_ascii_uppercase]. *)
Definition ascii_upper (c : ascii) : ascii :=
  let n := nat_of_ascii c in if ((97 <=? n) && (n <=? 122))%nat then ascii_of_nat (n - 32) else c.

Fixpoint to_ascii_uppercase (s : string) : string :=
  match s with "" => "" | String c s' => String (ascii_upper c) (to_ascii_uppercase s') end.

(** What [s.split(c).next()] gives. *)
Definition before_first (c : string) (s : string) : string := match split_once c s with Some (a, _) => a | None => s end.

(** [s.rsplit('@').next()]. *)
Definition after_last_at (s : string) : string := match rsplit_once "@" s with Some (_, b) => b | None => s end.

(** [split_url] (observe.rs). *)
Definition split_url (url : string) : option string * string :=
  let no_query := before_first "?" (before_first "#" url) in
  match split_once "://" no_query with
  | Some (scheme, rest) =>
      let '(auth, path) := match split_once "/" rest with Some (a, p) => (a, "/" +:+ p) | None => (rest, "/") end in
      (Some (to_ascii_lowercase scheme +:+ "://" +:+ to_ascii_lowercase (after_last_at auth)), path)
  | None => (None, if starts_with no_query "/" then no_query else "/" +:+ no_query)
  end.

(** [path.split('/').filter(|s| !s.is_empty())]. *)
Definition path_segments (path : string) : list string := List.filter (fun s => negb (str_is_empty s)) (split_on "/" path).

(** [trim_end_matches('/')]. *)
Fixpoint trim_end_slashes (s : string) : string :=
  match s with
  | "" => ""
  | String c s' => match trim_end_slashes s' with "" => if Ascii.eqb c "/" then "" else String c "" | t => String c t end
  end.

(** [server_base]. *)
Definition server_base (url : string) : string :=
  let path := match split_once "://" url with
    | Some (_, rest) => match split_once "/" rest with Some (_, p) => "/" +:+ p | None => "" end
    | None => url
    end in
  trim_end_slashes (split_at_any [63; 35] path).1.

(** * Paths and Path Items (model.rs) *)

Record PathItem := mkPathItem {
  pi_value : Value;
  pi_pointer : string;
  pi_operations : list (string * string * Value);
}.

Definition is_object (v : Value) : bool := match v with JObject _ => true | _ => false end.

(** [v.get(key).filter(|o| o.is_object())]. *)
Definition get_object (key : string) (v : Value) : option Value := x ← get key v; if is_object x then Some x else None.

(** [item_operations]. *)
Definition item_operations (dialect : Dialect) (item : Value) (item_pointer : string) : list (string * string * Value) :=
  omap (fun m => option_map (fun op => (m, ptr item_pointer m, op)) (get_object m item)) METHODS ++
  match dialect with
  | OpenApi32 =>
      (match get_object "query" item with Some op => [("query", ptr item_pointer "query", op)] | None => [] end) ++
      (match get "additionalOperations" item with
       | Some (JObject extra) =>
           let base_ := ptr item_pointer "additionalOperations" in
           map (fun mo => (to_ascii_lowercase mo.1, ptr base_ mo.1, mo.2)) (List.filter (fun mo => is_object mo.2) extra)
       | _ => []
       end)
  | _ => []
  end.

(** The state of the loop of [read_paths]. *)
Record PathsRead := mkPathsRead {
  rp_items : list PathItem;
  rp_paths : list (string * nat);
  rp_by_pointer : gmap string nat;
  rp_by_target : gmap nat nat;
  rp_spec : SpecState;
}.

Section Read.
Variable dialect : Dialect.
Variable root : Value.

(** A path whose Path Item is [value] at [pointer], reached through the
    target when there is one. *)
Definition list_item (path : string) (value : Value) (pointer : string) (target : option nat) (st : PathsRead) (s : SpecState) : PathsRead :=
  let '(i, items, by_pointer) := match rp_by_pointer st !! pointer with
    | Some i => (i, rp_items st, rp_by_pointer st)
    | None =>
        let i := List.length (rp_items st) in
        (i, rp_items st ++ [mkPathItem value pointer (item_operations dialect value pointer)], <[pointer := i]> (rp_by_pointer st))
    end in
  mkPathsRead items (rp_paths st ++ [(path, i)]) by_pointer
    (match target with Some id => <[id := i]> (rp_by_target st) | None => rp_by_target st end) s.

(** One path of the document. *)
Definition read_path (st : PathsRead) (member : string * Value) : PathsRead :=
  let '(path, raw) := member in
  let at_ := ptr "/paths" path in
  let '(x, s) := reach root raw at_ (rp_spec st) in
  match x with
  | Reach_Inline value => list_item path value at_ None st s
  | Reach_Target t =>
      match rp_by_target st !! rt_id t with
      | Some i => mkPathsRead (rp_items st) (rp_paths st ++ [(path, i)]) (rp_by_pointer st) (rp_by_target st) s
      | None =>
          match target_value root t with
          | None => mkPathsRead (rp_items st) (rp_paths st) (rp_by_pointer st) (rp_by_target st) s
          | Some value => list_item path value (rt_pointer t) (Some (rt_id t)) st s
          end
      end
  | Reach_Unresolved => mkPathsRead (rp_items st) (rp_paths st) (rp_by_pointer st) (rp_by_target st) s
  end.

(** The declared paths: not extensions. *)
Definition declared_paths : list (string * Value) :=
  match get "paths" root with
  | Some (JObject o) => List.filter (fun kv => negb (starts_with kv.1 "x-")) o
  | _ => []
  end.

(** [read_paths]. *)
Definition read_paths (s : SpecState) : PathsRead := fold_left read_path declared_paths (mkPathsRead [] [] ∅ ∅ s).
End Read.

(** * Segments *)

Class Regexes := {
  regex_escape : string -> string;
  regex_compiles : string -> bool;
  regex_is_match : string -> string -> bool;
}.

Inductive Seg :=
  | Seg_Lit (l : string)
  | Seg_Param
  | Seg_Mixed (re : string)
  | Seg_Choice (values : list string).

Section Routing.
Context `{Regexes}.

(** [Seg::matches], [score], [canonical]. *)
Definition seg_matches (seg : Seg) (s : string) : bool :=
  match seg with
  | Seg_Lit l => String.eqb l s
  | Seg_Param => negb (str_is_empty s)
  | Seg_Mixed re => regex_is_match re s
  | Seg_Choice values => existsb (fun v => String.eqb v s) values
  end.

Definition seg_score (seg : Seg) : Z := match seg with Seg_Lit _ | Seg_Choice _ => 2 | Seg_Mixed _ => 1 | Seg_Param => 0 end.

Definition canonical (seg : Seg) : string :=
  match seg with
  | Seg_Lit l => "l:" +:+ l
  | Seg_Param => "p"
  | Seg_Mixed re => "m:" +:+ re
  | Seg_Choice v => "c:" +:+ join (String "000" "") v
  end.

(** The regular expression of a segment that mixes text and parameters; each
    turn removes a brace at least. *)
Fixpoint template_regex (fuel : nat) (re rest : string) : string :=
  match fuel, split_once "{" rest with
  | S fuel', Some (text, after) =>
      let re := re +:+ regex_escape text in
      match split_once "}" after with
      | Some (_, after) => template_regex fuel' (re +:+ "[^/]+") after
      | None => template_regex fuel' (re +:+ regex_escape ("{" +:+ after)) ""
      end
  | _, _ => re +:+ regex_escape rest +:+ "$"
  end.

Fixpoint count_char (c : ascii) (s : string) : nat :=
  match s with "" => 0 | String x s' => (if Ascii.eqb x c then 1 else 0) + count_char c s' end.

Definition parse_segment (s : string) : Seg :=
  if negb (str_contains s "{") then Seg_Lit (percent_decode_path s)
  else if starts_with s "{" && ends_with s "}" && (count_char "{" s =? 1)%nat then Seg_Param
  else let re := template_regex (S (String.length s)) "^" s in if regex_compiles re then Seg_Mixed re else Seg_Lit s.

(** [parse_segments]. *)
Definition parse_segments (path : string) : list Seg := map parse_segment (path_segments path).

Fixpoint trim_start_char (c : ascii) (s : string) : string :=
  match s with "" => "" | String x s' => if Ascii.eqb x c then trim_start_char c s' else s end.
Fixpoint trim_end_char (c : ascii) (s : string) : string :=
  match s with
  | "" => ""
  | String x s' => match trim_end_char c s' with "" => if Ascii.eqb x c then "" else String x "" | t => String x t end
  end.

(** [strict_segments]. *)
Definition strict_segment (vars : option Value) (raw : string) (seg : Seg) : Seg :=
  match seg with
  | Seg_Param =>
      let v := vs ← vars; get (trim_end_char "}" (trim_start_char "{" raw)) vs in
      let values := match (x ← v; get "enum" x) with Some (JArray a) => omap as_str a | _ => [] end in
      Seg_Choice (values ++ match (x ← v; d ← get "default" x; as_str d) with Some d => [d] | None => [] end)
  | other => other
  end.

Definition strict_segments (base_ : string) (vars : option Value) : list Seg :=
  zip_with (strict_segment vars) (path_segments base_) (parse_segments base_).

(** All segments match, one by one. *)
Definition all_match (segs : list Seg) (parts : list string) : bool := forallb (fun sp : Seg * string => seg_matches sp.1 sp.2) (zip segs parts).

(** * The router *)

Record Template := mkTemplate { tp_path : string; tp_segs : list Seg; tp_score : Z; tp_ops : list nat }.

(** [Template::new]. *)
Definition Template_new (path : string) (ops : list nat) : Template :=
  let segs := parse_segments path in mkTemplate path segs (foldr Z.add 0 (map seg_score segs)) ops.

Record Server := mkServer { sv_url : string; sv_origin : option string }.

Record Entry := mkEntry { en_path : string; en_item : nat; en_op : nat }.

Record Base := mkBase { ba_loose : list Seg; ba_strict : list Seg }.

Record Router := mkRouter {
  rt_items : list PathItem;
  rt_entries : list Entry;
  rt_templates : list Template;
  rt_by_path : gmap string nat;
  rt_by_len : gmap nat (list nat);
  rt_bases : list Base;
  rt_servers : list Server;
  rt_dropped_servers : nat;
  rt_skipped_operations : nat;
}.

(** [statuses_cost]. *)
Definition statuses_cost (op : Value) : Z :=
  match get "responses" op with Some (JObject m) => foldr Z.add 0 (map (fun kv => str_len kv.1 + 24) m) | _ => 0 end.

Definition operation_cost (path : string) (item : PathItem) (o : string * string * Value) : Z :=
  ROUTE_OPERATION_BYTES + 4 * (str_len o.1.1 + str_len path + str_len o.1.2) + 2 * str_len (pi_pointer item) + statuses_cost o.2.

(** The operations of one path, charged before they are listed: the entries,
    what is left and how many were skipped. *)
Fixpoint list_operations (path : string) (i : nat) (item : PathItem) (k : nat) (ops : list (string * string * Value))
    (acc : list Entry * Z * nat) : list Entry * Z * nat :=
  match ops with
  | [] => acc
  | o :: ops' =>
      let '(entries, room, skipped) := acc in
      let cost := operation_cost path item o in
      if (0 <? skipped)%nat || (room <? cost) then (entries, room, (skipped + List.length ops)%nat)
      else list_operations path i item (S k) ops' (entries ++ [mkEntry path i k], room - cost, skipped)
  end.

Definition empty_item : PathItem := mkPathItem JNull "" [].

Definition list_path (items : list PathItem) (acc : list Entry * Z * nat) (pi : string * nat) : list Entry * Z * nat :=
  let item := default empty_item (items !! pi.2) in
  list_operations pi.1 pi.2 item 0 (pi_operations item) acc.

(** Every listed operation of every path, in document order. *)
Definition list_entries (items : list PathItem) (paths : list (string * nat)) : list Entry * Z * nat :=
  fold_left (list_path items) paths ([], MAX_ROUTE_BYTES, 0%nat).

(** A template per path; the operations of a path are added to its
    template. *)
Definition add_op (i : nat) (t : Template) : Template := mkTemplate (tp_path t) (tp_segs t) (tp_score t) (tp_ops t ++ [i]).

Definition add_entry (acc : list Template * gmap string nat) (ie : nat * Entry) : list Template * gmap string nat :=
  let '(templates, by_path) := acc in
  match by_path !! en_path ie.2 with
  | Some t => (alter (add_op ie.1) t templates, by_path)
  | None => (templates ++ [Template_new (en_path ie.2) [ie.1]], <[en_path ie.2 := List.length templates]> by_path)
  end.

Definition add_path (acc : list Template * gmap string nat) (p : string) : list Template * gmap string nat :=
  let '(templates, by_path) := acc in
  match by_path !! p with
  | Some _ => acc
  | None => (templates ++ [Template_new p []], <[p := List.length templates]> by_path)
  end.

Definition index_len (m : gmap nat (list nat)) (it : nat * Template) : gmap nat (list nat) :=
  let n := List.length (tp_segs it.2) in <[n := default [] (m !! n) ++ [it.1]]> m.

Definition by_len_of (templates : list Template) : gmap nat (list nat) := fold_left index_len (zip (seq 0 (List.length templates)) templates) ∅.

(** The server URLs with their variables, and those met again with variables
    of their own. *)
Definition add_server (acc : list (string * option Value) * gset string * list (string * option Value)) (s : Value)
    : list (string * option Value) * gset string * list (string * option Value) :=
  let '(urls, seen, variants) := acc in
  match (x ← get "url" s; as_str x) with
  | None => acc
  | Some u =>
      if decide (u ∉ seen) then (urls ++ [(u, get "variables" s)], {[u]} ∪ seen, variants)
      else match get "variables" s with
           | Some v => (urls, seen, variants ++ [(u, Some v)])
           | None => acc
           end
  end.

(** The lists of servers: of the document, then of each Path Item with
    operations and of its operations, where the paths first reach it. *)
Definition item_server_lists (items : list PathItem) (acc : list (option Value) * list nat) (pi : string * nat) : list (option Value) * list nat :=
  let '(lists, listed) := acc in
  match items !! pi.2 with
  | Some item =>
      match pi_operations item with
      | [] => acc
      | ops => if existsb (Nat.eqb pi.2) listed then acc
               else (lists ++ get "servers" (pi_value item) :: map (fun o => get "servers" o.2) ops, pi.2 :: listed)
      end
  | None => acc
  end.

Definition server_urls (dialect : Dialect) (root : Value) (items : list PathItem) (paths : list (string * nat))
    : list (string * option Value) * list (string * option Value) :=
  match dialect with
  | Swagger20 =>
      let base_ := default "" (x ← get "basePath" root; as_str x) in
      (match (x ← get "host" root; as_str x) with
       | Some host =>
           let schemes := from_option (omap as_str) [] (x ← get "schemes" root; as_array x) in
           map (fun s => (s +:+ "://" +:+ host +:+ base_, None)) (match schemes with [] => ["https"] | _ => schemes end)
       | None => [(base_, None)]
       end, [])
  | _ =>
      let lists := (fold_left (item_server_lists items) paths ([get "servers" root], [])).1 in
      let '(urls, _, variants) := fold_left add_server (concat (omap (fun l => x ← l; as_array x) lists)) ([], ∅, []) in
      (urls, variants)
  end.

(** The declared values of a variable are merged into those kept. *)
Definition merge_choice (have add : Seg) : Seg :=
  match have, add with
  | Seg_Choice values, Seg_Choice more =>
      Seg_Choice (fold_left (fun values v =>
        if (List.length values <? MAX_CHOICES)%nat && negb (existsb (String.eqb v) values) then values ++ [v] else values) more values)
  | _, _ => have
  end.

Fixpoint merge_strict (have add : list Seg) : list Seg :=
  match have, add with
  | h :: have', a :: add' => merge_choice h a :: merge_strict have' add'
  | _, _ => have
  end.

(** The base path of one server: merged into a base that routes alike, kept,
    or dropped. *)
Definition add_base (acc : list Base * gmap string nat * gset string) (uv : string * option Value) : list Base * gmap string nat * gset string :=
  let '(bases, seen, dropped) := acc in
  let b := server_base uv.1 in
  let loose := parse_segments b in
  let strict := strict_segments b uv.2 in
  let key := join "/" (map canonical loose) in
  match seen !! key with
  | Some i => (alter (fun base_ => mkBase (ba_loose base_) (merge_strict (ba_strict base_) strict)) i bases, seen, dropped)
  | None =>
      if (List.length bases <? MAX_BASES)%nat then (bases ++ [mkBase loose strict], <[key := List.length bases]> seen, dropped)
      else (bases, seen, {[uv.1]} ∪ dropped)
  end.

Definition read_bases (all : list (string * option Value)) : list Base * gset string :=
  let '(bases, _, dropped) := fold_left add_base all ([mkBase [] []], {[ "" := 0%nat ]}, ∅) in (bases, dropped).

Definition longer_base (a b : Base) : Prop := (List.length (ba_loose b) <= List.length (ba_loose a))%nat.

#[local] Instance longer_base_dec a b : Decision (longer_base a b).
Proof. unfold longer_base. apply _. Defined.

(** The regular expression of a server's origin; each turn removes a brace at
    least. *)
Fixpoint origin_regex (fuel : nat) (re r : string) : string :=
  match fuel, split_once "{" r with
  | S fuel', Some (text, after) =>
      let re := re +:+ regex_escape (to_ascii_lowercase text) +:+ "[^/.:]+" in
      origin_regex fuel' re (match split_once "}" after with Some (_, rest) => rest | None => "" end)
  | _, _ => re +:+ regex_escape (to_ascii_lowercase r) +:+ "$"
  end.

Definition server_of (u : string) : Server :=
  mkServer u (match split_once "://" u with
    | None => None
    | Some (scheme, rest) =>
        let host := before_first "/" rest in
        let re := origin_regex (S (String.length host)) ("^" +:+ regex_escape (to_ascii_lowercase scheme) +:+ "://") host in
        if regex_compiles re then Some re else None
    end).

(** The router of a document whose paths were read. *)
Definition router_of (dialect : Dialect) (root : Value) (items : list PathItem) (paths : list (string * nat)) : Router :=
  let '(entries, _, skipped) := list_entries items paths in
  let '(templates, by_path) := fold_left add_entry (zip (seq 0 (List.length entries)) entries) ([], ∅) in
  let '(templates, by_path) := fold_left add_path (map fst (declared_paths root)) (templates, by_path) in
  let '(urls, variants) := server_urls dialect root items paths in
  let '(bases, dropped) := read_bases (urls ++ variants) in
  mkRouter items entries templates by_path (by_len_of templates) (merge_sort longer_base bases) (map (fun u => server_of u.1) urls) (size dropped) skipped.

(** [Router::new]. *)
Definition Router_new (dialect : Dialect) (root : Value) (s : SpecState) : Router * SpecState :=
  let read := read_paths dialect root s in
  (router_of dialect root (rp_items read) (rp_paths read), rp_spec read).

(** * Routing a request *)

Section Router.
Variable router : Router.

Definition operation_of (i : nat) : option (PathItem * Entry * (string * string * Value)) :=
  e ← rt_entries router !! i;
  item ← rt_items router !! en_item e;
  o ← pi_operations item !! en_op e;
  Some (item, e, o).

(** [method], the lower-case method of a listed operation; an index that is
    not listed, on which the source panics, has none. *)
Definition method_of (i : nat) : string := from_option (fun x : PathItem * Entry * (string * string * Value) => x.2.1.1) "" (operation_of i).

(** [operation_key] and [key]. *)
Definition operation_key (operation_id : option string) (method path : string) : string :=
  default (to_ascii_uppercase method +:+ " " +:+ path) operation_id.

Definition key_of (i : nat) : string :=
  match operation_of i with
  | Some (_, e, (method, _, op)) => operation_key (x ← get "operationId" op; as_str x) method (en_path e)
  | None => ""
  end.

(** [strip_dup]. *)
Fixpoint all_digits (s : string) : bool := match s with "" => true | String c s' => (if digit_of c is Some _ then true else false) && all_digits s' end.

Definition strip_dup (k : string) : string :=
  match rsplit_once "#" k with
  | Some (base_, n) => if all_digits n && negb (str_is_empty n) then base_ else k
  | None => k
  end.

(** [operation_count], [operation_object] and [path_pointer]. *)
Definition operation_count : nat := List.length (rt_entries router).
Definition operation_object (i : nat) : option (nat * nat) := option_map (fun e => (en_item e, en_op e)) (rt_entries router !! i).
Definition path_pointer (path : string) : string := ptr "/paths" path.

(** [methods_of]. *)
Definition methods_of (path : string) : list string :=
  map (fun o => to_ascii_uppercase (method_of o)) (from_option tp_ops [] (t ← rt_by_path router !! path; rt_templates router !! t)).

(** [base_declared]. *)
Definition base_declared (base_ : string) : bool :=
  let segs := map percent_decode_path (path_segments base_) in
  existsb (fun b => (List.length (ba_strict b) =? List.length segs)%nat && all_match (ba_strict b) segs) (rt_bases router).

(** [origin_declared]. *)
Definition origin_declared (origin : string) : option bool :=
  match omap sv_origin (rt_servers router) with
  | [] => None
  | absolute => Some (existsb (fun re => regex_is_match re origin) absolute)
  end.

Inductive Route :=
  | Route_Operation (op : nat) (template base_ : string)
  | Route_Method (template base_ : string)
  | Route_Path (base_ : string).

(** A candidate: template score, base length, template index, base. *)
Record Candidate := mkCandidate { cd_score : Z; cd_base_len : nat; cd_template : nat; cd_base : string }.

Definition hinted (hint : option string) (t : nat) : bool :=
  match hint with
  | Some h => existsb (fun o => String.eqb (key_of o) (strip_dup h)) (from_option tp_ops [] (rt_templates router !! t))
  | None => false
  end.

(** [(a, b) > (c, d)] and equality, on the score and the base length. *)
Definition more_specific (a b : Candidate) : bool :=
  (cd_score b <? cd_score a) || ((cd_score a =? cd_score b) && (cd_base_len b <? cd_base_len a)%nat).

Definition as_specific (a b : Candidate) : bool := (cd_score a =? cd_score b) && (cd_base_len a =? cd_base_len b)%nat.

(** The [better] of [consider]. *)
Definition better (hint : option string) (c best : Candidate) : bool :=
  more_specific c best || (as_specific c best && hinted hint (cd_template c) && negb (hinted hint (cd_template best))).

Definition consider_one (hint : option string) (best : option Candidate) (c : Candidate) : option Candidate :=
  match best with
  | None => Some c
  | Some b => if better hint c b then Some c else best
  end.

(** The loop of [consider] over the templates of the right length. *)
Definition consider (hint : option string) (base_len : nat) (base_ : string) (rest : list string) (best : option Candidate) : option Candidate :=
  fold_left (fun best ti =>
    match rt_templates router !! ti with
    | Some t => if all_match (tp_segs t) rest then consider_one hint best (mkCandidate (tp_score t) base_len ti base_) else best
    | None => best
    end) (default [] (rt_by_len router !! List.length rest)) best.

(** The base path of the first [n] segments. *)
Definition base_text (n : nat) (segs : list string) : string := if (n =? 0)%nat then "" else "/" +:+ join "/" (take n segs).

(** The declared bases after an unknown prefix of [k] segments. *)
Definition consider_prefix (hint : option string) (segs : list string) (k : nat) : option Candidate :=
  fold_left (fun best b =>
    let rest := drop k segs in
    let bsegs := ba_loose b in
    if (List.length bsegs <=? List.length rest)%nat && all_match bsegs rest then
      let n := (k + List.length bsegs)%nat in consider hint (List.length bsegs) (base_text n segs) (drop n segs) best
    else best) (rt_bases router) None.

(** The shortest prefix with a candidate. *)
Fixpoint first_prefix {A} (f : nat -> option A) (k n : nat) : option A :=
  match n with
  | O => None
  | S n' => match f k with Some x => Some x | None => first_prefix f (S k) n' end
  end.

(** The base of a path that is not declared. *)
Definition undeclared_base (segs : list string) (k : nat) : option string :=
  let rest := drop k segs in
  b ← List.find (fun b => negb (List.length b =? 0)%nat && (List.length b <=? List.length rest)%nat && all_match b rest)
        (map ba_strict (rt_bases router));
  Some ("/" +:+ join "/" (take (k + List.length b) segs)).

(** [Router::route]. *)
Definition route (method url : string) (hint : option string) : Route :=
  let segs := map percent_decode_path (path_segments (split_url url).2) in
  let method := to_ascii_lowercase method in
  match first_prefix (consider_prefix hint segs) 0 (S (Nat.min 3 (List.length segs - 1))) with
  | None => Route_Path (default "" (first_prefix (undeclared_base segs) 0 (S (Nat.min 3 (List.length segs)))))
  | Some best =>
      match rt_templates router !! cd_template best with
      | None => Route_Path ""
      | Some t =>
          let find_ m := List.find (fun o => String.eqb (method_of o) m) (tp_ops t) in
          match (match find_ method with Some o => Some o | None => if String.eqb method "head" then find_ "get" else None end) with
          | Some op => Route_Operation op (tp_path t) (cd_base best)
          | None => Route_Method (tp_path t) (cd_base best)
          end
      end
  end.
End Router.

(** * What the router lists *)

(** The operations of the paths with what each costs, in document order. *)
Definition path_operations (items : list PathItem) (pi : string * nat) : list (Entry * Z) :=
  let item := default empty_item (items !! pi.2) in
  imap (fun k o => (mkEntry pi.1 pi.2 k, operation_cost pi.1 item o)) (pi_operations item).

Definition all_operations (items : list PathItem) (paths : list (string * nat)) : list (Entry * Z) := concat (map (path_operations items) paths).

Definition total_cost (l : list (Entry * Z)) : Z := foldr Z.add 0 (map snd l).

Lemma total_cost_app l l' : total_cost (l ++ l') = total_cost l + total_cost l'.
Proof. unfold total_cost. induction l; cbn; lia. Qed.

(** Of the operations [done] so far a first part is listed and charged; the
    rest, whose first did not fit, is counted. *)
Definition listed_within (ops : list (Entry * Z)) (acc : list Entry * Z * nat) : Prop :=
  let '(entries, room, skipped) := acc in exists n, (n <= List.length ops)%nat /\ entries = map fst (take n ops) /\
    skipped = (List.length ops - n)%nat /\ room = MAX_ROUTE_BYTES - total_cost (take n ops) /\ 0 <= room /\
    (forall e cost, ops !! n = Some (e, cost) -> room < cost).

Lemma list_operations_within path i item ops : forall k done_ acc, listed_within done_ acc ->
  listed_within (done_ ++ imap (fun j o => (mkEntry path i (k + j), operation_cost path item o)) ops) (list_operations path i item k ops acc).
Proof.
  induction ops as [|o ops IH]; intros k done_ [[entries room] skipped] (n & Hn & -> & -> & -> & Hroom & Hover); cbn [list_operations].
  { cbn. rewrite app_nil_r. by exists n. }
  cbv zeta. rewrite imap_cons. unfold compose.
  assert (Hext : imap (fun j o => (mkEntry path i (k + S j), operation_cost path item o)) ops =
    imap (fun j o => (mkEntry path i (S k + j), operation_cost path item o)) ops).
  { apply imap_ext. intros j x _. by rewrite Nat.add_succ_r. }
  rewrite Hext, Nat.add_0_r.
  set (rest := imap _ ops). set (cost := operation_cost path item o).
  assert (Hlen : List.length rest = List.length ops) by apply length_imap.
  destruct (Nat.ltb_spec 0 (List.length done_ - n)) as [Hs|Hs]; cbn [orb].
  { exists n. rewrite length_app. cbn [List.length]. rewrite take_app_le by lia. split; [lia|]. split; [done|]. split; [lia|]. split; [done|]. split; [done|].
    intros e c. rewrite lookup_app_l by lia. apply Hover. }
  assert (n = List.length done_) as -> by lia. rewrite firstn_all, Nat.sub_diag in *.
  destruct (Z.ltb_spec (MAX_ROUTE_BYTES - total_cost done_) cost) as [Hc|Hc].
  - exists (List.length done_). rewrite length_app, take_app_length. cbn [List.length]. split; [lia|]. split; [done|]. split; [lia|]. split; [done|]. split; [done|].
    intros e c. rewrite lookup_app_r, Nat.sub_diag by lia. cbn. by intros [= <- <-].
  - specialize (IH (S k) (done_ ++ [(mkEntry path i k, cost)]) (map fst done_ ++ [mkEntry path i k], MAX_ROUTE_BYTES - total_cost done_ - cost, 0%nat)).
    rewrite <-app_assoc in IH. apply IH. exists (List.length (done_ ++ [(mkEntry path i k, cost)])). rewrite firstn_all, map_app, total_cost_app.
    split; [done|]. split; [done|]. split; [lia|]. unfold total_cost. cbn. split; [lia|]. split; [unfold total_cost in Hc; lia|].
    intros e c. rewrite lookup_ge_None_2 by done. done.
Qed.

Lemma list_entries_within items paths : listed_within (all_operations items paths) (list_entries items paths).
Proof.
  unfold list_entries, all_operations.
  assert (Hgen : forall done_ acc, listed_within done_ acc -> listed_within (done_ ++ concat (map (path_operations items) paths)) (fold_left (list_path items) paths acc)).
  { induction paths as [|pi paths IH]; intros done_ acc Hacc; cbn [map concat fold_left]; [by rewrite app_nil_r|].
    rewrite app_assoc. apply IH. exact (list_operations_within pi.1 pi.2 _ _ 0 done_ acc Hacc). }
  apply (Hgen []). exists 0%nat. cbn. repeat split; try done.
Qed.

(** * The templates *)

Definition index_from {A} (n : nat) (l : list A) : list (nat * A) := zip (seq n (List.length l)) l.

(** The listed operations of a path, in order. *)
Definition ops_of (ies : list (nat * Entry)) (p : string) : list nat := map fst (filter (fun ie => en_path ie.2 = p) ies).

Lemma ops_of_snoc ies ie p : ops_of (ies ++ [ie]) p = ops_of ies p ++ (if decide (en_path ie.2 = p) then [ie.1] else []).
Proof. unfold ops_of. rewrite filter_app, map_app. cbn. by case_decide. Qed.

(** The templates of the paths in [ps], with the operations [ies]. *)
Record templates_ok (ies : list (nat * Entry)) (ps : list string) (templates : list Template) (by_path : gmap string nat) : Prop := mkTemplatesOk {
  tk_new t T : templates !! t = Some T -> T = Template_new (tp_path T) (ops_of ies (tp_path T));
  tk_index p t : by_path !! p = Some t <-> exists T, templates !! t = Some T /\ tp_path T = p;
  tk_paths p : is_Some (by_path !! p) <-> p ∈ ps;
}.

Lemma ops_of_none ies (ps : list string) p : (forall i e, (i, e) ∈ ies -> en_path e ∈ ps) -> p ∉ ps -> ops_of ies p = [].
Proof.
  intros Hin Hp. unfold ops_of. destruct (filter _ ies) as [|[i e] l] eqn:F; [done|].
  assert (Hf : (i, e) ∈ filter (fun ie => en_path ie.2 = p) ies) by (rewrite F; left).
  apply list_elem_of_filter in Hf as [He Hi]. cbn in He. subst p. exfalso. apply Hp. by eapply Hin.
Qed.

(** A template of a path that has none. *)
Lemma templates_new ies ps templates by_path p ops : templates_ok ies ps templates by_path -> by_path !! p = None -> ops_of ies p = ops ->
  templates_ok ies (ps ++ [p]) (templates ++ [Template_new p ops]) (<[p := List.length templates]> by_path).
Proof.
  intros [H1 H2 H3] E Hops. split.
  - intros t T [HT|[Hge HT]]%lookup_app_Some; [by eauto|]. apply list_lookup_singleton_Some in HT as [_ <-]. cbn. by rewrite Hops.
  - intros q t. rewrite lookup_insert_Some. split.
    + intros [[<- <-]|[Hne (T & HT & Hp)%H2]].
      * exists (Template_new p ops). by rewrite lookup_app_r, Nat.sub_diag.
      * exists T. split; [by apply lookup_app_l_Some|done].
    + intros (T & [HT|[Hge HT]]%lookup_app_Some & Hp).
      * right. split; [|apply H2; eauto]. intros Heq. assert (by_path !! tp_path T = Some t) by (apply H2; eauto). congruence.
      * apply list_lookup_singleton_Some in HT as [Hz <-]. left. cbn in Hp. split; [done|lia].
  - intros q. rewrite elem_of_app, list_elem_of_singleton, <-H3. destruct (decide (p = q)) as [<-|Hne].
    + rewrite lookup_insert_eq. split; [by right|eauto].
    + rewrite lookup_insert_ne by done. split; [by left|]. by intros [?| ->].
Qed.

(** A path that has one already. *)
Lemma templates_again ies ps templates by_path p : templates_ok ies ps templates by_path -> is_Some (by_path !! p) ->
  templates_ok ies (ps ++ [p]) templates by_path.
Proof.
  intros [H1 H2 H3] E. split; [done|done|]. intros q. rewrite elem_of_app, list_elem_of_singleton, H3. split; [auto|]. intros [?| ->]; [done|]. by apply H3.
Qed.

Lemma templates_add_entry ies ps templates by_path ie : templates_ok ies ps templates by_path -> (forall i e, (i, e) ∈ ies -> en_path e ∈ ps) ->
  let '(templates', by_path') := add_entry (templates, by_path) ie in
  templates_ok (ies ++ [ie]) (ps ++ [en_path ie.2]) templates' by_path'.
Proof.
  intros Hok Hin. unfold add_entry. destruct (by_path !! en_path ie.2) as [t|] eqn:E.
  - apply templates_again; [|eauto]. destruct Hok as [H1 H2 H3]. apply H2 in E as HE. destruct HE as (T1 & HT1 & Hp1).
    assert (Hat : alter (add_op ie.1) t templates !! t = Some (add_op ie.1 T1)) by (by rewrite list_lookup_alter_eq, HT1).
    split.
    + intros t' T HT. rewrite ops_of_snoc. destruct (decide (t' = t)) as [->|Hne].
      * rewrite Hat in HT. injection HT as <-. rewrite (H1 _ _ HT1) at 1. cbn. by rewrite <-Hp1, decide_True.
      * rewrite list_lookup_alter_ne in HT by done. rewrite decide_False, app_nil_r; [by eauto|]. intros Hp.
        assert (by_path !! tp_path T = Some t') by (apply H2; eauto). congruence.
    + intros p t'. rewrite H2. destruct (decide (t' = t)) as [->|Hne]; [|by rewrite list_lookup_alter_ne].
      rewrite Hat. split; intros (T & HT & Hp); simplify_eq; eauto.
    + done.
  - assert (Hnone : en_path ie.2 ∉ ps) by (rewrite <-(tk_paths _ _ _ _ Hok), E; apply is_Some_None).
    apply templates_new; [|done|by rewrite ops_of_snoc, (ops_of_none _ _ _ Hin Hnone), decide_True].
    destruct Hok as [H1 H2 H3]. split; [|done|done]. intros t T HT. rewrite ops_of_snoc, decide_False, app_nil_r; [by eauto|].
    intros Hp. assert (by_path !! tp_path T = Some t) by (apply H2; eauto). congruence.
Qed.

Lemma templates_add_path ies ps templates by_path p : templates_ok ies ps templates by_path -> (forall i e, (i, e) ∈ ies -> en_path e ∈ ps) ->
  let '(templates', by_path') := add_path (templates, by_path) p in templates_ok ies (ps ++ [p]) templates' by_path'.
Proof.
  intros Hok Hin. unfold add_path. destruct (by_path !! p) as [t|] eqn:E; [apply templates_again; eauto|].
  apply templates_new; [done|done|]. apply (ops_of_none _ _ _ Hin). rewrite <-(tk_paths _ _ _ _ Hok), E. apply is_Some_None.
Qed.

Lemma templates_add_entries es : forall ies ps templates by_path, templates_ok ies ps templates by_path -> (forall i e, (i, e) ∈ ies -> en_path e ∈ ps) ->
  let '(templates', by_path') := fold_left add_entry es (templates, by_path) in
  templates_ok (ies ++ es) (ps ++ map (fun ie => en_path ie.2) es) templates' by_path' /\ (forall i e, (i, e) ∈ ies ++ es -> en_path e ∈ ps ++ map (fun ie => en_path ie.2) es).
Proof.
  induction es as [|ie es IH]; intros ies ps templates by_path Hok Hin; cbn [fold_left map].
  { rewrite !app_nil_r. done. }
  pose proof (templates_add_entry _ _ _ _ ie Hok Hin) as H1. destruct (add_entry _ ie) as [templates1 by_path1].
  specialize (IH _ _ _ _ H1). rewrite <-!app_assoc in IH. apply IH. intros i e [Hi|Hi%list_elem_of_singleton]%elem_of_app; apply elem_of_app; [left; by eapply Hin|].
  right. apply list_elem_of_singleton. by rewrite <-Hi.
Qed.

Lemma templates_add_paths qs : forall ies ps templates by_path, templates_ok ies ps templates by_path -> (forall i e, (i, e) ∈ ies -> en_path e ∈ ps) ->
  let '(templates', by_path') := fold_left add_path qs (templates, by_path) in templates_ok ies (ps ++ qs) templates' by_path'.
Proof.
  induction qs as [|q qs IH]; intros ies ps templates by_path Hok Hin; cbn [fold_left]; [by rewrite app_nil_r|].
  pose proof (templates_add_path _ _ _ _ q Hok Hin) as H1. destruct (add_path _ q) as [templates1 by_path1].
  specialize (IH _ _ _ _ H1). rewrite <-app_assoc in IH. apply IH. intros i e Hi. apply elem_of_app. left. by eapply Hin.
Qed.

(** Template indexes by length: those of that length, in order. *)
Definition of_length (n : nat) (its : list (nat * Template)) : list nat := map fst (filter (fun it => List.length (tp_segs it.2) = n) its).

Lemma by_len_ok templates n : default [] (by_len_of templates !! n) = of_length n (index_from 0 templates).
Proof.
  unfold by_len_of. change (zip (seq 0 (List.length templates)) templates) with (index_from 0 templates).
  assert (Hgen : forall its done_ m, (forall n, default [] (m !! n) = of_length n done_) ->
    default [] (fold_left index_len its m !! n) = of_length n (done_ ++ its)).
  { induction its as [|it its IH]; intros done_ m Hm; cbn [fold_left]; [by rewrite app_nil_r|].
    rewrite (IH (done_ ++ [it])); [by rewrite <-app_assoc|]. intros k. unfold index_len, of_length. rewrite filter_app, map_app. cbn.
    destruct (decide (List.length (tp_segs it.2) = k)) as [<-|Hne].
    - rewrite lookup_insert_eq. cbn. by rewrite Hm.
    - rewrite lookup_insert_ne, app_nil_r by done. apply Hm. }
  apply (Hgen _ [] ∅). intros k. by rewrite lookup_empty.
Qed.

(** * The paths that are read *)

Lemma ptr_token_escaped t : ptr_token t = escaped t.
Proof. induction t as [|c t IH]; cbn; [done|]. by rewrite IH. Qed.

Lemma ptr_pointer path : ptr "/paths" path = pointer ["paths"; path].
Proof. unfold ptr, pointer. cbn [foldr]. rewrite ptr_token_escaped, !escape_escaped, str_app_nil_r. done. Qed.

Section ReadPaths.
Variable dialect : Dialect.
Variable root : Value.

Lemma declared_value path raw : wf_value root -> (path, raw) ∈ declared_paths root -> value_pointer root (ptr "/paths" path) = Some raw.
Proof.
  intros Hwf. unfold declared_paths. destruct (get "paths" root) as [paths|] eqn:Eg; [|by intros ?%elem_of_nil].
  destruct paths as [| | | | |o]; try by intros ?%elem_of_nil. intros Hin%list_elem_of_In. apply filter_In in Hin as [Hin _].
  apply list_elem_of_In in Hin. unfold get in Eg. destruct root as [| | | | |ro] eqn:Er; try done.
  pose proof (wf_member ro _ _ Hwf Eg) as Hp. apply wf_JObject in Hp as [Hnd _].
  unfold value_pointer. rewrite ptr_pointer, tokens_of_pointer. cbn [value_at]. rewrite Eg. cbn.
  apply obj_get_Some in Hin; [|done]. by rewrite Hin.
Qed.

(** The Path Item a path should have. *)
Definition path_target (m : string * Value) : option (string * (Value * string)) :=
  option_map (fun vp => (m.1, vp)) (plain_resolve root m.2 (ptr "/paths" m.1)).

Definition item_of (items : list PathItem) (pi : string * nat) : option (string * (Value * string)) :=
  option_map (fun item => (pi.1, (pi_value item, pi_pointer item))) (items !! pi.2).

(** The state after the members [done_]. *)
Record read_ok (done_ : list (string * Value)) (st : PathsRead) : Prop := mkReadOk {
  ro_cache : cache_ok root (sp_refs (rp_spec st));
  ro_paths : map (item_of (rp_items st)) (rp_paths st) = map Some (omap path_target done_);
  ro_value i item : rp_items st !! i = Some item ->
    value_pointer root (pi_pointer item) = Some (pi_value item) /\ pi_operations item = item_operations dialect (pi_value item) (pi_pointer item);
  ro_pointer p i : rp_by_pointer st !! p = Some i <-> exists item, rp_items st !! i = Some item /\ pi_pointer item = p;
  ro_target id i : rp_by_target st !! id = Some i -> exists item, rp_items st !! i = Some item /\ rf_ends (sp_refs (rp_spec st)) !! id = Some (pi_pointer item);
  ro_used i item : rp_items st !! i = Some item -> exists path, (path, i) ∈ rp_paths st
}.

Lemma item_of_extend items more paths l : map (item_of items) paths = map Some l -> map (item_of (items ++ more)) paths = map Some l.
Proof.
  revert l. induction paths as [|pi paths IH]; intros [|x l] Hl; try done. cbn in *. injection Hl as H1 H2. rewrite (IH _ H2). f_equal.
  unfold item_of in *. destruct (items !! pi.2) as [item|] eqn:E; [|done]. by rewrite (lookup_app_l_Some _ _ _ _ E).
Qed.

(** A path that is not read. *)
Lemma read_skip done_ st m s : read_ok done_ st -> cache_ok root (sp_refs s) -> cache_le (sp_refs (rp_spec st)) (sp_refs s) -> path_target m = None ->
  read_ok (done_ ++ [m]) (mkPathsRead (rp_items st) (rp_paths st) (rp_by_pointer st) (rp_by_target st) s).
Proof.
  intros [H1 H2 H3 H4 H5 H6] Hc Hle Hm. split; cbn; try done.
  - rewrite omap_app. cbn. rewrite Hm, app_nil_r. exact H2.
  - intros id i Hi. destruct (H5 id i Hi) as (item & Hl & Hp). exists item. split; [done|]. eapply prefix_lookup_Some; [exact Hp|exact Hle].
Qed.

(** A path whose Path Item is listed already. *)
Lemma read_shared done_ st m s i item : read_ok done_ st -> cache_ok root (sp_refs s) -> cache_le (sp_refs (rp_spec st)) (sp_refs s) ->
  rp_items st !! i = Some item -> path_target m = Some (m.1, (pi_value item, pi_pointer item)) ->
  read_ok (done_ ++ [m]) (mkPathsRead (rp_items st) (rp_paths st ++ [(m.1, i)]) (rp_by_pointer st) (rp_by_target st) s).
Proof.
  intros [H1 H2 H3 H4 H5 H6] Hc Hle Hi Hm. split; cbn; try done.
  - rewrite omap_app, !map_app, H2. cbn. rewrite Hm. cbn. f_equal. unfold item_of. cbn. by rewrite Hi.
  - intros id j Hj. destruct (H5 id j Hj) as (item' & Hl & Hp). exists item'. split; [done|]. eapply prefix_lookup_Some; [exact Hp|exact Hle].
  - intros j item' Hj. destruct (H6 j item' Hj) as (p & Hp). exists p. apply elem_of_app. by left.
Qed.

Lemma read_target done_ st id i item : read_ok done_ st -> rp_items st !! i = Some item -> rf_ends (sp_refs (rp_spec st)) !! id = Some (pi_pointer item) ->
  read_ok done_ (mkPathsRead (rp_items st) (rp_paths st) (rp_by_pointer st) (<[id := i]> (rp_by_target st)) (rp_spec st)).
Proof.
  intros [H1 H2 H3 H4 H5 H6] Hi Hid. split; cbn; try done. intros id' i'. rewrite lookup_insert_Some. intros [[-> ->]|[_ Hl]]; [by exists item|by apply H5].
Qed.

(** A new Path Item. *)
Lemma read_new done_ st item path : read_ok done_ st -> value_pointer root (pi_pointer item) = Some (pi_value item) ->
  pi_operations item = item_operations dialect (pi_value item) (pi_pointer item) -> rp_by_pointer st !! pi_pointer item = None ->
  let i := List.length (rp_items st) in forall done', omap path_target done' = omap path_target done_ ++ [(path, (pi_value item, pi_pointer item))] ->
  read_ok done' (mkPathsRead (rp_items st ++ [item]) (rp_paths st ++ [(path, i)]) (<[pi_pointer item := i]> (rp_by_pointer st)) (rp_by_target st) (rp_spec st)).
Proof.
  intros [H1 H2 H3 H4 H5 H6] Hv Ho Hn i done' Hd. assert (Hnew : (rp_items st ++ [item]) !! i = Some item) by (rewrite lookup_app_r, Nat.sub_diag by done; done).
  split; cbn; try done.
  - rewrite Hd, !map_app. cbn. f_equal; [by apply item_of_extend|]. unfold item_of. cbn [fst snd]. by rewrite Hnew.
  - intros j item' [Hj|[Hge Hj]]%lookup_app_Some; [by eapply H3|]. by apply list_lookup_singleton_Some in Hj as [_ <-].
  - intros p j. rewrite lookup_insert_Some. split.
    + intros [[<- <-]|[Hne (item' & Hl & Hp)%H4]]; [eauto|]. exists item'. split; [by apply lookup_app_l_Some|done].
    + intros (item' & [Hj|[Hge Hj]]%lookup_app_Some & Hp).
      * right. split; [|apply H4; eauto]. intros Heq. assert (rp_by_pointer st !! pi_pointer item = Some j) by (apply H4; subst; eauto). congruence.
      * apply list_lookup_singleton_Some in Hj as [Hz <-]. left. split; [done|]. unfold i. lia.
  - intros id j Hj. destruct (H5 id j Hj) as (item' & Hl & Hp). exists item'. split; [by apply lookup_app_l_Some|done].
  - intros j item' [Hj|[Hge Hj]]%lookup_app_Some.
    + destruct (H6 j item' Hj) as (p & Hp). exists p. apply elem_of_app. by left.
    + apply list_lookup_singleton_Some in Hj as [Hz _]. exists path. apply elem_of_app. right. apply list_elem_of_singleton. f_equal. unfold i. lia.
Qed.

(** A path whose Path Item is given. *)
Lemma list_item_ok done_ st m s value pointer target : read_ok done_ st -> cache_ok root (sp_refs s) -> cache_le (sp_refs (rp_spec st)) (sp_refs s) ->
  value_pointer root pointer = Some value -> path_target m = Some (m.1, (value, pointer)) ->
  (forall id, target = Some id -> rf_ends (sp_refs s) !! id = Some pointer) ->
  read_ok (done_ ++ [m]) (list_item dialect m.1 value pointer target st s).
Proof.
  intros Hok Hc Hle Hv Hm Ht. unfold list_item. destruct (rp_by_pointer st !! pointer) as [i|] eqn:E.
  - apply (ro_pointer _ _ Hok) in E as (item & Hi & <-). destruct (ro_value _ _ Hok i item Hi) as [Hv' _]. simplify_eq.
    pose proof (read_shared done_ st m s i item Hok Hc Hle Hi Hm) as H1. destruct target as [id|]; [|exact H1].
    apply (read_target _ _ id i item) in H1; [exact H1|done|by apply Ht].
  - set (item := mkPathItem value pointer (item_operations dialect value pointer)).
    pose proof (read_new (done_) (mkPathsRead (rp_items st) (rp_paths st) (rp_by_pointer st) (rp_by_target st) s) item m.1) as H1. cbn in H1.
    assert (H2 : read_ok done_ (mkPathsRead (rp_items st) (rp_paths st) (rp_by_pointer st) (rp_by_target st) s)).
    { destruct Hok as [K1 K2 K3 K4 K5 K6]. split; cbn; try done. intros id j Hj. destruct (K5 id j Hj) as (item' & Hl & Hp). exists item'.
      split; [done|]. eapply prefix_lookup_Some; [exact Hp|exact Hle]. }
    specialize (H1 H2 Hv eq_refl E (done_ ++ [m])). rewrite omap_app in H1. cbn in H1. rewrite Hm in H1. specialize (H1 eq_refl).
    destruct target as [id|]; [|exact H1]. apply (read_target _ _ id (List.length (rp_items st)) item) in H1; [exact H1| |by apply Ht].
    cbn. by rewrite lookup_app_r, Nat.sub_diag.
Qed.

Lemma read_path_ok done_ st m : wf_value root -> m ∈ declared_paths root -> read_ok done_ st -> read_ok (done_ ++ [m]) (read_path dialect root st m).
Proof.
  intros Hwf Hdecl Hok. destruct m as [path raw]. unfold read_path. pose proof (declared_value _ _ Hwf Hdecl) as Hval.
  pose proof (reach_ok root raw (ptr "/paths" path) (rp_spec st) (ro_cache _ _ Hok)) as Hr.
  destruct (reach root raw _ _) as [x s]. destruct Hr as (Hc & Hle & Hx & Hid). unfold reaches in Hx.
  assert (Hpt : path_target (path, raw) = option_map (fun vp => (path, vp)) (plain_resolve root raw (ptr "/paths" path))) by done.
  unfold plain_resolve in Hpt. destruct (ref_of raw) as [r|] eqn:Er.
  - destruct (plain_end root (MAX_REF_DEPTH - 1) r) as [p|] eqn:Ep; unfold mbind in Hpt; cbn in Hpt.
    + destruct Hx as (id & ->). cbn [rt_id rt_pointer]. specialize (Hid _ eq_refl). cbn in Hid.
      apply plain_end_leads in Ep as (k & _ & Hl). destruct (leads_value _ _ _ _ Hl) as (v & Hv & _).
      rewrite Hv in Hpt. cbn in Hpt. unfold target_value. cbn [rt_pointer]. rewrite Hv.
      destruct (rp_by_target st !! id) as [i|] eqn:Et.
      * destruct (ro_target _ _ Hok _ _ Et) as (item & Hi & Hp). pose proof (prefix_lookup_Some _ _ _ _ Hp Hle) as Hp'. rewrite Hid in Hp'. injection Hp' as ->.
        apply (read_shared done_ st (path, raw) s i item); try done. cbn [fst]. rewrite Hpt. destruct (ro_value _ _ Hok i item Hi) as [Hv' _]. by simplify_eq.
      * apply (list_item_ok done_ st (path, raw)); try done. by intros ? [= <-].
    + subst x. by apply read_skip.
  - subst x. cbn in Hpt. by apply (list_item_ok done_ st (path, raw)).
Qed.

Lemma read_paths_ok s : wf_value root -> cache_ok root (sp_refs s) -> read_ok (declared_paths root) (read_paths dialect root s).
Proof.
  intros Hwf Hc. unfold read_paths.
  assert (Hgen : forall ms done_ st, (forall m, m ∈ ms -> m ∈ declared_paths root) -> read_ok done_ st -> read_ok (done_ ++ ms) (fold_left (read_path dialect root) ms st)).
  { induction ms as [|m ms IH]; intros done_ st Hin Hok; cbn [fold_left]; [by rewrite app_nil_r|]. rewrite (cons_middle m done_ ms), app_assoc.
    apply IH; [intros m' Hm'; apply Hin; by right|]. apply read_path_ok; [done|apply Hin; by left|done]. }
  apply (Hgen _ []); [done|]. split; cbn; try done.
  intros p i. rewrite lookup_empty. split; [done|]. by intros (item & ? & _).
Qed.

(** C11: in a document whose objects have distinct names, and after any other
    resolutions, every path of the description that is not an extension is read
    exactly when its Path Item resolves, in order and with the value and pointer
    it would have if its references were followed anew; a Path Item is listed
    once however many paths reach it, is in use, and has the operations its
    value declares. *)
Theorem read_paths_exact queries : wf_value root -> let read := read_paths dialect root (reach_all root queries SpecState_new).2 in
  map (item_of (rp_items read)) (rp_paths read) = map Some (omap path_target (declared_paths root)) /\
  NoDup (map pi_pointer (rp_items read)) /\
  (forall i item, rp_items read !! i = Some item -> pi_operations item = item_operations dialect (pi_value item) (pi_pointer item) /\
     exists path, (path, i) ∈ rp_paths read).
Proof.
  intros Hwf read. pose proof (reach_all_ok root queries SpecState_new (cache_ok_default root)) as Hq. unfold read.
  destruct (reach_all root queries SpecState_new) as [xs s]. destruct Hq as (Hc & _). cbn [snd].
  pose proof (read_paths_ok s Hwf Hc) as [H1 H2 H3 H4 H5 H6]. split; [exact H2|]. split.
  - apply NoDup_alt. intros i j p Hi Hj. change (map pi_pointer) with (fmap (M:=list) pi_pointer) in Hi, Hj. rewrite list_lookup_fmap in Hi, Hj.
    destruct (_ !! i) as [a|] eqn:Ei; [|done]. destruct (_ !! j) as [b|] eqn:Ej; [|done]. cbn in Hi, Hj.
    assert (A : rp_by_pointer (read_paths dialect root s) !! p = Some i) by (apply H4; exists a; split; [done|congruence]).
    assert (B : rp_by_pointer (read_paths dialect root s) !! p = Some j) by (apply H4; exists b; split; [done|congruence]). congruence.
  - intros i item Hi. split; [by eapply H3|by eapply H6].
Qed.
End ReadPaths.

(** * The router of a document *)

Lemma read_paths_declared dialect root : forall ms st p i, (p, i) ∈ rp_paths (fold_left (read_path dialect root) ms st) ->
  (p, i) ∈ rp_paths st \/ p ∈ map fst ms.
Proof.
  induction ms as [|[path raw] ms IH]; intros st p i Hin; cbn [fold_left map] in *; [by left|].
  destruct (IH _ _ _ Hin) as [H1|H1]; [|right; by right].
  assert (Hsnoc : forall l (x : string * nat), (p, i) ∈ l ++ [x] -> x.1 = path -> (p, i) ∈ l \/ p = path).
  { intros l x [?|Hx%list_elem_of_singleton]%elem_of_app Hp; [by left|right]. by subst. }
  assert (Hlist : forall value pointer target s, (p, i) ∈ rp_paths (list_item dialect path value pointer target st s) -> (p, i) ∈ rp_paths st \/ p = path).
  { intros value pointer target s. unfold list_item. destruct (rp_by_pointer st !! pointer); cbn; intros H1'; by eapply Hsnoc. }
  assert (Hor : (p, i) ∈ rp_paths st \/ p = path -> (p, i) ∈ rp_paths st \/ p ∈ path :: map fst ms).
  { intros [?| ->]; [by left|right; left]. }
  apply Hor. unfold read_path in H1. destruct (reach root raw _ _) as [x s]. destruct x as [value|t|]; [by eapply Hlist| |by left].
  destruct (rp_by_target st !! rt_id t); [cbn in H1; by eapply Hsnoc|]. destruct (target_value root t); [by eapply Hlist|by left].
Qed.

Lemma all_operations_path items paths e c : (e, c) ∈ all_operations items paths -> exists i, (en_path e, i) ∈ paths.
Proof.
  unfold all_operations. intros Hin%list_elem_of_In. apply in_concat in Hin as (l & Hl & Hin). apply in_map_iff in Hl as ([p i] & <- & Hp).
  apply list_elem_of_In in Hin, Hp. unfold path_operations in Hin. apply list_elem_of_lookup_1 in Hin as (j & Hj).
  rewrite list_lookup_imap in Hj. destruct (pi_operations _ !! j); [|done]. cbn in Hj. injection Hj as <- <-. cbn. by exists i.
Qed.

Lemma index_from_elem {A} n (l : list A) i x : (i, x) ∈ index_from n l <-> (n <= i)%nat /\ l !! (i - n)%nat = Some x.
Proof.
  unfold index_from. revert n. induction l as [|y l IH]; intros n; cbn; [split; [by intros ?%elem_of_nil|]; rewrite lookup_nil; by intros [_ ?]|].
  rewrite elem_of_cons, IH. split.
  - intros [[= -> ->]|[Hn Hl]]; [by rewrite Nat.sub_diag|]. split; [lia|]. by replace (i - n)%nat with (S (i - S n)) by lia.
  - intros [Hn Hl]. destruct (decide (i = n)) as [->|Hne]; [rewrite Nat.sub_diag in Hl; injection Hl as ->; by left|right].
    split; [lia|]. by replace (i - n)%nat with (S (i - S n)) in Hl by lia.
Qed.

(** Every path of the document has a template with its listed operations. *)
Definition router_ok (root : Value) (router : Router) : Prop :=
  templates_ok (index_from 0 (rt_entries router)) (map en_path (rt_entries router) ++ map fst (declared_paths root)) (rt_templates router) (rt_by_path router) /\
  (forall n, default [] (rt_by_len router !! n) = of_length n (index_from 0 (rt_templates router))).

Lemma templates_ok_nil : templates_ok [] [] [] ∅.
Proof.
  split; [done| |].
  - intros p t. rewrite lookup_empty. split; [done|]. intros (T & HT & _). by rewrite lookup_nil in HT.
  - intros p. rewrite lookup_empty. split; [by intros [? ?]|by intros ?%elem_of_nil].
Qed.

Lemma index_from_fst (entries : list Entry) : map (fun ie : nat * Entry => en_path ie.2) (index_from 0 entries) = map en_path entries.
Proof. unfold index_from. generalize 0%nat. induction entries as [|e entries IH]; intros n; cbn; [done|]. by rewrite IH. Qed.

Lemma router_of_ok dialect root items paths : let router := router_of dialect root items paths in
  router_ok root router /\
  exists room, list_entries items paths = (rt_entries router, room, rt_skipped_operations router).
Proof.
  cbv zeta. unfold router_of. destruct (list_entries items paths) as [[entries room] skipped].
  change (zip (seq 0 (List.length entries)) entries) with (index_from 0 entries).
  pose proof (templates_add_entries (index_from 0 entries) [] [] [] ∅ templates_ok_nil) as H1.
  destruct (fold_left add_entry _ _) as [t1 b1]. destruct H1 as [H1 H2]; [by intros i e ?%elem_of_nil|]. cbn [app] in H1, H2. rewrite index_from_fst in H1, H2.
  pose proof (templates_add_paths (map fst (declared_paths root)) _ _ _ _ H1 H2) as H3. destruct (fold_left add_path _ _) as [t2 b2].
  destruct (server_urls _ _ _ _) as [urls variants]. destruct (read_bases _) as [bases dropped]. split; [|by exists room].
  split; [exact H3|]. intros n. apply by_len_ok.
Qed.

(** C12: the router lists the operations of the paths in document order until
    the first whose cost would take the total past 256 MiB; the rest, not one
    more, are counted as skipped; and every declared path has exactly one
    template, with its listed operations in order, also when it has none. *)
Theorem router_lists dialect root s : let read := read_paths dialect root s in let router := (Router_new dialect root s).1 in
  let ops := all_operations (rp_items read) (rp_paths read) in let n := List.length (rt_entries router) in
  rt_entries router = map fst (take n ops) /\ (n + rt_skipped_operations router = List.length ops)%nat /\
  total_cost (take n ops) <= MAX_ROUTE_BYTES /\ (forall e cost, ops !! n = Some (e, cost) -> MAX_ROUTE_BYTES < total_cost (take n ops) + cost) /\
  (forall t T, rt_templates router !! t = Some T -> tp_path T ∈ map fst (declared_paths root) /\ rt_by_path router !! tp_path T = Some t) /\
  (forall p, p ∈ map fst (declared_paths root) -> exists t T, rt_by_path router !! p = Some t /\ rt_templates router !! t = Some T /\
     T = Template_new p (ops_of (index_from 0 (rt_entries router)) p)).
Proof.
  intros read router ops n. destruct (router_of_ok dialect root (rp_items read) (rp_paths read)) as [[Hok _] (room & Hl)].
  change (router_of dialect root (rp_items read) (rp_paths read)) with router in Hok, Hl.
  pose proof (list_entries_within (rp_items read) (rp_paths read)) as Hw. rewrite Hl in Hw. destruct Hw as (k & Hk & He & Hs & Hr & H0 & Hover).
  change (all_operations (rp_items read) (rp_paths read)) with ops in He, Hs, Hr, Hover, Hk.
  assert (n = k) as -> by (unfold n; rewrite He, length_map, length_take; lia).
  assert (Hpaths : forall p, p ∈ map en_path (rt_entries router) ++ map fst (declared_paths root) -> p ∈ map fst (declared_paths root)).
  { intros p [Hp|]%elem_of_app; [|done]. rewrite He, map_map in Hp. apply list_elem_of_In, in_map_iff in Hp as ([e c] & <- & Hin).
    apply list_elem_of_In in Hin. assert (Hin' : (e, c) ∈ ops) by (rewrite <-(take_drop k ops); apply elem_of_app; by left).
    apply all_operations_path in Hin' as (i & Hi). unfold read, read_paths in Hi. apply read_paths_declared in Hi as [Hi|Hi]; [by apply elem_of_nil in Hi|done]. }
  split; [exact He|]. split; [lia|]. split; [lia|]. split; [intros e c Hc; specialize (Hover e c Hc); lia|]. split.
  - intros t T HT. assert (Hb : rt_by_path router !! tp_path T = Some t) by (apply (tk_index _ _ _ _ Hok); eauto). split; [|done].
    apply Hpaths, (tk_paths _ _ _ _ Hok). eauto.
  - intros p Hp. assert (Hin : p ∈ map en_path (rt_entries router) ++ map fst (declared_paths root)) by (apply elem_of_app; by right).
    apply (tk_paths _ _ _ _ Hok) in Hin as (t & Ht). apply (tk_index _ _ _ _ Hok) in Ht as HT. destruct HT as (T & HT & <-).
    exists t, T. split; [done|]. split; [done|]. by apply (tk_new _ _ _ _ Hok t).
Qed.

(** * The operation of a request *)

Section Choice.
Variable router : Router.
Variable hint : option string.

(** The rank of a candidate: its score, its base, whether the hint names it. *)
Definition rank (c : Candidate) : Z * nat * bool := (cd_score c, cd_base_len c, hinted router hint (cd_template c)).

Definition above (a b : Z * nat * bool) : Prop :=
  let '(s, n, h) := a in let '(s', n', h') := b in s' < s \/ s = s' /\ ((n' < n)%nat \/ n = n' /\ h = true /\ h' = false).

Lemma better_above a b : better router hint a b = true <-> above (rank a) (rank b).
Proof.
  unfold better, more_specific, as_specific, above, rank. rewrite !orb_true_iff, !andb_true_iff, negb_true_iff, Z.ltb_lt, Nat.ltb_lt, Z.eqb_eq, Nat.eqb_eq.
  intuition (try lia; eauto).
Qed.

Lemma better_trans a b c : better router hint a b = true -> better router hint c b = false -> better router hint a c = true.
Proof.
  rewrite <-not_true_iff_false, !better_above. unfold above, rank. destruct (hinted router hint (cd_template a)), (hinted router hint (cd_template b)), (hinted router hint (cd_template c)); intuition (try lia; try congruence).
Qed.

(** The first of the best candidates. *)
Definition first_best (cs : list Candidate) (c : Candidate) : Prop :=
  exists pre post, cs = pre ++ c :: post /\ (forall x, x ∈ pre -> better router hint c x = true) /\ (forall x, x ∈ post -> better router hint x c = false).

Lemma consider_first_best cs : match fold_left (consider_one router hint) cs None with Some c => first_best cs c | None => cs = [] end.
Proof.
  induction cs as [|x cs IH] using rev_ind; cbn; [done|]. rewrite fold_left_app. cbn [fold_left].
  destruct (fold_left (consider_one router hint) cs None) as [c|]; cbn [consider_one].
  - destruct IH as (pre & post & -> & H1 & H2). destruct (better router hint x c) eqn:E.
    + exists (pre ++ c :: post), []. split; [done|]. split; [|by intros y ?%elem_of_nil].
      assert (Hc : forall y, y ∈ c :: post -> better router hint x y = true).
      { intros y [->|Hy]%elem_of_cons; [done|]. by apply (better_trans x c y E), H2. }
      intros y [Hy|Hy]%elem_of_app; [|by apply Hc]. apply (better_trans x c y E). apply not_true_iff_false. rewrite better_above.
      specialize (H1 y Hy). rewrite better_above in H1. unfold above, rank in *. intuition (try lia; try congruence).
    + exists pre, (post ++ [x]). split; [by rewrite <-app_assoc|]. split; [done|]. intros y [Hy|Hy%list_elem_of_singleton]%elem_of_app; [by apply H2|by subst].
  - subst cs. exists [], []. split; [done|]. split; by intros ? ?%elem_of_nil.
Qed.

Lemma first_best_max cs c x : first_best cs c -> x ∈ cs -> better router hint x c = false.
Proof.
  intros (pre & post & -> & H1 & H2) [Hx|[->|Hx]%elem_of_cons]%elem_of_app; [|apply not_true_iff_false; rewrite better_above; unfold above, rank; intuition (try lia; congruence)|by apply H2].
  specialize (H1 x Hx). apply not_true_iff_false. rewrite better_above in *. unfold above, rank in *. intuition (try lia; try congruence).
Qed.
End Choice.

(** A declared segment fits a segment of the path: a literal is that text, a
    parameter any text but the empty one, a mixed segment what its expression
    matches, a server variable one of its values. *)
Inductive seg_fits : Seg -> string -> Prop :=
  | lit_fits l : seg_fits (Seg_Lit l) l
  | param_fits part : part <> "" -> seg_fits Seg_Param part
  | mixed_fits re part : regex_is_match re part = true -> seg_fits (Seg_Mixed re) part
  | choice_fits values part : part ∈ values -> seg_fits (Seg_Choice values) part.

Lemma seg_matches_fits seg part : seg_matches seg part = true <-> seg_fits seg part.
Proof.
  destruct seg as [l| |re|values]; cbn [seg_matches].
  - rewrite String.eqb_eq. split; [intros <-; constructor|by inversion 1].
  - destruct part as [|c part]; cbn; (split; [intros Hp; try done; by constructor|inversion 1; congruence]).
  - split; [by constructor|by inversion 1].
  - rewrite existsb_exists. split.
    + intros (v & Hv & <-%String.eqb_eq). constructor. by apply list_elem_of_In.
    + inversion 1; subst. exists part. split; [by apply list_elem_of_In|by apply String.eqb_eq].
Qed.

(** The segments of a base and a template fit those of a path, one by one. *)
Definition segs_match (segs : list Seg) (parts : list string) : Prop := Forall2 seg_fits segs parts.

Lemma all_match_prefix segs : forall parts, (List.length segs <= List.length parts)%nat -> all_match segs parts = true <-> segs_match segs (take (List.length segs) parts).
Proof.
  induction segs as [|seg segs IH]; intros parts Hl; [split; [constructor|done]|]. destruct parts as [|part parts]; [cbn in Hl; lia|].
  cbn [take List.length]. unfold all_match, segs_match. cbn. rewrite Forall2_cons, andb_true_iff, seg_matches_fits. by rewrite <-IH by (cbn in Hl; lia).
Qed.

(** A candidate for the segments after an unknown prefix of [k]: a declared
    base and a declared path that match them together. *)
Definition fits (router : Router) (segs : list string) (k : nat) (c : Candidate) : Prop :=
  exists b T, b ∈ rt_bases router /\ rt_templates router !! cd_template c = Some T /\ segs_match (ba_loose b ++ tp_segs T) (drop k segs) /\
    c = mkCandidate (tp_score T) (List.length (ba_loose b)) (cd_template c) (base_text (k + List.length (ba_loose b)) segs).

(** A declared base that is not empty, with declared values of its variables,
    after an unknown prefix of [k] segments. *)
Definition names_base (router : Router) (segs : list string) (k : nat) (base_ : string) : Prop :=
  exists b, b ∈ rt_bases router /\ ba_strict b <> [] /\ segs_match (ba_strict b) (take (List.length (ba_strict b)) (drop k segs)) /\
    base_ = "/" +:+ join "/" (take (k + List.length (ba_strict b)) segs).

Section Choose.
Variable router : Router.
Variable hint : option string.
Variable segs : list string.
Hypothesis Hlen : forall n, default [] (rt_by_len router !! n) = of_length n (index_from 0 (rt_templates router)).

Definition template_candidates (n : nat) (base_ : string) (rest : list string) : list Candidate :=
  omap (fun ti => T ← rt_templates router !! ti; if all_match (tp_segs T) rest then Some (mkCandidate (tp_score T) n ti base_) else None)
    (default [] (rt_by_len router !! List.length rest)).

Lemma consider_candidates n base_ rest best : consider router hint n base_ rest best = fold_left (consider_one router hint) (template_candidates n base_ rest) best.
Proof.
  unfold consider, template_candidates. generalize (default [] (rt_by_len router !! List.length rest)) as tis.
  intros tis. revert best. induction tis as [|ti tis IH]; intros best; cbn [fold_left omap list_omap]; [done|].
  rewrite IH. destruct (rt_templates router !! ti) as [T|]; cbn; [|done]. by destruct (all_match (tp_segs T) rest).
Qed.

Definition base_candidates (k : nat) (b : Base) : list Candidate :=
  let rest := drop k segs in let m := List.length (ba_loose b) in
  if (m <=? List.length rest)%nat && all_match (ba_loose b) rest then template_candidates m (base_text (k + m) segs) (drop (k + m) segs) else [].

Lemma prefix_candidates k : consider_prefix router hint segs k = fold_left (consider_one router hint) (concat (map (base_candidates k) (rt_bases router))) None.
Proof.
  unfold consider_prefix. generalize (@None Candidate). induction (rt_bases router) as [|b bases IH]; intros best; cbn [fold_left map concat]; [done|].
  rewrite IH, fold_left_app. f_equal. unfold base_candidates. destruct (_ && _); [|done]. apply consider_candidates.
Qed.

Lemma template_candidate n base_ rest c : c ∈ template_candidates n base_ rest <->
  exists T, rt_templates router !! cd_template c = Some T /\ segs_match (tp_segs T) rest /\ c = mkCandidate (tp_score T) n (cd_template c) base_.
Proof.
  unfold template_candidates. rewrite Hlen, list_elem_of_omap. split.
  - intros (ti & Hti & Hc). unfold of_length in Hti. apply list_elem_of_In, in_map_iff in Hti as ([i T] & <- & Hin). apply list_elem_of_In in Hin.
    apply list_elem_of_filter in Hin as [Hl Hin]. apply index_from_elem in Hin as [_ HT]. rewrite Nat.sub_0_r in HT. cbn [fst snd] in *. rewrite HT in Hc. cbn in Hc.
    destruct (all_match (tp_segs T) rest) eqn:E; [|done]. injection Hc as <-. cbn. exists T. split; [done|]. split; [|done].
    apply all_match_prefix in E; [|lia]. by rewrite Hl, firstn_all in E.
  - intros (T & HT & Hm & Hc). pose proof (Forall2_length _ _ _ Hm) as Hl. exists (cd_template c). split.
    + unfold of_length. apply list_elem_of_In, in_map_iff. exists (cd_template c, T). split; [done|]. apply list_elem_of_In, list_elem_of_filter.
      split; [done|]. apply index_from_elem. rewrite Nat.sub_0_r. split; [lia|done].
    + rewrite HT. cbn. assert (E : all_match (tp_segs T) rest = true) by (apply all_match_prefix; [lia|]; by rewrite Hl, firstn_all).
      by rewrite E, <-Hc.
Qed.

Lemma prefix_candidate k c : c ∈ concat (map (base_candidates k) (rt_bases router)) <-> fits router segs k c.
Proof.
  assert (Hin : c ∈ concat (map (base_candidates k) (rt_bases router)) <-> exists b, b ∈ rt_bases router /\ c ∈ base_candidates k b).
  { rewrite list_elem_of_In, in_concat. split.
    - intros (l & Hl & Hc). apply in_map_iff in Hl as (b & <- & Hb). exists b. split; by apply list_elem_of_In.
    - intros (b & Hb & Hc). apply list_elem_of_In in Hb, Hc. exists (base_candidates k b). split; [by apply in_map|done]. }
  rewrite Hin. clear Hin. unfold fits, base_candidates. split.
  - intros (b & Hb & Hc). destruct (_ && _) eqn:E; [|by apply elem_of_nil in Hc]. apply andb_true_iff in E as [E1%Nat.leb_le E2].
    apply all_match_prefix in E2; [|done]. apply template_candidate in Hc as (T & HT & Hm & Hc). exists b, T. split; [done|]. split; [done|].
    split; [|done]. rewrite <-(take_drop (List.length (ba_loose b)) (drop k segs)). apply Forall2_app; [done|]. by rewrite drop_drop.
  - intros (b & T & Hb & HT & Hm & Hc). exists b. split; [done|]. apply Forall2_app_inv_l in Hm as (l1 & l2 & M1 & M2 & Hd).
    pose proof (Forall2_length _ _ _ M1) as L1. assert (Hle : (List.length (ba_loose b) <= List.length (drop k segs))%nat) by (rewrite Hd, length_app; lia).
    rewrite (proj2 (Nat.leb_le _ _) Hle). cbn [andb]. assert (E : all_match (ba_loose b) (drop k segs) = true).
    { apply all_match_prefix; [done|]. by rewrite Hd, L1, take_app_length. }
    rewrite E. apply template_candidate. exists T. split; [done|]. split; [|done]. by rewrite <-drop_drop, Hd, L1, drop_app_length.
Qed.

Lemma first_prefix_spec {A} (f : nat -> option A) n : forall k, match first_prefix f k n with
  | Some x => exists j, (k <= j < k + n)%nat /\ f j = Some x /\ forall j', (k <= j' < j)%nat -> f j' = None
  | None => forall j, (k <= j < k + n)%nat -> f j = None
  end.
Proof.
  induction n as [|n IH]; intros k; cbn [first_prefix]; [intros; lia|]. destruct (f k) as [x|] eqn:E.
  - exists k. split; [lia|]. split; [done|]. intros; lia.
  - specialize (IH (S k)). destruct (first_prefix f (S k) n) as [x|].
    + destruct IH as (j & Hj & Hx & Hlt). exists j. split; [lia|]. split; [done|]. intros j' Hj'. destruct (decide (j' = k)) as [->|]; [done|]. apply Hlt. lia.
    + intros j Hj. destruct (decide (j = k)) as [->|]; [done|]. apply IH. lia.
Qed.

(** A shortest prefix with a candidate, and the best of its candidates. *)
Definition chosen (n : nat) (k : nat) (c : Candidate) : Prop :=
  (k < n)%nat /\ fits router segs k c /\ (forall c', fits router segs k c' -> better router hint c' c = false) /\ (forall k' c', (k' < k)%nat -> ~ fits router segs k' c').

Lemma first_prefix_chosen n : match first_prefix (consider_prefix router hint segs) 0 n with
  | Some c => exists k, chosen n k c
  | None => forall k c, (k < n)%nat -> ~ fits router segs k c
  end.
Proof.
  assert (Hnone : forall k c, consider_prefix router hint segs k = None -> ~ fits router segs k c).
  { intros k c Hc Hf. apply prefix_candidate in Hf. rewrite prefix_candidates in Hc. pose proof (consider_first_best router hint (concat (map (base_candidates k) (rt_bases router)))) as Hb.
    rewrite Hc in Hb. rewrite Hb in Hf. by apply elem_of_nil in Hf. }
  pose proof (first_prefix_spec (consider_prefix router hint segs) n 0) as Hs. destruct (first_prefix _ 0 n) as [c|].
  - destruct Hs as (k & Hk & Hc & Hlt). exists k. rewrite prefix_candidates in Hc.
    pose proof (consider_first_best router hint (concat (map (base_candidates k) (rt_bases router)))) as Hb. rewrite Hc in Hb.
    split; [lia|]. split; [apply prefix_candidate; destruct Hb as (pre & post & -> & _); apply elem_of_app; right; left|].
    split; [intros c' Hc'; apply prefix_candidate in Hc'; by apply (first_best_max router hint _ c c' Hb)|]. intros k' c' Hk'. apply Hnone, Hlt. lia.
  - intros k c Hk. apply Hnone, Hs. lia.
Qed.

Lemma undeclared_names k : match undeclared_base router segs k with
  | Some base_ => names_base router segs k base_
  | None => forall base_, ~ names_base router segs k base_
  end.
Proof.
  unfold undeclared_base, names_base. cbv zeta. set (p := fun b => negb (List.length b =? 0)%nat && (List.length b <=? List.length (drop k segs))%nat && all_match b (drop k segs)).
  assert (Hp : forall b, p b = true <-> b <> [] /\ segs_match b (take (List.length b) (drop k segs))).
  { intros b. unfold p. rewrite !andb_true_iff, negb_true_iff, Nat.eqb_neq, Nat.leb_le. split.
    - intros [[H1 H2] H3]. split; [by destruct b|by apply all_match_prefix].
    - intros [H1 H2]. assert (Hl : (List.length b <= List.length (drop k segs))%nat) by (apply Forall2_length in H2; rewrite length_take in H2; lia).
      split; [split; [by destruct b|done]|]. by apply all_match_prefix. }
  destruct (List.find p _) as [b|] eqn:E; cbn.
  - apply find_some in E as [Hin Hb]. apply in_map_iff in Hin as (b0 & <- & Hin). apply Hp in Hb as [Hb1 Hb2]. exists b0. rewrite list_elem_of_In. done.
  - intros base_ (b & Hin & H1 & H2 & _). apply (find_none _ _) with (x := ba_strict b) in E; [|apply in_map; by apply list_elem_of_In].
    assert (p (ba_strict b) = true) by by apply Hp. congruence.
Qed.
End Choose.

(** The first operation of a template with the method. *)
Definition first_op (router : Router) (ops : list nat) (method : string) (op : nat) : Prop :=
  exists pre post, ops = pre ++ op :: post /\ method_of router op = method /\ forall o, o ∈ pre -> method_of router o <> method.

Definition no_op (router : Router) (ops : list nat) (method : string) : Prop := forall o, o ∈ ops -> method_of router o <> method.

Lemma find_first router ops method : match List.find (fun o => String.eqb (method_of router o) method) ops with
  | Some op => first_op router ops method op
  | None => no_op router ops method
  end.
Proof.
  unfold first_op, no_op. induction ops as [|o ops IH]; cbn [List.find]; [by intros o ?%elem_of_nil|]. destruct (String.eqb_spec (method_of router o) method) as [E|E].
  - exists [], ops. split; [done|]. split; [done|]. by intros x ?%elem_of_nil.
  - destruct (List.find _ ops) as [op|].
    + destruct IH as (pre & post & -> & H1 & H2). exists (o :: pre), post. split; [done|]. split; [done|]. intros x [->|Hx]%elem_of_cons; [done|by apply H2].
    + intros x [->|Hx]%elem_of_cons; [done|by apply IH].
Qed.

(** ** What a fit is, and which fit is better *)

(** A fixed segment, a literal or a server variable, counts twice what a mixed
    one counts, a parameter nothing. *)
Inductive specificity : list Seg -> Z -> Prop :=
  | specificity_none : specificity [] 0
  | specificity_lit l segs n : specificity segs n -> specificity (Seg_Lit l :: segs) (2 + n)
  | specificity_choice values segs n : specificity segs n -> specificity (Seg_Choice values :: segs) (2 + n)
  | specificity_mixed re segs n : specificity segs n -> specificity (Seg_Mixed re :: segs) (1 + n)
  | specificity_param segs n : specificity segs n -> specificity (Seg_Param :: segs) n.

Lemma specificity_sum segs n : specificity segs n <-> n = foldr Z.add 0 (map seg_score segs).
Proof.
  split.
  - induction 1; cbn in *; lia.
  - intros ->. induction segs as [|[l| |re|v] segs IH]; cbn -[Z.add]; [constructor|by constructor| |by constructor|by constructor].
    rewrite Z.add_0_l. by constructor.
Qed.

(** A declared base and a declared path that fit the segments after an unknown
    prefix of [k]. *)
Definition fits_after (router : Router) (segs : list string) (k : nat) (b : Base) (T : Template) : Prop :=
  b ∈ rt_bases router /\ T ∈ rt_templates router /\ segs_match (ba_loose b ++ parse_segments (tp_path T)) (drop k segs).

(** The hint names an operation of the path. *)
Definition named (router : Router) (hint : option string) (T : Template) : Prop :=
  exists h o, hint = Some h /\ o ∈ tp_ops T /\ key_of router o = strip_dup h.

(** A pair is better than another: its path is more specific, or as specific
    after a longer base, or the same in both and only it is named by the hint. *)
Definition outranks (router : Router) (hint : option string) (b : Base) (T : Template) (b' : Base) (T' : Template) : Prop :=
  exists n n', specificity (parse_segments (tp_path T)) n /\ specificity (parse_segments (tp_path T')) n' /\
    (n' < n \/ n = n' /\ (List.length (ba_loose b') < List.length (ba_loose b))%nat \/
     n = n' /\ List.length (ba_loose b) = List.length (ba_loose b') /\ named router hint T /\ ~ named router hint T').

(** The path and base of a best fit after a shortest unknown prefix of fewer
    than [n] segments; [base_] is the text of that prefix and the base. *)
Definition best_fit (router : Router) (hint : option string) (segs : list string) (n : nat) (T : Template) (base_ : string) : Prop :=
  exists k b, (k < n)%nat /\ fits_after router segs k b T /\
    (forall b' T', fits_after router segs k b' T' -> ~ outranks router hint b' T' b T) /\
    (forall k' b' T', (k' < k)%nat -> ~ fits_after router segs k' b' T') /\
    (let m := (k + List.length (ba_loose b))%nat in m = 0%nat /\ base_ = "" \/ m <> 0%nat /\ base_ = "/" +:+ join "/" (take m segs)).

Section Fits.
Variable router : Router.
Variable hint : option string.
Variable segs : list string.
Hypothesis Hnew : forall t T, rt_templates router !! t = Some T -> exists ops, T = Template_new (tp_path T) ops.

Lemma template_score t T : rt_templates router !! t = Some T ->
  tp_segs T = parse_segments (tp_path T) /\ specificity (parse_segments (tp_path T)) (tp_score T).
Proof. intros (ops & HT)%Hnew. rewrite HT. split; [done|]. by apply specificity_sum. Qed.

Lemma fit_candidate k b T : fits_after router segs k b T -> exists t, rt_templates router !! t = Some T /\
  fits router segs k (mkCandidate (tp_score T) (List.length (ba_loose b)) t (base_text (k + List.length (ba_loose b)) segs)).
Proof.
  intros (Hb & (t & HT)%list_elem_of_lookup & Hf). exists t. split; [done|]. exists b, T. destruct (template_score t T HT) as [-> _].
  do 2 (split; [done|]). split; [done|done].
Qed.

Lemma candidate_fit k c : fits router segs k c -> exists b T, fits_after router segs k b T /\ rt_templates router !! cd_template c = Some T /\
  cd_score c = tp_score T /\ cd_base_len c = List.length (ba_loose b) /\ cd_base c = base_text (k + List.length (ba_loose b)) segs.
Proof.
  intros (b & T & Hb & HT & Hf & E). exists b, T. split; [|by rewrite E].
  split; [done|]. split; [apply list_elem_of_lookup; eauto|]. by rewrite <-(proj1 (template_score _ T HT)).
Qed.

Lemma hinted_named t T : rt_templates router !! t = Some T -> hinted router hint t = true <-> named router hint T.
Proof.
  intros HT. unfold hinted, named. destruct hint as [h|]; [|split; [done|by intros (? & ? & ? & _)]]. rewrite HT. cbn [from_option].
  rewrite existsb_exists. split.
  - intros (o & Ho & E%String.eqb_eq). exists h, o. rewrite list_elem_of_In. done.
  - intros (h' & o & [= <-] & Ho & E). exists o. split; [by apply list_elem_of_In|by apply String.eqb_eq].
Qed.

Lemma chosen_best n k c : chosen router hint segs n k c -> exists T, rt_templates router !! cd_template c = Some T /\ best_fit router hint segs n T (cd_base c).
Proof.
  intros (Hk & Hf & Hbest & Hmin). destruct (candidate_fit k c Hf) as (b & T & Hft & HT & Es & El & Eb). exists T. split; [done|].
  exists k, b. do 2 (split; [done|]). split; [|split].
  - intros b' T' Hf' (n' & n0 & S' & S0 & Hout). destruct (fit_candidate k b' T' Hf') as (t' & HT' & Hc').
    apply Hbest in Hc'. apply not_true_iff_false in Hc'. apply Hc'. apply better_above. unfold rank, above. cbn.
    destruct (template_score _ T HT) as [_ ST], (template_score _ T' HT') as [_ ST']. apply specificity_sum in S', S0, ST, ST'.
    rewrite Es, El. assert (n' = tp_score T') as -> by congruence. assert (n0 = tp_score T) as -> by congruence.
    destruct Hout as [Hout|[[Hs Hl]|(Hs & Hl & Hn & Hn')]]; [by left|right; split; [by symmetry|by left]|].
    right. split; [by symmetry|]. right. split; [by symmetry|]. split; [by apply (hinted_named t' T')|].
    apply not_true_iff_false. by rewrite (hinted_named _ T HT).
  - intros k' b' T' Hk' Hf'. destruct (fit_candidate k' b' T' Hf') as (t' & _ & Hc'). by apply (Hmin k' _ Hk' Hc').
  - rewrite Eb. cbv zeta. unfold base_text. destruct (Nat.eqb_spec (k + List.length (ba_loose b)) 0); [by left|by right].
Qed.

Lemma none_fits n : (forall k c, (k < n)%nat -> ~ fits router segs k c) -> forall k b T, (k < n)%nat -> ~ fits_after router segs k b T.
Proof. intros Hno k b T Hk Hf. destruct (fit_candidate k b T Hf) as (t & _ & Hc). by apply (Hno k _ Hk Hc). Qed.
End Fits.

(** C10: an observed request is routed to a declared path that, after a
    declared base, fits all its segments behind a shortest unknown prefix of at
    most three, and no other such pair is better: of a more specific path, then
    of a longer base, then named by the hint; to the first operation of that
    path with the method, a HEAD without one to its GET, and to the path alone
    when it has neither; and to no path only when none fits, with the base that
    declared values name, if any does. *)
Theorem route_best dialect root s method url hint : let router := (Router_new dialect root s).1 in
  let segs := map percent_decode_path (path_segments (split_url url).2) in let method' := to_ascii_lowercase method in
  let n := S (Nat.min 3 (List.length segs - 1)) in
  match route router method url hint with
  | Route_Operation op template base_ => exists T, best_fit router hint segs n T base_ /\ template = tp_path T /\
      (first_op router (tp_ops T) method' op \/ method' = "head" /\ no_op router (tp_ops T) "head" /\ first_op router (tp_ops T) "get" op)
  | Route_Method template base_ => exists T, best_fit router hint segs n T base_ /\ template = tp_path T /\
      no_op router (tp_ops T) method' /\ (method' = "head" -> no_op router (tp_ops T) "get")
  | Route_Path base_ => (forall k b T, (k < n)%nat -> ~ fits_after router segs k b T) /\
      ((exists k, (k <= Nat.min 3 (List.length segs))%nat /\ names_base router segs k base_ /\ forall k' base', (k' < k)%nat -> ~ names_base router segs k' base') \/
       base_ = "" /\ forall k base', (k <= Nat.min 3 (List.length segs))%nat -> ~ names_base router segs k base')
  end.
Proof.
  intros router segs method' n. destruct (router_of_ok dialect root (rp_items (read_paths dialect root s)) (rp_paths (read_paths dialect root s))) as [[Hok Hlen] _].
  change (router_of _ _ _ _) with router in Hok, Hlen. unfold route. cbv zeta. fold segs. fold method'. fold n.
  pose proof (first_prefix_chosen router hint segs Hlen n) as Hc.
  assert (Hnew : forall t T, rt_templates router !! t = Some T -> exists ops, T = Template_new (tp_path T) ops) by (intros t T HT; eexists; by apply (tk_new _ _ _ _ Hok t)).
  destruct (first_prefix _ 0 n) as [c|].
  - destruct Hc as (k & Hc). destruct (chosen_best router hint segs Hnew n k c Hc) as (T & HT & Hbest). rewrite HT.
    pose proof (find_first router (tp_ops T) method') as F1. pose proof (find_first router (tp_ops T) "get") as F2.
    destruct (List.find (fun o => String.eqb (method_of router o) method') (tp_ops T)) as [op|].
    + exists T. do 2 (split; [done|]). by left.
    + destruct (String.eqb_spec method' "head") as [Eh|Eh].
      * destruct (List.find _ (tp_ops T)) as [op|]; exists T; do 2 (split; [done|]); [right; split; [done|]; split; [by rewrite <-Eh|done]|by split].
      * exists T. do 2 (split; [done|]). by split.
  - split; [by apply none_fits|]. pose proof (first_prefix_spec (undeclared_base router segs) (S (Nat.min 3 (List.length segs))) 0) as Hu.
    destruct (first_prefix (undeclared_base router segs) 0 _) as [base_|]; cbn [default].
    + left. destruct Hu as (k & Hk & Hb & Hlt). exists k. split; [lia|]. pose proof (undeclared_names router segs k) as H1. rewrite Hb in H1. split; [done|].
      intros k' base' Hk'. pose proof (undeclared_names router segs k') as H2. rewrite Hlt in H2 by lia. apply H2.
    + right. split; [done|]. intros k base' Hk. pose proof (undeclared_names router segs k) as H2. rewrite Hu in H2 by lia. apply H2.
Qed.
End Routing.

(** * A description *)

(** The expressions the router builds: escaped characters, [[^/]+] and
    [[^/.:]+]; a character that is not plain is escaped. *)
Fixpoint demo_escape (s : string) : string :=
  match s with
  | "" => ""
  | String c s' => (if contains_any [46; 43; 42; 63; 40; 41; 124; 91; 93; 123; 125; 94; 36; 92; 35; 38; 45; 126] (byte_of_ascii c) then "\" else "") +:+ String c (demo_escape s')
  end.

Fixpoint demo_match (fuel : nat) (re s : string) : bool :=
  match fuel with
  | O => false
  | S fuel' =>
      let some_of (stops : list Z) (re' : string) :=
        match s with
        | String c s' => negb (contains_any stops (byte_of_ascii c)) && (demo_match fuel' re' s' || demo_match fuel' re s')
        | "" => false
        end in
      match str_strip_prefix "[^/]+" re, str_strip_prefix "[^/.:]+" re with
      | Some re', _ => some_of [47] re'
      | None, Some re' => some_of [47; 46; 58] re'
      | None, None =>
          match re, s with
          | "$", "" => true
          | String "\" (String c re'), String d s' => Ascii.eqb c d && demo_match fuel' re' s'
          | String c re', String d s' => Ascii.eqb c d && demo_match fuel' re' s'
          | _, _ => false
          end
      end
  end.

Definition demo_regexes : Regexes := {|
  regex_escape := demo_escape;
  regex_compiles := fun _ => true;
  regex_is_match := fun re s => match str_strip_prefix "^" re with Some re' => demo_match (1 + 2 * String.length re + 2 * String.length s) re' s | None => false end;
|}.

Definition demo_op (id : string) : Value := JObject [("operationId", JString id)].

Definition demo_document : Value := JObject [
  ("openapi", JString "3.1.0");
  ("servers", JArray [JObject [("url", JString "https://api.example/v1")];
    JObject [("url", JString "https://{region}.example/{base}");
      ("variables", JObject [("region", JObject [("default", JString "eu")]); ("base", JObject [("default", JString "v2")])])]]);
  ("paths", JObject [
    ("/pets", JObject [("get", demo_op "listPets"); ("post", JObject [])]);
    ("/pets/{id}", JObject [("get", demo_op "getPet"); ("delete", JObject [])]);
    ("/pets/mine", JObject [("$ref", JString "#/x/Mine")]);
    ("/files/{name}.json", JObject [("get", JObject [])]);
    ("/declared-only", JObject []);
    ("x-note", JString "none")]);
  ("x", JObject [("Mine", JObject [("get", demo_op "myPets")])])].

Definition demo_router : Router := (@Router_new demo_regexes OpenApi31 demo_document SpecState_new).1.

Definition demo_routed (method url : string) : string :=
  match @route demo_regexes demo_router method url None with
  | Route_Operation op _ base_ => key_of demo_router op +:+ " @" +:+ base_
  | Route_Method template base_ => "method " +:+ template +:+ " @" +:+ base_
  | Route_Path base_ => "path @" +:+ base_
  end.

Example demo_routes : map (fun mu => demo_routed mu.1 mu.2)
  [("GET", "https://api.example/v1/pets?limit=3"); ("GET", "https://api.example/v1/pets/42"); ("GET", "https://api.example/v1/pets/mine");
   ("GET", "https://eu.example/v2/pets/7"); ("POST", "http://localhost:8080/pets"); ("GET", "https://api.example/v1/files/report.json");
   ("HEAD", "https://api.example/v1/pets"); ("PATCH", "https://api.example/v1/pets/1"); ("GET", "https://api.example/v1/owners/1");
   ("GET", "https://gw.example/a/b/c/v1/pets/9"); ("GET", "https://eu.example/v2/owners/1"); ("GET", "https://eu.example/owners/1")] =
  ["listPets @/v1"; "getPet @/v1"; "myPets @/v1"; "getPet @/v2"; "POST /pets @"; "GET /files/{name}.json @/v1";
   "listPets @/v1"; "method /pets/{id} @/v1"; "path @/v1"; "getPet @/a/b/c/v1"; "path @/v2"; "path @"].
Proof. vm_compute. reflexivity. Qed.

Example demo_declared : (origin_declared (H:=demo_regexes) demo_router "https://us.example", origin_declared (H:=demo_regexes) demo_router "https://staging.api.example",
  base_declared (H:=demo_regexes) demo_router "/v2", base_declared (H:=demo_regexes) demo_router "/owners", methods_of demo_router "/pets") =
  (Some true, Some false, true, false, ["GET"; "POST"]).
Proof. vm_compute. reflexivity. Qed.

(** The values declared at the first server of a base are not limited. *)
Example demo_choices : let many := map (fun i => JString (pretty i)) (seq 0 70) in
  map (fun b => match ba_strict b with [Seg_Choice values] => List.length values | _ => 0%nat end)
    (read_bases (H:=demo_regexes) [("https://h.example/{v}", Some (JObject [("v", JObject [("enum", JArray many)])]))]).1 = [0; 70]%nat.
Proof. vm_compute. reflexivity. Qed.

Lemma read_paths_exact_witness : wf_value demo_document /\
  (let read := read_paths OpenApi31 demo_document (reach_all demo_document [] SpecState_new).2 in
   List.length (rp_items read) = 5%nat /\ NoDup (map pi_pointer (rp_items read))).
Proof.
  assert (Hwf : wf_value demo_document) by (vm_compute; reflexivity). split; [exact Hwf|]. cbv zeta.
  destruct (read_paths_exact OpenApi31 demo_document [] Hwf) as (_ & H & _). split; [vm_compute; reflexivity|exact H].
Defined.

Definition demo_mine : string := "https://api.example/v1/pets/mine".

(** The other path that fits: [/pets/{id}], after the base [/v1]. *)
Lemma demo_id_fits : exists b T, @fits_after demo_regexes demo_router ["v1"; "pets"; "mine"] 0 b T /\ tp_path T = "/pets/{id}".
Proof.
  exists (mkBase [Seg_Lit "v1"] [Seg_Lit "v1"]), (@Template_new demo_regexes "/pets/{id}" [2%nat; 3%nat]). split; [|reflexivity].
  split; [apply (list_elem_of_lookup_2 _ 1%nat); vm_compute; reflexivity|].
  split; [apply (list_elem_of_lookup_2 _ 1%nat); vm_compute; reflexivity|].
  change (drop 0 _) with ["v1"; "pets"; "mine"]. change (parse_segments _) with [Seg_Lit "pets"; Seg_Param].
  repeat constructor. discriminate.
Qed.

(** The literal path is the best of the two. *)
Lemma route_best_witness :
  (exists T, @best_fit demo_regexes demo_router None ["v1"; "pets"; "mine"] 3 T "/v1" /\ tp_path T = "/pets/mine") /\
  exists b T, @fits_after demo_regexes demo_router ["v1"; "pets"; "mine"] 0 b T /\ tp_path T = "/pets/{id}".
Proof.
  split; [|apply demo_id_fits].
  pose proof (@route_best demo_regexes OpenApi31 demo_document SpecState_new "GET" demo_mine None) as H. cbv zeta in H.
  set (router := (@Router_new demo_regexes OpenApi31 demo_document SpecState_new).1) in H.
  assert (Er : router = demo_router) by reflexivity. clearbody router. subst router.
  assert (E : exists op, @route demo_regexes demo_router "GET" demo_mine None = Route_Operation op "/pets/mine" "/v1") by (eexists; vm_compute; reflexivity).
  destruct E as (op & E). rewrite E in H. destruct H as (T & Hb & HT & _).
  change (map percent_decode_path (path_segments (split_url demo_mine).2)) with ["v1"; "pets"; "mine"] in Hb.
  exists T. split; [exact Hb|symmetry; exact HT].
Defined.
