(* ===== verification/Operations.v ===== *)
(** The views of an operation of an API description
    (crates/anvil-contract/src/model.rs): its parameters, request body and
    responses, resolved, every reference followed and every copy charged to a
    meter first; the types of a schema.

    The operation is one the router of Route.v lists. Resolutions share the
    cache of Refs.v; a view changes it and the meter and nothing else. *)
From Stdlib Require Import ZArith Lia Ascii String.
From stdpp Require Import base numbers strings pretty option list gmap.
From S2P Require Import Prelude Text Bytes Json Infer Patch Refs Route.
Open Scope string_scope.
Open Scope list_scope.
Open Scope Z_scope.
Open Scope record_scope.

Definition ENTRY_BYTES : Z := 64.

Record OperationRef := mkOperationRef {
  or_method : string;
  or_path : string;
  or_pointer : string;
  or_op : Value;
  or_item : Value;
  or_item_pointer : string;
}.

(** [OperationRef::label] and [operation_id]. *)
Definition op_label (o : OperationRef) : string := to_ascii_uppercase (or_method o) +:+ " " +:+ or_path o.
Definition operation_id (o : OperationRef) : option string := x ← get "operationId" (or_op o); as_str x.

(** [Router::operation], of a listed index. *)
Definition operation (router : Router) (i : nat) : option OperationRef :=
  '(item, e, (method, pointer, op)) ← operation_of router i;
  Some (mkOperationRef method (en_path e) pointer op (pi_value item) (pi_pointer item)).

Record Param := mkParam { pm_name : string; pm_location : string; pm_value : Value; pm_pointer : string }.

Record Media := mkMedia {
  md_media_type : string;
  md_pointer : string;
  md_object : option Value;
  md_schema : option Value;
  md_schema_pointer : string;
}.

Record RequestBody := mkRequestBody { rb_pointer : string; rb_value : Value; rb_required : bool; rb_media : list Media }.

Record Response := mkResponse { rs_code : string; rs_pointer : string; rs_value : Value; rs_media : list Media }.

Definition get_str (key : string) (v : Value) : option string := x ← get key v; as_str x.
Definition opt_bool (v : Value) (key : string) : bool := match get key v with Some (JBool b) => b | _ => false end.

(** * Names *)

(** Names inside braces in a path template; each turn removes a brace at
    least. *)
Fixpoint template_names (fuel : nat) (rest : string) : list string :=
  match fuel with
  | O => []
  | S fuel' =>
      match split_once "{" rest with
      | Some (_, after) => match split_once "}" after with Some (name, after) => name :: template_names fuel' after | None => [] end
      | None => []
      end
  end.

(** [template_params]. *)
Definition template_params (path : string) : list string := template_names (S (String.length path)) path.

Definition list_of_strings (v : option Value) : option (list string) :=
  option_map (omap as_str) (x ← v; as_array x).

(** [schema_types]: the first type that is not null, every one, and whether
    null is allowed. *)
Definition schema_types (schema : Value) : option string * list string * bool :=
  let types := match get "type" schema with
    | Some (JString s) => [s]
    | Some (JArray a) => omap as_str a
    | _ => []
    end in
  let nullable := opt_bool schema "nullable" || opt_bool schema "x-nullable" || existsb (String.eqb "null") types in
  let types := List.filter (fun t => negb (String.eqb t "null")) types in
  (head types, types, nullable).

(** [extensions]. *)
Definition extensions (v : Value) : Object := match v with JObject o => List.filter (fun kx => starts_with kx.1 "x-") o | _ => [] end.

(** * Views

    A view passes its meter and the resolutions on. *)
Section Views.
Variable dialect : Dialect.
Variable root : Value.

Definition is_swagger2 : bool := match dialect with Swagger20 => true | _ => false end.

(** [security_schemes] and [component_schemas]. *)
Definition object_at (pointer : string) : option (Object * string) :=
  match value_pointer root pointer with Some (JObject m) => Some (m, pointer) | _ => None end.

Definition security_schemes : option (Object * string) :=
  object_at (if is_swagger2 then "/securityDefinitions" else "/components/securitySchemes").
Definition component_schemas : option (Object * string) :=
  object_at (if is_swagger2 then "/definitions" else "/components/schemas").

(** What a view threads: the meter and the resolutions. *)
Definition Work : Type := Meter * SpecState.

Definition exhausted (w : Work) : bool := mt_exhausted w.1.

Definition charge_work (bytes : Z) (w : Work) : bool * Work := let '(ok, m) := charge bytes w.1 in (ok, (m, w.2)).

Definition resolve_work (v : Value) (at_ : string) (w : Work) : option (Value * string) * Work :=
  let '(x, m, s) := resolve_within root v at_ w.1 w.2 in (x, (m, s)).

(** The loop of a view: it ends once the meter is exhausted, an entry may give
    nothing, and it is left when [one] says so. *)
Fixpoint each {A B} (one : nat -> A -> Work -> option B * bool * Work) (i : nat) (l : list A) (w : Work) : list B * Work :=
  match l with
  | [] => ([], w)
  | x :: l' =>
      if exhausted w then ([], w)
      else
        let '(y, go_on, w) := one i x w in
        let '(ys, w) := if go_on then each one (S i) l' w else ([], w) in
        (from_option (fun y => [y]) [] y ++ ys, w)
  end.

(** One parameter of the list at [base_]. *)
Definition one_parameter (base_ : string) (i : nat) (raw : Value) (w : Work) : option Param * bool * Work :=
  let '(x, w) := resolve_work raw (ptr base_ (pretty i)) w in
  match x with
  | None => (None, true, w)
  | Some (p, pointer) =>
      let name := default "" (get_str "name" p) in
      let location := default "" (get_str "in" p) in
      let '(ok, w) := charge_work (ENTRY_BYTES + 2 * (str_len name + str_len location)) w in
      if ok then (Some (mkParam name location p pointer), true, w) else (None, false, w)
  end.

(** One list of [parameter_lists]; whether the other is read too. *)
Definition parameter_list (owner : Value) (pointer : string) (w : Work) : list Param * bool * Work :=
  match (x ← get "parameters" owner; as_array x) with
  | None => ([], true, w)
  | Some list_ =>
      let '(ok, w) := charge_work (str_len pointer + 11) w in
      if ok then let '(ps, w) := each (one_parameter (ptr pointer "parameters")) 0 list_ w in (ps, true, w) else ([], false, w)
  end.

(** [parameter_lists]. *)
Definition parameter_lists (op : OperationRef) (w : Work) : list Param * list Param * Work :=
  let '(of_item, go_on, w) := parameter_list (or_item op) (or_item_pointer op) w in
  if go_on then let '(of_op, _, w) := parameter_list (or_op op) (or_pointer op) w in (of_item, of_op, w)
  else (of_item, [], w).

(** The state of [merge_parameters]: the entries, a replaced one empty, and
    where each name and location is. *)
Definition merge_parameter (acc : list (option Param) * gmap (string * string) nat) (p : Param) : list (option Param) * gmap (string * string) nat :=
  let '(out, index) := acc in
  let key := (pm_name p, pm_location p) in
  let out' := match index !! key with Some prev => <[prev := None]> out | None => out end in
  (out' ++ [Some p], <[key := List.length out]> index).

(** [merge_parameters]. *)
Definition merge_parameters (lists : list Param * list Param) : list Param := omap id (fold_left merge_parameter (lists.1 ++ lists.2) ([], ∅)).1.

(** [parameters]. *)
Definition parameters (op : OperationRef) (w : Work) : list Param * Work :=
  let '(of_item, of_op, w) := parameter_lists op w in (merge_parameters (of_item, of_op), w).

(** [swagger_media] and [swagger_media_within]. *)
Definition swagger_media (op : Value) (field : string) : option (list string) :=
  match list_of_strings (get field op) with Some l => Some l | None => list_of_strings (get field root) end.

Definition one_type (_ : nat) (v : Value) (w : Work) : option string * bool * Work :=
  let '(ok, w) := charge_work (ENTRY_BYTES + from_option str_len 0 (as_str v)) w in
  if ok then (as_str v, true, w) else (None, false, w).

(** The loop has no test of the meter of its own, and needs none: once it is
    exhausted the next charge is refused. *)
Definition swagger_media_within (op : Value) (field default_ : string) (w : Work) : list string * Work :=
  match (match (x ← get field op; as_array x) with Some l => Some l | None => x ← get field root; as_array x end) with
  | None => ([default_], w)
  | Some list_ => each one_type 0 list_ w
  end.

(** [swagger_types]. *)
Definition one_swagger_type (pointer : string) (object schema : option Value) (_ : nat) (media_type : string) (w : Work) : option Media * bool * Work :=
  let '(ok, w) := charge_work (ENTRY_BYTES + str_len media_type + 2 * str_len pointer + 7) w in
  if ok then (Some (mkMedia media_type pointer object schema (if object then ptr pointer "schema" else "")), true, w) else (None, false, w).

Definition swagger_types (types : list string) (pointer : string) (object schema : option Value) (w : Work) : list Media * Work :=
  each (one_swagger_type pointer object schema) 0 types w.

(** [content_media]. *)
Definition one_content (cptr : string) (_ : nat) (member : string * Value) (w : Work) : option Media * bool * Work :=
  let '(mt, obj) := member in
  let '(x, w) := resolve_work obj (ptr cptr mt) w in
  match x with
  | None => (None, true, w)
  | Some (obj, mptr) =>
      let '(ok, w) := charge_work (ENTRY_BYTES + str_len mt + str_len mptr + 7) w in
      if ok then (Some (mkMedia mt mptr (Some obj) (get "schema" obj) (ptr mptr "schema")), true, w) else (None, false, w)
  end.

Definition content_media (owner : Value) (owner_ptr : string) (w : Work) : list Media * Work :=
  match get "content" owner with
  | Some (JObject content) =>
      let '(ok, w) := charge_work (str_len owner_ptr + 8) w in
      if ok then each (one_content (ptr owner_ptr "content")) 0 content w else ([], w)
  | _ => ([], w)
  end.

(** A Swagger 2.0 body: the body parameter's, or the form's. *)
Definition swagger_body (op : OperationRef) (default_ : string) (p : Param) (object schema : option Value) (required : bool) (w : Work) : option RequestBody * Work :=
  let '(types, w) := swagger_media_within (or_op op) "consumes" default_ w in
  let '(ok, w) := charge_work (ENTRY_BYTES + str_len (pm_pointer p)) w in
  if ok then
    let '(media, w) := swagger_types types (pm_pointer p) object schema w in
    (Some (mkRequestBody (pm_pointer p) (pm_value p) required media), w)
  else (None, w).

(** [body_of]. *)
Definition body_of (op : OperationRef) (params : list Param) (w : Work) : option RequestBody * Work :=
  if is_swagger2 then
    match List.find (fun p => String.eqb (pm_location p) "body") params with
    | Some body => swagger_body op "application/json" body (Some (pm_value body)) (get "schema" (pm_value body)) (opt_bool (pm_value body) "required") w
    | None =>
        let form := List.filter (fun p => String.eqb (pm_location p) "formData") params in
        match form with
        | [] => (None, w)
        | first :: _ =>
            let has_file := existsb (fun p => bool_decide (get_str "type" (pm_value p) = Some "file")) form in
            swagger_body op (if has_file then "multipart/form-data" else "application/x-www-form-urlencoded") first None None
              (existsb (fun p => opt_bool (pm_value p) "required") form) w
        end
    end
  else
    match get "requestBody" (or_op op) with
    | None => (None, w)
    | Some raw =>
        let '(x, w) := resolve_work raw (ptr (or_pointer op) "requestBody") w in
        match x with
        | None => (None, w)
        | Some (value, pointer) =>
            let '(media, w) := content_media value pointer w in
            (Some (mkRequestBody pointer value (opt_bool value "required") media), w)
        end
    end.

(** [request_body]. *)
Definition request_body (op : OperationRef) (w : Work) : option RequestBody * Work :=
  let '(params, w) := if is_swagger2 then parameters op w else ([], w) in body_of op params w.

(** One response of the map at [base_]. *)
Definition one_response (base_ : string) (produces : list string) (_ : nat) (member : string * Value) (w : Work) : option Response * bool * Work :=
  let '(code, raw) := member in
  if starts_with code "x-" then (None, true, w)
  else
    let '(x, w) := resolve_work raw (ptr base_ code) w in
    match x with
    | None => (None, true, w)
    | Some (value, pointer) =>
        let '(ok, w) := charge_work (ENTRY_BYTES + str_len code) w in
        if ok then
          let '(media, w) :=
            if negb is_swagger2 then content_media value pointer w
            else match get "schema" value with
                 | Some schema => swagger_types produces pointer (Some value) (Some schema) w
                 | None => ([], w)
                 end in
          (Some (mkResponse code pointer value media), true, w)
        else (None, false, w)
    end.

(** [responses]. *)
Definition responses (op : OperationRef) (w : Work) : list Response * Work :=
  match get "responses" (or_op op) with
  | Some (JObject map_) =>
      let '(ok, w) := charge_work (str_len (or_pointer op) + 10) w in
      if ok then
        let '(produces, w) := if is_swagger2 then swagger_media_within (or_op op) "produces" "application/json" w else ([], w) in
        each (one_response (ptr (or_pointer op) "responses") produces) 0 map_ w
      else ([], w)
  | _ => ([], w)
  end.
End Views.

(** * The same views without a meter, every reference followed anew *)

Section Plain.
Variable dialect : Dialect.
Variable root : Value.

Fixpoint plain_each {A B} (f : nat -> A -> option B) (i : nat) (l : list A) : list B :=
  match l with [] => [] | x :: l' => from_option (fun y => [y]) [] (f i x) ++ plain_each f (S i) l' end.

Definition plain_parameter (base_ : string) (i : nat) (raw : Value) : option Param :=
  option_map (fun vp => mkParam (default "" (get_str "name" vp.1)) (default "" (get_str "in" vp.1)) vp.1 vp.2) (plain_resolve root raw (ptr base_ (pretty i))).

Definition plain_parameter_list (owner : Value) (pointer : string) : list Param :=
  match (x ← get "parameters" owner; as_array x) with Some l => plain_each (plain_parameter (ptr pointer "parameters")) 0 l | None => [] end.

Definition same_parameter (p q : Param) : bool := String.eqb (pm_name p) (pm_name q) && String.eqb (pm_location p) (pm_location q).

(** Of the entries with one name and location the last stays, where it is. *)
Fixpoint last_wins (l : list Param) : list Param :=
  match l with [] => [] | p :: l' => if existsb (same_parameter p) l' then last_wins l' else p :: last_wins l' end.

Definition plain_parameters (op : OperationRef) : list Param :=
  last_wins (plain_parameter_list (or_item op) (or_item_pointer op) ++ plain_parameter_list (or_op op) (or_pointer op)).

Definition plain_swagger_types (types : list string) (pointer : string) (object schema : option Value) : list Media :=
  map (fun mt => mkMedia mt pointer object schema (if object then ptr pointer "schema" else "")) types.

Definition plain_content_media (owner : Value) (owner_ptr : string) : list Media :=
  match get "content" owner with
  | Some (JObject content) =>
      omap (fun m => option_map (fun vp => mkMedia m.1 vp.2 (Some vp.1) (get "schema" vp.1) (ptr vp.2 "schema"))
        (plain_resolve root m.2 (ptr (ptr owner_ptr "content") m.1))) content
  | _ => []
  end.

Definition plain_swagger_body (op : OperationRef) (default_ : string) (p : Param) (object schema : option Value) (required : bool) : RequestBody :=
  mkRequestBody (pm_pointer p) (pm_value p) required
    (plain_swagger_types (default [default_] (swagger_media root (or_op op) "consumes")) (pm_pointer p) object schema).

Definition plain_body_of (op : OperationRef) (params : list Param) : option RequestBody :=
  if is_swagger2 dialect then
    match List.find (fun p => String.eqb (pm_location p) "body") params with
    | Some body => Some (plain_swagger_body op "application/json" body (Some (pm_value body)) (get "schema" (pm_value body)) (opt_bool (pm_value body) "required"))
    | None =>
        let form := List.filter (fun p => String.eqb (pm_location p) "formData") params in
        option_map (fun first =>
          plain_swagger_body op
            (if existsb (fun p => bool_decide (get_str "type" (pm_value p) = Some "file")) form then "multipart/form-data" else "application/x-www-form-urlencoded")
            first None None (existsb (fun p => opt_bool (pm_value p) "required") form)) (head form)
    end
  else
    raw ← get "requestBody" (or_op op);
    option_map (fun vp => mkRequestBody vp.2 vp.1 (opt_bool vp.1 "required") (plain_content_media vp.1 vp.2))
      (plain_resolve root raw (ptr (or_pointer op) "requestBody")).

Definition plain_request_body (op : OperationRef) : option RequestBody := plain_body_of op (plain_parameters op).

Definition plain_response_media (op : OperationRef) (value : Value) (pointer : string) : list Media :=
  if is_swagger2 dialect then
    match get "schema" value with
    | Some schema => plain_swagger_types (default ["application/json"] (swagger_media root (or_op op) "produces")) pointer (Some value) (Some schema)
    | None => []
    end
  else plain_content_media value pointer.

Definition plain_responses (op : OperationRef) : list Response :=
  match get "responses" (or_op op) with
  | Some (JObject m) =>
      omap (fun cr => if starts_with cr.1 "x-" then None
        else option_map (fun vp => mkResponse cr.1 vp.2 vp.1 (plain_response_media op vp.1 vp.2)) (plain_resolve root cr.2 (ptr (ptr (or_pointer op) "responses") cr.1))) m
  | _ => []
  end.
End Plain.

(** * What a view computes *)

Section Exact.
Variable dialect : Dialect.
Variable root : Value.
Variable bytes : Z.

Definition work_ok (w : Work) : Prop := meter_ok bytes w.1 /\ cache_ok root (sp_refs w.2).

(** From [w] a step keeps the work well formed and, unless it exhausted the
    meter, gives [plain]. *)
Definition exact {X} (w : Work) (v : X * Work) (plain : X) : Prop :=
  work_ok v.2 /\ (exhausted v.2 = false -> v.1 = plain /\ exhausted w = false).

Lemma exact_ret {X} w (x : X) : work_ok w -> exact w (x, w) x.
Proof. by split. Qed.

Lemma exact_bind {X Y} w (m : X * Work) (k : X -> Work -> Y * Work) p q y : exact w m p -> (forall x w', work_ok w' -> exact w' (k x w') (q x)) -> q p = y ->
  exact w (let '(x, w') := m in k x w') y.
Proof.
  intros [H1 H2] Hk <-. destruct m as [x w']. cbn in *. destruct (Hk x w' H1) as [K1 K2]. split; [done|].
  intros He. destruct (K2 He) as [-> He']. by destruct (H2 He') as [-> ?].
Qed.

Lemma exact_charge n w : 0 <= n -> work_ok w -> exact w (charge_work n w) true.
Proof.
  intros Hn [Hm Hc]. unfold charge_work, exact, work_ok, exhausted. pose proof (charge_ok bytes n w.1 Hn Hm) as H. destruct (charge n w.1) as [ok m].
  destruct H as (H1 & H2 & H3). cbn. split; [done|]. intros He. destruct ok; [|destruct H3; congruence]. split; [done|].
  apply not_true_iff_false. by intros [? _]%H2.
Qed.

(** A charge that is refused exhausts the meter: what follows does not count. *)
Lemma exact_charged {X} n w (k : Work -> X * Work) x plain : 0 <= n -> work_ok w -> (forall w', work_ok w' -> exact w' (k w') plain) ->
  exact w (let '(ok, w') := charge_work n w in if ok then k w' else (x, w')) plain.
Proof.
  intros Hn Hw Hk. apply (exact_bind w (charge_work n w) (fun ok w' => if ok then k w' else (x, w')) true (fun ok : bool => if ok then plain else x));
    [by apply exact_charge| |done]. intros ok w' Hw'. destruct ok; [by apply Hk|by apply exact_ret].
Qed.

Lemma exact_resolve v at_ w : work_ok w -> exact w (resolve_work root v at_ w) (plain_resolve root v at_).
Proof.
  intros [Hm Hc]. unfold resolve_work, exact, work_ok, exhausted. pose proof (resolve_within_ok root bytes v at_ w.1 w.2 Hm Hc) as H.
  destruct (resolve_within root v at_ w.1 w.2) as [[x m] s]. destruct H as (H1 & H2 & H3 & _ & _ & H6). cbn. split; [done|]. intros He. destruct (H6 He) as [-> _].
  split; [done|]. apply not_true_iff_false. intros Hx. destruct (H3 Hx) as [_ ->]. congruence.
Qed.

Lemma exact_each {A B} (one : nat -> A -> Work -> option B * bool * Work) f : (forall i x w, work_ok w -> exact w (one i x w) (f i x, true)) ->
  forall l i w, work_ok w -> exact w (each one i l w) (plain_each f i l).
Proof.
  intros Hone. induction l as [|x l IH]; intros i w Hw; cbn [each plain_each]; [by apply exact_ret|].
  destruct (exhausted w) eqn:Ew; [split; [done|]; cbn; congruence|].
  destruct (Hone i x w Hw) as [H1 H2]. destruct (one i x w) as [[y go_on] w1]. cbn [fst snd] in *.
  destruct go_on.
  - specialize (IH (S i) w1 H1). destruct IH as [I1 I2]. destruct (each one (S i) l w1) as [ys w2]. cbn in *. split; [done|].
    intros He. destruct (I2 He) as [-> He1]. destruct (H2 He1) as [[= ->] _]. done.
  - split; [done|]. cbn. intros He. by destruct (H2 He) as [[=] _].
Qed.

Lemma plain_each_omap {A B} (f : A -> option B) l : forall i, plain_each (fun _ => f) i l = omap f l.
Proof. induction l as [|x l IH]; intros i; cbn; [done|]. rewrite IH. by destruct (f x). Qed.

Ltac nonneg := unfold ENTRY_BYTES; repeat match goal with |- context [str_len ?s] => lazymatch goal with H : 0 <= str_len s |- _ => fail | _ => pose proof (str_len_nonneg s) end end; lia.

Lemma exact_parameter_list owner pointer w : work_ok w -> exact w (parameter_list root owner pointer w) (plain_parameter_list root owner pointer, true).
Proof.
  intros Hw. unfold parameter_list, plain_parameter_list. destruct (x ← get "parameters" owner; as_array x) as [l|]; [|by apply exact_ret].
  apply exact_charged; [nonneg|done|]. intros w1 Hw1.
  eapply (exact_bind w1 (each _ 0 l w1) (fun ps w => (ps, true, w)) _ (fun ps => (ps, true))); [|intros ps w2 Hw2; by apply exact_ret|reflexivity].
  apply exact_each; [|done]. intros i raw w2 Hw2. unfold one_parameter.
  eapply (exact_bind w2 (resolve_work root raw _ w2) _ _ (fun x => (option_map (fun vp => mkParam (default "" (get_str "name" vp.1)) (default "" (get_str "in" vp.1)) vp.1 vp.2) x, true)));
    [by apply exact_resolve| |reflexivity].
  intros [[p q]|] w3 Hw3; [|by apply exact_ret]. apply exact_charged; [nonneg|done|]. intros w4 Hw4. by apply exact_ret.
Qed.

Lemma exact_parameter_lists op w : work_ok w ->
  exact w (parameter_lists root op w) (plain_parameter_list root (or_item op) (or_item_pointer op), plain_parameter_list root (or_op op) (or_pointer op)).
Proof.
  intros Hw. unfold parameter_lists.
  eapply (exact_bind w (parameter_list root _ _ w) _ _ (fun lg : list Param * bool => if lg.2 then (lg.1, plain_parameter_list root (or_op op) (or_pointer op)) else (lg.1, [])));
    [by apply exact_parameter_list| |reflexivity].
  intros [l1 go_on] w1 Hw1. cbn [fst snd]. destruct go_on; [|by apply exact_ret].
  eapply (exact_bind w1 (parameter_list root _ _ w1) _ _ (fun lg : list Param * bool => (l1, lg.1))); [by apply exact_parameter_list| |reflexivity].
  intros [l2 go_on] w2 Hw2. by apply exact_ret.
Qed.

(** Entries of one name and location: the last stays. *)
Definition parameter_key (p : Param) : string * string := (pm_name p, pm_location p).

Lemma same_parameter_key p q : same_parameter p q = true <-> parameter_key p = parameter_key q.
Proof. unfold same_parameter, parameter_key. rewrite andb_true_iff, !String.eqb_eq. split; [by intros [-> ->]|by intros [= -> ->]]. Qed.

Lemma last_wins_snoc l p : last_wins (l ++ [p]) = List.filter (fun q => negb (same_parameter p q)) (last_wins l) ++ [p].
Proof.
  induction l as [|x l IH]; cbn; [done|]. rewrite existsb_app, IH. cbn. rewrite orb_false_r.
  assert (Hsym : same_parameter x p = same_parameter p x) by (apply eq_true_iff_eq; rewrite !same_parameter_key; naive_solver).
  destruct (existsb (same_parameter x) l); cbn [orb]; [done|]. cbn. rewrite Hsym. by destruct (same_parameter p x).
Qed.

Lemma omap_clear (out : list (option Param)) : forall prev (P : Param -> bool), (forall i q, out !! i = Some (Some q) -> P q = true <-> i = prev) ->
  omap id (<[prev := None]> out) = List.filter (fun q => negb (P q)) (omap id out).
Proof.
  induction out as [|[x|] out IH]; intros prev P HP; [done| |].
  - pose proof (HP 0%nat x eq_refl) as H0. cbn. destruct prev as [|prev]; cbn.
    + rewrite (proj2 H0 eq_refl). cbn. assert (Hrest : forall i q, out !! i = Some (Some q) -> P q = false).
      { intros i q Hi. apply not_true_iff_false. rewrite (HP (S i) q Hi). done. }
      clear -Hrest. induction out as [|[y|] out IH]; cbn; [done| |]; [|apply IH; intros i; by apply (Hrest (S i))].
      rewrite (Hrest 0%nat y eq_refl). cbn. f_equal. apply IH. intros i. by apply (Hrest (S i)).
    + assert (E : P x = false) by (apply not_true_iff_false; by rewrite H0). rewrite E. cbn. f_equal. apply IH. intros i q Hi. rewrite (HP (S i) q Hi). lia.
  - cbn. destruct prev as [|prev]; cbn.
    + assert (Hrest : forall i q, out !! i = Some (Some q) -> P q = false).
      { intros i q Hi. apply not_true_iff_false. rewrite (HP (S i) q Hi). done. }
      clear -Hrest. induction out as [|[y|] out IH]; cbn; [done| |]; [|apply IH; intros i; by apply (Hrest (S i))].
      rewrite (Hrest 0%nat y eq_refl). cbn. f_equal. apply IH. intros i. by apply (Hrest (S i)).
    + apply IH. intros i q Hi. rewrite (HP (S i) q Hi). lia.
Qed.

Lemma filter_keeps {A} (f : A -> bool) l : (forall x, x ∈ l -> f x = true) -> List.filter f l = l.
Proof. induction l as [|x l IH]; intros H; cbn; [done|]. rewrite (H x) by left. f_equal. apply IH. intros y Hy. apply H. by right. Qed.

(** Where [merge_parameters] stands after the entries [l]. *)
Definition merged (l : list Param) (acc : list (option Param) * gmap (string * string) nat) : Prop :=
  omap id acc.1 = last_wins l /\ (forall k i, acc.2 !! k = Some i <-> exists q, acc.1 !! i = Some (Some q) /\ parameter_key q = k).

Lemma merge_parameter_ok l acc p : merged l acc -> merged (l ++ [p]) (merge_parameter acc p).
Proof.
  destruct acc as [out index]. intros [H1 H2]. cbn in H1, H2. unfold merge_parameter, merged. cbn [fst snd]. change (pm_name p, pm_location p) with (parameter_key p).
  set (out' := match index !! parameter_key p with Some prev => <[prev := None]> out | None => out end).
  assert (Hlen : List.length out' = List.length out) by (unfold out'; destruct (index !! _); [apply length_insert|done]).
  assert (Hlook : forall i q, out' !! i = Some (Some q) <-> out !! i = Some (Some q) /\ parameter_key q <> parameter_key p).
  { intros i q. unfold out'. destruct (index !! parameter_key p) as [prev|] eqn:E.
    - apply H2 in E as HE. destruct HE as (q0 & Hq0 & Hk). destruct (decide (i = prev)) as [->|Hne].
      + rewrite list_lookup_insert_eq by (by eapply lookup_lt_Some). rewrite Hq0. split; [done|]. by intros [[= ->] ?].
      + rewrite list_lookup_insert_ne by done. split; [|by intros [? _]]. intros Hi. split; [done|]. intros Hkq.
        assert (index !! parameter_key p = Some i) by (apply H2; eauto). congruence.
    - split; [|by intros [? _]]. intros Hi. split; [done|]. intros Hkq. assert (index !! parameter_key p = Some i) by (apply H2; eauto). congruence. }
  split.
  - rewrite omap_app, last_wins_snoc, <-H1. cbn. f_equal. unfold out'. destruct (index !! parameter_key p) as [prev|] eqn:E.
    + apply omap_clear. intros i q Hi. rewrite same_parameter_key. split.
      * intros Hk. assert (index !! parameter_key p = Some i) by (apply H2; eauto). congruence.
      * intros ->. apply H2 in E as (q0 & Hq0 & Hk). congruence.
    + symmetry. apply filter_keeps. intros q (oq & Hoq & Hid)%list_elem_of_omap. cbn in Hid. subst oq. apply list_elem_of_lookup_1 in Hoq as (i & Hi).
      apply negb_true_iff, not_true_iff_false. rewrite same_parameter_key. intros Hk. assert (index !! parameter_key p = Some i) by (apply H2; eauto). congruence.
  - intros k i. rewrite lookup_insert_Some. split.
    + intros [[<- <-]|[Hne (q & Hq & Hk)%H2]].
      * exists p. by rewrite lookup_app_r, Hlen, Nat.sub_diag by lia.
      * exists q. split; [|done]. apply lookup_app_l_Some, Hlook. split; [done|]. by rewrite Hk.
    + intros (q & [Hq|[Hge Hq]]%lookup_app_Some & Hk).
      * apply Hlook in Hq as [Hq Hne]. right. split; [congruence|]. apply H2. eauto.
      * apply list_lookup_singleton_Some in Hq as [Hz [= <-]]. left. split; [done|lia].
Qed.

Lemma merge_last_wins l1 l2 : merge_parameters (l1, l2) = last_wins (l1 ++ l2).
Proof.
  unfold merge_parameters. cbn [fst snd]. generalize (l1 ++ l2) as l. intros l.
  assert (H : merged l (fold_left merge_parameter l ([], ∅))); [|by destruct H].
  induction l as [|p l IH] using rev_ind.
  - split; [done|]. intros k i. cbn. rewrite lookup_empty. split; [done|]. by intros (q & ? & _).
  - rewrite fold_left_app. by apply merge_parameter_ok.
Qed.

Lemma exact_parameters op w : work_ok w -> exact w (parameters root op w) (plain_parameters root op).
Proof.
  intros Hw. unfold parameters.
  destruct (exact_parameter_lists op w Hw) as [H1 H2]. destruct (parameter_lists root op w) as [[l1 l2] w1]. cbn [fst snd] in *. split; [done|].
  cbn. intros He. destruct (H2 He) as [[= -> ->] ?]. split; [|done]. apply merge_last_wins.
Qed.

Lemma plain_types_omap l : forall i, plain_each (fun (_ : nat) v => as_str v) i l = omap as_str l.
Proof. apply plain_each_omap. Qed.

Lemma exact_swagger_media op field default_ w : work_ok w ->
  exact w (swagger_media_within root op field default_ w) (default [default_] (swagger_media root op field)).
Proof.
  intros Hw. unfold swagger_media_within, swagger_media, list_of_strings.
  assert (Hone : forall l, exact w (each one_type 0 l w) (omap as_str l)).
  { intros l. rewrite <-(plain_types_omap l 0). apply exact_each; [|done]. intros i v w1 Hw1. unfold one_type.
    apply exact_charged; [destruct (as_str v); cbn; nonneg|done|]. intros w2 Hw2. by apply exact_ret. }
  destruct (x ← get field op; as_array x) as [l|]; cbn; [apply Hone|]. destruct (x ← get field root; as_array x) as [l|]; cbn; [apply Hone|]. by apply exact_ret.
Qed.

Lemma exact_swagger_types types pointer object schema w : work_ok w ->
  exact w (swagger_types types pointer object schema w) (plain_swagger_types types pointer object schema).
Proof.
  intros Hw. unfold swagger_types, plain_swagger_types. set (f := fun mt => mkMedia mt _ _ _ _).
  assert (E : map f types = plain_each (fun (_ : nat) mt => Some (f mt)) 0 types).
  { generalize 0%nat. induction types as [|mt types IH]; intros i; cbn; [done|]. by rewrite <-IH. }
  rewrite E. apply exact_each; [|done]. intros i mt w1 Hw1. unfold one_swagger_type. apply exact_charged; [nonneg|done|]. intros w2 Hw2. by apply exact_ret.
Qed.

Lemma exact_content_media owner owner_ptr w : work_ok w -> exact w (content_media root owner owner_ptr w) (plain_content_media root owner owner_ptr).
Proof.
  intros Hw. unfold content_media, plain_content_media. destruct (get "content" owner) as [[| | | | |content]|]; try by apply exact_ret.
  apply exact_charged; [nonneg|done|]. intros w1 Hw1. set (f := fun m : string * Value => option_map _ _).
  rewrite <-(plain_each_omap f content 0). apply exact_each; [|done]. intros i [mt obj] w2 Hw2. unfold one_content, f. cbn [fst snd].
  eapply (exact_bind w2 (resolve_work root obj _ w2) _ _ (fun x => (option_map (fun vp => mkMedia mt vp.2 (Some vp.1) (get "schema" vp.1) (ptr vp.2 "schema")) x, true)));
    [by apply exact_resolve| |reflexivity].
  intros [[p q]|] w3 Hw3; [|by apply exact_ret]. apply exact_charged; [nonneg|done|]. intros w4 Hw4. by apply exact_ret.
Qed.

Lemma exact_swagger_body op default_ p object schema required w : work_ok w ->
  exact w (swagger_body root op default_ p object schema required w) (Some (plain_swagger_body root op default_ p object schema required)).
Proof.
  intros Hw. unfold swagger_body, plain_swagger_body.
  eapply (exact_bind w (swagger_media_within root (or_op op) "consumes" default_ w) _ _
    (fun types => Some (mkRequestBody (pm_pointer p) (pm_value p) required (plain_swagger_types types (pm_pointer p) object schema)))); [by apply exact_swagger_media| |reflexivity].
  intros types w1 Hw1. apply exact_charged; [nonneg|done|]. intros w2 Hw2.
  eapply (exact_bind w2 (swagger_types _ _ _ _ w2) (fun media w => (Some (mkRequestBody (pm_pointer p) (pm_value p) required media), w)) _
    (fun media => Some (mkRequestBody (pm_pointer p) (pm_value p) required media))); [by apply exact_swagger_types| |reflexivity].
  intros media w3 Hw3. by apply exact_ret.
Qed.

Lemma exact_body_of op params w : work_ok w -> exact w (body_of dialect root op params w) (plain_body_of dialect root op params).
Proof.
  intros Hw. unfold body_of, plain_body_of. destruct (is_swagger2 dialect).
  - destruct (List.find _ params) as [body|]; [by apply exact_swagger_body|]. cbv zeta. set (form := List.filter _ params).
    assert (Hf : forall form', form' = form -> exact w (match form' with [] => (None, w) | first :: _ =>
        swagger_body root op (if existsb (fun p => bool_decide (get_str "type" (pm_value p) = Some "file")) form then "multipart/form-data" else "application/x-www-form-urlencoded")
          first None None (existsb (fun p => opt_bool (pm_value p) "required") form) w end)
      (option_map (fun first => plain_swagger_body root op
        (if existsb (fun p => bool_decide (get_str "type" (pm_value p) = Some "file")) form then "multipart/form-data" else "application/x-www-form-urlencoded")
        first None None (existsb (fun p => opt_bool (pm_value p) "required") form)) (head form'))).
    { intros [|first form'] _; [by apply exact_ret|by apply exact_swagger_body]. }
    by apply Hf.
  - destruct (get "requestBody" (or_op op)) as [raw|]; [|by apply exact_ret]. cbn.
    eapply (exact_bind w (resolve_work root raw _ w) _ _ (option_map (fun vp => mkRequestBody vp.2 vp.1 (opt_bool vp.1 "required") (plain_content_media root vp.1 vp.2))));
      [by apply exact_resolve| |reflexivity].
    intros [[value pointer]|] w1 Hw1; [|by apply exact_ret]. cbn.
    eapply (exact_bind w1 (content_media root value pointer w1) (fun media w => (Some (mkRequestBody pointer value (opt_bool value "required") media), w)) _
      (fun media => Some (mkRequestBody pointer value (opt_bool value "required") media))); [by apply exact_content_media| |reflexivity].
    intros media w2 Hw2. by apply exact_ret.
Qed.

Lemma exact_request_body op w : work_ok w -> exact w (request_body dialect root op w) (plain_request_body dialect root op).
Proof.
  intros Hw. unfold request_body, plain_request_body. destruct (is_swagger2 dialect) eqn:E.
  - eapply (exact_bind w (parameters root op w) (body_of dialect root op) _ (plain_body_of dialect root op)); [by apply exact_parameters| |reflexivity].
    intros params w1 Hw1. by apply exact_body_of.
  - assert (Hp : plain_body_of dialect root op (plain_parameters root op) = plain_body_of dialect root op []) by (unfold plain_body_of; by rewrite E).
    rewrite Hp. by apply exact_body_of.
Qed.

Lemma exact_responses op w : work_ok w -> exact w (responses dialect root op w) (plain_responses dialect root op).
Proof.
  intros Hw. unfold responses, plain_responses. destruct (get "responses" (or_op op)) as [[| | | | |m]|]; try by apply exact_ret.
  apply exact_charged; [nonneg|done|]. intros w1 Hw1.
  set (produces := default ["application/json"] (swagger_media root (or_op op) "produces")).
  set (media_of := fun (produces : list string) value pointer => if is_swagger2 dialect then
      match get "schema" value with Some schema => plain_swagger_types produces pointer (Some value) (Some schema) | None => [] end else plain_content_media root value pointer).
  set (one := fun produces (cr : string * Value) => if starts_with cr.1 "x-" then None
    else option_map (fun vp => mkResponse cr.1 vp.2 vp.1 (media_of produces vp.1 vp.2)) (plain_resolve root cr.2 (ptr (ptr (or_pointer op) "responses") cr.1))).
  eapply (exact_bind w1 (if is_swagger2 dialect then swagger_media_within root (or_op op) "produces" "application/json" w1 else ([], w1)) _
    (if is_swagger2 dialect then produces else []) (fun produces => omap (one produces) m)).
  - destruct (is_swagger2 dialect); [by apply exact_swagger_media|by apply exact_ret].
  - intros ps w2 Hw2. rewrite <-(plain_each_omap (one ps) m 0). apply exact_each; [|done]. intros i [code raw] w3 Hw3. unfold one_response, one. cbn [fst snd].
    destruct (starts_with code "x-"); [by apply exact_ret|].
    eapply (exact_bind w3 (resolve_work root raw _ w3) _ _ (fun x => (option_map (fun vp => mkResponse code vp.2 vp.1 (media_of ps vp.1 vp.2)) x, true)));
      [by apply exact_resolve| |reflexivity].
    intros [[value pointer]|] w4 Hw4; [|by apply exact_ret]. apply exact_charged; [nonneg|done|]. intros w5 Hw5. cbn.
    eapply (exact_bind w5 _ (fun media w => (Some (mkResponse code pointer value media), true, w)) (media_of ps value pointer)
      (fun media => (Some (mkResponse code pointer value media), true))); [|intros media w6 Hw6; by apply exact_ret|reflexivity].
    unfold media_of. destruct (is_swagger2 dialect); cbn [negb]; [|by apply exact_content_media]. destruct (get "schema" value); [by apply exact_swagger_types|by apply exact_ret].
  - unfold one, media_of, plain_response_media. destruct (is_swagger2 dialect); done.
Qed.
End Exact.

(** * Views of many operations

    An analysis charges the views of the operations it looks at to one
    meter. *)
Record View := mkView { vw_parameters : list Param; vw_body : option RequestBody; vw_responses : list Response }.

Definition view (dialect : Dialect) (root : Value) (op : OperationRef) (w : Work) : View * Work :=
  let '(params, w) := parameters root op w in
  let '(body, w) := body_of dialect root op params w in
  let '(rs, w) := responses dialect root op w in (mkView params body rs, w).

Fixpoint views (dialect : Dialect) (root : Value) (ops : list OperationRef) (w : Work) : list View * Work :=
  match ops with
  | [] => ([], w)
  | op :: ops' => let '(v, w) := view dialect root op w in let '(vs, w) := views dialect root ops' w in (v :: vs, w)
  end.

Definition plain_view (dialect : Dialect) (root : Value) (op : OperationRef) : View :=
  mkView (plain_parameters root op) (plain_request_body dialect root op) (plain_responses dialect root op).

Lemma exact_view dialect root bytes op w : work_ok root bytes w -> exact root bytes w (view dialect root op w) (plain_view dialect root op).
Proof.
  intros Hw. unfold view, plain_view, plain_request_body.
  eapply (exact_bind root bytes w (parameters root op w) _ _ (fun ps => mkView ps (plain_body_of dialect root op ps) (plain_responses dialect root op))); [by apply exact_parameters| |reflexivity].
  intros ps w1 Hw1.
  eapply (exact_bind root bytes w1 (body_of dialect root op ps w1) _ _ (fun b => mkView ps b (plain_responses dialect root op))); [by apply exact_body_of| |reflexivity].
  intros b w2 Hw2.
  eapply (exact_bind root bytes w2 (responses dialect root op w2) (fun rs w => (mkView ps b rs, w)) _ (fun rs => mkView ps b rs)); [by apply exact_responses| |reflexivity].
  intros rs w3 Hw3. by apply exact_ret.
Qed.

(** C14: the parameters, request bodies and responses of any operations,
    charged to one meter after any other resolutions, never cost more than the
    meter allows; unless it is exhausted they are exactly what resolving every
    reference anew gives, an operation's parameter replacing its Path Item's of
    the same name and location. *)
Theorem views_exact dialect root queries ops bytes : 0 <= bytes ->
  let '(vs, w) := views dialect root ops (Meter_new bytes, (reach_all root queries SpecState_new).2) in
  mt_left w.1 + mt_spent w.1 = bytes /\ 0 <= mt_left w.1 /\
  (mt_exhausted w.1 = false -> vs = map (plain_view dialect root) ops).
Proof.
  intros Hb. assert (Hgen : forall ops w, work_ok root bytes w -> exact root bytes w (views dialect root ops w) (map (plain_view dialect root) ops)).
  { clear ops. induction ops as [|op ops IH]; intros w Hw; cbn [views map]; [by apply exact_ret|].
    eapply (exact_bind root bytes w (view dialect root op w) _ _ (fun v => v :: map (plain_view dialect root) ops)); [by apply exact_view| |reflexivity].
    intros v w1 Hw1. eapply (exact_bind root bytes w1 (views dialect root ops w1) (fun vs w => (v :: vs, w)) _ (fun vs => v :: vs)); [by apply IH| |reflexivity].
    intros vs w2 Hw2. by apply exact_ret. }
  pose proof (reach_all_ok root queries SpecState_new (cache_ok_default root)) as Hq. destruct (reach_all root queries SpecState_new) as [xs s]. destruct Hq as (Hc & _).
  specialize (Hgen ops (Meter_new bytes, s)). destruct (views dialect root ops _) as [vs w]. destruct Hgen as [[(H1 & H2 & _) _] H3].
  - split; [unfold meter_ok; cbn; lia|done].
  - split; [done|]. split; [done|]. intros He. by apply H3.
Qed.

(** * An operation *)

Definition demo_op_document : Value := JObject [
  ("openapi", JString "3.1.0");
  ("components", JObject [
    ("parameters", JObject [("Limit", JObject [("name", JString "limit"); ("in", JString "query")])]);
    ("responses", JObject [("Gone", JObject [("description", JString "gone")])])])].

Definition demo_operation : OperationRef := mkOperationRef "get" "/pets/{id}" "/paths/~1pets~1{id}/get"
  (JObject [
    ("parameters", JArray [ref_to "#/components/parameters/Limit"; JObject [("name", JString "id"); ("in", JString "path"); ("required", JBool true)]; ref_to "#/missing"]);
    ("requestBody", JObject [("required", JBool true); ("content", JObject [("application/json", JObject [("schema", JBool true)])])]);
    ("responses", JObject [("200", JObject [("content", JObject [("text/plain", JObject [])])]); ("x-note", JNull); ("410", ref_to "#/components/responses/Gone")])])
  (JObject [("parameters", JArray [JObject [("name", JString "id"); ("in", JString "path")]; JObject [("name", JString "id"); ("in", JString "query")]])])
  "/paths/~1pets~1{id}".

Definition demo_view (bytes : Z) : View * Work := view OpenApi31 demo_op_document demo_operation (Meter_new bytes, SpecState_new).

Example demo_viewed : let '(v, w) := demo_view 4096 in
  (map (fun p => (pm_name p, pm_location p, pm_pointer p)) (vw_parameters v), option_map rb_required (vw_body v), map (fun r => (rs_code r, rs_pointer r, List.length (rs_media r))) (vw_responses v),
   exhausted w) =
  ([("id", "query", "/paths/~1pets~1{id}/parameters/1"); ("limit", "query", "/components/parameters/Limit"); ("id", "path", "/paths/~1pets~1{id}/get/parameters/1")],
   Some true, [("200", "/paths/~1pets~1{id}/get/responses/200", 1%nat); ("410", "/components/responses/Gone", 0%nat)], false).
Proof. vm_compute. reflexivity. Qed.

(** A meter that does not last: the views stop short and it says so. *)
Example demo_short : let '(v, w) := demo_view 400 in (List.length (vw_parameters v), vw_body v, List.length (vw_responses v), exhausted w, mt_spent w.1 <=? 400) =
  (2%nat, None, 0%nat, true, true).
Proof. vm_compute. reflexivity. Qed.

Example demo_names : (template_params "/a/{b}/c{d}.{e", schema_types (JObject [("type", JArray [JString "null"; JString "string"])])) =
  (["b"; "d"], (Some "string", ["string"], true)).
Proof. vm_compute. reflexivity. Qed.

Lemma views_exact_witness : let '(vs, w) := views OpenApi31 demo_op_document [demo_operation; demo_operation] (Meter_new 8192, SpecState_new) in
  mt_exhausted w.1 = false /\ vs = map (plain_view OpenApi31 demo_op_document) [demo_operation; demo_operation].
Proof.
  pose proof (views_exact OpenApi31 demo_op_document [] [demo_operation; demo_operation] 8192 ltac:(lia)) as H.
  assert (E : exhausted (views OpenApi31 demo_op_document [demo_operation; demo_operation] (Meter_new 8192, SpecState_new)).2 = false) by (vm_compute; reflexivity).
  cbn [reach_all snd] in H. destruct (views _ _ _ _) as [vs w]. destruct H as (_ & _ & H). unfold exhausted in E. cbn [snd] in E. split; [exact E|exact (H E)].
Defined.
